(* ===== verification/_CoqProject ===== *)
-Q . S2P
Prelude.v
GoLib.v
Store.v
File.v
Journal.v
ChangeMap.v
ChangeHistory.v
Events.v
UndoStore.v
Utf8.v
Options.v
Effects.v
Scan.v
Session.v
TreeText.v
JournalText.v
SessionText.v
SessionHistory.v
SessionEdit.v
Editor.v
SessionFrame.v
SessionRecovery.v
SessionPending.v
SessionReplay.v
Compaction.v
Save.v
SysFiles.v
Rebase.v
Commit.v
CommitStream.v
CommitCheck.v
CommitBase.v
CommitSave.v
Launch.v
LaunchHandle.v
LaunchJournal.v
LaunchBase.v
LaunchSession.v
LaunchOpen.v
Cleanup.v
CleanupSafe.v
Lifecycle.v
Polling.v
Index.v
IndexQuery.v
IndexBuild.v
Virtual.v
VirtualPages.v
VirtualPublish.v
VirtualPager.v
VirtualWindow.v
VirtualProgress.v
VirtualTasks.v
