(* ===== verification/Prelude.v ===== *)
(** * Docengine: a verification library

    Docengine is a text-document engine in Go.  A session keeps a document as a
    piece tree over the base file, makes every edit durable in a recovery journal
    before it publishes it, keeps undo texts in a temporary file, tells readers
    what changed, and saves by atomic replacement.  The library models its core
    and proves what each part promises and that the parts keep their promises
    together.

    ** The files, bottom up

    - Prelude (this file): machine integers with their wrap-around, Go errors and
      [result], byte lists with [int64] positions, counting; notations in
      [go_scope], the tactics [unwrap64], [go_lia], [zlen_lia], the [zlen] hints.
    - GoLib: what is used of Go's library: [io.ReaderAt] as a class with its
      contract, [io.Writer] and [io.CopyN], [sort.Search], encoding/binary,
      contexts as the answers of successive polls.
    - File: an operating-system file with a fault script, and the bytes at its last
      sync.
    - Store: document/store/tree.go, the treap of pieces.  Abstraction: the
      in-order list of pieces and their content.  TreeText restates its
      theorems as "the tree holds this text".
    - Journal: recovery/journal.go, the byte format, append with rollback, replay
      and repair.  JournalText restates them for the session.
    - ChangeMap, ChangeHistory: document/coordinate/changemap.go and
      document/change_history.go, anchors through edits, the ring of changes.
    - Events: document/events.go, the event hub with bounded subscriptions.
    - UndoStore: document/undo_store.go, the undo texts and their compaction.
    - Utf8, Options: the stream validator of session.go with RFC 3629 as its
      reference, and the limits and directories of options.go.
    - Effects, Scan: computations on any state that may fail, and the two scans of
      a file in session.go on top of them.
    - Session: the state and the operations of session.go that run under [s.mu]
      (staging, commit, undo, redo, history, checkpoints, replay) in a state and
      error monad that polls a context.  SessionText, SessionHistory and
      SessionEdit prove what they do to texts, to the history and to the whole
      session; Editor states the specification; SessionFrame says what edits leave
      alone; SessionRecovery composes a run of a session with the replay of its
      journal, SessionReplay adds the history that the replay rebuilds;
      SessionPending shows what the list of pending edits is.
    - Compaction: document/compaction.go, the part of [Compact] under [s.mu].
    - Save: document/save and persistence_events.go, atomic replacement over a
      disk that remembers every directory it went through and every sync of one.
      SysFiles: how stat and open show the files of such a disk.
    - Rebase: the journal of the edits since a snapshot, in a file of its own.
      Commit: [commitAtLeast] with its stages, on a session and a disk, where other
      goroutines may act on the session whenever it is unlocked.  CommitStream,
      CommitCheck and CommitBase prove the stages, CommitSave the whole.
    - Launch: [openSessionContext] and the search for the journal, on a disk whose
      journal file gets what is written through its handle.  LaunchHandle proves what
      the handle does to that file, LaunchJournal the search, LaunchBase the scan of
      the base, LaunchSession the session after the replay, LaunchOpen the whole.
    - Cleanup: document/session_cleanup.go, the marker and the lock of a session's
      directory and the reclaiming of crashed ones; CleanupSafe proves it safe.
    - Lifecycle: generation.go and session_lifecycle.go, source generations,
      leases, the save gate and the shutdown as a step relation of goroutines.
    - Polling: computations that poll a context, and what they may answer.
    - Index: document/coordinate/index.go and cache.go, the coordinate index.
      IndexQuery defines the position of every rune of a text and proves the
      queries exact; IndexBuild proves building and incremental rebuilding.
    - Virtual: document/virtual, the pager, in a monad whose critical sections any
      other goroutine may come between.  VirtualPages proves what a build makes of
      a text, VirtualPublish what a publication makes of those pages; VirtualPager
      has the invariant, what others may do, and the rules to prove an operation
      against them; VirtualWindow, VirtualProgress and VirtualTasks apply them to
      the windows, to publications with their progress, and to the reservations.

    A Go function [f] is the definition [f] of the file for its package; a method
    has its receiver as an argument and returns the new receiver first.  Parts of
    a long function are definitions of their own, named for what they do.

    ** What the theorems show

    - The session refines an editor of document versions (Editor): every run of
      batches, undos and redos, with any context, consumer, fault of the journal
      and of the undo file, is a run of the editor; [ApplyBatch] has the stated
      result, is refused exactly for the stated reasons, and undo and redo travel
      along the versions by the edits of the latest entry, refused exactly when
      [travel_refusal] finds a reason.
    - Whatever was acknowledged is restored by replaying the journal
      (SessionRecovery), and a batch is in the journal entirely or not at all,
      whatever the file system does (Journal).
    - A save replaces the target atomically at every point of its run and its
      error says whether it did (Save); a whole [commitAtLeast] leaves the session
      on the old base with every edit, or on the complete new file with the edits
      since, or faulted with its text - whatever other goroutines edit meanwhile
      (CommitSave, with the rebased journal of Rebase, which is synced and so is its
      directory); [env_ok_runs] shows that the session's own operations are such
      goroutines.
    - Opening a session loses no file and of no journal more than a torn end, gives
      a session only on valid text, with the log of its one journal replayed, and
      does open on a calm system (LaunchOpen); a scan reports exactly what the text
      is (Scan).
    - Reclaiming removes only directories of crashed sessions, whatever fails, and
      all of them on a calm system; a locked marker keeps a second session out, and
      nothing else does (CleanupSafe) - as long as no other process acts between
      the inspection and the removal ([reclaim_race]).
    - Compaction changes neither the text nor the history (Compaction).
    - Leases protect their sources, the base and the journal, in every interleaving;
      budgets are exact, a completed close is final.
    - Each component meets its specification: tree operations against byte
      lists, replay against the batches written, change maps against the text
      they rewrite, subscriptions against the published stream with exact loss
      counts, the undo compaction against the texts it moves, the coordinate
      index against a walk over the runes of its text.
    - The pages of a pager partition its text at any generation, every published
      fragment is exactly its pages, and a window is exactly the pages asked for
      within its budget - whatever other goroutines publish, read or close
      meanwhile, as long as they keep the invariant and count generations up.  A
      publication has orderly progress: a refused report prevents it.

    ** Bounds and fuel

    Integers are of [Z] with explicit wrap-around where Go wraps.  Loops that Go
    bounds by data run on fuel that is the length of the data (copying: the number
    of bytes; replay: the bytes of the file; search: the size of the interval;
    draining: the capacity of a queue; retries: eight; scans and cache eviction:
    the bytes of the text and the entries); the lemmas about them
    assume no more fuel than the callers give, so no theorem holds for lack of it.

    ** Assumptions

    There is no axiom.  Readers keep the documented contract of [io.ReaderAt];
    [reads] of a journal give the bytes of its file; a temporary name is unused;
    files stay below the sizes an [int64] can count where a theorem says so.  Each
    operation of a session holds [s.mu] and is one step; where the code releases
    the lock in the middle (saves, leases, shutdown, every operation of a pager)
    the sections are separate steps.  The interference in the pager's theorems is a
    parameter with one hypothesis, [env_ok]; [runs_env] and the lemmas on the
    shutdown show that the pager's own operations satisfy it.  A save and an opening
    take the hash, the readers and the description of files as parameters with
    their documented behaviour ([system_ok]); the listing of the recovery directory
    names existing files once and the names of a quarantine are unused
    ([listing_ok]), and sorting that listing only permutes it ([sort_ok]).  What an
    opening writes through the handle on its journal is written to the file of that
    name ([write_back]); after the opening, and in a save, the bytes of the handle
    stand for that file, and the disk of a save has only the other files.  Paths joined of
    clean directories and single names tell the two apart ([paths_ok]).

    ** Not modelled

    - The marker and the disk of an opening are separate: what the marker answers is
      an argument of [openSessionContext], and Cleanup has the files below the root
      of the session directories, with no other process between its calls.
    - The loop of periodic syncs, a goroutine over a timer, and the clean-up calls
      of [finishClose], whose order is in Lifecycle.
    - The checkpoint that [Compact] may make first is a call of
      [CommitAtLeastContext]; waiting in the pager's shutdown.
    - The platform files (locks, file identities, opening), which only select
      system calls. *)

From Stdlib Require Import ZArith Lia List.
From Stdlib Require Strings.Byte.
From stdpp Require Import base list numbers gmap.
#[local] Open Scope Z_scope.

Declare Scope go_scope.
Delimit Scope go_scope with go.

(** ** Machine integers

    Go's [int64], [int] (64-bit targets) and [uint64] are integers of [Z]; an
    arithmetic operation wraps its exact result back into the type's range. *)

Definition maxInt64 : Z := 9223372036854775807.
Definition minInt64 : Z := -9223372036854775808.
Definition maxUint64 : Z := 18446744073709551615.
Definition two64 : Z := 18446744073709551616.

Definition i64 (z : Z) : Z := (z + 9223372036854775808) mod two64 - 9223372036854775808.
Definition u64 (z : Z) : Z := z mod two64.

Definition in_i64 (z : Z) : Prop := minInt64 <= z <= maxInt64.
Definition in_u64 (z : Z) : Prop := 0 <= z <= maxUint64.

Notation "a ⊞ b" := (i64 (a + b)) (at level 50, left associativity) : go_scope.
Notation "a ⊟ b" := (i64 (a - b)) (at level 50, left associativity) : go_scope.
Notation "a ⊕ b" := (u64 (a + b)) (at level 50, left associativity) : go_scope.
Notation "a ⊖ b" := (u64 (a - b)) (at level 50, left associativity) : go_scope.
#[global] Open Scope go_scope.

Ltac unfold_ints := unfold in_i64, in_u64, minInt64, maxInt64, maxUint64, two64 in *.

Lemma i64_id z : in_i64 z -> i64 z = z.
Proof. unfold i64; unfold_ints; intros; rewrite Z.mod_small; lia. Qed.

Lemma u64_id z : in_u64 z -> u64 z = z.
Proof. unfold u64; unfold_ints; intros; apply Z.mod_small; lia. Qed.

Lemma i64_range z : in_i64 (i64 z).
Proof. unfold i64; unfold_ints. pose proof (Z.mod_pos_bound (z + 9223372036854775808) 18446744073709551616). lia. Qed.

Lemma u64_range z : in_u64 (u64 z).
Proof. unfold u64; unfold_ints. pose proof (Z.mod_pos_bound z 18446744073709551616). lia. Qed.

(** [unwrap64] removes the wrap-around of every operation that provably stays
    in range; [go_lia] adds the range constants to [lia]. *)
Ltac go_lia := unfold_ints; lia.
Ltac unwrap64_goal :=
  repeat match goal with
  | |- context [i64 ?z] => rewrite (i64_id z) by go_lia
  | |- context [u64 ?z] => rewrite (u64_id z) by go_lia
  end.
Ltac unwrap64_in H :=
  repeat match type of H with
  | context [i64 ?z] => rewrite (i64_id z) in H by go_lia
  | context [u64 ?z] => rewrite (u64_id z) in H by go_lia
  end.
Ltac unwrap64 :=
  repeat match goal with
  | |- context [i64 ?z] => rewrite (i64_id z) by go_lia
  | |- context [u64 ?z] => rewrite (u64_id z) by go_lia
  | H : context [i64 ?z] |- _ => rewrite (i64_id z) in H by go_lia
  | H : context [u64 ?z] |- _ => rewrite (u64_id z) in H by go_lia
  end.

(** ** Errors and fallible results *)

(** The sentinel errors of every package, named [<package>_<name>].  Errors of
    the operating system are opaque codes; [errJoin] is [errors.Join] of two
    non-nil errors and [errWrap] a [fmt.Errorf("...%w")] wrapper. *)
Inductive error : Type :=
| io_EOF | io_ErrUnexpectedEOF | io_ErrShortWrite
| store_ErrInvalidRange | store_ErrInvalidPiece | store_ErrInvalidOptions
| store_ErrLengthOverflow | store_ErrUnknownSource
| recovery_ErrStaleJournal | recovery_ErrUnsupportedJournal | recovery_ErrCorruptJournal
| recovery_ErrClosed | recovery_ErrInvalidBatch | recovery_errInvalidRepairOffset
| coordinate_ErrInvalidChange | coordinate_ErrInvalidAffinity | coordinate_ErrInvalidRange
| coordinate_ErrInvertedRange | coordinate_ErrRevisionMismatch | coordinate_ErrLengthMismatch
| coordinate_ErrTooComplex | coordinate_ErrInvalidOffset | coordinate_ErrInvalidContext
| coordinate_ErrInvalidSource | coordinate_ErrInvalidOptions | coordinate_ErrInvalidUTF8
| coordinate_ErrNotRuneBoundary | coordinate_ErrInvalidPosition | coordinate_ErrClosed
| coordinate_ErrSourceInconsistent | coordinate_ErrInvalidIndex | coordinate_ErrLineageMismatch
| document_ErrRevisionConflict | document_ErrInvalidUTF8 | document_ErrInvalidUTF8Boundary
| document_ErrInvalidContext | document_ErrClosed | document_ErrNothingToUndo
| document_ErrNothingToRedo | document_ErrExternalChange | document_ErrRevisionOverflow
| document_ErrFaulted | document_ErrInvalidOptions | document_ErrLimitExceeded
| document_ErrChangeHistoryExpired | document_ErrRevisionUnavailable
| document_ErrInvalidSubscription | document_ErrEventSequence | document_errUndoQuota
| virtual_ErrInvalidContext | virtual_ErrInvalidSource | virtual_ErrInvalidOptions
| virtual_ErrInvalidRequest | virtual_ErrInvalidPublication | virtual_ErrInvalidFragment
| virtual_ErrInvalidUTF8 | virtual_ErrSourceInconsistent | virtual_ErrRevisionMismatch
| virtual_ErrStaleGeneration | virtual_ErrGenerationOverflow | virtual_ErrBudgetExceeded
| virtual_ErrNotFound | virtual_ErrMeasureUnavailable | virtual_ErrBusy | virtual_ErrClosed
| virtual_ErrInvalidPager | virtual_ErrLineageMismatch | virtual_ErrOperationOverflow
| errOS (code : Z)
| errMsg (code : Z)
| errDurability (cause : error)
| errJoin (e1 e2 : error)
| errWrap (code : Z) (e : error)
| errRecoveryOpen (journalPath quarantinedPath reason : list Byte.byte) (e : error).

#[export] Instance byte_eq_dec : EqDecision Byte.byte := Byte.byte_eq_dec.
#[export] Instance error_eq_dec : EqDecision error.
Proof. solve_decision. Defined.

(** [errors.Is(err, target)] for a sentinel target: the error itself or any
    error it wraps or joins. *)
Fixpoint errors_Is (e target : error) : bool :=
  bool_decide (e = target) ||
  match e with
  | errJoin e1 e2 => errors_Is e1 target || errors_Is e2 target
  | errDurability e1 | errWrap _ e1 | errRecoveryOpen _ _ _ e1 => errors_Is e1 target
  | _ => false
  end.

(** [errors.Join] on possibly nil errors. *)
Definition errors_Join (e1 e2 : option error) : option error :=
  match e1, e2 with
  | None, e | e, None => e
  | Some a, Some b => Some (errJoin a b)
  end.

Lemma errors_Join_None e1 e2 : errors_Join e1 e2 = None <-> e1 = None /\ e2 = None.
Proof. destruct e1, e2; simpl; naive_solver. Qed.

Inductive result (A : Type) : Type :=
| Ok (a : A)
| Err (e : error).
Arguments Ok {A} _.
Arguments Err {A} _.

Definition res_bind {A B} (c : result A) (k : A -> result B) : result B :=
  match c with Ok a => k a | Err e => Err e end.

Notation "'let?' x ':=' c 'in' k" := (res_bind c (fun x => k))
  (at level 200, x pattern, c at level 100, k at level 200) : go_scope.

Lemma res_bind_Ok {A B} (c : result A) (k : A -> result B) b :
  res_bind c k = Ok b <-> exists a, c = Ok a /\ k a = Ok b.
Proof. destruct c; simpl; naive_solver. Qed.

(** ** Byte slices with [int64] positions *)

Notation byte := Byte.byte.

Definition b2z (b : byte) : Z := Z.of_N (Byte.to_N b).
Definition z2b (z : Z) : byte :=
  match Byte.of_N (Z.to_N (z mod 256)) with Some b => b | None => Byte.x00 end.

Lemma b2z_range b : 0 <= b2z b < 256.
Proof. unfold b2z. pose proof (Byte.to_N_bounded b). lia. Qed.

Lemma z2b_b2z b : z2b (b2z b) = b.
Proof.
  unfold z2b. rewrite Z.mod_small by apply b2z_range. unfold b2z.
  by rewrite N2Z.id, Byte.of_to_N.
Qed.

Lemma b2z_z2b z : b2z (z2b z) = z mod 256.
Proof.
  unfold z2b, b2z. pose proof (Z.mod_pos_bound z 256).
  destruct (Byte.of_N (Z.to_N (z mod 256))) as [b|] eqn:E.
  - apply Byte.to_of_N in E. rewrite E. lia.
  - apply Byte.of_N_None_iff in E. lia.
Qed.

Lemma b2z_inj b1 b2 : b2z b1 = b2z b2 -> b1 = b2.
Proof. intros E. rewrite <-(z2b_b2z b1), <-(z2b_b2z b2). by f_equal. Qed.

(** [zlen l] is [int64(len(l))]; [slice off n l] is [l[off : off+n]] cut at
    the end of [l]. *)
Definition zlen {A} (l : list A) : Z := Z.of_nat (length l).
Definition ztake {A} (n : Z) (l : list A) : list A := take (Z.to_nat n) l.
Definition zdrop {A} (n : Z) (l : list A) : list A := drop (Z.to_nat n) l.
Definition slice {A} (off n : Z) (l : list A) : list A := ztake n (zdrop off l).

(** [splice start del ins l] replaces [l[start : start+del]] by [ins]: the
    reference meaning of one edit. *)
Definition splice {A} (start del : Z) (ins l : list A) : list A :=
  ztake start l ++ ins ++ zdrop (start + del) l.

Section Slices.
Context {A : Type}.
Implicit Types l k : list A.

Lemma zlen_nonneg l : 0 <= zlen l.
Proof. unfold zlen; lia. Qed.
Lemma zlen_nil : zlen (@nil A) = 0.
Proof. reflexivity. Qed.
Lemma zlen_cons x l : zlen (x :: l) = 1 + zlen l.
Proof. unfold zlen; simpl; lia. Qed.
Lemma zlen_app l k : zlen (l ++ k) = zlen l + zlen k.
Proof. unfold zlen; rewrite length_app; lia. Qed.
Lemma zlen_zero l : zlen l = 0 -> l = [].
Proof. destruct l; [done|]. rewrite zlen_cons. pose proof (zlen_nonneg l). lia. Qed.
Lemma zlen_map {B} (f : A -> B) l : zlen (map f l) = zlen l.
Proof. unfold zlen. by rewrite length_map. Qed.
Lemma zlen_replicate n (x : A) : zlen (replicate n x) = Z.of_nat n.
Proof. unfold zlen. by rewrite length_replicate. Qed.

Lemma zlen_ztake n l : zlen (ztake n l) = Z.min (Z.max 0 n) (zlen l).
Proof. unfold zlen, ztake; rewrite length_take; lia. Qed.
Lemma zlen_zdrop n l : zlen (zdrop n l) = Z.max 0 (zlen l - Z.max 0 n).
Proof. unfold zlen, zdrop; rewrite length_drop; lia. Qed.
Lemma zlen_slice off n l : 0 <= off -> 0 <= n -> off + n <= zlen l -> zlen (slice off n l) = n.
Proof. intros. unfold slice. rewrite zlen_ztake, zlen_zdrop. lia. Qed.

Lemma ztake_zdrop n l : ztake n l ++ zdrop n l = l.
Proof. apply take_drop. Qed.
Lemma ztake_0 n l : n <= 0 -> ztake n l = [].
Proof. intros; unfold ztake; by replace (Z.to_nat n) with 0%nat by lia. Qed.
Lemma zdrop_0 n l : n <= 0 -> zdrop n l = l.
Proof. intros; unfold zdrop; by replace (Z.to_nat n) with 0%nat by lia. Qed.
Lemma ztake_all n l : zlen l <= n -> ztake n l = l.
Proof. unfold zlen; intros; apply take_ge; lia. Qed.
Lemma zdrop_all n l : zlen l <= n -> zdrop n l = [].
Proof. unfold zlen; intros; apply drop_ge; lia. Qed.
Lemma ztake_app_l n l k : n <= zlen l -> ztake n (l ++ k) = ztake n l.
Proof. unfold zlen, ztake; intros; apply take_app_le; lia. Qed.
Lemma ztake_app_r n l k : zlen l <= n -> ztake n (l ++ k) = l ++ ztake (n - zlen l) k.
Proof.
  unfold zlen, ztake; intros. rewrite take_app_ge by lia. do 2 f_equal. lia.
Qed.
Lemma zdrop_app_l n l k : n <= zlen l -> zdrop n (l ++ k) = zdrop n l ++ k.
Proof. unfold zlen, zdrop; intros; apply drop_app_le; lia. Qed.
Lemma zdrop_app_r n l k : zlen l <= n -> zdrop n (l ++ k) = zdrop (n - zlen l) k.
Proof. unfold zlen, zdrop; intros; rewrite drop_app_ge by lia. f_equal; lia. Qed.
Lemma ztake_app n l k : n = zlen l -> ztake n (l ++ k) = l.
Proof. intros ->. rewrite ztake_app_l by lia. by apply ztake_all. Qed.
Lemma zdrop_app n l k : n = zlen l -> zdrop n (l ++ k) = k.
Proof. intros ->. rewrite zdrop_app_r by lia. apply zdrop_0; lia. Qed.
Lemma ztake_ztake n m l : ztake n (ztake m l) = ztake (Z.min n m) l.
Proof. unfold ztake. rewrite take_take. f_equal; lia. Qed.
Lemma zdrop_zdrop n m l : 0 <= n -> 0 <= m -> zdrop n (zdrop m l) = zdrop (m + n) l.
Proof. intros. unfold zdrop. rewrite drop_drop. f_equal; lia. Qed.
Lemma zdrop_ztake n m l : 0 <= n -> zdrop n (ztake m l) = ztake (m - n) (zdrop n l).
Proof.
  intros. unfold zdrop, ztake.
  destruct (decide (m <= n)).
  - rewrite drop_ge by (rewrite length_take; lia).
    by replace (Z.to_nat (m - n)) with 0%nat by lia.
  - replace (Z.to_nat m) with (Z.to_nat n + Z.to_nat (m - n))%nat by lia.
    by rewrite take_drop_commute.
Qed.

Lemma slice_0 n l : slice 0 n l = ztake n l.
Proof. unfold slice. by rewrite zdrop_0. Qed.
Lemma slice_nil_len off n l : n <= 0 -> slice off n l = [].
Proof. intros; by apply ztake_0. Qed.
Lemma slice_nil off n : slice off n (@nil A) = [].
Proof. unfold slice, ztake, zdrop. by rewrite drop_nil, take_nil. Qed.
Lemma slice_all l : slice 0 (zlen l) l = l.
Proof. rewrite slice_0. by apply ztake_all. Qed.
Lemma slice_split off n m l :
  0 <= off -> 0 <= n -> 0 <= m -> slice off (n + m) l = slice off n l ++ slice (off + n) m l.
Proof.
  intros. unfold slice. rewrite <-(ztake_zdrop n (ztake (n + m) (zdrop off l))).
  rewrite ztake_ztake, zdrop_ztake, zdrop_zdrop by lia. f_equal; f_equal; lia.
Qed.
Lemma slice_app_l off n l k : off + n <= zlen l -> 0 <= off -> slice off n (l ++ k) = slice off n l.
Proof.
  intros. unfold slice. destruct (decide (n <= 0)); [by rewrite !ztake_0 by lia|].
  rewrite zdrop_app_l by lia. apply ztake_app_l. rewrite zlen_zdrop. lia.
Qed.
Lemma slice_app_r off n l k : zlen l <= off -> slice off n (l ++ k) = slice (off - zlen l) n k.
Proof. intros. unfold slice. by rewrite zdrop_app_r. Qed.
Lemma slice_ztake off n m l : 0 <= off -> 0 <= n -> slice off n (ztake m l) = slice off (Z.min n (m - off)) l.
Proof.
  intros. unfold slice. rewrite zdrop_ztake, ztake_ztake by lia. done.
Qed.
Lemma slice_zdrop off n m l : 0 <= off -> 0 <= m -> slice off n (zdrop m l) = slice (m + off) n l.
Proof. intros. unfold slice. by rewrite zdrop_zdrop by lia. Qed.
Lemma slice_slice off n off' n' l :
  0 <= off -> 0 <= off' -> 0 <= n' -> off' + n' <= n ->
  slice off' n' (slice off n l) = slice (off + off') n' l.
Proof.
  intros. unfold slice at 2. rewrite slice_ztake by lia.
  rewrite slice_zdrop by lia. f_equal; lia.
Qed.
Lemma slice_mid l1 l2 l3 off n :
  off = zlen l1 -> n = zlen l2 -> slice off n (l1 ++ l2 ++ l3) = l2.
Proof. intros -> ->. unfold slice. rewrite zdrop_app by done. by apply ztake_app. Qed.

Lemma slice_app off n l k :
  0 <= off -> 0 <= n ->
  slice off n (l ++ k) = slice off n l ++ slice (Z.max 0 (off - zlen l)) (n - zlen (slice off n l)) k.
Proof.
  intros. unfold slice at 1 2 3. unfold slice. destruct (decide (off <= zlen l)).
  - rewrite zdrop_app_l by lia. replace (Z.max 0 (off - zlen l)) with 0 by lia.
    rewrite (zdrop_0 0 k) by lia. destruct (decide (n <= zlen (zdrop off l))).
    + rewrite ztake_app_l by lia. rewrite (ztake_0 _ k); [by rewrite app_nil_r|].
      rewrite zlen_ztake. lia.
    + rewrite ztake_app_r by lia. rewrite (ztake_all n (zdrop off l)) by lia. done.
  - rewrite zdrop_app_r by lia. rewrite (zdrop_all off l) by lia.
    replace (Z.max 0 (off - zlen l)) with (off - zlen l) by lia.
    rewrite (ztake_all n []) by (rewrite zlen_nil; lia). rewrite zlen_nil, Z.sub_0_r. done.
Qed.

Lemma zlen_splice start del ins l :
  0 <= start -> 0 <= del -> start + del <= zlen l ->
  zlen (splice start del ins l) = zlen l - del + zlen ins.
Proof. intros. unfold splice. rewrite !zlen_app, zlen_ztake, zlen_zdrop. lia. Qed.
Lemma splice_inverse start del ins l :
  0 <= start -> 0 <= del -> start + del <= zlen l ->
  splice start (zlen ins) (slice start del l) (splice start del ins l) = l.
Proof.
  intros. pose proof (zlen_nonneg ins). unfold splice.
  assert (zlen (ztake start l) = start) as E by (rewrite zlen_ztake; lia).
  rewrite ztake_app by lia.
  rewrite (zdrop_app_r (start + zlen ins)) by lia.
  replace (start + zlen ins - zlen (ztake start l)) with (zlen ins) by lia.
  rewrite zdrop_app by done. unfold slice.
  rewrite <-(ztake_zdrop start l) at 4. f_equal.
  rewrite <-(ztake_zdrop del (zdrop start l)) at 2. f_equal.
  by rewrite zdrop_zdrop by lia.
Qed.
End Slices.

#[export] Hint Rewrite @zlen_nil @zlen_cons @zlen_app @zlen_ztake @zlen_zdrop @zlen_map
  @zlen_replicate : zlen.
Ltac zlen_lia := autorewrite with zlen in *; lia.

(** [count_newlines] is [bytes.Count(value, "\n")]. *)
Definition newline : byte := Byte.x0a.
Fixpoint count_newlines (l : list byte) : Z :=
  match l with
  | [] => 0
  | b :: l => (if decide (b = newline) then 1 else 0) + count_newlines l
  end.

Lemma count_newlines_app l k : count_newlines (l ++ k) = count_newlines l + count_newlines k.
Proof. induction l; simpl; lia. Qed.
Lemma count_newlines_bounds l : 0 <= count_newlines l <= zlen l.
Proof. induction l; simpl; [done|]. rewrite zlen_cons. case_decide; lia. Qed.

Definition isSome {A} (o : option A) : bool := match o with Some _ => true | None => false end.
Lemma isSome_true {A} (o : option A) : isSome o = true <-> is_Some o.
Proof. destruct o; simpl; split; intros H; [eauto|done|done|by destruct H]. Qed.

(** Bitwise operations stay within the word. *)
Lemma lxor_range n a b : 0 <= n -> 0 <= a < 2 ^ n -> 0 <= b < 2 ^ n -> 0 <= Z.lxor a b < 2 ^ n.
Proof.
  intros Hn Ha Hb. assert (0 <= Z.lxor a b) as H0 by (apply Z.lxor_nonneg; lia).
  split; [done|]. destruct (decide (Z.lxor a b = 0)) as [->|Hne]; [lia|].
  apply Z.log2_lt_pow2; [lia|].
  pose proof (Z.log2_lxor a b ltac:(lia) ltac:(lia)) as Hl.
  pose proof (Z.log2_nonneg (Z.lxor a b)).
  assert (forall x, 0 <= x < 2 ^ n -> 0 < n -> Z.log2 x < n) as Hx.
  { intros x Hx ?. destruct (decide (x = 0)) as [->|]; [simpl; lia|]. apply Z.log2_lt_pow2; lia. }
  destruct (decide (n = 0)) as [->|].
  { replace a with 0 in Hne by lia. replace b with 0 in Hne by lia. done. }
  pose proof (Hx a Ha ltac:(lia)). pose proof (Hx b Hb ltac:(lia)). lia.
Qed.

(** ** Ring buffers: the slot [index] places after [start] *)

Definition ring_at {A} (l : list A) (start index : Z) : option A := l !! Z.to_nat ((start + index) mod zlen l).

Lemma zlen_insert {A} (l : list A) i x : zlen (<[i := x]> l) = zlen l.
Proof. unfold zlen. by rewrite length_insert. Qed.

Lemma zlen_replicate_nat {A} n (x : A) : zlen (replicate n x) = Z.of_nat n.
Proof. unfold zlen. by rewrite length_replicate. Qed.

Lemma mod_add_inj L s i j : 0 <= i < L -> 0 <= j < L -> (s + i) mod L = (s + j) mod L -> i = j.
Proof.
  intros Hi Hj H. pose proof (Z.div_mod (s + i) L). pose proof (Z.div_mod (s + j) L).
  assert (i - j = L * ((s + i) / L - (s + j) / L)) by lia.
  assert (-1 < (s + i) / L - (s + j) / L < 1) by nia. nia.
Qed.

Lemma ring_at_set {A} (l : list A) start i k x :
  0 <= i < zlen l -> 0 <= k < zlen l ->
  ring_at (<[Z.to_nat ((start + k) mod zlen l) := x]> l) start i =
  if decide (i = k) then Some x else ring_at l start i.
Proof.
  intros Hi Hk. pose proof (Z.mod_pos_bound (start + k) (zlen l)). pose proof (Z.mod_pos_bound (start + i) (zlen l)).
  unfold ring_at. rewrite zlen_insert. destruct (decide (i = k)) as [->|Hne].
  - rewrite list_lookup_insert, decide_True; [done|]. split; [done|unfold zlen in *; lia].
  - rewrite list_lookup_insert_ne; [done|]. intros E. apply Hne. apply (mod_add_inj (zlen l) start); lia.
Qed.

Lemma ring_at_rotate {A} (l : list A) start i x :
  0 <= start < zlen l -> 0 <= i < zlen l ->
  ring_at (<[Z.to_nat start := x]> l) ((start + 1) mod zlen l) i =
  if decide (i = zlen l - 1) then Some x else ring_at l start (i + 1).
Proof.
  intros Hs Hi.
  assert (Z.to_nat start = Z.to_nat ((start + 0) mod zlen l)) as -> by (f_equal; rewrite Z.mod_small; lia).
  assert (forall m : list A, zlen m = zlen l -> ring_at m ((start + 1) mod zlen l) i = ring_at m start (i + 1)) as Hsh.
  { intros m Hm. unfold ring_at. rewrite Hm, Zplus_mod_idemp_l. do 3 f_equal. lia. }
  rewrite Hsh by apply zlen_insert. destruct (decide (i = zlen l - 1)) as [->|Hne].
  - assert (forall m : list A, zlen m = zlen l -> ring_at m start (zlen l - 1 + 1) = ring_at m start 0) as Hw.
    { intros m Hm. unfold ring_at. rewrite Hm. replace (start + (zlen l - 1 + 1)) with (start + 0 + 1 * zlen l) by lia.
      by rewrite Z.mod_add by lia. }
    rewrite Hw by apply zlen_insert. rewrite ring_at_set by lia. by rewrite decide_True.
  - rewrite ring_at_set by lia. by rewrite decide_False by lia.
Qed.

(** ** Counting the elements of a list *)

Definition flag (b : bool) : Z := if b then 1 else 0.

Fixpoint countb {A} (f : A -> bool) (l : list A) : Z :=
  match l with [] => 0 | x :: l => flag (f x) + countb f l end.

Lemma countb_nonneg {A} (f : A -> bool) l : 0 <= countb f l.
Proof. induction l as [|x l IH]; cbn; [lia|]. destruct (f x); cbn; lia. Qed.
Lemma countb_app {A} (f : A -> bool) l k : countb f (l ++ k) = countb f l + countb f k.
Proof. induction l as [|x l IH]; cbn; [lia|]. rewrite IH. lia. Qed.
Lemma countb_insert {A} (f : A -> bool) l i x y :
  l !! i = Some x -> countb f (<[i := y]> l) = countb f l - flag (f x) + flag (f y).
Proof.
  revert i. induction l as [|z l IH]; intros [|i] H; try done.
  - injection H as ->. cbn. lia.
  - specialize (IH i H). change (flag (f z) + countb f (<[i := y]> l) = flag (f z) + countb f l - flag (f x) + flag (f y)). lia.
Qed.
Lemma countb_lookup {A} (f : A -> bool) l i x : l !! i = Some x -> f x = true -> 0 < countb f l.
Proof.
  revert i. induction l as [|z l IH]; intros [|i] H Hf; try done; cbn in *; pose proof (countb_nonneg f l).
  - injection H as ->. rewrite Hf. cbn. lia.
  - specialize (IH _ H Hf). destruct (f z); cbn; lia.
Qed.
Lemma countb_zero {A} (f : A -> bool) l : countb f l = 0 <-> Forall (fun x => f x = false) l.
Proof.
  induction l as [|x l IH]; [done|]. rewrite Forall_cons. cbn. pose proof (countb_nonneg f l).
  destruct (f x); cbn; [|rewrite <-IH; intuition lia]. split; [lia|intros [? _]; done].
Qed.
Lemma countb_mono {A} (f g : A -> bool) l : (forall x, f x = true -> g x = true) -> countb f l <= countb g l.
Proof.
  intros H. induction l as [|x l IH]; cbn; [lia|]. specialize (H x). destruct (f x), (g x); cbn; (lia || by specialize (H eq_refl)).
Qed.
