(* ===== verification/GoLib.v ===== *)
(** * The parts of Go's standard library the engine relies on

    [io.ReaderAt] with its documented contract, [bytes.Reader], [sort.Search]
    and the little-endian accessors of [encoding/binary]. *)

From Stdlib Require Import ZArith Lia List.
From stdpp Require Import base list numbers.
From S2P Require Import Prelude.
#[local] Open Scope Z_scope.

(** ** io.ReaderAt

    [r off n] is [ReadAt(p, off)] with [len(p) = n]: the bytes stored at the
    front of [p] and the error. *)
Abbreviation ReaderAt := (Z -> Z -> list byte * option error).

(** The documented contract of [io.ReaderAt] over immutable content [data]: a
    request inside the content is served in full, with a nil error or, at the
    very end of the content, possibly [io.EOF]. *)
Class ReaderOk (r : ReaderAt) (data : list byte) : Prop :=
  reader_full : forall off n, 0 <= off -> 0 < n -> off + n <= zlen data ->
    (r off n).1 = slice off n data /\
    ((r off n).2 = None \/ (r off n).2 = Some io_EOF /\ off + n = zlen data).

(** [bytes.NewReader(data).ReadAt]. *)
Definition bytes_NewReader (data : list byte) : ReaderAt := fun off n =>
  if off <? 0 then ([], Some (errMsg 1))
  else if zlen data <=? off then ([], Some io_EOF)
  else let got := slice off n data in
       (got, if zlen got <? n then Some io_EOF else None).

#[export] Instance bytes_NewReader_ok data : ReaderOk (bytes_NewReader data) data.
Proof.
  intros off n Hoff Hn Hle. unfold bytes_NewReader.
  rewrite (proj2 (Z.ltb_ge off 0)), (proj2 (Z.leb_gt (zlen data) off)) by lia.
  cbn [fst snd]. rewrite zlen_slice by lia.
  rewrite (proj2 (Z.ltb_ge n n)) by lia. auto.
Qed.

(** ** io.Writer and io.CopyN

    A writer is a state [W] with [write w p]: the new state, the count and the
    error of [w.Write(p)]. *)
Definition Writer (W : Type) : Type := W -> list byte -> W * (Z * option error).

(** The writer of [bytes.Buffer]: it accepts everything. *)
Definition bytes_Buffer : Writer (list byte) := fun w p => (w ++ p, (zlen p, None)).

Definition copyBufferBytes : Z := 32768.

(** The loop of [io.Copy(w, io.LimitReader(io.NewSectionReader(r, off, n), n))]:
    reads of at most one buffer, each written out before the next.  The result is
    the writer, the count written and the error.  A read makes progress or ends
    the loop unless the reader returns no byte and no error, so [n] iterations
    of fuel are enough for a reader that keeps its contract. *)
Fixpoint copy_loop {W} (write : Writer W) (fuel : nat) (r : ReaderAt) (w : W) (off remaining written : Z)
  : W * Z * option error :=
  match fuel with
  | O => (w, written, None)
  | S fuel =>
    if remaining <=? 0 then (w, written, None) else
    let '(data, err) := r off (Z.min remaining copyBufferBytes) in
    let nr := zlen data in
    let '(w, (nw, ew)) := if 0 <? nr then write w data else (w, (0, None)) in
    let written := written + nw in
    match ew with
    | Some e => (w, written, Some e)
    | None =>
      if (0 <? nr) && negb (nr =? nw) then (w, written, Some io_ErrShortWrite) else
      match err with
      | Some e => (w, written, if decide (e = io_EOF) then None else Some e)
      | None => copy_loop write fuel r w (off + nr) (remaining - nr) written
      end
    end
  end.

Definition io_CopyN {W} (write : Writer W) (w : W) (r : ReaderAt) (off n : Z) : W * Z * option error :=
  let '(w, written, err) := copy_loop write (Z.to_nat n) r w off n 0 in
  if written =? n then (w, written, None)
  else if (written <? n) && negb (isSome err) then (w, written, Some io_EOF)
  else (w, written, err).

Lemma copy_loop_ok (r : ReaderAt) data `{!ReaderOk r data} fuel w off n written :
  0 <= off -> 0 <= n -> off + n <= zlen data -> (Z.to_nat n <= fuel)%nat ->
  exists e, copy_loop bytes_Buffer fuel r w off n written = (w ++ slice off n data, written + n, e).
Proof.
  revert w off n written. induction fuel as [|fuel IH]; intros w off n written Hoff Hn Hle Hfuel.
  { replace n with 0 by lia. rewrite slice_nil_len, app_nil_r, Z.add_0_r by lia. by eexists. }
  cbn [copy_loop]. destruct (Z.leb_spec n 0).
  { replace n with 0 by lia. rewrite slice_nil_len, app_nil_r, Z.add_0_r by lia. by eexists. }
  unfold copyBufferBytes in *.
  destruct (reader_full off (Z.min n 32768)) as [Hdata Herr]; [lia..|].
  destruct (r off (Z.min n 32768)) as [got err]. cbn [fst snd] in *. subst got.
  rewrite zlen_slice by lia. rewrite (proj2 (Z.ltb_lt 0 _)) by lia.
  cbn [bytes_Buffer]. rewrite zlen_slice, Z.eqb_refl by lia. cbn [andb negb].
  destruct Herr as [->|[-> Hend]].
  - destruct (IH (w ++ slice off (Z.min n 32768) data) (off + Z.min n 32768) (n - Z.min n 32768)
                 (written + Z.min n 32768)) as [e ->]; [lia..|].
    exists e. rewrite <-app_assoc, <-slice_split by lia.
    replace (Z.min n 32768 + (n - Z.min n 32768)) with n by lia.
    by replace (written + Z.min n 32768 + (n - Z.min n 32768)) with (written + n) by lia.
  - exists None. rewrite decide_True by done. replace (Z.min n 32768) with n by lia. done.
Qed.

Lemma io_CopyN_ok (r : ReaderAt) data `{!ReaderOk r data} w off n :
  0 <= off -> 0 <= n -> off + n <= zlen data ->
  io_CopyN bytes_Buffer w r off n = (w ++ slice off n data, n, None).
Proof.
  intros. unfold io_CopyN.
  destruct (copy_loop_ok r data (Z.to_nat n) w off n 0) as [e ->]; [lia..|].
  by rewrite Z.add_0_l, Z.eqb_refl.
Qed.

(** What a writer received: the accepted part of each write, in order. *)
Inductive fed {W} (write : Writer W) : W -> list byte -> W -> Prop :=
| fed_nil w : fed write w [] w
| fed_cons w p w1 n e rest w2 :
    write w p = (w1, (n, e)) -> fed write w1 rest w2 -> fed write w (ztake n p ++ rest) w2.

(** The contract of [io.Writer] on the count it returns. *)
Class WriterOk {W} (write : Writer W) : Prop :=
  writer_count : forall w p w' n e, write w p = (w', (n, e)) -> 0 <= n <= zlen p.

#[export] Instance bytes_Buffer_ok : WriterOk bytes_Buffer.
Proof. intros w p w' n e [= <- <- <-]. pose proof (zlen_nonneg p). lia. Qed.

Lemma fed_app {W} (write : Writer W) w1 bs w2 cs w3 :
  fed write w1 bs w2 -> fed write w2 cs w3 -> fed write w1 (bs ++ cs) w3.
Proof. induction 1; intros; [done|]. rewrite <-app_assoc. eapply fed_cons; eauto. Qed.

(** Copying from a reader that keeps its contract to any writer that keeps its:
    what arrives is a prefix of the section, all of it when the error is nil, and
    an error is the one of the writer or [io.ErrShortWrite]. *)
Section Copy.
Context {W : Type} (write : Writer W) `{!WriterOk write} (r : ReaderAt) (data : list byte) `{!ReaderOk r data}.
Variables (I : W -> Prop) (P : error -> Prop).
Hypothesis Hwrite : forall w p w' n e, I w -> write w p = (w', (n, e)) -> I w' /\ forall e', e = Some e' -> P e'.
Hypothesis HP_short : P io_ErrShortWrite.

Lemma copy_loop_fed fuel :
  forall w off n written w' k e,
  copy_loop write fuel r w off n written = (w', k, e) -> I w ->
  0 <= off -> 0 <= n -> off + n <= zlen data -> (Z.to_nat n <= fuel)%nat ->
  exists bs rest, fed write w bs w' /\ k = written + zlen bs /\ slice off n data = bs ++ rest /\ (e = None -> rest = []) /\
    I w' /\ forall e', e = Some e' -> P e'.
Proof.
  assert (forall w : W, fed write w [] w) as Hnil by apply fed_nil.
  induction fuel as [|fuel IH]; intros w off n written w' k e Hc HI Hoff Hn Hle Hfuel; cbn [copy_loop] in Hc.
  { injection Hc as <- <- <-. exists [], []. rewrite slice_nil_len by lia. split_and!; [done| |done|done|done|done]. rewrite (@zlen_nil byte). lia. }
  destruct (Z.leb_spec n 0).
  { injection Hc as <- <- <-. exists [], []. rewrite slice_nil_len by lia. split_and!; [done| |done|done|done|done]. rewrite (@zlen_nil byte). lia. }
  unfold copyBufferBytes in Hc. remember (Z.min n 32768) as m eqn:Em.
  assert (0 < m <= n) as Hm by lia. clear Em.
  destruct (reader_full off m) as [Hdata Herr]; [lia..|].
  destruct (r off m) as [got err]. cbn [fst snd] in *. subst got.
  rewrite (zlen_slice off m data) in Hc by lia. rewrite (proj2 (Z.ltb_lt 0 m)) in Hc by lia.
  assert (slice off n data = slice off m data ++ slice (off + m) (n - m) data) as Hsplit.
  { rewrite <-slice_split by lia. by replace (m + (n - m)) with n by lia. }
  destruct (write w (slice off m data)) as [w1 [nw ew]] eqn:Hw.
  pose proof (writer_count _ _ _ _ _ Hw) as Hnw. destruct (Hwrite _ _ _ _ _ HI Hw) as [HI1 HP1]. rewrite zlen_slice in Hnw by lia.
  assert (fed write w (ztake nw (slice off m data)) w1) as Hfed.
  { rewrite <-(app_nil_r (ztake _ _)). by eapply fed_cons. }
  assert (slice off n data = ztake nw (slice off m data) ++ zdrop nw (slice off m data) ++ slice (off + m) (n - m) data)
    as Hpre by (by rewrite app_assoc, ztake_zdrop).
  assert (zlen (ztake nw (slice off m data)) = nw) as Hlen by (rewrite zlen_ztake, zlen_slice by lia; lia).
  destruct ew as [ew|]; [injection Hc as <- <- <-; do 2 eexists; rewrite Hlen; split_and!; [exact Hfed|done|exact Hpre|done|done|naive_solver]|].
  destruct (Z.eqb_spec m nw) as [E|Hne]; [subst nw|]; cbn [andb negb] in Hc;
    [|injection Hc as <- <- <-; do 2 eexists; rewrite Hlen; split_and!; [exact Hfed|done|exact Hpre|done|done|naive_solver]].
  rewrite ztake_all in Hlen, Hfed by (rewrite zlen_slice; lia).
  destruct Herr as [->|[-> Hend]].
  - destruct (IH _ _ _ _ _ _ _ Hc HI1) as (bs & rest & Hf & -> & Hs & He & HI2 & HP2); [lia..|].
    exists (slice off m data ++ bs), rest. rewrite Hsplit, Hs, zlen_app, Hlen, app_assoc.
    split_and!; [by eapply fed_app|lia|done|done|done|done].
  - rewrite decide_True in Hc by done. injection Hc as <- <- <-. exists (slice off m data), (slice (off + m) (n - m) data).
    rewrite Hlen. split_and!; [done|lia|done| |done|done]. intros _. rewrite slice_nil_len; [done|]. lia.
Qed.

Lemma io_CopyN_fed w off n w' k e :
  io_CopyN write w r off n = (w', k, e) -> I w -> 0 <= off -> 0 <= n -> off + n <= zlen data ->
  exists bs rest, fed write w bs w' /\ k = zlen bs /\ slice off n data = bs ++ rest /\ (e = None -> rest = []) /\
    I w' /\ forall e', e = Some e' -> P e'.
Proof.
  unfold io_CopyN. intros Hc HI Hoff Hn Hle. destruct (copy_loop _ _ _ _ _ _ _) as [[w1 k1] e1] eqn:Hl.
  destruct (copy_loop_fed _ _ _ _ _ _ _ _ Hl HI) as (bs & rest & Hf & -> & Hs & He & HI1 & HP1); [lia..|].
  assert (zlen bs + zlen rest = n) as Hz by (rewrite <-zlen_app, <-Hs; by apply zlen_slice).
  rewrite Z.add_0_l in Hc. exists bs, rest. destruct (Z.eqb_spec (zlen bs) n) as [E|E].
  { injection Hc as <- <- <-. split_and!; try done. intros _. apply zlen_zero. lia. }
  assert (rest <> []) as Hr by (intros ->; rewrite zlen_nil in Hz; lia).
  destruct e1 as [e1|]; [|by destruct Hr; apply He].
  rewrite andb_false_r in Hc. injection Hc as <- <- <-. done.
Qed.
End Copy.

(** ** sort.Search: smallest index in [0, n) where [f] holds *)

Fixpoint search_loop (fuel : nat) (f : Z -> bool) (i j : Z) : Z :=
  match fuel with
  | O => i
  | S fuel =>
    if i <? j then
      let h := (i + j) / 2 in
      if f h then search_loop fuel f i h else search_loop fuel f (h + 1) j
    else i
  end.

Definition sort_Search (n : Z) (f : Z -> bool) : Z := search_loop (Z.to_nat n) f 0 n.

Lemma search_loop_spec f lo hi fuel i j :
  (forall a b, lo <= a <= b -> b < hi -> f a = true -> f b = true) ->
  lo <= i -> i <= j -> j <= hi -> (Z.to_nat (j - i) <= fuel)%nat ->
  (forall k, lo <= k < i -> f k = false) -> (forall k, j <= k < hi -> f k = true) ->
  let r := search_loop fuel f i j in
  i <= r <= j /\ (forall k, lo <= k < r -> f k = false) /\ (forall k, r <= k < hi -> f k = true).
Proof.
  intros Hmono. revert i j. induction fuel as [|fuel IH]; intros i j Hi Hij Hj Hfuel Hlo Hhi; simpl.
  { replace j with i in * by lia. auto with lia. }
  destruct (Z.ltb_spec i j) as [Hlt|Hge]; [|replace j with i in * by lia; auto with lia].
  assert (i <= (i + j) / 2 < j) as Hh.
  { split; [apply Z.div_le_lower_bound | apply Z.div_lt_upper_bound]; lia. }
  set (h := (i + j) / 2) in *. destruct (f h) eqn:Hf.
  - destruct (IH i h) as (?&?&?); auto with lia.
    intros k Hk. destruct (decide (j <= k)); [apply Hhi; lia|]. apply (Hmono h); auto with lia.
  - destruct (IH (h + 1) j) as (?&?&?); auto with lia.
    intros k Hk. destruct (decide (k < i)); [apply Hlo; lia|].
    destruct (f k) eqn:Hk'; [|done].
    rewrite (Hmono k h) in Hf by (auto with lia). done.
Qed.

Lemma sort_Search_spec n f :
  0 <= n ->
  (forall a b, 0 <= a <= b -> b < n -> f a = true -> f b = true) ->
  let r := sort_Search n f in
  0 <= r <= n /\ (forall k, 0 <= k < r -> f k = false) /\ (forall k, r <= k < n -> f k = true).
Proof.
  intros. apply (search_loop_spec f 0 n); auto with lia.
Qed.

(** ** encoding/binary: little-endian fixed-width integers *)

Fixpoint le_put (n : nat) (z : Z) : list byte :=
  match n with O => [] | S n => z2b z :: le_put n (z / 256) end.
Fixpoint le_get (l : list byte) : Z :=
  match l with [] => 0 | b :: l => b2z b + 256 * le_get l end.

Definition PutUint16 := le_put 2.
Definition PutUint32 := le_put 4.
Definition PutUint64 := le_put 8.

Lemma length_le_put n z : length (le_put n z) = n.
Proof. revert z; induction n; intros; simpl; auto. Qed.
Lemma zlen_le_put n z : zlen (le_put n z) = Z.of_nat n.
Proof. unfold zlen. by rewrite length_le_put. Qed.
#[export] Hint Rewrite zlen_le_put : zlen.

Lemma le_get_put n z : le_get (le_put n z) = z mod 256 ^ Z.of_nat n.
Proof.
  revert z. induction n as [|n IH]; intros z; [by rewrite Z.mod_1_r|].
  cbn [le_put le_get]. rewrite IH, b2z_z2b.
  rewrite Nat2Z.inj_succ, Z.pow_succ_r by lia.
  rewrite Z.rem_mul_r by lia. done.
Qed.

Lemma le_get_put_small n z : 0 <= z < 256 ^ Z.of_nat n -> le_get (le_put n z) = z.
Proof. intros. rewrite le_get_put. by apply Z.mod_small. Qed.

Lemma le_get_range l : 0 <= le_get l < 256 ^ zlen l.
Proof.
  induction l as [|b l IH]; [done|]. cbn [le_get].
  pose proof (b2z_range b). rewrite zlen_cons.
  rewrite Z.add_1_l, Z.pow_succ_r by apply zlen_nonneg. nia.
Qed.

Lemma le_put_get l : le_put (length l) (le_get l) = l.
Proof.
  induction l as [|b l IH]; [done|]. cbn [le_put le_get length].
  pose proof (b2z_range b).
  replace ((b2z b + 256 * le_get l) / 256) with (le_get l).
  2:{ rewrite Z.mul_comm, Z.div_add by lia. rewrite (Z.div_small (b2z b)) by lia. lia. }
  rewrite IH. f_equal. apply b2z_inj. rewrite b2z_z2b.
  rewrite Z.mul_comm, Z.mod_add, Z.mod_small by lia. done.
Qed.

Lemma le_get_inj l k : length l = length k -> le_get l = le_get k -> l = k.
Proof. intros E1 E2. rewrite <-(le_put_get l), <-(le_put_get k), E1, E2. done. Qed.

(** ** Fixed layouts: consecutive fields of a byte slice *)

Fixpoint slices {A} (ns : list Z) (off : Z) (l : list A) : list (list A) :=
  match ns with
  | [] => []
  | n :: ns => slice off n l :: slices ns (off + n) l
  end.

Lemma slices_concat {A} (fs : list (list A)) pre post off :
  off = zlen pre -> slices (map zlen fs) off (pre ++ concat fs ++ post) = fs.
Proof.
  revert pre off. induction fs as [|x fs IH]; intros pre off ->; [done|]. cbn [map slices concat].
  f_equal.
  - rewrite <-app_assoc. by apply slice_mid.
  - rewrite <-app_assoc, (app_assoc pre). rewrite IH; [done|]. by rewrite zlen_app.
Qed.

Lemma concat_slices {A} ns off (l : list A) :
  0 <= off -> Forall (fun n => 0 <= n) ns ->
  concat (slices ns off l) = slice off (foldr Z.add 0 ns) l.
Proof.
  intros Hoff Hns. revert off Hoff. induction Hns as [|n ns Hn Hns IH]; intros off Hoff.
  { simpl. by rewrite slice_nil_len. }
  cbn [slices concat foldr]. rewrite IH by lia. symmetry. apply slice_split; [lia..|].
  clear -Hns. induction Hns; simpl; lia.
Qed.

Lemma le_get_slice n z off l v :
  z = Z.of_nat n -> 0 <= off -> off + z <= zlen l -> le_get (slice off z l) = v ->
  slice off z l = le_put n v.
Proof.
  intros -> Hoff Hle <-. assert (zlen (slice off (Z.of_nat n) l) = Z.of_nat n) as E by (apply zlen_slice; lia).
  revert E. generalize (slice off (Z.of_nat n) l) as s. intros s E.
  assert (length s = n) as <- by (unfold zlen in E; lia). by rewrite le_put_get.
Qed.

(** Evaluate the constant offsets a layout produces. *)
Ltac z_fold :=
  repeat match goal with
  | |- context [0 + Zpos ?b] => change (0 + Zpos b) with (Zpos b)
  | |- context [Zpos ?a + Zpos ?b] =>
    let c := eval vm_compute in (Zpos a + Zpos b) in change (Zpos a + Zpos b) with c
  end.
Ltac z_fold_in H :=
  repeat match type of H with
  | context [0 + Zpos ?b] => change (0 + Zpos b) with (Zpos b) in H
  | context [Zpos ?a + Zpos ?b] =>
    let c := eval vm_compute in (Zpos a + Zpos b) in change (Zpos a + Zpos b) with c in H
  end.

(** ** context.Context *)

(** A context is polled: [polls k] is what the [k]-th call of [ctx.Err()] returns. *)
Definition Context : Type := nat -> option error.

Definition poll (ctx : option Context) (k : nat) : nat * option error :=
  match ctx with
  | None => (k, None)
  | Some polls => (S k, polls k)
  end.

(** [os.ErrNotExist] *)
Definition os_ErrNotExist : error := errOS 2.
