(* ===== verification/Store.v ===== *)
(** * document/store/tree.go: the persistent Piece Tree

    A document is a randomised treap of Pieces, each a byte range of an external
    source.  Definitions first, in the order of the Go file; then the
    well-formedness invariant, the content abstraction and the theorems. *)

From Stdlib Require Import ZArith Lia List.
From stdpp Require Import base list numbers gmap.
From S2P Require Import Prelude GoLib.
#[local] Open Scope Z_scope.

(** ** Data *)

Definition DefaultAutoCompactPieces : Z := 4096.
Definition SourceBase : Z := 1.
Definition SourceJournal : Z := 2.

Record Piece := mkPiece {
  p_Source : Z;
  p_Offset : Z;
  p_Length : Z;
  p_Newlines : Z;
  p_NewlinesKnown : bool
}.

#[export] Instance Piece_eq_dec : EqDecision Piece.
Proof. solve_decision. Defined.

(** [*node]; [nilNode] is the nil pointer. *)
Inductive node :=
| nilNode
| mkNode (piece : Piece) (priority : Z) (lt rt : node)
         (bytes newlines : Z) (newlinesKnown : bool) (pieceCount : Z).

(** [map[SourceID]io.ReaderAt]; a nil reader is an absent key. *)
Abbreviation Sources := (gmap Z ReaderAt).

Record Snapshot := mkSnapshot { s_root : node; s_sources : Sources }.

Record Options := mkOptions { o_AutoCompactPieces : Z; o_DisableAutoCompact : bool }.

Record Tree := mkTree {
  t_root : node;
  t_sources : Sources;
  t_rng : Z;
  t_autoCompactPieces : Z;
  t_nextAutoCompactPieces : Z;
  t_autoCompactions : Z
}.

Record CompactResult := mkCompactResult { BeforePieces : Z; AfterPieces : Z }.

Record Stats := mkStats {
  st_ByteLength : Z; st_PieceCount : Z; st_LineBreaks : Z; st_LineBreaksKnown : bool;
  st_AutoCompactPieces : Z; st_NextAutoCompactPieces : Z; st_AutoCompactions : Z
}.

Definition with_root (t : Tree) (root : node) : Tree :=
  mkTree root (t_sources t) (t_rng t) (t_autoCompactPieces t)
         (t_nextAutoCompactPieces t) (t_autoCompactions t).
Definition with_rng (t : Tree) (rng : Z) : Tree :=
  mkTree (t_root t) (t_sources t) rng (t_autoCompactPieces t)
         (t_nextAutoCompactPieces t) (t_autoCompactions t).
Definition with_next (t : Tree) (next : Z) : Tree :=
  mkTree (t_root t) (t_sources t) (t_rng t) (t_autoCompactPieces t) next (t_autoCompactions t).

(** ** Nodes *)

Definition nodeBytes (n : node) : Z :=
  match n with nilNode => 0 | mkNode _ _ _ _ b _ _ _ => b end.
Definition nodePieceCount (n : node) : Z :=
  match n with nilNode => 0 | mkNode _ _ _ _ _ _ _ c => c end.
Definition nodeNewlines (n : node) : Z :=
  match n with nilNode => 0 | mkNode _ _ _ _ _ l _ _ => l end.
Definition nodeNewlinesKnown (n : node) : bool :=
  match n with nilNode => true | mkNode _ _ _ _ _ _ k _ => k end.

Definition recalc (n : node) : node :=
  match n with
  | nilNode => nilNode
  | mkNode p pr l r _ _ _ _ =>
    mkNode p pr l r
      (nodeBytes l ⊞ p_Length p ⊞ nodeBytes r)
      (nodeNewlines l ⊞ p_Newlines p ⊞ nodeNewlines r)
      (nodeNewlinesKnown l && p_NewlinesKnown p && nodeNewlinesKnown r)
      (nodePieceCount l ⊞ 1 ⊞ nodePieceCount r)
  end.

Definition cloneNode (n lt rt : node) : node :=
  match n with
  | nilNode => nilNode
  | mkNode p pr _ _ b nl k c => recalc (mkNode p pr lt rt b nl k c)
  end.

(** xorshift64* on [uint64]: the next state and the priority drawn. *)
Definition rng_next (rng : Z) : Z :=
  let rng := Z.lxor rng (Z.shiftr rng 12) in
  let rng := Z.lxor rng (u64 (Z.shiftl rng 25)) in
  Z.lxor rng (Z.shiftr rng 27).
Definition rng_priority (rng : Z) : Z := u64 (rng * 0x2545f4914f6cdd1d).

Definition makeNode (t : Tree) (piece : Piece) (lt rt : node) : Tree * node :=
  let rng := rng_next (t_rng t) in
  (with_rng t rng, recalc (mkNode piece (rng_priority rng) lt rt 0 0 false 0)).

Fixpoint merge (lt : node) : node -> node :=
  fix merge_right (rt : node) : node :=
    match lt, rt with
    | nilNode, _ => rt
    | _, nilNode => lt
    | mkNode lp lpr ll lr _ _ _ _, mkNode rp rpr rl rr _ _ _ _ =>
      if rpr <=? lpr
      then cloneNode lt ll (merge lr rt)
      else cloneNode rt (merge_right rl) rr
    end.

Definition unknownNewlines (p : Piece) (offset length : Z) : Piece :=
  mkPiece (p_Source p) offset length 0 false.

Fixpoint split (current : node) (pos : Z) : node * node :=
  match current with
  | nilNode => (nilNode, nilNode)
  | mkNode p pr lt rt _ _ _ _ =>
    let leftBytes := nodeBytes lt in
    if pos <? leftBytes then
      let '(l, rightOfLeft) := split lt pos in
      (l, cloneNode current rightOfLeft rt)
    else
      let pieceEnd := leftBytes ⊞ p_Length p in
      if pieceEnd <? pos then
        let '(leftOfRight, r) := split rt (pos ⊟ pieceEnd) in
        (cloneNode current lt leftOfRight, r)
      else if pos =? leftBytes then (lt, cloneNode current nilNode rt)
      else if pos =? pieceEnd then (cloneNode current lt nilNode, rt)
      else
        let leftLength := pos ⊟ leftBytes in
        let rightLength := p_Length p ⊟ leftLength in
        let leftPiece := unknownNewlines p (p_Offset p) leftLength in
        let rightPiece := unknownNewlines p (p_Offset p ⊞ leftLength) rightLength in
        let leftNode := recalc (mkNode leftPiece pr nilNode nilNode 0 0 false 0) in
        let rightNode := recalc (mkNode rightPiece pr nilNode nilNode 0 0 false 0) in
        (merge lt leftNode, merge rightNode rt)
  end.

(** In-order traversal with a visitor that may stop with an error. *)
Fixpoint walk {S} (n : node) (visit : S -> Piece -> S * option error) (s : S) : S * option error :=
  match n with
  | nilNode => (s, None)
  | mkNode p _ lt rt _ _ _ _ =>
    match walk lt visit s with
    | (s, Some e) => (s, Some e)
    | (s, None) =>
      match visit s p with
      | (s, Some e) => (s, Some e)
      | (s, None) => walk rt visit s
      end
    end
  end.

(** ** Construction *)

Definition validatePiece (p : Piece) : option error :=
  if p_Length p =? 0 then None
  else if (p_Length p <? 0) || (p_Offset p <? 0) || (maxInt64 ⊟ p_Length p <? p_Offset p)
  then Some store_ErrInvalidPiece
  else if p_NewlinesKnown p && ((p_Newlines p <? 0) || (p_Length p <? p_Newlines p))
  then Some store_ErrInvalidPiece
  else None.

Definition normalizePiece (p : Piece) : Piece :=
  if p_NewlinesKnown p then p
  else mkPiece (p_Source p) (p_Offset p) (p_Length p) 0 false.

Definition resolveOptions (o : Options) : result Z :=
  if o_DisableAutoCompact o then
    if negb (o_AutoCompactPieces o =? 0) then Err store_ErrInvalidOptions else Ok 0
  else if o_AutoCompactPieces o =? 0 then Ok DefaultAutoCompactPieces
  else if o_AutoCompactPieces o <? 2 then Err store_ErrInvalidOptions
  else Ok (o_AutoCompactPieces o).

Definition NewWithBasePieceOptions (base : option ReaderAt) (piece : Piece) (options : Options) : result Tree :=
  let? autoCompactPieces := resolveOptions options in
  let t := mkTree nilNode (match base with Some r => {[SourceBase := r]} | None => ∅ end)
                  0x9e3779b97f4a7c15 autoCompactPieces autoCompactPieces 0 in
  let piece := normalizePiece
    (mkPiece SourceBase (p_Offset piece) (p_Length piece) (p_Newlines piece) (p_NewlinesKnown piece)) in
  match validatePiece piece with
  | Some e => Err e
  | None =>
    if (0 <? p_Length piece) && negb (isSome base) then Err store_ErrUnknownSource
    else if 0 <? p_Length piece then
      let '(t, root) := makeNode t piece nilNode nilNode in Ok (with_root t root)
    else Ok t
  end.

Definition zeroPiece : Piece := mkPiece 0 0 0 0 false.

Definition NewWithOptions (base : option ReaderAt) (length : Z) (options : Options) : result Tree :=
  NewWithBasePieceOptions base (mkPiece SourceBase 0 length 0 false) options.
Definition New (base : option ReaderAt) (length : Z) : result Tree :=
  NewWithOptions base length (mkOptions 0 false).
Definition NewWithBasePiece (base : option ReaderAt) (piece : Piece) : result Tree :=
  NewWithBasePieceOptions base piece (mkOptions 0 false).

(** ** Tree operations (each holds the tree's mutex throughout) *)

Definition SetSource (t : Tree) (id : Z) (source : option ReaderAt) : Tree :=
  mkTree (t_root t)
    (match source with None => delete id (t_sources t) | Some r => <[id := r]> (t_sources t) end)
    (t_rng t) (t_autoCompactPieces t) (t_nextAutoCompactPieces t) (t_autoCompactions t).

Definition Tree_Len (t : Tree) : Z := nodeBytes (t_root t).
Definition LineBreaks (t : Tree) : Z * bool :=
  match t_root t with nilNode => (0, true) | n => (nodeNewlines n, nodeNewlinesKnown n) end.
Definition PieceCount (t : Tree) : Z := nodePieceCount (t_root t).
Definition Tree_Stats (t : Tree) : Stats :=
  mkStats (nodeBytes (t_root t)) (nodePieceCount (t_root t)) (nodeNewlines (t_root t))
          (nodeNewlinesKnown (t_root t)) (t_autoCompactPieces t) (t_nextAutoCompactPieces t)
          (t_autoCompactions t).
Definition Tree_Snapshot (t : Tree) : Snapshot := mkSnapshot (t_root t) (t_sources t).

(** [compact_visit] is the closure passed to [walk]; the slice it appends to is
    kept reversed, so [last] is its head. *)
Definition compact_visit (pieces : list Piece) (piece : Piece) : list Piece * option error :=
  match pieces with
  | last :: rest =>
    if (p_Source last =? p_Source piece) && (p_Offset last ⊞ p_Length last =? p_Offset piece) then
      let known := p_NewlinesKnown last && p_NewlinesKnown piece in
      (mkPiece (p_Source last) (p_Offset last) (p_Length last ⊞ p_Length piece)
               (if known then p_Newlines last ⊞ p_Newlines piece else 0) known :: rest, None)
    else (piece :: pieces, None)
  | [] => ([piece], None)
  end.

(** [for _, piece := range pieces { root = merge(root, t.makeNode(piece, nil, nil)) }] *)
Fixpoint rebuild (t : Tree) (root : node) (pieces : list Piece) : Tree * node :=
  match pieces with
  | [] => (t, root)
  | piece :: pieces =>
    let '(t, n) := makeNode t piece nilNode nilNode in
    rebuild t (merge root n) pieces
  end.

Definition compactLocked (t : Tree) : Tree * CompactResult :=
  let before := nodePieceCount (t_root t) in
  if before <? 2 then (t, mkCompactResult before before)
  else
    let pieces := rev (walk (t_root t) compact_visit []).1 in
    let '(t, root) := rebuild t nilNode pieces in
    (with_root t root, mkCompactResult before (zlen pieces)).

Definition scheduleNextAutoCompactLocked (t : Tree) (pieces : Z) : Tree :=
  if t_autoCompactPieces t =? 0 then with_next t 0
  else if pieces <? t_autoCompactPieces t then with_next t (t_autoCompactPieces t)
  else if maxInt64 ⊟ t_autoCompactPieces t <? pieces then with_next t maxInt64
  else with_next t (pieces ⊞ t_autoCompactPieces t).

Definition Compact (t : Tree) : Tree * CompactResult :=
  let '(t, result) := compactLocked t in
  (scheduleNextAutoCompactLocked t (AfterPieces result), result).

Definition maybeAutoCompactLocked (t : Tree) : Tree :=
  if t_autoCompactPieces t =? 0 then t
  else
    let pieces := nodePieceCount (t_root t) in
    if pieces <? t_autoCompactPieces t then with_next t (t_autoCompactPieces t)
    else if pieces <? t_nextAutoCompactPieces t then t
    else
      let '(t, result) := compactLocked t in
      let t := mkTree (t_root t) (t_sources t) (t_rng t) (t_autoCompactPieces t)
                      (t_nextAutoCompactPieces t) (t_autoCompactions t ⊕ 1) in
      scheduleNextAutoCompactLocked t (AfterPieces result).

Definition Restore (t : Tree) (snapshot : Snapshot) : Tree :=
  mkTree (s_root snapshot) (s_sources snapshot) (t_rng t) (t_autoCompactPieces t)
         (t_autoCompactPieces t) (t_autoCompactions t).

Definition ReplacePiece (t : Tree) (start deleteLength : Z) (replacement : Piece)
  : Tree * result (Snapshot * Snapshot) :=
  let length := nodeBytes (t_root t) in
  if (start <? 0) || (deleteLength <? 0) || (length <? start) || (length ⊟ start <? deleteLength)
  then (t, Err store_ErrInvalidRange)
  else
  let replacement := normalizePiece replacement in
  match validatePiece replacement with
  | Some e => (t, Err e)
  | None =>
  if (0 <? p_Length replacement) && negb (isSome (t_sources t !! p_Source replacement))
  then (t, Err store_ErrUnknownSource)
  else
  let remaining := length ⊟ deleteLength in
  if maxInt64 ⊟ remaining <? p_Length replacement then (t, Err store_ErrLengthOverflow)
  else
  let before := Tree_Snapshot t in
  if (deleteLength =? 0) && (p_Length replacement =? 0) then (t, Ok (before, before))
  else
  let '(lt, tail) := split (t_root t) start in
  let '(_, rt) := split tail deleteLength in
  let '(t, middle) :=
    if 0 <? p_Length replacement then makeNode t replacement nilNode nilNode else (t, nilNode) in
  let t := maybeAutoCompactLocked (with_root t (merge (merge lt middle) rt)) in
  (t, Ok (before, Tree_Snapshot t))
  end.

(** ** Reading *)

(** The middle block of [readNode]: the part of the request that falls in the
    node's own piece, with [room] bytes of [dst] left.  Result: the bytes read,
    the error that ends the read if any, and the offset left for the right
    subtree. *)
Definition readPiece (p : Piece) (sources : Sources) (off room : Z)
  : list byte * option error * Z :=
  if off <? p_Length p then
    let available := p_Length p ⊟ off in
    let want := if available <? room then available else room in
    match sources !! p_Source p with
    | None => ([], Some store_ErrUnknownSource, off)
    | Some source =>
      let '(data, err) := source (p_Offset p ⊞ off) want in
      match err with
      | Some e => if errors_Is e io_EOF && (zlen data =? want) then (data, None, 0)
                  else (data, Some e, off)
      | None => (data, None, 0)
      end
    end
  else ([], None, off ⊟ p_Length p).

(** [readNode n sources off dst] with [len(dst) = want]: the bytes written to
    the front of [dst] and the error. *)
Fixpoint readNode (n : node) (sources : Sources) (off want : Z) : list byte * option error :=
  match n with
  | nilNode => ([], None)
  | mkNode p _ lt rt _ _ _ _ =>
    if want =? 0 then ([], None) else
    let leftBytes := nodeBytes lt in
    let '(written, err, off) :=
      if off <? leftBytes
      then let '(w, e) := readNode lt sources off want in
           (w, match e with
               | Some e => if errors_Is e io_EOF then None else Some e
               | None => None
               end, 0)
      else ([], None, off ⊟ leftBytes) in
    match err with
    | Some e => (written, Some e)
    | None =>
      if zlen written =? want then (written, None) else
      let '(data, err, off) := readPiece p sources off (want - zlen written) in
      let written := written ++ data in
      match err with
      | Some e => (written, Some e)
      | None =>
        if zlen written =? want then (written, None) else
        let '(data, err) := readNode rt sources off (want - zlen written) in
        (written ++ data, err)
      end
    end
  end.

Definition Snapshot_Len (s : Snapshot) : Z := nodeBytes (s_root s).

(** [s.ReadAt(p, off)] with [len(p) = plen]. *)
Definition Snapshot_ReadAt (s : Snapshot) (plen off : Z) : list byte * option error :=
  if off <? 0 then ([], Some store_ErrInvalidRange)
  else if plen =? 0 then ([], None)
  else if Snapshot_Len s <=? off then ([], Some io_EOF)
  else
    let remain := Snapshot_Len s ⊟ off in
    let wanted := if remain <? plen then remain else plen in
    let '(data, err) := readNode (s_root s) (s_sources s) off wanted in
    match err with
    | Some e => (data, Some e)
    | None => (data, if zlen data <? plen then Some io_EOF else None)
    end.

Definition Tree_ReadAt (t : Tree) (plen off : Z) : list byte * option error :=
  Snapshot_ReadAt (Tree_Snapshot t) plen off.

Definition write_visit {W} (write : Writer W) (sources : Sources) (st : W * Z) (piece : Piece)
  : (W * Z) * option error :=
  let '(w, total) := st in
  match sources !! p_Source piece with
  | None => ((w, total), Some store_ErrUnknownSource)
  | Some source =>
    let '(w, n, err) := io_CopyN write w source (p_Offset piece) (p_Length piece) in
    ((w, total ⊞ n), err)
  end.

Definition WriteTo {W} (write : Writer W) (s : Snapshot) (w : W) : (W * Z) * option error :=
  walk (s_root s) (write_visit write (s_sources s)) (w, 0).

(** ** Reference view: the in-order list of pieces *)

Fixpoint pieces (n : node) : list Piece :=
  match n with
  | nilNode => []
  | mkNode p _ lt rt _ _ _ _ => pieces lt ++ p :: pieces rt
  end.

Fixpoint sum_len (ps : list Piece) : Z :=
  match ps with [] => 0 | p :: ps => p_Length p + sum_len ps end.
Fixpoint sum_nl (ps : list Piece) : Z :=
  match ps with [] => 0 | p :: ps => p_Newlines p + sum_nl ps end.
Definition all_known (ps : list Piece) : bool := forallb p_NewlinesKnown ps.

(** Bytes of a piece and of a list of pieces over the contents [D] of the
    sources. *)
Definition piece_bytes (D : Z -> list byte) (p : Piece) : list byte :=
  slice (p_Offset p) (p_Length p) (D (p_Source p)).
Definition content (D : Z -> list byte) (ps : list Piece) : list byte :=
  concat (map (piece_bytes D) ps).

(** Reference cut of a piece list at a byte position. *)
Fixpoint cut (ps : list Piece) (pos : Z) : list Piece * list Piece :=
  match ps with
  | [] => ([], [])
  | p :: ps' =>
    if pos <=? 0 then ([], ps)
    else if p_Length p <=? pos then let '(a, b) := cut ps' (pos - p_Length p) in (p :: a, b)
    else ([unknownNewlines p (p_Offset p) pos],
          unknownNewlines p (p_Offset p + pos) (p_Length p - pos) :: ps')
  end.

(** ** Well-formedness *)

Definition piece_wf (p : Piece) : Prop :=
  0 < p_Length p /\ 0 <= p_Offset p /\ p_Offset p + p_Length p <= maxInt64 /\
  (if p_NewlinesKnown p then 0 <= p_Newlines p <= p_Length p else p_Newlines p = 0).

Fixpoint cached_ok (n : node) : Prop :=
  match n with
  | nilNode => True
  | mkNode p _ lt rt b nl k c =>
    b = sum_len (pieces n) /\ nl = sum_nl (pieces n) /\ k = all_known (pieces n) /\
    c = zlen (pieces n) /\ cached_ok lt /\ cached_ok rt
  end.

Definition below (bound : Z) (n : node) : Prop :=
  match n with nilNode => True | mkNode _ pr _ _ _ _ _ _ => pr <= bound end.

(** Max-heap order of the priorities. *)
Fixpoint heap_ok (n : node) : Prop :=
  match n with
  | nilNode => True
  | mkNode _ pr lt rt _ _ _ _ => below pr lt /\ below pr rt /\ heap_ok lt /\ heap_ok rt
  end.

Definition pieces_wf (ps : list Piece) : Prop :=
  Forall piece_wf ps /\ sum_len ps <= maxInt64.
Definition node_wf (n : node) : Prop := cached_ok n /\ pieces_wf (pieces n).

Definition schedule_ok (t : Tree) : Prop :=
  (t_autoCompactPieces t = 0 /\ t_nextAutoCompactPieces t = 0) \/
  (2 <= t_autoCompactPieces t <= t_nextAutoCompactPieces t /\ t_nextAutoCompactPieces t <= maxInt64).

Record tree_wf (t : Tree) : Prop := {
  twf_node : node_wf (t_root t);
  twf_heap : heap_ok (t_root t);
  twf_rng : 1 <= t_rng t <= maxUint64;
  twf_schedule : schedule_ok t
}.

Lemma sum_len_app a b : sum_len (a ++ b) = sum_len a + sum_len b.
Proof. induction a; simpl; lia. Qed.
Lemma sum_nl_app a b : sum_nl (a ++ b) = sum_nl a + sum_nl b.
Proof. induction a; simpl; lia. Qed.
Lemma all_known_app a b : all_known (a ++ b) = all_known a && all_known b.
Proof. apply forallb_app. Qed.
Lemma content_app D a b : content D (a ++ b) = content D a ++ content D b.
Proof. unfold content. by rewrite map_app, concat_app. Qed.
Lemma content_cons D p ps : content D (p :: ps) = piece_bytes D p ++ content D ps.
Proof. done. Qed.

Lemma content_snoc D ps p : content D (ps ++ [p]) = content D ps ++ piece_bytes D p.
Proof. rewrite content_app, content_cons. unfold content at 2. simpl. by rewrite app_nil_r. Qed.

Lemma sum_len_nonneg ps : Forall piece_wf ps -> 0 <= sum_len ps.
Proof. induction 1 as [|p ps [H _] _ IH]; simpl; lia. Qed.
Lemma sum_len_zero ps : Forall piece_wf ps -> sum_len ps = 0 -> ps = [].
Proof.
  intros [|p ps' [H _] Hf]; [done|]; simpl; intros.
  pose proof (sum_len_nonneg ps' Hf); lia.
Qed.
Lemma count_bound ps : Forall piece_wf ps -> zlen ps <= sum_len ps.
Proof. induction 1 as [|p ps [H _] _ IH]; [done|]; rewrite zlen_cons; simpl; lia. Qed.
Lemma sum_nl_bound ps : Forall piece_wf ps -> 0 <= sum_nl ps <= sum_len ps.
Proof.
  induction 1 as [|p ps (H&_&_&H2) _ IH]; [done|]; simpl.
  destruct (p_NewlinesKnown p); lia.
Qed.

Lemma pieces_wf_app a b : pieces_wf (a ++ b) -> pieces_wf a /\ pieces_wf b.
Proof.
  intros [Hf Hs]. apply Forall_app in Hf as [Ha Hb]. rewrite sum_len_app in Hs.
  pose proof (sum_len_nonneg _ Ha). pose proof (sum_len_nonneg _ Hb).
  split; split; auto; lia.
Qed.

Lemma nodeBytes_ok n : cached_ok n -> nodeBytes n = sum_len (pieces n).
Proof. destruct n; [done|]. by intros (?&_). Qed.
Lemma nodeNewlines_ok n : cached_ok n -> nodeNewlines n = sum_nl (pieces n).
Proof. destruct n; [done|]. by intros (_&?&_). Qed.
Lemma nodeNewlinesKnown_ok n : cached_ok n -> nodeNewlinesKnown n = all_known (pieces n).
Proof. destruct n; [done|]. by intros (_&_&?&_). Qed.
Lemma nodePieceCount_ok n : cached_ok n -> nodePieceCount n = zlen (pieces n).
Proof. destruct n; [done|]. by intros (_&_&_&?&_). Qed.

(** [recalc] recomputes every cached field without overflow. *)
Lemma recalc_cached p pr lt rt b nl k c :
  cached_ok lt -> cached_ok rt -> pieces_wf (pieces lt ++ p :: pieces rt) ->
  cached_ok (recalc (mkNode p pr lt rt b nl k c)).
Proof.
  intros Hl Hr Hwf. cbn [recalc cached_ok pieces].
  rewrite !nodeBytes_ok, !nodeNewlines_ok, !nodeNewlinesKnown_ok, !nodePieceCount_ok by done.
  destruct Hwf as [Hf Hs]. apply Forall_app in Hf as [Hfl [Hp Hfr]%Forall_cons].
  rewrite !sum_len_app, !sum_nl_app, !all_known_app, !zlen_app, zlen_cons in *.
  cbn [sum_len sum_nl all_known forallb] in *. fold (all_known (pieces rt)).
  pose proof (count_bound _ Hfl). pose proof (count_bound _ Hfr).
  pose proof (sum_nl_bound _ Hfl). pose proof (sum_nl_bound _ Hfr).
  pose proof (zlen_nonneg (pieces lt)). pose proof (zlen_nonneg (pieces rt)).
  assert (0 <= p_Newlines p <= p_Length p).
  { destruct Hp as (?&_&_&?). destruct (p_NewlinesKnown p); lia. }
  destruct Hp as (?&_). unwrap64_goal.
  split_and!; auto; try lia. by rewrite andb_assoc.
Qed.

Lemma pieces_recalc n : pieces (recalc n) = pieces n.
Proof. by destruct n. Qed.
Lemma heap_recalc n : heap_ok (recalc n) <-> heap_ok n.
Proof. by destruct n. Qed.
Lemma below_recalc pr n : below pr (recalc n) <-> below pr n.
Proof. by destruct n. Qed.
Lemma below_mono a b n : a <= b -> below a n -> below b n.
Proof. destruct n; simpl; lia. Qed.

Lemma node_wf_node p pr lt rt b nl k c :
  node_wf (mkNode p pr lt rt b nl k c) ->
  node_wf lt /\ node_wf rt /\ piece_wf p /\
  nodeBytes lt = sum_len (pieces lt) /\ pieces_wf (pieces lt ++ p :: pieces rt).
Proof.
  intros [(_&_&_&_&Hl&Hr) Hwf]. cbn [pieces] in Hwf.
  pose proof Hwf as [Hpl Hpr]%pieces_wf_app.
  pose proof (pieces_wf_app [p] (pieces rt) Hpr) as [[Hp _] Hpr'].
  apply Forall_cons in Hp as [Hp _].
  split_and!; try done. by apply nodeBytes_ok.
Qed.

Lemma recalc_wf p pr lt rt b nl k c :
  node_wf lt -> node_wf rt -> pieces_wf (pieces lt ++ p :: pieces rt) ->
  node_wf (recalc (mkNode p pr lt rt b nl k c)).
Proof. intros [? _] [? _] ?. split; [by apply recalc_cached|done]. Qed.

#[export] Hint Resolve recalc_wf : store.

(** ** merge *)

Lemma merge_nil_l a : merge nilNode a = a.
Proof. by destruct a. Qed.
Lemma merge_nil_r a : merge a nilNode = a.
Proof. by destruct a. Qed.
Lemma merge_node lp lpr ll lr lb ln lk lc rp rpr rl rr rb rn rk rc :
  merge (mkNode lp lpr ll lr lb ln lk lc) (mkNode rp rpr rl rr rb rn rk rc) =
  if rpr <=? lpr
  then recalc (mkNode lp lpr ll (merge lr (mkNode rp rpr rl rr rb rn rk rc)) lb ln lk lc)
  else recalc (mkNode rp rpr (merge (mkNode lp lpr ll lr lb ln lk lc) rl) rr rb rn rk rc).
Proof. done. Qed.

(** Induction following the recursion of [merge]. *)
Lemma merge_ind (P : node -> node -> Prop) :
  (forall r, P nilNode r) -> (forall l, P l nilNode) ->
  (forall lp lpr ll lr lb ln lk lc rp rpr rl rr rb rn rk rc,
     let l := mkNode lp lpr ll lr lb ln lk lc in
     let r := mkNode rp rpr rl rr rb rn rk rc in
     (rpr <= lpr -> P lr r) -> (lpr < rpr -> P l rl) -> P l r) ->
  forall l r, P l r.
Proof.
  intros Hnl Hnr Hstep l. induction l as [|lp lpr ll _ lr IHlr lb ln lk lc]; [done|].
  intros r. induction r as [|rp rpr rl IHrl rr _ rb rn rk rc]; [done|].
  apply Hstep; auto.
Qed.

Lemma pieces_merge l r : pieces (merge l r) = pieces l ++ pieces r.
Proof.
  induction l, r as [| |lp lpr ll lr lb ln lk lc rp rpr rl rr rb rn rk rc l r IH1 IH2] using merge_ind;
    [by rewrite merge_nil_l|by rewrite merge_nil_r; simpl; rewrite app_nil_r|].
  subst l r. rewrite merge_node. destruct (Z.leb_spec rpr lpr); rewrite pieces_recalc; cbn [pieces].
  - rewrite IH1 by done. cbn [pieces]. by rewrite <-app_assoc.
  - rewrite IH2 by lia. cbn [pieces]. by rewrite <-!app_assoc.
Qed.

Lemma below_merge pr l r : below pr l -> below pr r -> below pr (merge l r).
Proof.
  destruct l as [|lp lpr ll lr lb ln lk lc]; [by rewrite merge_nil_l|].
  destruct r as [|rp rpr rl rr rb rn rk rc]; [by rewrite merge_nil_r|].
  rewrite merge_node. by destruct (rpr <=? lpr).
Qed.

Lemma merge_wf l r : node_wf l -> node_wf r -> pieces_wf (pieces l ++ pieces r) -> node_wf (merge l r).
Proof.
  induction l, r as [| |lp lpr ll lr lb ln lk lc rp rpr rl rr rb rn rk rc l r IH1 IH2] using merge_ind;
    [by rewrite merge_nil_l|by rewrite merge_nil_r|].
  intros Hl Hr Hwf. subst l r. rewrite merge_node.
  destruct (node_wf_node _ _ _ _ _ _ _ _ Hl) as (Hll&Hlr&_&_&_).
  destruct (node_wf_node _ _ _ _ _ _ _ _ Hr) as (Hrl&Hrr&_&_&_).
  destruct (Z.leb_spec rpr lpr); apply recalc_wf; auto.
  - apply IH1; auto. cbn [pieces] in Hwf |- *.
    rewrite <-app_assoc in Hwf. apply pieces_wf_app in Hwf as [_ Hwf].
    by apply (pieces_wf_app [lp]) in Hwf as [_ ?].
  - rewrite pieces_merge. cbn [pieces] in Hwf |- *.
    by rewrite <-app_assoc in Hwf.
  - apply IH2; [lia|auto..]. cbn [pieces] in Hwf |- *.
    rewrite app_assoc in Hwf. by apply pieces_wf_app in Hwf as [? _].
  - rewrite pieces_merge. cbn [pieces] in Hwf |- *.
    by rewrite <-app_assoc.
Qed.

Lemma merge_heap l r : heap_ok l -> heap_ok r -> heap_ok (merge l r).
Proof.
  induction l, r as [| |lp lpr ll lr lb ln lk lc rp rpr rl rr rb rn rk rc l r IH1 IH2] using merge_ind;
    [by rewrite merge_nil_l|by rewrite merge_nil_r|].
  intros Hl Hr. subst l r. rewrite merge_node.
  destruct (Z.leb_spec rpr lpr) as [Hle|Hlt]; rewrite heap_recalc.
  - destruct Hl as (?&?&?&?). cbn [heap_ok]. split_and!; auto.
    by apply below_merge.
  - destruct Hr as (?&?&?&?). cbn [heap_ok]. split_and!; auto.
    apply below_merge; [simpl; lia|done].
Qed.

#[export] Hint Resolve merge_wf merge_heap : store.

(** ** cut *)

Lemma cut_nonpos ps pos : pos <= 0 -> cut ps pos = ([], ps).
Proof. intros. destruct ps; [done|]; simpl. by rewrite (proj2 (Z.leb_le pos 0)) by lia. Qed.

Lemma cut_app_l a b pos :
  Forall piece_wf a -> 0 <= pos <= sum_len a ->
  cut (a ++ b) pos = ((cut a pos).1, (cut a pos).2 ++ b).
Proof.
  intros Ha. revert pos. induction Ha as [|p a (Hp&_) Ha IH]; intros pos Hpos; simpl in *.
  { by rewrite cut_nonpos by lia. }
  destruct (Z.leb_spec pos 0); [done|].
  destruct (Z.leb_spec (p_Length p) pos); [|done].
  rewrite IH by lia. by destruct (cut a (pos - p_Length p)).
Qed.

Lemma cut_app_r a b pos :
  Forall piece_wf a -> sum_len a <= pos ->
  cut (a ++ b) pos = (a ++ (cut b (pos - sum_len a)).1, (cut b (pos - sum_len a)).2).
Proof.
  intros Ha. revert pos. induction Ha as [|p a (Hp&_) Ha IH]; intros pos Hpos; simpl in *.
  { rewrite Z.sub_0_r. by destruct (cut b pos). }
  pose proof (sum_len_nonneg a Ha).
  rewrite (proj2 (Z.leb_gt pos 0)), (proj2 (Z.leb_le (p_Length p) pos)), IH by lia.
  by replace (pos - p_Length p - sum_len a) with (pos - (p_Length p + sum_len a)) by lia.
Qed.

Lemma cut_all a pos : Forall piece_wf a -> sum_len a <= pos -> cut a pos = (a, []).
Proof.
  intros. pose proof (cut_app_r a [] pos) as E. rewrite !app_nil_r in E.
  by rewrite E by done.
Qed.

Lemma unknown_wf p off len :
  piece_wf p -> 0 < len -> p_Offset p <= off -> off + len <= p_Offset p + p_Length p ->
  piece_wf (unknownNewlines p off len).
Proof. unfold piece_wf; simpl. lia. Qed.

(** [cut] keeps the pieces well-formed and splits the total length. *)
Lemma cut_wf ps pos :
  Forall piece_wf ps -> 0 <= pos <= sum_len ps ->
  Forall piece_wf (cut ps pos).1 /\ Forall piece_wf (cut ps pos).2 /\
  sum_len (cut ps pos).1 = pos /\ sum_len (cut ps pos).2 = sum_len ps - pos.
Proof.
  intros Hf. revert pos. induction Hf as [|p ps Hp Hf IH]; intros pos Hpos; simpl in *.
  { split_and!; auto; lia. }
  destruct (Z.leb_spec pos 0); [simpl; split_and!; auto; lia|].
  destruct (Z.leb_spec (p_Length p) pos).
  - destruct (IH (pos - p_Length p)) as (?&?&?&?); [lia|].
    destruct (cut ps (pos - p_Length p)) as [a b]; simpl in *. split_and!; auto; lia.
  - simpl. split_and!; try lia; repeat constructor; auto;
      apply unknown_wf; simpl; auto; lia.
Qed.

(** Content of a cut: a prefix and a suffix of the document. *)
Definition in_range (D : Z -> list byte) (p : Piece) : Prop :=
  0 <= p_Length p /\ 0 <= p_Offset p /\ p_Offset p + p_Length p <= zlen (D (p_Source p)).

Lemma zlen_piece_bytes D p : in_range D p -> zlen (piece_bytes D p) = p_Length p.
Proof. intros (?&?&?). unfold piece_bytes. apply zlen_slice; lia. Qed.
Lemma zlen_content D ps : Forall (in_range D) ps -> zlen (content D ps) = sum_len ps.
Proof.
  induction 1 as [|p ps Hp _ IH]; [done|].
  rewrite content_cons, zlen_app, IH, zlen_piece_bytes by done. done.
Qed.

Lemma cut_content D ps pos :
  Forall piece_wf ps -> Forall (in_range D) ps -> 0 <= pos <= sum_len ps ->
  content D (cut ps pos).1 = ztake pos (content D ps) /\
  content D (cut ps pos).2 = zdrop pos (content D ps) /\
  Forall (in_range D) (cut ps pos).1 /\ Forall (in_range D) (cut ps pos).2.
Proof.
  intros Hf Hr. revert pos. induction Hf as [|p ps Hp Hf IH]; intros pos Hpos; simpl in *.
  { unfold content, ztake, zdrop; simpl. by rewrite take_nil, drop_nil. }
  apply Forall_cons in Hr as [Hrp Hr].
  destruct (Z.leb_spec pos 0).
  { rewrite ztake_0, zdrop_0 by lia. simpl. auto. }
  pose proof (zlen_piece_bytes D p Hrp) as Hlen. rewrite content_cons.
  destruct (Z.leb_spec (p_Length p) pos).
  - destruct (IH Hr (pos - p_Length p)) as (E1&E2&?&?); [lia|].
    destruct (cut ps (pos - p_Length p)) as [a b]; simpl in *.
    rewrite ztake_app_r, zdrop_app_r, Hlen by lia. rewrite content_cons, E1, E2. auto.
  - rewrite ztake_app_l, zdrop_app_l by lia. simpl. rewrite content_cons.
    destruct Hrp as (?&?&?). destruct Hp as (?&_).
    assert (piece_bytes D p = slice (p_Offset p) (pos + (p_Length p - pos)) (D (p_Source p))) as ->.
    { unfold piece_bytes. f_equal; lia. }
    rewrite slice_split by lia. unfold content, piece_bytes; simpl. rewrite app_nil_r.
    assert (zlen (slice (p_Offset p) pos (D (p_Source p))) = pos) as Hz by (apply zlen_slice; lia).
    rewrite ztake_app, zdrop_app by done. split_and!; auto;
      repeat constructor; auto; simpl; lia.
Qed.

(** ** split *)

Lemma cut_pieces_wf ps pos :
  pieces_wf ps -> 0 <= pos <= sum_len ps -> pieces_wf (cut ps pos).1 /\ pieces_wf (cut ps pos).2.
Proof.
  intros [Hf Hs] Hpos. destruct (cut_wf ps pos Hf Hpos) as (?&?&?&?).
  split; split; auto; lia.
Qed.

(** What [split] promises of its two results. *)
Definition split_ok (n : node) (pos : Z) (ab : node * node) : Prop :=
  (pieces ab.1, pieces ab.2) = cut (pieces n) pos /\ cached_ok ab.1 /\ cached_ok ab.2 /\
  (heap_ok n -> heap_ok ab.1 /\ heap_ok ab.2 /\
     forall pr, below pr n -> below pr ab.1 /\ below pr ab.2).

(** The two fragments of a piece cut strictly inside. *)
Lemma fragment_ok p off len pr :
  piece_wf p -> 0 < len -> p_Offset p <= off -> off + len <= p_Offset p + p_Length p ->
  let n := recalc (mkNode (unknownNewlines p off len) pr nilNode nilNode 0 0 false 0) in
  node_wf n /\ pieces n = [unknownNewlines p off len] /\ heap_ok n /\ below pr n.
Proof.
  intros Hp Hlen Hlo Hhi n. pose proof (unknown_wf p off len Hp Hlen Hlo Hhi) as Hu.
  assert (pieces_wf [unknownNewlines p off len]) as Hw.
  { split; [by apply Forall_singleton|]. cbn [sum_len unknownNewlines p_Length].
    destruct Hp as (_&?&?&_). lia. }
  split_and!.
  - split; [by apply recalc_cached|done].
  - done.
  - by split_and!.
  - apply Z.le_refl.
Qed.

Lemma split_spec n pos :
  node_wf n -> 0 <= pos <= sum_len (pieces n) -> split_ok n pos (split n pos).
Proof.
  revert pos. induction n as [|p pr lt IHl rt IHr b nl k c]; intros pos Hwf Hpos.
  { by split_and!. }
  destruct (node_wf_node _ _ _ _ _ _ _ _ Hwf) as (Hl&Hr&Hp&Hlb&Hall).
  pose proof Hwf as [_ Hpwf]. cbn [pieces] in Hpos, Hpwf.
  pose proof (cut_pieces_wf _ _ Hpwf Hpos) as [Hw1 Hw2].
  pose proof Hl as [Hcl [Hfl _]]. pose proof Hr as [Hcr [Hfr _]]. pose proof Hp as (Hlen&Hoff&Hend&_).
  pose proof (sum_len_nonneg _ Hfl) as Hnl. pose proof (sum_len_nonneg _ Hfr) as Hnr.
  assert (sum_len (pieces lt) + (p_Length p + sum_len (pieces rt)) <= maxInt64) as Hmax.
  { destruct Hall as [_ Hs]. by rewrite sum_len_app in Hs. }
  rewrite sum_len_app in Hpos. cbn [sum_len] in Hpos.
  unfold split_ok in *. cbn [split pieces]. rewrite Hlb.
  destruct (Z.ltb_spec pos (sum_len (pieces lt))) as [Hlt|Hge].
  { specialize (IHl pos Hl ltac:(lia)).
    rewrite cut_app_l in Hw1, Hw2 |- * by (auto; lia).
    destruct (split lt pos) as [a m]. cbn [fst snd cloneNode] in *.
    destruct IHl as (E&Ha&Hm&Hh). rewrite <-E in *. cbn [fst snd] in *.
    split_and!; auto; [by apply recalc_cached|].
    intros (Hbl&Hbr&Hhl&Hhr). destruct (Hh Hhl) as (?&?&Hb). destruct (Hb pr Hbl).
    split_and!; auto; [by rewrite heap_recalc|].
    intros pr' Hpr'. rewrite below_recalc. simpl in *. split; [|done].
    by apply (below_mono pr). }
  unwrap64_goal.
  destruct (Z.ltb_spec (sum_len (pieces lt) + p_Length p) pos) as [Hgt|Hle].
  { specialize (IHr (pos - (sum_len (pieces lt) + p_Length p)) Hr ltac:(lia)).
    rewrite cut_app_r in Hw1, Hw2 |- * by (auto; lia). cbn [cut] in *.
    unwrap64_goal.
    rewrite (proj2 (Z.leb_gt _ 0)), (proj2 (Z.leb_le (p_Length p) _)) in Hw1, Hw2 |- * by lia.
    replace (pos - sum_len (pieces lt) - p_Length p)
      with (pos - (sum_len (pieces lt) + p_Length p)) in * by lia.
    destruct (split rt (pos - (sum_len (pieces lt) + p_Length p))) as [m z]. cbn [fst snd cloneNode] in *.
    destruct IHr as (E&Hm&Hz&Hh). rewrite <-E in *. cbn [fst snd] in *.
    split_and!; auto; [by apply recalc_cached|].
    intros (Hbl&Hbr&Hhl&Hhr). destruct (Hh Hhr) as (?&?&Hb). destruct (Hb pr Hbr).
    split_and!; auto; [by rewrite heap_recalc|].
    intros pr' Hpr'. rewrite below_recalc. simpl in *. split; [done|].
    by apply (below_mono pr). }
  destruct (Z.eqb_spec pos (sum_len (pieces lt))) as [->|Hne].
  { rewrite cut_app_r in Hw1, Hw2 |- * by (auto; lia).
    rewrite Z.sub_diag, cut_nonpos in Hw1, Hw2 |- * by lia. cbn [fst snd cloneNode] in *.
    rewrite app_nil_r in Hw1 |- *.
    split_and!; auto; [by apply recalc_cached|].
    intros (Hbl&Hbr&Hhl&Hhr). split_and!; auto; [by rewrite heap_recalc|].
    intros pr' Hpr'. rewrite below_recalc. simpl in *. split; [|done].
    by apply (below_mono pr). }
  rewrite cut_app_r in Hw1, Hw2 |- * by (auto; lia). cbn [cut] in *.
  rewrite (proj2 (Z.leb_gt _ 0)) in Hw1, Hw2 |- * by lia.
  destruct (Z.eqb_spec pos (sum_len (pieces lt) + p_Length p)) as [->|Hne2].
  { replace (sum_len (pieces lt) + p_Length p - sum_len (pieces lt)) with (p_Length p) in * by lia.
    rewrite Z.leb_refl, Z.sub_diag, cut_nonpos in Hw1, Hw2 |- * by lia. cbn [fst snd cloneNode] in *.
    split_and!; auto; [by apply recalc_cached|].
    intros (Hbl&Hbr&Hhl&Hhr). split_and!; auto; [by rewrite heap_recalc|].
    intros pr' Hpr'. rewrite below_recalc. simpl in *. split; [done|].
    by apply (below_mono pr). }
  rewrite (proj2 (Z.leb_gt (p_Length p) _)) in Hw1, Hw2 |- * by lia. cbn [fst snd] in *.
  unwrap64_goal.
  destruct (fragment_ok p (p_Offset p) (pos - sum_len (pieces lt)) pr Hp) as (Hf1&Ep1&Hh1&Hb1); [lia..|].
  destruct (fragment_ok p (p_Offset p + (pos - sum_len (pieces lt)))
              (p_Length p - (pos - sum_len (pieces lt))) pr Hp) as (Hf2&Ep2&Hh2&Hb2); [lia..|].
  rewrite !pieces_merge, Ep1, Ep2.
  assert (node_wf (merge lt (recalc (mkNode (unknownNewlines p (p_Offset p) (pos - sum_len (pieces lt)))
            pr nilNode nilNode 0 0 false 0)))) as [Hc1 _] by (apply merge_wf; auto; by rewrite Ep1).
  assert (node_wf (merge (recalc (mkNode (unknownNewlines p (p_Offset p + (pos - sum_len (pieces lt)))
            (p_Length p - (pos - sum_len (pieces lt)))) pr nilNode nilNode 0 0 false 0)) rt)) as [Hc2 _]
    by (apply merge_wf; auto; by rewrite Ep2).
  split_and!; auto. intros (Hbl&Hbr&Hhl&Hhr).
  split_and!; [by apply merge_heap..|].
  intros pr' Hpr'. simpl in Hpr'. split; apply (below_mono pr); auto; by apply below_merge.
Qed.

Lemma split_wf n pos :
  node_wf n -> 0 <= pos <= sum_len (pieces n) ->
  node_wf (split n pos).1 /\ node_wf (split n pos).2 /\
  pieces (split n pos).1 = (cut (pieces n) pos).1 /\ pieces (split n pos).2 = (cut (pieces n) pos).2.
Proof.
  intros Hwf Hpos. destruct (split_spec n pos Hwf Hpos) as (E&H1&H2&_).
  destruct (cut_pieces_wf (pieces n) pos) as [Hw1 Hw2]; [apply Hwf|done|].
  rewrite <-E in *. by split_and!.
Qed.

(** ** Priorities *)

Lemma lxor_u64 a b : in_u64 a -> in_u64 b -> in_u64 (Z.lxor a b).
Proof.
  intros. assert (0 <= Z.lxor a b < 2 ^ 64) by (apply lxor_range; unfold_ints; lia).
  unfold_ints. lia.
Qed.

Lemma shiftr_u64 a n : 0 <= n -> in_u64 a -> in_u64 (Z.shiftr a n).
Proof.
  intros Hn [Ha1 Ha2]. rewrite Z.shiftr_div_pow2 by done.
  pose proof (Z.pow_pos_nonneg 2 n ltac:(lia) Hn) as Hp. set (q := 2 ^ n) in *. clearbody q.
  pose proof (Z.div_pos a q ltac:(lia) Hp).
  pose proof (Z.div_le_upper_bound a q a Hp ltac:(nia)). unfold_ints. lia.
Qed.

Lemma xorshiftr_nonzero a n : 0 < n -> 1 <= a -> Z.lxor a (Z.shiftr a n) <> 0.
Proof.
  intros Hn Ha E. apply Z.lxor_eq in E. rewrite Z.shiftr_div_pow2 in E by lia.
  assert (1 < 2 ^ n) by (apply Z.pow_gt_1; lia).
  pose proof (Z.div_lt a (2 ^ n)). lia.
Qed.

Lemma xorshiftl_nonzero a : 1 <= a <= maxUint64 -> Z.lxor a (u64 (Z.shiftl a 25)) <> 0.
Proof.
  intros Ha E. apply Z.lxor_eq in E. rewrite Z.shiftl_mul_pow2 in E by lia. unfold u64 in E.
  assert ((two64 | (2 ^ 25 - 1) * a)) as Hd.
  { exists (a * 2 ^ 25 / two64).
    pose proof (Z.div_mod (a * 2 ^ 25) two64 ltac:(unfold_ints; lia)). lia. }
  apply Z.gauss in Hd; [|reflexivity].
  apply Z.divide_pos_le in Hd; unfold_ints; lia.
Qed.

(** The xorshift state never becomes 0, the fixed point on which every
    priority would be equal. *)
Lemma rng_next_ok r : 1 <= r <= maxUint64 -> 1 <= rng_next r <= maxUint64.
Proof.
  intros Hr. unfold rng_next.
  set (r1 := Z.lxor r (Z.shiftr r 12)). set (r2 := Z.lxor r1 (u64 (Z.shiftl r1 25))).
  assert (in_u64 r1) as Hu1 by (apply lxor_u64; [|apply shiftr_u64]; unfold_ints; lia).
  assert (r1 <> 0) by (apply xorshiftr_nonzero; lia).
  assert (in_u64 r2) as Hu2 by (apply lxor_u64; [done|apply u64_range]).
  assert (r2 <> 0) by (apply xorshiftl_nonzero; unfold_ints; lia).
  assert (in_u64 (Z.lxor r2 (Z.shiftr r2 27))) as Hu3 by (apply lxor_u64; [|apply shiftr_u64]; auto; lia).
  assert (Z.lxor r2 (Z.shiftr r2 27) <> 0) by (apply xorshiftr_nonzero; unfold_ints; lia).
  unfold_ints. lia.
Qed.

(** A fresh leaf. *)
Lemma makeNode_leaf t p :
  piece_wf p ->
  let '(t', n) := makeNode t p nilNode nilNode in
  t' = with_rng t (rng_next (t_rng t)) /\ node_wf n /\ heap_ok n /\ pieces n = [p].
Proof.
  intros Hp. simpl. split_and!; auto.
  assert (pieces_wf [p]) as Hw.
  { split; [by apply Forall_singleton|]. simpl. destruct Hp as (?&?&?&?). lia. }
  split; [|done]. apply (recalc_cached p _ nilNode nilNode 0 0 false 0); done.
Qed.

(** ** Compaction *)

Lemma walk_total {S} n (g : S -> Piece -> S) visit s :
  (forall s p, p ∈ pieces n -> visit s p = (g s p, None)) ->
  walk n visit s = (fold_left g (pieces n) s, None).
Proof.
  revert s. induction n as [|p pr lt IHl rt IHr b nl k c]; intros s Hv; [done|].
  cbn [walk pieces] in *. rewrite IHl by set_solver. rewrite Hv by set_solver.
  rewrite IHr by set_solver. by rewrite fold_left_app.
Qed.

Definition compact_step (acc : list Piece) (p : Piece) : list Piece := (compact_visit acc p).1.

Lemma compact_visit_step acc p : compact_visit acc p = (compact_step acc p, None).
Proof. unfold compact_step, compact_visit. destruct acc; [done|]. by case_match. Qed.

Definition mergeable (a b : Piece) : bool :=
  (p_Source a =? p_Source b) && (p_Offset a + p_Length a =? p_Offset b).

Definition merged (a b : Piece) : Piece :=
  let known := p_NewlinesKnown a && p_NewlinesKnown b in
  mkPiece (p_Source a) (p_Offset a) (p_Length a + p_Length b)
          (if known then p_Newlines a + p_Newlines b else 0) known.

(** The coalesced list, as compaction computes it. *)
Definition coalesce (ps : list Piece) : list Piece := rev (fold_left compact_step ps []).

(** No two neighbours that a compaction would merge. *)
Fixpoint no_mergeable (ps : list Piece) : Prop :=
  match ps with
  | a :: (b :: _) as rest => mergeable a b = false /\ no_mergeable rest
  | _ => True
  end.

(** Invariant of the reversed accumulator. *)
Fixpoint rev_no_mergeable (acc : list Piece) : Prop :=
  match acc with
  | b :: (a :: _) as rest => mergeable a b = false /\ rev_no_mergeable rest
  | _ => True
  end.

Lemma compact_step_cons a acc p :
  piece_wf a -> piece_wf p -> p_Length a + p_Length p <= maxInt64 ->
  compact_step (a :: acc) p = if mergeable a p then merged a p :: acc else p :: a :: acc.
Proof.
  intros (Hl&Ho&He&Hn) (Hl'&Ho'&He'&Hn') Hs.
  unfold compact_step, compact_visit, mergeable, merged. unwrap64_goal.
  destruct ((p_Source a =? p_Source p) && (p_Offset a + p_Length a =? p_Offset p)); [|done].
  destruct (p_NewlinesKnown a) eqn:Ea; destruct (p_NewlinesKnown p) eqn:Ep; cbn [andb fst];
    unwrap64_goal; done.
Qed.

Lemma merged_wf a p : piece_wf a -> piece_wf p -> mergeable a p = true -> piece_wf (merged a p).
Proof.
  intros (Hl&Ho&He&Hn) (Hl'&Ho'&He'&Hn') [_ E%Z.eqb_eq]%andb_prop.
  unfold piece_wf, merged; simpl.
  destruct (p_NewlinesKnown a), (p_NewlinesKnown p); simpl; split_and!; lia.
Qed.

Lemma merged_bytes D a p :
  piece_wf a -> piece_wf p -> mergeable a p = true ->
  piece_bytes D (merged a p) = piece_bytes D a ++ piece_bytes D p.
Proof.
  intros (Hl&Ho&_) (Hl'&Ho'&_) [E1%Z.eqb_eq E2%Z.eqb_eq]%andb_prop.
  unfold piece_bytes, merged; simpl. rewrite slice_split by lia. by rewrite E2, E1.
Qed.

(** Everything one step of the coalescing loop keeps. *)
Lemma compact_step_ok acc p :
  Forall piece_wf acc -> piece_wf p -> sum_len acc + p_Length p <= maxInt64 ->
  let acc' := compact_step acc p in
  Forall piece_wf acc' /\ sum_len acc' = sum_len acc + p_Length p /\
  zlen acc' <= zlen acc + 1 /\
  (forall D, content D (rev acc') = content D (rev acc) ++ piece_bytes D p) /\
  (rev_no_mergeable acc -> rev_no_mergeable acc').
Proof.
  intros Hacc Hp Hs. destruct acc as [|a acc].
  { change (compact_step [] p) with [p]. cbn zeta.
    split_and!; [by apply Forall_singleton|simpl; lia|done|intros D; apply (content_snoc D [] p)|done]. }
  apply Forall_cons in Hacc as [Ha Hacc]. cbn [sum_len] in Hs.
  pose proof (sum_len_nonneg acc Hacc).
  cbn zeta. rewrite compact_step_cons by (auto; lia).
  destruct (mergeable a p) eqn:Hm.
  - split_and!.
    + constructor; [by apply merged_wf|done].
    + simpl; lia.
    + rewrite !zlen_cons; lia.
    + intros D. cbn [rev]. by rewrite !content_snoc, merged_bytes, app_assoc by done.
    + destruct acc as [|z acc]; [done|]. intros [Hz Hr]. split; [|done].
      unfold mergeable, merged in *. simpl in *. done.
  - split_and!.
    + by do 2 (constructor; [done|]).
    + simpl; lia.
    + rewrite !zlen_cons; lia.
    + intros D. cbn [rev]. by rewrite !content_snoc.
    + by split.
Qed.

Lemma compact_fold_ok ps acc :
  Forall piece_wf acc -> Forall piece_wf ps -> sum_len acc + sum_len ps <= maxInt64 ->
  let acc' := fold_left compact_step ps acc in
  Forall piece_wf acc' /\ sum_len acc' = sum_len acc + sum_len ps /\
  zlen acc' <= zlen acc + zlen ps /\
  (forall D, content D (rev acc') = content D (rev acc) ++ content D ps) /\
  (rev_no_mergeable acc -> rev_no_mergeable acc').
Proof.
  revert acc. induction ps as [|p ps IH]; intros acc Hacc Hps Hs.
  { cbn zeta. cbn [fold_left sum_len]. split_and!; auto; [lia|rewrite zlen_nil; lia|].
    intros D. change (content D []) with (@nil byte). by rewrite app_nil_r. }
  apply Forall_cons in Hps as [Hp Hps]. cbn [sum_len fold_left] in *.
  pose proof (sum_len_nonneg ps Hps).
  destruct (compact_step_ok acc p) as (H1&H2&H3&H4&H5); [auto; lia..|].
  destruct (IH (compact_step acc p)) as (G1&G2&G3&G4&G5); [auto; lia..|].
  cbn zeta. split_and!; auto; try lia.
  - rewrite zlen_cons. lia.
  - intros D. by rewrite G4, H4, content_cons, app_assoc.
Qed.

Lemma sum_len_rev ps : sum_len (rev ps) = sum_len ps.
Proof. induction ps; [done|]. simpl. rewrite sum_len_app. simpl. lia. Qed.
Lemma zlen_rev {A} (l : list A) : zlen (rev l) = zlen l.
Proof. unfold zlen. by rewrite length_rev. Qed.

Lemma no_mergeable_snoc ps b :
  no_mergeable ps -> (match rev ps with [] => True | a :: _ => mergeable a b = false end) ->
  no_mergeable (ps ++ [b]).
Proof.
  induction ps as [|a ps IH]; [done|]. intros Hn Hb.
  destruct ps as [|c ps]; [simpl in *; auto|].
  destruct Hn as [Hac Hn]. split; [done|]. apply IH; [done|].
  simpl in Hb |- *. destruct (rev ps); done.
Qed.

Lemma rev_no_mergeable_ok acc : rev_no_mergeable acc -> no_mergeable (rev acc).
Proof.
  induction acc as [|b acc IH]; [done|]. intros H. simpl. apply no_mergeable_snoc.
  - apply IH. destruct acc; [done|]. by destruct H.
  - rewrite rev_involutive. destruct acc; [done|]. by destruct H.
Qed.

Lemma coalesce_ok ps :
  pieces_wf ps ->
  pieces_wf (coalesce ps) /\ sum_len (coalesce ps) = sum_len ps /\ zlen (coalesce ps) <= zlen ps /\
  (forall D, content D (coalesce ps) = content D ps) /\ no_mergeable (coalesce ps).
Proof.
  intros [Hf Hs]. unfold coalesce.
  destruct (compact_fold_ok ps []) as (H1&H2&H3&H4&H5); [auto..|]. cbn zeta in *.
  split_and!.
  - split; [by apply Forall_rev|]. rewrite sum_len_rev. simpl in *. lia.
  - rewrite sum_len_rev. simpl in *. lia.
  - rewrite zlen_rev. by rewrite zlen_nil in H3.
  - done.
  - by apply rev_no_mergeable_ok, H5.
Qed.

(** ** Trees *)

(** What the maintenance steps keep of the tree besides the root. *)
Definition same_frame (t t' : Tree) : Prop :=
  t_sources t' = t_sources t /\ t_autoCompactPieces t' = t_autoCompactPieces t.

Definition rng_ok (t : Tree) : Prop := 1 <= t_rng t <= maxUint64.

Lemma rebuild_ok ps t root :
  rng_ok t -> node_wf root -> heap_ok root -> pieces_wf (pieces root ++ ps) ->
  let '(t', root') := rebuild t root ps in
  rng_ok t' /\ node_wf root' /\ heap_ok root' /\ pieces root' = pieces root ++ ps /\
  same_frame t t' /\ t_nextAutoCompactPieces t' = t_nextAutoCompactPieces t.
Proof.
  revert t root. induction ps as [|p ps IH]; intros t root Hrng Hwf Hheap Hall; cbn [rebuild].
  { rewrite app_nil_r. by split_and!. }
  assert (piece_wf p) as Hp.
  { apply pieces_wf_app in Hall as [_ [Hf _]]. by apply Forall_cons in Hf as [? _]. }
  pose proof (makeNode_leaf t p Hp) as Hleaf. destruct (makeNode t p nilNode nilNode) as [t1 n].
  destruct Hleaf as (->&Hn&Hhn&Hpn).
  change (p :: ps) with ([p] ++ ps) in Hall. rewrite app_assoc in Hall.
  specialize (IH (with_rng t (rng_next (t_rng t))) (merge root n)).
  rewrite pieces_merge, Hpn in IH.
  pose proof (pieces_wf_app _ _ Hall) as [Hfst _].
  destruct (rebuild _ (merge root n) ps) as [t2 root2].
  destruct IH as (?&?&?&E&[Hs1 Hs2]&?); auto using merge_heap.
  { by apply rng_next_ok. }
  { apply merge_wf; auto. by rewrite Hpn. }
  rewrite E. split_and!; auto; [by rewrite <-app_assoc|by split].
Qed.

Lemma compactLocked_ok t :
  node_wf (t_root t) -> heap_ok (t_root t) -> rng_ok t ->
  let '(t', r) := compactLocked t in
  node_wf (t_root t') /\ heap_ok (t_root t') /\ rng_ok t' /\ same_frame t t' /\
  t_nextAutoCompactPieces t' = t_nextAutoCompactPieces t /\
  t_autoCompactions t' = t_autoCompactions t /\
  pieces (t_root t') =
    (if zlen (pieces (t_root t)) <? 2 then pieces (t_root t) else coalesce (pieces (t_root t))) /\
  BeforePieces r = zlen (pieces (t_root t)) /\ AfterPieces r = zlen (pieces (t_root t')).
Proof.
  intros Hwf Hheap Hrng. unfold compactLocked.
  rewrite nodePieceCount_ok by apply Hwf.
  destruct (Z.ltb_spec (zlen (pieces (t_root t))) 2); [by split_and!|].
  rewrite (walk_total _ compact_step) by (intros; apply compact_visit_step).
  cbn [fst]. change (rev (fold_left compact_step (pieces (t_root t)) [])) with (coalesce (pieces (t_root t))).
  destruct (coalesce_ok (pieces (t_root t))) as (Hc&_&_&_&_); [apply Hwf|].
  pose proof (rebuild_ok (coalesce (pieces (t_root t))) t nilNode Hrng) as Hr.
  assert (t_autoCompactions (rebuild t nilNode (coalesce (pieces (t_root t)))).1 = t_autoCompactions t) as Ha.
  { clear. generalize nilNode. generalize (coalesce (pieces (t_root t))) as ps. intros ps.
    revert t. induction ps as [|p ps IH]; intros t root; [done|]. cbn [rebuild].
    destruct (makeNode t p nilNode nilNode) as [t' n] eqn:E. rewrite IH.
    by injection E as <- _. }
  destruct (rebuild t nilNode (coalesce (pieces (t_root t)))) as [t' root'].
  destruct Hr as (?&?&?&E&[? ?]&?); [done|done|done|]. cbn [fst] in Ha.
  cbn [t_root with_root BeforePieces AfterPieces]. rewrite E. by split_and!.
Qed.

Lemma compacted_content D t t' :
  pieces_wf (pieces (t_root t)) ->
  pieces (t_root t') =
    (if zlen (pieces (t_root t)) <? 2 then pieces (t_root t) else coalesce (pieces (t_root t))) ->
  content D (pieces (t_root t')) = content D (pieces (t_root t)) /\
  zlen (pieces (t_root t')) <= zlen (pieces (t_root t)) /\
  no_mergeable (pieces (t_root t')).
Proof.
  intros Hwf ->. destruct (coalesce_ok _ Hwf) as (_&_&?&Hc&?).
  destruct (Z.ltb_spec (zlen (pieces (t_root t))) 2); [|by auto].
  split_and!; auto; [lia|]. destruct (pieces (t_root t)) as [|a [|b ps]]; [done..|].
  rewrite !zlen_cons in *. pose proof (zlen_nonneg ps). lia.
Qed.

(** The schedule after a maintenance decision leaves room for growth: the next
    trigger is above the piece count, or saturated. *)
Definition bounded_growth (t : Tree) : Prop :=
  t_autoCompactPieces t = 0 \/ zlen (pieces (t_root t)) < t_nextAutoCompactPieces t \/
  t_nextAutoCompactPieces t = maxInt64.

Lemma schedule_spec t n :
  0 <= n <= maxInt64 -> t_autoCompactPieces t = 0 \/ 2 <= t_autoCompactPieces t <= maxInt64 ->
  let t' := scheduleNextAutoCompactLocked t n in
  t_root t' = t_root t /\ t_rng t' = t_rng t /\ same_frame t t' /\ schedule_ok t' /\
  t_autoCompactions t' = t_autoCompactions t /\
  (t_autoCompactPieces t = 0 \/ n < t_nextAutoCompactPieces t' \/ t_nextAutoCompactPieces t' = maxInt64).
Proof.
  intros Hn Ha. unfold scheduleNextAutoCompactLocked, schedule_ok, same_frame.
  destruct (Z.eqb_spec (t_autoCompactPieces t) 0); [simpl; auto 10|].
  destruct Ha as [?|Ha]; [done|].
  destruct (Z.ltb_spec n (t_autoCompactPieces t)); [simpl; split_and!; auto; right; lia|].
  unwrap64_goal. destruct (Z.ltb_spec (maxInt64 - t_autoCompactPieces t) n); simpl.
  - split_and!; auto. right. lia.
  - unwrap64_goal. split_and!; auto; right; lia.
Qed.

Lemma node_wf_count n : node_wf n -> 0 <= zlen (pieces n) <= maxInt64.
Proof.
  intros [_ [Hf Hs]]. pose proof (count_bound _ Hf). pose proof (zlen_nonneg (pieces n)). lia.
Qed.

Lemma maybeAutoCompact_ok t :
  tree_wf t ->
  let t' := maybeAutoCompactLocked t in
  tree_wf t' /\ same_frame t t' /\ bounded_growth t' /\
  (forall D, content D (pieces (t_root t')) = content D (pieces (t_root t))) /\
  zlen (pieces (t_root t')) <= zlen (pieces (t_root t)).
Proof.
  intros [Hn Hh Hr Hs]. pose proof (node_wf_count _ Hn) as Hc.
  assert (same_frame t t) as Hrefl by done.
  unfold maybeAutoCompactLocked, bounded_growth.
  destruct (Z.eqb_spec (t_autoCompactPieces t) 0) as [H0|H0]; [split_and!; auto using Z.le_refl; by split|].
  rewrite nodePieceCount_ok by apply Hn.
  destruct Hs as [[? _]|Hs]; [done|].
  destruct (Z.ltb_spec (zlen (pieces (t_root t))) (t_autoCompactPieces t)).
  { cbn [t_root with_next t_nextAutoCompactPieces t_autoCompactPieces]. split_and!; auto using Z.le_refl.
    split; auto; right; simpl; lia. }
  destruct (Z.ltb_spec (zlen (pieces (t_root t))) (t_nextAutoCompactPieces t)).
  { split_and!; auto using Z.le_refl. split; auto; by right. }
  pose proof (compactLocked_ok t Hn Hh Hr) as Hk. destruct (compactLocked t) as [t1 r].
  destruct Hk as (Hn1&Hh1&Hr1&[Hsrc Hauto]&Hnext&_&Hp1&_&Hafter).
  pose proof (node_wf_count _ Hn1) as Hc1.
  set (t2 := mkTree _ _ _ _ _ _).
  destruct (schedule_spec t2 (AfterPieces r)) as (Er&Eg&[Es Ea]&Hsch&_&Hg).
  { rewrite Hafter. lia. }
  { right. subst t2. cbn. rewrite Hauto. lia. }
  cbn zeta. rewrite Er, Ea. subst t2. cbn [t_root t_autoCompactPieces t_sources] in *.
  split_and!.
  - by split; rewrite ?Er, ?Eg.
  - split; congruence.
  - rewrite <-Hafter. exact Hg.
  - intros D. apply (compacted_content D t t1); [apply Hn|done].
  - apply (compacted_content (fun _ => []) t t1); [apply Hn|done].
Qed.

(** The validation of a replacement, in unbounded arithmetic. *)
Definition piece_typed (p : Piece) : Prop := in_i64 (p_Offset p) /\ in_i64 (p_Length p) /\ in_i64 (p_Newlines p).

Definition piece_valid (p : Piece) : bool :=
  (p_Length p =? 0) ||
  ((0 <? p_Length p) && (0 <=? p_Offset p) && (p_Offset p + p_Length p <=? maxInt64) &&
   (negb (p_NewlinesKnown p) || ((0 <=? p_Newlines p) && (p_Newlines p <=? p_Length p)))).

Lemma validatePiece_spec p :
  in_i64 (p_Length p) ->
  validatePiece p = if piece_valid p then None else Some store_ErrInvalidPiece.
Proof.
  intros Hl. unfold validatePiece, piece_valid.
  destruct (Z.eqb_spec (p_Length p) 0); [done|]. cbn [orb].
  destruct (Z.ltb_spec (p_Length p) 0).
  { by rewrite (proj2 (Z.ltb_ge 0 _)) by lia. }
  rewrite (proj2 (Z.ltb_lt 0 _)) by lia. cbn [orb andb].
  rewrite (Z.ltb_antisym 0 (p_Offset p)). destruct (0 <=? p_Offset p); [|done]. cbn [negb orb andb].
  unwrap64_goal.
  destruct (Z.ltb_spec (maxInt64 - p_Length p) (p_Offset p)).
  { by rewrite (proj2 (Z.leb_gt _ maxInt64)) by lia. }
  rewrite (proj2 (Z.leb_le _ maxInt64)) by lia. cbn [andb].
  destruct (p_NewlinesKnown p); [|done]. cbn [negb orb andb].
  rewrite (Z.ltb_antisym 0 (p_Newlines p)), (Z.ltb_antisym (p_Newlines p) (p_Length p)).
  by destruct (0 <=? p_Newlines p), (p_Newlines p <=? p_Length p).
Qed.

Lemma normalize_valid_wf p :
  piece_valid (normalizePiece p) = true -> p_Length p <> 0 -> piece_wf (normalizePiece p).
Proof.
  unfold piece_valid, normalizePiece, piece_wf.
  destruct (p_NewlinesKnown p) eqn:E; cbn; rewrite ?E; cbn; lia.
Qed.

Lemma normalize_length p : p_Length (normalizePiece p) = p_Length p.
Proof. unfold normalizePiece. by case_match. Qed.
Lemma normalize_source p : p_Source (normalizePiece p) = p_Source p.
Proof. unfold normalizePiece. by case_match. Qed.
Lemma normalize_bytes D p : piece_bytes D (normalizePiece p) = piece_bytes D p.
Proof. unfold normalizePiece. by case_match. Qed.

(** Which error [ReplacePiece] reports, in unbounded arithmetic and over the
    piece list. *)
Definition replace_guard (t : Tree) (start del : Z) (p : Piece) : option error :=
  let len := sum_len (pieces (t_root t)) in
  if negb ((0 <=? start) && (0 <=? del) && (start + del <=? len)) then Some store_ErrInvalidRange
  else if negb (piece_valid (normalizePiece p)) then Some store_ErrInvalidPiece
  else if (0 <? p_Length p) && negb (isSome (t_sources t !! p_Source p)) then Some store_ErrUnknownSource
  else if maxInt64 <? len - del + p_Length p then Some store_ErrLengthOverflow
  else None.

(** The tree an accepted replacement installs before maintenance. *)
Definition replaced (t : Tree) (start del : Z) (p : Piece) : Tree :=
  let '(lt, tail) := split (t_root t) start in
  let '(_, rt) := split tail del in
  let '(t, middle) :=
    if 0 <? p_Length p then makeNode t (normalizePiece p) nilNode nilNode else (t, nilNode) in
  with_root t (merge (merge lt middle) rt).

Lemma ReplacePiece_unfold t start del p :
  node_wf (t_root t) -> piece_typed p ->
  ReplacePiece t start del p =
  match replace_guard t start del p with
  | Some e => (t, Err e)
  | None =>
    if (del =? 0) && (p_Length p =? 0) then (t, Ok (Tree_Snapshot t, Tree_Snapshot t))
    else let t' := maybeAutoCompactLocked (replaced t start del p) in
         (t', Ok (Tree_Snapshot t, Tree_Snapshot t'))
  end.
Proof.
  intros [Hc [Hf Hs]] (Ho&Hl&Hnl). unfold ReplacePiece, replace_guard, replaced.
  rewrite nodeBytes_ok by done. set (len := sum_len (pieces (t_root t))) in *.
  pose proof (sum_len_nonneg _ Hf) as H0. fold len in H0.
  rewrite validatePiece_spec by (rewrite normalize_length; done).
  rewrite normalize_length, normalize_source.
  destruct (Z.ltb_spec start 0); [by rewrite (proj2 (Z.leb_gt 0 start)) by lia|].
  destruct (Z.ltb_spec del 0); [by rewrite (proj2 (Z.leb_gt 0 del)), andb_false_r by lia|].
  rewrite (proj2 (Z.leb_le 0 start)), (proj2 (Z.leb_le 0 del)) by lia. cbn [orb andb].
  destruct (Z.ltb_spec len start); [by rewrite (proj2 (Z.leb_gt _ len)) by lia|].
  cbn [orb]. unwrap64_goal.
  destruct (Z.ltb_spec (len - start) del); [by rewrite (proj2 (Z.leb_gt _ len)) by lia|].
  rewrite (proj2 (Z.leb_le _ len)) by lia. cbn [negb].
  destruct (piece_valid (normalizePiece p)); [|done]. cbn [negb].
  destruct ((0 <? p_Length p) && negb (isSome (t_sources t !! p_Source p))); [done|].
  unwrap64_goal.
  destruct (Z.ltb_spec (maxInt64 - (len - del)) (p_Length p)).
  { by rewrite (proj2 (Z.ltb_lt maxInt64 _)) by lia. }
  rewrite (proj2 (Z.ltb_ge maxInt64 _)) by lia.
  destruct ((del =? 0) && (p_Length p =? 0)); [done|].
  destruct (split (t_root t) start) as [a tl]. destruct (split tl del) as [? z].
  by destruct (0 <? p_Length p); [destruct (makeNode t (normalizePiece p) nilNode nilNode)|].
Qed.

Definition inserted_pieces (p : Piece) : list Piece :=
  if 0 <? p_Length p then [normalizePiece p] else [].

Lemma replaced_ok t start del p :
  tree_wf t -> replace_guard t start del p = None ->
  let t' := replaced t start del p in
  tree_wf t' /\ same_frame t t' /\
  pieces (t_root t') =
    (cut (pieces (t_root t)) start).1 ++ inserted_pieces p ++
    (cut (cut (pieces (t_root t)) start).2 del).2.
Proof.
  intros [Hn Hh Hr Hs] Hg. unfold replace_guard in Hg. unfold replaced, inserted_pieces.
  set (ps := pieces (t_root t)) in *.
  destruct ((0 <=? start) && (0 <=? del) && (start + del <=? sum_len ps)) eqn:Hb; [|done].
  destruct (piece_valid (normalizePiece p)) eqn:Hv; [|done]. cbn [negb] in Hg.
  destruct ((0 <? p_Length p) && negb (isSome (t_sources t !! p_Source p))); [done|].
  destruct (Z.ltb_spec maxInt64 (sum_len ps - del + p_Length p)) as [|Hmax]; [done|]. clear Hg.
  apply andb_prop in Hb as [[Hst%Z.leb_le Hdel%Z.leb_le]%andb_prop Hend%Z.leb_le].
  assert (Forall piece_wf ps /\ sum_len ps <= maxInt64) as [Hf Hmaxps] by apply Hn.
  destruct (cut_wf ps start Hf) as (Hf1&Hf2&Hl1&Hl2); [lia|].
  destruct (cut_wf (cut ps start).2 del Hf2) as (_&Hf4&_&Hl4); [lia|].
  destruct (split_wf (t_root t) start Hn) as (Ha&Htl&Ea&Etl); [fold ps; lia|]. fold ps in Ea, Etl.
  destruct (split_spec (t_root t) start Hn) as (_&_&_&Hhs); [fold ps; lia|].
  destruct (Hhs Hh) as (Hha&Hhtl&_). clear Hhs.
  destruct (split (t_root t) start) as [a tl]; cbn [fst snd] in *.
  destruct (split_wf tl del Htl) as (_&Hz&_&Ez); [rewrite Etl; lia|].
  destruct (split_spec tl del Htl) as (_&_&_&Hhs); [rewrite Etl; lia|].
  destruct (Hhs Hhtl) as (_&Hhz&_). clear Hhs. rewrite Etl in Ez.
  destruct (split tl del) as [mid z]; cbn [fst snd] in *.
  assert (forall m ins, node_wf m -> heap_ok m -> pieces m = ins -> Forall piece_wf ins ->
            start + sum_len ins + (sum_len ps - start - del) <= maxInt64 ->
            node_wf (merge (merge a m) z) /\ heap_ok (merge (merge a m) z) /\
            pieces (merge (merge a m) z) = (cut ps start).1 ++ ins ++ (cut (cut ps start).2 del).2) as Hm.
  { intros m ins Hwm Hhm Em Hfi Hsum. rewrite !pieces_merge, Ea, Em, Ez, <-app_assoc.
    assert (pieces_wf ((cut ps start).1 ++ ins ++ (cut (cut ps start).2 del).2)) as Hpw.
    { split; [by repeat apply Forall_app_2|]. rewrite !sum_len_app, Hl1, Hl4, Hl2. lia. }
    split_and!; [|by auto using merge_heap|done].
    apply merge_wf; [apply merge_wf|..]; auto.
    - rewrite Ea, Em. rewrite app_assoc in Hpw. by apply pieces_wf_app in Hpw as [? _].
    - by rewrite pieces_merge, Ea, Em, Ez, <-app_assoc. }
  destruct (Z.ltb_spec 0 (p_Length p)).
  - assert (piece_wf (normalizePiece p)) as Hp by (apply normalize_valid_wf; [done|lia]).
    pose proof (makeNode_leaf t (normalizePiece p) Hp) as Hk.
    destruct (makeNode t (normalizePiece p) nilNode nilNode) as [t1 m].
    destruct Hk as (->&Hwm&Hhm&Em).
    destruct (Hm m _ Hwm Hhm Em) as (?&?&E); [by apply Forall_singleton|simpl; rewrite normalize_length; lia|].
    cbn zeta. split_and!; [|done|exact E]. split; simpl; auto. by apply rng_next_ok.
  - destruct (Hm nilNode []) as (?&?&E); [done..|simpl; lia|].
    cbn zeta. split_and!; [by split|done|exact E].
Qed.

(** Content of the replaced tree. *)
Lemma replaced_content D t start del p :
  tree_wf t -> replace_guard t start del p = None ->
  Forall (in_range D) (pieces (t_root t)) -> 0 <= p_Length p ->
  content D (pieces (t_root (replaced t start del p))) =
  splice start del (piece_bytes D p) (content D (pieces (t_root t))).
Proof.
  intros Ht Hg HD Hlp. destruct (replaced_ok t start del p Ht Hg) as (_&_&->).
  unfold replace_guard in Hg. destruct Ht as [[_ [Hf _]] _ _ _].
  destruct ((0 <=? start) && (0 <=? del) && (start + del <=? sum_len (pieces (t_root t)))) eqn:Hb; [|done].
  clear Hg. set (ps := pieces (t_root t)) in *.
  assert (0 <= start /\ 0 <= del /\ start + del <= sum_len ps) as (Hs&Hd&He) by lia. clear Hb.
  destruct (cut_wf ps start Hf) as (_&Hf2&_&Hl2); [lia|].
  destruct (cut_content D ps start Hf HD) as (E1&E2&_&HD2); [lia|].
  destruct (cut_content D (cut ps start).2 del Hf2 HD2) as (_&E4&_&_); [lia|].
  rewrite !content_app, E1, E4, E2. unfold splice. rewrite zdrop_zdrop by lia.
  do 2 f_equal. unfold inserted_pieces. destruct (Z.ltb_spec 0 (p_Length p)).
  - rewrite content_cons, normalize_bytes. change (content D []) with (@nil byte). by rewrite app_nil_r.
  - unfold piece_bytes. by rewrite slice_nil_len by lia.
Qed.

(** ** Reading *)

(** Every piece's source is present, keeps the [io.ReaderAt] contract over the
    content [D] gives it, and covers the piece. *)
Definition sources_serve (sources : Sources) (D : Z -> list byte) (ps : list Piece) : Prop :=
  Forall (fun p => in_range D p /\
    exists r, sources !! p_Source p = Some r /\ ReaderOk r (D (p_Source p))) ps.

Lemma sources_serve_range sources D ps : sources_serve sources D ps -> Forall (in_range D) ps.
Proof. intros H. eapply Forall_impl; [exact H|]. by intros p [? _]. Qed.

Lemma readPiece_ok D sources p off room :
  piece_wf p -> sources_serve sources D [p] -> 0 <= off <= maxInt64 -> 0 < room ->
  readPiece p sources off room =
    (slice off room (piece_bytes D p), None, Z.max 0 (off - p_Length p)).
Proof.
  intros (Hl&Ho&He&_) Hs Hoff Hroom. apply Forall_singleton in Hs as ((_&_&Hr)&r&Hget&Hok).
  unfold readPiece. assert (zlen (piece_bytes D p) = p_Length p) as Hz by (apply zlen_slice; lia).
  destruct (Z.ltb_spec off (p_Length p)).
  - unwrap64_goal. rewrite Hget. unwrap64_goal.
    set (want := if p_Length p - off <? room then p_Length p - off else room).
    assert (want = Z.min room (p_Length p - off)) as Hw by (unfold want; case_match; lia).
    clearbody want.
    destruct (reader_full (p_Offset p + off) want) as [Hd Herr]; [lia..|].
    destruct (r (p_Offset p + off) want) as [data err]. cbn [fst snd] in *.
    assert (data = slice off room (piece_bytes D p)) as ->.
    { rewrite Hd. unfold piece_bytes, slice. rewrite zdrop_ztake, ztake_ztake, zdrop_zdrop by lia.
      by rewrite Hw. }
    replace (Z.max 0 (off - p_Length p)) with 0 by lia.
    destruct Herr as [->|[-> _]]; [done|]. rewrite Hd, zlen_slice, Z.eqb_refl by lia. done.
  - rewrite i64_id by go_lia. unfold slice. rewrite zdrop_all by lia.
    unfold ztake. rewrite take_nil. by replace (Z.max 0 (off - p_Length p)) with (off - p_Length p) by lia.
Qed.

Lemma readNode_ok D sources n off want :
  node_wf n -> sources_serve sources D (pieces n) -> 0 <= off <= maxInt64 -> 0 <= want ->
  readNode n sources off want = (slice off want (content D (pieces n)), None).
Proof.
  revert off want. induction n as [|p pr lt IHl rt IHr b nl k c]; intros off want Hwf Hs Hoff Hwant.
  { cbn [pieces]. change (content D []) with (@nil byte). by rewrite slice_nil. }
  destruct (node_wf_node _ _ _ _ _ _ _ _ Hwf) as (Hl&Hr&Hp&Hlb&_).
  cbn [readNode pieces] in *.
  apply Forall_app in Hs as [Hsl [Hsp Hsr]%Forall_cons].
  destruct (Z.eqb_spec want 0) as [->|Hw0]; [by rewrite slice_nil_len by lia|].
  rewrite Hlb, content_app, content_cons. set (L := content D (pieces lt)).
  set (P := piece_bytes D p). set (R := content D (pieces rt)).
  assert (zlen L = sum_len (pieces lt)) as HL by (apply zlen_content; by eapply sources_serve_range).
  assert (zlen P = p_Length p) as HP by (apply zlen_piece_bytes; apply Hsp).
  rewrite slice_app by lia. set (w := slice off want L).
  pose proof (zlen_nonneg w) as Hw. pose proof (zlen_nonneg L).
  assert (zlen w <= want) as Hww by (unfold w, slice; rewrite zlen_ztake; lia).
  match goal with |- context [let '(_, _) := ?c in _] => assert (c = (w, None, Z.max 0 (off - zlen L))) as -> end.
  { destruct (Z.ltb_spec off (sum_len (pieces lt))).
    - rewrite IHl by done. by replace (Z.max 0 (off - zlen L)) with 0 by lia.
    - rewrite i64_id by go_lia. rewrite <-HL. replace (Z.max 0 (off - zlen L)) with (off - zlen L) by lia.
      unfold w, slice. rewrite zdrop_all by lia. unfold ztake. by rewrite take_nil. }
  destruct (Z.eqb_spec (zlen w) want) as [Hf|Hf].
  { rewrite (slice_nil_len _ (want - zlen w)) by lia. by rewrite app_nil_r. }
  rewrite (readPiece_ok D) by first [done | by apply Forall_singleton | lia].
  fold P. set (off2 := Z.max 0 (off - zlen L)).
  assert (0 <= off2 <= maxInt64) by (unfold off2; lia). destruct Hp as (Hpl&_).
  set (w2 := slice off2 (want - zlen w) P).
  rewrite slice_app by lia. fold w2. rewrite zlen_app.
  assert (zlen w2 <= want - zlen w) by (unfold w2, slice; rewrite zlen_ztake; lia).
  destruct (Z.eqb_spec (zlen w + zlen w2) want) as [Hf2|Hf2].
  { rewrite (slice_nil_len _ (want - zlen w - zlen w2)) by lia. by rewrite app_nil_r. }
  rewrite HP, IHr by first [done | lia]. fold R. rewrite <-app_assoc.
  by replace (want - (zlen w + zlen w2)) with (want - zlen w - zlen w2) by lia.
Qed.

Lemma Snapshot_Len_ok s : node_wf (s_root s) -> Snapshot_Len s = sum_len (pieces (s_root s)).
Proof. intros [H _]. by apply nodeBytes_ok. Qed.

Definition snapshot_content (D : Z -> list byte) (s : Snapshot) : list byte := content D (pieces (s_root s)).

(** ** Line metadata *)

(** The piece's recorded newline count is the real one, where it is recorded. *)
Definition newlines_true (D : Z -> list byte) (p : Piece) : Prop :=
  p_NewlinesKnown p = true -> p_Newlines p = count_newlines (piece_bytes D p).

Lemma known_newlines_true D ps :
  Forall (newlines_true D) ps -> all_known ps = true -> sum_nl ps = count_newlines (content D ps).
Proof.
  induction 1 as [|p ps Hp _ IH]; [done|]. intros [Hk Hks]%andb_prop.
  rewrite content_cons, count_newlines_app. simpl. rewrite IH by done. by rewrite Hp.
Qed.

Lemma cut_newlines D ps pos :
  Forall (newlines_true D) ps ->
  Forall (newlines_true D) (cut ps pos).1 /\ Forall (newlines_true D) (cut ps pos).2.
Proof.
  intros H. revert pos. induction H as [|p ps Hp Hps IH]; intros pos; simpl; [by split|].
  destruct (pos <=? 0); [simpl; auto|]. destruct (p_Length p <=? pos).
  - destruct (IH (pos - p_Length p)). destruct (cut ps (pos - p_Length p)). simpl in *. auto.
  - simpl. split; repeat constructor; auto; done.
Qed.

Lemma compact_step_newlines D acc p :
  Forall piece_wf acc -> piece_wf p -> sum_len acc + p_Length p <= maxInt64 ->
  Forall (newlines_true D) acc -> newlines_true D p -> Forall (newlines_true D) (compact_step acc p).
Proof.
  intros Hacc Hp Hs Hn Hnp. destruct acc as [|a acc]; [by apply Forall_singleton|].
  apply Forall_cons in Hacc as [Ha Hacc]. apply Forall_cons in Hn as [Hna Hn]. cbn [sum_len] in Hs.
  pose proof (sum_len_nonneg acc Hacc). rewrite compact_step_cons by (auto; lia).
  destruct (mergeable a p) eqn:Hm; constructor; auto.
  intros Hk. rewrite merged_bytes, count_newlines_app by done.
  unfold merged in *. simpl in *. apply andb_prop in Hk as [Hk1 Hk2].
  rewrite Hk1, Hk2. simpl. by rewrite Hna, Hnp.
Qed.

Lemma compact_fold_newlines D ps acc :
  Forall piece_wf acc -> Forall piece_wf ps -> sum_len acc + sum_len ps <= maxInt64 ->
  Forall (newlines_true D) acc -> Forall (newlines_true D) ps ->
  Forall (newlines_true D) (fold_left compact_step ps acc).
Proof.
  revert acc. induction ps as [|p ps IH]; intros acc Hacc Hps Hs Hna Hnps; [done|].
  apply Forall_cons in Hps as [Hp Hps]. apply Forall_cons in Hnps as [Hnp Hnps].
  cbn [sum_len fold_left] in *. pose proof (sum_len_nonneg ps Hps).
  destruct (compact_step_ok acc p) as (H1&H2&_); [auto; lia..|].
  apply IH; auto; [lia|]. apply compact_step_newlines; auto; lia.
Qed.

Lemma coalesce_newlines D ps :
  pieces_wf ps -> Forall (newlines_true D) ps -> Forall (newlines_true D) (coalesce ps).
Proof.
  intros [Hf Hs] Hn. apply Forall_rev, compact_fold_newlines; auto.
Qed.

(** ** Construction establishes the invariant *)

Lemma resolveOptions_ok o a :
  in_i64 (o_AutoCompactPieces o) -> resolveOptions o = Ok a -> a = 0 \/ 2 <= a <= maxInt64.
Proof.
  unfold resolveOptions, DefaultAutoCompactPieces. intros Hi. repeat case_match; intros [= <-]; go_lia.
Qed.

Lemma NewWithBasePieceOptions_wf base p o t :
  piece_typed p -> in_i64 (o_AutoCompactPieces o) ->
  NewWithBasePieceOptions base p o = Ok t ->
  tree_wf t /\
  t_sources t = match base with Some r => {[SourceBase := r]} | None => ∅ end /\
  forall D, content D (pieces (t_root t)) = slice (p_Offset p) (p_Length p) (D SourceBase).
Proof.
  intros (Ho&Hl&Hn) Hopt. unfold NewWithBasePieceOptions. rewrite res_bind_Ok.
  intros (a&Ha&H). apply resolveOptions_ok in Ha; [|done].
  rewrite validatePiece_spec in H by (rewrite normalize_length; done).
  rewrite normalize_length in H. cbn [p_Length] in H.
  set (q := mkPiece SourceBase (p_Offset p) (p_Length p) (p_Newlines p) (p_NewlinesKnown p)) in *.
  destruct (piece_valid (normalizePiece q)) eqn:Hv; [|done].
  destruct ((0 <? p_Length p) && negb (isSome base)) eqn:Hb; [done|].
  assert (forall t, t_autoCompactPieces t = a -> t_nextAutoCompactPieces t = a -> schedule_ok t) as Hsch.
  { intros t' E1 E2. unfold schedule_ok. rewrite E1, E2. destruct Ha as [->|?]; [by left|right; lia]. }
  destruct (Z.ltb_spec 0 (p_Length p)).
  - pose proof (makeNode_leaf (mkTree nilNode (match base with Some r => {[SourceBase := r]} | None => ∅ end)
                 11400714819323198485 a a 0) (normalizePiece q)) as Hk.
    destruct (makeNode _ (normalizePiece q) nilNode nilNode) as [t1 n].
    destruct Hk as (->&Hwn&Hhn&En); [apply normalize_valid_wf; [done|simpl; lia]|].
    injection H as <-. split_and!; [split; [done|done|apply rng_next_ok; simpl; go_lia|by apply Hsch]|done|].
    + intros D. cbn [t_root with_root]. rewrite En.
      change (content D [normalizePiece q]) with (content D ([] ++ [normalizePiece q])).
      by rewrite content_snoc, normalize_bytes.
  - injection H as <-. split_and!; [split; [by split|done|simpl; go_lia|by apply Hsch]|done|].
    intros D. by rewrite slice_nil_len by lia.
Qed.

Lemma ReplacePiece_wf t start del p :
  tree_wf t -> piece_typed p -> tree_wf (ReplacePiece t start del p).1.
Proof.
  intros Ht Hp. rewrite ReplacePiece_unfold by (apply Ht || done).
  destruct (replace_guard t start del p) eqn:Hg; [done|]. destruct (_ && _); [done|].
  by apply maybeAutoCompact_ok, replaced_ok.
Qed.

(** A concrete tree used by the witnesses: the document "hello world". *)
Definition ex_bytes : list byte :=
  map z2b [104; 101; 108; 108; 111; 10; 119; 111; 114; 108; 100].
Definition ex_D (id : Z) : list byte :=
  if id =? SourceBase then ex_bytes else if id =? SourceJournal then map z2b [65; 10; 66] else [].
Definition ex_tree : Tree :=
  match NewWithBasePiece (Some (bytes_NewReader ex_bytes)) (mkPiece SourceBase 0 11 1 true) with
  | Ok t => SetSource t SourceJournal (Some (bytes_NewReader (map z2b [65; 10; 66])))
  | Err _ => mkTree nilNode ∅ 1 0 0 0
  end.
Definition ex_piece : Piece := mkPiece SourceJournal 0 3 1 true.

Lemma SetSource_wf t id r : tree_wf t -> tree_wf (SetSource t id r).
Proof. intros [? ? ? ?]. by split. Qed.

Lemma ex_tree_wf : tree_wf ex_tree.
Proof.
  unfold ex_tree. destruct (NewWithBasePiece _ _) as [t|e] eqn:E; [|discriminate E].
  unfold NewWithBasePiece in E.
  apply SetSource_wf. refine (proj1 (NewWithBasePieceOptions_wf _ _ _ _ _ _ E)); repeat split; done.
Defined.

Lemma ex_tree_range : Forall (in_range ex_D) (pieces (t_root ex_tree)).
Proof. vm_compute. repeat constructor; done. Defined.

Lemma ex_tree_serves : sources_serve (t_sources ex_tree) ex_D (pieces (t_root ex_tree)).
Proof.
  apply Forall_singleton. split; [split_and!; done|].
  exists (bytes_NewReader ex_bytes). split; [reflexivity|]. apply bytes_NewReader_ok.
Defined.

(** ** Properties *)

(** C10. [ReplacePiece] refines the splice of byte strings: a refused call leaves
    the tree unchanged; an accepted one keeps the treap invariant, returns the
    tree's snapshots before and after, and the content after is the content
    before with [start, start+deleteLength) replaced by the piece's bytes,
    whatever the contents of the sources and whether or not the automatic
    compaction ran. *)
Theorem ReplacePiece_correct D t start del p :
  tree_wf t -> piece_typed p -> Forall (in_range D) (pieces (t_root t)) ->
  match ReplacePiece t start del p with
  | (t', Err _) => t' = t
  | (t', Ok (before, after)) =>
    tree_wf t' /\ same_frame t t' /\ before = Tree_Snapshot t /\ after = Tree_Snapshot t' /\
    snapshot_content D after = splice start del (piece_bytes D p) (snapshot_content D before)
  end.
Proof.
  intros Ht Hp HD. rewrite ReplacePiece_unfold by (apply Ht || done).
  destruct (replace_guard t start del p) eqn:Hg; [done|].
  assert (0 <= start /\ 0 <= p_Length p) as [Hs Hl].
  { unfold replace_guard in Hg. destruct (negb _) eqn:Hb in Hg; [done|].
    destruct (piece_valid (normalizePiece p)) eqn:Hv; [|done].
    unfold piece_valid in Hv. rewrite normalize_length in Hv. lia. }
  destruct ((del =? 0) && (p_Length p =? 0)) eqn:Hz.
  - split_and!; auto; [by split|]. apply andb_prop in Hz as [->%Z.eqb_eq Hz%Z.eqb_eq].
    unfold splice, piece_bytes. rewrite Hz, slice_nil_len, Z.add_0_r by lia. by rewrite app_nil_l, ztake_zdrop.
  - destruct (replaced_ok t start del p Ht Hg) as (Hwf&[Hs1 Hs2]&_).
    destruct (maybeAutoCompact_ok _ Hwf) as (Hwf'&[Hs3 Hs4]&_&Hc&_). cbn zeta.
    split_and!; auto; [split; congruence|].
    unfold snapshot_content. cbn [s_root Tree_Snapshot]. rewrite Hc. by apply replaced_content.
Qed.

Lemma ReplacePiece_correct_witness :
  match ReplacePiece ex_tree 2 5 ex_piece with
  | (t', Err _) => t' = ex_tree
  | (t', Ok (before, after)) =>
    tree_wf t' /\ same_frame ex_tree t' /\ before = Tree_Snapshot ex_tree /\ after = Tree_Snapshot t' /\
    snapshot_content ex_D after = splice 2 5 (piece_bytes ex_D ex_piece) (snapshot_content ex_D before)
  end.
Proof.
  apply (ReplacePiece_correct ex_D); [apply ex_tree_wf | repeat split; done | apply ex_tree_range].
Defined.

(** The error [ReplacePiece] returns is decided, in this order and in
    unbounded arithmetic, by: the range lies in the document; the piece is a
    valid byte range; its source is registered; the new length fits [int64].
    The int64 computations of the guards never overflow. *)
Theorem ReplacePiece_error t start del p :
  tree_wf t -> piece_typed p ->
  forall e, (ReplacePiece t start del p).2 = Err e <-> replace_guard t start del p = Some e.
Proof.
  intros Ht Hp e. rewrite ReplacePiece_unfold by (apply Ht || done).
  destruct (replace_guard t start del p); [simpl; naive_solver|].
  by destruct ((del =? 0) && (p_Length p =? 0)).
Qed.

Lemma ReplacePiece_error_witness :
  (ReplacePiece ex_tree 8 9 ex_piece).2 = Err store_ErrInvalidRange <->
  replace_guard ex_tree 8 9 ex_piece = Some store_ErrInvalidRange.
Proof. apply (ReplacePiece_error ex_tree 8 9 ex_piece); [apply ex_tree_wf|repeat split; done]. Defined.

Lemma zlen_cut ps pos : zlen (cut ps pos).1 + zlen (cut ps pos).2 <= zlen ps + 1.
Proof.
  revert pos. induction ps as [|p ps IH]; intros pos; simpl; [done|].
  destruct (pos <=? 0); [simpl; zlen_lia|]. destruct (p_Length p <=? pos).
  - specialize (IH (pos - p_Length p)). destruct (cut ps (pos - p_Length p)). simpl in *. zlen_lia.
  - simpl. zlen_lia.
Qed.

(** One replacement adds at most two pieces, and after it the piece count is
    below the next automatic-compaction trigger (or the trigger is saturated at
    the largest int64, or automatic compaction is off): fragmentation between
    compactions is bounded. *)
Theorem ReplacePiece_fragmentation t start del p :
  tree_wf t -> piece_typed p -> (del <> 0 \/ p_Length p <> 0) ->
  replace_guard t start del p = None ->
  let t' := (ReplacePiece t start del p).1 in
  zlen (pieces (t_root t')) <= zlen (pieces (t_root t)) + 2 /\ bounded_growth t' /\
  PieceCount t' = zlen (pieces (t_root t')).
Proof.
  intros Ht Hp Hne Hg. rewrite ReplacePiece_unfold by (apply Ht || done). rewrite Hg.
  replace ((del =? 0) && (p_Length p =? 0)) with false by lia. cbn [fst].
  destruct (replaced_ok t start del p Ht Hg) as (Hwf&_&E).
  destruct (maybeAutoCompact_ok _ Hwf) as (Hwf'&_&Hb&_&Hle).
  split_and!; [|done|by apply nodePieceCount_ok, Hwf'].
  pose proof (zlen_cut (pieces (t_root t)) start).
  pose proof (zlen_cut (cut (pieces (t_root t)) start).2 del).
  pose proof (zlen_nonneg (cut (cut (pieces (t_root t)) start).2 del).1).
  assert (zlen (inserted_pieces p) <= 1) by (unfold inserted_pieces; case_match; done).
  assert (0 <= start /\ 0 <= del /\ start + del <= sum_len (pieces (t_root t))) as (Hb1&Hb2&Hb3).
  { unfold replace_guard in Hg. destruct (negb _) eqn:Hbb in Hg; [done|]. lia. }
  enough (zlen (cut (cut (pieces (t_root t)) start).2 del).2 <= zlen (cut (pieces (t_root t)) start).2)
    by (rewrite E in Hle; rewrite !zlen_app in Hle; lia).
  clear -Hb2. generalize dependent del. induction (cut (pieces (t_root t)) start).2 as [|q qs IH]; [done|].
  intros del Hd. simpl. destruct (Z.leb_spec del 0); [done|]. destruct (p_Length q <=? del) eqn:Hq.
  - specialize (IH (Z.max 0 (del - p_Length q))). replace (Z.max 0 (del - p_Length q)) with (del - p_Length q) in IH by lia.
    destruct (cut qs (del - p_Length q)); simpl in *; rewrite zlen_cons. lia.
  - simpl. by rewrite !zlen_cons.
Qed.

Lemma ReplacePiece_fragmentation_witness :
  let t' := (ReplacePiece ex_tree 2 5 ex_piece).1 in
  zlen (pieces (t_root t')) <= zlen (pieces (t_root ex_tree)) + 2 /\ bounded_growth t' /\
  PieceCount t' = zlen (pieces (t_root t')).
Proof.
  apply (ReplacePiece_fragmentation ex_tree 2 5 ex_piece);
    [apply ex_tree_wf | repeat split; done | left; done | reflexivity].
Defined.

Lemma coalesce_id ps : pieces_wf ps -> no_mergeable ps -> coalesce ps = ps.
Proof.
  intros [Hf Hs] Hn. unfold coalesce.
  enough (forall acc, Forall piece_wf acc -> sum_len acc + sum_len ps <= maxInt64 ->
            no_mergeable (rev acc ++ ps) -> fold_left compact_step ps acc = rev ps ++ acc) as E.
  { by rewrite (E []), app_nil_r, rev_involutive. }
  clear Hs Hn. induction Hf as [|p ps Hp Hf IH]; intros acc Hacc Hs Hn; [done|]. cbn [sum_len fold_left rev] in *.
  pose proof (sum_len_nonneg ps Hf).
  assert (compact_step acc p = p :: acc) as ->.
  { destruct acc as [|a acc]; [done|]. apply Forall_cons in Hacc as [Ha Hacc]. cbn [sum_len] in Hs.
    pose proof (sum_len_nonneg acc Hacc). rewrite compact_step_cons by (auto; lia).
    assert (mergeable a p = false) as ->; [|done].
    revert Hn. simpl. rewrite <-app_assoc. generalize (rev acc) as l. clear.
    induction l as [|x l IH]; [intros Hn; simpl in Hn; by destruct Hn|]. intros Hn. apply IH.
    simpl in Hn |- *. destruct (l ++ a :: p :: ps) eqn:E; [by destruct l|]. by destruct Hn. }
  rewrite IH; simpl; [|by constructor|lia|by rewrite <-app_assoc]. by rewrite <-app_assoc.
Qed.

Lemma Compact_unfold t :
  tree_wf t ->
  let '(t', r) := Compact t in
  tree_wf t' /\ t_sources t' = t_sources t /\ bounded_growth t' /\
  BeforePieces r = zlen (pieces (t_root t)) /\ AfterPieces r = zlen (pieces (t_root t')) /\
  pieces (t_root t') =
    (if zlen (pieces (t_root t)) <? 2 then pieces (t_root t) else coalesce (pieces (t_root t))).
Proof.
  intros [Hn Hh Hr Hs]. unfold Compact.
  pose proof (compactLocked_ok t Hn Hh Hr) as Hk. destruct (compactLocked t) as [t1 r].
  destruct Hk as (Hn1&Hh1&Hr1&[Hsrc Hauto]&Hnext&_&Hp1&Hb&Ha).
  pose proof (node_wf_count _ Hn1) as Hc1.
  destruct (schedule_spec t1 (AfterPieces r)) as (Er&Eg&[Es Ea]&Hsch&_&Hg).
  { rewrite Ha. lia. }
  { rewrite Hauto. destruct Hs as [[? _]|?]; [by left|right; lia]. }
  rewrite Er. split_and!; auto; [|congruence|].
  - by split; rewrite ?Er, ?Eg.
  - unfold bounded_growth. rewrite Er, Ea. by rewrite Ha in Hg at 1.
Qed.

(** C12. [Compact] keeps the document and the invariant, merges every pair of
    neighbouring pieces that reference contiguous bytes of one source, never
    increases the piece count, reports both counts, and a second [Compact]
    finds nothing to merge. *)
Theorem Compact_correct t :
  tree_wf t ->
  let '(t', r) := Compact t in
  tree_wf t' /\ t_sources t' = t_sources t /\
  (forall D, content D (pieces (t_root t')) = content D (pieces (t_root t))) /\
  no_mergeable (pieces (t_root t')) /\
  r = mkCompactResult (PieceCount t) (PieceCount t') /\ PieceCount t' <= PieceCount t /\
  pieces (t_root (Compact t').1) = pieces (t_root t').
Proof.
  intros Ht. pose proof (Compact_unfold t Ht) as H. destruct (Compact t) as [t' [before after]].
  destruct H as (Hwf&Hs&_&Hb&Ha&E). cbn [BeforePieces AfterPieces] in *.
  assert (pieces_wf (pieces (t_root t))) as Hpw by apply Ht.
  pose proof (compacted_content (fun _ => []) t t' Hpw E) as (_&Hle&Hnm).
  unfold PieceCount. rewrite !nodePieceCount_ok by (apply Hwf || apply Ht).
  split_and!; [done|done| |done|by rewrite Hb, Ha|done|].
  - intros D. by apply (compacted_content D t t').
  - pose proof (Compact_unfold t' Hwf) as H. destruct (Compact t') as [t2 r2].
    destruct H as (_&_&_&_&_&E2). cbn [fst]. rewrite E2.
    destruct (zlen (pieces (t_root t')) <? 2); [done|]. apply coalesce_id; [apply Hwf|done].
Qed.

Lemma Compact_correct_witness :
  let t := (ReplacePiece ex_tree 2 0 ex_piece).1 in
  let '(t', r) := Compact t in
  tree_wf t' /\ t_sources t' = t_sources t /\
  (forall D, content D (pieces (t_root t')) = content D (pieces (t_root t))) /\
  no_mergeable (pieces (t_root t')) /\
  r = mkCompactResult (PieceCount t) (PieceCount t') /\ PieceCount t' <= PieceCount t /\
  pieces (t_root (Compact t').1) = pieces (t_root t').
Proof.
  apply (Compact_correct (ReplacePiece ex_tree 2 0 ex_piece).1).
  apply ReplacePiece_wf; [apply ex_tree_wf | repeat split; done].
Defined.

(** C11. A read of a snapshot returns exactly the bytes of the document at the
    requested range: a negative offset is refused, an empty request reads
    nothing, a request at or past the end reports [io.EOF], and any other
    returns the slice of the content, with [io.EOF] exactly when it is cut short
    by the end of the document. *)
Theorem Snapshot_ReadAt_correct D s plen off :
  node_wf (s_root s) -> sources_serve (s_sources s) D (pieces (s_root s)) ->
  0 <= plen -> in_i64 off ->
  Snapshot_ReadAt s plen off =
  let doc := snapshot_content D s in
  if off <? 0 then ([], Some store_ErrInvalidRange)
  else if plen =? 0 then ([], None)
  else if zlen doc <=? off then ([], Some io_EOF)
  else (slice off plen doc, if off + plen <=? zlen doc then None else Some io_EOF).
Proof.
  intros Hwf Hs Hp Hoff. unfold Snapshot_ReadAt, snapshot_content. rewrite Snapshot_Len_ok by done.
  pose proof (zlen_content D (pieces (s_root s))) as HL. rewrite HL by (by eapply sources_serve_range).
  assert (sum_len (pieces (s_root s)) <= maxInt64) as Hmax by apply Hwf.
  cbn zeta. destruct (Z.ltb_spec off 0); [done|]. destruct (Z.eqb_spec plen 0); [done|].
  destruct (Z.leb_spec (sum_len (pieces (s_root s))) off) as [|Hlt]; [done|].
  unwrap64_goal. set (rem := sum_len (pieces (s_root s)) - off).
  rewrite (readNode_ok D); [|done|done|go_lia|destruct (rem <? plen) eqn:E; subst rem; lia].
  specialize (HL ltac:(by eapply sources_serve_range)). subst rem.
  destruct (Z.ltb_spec (sum_len (pieces (s_root s)) - off) plen).
  - rewrite zlen_slice by lia.
    rewrite (proj2 (Z.ltb_lt _ plen)), (proj2 (Z.leb_gt _ (sum_len _))) by lia. f_equal.
    unfold slice. rewrite !ztake_all by (rewrite zlen_zdrop; lia). done.
  - rewrite zlen_slice by lia.
    by rewrite Z.ltb_irrefl, (proj2 (Z.leb_le _ (sum_len _))) by lia.
Qed.

Lemma Snapshot_ReadAt_correct_witness :
  Snapshot_ReadAt (Tree_Snapshot ex_tree) 20 3 =
  let doc := snapshot_content ex_D (Tree_Snapshot ex_tree) in
  if 3 <? 0 then ([], Some store_ErrInvalidRange)
  else if 20 =? 0 then ([], None)
  else if zlen doc <=? 3 then ([], Some io_EOF)
  else (slice 3 20 doc, if 3 + 20 <=? zlen doc then None else Some io_EOF).
Proof.
  apply (Snapshot_ReadAt_correct ex_D (Tree_Snapshot ex_tree) 20 3);
    [apply ex_tree_wf | apply ex_tree_serves | done | done].
Defined.

(** A snapshot is itself an [io.ReaderAt] over its content: what the coordinate
    and virtual packages rely on. *)
#[export] Instance Snapshot_ReaderOk D s
  (Hwf : node_wf (s_root s)) (Hs : sources_serve (s_sources s) D (pieces (s_root s))) :
  ReaderOk (fun off n => Snapshot_ReadAt s n off) (snapshot_content D s).
Proof.
  intros off n Hoff Hn Hle.
  assert (zlen (snapshot_content D s) <= maxInt64).
  { unfold snapshot_content. rewrite zlen_content by (by eapply sources_serve_range). apply Hwf. }
  unfold Snapshot_ReadAt. rewrite Snapshot_Len_ok by done.
  pose proof (zlen_content D (pieces (s_root s)) ltac:(by eapply sources_serve_range)) as HL.
  unfold snapshot_content in *.
  rewrite (proj2 (Z.ltb_ge off 0)), (proj2 (Z.eqb_neq n 0)), (proj2 (Z.leb_gt _ off)) by lia.
  unwrap64_goal. rewrite (proj2 (Z.ltb_ge _ n)) by lia.
  rewrite (readNode_ok D) by (done || go_lia). cbn [fst snd].
  rewrite zlen_slice, Z.ltb_irrefl by lia. auto.
Qed.

Lemma write_walk_ok D sources n out total :
  node_wf n -> sources_serve sources D (pieces n) -> 0 <= total ->
  total + sum_len (pieces n) <= maxInt64 ->
  walk n (write_visit bytes_Buffer sources) (out, total) =
    ((out ++ content D (pieces n), total + sum_len (pieces n)), None).
Proof.
  revert out total. induction n as [|p pr lt IHl rt IHr b nl k c]; intros out total Hwf Hs Ht Hm.
  { simpl. rewrite Z.add_0_r. change (content D []) with (@nil byte). by rewrite app_nil_r. }
  destruct (node_wf_node _ _ _ _ _ _ _ _ Hwf) as (Hl&Hr&Hp&_&_).
  cbn [walk pieces] in *. apply Forall_app in Hs as [Hsl [(Hrange&r&Hget&Hok) Hsr]%Forall_cons].
  rewrite sum_len_app in Hm |- *. cbn [sum_len] in *.
  pose proof (sum_len_nonneg (pieces rt) ltac:(apply Hr)). destruct Hp as (Hpl&Hpo&_).
  pose proof (sum_len_nonneg (pieces lt) ltac:(apply Hl)).
  rewrite IHl by first [done | lia]. cbn [write_visit]. rewrite Hget.
  rewrite (io_CopyN_ok r (D (p_Source p))) by (destruct Hrange as (?&?&?); lia).
  unwrap64_goal. rewrite IHr by first [done | lia].
  rewrite content_app, content_cons, <-!app_assoc. by rewrite !Z.add_assoc.
Qed.

(** [WriteTo] streams the whole document, once and in order, to a writer
    that accepts every write, and reports its length. *)
Theorem WriteTo_correct D s :
  node_wf (s_root s) -> sources_serve (s_sources s) D (pieces (s_root s)) ->
  WriteTo bytes_Buffer s [] = ((snapshot_content D s, Snapshot_Len s), None).
Proof.
  intros Hwf Hs. unfold WriteTo. rewrite Snapshot_Len_ok by done.
  pose proof (proj2 (proj2 Hwf)). by rewrite (write_walk_ok D) by first [done | lia].
Qed.

Lemma WriteTo_correct_witness :
  WriteTo bytes_Buffer (Tree_Snapshot ex_tree) [] =
    ((snapshot_content ex_D (Tree_Snapshot ex_tree), Snapshot_Len (Tree_Snapshot ex_tree)), None).
Proof. apply (WriteTo_correct ex_D); [apply ex_tree_wf | apply ex_tree_serves]. Defined.

Lemma replaced_newlines D t start del p :
  tree_wf t -> replace_guard t start del p = None ->
  Forall (newlines_true D) (pieces (t_root t)) -> newlines_true D p ->
  Forall (newlines_true D) (pieces (t_root (replaced t start del p))).
Proof.
  intros Ht Hg Hn Hp. destruct (replaced_ok t start del p Ht Hg) as (_&_&->).
  destruct (cut_newlines D _ start Hn) as [H1 H2].
  destruct (cut_newlines D _ del H2) as [_ H3].
  apply Forall_app_2; [done|]. apply Forall_app_2; [|done].
  unfold inserted_pieces. case_match; [|done]. apply Forall_singleton.
  unfold newlines_true. rewrite normalize_bytes. unfold normalizePiece. by case_match.
Qed.

(** Line metadata is exact: after any accepted replacement by a piece whose
    recorded newline count is true, whenever [LineBreaks] reports a known count
    it is the number of newlines of the document, however the tree was split,
    merged or compacted. *)
Theorem LineBreaks_correct D t start del p :
  tree_wf t -> piece_typed p -> Forall (newlines_true D) (pieces (t_root t)) -> newlines_true D p ->
  let t' := (ReplacePiece t start del p).1 in
  Forall (newlines_true D) (pieces (t_root t')) /\
  forall n, LineBreaks t' = (n, true) -> n = count_newlines (content D (pieces (t_root t'))).
Proof.
  intros Ht Hp Hn Hnp t'.
  assert (tree_wf t' /\ Forall (newlines_true D) (pieces (t_root t'))) as [Hwf Hall].
  { subst t'. rewrite ReplacePiece_unfold by (apply Ht || done).
    destruct (replace_guard t start del p) eqn:Hg; [done|].
    destruct (_ && _); [done|]. cbn [fst].
    destruct (replaced_ok t start del p Ht Hg) as (Hwf&_&_).
    pose proof (replaced_newlines D t start del p Ht Hg Hn Hnp) as Hrn.
    set (r := replaced t start del p) in *. clearbody r. clear -Hwf Hrn.
    split; [by apply maybeAutoCompact_ok|]. unfold maybeAutoCompactLocked.
    destruct (_ =? 0); [done|]. destruct (_ <? _); [done|]. destruct (_ <? _); [done|].
    pose proof (compactLocked_ok r ltac:(apply Hwf) ltac:(apply Hwf) ltac:(apply Hwf)) as Hk.
    destruct (compactLocked r) as [r1 res]. destruct Hk as (_&_&_&_&_&_&E&_).
    assert (forall t n, t_root (scheduleNextAutoCompactLocked t n) = t_root t) as ->.
    { intros. unfold scheduleNextAutoCompactLocked. by repeat case_match. }
    cbn [t_root]. rewrite E. destruct (_ <? 2); [done|]. apply coalesce_newlines; [apply Hwf|done]. }
  split; [done|]. intros n. unfold LineBreaks.
  assert (cached_ok (t_root t')) as Hc by apply Hwf.
  destruct (t_root t') as [|q pr lt rt b nl k c] eqn:E; [by intros [= <-]|]. rewrite <-E in *.
  intros [= <- Hk]. rewrite nodeNewlinesKnown_ok in Hk by done. rewrite nodeNewlines_ok by done.
  by apply known_newlines_true.
Qed.

Lemma LineBreaks_correct_witness :
  let t' := (ReplacePiece ex_tree 0 11 ex_piece).1 in
  Forall (newlines_true ex_D) (pieces (t_root t')) /\
  forall n, LineBreaks t' = (n, true) -> n = count_newlines (content ex_D (pieces (t_root t'))).
Proof.
  apply (LineBreaks_correct ex_D ex_tree 0 11 ex_piece);
    [apply ex_tree_wf | repeat split; done | vm_compute; repeat constructor; done | intros _; reflexivity].
Defined.
