(* ===== verification/File.v ===== *)
(** * The files of package os, with faults

    A file is its bytes, the position of [Write], a script that says what happens
    to each coming operation, and the bytes at its last sync; every error path of a
    client is a run under some script. *)

From Stdlib Require Import ZArith Lia List.
From stdpp Require Import base list numbers.
From S2P Require Import Prelude GoLib.
#[local] Open Scope Z_scope.

(** ** Files and their operations *)

(** What happens to one file operation: it succeeds, it fails after [partial]
    bytes, or a write is cut short without an error. *)
Inductive fault :=
| NoFault
| Fault (partial : Z) (e : error)
| ShortWrite (partial : Z).

(** [f_durable]: what the last [Sync] that succeeded made survive a crash, if any did. *)
Record file := mkFile { f_bytes : list byte; f_pos : Z; f_faults : list fault; f_durable : option (list byte) }.

(** A file opened anew, never synced as far as its process knows. *)
Definition newFile (bytes : list byte) : file := mkFile bytes 0 [] None.
Definition durable (f : file) : Prop := f_durable f = Some (f_bytes f).

Definition next_fault (f : file) : fault * file :=
  match f_faults f with
  | [] => (NoFault, f)
  | x :: xs => (x, mkFile (f_bytes f) (f_pos f) xs (f_durable f))
  end.

(** Overwrite from [off], extending the file (with zeros across a gap). *)
Definition pad_to (n : Z) (l : list byte) : list byte :=
  l ++ replicate (Z.to_nat (n - zlen l)) Byte.x00.
Definition write_at (off : Z) (p l : list byte) : list byte :=
  ztake off (pad_to off l) ++ p ++ zdrop (off + zlen p) l.

Definition file_Stat (f : file) : file * result Z :=
  match next_fault f with
  | (Fault _ e, f) => (f, Err e)
  | (_, f) => (f, Ok (zlen (f_bytes f)))
  end.
Definition file_SeekEnd (f : file) : file * result Z :=
  match next_fault f with
  | (Fault _ e, f) => (f, Err e)
  | (_, f) => (mkFile (f_bytes f) (zlen (f_bytes f)) (f_faults f) (f_durable f), Ok (zlen (f_bytes f)))
  end.
Definition file_SeekStart (f : file) : file * option error :=
  match next_fault f with
  | (Fault _ e, f) => (f, Some e)
  | (_, f) => (mkFile (f_bytes f) 0 (f_faults f) (f_durable f), None)
  end.
Definition file_Write (f : file) (p : list byte) : file * (Z * option error) :=
  let '(x, f) := next_fault f in
  let '(p, e) := match x with
                 | NoFault => (p, None)
                 | Fault n e => (ztake n p, Some e)
                 | ShortWrite n => (ztake n p, None)
                 end in
  (mkFile (write_at (f_pos f) p (f_bytes f)) (f_pos f + zlen p) (f_faults f) (f_durable f), (zlen p, e)).
(** [os.File.WriteAt] repeats short writes itself: it stops early only with an error. *)
Definition file_WriteAt (f : file) (p : list byte) (off : Z) : file * (Z * option error) :=
  let '(x, f) := next_fault f in
  let '(p, e) := match x with
                 | Fault n e => (ztake n p, Some e)
                 | _ => (p, None)
                 end in
  (mkFile (write_at off p (f_bytes f)) (f_pos f) (f_faults f) (f_durable f), (zlen p, e)).
Definition file_ReadAt (f : file) (n off : Z) : file * (list byte * option error) :=
  match next_fault f with
  | (Fault k e, f) => (f, (ztake k (slice off n (f_bytes f)), Some e))
  | (_, f) => (f, bytes_NewReader (f_bytes f) off n)
  end.
Definition file_Truncate (f : file) (n : Z) : file * option error :=
  match next_fault f with
  | (Fault _ e, f) => (f, Some e)
  | (_, f) => (mkFile (ztake n (pad_to n (f_bytes f))) (f_pos f) (f_faults f) (f_durable f), None)
  end.
Definition file_Sync (f : file) : file * option error :=
  match next_fault f with
  | (Fault _ e, f) => (f, Some e)
  | (_, f) => (mkFile (f_bytes f) (f_pos f) (f_faults f) (Some (f_bytes f)), None)
  end.
Definition file_Close (f : file) : file * option error :=
  match next_fault f with
  | (Fault _ e, f) => (f, Some e)
  | (_, f) => (f, None)
  end.

(** ** Files *)

Lemma next_fault_bytes f x f' :
  next_fault f = (x, f') -> f_bytes f' = f_bytes f /\ f_pos f' = f_pos f /\
  (f_faults f = [] -> x = NoFault /\ f_faults f' = []).
Proof. destruct f as [d p [|y ys] s]; intros [= <- <-]; simpl; naive_solver. Qed.

Lemma write_at_end p l off : off = zlen l -> write_at off p l = l ++ p.
Proof.
  intros ->. unfold write_at, pad_to. rewrite Z.sub_diag. simpl replicate. rewrite app_nil_r.
  rewrite ztake_all, zdrop_all, app_nil_r by (pose proof (zlen_nonneg p); lia). done.
Qed.

(** What a read returns, whatever the faults: bytes that are in the file, and all
    of them when the error is nil. *)
Lemma file_ReadAt_spec f n off f' data e :
  file_ReadAt f n off = (f', (data, e)) -> 0 <= off -> 0 < n -> off + n <= zlen (f_bytes f) ->
  f_bytes f' = f_bytes f /\ data = ztake (zlen data) (slice off n (f_bytes f)) /\
  (e = None -> data = slice off n (f_bytes f)) /\
  (f_faults f = [] -> e = None /\ f_faults f' = []).
Proof.
  unfold file_ReadAt. intros H Hoff Hn Hle.
  destruct (next_fault f) as [x f1] eqn:Hf. destruct (next_fault_bytes _ _ _ Hf) as (Hb & _ & Hnf).
  assert (bytes_NewReader (f_bytes f1) off n = (slice off n (f_bytes f), None)) as Hr.
  { unfold bytes_NewReader. rewrite Hb, (proj2 (Z.ltb_ge off 0)), (proj2 (Z.leb_gt _ off)) by lia.
    rewrite zlen_slice by lia. by rewrite (proj2 (Z.ltb_ge n n)) by lia. }
  destruct x; cbn in H; rewrite ?Hr in H; injection H as <- <- <-; rewrite ?Hb;
    repeat split; auto; try done; try (symmetry; apply ztake_all; lia); try naive_solver.
  rewrite zlen_ztake. generalize (slice off n (f_bytes f)) as s. intros s.
  destruct (decide (partial <= 0)); [rewrite ztake_0 by lia; symmetry; apply ztake_0;
    pose proof (zlen_nonneg s); lia|].
  destruct (decide (partial <= zlen s)); [f_equal; lia|]. rewrite !ztake_all; [done|..]; lia.
Qed.

Lemma file_ReadAt_noeof f n off f' data e :
  file_ReadAt f n off = (f', (data, e)) -> 0 <= off -> 0 < n -> off + n <= zlen (f_bytes f) ->
  zlen data <= n.
Proof.
  intros H Hoff Hn Hle. destruct (file_ReadAt_spec _ _ _ _ _ _ H Hoff Hn Hle) as (_ & -> & _).
  rewrite zlen_ztake, zlen_slice by lia. pose proof (zlen_nonneg data). lia.
Qed.

Lemma file_Write_spec f p f' n e :
  file_Write f p = (f', (n, e)) -> f_pos f = zlen (f_bytes f) ->
  exists k, f_bytes f' = f_bytes f ++ ztake k p /\ f_pos f' = zlen (f_bytes f') /\ n = zlen (ztake k p) /\
    (f_faults f = [] -> e = None /\ n = zlen p /\ f_faults f' = []).
Proof.
  unfold file_Write. intros H Hpos. destruct (next_fault f) as [x f1] eqn:Hf.
  destruct (next_fault_bytes _ _ _ Hf) as (Hb & Hp & Hnf).
  set (q := match x with NoFault => p | Fault n _ | ShortWrite n => ztake n p end).
  assert (f' = mkFile (write_at (f_pos f1) q (f_bytes f1)) (f_pos f1 + zlen q) (f_faults f1) (f_durable f1) /\ n = zlen q /\
    (x = NoFault -> e = None)) as (-> & -> & He).
  { subst q. destruct x; injection H as <- <- <-; done. }
  assert (exists k, q = ztake k p /\ (x = NoFault -> zlen q = zlen p)) as (k & Hq & Hqx).
  { subst q. destruct x; [exists (zlen p); by rewrite ztake_all|by eexists..]. }
  exists k. cbn [f_bytes f_pos f_faults]. rewrite Hb, Hp, write_at_end, zlen_app, <-Hq by done.
  split_and!; [done|lia|done|]. intros Hfs. destruct (Hnf Hfs). auto.
Qed.

Lemma ztake_app_min {A} j (l k : list A) : ztake j l = ztake (Z.min j (zlen l)) (l ++ k).
Proof.
  rewrite ztake_app_l by lia. rewrite <-(ztake_all (zlen l) l) at 1 by lia. by rewrite ztake_ztake.
Qed.

Lemma file_Write_full f p f' n e :
  file_Write f p = (f', (n, e)) -> f_pos f = zlen (f_bytes f) -> n = zlen p -> f_bytes f' = f_bytes f ++ p.
Proof.
  intros H Hp Hn. destruct (file_Write_spec _ _ _ _ _ H Hp) as (k & -> & _ & -> & _). f_equal.
  rewrite zlen_ztake in Hn. destruct (decide (zlen p = 0)) as [E|]; [|apply ztake_all; pose proof (zlen_nonneg p); lia].
  rewrite (zlen_zero p E). unfold ztake. apply take_nil.
Qed.

Lemma write_at_empty p : write_at 0 p [] = p.
Proof.
  unfold write_at, pad_to. rewrite (zdrop_all (0 + zlen p)) by (pose proof (zlen_nonneg p); rewrite zlen_nil; lia).
  by rewrite ztake_0, !app_nil_r by lia.
Qed.

Lemma file_Stat_spec f f' r :
  file_Stat f = (f', r) -> f_bytes f' = f_bytes f /\ (forall n, r = Ok n -> n = zlen (f_bytes f)) /\
  (f_faults f = [] -> r = Ok (zlen (f_bytes f)) /\ f_faults f' = []).
Proof.
  unfold file_Stat. destruct (next_fault f) as [x f1] eqn:Hf. destruct (next_fault_bytes _ _ _ Hf) as (Hb & _ & Hnf).
  intros H. destruct x; injection H as <- <-; rewrite ?Hb; (split_and!; [done|naive_solver|]);
    intros Hfs; by destruct (Hnf Hfs).
Qed.

Lemma file_Close_spec f f' e : file_Close f = (f', e) -> f_bytes f' = f_bytes f.
Proof.
  unfold file_Close. destruct (next_fault f) as [x f1] eqn:Hf.
  destruct (next_fault_bytes _ _ _ Hf) as (Hb & _). by destruct x; intros [= <- <-].
Qed.

Lemma file_Truncate_ok f n :
  f_faults f = [] -> n <= zlen (f_bytes f) ->
  file_Truncate f n = (mkFile (ztake n (f_bytes f)) (f_pos f) [] (f_durable f), None).
Proof.
  intros Hf Hn. unfold file_Truncate, next_fault. rewrite Hf. unfold pad_to.
  replace (Z.to_nat (n - zlen (f_bytes f))) with 0%nat by lia. cbn [replicate]. by rewrite app_nil_r, Hf.
Qed.
