(* ===== verification/Journal.v ===== *)
(** * recovery/journal.go: the append-only crash recovery journal

    The byte format of the v2 journal, its encoder and decoder, appending with
    rollback, replay, repair, reset and open.  The file is the
    one of File, with its script of faults, so that every error path of the code
    is a run of the model. *)

From Stdlib Require Import ZArith Lia List.
From stdpp Require Import base list numbers.
From S2P Require Import Prelude GoLib File.
#[local] Open Scope Z_scope.

(** ** hash/crc32 with the Castagnoli polynomial *)

Definition crc_shift (c : Z) : Z :=
  if Z.odd c then Z.lxor (Z.shiftr c 1) 0x82f63b78 else Z.shiftr c 1.
Definition crc_table (i : Z) : Z := Nat.iter 8 crc_shift i.
Definition crc_step (crc : Z) (b : byte) : Z :=
  Z.lxor (crc_table (Z.lxor (Z.land crc 255) (b2z b))) (Z.shiftr crc 8).
Definition crc_not (c : Z) : Z := Z.lxor c 0xffffffff.
(** [crc32.Update(crc, castagnoli, p)] *)
Definition crc32_Update (crc : Z) (p : list byte) : Z :=
  crc_not (fold_left crc_step p (crc_not crc)).
Definition crc32_Checksum (p : list byte) : Z := crc32_Update 0 p.

(** ** Constants and data *)

Definition fileHeaderSize : Z := 96.
Definition batchHeaderSize : Z := 64.
Definition batchRecordSize : Z := 24.
Definition maximumBatchSize : Z := 256.
Definition maximumBatchPayload : Z := 1073741824.
Definition journalVersion : Z := 2.
Definition EmptyJournalBytes : Z := fileHeaderSize.

(** "DOCLOG02" and "DOCJNL02" *)
Definition fileMagic : list byte := map z2b [68; 79; 67; 76; 79; 71; 48; 50].
Definition batchMagic : list byte := map z2b [68; 79; 67; 74; 78; 76; 48; 50].

Record ReplaceOperation := mkReplaceOperation {
  ro_Start : Z; ro_DeleteLength : Z; ro_Inserted : list byte }.
Record Operation := mkOperation {
  op_Start : Z; op_DeleteLength : Z; op_InsertLength : Z; op_PayloadOffset : Z }.
Record Batch := mkBatch { b_FirstRevision : Z; b_Group : Z; b_Operations : list Operation }.
Record BatchAppendResult := mkBatchAppendResult {
  BatchOffset : Z; PayloadOffsets : list Z; EndOffset : Z }.
Record Fingerprint := mkFingerprint {
  BaseSize : Z; PathHash : list byte; ContentHash : list byte }.
Record ReplayResult := mkReplayResult {
  rr_Batches : list Batch; rr_ValidBytes : Z; rr_Truncated : bool }.

(** A journal whose [file] is nil is closed. *)
Record Journal := mkJournal { j_file : option file; j_path : list byte }.

#[export] Instance ReplaceOperation_eq_dec : EqDecision ReplaceOperation.
Proof. solve_decision. Defined.
#[export] Instance Operation_eq_dec : EqDecision Operation.
Proof. solve_decision. Defined.
#[export] Instance Batch_eq_dec : EqDecision Batch.
Proof. solve_decision. Defined.
#[export] Instance Fingerprint_eq_dec : EqDecision Fingerprint.
Proof. solve_decision. Defined.

Definition zeroOperation : Operation := mkOperation 0 0 0 0.

(** ** Fingerprints *)

(** [fingerprintFor]; [sha256], the platform's path normalisation and the
    absolute-path resolver are arguments. *)
Definition fingerprintFor (sha256 normalizeFingerprintPath : list byte -> list byte)
  (absolutePath : list byte -> result (list byte)) (path : list byte) (size : Z)
  (contentHash : list byte) : Fingerprint :=
  let absolute := match absolutePath path with Ok a => a | Err _ => path end in
  mkFingerprint size (sha256 (normalizeFingerprintPath absolute)) contentHash.

(** The first 92 bytes of the file header; the last field is their checksum. *)
Definition header_fields (fp : Fingerprint) : list (list byte) :=
  [ fileMagic; PutUint32 journalVersion; PutUint32 fileHeaderSize; PutUint64 (u64 (BaseSize fp));
    PathHash fp; ContentHash fp; PutUint32 0 ].
Definition encodeFileHeader (fp : Fingerprint) : list byte :=
  concat (header_fields fp) ++ PutUint32 (crc32_Checksum (concat (header_fields fp))).

Definition writeFileHeader (f : file) (fp : Fingerprint) : file * option error :=
  let '(f, (_, e)) := file_WriteAt f (encodeFileHeader fp) 0 in
  match e with
  | Some e => (f, Some e)
  | None => file_Sync f
  end.

Definition decodeFileHeader (header : list byte) : result Fingerprint :=
  if negb (bool_decide (slice 0 8 header = fileMagic)) ||
     negb (le_get (slice 8 4 header) =? journalVersion) ||
     negb (le_get (slice 12 4 header) =? fileHeaderSize)
  then Err recovery_ErrUnsupportedJournal
  else if negb (le_get (slice 88 4 header) =? 0) ||
          negb (le_get (slice 92 4 header) =? crc32_Checksum (slice 0 92 header))
  then Err recovery_ErrCorruptJournal
  else
    let fp := mkFingerprint (i64 (le_get (slice 16 8 header))) (slice 24 32 header) (slice 56 32 header) in
    if BaseSize fp <? 0 then Err recovery_ErrCorruptJournal else Ok fp.

Definition readFileHeader (f : file) : file * result Fingerprint :=
  let '(f, (header, e)) := file_ReadAt f fileHeaderSize 0 in
  match e with
  | Some e => (f, Err e)
  | None => (f, decodeFileHeader header)
  end.

(** ** Batches *)

Fixpoint payload_total (operations : list ReplaceOperation) (total : Z) : result Z :=
  match operations with
  | [] => Ok total
  | operation :: operations =>
    if (ro_Start operation <? 0) || (ro_DeleteLength operation <? 0) ||
       (maximumBatchPayload - total <? zlen (ro_Inserted operation))
    then Err recovery_ErrInvalidBatch
    else payload_total operations (total + zlen (ro_Inserted operation))
  end.

Definition batchPayloadSize (firstRevision group : Z) (operations : list ReplaceOperation) : result Z :=
  if (zlen operations =? 0) || (maximumBatchSize <? zlen operations) || (firstRevision =? 0) ||
     (group =? 0) || (maxUint64 - u64 (zlen operations - 1) <? firstRevision)
  then Err recovery_ErrInvalidBatch
  else payload_total operations (zlen operations * batchRecordSize).

Definition BatchEncodedSize (firstRevision group : Z) (operations : list ReplaceOperation) : result Z :=
  let? payloadSize := batchPayloadSize firstRevision group operations in
  Ok (batchHeaderSize + payloadSize).

Definition encodeRecord (o : ReplaceOperation) : list byte :=
  PutUint64 (u64 (ro_Start o)) ++ PutUint64 (u64 (ro_DeleteLength o)) ++
  PutUint64 (u64 (zlen (ro_Inserted o))).

Fixpoint relative_offsets (operations : list ReplaceOperation) (cursor : Z) : list Z :=
  match operations with
  | [] => []
  | o :: operations => cursor :: relative_offsets operations (cursor + zlen (ro_Inserted o))
  end.

(** The operation table, then the inserted bytes of every operation. *)
Definition payload_bytes (operations : list ReplaceOperation) : list byte :=
  concat (map encodeRecord operations) ++ concat (map ro_Inserted operations).

Definition encodeBatchPayload (firstRevision group : Z) (operations : list ReplaceOperation)
  : result (list byte * list Z) :=
  let? _ := batchPayloadSize firstRevision group operations in
  Ok (payload_bytes operations, relative_offsets operations (zlen operations * batchRecordSize)).

Definition batch_fields (batch : Batch) (payloadLength : Z) : list (list byte) :=
  [ batchMagic; PutUint16 journalVersion; PutUint16 0; PutUint32 batchHeaderSize;
    PutUint64 (b_FirstRevision batch); PutUint64 (b_Group batch);
    PutUint32 (zlen (b_Operations batch)); PutUint32 batchRecordSize;
    PutUint64 payloadLength; PutUint64 0 ].

Definition encodeBatchHeader (batch : Batch) (payload : list byte) : list byte :=
  let header56 := concat (batch_fields batch (zlen payload)) in
  let crc := crc32_Update (crc32_Update 0 header56) payload in
  header56 ++ PutUint32 crc ++ PutUint32 0.

(** [decodeBatchHeader]: the batch with its operations still zero, the payload
    length and the stored checksum; [None] is a false [ok]. *)
Definition decodeBatchHeader (header : list byte) : option (Batch * Z * Z) :=
  if negb (zlen header =? batchHeaderSize) || negb (bool_decide (slice 0 8 header = batchMagic)) ||
     negb (le_get (slice 8 2 header) =? journalVersion) || negb (le_get (slice 10 2 header) =? 0) ||
     negb (le_get (slice 12 4 header) =? batchHeaderSize) || negb (le_get (slice 48 8 header) =? 0) ||
     negb (le_get (slice 60 4 header) =? 0)
  then None
  else
    let count := le_get (slice 32 4 header) in
    let payloadRaw := le_get (slice 40 8 header) in
    if (count =? 0) || (maximumBatchSize <? count) ||
       negb (le_get (slice 36 4 header) =? batchRecordSize) || (maxInt64 <? payloadRaw)
    then None
    else
      let batch := mkBatch (le_get (slice 16 8 header)) (le_get (slice 24 8 header))
                           (replicate (Z.to_nat count) zeroOperation) in
      if (b_FirstRevision batch =? 0) || (b_Group batch =? 0) ||
         (maxUint64 - (count - 1) <? b_FirstRevision batch)
      then None
      else Some (batch, payloadRaw, le_get (slice 56 4 header)).

(** The loop of [decodeBatchOperations] over the operation table. *)
Fixpoint decode_records (count : nat) (metadata : list byte) (payloadEnd cursor : Z)
  : option (list Operation * Z) :=
  match count with
  | O => Some ([], cursor)
  | S count =>
    let record := ztake batchRecordSize metadata in
    let start := le_get (slice 0 8 record) in
    let deleteLength := le_get (slice 8 8 record) in
    let insertLength := le_get (slice 16 8 record) in
    if (maxInt64 <? start) || (maxInt64 <? deleteLength) || (maxInt64 <? insertLength) then None
    else if payloadEnd - cursor <? insertLength then None
    else
      match decode_records count (zdrop batchRecordSize metadata) payloadEnd (cursor + insertLength) with
      | None => None
      | Some (ops, cursor') => Some (mkOperation start deleteLength insertLength cursor :: ops, cursor')
      end
  end.

(** [Ok None] is a structurally invalid payload ([valid = false]). *)
Definition decodeBatchOperations (f : file) (batch : Batch) (payloadOffset payloadLength : Z)
  : file * result (option (list Operation)) :=
  let count := zlen (b_Operations batch) in
  let metadataLength := count * batchRecordSize in
  if payloadLength <? metadataLength then (f, Ok None)
  else
    let '(f, (metadata, e)) := file_ReadAt f metadataLength payloadOffset in
    match e with
    | Some e => (f, Err e)
    | None =>
      let payloadEnd := payloadOffset + payloadLength in
      match decode_records (length (b_Operations batch)) metadata payloadEnd (payloadOffset + metadataLength) with
      | None => (f, Ok None)
      | Some (ops, cursor) => (f, Ok (if cursor =? payloadEnd then Some ops else None))
      end
    end.

(** ** The journal's operations

    [j.mu] is held by every method, so each is one atomic step on [Journal]. *)

Definition with_file (j : Journal) (f : file) : Journal := mkJournal (Some f) (j_path j).

Definition ReadAt (j : Journal) (n off : Z) : Journal * (list byte * option error) :=
  match j_file j with
  | None => (j, ([], Some recovery_ErrClosed))
  | Some f => let '(f, r) := file_ReadAt f n off in (with_file j f, r)
  end.

Definition Path (j : Journal) : list byte := j_path j.

Definition Size (j : Journal) : Journal * result Z :=
  match j_file j with
  | None => (j, Err recovery_ErrClosed)
  | Some f => let '(f, r) := file_Stat f in (with_file j f, r)
  end.

(** The [rollback] closure of [appendBatch]. *)
Definition rollback (f : file) (endOffset : Z) (cause : error) : file * result (Z * Z) :=
  let '(f, e) := file_Truncate f endOffset in
  (f, Err (match errors_Join (Some cause) e with Some e => e | None => cause end)).

Definition appendBatch (f : file) (batch : Batch) (payload : list byte) : file * result (Z * Z) :=
  let '(f, seek) := file_SeekEnd f in
  match seek with
  | Err e => (f, Err e)
  | Ok endOffset =>
    let header := encodeBatchHeader batch payload in
    let '(f, (n, writeErr)) := file_Write f header in
    match writeErr with
    | Some e => rollback f endOffset e
    | None =>
      if negb (n =? zlen header) then rollback f endOffset io_ErrShortWrite else
      let payloadOffset := endOffset ⊞ batchHeaderSize in
      if 0 <? zlen payload then
        let '(f, (n, writeErr)) := file_Write f payload in
        match writeErr with
        | Some e => rollback f endOffset e
        | None =>
          if negb (n =? zlen payload) then rollback f endOffset io_ErrShortWrite
          else (f, Ok (endOffset, payloadOffset))
        end
      else (f, Ok (endOffset, payloadOffset))
    end
  end.

Definition AppendBatch (j : Journal) (firstRevision group : Z) (operations : list ReplaceOperation)
  : Journal * result BatchAppendResult :=
  match j_file j with
  | None => (j, Err recovery_ErrClosed)
  | Some f =>
    match encodeBatchPayload firstRevision group operations with
    | Err e => (j, Err e)
    | Ok (payload, relativeOffsets) =>
      let batch := mkBatch firstRevision group (replicate (length operations) zeroOperation) in
      let '(f, r) := appendBatch f batch payload in
      (with_file j f,
       let? (batchOffset, payloadOffset) := r in
       Ok (mkBatchAppendResult batchOffset (map (fun relative => payloadOffset ⊞ relative) relativeOffsets)
             (payloadOffset ⊞ zlen payload)))
    end
  end.

Definition crcBufferBytes : Z := 65536.

(** The checksum loop of [Replay] over the payload, one buffer at a time. *)
Fixpoint crc_loop (fuel : nat) (f : file) (remaining cursor crc : Z) : file * result Z :=
  match fuel with
  | O => (f, Err io_ErrUnexpectedEOF)
  | S fuel =>
    if 0 <? remaining then
      let want := Z.min crcBufferBytes remaining in
      let '(f, (data, readErr)) := file_ReadAt f want cursor in
      let n := zlen data in
      let crc := crc32_Update crc data in
      let cursor := cursor + n in
      let remaining := remaining - n in
      match readErr with
      | Some e =>
        if errors_Is e io_EOF && (remaining =? 0) then crc_loop fuel f remaining cursor crc else (f, Err e)
      | None =>
        if (n =? 0) && (0 <? remaining) then (f, Err io_ErrUnexpectedEOF)
        else crc_loop fuel f remaining cursor crc
      end
    else (f, Ok crc)
  end.

Definition truncated (r : ReplayResult) : ReplayResult :=
  mkReplayResult (rr_Batches r) (rr_ValidBytes r) true.

(** The main loop of [Replay]; a batch takes at least [batchHeaderSize] bytes,
    so one unit of fuel per byte is enough. *)
Fixpoint replay_loop (fuel : nat) (f : file) (size offset : Z) (r : ReplayResult)
  : file * (ReplayResult * option error) :=
  match fuel with
  | O => (f, (r, None))
  | S fuel =>
    if offset <? size then
      if size - offset <? batchHeaderSize then (f, (truncated r, None)) else
      let '(f, (header, e)) := file_ReadAt f batchHeaderSize offset in
      match e with
      | Some e => (f, (r, Some e))
      | None =>
        match decodeBatchHeader header with
        | None => (f, (truncated r, None))
        | Some (batch, payloadLength, storedCRC) =>
          if maximumBatchPayload <? payloadLength then (f, (truncated r, None)) else
          let payloadOffset := offset + batchHeaderSize in
          if size - payloadOffset <? payloadLength then (f, (truncated r, None)) else
          let endOffset := payloadOffset + payloadLength in
          let '(f, crc) := crc_loop (S (Z.to_nat payloadLength)) f payloadLength payloadOffset
                             (crc32_Update 0 (slice 0 56 header)) in
          match crc with
          | Err e => (f, (r, Some e))
          | Ok crc =>
            if negb (crc =? storedCRC) then (f, (truncated r, None)) else
            let '(f, decoded) := decodeBatchOperations f batch payloadOffset payloadLength in
            match decoded with
            | Err e => (f, (r, Some e))
            | Ok None => (f, (truncated r, None))
            | Ok (Some operations) =>
              replay_loop fuel f size endOffset
                (mkReplayResult
                   (rr_Batches r ++ [mkBatch (b_FirstRevision batch) (b_Group batch) operations])
                   endOffset (rr_Truncated r))
            end
          end
        end
      end
    else (f, (r, None))
  end.

Definition noReplay : ReplayResult := mkReplayResult [] 0 false.

Definition Replay (j : Journal) : Journal * (ReplayResult * option error) :=
  match j_file j with
  | None => (j, (noReplay, Some recovery_ErrClosed))
  | Some f =>
    let '(f, info) := file_Stat f in
    match info with
    | Err e => (with_file j f, (noReplay, Some e))
    | Ok size =>
      let '(f, r) := replay_loop (Z.to_nat size) f size fileHeaderSize
                       (mkReplayResult [] fileHeaderSize false) in
      (with_file j f, r)
    end
  end.

Definition RepairTail (j : Journal) (validBytes : Z) : Journal * option error :=
  match j_file j with
  | None => (j, Some recovery_ErrClosed)
  | Some f =>
    if validBytes <? fileHeaderSize then (j, Some recovery_errInvalidRepairOffset)
    else let '(f, e) := file_Truncate f validBytes in (with_file j f, e)
  end.

Definition Sync (j : Journal) : Journal * option error :=
  match j_file j with
  | None => (j, Some recovery_ErrClosed)
  | Some f => let '(f, e) := file_Sync f in (with_file j f, e)
  end.

Definition Reset (j : Journal) (fp : Fingerprint) : Journal * option error :=
  match j_file j with
  | None => (j, Some recovery_ErrClosed)
  | Some f =>
    if BaseSize fp <? 0 then (j, Some recovery_ErrStaleJournal) else
    let '(f, e) := file_Truncate f 0 in
    match e with
    | Some e => (with_file j f, Some e)
    | None =>
      let '(f, e) := file_SeekStart f in
      match e with
      | Some e => (with_file j f, Some e)
      | None => let '(f, e) := writeFileHeader f fp in (with_file j f, e)
      end
    end
  end.

Definition Close (j : Journal) : Journal * option error :=
  match j_file j with
  | None => (j, None)
  | Some f => let '(_, e) := file_Close f in (mkJournal None (j_path j), e)
  end.

(** [openJournal]: the outcomes of [mkdirAll] and [openFile] are arguments; the
    file left behind by a failed open (closed) is returned beside the result. *)
Definition openJournal (path : list byte) (fp : Fingerprint) (mkdirAll : option error)
  (openFile : result file) : option file * result (Journal * ReplayResult) :=
  if BaseSize fp <? 0 then (None, Err recovery_ErrStaleJournal) else
  match mkdirAll with
  | Some e => (None, Err e)
  | None =>
    match openFile with
    | Err e => (None, Err e)
    | Ok f =>
      let '(f, info) := file_Stat f in
      match info with
      | Err e => let '(f, _) := file_Close f in (Some f, Err e)
      | Ok size =>
        if size =? 0 then
          let '(f, e) := writeFileHeader f fp in
          match e with
          | Some e => let '(f, _) := file_Close f in (Some f, Err e)
          | None => (Some f, Ok (mkJournal (Some f) path, mkReplayResult [] fileHeaderSize false))
          end
        else
          let '(f, stored) := readFileHeader f in
          match stored with
          | Err e => let '(f, _) := file_Close f in (Some f, Err e)
          | Ok stored =>
            if negb (bool_decide (stored = fp))
            then let '(f, _) := file_Close f in (Some f, Err recovery_ErrStaleJournal)
            else
              let '(j, (replay, e)) := Replay (mkJournal (Some f) path) in
              match e, j_file j with
              | None, _ => (j_file j, Ok (j, replay))
              | Some e, Some f => let '(f, _) := file_Close f in (Some f, Err e)
              | Some e, None => (None, Err e)
              end
          end
      end
    end
  end.

(** [ReadFingerprint]: the outcome of [os.Open] is an argument. *)
Definition ReadFingerprint (open : result file) : result Fingerprint :=
  match open with
  | Err e => Err e
  | Ok f => (readFileHeader f).2
  end.

(** ** Checksums *)

Lemma crc32c_check : crc32_Checksum (map z2b [49; 50; 51; 52; 53; 54; 55; 56; 57]) = 0xe3069283.
Proof. vm_compute. reflexivity. Qed.

Lemma shiftr_range c n : 0 <= n -> 0 <= c < 2 ^ 32 -> 0 <= Z.shiftr c n < 2 ^ 32.
Proof.
  intros Hn Hc. rewrite Z.shiftr_div_pow2 by lia. pose proof (Z.pow_pos_nonneg 2 n).
  split; [apply Z.div_pos; lia|]. apply Z.div_lt_upper_bound; nia.
Qed.

Lemma crc_shift_range c : 0 <= c < 2 ^ 32 -> 0 <= crc_shift c < 2 ^ 32.
Proof.
  intros. pose proof (shiftr_range c 1 ltac:(lia) ltac:(lia)).
  unfold crc_shift. case_match; [|lia]. apply lxor_range; lia.
Qed.

Lemma crc_table_range c : 0 <= c < 2 ^ 32 -> 0 <= crc_table c < 2 ^ 32.
Proof. intros H. unfold crc_table. apply (Nat.iter_invariant 8 Z crc_shift (fun c => 0 <= c < 2 ^ 32)); auto using crc_shift_range. Qed.

Lemma crc_step_range c b : 0 <= c < 2 ^ 32 -> 0 <= crc_step c b < 2 ^ 32.
Proof.
  intros. unfold crc_step. apply lxor_range; [lia| |apply shiftr_range; lia].
  apply crc_table_range. apply lxor_range; [lia| |pose proof (b2z_range b); lia].
  change 255 with (Z.ones 8). rewrite Z.land_ones by lia.
  pose proof (Z.mod_pos_bound c (2 ^ 8) ltac:(lia)). lia.
Qed.

Lemma crc_not_range c : 0 <= c < 2 ^ 32 -> 0 <= crc_not c < 2 ^ 32.
Proof. intros. apply lxor_range; lia. Qed.

Lemma crc32_Update_range c p : 0 <= c < 2 ^ 32 -> 0 <= crc32_Update c p < 2 ^ 32.
Proof.
  intros H. apply crc_not_range. apply crc_not_range in H. revert H. generalize (crc_not c).
  induction p; intros; simpl; auto using crc_step_range.
Qed.

Lemma crc32_Update_app c p q : crc32_Update (crc32_Update c p) q = crc32_Update c (p ++ q).
Proof.
  unfold crc32_Update. f_equal. rewrite fold_left_app. f_equal.
  unfold crc_not. by rewrite Z.lxor_assoc, Z.lxor_nilpotent, Z.lxor_0_r.
Qed.

Lemma crc32_Update_nil c : crc32_Update c [] = c.
Proof. unfold crc32_Update, crc_not; simpl. by rewrite Z.lxor_assoc, Z.lxor_nilpotent, Z.lxor_0_r. Qed.

(** ** Batches: the encoder's domain *)

Definition inserted (ops : list ReplaceOperation) : list byte := concat (map ro_Inserted ops).

Record batch_ok (rev grp : Z) (ops : list ReplaceOperation) : Prop := mkBatchOk {
  bo_count : 1 <= zlen ops <= maximumBatchSize;
  bo_rev : 1 <= rev <= maxUint64 - (zlen ops - 1);
  bo_group : 1 <= grp <= maxUint64;
  bo_ops : Forall (fun o => 0 <= ro_Start o <= maxInt64 /\ 0 <= ro_DeleteLength o <= maxInt64) ops;
  bo_size : batchRecordSize * zlen ops + zlen (inserted ops) <= maximumBatchPayload }.

(** The Go types of the arguments of [AppendBatch]. *)
Definition batch_typed (rev grp : Z) (ops : list ReplaceOperation) : Prop :=
  in_u64 rev /\ in_u64 grp /\
  Forall (fun o => in_i64 (ro_Start o) /\ in_i64 (ro_DeleteLength o)) ops.

Lemma inserted_cons o ops : inserted (o :: ops) = ro_Inserted o ++ inserted ops.
Proof. reflexivity. Qed.

Lemma payload_total_spec ops total n :
  payload_total ops total = Ok n <->
  Forall (fun o => 0 <= ro_Start o /\ 0 <= ro_DeleteLength o) ops /\
  n = total + zlen (inserted ops) /\ (ops <> [] -> n <= maximumBatchPayload).
Proof.
  revert total. induction ops as [|o ops IH]; intros total.
  { cbn [payload_total]. change (zlen (inserted [])) with 0. split.
    - intros [= ->]. split_and!; [constructor|lia|done].
    - intros (_ & -> & _). f_equal. lia. }
  cbn [payload_total]. rewrite inserted_cons, zlen_app. rewrite Forall_cons_iff.
  pose proof (zlen_nonneg (ro_Inserted o)). pose proof (zlen_nonneg (inserted ops)).
  destruct (Z.ltb_spec (ro_Start o) 0); [simpl; split; [done|intros ((?&?)&?&?); lia]|].
  destruct (Z.ltb_spec (ro_DeleteLength o) 0); [simpl; split; [done|intros ((?&?)&?&?); lia]|].
  destruct (Z.ltb_spec (maximumBatchPayload - total) (zlen (ro_Inserted o))) as [Hlt|Hge]; cbn [orb].
  { split; [done|]. intros (_ & -> & Hn). specialize (Hn ltac:(done)). lia. }
  rewrite IH. split.
  - intros (Hf & -> & Hn). split_and!; auto; [lia|]. intros _. destruct ops as [|o' ops].
    + change (inserted []) with (@nil byte). rewrite zlen_nil. lia.
    + specialize (Hn ltac:(done)). lia.
  - intros (Hf & -> & Hn). specialize (Hn ltac:(done)). split_and!; [tauto|lia|lia].
Qed.

Lemma batchPayloadSize_spec rev grp ops n :
  batch_typed rev grp ops ->
  batchPayloadSize rev grp ops = Ok n <->
  batch_ok rev grp ops /\ n = batchRecordSize * zlen ops + zlen (inserted ops).
Proof.
  intros (Hr & Hg & Ht). unfold batchPayloadSize. pose proof (zlen_nonneg ops).
  unfold maximumBatchSize, batchRecordSize.
  destruct (Z.eqb_spec (zlen ops) 0) as [H0|H0]; [cbn [orb]; split; [done|intros [[] _]; lia]|].
  destruct (Z.ltb_spec 256 (zlen ops)) as [H1|H1];
    [cbn [orb]; split; [done|intros [[] _]; unfold maximumBatchSize in *; lia]|].
  destruct (Z.eqb_spec rev 0) as [H2|H2]; [cbn [orb]; split; [done|intros [[] _]; lia]|].
  destruct (Z.eqb_spec grp 0) as [H3|H3]; [cbn [orb]; split; [done|intros [[] _]; lia]|].
  rewrite u64_id by go_lia.
  destruct (Z.ltb_spec (maxUint64 - (zlen ops - 1)) rev) as [H4|H4];
    [cbn [orb]; split; [done|intros [[] _]; lia]|].
  cbn [orb]. rewrite payload_total_spec. split.
  - intros (Hf & -> & Hn). assert (ops <> []) as Hne by (intros ->; done). specialize (Hn Hne).
    split; [|lia]. split; unfold maximumBatchSize, batchRecordSize; unfold_ints; try lia.
    rewrite Forall_forall in Hf, Ht |- *. intros o Ho. specialize (Hf o Ho). specialize (Ht o Ho). lia.
  - intros [[] ->]. unfold batchRecordSize in *. split_and!; [|lia|lia].
    eapply Forall_impl; [|done]. simpl. lia.
Qed.

Lemma batch_ok_typed rev grp ops : batch_ok rev grp ops -> batch_typed rev grp ops.
Proof.
  intros []. unfold batch_typed. unfold_ints. pose proof (zlen_nonneg ops). split_and!; [lia..|].
  eapply Forall_impl; [|done]. simpl. lia.
Qed.

(** [relative_offsets] and the operations a replay reports. *)
Fixpoint located (ops : list ReplaceOperation) (cursor : Z) : list Operation :=
  match ops with
  | [] => []
  | o :: ops =>
    mkOperation (ro_Start o) (ro_DeleteLength o) (zlen (ro_Inserted o)) cursor
    :: located ops (cursor + zlen (ro_Inserted o))
  end.

Lemma located_offsets ops cursor base :
  map (fun r => base + r) (relative_offsets ops cursor) = map op_PayloadOffset (located ops (base + cursor)).
Proof.
  revert cursor. induction ops as [|o ops IH]; intros; [done|]. simpl. f_equal. rewrite IH. do 2 f_equal. lia.
Qed.

Lemma length_located ops cursor : length (located ops cursor) = length ops.
Proof. revert cursor; induction ops; intros; simpl; auto. Qed.

Lemma located_bounds ops cursor o :
  In o (located ops cursor) ->
  cursor <= op_PayloadOffset o /\ 0 <= op_InsertLength o /\
  op_PayloadOffset o + op_InsertLength o <= cursor + zlen (inserted ops).
Proof.
  revert cursor. induction ops as [|x ops IH]; intros cursor; [done|]. cbn [located In].
  rewrite inserted_cons, zlen_app. pose proof (zlen_nonneg (ro_Inserted x)). pose proof (zlen_nonneg (inserted ops)).
  intros [<-|Hin]; simpl; [lia|]. specialize (IH _ Hin). lia.
Qed.

Lemma located_data ops cursor data :
  0 <= cursor -> slice cursor (zlen (inserted ops)) data = inserted ops ->
  map (fun o => slice (op_PayloadOffset o) (op_InsertLength o) data) (located ops cursor) = map ro_Inserted ops.
Proof.
  revert cursor. induction ops as [|o ops IH]; intros cursor Hc Hs; [done|].
  rewrite inserted_cons, zlen_app, slice_split in Hs by (auto using zlen_nonneg).
  apply app_inj_1 in Hs as [H1 H2].
  - cbn [located map op_PayloadOffset op_InsertLength]. f_equal; [done|]. apply IH; [|done].
    pose proof (zlen_nonneg (ro_Inserted o)). lia.
  - enough (zlen (slice cursor (zlen (ro_Inserted o)) data) = zlen (ro_Inserted o)) by (unfold zlen in *; lia).
    apply (f_equal zlen) in Hs. rewrite !zlen_app in Hs.
    pose proof (zlen_nonneg (ro_Inserted o)). pose proof (zlen_nonneg (inserted ops)).
    unfold slice in *. rewrite !zlen_ztake in *. lia.
Qed.

(** ** Codec of one batch *)

Definition blank (rev grp : Z) (count : nat) : Batch := mkBatch rev grp (replicate count zeroOperation).
Definition header_layout : list Z := [8; 2; 2; 4; 8; 8; 4; 4; 8; 8; 4; 4].

Lemma zlen_magic : zlen batchMagic = 8.
Proof. reflexivity. Qed.

Lemma zlen_encodeRecord o : zlen (encodeRecord o) = 24.
Proof. reflexivity. Qed.

Lemma zlen_records ops : zlen (concat (map encodeRecord ops)) = batchRecordSize * zlen ops.
Proof.
  unfold batchRecordSize. induction ops as [|o ops IH]; [done|]. cbn [map concat].
  rewrite zlen_app, zlen_encodeRecord, IH, zlen_cons. lia.
Qed.

Lemma zlen_payload_bytes ops : zlen (payload_bytes ops) = batchRecordSize * zlen ops + zlen (inserted ops).
Proof. unfold payload_bytes. by rewrite zlen_app, zlen_records. Qed.

Lemma zlen_batch_fields b n : zlen (concat (batch_fields b n)) = 56.
Proof. reflexivity. Qed.
Lemma zlen_encodeBatchHeader b p : zlen (encodeBatchHeader b p) = 64.
Proof. reflexivity. Qed.

(** A 64-byte header is the concatenation of its fields. *)
Lemma header_slices (h : list byte) : zlen h = 64 -> concat (slices header_layout 0 h) = h.
Proof.
  intros Hh. rewrite concat_slices; [|done|repeat constructor; lia].
  change (foldr Z.add 0 header_layout) with 64. rewrite <-Hh. apply slice_all.
Qed.

Lemma header_slices_of b n crc :
  slices header_layout 0 (concat (batch_fields b n) ++ PutUint32 crc ++ PutUint32 0) =
  batch_fields b n ++ [PutUint32 crc; PutUint32 0].
Proof.
  pose proof (slices_concat (batch_fields b n ++ [PutUint32 crc; PutUint32 0]) [] [] 0 eq_refl) as H.
  rewrite concat_app, !app_nil_r, app_nil_l in H. cbn [List.concat] in H. rewrite app_nil_r in H. exact H.
Qed.

Lemma decodeBatchHeader_encode b n crc :
  1 <= zlen (b_Operations b) <= maximumBatchSize ->
  b_Operations b = replicate (length (b_Operations b)) zeroOperation ->
  1 <= b_FirstRevision b <= maxUint64 - (zlen (b_Operations b) - 1) -> 1 <= b_Group b <= maxUint64 ->
  0 <= n <= maxInt64 -> 0 <= crc < 2 ^ 32 ->
  decodeBatchHeader (concat (batch_fields b n) ++ PutUint32 crc ++ PutUint32 0) = Some (b, n, crc).
Proof.
  intros Hc Hops Hr Hg Hn Hcrc. unfold maximumBatchSize in Hc. unfold_ints.
  pose proof (header_slices_of b n crc) as H.
  set (h := concat (batch_fields b n) ++ _) in *.
  assert (zlen h = 64) as Hlen by reflexivity. clearbody h.
  unfold batch_fields, header_layout in H. cbn [slices app] in H.
  z_fold_in H. injection H as F0 F1 F2 F3 F4 F5 F6 F7 F8 F9 F10 F11.
  unfold decodeBatchHeader.
  rewrite Hlen, F0, F1, F2, F3, F4, F5, F6, F7, F8, F9, F10, F11.
  unfold PutUint16, PutUint32, PutUint64.
  rewrite !le_get_put_small by (unfold journalVersion, batchHeaderSize, batchRecordSize; simpl; lia).
  rewrite bool_decide_eq_true_2 by done. cbn [negb orb]. rewrite !Z.eqb_refl. cbn [negb orb].
  unfold maximumBatchSize. unfold_ints.
  rewrite (proj2 (Z.eqb_neq (zlen (b_Operations b)) 0)) by lia.
  rewrite (proj2 (Z.ltb_ge 256 (zlen (b_Operations b)))) by lia.
  rewrite (proj2 (Z.ltb_ge 9223372036854775807 n)) by lia. cbn [negb orb b_FirstRevision b_Group].
  rewrite (proj2 (Z.eqb_neq (b_FirstRevision b) 0)), (proj2 (Z.eqb_neq (b_Group b) 0)) by lia.
  rewrite (proj2 (Z.ltb_ge _ (b_FirstRevision b))) by lia. cbn [orb].
  unfold zlen at 1. rewrite Nat2Z.id, <-Hops. by destruct b.
Qed.

Ltac guard_in H := rewrite ?orb_false_iff, ?negb_false_iff, ?bool_decide_eq_true, ?Z.eqb_eq, ?Z.eqb_neq, ?Z.ltb_ge in H.

Lemma decodeBatchHeader_inv h b n crc :
  decodeBatchHeader h = Some (b, n, crc) ->
  h = concat (batch_fields b n) ++ PutUint32 crc ++ PutUint32 0 /\
  1 <= zlen (b_Operations b) <= maximumBatchSize /\
  b_Operations b = replicate (length (b_Operations b)) zeroOperation /\
  1 <= b_FirstRevision b <= maxUint64 - (zlen (b_Operations b) - 1) /\ 1 <= b_Group b <= maxUint64 /\
  0 <= n <= maxInt64 /\ 0 <= crc < 2 ^ 32.
Proof.
  unfold decodeBatchHeader. set (rev := le_get (slice 16 8 h)). set (grp := le_get (slice 24 8 h)).
  set (count := le_get (slice 32 4 h)). set (raw := le_get (slice 40 8 h)). set (c := le_get (slice 56 4 h)). cbn [b_FirstRevision b_Group].
  intros H.
  match type of H with context [if ?c then _ else _] => destruct c eqn:G1; [done|] end.
  match type of H with context [if ?c then _ else _] => destruct c eqn:G2; [done|] end.
  match type of H with context [if ?c then _ else _] => destruct c eqn:G3; [done|] end.
  guard_in G1. guard_in G2. guard_in G3. unfold maximumBatchSize, batchHeaderSize in *.
  destruct G1 as ((((((E0 & F0) & F1) & F2) & F3) & F9) & F11). destruct G2 as (((C0 & C1) & F7) & C2).
  destruct G3 as ((C3 & C4) & C5). injection H as <- <- <-. cbn [b_Operations b_FirstRevision b_Group].
  assert (0 <= count) as Hcount by (subst count; pose proof (le_get_range (slice 32 4 h)); lia).
  assert (zlen (replicate (Z.to_nat count) zeroOperation) = count) as Hlen by (rewrite zlen_replicate; lia).
  assert (forall off, 0 <= le_get (slice off 8 h) <= maxUint64) as H8.
  { intros off. pose proof (le_get_range (slice off 8 h)) as Hr.
    assert (256 ^ zlen (slice off 8 h) <= 256 ^ 8).
    { apply Z.pow_le_mono_r; [lia|]. unfold slice. rewrite zlen_ztake. lia. }
    unfold_ints. lia. }
  pose proof (H8 16 : 0 <= rev <= _). pose proof (H8 24 : 0 <= grp <= _). pose proof (H8 40 : 0 <= raw <= _).
  assert (0 <= c < 2 ^ 32) as Hcrc.
  { pose proof (le_get_range (slice 56 4 h) : 0 <= c < _) as Hr. rewrite zlen_slice in Hr by lia. lia. }
  rewrite Hlen. unfold_ints. split_and!; try lia.
  - rewrite <-(header_slices h) at 1 by done. unfold header_layout. cbn [slices].
    z_fold.
    unfold batch_fields. cbn [concat app b_FirstRevision b_Group b_Operations]. rewrite Hlen, !app_nil_r.
    rewrite F0. unfold PutUint16, PutUint32, PutUint64. rewrite <-!app_assoc.
    rewrite (le_get_slice 2 2 8 h _ eq_refl ltac:(lia) ltac:(lia) F1), (le_get_slice 2 2 10 h _ eq_refl ltac:(lia) ltac:(lia) F2),
      (le_get_slice 4 4 12 h _ eq_refl ltac:(lia) ltac:(lia) F3), (le_get_slice 8 8 16 h rev eq_refl ltac:(lia) ltac:(lia) eq_refl),
      (le_get_slice 8 8 24 h grp eq_refl ltac:(lia) ltac:(lia) eq_refl), (le_get_slice 4 4 32 h count eq_refl ltac:(lia) ltac:(lia) eq_refl),
      (le_get_slice 4 4 36 h _ eq_refl ltac:(lia) ltac:(lia) F7), (le_get_slice 8 8 40 h raw eq_refl ltac:(lia) ltac:(lia) eq_refl),
      (le_get_slice 8 8 48 h _ eq_refl ltac:(lia) ltac:(lia) F9), (le_get_slice 4 4 56 h c eq_refl ltac:(lia) ltac:(lia) eq_refl),
      (le_get_slice 4 4 60 h _ eq_refl ltac:(lia) ltac:(lia) F11). done.
  - by rewrite length_replicate.
Qed.

Lemma encodeRecord_get o rest :
  0 <= ro_Start o <= maxInt64 -> 0 <= ro_DeleteLength o <= maxInt64 -> zlen (ro_Inserted o) <= maxInt64 ->
  let r := ztake batchRecordSize (encodeRecord o ++ rest) in
  le_get (slice 0 8 r) = ro_Start o /\ le_get (slice 8 8 r) = ro_DeleteLength o /\
  le_get (slice 16 8 r) = zlen (ro_Inserted o).
Proof.
  intros H1 H2 H3. cbn zeta. rewrite ztake_app by reflexivity. unfold encodeRecord.
  pose proof (zlen_nonneg (ro_Inserted o)). rewrite !u64_id by go_lia.
  pose proof (slices_concat [PutUint64 (ro_Start o); PutUint64 (ro_DeleteLength o);
    PutUint64 (zlen (ro_Inserted o))] [] [] 0 eq_refl) as H4.
  cbn [concat app] in H4. rewrite !app_nil_r in H4. set (r := _ ++ _ ++ _) in *. clearbody r.
  change (map zlen _) with [8; 8; 8] in H4. cbn [slices] in H4. z_fold_in H4.
  injection H4 as -> -> ->. unfold PutUint64. rewrite !le_get_put_small by go_lia. done.
Qed.

Lemma decode_records_encode ops payloadEnd cursor rest :
  Forall (fun o => 0 <= ro_Start o <= maxInt64 /\ 0 <= ro_DeleteLength o <= maxInt64) ops ->
  zlen (inserted ops) <= maxInt64 -> cursor + zlen (inserted ops) <= payloadEnd ->
  decode_records (length ops) (concat (map encodeRecord ops) ++ rest) payloadEnd cursor =
  Some (located ops cursor, cursor + zlen (inserted ops)).
Proof.
  revert cursor. induction ops as [|o ops IH]; intros cursor Hf Hn Hle.
  { simpl. do 2 f_equal. change (zlen (inserted [])) with 0. lia. }
  apply Forall_cons_iff in Hf as [[Hs Hd] Hf]. rewrite inserted_cons, zlen_app in *.
  pose proof (zlen_nonneg (ro_Inserted o)). pose proof (zlen_nonneg (inserted ops)).
  cbn [length decode_records map concat]. rewrite <-app_assoc.
  destruct (encodeRecord_get o (concat (map encodeRecord ops) ++ rest)) as (-> & -> & ->); [lia..|].
  rewrite (proj2 (Z.ltb_ge _ (ro_Start o))), (proj2 (Z.ltb_ge _ (ro_DeleteLength o))),
    (proj2 (Z.ltb_ge maxInt64 _)), (proj2 (Z.ltb_ge (payloadEnd - cursor) _)) by lia.
  cbn [orb]. rewrite zdrop_app by reflexivity. rewrite IH by first [done|lia]. cbn [located]. do 2 f_equal. lia.
Qed.

Lemma record_fields md :
  batchRecordSize <= zlen md ->
  let r := ztake batchRecordSize md in
  let start := le_get (slice 0 8 r) in let del := le_get (slice 8 8 r) in let ins := le_get (slice 16 8 r) in
  0 <= start <= maxUint64 /\ 0 <= del <= maxUint64 /\ 0 <= ins <= maxUint64 /\
  r = PutUint64 start ++ PutUint64 del ++ PutUint64 ins.
Proof.
  intros Hmd r. unfold batchRecordSize in *. assert (zlen r = 24) as Hr by (subst r; rewrite zlen_ztake; lia).
  clearbody r. cbn zeta.
  assert (forall off, 0 <= off -> off + 8 <= 24 -> 0 <= le_get (slice off 8 r) <= maxUint64) as H8.
  { intros off ??. pose proof (le_get_range (slice off 8 r)) as Hg. rewrite zlen_slice in Hg by lia.
    unfold_ints. lia. }
  split_and!; try (apply H8; lia). unfold PutUint64.
  rewrite <-(le_get_slice 8 8 0 r _ eq_refl ltac:(lia) ltac:(lia) eq_refl) at 1.
  rewrite <-(le_get_slice 8 8 8 r _ eq_refl ltac:(lia) ltac:(lia) eq_refl) at 1.
  rewrite <-(le_get_slice 8 8 16 r _ eq_refl ltac:(lia) ltac:(lia) eq_refl) at 1.
  pose proof (concat_slices [8; 8; 8] 0 r ltac:(lia) ltac:(repeat constructor; lia)) as Hc.
  cbn [slices concat foldr] in Hc. z_fold_in Hc. rewrite app_nil_r in Hc. rewrite Hc.
  symmetry. change (8 + (8 + (8 + 0))) with 24. rewrite <-Hr at 1. apply slice_all.
Qed.

Lemma decode_records_inv data count md payloadEnd cursor ops cursor' :
  decode_records count md payloadEnd cursor = Some (ops, cursor') ->
  zlen md = batchRecordSize * Z.of_nat count -> 0 <= cursor -> cursor <= payloadEnd <= zlen data ->
  exists rops, length rops = count /\ md = concat (map encodeRecord rops) /\ ops = located rops cursor /\
    cursor' = cursor + zlen (inserted rops) /\ cursor' <= payloadEnd /\
    inserted rops = slice cursor (zlen (inserted rops)) data /\
    Forall (fun o => 0 <= ro_Start o <= maxInt64 /\ 0 <= ro_DeleteLength o <= maxInt64) rops.
Proof.
  revert md cursor ops. induction count as [|count IH]; intros md cursor ops H Hmd Hc He.
  { injection H as <- <-. exists []. change (inserted []) with (@nil byte).
    rewrite zlen_nil, slice_nil_len, Z.add_0_r by lia.
    rewrite (zlen_zero md) by lia. split_and!; done || lia || constructor. }
  cbn [decode_records] in H. unfold batchRecordSize in *.
  destruct (record_fields md) as (R1 & R2 & R3 & R); [unfold batchRecordSize; lia|].
  unfold batchRecordSize in *. cbn zeta in R1, R2, R3, R.
  set (start := le_get (slice 0 8 _)) in *. set (del := le_get (slice 8 8 _)) in *.
  set (ins := le_get (slice 16 8 _)) in *. clearbody start del ins.
  destruct ((maxInt64 <? start) || (maxInt64 <? del) || (maxInt64 <? ins)) eqn:G1; [done|]. guard_in G1.
  destruct G1 as ((G1 & G2) & G3). destruct (Z.ltb_spec (payloadEnd - cursor) ins) as [|G4]; [done|].
  destruct (decode_records count _ _ _) as [[ops1 cursor1]|] eqn:Hd; [|done].
  injection H as <- <-. apply IH in Hd as (rops & E1 & E2 & -> & -> & E5 & E6 & E7); [|rewrite zlen_zdrop; lia|lia|lia].
  set (o := mkReplaceOperation start del (slice cursor ins data)).
  assert (zlen (ro_Inserted o) = ins) as Ho by (apply zlen_slice; lia).
  exists (o :: rops). rewrite inserted_cons, zlen_app, Ho. cbn [length map concat located]. rewrite Ho.
  pose proof (zlen_nonneg (inserted rops)). split_and!; try lia; try done.
  - rewrite <-(ztake_zdrop 24 md) at 1. rewrite E2. f_equal. rewrite R at 1. unfold encodeRecord. rewrite Ho.
    cbn [ro_Start ro_DeleteLength o]. rewrite !u64_id by go_lia. done.
  - rewrite slice_split by lia. rewrite <-E6. done.
  - constructor; [|done]. simpl. lia.
Qed.

(** ** The reference reading of one batch

    [encodeBatch] is what [AppendBatch] adds to the file; [parse_at] is the
    decoder over plain bytes; they are inverse, so a batch is accepted exactly
    when the bytes there are its canonical encoding. *)

Definition encodeBatch (rev grp : Z) (ops : list ReplaceOperation) : list byte :=
  encodeBatchHeader (blank rev grp (length ops)) (payload_bytes ops) ++ payload_bytes ops.

(** The batch as replay reports it when it starts at [off]. *)
Definition locatedBatch (off rev grp : Z) (ops : list ReplaceOperation) : Batch :=
  mkBatch rev grp (located ops (off + batchHeaderSize + batchRecordSize * zlen ops)).

Definition parse_at (data : list byte) (off : Z) : option (Batch * Z) :=
  if zlen data - off <? batchHeaderSize then None else
  let header := slice off batchHeaderSize data in
  match decodeBatchHeader header with
  | None => None
  | Some (batch, n, crc) =>
    if maximumBatchPayload <? n then None else
    if zlen data - (off + batchHeaderSize) <? n then None else
    let payload := slice (off + batchHeaderSize) n data in
    if negb (crc32_Update (crc32_Update 0 (slice 0 56 header)) payload =? crc) then None else
    if n <? zlen (b_Operations batch) * batchRecordSize then None else
    match decode_records (length (b_Operations batch))
            (slice (off + batchHeaderSize) (zlen (b_Operations batch) * batchRecordSize) data)
            (off + batchHeaderSize + n) (off + batchHeaderSize + zlen (b_Operations batch) * batchRecordSize) with
    | None => None
    | Some (ops, cursor) =>
      if cursor =? off + batchHeaderSize + n
      then Some (mkBatch (b_FirstRevision batch) (b_Group batch) ops, off + batchHeaderSize + n)
      else None
    end
  end.

Lemma zlen_encodeBatch rev grp ops :
  zlen (encodeBatch rev grp ops) = batchHeaderSize + (batchRecordSize * zlen ops + zlen (inserted ops)).
Proof. unfold encodeBatch. by rewrite zlen_app, zlen_encodeBatchHeader, zlen_payload_bytes. Qed.

Lemma zlen_blank rev grp (ops : list ReplaceOperation) :
  zlen (b_Operations (blank rev grp (length ops))) = zlen ops.
Proof. cbn [b_Operations blank]. by rewrite zlen_replicate. Qed.

(** A slice of the file inside a known tail of it. *)
Lemma slice_at {A} (data pre x post : list A) off n :
  0 <= off -> zdrop off data = pre ++ x ++ post -> n = zlen x ->
  slice (off + zlen pre) n data = x.
Proof.
  intros Hoff H ->. rewrite <-(slice_zdrop (zlen pre)) by auto using zlen_nonneg.
  rewrite H. by apply slice_mid.
Qed.

Lemma decodeBatchHeader_blank rev grp ops n crc :
  batch_ok rev grp ops -> 0 <= n <= maxInt64 -> 0 <= crc < 2 ^ 32 ->
  decodeBatchHeader (concat (batch_fields (blank rev grp (length ops)) n) ++ PutUint32 crc ++ PutUint32 0)
  = Some (blank rev grp (length ops), n, crc).
Proof.
  intros [] ??. apply decodeBatchHeader_encode; rewrite ?zlen_blank; try done.
  cbn [b_Operations blank]. by rewrite length_replicate.
Qed.

Lemma parse_at_encode data off rev grp ops tail :
  0 <= off -> batch_ok rev grp ops -> zdrop off data = encodeBatch rev grp ops ++ tail ->
  parse_at data off = Some (locatedBatch off rev grp ops, off + zlen (encodeBatch rev grp ops)).
Proof.
  intros Hoff Hok H. pose proof (zlen_encodeBatch rev grp ops) as Hlen. pose proof (bo_size _ _ _ Hok) as Hsize.
  pose proof (bo_count _ _ _ Hok) as Hcount.
  pose proof (zlen_nonneg tail). pose proof (zlen_nonneg (inserted ops)).
  unfold maximumBatchPayload, batchHeaderSize, batchRecordSize, maximumBatchSize in *.
  assert (off + zlen (encodeBatch rev grp ops) <= zlen data) as Hend.
  { pose proof (f_equal zlen H) as Hz. rewrite zlen_zdrop, zlen_app in Hz. lia. }
  pose proof (zlen_payload_bytes ops) as Hp. unfold batchRecordSize in Hp.
  set (p := payload_bytes ops) in *. set (b := blank rev grp (length ops)).
  assert (zlen (b_Operations b) = zlen ops) as Hb by apply zlen_blank.
  assert (length (b_Operations b) = length ops) as Hbl by (unfold zlen in Hb; lia).
  unfold encodeBatch in H. fold p b in H. rewrite <-app_assoc in H.
  assert (slice off 64 data = encodeBatchHeader b p) as Hh.
  { replace off with (off + zlen (@nil byte)) by (rewrite zlen_nil; lia).
    by apply (slice_at _ [] _ (p ++ tail)). }
  assert (forall m, 0 <= m <= zlen p -> slice (off + 64) m data = ztake m p) as Hslice.
  { intros m Hm. change 64 with (zlen (encodeBatchHeader b p)).
    apply (slice_at _ _ _ (zdrop m p ++ tail)); [lia| |rewrite zlen_ztake; lia].
    rewrite H. f_equal. by rewrite app_assoc, ztake_zdrop. }
  unfold parse_at. unfold maximumBatchPayload, batchHeaderSize, batchRecordSize.
  rewrite (proj2 (Z.ltb_ge (zlen data - off) 64)) by lia. rewrite Hh.
  set (crc := crc32_Update (crc32_Update 0 (concat (batch_fields b (zlen p)))) p).
  assert (0 <= crc < 2 ^ 32) as Hcrc by (apply crc32_Update_range, crc32_Update_range; lia).
  change (encodeBatchHeader b p) with (concat (batch_fields b (zlen p)) ++ PutUint32 crc ++ PutUint32 0).
  subst b. rewrite decodeBatchHeader_blank by first [done|go_lia]. set (b := blank rev grp (length ops)) in *.
  rewrite (proj2 (Z.ltb_ge 1073741824 (zlen p))), (proj2 (Z.ltb_ge (zlen data - (off + 64)) (zlen p))) by lia.
  rewrite !Hslice by lia. rewrite (ztake_all (zlen p)) by lia.
  rewrite slice_0, ztake_app by reflexivity. fold crc. rewrite Z.eqb_refl. cbn [negb].
  rewrite Hb, Hbl, (proj2 (Z.ltb_ge (zlen p) (zlen ops * 24))) by lia.
  replace (ztake (zlen ops * 24) p) with (concat (map encodeRecord ops) ++ []).
  2:{ rewrite app_nil_r. unfold p, payload_bytes. symmetry. apply ztake_app. rewrite zlen_records.
      unfold batchRecordSize. lia. }
  rewrite decode_records_encode; [|exact (bo_ops _ _ _ Hok)|go_lia|lia].
  rewrite (proj2 (Z.eqb_eq (_ + zlen (inserted ops)) (off + 64 + zlen p))) by lia. f_equal. f_equal; [|lia].
  unfold locatedBatch. cbn [b_FirstRevision b_Group b blank]. unfold batchHeaderSize, batchRecordSize.
  do 2 f_equal. lia.
Qed.

Lemma parse_at_inv data off b e :
  0 <= off -> parse_at data off = Some (b, e) ->
  exists rev grp ops, batch_ok rev grp ops /\ zdrop off data = encodeBatch rev grp ops ++ zdrop e data /\
    b = locatedBatch off rev grp ops /\ e = off + zlen (encodeBatch rev grp ops) /\ e <= zlen data.
Proof.
  intros Hoff. unfold parse_at. unfold batchHeaderSize, maximumBatchPayload, batchRecordSize.
  destruct (Z.ltb_spec (zlen data - off) 64) as [|G0]; [done|].
  destruct (decodeBatchHeader _) as [[[bt n] crc]|] eqn:Hh; [|done].
  apply decodeBatchHeader_inv in Hh as (Hh & Hc & Hbt & Hr & Hg & Hn & Hcrc). unfold maximumBatchSize in Hc.
  destruct (Z.ltb_spec 1073741824 n) as [|G1]; [done|].
  destruct (Z.ltb_spec (zlen data - (off + 64)) n) as [|G2]; [done|].
  destruct (Z.eqb_spec (crc32_Update (crc32_Update 0 (slice 0 56 (slice off 64 data))) (slice (off + 64) n data)) crc)
    as [G3|]; [|done]. cbn [negb].
  destruct (Z.ltb_spec n (zlen (b_Operations bt) * 24)) as [|G4]; [done|].
  destruct (decode_records _ _ _ _) as [[ops1 cursor]|] eqn:Hd; [|done].
  destruct (Z.eqb_spec cursor (off + 64 + n)) as [->|]; [|done]. intros [= <- <-].
  apply (decode_records_inv data) in Hd as (ops & E1 & E2 & -> & E4 & E5 & E6 & E7);
    [|rewrite zlen_slice by lia; unfold batchRecordSize, zlen; lia|lia|lia].
  assert (zlen ops = zlen (b_Operations bt)) as Hz by (unfold zlen; lia).
  pose proof (zlen_nonneg (inserted ops)).
  assert (bt = blank (b_FirstRevision bt) (b_Group bt) (length ops)) as Hblank.
  { destruct bt as [r g o]. cbn [b_FirstRevision b_Group b_Operations] in *. unfold blank. by rewrite E1, <-Hbt. }
  assert (slice (off + 64) n data = payload_bytes ops) as Hp.
  { unfold payload_bytes. rewrite <-E2.
    replace n with (zlen (b_Operations bt) * 24 + zlen (inserted ops)) by lia. rewrite slice_split by lia.
    f_equal. exact (eq_sym E6). }
  assert (zlen (payload_bytes ops) = n) as Hpl by (rewrite <-Hp; apply zlen_slice; lia).
  exists (b_FirstRevision bt), (b_Group bt), ops.
  assert (encodeBatch (b_FirstRevision bt) (b_Group bt) ops = slice off (64 + n) data) as Henc.
  { rewrite slice_split, Hp by lia. unfold encodeBatch. f_equal. rewrite Hh. unfold encodeBatchHeader.
    rewrite <-Hblank, Hpl. do 2 f_equal. rewrite <-G3, Hp, Hh, slice_0, ztake_app by reflexivity. done. }
  rewrite Henc, zlen_slice by lia. split_and!; try lia; [|..].
  - split; rewrite ?Hz; unfold maximumBatchSize, batchRecordSize, maximumBatchPayload; try lia. done.
  - rewrite <-(ztake_zdrop (64 + n) (zdrop off data)) at 1. rewrite zdrop_zdrop by lia.
    unfold slice. do 2 f_equal. lia.
  - unfold locatedBatch, batchHeaderSize, batchRecordSize. do 2 f_equal. lia.
Qed.

(** A proper prefix of an encoded batch is never accepted: the length field is
    in the header, so a torn append is detected without trusting the checksum. *)
Lemma encodeBatch_prefix_free rev grp ops rev' grp' ops' tail tail' :
  batch_ok rev grp ops -> batch_ok rev' grp' ops' ->
  encodeBatch rev grp ops ++ tail = encodeBatch rev' grp' ops' ++ tail' ->
  encodeBatch rev grp ops = encodeBatch rev' grp' ops' /\ tail = tail' /\ rev = rev' /\ grp = grp' /\
  located ops 0 = located ops' 0.
Proof.
  intros H1 H2 E. set (data := encodeBatch rev grp ops ++ tail) in *.
  pose proof (parse_at_encode data 0 rev grp ops tail ltac:(lia) H1 (zdrop_0 0 _ ltac:(lia))) as P1.
  assert (zdrop 0 data = encodeBatch rev' grp' ops' ++ tail') as E' by (by rewrite zdrop_0 by lia).
  pose proof (parse_at_encode data 0 _ _ _ _ ltac:(lia) H2 E') as P2.
  rewrite P1 in P2. apply (inj Some) in P2. apply pair_eq in P2 as [Hb He]. unfold locatedBatch in Hb.
  injection Hb as -> -> Hl.
  assert (encodeBatch rev' grp' ops = encodeBatch rev' grp' ops') as Henc.
  { pose proof (f_equal (ztake (zlen (encodeBatch rev' grp' ops))) E) as Et. unfold data in Et.
    rewrite ztake_app in Et by done. rewrite ztake_app in Et by lia. exact Et. }
  split_and!; try done.
  - unfold data in E. rewrite Henc in E. by apply app_inv_head in E.
  - assert (forall c d, located ops c = located ops' c -> located ops d = located ops' d) as Hshift.
    { clear. revert ops'. induction ops as [|o ops IH]; intros [|o' ops'] c d Hc; try done.
      cbn [located] in *. injection Hc as -> -> Hi Hc. rewrite Hi in *. f_equal. eapply IH. exact Hc. }
    apply (Hshift (0 + batchHeaderSize + batchRecordSize * zlen ops)).
    assert (zlen ops = zlen ops') as Hz; [|by rewrite Hz in Hl |- *].
    unfold zlen. f_equal. apply (f_equal length) in Hl. by rewrite !length_located in Hl.
Qed.

(** ** The reference reading of a journal: a sequence of batches and a tail *)

Record logged := mkLogged { l_rev : Z; l_group : Z; l_ops : list ReplaceOperation }.

Definition logged_ok (x : logged) : Prop := batch_ok (l_rev x) (l_group x) (l_ops x).
Definition encodeLogged (x : logged) : list byte := encodeBatch (l_rev x) (l_group x) (l_ops x).
Definition encodeAll (xs : list logged) : list byte := concat (map encodeLogged xs).
Fixpoint locatedAll (off : Z) (xs : list logged) : list Batch :=
  match xs with
  | [] => []
  | x :: xs => locatedBatch off (l_rev x) (l_group x) (l_ops x) :: locatedAll (off + zlen (encodeLogged x)) xs
  end.

(** No batch starts at the head of [rest]. *)
Definition no_batch (rest : list byte) : Prop :=
  forall x tail, logged_ok x -> rest <> encodeLogged x ++ tail.

Lemma logged_size x : logged_ok x -> 64 < zlen (encodeLogged x) <= 64 + maximumBatchPayload.
Proof.
  intros []. unfold encodeLogged. rewrite zlen_encodeBatch. pose proof (zlen_nonneg (inserted (l_ops x))).
  unfold batchHeaderSize, batchRecordSize in *. lia.
Qed.

Lemma no_batch_nil : no_batch [].
Proof.
  intros x tail Hx H. apply logged_size in Hx. apply (f_equal zlen) in H.
  rewrite zlen_app, zlen_nil in H. pose proof (zlen_nonneg tail). lia.
Qed.

Lemma locatedAll_app off xs ys :
  locatedAll off (xs ++ ys) = locatedAll off xs ++ locatedAll (off + zlen (encodeAll xs)) ys.
Proof.
  revert off. induction xs as [|x xs IH]; intros off.
  { simpl. change (zlen (encodeAll [])) with 0. by rewrite Z.add_0_r. }
  cbn [app locatedAll]. f_equal. rewrite IH. do 2 f_equal. unfold encodeAll. cbn [map concat]. rewrite zlen_app. lia.
Qed.

Lemma encodeAll_app xs ys : encodeAll (xs ++ ys) = encodeAll xs ++ encodeAll ys.
Proof. unfold encodeAll. by rewrite map_app, concat_app. Qed.

(** The reading is unique. *)
Lemma reading_unique xs ys rest rest' off :
  Forall logged_ok xs -> Forall logged_ok ys -> no_batch rest -> no_batch rest' ->
  encodeAll xs ++ rest = encodeAll ys ++ rest' ->
  encodeAll xs = encodeAll ys /\ rest = rest' /\ locatedAll off xs = locatedAll off ys.
Proof.
  intros Hxs Hys Hr Hr'. revert ys Hys off. induction Hxs as [|x xs Hx Hxs IH]; intros ys Hys off E.
  - destruct Hys as [|y ys Hy Hys]; [done|]. exfalso. unfold encodeAll in E. cbn [map concat app] in E.
    rewrite <-app_assoc in E. by apply (Hr y _ Hy) in E.
  - destruct Hys as [|y ys Hy Hys].
    { exfalso. unfold encodeAll in E. cbn [map concat app] in E. rewrite <-app_assoc in E.
      symmetry in E. by apply (Hr' x _ Hx) in E. }
    unfold encodeAll in *. cbn [map concat] in *. rewrite <-!app_assoc in E.
    destruct (encodeBatch_prefix_free _ _ _ _ _ _ _ _ Hx Hy E) as (Henc & Et & Hrev & Hgrp & Hl).
    destruct (IH ys Hys (off + zlen (encodeLogged x)) Et) as (E1 & E2 & E3). cbn [locatedAll].
    assert (encodeLogged x = encodeLogged y) as Hxy by exact Henc.
    split_and!; [by rewrite Hxy, E1|done|]. rewrite E3, Hxy. f_equal.
    unfold locatedBatch. rewrite Hrev, Hgrp. f_equal.
    assert (zlen (l_ops x) = zlen (l_ops y)) as ->.
    { unfold zlen. f_equal. apply (f_equal length) in Hl. by rewrite !length_located in Hl. }
    clear -Hl. revert Hl. generalize (off + batchHeaderSize + batchRecordSize * zlen (l_ops y)) as d.
    generalize 0 as c. generalize (l_ops y) as o'. induction (l_ops x) as [|o ops IH]; intros [|o' ops'] c d Hl; try done.
    cbn [located] in *. injection Hl as -> -> Hi Hl. rewrite Hi in *. f_equal. eapply IH. exact Hl.
Qed.

(** ** Replay under any faults *)

Lemma crc_loop_spec data fuel f remaining cursor crc f' r :
  crc_loop fuel f remaining cursor crc = (f', r) -> f_bytes f = data ->
  0 <= cursor -> 0 <= remaining -> cursor + remaining <= zlen data -> (Z.to_nat remaining < fuel)%nat ->
  f_bytes f' = data /\ (forall c, r = Ok c -> c = crc32_Update crc (slice cursor remaining data)) /\
  (f_faults f = [] -> f_faults f' = [] /\ exists c, r = Ok c).
Proof.
  revert f remaining cursor crc. induction fuel as [|fuel IH]; intros f remaining cursor crc H Hb Hc Hr Hle Hfuel; [lia|].
  cbn [crc_loop] in H. destruct (Z.ltb_spec 0 remaining) as [Hpos|].
  2:{ injection H as <- <-. split_and!; [done| |eauto]. intros c [= <-]. by rewrite slice_nil_len, crc32_Update_nil by lia. }
  unfold crcBufferBytes in H. set (want := Z.min 65536 remaining) in *.
  destruct (file_ReadAt f want cursor) as [f1 [got e]] eqn:Hread.
  pose proof (file_ReadAt_noeof _ _ _ _ _ _ Hread Hc ltac:(lia) ltac:(subst; lia)).
  destruct (file_ReadAt_spec _ _ _ _ _ _ Hread Hc ltac:(lia) ltac:(subst; lia)) as (Hb1 & Hgot & Hfull & Hnf).
  rewrite Hb in *. pose proof (zlen_nonneg got).
  assert (ztake (zlen got) (slice cursor want data) = slice cursor (zlen got) data) as Hg.
  { unfold slice. rewrite ztake_ztake. f_equal. lia. }
  rewrite Hg in Hgot.
  assert (forall c, c = crc32_Update (crc32_Update crc got) (slice (cursor + zlen got) (remaining - zlen got) data) ->
    c = crc32_Update crc (slice cursor remaining data)) as Hstep.
  { intros c ->. rewrite crc32_Update_app. rewrite Hgot at 1. rewrite <-slice_split by lia. do 2 f_equal. lia. }
  destruct e as [e|].
  - destruct (errors_Is e io_EOF && (remaining - zlen got =? 0)) eqn:Ge.
    + apply andb_true_iff in Ge as [_ Ge%Z.eqb_eq]. assert (0 < zlen got) by lia.
      destruct (IH _ _ _ _ H Hb1) as (? & Hok & ?); [lia..|]. split_and!; [done|auto|].
      intros Hn. by destruct (Hnf Hn).
    + injection H as <- <-. split_and!; [done|done|]. intros Hn. by destruct (Hnf Hn).
  - specialize (Hfull eq_refl). assert (zlen got = want) as Hw by (rewrite Hfull; apply zlen_slice; lia).
    rewrite (proj2 (Z.eqb_neq (zlen got) 0)) in H by lia. cbn [andb] in H.
    destruct (IH _ _ _ _ H Hb1) as (? & Hok & Hnf'); [lia..|]. split_and!; [done|auto|].
    intros Hn. destruct (Hnf Hn) as [_ Hn1]. by apply Hnf'.
Qed.

Lemma decodeBatchOperations_spec data f batch off n f' r :
  decodeBatchOperations f batch off n = (f', r) -> f_bytes f = data -> 0 <= off -> off + n <= zlen data ->
  1 <= zlen (b_Operations batch) ->
  f_bytes f' = data /\ (f_faults f = [] -> f_faults f' = [] /\ exists o, r = Ok o) /\
  (forall o, r = Ok o ->
    o = if n <? zlen (b_Operations batch) * batchRecordSize then None
        else match decode_records (length (b_Operations batch))
                     (slice off (zlen (b_Operations batch) * batchRecordSize) data) (off + n)
                     (off + zlen (b_Operations batch) * batchRecordSize) with
             | None => None
             | Some (ops, cursor) => if cursor =? off + n then Some ops else None
             end).
Proof.
  unfold decodeBatchOperations, batchRecordSize. intros H Hb Hoff Hle Hc.
  destruct (Z.ltb_spec n (zlen (b_Operations batch) * 24)) as [Hlt|Hge].
  { injection H as <- <-. split_and!; [done|eauto|]. by intros o [= <-]. }
  destruct (file_ReadAt _ _ _) as [f1 [md e]] eqn:Hread. subst data.
  destruct (file_ReadAt_spec _ _ _ _ _ _ Hread Hoff ltac:(lia) ltac:(lia)) as (Hb1 & _ & Hfull & Hnf).
  destruct e as [e|].
  { injection H as <- <-. split_and!; [done| |done]. intros Hn. by destruct (Hnf Hn). }
  rewrite (Hfull eq_refl) in H. destruct (decode_records _ _ _ _) as [[ops cursor]|];
    injection H as <- <-; (split_and!; [done|intros Hn; destruct (Hnf Hn); eauto|by intros o [= <-]]).
Qed.

Lemma replay_step data fuel f off r f' r' e :
  replay_loop (S fuel) f (zlen data) off r = (f', (r', e)) -> f_bytes f = data -> 0 <= off < zlen data ->
  (f_bytes f' = data /\ parse_at data off = None /\ e = None /\ r' = truncated r) \/
  (f_bytes f' = data /\ e <> None /\ r' = r /\ f_faults f <> []) \/
  (exists b endOffset f1, parse_at data off = Some (b, endOffset) /\ f_bytes f1 = data /\
    (f_faults f = [] -> f_faults f1 = []) /\
    replay_loop fuel f1 (zlen data) endOffset
      (mkReplayResult (rr_Batches r ++ [b]) endOffset (rr_Truncated r)) = (f', (r', e))).
Proof.
  intros H Hb Hoff. cbn [replay_loop] in H. rewrite (proj2 (Z.ltb_lt off (zlen data))) in H by lia.
  unfold parse_at. destruct (Z.ltb_spec (zlen data - off) batchHeaderSize) as [|Hh].
  { injection H as <- <- <-. auto. }
  unfold batchHeaderSize in *. destruct (file_ReadAt f 64 off) as [f1 [header e1]] eqn:Hread.
  destruct (file_ReadAt_spec _ _ _ _ _ _ Hread ltac:(lia) ltac:(lia) ltac:(rewrite Hb; lia)) as (Hb1 & _ & Hfull & Hnf).
  rewrite Hb in *. destruct e1 as [e1|].
  { injection H as <- <- <-. right; left. split_and!; [done..|]. intros Hn. by destruct (Hnf Hn). }
  rewrite <-(Hfull eq_refl). destruct (decodeBatchHeader header) as [[[bt n] crc]|] eqn:Hd.
  2:{ injection H as <- <- <-. auto. }
  destruct (decodeBatchHeader_inv _ _ _ _ Hd) as (_ & Hc & _ & _ & _ & Hn & _).
  destruct (maximumBatchPayload <? n); [injection H as <- <- <-; auto|].
  destruct (Z.ltb_spec (zlen data - (off + 64)) n) as [|Hle]; [injection H as <- <- <-; auto|].
  destruct (crc_loop _ _ _ _ _) as [f2 c] eqn:Hcrc.
  destruct (crc_loop_spec data _ _ _ _ _ _ _ Hcrc) as (Hb2 & Hok & Hnf2); [congruence|lia..|].
  assert (f_faults f = [] -> f_faults f2 = [] /\ exists c', c = Ok c') as Hnf'.
  { intros Hf. apply Hnf2. by apply Hnf. }
  destruct c as [c|e2].
  2:{ injection H as <- <- <-. right; left. split_and!; [done..|]. intros Hf. by destruct (Hnf' Hf) as [_ [? ?]]. }
  rewrite <-(Hok _ eq_refl). destruct (negb (c =? crc)); [injection H as <- <- <-; auto|].
  destruct (decodeBatchOperations _ _ _ _) as [f3 dec] eqn:Hdec.
  destruct (decodeBatchOperations_spec data _ _ _ _ _ _ Hdec) as (Hb3 & Hnf3 & Hval); [done|lia..|].
  destruct dec as [o|e3].
  2:{ injection H as <- <- <-. right; left. split_and!; [done..|]. intros Hf. destruct (Hnf' Hf) as [Hf2 _].
      by destruct (Hnf3 Hf2) as [_ [? ?]]. }
  specialize (Hval _ eq_refl). destruct (n <? _).
  { subst o. injection H as <- <- <-. auto. }
  destruct (decode_records _ _ _ _) as [[ops cursor]|].
  2:{ subst o. injection H as <- <- <-. auto. }
  destruct (cursor =? _); subst o; [|injection H as <- <- <-; auto].
  right; right. eexists _, _, f3. split_and!; [done..| |exact H]. intros Hf. by apply Hnf3, Hnf'.
Qed.

Lemma parse_at_none data off : 0 <= off -> parse_at data off = None -> no_batch (zdrop off data).
Proof.
  intros Hoff Hp x tail Hx E. unfold encodeLogged in E.
  by rewrite (parse_at_encode data off _ _ _ tail Hoff Hx E) in Hp.
Qed.

(** What a replay from [off] reports: the batches encoded there, up to the first
    bytes that are not a batch. *)
Definition replay_reads (data : list byte) (off : Z) (before : list Batch) (r : ReplayResult)
  (e : option error) : Prop :=
  exists xs rest, Forall logged_ok xs /\ zdrop off data = encodeAll xs ++ rest /\
    rr_Batches r = before ++ locatedAll off xs /\ rr_ValidBytes r = off + zlen (encodeAll xs) /\
    match e with
    | None => no_batch rest /\ rr_Truncated r = negb (zlen rest =? 0)
    | Some _ => rr_Truncated r = false
    end.

Lemma replay_reads_stop data off r :
  0 <= off -> rr_ValidBytes r = off -> rr_Truncated r = false -> zlen data <= off ->
  replay_reads data off (rr_Batches r) r None.
Proof.
  intros Hoff Hv Ht Hle. exists [], []. cbn [locatedAll]. rewrite !app_nil_r. change (zlen (encodeAll [])) with 0.
  split_and!; [constructor|by apply zdrop_all|done|lia|apply no_batch_nil|done].
Qed.

Lemma replay_loop_spec data fuel f off r f' r' e :
  replay_loop fuel f (zlen data) off r = (f', (r', e)) -> f_bytes f = data -> 0 <= off ->
  zlen data - off <= Z.of_nat fuel -> rr_ValidBytes r = off -> rr_Truncated r = false ->
  f_bytes f' = data /\ (f_faults f = [] -> e = None) /\ replay_reads data off (rr_Batches r) r' e.
Proof.
  revert f off r. induction fuel as [|fuel IH]; intros f off r H Hb Hoff Hfuel Hv Ht.
  { injection H as <- <- <-. split_and!; [done..|]. apply replay_reads_stop; lia || done. }
  destruct (decide (off < zlen data)) as [Hlt|Hge].
  2:{ cbn [replay_loop] in H. rewrite (proj2 (Z.ltb_ge off (zlen data))) in H by lia.
      injection H as <- <- <-. split_and!; [done..|]. apply replay_reads_stop; lia || done. }
  apply replay_step in H as [(Hb' & Hp & -> & ->)|[(Hb' & He & -> & Hf)|(b & e1 & f1 & Hp & Hb1 & Hnf & H)]];
    [| | |done|lia].
  - split_and!; [done..|]. exists [], (zdrop off data). cbn [locatedAll]. rewrite app_nil_r. change (zlen (encodeAll [])) with 0.
    split_and!; [constructor|done|done|simpl; lia|by apply parse_at_none|].
    cbn [truncated rr_Truncated]. rewrite zlen_zdrop. rewrite (proj2 (Z.eqb_neq _ 0)) by lia. done.
  - split_and!; [done|done|]. exists [], (zdrop off data). cbn [locatedAll]. rewrite app_nil_r. change (zlen (encodeAll [])) with 0.
    split_and!; [constructor|done|done|lia|by destruct e].
  - destruct (parse_at_inv _ _ _ _ Hoff Hp) as (rev & grp & ops & Hok & Hz & -> & -> & Hle).
    set (x := mkLogged rev grp ops). pose proof (logged_size x Hok).
    change (encodeBatch rev grp ops) with (encodeLogged x) in *.
    apply IH in H as (Hb' & Hn & xs & rest & Hxs & Hz' & Hbs & Hvb & He); cbn [rr_Batches rr_ValidBytes rr_Truncated] in *; [|done|lia..|done|done].
    split_and!; [done|auto|]. exists (x :: xs), rest. unfold encodeAll in *. cbn [map concat locatedAll].
    rewrite <-!app_assoc, zlen_app. split_and!; [by constructor|by rewrite Hz, Hz'| |lia|done].
    by rewrite Hbs, <-app_assoc.
Qed.

Lemma Replay_spec path f j' r e :
  Replay (mkJournal (Some f) path) = (j', (r, e)) ->
  (exists f', j_file j' = Some f' /\ f_bytes f' = f_bytes f /\ j_path j' = path) /\
  (f_faults f = [] -> e = None) /\
  (replay_reads (f_bytes f) fileHeaderSize [] r e \/ r = noReplay /\ e <> None).
Proof.
  unfold Replay, file_Stat. cbn [j_file].
  destruct (next_fault f) as [x f1] eqn:Hf. destruct (next_fault_bytes _ _ _ Hf) as (Hb & _ & Hnf).
  assert (match x with Fault _ e => (f1, Err e) | _ => (f1, Ok (zlen (f_bytes f1))) end =
          (f1, match x with Fault _ e => Err e | _ => Ok (zlen (f_bytes f1)) end)) as -> by (by destruct x).
  destruct (match x with Fault _ e => Err e | _ => Ok (zlen (f_bytes f1)) end) as [size|e1] eqn:Hs.
  - assert (size = zlen (f_bytes f)) as -> by (rewrite <-Hb; destruct x; congruence).
    destruct (replay_loop _ _ _ _ _) as [f2 [r2 e2]] eqn:Hl. intros [= <- <- <-].
    pose proof (zlen_nonneg (f_bytes f)).
    apply (replay_loop_spec (f_bytes f)) in Hl as (Hb' & Hn & Hr);
      [|done|done|unfold fileHeaderSize; lia|done|done].
    split_and!; [by exists f2| |by left]. intros Hfs. by apply Hn, Hnf.
  - intros [= <- <- <-]. split_and!; [by exists f1| |by right]. intros Hfs. destruct (Hnf Hfs) as [-> _]. done.
Qed.

(** ** Appending under any faults *)

Lemma rollback_spec f n cause f' r :
  rollback f n cause = (f', r) -> n <= zlen (f_bytes f) ->
  (exists e, r = Err e) /\
  (f_bytes f' = ztake n (f_bytes f) \/ (exists t, r = Err (errJoin cause t)) /\ f_bytes f' = f_bytes f).
Proof.
  unfold rollback, file_Truncate. intros H Hn. destruct (next_fault f) as [x f1] eqn:Hf.
  destruct (next_fault_bytes _ _ _ Hf) as (Hb & _ & _).
  assert (pad_to n (f_bytes f1) = f_bytes f1) as Hpad.
  { unfold pad_to. rewrite Hb. replace (Z.to_nat (n - zlen (f_bytes f))) with 0%nat by lia. apply app_nil_r. }
  destruct x; injection H as <- <-; rewrite ?Hpad, ?Hb; simpl; eauto 6.
Qed.

(** What an append may leave behind: a prefix [ztake k x] of its bytes [x] after
    [data], all of them on success, none on an error unless the truncation of the
    rollback failed as well. *)
Definition append_outcome (data x data' : list byte) (r : result (Z * Z)) : Prop :=
  (exists k, data' = data ++ ztake k x) /\
  (forall e, r = Err e -> data' = data \/ exists c t, e = errJoin c t).

Lemma append_outcome_none data x e : append_outcome data x data (Err e).
Proof. split; [exists 0; by rewrite ztake_0, app_nil_r by lia|auto]. Qed.

Lemma rollback_append f data j x cause g r :
  rollback f (zlen data) cause = (g, r) -> f_bytes f = data ++ ztake j x ->
  append_outcome data x (f_bytes g) r /\ exists e, r = Err e.
Proof.
  intros H Hb. pose proof (zlen_nonneg (ztake j x)). apply rollback_spec in H as [[e ->] Hg];
    [|rewrite Hb, zlen_app; lia]. rewrite Hb, ztake_app in Hg by done.
  destruct Hg as [->|[[t Ht] ->]]; (split; [|eauto]); [apply append_outcome_none|].
  split; [by exists j|]. intros e' [= <-]. right. injection Ht as ->. eauto.
Qed.

Lemma appendBatch_spec f b p f' r :
  appendBatch f b p = (f', r) ->
  append_outcome (f_bytes f) (encodeBatchHeader b p ++ p) (f_bytes f') r /\
  (forall o, r = Ok o -> f_bytes f' = f_bytes f ++ (encodeBatchHeader b p ++ p) /\
     o = (zlen (f_bytes f), zlen (f_bytes f) ⊞ batchHeaderSize)) /\
  (f_faults f = [] -> exists o, r = Ok o).
Proof.
  unfold appendBatch, file_SeekEnd. intros H. destruct (next_fault f) as [x f1] eqn:Hf.
  destruct (next_fault_bytes _ _ _ Hf) as (Hb & _ & Hnf).
  destruct (match x with Fault _ _ => true | _ => false end) eqn:Hx.
  { destruct x; try done. injection H as <- <-. rewrite Hb. split_and!; [apply append_outcome_none|done|].
    intros Hfs. by destruct (Hnf Hfs). }
  set (f2 := mkFile (f_bytes f1) (zlen (f_bytes f1)) (f_faults f1) (f_durable f1)) in *.
  assert (match x with Fault _ e => (f1, Err e) | _ => (f2, Ok (zlen (f_bytes f1))) end =
          (f2, Ok (zlen (f_bytes f1)))) as E by (by destruct x). rewrite E in H. clear E.
  destruct (file_Write f2 _) as [f3 [n e]] eqn:Hw.
  destruct (file_Write_spec _ _ _ _ _ Hw eq_refl) as (k & Hb3 & Hp3 & _ & Hn3).
  pose proof (file_Write_full _ _ _ _ _ Hw eq_refl) as Hfull3. cbn [f_bytes f_faults f2] in *.
  rewrite Hb in *. set (hd := encodeBatchHeader b p) in *. rewrite (ztake_app_min k hd p) in Hb3.
  assert (f_faults f = [] -> f_faults f1 = []) as Hn1 by (intros Hfs; by apply Hnf).
  destruct e as [e|].
  { destruct (rollback_append _ _ _ _ _ _ _ H Hb3) as (? & [? ->]). split_and!; [done|done|].
    intros Hfs. by destruct (Hn3 (Hn1 Hfs)). }
  destruct (Z.eqb_spec n (zlen hd)) as [Hfull|Hshort]; cbn [negb] in H.
  2:{ destruct (rollback_append _ _ _ _ _ _ _ H Hb3) as (? & [? ->]). split_and!; [done|done|].
      intros Hfs. by destruct (Hn3 (Hn1 Hfs)) as (_ & ? & _). }
  specialize (Hfull3 Hfull). clear Hb3. destruct (Z.ltb_spec 0 (zlen p)) as [Hpos|Hnil].
  2:{ injection H as <- <-. assert (p = []) as Hp by (apply zlen_zero; pose proof (zlen_nonneg p); lia).
      rewrite Hp, app_nil_r in *. split_and!; [split; [|done]|intros o [= <-]; done|eauto].
      exists (zlen hd). by rewrite ztake_all by lia. }
  destruct (file_Write f3 p) as [f5 [n5 e5]] eqn:Hw5.
  destruct (file_Write_spec _ _ _ _ _ Hw5 Hp3) as (k5 & Hb5 & _ & _ & Hn5).
  pose proof (file_Write_full _ _ _ _ _ Hw5 Hp3) as Hfull5. rewrite Hfull3, <-app_assoc in Hb5, Hfull5.
  assert (hd ++ ztake k5 p = ztake (zlen hd + Z.max 0 k5) (hd ++ p)) as Htk5.
  { rewrite ztake_app_r by lia. f_equal. unfold ztake. f_equal. lia. }
  rewrite Htk5 in Hb5. destruct e5 as [e5|].
  { destruct (rollback_append _ _ _ _ _ _ _ H Hb5) as (? & [? ->]). split_and!; [done|done|].
    intros Hfs. by destruct (Hn5 (proj2 (proj2 (Hn3 (Hn1 Hfs))))). }
  destruct (Z.eqb_spec n5 (zlen p)) as [Hn|]; cbn [negb] in H.
  2:{ destruct (rollback_append _ _ _ _ _ _ _ H Hb5) as (? & [? ->]). split_and!; [done|done|].
      intros Hfs. by destruct (Hn5 (proj2 (proj2 (Hn3 (Hn1 Hfs))))) as (_ & ? & _). }
  injection H as <- <-. split_and!; [split; [by eexists|done]|intros o [= <-]; auto|eauto].
Qed.

(** ** Theorems *)

Lemma reading_exact f path xs rest :
  f_faults f = [] -> Forall logged_ok xs -> no_batch rest ->
  zdrop fileHeaderSize (f_bytes f) = encodeAll xs ++ rest ->
  (Replay (mkJournal (Some f) path)).2 =
  (mkReplayResult (locatedAll fileHeaderSize xs) (fileHeaderSize + zlen (encodeAll xs))
     (negb (zlen rest =? 0)), None).
Proof.
  intros Hf Hxs Hrest Hz. destruct (Replay _) as [j' [r e]] eqn:HR. cbn [snd].
  destruct (Replay_spec _ _ _ _ _ HR) as (_ & He & Hr). rewrite (He Hf) in *.
  destruct Hr as [(ys & rest' & Hys & Hz' & Hb & Hv & Hrest' & Ht)|[_ ?]]; [|done].
  rewrite Hz in Hz'. destruct (reading_unique xs ys rest rest' fileHeaderSize Hxs Hys Hrest Hrest' Hz') as (E1 & -> & E3).
  destruct r as [b v t]. cbn in Hb, Hv, Ht. by rewrite Hb, Hv, Ht, E1, E3.
Qed.

Lemma torn_no_batch x k : logged_ok x -> k < zlen (encodeLogged x) -> no_batch (ztake k (encodeLogged x)).
Proof.
  intros Hx Hk y tail Hy E.
  assert (encodeLogged x ++ [] = encodeLogged y ++ (tail ++ zdrop k (encodeLogged x))) as E2.
  { rewrite app_nil_r, app_assoc, <-E. symmetry. apply ztake_zdrop. }
  destruct (encodeBatch_prefix_free _ _ _ _ _ _ _ _ Hx Hy E2) as (_ & Et & _).
  assert (zlen (tail ++ zdrop k (encodeLogged x)) = 0) as Hz by (rewrite <-Et; done).
  rewrite zlen_app, zlen_zdrop in Hz. pose proof (zlen_nonneg tail). pose proof (logged_size x Hx). lia.
Qed.

(** C14. Replay finds exactly what was appended: when the bytes after the file
    header are the encodings of the batches [xs] followed by bytes at which no
    batch starts, and no file operation fails, [Replay] succeeds, reports those
    batches with the absolute offsets of their payloads, counts exactly their
    bytes as valid and sets [Truncated] iff bytes are left over. *)
Theorem Replay_complete f path xs rest :
  f_faults f = [] -> Forall logged_ok xs -> no_batch rest ->
  zdrop fileHeaderSize (f_bytes f) = encodeAll xs ++ rest ->
  (Replay (mkJournal (Some f) path)).2 =
  (mkReplayResult (locatedAll fileHeaderSize xs) (fileHeaderSize + zlen (encodeAll xs))
     (negb (zlen rest =? 0)), None).
Proof. apply reading_exact. Qed.

Definition ex_ops : list ReplaceOperation :=
  [mkReplaceOperation 0 2 (map z2b [104; 105]); mkReplaceOperation 5 0 []].
Definition ex_logged : logged := mkLogged 7 3 ex_ops.
Definition ex_fp : Fingerprint := mkFingerprint 10 (replicate 32 Byte.x01) (replicate 32 Byte.x02).

Lemma ex_logged_ok : logged_ok ex_logged.
Proof.
  unfold logged_ok. apply batchPayloadSize_spec with (n := 50); [|by vm_compute].
  unfold batch_typed. unfold_ints. cbn. split_and!; try lia. repeat constructor; simpl; lia.
Qed.

Lemma Replay_complete_witness :
  (Replay (mkJournal (Some (newFile (encodeFileHeader ex_fp ++ encodeLogged ex_logged ++ [Byte.x44]))) [])).2 =
  (mkReplayResult [mkBatch 7 3 [mkOperation 0 2 2 208; mkOperation 5 0 0 210]] 210 true, None).
Proof.
  apply (Replay_complete _ _ [ex_logged] [Byte.x44]);
    [reflexivity|constructor; [apply ex_logged_ok|constructor]| |vm_compute; reflexivity].
  intros x tail Hx E. pose proof (logged_size x Hx). apply (f_equal zlen) in E. rewrite zlen_app in E.
  pose proof (zlen_nonneg tail). change (zlen [Byte.x44]) with 1 in E. lia.
Defined.

(** C15. Whatever the file holds and whatever operations fail, [Replay] never
    changes the file and never reports a batch that is not there: its batches are
    the longest prefix of canonical batch encodings it got to read, with
    [ValidBytes] their end; a nil error means nothing that could be read was left
    out, an error means a file operation failed. *)
Theorem Replay_sound f path :
  let '(j', (r, e)) := Replay (mkJournal (Some f) path) in
  (exists f', j' = mkJournal (Some f') path /\ f_bytes f' = f_bytes f) /\
  (e <> None -> f_faults f <> []) /\
  (replay_reads (f_bytes f) fileHeaderSize [] r e \/ r = noReplay /\ e <> None).
Proof.
  destruct (Replay _) as [j' [r e]] eqn:HR.
  destruct (Replay_spec _ _ _ _ _ HR) as ((f' & Hf' & Hb & Hp) & He & Hr). split_and!; [|auto|done].
  exists f'. destruct j'; simpl in *. by subst.
Qed.

(** What [AppendBatch] guarantees about the file it leaves and the next replay. *)
Definition append_promise (f f' : file) (xs : list logged) (x : logged) (r : result BatchAppendResult) : Prop :=
  let replays ys t := forall path g, f_bytes g = f_bytes f' -> f_faults g = [] ->
    (Replay (mkJournal (Some g) path)).2 =
    (mkReplayResult (locatedAll fileHeaderSize ys) (fileHeaderSize + zlen (encodeAll ys)) t, None) in
  match r with
  | Ok res =>
    replays (xs ++ [x]) false /\ BatchOffset res = zlen (f_bytes f) /\ EndOffset res = zlen (f_bytes f') /\
    BatchEncodedSize (l_rev x) (l_group x) (l_ops x) = Ok (EndOffset res - BatchOffset res) /\
    locatedAll fileHeaderSize (xs ++ [x]) = locatedAll fileHeaderSize xs ++
      [locatedBatch (BatchOffset res) (l_rev x) (l_group x) (l_ops x)] /\
    PayloadOffsets res = map op_PayloadOffset (located (l_ops x)
                           (BatchOffset res + batchHeaderSize + batchRecordSize * zlen (l_ops x)))
  | Err e =>
    ((exists t, replays xs t) \/ replays (xs ++ [x]) false) /\
    (f_bytes f' = f_bytes f \/ exists cause t, e = errJoin cause t)
  end.

Lemma AppendBatch_unfold f path rev grp ops :
  batch_typed rev grp ops ->
  AppendBatch (mkJournal (Some f) path) rev grp ops =
  match batchPayloadSize rev grp ops with
  | Err e => (mkJournal (Some f) path, Err e)
  | Ok n =>
    let '(f', r) := appendBatch f (blank rev grp (length ops)) (payload_bytes ops) in
    (mkJournal (Some f') path,
     let? (batchOffset, payloadOffset) := r in
     Ok (mkBatchAppendResult batchOffset
           (map (fun relative => payloadOffset ⊞ relative) (relative_offsets ops (zlen ops * batchRecordSize)))
           (payloadOffset ⊞ n)))
  end.
Proof.
  intros Ht. unfold AppendBatch, encodeBatchPayload. cbn [j_file].
  destruct (batchPayloadSize rev grp ops) as [n|e] eqn:Hn; [|done]. cbn [res_bind].
  apply batchPayloadSize_spec in Hn as [_ ->]; [|done]. unfold blank.
  destruct (appendBatch _ _ _) as [f' r]. by rewrite zlen_payload_bytes.
Qed.

Lemma relative_wrap ops cursor base :
  0 <= base -> 0 <= cursor -> base + cursor + zlen (inserted ops) <= maxInt64 ->
  map (fun r => base ⊞ r) (relative_offsets ops cursor) = map (fun r => base + r) (relative_offsets ops cursor).
Proof.
  revert cursor. induction ops as [|o ops IH]; intros cursor Hb Hc Hle; [done|].
  rewrite inserted_cons, zlen_app in Hle.
  pose proof (zlen_nonneg (ro_Inserted o)). pose proof (zlen_nonneg (inserted ops)).
  cbn [relative_offsets map]. rewrite i64_id by go_lia. f_equal. apply IH; lia.
Qed.

Lemma batchPayloadSize_error rev grp ops e : batchPayloadSize rev grp ops = Err e -> e = recovery_ErrInvalidBatch.
Proof.
  unfold batchPayloadSize. destruct (_ || _); [congruence|]. generalize (zlen ops * batchRecordSize).
  induction ops as [|o ops IH]; intros t; cbn [payload_total]; [done|].
  destruct (_ || _); [congruence|apply IH].
Qed.

Lemma append_replays data xs x k path g :
  fileHeaderSize <= zlen data -> zdrop fileHeaderSize data = encodeAll xs -> Forall logged_ok xs -> logged_ok x ->
  f_faults g = [] -> f_bytes g = data ++ ztake k (encodeLogged x) ->
  (Replay (mkJournal (Some g) path)).2 =
  if zlen (encodeLogged x) <=? k
  then (mkReplayResult (locatedAll fileHeaderSize (xs ++ [x])) (fileHeaderSize + zlen (encodeAll (xs ++ [x]))) false, None)
  else (mkReplayResult (locatedAll fileHeaderSize xs) (fileHeaderSize + zlen (encodeAll xs)) (negb (k <=? 0)), None).
Proof.
  intros Hlen Hz Hxs Hx Hf Hb. pose proof (logged_size x Hx).
  destruct (Z.leb_spec (zlen (encodeLogged x)) k) as [Hk|Hk].
  - rewrite (reading_exact g path (xs ++ [x]) []); [done|done| |apply no_batch_nil|].
    + apply Forall_app; auto.
    + rewrite Hb, zdrop_app_l, Hz, ztake_all, encodeAll_app, app_nil_r by lia. f_equal.
      unfold encodeAll. cbn [map concat]. by rewrite app_nil_r.
  - rewrite (reading_exact g path xs (ztake k (encodeLogged x))); [|done..|by apply torn_no_batch|].
    + do 3 f_equal. rewrite zlen_ztake. destruct (Z.leb_spec k 0); apply Z.eqb_eq || apply Z.eqb_neq; lia.
    + by rewrite Hb, zdrop_app_l, Hz by lia.
Qed.

(** C13. An append is atomic under every failure: on a journal that ends with its
    last batch, [AppendBatch] of a valid batch leaves a file from which the next
    replay reads either the old batches or the old batches and the whole new one,
    never part of it; on success it is the latter, with the offsets the replay
    will report and exactly [BatchEncodedSize] bytes more; on an error the file
    is unchanged unless the truncation of the rollback failed too.  Without a
    failing file operation it succeeds, and an invalid batch is refused before
    the file is touched. *)
Theorem AppendBatch_atomic f path xs x :
  fileHeaderSize <= zlen (f_bytes f) -> zdrop fileHeaderSize (f_bytes f) = encodeAll xs -> Forall logged_ok xs ->
  batch_typed (l_rev x) (l_group x) (l_ops x) ->
  zlen (f_bytes f) + batchHeaderSize + maximumBatchPayload <= maxInt64 ->
  let '(j', r) := AppendBatch (mkJournal (Some f) path) (l_rev x) (l_group x) (l_ops x) in
  exists f', j' = mkJournal (Some f') path /\
    (logged_ok x -> append_promise f f' xs x r /\ (f_faults f = [] -> exists res, r = Ok res)) /\
    (~ logged_ok x -> f' = f /\ r = Err recovery_ErrInvalidBatch).
Proof.
  intros Hlen Hz Hxs Ht Hsize. rewrite AppendBatch_unfold by done.
  destruct (batchPayloadSize _ _ _) as [n|e] eqn:Hn.
  2:{ exists f. split_and!; [done| |by rewrite (batchPayloadSize_error _ _ _ _ Hn)]. intros Hx.
      rewrite (proj2 (batchPayloadSize_spec _ _ _ _ Ht) (conj Hx eq_refl)) in Hn. done. }
  pose proof (proj1 (batchPayloadSize_spec _ _ _ _ Ht) Hn) as [Hx Hneq].
  pose proof (zlen_encodeBatch (l_rev x) (l_group x) (l_ops x)) as Henc. fold (encodeLogged x) in Henc.
  pose proof (bo_size _ _ _ Hx). pose proof (bo_count _ _ _ Hx). pose proof (zlen_nonneg (inserted (l_ops x))).
  unfold batchHeaderSize, batchRecordSize, maximumBatchPayload, fileHeaderSize in *.
  destruct (appendBatch _ _ _) as [f' r] eqn:Ha.
  destruct (appendBatch_spec _ _ _ _ _ Ha) as ([[k Hk] Herr] & Hok & Hnf).
  change (encodeBatchHeader _ _ ++ _) with (encodeLogged x) in *.
  exists f'. split; [done|]. split; [intros _|done]. destruct r as [o|e]; cbn [res_bind].
  - destruct (Hok o eq_refl) as [Hb ->]. unfold batchHeaderSize. rewrite (i64_id (zlen (f_bytes f) + 64)) by go_lia.
    split; [|eauto]. unfold append_promise. cbn [BatchOffset EndOffset PayloadOffsets].
    unfold batchHeaderSize, batchRecordSize. rewrite i64_id by go_lia.
    assert (96 + zlen (encodeAll xs) = zlen (f_bytes f)) as Hoff by (rewrite <-Hz, zlen_zdrop; lia).
    split_and!; [|done|rewrite Hb, zlen_app; lia| | |].
    + intros p g Hg Hgf. rewrite (append_replays (f_bytes f) xs x (zlen (encodeLogged x)) p g Hlen Hz Hxs Hx Hgf).
      * by rewrite Z.leb_refl.
      * by rewrite Hg, Hb, ztake_all.
    + unfold BatchEncodedSize. rewrite Hn. cbn [res_bind]. f_equal. unfold batchHeaderSize. lia.
    + rewrite locatedAll_app. cbn [locatedAll]. unfold fileHeaderSize. by rewrite Hoff.
    + rewrite relative_wrap by lia. rewrite located_offsets. do 2 f_equal. lia.
  - split; [|intros Hfs; by destruct (Hnf Hfs)]. unfold append_promise. split; [|by apply Herr].
    destruct (Z.leb_spec (zlen (encodeLogged x)) k) as [Hle|Hgt]; [right|left; exists (negb (k <=? 0))];
      intros p g Hg Hgf; rewrite (append_replays (f_bytes f) xs x k p g Hlen Hz Hxs Hx Hgf) by (by rewrite Hg);
      by rewrite ?(proj2 (Z.leb_le _ _) Hle), ?(proj2 (Z.leb_gt _ _) Hgt).
Qed.

Lemma AppendBatch_atomic_witness :
  let f := mkFile (encodeFileHeader ex_fp ++ encodeAll [ex_logged]) 0
             [NoFault; NoFault; Fault 10 (errOS 28); Fault 0 (errOS 5)] None in
  let '(j', r) := AppendBatch (mkJournal (Some f) []) 7 3 ex_ops in
  exists f', j' = mkJournal (Some f') [] /\
    (logged_ok ex_logged -> append_promise f f' [ex_logged] ex_logged r /\ (f_faults f = [] -> exists res, r = Ok res)) /\
    (~ logged_ok ex_logged -> f' = f /\ r = Err recovery_ErrInvalidBatch).
Proof.
  apply (AppendBatch_atomic _ [] [ex_logged] ex_logged).
  - vm_compute. discriminate.
  - vm_compute. reflexivity.
  - constructor; [apply ex_logged_ok|constructor].
  - apply batch_ok_typed, ex_logged_ok.
  - vm_compute. discriminate.
Defined.

(** ** Reading payloads back *)

Lemma locatedAll_data data off xs rest :
  0 <= off -> zdrop off data = encodeAll xs ++ rest ->
  map (fun b => map (fun o => slice (op_PayloadOffset o) (op_InsertLength o) data) (b_Operations b)) (locatedAll off xs)
  = map (fun x => map ro_Inserted (l_ops x)) xs /\
  Forall (fun b => Forall (fun o => off <= op_PayloadOffset o /\ 0 <= op_InsertLength o /\
    op_PayloadOffset o + op_InsertLength o <= off + zlen (encodeAll xs)) (b_Operations b)) (locatedAll off xs).
Proof.
  revert off. induction xs as [|x xs IH]; intros off Hoff Hz; [split; [done|constructor]|].
  unfold encodeAll in *. cbn [map concat locatedAll] in *. rewrite <-app_assoc in Hz.
  set (enc := encodeLogged x) in *. pose proof (zlen_nonneg enc).
  destruct (IH (off + zlen enc)) as [IH1 IH2]; [lia|rewrite <-zdrop_zdrop, Hz, zdrop_app by (done || lia); done|].
  cbn [b_Operations locatedBatch]. rewrite zlen_app.
  assert (zlen enc = 64 + (24 * zlen (l_ops x) + zlen (inserted (l_ops x)))) as Henc
    by (unfold enc, encodeLogged; rewrite zlen_encodeBatch; unfold batchHeaderSize, batchRecordSize; lia).
  pose proof (zlen_nonneg (l_ops x)). pose proof (zlen_nonneg (inserted (l_ops x))).
  pose proof (zlen_nonneg (concat (map encodeLogged xs))).
  unfold batchHeaderSize, batchRecordSize in *. split.
  - f_equal; [|done]. apply located_data; [lia|].
    replace (off + 64 + 24 * zlen (l_ops x)) with
      (off + zlen (encodeBatchHeader (blank (l_rev x) (l_group x) (length (l_ops x))) (payload_bytes (l_ops x)) ++
                   concat (map encodeRecord (l_ops x))))
      by (rewrite zlen_app, zlen_encodeBatchHeader, zlen_records; unfold batchRecordSize; lia).
    apply (slice_at _ _ _ (concat (map encodeLogged xs) ++ rest)); [lia| |done].
    rewrite Hz. unfold enc, encodeLogged, encodeBatch, payload_bytes, inserted. by rewrite <-!app_assoc.
  - constructor; [|eapply Forall_impl; [|exact IH2]; intros b Hb; eapply Forall_impl; [|exact Hb]; simpl; lia].
    apply Forall_forall. intros o Ho. apply located_bounds in Ho.
    unfold batchHeaderSize, batchRecordSize in Ho. lia.
Qed.

Lemma ReadAt_slice f path off n :
  f_faults f = [] -> 0 <= off -> (ReadAt (mkJournal (Some f) path) n off).2.1 = slice off n (f_bytes f).
Proof.
  intros Hf Hoff. unfold ReadAt, file_ReadAt, next_fault. cbn [j_file]. rewrite Hf. cbn [snd].
  unfold bytes_NewReader. rewrite (proj2 (Z.ltb_ge off 0)) by lia.
  destruct (Z.leb_spec (zlen (f_bytes f)) off); [|done]. cbn [fst snd]. unfold slice.
  rewrite zdrop_all by lia. symmetry. apply take_nil.
Qed.

(** Every operation a replay reports lies inside the valid part of the file,
    and reading its [InsertLength] bytes at its [PayloadOffset] through the
    journal gives back exactly the bytes that were passed to [AppendBatch]. *)
Theorem replayed_payloads f path :
  let '(_, (r, e)) := Replay (mkJournal (Some f) path) in
  exists xs, Forall logged_ok xs /\ rr_Batches r = locatedAll fileHeaderSize xs /\
    map (fun b => map (fun o =>
           (ReadAt (mkJournal (Some (newFile (f_bytes f))) path) (op_InsertLength o) (op_PayloadOffset o)).2.1) (b_Operations b))
        (rr_Batches r) = map (fun x => map ro_Inserted (l_ops x)) xs /\
    Forall (fun b => Forall (fun o => fileHeaderSize <= op_PayloadOffset o /\ 0 <= op_InsertLength o /\
      op_PayloadOffset o + op_InsertLength o <= rr_ValidBytes r) (b_Operations b)) (rr_Batches r).
Proof.
  destruct (Replay _) as [j' [r e]] eqn:HR.
  destruct (Replay_spec _ _ _ _ _ HR) as (_ & _ & [(xs & rest & Hxs & Hz & Hb & Hv & _)|[-> _]]).
  2:{ exists []. split_and!; [constructor|done|done|constructor]. }
  exists xs. cbn [app] in Hb. rewrite Hb, Hv.
  destruct (locatedAll_data _ fileHeaderSize _ _ ltac:(done) Hz) as [Hd Hbounds].
  split_and!; [done|done| |done]. rewrite <-Hd. apply map_ext_in. intros b Hin. apply map_ext_in. intros o Ho.
  apply (ReadAt_slice (newFile (f_bytes f))); [done|].
  rewrite Forall_forall in Hbounds. specialize (Hbounds b Hin).
  rewrite Forall_forall in Hbounds. specialize (Hbounds o Ho).
  unfold fileHeaderSize in *. simpl in Hbounds. lia.
Qed.

(** ** The file header *)

Definition fingerprint_ok (fp : Fingerprint) : Prop :=
  0 <= BaseSize fp <= maxInt64 /\ length (PathHash fp) = 32%nat /\ length (ContentHash fp) = 32%nat.

Definition fileHeader_layout : list Z := [8; 4; 4; 8; 32; 32; 4; 4].

Definition all_fields (fp : Fingerprint) : list (list byte) :=
  header_fields fp ++ [PutUint32 (crc32_Checksum (concat (header_fields fp)))].

Lemma fileHeader_lengths fp : fingerprint_ok fp -> map zlen (all_fields fp) = fileHeader_layout.
Proof. intros (_ & H1 & H2). unfold all_fields, header_fields. cbn [map app]. unfold zlen. rewrite H1, H2. reflexivity. Qed.

Lemma encodeFileHeader_fields fp : encodeFileHeader fp = concat (all_fields fp).
Proof. unfold encodeFileHeader, all_fields. rewrite concat_app. cbn [concat]. by rewrite app_nil_r. Qed.

Lemma encodeFileHeader_slices fp :
  fingerprint_ok fp -> slices fileHeader_layout 0 (encodeFileHeader fp) = all_fields fp.
Proof.
  intros Hfp. rewrite <-(fileHeader_lengths fp Hfp), encodeFileHeader_fields.
  pose proof (slices_concat (all_fields fp) [] [] 0 eq_refl) as H. by rewrite app_nil_l, app_nil_r in H.
Qed.

Lemma zlen_concat {A} (fs : list (list A)) : zlen (concat fs) = foldr Z.add 0 (map zlen fs).
Proof. induction fs as [|x fs IH]; [done|]. cbn [concat map foldr]. by rewrite zlen_app, IH. Qed.

Lemma zlen_encodeFileHeader fp : fingerprint_ok fp -> zlen (encodeFileHeader fp) = 96.
Proof. intros Hfp. by rewrite encodeFileHeader_fields, zlen_concat, fileHeader_lengths. Qed.

Lemma zlen_header_fields fp : fingerprint_ok fp -> zlen (concat (header_fields fp)) = 92.
Proof.
  intros Hfp. pose proof (zlen_encodeFileHeader fp Hfp) as H. unfold encodeFileHeader in H.
  rewrite zlen_app in H. change (zlen (PutUint32 _)) with 4 in H. lia.
Qed.

Lemma checksum_range p : 0 <= crc32_Checksum p < 2 ^ 32.
Proof. apply crc32_Update_range. lia. Qed.

Lemma decode_encodeFileHeader fp : fingerprint_ok fp -> decodeFileHeader (encodeFileHeader fp) = Ok fp.
Proof.
  intros Hfp. pose proof (encodeFileHeader_slices fp Hfp) as H.
  assert (slice 0 92 (encodeFileHeader fp) = concat (header_fields fp)) as H92.
  { unfold encodeFileHeader. rewrite slice_0. apply ztake_app. by rewrite zlen_header_fields. }
  revert H H92. generalize (encodeFileHeader fp) as h. intros h H H92.
  unfold decodeFileHeader. rewrite H92. clear H92. unfold all_fields in H.
  pose proof (checksum_range (concat (header_fields fp))) as Hcrc. revert H Hcrc.
  generalize (crc32_Checksum (concat (header_fields fp))) as crc. intros crc H Hcrc.
  unfold fileHeader_layout, header_fields in H. cbn [slices app] in H. z_fold_in H.
  injection H as F0 F1 F2 F3 F4 F5 F6 F7. destruct Hfp as (Hsize & _).
  rewrite F0, F1, F2, F3, F4, F5, F6, F7. unfold PutUint32, PutUint64.
  rewrite bool_decide_eq_true_2 by done. rewrite (u64_id (BaseSize fp)) by go_lia.
  rewrite (le_get_put_small 8 (BaseSize fp)), (le_get_put_small 4 crc), (le_get_put_small 4 journalVersion),
    (le_get_put_small 4 fileHeaderSize), (le_get_put_small 4 0) by (unfold journalVersion, fileHeaderSize; simpl; go_lia).
  rewrite !Z.eqb_refl. cbn [negb orb BaseSize]. rewrite i64_id by go_lia.
  rewrite (proj2 (Z.ltb_ge (BaseSize fp) 0)) by lia. by destruct fp.
Qed.

Lemma decodeFileHeader_inv h fp :
  zlen h = 96 -> decodeFileHeader h = Ok fp -> fingerprint_ok fp /\ h = encodeFileHeader fp.
Proof.
  intros Hlen. unfold decodeFileHeader.
  destruct (_ || _) eqn:G1; [done|]. destruct (_ || _) eqn:G2 in |- *; [done|]. cbn [BaseSize].
  destruct (i64 _ <? 0) eqn:G3; [done|]. intros [= <-]. guard_in G1. guard_in G2. guard_in G3.
  destruct G1 as ((F0 & F1) & F2), G2 as [F6 F7]. unfold journalVersion, fileHeaderSize in *.
  set (size := le_get (slice 16 8 h)) in *.
  assert (0 <= size <= maxUint64) as Hs.
  { pose proof (le_get_range (slice 16 8 h) : 0 <= size < _) as Hr. rewrite zlen_slice in Hr by lia. go_lia. }
  pose proof (i64_range size) as Hir.
  assert (u64 (i64 size) = size) as Hu.
  { unfold u64, i64. unfold_ints. rewrite Zminus_mod_idemp_l. rewrite Z.add_simpl_r. apply Z.mod_small. lia. }
  assert (forall off, 0 <= off <= 64 -> length (slice off 32 h) = 32%nat) as H32.
  { intros off ?. enough (zlen (slice off 32 h) = 32) by (unfold zlen in *; lia). apply zlen_slice; lia. }
  split; [split_and!; cbn; go_lia || (apply H32; lia)|].
  set (fp := mkFingerprint _ _ _).
  assert (concat (header_fields fp) = slice 0 92 h) as H92.
  { pose proof (concat_slices [8; 4; 4; 8; 32; 32; 4] 0 h ltac:(lia) ltac:(repeat constructor; lia)) as Hc.
    cbn [slices foldr] in Hc. z_fold_in Hc. change (8 + (4 + (4 + (8 + (32 + (32 + (4 + 0))))))) with 92 in Hc.
    rewrite <-Hc. unfold header_fields. cbn [fp BaseSize PathHash ContentHash]. rewrite Hu, F0.
    unfold PutUint32, PutUint64, journalVersion, fileHeaderSize.
    by rewrite (le_get_slice 4 4 8 h _ eq_refl ltac:(lia) ltac:(lia) F1), (le_get_slice 4 4 12 h _ eq_refl ltac:(lia) ltac:(lia) F2),
      (le_get_slice 8 8 16 h size eq_refl ltac:(lia) ltac:(lia) eq_refl), (le_get_slice 4 4 88 h _ eq_refl ltac:(lia) ltac:(lia) F6). }
  unfold encodeFileHeader. rewrite H92. unfold PutUint32.
  rewrite <-(le_get_slice 4 4 92 h _ eq_refl ltac:(lia) ltac:(lia) F7).
  change 92 with (0 + 92) at 2. rewrite <-slice_split by lia. rewrite <-Hlen at 1. symmetry. apply slice_all.
Qed.

(** The file header is a canonical encoding: 96 bytes decode to a fingerprint
    exactly when they are the header [writeFileHeader] writes for it, so a
    journal is bound to one base size, path hash and content hash. *)
Theorem fileHeader_canonical h fp :
  zlen h = fileHeaderSize /\ decodeFileHeader h = Ok fp <-> fingerprint_ok fp /\ h = encodeFileHeader fp.
Proof.
  split.
  - intros [Hlen Hd]. by apply decodeFileHeader_inv.
  - intros [Hfp ->]. split; [by apply zlen_encodeFileHeader|by apply decode_encodeFileHeader].
Qed.

(** ** Opening, repairing and resetting *)

Lemma writeFileHeader_spec f fp f' e :
  writeFileHeader f fp = (f', e) -> f_bytes f = [] ->
  (e = None -> f_bytes f' = encodeFileHeader fp) /\ (f_faults f = [] -> e = None /\ f_faults f' = []).
Proof.
  unfold writeFileHeader, file_WriteAt, file_Sync. intros H Hb.
  destruct (next_fault f) as [x f1] eqn:Hf. destruct (next_fault_bytes _ _ _ Hf) as (Hb1 & _ & Hnf).
  rewrite Hb1, Hb in H. destruct x; cbv beta iota zeta in H.
  - destruct (next_fault (mkFile _ _ _ _)) as [y f2] eqn:Hf2. destruct (next_fault_bytes _ _ _ Hf2) as (Hb2 & _ & Hnf2).
    cbn [f_bytes f_faults] in *. rewrite write_at_empty in Hb2. split.
    + intros ->. by destruct y; injection H as <-.
    + intros Hfs. destruct (Hnf2 (proj2 (Hnf Hfs))) as [-> Hf2']. by injection H as <- <-.
  - injection H as <- <-. split; [done|]. intros Hfs. by destruct (Hnf Hfs).
  - destruct (next_fault (mkFile _ _ _ _)) as [y f2] eqn:Hf2. destruct (next_fault_bytes _ _ _ Hf2) as (Hb2 & _ & Hnf2).
    cbn [f_bytes f_faults] in *. rewrite write_at_empty in Hb2. split.
    + intros ->. by destruct y; injection H as <-.
    + intros Hfs. by destruct (Hnf Hfs).
Qed.

Lemma readFileHeader_spec f f' r :
  readFileHeader f = (f', r) -> f_bytes f' = f_bytes f /\ (f_faults f = [] -> f_faults f' = []) /\
  (forall fp, r = Ok fp -> fingerprint_ok fp /\ ztake fileHeaderSize (f_bytes f) = encodeFileHeader fp) /\
  (f_faults f = [] -> forall fp, fingerprint_ok fp ->
     ztake fileHeaderSize (f_bytes f) = encodeFileHeader fp -> r = Ok fp).
Proof.
  unfold readFileHeader, file_ReadAt. intros H.
  destruct (next_fault f) as [x f1] eqn:Hf. destruct (next_fault_bytes _ _ _ Hf) as (Hb1 & _ & Hnf).
  assert (x <> NoFault -> f_faults f = [] -> False) as Hx by (intros ? Hfs; by destruct (Hnf Hfs)).
  destruct (match x with Fault _ _ => true | _ => false end) eqn:Hxb.
  { destruct x; try done. injection H as <- <-. split_and!; [done|by intros ?%Hx|done|by intros ?%Hx]. }
  assert (readFileHeader f = (f1, match bytes_NewReader (f_bytes f) 0 fileHeaderSize with
            | (_, Some e) => Err e | (header, None) => decodeFileHeader header end)) as E.
  { unfold readFileHeader, file_ReadAt. rewrite Hf, Hb1. destruct x; try done;
      by destruct (bytes_NewReader (f_bytes f) 0 fileHeaderSize) as [? []]. }
  unfold readFileHeader, file_ReadAt in E. rewrite Hf in E. rewrite E in H. injection H as <- <-.
  split_and!; [done|intros Hfs; by apply Hnf| |].
  - intros fp. unfold bytes_NewReader, fileHeaderSize. change (0 <? 0) with false. cbv iota.
    destruct (zlen (f_bytes f) <=? 0); [done|].
    destruct (Z.ltb_spec (zlen (slice 0 96 (f_bytes f))) 96) as [|Hge]; [done|].
    rewrite slice_0 in *. intros Hd. apply decodeFileHeader_inv in Hd; [done|]. rewrite zlen_ztake in *. lia.
  - intros Hfs fp Hfp Hz. pose proof (zlen_encodeFileHeader fp Hfp) as Hl. rewrite <-Hz, zlen_ztake in Hl.
    unfold fileHeaderSize in *. unfold bytes_NewReader. change (0 <? 0) with false. cbv iota.
    rewrite (proj2 (Z.leb_gt (zlen (f_bytes f)) 0)), slice_0, zlen_ztake by lia.
    rewrite (proj2 (Z.ltb_ge _ 96)) by lia. rewrite Hz. by apply decode_encodeFileHeader.
Qed.

(** What an open guarantees: a journal that holds bytes is never written, a
    journal is returned only when its header is the one of [fp], with the replay
    of its batches. *)
Definition open_promise (f : file) (path : list byte) (fp : Fingerprint)
  (g : option file) (r : result (Journal * ReplayResult)) : Prop :=
  exists f', g = Some f' /\ (f_bytes f <> [] -> f_bytes f' = f_bytes f) /\
    (forall j rep, r = Ok (j, rep) -> j = mkJournal (Some f') path /\
       ztake fileHeaderSize (f_bytes f') = encodeFileHeader fp /\
       replay_reads (f_bytes f') fileHeaderSize [] rep None).

Lemma open_promise_closed f1 f path fp g e e' r :
  file_Close f1 = (g, e) -> (f_bytes f <> [] -> f_bytes f1 = f_bytes f) -> r = Err e' ->
  open_promise f path fp (Some g) r.
Proof. intros Hc%file_Close_spec Hf ->. exists g. rewrite Hc. split_and!; done. Qed.

Lemma fresh_replay fp path f :
  fingerprint_ok fp -> f_bytes f = encodeFileHeader fp ->
  open_promise (newFile []) path fp (Some f) (Ok (mkJournal (Some f) path, mkReplayResult [] fileHeaderSize false)).
Proof.
  intros Hfp Hb. exists f. split_and!; [done|done|]. intros j rep [= <- <-]. rewrite Hb.
  split_and!; [done|apply ztake_all; by rewrite zlen_encodeFileHeader|]. apply replay_reads_stop; [done..|].
  by rewrite zlen_encodeFileHeader.
Qed.

Lemma openJournal_existing f path fp :
  fingerprint_ok fp -> f_bytes f <> [] ->
  let '(g, r) := openJournal path fp None (Ok f) in
  open_promise f path fp g r /\
  (f_faults f = [] -> (exists jr, r = Ok jr) <-> ztake fileHeaderSize (f_bytes f) = encodeFileHeader fp).
Proof.
  intros Hfp Hne. unfold openJournal. rewrite (proj2 (Z.ltb_ge (BaseSize fp) 0)) by apply Hfp.
  destruct (file_Stat f) as [f1 info] eqn:Hs. destruct (file_Stat_spec _ _ _ Hs) as (Hb1 & Hsz & Hnf1).
  destruct info as [size|e].
  2:{ destruct (file_Close f1) as [f2 e2] eqn:Hc. split; [by eapply open_promise_closed|].
      intros Hfs. by destruct (Hnf1 Hfs). }
  rewrite (Hsz _ eq_refl). rewrite (proj2 (Z.eqb_neq (zlen (f_bytes f)) 0)) by (by intros ?%zlen_zero).
  destruct (readFileHeader f1) as [f2 stored] eqn:Hr.
  destruct (readFileHeader_spec _ _ _ Hr) as (Hb2 & Hnf2 & Hok & Hacc). rewrite Hb1 in *.
  assert (f_faults f = [] -> f_faults f1 = []) as Hf1 by (intros Hfs; by apply Hnf1).
  destruct stored as [stored|e].
  2:{ destruct (file_Close f2) as [f3 e3] eqn:Hc. split; [by eapply open_promise_closed|].
      intros Hfs. split; [by intros []|]. intros Hz. by specialize (Hacc (Hf1 Hfs) fp Hfp Hz). }
  destruct (Hok stored eq_refl) as [Hst Hhd]. case_bool_decide as Heq; cbn [negb].
  2:{ destruct (file_Close f2) as [f3 e3] eqn:Hc. split; [by eapply open_promise_closed|].
      intros Hfs. split; [by intros []|]. intros Hz. specialize (Hacc (Hf1 Hfs) fp Hfp Hz). by injection Hacc. }
  subst stored. destruct (Replay _) as [j [rep e]] eqn:HR.
  destruct (Replay_spec _ _ _ _ _ HR) as ((f3 & Hj & Hb3 & Hp) & Hen & Hrep). rewrite Hb2 in *. rewrite Hj.
  destruct e as [e|].
  - destruct (file_Close f3) as [f4 e4] eqn:Hc. split; [eapply open_promise_closed; [done|by rewrite Hb3|done]|].
    intros Hfs. by specialize (Hen (Hnf2 (Hf1 Hfs))).
  - split; [|intros _; split; [done|eauto]]. exists f3. split_and!; [done|by rewrite Hb3|].
    intros j' rep' [= <- <-]. rewrite Hb3. split_and!; [destruct j; simpl in *; by subst|done|].
    by destruct Hrep as [?|[_ ?]].
Qed.

Lemma openJournal_fresh f path fp :
  fingerprint_ok fp -> f_bytes f = [] ->
  let '(g, r) := openJournal path fp None (Ok f) in
  open_promise f path fp g r /\ (f_faults f = [] -> exists jr, r = Ok jr).
Proof.
  intros Hfp Hnil. unfold openJournal. rewrite (proj2 (Z.ltb_ge (BaseSize fp) 0)) by apply Hfp.
  destruct (file_Stat f) as [f1 info] eqn:Hs. destruct (file_Stat_spec _ _ _ Hs) as (Hb1 & Hsz & Hnf1).
  destruct info as [size|e].
  2:{ destruct (file_Close f1) as [f2 e2] eqn:Hc. split; [by eapply open_promise_closed|].
      intros Hfs. by destruct (Hnf1 Hfs). }
  rewrite (Hsz _ eq_refl), Hnil. cbn [Z.eqb zlen length Z.of_nat].
  destruct (writeFileHeader f1 fp) as [f2 e] eqn:Hw.
  destruct (writeFileHeader_spec _ _ _ _ Hw) as [Hok Hnf2]; [congruence|]. destruct e as [e|].
  - destruct (file_Close f2) as [f3 e3] eqn:Hc. split; [by eapply open_promise_closed|].
    intros Hfs. by destruct (Hnf2 (proj2 (Hnf1 Hfs))).
  - destruct (fresh_replay fp path f2 Hfp (Hok eq_refl)) as (f' & Hg & _ & Hr).
    split; [|eauto]. exists f'. split_and!; done.
Qed.

(** Opening binds a journal to its base: whatever operations fail, [Open]
    never changes a journal file that holds bytes and returns a journal only when
    the file starts with the header of exactly the given fingerprint, with the
    replay of its batches; without failures it accepts an empty file (which it
    initialises) and a file with that header, and nothing else. *)
Theorem openJournal_correct f path fp :
  fingerprint_ok fp ->
  let '(g, r) := openJournal path fp None (Ok f) in
  open_promise f path fp g r /\
  (f_faults f = [] -> (exists jr, r = Ok jr) <->
     f_bytes f = [] \/ ztake fileHeaderSize (f_bytes f) = encodeFileHeader fp).
Proof.
  intros Hfp. destruct (decide (f_bytes f = [])) as [Hnil|Hne].
  - pose proof (openJournal_fresh f path fp Hfp Hnil) as H. destruct (openJournal _ _ _ _) as [g r].
    destruct H as [H1 H2]. split; [done|]. intros Hfs. split; auto.
  - pose proof (openJournal_existing f path fp Hfp Hne) as H. destruct (openJournal _ _ _ _) as [g r].
    destruct H as [H1 H2]. split; [done|]. intros Hfs. rewrite (H2 Hfs). naive_solver.
Qed.

Lemma ex_fp_ok : fingerprint_ok ex_fp.
Proof. unfold fingerprint_ok. cbn. unfold_ints. split_and!; [lia|lia|reflexivity|reflexivity]. Qed.

Lemma openJournal_correct_witness :
  let f := newFile (encodeFileHeader ex_fp ++ encodeAll [ex_logged]) in
  let '(g, r) := openJournal [] ex_fp None (Ok f) in
  open_promise f [] ex_fp g r /\
  (f_faults f = [] -> (exists jr, r = Ok jr) <->
     f_bytes f = [] \/ ztake fileHeaderSize (f_bytes f) = encodeFileHeader ex_fp).
Proof. apply openJournal_correct. exact ex_fp_ok. Defined.

(** Repair keeps what replay accepted and makes the journal appendable:
    truncating at the reported [ValidBytes] succeeds, the next replay reports
    the same batches with nothing truncated, and the file then ends with its last
    batch. *)
Theorem RepairTail_correct f path :
  f_faults f = [] -> fileHeaderSize <= zlen (f_bytes f) ->
  let '(_, (r, _)) := Replay (mkJournal (Some f) path) in
  let '(j, e) := RepairTail (mkJournal (Some f) path) (rr_ValidBytes r) in
  e = None /\ (Replay j).2 = (mkReplayResult (rr_Batches r) (rr_ValidBytes r) false, None) /\
  (Size j).2 = Ok (rr_ValidBytes r) /\
  exists f' xs, j = mkJournal (Some f') path /\ ztake fileHeaderSize (f_bytes f') = ztake fileHeaderSize (f_bytes f) /\
    Forall logged_ok xs /\ zdrop fileHeaderSize (f_bytes f') = encodeAll xs.
Proof.
  intros Hf Hlen. destruct (Replay _) as [j0 [r e0]] eqn:HR.
  destruct (Replay_spec _ _ _ _ _ HR) as (_ & He & Hr). rewrite (He Hf) in *.
  destruct Hr as [(xs & rest & Hxs & Hz & Hb & Hv & Hrest & Ht)|[_ ?]]; [|done].
  pose proof (zlen_nonneg (encodeAll xs)). pose proof (zlen_nonneg rest).
  assert (zlen (f_bytes f) = 96 + zlen (encodeAll xs) + zlen rest) as Hl.
  { apply (f_equal zlen) in Hz. rewrite zlen_zdrop, zlen_app in Hz. unfold fileHeaderSize in *. lia. }
  unfold RepairTail. cbn [j_file]. rewrite Hv. unfold fileHeaderSize in *.
  rewrite (proj2 (Z.ltb_ge _ 96)) by lia. rewrite file_Truncate_ok by first [done|lia].
  set (f' := mkFile _ _ _ _). change (with_file _ f') with (mkJournal (Some f') path).
  assert (zdrop 96 (f_bytes f') = encodeAll xs) as Hz'.
  { cbn [f' f_bytes]. rewrite zdrop_ztake, Hz by lia. apply ztake_app. lia. }
  split_and!; [done| | |].
  - rewrite (reading_exact f' path xs []); [|done|done|apply no_batch_nil|by unfold fileHeaderSize; rewrite Hz', app_nil_r].
    cbn [zlen length Z.of_nat Z.eqb negb]. by rewrite Hb.
  - change (Ok (zlen (ztake (96 + zlen (encodeAll xs)) (f_bytes f))) = Ok (96 + zlen (encodeAll xs))).
    rewrite zlen_ztake. f_equal. lia.
  - exists f', xs. split_and!; [done| |done|done]. cbn [f' f_bytes]. rewrite ztake_ztake. f_equal. lia.
Qed.

Lemma RepairTail_correct_witness :
  let f := newFile (encodeFileHeader ex_fp ++ encodeAll [ex_logged] ++ ztake 70 (encodeLogged ex_logged)) in
  let '(_, (r, _)) := Replay (mkJournal (Some f) []) in
  let '(j, e) := RepairTail (mkJournal (Some f) []) (rr_ValidBytes r) in
  e = None /\ (Replay j).2 = (mkReplayResult (rr_Batches r) (rr_ValidBytes r) false, None) /\
  (Size j).2 = Ok (rr_ValidBytes r) /\
  exists f' xs, j = mkJournal (Some f') [] /\ ztake fileHeaderSize (f_bytes f') = ztake fileHeaderSize (f_bytes f) /\
    Forall logged_ok xs /\ zdrop fileHeaderSize (f_bytes f') = encodeAll xs.
Proof. apply (RepairTail_correct _ []); [reflexivity|vm_compute; discriminate]. Defined.

(** [Reset] leaves exactly the header of the new fingerprint. *)
Lemma Reset_spec f path fp j e :
  Reset (mkJournal (Some f) path) fp = (j, e) -> 0 <= BaseSize fp ->
  exists f', j = mkJournal (Some f') path /\ (e = None -> f_bytes f' = encodeFileHeader fp) /\
    (f_faults f = [] -> e = None).
Proof.
  unfold Reset, file_Truncate, file_SeekStart, with_file. cbn [j_file j_path]. intros H Hs.
  rewrite (proj2 (Z.ltb_ge (BaseSize fp) 0)) in H by lia.
  destruct (next_fault f) as [x f1] eqn:Hf. destruct (next_fault_bytes _ _ _ Hf) as (Hb & _ & Hnf).
  destruct (match x with Fault _ _ => true | _ => false end) eqn:Hx.
  { destruct x; try done. injection H as <- <-. exists f1. split_and!; [done..|]. intros Hfs. by destruct (Hnf Hfs). }
  assert (forall n l, n <= 0 -> ztake n (pad_to n l) = (@nil byte)) as Hp by (intros; by apply ztake_0).
  rewrite Hp in H by lia. set (f2 := mkFile [] (f_pos f1) (f_faults f1) (f_durable f1)) in *.
  assert (match x with Fault _ e => (f1, Some e) | _ => (f2, None) end = (f2, @None error)) as E by (by destruct x).
  rewrite E in H. clear E.
  destruct (next_fault f2) as [y f3] eqn:Hf3. destruct (next_fault_bytes _ _ _ Hf3) as (Hb3 & _ & Hnf3).
  cbn [f2 f_bytes f_faults] in *.
  destruct y as [|k e3|k]; [|injection H as <- <-; exists f3; split_and!; [done..|]; intros Hfs;
    by destruct (Hnf3 (proj2 (Hnf Hfs)))|];
    (destruct (writeFileHeader _ fp) as [f4 e4] eqn:Hw; injection H as <- <-;
     destruct (writeFileHeader_spec _ _ _ _ Hw Hb3) as [Hok Hn4]; exists f4; split_and!; [done|done|];
     intros Hfs; destruct (Hnf3 (proj2 (Hnf Hfs))) as [? Hf3']; try done; by apply Hn4).
Qed.
