(* ===== verification/ChangeMap.v ===== *)
(** * document/coordinate/changemap.go: anchors, ranges and change maps

    The definitions follow the file; the theory relates a map to the edits of a
    document's content, so that what [Transform], [ComposeAll], [Invert] and
    [stableSuffix] promise is stated about bytes. *)

From Stdlib Require Import ZArith Lia List.
From stdpp Require Import base list numbers sets.
From S2P Require Import Prelude GoLib.
#[local] Open Scope Z_scope.

Definition MaximumEdits : Z := 1048576.
Definition MaximumTransformSteps : Z := 16777216.

(** [Affinity] is a uint8; a host may pass any value. *)
Inductive Affinity : Type :=
| AffinityBefore
| AffinityAfter
| AffinityOther (raw : Z).

Record Anchor := mkAnchor { a_Offset : Z; a_Affinity : Affinity }.
Record AnchoredRange := mkRange { r_Start : Anchor; r_End : Anchor }.
Record Annotation (T : Type) := mkAnnotation { an_Range : AnchoredRange; an_Value : T }.
Arguments mkAnnotation {T} _ _.
Arguments an_Range {T} _.
Arguments an_Value {T} _.

Record Edit := mkEdit { e_Start : Z; e_OldLength : Z; e_NewLength : Z }.
Record ChangeMap := mkChangeMap {
  cm_beforeRevision : Z; cm_afterRevision : Z; cm_beforeLength : Z; cm_afterLength : Z;
  cm_edits : list Edit }.

#[export] Instance Affinity_eq_dec : EqDecision Affinity.
Proof. solve_decision. Defined.
#[export] Instance Anchor_eq_dec : EqDecision Anchor.
Proof. solve_decision. Defined.
#[export] Instance Edit_eq_dec : EqDecision Edit.
Proof. solve_decision. Defined.
#[export] Instance ChangeMap_eq_dec : EqDecision ChangeMap.
Proof. solve_decision. Defined.

(** ** Construction *)

(** The validation loop of [NewChangeMap]. *)
Fixpoint validate_edits (edits : list Edit) (length : Z) : result Z :=
  match edits with
  | [] => Ok length
  | edit :: edits =>
    if (e_Start edit <? 0) || (e_OldLength edit <? 0) || (e_NewLength edit <? 0) ||
       (length <? e_Start edit) || (length ⊟ e_Start edit <? e_OldLength edit)
    then Err coordinate_ErrInvalidChange
    else
      let remaining := length ⊟ e_OldLength edit in
      if maxInt64 ⊟ remaining <? e_NewLength edit then Err coordinate_ErrInvalidChange
      else validate_edits edits (remaining ⊞ e_NewLength edit)
  end.

Definition NewChangeMap (beforeRevision afterRevision beforeLength : Z) (edits : list Edit) : result ChangeMap :=
  if (beforeLength <? 0) || ((zlen edits =? 0) && negb (beforeRevision =? afterRevision))
  then Err coordinate_ErrInvalidChange
  else if MaximumEdits <? zlen edits then Err coordinate_ErrTooComplex
  else
    let? length := validate_edits edits beforeLength in
    Ok (mkChangeMap beforeRevision afterRevision beforeLength length edits).

Definition Identity (revision length : Z) : result ChangeMap :=
  NewChangeMap revision revision length [].

Definition BeforeRevision (m : ChangeMap) : Z := cm_beforeRevision m.
Definition AfterRevision (m : ChangeMap) : Z := cm_afterRevision m.
Definition BeforeLength (m : ChangeMap) : Z := cm_beforeLength m.
Definition AfterLength (m : ChangeMap) : Z := cm_afterLength m.
Definition Len (m : ChangeMap) : Z := zlen (cm_edits m).
Definition Edits (m : ChangeMap) : list Edit := cm_edits m.

(** ** Transforming anchors *)

Definition transformOffset (offset : Z) (affinity : Affinity) (edit : Edit) : Z :=
  let endOffset := e_Start edit ⊞ e_OldLength edit in
  let sided := if bool_decide (affinity = AffinityAfter)
               then e_Start edit ⊞ e_NewLength edit else e_Start edit in
  if offset <? e_Start edit then offset
  else if (e_OldLength edit =? 0) && (offset =? e_Start edit) then sided
  else if (offset =? e_Start edit) || (offset <? endOffset) then sided
  else offset ⊟ e_OldLength edit ⊞ e_NewLength edit.

Definition badAffinity (affinity : Affinity) : bool :=
  negb (bool_decide (affinity = AffinityBefore)) && negb (bool_decide (affinity = AffinityAfter)).

(** The check [Transform] and [transformAnchors] make of each anchor. *)
Definition checkAnchor (m : ChangeMap) (anchor : Anchor) : result unit :=
  if badAffinity (a_Affinity anchor) then Err coordinate_ErrInvalidAffinity
  else if (a_Offset anchor <? 0) || (cm_beforeLength m <? a_Offset anchor) then Err coordinate_ErrInvalidOffset
  else Ok tt.

Definition Transform (m : ChangeMap) (anchor : Anchor) : result Anchor :=
  let? _ := checkAnchor m anchor in
  Ok (mkAnchor (fold_left (fun offset edit => transformOffset offset (a_Affinity anchor) edit)
                          (cm_edits m) (a_Offset anchor))
               (a_Affinity anchor)).

Definition transformTooComplex (edits items factor : Z) : bool :=
  if (edits =? 0) || (items =? 0) then false
  else if Z.quot MaximumTransformSteps edits <? factor then true
  else
    let perItem := edits * factor in
    Z.quot MaximumTransformSteps perItem <? items.

Fixpoint checkAnchors (m : ChangeMap) (anchors : list Anchor) : result unit :=
  match anchors with
  | [] => Ok tt
  | anchor :: anchors => let? _ := checkAnchor m anchor in checkAnchors m anchors
  end.

(** One pass of the inner loop: [result[index:]] under one edit. *)
Fixpoint transform_pass (ctx : option Context) (k : nat) (index : Z) (edit : Edit) (anchors : list Anchor)
  : nat * result (list Anchor) :=
  match anchors with
  | [] => (k, Ok [])
  | anchor :: anchors =>
    let '(k, e) := if Z.land index 1023 =? 0 then poll ctx k else (k, None) in
    match e with
    | Some e => (k, Err e)
    | None =>
      let anchor := mkAnchor (transformOffset (a_Offset anchor) (a_Affinity anchor) edit) (a_Affinity anchor) in
      let '(k, r) := transform_pass ctx k (index + 1) edit anchors in
      (k, let? anchors := r in Ok (anchor :: anchors))
    end
  end.

Fixpoint transform_edits (ctx : option Context) (k : nat) (edits : list Edit) (anchors : list Anchor)
  : nat * result (list Anchor) :=
  match edits with
  | [] => (k, Ok anchors)
  | edit :: edits =>
    let '(k, e) := poll ctx k in
    match e with
    | Some e => (k, Err e)
    | None =>
      let '(k, r) := transform_pass ctx k 0 edit anchors in
      match r with
      | Err e => (k, Err e)
      | Ok anchors => transform_edits ctx k edits anchors
      end
    end
  end.

Definition transformAnchors (ctx : option Context) (k : nat) (m : ChangeMap) (anchors : list Anchor)
  : nat * result (list Anchor) :=
  if transformTooComplex (zlen (cm_edits m)) (zlen anchors) 1 then (k, Err coordinate_ErrTooComplex)
  else
    match checkAnchors m anchors with
    | Err e => (k, Err e)
    | Ok _ => transform_edits ctx k (cm_edits m) anchors
    end.

Definition TransformAnchors (m : ChangeMap) (anchors : list Anchor) : result (list Anchor) :=
  (transformAnchors None O m anchors).2.

Definition TransformAnchorsContext (ctx : option Context) (k : nat) (m : ChangeMap) (anchors : list Anchor)
  : nat * result (list Anchor) :=
  match ctx with
  | None => (k, Err coordinate_ErrInvalidContext)
  | Some _ =>
    let '(k, e) := poll ctx k in
    match e with
    | Some e => (k, Err e)
    | None => transformAnchors ctx k m anchors
    end
  end.

(** ** Ranges and annotations *)

Definition TransformRange (m : ChangeMap) (value : AnchoredRange) : result AnchoredRange :=
  if a_Offset (r_End value) <? a_Offset (r_Start value) then Err coordinate_ErrInvalidRange
  else
    let? startAnchor := Transform m (r_Start value) in
    let? endAnchor := Transform m (r_End value) in
    if a_Offset endAnchor <? a_Offset startAnchor then Err coordinate_ErrInvertedRange
    else Ok (mkRange startAnchor endAnchor).

Fixpoint flatten_ranges (values : list AnchoredRange) : result (list Anchor) :=
  match values with
  | [] => Ok []
  | value :: values =>
    if a_Offset (r_End value) <? a_Offset (r_Start value) then Err coordinate_ErrInvalidRange
    else let? anchors := flatten_ranges values in Ok (r_Start value :: r_End value :: anchors)
  end.

Fixpoint pair_ranges (transformed : list Anchor) : result (list AnchoredRange) :=
  match transformed with
  | s :: t :: transformed =>
    if a_Offset t <? a_Offset s then Err coordinate_ErrInvertedRange
    else let? values := pair_ranges transformed in Ok (mkRange s t :: values)
  | _ => Ok []
  end.

(** [None] is the nil slice. *)
Definition transformRanges (ctx : option Context) (k : nat) (m : ChangeMap) (values : option (list AnchoredRange))
  : nat * result (option (list AnchoredRange)) :=
  match values with
  | None => (k, Ok None)
  | Some values =>
    if transformTooComplex (zlen (cm_edits m)) (zlen values) 2 then (k, Err coordinate_ErrTooComplex)
    else
      match flatten_ranges values with
      | Err e => (k, Err e)
      | Ok anchors =>
        let '(k, transformed) := match ctx with
                                 | None => (k, TransformAnchors m anchors)
                                 | Some _ => TransformAnchorsContext ctx k m anchors
                                 end in
        (k, let? transformed := transformed in
            let? values := pair_ranges transformed in Ok (Some values))
      end
  end.

Definition TransformRanges (m : ChangeMap) (values : option (list AnchoredRange)) : result (option (list AnchoredRange)) :=
  (transformRanges None O m values).2.

Definition TransformRangesContext (ctx : option Context) (k : nat) (m : ChangeMap) (values : option (list AnchoredRange))
  : nat * result (option (list AnchoredRange)) :=
  match ctx with
  | None => (k, Err coordinate_ErrInvalidContext)
  | Some _ =>
    let '(k, e) := poll ctx k in
    match e with
    | Some e => (k, Err e)
    | None => transformRanges ctx k m values
    end
  end.

Definition transformAnnotations {T} (ctx : option Context) (k : nat) (m : ChangeMap) (values : option (list (Annotation T)))
  : nat * result (option (list (Annotation T))) :=
  match values with
  | None => (k, Ok None)
  | Some values =>
    let ranges := map an_Range values in
    let '(k, transformed) := match ctx with
                             | None => (k, TransformRanges m (Some ranges))
                             | Some _ => TransformRangesContext ctx k m (Some ranges)
                             end in
    (k, let? transformed := transformed in
        Ok (Some (zip_with (fun r v => mkAnnotation r (an_Value v)) (default [] transformed) values)))
  end.

Definition TransformAnnotations {T} (m : ChangeMap) (values : option (list (Annotation T))) : result (option (list (Annotation T))) :=
  (transformAnnotations None O m values).2.

Definition TransformAnnotationsContext {T} (ctx : option Context) (k : nat) (m : ChangeMap) (values : option (list (Annotation T)))
  : nat * result (option (list (Annotation T))) :=
  match ctx with
  | None => (k, Err coordinate_ErrInvalidContext)
  | Some _ =>
    let '(k, e) := poll ctx k in
    match e with
    | Some e => (k, Err e)
    | None => transformAnnotations ctx k m values
    end
  end.

(** ** Composition and inversion *)

(** The validation loop of [ComposeAll]: the total and the last boundary. *)
Fixpoint compose_check (next : list ChangeMap) (total previousRevision previousLength : Z) : result (Z * Z * Z) :=
  match next with
  | [] => Ok (total, previousRevision, previousLength)
  | change :: next =>
    if negb (previousRevision =? cm_beforeRevision change) then Err coordinate_ErrRevisionMismatch
    else if negb (previousLength =? cm_beforeLength change) then Err coordinate_ErrLengthMismatch
    else if MaximumEdits - total <? zlen (cm_edits change) then Err coordinate_ErrTooComplex
    else compose_check next (total + zlen (cm_edits change)) (cm_afterRevision change) (cm_afterLength change)
  end.

Definition ComposeAll (m : ChangeMap) (next : list ChangeMap) : result ChangeMap :=
  let? (_, previousRevision, previousLength) :=
    compose_check next (zlen (cm_edits m)) (cm_afterRevision m) (cm_afterLength m) in
  Ok (mkChangeMap (cm_beforeRevision m) previousRevision (cm_beforeLength m) previousLength
        (cm_edits m ++ concat (map cm_edits next))).

Definition Compose (m next : ChangeMap) : result ChangeMap := ComposeAll m [next].

Definition invertEdit (original : Edit) : Edit :=
  mkEdit (e_Start original) (e_NewLength original) (e_OldLength original).

Definition Invert (m : ChangeMap) : ChangeMap :=
  mkChangeMap (cm_afterRevision m) (cm_beforeRevision m) (cm_afterLength m) (cm_beforeLength m)
    (map invertEdit (rev (cm_edits m))).

(** ** The stable suffix *)

Fixpoint suffix_loop (edits : list Edit) (oldStart currentStart currentLength : Z) : option (Z * Z * Z) :=
  match edits with
  | [] => Some (oldStart, currentStart, currentLength)
  | edit :: edits =>
    if (e_Start edit <? 0) || (e_OldLength edit <? 0) || (e_NewLength edit <? 0) ||
       (currentLength <? e_Start edit) || (currentLength ⊟ e_Start edit <? e_OldLength edit)
    then None
    else
      let endOffset := e_Start edit ⊞ e_OldLength edit in
      let '(oldStart, currentStart) :=
        if endOffset <=? currentStart then
          (oldStart, currentStart ⊞ (e_NewLength edit ⊟ e_OldLength edit))
        else
          (if currentStart <? endOffset then oldStart ⊞ (endOffset ⊟ currentStart) else oldStart,
           e_Start edit ⊞ e_NewLength edit) in
      let remaining := currentLength ⊟ e_OldLength edit in
      if maxInt64 ⊟ remaining <? e_NewLength edit then None
      else suffix_loop edits oldStart currentStart (remaining ⊞ e_NewLength edit)
  end.

Definition stableSuffix (m : ChangeMap) : option (Z * Z) :=
  match suffix_loop (cm_edits m) 0 0 (cm_beforeLength m) with
  | None => None
  | Some (oldStart, currentStart, currentLength) =>
    if negb (currentLength =? cm_afterLength m) ||
       negb (cm_beforeLength m ⊟ oldStart =? cm_afterLength m ⊟ currentStart)
    then None else Some (oldStart, currentStart)
  end.

(** ** Valid maps *)

Definition edit_ok (edit : Edit) (length : Z) : Prop :=
  0 <= e_Start edit /\ 0 <= e_OldLength edit /\ 0 <= e_NewLength edit /\
  e_Start edit + e_OldLength edit <= length /\ length - e_OldLength edit + e_NewLength edit <= maxInt64.

Fixpoint edits_ok (edits : list Edit) (length final : Z) : Prop :=
  match edits with
  | [] => final = length
  | edit :: edits => edit_ok edit length /\ edits_ok edits (length - e_OldLength edit + e_NewLength edit) final
  end.

Record map_ok (m : ChangeMap) : Prop := mkMapOk {
  mo_length : 0 <= cm_beforeLength m <= maxInt64;
  mo_edits : edits_ok (cm_edits m) (cm_beforeLength m) (cm_afterLength m);
  mo_count : zlen (cm_edits m) <= MaximumEdits;
  mo_revision : cm_edits m = [] -> cm_beforeRevision m = cm_afterRevision m }.

Lemma edits_ok_final edits length final : edits_ok edits length final -> 0 <= length <= maxInt64 -> 0 <= final <= maxInt64.
Proof.
  revert length. induction edits as [|e es IH]; intros length H Hl; [simpl in H; by subst|].
  destruct H as [He H]. apply (IH _ H). unfold edit_ok in He. lia.
Qed.

Lemma edits_ok_app es fs a c : edits_ok (es ++ fs) a c <-> exists b, edits_ok es a b /\ edits_ok fs b c.
Proof.
  revert a. induction es as [|e es IH]; intros a; simpl; [naive_solver|]. rewrite IH. naive_solver.
Qed.

Lemma edits_ok_functional es a b c : edits_ok es a b -> edits_ok es a c -> b = c.
Proof. revert a. induction es as [|e es IH]; intros a; simpl; [congruence|]. intros [_ H1] [_ H2]. eauto. Qed.

Lemma validate_fails (P : Z -> Prop) :
  (forall final, ~ P final) ->
  (forall final, Err coordinate_ErrInvalidChange = Ok final <-> P final) /\
  (forall e, @Err Z coordinate_ErrInvalidChange = Err e -> e = coordinate_ErrInvalidChange).
Proof. intros HP. split; [|by intros e [= <-]]. intros final. split; [done|]. by intros ?%HP. Qed.

Lemma validate_edits_spec edits length :
  0 <= length <= maxInt64 ->
  (forall final, validate_edits edits length = Ok final <-> edits_ok edits length final) /\
  (forall e, validate_edits edits length = Err e -> e = coordinate_ErrInvalidChange).
Proof.
  revert length. induction edits as [|edit edits IH]; intros length Hl.
  { split; [intros final; simpl; split; [by intros [= ->]|by intros ->]|done]. }
  cbn [validate_edits edits_ok]. unfold edit_ok.
  destruct (Z.ltb_spec (e_Start edit) 0); [apply validate_fails; intros ?; lia|].
  destruct (Z.ltb_spec (e_OldLength edit) 0); [apply validate_fails; intros ?; lia|].
  destruct (Z.ltb_spec (e_NewLength edit) 0); [apply validate_fails; intros ?; lia|].
  destruct (Z.ltb_spec length (e_Start edit)); [apply validate_fails; intros ?; lia|].
  cbn [orb]. unwrap64_goal.
  destruct (Z.ltb_spec (length - e_Start edit) (e_OldLength edit)); [apply validate_fails; intros ?; lia|].
  unwrap64_goal. destruct (Z.ltb_spec (maxInt64 - (length - e_OldLength edit)) (e_NewLength edit));
    [apply validate_fails; intros ?; lia|].
  unwrap64_goal. destruct (IH (length - e_OldLength edit + e_NewLength edit)) as [IH1 IH2]; [lia|].
  split; [|done]. intros final. rewrite IH1. split; [|tauto]. intros ?. split_and!; lia || done.
Qed.

(** ** Maps as edits of content *)

Section Content.
Context {A : Type}.
Implicit Types doc : list A.

(** [changes] pairs each edit with what it inserts. *)
Fixpoint apply_edits (changes : list (Edit * list A)) doc : list A :=
  match changes with
  | [] => doc
  | (e, ins) :: changes => apply_edits changes (splice (e_Start e) (e_OldLength e) ins doc)
  end.

Definition realizes (edits : list Edit) (changes : list (Edit * list A)) : Prop :=
  map fst changes = edits /\ Forall (fun c => zlen c.2 = e_NewLength c.1) changes.

Lemma realizes_cons e es cs :
  realizes (e :: es) cs -> exists ins cs', cs = (e, ins) :: cs' /\ zlen ins = e_NewLength e /\ realizes es cs'.
Proof.
  intros [H1 H2]. destruct cs as [|[e' ins] cs]; [done|]. injection H1 as -> <-.
  inversion H2; subst. exists ins, cs. repeat split; auto.
Qed.

Lemma zlen_splice_ok e ins doc :
  edit_ok e (zlen doc) -> zlen ins = e_NewLength e ->
  zlen (splice (e_Start e) (e_OldLength e) ins doc) = zlen doc - e_OldLength e + e_NewLength e.
Proof. unfold edit_ok. intros He Hi. rewrite zlen_splice by lia. lia. Qed.

Lemma zlen_apply_edits edits changes doc final :
  realizes edits changes -> edits_ok edits (zlen doc) final -> zlen (apply_edits changes doc) = final.
Proof.
  revert changes doc. induction edits as [|e es IH]; intros cs doc Hr Hok.
  { destruct Hr as [Hr _]. destruct cs; [by subst|done]. }
  apply realizes_cons in Hr as (ins & cs' & -> & Hi & Hr). destruct Hok as [He Hok]. cbn [apply_edits].
  apply (IH cs'); [done|]. by rewrite zlen_splice_ok.
Qed.

Lemma apply_edits_app cs ds doc : apply_edits (cs ++ ds) doc = apply_edits ds (apply_edits cs doc).
Proof. revert doc. induction cs as [|[e ins] cs IH]; intros; [done|]. apply IH. Qed.

(** The inverse changes: each edit backwards, re-inserting what it removed. *)
Fixpoint inverse_changes (changes : list (Edit * list A)) doc : list (Edit * list A) :=
  match changes with
  | [] => []
  | (e, ins) :: changes =>
    inverse_changes changes (splice (e_Start e) (e_OldLength e) ins doc)
    ++ [(invertEdit e, slice (e_Start e) (e_OldLength e) doc)]
  end.

Lemma inverse_changes_spec edits changes doc final :
  realizes edits changes -> edits_ok edits (zlen doc) final ->
  realizes (map invertEdit (rev edits)) (inverse_changes changes doc) /\
  apply_edits (inverse_changes changes doc) (apply_edits changes doc) = doc.
Proof.
  revert changes doc. induction edits as [|e es IH]; intros cs doc Hr Hok.
  { destruct Hr as [Hr _]. destruct cs; [|done]. by repeat split. }
  apply realizes_cons in Hr as (ins & cs' & -> & Hi & Hr). destruct Hok as [He Hok].
  cbn [apply_edits inverse_changes]. rewrite <-(zlen_splice_ok e ins doc He Hi) in Hok.
  destruct (IH cs' _ Hr Hok) as [[H1 H2] H3]. unfold edit_ok in He. split.
  - split; [rewrite map_app, H1; cbn [rev]; by rewrite map_app|].
    apply Forall_app. split; [done|]. repeat constructor. cbn. apply zlen_slice; lia.
  - rewrite apply_edits_app, H3. cbn [apply_edits invertEdit e_Start e_OldLength]. rewrite <-Hi.
    apply splice_inverse; lia.
Qed.
End Content.

(** ** Offsets *)

Lemma transformOffset_plain o a e len :
  edit_ok e len -> 0 <= len <= maxInt64 -> 0 <= o <= len ->
  transformOffset o a e =
  if o <? e_Start e then o
  else if (o =? e_Start e) || (o <? e_Start e + e_OldLength e)
       then (if bool_decide (a = AffinityAfter) then e_Start e + e_NewLength e else e_Start e)
       else o - e_OldLength e + e_NewLength e.
Proof.
  unfold edit_ok, transformOffset. intros He Hl Ho. unwrap64_goal.
  destruct (Z.ltb_spec o (e_Start e)); [done|]. destruct (Z.eqb_spec o (e_Start e)).
  - cbn [orb]. rewrite andb_true_r. by destruct (_ =? _).
  - by rewrite andb_false_r.
Qed.

Definition affinity_le (a b : Affinity) : Prop := a = AffinityAfter -> b = AffinityAfter.

Lemma transformOffset_range o a e len :
  edit_ok e len -> 0 <= len <= maxInt64 -> 0 <= o <= len ->
  0 <= transformOffset o a e <= len - e_OldLength e + e_NewLength e.
Proof.
  intros He Hl Ho. rewrite (transformOffset_plain _ _ _ len) by done. unfold edit_ok in He.
  destruct (Z.ltb_spec o (e_Start e)); [lia|].
  destruct (Z.eqb_spec o (e_Start e)), (Z.ltb_spec o (e_Start e + e_OldLength e)); cbn [orb];
    try (case_bool_decide; lia); lia.
Qed.

Lemma transformOffset_mono o o' a b e len :
  edit_ok e len -> 0 <= len <= maxInt64 -> 0 <= o -> o <= o' -> o' <= len -> affinity_le a b ->
  transformOffset o a e <= transformOffset o' b e.
Proof.
  intros He Hl Ho Hle Ho' Hab. rewrite !(transformOffset_plain _ _ _ len) by (done || lia). unfold edit_ok in He.
  unfold affinity_le in Hab.
  destruct (Z.ltb_spec o (e_Start e)), (Z.ltb_spec o' (e_Start e)),
    (Z.eqb_spec o (e_Start e)), (Z.ltb_spec o (e_Start e + e_OldLength e)),
    (Z.eqb_spec o' (e_Start e)), (Z.ltb_spec o' (e_Start e + e_OldLength e)); cbn [orb];
    repeat case_bool_decide; try lia; naive_solver lia.
Qed.

(** Moving an offset through all edits of a map. *)
Definition transform_all (edits : list Edit) (a : Affinity) (o : Z) : Z :=
  fold_left (fun o e => transformOffset o a e) edits o.

Lemma transform_all_range edits a o len final :
  edits_ok edits len final -> 0 <= len <= maxInt64 -> 0 <= o <= len -> 0 <= transform_all edits a o <= final.
Proof.
  revert o len. induction edits as [|e es IH]; intros o len Hok Hl Ho; [by simpl in *; subst|].
  destruct Hok as [He Hok]. pose proof (transformOffset_range o a e len He Hl Ho).
  apply (IH _ _ Hok); [unfold edit_ok in He; lia|done].
Qed.

Lemma transform_all_mono edits a b o o' len final :
  edits_ok edits len final -> 0 <= len <= maxInt64 -> 0 <= o -> o <= o' -> o' <= len -> affinity_le a b ->
  transform_all edits a o <= transform_all edits b o'.
Proof.
  revert o o' len. induction edits as [|e es IH]; intros o o' len Hok Hl Ho Hle Ho' Hab; [done|].
  destruct Hok as [He Hok].
  pose proof (transformOffset_range o a e len He Hl ltac:(lia)).
  pose proof (transformOffset_range o' b e len He Hl ltac:(lia)).
  pose proof (transformOffset_mono o o' a b e len He Hl Ho Hle Ho' Hab).
  apply (IH _ _ _ Hok); unfold edit_ok in He; lia || done.
Qed.

Lemma transform_all_app es fs a o : transform_all (es ++ fs) a o = transform_all fs a (transform_all es a o).
Proof. apply fold_left_app. Qed.

Lemma zdrop_splice_tail {A} (doc ins : list A) start del k :
  0 <= start -> 0 <= del -> start + del <= k -> k <= zlen doc ->
  zdrop (k - del + zlen ins) (splice start del ins doc) = zdrop k doc.
Proof.
  intros. pose proof (zlen_nonneg ins). unfold splice.
  rewrite zdrop_app_r by (rewrite zlen_ztake; lia). rewrite zlen_ztake.
  rewrite zdrop_app_r by lia. rewrite zdrop_zdrop by lia. f_equal. lia.
Qed.

Lemma suffix_loop_spec edits oldStart currentStart before cur final :
  edits_ok edits cur final -> 0 <= cur <= maxInt64 -> 0 <= before <= maxInt64 ->
  0 <= oldStart <= before -> 0 <= currentStart <= cur -> cur - currentStart = before - oldStart ->
  exists os cs, suffix_loop edits oldStart currentStart cur = Some (os, cs, final) /\
    oldStart <= os <= before /\ 0 <= cs <= final /\ final - cs = before - os /\
    (forall A (doc0 doc : list A) changes, zlen doc0 = before -> zlen doc = cur -> realizes edits changes ->
       zdrop oldStart doc0 = zdrop currentStart doc -> zdrop os doc0 = zdrop cs (apply_edits changes doc)).
Proof.
  revert oldStart currentStart cur. induction edits as [|e es IH]; intros oldStart currentStart cur Hok Hcur Hb Ho Hc Heq.
  { simpl in Hok. subst. exists oldStart, currentStart. split_and!; try lia; [done|].
    intros A doc0 doc changes _ _ [Hr _] E. by destruct changes. }
  destruct Hok as [He Hok]. pose proof He as He'. unfold edit_ok in He. cbn [suffix_loop].
  rewrite (proj2 (Z.ltb_ge (e_Start e) 0)), (proj2 (Z.ltb_ge (e_OldLength e) 0)), (proj2 (Z.ltb_ge (e_NewLength e) 0)),
    (proj2 (Z.ltb_ge cur (e_Start e))) by lia. cbn [orb].
  rewrite (i64_id (cur - e_Start e)), (i64_id (e_Start e + e_OldLength e)), (i64_id (cur - e_OldLength e)) by go_lia.
  rewrite (i64_id (maxInt64 - (cur - e_OldLength e))), (i64_id (cur - e_OldLength e + e_NewLength e)) by go_lia.
  rewrite (proj2 (Z.ltb_ge (cur - e_Start e) (e_OldLength e))) by lia.
  rewrite (proj2 (Z.ltb_ge (maxInt64 - (cur - e_OldLength e)) (e_NewLength e))) by lia.
  set (endO := e_Start e + e_OldLength e) in *.
  set (os := if endO <=? currentStart then oldStart else oldStart + (endO - currentStart)).
  set (cs := if endO <=? currentStart then currentStart - e_OldLength e + e_NewLength e else e_Start e + e_NewLength e).
  assert ((if endO <=? currentStart then (oldStart, currentStart ⊞ (e_NewLength e ⊟ e_OldLength e))
           else (if currentStart <? endO then oldStart ⊞ (endO ⊟ currentStart) else oldStart, e_Start e ⊞ e_NewLength e))
          = (os, cs)) as ->.
  { subst os cs. destruct (Z.leb_spec endO currentStart).
    - unwrap64_goal. f_equal. lia.
    - rewrite (proj2 (Z.ltb_lt currentStart endO)) by lia. subst endO. by unwrap64_goal. }
  destruct (IH os cs (cur - e_OldLength e + e_NewLength e) Hok) as (os' & cs' & -> & H1 & H2 & H3 & H4);
    [lia|lia|subst os cs endO; destruct (_ <=? _) eqn:?; lia..|].
  exists os', cs'. split_and!; try done; [subst os endO; destruct (_ <=? _) eqn:?; lia..|].
  intros A doc0 doc changes Hd0 Hd Hr E. apply realizes_cons in Hr as (ins & ch & -> & Hi & Hr). cbn [apply_edits].
  apply H4; [done|by rewrite zlen_splice_ok by (rewrite ?Hd; done); rewrite Hd|done|].
  subst os cs endO. destruct (Z.leb_spec (e_Start e + e_OldLength e) currentStart); rewrite <-Hi.
  - rewrite zdrop_splice_tail by lia. done.
  - replace (e_Start e + zlen ins) with (e_Start e + e_OldLength e - e_OldLength e + zlen ins) by lia.
    rewrite zdrop_splice_tail by lia. rewrite <-zdrop_zdrop by lia. rewrite E, zdrop_zdrop by lia. f_equal. lia.
Qed.

(** ** Tracking one element of the document through the edits *)

Lemma splice_lookup_l {A} (doc ins : list A) start del k :
  0 <= k < start -> start <= zlen doc -> splice start del ins doc !! Z.to_nat k = doc !! Z.to_nat k.
Proof.
  intros Hk Hs. unfold splice, ztake, zlen in *. rewrite lookup_app_l by (rewrite length_take; lia).
  rewrite lookup_take by lia. rewrite decide_True by lia. done.
Qed.

Lemma splice_lookup_r {A} (doc ins : list A) start del k :
  0 <= start -> 0 <= del -> start + del <= k -> k < zlen doc ->
  splice start del ins doc !! Z.to_nat (k - del + zlen ins) = doc !! Z.to_nat k.
Proof.
  intros. unfold splice, ztake, zdrop, zlen in *.
  rewrite lookup_app_r by (rewrite length_take; lia). rewrite lookup_app_r by (rewrite length_take; lia).
  rewrite lookup_drop, length_take. f_equal. lia.
Qed.

Lemma elem_of_splice {A} (doc ins : list A) start del x :
  x ∈ splice start del ins doc -> x ∉ ins ->
  exists k, doc !! k = Some x /\ (Z.of_nat k < start \/ start + del <= Z.of_nat k).
Proof.
  unfold splice, ztake, zdrop. rewrite !elem_of_app. intros [H|[H|H]] Hx; [|done|].
  - apply list_elem_of_lookup in H as [k Hk]. apply lookup_take_Some in Hk as [Hk ?]. exists k. split; [done|lia].
  - apply list_elem_of_lookup in H as [k Hk]. rewrite lookup_drop in Hk. eexists. split; [exact Hk|lia].
Qed.

Lemma tracks_step {A} (cur ins : list A) e a x o d len :
  edit_ok e len -> 0 <= len <= maxInt64 -> zlen cur = len -> zlen ins = e_NewLength e -> 0 <= o <= len ->
  NoDup cur -> x ∉ ins -> d = (if bool_decide (a = AffinityAfter) then 0 else 1) -> 0 <= o - d < len ->
  cur !! Z.to_nat (o - d) = Some x ->
  x ∈ splice (e_Start e) (e_OldLength e) ins cur ->
  0 <= transformOffset o a e - d /\
  splice (e_Start e) (e_OldLength e) ins cur !! Z.to_nat (transformOffset o a e - d) = Some x.
Proof.
  intros He Hl Hc Hi Ho Hnd Hx Hd Hod Hcur Hin. apply elem_of_splice in Hin as (k & Hk & Hside); [|done].
  pose proof (NoDup_lookup _ _ _ _ Hnd Hk Hcur) as ->. rewrite Z2Nat.id in Hside by lia.
  rewrite (transformOffset_plain _ _ _ len) by done. unfold edit_ok in He.
  assert (d = 0 /\ a = AffinityAfter \/ d = 1 /\ a <> AffinityAfter) as Hda.
  { subst d. case_bool_decide; auto. }
  assert (forall k', 0 <= k' /\ (k' = o - d /\ k' < e_Start e \/
      k' = o - d - e_OldLength e + zlen ins /\ e_Start e + e_OldLength e <= o - d) ->
    0 <= k' /\ splice (e_Start e) (e_OldLength e) ins cur !! Z.to_nat k' = Some x) as Hgo.
  { intros k' [Hk0 [[-> ?]|[-> ?]]]; (split; [done|]).
    - rewrite splice_lookup_l by lia. done.
    - rewrite splice_lookup_r by lia. done. }
  apply Hgo. pose proof (zlen_nonneg ins).
  destruct (Z.ltb_spec o (e_Start e)); [lia|].
  destruct (Z.eqb_spec o (e_Start e)), (Z.ltb_spec o (e_Start e + e_OldLength e)); cbn [orb];
    try case_bool_decide; destruct Hda as [[-> ?]|[-> ?]]; try done; lia.
Qed.

Lemma apply_edits_elem {A} (x : A) changes doc :
  Forall (fun c => x ∉ c.2) changes -> x ∈ apply_edits changes doc -> x ∈ doc.
Proof.
  revert doc. induction changes as [|[e ins] cs IH]; intros doc Hx Hin; [done|]. inversion Hx; subst. cbn [apply_edits] in Hin.
  apply IH in Hin; [|done]. apply elem_of_splice in Hin as (k & Hk & _); [|done]. by eapply list_elem_of_lookup_2.
Qed.

(** The elements the edits insert are new: distinct from each other and from
    what the document holds when they are inserted. *)
Fixpoint fresh_changes {A} (changes : list (Edit * list A)) (doc : list A) : Prop :=
  match changes with
  | [] => True
  | (e, ins) :: changes =>
    NoDup (splice (e_Start e) (e_OldLength e) ins doc) /\
    fresh_changes changes (splice (e_Start e) (e_OldLength e) ins doc)
  end.

Lemma tracks_all {A} edits (changes : list (Edit * list A)) doc final a x o d :
  realizes edits changes -> edits_ok edits (zlen doc) final -> zlen doc <= maxInt64 ->
  NoDup doc -> fresh_changes changes doc -> Forall (fun c => x ∉ c.2) changes ->
  d = (if bool_decide (a = AffinityAfter) then 0 else 1) -> 0 <= o - d -> 0 <= o <= zlen doc ->
  doc !! Z.to_nat (o - d) = Some x -> x ∈ apply_edits changes doc ->
  apply_edits changes doc !! Z.to_nat (transform_all edits a o - d) = Some x.
Proof.
  revert changes doc o. induction edits as [|e es IH]; intros changes doc o Hr Hok Hmax Hnd Hfr Hx Hd Hod Ho Hlk Hin.
  { destruct Hr as [Hr _]. by destruct changes. }
  apply realizes_cons in Hr as (ins & cs & -> & Hi & Hr). destruct Hok as [He Hok]. destruct Hfr as [Hnd' Hfr].
  inversion Hx as [|? ? Hx1 Hx2]; subst. cbn [apply_edits] in *.
  pose proof (zlen_nonneg doc).
  assert (o - (if bool_decide (a = AffinityAfter) then 0 else 1) < zlen doc) as Hlt.
  { apply lookup_lt_Some in Hlk. unfold zlen. lia. }
  destruct (tracks_step doc ins e a x o _ (zlen doc) He ltac:(lia) eq_refl Hi Ho Hnd Hx1 eq_refl ltac:(lia) Hlk) as [H1 H2];
    [by eapply apply_edits_elem|].
  pose proof (transformOffset_range o a e (zlen doc) He ltac:(lia) Ho).
  pose proof (zlen_splice_ok e ins doc He Hi) as Hz. unfold edit_ok in He.
  change (transform_all (e :: es) a o) with (transform_all es a (transformOffset o a e)).
  apply IH; auto; rewrite ?Hz; auto; lia.
Qed.

(** ** The batch loop *)

Lemma transform_pass_spec ctx k index edit anchors :
  let r := (transform_pass ctx k index edit anchors).2 in
  r = Ok (map (fun a => mkAnchor (transformOffset (a_Offset a) (a_Affinity a) edit) (a_Affinity a)) anchors) \/
  exists polls j e, ctx = Some polls /\ polls j = Some e /\ r = Err e.
Proof.
  revert k index. induction anchors as [|a anchors IH]; intros k index; [by left|]. cbn [transform_pass].
  destruct (if Z.land index 1023 =? 0 then poll ctx k else (k, None)) as [k1 e] eqn:Hp. destruct e as [e|].
  { right. destruct (Z.land index 1023 =? 0); [|done]. destruct ctx as [polls|]; [|done].
    injection Hp as <- Hp. by exists polls, k, e. }
  specialize (IH k1 (index + 1)). destruct (transform_pass ctx k1 (index + 1) edit anchors) as [k2 r]. cbn [snd] in *.
  destruct IH as [->|(polls & j & e & ? & ? & ->)]; [by left|right; by exists polls, j, e].
Qed.

Lemma transform_edits_spec ctx k edits anchors :
  let r := (transform_edits ctx k edits anchors).2 in
  r = Ok (map (fun a => mkAnchor (transform_all edits (a_Affinity a) (a_Offset a)) (a_Affinity a)) anchors) \/
  exists polls j e, ctx = Some polls /\ polls j = Some e /\ r = Err e.
Proof.
  revert k anchors. induction edits as [|edit edits IH]; intros k anchors; cbn [transform_edits].
  { left. cbn [snd]. f_equal. induction anchors as [|[] anchors IH]; simpl; by f_equal. }
  destruct (poll ctx k) as [k1 e] eqn:Hp. destruct e as [e|].
  { right. destruct ctx as [polls|]; [|done]. injection Hp as <- Hp. by exists polls, k, e. }
  pose proof (transform_pass_spec ctx k1 0 edit anchors) as Hpass.
  destruct (transform_pass ctx k1 0 edit anchors) as [k2 r]. cbn [snd] in Hpass.
  destruct Hpass as [->|(polls & j & e & ? & ? & ->)]; [|right; by exists polls, j, e].
  destruct (IH k2 (map (fun a => mkAnchor (transformOffset (a_Offset a) (a_Affinity a) edit) (a_Affinity a)) anchors)) as [->|?];
    [left|by right]. by rewrite map_map.
Qed.

Fixpoint map_result {X Y} (f : X -> result Y) (xs : list X) : result (list Y) :=
  match xs with
  | [] => Ok []
  | x :: xs => let? y := f x in let? ys := map_result f xs in Ok (y :: ys)
  end.

Lemma checkAnchors_Transform m anchors :
  (let? _ := checkAnchors m anchors in
   Ok (map (fun a => mkAnchor (transform_all (cm_edits m) (a_Affinity a) (a_Offset a)) (a_Affinity a)) anchors))
  = map_result (Transform m) anchors.
Proof.
  induction anchors as [|a anchors IH]; [done|]. cbn [checkAnchors map_result]. unfold Transform at 1.
  destruct (checkAnchor m a); [|done]. cbn [res_bind]. rewrite <-IH. by destruct (checkAnchors m anchors).
Qed.

Lemma transformAnchors_spec ctx k m anchors :
  let r := (transformAnchors ctx k m anchors).2 in
  r = (if transformTooComplex (zlen (cm_edits m)) (zlen anchors) 1 then Err coordinate_ErrTooComplex
       else map_result (Transform m) anchors) \/
  exists polls j e, ctx = Some polls /\ polls j = Some e /\ r = Err e.
Proof.
  unfold transformAnchors. case_match; [by left|]. rewrite <-checkAnchors_Transform.
  destruct (checkAnchors m anchors); [|by left]. cbn [res_bind]. apply transform_edits_spec.
Qed.

Lemma transformTooComplex_spec edits items factor :
  0 <= edits -> 0 <= items -> 1 <= factor ->
  transformTooComplex edits items factor = (MaximumTransformSteps <? edits * factor * items).
Proof.
  intros. unfold transformTooComplex, MaximumTransformSteps.
  destruct (Z.eqb_spec edits 0) as [->|]; [by rewrite !Z.mul_0_l|].
  destruct (Z.eqb_spec items 0) as [->|]; [by rewrite Z.mul_0_r|]. cbn [orb].
  rewrite Z.quot_div_nonneg by lia. symmetry.
  destruct (Z.ltb_spec (16777216 / edits) factor) as [Hf|Hf].
  - apply Z.ltb_lt. assert (16777216 < edits * factor) by (apply Z.div_lt_upper_bound in Hf || (apply Z.lt_nge; intros Hc; apply Z.div_le_lower_bound in Hc; lia); lia).
    nia.
  - assert (edits * factor <= 16777216) by (pose proof (Z.mul_div_le 16777216 edits ltac:(lia)); nia).
    rewrite Z.quot_div_nonneg by nia.
    destruct (Z.ltb_spec (16777216 / (edits * factor)) items) as [Hi|Hi].
    + apply Z.ltb_lt, Z.lt_nge. intros Hc. apply Z.div_le_lower_bound in Hc; nia.
    + apply Z.ltb_ge. pose proof (Z.mul_div_le 16777216 (edits * factor) ltac:(nia)). nia.
Qed.

Lemma checkAnchor_spec m anchor :
  (exists u, checkAnchor m anchor = Ok u) <->
  (a_Affinity anchor = AffinityBefore \/ a_Affinity anchor = AffinityAfter) /\
  0 <= a_Offset anchor <= cm_beforeLength m.
Proof.
  unfold checkAnchor, badAffinity.
  destruct (Z.ltb_spec (a_Offset anchor) 0), (Z.ltb_spec (cm_beforeLength m) (a_Offset anchor));
    repeat case_bool_decide; cbn; split; intros Hx; try (destruct Hx as [? ?]); eauto; try done; naive_solver lia.
Qed.

Lemma Transform_Ok m anchor b :
  Transform m anchor = Ok b ->
  0 <= a_Offset anchor <= cm_beforeLength m /\
  b = mkAnchor (transform_all (cm_edits m) (a_Affinity anchor) (a_Offset anchor)) (a_Affinity anchor).
Proof.
  unfold Transform. destruct (checkAnchor m anchor) as [u|] eqn:Hc; [|done]. intros [= <-].
  split; [|done]. by apply checkAnchor_spec; eexists.
Qed.

Definition ex_map : ChangeMap := mkChangeMap 1 3 6 7 [mkEdit 2 3 4; mkEdit 0 1 1].
Lemma ex_map_ok : map_ok ex_map.
Proof. split; cbn; unfold edit_ok; cbn; unfold_ints; [lia|lia|done|done]. Qed.

Ltac new_map Hm :=
  match type of Hm with ?m = _ => destruct m; cbn in Hm; injection Hm as -> -> -> ->; cbn in * end.

(** [NewChangeMap] accepts exactly the well-formed maps: it returns a map iff
    the length is not negative, an unchanged map keeps its revision, there are at
    most [MaximumEdits] edits and every edit lies inside the document its
    predecessors produce without overflowing its length; the resulting map is then
    well formed, and the error tells a complexity from a validity failure. *)
Theorem NewChangeMap_correct br ar bl edits :
  bl <= maxInt64 ->
  (forall m, NewChangeMap br ar bl edits = Ok m <->
     map_ok m /\ m = mkChangeMap br ar bl (cm_afterLength m) edits) /\
  (forall e, NewChangeMap br ar bl edits = Err e ->
     e = coordinate_ErrTooComplex /\ MaximumEdits < zlen edits \/ e = coordinate_ErrInvalidChange).
Proof.
  intros Hbl. unfold NewChangeMap. pose proof (zlen_nonneg edits).
  destruct (Z.ltb_spec bl 0) as [Hneg|Hpos]; cbn [orb].
  { split; [|intros e [= <-]; auto]. intros m. split; [done|]. intros [[Hl _ _ _] Hm]; new_map Hm. cbn in Hl. lia. }
  destruct ((zlen edits =? 0) && negb (br =? ar)) eqn:G.
  { apply andb_true_iff in G as [G1%Z.eqb_eq G2%negb_true_iff%Z.eqb_neq]. split; [|intros e [= <-]; auto].
    intros m. split; [done|]. intros [[_ _ _ Hr] Hm]; new_map Hm. cbn in Hr. by specialize (Hr (zlen_zero _ G1)). }
  destruct (Z.ltb_spec MaximumEdits (zlen edits)) as [Hc|Hc].
  { split; [|intros e [= <-]; auto]. intros m. split; [done|]. intros [[_ _ Hn _] Hm]; new_map Hm. cbn in Hn. lia. }
  destruct (validate_edits_spec edits bl) as [Hv He]; [lia|].
  destruct (validate_edits edits bl) as [final|e] eqn:Hval; cbn [res_bind].
  - split; [|done]. intros m. split.
    + intros [= <-]. split; [|done]. split; cbn; [lia|by apply Hv|done|]. intros ->. cbn in G.
      by apply negb_false_iff, Z.eqb_eq in G.
    + intros [[_ Hok _ _] Hm]; new_map Hm. cbn in *. apply Hv in Hok. by injection Hok as ->.
  - split; [|intros e' [= <-]; right; auto]. intros m. split; [done|]. intros [[_ Hok _ _] Hm]; new_map Hm. cbn in Hok.
    by apply Hv in Hok.
Qed.

Lemma NewChangeMap_correct_witness :
  6 <= maxInt64 /\ exists m, NewChangeMap 1 3 6 [mkEdit 2 3 4; mkEdit 0 1 1] = Ok m /\ map_ok m.
Proof.
  assert (6 <= maxInt64) as H by (unfold_ints; lia). split; [exact H|]. exists ex_map. split; [reflexivity|].
  apply (proj1 (NewChangeMap_correct 1 3 6 [mkEdit 2 3 4; mkEdit 0 1 1] H) ex_map). reflexivity.
Defined.

(** [Transform] keeps anchors inside the document and in order: on a
    well-formed map it succeeds exactly for a known affinity and an offset of the
    old document, the new offset is an offset of the new document, and two
    anchors never cross unless the first leans after and the second before. *)
Theorem Transform_ordered m x y :
  map_ok m ->
  ((exists x', Transform m x = Ok x') <->
     (a_Affinity x = AffinityBefore \/ a_Affinity x = AffinityAfter) /\ 0 <= a_Offset x <= cm_beforeLength m) /\
  (forall x', Transform m x = Ok x' ->
     0 <= a_Offset x' <= cm_afterLength m /\ a_Affinity x' = a_Affinity x /\
     (forall y', Transform m y = Ok y' -> a_Offset x <= a_Offset y ->
        affinity_le (a_Affinity x) (a_Affinity y) -> a_Offset x' <= a_Offset y')).
Proof.
  intros [Hl Hok _ _]. split.
  - rewrite <-checkAnchor_spec. unfold Transform. destruct (checkAnchor m x); cbn; naive_solver.
  - intros x' Hx. apply Transform_Ok in Hx as [Hx ->]. cbn.
    split_and!; [by eapply transform_all_range..|done|].
    intros y' Hy Hle Ha. apply Transform_Ok in Hy as [Hy ->]. eapply transform_all_mono; eauto; lia.
Qed.

Lemma Transform_ordered_witness :
  (exists x', Transform ex_map (mkAnchor 3 AffinityBefore) = Ok x') /\
  forall x', Transform ex_map (mkAnchor 3 AffinityBefore) = Ok x' ->
  forall y', Transform ex_map (mkAnchor 3 AffinityAfter) = Ok y' -> a_Offset x' <= a_Offset y'.
Proof.
  destruct (Transform_ordered ex_map (mkAnchor 3 AffinityBefore) (mkAnchor 3 AffinityAfter) ex_map_ok) as [H1 H2].
  split; [apply H1; cbn; split; [by left|lia]|].
  intros x' Hx y' Hy. apply (H2 x' Hx); [exact Hy|cbn; lia|by intros ?].
Defined.

(** C16. An anchor follows its neighbour: take any document content whose elements
    are distinct and any insertions of new elements that realise the map's edits.
    If the element after an [AffinityAfter] anchor (before an [AffinityBefore]
    one) survives all edits, then it is the element after (before) the
    transformed anchor in the new content. *)
Theorem Transform_tracks {A} m anchor anchor' (doc : list A) changes x :
  let d := if bool_decide (a_Affinity anchor = AffinityAfter) then 0 else 1 in
  map_ok m -> Transform m anchor = Ok anchor' ->
  zlen doc = cm_beforeLength m -> realizes (cm_edits m) changes ->
  NoDup doc -> fresh_changes changes doc -> Forall (fun c => x ∉ c.2) changes ->
  0 <= a_Offset anchor - d -> doc !! Z.to_nat (a_Offset anchor - d) = Some x ->
  x ∈ apply_edits changes doc ->
  apply_edits changes doc !! Z.to_nat (a_Offset anchor' - d) = Some x.
Proof.
  intros d [Hl Hok _ _] Ht Hdoc Hr Hnd Hfr Hx Hd Hlk Hin. apply Transform_Ok in Ht as [Ho ->]. cbn [a_Offset].
  rewrite <-Hdoc in *. eapply tracks_all; eauto; lia.
Qed.

Lemma Transform_tracks_witness :
  let doc := [10; 11; 12; 13; 14; 15] in
  let changes := [(mkEdit 2 3 4, [20; 21; 22; 23]); (mkEdit 0 1 1, [30])] in
  Transform ex_map (mkAnchor 5 AffinityAfter) = Ok (mkAnchor 6 AffinityAfter) /\
  apply_edits changes doc !! Z.to_nat (6 - 0) = Some 15.
Proof.
  intros doc changes. assert (Transform ex_map (mkAnchor 5 AffinityAfter) = Ok (mkAnchor 6 AffinityAfter)) as H by reflexivity.
  split; [exact H|].
  refine (Transform_tracks ex_map (mkAnchor 5 AffinityAfter) (mkAnchor 6 AffinityAfter) doc changes 15 ex_map_ok H _ _ _ _ _ _ _ _).
  - reflexivity.
  - split; [reflexivity|repeat constructor].
  - unfold doc. repeat (constructor; [set_solver|]). constructor.
  - cbn. split_and!; [repeat (constructor; [set_solver|]); constructor..|done].
  - unfold changes. repeat (constructor; [set_solver|]). constructor.
  - vm_compute. discriminate.
  - reflexivity.
  - unfold changes, doc. cbn. set_solver.
Defined.

(** A batch is transformed anchor by anchor: [TransformAnchors] refuses a
    batch iff edits times anchors exceed [MaximumTransformSteps], and otherwise
    returns in input order what [Transform] returns for each anchor, with the
    first failing anchor's error and no partial result; under a context it gives
    the same answer or the error of a poll of that context. *)
Theorem TransformAnchors_correct ctx k m anchors :
  TransformAnchors m anchors =
    (if MaximumTransformSteps <? zlen (cm_edits m) * zlen anchors then Err coordinate_ErrTooComplex
     else map_result (Transform m) anchors) /\
  ((TransformAnchorsContext (Some ctx) k m anchors).2 = TransformAnchors m anchors \/
   exists j e, ctx j = Some e /\ (TransformAnchorsContext (Some ctx) k m anchors).2 = Err e).
Proof.
  assert (TransformAnchors m anchors =
    (if transformTooComplex (zlen (cm_edits m)) (zlen anchors) 1 then Err coordinate_ErrTooComplex
     else map_result (Transform m) anchors)) as E.
  { destruct (transformAnchors_spec None O m anchors) as [H|(? & ? & ? & ? & _)]; done. }
  split.
  - rewrite E, transformTooComplex_spec by (auto using zlen_nonneg; lia). by rewrite Z.mul_1_r.
  - unfold TransformAnchorsContext, poll. destruct (ctx k) as [e|] eqn:Hk; [right; by exists k, e|].
    rewrite E. destruct (transformAnchors_spec (Some ctx) (S k) m anchors) as [H|(p & j & e & [= <-] & Hj & H)];
      [by left|right; by exists j, e].
Qed.

Definition valid_chain (ms : list ChangeMap) : Prop := Forall map_ok ms.

Lemma compose_check_spec next total rev len :
  forall t r l, compose_check next total rev len = Ok (t, r, l) ->
  t = total + zlen (concat (map cm_edits next)) /\ (next <> [] -> t <= MaximumEdits) /\
  (Forall map_ok next -> edits_ok (concat (map cm_edits next)) len l /\
     (concat (map cm_edits next) = [] -> r = rev)).
Proof.
  revert total rev len. induction next as [|c next IH]; intros total rev len t r l; cbn [compose_check map concat].
  { intros [= <- <- <-]. rewrite zlen_nil. split_and!; [lia|done|done]. }
  destruct (Z.eqb_spec rev (cm_beforeRevision c)) as [->|]; cbn [negb]; [|done].
  destruct (Z.eqb_spec len (cm_beforeLength c)) as [->|]; cbn [negb]; [|done].
  destruct (Z.ltb_spec (MaximumEdits - total) (zlen (cm_edits c))); [done|].
  intros H1. destruct (IH _ _ _ _ _ _ H1) as (-> & Ht & Hf). rewrite zlen_app. split_and!; [lia| |].
  - intros _. destruct next as [|c' next']; [|specialize (Ht ltac:(done)); lia].
    cbn [map concat]. rewrite zlen_nil. lia.
  - intros Hall. inversion Hall as [|? ? Hc Hrest]; subst. destruct (Hf Hrest) as [He Hr]. split.
    + apply edits_ok_app. exists (cm_afterLength c). split; [apply Hc|done].
    + intros Hnil. apply app_eq_nil in Hnil as [Hn1 Hn2]. rewrite (Hr Hn2). symmetry. by apply mo_revision.
Qed.

Lemma map_result_app {X Y} (f : X -> result Y) xs ys :
  map_result f (xs ++ ys) = (let? a := map_result f xs in let? b := map_result f ys in Ok (a ++ b)).
Proof.
  induction xs as [|x xs IH]; cbn [app map_result res_bind]; [by destruct (map_result f ys)|].
  destruct (f x); cbn [res_bind]; [|done]. rewrite IH. destruct (map_result f xs); cbn [res_bind]; [|done].
  by destruct (map_result f ys).
Qed.

(** Transforming through one map after another. *)
Fixpoint transform_chain (ms : list ChangeMap) (x : Anchor) : result Anchor :=
  match ms with
  | [] => Ok x
  | m :: ms => let? x := Transform m x in transform_chain ms x
  end.

Lemma chain_transforms next total rev len t r l x :
  compose_check next total rev len = Ok (t, r, l) -> Forall map_ok next ->
  badAffinity (a_Affinity x) = false -> 0 <= a_Offset x <= len ->
  transform_chain next x =
  Ok (mkAnchor (transform_all (concat (map cm_edits next)) (a_Affinity x) (a_Offset x)) (a_Affinity x)).
Proof.
  revert total rev len x. induction next as [|c next IH]; intros total rev len x H Hok Ha Hx; [by destruct x|].
  cbn [compose_check] in H. destruct (Z.eqb_spec rev (cm_beforeRevision c)) as [->|]; cbn [negb] in H; [|done].
  destruct (Z.eqb_spec len (cm_beforeLength c)) as [->|]; cbn [negb] in H; [|done].
  destruct (MaximumEdits - total <? _); [done|]. inversion Hok as [|? ? Hc Hrest]; subst.
  cbn [transform_chain map concat]. unfold Transform, checkAnchor. rewrite Ha.
  rewrite (proj2 (Z.ltb_ge (a_Offset x) 0)), (proj2 (Z.ltb_ge (cm_beforeLength c) (a_Offset x))) by lia.
  cbn [orb res_bind]. erewrite (IH _ _ _ _ H Hrest); cbn [a_Affinity a_Offset]; [by rewrite transform_all_app|done|].
  destruct Hc as [Hl He _ _]. eapply transform_all_range; eauto.
Qed.

(** Each map starts at the boundary the previous one ends at. *)
Fixpoint adjacent (rev len : Z) (next : list ChangeMap) : Prop :=
  match next with
  | [] => True
  | c :: next => rev = cm_beforeRevision c /\ len = cm_beforeLength c /\
                 adjacent (cm_afterRevision c) (cm_afterLength c) next
  end.

Lemma compose_check_adjacent next total rev len :
  total <= MaximumEdits ->
  (exists trl, compose_check next total rev len = Ok trl) <->
  adjacent rev len next /\ total + zlen (concat (map cm_edits next)) <= MaximumEdits.
Proof.
  revert total rev len. induction next as [|c next IH]; intros total rev len Ht; cbn [compose_check adjacent map concat].
  { rewrite zlen_nil. split; [|eauto]. intros _. split; [done|lia]. }
  rewrite zlen_app. pose proof (zlen_nonneg (concat (map cm_edits next))).
  destruct (Z.eqb_spec rev (cm_beforeRevision c)) as [->|]; cbn [negb]; [|split; [by intros []|naive_solver]].
  destruct (Z.eqb_spec len (cm_beforeLength c)) as [->|]; cbn [negb]; [|split; [by intros []|naive_solver]].
  destruct (Z.ltb_spec (MaximumEdits - total) (zlen (cm_edits c))); [split; [by intros []|intros [_ ?]; lia]|].
  rewrite IH by lia. split; [intros [? ?]; split_and!; done || lia|intros [(_ & _ & ?) ?]; split; done || lia].
Qed.

Lemma compose_check_last next total rev len t r l (m : ChangeMap) :
  compose_check next total rev len = Ok (t, r, l) -> cm_afterRevision m = rev -> cm_afterLength m = len ->
  r = cm_afterRevision (default m (last next)) /\ l = cm_afterLength (default m (last next)).
Proof.
  revert total rev len m. induction next as [|c next IH]; intros total rev len m H Hr Hl; cbn [compose_check] in H.
  { injection H as <- <- <-. by cbn. }
  destruct (negb _); [done|]. destruct (negb _); [done|]. destruct (_ <? _); [done|].
  destruct (IH _ _ _ c H eq_refl eq_refl) as [-> ->]. rewrite last_cons. by destruct (last next).
Qed.

Lemma realizes_chain {A} next (chss : list (list (Edit * list A))) doc :
  Forall2 (fun n chs => realizes (cm_edits n) chs) next chss ->
  realizes (concat (map cm_edits next)) (concat chss) /\
  apply_edits (concat chss) doc = fold_left (fun doc chs => apply_edits chs doc) chss doc.
Proof.
  intros H. revert doc. induction H as [|n chs next chss [H1 H2] Hrest IH]; intros doc; [done|]. cbn [map concat fold_left].
  destruct (IH (apply_edits chs doc)) as [[I1 I2] I3]. rewrite apply_edits_app. split; [|done].
  split; [by rewrite map_app, H1, I1|by apply Forall_app].
Qed.

(** C17. Composition is sequential application: [ComposeAll] of well-formed maps
    succeeds exactly along adjacent revisions and lengths within [MaximumEdits];
    the result is well formed from the first boundary to the last, transforms
    every anchor as the maps do one after the other, and changes content as they
    do one after the other. *)
Theorem ComposeAll_correct m next :
  map_ok m -> Forall map_ok next ->
  ((exists c, ComposeAll m next = Ok c) <->
     adjacent (cm_afterRevision m) (cm_afterLength m) next /\
     zlen (cm_edits m ++ concat (map cm_edits next)) <= MaximumEdits) /\
  forall c, ComposeAll m next = Ok c ->
  map_ok c /\ cm_beforeRevision c = cm_beforeRevision m /\ cm_beforeLength c = cm_beforeLength m /\
  cm_afterRevision c = cm_afterRevision (default m (last next)) /\
  cm_afterLength c = cm_afterLength (default m (last next)) /\
  (forall x, Transform c x = (let? x := Transform m x in transform_chain next x)) /\
  (forall A (doc : list A) chs chss, realizes (cm_edits m) chs ->
     Forall2 (fun n chs => realizes (cm_edits n) chs) next chss ->
     realizes (cm_edits c) (chs ++ concat chss) /\
     apply_edits (chs ++ concat chss) doc = fold_left (fun doc chs => apply_edits chs doc) chss (apply_edits chs doc)).
Proof.
  intros [Hl He Hn Hr] Hnext. unfold ComposeAll. split.
  { rewrite zlen_app, <-compose_check_adjacent by done.
    destruct (compose_check _ _ _ _) as [[[t r] l]|]; cbn; naive_solver. }
  intros c. destruct (compose_check _ _ _ _) as [[[t r] l]|] eqn:Hc; [|done]. cbn [res_bind]. intros [= <-].
  destruct (compose_check_spec _ _ _ _ _ _ _ Hc) as (-> & Ht & Hf). destruct (Hf Hnext) as [Hes Hrev].
  destruct (compose_check_last _ _ _ _ _ _ _ m Hc eq_refl eq_refl) as [Hlr Hll]. cbn.
  split_and!; try done.
  - split; cbn; [done| | |].
    + apply edits_ok_app. by exists (cm_afterLength m).
    + rewrite zlen_app. destruct next; [cbn [map concat]; rewrite zlen_nil; lia|by apply Ht].
    + intros [E1 E2]%app_eq_nil. rewrite (Hrev E2). by apply Hr.
  - intros x. unfold Transform at 1 2. change (checkAnchor (mkChangeMap _ _ _ _ _) x) with (checkAnchor m x).
    destruct (checkAnchor m x) as [u|] eqn:Hx; [|done]. cbn [res_bind cm_edits].
    assert (exists u, checkAnchor m x = Ok u) as Hx' by eauto. apply checkAnchor_spec in Hx' as [Ha Ho].
    rewrite (chain_transforms _ _ _ _ _ _ _ _ Hc Hnext); cbn [a_Affinity a_Offset].
    + by rewrite fold_left_app.
    + unfold badAffinity. destruct Ha as [-> | ->]; done.
    + eapply transform_all_range; eauto.
  - intros A doc chs chss [H1 H2] Hall. rewrite apply_edits_app.
    destruct (realizes_chain next chss (apply_edits chs doc) Hall) as [[I1 I2] I3]. split; [|done].
    split; [by rewrite map_app, H1, I1|by apply Forall_app].
Qed.

Definition ex_next : ChangeMap := mkChangeMap 3 4 7 5 [mkEdit 1 2 0].
Lemma ex_next_ok : map_ok ex_next.
Proof. split; cbn; unfold edit_ok; cbn; unfold_ints; [lia|lia|done|done]. Qed.

Lemma ComposeAll_correct_witness :
  exists c, ComposeAll ex_map [ex_next] = Ok c /\ map_ok c /\ Transform c (mkAnchor 5 AffinityAfter) = Ok (mkAnchor 4 AffinityAfter).
Proof.
  assert (Forall map_ok [ex_next]) as Hn by (constructor; [exact ex_next_ok|constructor]).
  destruct (ComposeAll_correct ex_map [ex_next] ex_map_ok Hn) as [H1 H2].
  destruct (proj2 H1) as [c Hc]; [by cbn|]. exists c. destruct (H2 c Hc) as (Hok & _ & _ & _ & _ & Ht & _).
  split; [exact Hc|]. split; [exact Hok|]. rewrite Ht. reflexivity.
Defined.

Lemma edits_ok_inverse edits length final :
  edits_ok edits length final -> 0 <= length <= maxInt64 -> edits_ok (map invertEdit (rev edits)) final length.
Proof.
  revert length. induction edits as [|e es IH]; intros length H Hl; [by simpl in *|].
  destruct H as [He H]. cbn [rev]. rewrite map_app. unfold edit_ok in He. apply edits_ok_app.
  exists (length - e_OldLength e + e_NewLength e). split; [apply IH; [done|lia]|].
  cbn. unfold edit_ok. cbn. lia.
Qed.

(** C18. [Invert] is the exact undo: of a well-formed map it is a well-formed map
    between the same boundaries the other way round, inverting twice gives the
    map back, and applying the inverse with the removed text to the changed
    content restores the original content. *)
Theorem Invert_correct m :
  map_ok m ->
  map_ok (Invert m) /\ Invert (Invert m) = m /\
  cm_beforeRevision (Invert m) = cm_afterRevision m /\ cm_afterRevision (Invert m) = cm_beforeRevision m /\
  cm_beforeLength (Invert m) = cm_afterLength m /\ cm_afterLength (Invert m) = cm_beforeLength m /\
  (forall A (doc : list A) chs, zlen doc = cm_beforeLength m -> realizes (cm_edits m) chs ->
     realizes (cm_edits (Invert m)) (inverse_changes chs doc) /\
     apply_edits (inverse_changes chs doc) (apply_edits chs doc) = doc).
Proof.
  intros [Hl He Hn Hr]. split_and!; try done.
  - split; cbn.
    + by eapply edits_ok_final.
    + by apply edits_ok_inverse.
    + rewrite zlen_map. unfold zlen in *. by rewrite length_rev.
    + intros E. symmetry. apply Hr. apply map_eq_nil in E. by rewrite <-(rev_involutive (cm_edits m)), E.
  - destruct m as [br ar bl al es]. unfold Invert. cbn. f_equal. rewrite <-map_rev, rev_involutive, map_map.
    rewrite <-(map_id es) at 2. apply map_ext. by intros [].
  - intros A doc chs Hd Hch. eapply inverse_changes_spec; [done|]. by rewrite Hd.
Qed.

Lemma Invert_correct_witness :
  map_ok (Invert ex_map) /\ Invert (Invert ex_map) = ex_map.
Proof. destruct (Invert_correct ex_map ex_map_ok) as (H1 & H2 & _). split; [exact H1|exact H2]. Defined.

Lemma stableSuffix_spec m :
  map_ok m ->
  exists os cs, stableSuffix m = Some (os, cs) /\
    0 <= os <= cm_beforeLength m /\ 0 <= cs <= cm_afterLength m /\
    cm_beforeLength m - os = cm_afterLength m - cs /\
    forall A (doc : list A) changes, zlen doc = cm_beforeLength m -> realizes (cm_edits m) changes ->
      zdrop os doc = zdrop cs (apply_edits changes doc).
Proof.
  intros [Hl He Hn Hr]. pose proof (edits_ok_final _ _ _ He Hl) as Hfin.
  destruct (suffix_loop_spec _ 0 0 (cm_beforeLength m) _ _ He) as (os & cs & H1 & H2 & H3 & H4 & H5); [lia..|].
  exists os, cs. unfold stableSuffix. rewrite H1, Z.eqb_refl. cbn [negb orb]. unwrap64_goal.
  rewrite (proj2 (Z.eqb_eq _ _)) by lia. split_and!; try done; try lia.
  intros A doc changes Hd Hch. by apply H5.
Qed.

(** [stableSuffix] is sound: of a well-formed map it always returns a pair of
    boundaries inside the old and the new document, with equally long suffixes,
    and whatever is inserted the new content from its boundary on is the old
    content from its boundary on. *)
Theorem stableSuffix_correct m :
  map_ok m ->
  exists os cs, stableSuffix m = Some (os, cs) /\
    0 <= os <= cm_beforeLength m /\ 0 <= cs <= cm_afterLength m /\
    cm_beforeLength m - os = cm_afterLength m - cs /\
    forall A (doc : list A) changes, zlen doc = cm_beforeLength m -> realizes (cm_edits m) changes ->
      zdrop os doc = zdrop cs (apply_edits changes doc).
Proof. apply stableSuffix_spec. Qed.

Lemma stableSuffix_correct_witness :
  exists os cs, stableSuffix ex_map = Some (os, cs) /\
    0 <= os <= 6 /\ 0 <= cs <= 7 /\ 6 - os = 7 - cs /\
    forall A (doc : list A) changes, zlen doc = 6 -> realizes (cm_edits ex_map) changes ->
      zdrop os doc = zdrop cs (apply_edits changes doc).
Proof. exact (stableSuffix_correct ex_map ex_map_ok). Defined.

(** ** Ranges and annotations, in batches *)

Definition flat (values : list AnchoredRange) : list Anchor := concat (map (fun v => [r_Start v; r_End v]) values).

Lemma zlen_flat values : zlen (flat values) = 2 * zlen values.
Proof.
  unfold flat. induction values as [|v vs IH]; [done|]. cbn [map concat app]. rewrite !zlen_cons, IH. lia.
Qed.

Lemma flatten_ranges_spec values :
  (forall a, flatten_ranges values = Ok a -> a = flat values).
Proof.
  induction values as [|v vs IH]; cbn [flatten_ranges]; [by intros a [= <-]|]. intros a.
  destruct (_ <? _); [done|]. destruct (flatten_ranges vs) as [b|]; [|done]. cbn [res_bind]. intros [= <-].
  by rewrite (IH b eq_refl).
Qed.

Lemma ranges_pipeline m values rs :
  (let? a := flatten_ranges values in let? t := map_result (Transform m) a in pair_ranges t) = Ok rs <->
  map_result (TransformRange m) values = Ok rs.
Proof.
  revert rs. induction values as [|v vs IH]; intros rs; [done|]. cbn [flatten_ranges map_result]. unfold TransformRange at 1.
  destruct (_ <? _); [done|].
  destruct (Transform m (r_Start v)) as [s|] eqn:Hs; cbn [res_bind].
  2:{ destruct (flatten_ranges vs); cbn [res_bind map_result]; rewrite ?Hs; done. }
  destruct (Transform m (r_End v)) as [t|] eqn:Ht; cbn [res_bind].
  2:{ destruct (flatten_ranges vs); cbn [res_bind map_result]; rewrite ?Hs; cbn [res_bind]; rewrite ?Ht; done. }
  destruct (flatten_ranges vs) as [a|] eqn:Ha; cbn [res_bind map_result] in *.
  - rewrite Hs, Ht. cbn [res_bind]. destruct (map_result (Transform m) a) as [ts|] eqn:Hts; cbn [res_bind pair_ranges] in *.
    + destruct (_ <? _); [done|]. cbn [res_bind]. destruct (pair_ranges ts) as [ps|]; cbn [res_bind].
      * by rewrite (proj1 (IH ps) eq_refl).
      * destruct (map_result (TransformRange m) vs) as [ps|]; [|done]. by destruct (proj2 (IH ps) eq_refl).
    + destruct (_ <? _); [done|]. cbn [res_bind]. destruct (map_result (TransformRange m) vs) as [ps|]; [|done].
      by destruct (proj2 (IH ps) eq_refl).
  - destruct (_ <? _); [done|]. cbn [res_bind]. destruct (map_result (TransformRange m) vs) as [ps|]; [|done].
    by destruct (proj2 (IH ps) eq_refl).
Qed.

Lemma TransformAnchors_eq m anchors :
  TransformAnchors m anchors =
    (if MaximumTransformSteps <? zlen (cm_edits m) * zlen anchors then Err coordinate_ErrTooComplex
     else map_result (Transform m) anchors).
Proof.
  pose proof (zlen_nonneg (cm_edits m)). pose proof (zlen_nonneg anchors).
  replace (zlen (cm_edits m) * zlen anchors) with (zlen (cm_edits m) * 1 * zlen anchors) by lia.
  rewrite <-transformTooComplex_spec by lia. unfold TransformAnchors.
  by destruct (transformAnchors_spec None O m anchors) as [H'|(? & ? & ? & ? & _)].
Qed.

Lemma TransformRanges_eq m values rs :
  TransformRanges m (Some values) = Ok rs <->
  zlen (cm_edits m) * 2 * zlen values <= MaximumTransformSteps /\
  exists ps, rs = Some ps /\ map_result (TransformRange m) values = Ok ps.
Proof.
  unfold TransformRanges, transformRanges. rewrite transformTooComplex_spec by (auto using zlen_nonneg; lia).
  destruct (Z.ltb_spec MaximumTransformSteps (zlen (cm_edits m) * 2 * zlen values)) as [Hc|Hc].
  { cbn. split; [done|]. intros [? _]. lia. }
  assert (forall ps, (let? a := flatten_ranges values in let? t := TransformAnchors m a in pair_ranges t) = Ok ps <->
    map_result (TransformRange m) values = Ok ps) as Hpipe.
  { intros ps. rewrite <-ranges_pipeline. destruct (flatten_ranges values) as [a|] eqn:Ha; [|done]. cbn [res_bind].
    rewrite TransformAnchors_eq. rewrite (proj2 (Z.ltb_ge _ _)); [done|].
    rewrite (flatten_ranges_spec _ _ Ha), zlen_flat. lia. }
  destruct (flatten_ranges values) as [a|] eqn:Ha; cbn [res_bind snd] in *.
  - destruct (TransformAnchors m a) as [t|]; cbn [res_bind] in *.
    + destruct (pair_ranges t) as [ps|]; cbn [res_bind] in *.
      * split; [intros [= <-]; split; [done|]; exists ps; split; [done|by apply Hpipe]|].
        intros (_ & ps' & -> & Hps). apply Hpipe in Hps. by injection Hps as ->.
      * split; [done|]. intros (_ & ps' & -> & Hps). by apply Hpipe in Hps.
    + split; [done|]. intros (_ & ps' & -> & Hps). by apply Hpipe in Hps.
  - split; [done|]. intros (_ & ps' & -> & Hps). by apply Hpipe in Hps.
Qed.

Lemma map_result_Forall2 {X Y} (f : X -> result Y) xs ys :
  map_result f xs = Ok ys <-> Forall2 (fun x y => f x = Ok y) xs ys.
Proof.
  revert ys. induction xs as [|x xs IH]; intros ys; cbn [map_result].
  { split; [intros [= <-]; constructor|]. by inversion 1. }
  split.
  - destruct (f x) as [y|] eqn:Hf; [|done]. cbn [res_bind]. destruct (map_result f xs) as [zs|]; [|done].
    cbn [res_bind]. intros [= <-]. constructor; [done|]. by apply IH.
  - inversion 1 as [|? y ? zs Hf Hrest]; subst. rewrite Hf. cbn [res_bind]. by rewrite (proj2 (IH zs) Hrest).
Qed.

(** A batch of annotated ranges moves as a whole: [TransformAnnotations]
    succeeds exactly when twice the edits times the items stay within
    [MaximumTransformSteps] and [TransformRange] succeeds for every item, and then
    returns in order each item's transformed range - never inverted - with its
    value untouched; a nil batch stays nil. *)
Theorem TransformAnnotations_correct {T} m (values : list (Annotation T)) out :
  (@TransformAnnotations T m None = Ok None) /\
  (TransformAnnotations m (Some values) = Ok out <->
   zlen (cm_edits m) * 2 * zlen values <= MaximumTransformSteps /\
   exists news, out = Some news /\
     Forall2 (fun v n => TransformRange m (an_Range v) = Ok (an_Range n) /\ an_Value n = an_Value v /\
                a_Offset (r_Start (an_Range n)) <= a_Offset (r_End (an_Range n))) values news).
Proof.
  split; [done|]. unfold TransformAnnotations, transformAnnotations. cbn [snd].
  assert (forall rs, map_result (TransformRange m) (map an_Range values) = Ok rs <->
    Forall2 (fun v n => TransformRange m (an_Range v) = Ok (an_Range n) /\ an_Value n = an_Value v /\
                a_Offset (r_Start (an_Range n)) <= a_Offset (r_End (an_Range n))) values
      (zip_with (fun r v => mkAnnotation r (an_Value v)) rs values) /\ length rs = length values) as Hzip.
  { intros rs. rewrite map_result_Forall2. revert rs. induction values as [|v vs IH]; intros rs; cbn [map].
    - split; [inversion 1; subst; by split; [constructor|]|]. intros [_ Hl]. destruct rs; [constructor|done].
    - split.
      + inversion 1 as [|? r ? rs' Hr Hrest]; subst. apply IH in Hrest as [H1 H2]. cbn [zip_with length].
        split; [|by f_equal]. constructor; [|done]. cbn. split_and!; [done|done|].
        unfold TransformRange in Hr. destruct (_ <? _); [done|]. destruct (Transform m _); [|done]. cbn [res_bind] in Hr.
        destruct (Transform m _); [|done]. cbn [res_bind] in Hr. destruct (Z.ltb_spec (a_Offset a0) (a_Offset a)); [done|].
        injection Hr as <-. cbn. lia.
      + intros [H1 H2]. destruct rs as [|r rs]; [done|]. cbn [zip_with] in H1. inversion H1 as [|? ? ? ? [Hr _] Hrest]; subst.
        constructor; [done|]. apply IH. split; [done|]. by injection H2. }
  split.
  - destruct (TransformRanges m (Some (map an_Range values))) as [rs|] eqn:Hr; cbn [res_bind]; [|done]. intros [= <-].
    apply TransformRanges_eq in Hr as (Hc & ps & -> & Hps). rewrite zlen_map in Hc. split; [done|].
    eexists. split; [done|]. cbn [default]. by apply Hzip in Hps as [? _].
  - intros (Hc & news & -> & Hall).
    assert (TransformRanges m (Some (map an_Range values)) = Ok (Some (map an_Range news))) as ->.
    { apply TransformRanges_eq. rewrite zlen_map. split; [done|]. eexists. split; [done|].
      apply map_result_Forall2. clear -Hall. induction Hall as [|v n vs ns [H _] _ IH]; cbn [map]; by constructor. }
    cbn [res_bind default]. do 2 f_equal. clear -Hall.
    induction Hall as [|v [r w] vs ns (_ & Hw & _) _ IH]; [done|]. cbn in *. by rewrite <-Hw, IH.
Qed.
