(* ===== verification/ChangeHistory.v ===== *)
(** * document/change_history.go: the retained window of change maps

    A ring buffer of the last [limit] maps, refined to the list of retained maps
    with the boundary they start from. *)

From Stdlib Require Import ZArith Lia List.
From stdpp Require Import base list numbers sets.
From S2P Require Import Prelude ChangeMap.
#[local] Open Scope Z_scope.

Definition maximumAnchorTransformSteps : Z := MaximumTransformSteps.

Record ChangeHistoryError := mkChangeHistoryError {
  che_FromRevision : Z; che_ToRevision : Z; che_OldestRevision : Z; che_CurrentRevision : Z;
  che_Err : error }.

(** The errors of the history operations: a plain one or a [*ChangeHistoryError]. *)
Inductive history_error := PlainError (e : error) | RangeError (e : ChangeHistoryError).

(** [errors.Is] through [Unwrap]. *)
Definition unwrapped (e : history_error) : error :=
  match e with PlainError e => e | RangeError e => che_Err e end.

Record ChangeHistoryStats := mkChangeHistoryStats {
  chs_OldestRevision : Z; chs_CurrentRevision : Z; chs_Entries : Z; chs_Limit : Z }.

Record changeHistory := mkChangeHistory {
  h_entries : list ChangeMap; h_start : Z; h_count : Z;
  h_baseRevision : Z; h_baseLength : Z; h_currentRevision : Z; h_currentLength : Z }.

(** The zero value of [coordinate.ChangeMap]. *)
Definition zeroChangeMap : ChangeMap := mkChangeMap 0 0 0 0 [].

Definition newChangeHistory (limit revision length : Z) : changeHistory :=
  mkChangeHistory (replicate (Z.to_nat limit) zeroChangeMap) 0 0 revision length revision length.

Definition reset (h : changeHistory) (revision length : Z) : changeHistory :=
  mkChangeHistory (replicate (List.length (h_entries h)) zeroChangeMap) 0 0 revision length revision length.

(** [h.entries[i]] *)
Definition entry_at (h : changeHistory) (i : Z) : ChangeMap := default zeroChangeMap (h_entries h !! Z.to_nat i).

Definition entry (h : changeHistory) (index : Z) : ChangeMap :=
  entry_at h ((h_start h + index) mod zlen (h_entries h)).

Definition append (h : changeHistory) (change : ChangeMap) : changeHistory :=
  if Len change =? 0 then
    if negb (BeforeRevision change =? h_currentRevision h) || negb (BeforeLength change =? h_currentLength h) ||
       negb (AfterRevision change =? h_currentRevision h) || negb (AfterLength change =? h_currentLength h)
    then reset h (AfterRevision change) (AfterLength change)
    else h
  else
    let h := if negb (BeforeRevision change =? h_currentRevision h) || negb (BeforeLength change =? h_currentLength h) ||
                (AfterRevision change <=? BeforeRevision change)
             then reset h (BeforeRevision change) (BeforeLength change) else h in
    if h_count h =? zlen (h_entries h) then
      let evicted := entry_at h (h_start h) in
      mkChangeHistory (<[Z.to_nat (h_start h) := change]> (h_entries h))
        ((h_start h + 1) mod zlen (h_entries h)) (h_count h)
        (AfterRevision evicted) (AfterLength evicted) (AfterRevision change) (AfterLength change)
    else
      let index := (h_start h + h_count h) mod zlen (h_entries h) in
      mkChangeHistory (<[Z.to_nat index := change]> (h_entries h)) (h_start h) (h_count h + 1)
        (h_baseRevision h) (h_baseLength h) (AfterRevision change) (AfterLength change).

Definition rangeError (h : changeHistory) (fromRevision toRevision : Z) (err : error) : history_error :=
  RangeError (mkChangeHistoryError fromRevision toRevision (h_baseRevision h) (h_currentRevision h) err).

(** The scan of [boundaryLength] over [entry index .. entry (index + n - 1)]. *)
Fixpoint boundary_loop (n : nat) (h : changeHistory) (index revision : Z) : option Z :=
  match n with
  | O => None
  | S n =>
    let change := entry h index in
    if revision =? AfterRevision change then Some (AfterLength change)
    else boundary_loop n h (index + 1) revision
  end.

Definition boundaryLength (h : changeHistory) (revision : Z) : option Z :=
  if revision =? h_baseRevision h then Some (h_baseLength h)
  else boundary_loop (Z.to_nat (h_count h)) h 0 revision.

(** The chain-building loop of [between]; [None] is its early return. *)
Fixpoint chain_loop (n : nat) (h : changeHistory) (index cursor high : Z) (chain : list ChangeMap)
  : option (list ChangeMap) :=
  match n with
  | O => Some chain
  | S n =>
    if cursor <? high then
      let change := entry h index in
      if AfterRevision change <=? cursor then chain_loop n h (index + 1) cursor high chain
      else if negb (BeforeRevision change =? cursor) || (high <? AfterRevision change) then None
      else chain_loop n h (index + 1) (AfterRevision change) high (chain ++ [change])
    else Some chain
  end.

Definition between (h : changeHistory) (fromRevision toRevision : Z) : ChangeMap + history_error :=
  if (fromRevision <? h_baseRevision h) || (toRevision <? h_baseRevision h)
  then inr (rangeError h fromRevision toRevision document_ErrChangeHistoryExpired)
  else if (h_currentRevision h <? fromRevision) || (h_currentRevision h <? toRevision)
  then inr (rangeError h fromRevision toRevision document_ErrRevisionUnavailable)
  else
    match boundaryLength h fromRevision, boundaryLength h toRevision with
    | Some fromLength, Some _ =>
      if fromRevision =? toRevision then
        match Identity fromRevision fromLength with Ok m => inl m | Err e => inr (PlainError e) end
      else
        let reverse := toRevision <? fromRevision in
        let '(low, high) := if reverse then (toRevision, fromRevision) else (fromRevision, toRevision) in
        let lowLength := default 0 (boundaryLength h low) in
        let result := match Identity low lowLength with Ok m => m | Err _ => zeroChangeMap end in
        match chain_loop (Z.to_nat (h_count h)) h 0 low high [] with
        | None => inr (rangeError h fromRevision toRevision document_ErrRevisionUnavailable)
        | Some chain =>
          match ComposeAll result chain with
          | Err _ => inr (rangeError h fromRevision toRevision document_ErrRevisionUnavailable)
          | Ok result => inl (if reverse then Invert result else result)
          end
        end
    | _, _ => inr (rangeError h fromRevision toRevision document_ErrRevisionUnavailable)
    end.

Definition stats (h : changeHistory) : ChangeHistoryStats :=
  mkChangeHistoryStats (h_baseRevision h) (h_currentRevision h) (h_count h) (zlen (h_entries h)).

(** The copy loop of [clone]. *)
Definition clone (h : changeHistory) : changeHistory :=
  mkChangeHistory
    (map (entry h) (map Z.of_nat (seq 0 (Z.to_nat (h_count h)))) ++
     replicate (List.length (h_entries h) - Z.to_nat (h_count h)) zeroChangeMap)
    0 (h_count h) (h_baseRevision h) (h_baseLength h) (h_currentRevision h) (h_currentLength h).

(** ** The Session methods over its history *)

Definition ChangesBetween (history : changeHistory) (fromRevision toRevision : Z) : ChangeMap + history_error :=
  between (clone history) fromRevision toRevision.

Definition lift {A} (r : result A) : A + history_error :=
  match r with Ok a => inl a | Err e => inr (PlainError e) end.

Definition Session_TransformAnchors (MaxAnchorBatch : Z) (history : changeHistory) (fromRevision toRevision : Z)
  (anchors : list Anchor) : list Anchor + history_error :=
  if MaxAnchorBatch <? zlen anchors then inr (PlainError document_ErrLimitExceeded)
  else
    match between (clone history) fromRevision toRevision with
    | inr e => inr e
    | inl changes =>
      if (0 <? Len changes) && (Z.quot maximumAnchorTransformSteps (Len changes) <? zlen anchors)
      then inr (PlainError document_ErrLimitExceeded)
      else lift (TransformAnchors changes anchors)
    end.

Definition Session_TransformRanges (MaxAnchorBatch : Z) (history : changeHistory) (fromRevision toRevision : Z)
  (values : option (list AnchoredRange)) : option (list AnchoredRange) + history_error :=
  let n := zlen (default [] values) in
  if MaxAnchorBatch <? n then inr (PlainError document_ErrLimitExceeded)
  else
    match between (clone history) fromRevision toRevision with
    | inr e => inr e
    | inl changes =>
      if (0 <? Len changes) && (Z.quot (Z.quot maximumAnchorTransformSteps 2) (Len changes) <? n)
      then inr (PlainError document_ErrLimitExceeded)
      else lift (TransformRanges changes values)
    end.

(** ** The abstract history: the retained maps and where they start *)

Definition retained (h : changeHistory) : list ChangeMap :=
  map (entry h) (map Z.of_nat (seq 0 (Z.to_nat (h_count h)))).

(** Maps that advance the revision one after the other. *)
Fixpoint advancing (rev len : Z) (ms : list ChangeMap) : Prop :=
  match ms with
  | [] => True
  | m :: ms => map_ok m /\ cm_edits m <> [] /\ cm_beforeRevision m = rev /\ cm_beforeLength m = len /\
               rev < cm_afterRevision m /\ advancing (cm_afterRevision m) (cm_afterLength m) ms
  end.

Definition end_revision (rev : Z) (ms : list ChangeMap) : Z := default rev (cm_afterRevision <$> last ms).
Definition end_length (len : Z) (ms : list ChangeMap) : Z := default len (cm_afterLength <$> last ms).

Record history_ok (h : changeHistory) : Prop := mkHistoryOk {
  ho_limit : 0 < zlen (h_entries h);
  ho_start : 0 <= h_start h < zlen (h_entries h);
  ho_count : 0 <= h_count h <= zlen (h_entries h);
  ho_length : 0 <= h_baseLength h <= maxInt64;
  ho_chain : advancing (h_baseRevision h) (h_baseLength h) (retained h);
  ho_revision : h_currentRevision h = end_revision (h_baseRevision h) (retained h);
  ho_current : h_currentLength h = end_length (h_baseLength h) (retained h) }.

(** What appending does to the retained maps. *)
Definition retain (limit rev len : Z) (ms : list ChangeMap) (change : ChangeMap) : Z * Z * list ChangeMap :=
  let '(rev, len, ms) :=
    if bool_decide (BeforeRevision change = end_revision rev ms /\ BeforeLength change = end_length len ms)
    then (rev, len, ms) else (BeforeRevision change, BeforeLength change, []) in
  match ms ++ [change] with
  | oldest :: rest =>
    if limit <? zlen (ms ++ [change]) then (AfterRevision oldest, AfterLength oldest, rest)
    else (rev, len, ms ++ [change])
  | [] => (rev, len, [])
  end.

(** ** The ring *)

Lemma entry_ring h i : entry h i = default zeroChangeMap (ring_at (h_entries h) (h_start h) i).
Proof. reflexivity. Qed.

Lemma length_retained h : length (retained h) = Z.to_nat (h_count h).
Proof. unfold retained. by rewrite !length_map, length_seq. Qed.

Lemma lookup_retained h i :
  (i < Z.to_nat (h_count h))%nat -> retained h !! i = Some (entry h (Z.of_nat i)).
Proof.
  intros Hi. unfold retained. rewrite !list_lookup_fmap. rewrite lookup_seq_lt by lia. done.
Qed.

Lemma retained_ext h ms :
  length ms = Z.to_nat (h_count h) ->
  (forall i, (i < length ms)%nat -> ms !! i = Some (entry h (Z.of_nat i))) -> retained h = ms.
Proof.
  intros Hl H. apply list_eq. intros i. destruct (decide (i < length ms)%nat) as [Hi|Hi].
  - rewrite H, lookup_retained by lia. done.
  - rewrite !lookup_ge_None_2; [done|lia|rewrite length_retained; lia].
Qed.

Lemma retained_push h change :
  0 < zlen (h_entries h) -> 0 <= h_start h < zlen (h_entries h) -> 0 <= h_count h < zlen (h_entries h) ->
  forall br bl cr cl,
  retained (mkChangeHistory (<[Z.to_nat ((h_start h + h_count h) mod zlen (h_entries h)) := change]> (h_entries h))
              (h_start h) (h_count h + 1) br bl cr cl) = retained h ++ [change].
Proof.
  intros HL Hs Hc br bl cr cl. apply retained_ext.
  { rewrite length_app, length_retained. cbn. lia. }
  intros i Hi. rewrite length_app, length_retained in Hi. cbn in Hi.
  rewrite entry_ring. cbn [h_entries h_start]. rewrite ring_at_set by lia.
  case_decide as E.
  - rewrite lookup_app_r by (rewrite length_retained; lia). rewrite length_retained.
    by replace (i - Z.to_nat (h_count h))%nat with 0%nat by lia.
  - rewrite lookup_app_l by (rewrite length_retained; lia). rewrite lookup_retained by lia. done.
Qed.

Lemma retained_rotate h change :
  0 <= h_start h < zlen (h_entries h) -> h_count h = zlen (h_entries h) ->
  forall br bl cr cl,
  retained (mkChangeHistory (<[Z.to_nat (h_start h) := change]> (h_entries h))
              ((h_start h + 1) mod zlen (h_entries h)) (h_count h) br bl cr cl) = tail (retained h) ++ [change].
Proof.
  intros Hs Hc br bl cr cl. set (L := zlen (h_entries h)) in *.
  assert (length (tail (retained h)) = Z.to_nat (L - 1)) as Ht.
  { rewrite length_tl, length_retained. lia. }
  apply retained_ext; [rewrite length_app, Ht; cbn; lia|].
  intros i Hi. rewrite length_app, Ht in Hi. cbn in Hi.
  rewrite entry_ring. cbn [h_entries h_start]. unfold L in *. rewrite ring_at_rotate by lia. case_decide as E.
  - rewrite lookup_app_r by lia. rewrite Ht. by replace (i - Z.to_nat (zlen (h_entries h) - 1))%nat with 0%nat by lia.
  - rewrite lookup_app_l by lia. rewrite lookup_tail, lookup_retained by lia. rewrite entry_ring.
    replace (Z.of_nat (S i)) with (Z.of_nat i + 1) by lia. done.
Qed.

(** ** Advancing chains *)

Lemma end_revision_cons rev m ms : end_revision rev (m :: ms) = end_revision (cm_afterRevision m) ms.
Proof. unfold end_revision. rewrite last_cons. by destruct (last ms). Qed.
Lemma end_length_cons len m ms : end_length len (m :: ms) = end_length (cm_afterLength m) ms.
Proof. unfold end_length. rewrite last_cons. by destruct (last ms). Qed.

Lemma advancing_app rev len ms ns :
  advancing rev len (ms ++ ns) <-> advancing rev len ms /\ advancing (end_revision rev ms) (end_length len ms) ns.
Proof.
  revert rev len. induction ms as [|m ms IH]; intros rev len; cbn [app advancing].
  { change (end_revision rev []) with rev. change (end_length len []) with len. tauto. }
  rewrite IH, end_revision_cons, end_length_cons. tauto.
Qed.

Lemma end_revision_app rev ms ns : end_revision rev (ms ++ ns) = end_revision (end_revision rev ms) ns.
Proof.
  revert rev. induction ms as [|m ms IH]; intros rev; [done|]. cbn [app]. by rewrite !end_revision_cons, IH.
Qed.
Lemma end_length_app len ms ns : end_length len (ms ++ ns) = end_length (end_length len ms) ns.
Proof.
  revert len. induction ms as [|m ms IH]; intros len; [done|]. cbn [app]. by rewrite !end_length_cons, IH.
Qed.

Lemma advancing_le rev len ms : advancing rev len ms -> rev <= end_revision rev ms.
Proof.
  revert rev len. induction ms as [|m ms IH]; intros rev len H; [done|]. rewrite end_revision_cons.
  destruct H as (_ & _ & _ & _ & ? & H). apply IH in H. lia.
Qed.

Lemma advancing_length rev len ms :
  advancing rev len ms -> 0 <= len <= maxInt64 -> 0 <= end_length len ms <= maxInt64.
Proof.
  revert rev len. induction ms as [|m ms IH]; intros rev len H Hl; [done|]. rewrite end_length_cons.
  destruct H as ([? He _ _] & _ & _ & _ & _ & H). apply (IH _ _ H). by eapply edits_ok_final.
Qed.

Lemma retained_reset h rev len : retained (reset h rev len) = [].
Proof. reflexivity. Qed.

Lemma reset_ok h rev len : 0 < zlen (h_entries h) -> 0 <= len <= maxInt64 -> history_ok (reset h rev len).
Proof.
  intros HL Hlen. split; try rewrite retained_reset; cbn [reset h_entries h_start h_count h_baseLength h_currentRevision h_currentLength];
    rewrite ?zlen_replicate_nat; fold (zlen (h_entries h)); unfold zlen in *; try lia; done.
Qed.

(** The two branches that store [change], on a history ending where it starts. *)
Lemma store_ok h change :
  history_ok h -> map_ok change -> cm_edits change <> [] -> BeforeRevision change = h_currentRevision h ->
  BeforeLength change = h_currentLength h -> BeforeRevision change < AfterRevision change ->
  let h' := if h_count h =? zlen (h_entries h) then
      let evicted := entry_at h (h_start h) in
      mkChangeHistory (<[Z.to_nat (h_start h) := change]> (h_entries h))
        ((h_start h + 1) mod zlen (h_entries h)) (h_count h)
        (AfterRevision evicted) (AfterLength evicted) (AfterRevision change) (AfterLength change)
    else
      let index := (h_start h + h_count h) mod zlen (h_entries h) in
      mkChangeHistory (<[Z.to_nat index := change]> (h_entries h)) (h_start h) (h_count h + 1)
        (h_baseRevision h) (h_baseLength h) (AfterRevision change) (AfterLength change) in
  history_ok h' /\ zlen (h_entries h') = zlen (h_entries h) /\
  (h_baseRevision h', h_baseLength h', retained h') =
  match retained h ++ [change] with
  | oldest :: rest => if zlen (h_entries h) <? zlen (retained h ++ [change])
                      then (AfterRevision oldest, AfterLength oldest, rest)
                      else (h_baseRevision h, h_baseLength h, retained h ++ [change])
  | [] => (h_baseRevision h, h_baseLength h, [])
  end.
Proof.
  intros [HL Hs Hc Hl Hch Hr Hcl] Hok Hne Hbr Hbl Hadv.
  assert (advancing (h_baseRevision h) (h_baseLength h) (retained h ++ [change])) as Hch'.
  { apply advancing_app. rewrite <-Hr, <-Hcl. split; [done|]. cbn.
    unfold BeforeRevision, AfterRevision, BeforeLength in *. split_and!; try done. lia. }
  assert (zlen (retained h ++ [change]) = h_count h + 1) as Hz.
  { unfold zlen. rewrite length_app, length_retained. cbn. lia. }
  rewrite Hz. destruct (Z.eqb_spec (h_count h) (zlen (h_entries h))) as [Hfull|Hroom]; cbn zeta.
  - assert (retained h <> []) as Hnn by (intros E; apply (f_equal length) in E; rewrite length_retained in E; cbn in E; lia).
    destruct (retained h) as [|oldest rest] eqn:Hret; [done|]. cbn [app] in *.
    assert (entry_at h (h_start h) = oldest) as Hev.
    { pose proof (lookup_retained h 0 ltac:(lia)) as Hx. rewrite Hret in Hx. injection Hx as ->.
      unfold entry. f_equal. rewrite Z.add_0_r, Z.mod_small by lia. done. }
    rewrite Hev. set (h' := mkChangeHistory _ _ _ _ _ _ _).
    assert (retained h' = rest ++ [change]) as Hret' by (unfold h'; rewrite retained_rotate, Hret by done; done).
    destruct Hch' as (Hold & _ & _ & _ & _ & Hrest). rewrite end_revision_cons in Hr. rewrite end_length_cons in Hcl.
    rewrite (proj2 (Z.ltb_lt _ _)) by lia. split_and!; [|unfold h'; cbn [h_entries]; by rewrite zlen_insert|by rewrite Hret'].
    split; rewrite ?Hret'; cbn [h' h_entries h_start h_count h_baseRevision h_baseLength h_currentRevision h_currentLength];
      rewrite ?zlen_insert; try lia; try done.
    + apply Z.mod_pos_bound. lia.
    + destruct Hold as [? He _ _]. by eapply edits_ok_final.
    + rewrite end_revision_app. done.
    + rewrite end_length_app. done.
  - set (h' := mkChangeHistory _ _ _ _ _ _ _).
    assert (retained h' = retained h ++ [change]) as Hret' by (unfold h'; rewrite retained_push by lia; done).
    rewrite (proj2 (Z.ltb_ge _ _)) by lia.
    split_and!; [|unfold h'; cbn [h_entries]; by rewrite zlen_insert|rewrite Hret'; by destruct (retained h)].
    split; rewrite ?Hret'; cbn [h' h_entries h_start h_count h_baseRevision h_baseLength h_currentRevision h_currentLength];
      rewrite ?zlen_insert; try lia; try done.
    + rewrite end_revision_app. done.
    + rewrite end_length_app. done.
Qed.

(** C20. The ring is the list of the last [limit] maps: appending a non-empty map
    that advances the revision keeps the invariant - the retained maps chain from
    the base boundary to the current one - and does to the retained list exactly
    what [retain] says: a map that does not start at the current boundary starts
    a new window, and beyond the limit the oldest map leaves and the base moves
    to its end; an empty map changes nothing or, off the boundary, restarts the
    window where it ends. *)
Theorem append_refines h change :
  history_ok h -> map_ok change ->
  let h' := append h change in
  (cm_edits change <> [] -> BeforeRevision change < AfterRevision change ->
     history_ok h' /\ zlen (h_entries h') = zlen (h_entries h) /\
     (h_baseRevision h', h_baseLength h', retained h') =
       retain (zlen (h_entries h)) (h_baseRevision h) (h_baseLength h) (retained h) change) /\
  (cm_edits change = [] ->
     history_ok h' /\ zlen (h_entries h') = zlen (h_entries h) /\
     (h' = h \/ (h_baseRevision h', h_baseLength h', retained h') = (AfterRevision change, AfterLength change, []))).
Proof.
  intros Hh Hok. pose proof Hh as [HL Hs Hc Hl Hch Hr Hcl]. cbn zeta. unfold append, Len. split.
  - intros Hne Hadv.
    destruct (Z.eqb_spec (zlen (cm_edits change)) 0) as [E|_]; [by apply zlen_zero in E|].
    assert (AfterRevision change <=? BeforeRevision change = false) as -> by (apply Z.leb_gt; lia).
    rewrite orb_false_r. unfold retain. rewrite <-Hr, <-Hcl.
    destruct (negb (BeforeRevision change =? h_currentRevision h) || negb (BeforeLength change =? h_currentLength h)) eqn:G.
    + rewrite bool_decide_eq_false_2.
      2:{ intros [E1 E2]. by rewrite E1, E2, !Z.eqb_refl in G. }
      assert (0 <= BeforeLength change <= maxInt64) as Hbl by apply Hok.
      pose proof (store_ok (reset h (BeforeRevision change) (BeforeLength change)) change
        (reset_ok h _ _ HL Hbl) Hok Hne eq_refl eq_refl Hadv) as H.
      rewrite retained_reset in H. cbn [app] in *.
      assert (zlen (h_entries (reset h (BeforeRevision change) (BeforeLength change))) = zlen (h_entries h)) as E.
      { cbn [reset h_entries]. by rewrite zlen_replicate_nat. }
      rewrite E in *. exact H.
    + rewrite orb_false_iff, !negb_false_iff, !Z.eqb_eq in G. destruct G as [G1 G2].
      rewrite bool_decide_eq_true_2 by done.
      apply (store_ok h change Hh Hok Hne G1 G2 Hadv).
  - intros Hnil. rewrite Hnil. change (zlen (@nil Edit) =? 0) with true. cbv iota.
    destruct (_ || _); [|by split_and!; [..|left]].
    assert (0 <= AfterLength change <= maxInt64) as Hal by (destruct Hok as [? He _ _]; by eapply edits_ok_final).
    split_and!; [by apply reset_ok|cbn [reset h_entries]; by rewrite zlen_replicate_nat|by right].
Qed.

(** ** Queries *)

Fixpoint find_boundary (ms : list ChangeMap) (revision : Z) : option Z :=
  match ms with
  | [] => None
  | m :: ms => if revision =? AfterRevision m then Some (AfterLength m) else find_boundary ms revision
  end.

Fixpoint chain_of (ms : list ChangeMap) (cursor high : Z) (chain : list ChangeMap) : option (list ChangeMap) :=
  match ms with
  | [] => Some chain
  | m :: ms =>
    if cursor <? high then
      if AfterRevision m <=? cursor then chain_of ms cursor high chain
      else if negb (BeforeRevision m =? cursor) || (high <? AfterRevision m) then None
      else chain_of ms (AfterRevision m) high (chain ++ [m])
    else Some chain
  end.

Lemma drop_retained h i :
  (i < Z.to_nat (h_count h))%nat -> drop i (retained h) = entry h (Z.of_nat i) :: drop (S i) (retained h).
Proof. intros Hi. apply drop_S. by apply lookup_retained. Qed.

Lemma boundary_loop_eq h n i r :
  (i + n = Z.to_nat (h_count h))%nat -> boundary_loop n h (Z.of_nat i) r = find_boundary (drop i (retained h)) r.
Proof.
  revert i. induction n as [|n IH]; intros i Hi.
  { rewrite drop_ge by (rewrite length_retained; lia). done. }
  rewrite drop_retained by lia. cbn [boundary_loop find_boundary]. case_match; [done|].
  replace (Z.of_nat i + 1) with (Z.of_nat (S i)) by lia. apply IH. lia.
Qed.

Lemma chain_loop_eq h n i cursor high chain :
  (i + n = Z.to_nat (h_count h))%nat ->
  chain_loop n h (Z.of_nat i) cursor high chain = chain_of (drop i (retained h)) cursor high chain.
Proof.
  revert i cursor chain. induction n as [|n IH]; intros i cursor chain Hi.
  { rewrite drop_ge by (rewrite length_retained; lia). done. }
  rewrite drop_retained by lia. cbn [chain_loop chain_of].
  replace (Z.of_nat i + 1) with (Z.of_nat (S i)) by lia.
  rewrite !IH by lia. done.
Qed.

(** A boundary is the end of a prefix of the retained maps. *)
Definition boundary (rev : Z) (ms : list ChangeMap) (r : Z) (pre post : list ChangeMap) : Prop :=
  ms = pre ++ post /\ end_revision rev pre = r.

Lemma find_boundary_above ms rev len r : advancing rev len ms -> r <= rev -> find_boundary ms r = None.
Proof.
  revert rev len. induction ms as [|m ms IH]; intros rev len H Hr; [done|].
  destruct H as (_ & _ & _ & _ & Hlt & H). cbn [find_boundary]. unfold AfterRevision.
  rewrite (proj2 (Z.eqb_neq _ _)) by lia. apply (IH _ _ H). lia.
Qed.

Lemma find_boundary_spec ms rev len r l :
  advancing rev len ms ->
  (if r =? rev then Some len else find_boundary ms r) = Some l <->
  exists pre post, boundary rev ms r pre post /\ l = end_length len pre.
Proof.
  unfold boundary. revert rev len. induction ms as [|m ms IH]; intros rev len H.
  { cbn. split.
    - destruct (Z.eqb_spec r rev) as [->|]; [|done]. intros [= <-]. by exists [], [].
    - intros (pre & post & [E <-] & ->). symmetry in E. apply app_eq_nil in E as [-> ->]. by rewrite Z.eqb_refl. }
  destruct H as (_ & _ & _ & _ & Hlt & H). pose proof (IH _ _ H) as IHm. cbn [find_boundary]. unfold AfterRevision, AfterLength.
  destruct (Z.eqb_spec r rev) as [->|Hne].
  - split.
    + intros [= <-]. by exists [], (m :: ms).
    + intros (pre & post & [E Er] & ->). destruct pre as [|p pre]; [done|]. injection E as <- ->.
      rewrite end_revision_cons in Er. apply advancing_app in H as [H _]. apply advancing_le in H. lia.
  - rewrite IHm. split.
    + intros (pre & post & [-> Er] & ->). exists (m :: pre), post. by rewrite end_revision_cons, end_length_cons.
    + intros (pre & post & [E Er] & ->). destruct pre as [|p pre]; [done|]. injection E as <- ->.
      exists pre, post. by rewrite <-end_revision_cons with (rev := rev), end_length_cons.
Qed.

Lemma boundaryLength_spec h r l :
  history_ok h -> boundaryLength h r = Some l <->
  exists pre post, boundary (h_baseRevision h) (retained h) r pre post /\ l = end_length (h_baseLength h) pre.
Proof.
  intros Hh. unfold boundaryLength. change 0 with (Z.of_nat 0). rewrite boundary_loop_eq by lia. cbn [drop].
  apply find_boundary_spec. apply Hh.
Qed.

Lemma chain_of_skip pre rest rev len cursor high chain :
  advancing rev len pre -> end_revision rev pre <= cursor -> cursor < high ->
  chain_of (pre ++ rest) cursor high chain = chain_of rest cursor high chain.
Proof.
  revert rev len. induction pre as [|m pre IH]; intros rev len H Hle Hlt; [done|]. rewrite end_revision_cons in Hle.
  destruct H as (_ & _ & _ & _ & _ & H). pose proof (advancing_le _ _ _ H). cbn [app chain_of]. unfold AfterRevision.
  rewrite (proj2 (Z.ltb_lt cursor high)), (proj2 (Z.leb_le _ cursor)) by lia. by apply (IH _ _ H).
Qed.

Lemma chain_of_take mid rest rev len high chain :
  advancing rev len mid -> end_revision rev mid = high ->
  chain_of (mid ++ rest) rev high chain = Some (chain ++ mid).
Proof.
  revert rev len chain. induction mid as [|m mid IH]; intros rev len chain H Hend.
  { cbn in Hend. subst. rewrite app_nil_r. destruct rest; [done|]. cbn [app chain_of]. by rewrite Z.ltb_irrefl. }
  destruct H as (_ & _ & Hb & _ & Hlt & H). rewrite end_revision_cons in Hend. pose proof (advancing_le _ _ _ H).
  cbn [app chain_of]. unfold AfterRevision, BeforeRevision.
  rewrite (proj2 (Z.ltb_lt rev high)), (proj2 (Z.leb_gt _ rev)), (proj2 (Z.eqb_eq _ rev)), (proj2 (Z.ltb_ge high _)) by lia.
  cbn [negb orb]. rewrite (IH _ _ _ H Hend), <-app_assoc. done.
Qed.

Lemma boundary_split rev len ms a b pre1 post1 pre2 post2 :
  advancing rev len ms -> boundary rev ms a pre1 post1 -> boundary rev ms b pre2 post2 -> a < b ->
  exists mid, pre2 = pre1 ++ mid /\ post1 = mid ++ post2.
Proof.
  intros H [E1 Ea] [E2 Eb] Hlt. rewrite E1 in E2. apply app_eq_app in E2 as [mid [[-> ->]|[-> ->]]].
  2:{ by exists mid. }
  exfalso. rewrite E1 in H. apply advancing_app in H as [H _]. rewrite end_revision_app in Ea.
  apply advancing_app in H as [_ H]. apply advancing_le in H. lia.
Qed.

Lemma advancing_ok rev len ms : advancing rev len ms -> Forall map_ok ms.
Proof. revert rev len. induction ms as [|m ms IH]; intros rev len H; [constructor|]. destruct H as (? & _ & _ & _ & _ & H). eauto. Qed.

Lemma advancing_adjacent rev len ms : advancing rev len ms -> adjacent rev len ms.
Proof.
  revert rev len. induction ms as [|m ms IH]; intros rev len H; [done|]. destruct H as (_ & _ & <- & <- & _ & H).
  cbn. eauto.
Qed.

Lemma clone_ok h : history_ok h -> history_ok (clone h) /\ retained (clone h) = retained h.
Proof.
  intros [HL Hs Hc Hl Hch Hr Hcl].
  assert (zlen (h_entries (clone h)) = zlen (h_entries h)) as HL'.
  { cbn [clone h_entries]. unfold zlen in *. rewrite length_app, !length_map, length_seq, length_replicate. lia. }
  assert (retained (clone h) = retained h) as Hret.
  { apply retained_ext; [by rewrite length_retained|]. rewrite length_retained. intros i Hi. rewrite lookup_retained by lia.
    f_equal. unfold entry at 2, entry_at. rewrite HL'. cbn [clone h_start h_entries].
    rewrite Z.add_0_l, Z.mod_small, Nat2Z.id by lia. fold (retained h).
    rewrite lookup_app_l by (rewrite length_retained; lia). by rewrite lookup_retained by lia. }
  split; [|done]. split; rewrite ?Hret, ?HL'; cbn [clone h_start h_count h_baseLength h_baseRevision h_currentRevision h_currentLength]; lia || done.
Qed.

(** The answer to a query between two boundaries. *)
Definition composed (low high lowLength highLength : Z) (mid : list ChangeMap) : ChangeMap :=
  mkChangeMap low high lowLength highLength (concat (map cm_edits mid)).

Definition query_answer (h : changeHistory) (fromRevision toRevision : Z) (m : ChangeMap) : Prop :=
  exists pre mid post,
    retained h = pre ++ mid ++ post /\
    let low := end_revision (h_baseRevision h) pre in
    let lowLength := end_length (h_baseLength h) pre in
    let c := composed low (end_revision low mid) lowLength (end_length lowLength mid) mid in
    map_ok c /\
    ((fromRevision, toRevision) = (low, end_revision low mid) /\ m = c \/
     (toRevision, fromRevision) = (low, end_revision low mid) /\ m = Invert c).

Definition query_error (h : changeHistory) (fromRevision toRevision : Z) (e : history_error) : Prop :=
  exists err, e = RangeError (mkChangeHistoryError fromRevision toRevision (h_baseRevision h) (h_currentRevision h) err) /\
    (err = document_ErrChangeHistoryExpired /\ (fromRevision < h_baseRevision h \/ toRevision < h_baseRevision h) \/
     err = document_ErrRevisionUnavailable /\ h_baseRevision h <= fromRevision /\ h_baseRevision h <= toRevision /\
     ((forall pre post, ~ boundary (h_baseRevision h) (retained h) fromRevision pre post) \/
      (forall pre post, ~ boundary (h_baseRevision h) (retained h) toRevision pre post) \/
      MaximumEdits < zlen (concat (map cm_edits (retained h))))).

Lemma identity_ok rev len : 0 <= len <= maxInt64 -> Identity rev len = Ok (mkChangeMap rev rev len len []) /\ map_ok (mkChangeMap rev rev len len []).
Proof.
  intros Hl. unfold Identity, NewChangeMap. rewrite (proj2 (Z.ltb_ge len 0)), (Z.eqb_refl rev) by lia.
  change (MaximumEdits <? zlen (@nil Edit)) with false. cbn. split; [done|]. split; cbn; unfold MaximumEdits; rewrite ?zlen_nil; done || lia.
Qed.

Lemma boundary_above h r pre post :
  history_ok h -> boundary (h_baseRevision h) (retained h) r pre post -> h_baseRevision h <= r <= h_currentRevision h.
Proof.
  intros [_ _ _ _ Hch Hr _] [E <-]. rewrite E in Hch, Hr. rewrite Hr, end_revision_app.
  apply advancing_app in Hch as [H1 H2]. apply advancing_le in H1, H2. lia.
Qed.

Lemma zlen_concat_app {A} (xs ys zs : list (list A)) : zlen (concat ys) <= zlen (concat (xs ++ ys ++ zs)).
Proof.
  rewrite !concat_app, !zlen_app. pose proof (zlen_nonneg (concat xs)). pose proof (zlen_nonneg (concat zs)). lia.
Qed.

(** The chain walk and the composition, for the lower boundary first. *)
Lemma between_walk h low high pre1 post1 pre2 post2 :
  history_ok h -> boundary (h_baseRevision h) (retained h) low pre1 post1 ->
  boundary (h_baseRevision h) (retained h) high pre2 post2 -> low < high ->
  let lowLength := end_length (h_baseLength h) pre1 in
  exists mid, retained h = pre1 ++ mid ++ post2 /\ high = end_revision low mid /\
    chain_loop (Z.to_nat (h_count h)) h 0 low high [] = Some mid /\
    let c := composed low high lowLength (end_length lowLength mid) mid in
    (ComposeAll (mkChangeMap low low lowLength lowLength []) mid = Ok c /\ map_ok c \/
     (exists e, ComposeAll (mkChangeMap low low lowLength lowLength []) mid = Err e) /\
     MaximumEdits < zlen (concat (map cm_edits (retained h)))).
Proof.
  intros Hh B1 B2 Hlt. pose proof (ho_chain _ Hh) as Hch.
  destruct (boundary_split _ _ _ _ _ _ _ _ _ Hch B1 B2 Hlt) as (mid & -> & ->).
  destruct B1 as [E <-], B2 as [_ <-]. rewrite end_revision_app in *. cbn zeta. exists mid. rewrite E in Hch.
  apply advancing_app in Hch as [H1 H2]. apply advancing_app in H2 as [H2 H3].
  set (low := end_revision (h_baseRevision h) pre1) in *. set (len := end_length (h_baseLength h) pre1) in *.
  assert (0 <= len <= maxInt64) as Hlen by (eapply advancing_length; [done|apply Hh]).
  destruct (identity_ok low len Hlen) as [_ Hid].
  split_and!; [done|done| |].
  - change 0 with (Z.of_nat 0). rewrite chain_loop_eq by lia. rewrite drop_0, E.
    rewrite (chain_of_skip _ _ _ _ _ _ _ H1) by (done || lia). by rewrite (chain_of_take _ _ _ _ _ _ H2).
  - destruct (ComposeAll (mkChangeMap low low len len []) mid) as [c|e] eqn:Hc.
    + left. unfold ComposeAll in Hc. cbn [cm_edits cm_afterRevision cm_afterLength cm_beforeRevision cm_beforeLength app] in Hc.
      destruct (compose_check mid _ low len) as [[[t r] l]|] eqn:Hcc; [|done]. cbn [res_bind] in Hc. injection Hc as <-.
      destruct (compose_check_last _ _ _ _ _ _ _ (mkChangeMap low low len len []) Hcc eq_refl eq_refl) as [-> ->].
      assert (cm_afterRevision (default (mkChangeMap low low len len []) (last mid)) = end_revision low mid) as E1
        by (unfold end_revision; by destruct (last mid)).
      assert (cm_afterLength (default (mkChangeMap low low len len []) (last mid)) = end_length len mid) as E2
        by (unfold end_length; by destruct (last mid)).
      rewrite E1, E2 in *. split; [done|].
      destruct (compose_check_spec _ _ _ _ _ _ _ Hcc) as (Ht & Hmax & Hf). destruct (Hf (advancing_ok _ _ _ H2)) as [Hes Hrev].
      split; cbn; [done|done| |].
      * destruct mid as [|m mid']; [done|]. change (zlen (@nil Edit)) with 0 in Ht. specialize (Hmax ltac:(done)). lia.
      * intros Hnil. symmetry. by apply Hrev.
    + right. split; [by eexists|]. apply Z.nle_gt. intros Hle.
      assert (exists trl, compose_check mid 0 low len = Ok trl) as [[[t r] l] Hok].
      { apply compose_check_adjacent; [done|]. split; [by eapply advancing_adjacent|].
        pose proof (zlen_concat_app (map cm_edits pre1) (map cm_edits mid) (map cm_edits post2)) as Hz.
        rewrite E, !map_app in Hle. lia. }
      unfold ComposeAll in Hc. cbn [cm_edits cm_afterRevision cm_afterLength] in Hc.
      change (zlen (@nil Edit)) with 0 in Hc. by rewrite Hok in Hc.
Qed.

Lemma between_spec h fromRevision toRevision :
  history_ok h ->
  match between h fromRevision toRevision with
  | inl m => query_answer h fromRevision toRevision m
  | inr e => query_error h fromRevision toRevision e
  end.
Proof.
  intros Hh. unfold between.
  assert (forall err, (err = document_ErrChangeHistoryExpired /\ (fromRevision < h_baseRevision h \/ toRevision < h_baseRevision h) \/
     err = document_ErrRevisionUnavailable /\ h_baseRevision h <= fromRevision /\ h_baseRevision h <= toRevision /\
     ((forall pre post, ~ boundary (h_baseRevision h) (retained h) fromRevision pre post) \/
      (forall pre post, ~ boundary (h_baseRevision h) (retained h) toRevision pre post) \/
      MaximumEdits < zlen (concat (map cm_edits (retained h))))) ->
    query_error h fromRevision toRevision (rangeError h fromRevision toRevision err)) as Herr.
  { intros err H. by exists err. }
  destruct (Z.ltb_spec fromRevision (h_baseRevision h)) as [|Hf]; [apply Herr; auto|].
  destruct (Z.ltb_spec toRevision (h_baseRevision h)) as [|Ht]; [apply Herr; auto|]. cbn [orb].
  assert (forall r pre post, boundary (h_baseRevision h) (retained h) r pre post -> r <= h_currentRevision h) as Hup.
  { intros r pre post H. destruct (boundary_above h r pre post Hh H). lia. }
  destruct (Z.ltb_spec (h_currentRevision h) fromRevision).
  { apply Herr. right. split_and!; try done. left. intros pre post ?%Hup. lia. }
  destruct (Z.ltb_spec (h_currentRevision h) toRevision).
  { apply Herr. right. split_and!; try done. right; left. intros pre post ?%Hup. lia. }
  cbn [orb]. destruct (boundaryLength h fromRevision) as [fl|] eqn:Bf.
  2:{ apply Herr. right. split_and!; try done. left. intros pre post B.
      assert (boundaryLength h fromRevision = Some (end_length (h_baseLength h) pre)) by (apply boundaryLength_spec; eauto).
      congruence. }
  destruct (boundaryLength h toRevision) as [tl|] eqn:Bt.
  2:{ apply Herr. right. split_and!; try done. right; left. intros pre post B.
      assert (boundaryLength h toRevision = Some (end_length (h_baseLength h) pre)) by (apply boundaryLength_spec; eauto).
      congruence. }
  pose proof Bf as Bf'. pose proof Bt as Bt'.
  apply boundaryLength_spec in Bf as (pre1 & post1 & B1 & ->); [|done].
  apply boundaryLength_spec in Bt as (pre2 & post2 & B2 & ->); [|done].
  pose proof (ho_chain _ Hh) as Hch. pose proof (ho_length _ Hh) as Hlen.
  assert (forall pre post r, boundary (h_baseRevision h) (retained h) r pre post ->
    0 <= end_length (h_baseLength h) pre <= maxInt64) as Hbl.
  { intros pre post r [E _]. rewrite E in Hch. apply advancing_app in Hch as [H1 _]. by eapply advancing_length. }
  destruct (Z.eqb_spec fromRevision toRevision) as [<-|Hne].
  { destruct (identity_ok fromRevision _ (Hbl _ _ _ B1)) as [-> Hid]. exists pre1, [], post1. destruct B1 as [E <-].
    split; [done|]. cbn. split; [done|]. by left. }
  destruct (Z.ltb_spec toRevision fromRevision) as [Hlt|Hlt].
  - rewrite Bt'. cbn [from_option id]. destruct (identity_ok toRevision _ (Hbl _ _ _ B2)) as [-> _].
    destruct (between_walk h _ _ _ _ _ _ Hh B2 B1 Hlt) as (mid & E & Em & -> & [[-> Hok]|[[e ->] Hbig]]).
    + exists pre2, mid, post1. destruct B2 as [_ <-]. split; [done|]. cbn zeta. rewrite <-Em. split; [done|]. by right.
    + apply Herr. right. split_and!; auto.
  - assert (fromRevision < toRevision) as Hlt' by lia.
    rewrite Bf'. cbn [from_option id]. destruct (identity_ok fromRevision _ (Hbl _ _ _ B1)) as [-> _].
    destruct (between_walk h _ _ _ _ _ _ Hh B1 B2 Hlt') as (mid & E & Em & -> & [[-> Hok]|[[e ->] Hbig]]).
    + exists pre1, mid, post2. destruct B1 as [_ <-]. split; [done|]. cbn zeta. rewrite <-Em. split; [done|]. by left.
    + apply Herr. right. split_and!; auto.
Qed.

(** C19. A history query is answered by the retained maps: between two retained
    boundaries [ChangesBetween] returns the well-formed map made of exactly the
    edits of the maps between them, inverted when the query runs backwards; it
    fails only with the requested and retained window attached, as expired iff a
    revision is older than the window and otherwise as unavailable, when a
    revision is no boundary or the retained edits exceed [MaximumEdits]. *)
Theorem ChangesBetween_correct h fromRevision toRevision :
  history_ok h ->
  match ChangesBetween h fromRevision toRevision with
  | inl m => query_answer h fromRevision toRevision m
  | inr e => query_error h fromRevision toRevision e
  end.
Proof.
  intros Hh. destruct (clone_ok h Hh) as [Hc Hr]. unfold ChangesBetween.
  pose proof (between_spec (clone h) fromRevision toRevision Hc) as H.
  unfold query_answer, query_error in *. rewrite Hr in H. exact H.
Qed.

Definition ex_history : changeHistory :=
  append (append (append (newChangeHistory 2 1 6) ex_map) ex_next)
    (mkChangeMap 4 5 5 6 [mkEdit 5 0 1]).

Lemma newChangeHistory_ok limit revision length :
  0 < limit -> 0 <= length <= maxInt64 -> history_ok (newChangeHistory limit revision length).
Proof.
  intros HL Hl. split; cbn [newChangeHistory h_entries h_start h_count h_baseLength h_baseRevision h_currentRevision h_currentLength];
    rewrite ?zlen_replicate_nat; lia || done.
Qed.

Lemma append_ok h change :
  history_ok h -> map_ok change -> cm_edits change <> [] -> BeforeRevision change < AfterRevision change ->
  BeforeRevision change = h_currentRevision h -> BeforeLength change = h_currentLength h ->
  history_ok (append h change).
Proof.
  intros Hh Hok Hne Hadv Hr Hl. unfold append, Len.
  destruct (Z.eqb_spec (zlen (cm_edits change)) 0) as [E|_]; [by apply zlen_zero in E|].
  rewrite Hr, Hl, !Z.eqb_refl. rewrite (proj2 (Z.leb_gt _ _)) by lia. cbn [negb orb].
  apply (store_ok h change Hh Hok Hne Hr Hl Hadv).
Qed.

Lemma ex_history_ok : history_ok ex_history.
Proof.
  assert (map_ok (mkChangeMap 4 5 5 6 [mkEdit 5 0 1])) as H.
  { split; cbn; unfold edit_ok; cbn; unfold_ints; [lia|lia|done|done]. }
  repeat (apply append_ok; [| |done|reflexivity|reflexivity|reflexivity]);
    [|apply ex_map_ok|apply ex_next_ok|exact H].
  apply newChangeHistory_ok; [lia|unfold_ints; lia].
Qed.

Lemma append_refines_witness :
  (h_baseRevision (append ex_history ex_next), retained (append ex_history ex_next)) = (3, [ex_next]) /\
  history_ok (append ex_history ex_next).
Proof.
  destruct (append_refines ex_history ex_next ex_history_ok ex_next_ok) as [H _].
  destruct (H ltac:(discriminate) ltac:(reflexivity)) as (H1 & _ & H3). split; [reflexivity|exact H1].
Defined.

Lemma ChangesBetween_correct_witness :
  ChangesBetween ex_history 5 3 = inl (mkChangeMap 5 3 6 7 [mkEdit 5 1 0; mkEdit 1 0 2]) /\
  query_answer ex_history 5 3 (mkChangeMap 5 3 6 7 [mkEdit 5 1 0; mkEdit 1 0 2]) /\
  ChangesBetween ex_history 5 1 = inr (RangeError (mkChangeHistoryError 5 1 3 5 document_ErrChangeHistoryExpired)).
Proof.
  split; [reflexivity|]. split; [|reflexivity]. exact (ChangesBetween_correct ex_history 5 3 ex_history_ok).
Defined.
