(* ===== verification/Events.v ===== *)
(** * document/events.go: the session's event hub

    Publication, the bounded replay history and nonblocking subscriptions.  A
    channel is a bounded queue with the events its consumer has already received;
    the consumer may receive at any point between two selects of the producer. *)

From Stdlib Require Import ZArith Lia List.
From stdpp Require Import base list numbers gmap.
From S2P Require Import Prelude ChangeMap.
#[local] Open Scope Z_scope.

(** ** Event data *)

Definition DefaultSubscriptionBuffer : Z := 64.
Definition MaximumSubscriptionBuffer : Z := 4096.

Inductive EventKind :=
| EventOpened | EventRecovered | EventChanged | EventClosed
| EventSaveStarted | EventSaveProgress | EventSaved | EventSaveFailed
| EventJournalSyncFailed | EventJournalSyncRestored
| EventCompactionStarted | EventCompactionProgress | EventCompacted | EventCompactionFailed
| EventVirtualizationStarted | EventVirtualizationProgress | EventVirtualizationCompleted
| EventVirtualizationFailed.

Inductive ChangeOrigin := ChangeOriginNone | ChangeOriginApply | ChangeOriginUndo | ChangeOriginRedo.

(** [EOLStyle] and [Metadata] of session.go. *)
Inductive EOLStyle := EOLLF | EOLCRLF | EOLMixed.

Record Metadata := mkMetadata {
  md_Path : list byte; md_ResolvedPath : list byte; md_Name : list byte;
  md_ByteLength : Z; md_Revision : Z; md_CommittedRevision : Z;
  md_Dirty : bool; md_Recovered : bool; md_HasBOM : bool; md_EOL : EOLStyle;
  md_DurabilityUncertain : bool; md_RecoveryDurabilityUncertain : bool; md_PersistenceFaulted : bool }.

Record PersistenceProgress := mkPersistenceProgress {
  pp_OperationID : Z; pp_TargetRevision : Z; pp_CompletedBytes : Z; pp_TotalBytes : Z; pp_Committed : bool }.

Record CompactionProgress := mkCompactionProgress {
  cp_OperationID : Z; cp_CompletedBytes : Z; cp_TotalBytes : Z; cp_PiecesBefore : Z; cp_PiecesAfter : Z;
  cp_JournalCheckpointed : bool; cp_Committed : bool }.

(** [virtual.Progress] *)
Inductive ProgressKind := ProgressNone | ProgressPublish | ProgressRefresh.
Inductive ProgressStage := ProgressIdle | ProgressStarted | ProgressAdvanced | ProgressCompleted | ProgressFailed.
Record Progress := mkProgress {
  vp_OperationID : Z; vp_Kind : ProgressKind; vp_Stage : ProgressStage; vp_Revision : Z;
  vp_BaseGeneration : Z; vp_PublishedGeneration : Z; vp_ByteLength : Z; vp_IndexedThrough : Z;
  vp_Fragments : Z; vp_Complete : bool; vp_Published : bool; vp_Cause : option error }.

Record SessionEvent := mkSessionEvent {
  ev_Sequence : Z; ev_Dropped : Z; ev_Kind : EventKind; ev_Origin : ChangeOrigin; ev_Metadata : Metadata;
  ev_Changes : ChangeMap; ev_Persistence : PersistenceProgress; ev_Compaction : CompactionProgress;
  ev_Virtualization : Progress; ev_Cause : option error }.

Definition with_Sequence (e : SessionEvent) (sequence dropped : Z) : SessionEvent :=
  mkSessionEvent sequence dropped (ev_Kind e) (ev_Origin e) (ev_Metadata e) (ev_Changes e)
    (ev_Persistence e) (ev_Compaction e) (ev_Virtualization e) (ev_Cause e).
Definition with_Dropped (e : SessionEvent) (dropped : Z) : SessionEvent := with_Sequence e (ev_Sequence e) dropped.

Record EventStats := mkEventStats {
  es_Sequence : Z; es_HistoryEntries : Z; es_MaximumHistory : Z; es_Subscriptions : Z;
  es_MaximumSubscriptions : Z; es_DiscardedDeliveries : Z; es_HistoryGapEvents : Z;
  es_SequenceExhausted : bool; es_Closed : bool }.

Record SubscribeOptions := mkSubscribeOptions { so_Buffer : Z; so_AfterSequence : Z; so_FutureOnly : bool }.

(** [sub_received] is what the consumer has taken from the channel so far and
    [sub_after] the sequence it subscribed after; no operation reads them. *)
Record subscriptionState := mkSubscription {
  sub_queue : list SessionEvent; sub_cap : Z; sub_pendingDropped : Z;
  sub_received : list SessionEvent; sub_after : Z }.

Record eventHub := mkHub {
  hub_closed : bool; hub_sequence : Z; hub_nextID : Z;
  hub_history : list (option SessionEvent); hub_historyStart : Z; hub_historyCount : Z;
  hub_subscribers : gmap Z subscriptionState; hub_maxSubscribers : Z;
  hub_discarded : Z; hub_historyGaps : Z; hub_exhausted : bool;
  (* the channels that were closed: their consumers drain what is left *)
  hub_detached : list subscriptionState }.

Definition newEventHub (historyLimit maxSubscribers : Z) : eventHub :=
  mkHub false 0 0 (replicate (Z.to_nat historyLimit) None) 0 0 ∅ maxSubscribers 0 0 false [].

Definition saturatingAdd (value increment : Z) : Z :=
  if maxUint64 - value <? increment then maxUint64 else value + increment.

(** ** Channels *)

(** The consumer receives up to [n] queued events. *)
Definition receive (n : nat) (s : subscriptionState) : subscriptionState :=
  mkSubscription (drop n (sub_queue s)) (sub_cap s) (sub_pendingDropped s)
    (sub_received s ++ take n (sub_queue s)) (sub_after s).

Definition send (s : subscriptionState) (event : SessionEvent) : subscriptionState :=
  mkSubscription (sub_queue s ++ [event]) (sub_cap s) 0 (sub_received s) (sub_after s).

(** The drain loop of [offerEvent]; one unit of fuel per queued event and one for
    the last select.  [takes] is what the consumer receives before each select. *)
Fixpoint drain_loop (fuel : nat) (takes : list nat) (s : subscriptionState) (event : SessionEvent)
  (dropped discarded : Z) : subscriptionState * Z :=
  let s := receive (hd O takes) s in
  match fuel, sub_queue s with
  | S fuel, previous :: queue =>
    drain_loop fuel (tl takes)
      (mkSubscription queue (sub_cap s) (sub_pendingDropped s) (sub_received s) (sub_after s)) event
      (saturatingAdd dropped (saturatingAdd (ev_Dropped previous) 1)) (discarded ⊕ 1)
  | _, _ => (send s (with_Dropped event dropped), discarded)
  end.

Definition offerEvent (takes : list nat) (s : subscriptionState) (event : SessionEvent) : subscriptionState * Z :=
  let event := with_Dropped event (sub_pendingDropped s) in
  let s := receive (hd O takes) s in
  if zlen (sub_queue s) <? sub_cap s then (send s event, 0)
  else drain_loop (length (sub_queue s)) (tl takes) s event (sub_pendingDropped s) 0.

(** ** The hub's operations, each under [h.mu] *)

(** [delete(h.subscribers, id); close(subscriber.events)] for every subscriber. *)
Definition detach_all (h : eventHub) (exhausted : bool) : eventHub :=
  mkHub true (hub_sequence h) (hub_nextID h) (hub_history h) (hub_historyStart h) (hub_historyCount h)
    ∅ (hub_maxSubscribers h) (hub_discarded h) (hub_historyGaps h) exhausted
    (map snd (map_to_list (hub_subscribers h)) ++ hub_detached h).

Definition appendHistory (h : eventHub) (event : SessionEvent) : eventHub :=
  let '(history, start, count) :=
    if hub_historyCount h <? zlen (hub_history h) then
      let index := (hub_historyStart h + hub_historyCount h) mod zlen (hub_history h) in
      (<[Z.to_nat index := Some event]> (hub_history h), hub_historyStart h, hub_historyCount h + 1)
    else
      (<[Z.to_nat (hub_historyStart h) := Some event]> (hub_history h),
       (hub_historyStart h + 1) mod zlen (hub_history h), hub_historyCount h) in
  mkHub (hub_closed h) (hub_sequence h) (hub_nextID h) history start count (hub_subscribers h)
    (hub_maxSubscribers h) (hub_discarded h) (hub_historyGaps h) (hub_exhausted h) (hub_detached h).

(** The loop of [publish] over the subscribers.  Go visits them in an
    unspecified order: the deliveries are independent and the discarded counts
    are added with [saturatingAdd], which commutes. *)
Definition deliver (takes : Z -> list nat) (h : eventHub) (event : SessionEvent) : eventHub :=
  mkHub (hub_closed h) (hub_sequence h) (hub_nextID h) (hub_history h) (hub_historyStart h) (hub_historyCount h)
    (map_imap (fun id s => Some (offerEvent (takes id) s event).1) (hub_subscribers h)) (hub_maxSubscribers h)
    (foldr (fun id_s discarded => saturatingAdd discarded (offerEvent (takes id_s.1) id_s.2 event).2)
       (hub_discarded h) (map_to_list (hub_subscribers h)))
    (hub_historyGaps h) (hub_exhausted h) (hub_detached h).

Definition set_sequence (h : eventHub) (sequence : Z) : eventHub :=
  mkHub (hub_closed h) sequence (hub_nextID h) (hub_history h) (hub_historyStart h) (hub_historyCount h)
    (hub_subscribers h) (hub_maxSubscribers h) (hub_discarded h) (hub_historyGaps h) (hub_exhausted h) (hub_detached h).

Definition publish (takes : Z -> list nat) (h : eventHub) (event : SessionEvent) : eventHub :=
  if hub_closed h then h
  else if hub_sequence h =? maxUint64 then detach_all h true
  else
    let h := set_sequence h (hub_sequence h + 1) in
    let event := with_Sequence event (hub_sequence h) 0 in
    deliver takes (appendHistory h event) event.

(** [nextSubscriptionID]: among [n + 1] candidates one is free when [n] are taken. *)
Fixpoint next_id (fuel : nat) (subscribers : gmap Z subscriptionState) (nextID : Z) : Z :=
  let nextID := let n := nextID ⊕ 1 in if n =? 0 then n ⊕ 1 else n in
  match fuel with
  | O => nextID
  | S fuel =>
    match subscribers !! nextID with
    | Some _ => next_id fuel subscribers nextID
    | None => nextID
    end
  end.

Definition nextSubscriptionID (h : eventHub) : Z :=
  next_id (size (hub_subscribers h)) (hub_subscribers h) (hub_nextID h).

Definition history_at (h : eventHub) (index : Z) : option SessionEvent :=
  mjoin (hub_history h !! Z.to_nat ((hub_historyStart h + index) mod zlen (hub_history h))).

(** The replay loop of [subscribe] over the retained events [index ..]. *)
Fixpoint replay_history (n : nat) (h : eventHub) (index after : Z) (s : subscriptionState) (discarded : Z)
  : subscriptionState * Z :=
  match n with
  | O => (s, discarded)
  | S n =>
    match history_at h index with
    | Some event =>
      if after <? ev_Sequence event then
        let '(s, d) := offerEvent [] s event in
        replay_history n h (index + 1) after s (saturatingAdd discarded d)
      else replay_history n h (index + 1) after s discarded
    | None => replay_history n h (index + 1) after s discarded
    end
  end.

Definition subscribe (h : eventHub) (options : SubscribeOptions) : eventHub * result Z :=
  let buffer := if so_Buffer options =? 0 then DefaultSubscriptionBuffer else so_Buffer options in
  if (buffer <? 0) || (MaximumSubscriptionBuffer <? buffer) ||
     (so_FutureOnly options && negb (so_AfterSequence options =? 0))
  then (h, Err document_ErrInvalidSubscription)
  else if hub_closed h then (h, Err document_ErrClosed)
  else if hub_sequence h <? so_AfterSequence options then (h, Err document_ErrEventSequence)
  else if hub_maxSubscribers h <=? Z.of_nat (size (hub_subscribers h)) then (h, Err document_ErrLimitExceeded)
  else
    let after := if so_FutureOnly options then hub_sequence h else so_AfterSequence options in
    let earliest := hub_sequence h ⊖ hub_historyCount h ⊕ 1 in
    let gap := if after <? earliest ⊖ 1 then earliest ⊖ after ⊖ 1 else 0 in
    let replay := (0 <? hub_historyCount h) && (after <? hub_sequence h) in
    let state := mkSubscription [] buffer (if replay then gap else 0) [] after in
    let '(state, discarded) :=
      if replay then replay_history (Z.to_nat (hub_historyCount h)) h 0 after state (hub_discarded h)
      else (state, hub_discarded h) in
    let gaps := if replay && (after <? earliest ⊖ 1) then saturatingAdd (hub_historyGaps h) gap else hub_historyGaps h in
    let id := nextSubscriptionID h in
    (mkHub false (hub_sequence h) id (hub_history h) (hub_historyStart h) (hub_historyCount h)
       (<[id := state]> (hub_subscribers h)) (hub_maxSubscribers h) discarded gaps (hub_exhausted h) (hub_detached h),
     Ok id).

Definition stats (h : eventHub) : EventStats :=
  mkEventStats (hub_sequence h) (hub_historyCount h) (zlen (hub_history h)) (Z.of_nat (size (hub_subscribers h)))
    (hub_maxSubscribers h) (hub_discarded h) (hub_historyGaps h) (hub_exhausted h) (hub_closed h).

Definition unsubscribe (h : eventHub) (id : Z) : eventHub :=
  match hub_subscribers h !! id with
  | Some s =>
    mkHub (hub_closed h) (hub_sequence h) (hub_nextID h) (hub_history h) (hub_historyStart h) (hub_historyCount h)
      (delete id (hub_subscribers h)) (hub_maxSubscribers h) (hub_discarded h) (hub_historyGaps h) (hub_exhausted h)
      (s :: hub_detached h)
  | None => h
  end.

Definition close (h : eventHub) : eventHub :=
  if hub_closed h then h else detach_all h (hub_exhausted h).

(** ** Streams: what a consumer sees *)

Definition stream (s : subscriptionState) : list SessionEvent := sub_received s ++ sub_queue s.

(** Each event accounts for everything between it and its predecessor. *)
Fixpoint chain (prev : Z) (evs : list SessionEvent) : Prop :=
  match evs with
  | [] => True
  | e :: evs => ev_Sequence e = prev + 1 + ev_Dropped e /\ chain (ev_Sequence e) evs
  end.
Fixpoint increasing (prev : Z) (evs : list SessionEvent) : Prop :=
  match evs with
  | [] => True
  | e :: evs => prev < ev_Sequence e /\ increasing (ev_Sequence e) evs
  end.
Definition chain_end (prev : Z) (evs : list SessionEvent) : Z := fold_left (fun _ e => ev_Sequence e) evs prev.

(** The deliveries and the losses they report. *)
Fixpoint total (evs : list SessionEvent) : Z :=
  match evs with [] => 0 | e :: evs => 1 + ev_Dropped e + total evs end.

(** [e] is the published event with its sequence, up to the per-subscription
    [Dropped]. *)
Definition authentic (log : list SessionEvent) (e : SessionEvent) : Prop :=
  0 <= ev_Dropped e /\
  exists p, log !! Z.to_nat (ev_Sequence e - 1) = Some p /\ e = with_Sequence p (ev_Sequence e) (ev_Dropped e).

(** A stream accounted for up to [position]; under a [quiet] consumer, which never
    receives while the producer is draining, every single delivery is exact. *)
Record sub_ok (quiet : bool) (log : list SessionEvent) (s : subscriptionState) (position : Z) : Prop := mkSubOk {
  sk_after : 0 <= sub_after s;
  sk_cap : 1 <= sub_cap s <= MaximumSubscriptionBuffer;
  sk_bound : zlen (sub_queue s) <= sub_cap s;
  sk_pending : 0 <= sub_pendingDropped s;
  sk_increasing : increasing (sub_after s) (stream s);
  sk_end : chain_end (sub_after s) (stream s) <= position;
  sk_total : sub_after s + total (stream s) + sub_pendingDropped s = position;
  sk_log : Forall (authentic log) (stream s);
  sk_chain : quiet = true -> chain (sub_after s) (stream s) }.

Lemma chain_app prev xs ys : chain prev (xs ++ ys) <-> chain prev xs /\ chain (chain_end prev xs) ys.
Proof. revert prev. induction xs as [|x xs IH]; intros prev; cbn [app chain]; [naive_solver|]. rewrite IH. cbn. naive_solver. Qed.
Lemma increasing_app prev xs ys : increasing prev (xs ++ ys) <-> increasing prev xs /\ increasing (chain_end prev xs) ys.
Proof. revert prev. induction xs as [|x xs IH]; intros prev; cbn [app increasing]; [naive_solver|]. rewrite IH. cbn. naive_solver. Qed.
Lemma chain_end_app prev xs ys : chain_end prev (xs ++ ys) = chain_end (chain_end prev xs) ys.
Proof. apply fold_left_app. Qed.
Lemma total_app xs ys : total (xs ++ ys) = total xs + total ys.
Proof. induction xs as [|x xs IH]; cbn [app total]; lia. Qed.

Lemma chain_total prev xs : chain prev xs -> chain_end prev xs = prev + total xs.
Proof.
  revert prev. induction xs as [|x xs IH]; intros prev; [cbn; lia|]. intros [Hx H]. apply IH in H. cbn [total].
  change (chain_end prev (x :: xs)) with (chain_end (ev_Sequence x) xs). lia.
Qed.

Lemma increasing_le prev xs : increasing prev xs -> prev <= chain_end prev xs.
Proof.
  revert prev. induction xs as [|x xs IH]; intros prev; [done|]. intros [H1 H2]. apply IH in H2.
  change (chain_end prev (x :: xs)) with (chain_end (ev_Sequence x) xs). lia.
Qed.

(** Losing an element of an increasing stream keeps it increasing. *)
Lemma increasing_remove prev xs x ys :
  increasing prev (xs ++ x :: ys) -> increasing prev (xs ++ ys) /\ chain_end prev (xs ++ ys) <= chain_end prev (xs ++ x :: ys).
Proof.
  rewrite !increasing_app, !chain_end_app. cbn [increasing]. intros (H1 & H2 & H3).
  destruct ys as [|y ys]; cbn in *; [split; [done|lia]|]. split_and!; [done|lia|tauto|lia].
Qed.

Lemma total_nonneg log xs : Forall (authentic log) xs -> 0 <= total xs.
Proof. induction 1 as [|x xs [Hx _] _ IH]; cbn; lia. Qed.

Lemma authentic_mono log log' e : authentic log e -> authentic (log ++ log') e.
Proof. intros (Hd & p & Hp & He). split; [done|]. exists p. split; [|done]. by apply lookup_app_l_Some. Qed.

Lemma stream_receive n s : stream (receive n s) = stream s.
Proof. unfold stream, receive. cbn. by rewrite <-app_assoc, take_drop. Qed.

Lemma receive_ok quiet log s position n : sub_ok quiet log s position -> sub_ok quiet log (receive n s) position.
Proof.
  intros []. split; rewrite ?stream_receive; try done.
  cbn. unfold zlen in *. rewrite length_drop. lia.
Qed.

Lemma receive_0 s : receive 0 s = s.
Proof. destruct s. unfold receive. cbn. by rewrite app_nil_r, drop_0. Qed.

Lemma stream_send s e : stream (send s e) = stream s ++ [e].
Proof. unfold stream, send. cbn. by rewrite app_assoc. Qed.

(** Sending [event] with [dropped] continues a stream that lost [dropped] events. *)
Lemma send_ok quiet log s event dropped :
  0 <= sub_after s -> 1 <= sub_cap s <= MaximumSubscriptionBuffer -> zlen (sub_queue s) < sub_cap s ->
  increasing (sub_after s) (stream s) -> Forall (authentic log) (stream s) -> 0 <= dropped ->
  chain_end (sub_after s) (stream s) < ev_Sequence event ->
  ev_Sequence event = sub_after s + total (stream s) + 1 + dropped -> authentic log event ->
  (quiet = true -> chain (sub_after s) (stream s)) ->
  sub_ok quiet log (send s (with_Dropped event dropped)) (ev_Sequence event).
Proof.
  intros Ha Hc Hroom Hinc Hlog Hd Hend Hseq (_ & p & Hp & He) Hq.
  split; rewrite ?stream_send; cbn [send sub_after sub_cap sub_queue sub_pendingDropped]; try done; try lia.
  - rewrite zlen_app. change (zlen [with_Dropped event dropped]) with 1. lia.
  - apply increasing_app. split; [done|]. cbn. lia.
  - rewrite chain_end_app. cbn. lia.
  - rewrite total_app. cbn. lia.
  - apply Forall_app. split; [done|]. constructor; [|constructor]. split; [done|]. exists p. cbn. split; [done|].
    rewrite He. reflexivity.
  - intros Hquiet. apply chain_app. split; [by apply Hq|]. cbn. rewrite (chain_total _ _ (Hq Hquiet)). split; [lia|done].
Qed.

Lemma saturatingAdd_exact a b : 0 <= b -> a + b <= maxUint64 -> saturatingAdd a b = a + b.
Proof. intros. unfold saturatingAdd. rewrite (proj2 (Z.ltb_ge _ _)) by lia. done. Qed.

Lemma saturatingAdd_comm a b c : 0 <= b -> 0 <= c -> a <= maxUint64 ->
  saturatingAdd (saturatingAdd a b) c = saturatingAdd (saturatingAdd a c) b.
Proof.
  intros. unfold saturatingAdd.
  destruct (Z.ltb_spec (maxUint64 - a) b), (Z.ltb_spec (maxUint64 - a) c);
    repeat match goal with |- context [?x <? ?y] => destruct (Z.ltb_spec x y) end; lia.
Qed.

(** What the drain loop maintains under any interleaving with the consumer. *)
Lemma drain_loop_ok log fuel takes s event dropped discarded s' d :
  drain_loop fuel takes s event dropped discarded = (s', d) ->
  (length (sub_queue s) <= fuel)%nat -> 0 <= sub_after s -> 1 <= sub_cap s <= MaximumSubscriptionBuffer ->
  increasing (sub_after s) (stream s) -> Forall (authentic log) (stream s) ->
  0 <= dropped -> 0 <= discarded -> discarded + zlen (sub_queue s) <= MaximumSubscriptionBuffer ->
  chain_end (sub_after s) (stream s) < ev_Sequence event ->
  ev_Sequence event = sub_after s + total (stream s) + 1 + dropped ->
  ev_Sequence event <= maxUint64 -> authentic log event ->
  sub_ok false log s' (ev_Sequence event) /\ sub_pendingDropped s' = 0 /\ discarded <= d <= MaximumSubscriptionBuffer.
Proof.
  revert takes s dropped discarded. induction fuel as [|fuel IH];
    intros takes s dropped discarded H Hfuel Ha Hc Hinc Hlog Hd Hdi Hdb Hend Hseq Hmax Hauth; cbn [drain_loop] in H;
    set (r := receive (hd O takes) s) in *;
    assert (stream r = stream s) as Hst by apply stream_receive;
    assert (sub_after r = sub_after s /\ sub_cap r = sub_cap s) as [Har Hcr] by done;
    assert (length (sub_queue r) <= length (sub_queue s))%nat as Hlen by (cbn; rewrite length_drop; lia);
    rewrite <-Hst, <-Har, <-Hcr in *; clearbody r; clear Hst Har Hcr.
  - destruct (sub_queue r) eqn:Hqr; [|cbn in Hlen; lia]. injection H as <- <-. split_and!; [|done|lia|].
    + apply send_ok; try done. rewrite Hqr. unfold zlen; cbn. lia.
    + pose proof (zlen_nonneg (sub_queue s)). lia.
  - destruct (sub_queue r) as [|previous queue] eqn:Hqr.
    + injection H as <- <-. split_and!; [|done|lia|].
      * apply send_ok; try done. rewrite Hqr. unfold zlen; cbn. lia.
      * pose proof (zlen_nonneg (sub_queue s)). lia.
    + assert (stream r = sub_received r ++ previous :: queue) as Hst by (unfold stream; by rewrite Hqr).
      rewrite Hst in *. apply Forall_app in Hlog as [Hl1 Hl2]. apply Forall_cons_iff in Hl2 as [[Hpd _] Hl2].
      rewrite total_app in Hseq. cbn [total] in Hseq.
      pose proof (total_nonneg _ _ Hl1). pose proof (total_nonneg _ _ Hl2).
      destruct (increasing_remove _ _ _ _ Hinc) as [Hinc' Hend'].
      rewrite saturatingAdd_exact in H by (rewrite ?saturatingAdd_exact; lia).
      rewrite saturatingAdd_exact in H by lia.
      assert (zlen (sub_queue s) >= 1 + zlen queue) as Hz.
      { unfold zlen in *. cbn [length] in Hlen. lia. }
      unfold MaximumSubscriptionBuffer in *. rewrite u64_id in H by (pose proof (zlen_nonneg queue); go_lia).
      apply IH in H; cbn [sub_queue sub_after sub_cap] in *; unfold stream in *; cbn [sub_received sub_queue] in *;
        try done; try lia.
      * destruct H as (? & ? & ?). split_and!; [done..|lia|lia].
      * cbn in Hlen. lia.
      * by apply Forall_app.
      * rewrite total_app. lia.
Qed.

(** Without a racing receive the loop drains the whole queue. *)
Lemma drain_loop_quiet fuel s event dropped discarded :
  length (sub_queue s) = fuel -> 0 <= dropped -> Forall (fun e => 0 <= ev_Dropped e) (sub_queue s) ->
  dropped + total (sub_queue s) <= maxUint64 -> exists d,
  drain_loop fuel [] s event dropped discarded =
  (send (mkSubscription [] (sub_cap s) (sub_pendingDropped s) (sub_received s) (sub_after s))
     (with_Dropped event (dropped + total (sub_queue s))), d).
Proof.
  revert s dropped discarded. induction fuel as [|fuel IH]; intros [q c p r a] dropped discarded Hl Hd Hq Hmax;
    cbn [drain_loop hd sub_queue] in *; rewrite receive_0; cbn [sub_queue].
  - destruct q; [|done]. cbn [total]. rewrite Z.add_0_r. by eexists.
  - destruct q as [|previous q]; [done|]. injection Hl as Hl. apply Forall_cons_iff in Hq as [Hp Hq].
    cbn [total sub_cap sub_pendingDropped sub_received sub_after tl] in *.
    assert (0 <= total q) by (clear -Hq; induction Hq; cbn; lia).
    rewrite saturatingAdd_exact by (rewrite ?saturatingAdd_exact; lia). rewrite saturatingAdd_exact by lia.
    destruct (IH (mkSubscription q c p r a) (dropped + (ev_Dropped previous + 1)) (discarded ⊕ 1)) as [d ->];
      cbn [sub_queue] in *; try done; try lia.
    exists d. cbn. do 3 f_equal. lia.
Qed.

Lemma authentic_drops log xs : Forall (authentic log) xs -> Forall (fun e => 0 <= ev_Dropped e) xs.
Proof. intros H. eapply Forall_impl; [exact H|]. by intros e [? _]. Qed.

Lemma authentic_redrop log e d : authentic log e -> 0 <= d -> authentic log (with_Dropped e d).
Proof. intros (_ & p & Hp & ->) Hd. split; [done|]. by exists p. Qed.

Lemma offerEvent_ok quiet log takes s event position s' d :
  offerEvent takes s event = (s', d) -> sub_ok quiet log s position -> ev_Sequence event = position + 1 ->
  ev_Sequence event <= maxUint64 -> authentic log event -> (quiet = true -> tl takes = []) ->
  sub_ok quiet log s' (position + 1) /\ sub_pendingDropped s' = 0 /\ 0 <= d <= MaximumSubscriptionBuffer.
Proof.
  unfold offerEvent. intros H Hs Hseq Hmax Hauth Hq.
  apply (receive_ok _ _ _ _ (hd O takes)) in Hs. set (r := receive (hd O takes) s) in *.
  change (sub_pendingDropped s) with (sub_pendingDropped r) in H. clearbody r.
  destruct Hs as [Ha Hc Hb Hp Hinc Hend Htot Hlog Hch]. set (p := sub_pendingDropped r) in *.
  pose proof (authentic_redrop _ _ p Hauth Hp) as Hauth'. rewrite <-Hseq.
  destruct (Z.ltb_spec (zlen (sub_queue r)) (sub_cap r)) as [Hroom|Hfull].
  - injection H as <- <-. split_and!; [|done|lia|unfold MaximumSubscriptionBuffer; lia].
    change (with_Dropped event p) with (with_Dropped (with_Dropped event p) p).
    change (ev_Sequence event) with (ev_Sequence (with_Dropped event p)) in *.
    apply send_ok; try done; lia.
  - assert (0 <= 0 + zlen (sub_queue r) <= MaximumSubscriptionBuffer) by (pose proof (zlen_nonneg (sub_queue r)); lia).
    change (ev_Sequence event) with (ev_Sequence (with_Dropped event p)) in *.
    destruct (drain_loop_ok log _ _ _ _ _ _ _ _ H) as (Hok & Hp0 & Hd); try done; try lia.
    split_and!; [|done|lia..]. destruct quiet; [|done]. destruct Hok as [? ? ? ? ? ? ? ? _]. split; try done. intros _.
    rewrite (Hq eq_refl) in H. assert (stream r = sub_received r ++ sub_queue r) as Hst by done. rewrite Hst in *.
    apply Forall_app in Hlog as [Hl1 Hl2]. rewrite total_app in Htot.
    pose proof (total_nonneg _ _ Hl1). pose proof (total_nonneg _ _ Hl2).
    destruct (drain_loop_quiet (length (sub_queue r)) r (with_Dropped event p) p 0) as [d' Hd']; try done.
    { by eapply authentic_drops. }
    { lia. }
    rewrite Hd' in H. injection H as <- _. rewrite stream_send. unfold stream. cbn [sub_received sub_queue sub_after send].
    rewrite app_nil_r. specialize (Hch eq_refl). apply chain_app in Hch as [Hch1 _]. apply chain_app. split; [done|].
    rewrite (chain_total _ _ Hch1). cbn. cbn in Hseq. split; [lia|done].
Qed.

(** ** The system: every run of the hub *)

Definition consume (h : eventHub) (id : Z) (n : nat) : eventHub :=
  mkHub (hub_closed h) (hub_sequence h) (hub_nextID h) (hub_history h) (hub_historyStart h) (hub_historyCount h)
    (alter (receive n) id (hub_subscribers h)) (hub_maxSubscribers h) (hub_discarded h) (hub_historyGaps h)
    (hub_exhausted h) (hub_detached h).

(** [hub_reach quiet limit max log h]: [h] is reached from a new hub and [log]
    are the events published on the way, as the caller passed them.  [quiet] runs
    are those in which no consumer receives in the middle of a drain. *)
Inductive hub_reach (quiet : bool) (limit maxSubscribers : Z) : list SessionEvent -> eventHub -> Prop :=
| reach_new : hub_reach quiet limit maxSubscribers [] (newEventHub limit maxSubscribers)
| reach_publish log h takes e :
    hub_reach quiet limit maxSubscribers log h -> (quiet = true -> forall id, tl (takes id) = []) ->
    hub_reach quiet limit maxSubscribers
      (if hub_closed h || (hub_sequence h =? maxUint64) then log else log ++ [e]) (publish takes h e)
| reach_subscribe log h o :
    hub_reach quiet limit maxSubscribers log h -> in_u64 (so_AfterSequence o) ->
    hub_reach quiet limit maxSubscribers log (subscribe h o).1
| reach_unsubscribe log h id :
    hub_reach quiet limit maxSubscribers log h -> hub_reach quiet limit maxSubscribers log (unsubscribe h id)
| reach_close log h :
    hub_reach quiet limit maxSubscribers log h -> hub_reach quiet limit maxSubscribers log (close h)
| reach_consume log h id n :
    hub_reach quiet limit maxSubscribers log h -> hub_reach quiet limit maxSubscribers log (consume h id n).

(** The retained history: slot [i] is the event published [count - i] ago. *)
Definition history_ok (log : list SessionEvent) (h : eventHub) : Prop :=
  hub_historyCount h = Z.min (zlen log) (zlen (hub_history h)) /\
  0 <= hub_historyStart h < zlen (hub_history h) /\
  forall i, 0 <= i < hub_historyCount h ->
    exists p, log !! Z.to_nat (zlen log - hub_historyCount h + i) = Some p /\
      history_at h i = Some (with_Sequence p (zlen log - hub_historyCount h + i + 1) 0).

Record hub_ok (quiet : bool) (log : list SessionEvent) (h : eventHub) : Prop := mkHubOk {
  hk_limit : 0 < zlen (hub_history h);
  hk_sequence : hub_sequence h = zlen log;
  hk_bound : zlen log <= maxUint64;
  hk_history : history_ok log h;
  hk_live : map_Forall (fun _ s => sub_ok quiet log s (zlen log) /\ sub_pendingDropped s = 0) (hub_subscribers h);
  hk_detached : Forall (fun s => exists position, sub_ok quiet log s position /\ position <= zlen log) (hub_detached h);
  hk_closed : hub_closed h = true -> hub_subscribers h = ∅ }.

Lemma sub_ok_mono quiet log log' s position : sub_ok quiet log s position -> sub_ok quiet (log ++ log') s position.
Proof.
  intros []. split; try done. eapply Forall_impl; [done|]. intros e. apply authentic_mono.
Qed.

Lemma history_append log h e :
  0 < zlen (hub_history h) -> hub_sequence h = zlen log + 1 -> history_ok log h ->
  history_ok (log ++ [e]) (appendHistory h (with_Sequence e (hub_sequence h) 0)) /\
  zlen (hub_history (appendHistory h (with_Sequence e (hub_sequence h) 0))) = zlen (hub_history h).
Proof.
  intros HL Hseq (Hc & Hs & Hi). pose proof (zlen_nonneg log). rewrite Hseq. unfold appendHistory.
  assert (forall k p, log !! k = Some p -> (log ++ [e]) !! k = Some p) as Hmono by (intros; by apply lookup_app_l_Some).
  assert ((log ++ [e]) !! Z.to_nat (zlen log) = Some e) as Hlast.
  { rewrite lookup_app_r by (unfold zlen; lia). by replace (Z.to_nat (zlen log) - length log)%nat with 0%nat by (unfold zlen; lia). }
  assert (zlen (log ++ [e]) = zlen log + 1) as Hz by (rewrite zlen_app; reflexivity).
  destruct (Z.ltb_spec (hub_historyCount h) (zlen (hub_history h))) as [Hroom|Hfull];
    (split; [|cbn [hub_history]; by rewrite zlen_insert]); unfold history_ok, history_at;
    cbn [hub_history hub_historyStart hub_historyCount]; rewrite Hz, zlen_insert; (split; [lia|split]).
  - lia.
  - intros i Hir.
    pose proof (ring_at_set (hub_history h) (hub_historyStart h) i (hub_historyCount h)
      (Some (with_Sequence e (zlen log + 1) 0)) ltac:(lia) ltac:(lia)) as Hr.
    unfold ring_at in Hr. rewrite zlen_insert in Hr. rewrite Hr. case_decide as E.
    + exists e. split; [|cbn; do 2 f_equal; lia].
      replace (zlen log + 1 - (hub_historyCount h + 1) + i) with (zlen log) by lia. done.
    + destruct (Hi i ltac:(lia)) as (p & Hp & Hat). exists p. unfold history_at in Hat. unfold ring_at.
      replace (zlen log + 1 - (hub_historyCount h + 1) + i) with (zlen log - hub_historyCount h + i) by lia. auto.
  - apply Z.mod_pos_bound. lia.
  - intros i Hir.
    pose proof (ring_at_rotate (hub_history h) (hub_historyStart h) i
      (Some (with_Sequence e (zlen log + 1) 0)) Hs ltac:(lia)) as Hr.
    unfold ring_at in Hr. rewrite zlen_insert in Hr. rewrite Hr. case_decide as E.
    + exists e. split; [|cbn; do 2 f_equal; lia].
      replace (zlen log + 1 - hub_historyCount h + i) with (zlen log) by lia. done.
    + destruct (Hi (i + 1) ltac:(lia)) as (p & Hp & Hat). exists p. unfold history_at in Hat.
      replace (zlen log + 1 - hub_historyCount h + i) with (zlen log - hub_historyCount h + (i + 1)) by lia. auto.
Qed.

Lemma replay_history_ok quiet log h n i after s discarded s' d :
  replay_history n h i after s discarded = (s', d) -> history_ok log h -> zlen log <= maxUint64 ->
  0 <= i -> i + Z.of_nat n = hub_historyCount h ->
  let base := zlen log - hub_historyCount h in
  sub_ok quiet log s (Z.max after (base + i)) -> (0 < i -> after < base + i -> sub_pendingDropped s = 0) ->
  after < zlen log -> 0 < hub_historyCount h ->
  sub_ok quiet log s' (zlen log) /\ sub_pendingDropped s' = 0.
Proof.
  intros H (Hc & Hst & Hi) Hmax Hi0 Hn base. revert i s discarded H Hi0 Hn.
  induction n as [|n IH]; intros i s discarded H Hi0 Hn Hs Hp Ha Hpos; cbn [replay_history] in H.
  { injection H as <- <-. subst base. replace (Z.max after (zlen log - hub_historyCount h + i)) with (zlen log) in Hs by lia.
    split; [done|]. apply Hp; lia. }
  destruct (Hi i ltac:(lia)) as (p & Hlk & Hat). rewrite Hat in H. fold base in Hlk. cbn [with_Sequence ev_Sequence] in H.
  fold base in H. destruct (Z.ltb_spec after (base + i + 1)) as [Hlt|Hge].
  - destruct (offerEvent [] s _) as [s1 d1] eqn:Ho.
    destruct (offerEvent_ok quiet log _ _ _ _ _ _ Ho Hs) as (Hs1 & Hp1 & _); [cbn; lia|cbn; lia| |done|].
    { split; [done|]. exists p. split; [|done]. cbn. rewrite <-Hlk. f_equal. lia. }
    apply (IH (i + 1) _ _ H); [lia|lia| |done|done|done].
    by replace (Z.max after (base + (i + 1))) with (Z.max after (base + i) + 1) by lia.
  - apply (IH (i + 1) _ _ H); [lia|lia| |intros; lia|done|done].
    by replace (Z.max after (base + (i + 1))) with (Z.max after (base + i)) by lia.
Qed.

Lemma next_id_history h id : history_at (mkHub (hub_closed h) (hub_sequence h) id (hub_history h) (hub_historyStart h)
  (hub_historyCount h) (hub_subscribers h) (hub_maxSubscribers h) (hub_discarded h) (hub_historyGaps h)
  (hub_exhausted h) (hub_detached h)) = history_at h.
Proof. reflexivity. Qed.

Lemma subscribe_state_ok quiet log h after buffer discarded s d :
  hub_ok quiet log h -> 0 <= after <= zlen log -> 1 <= buffer <= MaximumSubscriptionBuffer ->
  let earliest := hub_sequence h ⊖ hub_historyCount h ⊕ 1 in
  let gap := if after <? earliest ⊖ 1 then earliest ⊖ after ⊖ 1 else 0 in
  let replay := (0 <? hub_historyCount h) && (after <? hub_sequence h) in
  (if replay then replay_history (Z.to_nat (hub_historyCount h)) h 0 after
                    (mkSubscription [] buffer (if replay then gap else 0) [] after) discarded
   else (mkSubscription [] buffer (if replay then gap else 0) [] after, discarded)) = (s, d) ->
  sub_ok quiet log s (zlen log) /\ sub_pendingDropped s = 0.
Proof.
  intros [HL Hseq Hmax Hh _ _ _] Ha Hb earliest gap replay. pose proof Hh as (Hc & Hst & Hi).
  pose proof (zlen_nonneg log).
  assert (forall q p, 0 <= p -> after + p = q -> sub_ok quiet log (mkSubscription [] buffer p [] after) q) as Hempty.
  { intros q p Hp Hq. split; cbn; try done; try lia. rewrite zlen_nil. lia. }
  assert (earliest = zlen log - hub_historyCount h + 1 /\ gap = Z.max 0 (zlen log - hub_historyCount h - after)) as [He Hg].
  { subst gap earliest. rewrite Hseq, (u64_id (zlen log - hub_historyCount h)) by go_lia.
    destruct (Z.eq_dec (zlen log - hub_historyCount h) maxUint64) as [E|E]; [go_lia|].
    rewrite (u64_id (zlen log - hub_historyCount h + 1)) by go_lia. split; [done|].
    replace (zlen log - hub_historyCount h + 1 - 1) with (zlen log - hub_historyCount h) by lia.
    rewrite (u64_id (zlen log - hub_historyCount h)) by go_lia.
    destruct (Z.ltb_spec after (zlen log - hub_historyCount h)); [|lia].
    rewrite (u64_id (_ - after)) by go_lia. rewrite u64_id by go_lia. lia. }
  destruct replay eqn:Hr.
  - unfold replay in Hr. rewrite Hseq in Hr. apply andb_true_iff in Hr as [Hr1%Z.ltb_lt Hr2%Z.ltb_lt]. intros H'.
    apply (replay_history_ok quiet log _ _ _ _ _ _ _ _ H'); try done; try lia.
    apply Hempty; lia.
  - intros [= <- <-]. split; [|done]. unfold replay in Hr. rewrite Hseq in Hr. apply andb_false_iff in Hr.
    apply Hempty; [done|]. destruct Hr as [Hr%Z.ltb_ge|Hr%Z.ltb_ge]; lia.
Qed.

Lemma buffer_range o :
  (let buffer := if so_Buffer o =? 0 then DefaultSubscriptionBuffer else so_Buffer o in
   (buffer <? 0) || (MaximumSubscriptionBuffer <? buffer) = false) ->
  1 <= (if so_Buffer o =? 0 then DefaultSubscriptionBuffer else so_Buffer o) <= MaximumSubscriptionBuffer.
Proof.
  unfold DefaultSubscriptionBuffer, MaximumSubscriptionBuffer. cbn zeta.
  destruct (Z.eqb_spec (so_Buffer o) 0); [lia|]. rewrite orb_false_iff, !Z.ltb_ge. lia.
Qed.

Lemma subscribe_ok quiet log h o :
  hub_ok quiet log h -> in_u64 (so_AfterSequence o) -> hub_ok quiet log (subscribe h o).1.
Proof.
  intros Hh [Ho _]. unfold subscribe.
  destruct ((_ <? 0) || _) eqn:Hb; [done|]. cbn [orb]. apply buffer_range in Hb.
  destruct (so_FutureOnly o && _); [done|]. destruct (hub_closed h) eqn:Hcl; [done|].
  destruct (Z.ltb_spec (hub_sequence h) (so_AfterSequence o)) as [|Hle]; [done|].
  destruct (_ <=? _); [done|]. set (after := if so_FutureOnly o then hub_sequence h else so_AfterSequence o).
  pose proof Hh as [HL Hseq Hmax Hhist Hlive Hdet _].
  assert (0 <= after <= zlen log) as Ha.
  { subst after. pose proof (zlen_nonneg log). destruct (so_FutureOnly o); lia. }
  match goal with |- context [if ?c then replay_history ?n h 0 after ?st ?disc else _] =>
    destruct (if c then replay_history n h 0 after st disc else (st, disc)) as [s d] eqn:Hs end.
  destruct (subscribe_state_ok quiet log h after _ _ _ _ Hh Ha Hb Hs) as [Hok Hp].
  cbn [fst]. split; cbn; try done. by apply map_Forall_insert_2.
Qed.

Lemma detach_ok quiet log h e : hub_ok quiet log h -> hub_ok quiet log (detach_all h e).
Proof.
  intros [HL Hseq Hmax Hhist Hlive Hdet _]. split; cbn; try done; try apply map_Forall_empty.
  apply Forall_app. split; [|done]. apply Forall_forall. intros s Hin.
  apply list_elem_of_In, in_map_iff in Hin as ([id s'] & <- & Hin). apply list_elem_of_In, elem_of_map_to_list in Hin.
  exists (zlen log). destruct (Hlive _ _ Hin). split; [done|lia].
Qed.

Lemma publish_ok quiet log h takes e :
  hub_ok quiet log h -> (quiet = true -> forall id, tl (takes id) = []) ->
  hub_ok quiet (if hub_closed h || (hub_sequence h =? maxUint64) then log else log ++ [e]) (publish takes h e).
Proof.
  intros Hh Hq. unfold publish. destruct (hub_closed h) eqn:Hcl; [done|]. cbn [orb].
  destruct (Z.eqb_spec (hub_sequence h) maxUint64); [by apply detach_ok|].
  pose proof Hh as [HL Hseq Hmax Hhist Hlive Hdet _]. pose proof (zlen_nonneg log).
  set (h1 := set_sequence h (hub_sequence h + 1)).
  destruct (history_append log h1 e HL ltac:(cbn; lia) Hhist) as [Hh1 HL1].
  assert (zlen (log ++ [e]) = zlen log + 1) as Hz by (rewrite zlen_app; reflexivity).
  set (ev := with_Sequence e (hub_sequence h1) 0) in *.
  assert (hub_subscribers (appendHistory h1 ev) = hub_subscribers h /\ hub_detached (appendHistory h1 ev) = hub_detached h /\
    hub_sequence (appendHistory h1 ev) = hub_sequence h + 1 /\ hub_closed (appendHistory h1 ev) = false) as (Es & Ed & Eq & Ec).
  { unfold appendHistory. by destruct (_ <? _). }
  change (hub_history h1) with (hub_history h) in HL1.
  split; unfold deliver;
    cbn [hub_history hub_sequence hub_historyCount hub_historyStart hub_subscribers hub_detached hub_closed];
    rewrite ?Es, ?Ed, ?Eq, ?Ec; try lia.
  - exact Hh1.
  - intros id s' Hs'. rewrite map_lookup_imap in Hs'. destruct (hub_subscribers h !! id) as [s|] eqn:Hs; [|done].
    cbn in Hs'. injection Hs' as <-. destruct (Hlive _ _ Hs) as [Hok Hp].
    destruct (offerEvent (takes id) s ev) as [s' d] eqn:Ho. rewrite Hz. cbn [fst].
    assert (ev_Sequence ev = zlen log + 1) as Hevs by (cbn; lia).
    destruct (offerEvent_ok quiet (log ++ [e]) _ _ _ (zlen log) _ _ Ho) as (Hok' & Hp' & _);
      [by apply sub_ok_mono|done|lia| |intros Hqt; by apply Hq|done].
    split; [done|]. exists e. rewrite Hevs. split; [|unfold ev, h1; cbn; by rewrite Hseq].
    rewrite lookup_app_r by (unfold zlen; lia).
    by replace (Z.to_nat (zlen log + 1 - 1) - length log)%nat with 0%nat by (unfold zlen; lia).
  - eapply Forall_impl; [done|]. intros s (q & Hs & Hle). exists q. split; [by apply sub_ok_mono|lia].
Qed.

Lemma hub_reach_ok quiet limit maxs log h : 0 < limit -> hub_reach quiet limit maxs log h -> hub_ok quiet log h.
Proof.
  intros HL. induction 1 as [|log h takes e _ IH Hq|log h o _ IH Ho|log h id _ IH|log h _ IH|log h id n _ IH].
  - assert (zlen (hub_history (newEventHub limit maxs)) = limit) as Hz.
    { cbn. rewrite zlen_replicate_nat. lia. }
    split; [lia|done|by unfold_ints| |exact (map_Forall_empty _)|constructor|done].
    unfold history_ok. rewrite Hz. change (zlen []) with 0. change (hub_historyCount _) with 0. change (hub_historyStart _) with 0.
    split; [lia|]. split; [lia|]. intros i ?. lia.
  - by apply publish_ok.
  - by apply subscribe_ok.
  - destruct IH as [? Hseq Hmax Hhist Hlive Hdet Hcl]. unfold unsubscribe.
    destruct (hub_subscribers h !! id) as [s|] eqn:Hs; [|done]. split; cbn; try done.
    + by apply map_Forall_delete.
    + constructor; [|done]. exists (zlen log). destruct (Hlive _ _ Hs). split; [done|lia].
    + intros Hc. rewrite (Hcl Hc). apply delete_empty.
  - unfold close. destruct (hub_closed h); [done|]. by apply detach_ok.
  - destruct IH as [? Hseq Hmax Hhist Hlive Hdet Hcl]. split; cbn; try done.
    + intros id' s' Hs'. destruct (decide (id = id')) as [->|Hne].
      * rewrite lookup_alter in Hs'. rewrite decide_True in Hs' by done.
        destruct (hub_subscribers h !! id') as [s|] eqn:Hs; [|done].
        cbn in Hs'. injection Hs' as <-. destruct (Hlive _ _ Hs) as [Hok Hp]. split; [by apply receive_ok|done].
      * rewrite lookup_alter_ne in Hs' by done. by apply Hlive in Hs'.
    + intros Hc. rewrite (Hcl Hc). apply map_eq. intros i. rewrite lookup_alter, lookup_empty. by case_decide.
Qed.

(** C21. Delivery loss is accounted for exactly: in every run of the hub with a
    positive history, for any interleaving of the consumers, what a subscription
    has received and still holds are events that were published after its start,
    unaltered and in increasing order; the number of deliveries plus the losses
    they report is exactly the number of events from its start to the hub's
    sequence - no counter saturates - and no queue exceeds its buffer.  If no
    consumer receives in the middle of a drain, every single delivery reports
    exactly the events omitted since the previous one. *)
Theorem delivery_accounting quiet limit maxSubscribers log h id s :
  0 < limit -> hub_reach quiet limit maxSubscribers log h -> hub_subscribers h !! id = Some s ->
  hub_sequence h = zlen log /\
  Forall (authentic log) (stream s) /\ increasing (sub_after s) (stream s) /\
  sub_after s + total (stream s) = hub_sequence h /\ zlen (sub_queue s) <= sub_cap s <= MaximumSubscriptionBuffer /\
  (quiet = true -> chain (sub_after s) (stream s)).
Proof.
  intros HL Hr Hs. destruct (hub_reach_ok _ _ _ _ _ HL Hr) as [_ Hseq _ _ Hlive _ _].
  destruct (Hlive _ _ Hs) as [[] Hp]. rewrite Hseq. split_and!; try done; lia.
Qed.

(** C22. The replay history is the tail of what was published: in every run the
    hub retains exactly the last [min limit published] events, in order, each with
    the sequence it was published under; a closed hub has no subscriber. *)
Theorem history_is_tail quiet limit maxSubscribers log h :
  0 < limit -> hub_reach quiet limit maxSubscribers log h ->
  hub_sequence h = zlen log /\ hub_historyCount h = Z.min (zlen log) (zlen (hub_history h)) /\
  (forall i, 0 <= i < hub_historyCount h ->
    exists p, log !! Z.to_nat (zlen log - hub_historyCount h + i) = Some p /\
      history_at h i = Some (with_Sequence p (zlen log - hub_historyCount h + i + 1) 0)) /\
  (hub_closed h = true -> hub_subscribers h = ∅).
Proof.
  intros HL Hr. destruct (hub_reach_ok _ _ _ _ _ HL Hr) as [_ Hseq _ (Hc & _ & Hi) _ _ Hcl]. done.
Qed.

(** ** Concrete runs *)

Definition ex_metadata : Metadata := mkMetadata [] [] [] 0 0 0 false false false EOLLF false false false.
Definition ex_event (k : EventKind) : SessionEvent :=
  mkSessionEvent 0 0 k ChangeOriginNone ex_metadata (mkChangeMap 0 0 0 0 []) (mkPersistenceProgress 0 0 0 0 false)
    (mkCompactionProgress 0 0 0 0 0 false false) (mkProgress 0 ProgressNone ProgressIdle 0 0 0 0 0 0 false false None) None.

(** A history of two, a subscriber with room for two, three events. *)
Definition ex_log : list SessionEvent := [ex_event EventOpened; ex_event EventRecovered; ex_event EventChanged].
Definition ex_hub (takes : Z -> list nat) : eventHub :=
  publish takes
    (publish (fun _ => [])
       (publish (fun _ => []) (subscribe (newEventHub 2 4) (mkSubscribeOptions 2 0 false)).1 (ex_event EventOpened))
       (ex_event EventRecovered))
    (ex_event EventChanged).

Lemma ex_hub_reach quiet takes :
  (quiet = true -> forall id, tl (takes id) = []) -> hub_reach quiet 2 4 ex_log (ex_hub takes).
Proof.
  intros Hq.
  assert (hub_reach quiet 2 4 [] (subscribe (newEventHub 2 4) (mkSubscribeOptions 2 0 false)).1) as R1.
  { apply reach_subscribe; [apply reach_new|]. unfold_ints. cbn. lia. }
  pose proof (reach_publish quiet 2 4 _ _ (fun _ => []) (ex_event EventOpened) R1 (fun _ _ => eq_refl)) as R2.
  pose proof (reach_publish quiet 2 4 _ _ (fun _ => []) (ex_event EventRecovered) R2 (fun _ _ => eq_refl)) as R3.
  exact (reach_publish quiet 2 4 _ _ takes (ex_event EventChanged) R3 Hq).
Qed.

Lemma delivery_accounting_witness :
  exists s, hub_subscribers (ex_hub (fun _ => [])) !! 1 = Some s /\
    map (fun e => (ev_Sequence e, ev_Dropped e)) (stream s) = [(3, 2)] /\
    sub_after s + total (stream s) = 3 /\ chain (sub_after s) (stream s).
Proof.
  assert (hub_reach true 2 4 ex_log (ex_hub (fun _ => []))) as Hr by (apply ex_hub_reach; auto).
  destruct (hub_subscribers (ex_hub (fun _ => [])) !! 1) as [s|] eqn:Hs; [|vm_compute in Hs; discriminate Hs].
  exists s. split; [reflexivity|].
  destruct (delivery_accounting true 2 4 ex_log (ex_hub (fun _ => [])) 1 s ltac:(lia) Hr Hs) as (_ & _ & _ & Ht & _ & Hc).
  split; [vm_compute in Hs; injection Hs as <-; reflexivity|]. split; [exact Ht|]. apply Hc. reflexivity.
Defined.

Lemma history_is_tail_witness :
  hub_sequence (ex_hub (fun _ => [])) = 3 /\ hub_historyCount (ex_hub (fun _ => [])) = 2 /\
  exists p, ex_log !! 1%nat = Some p /\ history_at (ex_hub (fun _ => [])) 0 = Some (with_Sequence p 2 0).
Proof.
  assert (hub_reach true 2 4 ex_log (ex_hub (fun _ => []))) as Hr by (apply ex_hub_reach; auto).
  destruct (history_is_tail true 2 4 ex_log (ex_hub (fun _ => [])) ltac:(lia) Hr) as (H1 & H2 & H3 & _).
  split; [exact H1|]. split; [exact H2|]. exact (H3 0 ltac:(rewrite H2; vm_compute; split; [discriminate|reflexivity])).
Defined.

(** The accounting of a single delivery is not exact when the consumer receives
    while the producer drains: the producer has discarded event 1 and is about to
    discard event 2 when the consumer takes it.  Event 2 arrives with [Dropped]
    zero although event 1 was omitted; the loss is reported with event 3. *)
Example drain_race :
  hub_reach false 2 4 ex_log (ex_hub (fun _ => [0; 0; 1]%nat)) /\
  exists s, hub_subscribers (ex_hub (fun _ => [0; 0; 1]%nat)) !! 1 = Some s /\ sub_after s = 0 /\
    map (fun e => (ev_Sequence e, ev_Dropped e)) (stream s) = [(2, 0); (3, 1)].
Proof.
  split; [by apply ex_hub_reach|]. eexists. split; [vm_compute; reflexivity|]. split; reflexivity.
Qed.

(** ** Subscription ids *)

Definition id_after (n : Z) : Z := let m := n ⊕ 1 in if m =? 0 then m ⊕ 1 else m.

Lemma id_after_spec n : 0 <= n <= maxUint64 -> id_after n = n mod maxUint64 + 1.
Proof.
  intros Hn. unfold id_after, u64. unfold_ints. destruct (Z.eq_dec n 18446744073709551615) as [->|Hne]; [done|].
  rewrite (Z.mod_small (n + 1)) by lia. rewrite (proj2 (Z.eqb_neq (n + 1) 0)) by lia. rewrite Z.mod_small by lia. done.
Qed.

Lemma next_id_spec fuel subs n :
  0 <= n <= maxUint64 -> exists k, 1 <= k <= Z.of_nat fuel + 1 /\
    next_id fuel subs n = (n - 1 + k) mod maxUint64 + 1 /\
    (forall j, 1 <= j < k -> is_Some (subs !! ((n - 1 + j) mod maxUint64 + 1))) /\
    (k <= Z.of_nat fuel -> subs !! next_id fuel subs n = None).
Proof.
  revert n. induction fuel as [|fuel IH]; intros n Hn; cbn [next_id]; fold (id_after n); rewrite id_after_spec by done.
  { exists 1. replace (n - 1 + 1) with n by lia. split_and!; try lia; done. }
  destruct (subs !! (n mod maxUint64 + 1)) eqn:Hs.
  2:{ exists 1. replace (n - 1 + 1) with n by lia. split_and!; try lia; done. }
  assert (0 <= n mod maxUint64 < maxUint64) by (apply Z.mod_pos_bound; unfold_ints; lia).
  destruct (IH (n mod maxUint64 + 1)) as (k & Hk & -> & Hj & Hf); [lia|]. exists (k + 1).
  assert (forall j, (n mod maxUint64 + 1 - 1 + j) mod maxUint64 = (n - 1 + (j + 1)) mod maxUint64) as E.
  { intros j. replace (n mod maxUint64 + 1 - 1 + j) with (n mod maxUint64 + j) by lia.
    rewrite Zplus_mod_idemp_l. f_equal. lia. }
  rewrite E in *. split_and!; [lia|lia|done| |intros; apply Hf; lia].
  intros j Hjr. destruct (decide (j = 1)) as [->|]; [replace (n - 1 + 1) with n by lia; by eexists|].
  specialize (Hj (j - 1) ltac:(lia)). rewrite E in Hj. by replace (j - 1 + 1) with j in Hj by lia.
Qed.

(** The search for a subscription id ends with a free one: with fewer than
    2^64 - 1 live subscriptions it returns an id from 1 to 2^64 - 1 that no live
    subscription has, after at most one step more than there are subscriptions. *)
Theorem nextSubscriptionID_fresh h :
  0 <= hub_nextID h <= maxUint64 -> Z.of_nat (size (hub_subscribers h)) < maxUint64 ->
  1 <= nextSubscriptionID h <= maxUint64 /\ hub_subscribers h !! nextSubscriptionID h = None.
Proof.
  intros Hn Hsize. unfold nextSubscriptionID. set (subs := hub_subscribers h) in *.
  destruct (next_id_spec (size subs) subs (hub_nextID h) Hn) as (k & Hk & He & Hj & Hf).
  assert (forall j, 0 <= (hub_nextID h - 1 + j) mod maxUint64 < maxUint64) as Hmod
    by (intros; apply Z.mod_pos_bound; unfold_ints; lia).
  split; [rewrite He; specialize (Hmod k); lia|].
  destruct (decide (k <= Z.of_nat (size subs))) as [|Hfull]; [by apply Hf|].
  destruct (subs !! next_id (size subs) subs (hub_nextID h)) as [s|] eqn:Hs; [|done]. exfalso.
  set (f := fun j : nat => (hub_nextID h - 1 + Z.of_nat j) mod maxUint64 + 1).
  assert (forall j, (1 <= j <= S (size subs))%nat -> f j ∈ dom subs) as Hdom.
  { intros j Hjr. apply elem_of_dom. destruct (decide (Z.of_nat j = k)) as [E|]; [|apply Hj; lia].
    unfold f. rewrite E, <-He, Hs. by eexists. }
  assert (NoDup (map f (seq 1 (S (size subs))))) as Hnd.
  { apply NoDup_fmap_2_strong; [|apply NoDup_seq]. intros x y Hx Hy E. apply elem_of_seq in Hx, Hy. unfold f in E.
    assert (Z.of_nat x - 1 = Z.of_nat y - 1); [|lia].
    apply (mod_add_inj maxUint64 (hub_nextID h)); [lia..|].
    replace (hub_nextID h + (Z.of_nat x - 1)) with (hub_nextID h - 1 + Z.of_nat x) by lia.
    replace (hub_nextID h + (Z.of_nat y - 1)) with (hub_nextID h - 1 + Z.of_nat y) by lia. lia. }
  pose proof (size_list_to_set (C := gset Z) _ Hnd) as Hsz. rewrite length_map, length_seq in Hsz.
  assert ((list_to_set (map f (seq 1 (S (size subs)))) : gset Z) ⊆ dom subs) as Hsub.
  { intros x Hx. apply elem_of_list_to_set, list_elem_of_In, in_map_iff in Hx as (j & <- & Hx). apply Hdom.
    apply in_seq in Hx. lia. }
  apply subseteq_size in Hsub. rewrite size_dom in Hsub. lia.
Qed.

Lemma nextSubscriptionID_fresh_witness :
  1 <= nextSubscriptionID (ex_hub (fun _ => [])) <= maxUint64 /\
  hub_subscribers (ex_hub (fun _ => [])) !! nextSubscriptionID (ex_hub (fun _ => [])) = None.
Proof. apply nextSubscriptionID_fresh; vm_compute; [split; discriminate|reflexivity]. Defined.
