(* ===== verification/UndoStore.v ===== *)
(** * document/undo_store.go: the quota-bounded store of undo texts

    A temporary file that grows by appends, is reset as a whole and is rewritten
    to the references still alive.  A nil store is [None]; [os.CreateTemp] and
    [os.Remove] are outcomes passed to the operations that call them. *)

From Stdlib Require Import ZArith Lia List.
From stdpp Require Import base list numbers gmap.
From S2P Require Import Prelude GoLib File.
#[local] Open Scope Z_scope.

Definition undoRewriteBufferBytes : Z := 65536.

Record textRef := mkRef { ref_offset : Z; ref_length : Z }.

#[export] Instance textRef_eq_dec : EqDecision textRef.
Proof. solve_decision. Defined.
#[export] Instance textRef_countable : Countable textRef.
Proof.
  refine (inj_countable' (fun r => (ref_offset r, ref_length r)) (fun p => mkRef p.1 p.2) _).
  by intros [].
Defined.

Definition zeroRef : textRef := mkRef 0 0.

(** [us_remove] tells whether the [remove] function is still set. *)
Record undoStore := mkUndoStore {
  us_file : option file; us_path : list byte; us_size : Z; us_quota : Z; us_remove : bool }.

Definition openUndoStoreWith (sessionDir : list byte) (quota : Z) (mkdirAll : option error)
  (createTemp : result (file * list byte)) : result (option undoStore) :=
  if zlen sessionDir =? 0 then Ok None else
  match mkdirAll with
  | Some e => Err e
  | None => let? (f, name) := createTemp in Ok (Some (mkUndoStore (Some f) name 0 quota true))
  end.

Definition with_file (s : undoStore) (f : file) (size : Z) : undoStore :=
  mkUndoStore (Some f) (us_path s) size (us_quota s) (us_remove s).

Definition append (s : option undoStore) (value : list byte) : option undoStore * (textRef * option error) :=
  if zlen value =? 0 then (s, (zeroRef, None)) else
  match s with
  | None => (s, (zeroRef, Some document_errUndoQuota))
  | Some u =>
    match us_file u with
    | None => (s, (zeroRef, Some document_ErrClosed))
    | Some f =>
      if us_quota u ⊟ us_size u <? zlen value then (s, (zeroRef, Some document_errUndoQuota)) else
      let ref := mkRef (us_size u) (zlen value) in
      let '(f, (n, err)) := file_WriteAt f value (ref_offset ref) in
      (Some (with_file u f (us_size u ⊞ n)), (ref, err))
    end
  end.

Definition read (s : option undoStore) (ref : textRef) : option undoStore * result (list byte) :=
  if ref_length ref =? 0 then (s, Ok []) else
  match s with
  | None => (s, Err document_errUndoQuota)
  | Some u =>
    match us_file u with
    | None => (s, Err document_ErrClosed)
    | Some f =>
      let '(f, (buffer, err)) := file_ReadAt f (ref_length ref) (ref_offset ref) in
      (Some (with_file u f (us_size u)),
       match err with
       | Some e => if errors_Is e io_EOF && (zlen buffer =? ref_length ref) then Ok buffer else Err e
       | None => Ok buffer
       end)
    end
  end.

Definition reset (s : option undoStore) : option undoStore * option error :=
  match s with
  | None => (s, None)
  | Some u =>
    match us_file u with
    | None => (s, Some document_ErrClosed)
    | Some f =>
      let '(f, e) := file_Truncate f 0 in
      (Some (with_file u f (match e with Some _ => us_size u | None => 0 end)), e)
    end
  end.

(** The validation loop of [rewriteContext]: the unique live references in order
    of first use and their total length. *)
Fixpoint unique_refs (ctx : Context) (k : nat) (size : Z) (refs : list textRef) (seen : gset textRef)
  (unique : list textRef) (liveBytes : Z) : nat * result (list textRef * Z) :=
  match refs with
  | [] => (k, Ok (unique, liveBytes))
  | ref :: refs =>
    let '(k, e) := poll (Some ctx) k in
    match e with
    | Some e => (k, Err e)
    | None =>
      if ref_length ref =? 0 then unique_refs ctx k size refs seen unique liveBytes
      else if (ref_offset ref <? 0) || (ref_length ref <? 0) || (size <? ref_offset ref) ||
              (size ⊟ ref_offset ref <? ref_length ref)
      then (k, Err io_ErrUnexpectedEOF)
      else if bool_decide (ref ∈ seen) then unique_refs ctx k size refs seen unique liveBytes
      else if maxInt64 ⊟ liveBytes <? ref_length ref then (k, Err document_ErrLimitExceeded)
      else unique_refs ctx k size refs ({[ref]} ∪ seen) (unique ++ [ref]) (liveBytes ⊞ ref_length ref)
    end
  end.

(** [copyUndoReference]; [size] and [liveBytes] are those its [report] closure
    captures, [reports] the calls of [report] so far.  A pass makes progress or
    ends the loop, so one unit of fuel per byte and one for the last test do. *)
Fixpoint copy_loop (fuel : nat) (ctx : Context) (k : nat) (destination source : file) (ref : textRef)
  (copied size liveBytes : Z) (reports : list (Z * Z))
  : nat * file * file * list (Z * Z) * option error :=
  match fuel with
  | O => (k, destination, source, reports, Some io_ErrUnexpectedEOF)
  | S fuel =>
    if copied <? ref_length ref then
      let '(k, e) := poll (Some ctx) k in
      match e with
      | Some e => (k, destination, source, reports, Some e)
      | None =>
        let want := Z.min undoRewriteBufferBytes (ref_length ref - copied) in
        let '(source, (buffer, readErr)) := file_ReadAt source want (ref_offset ref + copied) in
        let n := zlen buffer in
        if want <? n then (k, destination, source, reports, Some io_ErrUnexpectedEOF) else
        let '(destination, (written, writeErr)) :=
          if 0 <? n then file_Write destination buffer else (destination, (0, None)) in
        let copied := copied + written in
        let reports := if 0 <? n then reports ++ [(size + copied, liveBytes)] else reports in
        match writeErr with
        | Some e => (k, destination, source, reports, Some e)
        | None =>
          if (0 <? n) && negb (written =? n) then (k, destination, source, reports, Some io_ErrShortWrite) else
          match readErr with
          | Some e =>
            if errors_Is e io_EOF && (copied =? ref_length ref)
            then copy_loop fuel ctx k destination source ref copied size liveBytes reports
            else (k, destination, source, reports, Some e)
          | None =>
            if (n =? 0) && (copied <? ref_length ref) then (k, destination, source, reports, Some io_ErrUnexpectedEOF)
            else copy_loop fuel ctx k destination source ref copied size liveBytes reports
          end
        end
      end
    else (k, destination, source, reports, None)
  end.

Definition copyUndoReference (ctx : Context) (k : nat) (destination source : file) (ref : textRef)
  (size liveBytes : Z) (reports : list (Z * Z)) : nat * file * file * list (Z * Z) * option error :=
  copy_loop (S (Z.to_nat (ref_length ref))) ctx k destination source ref 0 size liveBytes reports.

(** The copy loop of [rewriteContext] over the unique references. *)
Fixpoint copy_refs (ctx : Context) (k : nat) (destination source : file) (unique : list textRef)
  (mapping : gmap textRef textRef) (size liveBytes : Z) (reports : list (Z * Z))
  : nat * file * file * list (Z * Z) * result (gmap textRef textRef * Z) :=
  match unique with
  | [] => (k, destination, source, reports, Ok (mapping, size))
  | ref :: unique =>
    let '(k, destination, source, reports, e) :=
      copyUndoReference ctx k destination source ref size liveBytes reports in
    match e with
    | Some e => (k, destination, source, reports, Err e)
    | None =>
      copy_refs ctx k destination source unique (<[ref := mkRef size (ref_length ref)]> mapping)
        (size + ref_length ref) liveBytes reports
    end
  end.

(** What a rewrite returns: the mapping ([None] is nil), the error and the calls
    of [report]. *)
Record rewriteResult := mkRewriteResult {
  rw_mapping : option (gmap textRef textRef); rw_error : option error; rw_reports : list (Z * Z) }.

(** [create] is the outcome of [s.create], [remove] of [s.remove(oldPath)]. *)
Definition rewriteContext (ctx : option Context) (k : nat) (s : option undoStore) (refs : list textRef)
  (create : result (file * list byte)) (remove : option error) : nat * option undoStore * rewriteResult :=
  let fail k s reports e := (k, s, mkRewriteResult None (Some e) reports) in
  match ctx with
  | None => fail k s [] document_ErrInvalidContext
  | Some ctx =>
    let '(k, e) := poll (Some ctx) k in
    match e with
    | Some e => fail k s [] e
    | None =>
      match s with
      | None => (k, s, mkRewriteResult (Some ∅) None [(0, 0)])
      | Some u =>
        match us_file u with
        | None => fail k s [] document_ErrClosed
        | Some f =>
          let '(k, r) := unique_refs ctx k (us_size u) refs ∅ [] 0 in
          match r with
          | Err e => fail k s [] e
          | Ok (unique, liveBytes) =>
            let reports := [(0, liveBytes)] in
            if zlen unique =? 0 then
              let '(k, e) := poll (Some ctx) k in
              match e with
              | Some e => fail k s reports e
              | None =>
                let '(f, e) := file_Truncate f 0 in
                match e with
                | Some e => fail k (Some (with_file u f (us_size u))) reports e
                | None => (k, Some (with_file u f 0), mkRewriteResult (Some ∅) None reports)
                end
              end
            else
              match create with
              | Err e => fail k s reports e
              | Ok (new, newPath) =>
                let '(k, new, f, reports, r) := copy_refs ctx k new f unique ∅ 0 liveBytes reports in
                match r with
                | Err e => fail k (Some (with_file u f (us_size u))) reports e
                | Ok (mapping, size) =>
                  let '(k, e) := poll (Some ctx) k in
                  match e with
                  | Some e => fail k (Some (with_file u f (us_size u))) reports e
                  | None =>
                    let '(_, closeErr) := file_Close f in
                    let removeErr := match remove with
                                     | Some e => if errors_Is e os_ErrNotExist then None else Some e
                                     | None => None end in
                    (k, Some (mkUndoStore (Some new) newPath size (us_quota u) (us_remove u)),
                     mkRewriteResult (Some mapping) (errors_Join closeErr removeErr) reports)
                  end
                end
              end
          end
        end
      end
    end
  end.

(** [rewrite]: [context.Background()] never reports an error. *)
Definition rewrite (s : option undoStore) (refs : list textRef) (create : result (file * list byte))
  (remove : option error) : option undoStore * rewriteResult :=
  let '(_, s, r) := rewriteContext (Some (fun _ => None)) O s refs create remove in (s, r).

Definition undo_bytes (s : option undoStore) : Z :=
  match s with None => 0 | Some u => us_size u end.

Definition close (s : option undoStore) (remove : option error) : option undoStore * option error :=
  match s with
  | None => (s, None)
  | Some u =>
    match us_file u with
    | None => (s, None)
    | Some f =>
      let '(_, err) := file_Close f in
      let err := if us_remove u then
                   match remove with
                   | Some e => if errors_Is e os_ErrNotExist then err else errors_Join err (Some e)
                   | None => err
                   end
                 else err in
      (Some (mkUndoStore None (us_path u) (us_size u) (us_quota u) false), err)
    end
  end.

(** ** Theory *)

Definition us_bytes (u : undoStore) : list byte :=
  match us_file u with Some f => f_bytes f | None => [] end.
Definition us_text (u : undoStore) (r : textRef) : list byte := slice (ref_offset r) (ref_length r) (us_bytes u).
Definition in_store (size : Z) (r : textRef) : Prop :=
  0 <= ref_offset r /\ 0 <= ref_length r /\ ref_offset r + ref_length r <= size.

(** An open store: the file ends where the store says, within the quota. *)
Record us_ok (u : undoStore) : Prop := {
  us_open : is_Some (us_file u);
  us_end : zlen (us_bytes u) = us_size u;
  us_within : us_size u <= us_quota u <= maxInt64 }.

Lemma us_size_nonneg u : us_ok u -> 0 <= us_size u.
Proof. intros [_ <- _]. apply zlen_nonneg. Qed.

Lemma ztake_zlen_ztake {A} k (l : list A) : ztake (zlen (ztake k l)) l = ztake k l.
Proof.
  rewrite zlen_ztake. pose proof (zlen_nonneg l).
  destruct (decide (k <= zlen l)); [destruct (decide (k <= 0)); [by rewrite !ztake_0 by lia|f_equal; lia]|].
  rewrite !ztake_all by lia. done.
Qed.

Lemma file_WriteAt_end f p off f' n e :
  file_WriteAt f p off = (f', (n, e)) -> off = zlen (f_bytes f) ->
  f_bytes f' = f_bytes f ++ ztake n p /\ 0 <= n <= zlen p /\ (e = None -> n = zlen p) /\
  (f_faults f = [] -> e = None /\ f_faults f' = []).
Proof.
  unfold file_WriteAt. intros H ->. destruct (next_fault f) as [x f1] eqn:Hf.
  destruct (next_fault_bytes _ _ _ Hf) as (Hb & _ & Hnf).
  destruct x as [|k e'|k]; injection H as <- <- <-; cbn [f_bytes f_faults]; rewrite write_at_end, Hb by (by rewrite Hb);
    (split; [f_equal; symmetry|split; [pose proof (zlen_nonneg p)|split; [done|intros Hfs; destruct (Hnf Hfs); naive_solver]]]).
  all: try (apply ztake_all; lia); try lia.
  - apply ztake_zlen_ztake.
  - rewrite zlen_ztake. lia.
Qed.

Lemma us_text_app u u' r k : us_bytes u' = us_bytes u ++ k -> in_store (zlen (us_bytes u)) r -> us_text u' r = us_text u r.
Proof. intros E (?&?&?). unfold us_text. rewrite E. apply slice_app_l; lia. Qed.

(** [append], whatever the faults: only bytes are added, and without an error
    the reference holds the value. *)
Lemma append_spec u value s' ref err :
  us_ok u -> zlen value <= maxInt64 -> append (Some u) value = (s', (ref, err)) ->
  exists u' k, s' = Some u' /\ us_ok u' /\ us_quota u' = us_quota u /\ us_bytes u' = us_bytes u ++ ztake k value /\
    in_store (us_size u') (if isSome err then zeroRef else ref) /\
    (err = None -> us_text u' ref = value) /\
    (us_quota u - us_size u < zlen value -> 0 < zlen value -> u' = u /\ err = Some document_errUndoQuota).
Proof.
  intros Hok Hlen. pose proof (us_size_nonneg u Hok) as H0. pose proof Hok as [[f Hf] Hend Hw].
  unfold append. rewrite Hf. pose proof (zlen_nonneg value).
  assert (zlen (us_bytes u) = zlen (f_bytes f)) as Hfb by (unfold us_bytes; by rewrite Hf).
  destruct (Z.eqb_spec (zlen value) 0) as [Hz|Hz].
  { intros [= <- <- <-]. exists u, 0. rewrite (zlen_zero _ Hz). split_and!; try done; try lia.
    by rewrite ztake_0, app_nil_r by lia.
    }
  unwrap64_goal. destruct (Z.ltb_spec (us_quota u - us_size u) (zlen value)).
  { intros [= <- <- <-]. exists u, 0. split_and!; try done; try lia.
    by rewrite ztake_0, app_nil_r by lia. }
  cbn [ref_offset]. destruct (file_WriteAt f value (us_size u)) as [f' [n e]] eqn:Hwr.
  destruct (file_WriteAt_end _ _ _ _ _ _ Hwr ltac:(lia)) as (Hb & Hn & He & _).
  intros [= <- <- <-]. unwrap64_goal. eexists _, n. split; [done|].
  assert (us_bytes (with_file u f' (us_size u + n)) = us_bytes u ++ ztake n value) as Hb'.
  { unfold us_bytes at 1 2. cbn. by rewrite Hf. }
  assert (zlen (us_bytes u ++ ztake n value) = us_size u + n) as Hl by zlen_lia.
  split_and!; try done; try (cbn; lia).
  - split; [cbn; eauto|by rewrite Hb'|cbn; lia].
  - destruct e; cbn; [unfold in_store; cbn; lia|]. specialize (He eq_refl). unfold in_store; cbn. lia.
  - intros ->. specialize (He eq_refl). unfold us_text. cbn [ref_offset ref_length]. rewrite Hb', (ztake_all n) by lia.
    rewrite <-(app_nil_r value) at 2. by apply slice_mid.
Qed.

(** [read], whatever the faults, changes nothing and never returns other bytes
    than those of the reference. *)
Lemma read_spec u ref s' r :
  us_ok u -> in_store (us_size u) ref -> read (Some u) ref = (s', r) ->
  exists u', s' = Some u' /\ us_ok u' /\ us_quota u' = us_quota u /\ us_size u' = us_size u /\ us_bytes u' = us_bytes u /\
    (forall v, r = Ok v -> v = us_text u ref) /\
    (forall f, us_file u = Some f -> f_faults f = [] -> r = Ok (us_text u ref)).
Proof.
  intros Hok (H0 & H1 & H2). pose proof Hok as [[f Hf] Hend Hw]. unfold read. rewrite Hf.
  assert (us_bytes u = f_bytes f) as Hfb by (unfold us_bytes; by rewrite Hf).
  destruct (Z.eqb_spec (ref_length ref) 0) as [Hz|Hz].
  { intros [= <- <-]. exists u. unfold us_text. rewrite slice_nil_len by lia. split_and!; naive_solver. }
  destruct (file_ReadAt f (ref_length ref) (ref_offset ref)) as [f' [data e]] eqn:Hrd.
  destruct (file_ReadAt_spec _ _ _ _ _ _ Hrd) as (Hb & Hd & He & Hnf); [rewrite <-?Hfb; lia..|].
  intros [= <- <-]. eexists. split; [done|].
  assert (us_bytes (with_file u f' (us_size u)) = us_bytes u) as Hb' by (rewrite Hfb; exact Hb).
  split_and!; try done.
  - split; [cbn; eauto|by rewrite Hb'|done].
  - unfold us_text. rewrite Hfb. intros v Hv. destruct e as [e|]; [|by injection Hv as <-; auto].
    destruct (errors_Is e io_EOF); [|done]. cbn [andb] in Hv.
    destruct (Z.eqb_spec (zlen data) (ref_length ref)) as [Hdl|]; [|done]. injection Hv as <-.
    rewrite Hd. apply ztake_all. rewrite zlen_slice by (rewrite <-?Hfb; lia). lia.
  - intros f1 [= <-] Hfs. destruct (Hnf Hfs) as [-> _]. unfold us_text. rewrite Hfb. f_equal. auto.
Qed.

(** [reset] empties the store or, when the truncation fails, changes nothing. *)
Lemma reset_spec u s' e :
  us_ok u -> reset (Some u) = (s', e) ->
  exists u', s' = Some u' /\ us_ok u' /\ us_quota u' = us_quota u /\
    match e with None => us_size u' = 0 | Some _ => us_bytes u' = us_bytes u end.
Proof.
  intros Hok. destruct (us_open _ Hok) as [f Hf]. pose proof (us_within _ Hok) as Hw. pose proof (us_end _ Hok) as He.
  pose proof (us_size_nonneg _ Hok) as H0. unfold reset. rewrite Hf. unfold file_Truncate.
  destruct (next_fault f) as [x f1] eqn:Hx. destruct (next_fault_bytes _ _ _ Hx) as (Hb & _).
  assert (us_bytes u = f_bytes f) as Hfb by (unfold us_bytes; by rewrite Hf).
  destruct x; intros [= <- <-]; eexists; (split; [done|]); (split; [|split; [done|]]); try done.
  all: try (unfold us_bytes; cbn; by rewrite Hf).
  all: split; [cbn; eauto|unfold us_bytes; cbn; rewrite ?ztake_0, ?Hb, <-?Hfb by lia; done|cbn; lia].
Qed.

(** *** Stores without faults ahead *)

Definition us_clean (u : undoStore) : Prop := forall f, us_file u = Some f -> f_faults f = [].

Lemma append_clean u value s' ref err :
  us_ok u -> us_clean u -> append (Some u) value = (s', (ref, err)) ->
  (exists u', s' = Some u' /\ us_clean u') /\ (err = None \/ err = Some document_errUndoQuota).
Proof.
  intros [[f Hf] Hend _] Hc. pose proof (Hc f Hf) as Hfs. unfold append. rewrite Hf.
  destruct (zlen value =? 0); [intros [= <- <- <-]; eauto|].
  destruct (_ <? zlen value); [intros [= <- <- <-]; eauto|].
  destruct (file_WriteAt f value _) as [f' [n e]] eqn:Hw. intros [= <- <- <-].
  destruct (file_WriteAt_end _ _ _ _ _ _ Hw) as (_ & _ & _ & Hn).
  { cbn. rewrite <-Hend. unfold us_bytes. by rewrite Hf. }
  destruct (Hn Hfs) as [-> Hf']. split; [|by left]. eexists. split; [done|]. by intros g [= <-].
Qed.

Lemma reset_clean u s' e : us_ok u -> us_clean u -> reset (Some u) = (s', e) -> e = None /\ exists u', s' = Some u' /\ us_clean u'.
Proof.
  intros [[f Hf] _ _] Hc. pose proof (Hc f Hf) as Hfs. unfold reset. rewrite Hf. unfold file_Truncate, next_fault.
  rewrite Hfs. intros [= <- <-]. split; [done|]. eexists. split; [done|]. by intros g [= <-].
Qed.

Lemma read_clean u ref s' r : us_ok u -> us_clean u -> read (Some u) ref = (s', r) -> exists u', s' = Some u' /\ us_clean u'.
Proof.
  intros [[f Hf] _ _] Hc. pose proof (Hc f Hf) as Hfs. unfold read. rewrite Hf.
  destruct (ref_length ref =? 0); [intros [= <- <-]; eauto|]. unfold file_ReadAt, next_fault. rewrite Hfs.
  destruct (bytes_NewReader _ _ _) as [b e]. intros [= <- <-]. eexists. split; [done|]. by intros g [= <-].
Qed.

(** *** Runs of the store *)

Inductive undoCommand :=
| UAppend (value : list byte)
| URead (ref : textRef)
| UReset.

(** A run keeps the texts appended without an error since the last reset. *)
Definition run_command (s : undoStore) (live : list (textRef * list byte)) (c : undoCommand)
  : option undoStore * list (textRef * list byte) :=
  match c with
  | UAppend value =>
    let '(s, (ref, e)) := append (Some s) value in
    (s, match e with None => (ref, value) :: live | Some _ => live end)
  | URead ref => ((read (Some s) ref).1, live)
  | UReset => let '(s, e) := reset (Some s) in (s, match e with None => [] | Some _ => live end)
  end.

Inductive undo_run : undoStore -> list (textRef * list byte) -> Prop :=
| run_open f path quota : f_bytes f = [] -> 0 <= quota <= maxInt64 -> undo_run (mkUndoStore (Some f) path 0 quota true) []
| run_cmd s live c s' live' :
    undo_run s live -> match c with UAppend v => zlen v <= maxInt64 | URead r => in_store (us_size s) r | UReset => True end ->
    run_command s live c = (Some s', live') -> undo_run s' live'.

Definition live_ok (u : undoStore) (p : textRef * list byte) : Prop :=
  in_store (us_size u) p.1 /\ us_text u p.1 = p.2.

Lemma live_ok_mono u u' k p :
  us_ok u -> us_ok u' -> us_bytes u' = us_bytes u ++ k -> live_ok u p -> live_ok u' p.
Proof.
  intros H H' Hb [Hin Ht]. pose proof (us_end _ H) as E. pose proof (us_end _ H') as E'. rewrite Hb, zlen_app in E'.
  pose proof (zlen_nonneg k). split.
  - unfold in_store in *. lia.
  - rewrite <-Ht. apply (us_text_app _ _ _ k Hb). by rewrite E.
Qed.

Lemma undo_run_ok s live : undo_run s live -> us_ok s /\ Forall (live_ok s) live.
Proof.
  induction 1 as [f path quota Hb Hq|s live c s' live' _ [Hok Hlive] Hc Hrun].
  { split; [|by constructor]. split; [cbn; eauto|unfold us_bytes; cbn; by rewrite Hb|cbn; lia]. }
  destruct c as [v|r|]; cbn [run_command] in Hrun.
  - destruct (append (Some s) v) as [s1 [ref e]] eqn:Ha.
    destruct (append_spec _ _ _ _ _ Hok Hc Ha) as (u' & k & -> & Hok' & _ & Hb & Hin & Ht & _).
    injection Hrun as -> <-. split; [done|].
    assert (Forall (live_ok s') live) as Hl'.
    { apply (Forall_impl _ (live_ok s')  _ Hlive). intros p. by apply (live_ok_mono _ _ _ _ Hok Hok' Hb). }
    destruct e; [done|]. constructor; [split; [exact Hin|by apply Ht]|done].
  - destruct (read (Some s) r) as [s1 x] eqn:Hr. destruct (read_spec _ _ _ _ Hok Hc Hr) as (u' & -> & Hok' & _ & _ & Hb & _).
    injection Hrun as -> <-. split; [done|]. apply (Forall_impl _ (live_ok s') _ Hlive). intros p.
    apply (live_ok_mono _ _ [] _ Hok Hok'). by rewrite app_nil_r.
  - destruct (reset (Some s)) as [s1 e] eqn:Hr. destruct (reset_spec _ _ _ Hok Hr) as (u' & -> & Hok' & _ & He).
    injection Hrun as -> <-. split; [done|]. destruct e; [|by constructor].
    apply (Forall_impl _ (live_ok s') _ Hlive). intros p. apply (live_ok_mono _ _ [] _ Hok Hok'). by rewrite app_nil_r.
Qed.

(** *** Rewriting *)

(** The reports of a rewrite: ascending counts, the last at most [top], each with
    the same total. *)
Inductive ascending (total : Z) : Z -> list (Z * Z) -> Prop :=
| asc_nil : ascending total 0 []
| asc_snoc lo x l : ascending total lo l -> lo <= x -> ascending total x (l ++ [(x, total)]).

Definition steady (ctx : Context) : Prop := forall k, ctx k = None.

(** What [copyUndoReference] does, from any point of its loop. *)
Lemma copy_loop_spec fuel ctx k dst src ref copied size live reports k' dst' src' reports' e lo :
  copy_loop fuel ctx k dst src ref copied size live reports = (k', dst', src', reports', e) ->
  (Z.to_nat (ref_length ref - copied) < fuel)%nat -> 0 <= copied <= ref_length ref -> 0 <= ref_offset ref ->
  ref_offset ref + ref_length ref <= zlen (f_bytes src) -> f_pos dst = zlen (f_bytes dst) ->
  ascending live lo reports -> lo <= size + copied ->
  f_bytes src' = f_bytes src /\
  (e = None -> f_bytes dst' = f_bytes dst ++ slice (ref_offset ref + copied) (ref_length ref - copied) (f_bytes src) /\
     f_pos dst' = zlen (f_bytes dst')) /\
  (exists hi, ascending live hi reports' /\ hi <= size + ref_length ref) /\
  (steady ctx -> f_faults src = [] -> f_faults dst = [] -> e = None /\ f_faults src' = [] /\ f_faults dst' = []).
Proof.
  revert k dst src copied reports lo. induction fuel as [|fuel IH]; intros k dst src copied reports lo H; [lia|].
  cbn [copy_loop] in H. intros Hfuel Hc Hoff Hle Hpos Hasc Hlo.
  destruct (Z.ltb_spec copied (ref_length ref)) as [Hlt|Hge].
  2:{ injection H as <- <- <- <- <-. rewrite slice_nil_len, app_nil_r by lia.
      split_and!; try done. exists lo; split; [done|lia]. }
  cbn [poll] in H. destruct (ctx k) as [e0|] eqn:Hctx.
  { injection H as <- <- <- <- <-. split_and!; try done; [exists lo; split; [done|lia]|].
    intros Hst. rewrite Hst in Hctx. done. }
  set (want := Z.min undoRewriteBufferBytes (ref_length ref - copied)) in *.
  assert (0 < want <= ref_length ref - copied) as Hw by (subst want; unfold undoRewriteBufferBytes; lia).
  clearbody want.
  destruct (file_ReadAt src want (ref_offset ref + copied)) as [src1 [data rerr]] eqn:Hrd.
  destruct (file_ReadAt_spec _ _ _ _ _ _ Hrd) as (Hb & Hd & He & Hnf); [lia..|].
  pose proof (file_ReadAt_noeof _ _ _ _ _ _ Hrd ltac:(lia) ltac:(lia) ltac:(lia)) as Hn.
  pose proof (zlen_nonneg data) as Hn0. rewrite (proj2 (Z.ltb_ge want _)) in H by lia.
  destruct (Z.ltb_spec 0 (zlen data)) as [Hpos0|Hz].
  2:{ rewrite Z.add_0_r in H. cbn [andb] in H. assert (zlen data = 0) as Ez by lia. rewrite Ez in *.
      assert (reports' = reports /\ src' = src1 /\ is_Some e /\ (rerr <> None)) as (-> & -> & Hse & Hre).
      { destruct rerr as [re|].
        - rewrite (proj2 (Z.eqb_neq copied _)), andb_false_r in H by lia. injection H as <- <- <- <- <-. split_and!; (done || by eexists).
        - specialize (He eq_refl). apply (f_equal zlen) in He. rewrite zlen_slice in He by lia. lia. }
      split_and!; [done|by intros ->; destruct Hse|exists lo; split; [done|lia]|].
      intros _ Hs _. destruct (Hnf Hs). done. }
  destruct (file_Write dst data) as [dst1 [written werr]] eqn:Hwr.
  destruct (file_Write_spec _ _ _ _ _ Hwr Hpos) as (kk & Hdb & Hdp & Hwn & Hwf).
  assert (0 <= written <= zlen data) as Hwb by (rewrite Hwn, zlen_ztake; lia).
  assert (ascending live (size + (copied + written)) (reports ++ [(size + (copied + written), live)])) as Hasc'
    by (apply (asc_snoc _ lo); [done|lia]).
  set (reports1 := reports ++ [(size + (copied + written), live)]) in *. clearbody reports1.
  assert (exists hi, ascending live hi reports1 /\ hi <= size + ref_length ref) as Hhi
    by (eexists; split; [exact Hasc'|lia]).
  destruct werr as [we|].
  { injection H as <- <- <- <- <-. split_and!; try done. intros _ _ Hdf. destruct (Hwf Hdf). done. }
  cbn [andb] in H. destruct (Z.eqb_spec written (zlen data)) as [Hfull|Hshort]; cbn [negb] in H.
  2:{ injection H as <- <- <- <- <-. split_and!; try done. intros _ _ Hdf. destruct (Hwf Hdf) as (_ & ? & _). lia. }
  rewrite (file_Write_full _ _ _ _ _ Hwr Hpos Hfull) in *.
  assert (copy_loop fuel ctx (S k) dst1 src1 ref (copied + written) size live reports1 = (k', dst', src', reports', e) \/
          (reports' = reports1 /\ src' = src1 /\ is_Some e /\ rerr <> None)) as [Hrec|(-> & -> & [e' ->] & Hre)].
  { rewrite (proj2 (Z.eqb_neq (zlen data) 0)) in H by lia. cbn [andb] in H.
    destruct rerr as [re|]; [|by left]. destruct (errors_Is re io_EOF && (copied + written =? ref_length ref)); [by left|].
    right. injection H as <- <- <- <- <-. split_and!; (done || by eexists). }
  2:{ split_and!; try done. intros _ Hs _. by destruct (Hnf Hs). }
  clear H. destruct (IH _ _ _ _ _ (size + (copied + written)) Hrec) as (Hs' & Hd' & Hr' & Hf'); try lia; try done.
  { by rewrite Hb. } { by rewrite Hdp, (file_Write_full _ _ _ _ _ Hwr Hpos Hfull). }
  rewrite Hb in *. split_and!; try done.
  - intros E. destruct (Hd' E) as [-> Hp']. split; [|done].
    rewrite (file_Write_full _ _ _ _ _ Hwr Hpos Hfull), <-app_assoc. f_equal.
    replace (ref_length ref - copied) with (zlen data + (ref_length ref - (copied + written))) by lia.
    rewrite slice_split by lia. f_equal; [|f_equal; lia].
    rewrite Hd at 1. rewrite <-slice_0, slice_slice by lia. f_equal; lia.
  - intros Hst Hs Hdf. destruct (Hnf Hs) as [_ ?]. destruct (Hwf Hdf) as (_ & _ & ?). by apply Hf'.
Qed.

Definition total (refs : list textRef) : Z := foldr (fun r n => ref_length r + n) 0 refs.

Lemma live_total_app l k : total (l ++ k) = total l + total k.
Proof. induction l; unfold total in *; cbn; lia. Qed.
Lemma live_total_nonneg size refs : Forall (in_store size) refs -> 0 <= total refs.
Proof. induction 1 as [|r refs (_&?&_) _ IH]; unfold total in *; cbn; lia. Qed.

(** [m] sends references into [old] to references into [new] with the same text. *)
Definition relocates (old new : list byte) (m : gmap textRef textRef) : Prop :=
  forall r r', m !! r = Some r' ->
    ref_length r' = ref_length r /\ in_store (zlen new) r' /\
    slice (ref_offset r') (ref_length r') new = slice (ref_offset r) (ref_length r) old.

(** Two references share all their bytes or none. *)
Definition apart (r1 r2 : textRef) : Prop :=
  r1 = r2 \/ ref_offset r1 + ref_length r1 <= ref_offset r2 \/ ref_offset r2 + ref_length r2 <= ref_offset r1.

Definition apart_images (m : gmap textRef textRef) : Prop :=
  forall r1 r2 r1' r2', m !! r1 = Some r1' -> m !! r2 = Some r2' -> apart r1' r2'.

Lemma apart_images_insert old new m r n :
  relocates old new m -> apart_images m -> apart_images (<[r := mkRef (zlen new) n]> m).
Proof.
  intros Hm Hap r1 r2 r1' r2' H1 H2.
  assert (forall x x', m !! x = Some x' -> ref_offset x' + ref_length x' <= zlen new) as Hin
    by (intros x x' Hx; by destruct (Hm _ _ Hx) as (_ & (? & ? & ?) & _)).
  apply lookup_insert_Some in H1 as [[<- <-]|[_ H1]], H2 as [[E <-]|[_ H2]].
  - by left.
  - right; right. by apply (Hin r2).
  - right; left. by apply (Hin r1).
  - by apply (Hap r1 r2).
Qed.

Lemma relocates_insert old new m r :
  relocates old new m -> in_store (zlen old) r ->
  relocates old (new ++ slice (ref_offset r) (ref_length r) old) (<[r := mkRef (zlen new) (ref_length r)]> m).
Proof.
  intros Hm (?&?&?) x x' Hx. pose proof (zlen_nonneg new).
  assert (zlen (slice (ref_offset r) (ref_length r) old) = ref_length r) as Hl by (apply zlen_slice; lia).
  unfold in_store. rewrite zlen_app, Hl. destruct (decide (x = r)) as [->|Hne].
  - rewrite lookup_insert_eq in Hx. injection Hx as <-. cbn. split_and!; try lia.
    rewrite <-(app_nil_r (slice (ref_offset r) (ref_length r) old)) at 1. by apply slice_mid.
  - rewrite lookup_insert_ne in Hx by done. destruct (Hm _ _ Hx) as (? & (?&?&?) & <-).
    split_and!; try lia. apply slice_app_l; lia.
Qed.

Lemma copy_refs_spec ctx unique : forall k dst src mapping size live reports k' dst' src' reports' r lo,
  copy_refs ctx k dst src unique mapping size live reports = (k', dst', src', reports', r) ->
  Forall (in_store (zlen (f_bytes src))) unique -> f_pos dst = zlen (f_bytes dst) -> size = zlen (f_bytes dst) ->
  relocates (f_bytes src) (f_bytes dst) mapping -> apart_images mapping -> ascending live lo reports -> lo <= size ->
  f_bytes src' = f_bytes src /\ (exists hi, ascending live hi reports' /\ hi <= size + total unique) /\
  (forall m size', r = Ok (m, size') ->
     size' = zlen (f_bytes dst') /\ size' = size + total unique /\ relocates (f_bytes src) (f_bytes dst') m /\ apart_images m /\
     (forall x, x ∈ unique \/ is_Some (mapping !! x) -> is_Some (m !! x))) /\
  (steady ctx -> f_faults src = [] -> f_faults dst = [] -> exists a, r = Ok a).
Proof.
  induction unique as [|ref unique IH]; intros k dst src mapping size live reports k' dst' src' reports' r lo H
    Hin Hpos Hsize Hrel Hap Hasc Hlo; cbn [copy_refs] in H.
  { injection H as <- <- <- <- <-. cbn. split_and!; [done|exists lo; split; [done|lia]| |eauto].
    intros m size' [= <- <-]. split_and!; try done; [lia|]. intros x [Hx|?]; [set_solver|done]. }
  destruct (copyUndoReference ctx k dst src ref size live reports) as [[[[k1 dst1] src1] reports1] e] eqn:Hcp.
  apply Forall_cons_iff in Hin as [Href Hin]. pose proof Href as (Ho & Hl & Hle).
  destruct (copy_loop_spec _ _ _ _ _ _ _ _ _ _ _ _ _ _ _ lo Hcp) as (Hb & Hd & (hi & Ha & Hhi) & Hnf);
    try done; [lia..|]. pose proof (live_total_nonneg _ _ Hin) as Ht.
  assert (total (ref :: unique) = ref_length ref + total unique) as Htc by done. rewrite Htc.
  destruct e as [e|].
  { injection H as <- <- <- <- <-. split_and!; [done|exists hi; split; [done|lia]|done|].
    intros Hst Hs Hdf. by destruct (Hnf Hst Hs Hdf). }
  destruct (Hd eq_refl) as [Hd1 Hp1]. rewrite Z.add_0_r, Z.sub_0_r in Hd1.
  assert (zlen (f_bytes dst1) = size + ref_length ref) as Hsz by (rewrite Hd1, zlen_app, zlen_slice; lia).
  destruct (IH _ _ _ _ _ _ _ _ _ _ _ _ hi H) as (Hs' & (hi' & Ha' & Hhi') & Hok & Hnf'); try done.
  { by rewrite Hb. } { rewrite Hb, Hd1. subst size. by apply relocates_insert. } { subst size. by eapply apart_images_insert. }
  rewrite Hb in *. split_and!; [done|exists hi'; split; [done|lia]| |].
  - intros m size' E. destruct (Hok _ _ E) as (-> & Hsz' & Hm & Hm' & Hdom). split_and!; try done; [lia|].
    intros x Hx. apply Hdom. destruct (decide (x = ref)) as [->|Hne]; [right; rewrite lookup_insert_eq; eauto|].
    rewrite lookup_insert_ne by done. clear -Hx Hne. set_solver.
  - intros Hst Hs Hdf. destruct (Hnf Hst Hs Hdf) as (_ & ? & ?). by apply Hnf'.
Qed.

(** The validation loop finds exactly the references with text, once each. *)
Lemma unique_refs_spec ctx size refs : forall k seen unique live k' r,
  unique_refs ctx k size refs seen unique live = (k', r) -> 0 <= size <= maxInt64 ->
  NoDup unique -> (forall x, x ∈ seen <-> x ∈ unique) -> Forall (in_store size) unique ->
  live = total unique -> live <= maxInt64 ->
  (forall u' live', r = Ok (u', live') ->
     NoDup u' /\ Forall (in_store size) u' /\ live' = total u' /\ live' <= maxInt64 /\
     (forall x, x ∈ u' <-> x ∈ unique \/ (x ∈ refs /\ ref_length x <> 0))) /\
  (steady ctx -> Forall (in_store size) refs ->
     (forall l, NoDup l -> (forall x, x ∈ l -> x ∈ unique ++ refs) -> total l <= maxInt64) -> exists a, r = Ok a).
Proof.
  induction refs as [|ref refs IH]; intros k seen unique live k' r H Hsize Hnd Hseen Hall Hlive Hmax; cbn [unique_refs] in H.
  { injection H as <- <-. split; [|eauto]. intros u' live' [= <- <-]. split_and!; try done. clear. set_solver. }
  cbn [poll] in H. destruct (ctx k) as [e|] eqn:Hctx.
  { injection H as <- <-. split; [done|]. intros Hst. by rewrite Hst in Hctx. }
  destruct (Z.eqb_spec (ref_length ref) 0) as [Hz|Hnz].
  { destruct (IH _ _ _ _ _ _ H Hsize Hnd Hseen Hall Hlive Hmax) as [Hok Hst]. split.
    - intros u' live' E. destruct (Hok _ _ E) as (? & ? & ? & ? & Hx). split_and!; try done. intros x. rewrite Hx. clear -Hz. set_solver.
    - intros Hs Hin Htot. apply Forall_cons_iff in Hin as [_ Hin]. apply Hst; [done..|].
      intros l Hl Hsub. apply Htot; [done|]. intros x Hx. apply Hsub in Hx. clear -Hx. set_solver. }
  destruct ((ref_offset ref <? 0) || (ref_length ref <? 0) || (size <? ref_offset ref) ||
            (size ⊟ ref_offset ref <? ref_length ref)) eqn:Hbad.
  { injection H as <- <-. split; [done|]. intros _ Hin _. apply Forall_cons_iff in Hin as [(?&?&?) _].
    unwrap64_in Hbad. lia. }
  assert (in_store size ref) as Href.
  { unfold in_store. apply orb_false_iff in Hbad as [Hbad H4]. apply orb_false_iff in Hbad as [Hbad H3].
    apply orb_false_iff in Hbad as [H1 H2]. unwrap64_in H4. lia. }
  case_bool_decide as Hmem.
  { destruct (IH _ _ _ _ _ _ H Hsize Hnd Hseen Hall Hlive Hmax) as [Hok Hst]. apply Hseen in Hmem. split.
    - intros u' live' E. destruct (Hok _ _ E) as (? & ? & ? & ? & Hx). split_and!; try done. intros x. rewrite Hx. clear -Hmem. set_solver.
    - intros Hs Hin Htot. apply Forall_cons_iff in Hin as [_ Hin]. apply Hst; [done..|].
      intros l Hl Hsub. apply Htot; [done|]. intros x Hx. apply Hsub in Hx. clear -Hx. set_solver. }
  assert (ref ∉ unique) as Hnew by (by rewrite <-Hseen).
  pose proof (live_total_nonneg _ _ Hall) as Ht0. destruct Href as (Ho & Hl & Hle).
  assert (total (unique ++ [ref]) = live + ref_length ref) as Htot' by (rewrite live_total_app; unfold total at 2; cbn; lia).
  unwrap64_in H. destruct (Z.ltb_spec (maxInt64 - live) (ref_length ref)) as [Hover|Hfit].
  { injection H as <- <-. split; [done|]. intros _ _ Htot. exfalso.
    assert (total (unique ++ [ref]) <= maxInt64); [|lia]. apply Htot; [|clear; set_solver].
    apply NoDup_app. split_and!; [done|clear -Hnew; set_solver|apply NoDup_singleton]. }
  unwrap64_in H. destruct (IH _ _ _ _ _ _ H Hsize) as [Hok Hst].
  { apply NoDup_app. split_and!; [done|clear -Hnew; set_solver|apply NoDup_singleton]. } { clear -Hseen. set_solver. }
  { apply Forall_app. split; [done|]. repeat (constructor; try done). } { lia. } { lia. }
  split.
  - intros u' live' E. destruct (Hok _ _ E) as (? & ? & ? & ? & Hx). split_and!; try done. intros x. rewrite Hx. clear -Hnz. set_solver.
  - intros Hs Hin Htot. apply Forall_cons_iff in Hin as [_ Hin]. apply Hst; [done..|].
    intros l Hl' Hsub. apply Htot; [done|]. intros x Hx. apply Hsub in Hx. clear -Hx. set_solver.
Qed.

(** Disjoint references cannot hold more than the store does. *)
Definition positions (r : textRef) : list Z := seqZ (ref_offset r) (ref_length r).

Lemma positions_total size l : Forall (in_store size) l -> zlen (concat (map positions l)) = total l.
Proof.
  induction 1 as [|r l (?&?&?) _ IH]; [done|]. cbn [map concat]. rewrite zlen_app, IH. unfold total at 2. cbn.
  unfold positions, zlen. rewrite length_seqZ. fold (total l). lia.
Qed.

Lemma positions_NoDup l :
  NoDup l -> (forall r1 r2, r1 ∈ l -> r2 ∈ l -> apart r1 r2) -> NoDup (concat (map positions l)).
Proof.
  induction 1 as [|r l Hr Hl IH]; intros Hap; [constructor|]. cbn [map concat]. apply NoDup_app. split_and!.
  - apply NoDup_seqZ.
  - intros x Hx Hc. apply list_elem_of_In, in_concat in Hc as (p & Hp & Hxp).
    apply in_map_iff in Hp as (r' & <- & Hr'). apply list_elem_of_In in Hxp, Hr'.
    unfold positions in *. rewrite elem_of_seqZ in Hx, Hxp.
    destruct (Hap r r') as [->|[?|?]]; [set_solver..|done| |]; lia.
  - apply IH. intros r1 r2 H1 H2. apply Hap; set_solver.
Qed.

Lemma apart_total size l :
  0 <= size -> NoDup l -> Forall (in_store size) l -> (forall r1 r2, r1 ∈ l -> r2 ∈ l -> apart r1 r2) -> total l <= size.
Proof.
  intros Hs Hnd Hin Hap. rewrite <-(positions_total size) by done.
  pose proof (positions_NoDup l Hnd Hap) as Hp. apply NoDup_ListNoDup in Hp.
  assert (incl (concat (map positions l)) (seqZ 0 size)) as Hi.
  { intros x Hx. apply in_concat in Hx as (p & Hpi & Hx). apply in_map_iff in Hpi as (r & <- & Hr).
    apply list_elem_of_In in Hx, Hr. apply list_elem_of_In. rewrite Forall_forall in Hin.
    apply list_elem_of_In in Hr. destruct (Hin r) as (?&?&?); [by apply list_elem_of_In|].
    unfold positions in Hx. rewrite elem_of_seqZ in *. lia. }
  pose proof (List.NoDup_incl_length Hp Hi) as H. rewrite length_seqZ in H. unfold zlen. lia.
Qed.

(** What [rewriteContext] promises to its caller. *)
Record rewrite_promise (u : undoStore) (refs : list textRef) (s' : option undoStore) (r : rewriteResult) : Prop := {
  rp_failed : rw_mapping r = None -> is_Some (rw_error r) /\
    exists u', s' = Some u' /\ us_ok u' /\ us_bytes u' = us_bytes u /\ us_size u' = us_size u /\ us_path u' = us_path u;
  rp_mapped : forall m, rw_mapping r = Some m ->
    exists u' live, s' = Some u' /\ relocates (us_bytes u) (us_bytes u') m /\ apart_images m /\
      (forall x, x ∈ refs -> ref_length x <> 0 -> is_Some (m !! x)) /\
      is_Some (us_file u') /\ us_quota u' = us_quota u /\ us_size u' = zlen (us_bytes u') /\
      us_size u' = total live /\ NoDup live /\ (forall x, x ∈ live <-> x ∈ refs /\ ref_length x <> 0) /\
      ((forall r1 r2, r1 ∈ refs -> r2 ∈ refs -> apart r1 r2) -> us_size u' <= us_size u /\ us_ok u');
  rp_reports : rw_reports r = [] \/ exists live hi, ascending live hi (rw_reports r) /\ hi <= live }.

Lemma rewrite_failed u refs u' e reports :
  us_ok u' -> us_bytes u' = us_bytes u -> us_size u' = us_size u -> us_path u' = us_path u ->
  (reports = [] \/ exists live hi, ascending live hi reports /\ hi <= live) ->
  rewrite_promise u refs (Some u') (mkRewriteResult None (Some e) reports).
Proof. intros. split; cbn; [eauto 10|done|done]. Qed.

Lemma rewrite_mapped u refs u' m e reports live hi :
  us_ok u -> is_Some (us_file u') -> us_quota u' = us_quota u -> us_size u' = zlen (us_bytes u') ->
  relocates (us_bytes u) (us_bytes u') m -> apart_images m -> us_size u' = total live -> NoDup live ->
  Forall (in_store (us_size u)) live -> (forall x, x ∈ live <-> x ∈ refs /\ ref_length x <> 0) ->
  (forall x, x ∈ live -> is_Some (m !! x)) -> ascending (total live) hi reports -> hi <= total live ->
  rewrite_promise u refs (Some u') (mkRewriteResult (Some m) e reports).
Proof.
  intros Hok Hf Hq Hsz Hrel Hap Htot Hnd Hin Hlive Hdom Hasc Hhi. split; cbn; [done| |eauto].
  intros m' [= <-]. exists u', live. split_and!; try done.
  - intros x Hx Hl. apply Hdom, Hlive. done.
  - intros Hapr. pose proof (us_within _ Hok) as Hw.
    assert (us_size u' <= us_size u) as Hle.
    { rewrite Htot. apply (apart_total (us_size u)); [by apply us_size_nonneg|done..|].
      intros r1 r2 H1 H2. apply Hlive in H1 as [? _], H2 as [? _]. by apply Hapr. }
    split; [done|]. split; [done|done|lia].
Qed.

Lemma with_file_ok u f f' :
  us_ok u -> us_file u = Some f -> f_bytes f' = f_bytes f ->
  us_ok (with_file u f' (us_size u)) /\ us_bytes (with_file u f' (us_size u)) = us_bytes u.
Proof.
  intros [_ He Hw] Hf Hb. assert (us_bytes (with_file u f' (us_size u)) = us_bytes u) as E by (unfold us_bytes; cbn; by rewrite Hf).
  split; [|done]. split; [cbn; eauto|by rewrite E|done].
Qed.

(** The copying half of [rewriteContext]. *)
Lemma rewrite_copy u f refs unique new newPath ctx k k1 new' f' reports r remove :
  us_ok u -> us_file u = Some f -> f_bytes new = [] -> f_pos new = 0 -> NoDup unique ->
  Forall (in_store (us_size u)) unique -> (forall x, x ∈ unique <-> x ∈ refs /\ ref_length x <> 0) ->
  copy_refs ctx k new f unique ∅ 0 (total unique) [(0, total unique)] = (k1, new', f', reports, r) ->
  f_bytes f' = f_bytes f /\ (exists hi, ascending (total unique) hi reports /\ hi <= total unique) /\
  (forall m size, r = Ok (m, size) ->
     rewrite_promise u refs (Some (mkUndoStore (Some new') newPath size (us_quota u) (us_remove u)))
       (mkRewriteResult (Some m) (errors_Join (file_Close f').2
          (match remove with Some e => if errors_Is e os_ErrNotExist then None else Some e | None => None end)) reports)) /\
  (steady ctx -> f_faults f = [] -> f_faults new = [] -> exists a, r = Ok a).
Proof.
  intros Hok Hf Hnb Hnp Hnd Hin Hlive Hcp.
  assert (us_bytes u = f_bytes f) as Hfb by (unfold us_bytes; by rewrite Hf).
  assert (zlen (f_bytes f) = us_size u) as Hfe by (rewrite <-Hfb; apply Hok).
  destruct (copy_refs_spec _ _ _ _ _ _ _ _ _ _ _ _ _ _ 0 Hcp) as (Hb & Hasc & Hm & Hnf).
  { by rewrite Hfe. } { by rewrite Hnb. } { by rewrite Hnb. } { by intros ??; rewrite lookup_empty. }
  { by intros ????; rewrite lookup_empty. }
  { apply (asc_snoc _ 0 0 []); [constructor|done]. } { done. }
  split_and!; [done|exact Hasc| |done].
  intros m size E. destruct (Hm _ _ E) as (Hs & Hst & Hrel & Hapi & Hdom). destruct Hasc as (hi & Ha & Hhi).
  apply (rewrite_mapped _ _ _ _ _ _ unique hi); cbn; eauto; by rewrite ?Hfb, ?Hst.
Qed.

(** What a rewrite does, whatever fails around it. *)
Lemma rewriteContext_keeps ctx k u refs create remove k' s' r :
  us_ok u -> (forall new p, create = Ok (new, p) -> f_bytes new = [] /\ f_pos new = 0) ->
  rewriteContext ctx k (Some u) refs create remove = (k', s', r) ->
  rewrite_promise u refs s' r /\
  (forall c f new p, ctx = Some c -> steady c -> us_file u = Some f -> f_faults f = [] -> create = Ok (new, p) ->
     f_faults new = [] -> Forall (in_store (us_size u)) refs ->
     (forall r1 r2, r1 ∈ refs -> r2 ∈ refs -> apart r1 r2) -> is_Some (rw_mapping r)).
Proof.
  intros Hok Hcreate H. pose proof Hok as [[f Hf] Hend Hw]. pose proof (us_size_nonneg u Hok) as H0.
  unfold rewriteContext in H. rewrite Hf in H.
  destruct ctx as [ctx|]; [|injection H as <- <- <-; split; [apply rewrite_failed; auto|done]].
  cbn [poll] in H. destruct (ctx k) as [e|] eqn:Hk.
  { injection H as <- <- <-. split; [apply rewrite_failed; auto|].
    intros c ??? [= <-] Hst. by rewrite Hst in Hk. }
  destruct (unique_refs ctx (S k) (us_size u) refs ∅ [] 0) as [k1 ur] eqn:Hu.
  destruct (unique_refs_spec _ _ _ _ _ _ _ _ _ Hu) as [Hur Hus];
    [lia|constructor|set_solver|constructor|done|go_lia|].
  destruct ur as [[unique live]|e]; cbn in H.
  2:{ injection H as <- <- <-. split; [apply rewrite_failed; auto|].
      intros c ??? [= <-] Hst _ _ _ _ Hin Hap. destruct (Hus Hst Hin) as [? [=]].
      intros l Hl Hsub. assert (total l <= us_size u); [|lia].
      apply apart_total; [done..| |intros; apply Hap; set_solver].
      apply List.Forall_forall. intros x Hx. rewrite List.Forall_forall in Hin. apply Hin.
      apply list_elem_of_In. apply list_elem_of_In in Hx. set_solver. }
  destruct (Hur _ _ eq_refl) as (Hnd & Hin & -> & Hmax & Hmem). clear Hur Hus.
  assert (forall x, x ∈ unique <-> x ∈ refs /\ ref_length x <> 0) as Hlive by (intros x; rewrite Hmem; set_solver).
  assert (ascending (total unique) 0 [(0, total unique)]) as Ha0 by (apply (asc_snoc _ 0 0 []); [constructor|done]).
  pose proof (live_total_nonneg _ _ Hin) as Ht.
  assert ([(0, total unique)] = [] \/ exists live hi, ascending live hi [(0, total unique)] /\ hi <= live) as Hr0 by eauto.
  destruct (Z.eqb_spec (zlen unique) 0) as [Hz|Hnz].
  - apply zlen_zero in Hz as ->. destruct (ctx k1) as [e|] eqn:Hk1.
    { injection H as <- <- <-. split; [by apply rewrite_failed|]. intros c ??? [= <-] Hst. by rewrite Hst in Hk1. }
    destruct (file_Truncate f 0) as [f' e] eqn:Htr. unfold file_Truncate in Htr.
    destruct (next_fault f) as [x f1] eqn:Hx. destruct (next_fault_bytes _ _ _ Hx) as (Hb & _ & Hnf).
    assert ((e = None /\ f_bytes f' = []) \/ (is_Some e /\ f_bytes f' = f_bytes f /\ f_faults f <> [])) as [[-> Hb']|([e' ->] & Hb' & Hff)].
    { destruct x; injection Htr as <- <-; cbn; [left|right|left]; rewrite ?ztake_0 by lia; [done| |done].
      split_and!; [eauto|done|]. intros Hs. by destruct (Hnf Hs). }
    + injection H as <- <- <-. split; [|cbn; eauto].
      apply (rewrite_mapped _ _ _ _ _ _ [] 0); try done; try (by eexists);
        try (by unfold us_bytes; cbn; rewrite Hb'); by intros ? ?%elem_of_nil.
    + injection H as <- <- <-. destruct (with_file_ok u f f' Hok Hf Hb'). split; [by apply rewrite_failed|].
      intros c f0 ?? _ _ Hf0. rewrite Hf in Hf0. injection Hf0 as <-. done.
  - destruct create as [[new newPath]|e].
    2:{ injection H as <- <- <-. split; [by apply rewrite_failed|]. intros; done. }
    destruct (Hcreate _ _ eq_refl) as [Hnb Hnp].
    destruct (copy_refs ctx k1 new f unique ∅ 0 (total unique) [(0, total unique)]) as [[[[k2 new'] f'] reports] cr] eqn:Hcp.
    destruct (rewrite_copy _ _ refs _ _ newPath _ _ _ _ _ _ _ remove Hok Hf Hnb Hnp Hnd Hin Hlive Hcp) as (Hb & (hi & Ha & Hhi) & Hm & Hnf).
    destruct (with_file_ok u f f' Hok Hf Hb) as [Hok' Hb'].
    destruct cr as [[m size]|e].
    2:{ injection H as <- <- <-. split; [apply rewrite_failed; eauto|].
        intros c f0 new0 p [= <-] Hst Hf0 Hs [= <- <-] Hns _ _. rewrite Hf in Hf0. injection Hf0 as <-. by destruct (Hnf Hst Hs Hns). }
    destruct (ctx k2) as [e|] eqn:Hk2.
    { injection H as <- <- <-. split; [apply rewrite_failed; eauto|]. intros c ??? [= <-] Hst. by rewrite Hst in Hk2. }
    specialize (Hm _ _ eq_refl). destruct (file_Close f') as [f2 ce]. injection H as <- <- <-.
    split; [exact Hm|cbn; eauto].
Qed.

(** C23. A rewrite of the undo store relocates the live texts or changes
    nothing: whatever the faults of the two files, the cancellation and the
    outcomes of creating and removing files, either no mapping is returned, with
    an error, and the store keeps its bytes, size and path; or the mapping sends
    every live reference to one with the same text in the new file, whose size
    is exactly the total of the distinct live references, and is within the
    old size and the quota when the references do not overlap.  The progress reports
    ascend to at most the live total, and without faults and cancellation a
    rewrite of references that are inside the store succeeds. *)
Theorem rewriteContext_correct ctx k u refs create remove k' s' r :
  us_ok u -> (forall new p, create = Ok (new, p) -> f_bytes new = [] /\ f_pos new = 0) ->
  rewriteContext ctx k (Some u) refs create remove = (k', s', r) ->
  rewrite_promise u refs s' r /\
  (forall c f new p, ctx = Some c -> steady c -> us_file u = Some f -> f_faults f = [] -> create = Ok (new, p) ->
     f_faults new = [] -> Forall (in_store (us_size u)) refs ->
     (forall r1 r2, r1 ∈ refs -> r2 ∈ refs -> apart r1 r2) -> is_Some (rw_mapping r)).
Proof. apply rewriteContext_keeps. Qed.

Definition ex_text (n : nat) : list byte := replicate n Byte.x61 ++ [Byte.x62].
Definition ex_undo : undoStore :=
  mkUndoStore (Some (newFile (ex_text 3 ++ ex_text 2 ++ ex_text 4))) [] 12 100 true.
Definition ex_new : file := newFile [].
Definition ex_refs : list textRef := [mkRef 7 5; zeroRef; mkRef 0 4; mkRef 7 5].

Lemma ex_undo_ok : us_ok ex_undo.
Proof. by split; [eexists|vm_compute|vm_compute]. Qed.

Lemma ex_rewrite :
  rewriteContext (Some (fun _ => None)) 0 (Some ex_undo) ex_refs (Ok (ex_new, [])) (Some os_ErrNotExist) =
  (8%nat, Some (mkUndoStore (Some (mkFile (ex_text 4 ++ ex_text 3) 9 [] None)) [] 9 100 true),
   mkRewriteResult (Some (<[mkRef 0 4 := mkRef 5 4]> (<[mkRef 7 5 := mkRef 0 5]> ∅))) None [(0, 9); (5, 9); (9, 9)]).
Proof. vm_compute. reflexivity. Qed.

Lemma rewriteContext_correct_witness :
  exists s' r, rewrite_promise ex_undo ex_refs s' r /\ is_Some (rw_mapping r).
Proof.
  assert (forall new (p : list byte), Ok (ex_new, []) = Ok (new, p) -> f_bytes new = [] /\ f_pos new = 0) as Hc
    by (intros ? ? [= <- <-]; done).
  destruct (rewriteContext_correct _ _ _ _ _ _ _ _ _ ex_undo_ok Hc ex_rewrite) as [H1 H2].
  eexists _, _. split; [exact H1|]. eapply H2; try done.
  - unfold ex_refs. repeat (apply List.Forall_cons; [vm_compute; split_and!; congruence|]). apply List.Forall_nil.
  - unfold ex_refs, apart. intros r1 r2 H3 H4. apply list_elem_of_In in H3, H4. cbn in H3, H4.
    repeat destruct H3 as [<-|H3]; try done; repeat destruct H4 as [<-|H4]; try done; auto; cbn; lia.
Defined.

(** The undo store keeps what it took: in every run of appends, reads and
    resets of a store within a quota, with any faults, the file ends at the
    store's size, the size never exceeds the quota, every text appended without
    an error since the last reset is still at its reference, and reading it
    fails or returns exactly that text — and does return it when no fault is
    ahead.  An append beyond the quota is refused with the store unchanged. *)
Theorem undo_run_keeps s live :
  undo_run s live ->
  zlen (us_bytes s) = us_size s /\ us_size s <= us_quota s /\
  (forall ref value, In (ref, value) live ->
     (forall v, (read (Some s) ref).2 = Ok v -> v = value) /\
     (forall f, us_file s = Some f -> f_faults f = [] -> (read (Some s) ref).2 = Ok value)) /\
  (forall value, 0 < zlen value <= maxInt64 -> us_quota s - us_size s < zlen value ->
     exists r, append (Some s) value = (Some s, (r, Some document_errUndoQuota))).
Proof.
  intros Hrun. destruct (undo_run_ok _ _ Hrun) as [Hok Hlive]. split; [apply Hok|]. split; [apply Hok|]. split.
  - intros ref value Hin. rewrite List.Forall_forall in Hlive. destruct (Hlive _ Hin) as [Href Ht]. cbn in Href, Ht.
    destruct (read (Some s) ref) as [s' r] eqn:Hr.
    destruct (read_spec _ _ _ _ Hok Href Hr) as (u' & _ & _ & _ & _ & _ & Hv & Hnf). cbn [snd].
    split; [intros v E; rewrite (Hv v E); exact Ht|]. intros f Hf Hfs. rewrite (Hnf f Hf Hfs). by rewrite Ht.
  - intros value Hv Hover. destruct (append (Some s) value) as [s' [ref e]] eqn:Ha.
    destruct (append_spec _ _ _ _ _ Hok (proj2 Hv) Ha) as (u' & k & -> & _ & _ & _ & _ & _ & Hq).
    destruct Hq as [-> ->]; [done|apply Hv|]. by exists ref.
Qed.

Lemma undo_run_keeps_witness :
  exists s, undo_run s [(mkRef 3 2, ex_text 1); (mkRef 0 3, ex_text 2)] /\ us_size s = 5 /\
    forall v, (read (Some s) (mkRef 0 3)).2 = Ok v -> v = ex_text 2.
Proof.
  set (s := mkUndoStore (Some (newFile (ex_text 2 ++ ex_text 1))) [] 5 6 true).
  exists s. assert (undo_run s [(mkRef 3 2, ex_text 1); (mkRef 0 3, ex_text 2)]) as H.
  { apply (run_cmd (mkUndoStore (Some (newFile (ex_text 2))) [] 3 6 true) [(mkRef 0 3, ex_text 2)] (UAppend (ex_text 1)));
      [|vm_compute; congruence|vm_compute; reflexivity].
    apply (run_cmd (mkUndoStore (Some (newFile [])) [] 0 6 true) [] (UAppend (ex_text 2)));
      [|vm_compute; congruence|vm_compute; reflexivity].
    apply (run_open (newFile []) [] 6); [done|vm_compute; split; congruence]. }
  split; [exact H|]. split; [reflexivity|]. destruct (undo_run_keeps _ _ H) as (_ & _ & Hr & _).
  intros v. apply Hr. cbn. auto.
Defined.
