(* ===== verification/Utf8.v ===== *)
(** * unicode/utf8 and the streaming validator of document/session.go

    The acceptance table of Go's [unicode/utf8], [Valid], [FullRune] and
    [DecodeRune] over it, the validator that checks a file chunk by chunk, and the
    boundary facts an edit relies on. *)

From Stdlib Require Import ZArith Lia List.
From stdpp Require Import base list numbers.
From S2P Require Import Prelude.
#[local] Open Scope Z_scope.

(** ** unicode/utf8 *)

Definition between (lo b hi : Z) : bool := (lo <=? b) && (b <=? hi).

(** The [first] and [acceptRanges] tables: the size of the rune a byte starts and
    the range of its second byte; [None] is an invalid first byte. *)
Definition lead (b : Z) : option (Z * (Z * Z)) :=
  if b <? 0x80 then Some (1, (0, 0))
  else if between 0xC2 b 0xDF then Some (2, (0x80, 0xBF))
  else if b =? 0xE0 then Some (3, (0xA0, 0xBF))
  else if between 0xE1 b 0xEC || between 0xEE b 0xEF then Some (3, (0x80, 0xBF))
  else if b =? 0xED then Some (3, (0x80, 0x9F))
  else if b =? 0xF0 then Some (4, (0x90, 0xBF))
  else if between 0xF1 b 0xF3 then Some (4, (0x80, 0xBF))
  else if b =? 0xF4 then Some (4, (0x80, 0x8F))
  else None.

Definition continuation (b : byte) : bool := between 0x80 (b2z b) 0xBF.
Definition utf8_RuneStart (b : byte) : bool := negb (Z.land (b2z b) 0xC0 =? 0x80).

Fixpoint utf8_Valid (p : list byte) : bool :=
  match p with
  | [] => true
  | b0 :: p1 =>
    match lead (b2z b0) with
    | None => false
    | Some (size, (lo, hi)) =>
      if size =? 1 then utf8_Valid p1 else
      match p1 with
      | [] => false
      | b1 :: p2 =>
        if negb (between lo (b2z b1) hi) then false else
        if size =? 2 then utf8_Valid p2 else
        match p2 with
        | [] => false
        | b2 :: p3 =>
          if negb (continuation b2) then false else
          if size =? 3 then utf8_Valid p3 else
          match p3 with
          | [] => false
          | b3 :: p4 => if negb (continuation b3) then false else utf8_Valid p4
          end
        end
      end
    end
  end.

(** [FullRune]: the bytes begin with a full encoding, an invalid one included. *)
Definition utf8_FullRune (p : list byte) : bool :=
  match p with
  | [] => false
  | b0 :: p1 =>
    match lead (b2z b0) with
    | None => true
    | Some (size, (lo, hi)) =>
      if size <=? zlen p then true else
      match p1 with
      | [] => false
      | b1 :: p2 =>
        if negb (between lo (b2z b1) hi) then true else
        match p2 with
        | [] => false
        | b2 :: _ => negb (continuation b2)
        end
      end
    end
  end.

Definition RuneError : Z := 0xFFFD.

(** [DecodeRune]: the rune and its width; an invalid encoding is
    [(RuneError, 1)]. *)
Definition utf8_DecodeRune (p : list byte) : Z * Z :=
  match p with
  | [] => (RuneError, 0)
  | b0 :: p1 =>
    match lead (b2z b0) with
    | None => (RuneError, 1)
    | Some (size, (lo, hi)) =>
      if size =? 1 then (b2z b0, 1) else
      match p1 with
      | [] => (RuneError, 1)
      | b1 :: p2 =>
        if (zlen p <? size) || negb (between lo (b2z b1) hi) then (RuneError, 1) else
        if size =? 2 then (Z.land (b2z b0) 0x1F * 64 + Z.land (b2z b1) 0x3F, 2) else
        match p2 with
        | [] => (RuneError, 1)
        | b2 :: p3 =>
          if negb (continuation b2) then (RuneError, 1) else
          if size =? 3
          then (Z.land (b2z b0) 0x0F * 4096 + Z.land (b2z b1) 0x3F * 64 + Z.land (b2z b2) 0x3F, 3) else
          match p3 with
          | [] => (RuneError, 1)
          | b3 :: _ =>
            if negb (continuation b3) then (RuneError, 1) else
            (Z.land (b2z b0) 0x07 * 262144 + Z.land (b2z b1) 0x3F * 4096 + Z.land (b2z b2) 0x3F * 64
             + Z.land (b2z b3) 0x3F, 4)
          end
        end
      end
    end
  end.

(** ** utf8StreamValidator *)

Record utf8StreamValidator := mkValidator { v_pending : list byte }.

(** The loop of [Write]: the bytes left pending, and the answer.  Each pass drops
    the bytes of one rune. *)
Fixpoint validator_loop (fuel : nat) (data : list byte) : list byte * bool :=
  match fuel with
  | O => ([], false)
  | S fuel =>
    if 0 <? zlen data then
      if negb (utf8_FullRune data) then (data, true) else
      let '(r, size) := utf8_DecodeRune data in
      if (r =? RuneError) && (size =? 1) then ([], false)
      else validator_loop fuel (zdrop size data)
    else ([], true)
  end.

Definition Write (v : utf8StreamValidator) (value : list byte) : utf8StreamValidator * bool :=
  let data := v_pending v ++ value in
  let '(pending, ok) := validator_loop (S (length data)) data in
  (mkValidator pending, ok).

Definition Complete (v : utf8StreamValidator) : bool := zlen (v_pending v) =? 0.

(** ** Runes *)

(** A well-formed encoding of one rune. *)
Definition is_rune (r : list byte) : bool :=
  match r with
  | [b0] => match lead (b2z b0) with Some (1, _) => true | _ => false end
  | [b0; b1] => match lead (b2z b0) with Some (2, (lo, hi)) => between lo (b2z b1) hi | _ => false end
  | [b0; b1; b2] =>
    match lead (b2z b0) with Some (3, (lo, hi)) => between lo (b2z b1) hi && continuation b2 | _ => false end
  | [b0; b1; b2; b3] =>
    match lead (b2z b0) with
    | Some (4, (lo, hi)) => between lo (b2z b1) hi && continuation b2 && continuation b3
    | _ => false
    end
  | _ => false
  end.

(** Case analysis on the table: every entry with its size and range. *)
Lemma lead_cases b :
  0 <= b < 256 ->
  lead b = None \/ (b < 0x80 /\ lead b = Some (1, (0, 0))) \/
  (exists size lo hi, lead b = Some (size, (lo, hi)) /\ 0xC2 <= b <= 0xF4 /\ 2 <= size <= 4 /\
     0x80 <= lo /\ hi <= 0xBF).
Proof.
  intros Hb. unfold lead, between.
  repeat match goal with |- context [if ?c then _ else _] => destruct c eqn:?; [|] end;
    try (left; reflexivity); try (right; left; split; [lia|reflexivity]);
    right; right; do 3 eexists; (split; [reflexivity|lia]).
Qed.

Lemma RuneStart_not_continuation b : utf8_RuneStart b = negb (continuation b).
Proof. destruct b; reflexivity. Qed.

(** What the front of a byte string can be: a rune, an invalid encoding, or the
    proper prefix of an encoding. *)
Inductive front : list byte -> Prop :=
| front_rune r q c : is_rune r = true -> utf8_FullRune (r ++ q) = true ->
    utf8_DecodeRune (r ++ q) = (c, zlen r) -> (c =? RuneError) && (zlen r =? 1) = false ->
    utf8_Valid (r ++ q) = utf8_Valid q -> front (r ++ q)
| front_invalid p : utf8_FullRune p = true -> utf8_DecodeRune p = (RuneError, 1) ->
    (forall q, utf8_Valid (p ++ q) = false) -> front p
| front_partial p : utf8_FullRune p = false -> 0 < zlen p <= 3 -> utf8_Valid p = false -> front p.

#[local] Arguments zlen : simpl never.

Ltac solve_ltb :=
  repeat match goal with
  | |- context [?a <=? ?b] => first [rewrite (proj2 (Z.leb_le a b)) by lia | rewrite (proj2 (Z.leb_gt a b)) by lia]
  | |- context [?a <? ?b] => first [rewrite (proj2 (Z.ltb_lt a b)) by lia | rewrite (proj2 (Z.ltb_ge a b)) by lia]
  | |- context [?a =? ?b] => first [rewrite (proj2 (Z.eqb_eq a b)) by lia | rewrite (proj2 (Z.eqb_neq a b)) by lia]
  end.

Lemma front_spec p : p <> [] -> front p.
Proof.
  destruct p as [|b0 p1]; [done|]. intros _. pose proof (b2z_range b0) as Hb0. pose proof (zlen_nonneg p1) as H1.
  destruct (lead_cases (b2z b0) Hb0) as [E|[[Hascii E]|(size & lo & hi & E & Hr & Hsz & Hlo & Hhi)]].
  - apply front_invalid; [by cbn; rewrite E..|intros q; cbn; by rewrite E].
  - apply (front_rune [b0] p1 (b2z b0)).
    + cbn. by rewrite E.
    + cbn. rewrite E, zlen_cons. solve_ltb. reflexivity.
    + cbn. by rewrite E.
    + unfold RuneError. rewrite (proj2 (Z.eqb_neq (b2z b0) _)) by lia. reflexivity.
    + cbn. by rewrite E.
  - destruct p1 as [|b1 p2].
    { apply front_partial; [|cbv; split; congruence|].
      - cbn. rewrite E. rewrite zlen_cons, zlen_nil. solve_ltb. reflexivity.
      - cbn. rewrite E. solve_ltb. reflexivity. }
    rewrite zlen_cons in H1. pose proof (zlen_nonneg p2) as H2.
    destruct (between lo (b2z b1) hi) eqn:Hb1; cycle 1.
    { destruct (Z.leb_spec size (zlen (b0 :: b1 :: p2))).
      - rewrite !zlen_cons in *. apply front_invalid.
        + cbn. rewrite E, !zlen_cons. solve_ltb. reflexivity.
        + cbn. rewrite E, Hb1. solve_ltb. by rewrite orb_true_r.
        + intros q. cbn. rewrite E, Hb1. solve_ltb. reflexivity.
      - rewrite !zlen_cons in *. apply front_invalid.
        + cbn. rewrite E, Hb1, !zlen_cons. solve_ltb. reflexivity.
        + cbn. rewrite E, Hb1. solve_ltb. by rewrite orb_true_r.
        + intros q. cbn. rewrite E, Hb1. solve_ltb. reflexivity. }
    destruct (decide (size = 2)) as [->|].
    { apply (front_rune [b0; b1] p2 (Z.land (b2z b0) 0x1F * 64 + Z.land (b2z b1) 0x3F)).
      - cbn. by rewrite E.
      - cbn. rewrite E, !zlen_cons. solve_ltb. reflexivity.
      - cbn. rewrite E, Hb1, !zlen_cons. solve_ltb. reflexivity.
      - by rewrite andb_false_r.
      - cbn. rewrite E, Hb1. reflexivity. }
    destruct p2 as [|b2 p3].
    { apply front_partial; [|cbv; split; congruence|].
      - cbn. rewrite E, Hb1. rewrite !zlen_cons, zlen_nil. solve_ltb. reflexivity.
      - cbn. rewrite E, Hb1. solve_ltb. reflexivity. }
    rewrite zlen_cons in H2. pose proof (zlen_nonneg p3) as H3.
    destruct (continuation b2) eqn:Hb2; cycle 1.
    { apply front_invalid.
      - cbn. rewrite E, Hb1, Hb2, !zlen_cons. by destruct (size <=? _).
      - cbn. rewrite E, Hb1, Hb2, !zlen_cons. destruct (_ <? size); solve_ltb; reflexivity.
      - intros q. cbn. rewrite E, Hb1, Hb2. solve_ltb. reflexivity. }
    destruct (decide (size = 3)) as [->|].
    { apply (front_rune [b0; b1; b2] p3 (Z.land (b2z b0) 0x0F * 4096 + Z.land (b2z b1) 0x3F * 64 + Z.land (b2z b2) 0x3F)).
      - cbn. by rewrite E, Hb1, Hb2.
      - cbn. rewrite E, !zlen_cons. solve_ltb. reflexivity.
      - cbn. rewrite E, Hb1, Hb2, !zlen_cons. solve_ltb. reflexivity.
      - by rewrite andb_false_r.
      - cbn. rewrite E, Hb1, Hb2. reflexivity. }
    assert (size = 4) as -> by lia.
    destruct p3 as [|b3 p4].
    { apply front_partial; [|cbv; split; congruence|].
      - cbn. rewrite E, Hb1, Hb2. reflexivity.
      - cbn. rewrite E, Hb1, Hb2. reflexivity. }
    rewrite zlen_cons in H3. pose proof (zlen_nonneg p4) as H4.
    destruct (continuation b3) eqn:Hb3; cycle 1.
    { apply front_invalid.
      - cbn. rewrite E, !zlen_cons. solve_ltb. reflexivity.
      - cbn. rewrite E, Hb1, Hb2, Hb3, !zlen_cons. solve_ltb. reflexivity.
      - intros q. cbn. rewrite E, Hb1, Hb2, Hb3. reflexivity. }
    apply (front_rune [b0; b1; b2; b3] p4 (Z.land (b2z b0) 0x07 * 262144 + Z.land (b2z b1) 0x3F * 4096
             + Z.land (b2z b2) 0x3F * 64 + Z.land (b2z b3) 0x3F)).
    + cbn. by rewrite E, Hb1, Hb2, Hb3.
    + cbn. rewrite E, !zlen_cons. solve_ltb. reflexivity.
    + cbn. rewrite E, Hb1, Hb2, Hb3, !zlen_cons. solve_ltb. reflexivity.
    + by rewrite andb_false_r.
    + cbn. rewrite E, Hb1, Hb2, Hb3. reflexivity.
Qed.

Lemma rune_shape r : is_rune r = true -> exists b bs, r = b :: bs /\ utf8_RuneStart b = true /\ Forall (fun c => utf8_RuneStart c = false) bs.
Proof.
  intros H. destruct r as [|b0 r]; [done|]. exists b0, r. split; [done|].
  assert (is_Some (lead (b2z b0))) as [l El].
  { destruct (lead (b2z b0)) as [l|] eqn:E; [eauto|]. cbn in H. rewrite E in H.
    by destruct r as [|? [|? [|? [|]]]]. }
  destruct (lead_cases (b2z b0) (b2z_range b0)) as [E|[[Ha E]|(size & lo & hi & E & Hr & Hsz & Hlo & Hhi)]]; [congruence|..].
  - cbn in H. rewrite E in H. destruct r as [|? [|? [|? [|]]]]; try done. split; [|constructor].
    rewrite RuneStart_not_continuation. unfold continuation, between. lia.
  - split; [rewrite RuneStart_not_continuation; unfold continuation, between; lia|].
    assert (forall c, between lo (b2z c) hi = true -> continuation c = true) as Hc
      by (intros c; unfold continuation, between; lia).
    cbn in H. rewrite E in H.
    assert (size = 2 \/ size = 3 \/ size = 4) as [->|[->| ->]] by lia;
    destruct r as [|b1 [|b2 [|b3 [|]]]]; try done;
    repeat (constructor; [rewrite RuneStart_not_continuation|]); try constructor;
    repeat match goal with H : _ && _ = true |- _ => apply andb_true_iff in H as [? ?] end;
    repeat match goal with H : between _ _ _ = true |- _ => apply Hc in H end;
    repeat match goal with H : continuation _ = true |- _ => rewrite H; clear H end; reflexivity.
Qed.

Lemma rune_len r : is_rune r = true -> 1 <= zlen r.
Proof. intros (b & bs & -> & _)%rune_shape. rewrite zlen_cons. pose proof (zlen_nonneg bs). lia. Qed.

(** Decoding a rune gives its size, never the error of a one-byte encoding, and
    the newline only for the byte itself: longer encodings are of larger runes. *)
Lemma land_low_nonneg b : 0 <= Z.land b 63.
Proof. apply Z.land_nonneg. lia. Qed.

Lemma multibyte_large b0 b1 size lo hi :
  0 <= b0 < 256 -> 0 <= b1 < 256 -> lead b0 = Some (size, (lo, hi)) -> between lo b1 hi = true ->
  (size = 2 -> 128 <= Z.land b0 0x1F * 64) /\ (size = 3 -> 128 <= Z.land b0 0x0F * 4096 + Z.land b1 0x3F * 64) /\
  (size = 4 -> 128 <= Z.land b0 0x07 * 262144 + Z.land b1 0x3F * 4096).
Proof.
  change 0x1F with (Z.ones 5). change 0x0F with (Z.ones 4). change 0x07 with (Z.ones 3). change 0x3F with (Z.ones 6).
  intros H0 H1. rewrite !Z.land_ones by lia. change (2 ^ 5) with 32. change (2 ^ 4) with 16. change (2 ^ 3) with 8. change (2 ^ 6) with 64.
  unfold lead, between. pose proof (Z.mod_pos_bound b1 64 ltac:(lia)).
  repeat match goal with |- context [if ?c then _ else _] => destruct c eqn:?; [|] end;
    intros [= <- <- <-] Hb; (split; [|split]); intros Hs; try discriminate Hs;
    (apply andb_true_iff in Hb as [? ?]; Z.div_mod_to_equations; lia).
Qed.

Lemma rune_decodes r q : is_rune r = true ->
  utf8_FullRune (r ++ q) = true /\
  exists c, utf8_DecodeRune (r ++ q) = (c, zlen r) /\ (c =? RuneError) && (zlen r =? 1) = false /\ (c = 10 <-> r = [newline]).
Proof.
  intros H. pose proof (zlen_nonneg q) as Hq.
  destruct r as [|b0 [|b1 [|b2 [|b3 [|]]]]]; try done; cbn in H; pose proof (b2z_range b0) as Hb0;
    destruct (lead (b2z b0)) as [[size [lo hi]]|] eqn:E; try done.
  - assert (size = 1) as -> by (repeat match goal with H : match ?z with _ => _ end = true |- _ => destruct z; try done end).
    destruct (lead_cases _ Hb0) as [?|[[Ha E']|(s & l & h & E' & Hr & Hs & _)]]; [congruence| |rewrite E' in E; injection E; intros; lia].
    cbn. rewrite E, !zlen_cons. cbn [app]. split; [by solve_ltb|]. exists (b2z b0). rewrite (proj2 (Z.eqb_neq (b2z b0) _)) by (unfold RuneError; lia).
    split_and!; [done|done|]. split; [|by intros [= ->]]. intros Hc. f_equal. by apply b2z_inj.
  - assert (size = 2 /\ between lo (b2z b1) hi = true) as [-> Hb1]
      by (repeat match goal with H : match ?z with _ => _ end = true |- _ => destruct z; try done end).
    destruct (multibyte_large _ _ _ _ _ Hb0 (b2z_range b1) E Hb1) as (Hl & _ & _). specialize (Hl eq_refl).
    cbn. rewrite E, Hb1, !zlen_cons. cbn [app]. split; [by solve_ltb|]. solve_ltb. cbn [orb negb]. eexists. split; [reflexivity|].
    rewrite andb_false_r. split; [done|]. split; [|done]. pose proof (land_low_nonneg (b2z b1)). lia.
  - assert (size = 3 /\ between lo (b2z b1) hi && continuation b2 = true) as [-> [Hb1 Hb2]%andb_true_iff]
      by (repeat match goal with H : match ?z with _ => _ end = true |- _ => destruct z; try done end).
    destruct (multibyte_large _ _ _ _ _ Hb0 (b2z_range b1) E Hb1) as (_ & Hl & _). specialize (Hl eq_refl).
    cbn. rewrite E, Hb1, Hb2, !zlen_cons. cbn [app]. split; [by solve_ltb|]. solve_ltb. cbn [orb negb]. eexists. split; [reflexivity|].
    rewrite andb_false_r. split; [done|]. split; [|done]. pose proof (land_low_nonneg (b2z b2)). lia.
  - assert (size = 4 /\ between lo (b2z b1) hi && continuation b2 && continuation b3 = true) as [-> [[Hb1 Hb2]%andb_true_iff Hb3]%andb_true_iff]
      by (repeat match goal with H : match ?z with _ => _ end = true |- _ => destruct z; try done end).
    destruct (multibyte_large _ _ _ _ _ Hb0 (b2z_range b1) E Hb1) as (_ & _ & Hl). specialize (Hl eq_refl).
    cbn. rewrite E, Hb1, Hb2, Hb3, !zlen_cons. cbn [app]. split; [by solve_ltb|]. solve_ltb. cbn [orb negb]. eexists. split; [reflexivity|].
    rewrite andb_false_r. split; [done|]. split; [|done]. pose proof (land_low_nonneg (b2z b2)).
    pose proof (land_low_nonneg (b2z b3)). lia.
Qed.

(** Strings of runes are exactly the valid strings. *)
Lemma front_Valid p : p <> [] -> utf8_Valid p = true ->
  exists r q, p = r ++ q /\ is_rune r = true /\ utf8_Valid q = true.
Proof.
  intros Hp Hv. destruct (front_spec p Hp) as [r q c Hr _ _ _ E|p _ _ Hi|p _ _ Hn].
  - exists r, q. by rewrite <-E.
  - specialize (Hi []). rewrite app_nil_r in Hi. congruence.
  - congruence.
Qed.

Lemma Valid_rune r q : is_rune r = true -> utf8_Valid (r ++ q) = utf8_Valid q.
Proof.
  intros H. destruct r as [|b0 [|b1 [|b2 [|b3 [|]]]]]; try done; cbn in H |- *;
    destruct (lead (b2z b0)) as [[size [lo hi]]|] eqn:E; try done;
    repeat match goal with H : match ?z with _ => _ end = true |- _ => destruct z; try done end;
    repeat match goal with H : _ && _ = true |- _ => apply andb_true_iff in H as [? ?] end;
    repeat match goal with H : _ = true |- _ => rewrite H; clear H end; reflexivity.
Qed.

Lemma Valid_runes p : utf8_Valid p = true <-> exists rs, Forall (fun r => is_rune r = true) rs /\ p = concat rs.
Proof.
  split.
  - remember (length p) as n eqn:Hn. revert p Hn. induction n as [n IH] using lt_wf_ind. intros p -> Hv.
    destruct (decide (p = [])) as [->|Hp]; [by exists []|].
    destruct (front_Valid p Hp Hv) as (r & q & -> & Hr & Hq).
    assert (length q < length (r ++ q))%nat as Hl.
    { rewrite length_app. apply rune_len in Hr. unfold zlen in Hr. lia. }
    destruct (IH _ Hl q eq_refl Hq) as (rs & Hrs & ->). exists (r :: rs). split; [by constructor|done].
  - intros (rs & Hrs & ->). induction Hrs as [|r rs Hr _ IH]; [done|]. cbn [concat]. by rewrite Valid_rune.
Qed.

Lemma Valid_app a b : utf8_Valid a = true -> utf8_Valid (a ++ b) = utf8_Valid b.
Proof.
  intros (rs & Hrs & ->)%Valid_runes. induction Hrs as [|r rs Hr _ IH]; [done|].
  cbn [concat]. rewrite <-app_assoc, Valid_rune by done. done.
Qed.

Lemma Valid_app_iff a b c : utf8_Valid a = true -> utf8_Valid b = true -> utf8_Valid c = true -> utf8_Valid (a ++ b ++ c) = true.
Proof. intros Ha Hb Hc. rewrite !Valid_app; done. Qed.

(** A position of a valid string is a rune boundary when it is an end or its byte
    starts a rune: the test of [validateUTF8ReplacementBoundaries]. *)
Definition boundary (p : list byte) (offset : Z) : Prop :=
  offset = 0 \/ offset = zlen p \/ exists b, p !! Z.to_nat offset = Some b /\ utf8_RuneStart b = true.

Lemma boundary_runes rs offset :
  Forall (fun r => is_rune r = true) rs -> 0 <= offset <= zlen (concat rs) -> boundary (concat rs) offset ->
  exists rs1 rs2, rs = rs1 ++ rs2 /\ zlen (concat rs1) = offset.
Proof.
  intros Hrs. revert offset. induction Hrs as [|r rs Hr Hrs IH]; intros offset Ho Hb.
  { exists [], []. split; [done|]. change (concat []) with (@nil byte) in *. rewrite zlen_nil in *. lia. }
  destruct (decide (offset = 0)) as [->|Hne]; [by exists [], (r :: rs)|]. cbn [concat] in Ho, Hb.
  pose proof (rune_shape r Hr) as (b & bs & -> & Hstart & Hbs).
  destruct (decide (offset < zlen (b :: bs))) as [Hlt|Hge].
  - exfalso. destruct Hb as [?|[E|(c & Hc & Hc')]]; [done| |].
    + rewrite zlen_app in E. pose proof (zlen_nonneg (concat rs)). lia.
    + rewrite lookup_app_l in Hc by (unfold zlen in Hlt; lia).
      destruct (Z.to_nat offset) as [|n] eqn:En; [lia|]. cbn in Hc.
      rewrite Forall_lookup in Hbs. rewrite (Hbs _ _ Hc) in Hc'. done.
  - destruct (IH (offset - zlen (b :: bs))) as (rs1 & rs2 & -> & Hz).
    { rewrite zlen_app in Ho. lia. }
    { destruct Hb as [?|[E|(c & Hc & Hc')]]; [done|right; left; rewrite zlen_app in E; lia|].
      right; right. exists c. split; [|done]. rewrite lookup_app_r in Hc by (unfold zlen in Hge; lia).
      rewrite <-Hc. f_equal. unfold zlen. lia. }
    exists ((b :: bs) :: rs1), rs2. split; [done|]. cbn [concat]. rewrite zlen_app. lia.
Qed.

Lemma Valid_cut p offset :
  utf8_Valid p = true -> 0 <= offset <= zlen p -> boundary p offset ->
  utf8_Valid (ztake offset p) = true /\ utf8_Valid (zdrop offset p) = true.
Proof.
  intros (rs & Hrs & ->)%Valid_runes Ho Hb. destruct (boundary_runes rs offset Hrs Ho Hb) as (rs1 & rs2 & -> & E).
  rewrite Forall_app in Hrs. destruct Hrs. rewrite concat_app, ztake_app, zdrop_app by lia.
  split; apply Valid_runes; eauto.
Qed.

(** Replacing a range between boundaries by valid text keeps a text valid. *)
Lemma Valid_splice p start del ins :
  utf8_Valid p = true -> utf8_Valid ins = true -> 0 <= start -> 0 <= del -> start + del <= zlen p ->
  boundary p start -> boundary p (start + del) -> utf8_Valid (splice start del ins p) = true.
Proof.
  intros. apply Valid_app_iff; [|done|]; [apply (Valid_cut p start)|apply (Valid_cut p (start + del))]; done || lia.
Qed.

(** ** The streaming validator *)

(** Feeding a validator chunk by chunk, as [feedText] does, up to the first refusal. *)
Fixpoint write_chunks (v : utf8StreamValidator) (chunks : list (list byte)) : utf8StreamValidator * bool :=
  match chunks with
  | [] => (v, true)
  | value :: chunks =>
    let '(v, ok) := Write v value in
    if ok then write_chunks v chunks else (v, false)
  end.

(** Pending bytes are the beginning of an encoding: short and not yet valid. *)
Definition partial (p : list byte) : Prop :=
  p = [] \/ utf8_FullRune p = false /\ 0 < zlen p <= 3 /\ utf8_Valid p = false.

Lemma validator_loop_spec fuel data pending ok :
  validator_loop fuel data = (pending, ok) -> (length data < fuel)%nat ->
  (ok = true -> partial pending /\ exists done, data = done ++ pending /\ utf8_Valid done = true) /\
  (ok = false -> pending = [] /\ forall q, utf8_Valid (data ++ q) = false).
Proof.
  revert data. induction fuel as [|fuel IH]; intros data; [lia|]. cbn [validator_loop]. intros H Hf.
  destruct (Z.ltb_spec 0 (zlen data)) as [Hp|Hz].
  2:{ rewrite (zlen_zero data) by (pose proof (zlen_nonneg data); lia). injection H as <- <-. split; [|done].
      intros _. split; [by left|]. by exists []. }
  assert (data <> []) as Hne by (intros ->; done).
  destruct (front_spec data Hne) as [r q c Hr Hfull Hdec Hc Hv|p Hfull Hdec Hi|p Hfull Hlen Hv].
  - rewrite Hfull, Hdec, Hc in H. cbn [negb] in H. pose proof (rune_len r Hr).
    rewrite zdrop_app in H by done. rewrite length_app in Hf. unfold zlen in *.
    destruct (IH q H ltac:(lia)) as [Ht Hfa]. split.
    + intros E. destruct (Ht E) as (Hp' & d & -> & Hd). split; [done|]. exists (r ++ d).
      rewrite <-app_assoc. split; [done|]. by rewrite Valid_rune.
    + intros E. destruct (Hfa E) as [-> Hq]. split; [done|]. intros q'. rewrite <-app_assoc, Valid_rune by done. done.
  - rewrite Hfull, Hdec in H. injection H as <- <-. done.
  - rewrite Hfull in H. injection H as <- <-. split; [|done]. intros _. split; [by right|]. by exists [].
Qed.

Lemma write_chunks_spec chunks v consumed :
  partial (v_pending v) -> (exists done, consumed = done ++ v_pending v /\ utf8_Valid done = true) ->
  let '(v', ok) := write_chunks v chunks in
  zlen (v_pending v') <= 3 /\ (ok && Complete v' = utf8_Valid (consumed ++ concat chunks)) /\
  (ok = false -> exists k, (k < length chunks)%nat /\ forall q, utf8_Valid (consumed ++ concat (take (S k) chunks) ++ q) = false).
Proof.
  revert v consumed. induction chunks as [|value chunks IH]; intros v consumed Hp (d & Hd & Hv).
  { cbn. rewrite app_nil_r. split; [|split; [|done]].
    - destruct Hp as [->|(_ & ? & _)]; [done|lia].
    - subst consumed. rewrite Valid_app by done. unfold Complete. destruct Hp as [->|(_ & Hl & ->)]; [done|].
      apply Z.eqb_neq. lia. }
  cbn [write_chunks]. unfold Write.
  destruct (validator_loop (S (length (v_pending v ++ value))) (v_pending v ++ value)) as [pending ok] eqn:Hl.
  destruct (validator_loop_spec _ _ _ _ Hl ltac:(lia)) as [Ht Hfa]. destruct ok.
  - destruct (Ht eq_refl) as (Hp' & d' & E & Hd').
    specialize (IH (mkValidator pending) (consumed ++ value) Hp').
    destruct (write_chunks (mkValidator pending) chunks) as [v' ok'].
    destruct IH as (H1 & H2 & H3).
    { exists (d ++ d'). cbn [v_pending]. subst consumed. rewrite <-!app_assoc, E. split; [done|]. by rewrite Valid_app. }
    cbn [concat]. rewrite <-app_assoc in H2. split; [done|]. split; [done|]. intros Ef.
    destruct (H3 Ef) as (k & Hk & Hq). exists (S k). split; [cbn; lia|]. intros q.
    specialize (Hq q). rewrite <-app_assoc in Hq. cbn [take concat] in *. by rewrite <-app_assoc.
  - destruct (Hfa eq_refl) as [-> Hq].
    assert (forall q, utf8_Valid (consumed ++ value ++ q) = false) as Hall.
    { intros q. subst consumed. rewrite <-app_assoc, Valid_app by done. rewrite app_assoc. apply Hq. }
    split; [done|]. split; [cbn [andb concat]; by rewrite Hall|].
    intros _. exists 0%nat. split; [cbn; lia|]. intros q. cbn [take concat]. by rewrite app_nil_r.
Qed.

(** C38. The streaming validator decides validity of the whole text: however a
    text is cut into chunks, feeding the chunks to [utf8StreamValidator] and
    finding it complete gives exactly [utf8.Valid] of their concatenation; it
    never keeps more than three pending bytes; and when it refuses a chunk, no
    continuation of what it has read is valid. *)
Theorem stream_validates chunks :
  let '(v, ok) := write_chunks (mkValidator []) chunks in
  zlen (v_pending v) <= 3 /\ (ok && Complete v = utf8_Valid (concat chunks)) /\
  (ok = false -> exists k, (k < length chunks)%nat /\
     forall q, utf8_Valid (concat (take (S k) chunks) ++ q) = false).
Proof. apply (write_chunks_spec chunks (mkValidator []) []); [by left|by exists []]. Qed.
