(* ===== verification/Options.v ===== *)
(** * document/options.go: the limits and directories of a session

    [resolveOpenOptions] fills in the defaults, checks every bound and resolves the
    two directories.  [filepath.Abs], [filepath.Clean] and the default paths below
    [os.TempDir()] belong to the system: they are arguments. *)

From Stdlib Require Import ZArith Lia List.
From stdpp Require Import base list numbers.
From S2P Require Import Prelude GoLib.
#[local] Open Scope Z_scope.

Definition DefaultMaxBatchOperations : Z := 256.
Definition DefaultMaxInsertBytes : Z := 1048576.
Definition DefaultUndoBytes : Z := 268435456.
Definition DefaultMaxJournalBytes : Z := 4294967296.
Definition MinimumJournalBytes : Z := 184.
Definition MaximumInsertBytes : Z := 1073741800.
Definition DefaultEventHistory : Z := 256.
Definition MaximumEventHistory : Z := 65536.
Definition DefaultChangeHistory : Z := 256.
Definition MaximumChangeHistory : Z := 4096.
Definition DefaultMaxAnchorBatch : Z := 65536.
Definition MaximumAnchorBatch : Z := 1048576.
Definition DefaultMaxSnapshotLeases : Z := 1024.
Definition MaximumSnapshotLeases : Z := 1048576.
Definition DefaultMaxSubscriptions : Z := 128.
Definition MaximumSubscriptions : Z := 4096.
Definition DefaultJournalSyncInterval : Z := 1000000000.

(** [DirectoryOwnership] is a [uint8]: a caller can pass any value of it. *)
Definition DirectoryOwnership : Type := Z.
Definition DirectoryOwnershipDefault : DirectoryOwnership := 0.
Definition DirectoryShared : DirectoryOwnership := 1.
Definition DirectoryOwned : DirectoryOwnership := 2.

Record SessionLimits := mkLimits {
  MaxBatchOperations : Z; MaxInsertBytes : Z; UndoBytes : Z; MaxJournalBytes : Z;
  EventHistory : Z; ChangeHistory : Z; MaxAnchorBatch : Z; MaxSnapshotLeases : Z; MaxSubscriptions : Z }.

Record OpenOptions := mkOpenOptions {
  oo_RecoveryDir : list byte; oo_SessionDir : list byte;
  oo_RecoveryDirOwnership : DirectoryOwnership; oo_SessionDirOwnership : DirectoryOwnership;
  oo_Limits : SessionLimits; oo_JournalSyncInterval : Z; oo_AutoCheckpointJournalBytes : Z }.

Record SessionConfig := mkConfig {
  RecoveryDir : list byte; SessionDir : list byte;
  RecoveryDirOwnership : DirectoryOwnership; SessionDirOwnership : DirectoryOwnership;
  Limits : SessionLimits; JournalSyncInterval : Z; AutoCheckpointJournalBytes : Z }.

Definition default (value def : Z) : Z := if value =? 0 then def else value.

Definition default_limits (l : SessionLimits) : SessionLimits :=
  mkLimits (default (MaxBatchOperations l) DefaultMaxBatchOperations)
    (default (MaxInsertBytes l) DefaultMaxInsertBytes)
    (default (UndoBytes l) DefaultUndoBytes)
    (default (MaxJournalBytes l) DefaultMaxJournalBytes)
    (default (EventHistory l) DefaultEventHistory)
    (default (ChangeHistory l) DefaultChangeHistory)
    (default (MaxAnchorBatch l) DefaultMaxAnchorBatch)
    (default (MaxSnapshotLeases l) DefaultMaxSnapshotLeases)
    (default (MaxSubscriptions l) DefaultMaxSubscriptions).

(** [fmt.Errorf("%w: ...", ErrInvalidOptions)]; the code tells the messages apart. *)
Definition invalid (message : Z) : error := errWrap message document_ErrInvalidOptions.

Definition resolveDirectoryWith (path : list byte) (ownership : DirectoryOwnership) (defaultPath : list byte)
  (defaultOwnership : DirectoryOwnership) (absolutePath : list byte -> result (list byte))
  (clean : list byte -> list byte) : result (list byte * DirectoryOwnership) :=
  if DirectoryOwned <? ownership then Err document_ErrInvalidOptions else
  if (zlen path =? 0) && negb (ownership =? DirectoryOwnershipDefault) then Err (invalid 20) else
  let '(path, ownership) :=
    if zlen path =? 0 then (defaultPath, defaultOwnership)
    else (path, if ownership =? DirectoryOwnershipDefault then DirectoryShared else ownership) in
  match absolutePath path with
  | Err e => Err (errJoin (invalid 21) e)
  | Ok absolute => Ok (clean absolute, ownership)
  end.

Section Resolve.
Variable absolutePath : list byte -> result (list byte).
Variable clean : list byte -> list byte.
(* [filepath.Join(os.TempDir(), "docengine", ...)]: the second ends in a random suffix *)
Variables defaultRecoveryDir defaultSessionDir : list byte.

Definition resolveOpenOptions (options : OpenOptions) : result SessionConfig :=
  let limits := default_limits (oo_Limits options) in
  if (MaxBatchOperations limits <? 0) || (DefaultMaxBatchOperations <? MaxBatchOperations limits) then Err (invalid 1) else
  if (MaxInsertBytes limits <? 0) || (MaximumInsertBytes <? MaxInsertBytes limits) then Err (invalid 2) else
  if UndoBytes limits <? 0 then Err (invalid 3) else
  if MaxJournalBytes limits <? MinimumJournalBytes then Err (invalid 4) else
  if (EventHistory limits <? 0) || (MaximumEventHistory <? EventHistory limits) then Err (invalid 5) else
  if (ChangeHistory limits <? 0) || (MaximumChangeHistory <? ChangeHistory limits) then Err (invalid 6) else
  if (MaxAnchorBatch limits <? 0) || (MaximumAnchorBatch <? MaxAnchorBatch limits) then Err (invalid 7) else
  if (MaxSnapshotLeases limits <? 0) || (MaximumSnapshotLeases <? MaxSnapshotLeases limits) then Err (invalid 8) else
  if (MaxSubscriptions limits <? 0) || (MaximumSubscriptions <? MaxSubscriptions limits) then Err (invalid 9) else
  let syncInterval := default (oo_JournalSyncInterval options) DefaultJournalSyncInterval in
  if syncInterval <? 0 then Err (invalid 10) else
  let checkpointBytes := oo_AutoCheckpointJournalBytes options in
  if (checkpointBytes <? 0) || ((0 <? checkpointBytes) && (checkpointBytes <? MinimumJournalBytes)) then Err (invalid 11) else
  if MaxJournalBytes limits <? checkpointBytes then Err (invalid 12) else
  let? (recoveryDir, recoveryOwnership) :=
    resolveDirectoryWith (oo_RecoveryDir options) (oo_RecoveryDirOwnership options) defaultRecoveryDir DirectoryShared
      absolutePath clean in
  let? (sessionDir, sessionOwnership) :=
    resolveDirectoryWith (oo_SessionDir options) (oo_SessionDirOwnership options) defaultSessionDir DirectoryOwned
      absolutePath clean in
  Ok (mkConfig recoveryDir sessionDir recoveryOwnership sessionOwnership limits syncInterval checkpointBytes).
End Resolve.

(** ** Removing owned directories

    The outcomes of [os.Lstat], [os.ReadDir] and [os.Remove] on the path. *)
Definition removeEmptyDirectoryWith (lstat : result bool) (readDir : result Z) (remove : option error)
  : option error :=
  match lstat with
  | Err e => if errors_Is e os_ErrNotExist then None else Some e
  | Ok isDir =>
    if negb isDir then None else
    match readDir with
    | Err e => if errors_Is e os_ErrNotExist then None else Some e
    | Ok entries =>
      if negb (entries =? 0) then None else
      match remove with
      | Some e => if errors_Is e os_ErrNotExist then None else Some e
      | None => None
      end
    end
  end.

Definition cleanupOwnedDirectories (config : SessionConfig) (includeRecovery : bool)
  (removeSession removeRecovery : option error) : option error :=
  let cleanupErr := if SessionDirOwnership config =? DirectoryOwned then errors_Join None removeSession else None in
  if includeRecovery && (RecoveryDirOwnership config =? DirectoryOwned)
  then errors_Join cleanupErr removeRecovery else cleanupErr.

(** ** Theory *)

(** Each limit within its documented bounds. *)
Record limits_ok (l : SessionLimits) : Prop := mkLimitsOk {
  lk_batch : 1 <= MaxBatchOperations l <= DefaultMaxBatchOperations;
  lk_insert : 1 <= MaxInsertBytes l <= MaximumInsertBytes;
  lk_undo : 1 <= UndoBytes l;
  lk_journal : MinimumJournalBytes <= MaxJournalBytes l;
  lk_events : 1 <= EventHistory l <= MaximumEventHistory;
  lk_changes : 1 <= ChangeHistory l <= MaximumChangeHistory;
  lk_anchors : 1 <= MaxAnchorBatch l <= MaximumAnchorBatch;
  lk_leases : 1 <= MaxSnapshotLeases l <= MaximumSnapshotLeases;
  lk_subscriptions : 1 <= MaxSubscriptions l <= MaximumSubscriptions }.

Definition config_ok (c : SessionConfig) : Prop :=
  limits_ok (Limits c) /\ 1 <= JournalSyncInterval c /\
  (AutoCheckpointJournalBytes c = 0 \/
   MinimumJournalBytes <= AutoCheckpointJournalBytes c <= MaxJournalBytes (Limits c)) /\
  (RecoveryDirOwnership c = DirectoryShared \/ RecoveryDirOwnership c = DirectoryOwned) /\
  (SessionDirOwnership c = DirectoryShared \/ SessionDirOwnership c = DirectoryOwned).

Definition as_options (c : SessionConfig) : OpenOptions :=
  mkOpenOptions (RecoveryDir c) (SessionDir c) (RecoveryDirOwnership c) (SessionDirOwnership c) (Limits c)
    (JournalSyncInterval c) (AutoCheckpointJournalBytes c).

Lemma default_ne value def : def <> 0 -> default value def <> 0.
Proof. unfold default. intros. destruct (Z.eqb_spec value 0); lia. Qed.

Lemma default_id value def : value <> 0 -> default value def = value.
Proof. unfold default. intros. by rewrite (proj2 (Z.eqb_neq value 0)). Qed.

Lemma default_limits_id l : limits_ok l -> default_limits l = l.
Proof.
  intros []. unfold default_limits, MinimumJournalBytes in *. destruct l; cbn in *. f_equal; apply default_id; lia.
Qed.

Lemma resolveDirectory_spec path ownership dp down abs clean :
  0 <= ownership -> down = DirectoryShared \/ down = DirectoryOwned ->
  match resolveDirectoryWith path ownership dp down abs clean with
  | Ok (p, own) =>
    (own = DirectoryShared \/ own = DirectoryOwned) /\ ownership <= DirectoryOwned /\
    (path = [] -> ownership = DirectoryOwnershipDefault) /\
    exists a, abs (if zlen path =? 0 then dp else path) = Ok a /\ p = clean a /\
      own = (if zlen path =? 0 then down else default ownership DirectoryShared)
  | Err e => errors_Is e document_ErrInvalidOptions = true /\
    (DirectoryOwned < ownership \/ (path = [] /\ ownership <> DirectoryOwnershipDefault) \/
     exists e', abs (if zlen path =? 0 then dp else path) = Err e')
  end.
Proof.
  intros Ho Hd. unfold resolveDirectoryWith, default, DirectoryOwned, DirectoryShared, DirectoryOwnershipDefault in *.
  destruct (Z.ltb_spec 2 ownership); [auto|].
  destruct (Z.eqb_spec (zlen path) 0) as [Hz|Hz]; cbn [andb].
  - apply zlen_zero in Hz as ->. destruct (Z.eqb_spec ownership 0) as [->|]; cbn [negb]; [|auto 10].
    destruct (abs dp) as [a|e] eqn:Ha; [|by eauto 10]. split_and!; try done. by eexists.
  - destruct (abs path) as [a|e] eqn:Ha; [|by eauto 10]. split; [destruct (Z.eqb_spec ownership 0); [by left|lia]|].
    split; [lia|]. split; [intros ->; done|]. by eexists.
Qed.

Lemma resolveDirectory_again p own dp down abs clean :
  clean p <> [] -> abs (clean p) = Ok (clean p) -> clean (clean p) = clean p ->
  own = DirectoryShared \/ own = DirectoryOwned ->
  resolveDirectoryWith (clean p) own dp down abs clean = Ok (clean p, own).
Proof.
  intros Hne Ha Hc Ho. unfold resolveDirectoryWith.
  rewrite (proj2 (Z.eqb_neq (zlen (clean p)) 0)) by (intros E; by apply Hne, zlen_zero).
  unfold DirectoryShared, DirectoryOwned, DirectoryOwnershipDefault in *.
  destruct Ho as [-> | ->]; cbn; by rewrite Ha, Hc.
Qed.

Section Resolved.
Variable absolutePath : list byte -> result (list byte).
Variable clean : list byte -> list byte.
Variables defaultRecoveryDir defaultSessionDir : list byte.
#[local] Notation resolve := (resolveOpenOptions absolutePath clean defaultRecoveryDir defaultSessionDir).

(** The options [resolveOpenOptions] accepts. *)
Record acceptable (o : OpenOptions) : Prop := {
  ac_limits : limits_ok (default_limits (oo_Limits o));
  ac_sync : 0 <= oo_JournalSyncInterval o;
  ac_checkpoint : oo_AutoCheckpointJournalBytes o = 0 \/
    MinimumJournalBytes <= oo_AutoCheckpointJournalBytes o <= MaxJournalBytes (default_limits (oo_Limits o));
  ac_owned : oo_RecoveryDirOwnership o <= DirectoryOwned /\ oo_SessionDirOwnership o <= DirectoryOwned;
  ac_explicit : (oo_RecoveryDir o = [] -> oo_RecoveryDirOwnership o = DirectoryOwnershipDefault) /\
    (oo_SessionDir o = [] -> oo_SessionDirOwnership o = DirectoryOwnershipDefault);
  ac_paths : (exists a, absolutePath (if zlen (oo_RecoveryDir o) =? 0 then defaultRecoveryDir else oo_RecoveryDir o) = Ok a) /\
    exists a, absolutePath (if zlen (oo_SessionDir o) =? 0 then defaultSessionDir else oo_SessionDir o) = Ok a }.

(** The checks on numbers: all pass, or the first that fails is reported. *)
Definition numbers_ok (o : OpenOptions) : Prop :=
  limits_ok (default_limits (oo_Limits o)) /\ 0 <= oo_JournalSyncInterval o /\
  (oo_AutoCheckpointJournalBytes o = 0 \/
   MinimumJournalBytes <= oo_AutoCheckpointJournalBytes o <= MaxJournalBytes (default_limits (oo_Limits o))).

Lemma resolve_numbers o :
  let l := default_limits (oo_Limits o) in
  (numbers_ok o /\ 1 <= default (oo_JournalSyncInterval o) DefaultJournalSyncInterval /\
   resolve o =
     let? (recoveryDir, recoveryOwnership) :=
       resolveDirectoryWith (oo_RecoveryDir o) (oo_RecoveryDirOwnership o) defaultRecoveryDir DirectoryShared absolutePath clean in
     let? (sessionDir, sessionOwnership) :=
       resolveDirectoryWith (oo_SessionDir o) (oo_SessionDirOwnership o) defaultSessionDir DirectoryOwned absolutePath clean in
     Ok (mkConfig recoveryDir sessionDir recoveryOwnership sessionOwnership l
           (default (oo_JournalSyncInterval o) DefaultJournalSyncInterval) (oo_AutoCheckpointJournalBytes o))) \/
  (~ numbers_ok o /\ exists k, resolve o = Err (invalid k)).
Proof.
  unfold resolveOpenOptions, numbers_ok. set (l := default_limits (oo_Limits o)).
  assert (MaxBatchOperations l <> 0 /\ MaxInsertBytes l <> 0 /\ UndoBytes l <> 0 /\ EventHistory l <> 0 /\
    ChangeHistory l <> 0 /\ MaxAnchorBatch l <> 0 /\ MaxSnapshotLeases l <> 0 /\ MaxSubscriptions l <> 0) as Hnz
    by (split_and!; by apply default_ne).
  clearbody l. destruct Hnz as (?&?&?&?&?&?&?&?).
  set (sync := default (oo_JournalSyncInterval o) DefaultJournalSyncInterval).
  assert (sync <> 0 /\ (sync < 0 <-> oo_JournalSyncInterval o < 0)) as [Hsync Hd].
  { subst sync. unfold default, DefaultJournalSyncInterval. destruct (Z.eqb_spec (oo_JournalSyncInterval o) 0); lia. }
  clearbody sync. cbv zeta.
  repeat match goal with
  | |- context [if ?c then Err (invalid ?k) else _] =>
    destruct c eqn:?; [right; split; [intros [[] [? ?]]; unfold MinimumJournalBytes in *; lia|by exists k]|]
  end.
  left. split; [split; [constructor; lia|split; [lia|unfold MinimumJournalBytes in *; lia]]|].
  split; [lia|reflexivity].
Qed.

(** What is resolved is within its bounds. *)
Lemma resolve_config o c :
  0 <= oo_RecoveryDirOwnership o -> 0 <= oo_SessionDirOwnership o -> resolve o = Ok c -> config_ok c.
Proof.
  intros Hr Hs. destruct (resolve_numbers o) as [(Hn & Hsync & E)|[Hn [k E]]]; rewrite E; [|done].
  pose proof (resolveDirectory_spec (oo_RecoveryDir o) (oo_RecoveryDirOwnership o) defaultRecoveryDir DirectoryShared
    absolutePath clean Hr (or_introl eq_refl)) as H1.
  destruct (resolveDirectoryWith (oo_RecoveryDir o) _ _ _ _ _) as [[p1 own1]|e1]; [|done]. cbn [res_bind].
  pose proof (resolveDirectory_spec (oo_SessionDir o) (oo_SessionDirOwnership o) defaultSessionDir DirectoryOwned
    absolutePath clean Hs (or_intror eq_refl)) as H2.
  destruct (resolveDirectoryWith (oo_SessionDir o) _ _ _ _ _) as [[p2 own2]|e2]; [|done]. cbn [res_bind]. intros [= <-].
  destruct Hn as (? & ? & ?), H1 as (? & ? & _), H2 as (? & ? & _). by split_and!.
Qed.

(** C39. Opening resolves exactly the acceptable options: [resolveOpenOptions]
    succeeds if and only if every limit is within its bounds after the defaults
    are filled in, the intervals, the ownerships and the checkpoint threshold
    are consistent and the directories resolve; a resolved configuration has every
    limit within its bounds, never the default ownership, a zero limit is
    replaced by its default and a nonzero one is kept; and every refusal
    is an [ErrInvalidOptions]. *)
Theorem resolveOpenOptions_correct o :
  0 <= oo_RecoveryDirOwnership o -> 0 <= oo_SessionDirOwnership o ->
  (forall c, resolve o = Ok c -> config_ok c /\ Limits c = default_limits (oo_Limits o) /\
     AutoCheckpointJournalBytes c = oo_AutoCheckpointJournalBytes o /\
     (oo_RecoveryDirOwnership o <> DirectoryOwnershipDefault -> RecoveryDirOwnership c = oo_RecoveryDirOwnership o) /\
     (oo_SessionDirOwnership o <> DirectoryOwnershipDefault -> SessionDirOwnership c = oo_SessionDirOwnership o)) /\
  (forall e, resolve o = Err e -> errors_Is e document_ErrInvalidOptions = true) /\
  (acceptable o <-> exists c, resolve o = Ok c).
Proof.
  intros Hr Hs.
  destruct (resolve_numbers o) as [(Hn & Hsync & E)|[Hn [k E]]]; rewrite E; cycle 1.
  { split_and!; [done|by intros ? [= <-]|]. split; [intros []; by destruct Hn|by intros [c [=]]]. }
  pose proof (resolveDirectory_spec (oo_RecoveryDir o) (oo_RecoveryDirOwnership o) defaultRecoveryDir DirectoryShared
    absolutePath clean Hr (or_introl eq_refl)) as H1.
  destruct (resolveDirectoryWith (oo_RecoveryDir o) _ _ _ _ _) as [[p1 own1]|e1]; cbn [res_bind]; cycle 1.
  { destruct H1 as [H1 H1']. split_and!; [done|by intros ? [= <-]|]. split; [|by intros [c [=]]].
    intros [_ _ _ [Ho _] [Hx _] [[a Ha] _]]. destruct H1' as [?|[[? ?]|[e' He]]]; [lia|by destruct H0; auto|congruence]. }
  pose proof (resolveDirectory_spec (oo_SessionDir o) (oo_SessionDirOwnership o) defaultSessionDir DirectoryOwned
    absolutePath clean Hs (or_intror eq_refl)) as H2.
  destruct (resolveDirectoryWith (oo_SessionDir o) _ _ _ _ _) as [[p2 own2]|e2]; cbn [res_bind]; cycle 1.
  { destruct H2 as [H2 H2']. split_and!; [done|by intros ? [= <-]|]. split; [|by intros [c [=]]].
    intros [_ _ _ [_ Ho] [_ Hx] [_ [a Ha]]]. destruct H2' as [?|[[? ?]|[e' He]]]; [lia|by destruct H0; auto|congruence]. }
  destruct H1 as (Ho1 & Hle1 & Hx1 & a1 & Ha1 & -> & Eo1), H2 as (Ho2 & Hle2 & Hx2 & a2 & Ha2 & -> & Eo2).
  assert (forall (p : list byte) own d, (p = [] -> own = DirectoryOwnershipDefault) -> own <> DirectoryOwnershipDefault ->
    (if zlen p =? 0 then d else default own DirectoryShared) = own) as Hkeep.
  { intros p own d Hp Hne. destruct (Z.eqb_spec (zlen p) 0) as [Hz|]; [by destruct Hne; apply Hp, zlen_zero|].
    by apply default_id. }
  destruct Hn as (Hl & Hy & Hck). split_and!.
  - intros c [= <-]. cbn. split_and!; try done.
    + intros Hne. rewrite Eo1. by apply Hkeep.
    + intros Hne. rewrite Eo2. by apply Hkeep.
  - done.
  - split; [by eexists|]. intros _. constructor; try done; eauto.
Qed.

(** A resolved configuration is stable: opening again with the options a
    session reports resolves to the same configuration, when the absolute
    form of a resolved path is itself. *)
Theorem resolveOpenOptions_stable o c :
  0 <= oo_RecoveryDirOwnership o -> 0 <= oo_SessionDirOwnership o ->
  (forall p a, absolutePath p = Ok a -> clean a <> [] /\ absolutePath (clean a) = Ok (clean a) /\ clean (clean a) = clean a) ->
  resolve o = Ok c -> resolve (as_options c) = Ok c.
Proof.
  intros Hr Hs Habs. destruct (resolve_numbers o) as [(Hn & Hsync & E)|[Hn [k E]]]; rewrite E; [|done].
  pose proof (resolveDirectory_spec (oo_RecoveryDir o) (oo_RecoveryDirOwnership o) defaultRecoveryDir DirectoryShared
    absolutePath clean Hr (or_introl eq_refl)) as H1.
  destruct (resolveDirectoryWith (oo_RecoveryDir o) _ _ _ _ _) as [[p1 own1]|e1]; cbn [res_bind]; [|done].
  pose proof (resolveDirectory_spec (oo_SessionDir o) (oo_SessionDirOwnership o) defaultSessionDir DirectoryOwned
    absolutePath clean Hs (or_intror eq_refl)) as H2.
  destruct (resolveDirectoryWith (oo_SessionDir o) _ _ _ _ _) as [[p2 own2]|e2]; cbn [res_bind]; [|done].
  destruct H1 as (Ho1 & _ & _ & a1 & Ha1 & -> & _), H2 as (Ho2 & _ & _ & a2 & Ha2 & -> & _).
  intros [= <-]. destruct Hn as (Hl & Hy & Hck).
  destruct (Habs _ _ Ha1) as (Hne1 & Hab1 & Hcl1), (Habs _ _ Ha2) as (Hne2 & Hab2 & Hcl2).
  match goal with |- resolve (as_options ?c) = _ => destruct (resolve_numbers (as_options c)) as [(_ & _ & E')|[Hn' _]] end.
  - rewrite E'. cbn. rewrite !resolveDirectory_again by auto. cbn. f_equal. f_equal;
      [by apply default_limits_id|apply default_id; lia].
  - exfalso. apply Hn'. unfold numbers_ok.
    cbn [as_options oo_Limits Limits oo_JournalSyncInterval JournalSyncInterval oo_AutoCheckpointJournalBytes AutoCheckpointJournalBytes].
    rewrite default_limits_id by done. split; [done|]. split; [lia|exact Hck].
Qed.
End Resolved.

Definition ex_options : OpenOptions :=
  mkOpenOptions [Byte.x61] [] DirectoryOwned DirectoryOwnershipDefault (mkLimits 0 0 4096 184 0 0 0 0 0) 0 184.

Lemma resolveOpenOptions_correct_witness :
  exists c, resolveOpenOptions Ok id [] [Byte.x73] ex_options = Ok c /\ config_ok c /\ MaxBatchOperations (Limits c) = 256.
Proof.
  destruct (resolveOpenOptions_correct Ok id [] [Byte.x73] ex_options) as (Hc & _ & _); [done..|].
  eexists. assert (forall c, resolveOpenOptions Ok id [] [Byte.x73] ex_options = Ok c -> config_ok c) as Hc' by (intros c E; by apply Hc).
  split; [reflexivity|]. split; [apply Hc'; reflexivity|reflexivity].
Defined.

Lemma resolveOpenOptions_stable_witness :
  exists c, resolveOpenOptions (fun p => Ok (Byte.x2f :: zdrop 1 p)) id [] [Byte.x73] ex_options = Ok c /\
    resolveOpenOptions (fun p => Ok (Byte.x2f :: zdrop 1 p)) id [] [Byte.x73] (as_options c) = Ok c.
Proof.
  eexists. split; [reflexivity|].
  apply (resolveOpenOptions_stable (fun p => Ok (Byte.x2f :: zdrop 1 p)) id [] [Byte.x73] ex_options);
    [done..| |reflexivity].
  intros p a [= <-]. done.
Defined.
