(* ===== verification/Effects.v ===== *)
(** * Effects on any state

    The monad of the persistence code: a computation on a state [W] that may fail
    and whose state changes stay.  The state is left open, so that scanning a file
    and saving a session run on the states they need. *)

From Stdlib Require Import ZArith Lia List.
From stdpp Require Import base list numbers.
From S2P Require Import Prelude.
#[local] Open Scope Z_scope.

Definition Eff (W A : Type) : Type := W -> W * Prelude.result A.

Section Eff.
Context {W : Type}.
Definition eff_ret {A} (a : A) : Eff W A := fun w => (w, Ok a).
Definition eff_fail {A} (e : error) : Eff W A := fun w => (w, Err e).
Definition eff_bind {A B} (c : Eff W A) (f : A -> Eff W B) : Eff W B := fun w =>
  let '(w, r) := c w in
  match r with Ok a => f a w | Err e => (w, Err e) end.
Definition eff_get : Eff W W := fun w => (w, Ok w).
Definition eff_modify (f : W -> W) : Eff W unit := fun w => (f w, Ok tt).
Definition eff_lift {A} (r : Prelude.result A) : Eff W A := fun w => (w, r).
(** A call that returns only an error. *)
Definition eff_call (c : W -> W * option error) : Eff W unit := fun w =>
  let '(w, e) := c w in (w, match e with Some e => Err e | None => Ok tt end).

Lemma eff_bind_inv {A B} (c : Eff W A) (f : A -> Eff W B) w w' r :
  eff_bind c f w = (w', r) ->
  (exists e, c w = (w', Err e) /\ r = Err e) \/ (exists w1 a, c w = (w1, Ok a) /\ f a w1 = (w', r)).
Proof.
  unfold eff_bind. destruct (c w) as [w1 [a|e]]; [right; by exists w1, a|intros [= <- <-]; left; by exists e].
Qed.

Lemma eff_call_inv c w w' r :
  eff_call c w = (w', r) -> exists e, c w = (w', e) /\ r = match e with Some e => Err e | None => Ok tt end.
Proof. unfold eff_call. destruct (c w) as [w1 e]. intros [= <- <-]. by exists e. Qed.

(** A relation between the states before and after that every step respects. *)
Lemma eff_bind_rel {A B} (R : W -> W -> Prop) (c : Eff W A) (f : A -> Eff W B) w :
  (forall x y z, R x y -> R y z -> R x z) -> R w (c w).1 -> (forall a w1, c w = (w1, Ok a) -> R w1 (f a w1).1) ->
  R w (eff_bind c f w).1.
Proof.
  intros Ht Hc Hf. unfold eff_bind. destruct (c w) as [w1 [a|e]]; [|done]. eapply Ht; [exact Hc|]. by apply Hf.
Qed.
End Eff.

(** Computations that, from states with [I], only go along [R] and fail only with
    [P]. *)
Definition safely {W} (R : W -> W -> Prop) (I : W -> Prop) (P : error -> Prop) {A} (c : Eff W A) : Prop :=
  forall w w' r, c w = (w', r) -> I w -> R w w' /\ forall e, r = Err e -> P e.

Section Safely.
Context {W : Type} (R : W -> W -> Prop) `{!PreOrder R} (I : W -> Prop) (P : error -> Prop).
Hypothesis R_keeps : forall w w', R w w' -> I w -> I w'.

Lemma safely_ret {A} (a : A) : safely R I P (eff_ret a).
Proof using PreOrder0. by intros w w' r [= <- <-]. Qed.
Lemma safely_fail {A} e : P e -> safely R I P (@eff_fail W A e).
Proof using PreOrder0. intros He w w' r [= <- <-] _. split; [done|]. by intros ? [= <-]. Qed.
Lemma safely_lift {A} (x : Prelude.result A) : (forall e, x = Err e -> P e) -> safely R I P (eff_lift x).
Proof using PreOrder0. by intros He w w' r [= <- <-]. Qed.
Lemma safely_bind {A B} (c : Eff W A) (f : A -> Eff W B) :
  safely R I P c -> (forall a, safely R I P (f a)) -> safely R I P (eff_bind c f).
Proof using PreOrder0 R_keeps.
  intros Hc Hf w w' r H HI. apply eff_bind_inv in H as [(e & He & ->)|(w1 & a & Ha & Hb)].
  - destruct (Hc _ _ _ He HI) as [? Hp]. split; [done|]. intros ? [= <-]. by apply Hp.
  - destruct (Hc _ _ _ Ha HI) as [H1 _]. destruct (Hf a _ _ _ Hb (R_keeps _ _ H1 HI)) as [H2 ?]. split; [by etransitivity|done].
Qed.
Lemma safely_call (c : W -> W * option error) :
  (forall w w' e, c w = (w', e) -> I w -> R w w' /\ forall e', e = Some e' -> P e') -> safely R I P (eff_call c).
Proof using.
  intros Hc w w' r (e & He & ->)%eff_call_inv HI. destruct (Hc _ _ _ He HI) as [? Hp]. split; [done|].
  intros e'. destruct e; [|done]. intros [= <-]. by apply Hp.
Qed.
Lemma safely_if {A} (b : bool) (c d : Eff W A) : safely R I P c -> safely R I P d -> safely R I P (if b then c else d).
Proof using. by destruct b. Qed.
End Safely.

Declare Scope eff_scope.
Notation "'let*' x ':=' c 'in' k" := (eff_bind c (fun x => k))
  (at level 200, x pattern, c at level 100, k at level 200, right associativity) : eff_scope.
#[global] Open Scope eff_scope.

(** Splits a run of a bind: in the first goal the first part failed. *)
Ltac split_eff H :=
  let e := fresh "e" in let w := fresh "w" in let a := fresh "a" in let Hc := fresh "Hc" in
  apply eff_bind_inv in H as [(e & Hc & ->)|(w & a & Hc & H)].
