(* ===== verification/Scan.v ===== *)
(** * document/session.go: reading a file once

    [scanOpenedBaseWithChange] streams a base file to validate it, hash it, find
    its byte order mark and count its line breaks; [scanDiskIdentityOpenedWithChange]
    streams it to identify its content.  Both compare what the system says about
    the file before and after.  The state [W], the file's methods, [stat] and the
    capture of the change stamp are arguments, as in the code. *)

From Stdlib Require Import ZArith Lia List.
From stdpp Require Import base list numbers.
From S2P Require Import Prelude GoLib Utf8 Events Effects.
#[local] Open Scope Z_scope.

(** ** Data *)

(** [os.FileInfo]: [fi_Same] is what [os.SameFile] compares. *)
Record FileInfo := mkFileInfo { fi_Size : Z; fi_ModTime : Z; fi_Regular : bool; fi_Same : Z }.

Record fileIdentity := mkFileIdentity { id_size : Z; id_modTime : Z; id_contentHash : list byte }.

Record baseScan := mkBaseScan {
  bs_size : Z; bs_contentHash : list byte; bs_hasBOM : bool; bs_baseOffset : Z; bs_newlines : Z; bs_eol : EOLStyle }.

Record fileChangeStamp := mkStamp { st_first : Z; st_second : Z; st_available : bool }.

(** [ReadAt(p, off)] with the length of [p]: the bytes read and the error. *)
Record readStatFile (W : Type) := mkReadStatFile {
  rf_ReadAt : Z -> Z -> W -> W * (list byte * option error); rf_Stat : Eff W FileInfo }.
Arguments rf_ReadAt {W}. Arguments rf_Stat {W}.

Definition scanBufferSize : Z := 262144.
Definition byteOrderMark : list byte := [Byte.xef; Byte.xbb; Byte.xbf].
Definition carriageReturn : byte := Byte.x0d.

Definition sameFileVersion (left right : FileInfo) : bool :=
  (fi_Size left =? fi_Size right) && (fi_ModTime left =? fi_ModTime right) && (fi_Same left =? fi_Same right).

Definition sameFileChange (left right : fileChangeStamp) : bool :=
  if negb (Bool.eqb (st_available left) (st_available right)) then false
  else negb (st_available left) || ((st_first left =? st_first right) && (st_second left =? st_second right)).

Definition identityFor (info : FileInfo) (contentHash : list byte) : fileIdentity :=
  mkFileIdentity (fi_Size info) (fi_ModTime info) contentHash.

Definition boolOffset (condition : bool) (value : Z) : Z := if condition then value else 0.

Definition eol_style (crlf lf : Z) : EOLStyle :=
  if (0 <? crlf) && (0 <? lf) then EOLMixed else if 0 <? crlf then EOLCRLF else EOLLF.

(** [bytes.Count(s, sep)] for a separator that is not empty. *)
Fixpoint bytes_Count (fuel : nat) (s sep : list byte) : Z :=
  match fuel with
  | O => 0
  | S fuel =>
    match s with
    | [] => 0
    | _ :: rest =>
      if bool_decide (ztake (zlen sep) s = sep) then 1 + bytes_Count fuel (zdrop (zlen sep) s) sep
      else bytes_Count fuel rest sep
    end
  end.

Definition detectEOL (sample : list byte) : EOLStyle :=
  let crlf := bytes_Count (length sample) sample [carriageReturn; newline] in
  let lf := bytes_Count (length sample) sample [newline] - crlf in
  if (0 <? crlf) && (0 <? lf) then EOLMixed else if 0 <? crlf then EOLCRLF else EOLLF.

(** ** The streaming state *)

(** The variables [feedText] and [consume] close over; [sc_hashed] is what the
    hasher was written. *)
Record scanState := mkScanState {
  sc_hashed : list byte; sc_validator : utf8StreamValidator; sc_probe : list byte; sc_bomDecided : bool; sc_hasBOM : bool;
  sc_crlf : Z; sc_lf : Z; sc_newlines : Z; sc_previousCR : bool }.

Definition initialScan : scanState := mkScanState [] (mkValidator []) [] false false 0 0 0 false.

Definition count_byte (st : scanState) (current : byte) : scanState :=
  let isLF := bool_decide (current = newline) in
  mkScanState (sc_hashed st) (sc_validator st) (sc_probe st) (sc_bomDecided st) (sc_hasBOM st)
    (if isLF && sc_previousCR st then sc_crlf st ⊞ 1 else sc_crlf st)
    (if isLF && negb (sc_previousCR st) then sc_lf st ⊞ 1 else sc_lf st)
    (if isLF then sc_newlines st ⊞ 1 else sc_newlines st)
    (bool_decide (current = carriageReturn)).

Definition with_validator (v : utf8StreamValidator) (st : scanState) : scanState :=
  mkScanState (sc_hashed st) v (sc_probe st) (sc_bomDecided st) (sc_hasBOM st) (sc_crlf st) (sc_lf st) (sc_newlines st) (sc_previousCR st).
Definition with_probe (probe : list byte) (decided hasBOM : bool) (st : scanState) : scanState :=
  mkScanState (sc_hashed st) (sc_validator st) probe decided hasBOM (sc_crlf st) (sc_lf st) (sc_newlines st) (sc_previousCR st).
Definition with_hashed (value : list byte) (st : scanState) : scanState :=
  mkScanState (sc_hashed st ++ value) (sc_validator st) (sc_probe st) (sc_bomDecided st) (sc_hasBOM st) (sc_crlf st) (sc_lf st)
    (sc_newlines st) (sc_previousCR st).

Definition feedText (value : list byte) (st : scanState) : Prelude.result scanState :=
  let '(v, ok) := Utf8.Write (sc_validator st) value in
  if negb ok then Err document_ErrInvalidUTF8 else Ok (fold_left count_byte value (with_validator v st)).

Definition consume (value : list byte) (st : scanState) : Prelude.result scanState :=
  let st := with_hashed value st in
  if sc_bomDecided st then feedText value st else
  let take := Z.min (3 - zlen (sc_probe st)) (zlen value) in
  let probe := sc_probe st ++ ztake take value in
  let value := zdrop take value in
  let? st :=
    if negb (zlen probe =? 3) then Ok (with_probe probe false (sc_hasBOM st) st)
    else if bool_decide (probe = byteOrderMark) then Ok (with_probe [] true true st)
    else feedText probe (with_probe probe true (sc_hasBOM st) st) in
  feedText value st.

(** ** Reading *)

Section Reading.
Context {W : Type}.
(* [contextError(ctx)] *)
Variable contextError : W -> W * option error.
Variable file : readStatFile W.

(** The read loop of both scans; [feed] takes the bytes of a read.  Every pass
    that goes on has read a byte, so the size of the file is enough fuel. *)
Fixpoint read_loop {A} (fuel : nat) (feed : list byte -> A -> Prelude.result A) (size offset : Z) (a : A) : Eff W A :=
  match fuel with
  | O => eff_ret a
  | S fuel =>
    if size <=? offset then eff_ret a else
    let* _ := eff_call contextError in
    let want := Z.min scanBufferSize (size - offset) in
    let* (value, readErr) := (fun w => let '(w, r) := rf_ReadAt file want offset w in (w, Ok r)) in
    let n := zlen value in
    let* a := eff_lift (if 0 <? n then feed value a else Ok a) in
    let offset := if 0 <? n then offset + n else offset in
    match readErr with
    | Some e =>
      if errors_Is e io_EOF && (offset =? size) then
        if (n =? 0) && (offset <? size) then eff_fail io_ErrUnexpectedEOF else read_loop fuel feed size offset a
      else eff_fail e
    | None =>
      if (n =? 0) && (offset <? size) then eff_fail io_ErrUnexpectedEOF else read_loop fuel feed size offset a
    end
  end.

Variable path : list byte.
Variable stat : list byte -> Eff W FileInfo.
Variable capture : readStatFile W -> FileInfo -> Eff W fileChangeStamp.
(* [sha256.Sum256] *)
Variable sha256 : list byte -> list byte.

Definition scanOpenedBaseWithChange (initial : FileInfo) : Eff W baseScan :=
  if fi_Size initial <? 0 then eff_fail document_ErrExternalChange else
  let* initialChange := capture file initial in
  let* st := read_loop (S (Z.to_nat (fi_Size initial))) consume (fi_Size initial) 0 initialScan in
  let* st := eff_lift (if sc_bomDecided st then Ok st else feedText (sc_probe st) st) in
  if negb (Complete (sc_validator st)) then eff_fail document_ErrInvalidUTF8 else
  let* _ := eff_call contextError in
  let* pathInfo := stat path in
  let* final := rf_Stat file in
  let* finalChange := capture file final in
  if negb (sameFileVersion initial final) || negb (sameFileVersion final pathInfo) || negb (sameFileChange initialChange finalChange)
  then eff_fail document_ErrExternalChange
  else eff_ret (mkBaseScan (fi_Size initial) (sha256 (sc_hashed st)) (sc_hasBOM st) (boolOffset (sc_hasBOM st) 3)
                  (sc_newlines st) (eol_style (sc_crlf st) (sc_lf st))).

Definition scanDiskIdentityOpenedWithChange : Eff W fileIdentity :=
  let* initial := rf_Stat file in
  if negb (fi_Regular initial) then eff_fail document_ErrExternalChange else
  let* initialChange := capture file initial in
  let* hashed := read_loop (S (Z.to_nat (fi_Size initial))) (fun value hashed => Ok (hashed ++ value)) (fi_Size initial) 0 [] in
  let* pathInfo := stat path in
  let* final := rf_Stat file in
  let* finalChange := capture file final in
  if negb (sameFileVersion initial final) || negb (sameFileVersion final pathInfo) || negb (sameFileChange initialChange finalChange)
  then eff_fail document_ErrExternalChange
  else eff_ret (identityFor final (sha256 hashed)).
End Reading.

(** * What a scan finds *)

(** ** Line breaks *)

(** Carriage returns before line feeds; [previousCR]: the byte before. *)
Fixpoint crlfs (previousCR : bool) (p : list byte) : Z :=
  match p with
  | [] => 0
  | b :: p => (if bool_decide (b = newline) && previousCR then 1 else 0) + crlfs (bool_decide (b = carriageReturn)) p
  end.

Definition ends_CR (previousCR : bool) (p : list byte) : bool := fold_left (fun _ b => bool_decide (b = carriageReturn)) p previousCR.

Lemma crlfs_app cr p q : crlfs cr (p ++ q) = crlfs cr p + crlfs (ends_CR cr p) q.
Proof. revert cr. induction p as [|b p IH]; intros cr; [done|]. cbn [app crlfs]. rewrite IH. unfold ends_CR. cbn [fold_left]. lia. Qed.

Lemma crlfs_bounds cr p : 0 <= crlfs cr p <= count_newlines p.
Proof.
  revert cr. induction p as [|b p IH]; intros cr; [done|]. cbn. specialize (IH (bool_decide (b = carriageReturn))).
  destruct (decide (b = newline)) as [->|Hne]; [|rewrite bool_decide_eq_false_2 by done; cbn; lia].
  rewrite bool_decide_eq_true_2 by done. cbn [andb]. destruct cr; lia.
Qed.

Lemma Count_newline p fuel : (length p <= fuel)%nat -> bytes_Count fuel p [newline] = count_newlines p.
Proof.
  revert p. induction fuel as [|fuel IH]; intros [|b p] Hf; try done; [cbn in Hf; lia|]. cbn [bytes_Count count_newlines].
  change (zlen [newline]) with 1. cbn in Hf. change (ztake 1 (b :: p)) with [b].
  replace (zdrop 1 (b :: p)) with p by done.
  destruct (decide (b = newline)) as [->|Hne].
  - rewrite bool_decide_eq_true_2 by done. rewrite IH by lia. lia.
  - rewrite bool_decide_eq_false_2 by congruence. rewrite IH by lia. lia.
Qed.

Lemma Count_crlf fuel : forall p, (length p <= fuel)%nat -> bytes_Count fuel p [carriageReturn; newline] = crlfs false p.
Proof.
  induction fuel as [|fuel IH]; intros [|b p] Hf; try done; [cbn in Hf; lia|]. cbn in Hf. cbn [bytes_Count].
  change (zlen [carriageReturn; newline]) with 2.
  destruct (decide (b = carriageReturn)) as [->|Hne].
  2:{ rewrite bool_decide_eq_false_2; [|change (ztake 2 (b :: p)) with (b :: take 1 p); congruence]. rewrite IH by lia.
      cbn [crlfs]. rewrite andb_false_r. rewrite (bool_decide_eq_false_2 (b = carriageReturn)) by done. lia. }
  destruct p as [|c p]; [rewrite bool_decide_eq_false_2 by done; by destruct fuel|].
  destruct (decide (c = newline)) as [->|Hnl].
  - rewrite bool_decide_eq_true_2 by done. replace (zdrop 2 (carriageReturn :: newline :: p)) with p by done.
    rewrite IH by (cbn in Hf; lia). done.
  - rewrite bool_decide_eq_false_2; [|change (ztake 2 (carriageReturn :: c :: p)) with [carriageReturn; c]; congruence]. rewrite IH by (cbn in *; lia).
    cbn [crlfs]. rewrite (bool_decide_eq_false_2 (c = newline)) by done. cbn [andb]. rewrite andb_false_r. lia.
Qed.

Lemma detectEOL_crlfs p : detectEOL p = eol_style (crlfs false p) (count_newlines p - crlfs false p).
Proof. unfold detectEOL, eol_style. by rewrite Count_crlf, Count_newline by done. Qed.

(** ** The text of a file *)

(** The bytes after the byte order mark. *)
Definition marked (content : list byte) : bool := bool_decide (ztake 3 content = byteOrderMark).
Definition text_of (content : list byte) : list byte := if marked content then zdrop 3 content else content.

(** The text fed so far. *)
Record fed (text : list byte) (st : scanState) : Prop := mkFed {
  fd_partial : partial (v_pending (sc_validator st));
  fd_valid : exists done, text = done ++ v_pending (sc_validator st) /\ utf8_Valid done = true;
  fd_newlines : sc_newlines st = count_newlines text;
  fd_crlf : sc_crlf st = crlfs false text;
  fd_lf : sc_lf st = count_newlines text - crlfs false text;
  fd_CR : sc_previousCR st = ends_CR false text }.

(** The fields of the byte order mark and the hasher. *)
Definition same_mark (st st' : scanState) : Prop :=
  sc_hashed st' = sc_hashed st /\ sc_probe st' = sc_probe st /\ sc_bomDecided st' = sc_bomDecided st /\ sc_hasBOM st' = sc_hasBOM st.

Lemma count_bytes_spec value : forall st text,
  zlen (text ++ value) <= maxInt64 ->
  sc_newlines st = count_newlines text -> sc_crlf st = crlfs false text -> sc_lf st = count_newlines text - crlfs false text ->
  sc_previousCR st = ends_CR false text ->
  let st' := fold_left count_byte value st in
  sc_newlines st' = count_newlines (text ++ value) /\ sc_crlf st' = crlfs false (text ++ value) /\
  sc_lf st' = count_newlines (text ++ value) - crlfs false (text ++ value) /\ sc_previousCR st' = ends_CR false (text ++ value) /\
  sc_validator st' = sc_validator st /\ same_mark st st'.
Proof.
  induction value as [|b value IH]; intros st text Hmax Hn Hc Hl Hp; [rewrite app_nil_r; by split_and!|]. cbn [fold_left].
  assert (text ++ b :: value = (text ++ [b]) ++ value) as E by (by rewrite <-app_assoc). rewrite E in *.
  assert (count_newlines (text ++ [b]) = count_newlines text + (if decide (b = newline) then 1 else 0)) as En
    by (rewrite count_newlines_app; cbn; case_decide; lia).
  assert (crlfs false (text ++ [b]) = crlfs false text + (if bool_decide (b = newline) && ends_CR false text then 1 else 0)) as Ec
    by (rewrite crlfs_app; cbn; lia).
  assert (ends_CR false (text ++ [b]) = bool_decide (b = carriageReturn)) as Ep by (unfold ends_CR; by rewrite fold_left_app).
  pose proof (count_newlines_bounds text) as Hb1. pose proof (crlfs_bounds false text) as Hb2.
  rewrite !zlen_app in Hmax. change (zlen [b]) with 1 in Hmax. pose proof (zlen_nonneg value).
  destruct (IH (count_byte st b) (text ++ [b])) as (? & ? & ? & ? & Hv & Hm).
  - rewrite !zlen_app. change (zlen [b]) with 1. lia.
  - rewrite En. cbn. rewrite Hn. case_decide as D; [rewrite bool_decide_eq_true_2 by done; unwrap64_goal; lia|].
    rewrite bool_decide_eq_false_2 by done. lia.
  - rewrite Ec. cbn. rewrite Hc, Hp. destruct (_ && _); [unwrap64_goal; lia|lia].
  - rewrite En, Ec. cbn. rewrite Hl, Hp. case_decide as D.
    + rewrite bool_decide_eq_true_2 by done. destruct (ends_CR false text); cbn [andb negb]; [lia|unwrap64_goal; lia].
    + rewrite bool_decide_eq_false_2 by done. cbn. lia.
  - by rewrite Ep.
  - by split_and!.
Qed.

Lemma feedText_spec value st text :
  fed text st -> zlen (text ++ value) <= maxInt64 ->
  match feedText value st with
  | Ok st' => fed (text ++ value) st' /\ same_mark st st'
  | Err e => e = document_ErrInvalidUTF8 /\ forall q, utf8_Valid (text ++ value ++ q) = false
  end.
Proof.
  intros [Hpart (d & Hd & Hv) Hn Hc Hl Hp] Hmax. unfold feedText, Utf8.Write.
  destruct (validator_loop _ _) as [pending ok] eqn:Hloop.
  destruct (validator_loop_spec _ _ _ _ Hloop ltac:(lia)) as [Hok Hbad]. destruct ok; cbn [negb].
  - destruct (Hok eq_refl) as (Hpart' & d' & E & Hv').
    destruct (count_bytes_spec value (with_validator (mkValidator pending) st) text Hmax Hn Hc Hl Hp) as (? & ? & ? & ? & Hval & Hm).
    split; [|exact Hm]. split; try done; rewrite Hval; cbn [v_pending sc_validator with_validator]; [done|].
    exists (d ++ d'). rewrite Hd, <-!app_assoc, E. split; [done|]. by rewrite Valid_app.
  - split; [done|]. intros q. destruct (Hbad eq_refl) as [_ Hq]. rewrite Hd, <-app_assoc, Valid_app by done. rewrite app_assoc. apply Hq.
Qed.

(** After the bytes [content] of a file. *)
Record scanned (content : list byte) (st : scanState) : Prop := mkScanned {
  sd_hashed : sc_hashed st = content;
  sd_open : zlen content < 3 -> sc_bomDecided st = false /\ sc_probe st = content /\ sc_hasBOM st = false /\ fed [] st;
  sd_decided : 3 <= zlen content -> sc_bomDecided st = true /\ sc_hasBOM st = marked content /\ fed (text_of content) st }.

Lemma fed_initial : fed [] initialScan.
Proof. split; try done; [by left|by exists []]. Qed.

Lemma scanned_initial : scanned [] initialScan.
Proof. split; [done| |done]. intros _. split_and!; try done. apply fed_initial. Qed.

Lemma marked_app c value : 3 <= zlen c -> marked (c ++ value) = marked c.
Proof. intros H. unfold marked. by rewrite ztake_app_l. Qed.

Lemma text_of_app c value : 3 <= zlen c -> text_of (c ++ value) = text_of c ++ value.
Proof. intros H. unfold text_of. rewrite marked_app by done. destruct (marked c); [|done]. by rewrite zdrop_app_l. Qed.

Lemma text_of_length c : zlen (text_of c) <= zlen c.
Proof. unfold text_of. destruct (marked c); [rewrite zlen_zdrop|]; pose proof (zlen_nonneg c); lia. Qed.

Lemma fed_with_probe text probe d b st : fed text st -> fed text (with_probe probe d b st).
Proof. by intros []. Qed.
Lemma fed_with_hashed text value st : fed text st -> fed text (with_hashed value st).
Proof. by intros []. Qed.

Lemma consume_spec value st content :
  scanned content st -> zlen (content ++ value) <= maxInt64 ->
  match consume value st with
  | Ok st' => scanned (content ++ value) st'
  | Err e => e = document_ErrInvalidUTF8 /\ forall q, utf8_Valid (text_of (content ++ value ++ q)) = false
  end.
Proof.
  intros [Hh Ho Hd] Hmax. unfold consume. change (sc_bomDecided (with_hashed value st)) with (sc_bomDecided st).
  pose proof (zlen_nonneg content) as H0. pose proof (zlen_nonneg value) as H1.
  destruct (Z.le_gt_cases 3 (zlen content)) as [H3|H3].
  - destruct (Hd H3) as (-> & Hb & Hf). pose proof (text_of_length (content ++ value)) as Hle.
    rewrite text_of_app in Hle by done.
    pose proof (feedText_spec value (with_hashed value st) _ (fed_with_hashed _ value _ Hf) ltac:(lia)) as Hs.
    destruct (feedText _ _) as [st'|e].
    + destruct Hs as [Hf' (E1 & _ & E3 & E4)]. split; [rewrite E1; cbn; by rewrite Hh|rewrite zlen_app; lia|]. intros _.
      rewrite marked_app, text_of_app by done. split; [by rewrite E3; apply Hd|]. split; [by rewrite E4|done].
    + destruct Hs as [-> Hq]. split; [done|]. intros q. rewrite text_of_app by done. apply Hq.
  - destruct (Ho H3) as (-> & Hp & Hb & Hf). cbn [sc_probe with_hashed]. rewrite Hp. cbv zeta.
    set (take := Z.min (3 - zlen content) (zlen value)). set (probe := content ++ ztake take value).
    assert (zlen probe = Z.min 3 (zlen content + zlen value)) as Hpl by (unfold probe, take; rewrite zlen_app, zlen_ztake; lia).
    assert (content ++ value = probe ++ zdrop take value) as Ecv by (unfold probe; by rewrite <-app_assoc, ztake_zdrop).
    destruct (Z.eqb_spec (zlen probe) 3) as [E3|Hlt]; cbn [negb].
    + assert (marked probe = bool_decide (probe = byteOrderMark)) as Em by (unfold marked; by rewrite ztake_all by lia).
      destruct (bool_decide (probe = byteOrderMark)) eqn:Hbom; cbn [res_bind].
      * apply bool_decide_eq_true in Hbom.
        assert (text_of probe = []) as Et by (unfold text_of; rewrite Em; apply zdrop_all; lia).
        assert (fed [] (with_probe [] true true (with_hashed value st))) as Hf' by (by apply fed_with_probe, fed_with_hashed).
        pose proof (feedText_spec (zdrop take value) _ [] Hf' ltac:(rewrite app_nil_l, zlen_zdrop; rewrite zlen_app in Hmax; lia)) as Hs.
        destruct (feedText _ _) as [st'|e].
        -- destruct Hs as [Hf2 (F1 & _ & F3 & F4)]. split; [rewrite F1; cbn; by rewrite Hh|rewrite zlen_app; lia|]. intros _.
           rewrite Ecv, marked_app, text_of_app, Et by lia. rewrite F3, F4, Em. by split_and!.
        -- destruct Hs as [-> Hq]. split; [done|]. intros q. rewrite app_assoc, Ecv, <-app_assoc, text_of_app, Et by lia. apply Hq.
      * assert (text_of probe = probe) as Et by (unfold text_of; by rewrite Em).
        assert (fed [] (with_probe probe true (sc_hasBOM (with_hashed value st)) (with_hashed value st))) as Hf'
          by (by apply fed_with_probe, fed_with_hashed).
        pose proof (feedText_spec probe _ [] Hf' ltac:(rewrite app_nil_l; unfold_ints; lia)) as Hs.
        destruct (feedText probe _) as [st1|e]; cbn [res_bind].
        2:{ destruct Hs as [-> Hq]. split; [done|]. intros q. rewrite app_assoc, Ecv, <-app_assoc, text_of_app, Et by lia. apply Hq. }
        destruct Hs as [Hf1 (F1 & _ & F3 & F4)]. rewrite app_nil_l in Hf1.
        pose proof (feedText_spec (zdrop take value) _ _ Hf1 ltac:(rewrite <-Ecv; lia)) as Hs2.
        destruct (feedText (zdrop take value) st1) as [st2|e].
        -- destruct Hs2 as [Hf2 (G1 & _ & G3 & G4)]. split; [rewrite G1, F1; cbn; by rewrite Hh|rewrite zlen_app; lia|]. intros _.
           rewrite Ecv, marked_app, text_of_app, Et by lia. rewrite G3, G4, F3, F4, Em. cbn. by rewrite Hb.
        -- destruct Hs2 as [-> Hq]. split; [done|]. intros q. rewrite app_assoc, Ecv, <-app_assoc, text_of_app, Et by lia. apply Hq.
    + assert (zdrop take value = []) as Ez by (apply zdrop_all; unfold take in *; lia). rewrite Ez in *. rewrite app_nil_r in Ecv.
      cbn [res_bind]. set (st1 := with_probe probe false _ _).
      assert (fed [] st1) as Hf' by (by apply fed_with_probe, fed_with_hashed).
      pose proof (feedText_spec [] st1 [] Hf' ltac:(vm_compute; congruence)) as Hs.
      destruct (feedText [] st1) as [st'|e]; [|destruct Hs as [_ Hq]; specialize (Hq []); done].
      destruct Hs as [Hf2 (F1 & F2 & F3 & F4)]. rewrite Ecv. split; [by rewrite F1, <-Ecv; cbn; rewrite Hh| |lia]. intros _.
      rewrite F2, F3, F4. by split_and!.
Qed.

(** ** The read loop *)

Section ReadLoop.
Context {W : Type} (contextError : W -> W * option error) (file : readStatFile W) (content : list byte).

(** A read gives bytes of the content, at most as many as asked for; it may be
    short and it may fail. *)
Definition serves : Prop := forall n off w, 0 <= n -> 0 <= off ->
  let data := (rf_ReadAt file n off w).2.1 in zlen data <= n /\ data = slice off (zlen data) content.

(** No read fails or is short, and the context stays alive. *)
Definition plain : Prop :=
  (forall w, (contextError w).2 = None) /\
  forall n off w, 0 < n -> 0 <= off -> off + n <= zlen content -> (rf_ReadAt file n off w).2 = (slice off n content, None).

Lemma ztake_slice off n (l : list byte) : 0 <= off -> 0 <= n -> ztake off l ++ slice off n l = ztake (off + n) l.
Proof using.
  intros. unfold slice. destruct (Z.le_gt_cases off (zlen l)).
  - rewrite <-(ztake_zdrop off l) at 3. rewrite ztake_app_r by (rewrite zlen_ztake; lia). f_equal. f_equal. rewrite zlen_ztake. lia.
  - rewrite (zdrop_all off l), (ztake_all off l), (ztake_all (off + n) l), (ztake_all n []), app_nil_r by (rewrite ?zlen_nil; lia). done.
Qed.

Lemma slice_end off (data : list byte) : 0 <= off -> data = slice off (zlen data) content -> 0 < zlen data -> off + zlen data <= zlen content.
Proof using.
  intros H0 E Hpos. apply (f_equal zlen) in E. unfold slice in E. rewrite zlen_ztake, zlen_zdrop in E. lia.
Qed.

Lemma read_loop_spec {A} (feed : list byte -> A -> Prelude.result A) (P : list byte -> A -> Prop) (Q : error -> Prop) size :
  serves ->
  (forall c value a, P c a -> (exists rest, ztake size content = c ++ value ++ rest) ->
     match feed value a with Ok a' => P (c ++ value) a' | Err e => Q e end) ->
  forall fuel off a w w' r,
  read_loop contextError file fuel feed size off a w = (w', r) ->
  0 <= off <= size -> (Z.to_nat (size - off) < fuel)%nat -> off <= zlen content -> P (ztake off content) a ->
  match r with
  | Ok a' => size <= zlen content /\ P (ztake size content) a'
  | Err e => Q e \/ ~ (plain /\ size <= zlen content)
  end.
Proof using.
  intros Hserve Hfeed. induction fuel as [|fuel IH]; intros off a w w' r H Hoff Hfuel Hle HP; [lia|]. cbn [read_loop] in H.
  destruct (Z.leb_spec size off) as [Hge|Hlt].
  { injection H as _ <-. replace size with off by lia. by split. }
  split_eff H; apply eff_call_inv in Hc as (ce & Hc & E).
  { right. intros [[Hctx _] _]. specialize (Hctx w). rewrite Hc in Hctx. cbn in Hctx. by subst ce. }
  clear E Hc. set (want := Z.min scanBufferSize (size - off)) in H.
  assert (0 < want <= size - off) as Hw by (unfold want, scanBufferSize; lia).
  unfold eff_bind at 1 in H. pose proof (Hserve want off w0 ltac:(lia) ltac:(lia)) as Hs.
  assert (plain /\ size <= zlen content -> (rf_ReadAt file want off w0).2 = (slice off want content, None)) as Hplain
    by (intros [[_ Hr] ?]; apply Hr; lia).
  destruct (rf_ReadAt file want off w0) as [w1 [value readErr]]. cbn [fst snd] in *. destruct Hs as [Hn Hv].
  pose proof (zlen_nonneg value) as Hv0. unfold eff_bind at 1, eff_lift at 1 in H. destruct (Z.ltb_spec 0 (zlen value)) as [Hpos|Hz].
  - pose proof (slice_end off value ltac:(lia) Hv Hpos) as Hend.
    assert (ztake (off + zlen value) content = ztake off content ++ value) as Et by (rewrite Hv at 2; symmetry; apply ztake_slice; lia).
    assert (exists rest, ztake size content = ztake off content ++ value ++ rest) as Hrest.
    { exists (slice (off + zlen value) (size - (off + zlen value)) content). rewrite app_assoc, <-Et, ztake_slice by lia. f_equal. lia. }
    pose proof (Hfeed _ value a HP Hrest) as Hf. destruct (feed value a) as [a'|e]; [|injection H as _ <-; by left].
    rewrite <-Et in Hf. rewrite (proj2 (Z.eqb_neq (zlen value) 0)) in H by lia. cbn [andb] in H.
    assert (forall w2, read_loop contextError file fuel feed size (off + zlen value) a' w2 = (w', r) ->
      match r with Ok a'' => size <= zlen content /\ P (ztake size content) a'' | Err e => Q e \/ ~ (plain /\ size <= zlen content) end) as Hgo
      by (intros w2 H2; apply (IH _ _ _ _ _ H2); (lia || done)).
    destruct readErr as [e|]; [destruct (errors_Is e io_EOF && _)|]; [by eapply Hgo| |by eapply Hgo].
    injection H as _ <-. right. intros Hp. by specialize (Hplain Hp).
  - assert (value = []) as -> by (apply zlen_zero; lia).
    assert (~ (plain /\ size <= zlen content)) as Hno.
    { intros Hp. specialize (Hplain Hp). injection Hplain as E _. apply (f_equal zlen) in E. rewrite zlen_slice in E by lia.
      change (zlen []) with 0 in E. lia. }
    change (zlen []) with 0 in H. destruct readErr as [e|].
    + rewrite (proj2 (Z.eqb_neq off size)), andb_false_r in H by lia. injection H as _ <-. by right.
    + rewrite Z.eqb_refl, (proj2 (Z.ltb_lt off size)) in H by lia. injection H as _ <-. by right.
Qed.
End ReadLoop.

(** ** What a scan does to the state *)

Section Safe.
Context {W : Type} (R : W -> W -> Prop) `{!PreOrder R} (I : W -> Prop) (P : error -> Prop).
Hypothesis R_keeps : forall w w', R w w' -> I w -> I w'.
Context (contextError : W -> W * option error) (file : readStatFile W) (path : list byte) (stat : list byte -> Eff W FileInfo).
Context (capture : readStatFile W -> FileInfo -> Eff W fileChangeStamp) (sha256 : list byte -> list byte).
Hypothesis Hctx : safely R I P (eff_call contextError).
Hypothesis Hread : forall n off w w' v e, rf_ReadAt file n off w = (w', (v, e)) -> I w -> R w w' /\ forall e', e = Some e' -> P e'.
Hypotheses (Hstat : safely R I P (rf_Stat file)) (Hpath : safely R I P (stat path)) (Hcap : forall i, safely R I P (capture file i)).
Hypotheses (P_eof : P io_ErrUnexpectedEOF) (P_external : P document_ErrExternalChange).

Lemma read_loop_safely {A} (feed : list byte -> A -> Prelude.result A) size :
  (forall v a e, feed v a = Err e -> P e) ->
  forall fuel off a, safely R I P (read_loop contextError file fuel feed size off a).
Proof using PreOrder0 R_keeps Hctx Hread P_eof.
  intros Hfeed. induction fuel as [|fuel IH]; intros off a; cbn [read_loop]; [by apply safely_ret|].
  apply safely_if; [by apply safely_ret|]. apply safely_bind; [done|done|done|intros _].
  intros w w' r H HI. unfold eff_bind at 1 in H.
  destruct (rf_ReadAt file _ off w) as [w1 [value readErr]] eqn:Hr. destruct (Hread _ _ _ _ _ _ Hr HI) as [H1 He].
  revert H. match goal with |- ?c w1 = _ -> _ => enough (safely R I P c) as Hs end.
  { intros H. destruct (Hs _ _ _ H (R_keeps _ _ H1 HI)) as [? ?]. split; [by etransitivity|done]. }
  apply safely_bind; [done|done| |].
  - apply safely_lift; [done|]. intros e. destruct (0 <? zlen value); [apply Hfeed|done].
  - intros a'. destruct readErr as [e|]; repeat (apply safely_if; [|]); try apply IH; apply safely_fail; auto.
Qed.

Lemma scanDiskIdentityOpened_safely :
  safely R I P (scanDiskIdentityOpenedWithChange contextError file path stat capture sha256).
Proof using PreOrder0 R_keeps Hctx Hread Hstat Hpath Hcap P_eof P_external.
  unfold scanDiskIdentityOpenedWithChange. apply safely_bind; [done|done|done|intros initial].
  apply safely_if; [by apply safely_fail|]. apply safely_bind; [done|done|apply Hcap|intros change].
  apply safely_bind; [done|done|by apply read_loop_safely|intros hashed].
  do 2 (apply safely_bind; [done|done|done|intros ?]). apply safely_bind; [done|done|apply Hcap|intros ?].
  apply safely_if; [by apply safely_fail|by apply safely_ret].
Qed.
End Safe.

(** ** Properties *)

Section Results.
Context {W : Type} (contextError : W -> W * option error) (file : readStatFile W) (content : list byte).
Context (path : list byte) (stat : list byte -> Eff W FileInfo) (capture : readStatFile W -> FileInfo -> Eff W fileChangeStamp).
Context (sha256 : list byte -> list byte).

(** The system describes the file the same way whenever it is asked. *)
Definition unchanged (info : FileInfo) (stamp : fileChangeStamp) : Prop :=
  (forall w, (rf_Stat file w).2 = Ok info) /\ (forall w, (stat path w).2 = Ok info) /\ (forall i w, (capture file i w).2 = Ok stamp).

(** What a scan of a file of [size] bytes reports. *)
Definition scan_of (size : Z) : baseScan :=
  let c := ztake size content in
  mkBaseScan size (sha256 c) (marked c) (boolOffset (marked c) 3) (count_newlines (text_of c)) (detectEOL (text_of c)).

Lemma sameFileVersion_refl info : sameFileVersion info info = true.
Proof using. unfold sameFileVersion. by rewrite !Z.eqb_refl. Qed.
Lemma sameFileChange_refl stamp : sameFileChange stamp stamp = true.
Proof using. unfold sameFileChange. rewrite eqb_reflx, !Z.eqb_refl. cbn. by destruct (st_available stamp). Qed.

Lemma scan_final size st :
  scanned (ztake size content) st -> size <= zlen content -> 0 <= size <= maxInt64 ->
  match (if sc_bomDecided st then Ok st else feedText (sc_probe st) st) with
  | Ok st' => Complete (sc_validator st') = utf8_Valid (text_of (ztake size content)) /\
      (Complete (sc_validator st') = true ->
       mkBaseScan size (sha256 (sc_hashed st')) (sc_hasBOM st') (boolOffset (sc_hasBOM st') 3) (sc_newlines st')
         (eol_style (sc_crlf st') (sc_lf st')) = scan_of size)
  | Err e => e = document_ErrInvalidUTF8 /\ utf8_Valid (text_of (ztake size content)) = false
  end.
Proof using.
  intros [Hh Ho Hd] Hle Hsz. set (c := ztake size content) in *. assert (zlen c = size) as Hc by (unfold c; rewrite zlen_ztake; lia).
  assert (forall st', fed (text_of c) st' -> sc_hashed st' = c -> sc_hasBOM st' = marked c ->
    Complete (sc_validator st') = utf8_Valid (text_of c) /\
    (Complete (sc_validator st') = true ->
     mkBaseScan size (sha256 (sc_hashed st')) (sc_hasBOM st') (boolOffset (sc_hasBOM st') 3) (sc_newlines st')
       (eol_style (sc_crlf st') (sc_lf st')) = scan_of size)) as Hall.
  { intros st' [Hp (d & E & Hv) -> -> -> _] -> ->. split; [|intros _; unfold scan_of; fold c; by rewrite detectEOL_crlfs].
    rewrite E, Valid_app by done. unfold Complete. destruct Hp as [-> |(_ & Hl & ->)]; [done|]. apply Z.eqb_neq. lia. }
  destruct (Z.le_gt_cases 3 (zlen c)) as [H3|H3].
  - destruct (Hd H3) as (-> & Hb & Hf). by apply Hall.
  - destruct (Ho H3) as (-> & Hp & Hb & Hf). rewrite Hp.
    assert (marked c = false) as Hm.
    { unfold marked. rewrite ztake_all by lia. apply bool_decide_eq_false_2. intros E. rewrite E in H3. by vm_compute in H3. }
    assert (text_of c = c) as Et by (unfold text_of; by rewrite Hm).
    pose proof (feedText_spec c st [] Hf ltac:(rewrite app_nil_l; unfold_ints; lia)) as Hs. destruct (feedText c st) as [st'|e].
    + destruct Hs as [Hf' (F1 & _ & _ & F4)]. apply Hall; [by rewrite Et|by rewrite F1|by rewrite F4, Hm].
    + destruct Hs as [-> Hq]. split; [done|]. rewrite Et. specialize (Hq []). by rewrite app_nil_l, app_nil_r in Hq.
Qed.

(** Both halves of the theorem below. *)
Lemma scanOpenedBase_spec initial w w' r :
  serves file content -> fi_Size initial <= maxInt64 ->
  scanOpenedBaseWithChange contextError file path stat capture sha256 initial w = (w', r) ->
  (forall b, r = Ok b -> 0 <= fi_Size initial <= zlen content /\
     utf8_Valid (text_of (ztake (fi_Size initial) content)) = true /\ b = scan_of (fi_Size initial)) /\
  (forall stamp, plain contextError file content -> unchanged initial stamp -> 0 <= fi_Size initial <= zlen content ->
     r = if utf8_Valid (text_of (ztake (fi_Size initial) content)) then Ok (scan_of (fi_Size initial)) else Err document_ErrInvalidUTF8).
Proof using.
  intros Hserve Hmax H. set (size := fi_Size initial) in *. unfold scanOpenedBaseWithChange in H. fold size in H.
  destruct (Z.ltb_spec size 0) as [Hneg|H0]; [injection H as _ <-; split; [done|]; lia|].
  split_eff H; [split; [done|]; intros stamp _ (_ & _ & Hcap) _; specialize (Hcap initial w); by rewrite Hc in Hcap|].
  assert (forall w1 w2 r1, read_loop contextError file (S (Z.to_nat size)) consume size 0 initialScan w1 = (w2, r1) ->
    match r1 with
    | Ok st => size <= zlen content /\ scanned (ztake size content) st
    | Err e => (e = document_ErrInvalidUTF8 /\ utf8_Valid (text_of (ztake size content)) = false) \/
        ~ (plain contextError file content /\ size <= zlen content)
    end) as Hloop.
  { intros w1 w2 r1 Hl. eapply (read_loop_spec contextError file content consume scanned _ size Hserve); [|exact Hl|lia|lia|pose proof (zlen_nonneg content); lia|apply scanned_initial].
    intros c value st Hsc [rest Er]. assert (zlen (c ++ value) <= maxInt64) as Hcv.
    { apply (f_equal zlen) in Er. rewrite zlen_ztake, !zlen_app in Er. rewrite zlen_app. pose proof (zlen_nonneg rest). lia. }
    pose proof (consume_spec value st c Hsc Hcv) as Hs. destruct (consume value st) as [st'|e]; [done|].
    destruct Hs as [-> Hq]. split; [done|]. by rewrite Er. }
  split_eff H; [specialize (Hloop _ _ _ Hc0); split; [done|]; intros stamp Hp _ [_ Hle]; destruct Hloop as [[-> ->]|Hn]; [done|by destruct Hn]|].
  destruct (Hloop _ _ _ Hc0) as [Hle Hsc]. clear Hloop Hc0. rename a0 into st, w1 into w2.
  pose proof (scan_final size st Hsc Hle (conj H0 Hmax)) as Hfin.
  split_eff H; unfold eff_lift in Hc0; destruct (if sc_bomDecided st then _ else _) as [st'|e1]; try done.
  { injection Hc0 as _ ->. destruct Hfin as [-> ->]. split; [done|]. intros. done. }
  injection Hc0 as _ ->. destruct Hfin as [Hcomp Hres]. rewrite Hcomp in H.
  destruct (utf8_Valid (text_of (ztake size content))) eqn:Hvalid; cbn [negb] in H; [|injection H as _ <-; split; [done|]; intros; done].
  specialize (Hres Hcomp).
  split_eff H; apply eff_call_inv in Hc0 as (ce & Hce & E).
  { split; [done|]. intros stamp [Hctx _] _ _. specialize (Hctx w1). rewrite Hce in Hctx. cbn in Hctx. by subst ce. }
  split_eff H; [split; [done|]; intros stamp _ (_ & Hst & _) _; specialize (Hst w3); by rewrite Hc0 in Hst|].
  rename a0 into scan, a1 into alive, a2 into pathInfo.
  split_eff H; [split; [done|]; intros stamp _ (Hst & _) _; specialize (Hst w4); by rewrite Hc1 in Hst|].
  split_eff H; [split; [done|]; intros stamp _ (_ & _ & Hst) _; specialize (Hst a0 w5); by rewrite Hc2 in Hst|].
  assert (forall stamp, unchanged initial stamp -> a = stamp /\ pathInfo = initial /\ a0 = initial /\ a1 = stamp) as Hsame.
  { intros stamp (S1 & S2 & S3). specialize (S3 initial w) as Sa. rewrite Hc in Sa. specialize (S2 w3). rewrite Hc0 in S2.
    specialize (S1 w4). rewrite Hc1 in S1. specialize (S3 a0 w5). rewrite Hc2 in S3. cbn in *. repeat split; congruence. }
  destruct (_ || _) eqn:Hcmp; injection H as _ <-.
  - split; [done|]. intros stamp _ Hun _. destruct (Hsame stamp Hun) as (-> & -> & -> & ->). fold size in Hcmp.
    by rewrite !sameFileVersion_refl, sameFileChange_refl in Hcmp.
  - rewrite Hres. split; [|done]. intros b [= <-]. by split_and!.
Qed.

(** C40. Scanning a base file in one pass finds what reading it whole would.
    Whatever the lengths of the reads, their failures, the cancellation and what
    the system says about the file: a scan that succeeds reports the size it was
    given, the hash of exactly that many bytes, whether they start with a byte
    order mark and where the text after it starts, the line breaks of the text
    and its line-ending style as [detectEOL] tells it from the whole text, and the
    text is valid UTF-8.  When no read fails and the file does not change, the
    scan succeeds exactly for valid texts and refuses all others as invalid. *)
Theorem scanOpenedBase_correct initial w w' r :
  serves file content -> fi_Size initial <= maxInt64 ->
  scanOpenedBaseWithChange contextError file path stat capture sha256 initial w = (w', r) ->
  (forall b, r = Ok b -> 0 <= fi_Size initial <= zlen content /\
     utf8_Valid (text_of (ztake (fi_Size initial) content)) = true /\ b = scan_of (fi_Size initial)) /\
  (forall stamp, plain contextError file content -> unchanged initial stamp -> 0 <= fi_Size initial <= zlen content ->
     r = if utf8_Valid (text_of (ztake (fi_Size initial) content)) then Ok (scan_of (fi_Size initial)) else Err document_ErrInvalidUTF8).
Proof using. apply scanOpenedBase_spec. Qed.

(** The identity of a file: the hash of the bytes the system says it has. *)
Lemma scanDiskIdentity_hash w w' i :
  serves file content ->
  scanDiskIdentityOpenedWithChange contextError file path stat capture sha256 w = (w', Ok i) ->
  exists info w1 w2, rf_Stat file w1 = (w2, Ok info) /\ id_size i = fi_Size info /\
    (0 <= id_size i -> id_size i <= zlen content /\ id_contentHash i = sha256 (ztake (id_size i) content)).
Proof using.
  intros Hserve H. unfold scanDiskIdentityOpenedWithChange in H. remember (Ok i) as r eqn:Hr.
  split_eff H; [done|]. destruct (negb (fi_Regular a)); [injection H as _ <-; done|]. split_eff H; [done|]. split_eff H; [done|].
  assert (0 <= fi_Size a -> fi_Size a <= zlen content /\ a1 = ztake (fi_Size a) content) as Hread.
  { intros H0. pose proof (read_loop_spec contextError file content (fun value hashed => Ok (hashed ++ value))
      (fun c hashed => hashed = c) (fun _ => False) (fi_Size a) Hserve) as Hl.
    specialize (Hl ltac:(intros c value h -> _; done) _ _ _ _ _ _ Hc1 ltac:(lia) ltac:(lia) (zlen_nonneg _)
      ltac:(by rewrite ztake_0)). exact Hl. }
  split_eff H; [done|]. split_eff H; [done|]. split_eff H; [done|].
  destruct (negb (sameFileVersion a a3) || _ || _) eqn:Hcmp; injection H as _ <-; [done|]. injection Hr as <-. cbn.
  apply orb_false_iff in Hcmp as [[Hv _]%orb_false_iff _]. apply negb_false_iff in Hv. unfold sameFileVersion in Hv.
  apply andb_prop in Hv as [[E%Z.eqb_eq _]%andb_prop _]. exists a, w, w0. rewrite <-E. split; [done|]. split; [done|].
  intros H0. destruct (Hread H0) as [? ->]. done.
Qed.
End Results.

(** A file that never changes, under a context that never dies. *)
Definition ex_info (content : list byte) : FileInfo := mkFileInfo (zlen content) 0 true 1.
Definition ex_file (content : list byte) : readStatFile unit :=
  mkReadStatFile unit (fun n off w => (w, (slice off n content, None))) (fun w => (w, Ok (ex_info content))).
Lemma ex_file_serves content : serves (ex_file content) content.
Proof.
  intros n off w H0 H1. cbn. unfold slice. rewrite zlen_ztake. split; [lia|].
  destruct (Z.le_gt_cases n (zlen (zdrop off content))); [f_equal; lia|]. rewrite !ztake_all by lia. done.
Qed.
Definition ex_content : list byte := byteOrderMark ++ [Byte.x61; carriageReturn; newline; Byte.x62; newline].

Lemma scanOpenedBase_correct_witness :
  (scanOpenedBaseWithChange (fun w => (w, None)) (ex_file ex_content) [] (fun _ w => (w, Ok (ex_info ex_content)))
     (fun _ _ w => (w, Ok (mkStamp 0 0 false))) (fun c => c) (ex_info ex_content) tt).2 =
  Ok (mkBaseScan 8 ex_content true 3 2 EOLMixed).
Proof.
  destruct (scanOpenedBase_correct (fun w => (w, None)) (ex_file ex_content) ex_content [] (fun _ w => (w, Ok (ex_info ex_content)))
    (fun _ _ w => (w, Ok (mkStamp 0 0 false))) (fun c => c) (ex_info ex_content) tt _ _
    (ex_file_serves ex_content)
    ltac:(vm_compute; congruence) (surjective_pairing _)) as [_ H].
  rewrite (H (mkStamp 0 0 false)); [vm_compute; reflexivity| | |vm_compute; split; congruence].
  - split; [reflexivity|]. intros n off w _ _ _. reflexivity.
  - split; [reflexivity|]. split; reflexivity.
Defined.
