(* ===== verification/Session.v ===== *)
(** * document/session.go: the state of a session and its editing operations

    The session's record, the monad its locked operations are written in, the
    staging of a batch, its commit through the recovery journal, undo and redo, and
    the replay of a journal at open.  Every operation runs under [s.mu], so each
    is one atomic step.  What the operating system does to the journal and the
    undo file is in their fault scripts (File); a context is polled
    (GoLib), so cancellation can strike at every check. *)

From Stdlib Require Import ZArith Lia List.
From stdpp Require Import base list numbers gmap.
From S2P Require Import Prelude GoLib Store File Journal ChangeMap ChangeHistory Events UndoStore Utf8 Options.
#[local] Open Scope Z_scope.

(** ** Data *)

Record ReplaceOperation := mkReplace { Start : Z; DeleteLength : Z; Insert : list byte }.

Record ApplyResult := mkApplyResult { Revision : Z; ByteLength : Z; Dirty : bool; Changes : ChangeMap }.

Record historyOperation := mkHistoryOperation { ho_start : Z; ho_deleteLength : Z; ho_insert : textRef }.
Record historyEntry := mkHistoryEntry { he_forward : list historyOperation; he_inverse : list historyOperation }.

Record pendingOperation := mkPending {
  po_revision : Z; po_group : Z; po_start : Z; po_deleteLength : Z;
  po_insertOffset : Z; po_insertLength : Z; po_insertNewlines : Z }.

Record stagedOperation := mkStaged { so_operation : ReplaceOperation; so_inserted : list byte; so_deleted : list byte }.

Definition stagingSourceID : Z := 255.

(** The fields of [Session] that its locked operations use.  [s_lifecycle] is
    [context.Cause(s.lifecycleContext)], [s_checkpointRequest] what the one-slot
    channel holds. *)
Record Session := mkSession {
  s_path : list byte; s_resolvedPath : list byte; s_name : list byte; s_config : SessionConfig;
  s_fingerprint : Fingerprint; s_hasBOM : bool; s_eol : EOLStyle; s_tree : Tree; s_journal : option Journal;
  s_journalBytes : Z; s_undo : list historyEntry; s_redo : list historyEntry; s_undoStore : option undoStore;
  s_undoEpoch : Z; s_pending : list pendingOperation; s_revision : Z; s_committedRevision : Z; s_dirty : bool;
  s_recovered : bool; s_changeHistory : changeHistory; s_events : eventHub; s_nextJournalCheckpoint : Z;
  s_automaticCheckpoints : Z; s_automaticCheckpointPending : bool; s_checkpointRequest : list Z;
  s_journalSyncErr : option error; s_durabilityUncertain : bool; s_fault : option error;
  s_lifecycle : option error; s_closed : bool }.

Definition set_tree (v : Tree) (s : Session) : Session :=
  mkSession (s_path s) (s_resolvedPath s) (s_name s) (s_config s) (s_fingerprint s) (s_hasBOM s) (s_eol s) v
    (s_journal s) (s_journalBytes s) (s_undo s) (s_redo s) (s_undoStore s) (s_undoEpoch s) (s_pending s)
    (s_revision s) (s_committedRevision s) (s_dirty s) (s_recovered s) (s_changeHistory s) (s_events s)
    (s_nextJournalCheckpoint s) (s_automaticCheckpoints s) (s_automaticCheckpointPending s) (s_checkpointRequest
    s) (s_journalSyncErr s) (s_durabilityUncertain s) (s_fault s) (s_lifecycle s) (s_closed s).
Definition set_journal (v : option Journal) (s : Session) : Session :=
  mkSession (s_path s) (s_resolvedPath s) (s_name s) (s_config s) (s_fingerprint s) (s_hasBOM s) (s_eol s)
    (s_tree s) v (s_journalBytes s) (s_undo s) (s_redo s) (s_undoStore s) (s_undoEpoch s) (s_pending s)
    (s_revision s) (s_committedRevision s) (s_dirty s) (s_recovered s) (s_changeHistory s) (s_events s)
    (s_nextJournalCheckpoint s) (s_automaticCheckpoints s) (s_automaticCheckpointPending s) (s_checkpointRequest
    s) (s_journalSyncErr s) (s_durabilityUncertain s) (s_fault s) (s_lifecycle s) (s_closed s).
Definition set_journalBytes (v : Z) (s : Session) : Session :=
  mkSession (s_path s) (s_resolvedPath s) (s_name s) (s_config s) (s_fingerprint s) (s_hasBOM s) (s_eol s)
    (s_tree s) (s_journal s) v (s_undo s) (s_redo s) (s_undoStore s) (s_undoEpoch s) (s_pending s) (s_revision
    s) (s_committedRevision s) (s_dirty s) (s_recovered s) (s_changeHistory s) (s_events s)
    (s_nextJournalCheckpoint s) (s_automaticCheckpoints s) (s_automaticCheckpointPending s) (s_checkpointRequest
    s) (s_journalSyncErr s) (s_durabilityUncertain s) (s_fault s) (s_lifecycle s) (s_closed s).
Definition set_undo (v : list historyEntry) (s : Session) : Session :=
  mkSession (s_path s) (s_resolvedPath s) (s_name s) (s_config s) (s_fingerprint s) (s_hasBOM s) (s_eol s)
    (s_tree s) (s_journal s) (s_journalBytes s) v (s_redo s) (s_undoStore s) (s_undoEpoch s) (s_pending s)
    (s_revision s) (s_committedRevision s) (s_dirty s) (s_recovered s) (s_changeHistory s) (s_events s)
    (s_nextJournalCheckpoint s) (s_automaticCheckpoints s) (s_automaticCheckpointPending s) (s_checkpointRequest
    s) (s_journalSyncErr s) (s_durabilityUncertain s) (s_fault s) (s_lifecycle s) (s_closed s).
Definition set_redo (v : list historyEntry) (s : Session) : Session :=
  mkSession (s_path s) (s_resolvedPath s) (s_name s) (s_config s) (s_fingerprint s) (s_hasBOM s) (s_eol s)
    (s_tree s) (s_journal s) (s_journalBytes s) (s_undo s) v (s_undoStore s) (s_undoEpoch s) (s_pending s)
    (s_revision s) (s_committedRevision s) (s_dirty s) (s_recovered s) (s_changeHistory s) (s_events s)
    (s_nextJournalCheckpoint s) (s_automaticCheckpoints s) (s_automaticCheckpointPending s) (s_checkpointRequest
    s) (s_journalSyncErr s) (s_durabilityUncertain s) (s_fault s) (s_lifecycle s) (s_closed s).
Definition set_undoStore (v : option undoStore) (s : Session) : Session :=
  mkSession (s_path s) (s_resolvedPath s) (s_name s) (s_config s) (s_fingerprint s) (s_hasBOM s) (s_eol s)
    (s_tree s) (s_journal s) (s_journalBytes s) (s_undo s) (s_redo s) v (s_undoEpoch s) (s_pending s)
    (s_revision s) (s_committedRevision s) (s_dirty s) (s_recovered s) (s_changeHistory s) (s_events s)
    (s_nextJournalCheckpoint s) (s_automaticCheckpoints s) (s_automaticCheckpointPending s) (s_checkpointRequest
    s) (s_journalSyncErr s) (s_durabilityUncertain s) (s_fault s) (s_lifecycle s) (s_closed s).
Definition set_undoEpoch (v : Z) (s : Session) : Session :=
  mkSession (s_path s) (s_resolvedPath s) (s_name s) (s_config s) (s_fingerprint s) (s_hasBOM s) (s_eol s)
    (s_tree s) (s_journal s) (s_journalBytes s) (s_undo s) (s_redo s) (s_undoStore s) v (s_pending s)
    (s_revision s) (s_committedRevision s) (s_dirty s) (s_recovered s) (s_changeHistory s) (s_events s)
    (s_nextJournalCheckpoint s) (s_automaticCheckpoints s) (s_automaticCheckpointPending s) (s_checkpointRequest
    s) (s_journalSyncErr s) (s_durabilityUncertain s) (s_fault s) (s_lifecycle s) (s_closed s).
Definition set_pending (v : list pendingOperation) (s : Session) : Session :=
  mkSession (s_path s) (s_resolvedPath s) (s_name s) (s_config s) (s_fingerprint s) (s_hasBOM s) (s_eol s)
    (s_tree s) (s_journal s) (s_journalBytes s) (s_undo s) (s_redo s) (s_undoStore s) (s_undoEpoch s) v
    (s_revision s) (s_committedRevision s) (s_dirty s) (s_recovered s) (s_changeHistory s) (s_events s)
    (s_nextJournalCheckpoint s) (s_automaticCheckpoints s) (s_automaticCheckpointPending s) (s_checkpointRequest
    s) (s_journalSyncErr s) (s_durabilityUncertain s) (s_fault s) (s_lifecycle s) (s_closed s).
Definition set_revision (v : Z) (s : Session) : Session :=
  mkSession (s_path s) (s_resolvedPath s) (s_name s) (s_config s) (s_fingerprint s) (s_hasBOM s) (s_eol s)
    (s_tree s) (s_journal s) (s_journalBytes s) (s_undo s) (s_redo s) (s_undoStore s) (s_undoEpoch s) (s_pending
    s) v (s_committedRevision s) (s_dirty s) (s_recovered s) (s_changeHistory s) (s_events s)
    (s_nextJournalCheckpoint s) (s_automaticCheckpoints s) (s_automaticCheckpointPending s) (s_checkpointRequest
    s) (s_journalSyncErr s) (s_durabilityUncertain s) (s_fault s) (s_lifecycle s) (s_closed s).
Definition set_committedRevision (v : Z) (s : Session) : Session :=
  mkSession (s_path s) (s_resolvedPath s) (s_name s) (s_config s) (s_fingerprint s) (s_hasBOM s) (s_eol s)
    (s_tree s) (s_journal s) (s_journalBytes s) (s_undo s) (s_redo s) (s_undoStore s) (s_undoEpoch s) (s_pending
    s) (s_revision s) v (s_dirty s) (s_recovered s) (s_changeHistory s) (s_events s) (s_nextJournalCheckpoint s)
    (s_automaticCheckpoints s) (s_automaticCheckpointPending s) (s_checkpointRequest s) (s_journalSyncErr s)
    (s_durabilityUncertain s) (s_fault s) (s_lifecycle s) (s_closed s).
Definition set_dirty (v : bool) (s : Session) : Session :=
  mkSession (s_path s) (s_resolvedPath s) (s_name s) (s_config s) (s_fingerprint s) (s_hasBOM s) (s_eol s)
    (s_tree s) (s_journal s) (s_journalBytes s) (s_undo s) (s_redo s) (s_undoStore s) (s_undoEpoch s) (s_pending
    s) (s_revision s) (s_committedRevision s) v (s_recovered s) (s_changeHistory s) (s_events s)
    (s_nextJournalCheckpoint s) (s_automaticCheckpoints s) (s_automaticCheckpointPending s) (s_checkpointRequest
    s) (s_journalSyncErr s) (s_durabilityUncertain s) (s_fault s) (s_lifecycle s) (s_closed s).
Definition set_recovered (v : bool) (s : Session) : Session :=
  mkSession (s_path s) (s_resolvedPath s) (s_name s) (s_config s) (s_fingerprint s) (s_hasBOM s) (s_eol s)
    (s_tree s) (s_journal s) (s_journalBytes s) (s_undo s) (s_redo s) (s_undoStore s) (s_undoEpoch s) (s_pending
    s) (s_revision s) (s_committedRevision s) (s_dirty s) v (s_changeHistory s) (s_events s)
    (s_nextJournalCheckpoint s) (s_automaticCheckpoints s) (s_automaticCheckpointPending s) (s_checkpointRequest
    s) (s_journalSyncErr s) (s_durabilityUncertain s) (s_fault s) (s_lifecycle s) (s_closed s).
Definition set_changeHistory (v : changeHistory) (s : Session) : Session :=
  mkSession (s_path s) (s_resolvedPath s) (s_name s) (s_config s) (s_fingerprint s) (s_hasBOM s) (s_eol s)
    (s_tree s) (s_journal s) (s_journalBytes s) (s_undo s) (s_redo s) (s_undoStore s) (s_undoEpoch s) (s_pending
    s) (s_revision s) (s_committedRevision s) (s_dirty s) (s_recovered s) v (s_events s)
    (s_nextJournalCheckpoint s) (s_automaticCheckpoints s) (s_automaticCheckpointPending s) (s_checkpointRequest
    s) (s_journalSyncErr s) (s_durabilityUncertain s) (s_fault s) (s_lifecycle s) (s_closed s).
Definition set_events (v : eventHub) (s : Session) : Session :=
  mkSession (s_path s) (s_resolvedPath s) (s_name s) (s_config s) (s_fingerprint s) (s_hasBOM s) (s_eol s)
    (s_tree s) (s_journal s) (s_journalBytes s) (s_undo s) (s_redo s) (s_undoStore s) (s_undoEpoch s) (s_pending
    s) (s_revision s) (s_committedRevision s) (s_dirty s) (s_recovered s) (s_changeHistory s) v
    (s_nextJournalCheckpoint s) (s_automaticCheckpoints s) (s_automaticCheckpointPending s) (s_checkpointRequest
    s) (s_journalSyncErr s) (s_durabilityUncertain s) (s_fault s) (s_lifecycle s) (s_closed s).
Definition set_nextJournalCheckpoint (v : Z) (s : Session) : Session :=
  mkSession (s_path s) (s_resolvedPath s) (s_name s) (s_config s) (s_fingerprint s) (s_hasBOM s) (s_eol s)
    (s_tree s) (s_journal s) (s_journalBytes s) (s_undo s) (s_redo s) (s_undoStore s) (s_undoEpoch s) (s_pending
    s) (s_revision s) (s_committedRevision s) (s_dirty s) (s_recovered s) (s_changeHistory s) (s_events s) v
    (s_automaticCheckpoints s) (s_automaticCheckpointPending s) (s_checkpointRequest s) (s_journalSyncErr s)
    (s_durabilityUncertain s) (s_fault s) (s_lifecycle s) (s_closed s).
Definition set_automaticCheckpoints (v : Z) (s : Session) : Session :=
  mkSession (s_path s) (s_resolvedPath s) (s_name s) (s_config s) (s_fingerprint s) (s_hasBOM s) (s_eol s)
    (s_tree s) (s_journal s) (s_journalBytes s) (s_undo s) (s_redo s) (s_undoStore s) (s_undoEpoch s) (s_pending
    s) (s_revision s) (s_committedRevision s) (s_dirty s) (s_recovered s) (s_changeHistory s) (s_events s)
    (s_nextJournalCheckpoint s) v (s_automaticCheckpointPending s) (s_checkpointRequest s) (s_journalSyncErr s)
    (s_durabilityUncertain s) (s_fault s) (s_lifecycle s) (s_closed s).
Definition set_automaticCheckpointPending (v : bool) (s : Session) : Session :=
  mkSession (s_path s) (s_resolvedPath s) (s_name s) (s_config s) (s_fingerprint s) (s_hasBOM s) (s_eol s)
    (s_tree s) (s_journal s) (s_journalBytes s) (s_undo s) (s_redo s) (s_undoStore s) (s_undoEpoch s) (s_pending
    s) (s_revision s) (s_committedRevision s) (s_dirty s) (s_recovered s) (s_changeHistory s) (s_events s)
    (s_nextJournalCheckpoint s) (s_automaticCheckpoints s) v (s_checkpointRequest s) (s_journalSyncErr s)
    (s_durabilityUncertain s) (s_fault s) (s_lifecycle s) (s_closed s).
Definition set_checkpointRequest (v : list Z) (s : Session) : Session :=
  mkSession (s_path s) (s_resolvedPath s) (s_name s) (s_config s) (s_fingerprint s) (s_hasBOM s) (s_eol s)
    (s_tree s) (s_journal s) (s_journalBytes s) (s_undo s) (s_redo s) (s_undoStore s) (s_undoEpoch s) (s_pending
    s) (s_revision s) (s_committedRevision s) (s_dirty s) (s_recovered s) (s_changeHistory s) (s_events s)
    (s_nextJournalCheckpoint s) (s_automaticCheckpoints s) (s_automaticCheckpointPending s) v (s_journalSyncErr
    s) (s_durabilityUncertain s) (s_fault s) (s_lifecycle s) (s_closed s).
Definition set_journalSyncErr (v : option error) (s : Session) : Session :=
  mkSession (s_path s) (s_resolvedPath s) (s_name s) (s_config s) (s_fingerprint s) (s_hasBOM s) (s_eol s)
    (s_tree s) (s_journal s) (s_journalBytes s) (s_undo s) (s_redo s) (s_undoStore s) (s_undoEpoch s) (s_pending
    s) (s_revision s) (s_committedRevision s) (s_dirty s) (s_recovered s) (s_changeHistory s) (s_events s)
    (s_nextJournalCheckpoint s) (s_automaticCheckpoints s) (s_automaticCheckpointPending s) (s_checkpointRequest
    s) v (s_durabilityUncertain s) (s_fault s) (s_lifecycle s) (s_closed s).
Definition set_fingerprint (v : Fingerprint) (s : Session) : Session :=
  mkSession (s_path s) (s_resolvedPath s) (s_name s) (s_config s) v (s_hasBOM s) (s_eol s) (s_tree s)
    (s_journal s) (s_journalBytes s) (s_undo s) (s_redo s) (s_undoStore s) (s_undoEpoch s) (s_pending s)
    (s_revision s) (s_committedRevision s) (s_dirty s) (s_recovered s) (s_changeHistory s) (s_events s)
    (s_nextJournalCheckpoint s) (s_automaticCheckpoints s) (s_automaticCheckpointPending s)
    (s_checkpointRequest s) (s_journalSyncErr s) (s_durabilityUncertain s) (s_fault s) (s_lifecycle s)
    (s_closed s).
Definition set_durabilityUncertain (v : bool) (s : Session) : Session :=
  mkSession (s_path s) (s_resolvedPath s) (s_name s) (s_config s) (s_fingerprint s) (s_hasBOM s) (s_eol s)
    (s_tree s) (s_journal s) (s_journalBytes s) (s_undo s) (s_redo s) (s_undoStore s) (s_undoEpoch s)
    (s_pending s) (s_revision s) (s_committedRevision s) (s_dirty s) (s_recovered s) (s_changeHistory s)
    (s_events s) (s_nextJournalCheckpoint s) (s_automaticCheckpoints s) (s_automaticCheckpointPending s)
    (s_checkpointRequest s) (s_journalSyncErr s) v (s_fault s) (s_lifecycle s) (s_closed s).
Definition set_fault (v : option error) (s : Session) : Session :=
  mkSession (s_path s) (s_resolvedPath s) (s_name s) (s_config s) (s_fingerprint s) (s_hasBOM s) (s_eol s)
    (s_tree s) (s_journal s) (s_journalBytes s) (s_undo s) (s_redo s) (s_undoStore s) (s_undoEpoch s)
    (s_pending s) (s_revision s) (s_committedRevision s) (s_dirty s) (s_recovered s) (s_changeHistory s)
    (s_events s) (s_nextJournalCheckpoint s) (s_automaticCheckpoints s) (s_automaticCheckpointPending s)
    (s_checkpointRequest s) (s_journalSyncErr s) (s_durabilityUncertain s) v (s_lifecycle s) (s_closed s).

Ltac session_simpl :=
  cbn [s_path s_resolvedPath s_name s_config s_fingerprint s_hasBOM s_eol s_tree s_journal s_journalBytes s_undo s_redo s_undoStore s_undoEpoch s_pending s_revision s_committedRevision s_dirty s_recovered s_changeHistory s_events s_nextJournalCheckpoint s_automaticCheckpoints s_automaticCheckpointPending s_checkpointRequest s_journalSyncErr s_durabilityUncertain s_fault s_lifecycle s_closed
    set_tree set_journal set_journalBytes set_undo set_redo set_undoStore set_undoEpoch set_pending set_revision set_committedRevision set_dirty set_recovered set_changeHistory set_events set_nextJournalCheckpoint set_automaticCheckpoints set_automaticCheckpointPending set_checkpointRequest set_journalSyncErr set_fingerprint set_durabilityUncertain set_fault].
Ltac session_simpl_in H :=
  cbn [s_path s_resolvedPath s_name s_config s_fingerprint s_hasBOM s_eol s_tree s_journal s_journalBytes s_undo s_redo s_undoStore s_undoEpoch s_pending s_revision s_committedRevision s_dirty s_recovered s_changeHistory s_events s_nextJournalCheckpoint s_automaticCheckpoints s_automaticCheckpointPending s_checkpointRequest s_journalSyncErr s_durabilityUncertain s_fault s_lifecycle s_closed
    set_tree set_journal set_journalBytes set_undo set_redo set_undoStore set_undoEpoch set_pending set_revision set_committedRevision set_dirty set_recovered set_changeHistory set_events set_nextJournalCheckpoint set_automaticCheckpoints set_automaticCheckpointPending set_checkpointRequest set_journalSyncErr set_fingerprint set_durabilityUncertain set_fault] in H.


(** ** The monad of locked operations

    A computation maps the session and the number of context polls made so far to
    their new values and a result; state changes made before an error stay. *)

Definition M (A : Type) : Type := Session -> nat -> Session * nat * result A.

Definition ret {A} (a : A) : M A := fun s k => (s, k, Ok a).
Definition fail {A} (e : error) : M A := fun s k => (s, k, Err e).
Definition bind {A B} (c : M A) (f : A -> M B) : M B := fun s k =>
  let '(s, k, r) := c s k in
  match r with Ok a => f a s k | Err e => (s, k, Err e) end.
Definition get : M Session := fun s k => (s, k, Ok s).
Definition modify (f : Session -> Session) : M unit := fun s k => (f s, k, Ok tt).
Definition lift {A} (r : result A) : M A := fun s k => (s, k, r).

Notation "'do' x <- c ; k" := (bind c (fun x => k))
  (at level 200, x pattern, c at level 100, k at level 200, right associativity) : go_scope.

(** [contextError(ctx)] *)
Definition check (ctx : Context) : M unit := fun s k =>
  match ctx k with Some e => (s, S k, Err e) | None => (s, S k, Ok tt) end.

(** ** The journal behind the tree *)

Definition journal_data (j : Journal) : list byte := match j_file j with Some f => f_bytes f | None => [] end.

Section Operations.

(** How the operating system answers the reads the piece tree makes of the
    journal's file: [os.File.ReadAt] over the file's bytes. *)
Variable journal_reads : list byte -> ReaderAt.

Definition alias (t : Tree) (j : Journal) : Tree :=
  SetSource t SourceJournal (Some (journal_reads (journal_data j))).

(** The tree's source map holds the journal itself: when the journal changes, so
    does what the tree reads. *)
Definition use_journal (j : Journal) (s : Session) : Session :=
  set_tree (alias (s_tree s) j) (set_journal (Some j) s).

Definition with_journal {A} (f : Journal -> Journal * result A) : M A := fun s k =>
  match s_journal s with
  | None => (s, k, Err recovery_ErrClosed)
  | Some j => let '(j, r) := f j in (use_journal j s, k, r)
  end.

(** [errors.Join(err, s.journal.RepairTail(offset))] around a failed step. *)
Definition repairing {A} (offset : Z) (c : M A) : M A := fun s k =>
  let '(s, k, r) := c s k in
  match r, s_journal s with
  | Err e, Some j =>
    let '(j, repairErr) := RepairTail j offset in
    (use_journal j s, k, Err (match repairErr with Some e' => errJoin e e' | None => e end))
  | _, _ => (s, k, r)
  end.

(** ** Reading and validating the tree *)

Definition readTreeRange (tree : Tree) (start length : Z) : result (list byte) :=
  if length =? 0 then Ok [] else
  let '(buffer, err) := Tree_ReadAt tree length start in
  match err with
  | Some e => if errors_Is e io_EOF && (zlen buffer =? length) then Ok buffer else Err e
  | None => Ok buffer
  end.

(** One pass of the loop of [validateUTF8ReplacementBoundaries].  A read of one
    byte without an error returns it, so the last case cannot arise. *)
Definition validate_offset (tree : Tree) (offset : Z) : result unit :=
  if (offset =? 0) || (offset =? Tree_Len tree) then Ok tt else
  let? value := readTreeRange tree offset 1 in
  match value with
  | b :: _ => if utf8_RuneStart b then Ok tt else Err document_ErrInvalidUTF8Boundary
  | [] => Err io_ErrUnexpectedEOF
  end.

Definition validateUTF8ReplacementBoundaries (tree : Tree) (start deleteLength : Z) : result unit :=
  let end_ := start ⊞ deleteLength in
  let? _ := validate_offset tree start in
  if end_ =? start then Ok tt else validate_offset tree end_.

Definition cloneDocumentTree (source : Tree) : Tree :=
  match New None 0 with
  | Ok clone => Restore clone (Tree_Snapshot source)
  | Err _ => source
  end.

(** ** Staging *)

Definition insert_piece (source offset : Z) (inserted : list byte) : Piece :=
  if 0 <? zlen inserted
  then mkPiece source offset (zlen inserted) (count_newlines inserted) true
  else zeroPiece.

(** The loop of [stageOperationsLocked]. *)
Fixpoint stage_loop (ctx : Context) (maxInsertBytes : Z) (stagedTree : Tree) (stagingBytes : list byte)
  (operations : list ReplaceOperation) (result : list stagedOperation) : M (list stagedOperation) :=
  match operations with
  | [] => ret result
  | op :: operations =>
    do _ <- check ctx;
    if negb (utf8_Valid (Insert op)) then fail document_ErrInvalidUTF8 else
    if maxInsertBytes <? zlen (Insert op) then fail (errWrap 2 document_ErrLimitExceeded) else
    let length := Tree_Len stagedTree in
    if (Start op <? 0) || (DeleteLength op <? 0) || (length <? Start op) || (length ⊟ Start op <? DeleteLength op)
    then fail store_ErrInvalidRange else
    do _ <- lift (validateUTF8ReplacementBoundaries stagedTree (Start op) (DeleteLength op));
    do deleted <- lift (readTreeRange stagedTree (Start op) (DeleteLength op));
    let inserted := Insert op in
    let offset := zlen stagingBytes in
    let stagingBytes := stagingBytes ++ inserted in
    let stagedTree := SetSource stagedTree stagingSourceID (Some (bytes_NewReader stagingBytes)) in
    let '(stagedTree, r) := ReplacePiece stagedTree (Start op) (DeleteLength op)
                              (insert_piece stagingSourceID offset inserted) in
    do _ <- lift r;
    stage_loop ctx maxInsertBytes stagedTree stagingBytes operations (result ++ [mkStaged op inserted deleted])
  end.

Definition stageOperationsLocked (ctx : Context) (operations : list ReplaceOperation) : M (list stagedOperation) :=
  do s <- get;
  stage_loop ctx (MaxInsertBytes (Limits (s_config s))) (cloneDocumentTree (s_tree s)) [] operations [].

Definition checkJournalQuota (currentBytes batchBytes maximumBytes : Z) : result unit :=
  if currentBytes <=? maximumBytes ⊟ batchBytes then Ok tt else Err (errWrap 3 document_ErrLimitExceeded).

(** ** The journal of a session *)

(** What the system answers when a journal file is created: its path (with the
    random suffix) and the outcomes of [os.MkdirAll], [os.OpenFile], [os.Remove]. *)
Record JournalSetup := mkSetup {
  js_path : list byte; js_mkdirAll : option error; js_openFile : Prelude.result file; js_remove : option error }.

Definition ensureJournalLocked (setup : JournalSetup) : M unit := fun s k =>
  match s_journal s with
  | Some _ => (s, k, Ok tt)
  | None =>
    let '(_, r) := openJournal (js_path setup) (s_fingerprint s) (js_mkdirAll setup) (js_openFile setup) in
    match r with
    | Err e => (s, k, Err e)
    | Ok (journal, _) =>
      let '(journal, size) := Size journal in
      match size with
      | Err e =>
        let '(_, closeErr) := Journal.Close journal in
        (s, k, Err (match errors_Join closeErr (js_remove setup) with Some e' => errJoin e e' | None => e end))
      | Ok size => (set_journalBytes size (use_journal journal s), k, Ok tt)
      end
    end
  end.

(** ** Undo texts *)

Definition historyText (value : list byte) : M textRef := fun s k =>
  let '(store, (ref, err)) := UndoStore.append (s_undoStore s) value in
  let s := set_undoStore store s in
  match err with
  | None => (s, k, Ok ref)
  | Some e =>
    if negb (errors_Is e document_errUndoQuota) then (s, k, Err e) else
    let s := set_undoEpoch (s_undoEpoch s ⊕ 1) (set_redo [] (set_undo [] s)) in
    let '(store, err) := UndoStore.reset (s_undoStore s) in
    let s := set_undoStore store s in
    match err with
    | Some e => (s, k, Err e)
    | None =>
      let '(store, (ref, err)) := UndoStore.append (s_undoStore s) value in
      let s := set_undoStore store s in
      match err with
      | None => (s, k, Ok ref)
      | Some e => if errors_Is e document_errUndoQuota then (s, k, Ok zeroRef) else (s, k, Err e)
      end
    end
  end.

Fixpoint materializeHistory (ctx : Context) (source : list historyOperation) : M (list ReplaceOperation) :=
  match source with
  | [] => ret []
  | operation :: source =>
    do _ <- check ctx;
    do insert <- (fun s k => let '(store, r) := UndoStore.read (s_undoStore s) (ho_insert operation) in
                             (set_undoStore store s, k, r));
    do rest <- materializeHistory ctx source;
    ret (mkReplace (ho_start operation) (ho_deleteLength operation) insert :: rest)
  end.

(** ** Checkpoints *)

Definition nextCheckpointThreshold (current threshold : Z) : Z :=
  if maxInt64 ⊟ threshold <? current then maxInt64 else current ⊞ threshold.

Definition resetJournalCheckpointLocked (s : Session) : Session :=
  set_nextJournalCheckpoint (AutoCheckpointJournalBytes (s_config s)) s.

Definition maybeScheduleJournalCheckpointLocked (s : Session) : Session :=
  let threshold := AutoCheckpointJournalBytes (s_config s) in
  if (threshold =? 0) || s_closed s || isSome (s_lifecycle s) || isSome (s_fault s) || negb (isSome (s_journal s)) ||
     (s_journalBytes s <? s_nextJournalCheckpoint s) || s_automaticCheckpointPending s
  then s
  else
    set_checkpointRequest (s_checkpointRequest s ++ [s_revision s])
      (set_automaticCheckpointPending true
        (set_nextJournalCheckpoint (nextCheckpointThreshold (s_journalBytes s) threshold) s)).

(** ** Events *)

Definition metadataLocked (s : Session) : Metadata :=
  mkMetadata (s_path s) (s_resolvedPath s) (s_name s) (Tree_Len (s_tree s)) (s_revision s) (s_committedRevision s)
    (s_dirty s) (s_recovered s) (s_hasBOM s) (s_eol s) (s_durabilityUncertain s) (isSome (s_journalSyncErr s))
    (isSome (s_fault s)).

Definition session_event (s : Session) (kind : EventKind) (origin : ChangeOrigin) (changes : ChangeMap)
  (cause : option error) : SessionEvent :=
  mkSessionEvent 0 0 kind origin (metadataLocked s) changes (mkPersistenceProgress 0 0 0 0 false)
    (mkCompactionProgress 0 0 0 0 0 false false)
    (mkProgress 0 ProgressNone ProgressIdle 0 0 0 0 0 0 false false None) cause.

(** [takes] is what the consumers receive while the event is offered (Events). *)
Definition publishEventLocked (takes : Z -> list nat) (kind : EventKind) (origin : ChangeOrigin)
  (changes : ChangeMap) (cause : option error) (s : Session) : Session :=
  set_events (publish takes (s_events s) (session_event s kind origin changes cause)) s.

(** ** Committing a batch *)

(** The second loop of [applyOperationsLocked]: the staged edits on a clone of
    the tree, with the payload offsets of the journal. *)
Fixpoint replay_staged (ctx : Context) (finalTree : Tree) (staged : list stagedOperation) (offsets : list Z)
  : M Tree :=
  match staged with
  | [] => ret finalTree
  | operation :: staged =>
    do _ <- check ctx;
    let '(finalTree, r) := ReplacePiece finalTree (Start (so_operation operation)) (DeleteLength (so_operation operation))
                             (insert_piece SourceJournal (hd 0 offsets) (so_inserted operation)) in
    do _ <- lift r;
    replay_staged ctx finalTree staged (tl offsets)
  end.

(** The history loop: the entry of the batch, its inverse in reverse order. *)
Fixpoint record_entry (ctx : Context) (staged : list stagedOperation) (entry : historyEntry) : M historyEntry :=
  match staged with
  | [] => ret entry
  | operation :: staged =>
    do _ <- check ctx;
    do forwardRef <- historyText (so_inserted operation);
    do inverseRef <- historyText (so_deleted operation);
    record_entry ctx staged
      (mkHistoryEntry
         (he_forward entry ++ [mkHistoryOperation (Start (so_operation operation)) (DeleteLength (so_operation operation)) forwardRef])
         (mkHistoryOperation (Start (so_operation operation)) (zlen (so_inserted operation)) inverseRef :: he_inverse entry))
  end.

Definition emptyEntry : historyEntry := mkHistoryEntry [] [].

Fixpoint pending_of (revision group : Z) (staged : list stagedOperation) (offsets : list Z) : list pendingOperation :=
  match staged with
  | [] => []
  | operation :: staged =>
    mkPending revision group (Start (so_operation operation)) (DeleteLength (so_operation operation))
      (hd 0 offsets) (zlen (so_inserted operation)) (count_newlines (so_inserted operation))
    :: pending_of (revision ⊕ 1) group staged (tl offsets)
  end.

Definition edit_of (operation : stagedOperation) : Edit :=
  mkEdit (Start (so_operation operation)) (DeleteLength (so_operation operation)) (zlen (so_inserted operation)).
Definition recovery_op (operation : stagedOperation) : Journal.ReplaceOperation :=
  Journal.mkReplaceOperation (Start (so_operation operation)) (DeleteLength (so_operation operation)) (so_inserted operation).

(** The result of a call whose error the code drops: the zero value stands in. *)
Definition or_zero {A} (zero : A) (r : result A) : A := match r with Ok a => a | Err _ => zero end.

(** The assignments that publish a commit. *)
Definition commit_state (finalTree : Tree) (appendResult : BatchAppendResult) (staged : list stagedOperation)
  (group : Z) (entry : historyEntry) (epoch : Z) (recordHistory : bool) (s : Session) : Session :=
  let s := set_tree finalTree (set_journalBytes (EndOffset appendResult) s) in
  let s := set_pending (s_pending s ++ pending_of (s_revision s ⊕ 1) group staged (PayloadOffsets appendResult)) s in
  let s := set_revision (s_revision s ⊕ zlen staged) s in
  let s := set_dirty (s_committedRevision s <? s_revision s) s in
  let s := if recordHistory && (epoch =? s_undoEpoch s)
           then set_redo [] (set_undo (s_undo s ++ [entry]) s) else s in
  maybeScheduleJournalCheckpointLocked s.

Definition applyOperationsLocked (ctx : Context) (setup : JournalSetup) (operations : list ReplaceOperation)
  (recordHistory : bool) : M ChangeMap :=
  do s <- get;
  if u64 (maxUint64 - zlen operations) <? s_revision s then fail document_ErrRevisionOverflow else
  let beforeRevision := s_revision s in
  let beforeLength := Tree_Len (s_tree s) in
  let group := s_revision s ⊕ 1 in
  let epoch := s_undoEpoch s in
  do staged <- stageOperationsLocked ctx operations;
  let changes := or_zero zeroChangeMap
                   (NewChangeMap beforeRevision (beforeRevision ⊕ zlen staged) beforeLength (map edit_of staged)) in
  do _ <- check ctx;
  let recoveryOperations := map recovery_op staged in
  let batchBytes := or_zero 0 (BatchEncodedSize (s_revision s ⊕ 1) group recoveryOperations) in
  let maximum := MaxJournalBytes (Limits (s_config s)) in
  do _ <- lift (checkJournalQuota (match s_journal s with None => EmptyJournalBytes | Some _ => s_journalBytes s end)
                  batchBytes maximum);
  do _ <- check ctx;
  do _ <- ensureJournalLocked setup;
  do s <- get;
  do _ <- lift (checkJournalQuota (s_journalBytes s) batchBytes maximum);
  do appendResult <- with_journal (fun j => AppendBatch j (s_revision s ⊕ 1) group recoveryOperations);
  let offsets := PayloadOffsets appendResult in
  do finalTree_entry <- repairing (BatchOffset appendResult)
    (do _ <- check ctx;
     do s <- get;
     do finalTree <- replay_staged ctx (cloneDocumentTree (s_tree s)) staged offsets;
     do entry <- (if recordHistory then record_entry ctx staged emptyEntry else ret emptyEntry);
     ret (finalTree, entry));
  let '(finalTree, entry) := finalTree_entry in
  do _ <- modify (commit_state finalTree appendResult staged group entry epoch recordHistory);
  ret changes.

(** ** The public operations *)

(** [operationContext]: a nil context and a closing session are refused.  The
    merged context the operation polls also reports the cancellation of the
    session, so it is the one the caller of the model supplies. *)
Definition operationContext (ctx : option Context) : M Context := fun s k =>
  match ctx with
  | None => (s, k, Err document_ErrInvalidContext)
  | Some ctx => if isSome (s_lifecycle s) then (s, k, Err document_ErrClosed) else (s, k, Ok ctx)
  end.

Definition guard_open : M unit := fun s k =>
  if s_closed s || isSome (s_lifecycle s) then (s, k, Err document_ErrClosed) else (s, k, Ok tt).
Definition guard_fault : M unit := fun s k =>
  match s_fault s with Some e => (s, k, Err (errJoin document_ErrFaulted e)) | None => (s, k, Ok tt) end.

Definition record_change (takes : Z -> list nat) (origin : ChangeOrigin) (changes : ChangeMap) (s : Session) : Session :=
  let s := set_changeHistory (ChangeHistory.append (s_changeHistory s) changes) s in
  publishEventLocked takes EventChanged origin changes None s.

Definition ApplyBatch (takes : Z -> list nat) (setup : JournalSetup) (ctx : option Context) (expectedRevision : Z)
  (operations : list ReplaceOperation) : M ApplyResult :=
  do ctx <- operationContext ctx;
  do _ <- guard_open;
  do _ <- guard_fault;
  do s <- get;
  if negb (expectedRevision =? s_revision s) then fail document_ErrRevisionConflict else
  if zlen operations =? 0 then
    ret (mkApplyResult (s_revision s) (Tree_Len (s_tree s)) (s_dirty s)
           (or_zero zeroChangeMap (Identity (s_revision s) (Tree_Len (s_tree s))))) else
  do _ <- check ctx;
  if MaxBatchOperations (Limits (s_config s)) <? zlen operations then fail (errWrap 1 document_ErrLimitExceeded) else
  do changes <- applyOperationsLocked ctx setup operations true;
  do _ <- modify (record_change takes ChangeOriginApply changes);
  do s <- get;
  ret (mkApplyResult (s_revision s) (Tree_Len (s_tree s)) (s_dirty s) changes).

(** The last element of a stack, and the stack without it. *)
Definition top (l : list historyEntry) : option historyEntry := last l.
Definition pop (l : list historyEntry) : list historyEntry := removelast l.

Definition UndoContext (takes : Z -> list nat) (setup : JournalSetup) (ctx : option Context) : M ApplyResult :=
  do ctx <- operationContext ctx;
  do _ <- guard_open;
  do _ <- check ctx;
  do _ <- guard_fault;
  do s <- get;
  match top (s_undo s) with
  | None => fail document_ErrNothingToUndo
  | Some entry =>
    do operations <- materializeHistory ctx (he_inverse entry);
    do changes <- applyOperationsLocked ctx setup operations false;
    do _ <- modify (fun s => set_redo (s_redo s ++ [entry]) (set_undo (pop (s_undo s)) s));
    do _ <- modify (record_change takes ChangeOriginUndo changes);
    do s <- get;
    ret (mkApplyResult (s_revision s) (Tree_Len (s_tree s)) true changes)
  end.

Definition RedoContext (takes : Z -> list nat) (setup : JournalSetup) (ctx : option Context) : M ApplyResult :=
  do ctx <- operationContext ctx;
  do _ <- guard_open;
  do _ <- check ctx;
  do _ <- guard_fault;
  do s <- get;
  match top (s_redo s) with
  | None => fail document_ErrNothingToRedo
  | Some entry =>
    do operations <- materializeHistory ctx (he_forward entry);
    do changes <- applyOperationsLocked ctx setup operations false;
    do _ <- modify (fun s => set_undo (s_undo s ++ [entry]) (set_redo (pop (s_redo s)) s));
    do _ <- modify (record_change takes ChangeOriginRedo changes);
    do s <- get;
    ret (mkApplyResult (s_revision s) (Tree_Len (s_tree s)) true changes)
  end.

(** ** Replay at open *)

(** What a failed replay reports: the message only differs. *)
Definition zeroJournalRevision : error := errMsg 30.
Definition nonMonotonicBatch : error := errMsg 31.

(** The payload of one journal operation, through [recovery.Journal.ReadAt]. *)
Definition read_payload (operation : Operation) : M (list byte) :=
  if 0 <? op_InsertLength operation then
    fun s k =>
      match s_journal s with
      | None => (s, k, Err recovery_ErrClosed)
      | Some j =>
        let '(j, (inserted, readErr)) := Journal.ReadAt j (op_InsertLength operation) (op_PayloadOffset operation) in
        (use_journal j s, k,
         match readErr with
         | Some e => if errors_Is e io_EOF && (zlen inserted =? op_InsertLength operation) then Ok inserted else Err e
         | None => if zlen inserted =? op_InsertLength operation then Ok inserted else Err io_ErrUnexpectedEOF
         end)
      end
  else ret [].

Definition journal_piece (operation : Operation) (inserted : list byte) : Piece :=
  if 0 <? op_InsertLength operation
  then mkPiece SourceJournal (op_PayloadOffset operation) (op_InsertLength operation) (count_newlines inserted) true
  else zeroPiece.

Definition replay_operation (revision group : Z) (operation : Operation) (entry : historyEntry) : M historyEntry :=
  do s <- get;
  do deleted <- lift (readTreeRange (s_tree s) (op_Start operation) (op_DeleteLength operation));
  do _ <- lift (match validateUTF8ReplacementBoundaries (s_tree s) (op_Start operation) (op_DeleteLength operation) with
                | Err e => Err (errWrap 4 e) | Ok x => Ok x end);
  do inserted <- read_payload operation;
  if negb (utf8_Valid inserted) then fail (errWrap 4 document_ErrInvalidUTF8) else
  do forwardRef <- historyText inserted;
  do inverseRef <- historyText deleted;
  do s <- get;
  let '(tree, r) := ReplacePiece (s_tree s) (op_Start operation) (op_DeleteLength operation)
                      (journal_piece operation inserted) in
  do _ <- modify (set_tree tree);
  do _ <- lift (match r with Err e => Err (errWrap 4 e) | Ok x => Ok x end);
  do _ <- modify (fun s => set_revision revision (set_pending (s_pending s ++
            [mkPending revision group (op_Start operation) (op_DeleteLength operation) (op_PayloadOffset operation)
               (op_InsertLength operation) (count_newlines inserted)]) s));
  ret (mkHistoryEntry
         (he_forward entry ++ [mkHistoryOperation (op_Start operation) (op_DeleteLength operation) forwardRef])
         (mkHistoryOperation (op_Start operation) (op_InsertLength operation) inverseRef :: he_inverse entry)).

Fixpoint replay_operations (revision group : Z) (operations : list Operation) (entry : historyEntry) : M historyEntry :=
  match operations with
  | [] => ret entry
  | operation :: operations =>
    do entry <- replay_operation revision group operation entry;
    replay_operations (revision ⊕ 1) group operations entry
  end.

(** One batch; the first one sets the committed revision. *)
Definition replay_batch (first : bool) (batch : Batch) : M unit :=
  do _ <- (if first then
             if b_FirstRevision batch =? 0 then fail zeroJournalRevision
             else modify (fun s => set_revision (b_FirstRevision batch ⊖ 1) (set_committedRevision (b_FirstRevision batch ⊖ 1) s))
           else ret tt);
  do s <- get;
  if negb (b_FirstRevision batch =? s_revision s ⊕ 1) || (b_Group batch =? 0) || (zlen (b_Operations batch) =? 0)
  then fail nonMonotonicBatch else
  do entry <- replay_operations (b_FirstRevision batch) (b_Group batch) (b_Operations batch) emptyEntry;
  modify (fun s => set_undo (s_undo s ++ [entry]) s).

Fixpoint replay_batches (first : bool) (batches : list Batch) : M unit :=
  match batches with
  | [] => ret tt
  | batch :: batches => do _ <- replay_batch first batch; replay_batches false batches
  end.

Definition replay (result : ReplayResult) : M unit :=
  do _ <- replay_batches true (rr_Batches result);
  if 0 <? zlen (rr_Batches result) then modify (fun s => set_recovered true (set_dirty true s)) else ret tt.

End Operations.
