(* ===== verification/TreeText.v ===== *)
(** * What the piece tree promises to its clients

    A tree holds a text when its invariant holds, every piece lies in a source
    that serves it, and the pieces spell the text.  The lemmas of this file are
    the interface through which the session is verified: reading a range,
    replacing one, cloning, and the growth of a source. *)

From Stdlib Require Import ZArith Lia List.
From stdpp Require Import base list numbers gmap.
From S2P Require Import Prelude GoLib Store.
#[local] Open Scope Z_scope.

(** [D] gives each source its bytes. *)
Abbreviation Texts := (Z -> list byte).

Definition served (D : Texts) (sources : Sources) (p : Piece) : Prop :=
  in_range D p /\ exists r, sources !! p_Source p = Some r /\ ReaderOk r (D (p_Source p)).

Record holds (D : Texts) (t : Tree) (doc : list byte) : Prop := mkHolds {
  ho_wf : tree_wf t;
  ho_served : Forall (served D (t_sources t)) (pieces (t_root t));
  ho_text : content D (pieces (t_root t)) = doc }.

(** ** Predicates of pieces that cutting and merging keep *)

Section Kept.
Variable P : Piece -> Prop.
Hypothesis P_fragment : forall p off len,
  piece_wf p -> P p -> 0 < len -> p_Offset p <= off -> off + len <= p_Offset p + p_Length p -> P (unknownNewlines p off len).
Hypothesis P_merged : forall a p, piece_wf a -> piece_wf p -> mergeable a p = true -> P a -> P p -> P (merged a p).

Lemma cut_kept ps pos :
  Forall piece_wf ps -> Forall P ps -> Forall P (cut ps pos).1 /\ Forall P (cut ps pos).2.
Proof.
  intros Hwf HP. revert pos. induction HP as [|p ps Hp HP IH]; intros pos; [by split|]. cbn [cut].
  apply Forall_cons in Hwf as [Hpw Hwf]. pose proof Hpw as (Hl & Ho & Hm & _).
  destruct (Z.leb_spec pos 0); [by split; [|constructor]|]. destruct (Z.leb_spec (p_Length p) pos).
  - destruct (IH Hwf (pos - p_Length p)). destruct (cut ps (pos - p_Length p)). cbn [fst snd] in *.
    by split; [constructor|].
  - cbn [fst snd]. unwrap64_goal. split; (constructor; [apply P_fragment; (done || lia)|done || by constructor]).
Qed.

Lemma coalesce_kept ps : pieces_wf ps -> Forall P ps -> Forall P (coalesce ps).
Proof.
  intros [Hf Hs] HP. apply Forall_rev.
  assert (forall acc, Forall piece_wf acc -> Forall P acc -> sum_len acc + sum_len ps <= maxInt64 ->
    Forall P (fold_left compact_step ps acc)) as H; [|apply H; (constructor || done)].
  clear Hs. induction HP as [|p ps Hp HP IH]; intros acc Hacc HPa Hs; [done|]. cbn [fold_left sum_len] in *.
  apply Forall_cons in Hf as [Hpw Hf]. pose proof (sum_len_nonneg ps Hf).
  destruct (compact_step_ok acc p) as (H1 & H2 & _); [done|done|lia|]. apply IH; [done|done| |lia].
  destruct acc as [|a acc]; [by apply Forall_singleton|].
  apply Forall_cons in Hacc as [Ha Hacc]. apply Forall_cons in HPa as [HPa1 HPa]. cbn [sum_len] in Hs.
  pose proof (sum_len_nonneg acc Hacc). rewrite compact_step_cons by (auto; lia).
  destruct (mergeable a p) eqn:Hm; constructor; auto.
Qed.

Lemma maintained_kept t :
  tree_wf t -> Forall P (pieces (t_root t)) -> Forall P (pieces (t_root (maybeAutoCompactLocked t))).
Proof.
  intros [Hn Hh Hr Hs] HP. unfold maybeAutoCompactLocked.
  destruct (t_autoCompactPieces t =? 0); [done|]. destruct (_ <? t_autoCompactPieces t); [done|].
  destruct (_ <? t_nextAutoCompactPieces t); [done|].
  pose proof (compactLocked_ok t Hn Hh Hr) as Hk. destruct (compactLocked t) as [t1 r].
  destruct Hk as (_ & _ & _ & _ & _ & _ & Hp & _).
  assert (forall t k, t_root (scheduleNextAutoCompactLocked t k) = t_root t) as ->
    by (intros; unfold scheduleNextAutoCompactLocked; repeat case_match; done).
  cbn [t_root]. rewrite Hp. destruct (_ <? 2); [done|]. by apply coalesce_kept; [apply Hn|].
Qed.

Lemma replaced_kept t start del p :
  tree_wf t -> replace_guard t start del p = None -> Forall P (pieces (t_root t)) -> (0 < p_Length p -> P (normalizePiece p)) ->
  Forall P (pieces (t_root (maybeAutoCompactLocked (replaced t start del p)))).
Proof.
  intros Ht Hg HP Hnew. destruct (replaced_ok t start del p Ht Hg) as (Hwf & _ & Hps). apply maintained_kept; [exact Hwf|].
  assert (0 <= start <= sum_len (pieces (t_root t))) as H0.
  { unfold replace_guard in Hg. destruct (Z.leb_spec 0 start), (Z.leb_spec 0 del), (Z.leb_spec (start + del) (sum_len (pieces (t_root t)))); try done. lia. }
  rewrite Hps. assert (Forall piece_wf (pieces (t_root t))) as Hpw by apply Ht.
  destruct (cut_kept (pieces (t_root t)) start Hpw HP) as [Hc1 Hc2].
  destruct (cut_wf (pieces (t_root t)) start Hpw H0) as (_ & Hw2 & _).
  destruct (cut_kept _ del Hw2 Hc2) as [_ Hc3].
  repeat apply Forall_app_2; [done| |done]. unfold inserted_pieces.
  destruct (Z.ltb_spec 0 (p_Length p)) as [Hpos|]; [|constructor]. apply Forall_singleton. auto.
Qed.

Lemma replace_kept t start del p :
  tree_wf t -> piece_typed p -> Forall P (pieces (t_root t)) -> (0 < p_Length p -> P (normalizePiece p)) ->
  Forall P (pieces (t_root (ReplacePiece t start del p).1)).
Proof.
  intros Ht Hp HP Hnew. rewrite ReplacePiece_unfold by (apply Ht || done). destruct (replace_guard t start del p) eqn:Hg; [done|].
  destruct (_ && _); [done|]. by apply replaced_kept.
Qed.
End Kept.

Lemma served_fragment D sources p off len :
  piece_wf p -> served D sources p -> 0 < len -> p_Offset p <= off -> off + len <= p_Offset p + p_Length p ->
  served D sources (unknownNewlines p off len).
Proof.
  intros (? & ? & ? & _) [(? & ? & ?) Hr] ? ? ?. split; [|exact Hr]. unfold in_range. cbn. lia.
Qed.

Lemma served_merged D sources a p :
  piece_wf a -> piece_wf p -> mergeable a p = true -> served D sources a -> served D sources p -> served D sources (merged a p).
Proof.
  intros (? & ? & _) (? & ? & _) [E1%Z.eqb_eq E2%Z.eqb_eq]%andb_prop [(? & ? & ?) Hr] [(? & ? & Hp) _].
  split; [|exact Hr]. unfold in_range. cbn. rewrite E1 in *. lia.
Qed.

(** ** The interface *)

Lemma holds_length D t doc : holds D t doc -> Tree_Len t = zlen doc /\ zlen doc <= maxInt64.
Proof.
  intros [[[Hc [Hf Hs]] _ _ _] Hserve <-]. unfold Tree_Len. rewrite nodeBytes_ok by done.
  rewrite zlen_content; [done|]. apply (Forall_impl _ (in_range D) _ Hserve). by intros p [? _].
Qed.

Lemma holds_range D t doc : holds D t doc -> Forall (in_range D) (pieces (t_root t)).
Proof. intros [_ H _]. apply (Forall_impl _ (in_range D) _ H). by intros p [? _]. Qed.

Lemma holds_snapshot D t doc : holds D t doc -> snapshot_content D (Tree_Snapshot t) = doc.
Proof. by intros [_ _ H]. Qed.

Lemma holds_reader D t doc : holds D t doc -> ReaderOk (fun off n => Tree_ReadAt t n off) doc.
Proof. intros [Hwf Hs <-]. apply (Snapshot_ReaderOk D (Tree_Snapshot t)); [apply Hwf|exact Hs]. Qed.

Lemma cloneRestore D t clone doc :
  holds D t doc -> tree_wf clone -> holds D (Restore clone (Tree_Snapshot t)) doc.
Proof.
  intros [[Hn Hh _ _] Hs Ht] [_ _ Hr Hsch]. split; [|exact Hs|exact Ht].
  split; [exact Hn|exact Hh|exact Hr|]. unfold schedule_ok in *. cbn. destruct Hsch as [[H1 H2]|H]; [by left|right; lia].
Qed.

(** A replacement by a piece of a registered source. *)
Lemma holds_replace D t doc start del p :
  holds D t doc -> piece_typed p -> 0 <= start -> 0 <= del -> start + del <= zlen doc ->
  piece_valid (normalizePiece p) = true -> 0 <= p_Length p -> (0 < p_Length p -> served D (t_sources t) p) ->
  match ReplacePiece t start del p with
  | (t', Ok _) => holds D t' (splice start del (piece_bytes D p) doc) /\ t_sources t' = t_sources t
  | (t', Err e) => t' = t /\ e = store_ErrLengthOverflow /\ maxInt64 < zlen doc - del + p_Length p
  end.
Proof.
  intros Hh Hp H0 H1 H2 Hv Hl Hserve. destruct (holds_length _ _ _ Hh) as [Hlen Hmax].
  pose proof (holds_range _ _ _ Hh) as HD. destruct Hh as [Ht Hs Hc].
  assert (sum_len (pieces (t_root t)) = zlen doc) as Hsum by (rewrite <-Hc, zlen_content by done; done).
  rewrite ReplacePiece_unfold by (apply Ht || done). destruct (replace_guard t start del p) as [e|] eqn:Hg.
  - split; [done|]. unfold replace_guard in Hg. rewrite Hsum, Hv in Hg.
    rewrite (proj2 (Z.leb_le 0 start)), (proj2 (Z.leb_le 0 del)), (proj2 (Z.leb_le _ (zlen doc))) in Hg by lia.
    cbn [andb negb] in Hg. destruct (Z.ltb_spec 0 (p_Length p)) as [Hpos|Hz].
    + destruct (Hserve Hpos) as [_ (r & Hr & _)]. rewrite Hr in Hg. cbn in Hg.
      destruct (Z.ltb_spec maxInt64 (zlen doc - del + p_Length p)); [|done]. by injection Hg as <-.
    + cbn [andb] in Hg. destruct (Z.ltb_spec maxInt64 (zlen doc - del + p_Length p)); [|done]. by injection Hg as <-.
  - destruct ((del =? 0) && (p_Length p =? 0)) eqn:Hz.
    + apply andb_prop in Hz as [->%Z.eqb_eq Hz%Z.eqb_eq]. split; [|done]. split; [done|done|].
      unfold splice, piece_bytes. rewrite Hz, slice_nil_len, Z.add_0_r, app_nil_l, ztake_zdrop by lia. done.
    + destruct (replaced_ok t start del p Ht Hg) as (Hwf & [Hs1 Hs2] & Hps).
      destruct (maybeAutoCompact_ok _ Hwf) as (Hwf' & [Hs3 Hs4] & _ & Hcc & _). cbn zeta.
      split; [|congruence]. split; [done| |by rewrite Hcc, replaced_content, Hc by done].
      rewrite Hs3, Hs1. apply replaced_kept; [apply served_fragment|apply served_merged|exact Ht|exact Hg|exact Hs|]. intros Hpos.
      destruct (Hserve Hpos) as [(? & ? & ?) Hr]. unfold normalizePiece.
      destruct (p_NewlinesKnown p); (split; [unfold in_range; cbn; lia|exact Hr]).
Qed.

(** Another reader for a source, which grew at its end or lost only bytes that no
    piece of the tree uses. *)
Lemma holds_SetSource D D' t doc id r :
  holds D t doc -> (forall i, i <> id -> D' i = D i) -> ReaderOk r (D' id) ->
  (forall p, In p (pieces (t_root t)) -> p_Source p = id ->
     p_Offset p + p_Length p <= zlen (D' id) /\ piece_bytes D' p = piece_bytes D p) ->
  holds D' (SetSource t id (Some r)) doc.
Proof.
  intros [Ht Hs <-] Hother Hr Hgrow. split; [by apply SetSource_wf| |].
  - cbn [SetSource t_root t_sources]. apply List.Forall_forall. intros p Hp.
    assert (served D (t_sources t) p) as [(? & ? & ?) (r' & Hr' & Hok)].
    { apply list_elem_of_In in Hp. by apply (proj1 (Forall_forall _ _) Hs). }
    destruct (decide (p_Source p = id)) as [E|E].
    + destruct (Hgrow p Hp E) as [Hle _]. split; [unfold in_range; rewrite E; lia|].
      exists r. rewrite E, lookup_insert_eq. done.
    + split; [unfold in_range; rewrite Hother by done; done|]. exists r'. rewrite lookup_insert_ne by done.
      by rewrite Hother.
  - cbn [SetSource t_root]. unfold content. f_equal. apply map_ext_in. intros p Hp.
    destruct (decide (p_Source p = id)) as [E|E]; [by apply Hgrow|].
    unfold piece_bytes. by rewrite Hother.
Qed.

(** A new tree over a piece of its base. *)
Lemma NewWithBasePiece_holds D r p o t :
  NewWithBasePieceOptions (Some r) p o = Ok t -> piece_typed p -> in_i64 (o_AutoCompactPieces o) ->
  ReaderOk r (D SourceBase) -> p_Offset p + p_Length p <= zlen (D SourceBase) ->
  holds D t (slice (p_Offset p) (p_Length p) (D SourceBase)).
Proof.
  intros H Hp Ho Hr Hle. destruct (NewWithBasePieceOptions_wf _ _ _ _ Hp Ho H) as (Hwf & Hs & Hc).
  split; [done| |apply Hc]. rewrite Hs. revert H. unfold NewWithBasePieceOptions.
  destruct (resolveOptions o) as [a|e]; [|done]. cbn [res_bind].
  set (q := normalizePiece _). destruct (validatePiece q) eqn:Hv; [done|].
  rewrite validatePiece_spec in Hv by (unfold q; rewrite normalize_length; apply Hp).
  destruct (piece_valid q) eqn:Hpv; [|done]. cbn [isSome negb]. rewrite andb_false_r.
  destruct (Z.ltb_spec 0 (p_Length q)) as [Hpos|]; [|intros [= <-]; constructor].
  intros [= <-]. assert (p_Source q = SourceBase /\ p_Offset q = p_Offset p /\ p_Length q = p_Length p) as (E1 & E2 & E3).
  { unfold q, normalizePiece. cbn. by destruct (p_NewlinesKnown p). }
  apply Forall_singleton. unfold piece_valid in Hpv. rewrite E2, E3 in *. split; [unfold in_range; rewrite E1, E2, E3; lia|].
  rewrite E1. exists r. split; [apply lookup_singleton_eq|done].
Qed.

(** Compaction keeps the text. *)
Lemma holds_Compact D t doc :
  holds D t doc ->
  let '(t', r) := Compact t in
  holds D t' doc /\ no_mergeable (pieces (t_root t')) /\ r = mkCompactResult (PieceCount t) (PieceCount t') /\ PieceCount t' <= PieceCount t.
Proof.
  intros [Hwf Hs Ht]. pose proof (Compact_unfold t Hwf) as H. destruct (Compact t) as [t' [before after]].
  destruct H as (Hwf' & Es & _ & Hb & Ha & E). cbn [BeforePieces AfterPieces] in *.
  assert (pieces_wf (pieces (t_root t))) as Hpw by apply Hwf.
  destruct (compacted_content D t t' Hpw E) as (Hc & Hle & Hnm). unfold PieceCount.
  rewrite !nodePieceCount_ok by (apply Hwf || apply Hwf'). split; [|split; [done|split; [by rewrite Hb, Ha|done]]].
  split; [done| |by rewrite Hc]. rewrite Es, E. destruct (_ <? 2); [done|].
  apply coalesce_kept; [apply served_merged|done|done].
Qed.
