(* ===== verification/JournalText.v ===== *)
(** * What the recovery journal promises to the session

    An append either adds one encoded batch, whose payloads are then found at the
    offsets it returns, or fails leaving at most garbage after the old bytes;
    opening a missing journal gives a header; a repair cuts. *)

From Stdlib Require Import ZArith Lia List.
From stdpp Require Import base list numbers.
From S2P Require Import Prelude GoLib File Journal.
#[local] Open Scope Z_scope.

(** [text] is stored at [offset]. *)
Definition payload_at (data : list byte) (offset : Z) (text : list byte) : Prop :=
  0 <= offset /\ offset + zlen text <= zlen data /\ slice offset (zlen text) data = text.

Lemma payload_at_app data tail offset text : payload_at data offset text -> payload_at (data ++ tail) offset text.
Proof.
  intros (H0 & H1 & H2). pose proof (zlen_nonneg text). pose proof (zlen_nonneg tail).
  split; [done|]. rewrite zlen_app. split; [lia|]. by rewrite slice_app_l by lia.
Qed.

Lemma located_inserts (ops : list ReplaceOperation) cursor :
  map op_InsertLength (located ops cursor) = map (fun o => zlen (ro_Inserted o)) ops.
Proof. revert cursor. induction ops; intros; [done|]. simpl. by f_equal. Qed.

(** The payloads of an appended batch. *)
Lemma appended_payloads data x :
  Forall2 (payload_at (data ++ encodeLogged x))
    (map op_PayloadOffset (b_Operations (locatedBatch (zlen data) (l_rev x) (l_group x) (l_ops x))))
    (map ro_Inserted (l_ops x)).
Proof.
  pose proof (zlen_nonneg data) as H0.
  destruct (locatedAll_data (data ++ encodeLogged x) (zlen data) [x] []) as [Hd Hb]; [done| |].
  { rewrite zdrop_app by done. unfold encodeAll. cbn. by rewrite !app_nil_r. }
  cbn [locatedAll map] in Hd, Hb. apply Forall_cons_iff in Hb as [Hb _]. injection Hd as Hd.
  assert (zlen (data ++ encodeLogged x) = zlen data + zlen (encodeAll [x])) as Hz.
  { rewrite zlen_app. unfold encodeAll. cbn. by rewrite app_nil_r. }
  pose proof (located_inserts (l_ops x) (zlen data + batchHeaderSize + batchRecordSize * zlen (l_ops x))) as Hl.
  unfold locatedBatch in *. cbn [b_Operations] in *.
  set (los := located _ _) in *. clearbody los. revert Hd Hb Hl. generalize (l_ops x) as ops. intros ops.
  revert ops. induction los as [|o los IH]; intros [|r ops] Hd Hb Hl; try done.
  cbn [map] in Hd, Hl |- *. injection Hd as Hd1 Hd2. injection Hl as Hl1 Hl2. apply Forall_cons_iff in Hb as [Hb1 Hb2].
  constructor; [|by apply IH]. destruct Hb1 as (? & ? & ?). unfold payload_at. rewrite <-Hl1. split_and!; [lia|lia|exact Hd1].
Qed.

(** What an append returns, in terms of the file. *)
Definition appended (f f' : file) (rev grp : Z) (ops : list ReplaceOperation) (r : result BatchAppendResult) : Prop :=
  match r with
  | Ok a =>
    batch_ok rev grp ops /\ f_bytes f' = f_bytes f ++ encodeBatch rev grp ops /\
    BatchOffset a = zlen (f_bytes f) /\ EndOffset a = zlen (f_bytes f') /\
    PayloadOffsets a = map op_PayloadOffset (b_Operations (locatedBatch (zlen (f_bytes f)) rev grp ops))
  | Err _ => exists tail, f_bytes f' = f_bytes f ++ tail
  end.

Lemma appendBatch_clean f b p f' r :
  appendBatch f b p = (f', r) -> f_faults f = [] -> f_faults f' = [].
Proof.
  destruct f as [d q fs]. intros H Hf. cbn in Hf. subst fs. unfold appendBatch, file_SeekEnd, file_Write, next_fault in H.
  cbn [f_faults f_bytes f_pos] in H. rewrite Z.eqb_refl in H. cbn [negb] in H.
  destruct (0 <? zlen p); [rewrite Z.eqb_refl in H; cbn [negb] in H|]; by injection H as <- <-.
Qed.

Lemma AppendBatch_appended f path rev grp ops j' r :
  AppendBatch (mkJournal (Some f) path) rev grp ops = (j', r) -> batch_typed rev grp ops ->
  zlen (f_bytes f) + batchHeaderSize + maximumBatchPayload <= maxInt64 ->
  exists f', j' = mkJournal (Some f') path /\ appended f f' rev grp ops r /\
    (f_faults f = [] -> f_faults f' = []) /\
    (f_faults f = [] -> batch_ok rev grp ops -> exists a, r = Ok a) /\
    (f_faults f = [] -> forall e, r = Err e -> f_bytes f' = f_bytes f).
Proof.
  intros H Ht Hsize. rewrite AppendBatch_unfold in H by done.
  destruct (batchPayloadSize rev grp ops) as [n|e] eqn:Hn.
  2:{ injection H as <- <-. exists f. split; [done|]. split; [exists []; by rewrite app_nil_r|]. split; [done|]. split; [|done].
      intros _ Hok. by rewrite (proj2 (batchPayloadSize_spec _ _ _ _ Ht) (conj Hok eq_refl)) in Hn. }
  apply (batchPayloadSize_spec _ _ _ _ Ht) in Hn as [Hok ->]. pose proof (zlen_encodeBatch rev grp ops) as Henc.
  pose proof (bo_size _ _ _ Hok). pose proof (bo_count _ _ _ Hok). pose proof (zlen_nonneg (inserted ops)).
  pose proof (zlen_nonneg (f_bytes f)).
  destruct (appendBatch f _ _) as [f' o] eqn:Ha. injection H as <- <-. exists f'. split; [done|].
  destruct (appendBatch_spec _ _ _ _ _ Ha) as ([[k Hk] _] & Hok' & Hnf). split_and!.
  - destruct o as [o|e]; cbn [res_bind appended]; [|by eexists].
    destruct (Hok' o eq_refl) as [Hb ->]. cbn [appended]. change (encodeBatchHeader _ _ ++ _) with (encodeBatch rev grp ops) in Hb.
    unfold batchHeaderSize, batchRecordSize, maximumBatchPayload in *.
    split_and!; [done|done|done| |]; cbn [EndOffset PayloadOffsets].
    + unwrap64_goal. rewrite Hb, zlen_app. lia.
    + unwrap64_goal. rewrite relative_wrap by lia. rewrite located_offsets. unfold locatedBatch. cbn [b_Operations].
      do 2 f_equal. unfold batchHeaderSize, batchRecordSize. lia.
  - by apply (appendBatch_clean _ _ _ _ _ Ha).
  - intros Hf _. destruct (Hnf Hf) as [[? ?] ->]. cbn. by eexists.
  - intros Hf e He. by destruct (Hnf Hf) as [[? ?] ->].
Qed.

(** A repair at the end of the old bytes removes what an append left, or fails
    and keeps it. *)
Lemma RepairTail_cut f path n j' e :
  RepairTail (mkJournal (Some f) path) n = (j', e) -> n <= zlen (f_bytes f) ->
  exists f', j' = mkJournal (Some f') path /\ (f_bytes f' = ztake n (f_bytes f) \/ f_bytes f' = f_bytes f) /\
    (f_faults f = [] -> f_faults f' = []) /\
    (f_faults f = [] -> fileHeaderSize <= n -> e = None /\ f_bytes f' = ztake n (f_bytes f)).
Proof.
  unfold RepairTail. cbn [j_file]. intros H Hn. destruct (Z.ltb_spec n fileHeaderSize).
  { injection H as <- <-. exists f. split; [done|]. split; [by right|]. split; [done|]. lia. }
  destruct (file_Truncate f n) as [g e'] eqn:Ht. injection H as <- <-. exists g. split; [done|].
  unfold file_Truncate in Ht. destruct (next_fault f) as [x f1] eqn:Hx.
  destruct (next_fault_bytes _ _ _ Hx) as (Hb & _ & Hnf).
  assert (pad_to n (f_bytes f1) = f_bytes f) as Hpad.
  { unfold pad_to. rewrite Hb. replace (Z.to_nat (n - zlen (f_bytes f))) with 0%nat by lia. cbn. by rewrite app_nil_r. }
  destruct x; injection Ht as <- <-; cbn [f_bytes f_faults]; rewrite ?Hpad, ?Hb.
  - split; [by left|]. split; [intros Hf; by apply Hnf|done].
  - split; [by right|]. split; [intros Hf; by destruct (Hnf Hf)|intros Hf; by destruct (Hnf Hf)].
  - split; [by left|]. split; [intros Hf; by destruct (Hnf Hf)|intros Hf; by destruct (Hnf Hf)].
Qed.

(** Opening a journal file that did not exist. *)
Lemma openJournal_new path fp mk f :
  fingerprint_ok fp -> f_bytes f = [] ->
  match openJournal path fp mk (Ok f) with
  | (_, Ok (j, r)) => exists f', j = mkJournal (Some f') path /\ f_bytes f' = encodeFileHeader fp /\
                        rr_Batches r = [] /\ (f_faults f = [] -> f_faults f' = [])
  | (_, Err _) => mk <> None \/ f_faults f <> []
  end.
Proof.
  intros Hfp Hnil. unfold openJournal. rewrite (proj2 (Z.ltb_ge (BaseSize fp) 0)) by apply Hfp.
  destruct mk; [by left|]. destruct (file_Stat f) as [f1 info] eqn:Hs. destruct (file_Stat_spec _ _ _ Hs) as (Hb1 & Hsz & Hnf1).
  destruct info as [size|e]; [|destruct (file_Close f1); right; intros Hfs; by destruct (Hnf1 Hfs)].
  rewrite (Hsz _ eq_refl), Hnil. cbn [Z.eqb zlen length Z.of_nat].
  destruct (writeFileHeader f1 fp) as [f2 e] eqn:Hw.
  destruct (writeFileHeader_spec _ _ _ _ Hw) as [Hok Hnf2]; [congruence|].
  destruct e as [e|]; [destruct (file_Close f2); right; intros Hfs; by destruct (Hnf2 (proj2 (Hnf1 Hfs)))|].
  exists f2. split_and!; [done|by apply Hok|done|]. intros Hfs. by apply Hnf2, Hnf1.
Qed.

(** *** Reading a file without faults ahead leaves it as it is *)

Lemma ReadAt_quiet f n off f' r : file_ReadAt f n off = (f', r) -> f_faults f = [] -> f' = f.
Proof. unfold file_ReadAt, next_fault. intros H Hf. rewrite Hf in H. by injection H as <- _. Qed.

Lemma crc_loop_quiet fuel : forall f remaining cursor crc f' r,
  crc_loop fuel f remaining cursor crc = (f', r) -> f_faults f = [] -> f' = f.
Proof.
  induction fuel as [|fuel IH]; intros f remaining cursor crc f' r H Hf; cbn [crc_loop] in H; [by injection H as <- _|].
  destruct (0 <? remaining); [|by injection H as <- _].
  destruct (file_ReadAt _ _ _) as [f1 [data e]] eqn:Hr. apply ReadAt_quiet in Hr as ->; [|done].
  destruct e; destruct (_ && _); try (by injection H as <- _); by eapply IH.
Qed.

Lemma decodeBatchOperations_quiet f batch off n f' r : decodeBatchOperations f batch off n = (f', r) -> f_faults f = [] -> f' = f.
Proof.
  unfold decodeBatchOperations. intros H Hf. destruct (n <? _); [by injection H as <- _|].
  destruct (file_ReadAt _ _ _) as [f1 [data e]] eqn:Hr. apply ReadAt_quiet in Hr as ->; [|done].
  destruct e; [by injection H as <- _|]. destruct (decode_records _ _ _ _) as [[? ?]|]; by injection H as <- _.
Qed.

Lemma replay_loop_quiet fuel : forall f size off r f' r',
  replay_loop fuel f size off r = (f', r') -> f_faults f = [] -> f' = f.
Proof.
  induction fuel as [|fuel IH]; intros f size off r f' r' H Hf; cbn [replay_loop] in H; [by injection H as <- _|].
  destruct (off <? size); [|by injection H as <- _]. destruct (size - off <? batchHeaderSize); [by injection H as <- _|].
  destruct (file_ReadAt _ _ _) as [f1 [header e]] eqn:Hr. apply ReadAt_quiet in Hr as ->; [|done].
  destruct e; [by injection H as <- _|]. destruct (decodeBatchHeader header) as [[[batch n] stored]|]; [|by injection H as <- _].
  destruct (maximumBatchPayload <? n); [by injection H as <- _|]. destruct (_ <? n); [by injection H as <- _|].
  destruct (crc_loop _ _ _ _ _) as [f1 crc] eqn:Hc. apply crc_loop_quiet in Hc as ->; [|done].
  destruct crc as [crc|e]; [|by injection H as <- _]. destruct (negb _); [by injection H as <- _|].
  destruct (decodeBatchOperations _ _ _ _) as [f1 d] eqn:Hd. apply decodeBatchOperations_quiet in Hd as ->; [|done].
  destruct d as [[ops|]|e]; [by eapply IH|by injection H as <- _|by injection H as <- _].
Qed.

Lemma Replay_quiet f path : f_faults f = [] -> (Replay (mkJournal (Some f) path)).1 = mkJournal (Some f) path.
Proof.
  intros Hf. unfold Replay. cbn [j_file]. unfold file_Stat, next_fault. rewrite Hf.
  destruct (replay_loop _ _ _ _ _) as [f1 r] eqn:Hr. by apply replay_loop_quiet in Hr as ->.
Qed.
