(* ===== verification/SessionText.v ===== *)
(** * Staging a batch: the texts behind document/session.go

    Reading and validating a tree that holds a text, the reference meaning of a
    batch of replacements, and the proof that staging computes it. *)

From Stdlib Require Import ZArith Lia List.
From stdpp Require Import base list numbers gmap.
From S2P Require Import Prelude GoLib Store File Journal ChangeMap ChangeHistory Events UndoStore Utf8 Options TreeText Session.
#[local] Open Scope Z_scope.

(** ** The monad *)

Lemma bind_inv {A B} (c : M A) (f : A -> M B) s k s' k' r :
  bind c f s k = (s', k', r) ->
  (exists e, c s k = (s', k', Err e) /\ r = Err e) \/
  (exists a s1 k1, c s k = (s1, k1, Ok a) /\ f a s1 k1 = (s', k', r)).
Proof.
  unfold bind. destruct (c s k) as [[s1 k1] [a|e]]; [right; by eexists _, _, _|].
  intros [= <- <- <-]. left. by eexists.
Qed.

Lemma check_inv ctx s k s' k' r :
  check ctx s k = (s', k', r) -> s' = s /\ k' = S k /\ r = match ctx k with Some e => Err e | None => Ok tt end.
Proof. unfold check. destruct (ctx k); by intros [= <- <- <-]. Qed.

(** Split a computation that is a bind: the error case first. *)
Ltac split_bind H :=
  let e := fresh "e" in let He := fresh "He" in let a := fresh "a" in let s := fresh "s" in let k := fresh "k" in
  let Hc := fresh "Hc" in
  apply bind_inv in H as [(e & He & ->)|(a & s & k & Hc & H)].

(** ** Reading a tree that holds a text *)

Definition boundaryb (p : list byte) (offset : Z) : bool :=
  (offset =? 0) || (offset =? zlen p) ||
  match p !! Z.to_nat offset with Some b => utf8_RuneStart b | None => false end.

Lemma boundaryb_spec p offset : boundaryb p offset = true -> boundary p offset.
Proof.
  unfold boundaryb, boundary. destruct (Z.eqb_spec offset 0); [auto|]. destruct (Z.eqb_spec offset (zlen p)); [auto|].
  cbn [orb]. destruct (p !! Z.to_nat offset) as [b|]; [|done]. eauto 6.
Qed.

Section Reading.
Context (D : Texts) (t : Tree) (doc : list byte) (Ht : holds D t doc).

Lemma readTreeRange_holds start length :
  0 <= start -> 0 <= length -> start + length <= zlen doc -> readTreeRange t start length = Ok (slice start length doc).
Proof using Ht.
  intros H0 H1 H2. unfold readTreeRange. destruct (Z.eqb_spec length 0) as [->|Hne]; [by rewrite slice_nil_len|].
  destruct (holds_reader _ _ _ Ht start length) as [Hd He]; [done|lia|done|].
  destruct (Tree_ReadAt t length start) as [data err]. cbn [fst snd] in Hd, He. subst data.
  destruct He as [->|[-> _]]; [done|]. by rewrite zlen_slice, Z.eqb_refl by lia.
Qed.

Lemma validate_offset_holds offset :
  0 <= offset <= zlen doc ->
  validate_offset t offset = if boundaryb doc offset then Ok tt else Err document_ErrInvalidUTF8Boundary.
Proof using Ht.
  intros Ho. unfold validate_offset, boundaryb. rewrite (proj1 (holds_length _ _ _ Ht)).
  destruct (Z.eqb_spec offset 0); [done|]. destruct (Z.eqb_spec offset (zlen doc)); [done|]. cbn [orb].
  rewrite readTreeRange_holds by lia. unfold slice, zdrop, ztake.
  destruct (doc !! Z.to_nat offset) as [b|] eqn:Hb.
  - rewrite (drop_S doc b (Z.to_nat offset)) by done. change (Z.to_nat 1) with 1%nat. cbn [take res_bind].
    by destruct (utf8_RuneStart b).
  - apply lookup_ge_None in Hb. unfold zlen in *. lia.
Qed.

Lemma validate_holds start del :
  0 <= start -> 0 <= del -> start + del <= zlen doc ->
  validateUTF8ReplacementBoundaries t start del =
  if boundaryb doc start && boundaryb doc (start + del) then Ok tt else Err document_ErrInvalidUTF8Boundary.
Proof using Ht.
  intros H0 H1 H2. pose proof (proj2 (holds_length _ _ _ Ht)). unfold validateUTF8ReplacementBoundaries.
  rewrite i64_id by go_lia. rewrite validate_offset_holds by lia.
  destruct (boundaryb doc start) eqn:Hb; cbn [andb res_bind]; [|done].
  destruct (Z.eqb_spec (start + del) start) as [E|E]; [by rewrite E, Hb|]. apply validate_offset_holds. lia.
Qed.
End Reading.

(** ** The meaning of a batch *)

Definition apply_op (op : ReplaceOperation) (doc : list byte) : list byte :=
  splice (Start op) (DeleteLength op) (Insert op) doc.

Definition apply_ops (ops : list ReplaceOperation) (doc : list byte) : list byte :=
  fold_left (fun doc op => apply_op op doc) ops doc.

(** Why an edit of a text is refused, in the order of the code. *)
Definition op_error (maxInsertBytes : Z) (doc : list byte) (op : ReplaceOperation) : option error :=
  if negb (utf8_Valid (Insert op)) then Some document_ErrInvalidUTF8
  else if maxInsertBytes <? zlen (Insert op) then Some (errWrap 2 document_ErrLimitExceeded)
  else if negb ((0 <=? Start op) && (0 <=? DeleteLength op) && (Start op + DeleteLength op <=? zlen doc))
  then Some store_ErrInvalidRange
  else if negb (boundaryb doc (Start op) && boundaryb doc (Start op + DeleteLength op))
  then Some document_ErrInvalidUTF8Boundary
  else if maxInt64 <? zlen doc - DeleteLength op + zlen (Insert op) then Some store_ErrLengthOverflow
  else None.

(** The staged batch: each edit with the text it deletes. *)
Fixpoint stage_spec (maxInsertBytes : Z) (doc : list byte) (ops : list ReplaceOperation) : result (list stagedOperation) :=
  match ops with
  | [] => Ok []
  | op :: ops =>
    match op_error maxInsertBytes doc op with
    | Some e => Err e
    | None =>
      let? rest := stage_spec maxInsertBytes (apply_op op doc) ops in
      Ok (mkStaged op (Insert op) (slice (Start op) (DeleteLength op) doc) :: rest)
    end
  end.

(** A staged batch is a valid one: every edit in range, between rune boundaries. *)
Fixpoint staged_ok (doc : list byte) (staged : list stagedOperation) : Prop :=
  match staged with
  | [] => True
  | x :: staged =>
    let op := so_operation x in
    so_inserted x = Insert op /\ so_deleted x = slice (Start op) (DeleteLength op) doc /\
    utf8_Valid (Insert op) = true /\ 0 <= Start op /\ 0 <= DeleteLength op /\ Start op + DeleteLength op <= zlen doc /\
    boundary doc (Start op) /\ boundary doc (Start op + DeleteLength op) /\
    zlen doc - DeleteLength op + zlen (Insert op) <= maxInt64 /\
    staged_ok (apply_op op doc) staged
  end.

Lemma op_error_None m doc op :
  op_error m doc op = None ->
  utf8_Valid (Insert op) = true /\ zlen (Insert op) <= m /\ 0 <= Start op /\ 0 <= DeleteLength op /\
  Start op + DeleteLength op <= zlen doc /\ boundary doc (Start op) /\ boundary doc (Start op + DeleteLength op) /\
  zlen doc - DeleteLength op + zlen (Insert op) <= maxInt64.
Proof.
  unfold op_error. destruct (utf8_Valid (Insert op)); [|done]. cbn [negb].
  destruct (Z.ltb_spec m (zlen (Insert op))); [done|].
  destruct ((0 <=? Start op) && (0 <=? DeleteLength op) && (Start op + DeleteLength op <=? zlen doc)) eqn:Hr; [|done].
  cbn [negb]. destruct (boundaryb doc (Start op) && boundaryb doc (Start op + DeleteLength op)) eqn:Hb; [|done].
  cbn [negb]. destruct (Z.ltb_spec maxInt64 (zlen doc - DeleteLength op + zlen (Insert op))); [done|]. intros _.
  apply andb_prop in Hb as [Hb1%boundaryb_spec Hb2%boundaryb_spec]. split_and!; (done || lia).
Qed.

Lemma stage_spec_ok m doc ops staged :
  stage_spec m doc ops = Ok staged ->
  staged_ok doc staged /\ map so_operation staged = ops /\ Forall (fun x => zlen (so_inserted x) <= m) staged.
Proof.
  revert doc staged. induction ops as [|op ops IH]; intros doc staged H; cbn [stage_spec] in H.
  { injection H as <-. split_and!; [done|done|by constructor]. }
  destruct (op_error m doc op) eqn:He; [done|]. apply op_error_None in He as (?&?&?&?&?&?&?&?).
  destruct (stage_spec m (apply_op op doc) ops) as [rest|e] eqn:Hr; [|done]. injection H as <-.
  destruct (IH _ _ Hr) as (? & <- & ?). cbn. split_and!; try done. by constructor.
Qed.

Lemma staged_ok_apply doc staged :
  staged_ok doc staged -> utf8_Valid doc = true ->
  utf8_Valid (apply_ops (map so_operation staged) doc) = true.
Proof.
  revert doc. induction staged as [|x staged IH]; intros doc H Hv; [done|]. cbn in H.
  destruct H as (_ & _ & Hi & ?&?&?&?&?&?& Hrest). cbn. apply IH; [done|]. by apply Valid_splice.
Qed.

Lemma staged_ok_length doc staged :
  staged_ok doc staged -> zlen doc <= maxInt64 -> zlen (apply_ops (map so_operation staged) doc) <= maxInt64.
Proof.
  revert doc. induction staged as [|x staged IH]; intros doc H Hv; [done|]. cbn in H.
  destruct H as (_ & _ & Hi & ?&?&?&?&?&?& Hrest). cbn. apply IH; [done|]. unfold apply_op. rewrite zlen_splice by lia. lia.
Qed.

(** ** Staging computes the meaning *)

Definition stage_texts (D : Texts) (staging : list byte) : Texts := fun id => if id =? stagingSourceID then staging else D id.

Lemma insert_piece_valid source offset ins :
  0 <= offset -> offset + zlen ins <= maxInt64 ->
  piece_typed (insert_piece source offset ins) /\ piece_valid (normalizePiece (insert_piece source offset ins)) = true /\
  p_Length (insert_piece source offset ins) = zlen ins /\
  (0 < zlen ins -> p_Source (insert_piece source offset ins) = source /\ p_Offset (insert_piece source offset ins) = offset).
Proof.
  intros H0 H1. unfold insert_piece. pose proof (zlen_nonneg ins). pose proof (count_newlines_bounds ins).
  destruct (Z.ltb_spec 0 (zlen ins)).
  - split_and!; [split_and!; cbn; go_lia| |done|done]. unfold piece_valid, normalizePiece. cbn. lia.
  - split_and!; [split_and!; cbn; go_lia|done|cbn; lia|lia].
Qed.

Lemma cloneDocumentTree_holds D t doc : holds D t doc -> holds D (cloneDocumentTree t) doc /\ t_sources (cloneDocumentTree t) = t_sources t.
Proof.
  intros Ht. unfold cloneDocumentTree. destruct (New None 0) as [c|e] eqn:Hn; [|done]. split; [|done].
  apply cloneRestore; [done|]. unfold New, NewWithOptions in Hn.
  refine (proj1 (NewWithBasePieceOptions_wf _ _ _ _ _ _ Hn)); [repeat split; done|done].
Qed.

Lemma no_staging_pieces D t doc :
  holds D t doc -> D stagingSourceID = [] -> forall p, In p (pieces (t_root t)) -> p_Source p <> stagingSourceID.
Proof.
  intros [Ht Hs _] HD p Hp E. destruct Ht as [(_ & Hw & _) _ _ _]. apply list_elem_of_In in Hp.
  rewrite Forall_forall in Hw, Hs. destruct (Hw p Hp) as (? & ? & _). destruct (Hs p Hp) as [(? & ? & Hle) _].
  rewrite E, HD in Hle. change (zlen []) with 0 in Hle. lia.
Qed.

(** One staged replacement. *)
Lemma stage_replace D t doc staging op :
  holds (stage_texts D staging) t doc -> 0 <= Start op -> 0 <= DeleteLength op -> Start op + DeleteLength op <= zlen doc ->
  zlen staging + zlen (Insert op) <= maxInt64 ->
  match ReplacePiece (SetSource t stagingSourceID (Some (bytes_NewReader (staging ++ Insert op)))) (Start op) (DeleteLength op)
          (insert_piece stagingSourceID (zlen staging) (Insert op)) with
  | (t', Ok _) => holds (stage_texts D (staging ++ Insert op)) t' (apply_op op doc)
  | (_, Err e) => e = store_ErrLengthOverflow /\ maxInt64 < zlen doc - DeleteLength op + zlen (Insert op)
  end.
Proof.
  intros Ht H0 H1 H2 Hsz.
  pose proof (zlen_nonneg staging) as Hs0. pose proof (zlen_nonneg (Insert op)) as Hi0.
  set (D' := stage_texts D (staging ++ Insert op)).
  assert (D' stagingSourceID = staging ++ Insert op) as HD' by done.
  assert (holds D' (SetSource t stagingSourceID (Some (bytes_NewReader (staging ++ Insert op)))) doc) as Ht'.
  { apply (holds_SetSource (stage_texts D staging)); [done| | |].
    - intros i Hi. unfold D', stage_texts. by rewrite (proj2 (Z.eqb_neq i _)) by done.
    - rewrite HD'. apply bytes_NewReader_ok.
    - intros p Hp E. destruct Ht as [Hw Hs _]. apply list_elem_of_In in Hp. rewrite Forall_forall in Hs.
      destruct (Hs p Hp) as [(? & ? & Hle) _]. rewrite E in Hle. change (stage_texts D staging stagingSourceID) with staging in Hle.
      rewrite HD', zlen_app. split; [lia|]. unfold piece_bytes. rewrite E, HD'. by apply slice_app_l. }
  destruct (insert_piece_valid stagingSourceID (zlen staging) (Insert op) Hs0 Hsz) as (Hty & Hv & Hl & Hso).
  pose proof (holds_replace D' _ doc (Start op) (DeleteLength op) (insert_piece stagingSourceID (zlen staging) (Insert op))
    Ht' Hty H0 H1 H2 Hv ltac:(lia)) as Hr. rewrite Hl in Hr.
  assert (piece_bytes D' (insert_piece stagingSourceID (zlen staging) (Insert op)) = Insert op) as Hb.
  { unfold piece_bytes. rewrite Hl. destruct (decide (0 < zlen (Insert op))) as [Hpos|Hz].
    - destruct (Hso Hpos) as [-> ->]. rewrite HD'. rewrite <-(app_nil_r (Insert op)) at 2. by apply slice_mid.
    - rewrite (zlen_zero (Insert op)) by lia. by rewrite slice_nil_len. }
  rewrite Hb in Hr. destruct (ReplacePiece _ _ _ _) as [t' [r|e]]; (destruct Hr as [Hh Hrest]; [|done || by apply Hrest]).
  all: intros Hpos; destruct (Hso Hpos) as [E1 E2]; split;
    [unfold in_range; rewrite E1, E2, Hl, HD', zlen_app; lia|].
  all: exists (bytes_NewReader (staging ++ Insert op)); rewrite E1; cbn [SetSource t_sources]; rewrite lookup_insert_eq;
    (split; [done|]); rewrite HD'; apply bytes_NewReader_ok.
Qed.

Lemma stage_loop_spec ctx m D ops : forall t doc staging acc s k s' k' r,
  stage_loop ctx m t staging ops acc s k = (s', k', r) -> holds (stage_texts D staging) t doc ->
  zlen staging + Z.max 0 m * zlen ops <= maxInt64 ->
  s' = s /\ ((exists j e, ctx j = Some e /\ r = Err e) \/ r = (let? rest := stage_spec m doc ops in Ok (acc ++ rest))).
Proof.
  induction ops as [|op ops IH]; intros t doc staging acc s k s' k' r H Ht Hsz; cbn [stage_loop stage_spec] in *.
  { injection H as <- <- <-. split; [done|]. right. cbn. by rewrite app_nil_r. }
  split_bind H; apply check_inv in Hc || apply check_inv in He.
  { destruct He as (-> & _ & He). split; [done|]. left. destruct (ctx k) as [e'|] eqn:E; [|done].
    injection He as ->. by eexists _, _. }
  destruct Hc as (-> & -> & _). destruct (holds_length _ _ _ Ht) as [Hlen Hmax].
  pose proof (zlen_nonneg ops) as Ho0. pose proof (zlen_nonneg staging) as Hst0. rewrite zlen_cons in Hsz.
  pose proof (zlen_nonneg (Insert op)) as Hi0. pose proof (zlen_nonneg doc) as Hd0.
  unfold op_error. destruct (utf8_Valid (Insert op)); cbn [negb] in H |- *.
  2:{ injection H as <- <- <-. split; [done|by right]. }
  destruct (Z.ltb_spec m (zlen (Insert op))) as [|Hm].
  { injection H as <- <- <-. split; [done|by right]. }
  rewrite Hlen in H.
  assert ((Start op <? 0) || (DeleteLength op <? 0) || (zlen doc <? Start op) || (zlen doc ⊟ Start op <? DeleteLength op)
          = negb ((0 <=? Start op) && (0 <=? DeleteLength op) && (Start op + DeleteLength op <=? zlen doc))) as Hrange.
  { destruct (Z.ltb_spec (Start op) 0); [cbn; symmetry; rewrite (proj2 (Z.leb_gt _ _)) by lia; done|].
    destruct (Z.ltb_spec (zlen doc) (Start op)).
    - rewrite orb_true_r. cbn [orb]. destruct (Z.leb_spec 0 (DeleteLength op)); [|by rewrite andb_false_r].
      rewrite (proj2 (Z.leb_gt (Start op + DeleteLength op) _)) by lia. by rewrite andb_false_r.
    - unwrap64_goal. cbn [orb]. lia. }
  rewrite Hrange in H. destruct ((0 <=? Start op) && (0 <=? DeleteLength op) && (Start op + DeleteLength op <=? zlen doc)) eqn:Hr;
    cbn [negb] in H |- *; [|injection H as <- <- <-; split; [done|by right]].
  assert (0 <= Start op /\ 0 <= DeleteLength op /\ Start op + DeleteLength op <= zlen doc) as (H0 & H1 & H2) by lia.
  rewrite (validate_holds _ _ _ Ht) in H by done.
  destruct (boundaryb doc (Start op) && boundaryb doc (Start op + DeleteLength op)); cbn [negb] in H |- *;
    [|injection H as <- <- <-; split; [done|by right]].
  rewrite (readTreeRange_holds _ _ _ Ht) in H by done. unfold bind, lift in H.
  pose proof (stage_replace D t doc staging op Ht H0 H1 H2 ltac:(nia)) as Hrep.
  destruct (ReplacePiece _ _ _ _) as [t' [x|e]].
  - assert (zlen doc - DeleteLength op + zlen (Insert op) <= maxInt64) as Hfit.
    { pose proof (proj2 (holds_length _ _ _ Hrep)) as Hl'. unfold apply_op in Hl'. rewrite zlen_splice in Hl' by lia. lia. }
    rewrite (proj2 (Z.ltb_ge maxInt64 _)) by lia.
    destruct (IH _ _ _ _ _ _ _ _ _ H Hrep) as [-> Hres].
    { rewrite zlen_app. nia. }
    split; [done|]. destruct Hres as [?| ->]; [by left|]. right.
    destruct (stage_spec m (apply_op op doc) ops); [|done]. cbn. by rewrite <-app_assoc.
  - destruct Hrep as [-> Hover]. rewrite (proj2 (Z.ltb_lt maxInt64 _)) by lia.
    injection H as <- <- <-. split; [done|by right].
Qed.

(** Staging changes nothing and, unless the context ends it, returns the staged
    batch or the error of its first bad edit. *)
Lemma stageOperations_spec ctx D s doc ops k s' k' r :
  stageOperationsLocked ctx ops s k = (s', k', r) -> holds D (s_tree s) doc -> D stagingSourceID = [] ->
  Z.max 0 (MaxInsertBytes (Limits (s_config s))) * zlen ops <= maxInt64 ->
  s' = s /\ ((exists j e, ctx j = Some e /\ r = Err e) \/ r = stage_spec (MaxInsertBytes (Limits (s_config s))) doc ops).
Proof.
  unfold stageOperationsLocked, bind, get. intros H Ht HD Hsz.
  destruct (cloneDocumentTree_holds _ _ _ Ht) as [Hc _].
  destruct (stage_loop_spec _ _ D _ _ doc _ _ _ _ _ _ _ H) as [-> Hr].
  - destruct Hc as [Hw Hs Hx]. split; [done| |].
    + eapply Forall_impl; [exact Hs|]. intros p [Hin Hr]. destruct (decide (p_Source p = stagingSourceID)) as [E|E].
      * split; [unfold in_range in *; rewrite E in *; unfold stage_texts; cbn; by rewrite HD in Hin|].
        destruct Hr as (r' & Hr1 & Hr2). exists r'. split; [done|]. rewrite E in *. by rewrite HD in Hr2.
      * unfold served, in_range, stage_texts. rewrite (proj2 (Z.eqb_neq _ _) E). done.
    + rewrite <-Hx. unfold content. f_equal. apply map_ext. intros p. unfold piece_bytes, stage_texts.
      destruct (Z.eqb_spec (p_Source p) stagingSourceID) as [->|]; [by rewrite HD|done].
  - rewrite zlen_nil. lia.
  - split; [done|]. destruct Hr as [?| ->]; [by left|right]. by destruct (stage_spec _ _ _).
Qed.
