(* ===== verification/SessionHistory.v ===== *)
(** * The undo history behind document/session.go

    The texts the undo store keeps for history entries, the inverse of a batch, and
    the two stacks as a path of document versions. *)

From Stdlib Require Import ZArith Lia List.
From stdpp Require Import base list numbers gmap.
From S2P Require Import Prelude GoLib Store File Journal ChangeMap ChangeHistory Events UndoStore Utf8 Options TreeText Session SessionText.
#[local] Open Scope Z_scope.

(** ** Rune boundaries of an edited text *)

Lemma boundary_spec p offset : boundary p offset <-> boundaryb p offset = true.
Proof.
  split; [|apply boundaryb_spec]. unfold boundaryb. intros [->|[->|(b & -> & Hb)]]; [done| |].
  - by rewrite Z.eqb_refl, orb_true_r.
  - by rewrite Hb, !orb_true_r.
Qed.

Lemma Valid_front b p : utf8_Valid (b :: p) = true -> utf8_RuneStart b = true.
Proof.
  intros (rs & Hrs & E)%Valid_runes. destruct Hrs as [|r rs Hr Hrs]; [done|].
  destruct (rune_shape r Hr) as (c & q & -> & Hc & _). cbn in E. by injection E as -> _.
Qed.

Lemma boundary_app a b : utf8_Valid b = true -> boundary (a ++ b) (zlen a).
Proof.
  intros Hb. unfold boundary. destruct b as [|c b]; [right; left; by rewrite app_nil_r|]. right; right. exists c.
  split; [|by apply Valid_front in Hb]. unfold zlen. rewrite Nat2Z.id, lookup_app_r, Nat.sub_diag by done. done.
Qed.

(** The edit that takes a replacement back. *)
Definition undo_op (x : stagedOperation) : ReplaceOperation :=
  mkReplace (Start (so_operation x)) (zlen (so_inserted x)) (so_deleted x).

(** Edits that can be staged one after the other. *)
Fixpoint ops_ok (doc : list byte) (ops : list ReplaceOperation) : Prop :=
  match ops with
  | [] => True
  | op :: ops =>
    utf8_Valid (Insert op) = true /\ 0 <= Start op /\ 0 <= DeleteLength op /\ Start op + DeleteLength op <= zlen doc /\
    boundary doc (Start op) /\ boundary doc (Start op + DeleteLength op) /\
    zlen doc - DeleteLength op + zlen (Insert op) <= maxInt64 /\ ops_ok (apply_op op doc) ops
  end.

Lemma staged_ops_ok doc staged : staged_ok doc staged -> ops_ok doc (map so_operation staged).
Proof.
  revert doc. induction staged as [|x staged IH]; intros doc H; [done|]. cbn in *.
  destruct H as (_ & _ & ?&?&?&?&?&?&?&?). split_and!; try done. by apply IH.
Qed.

Lemma stage_spec_complete m doc ops :
  ops_ok doc ops -> Forall (fun op => zlen (Insert op) <= m) ops ->
  exists staged, stage_spec m doc ops = Ok staged /\ map so_operation staged = ops.
Proof.
  revert doc. induction ops as [|op ops IH]; intros doc H Hm; [by exists []|]. cbn in H.
  destruct H as (Hv & H0 & H1 & H2 & Hb1 & Hb2 & Hl & H). apply Forall_cons in Hm as [Hm1 Hm].
  destruct (IH _ H Hm) as (staged & Hs & Hops). cbn [stage_spec].
  assert (op_error m doc op = None) as ->.
  { unfold op_error. apply boundary_spec in Hb1, Hb2. rewrite Hv, Hb1, Hb2. cbn [negb andb].
    rewrite (proj2 (Z.ltb_ge m _)), (proj2 (Z.ltb_ge maxInt64 _)) by lia.
    rewrite (proj2 (Z.leb_le 0 _)), (proj2 (Z.leb_le 0 _)), (proj2 (Z.leb_le (_ + _) _)) by lia. done. }
  rewrite Hs. cbn. eexists. split; [done|]. cbn. by rewrite Hops.
Qed.

Lemma apply_ops_app ops1 ops2 doc : apply_ops (ops1 ++ ops2) doc = apply_ops ops2 (apply_ops ops1 doc).
Proof. apply fold_left_app. Qed.

Lemma ops_ok_app ops1 ops2 doc : ops_ok doc ops1 -> ops_ok (apply_ops ops1 doc) ops2 -> ops_ok doc (ops1 ++ ops2).
Proof.
  revert doc. induction ops1 as [|op ops1 IH]; intros doc H1 H2; [done|]. cbn in *.
  destruct H1 as (?&?&?&?&?&?&?&?). split_and!; try done. by apply IH.
Qed.

Lemma ops_ok_valid doc ops : ops_ok doc ops -> utf8_Valid doc = true -> utf8_Valid (apply_ops ops doc) = true.
Proof.
  revert doc. induction ops as [|op ops IH]; intros doc H Hv; [done|]. cbn in *.
  destruct H as (?&?&?&?&?&?&?&?). apply IH; [done|]. by apply Valid_splice.
Qed.

(** The inverses of a staged batch, last edit first, take its result back. *)
Lemma undo_ops_ok doc staged :
  staged_ok doc staged -> utf8_Valid doc = true -> zlen doc <= maxInt64 ->
  let doc' := apply_ops (map so_operation staged) doc in
  ops_ok doc' (rev (map undo_op staged)) /\ apply_ops (rev (map undo_op staged)) doc' = doc.
Proof.
  revert doc. induction staged as [|x staged IH]; intros doc H Hv Hmax; [done|]. cbn [map rev staged_ok] in *.
  destruct H as (Hi & Hd & Hvi & H0 & H1 & H2 & Hb1 & Hb2 & Hl & H). set (op := so_operation x) in *.
  pose proof (zlen_nonneg (Insert op)) as Hi0.
  assert (utf8_Valid (apply_op op doc) = true) as Hv' by (by apply Valid_splice).
  destruct (IH _ H Hv') as [Hok Happ]; [unfold apply_op; rewrite zlen_splice by done; lia|].
  change (apply_ops (op :: map so_operation staged) doc) with (apply_ops (map so_operation staged) (apply_op op doc)).
  destruct (Valid_cut doc (Start op) Hv ltac:(lia) Hb1) as [Hva Hvb].
  destruct (Valid_cut doc (Start op + DeleteLength op) Hv ltac:(lia) Hb2) as [_ Hvc].
  assert (apply_op (undo_op x) (apply_op op doc) = doc) as Hback.
  { unfold apply_op, undo_op. cbn. fold op. rewrite Hi, Hd. by apply splice_inverse. }
  assert (zlen (ztake (Start op) doc) = Start op) as Hzt by (rewrite zlen_ztake; lia).
  split; [|by rewrite apply_ops_app, Happ; cbn]. apply ops_ok_app; [done|]. rewrite Happ. cbn. fold op. rewrite Hi, Hd.
  split_and!; try lia; try done.
  - assert (zdrop (Start op) doc = slice (Start op) (DeleteLength op) doc ++ zdrop (Start op + DeleteLength op) doc) as E.
    { unfold slice. rewrite <-(ztake_zdrop (DeleteLength op) (zdrop (Start op) doc)) at 1. by rewrite zdrop_zdrop by lia. }
    destruct (Valid_cut (zdrop (Start op) doc) (DeleteLength op) Hvb) as [Hs _]; [rewrite zlen_zdrop; lia| |done].
    rewrite E. replace (DeleteLength op) with (zlen (slice (Start op) (DeleteLength op) doc)) at 3 by (apply zlen_slice; lia).
    by apply boundary_app.
  - unfold apply_op. rewrite zlen_splice by done. lia.
  - unfold apply_op, splice. rewrite <-Hzt at 3. apply boundary_app. by rewrite Valid_app.
  - unfold apply_op, splice. rewrite app_assoc.
    replace (Start op + zlen (Insert op)) with (zlen (ztake (Start op) doc ++ Insert op)) by (rewrite zlen_app; lia).
    by apply boundary_app.
  - unfold apply_op. rewrite zlen_splice, zlen_slice by done. lia.
Qed.

(** ** Texts in the undo store *)

Definition store_ok (us : option undoStore) : Prop := match us with Some u => us_ok u | None => True end.
Definition store_clean (us : option undoStore) : Prop := match us with Some u => us_clean u | None => True end.

(** The store holds [text] at [ref].  Empty texts are not in the store, and
    without a store only they can be kept. *)
Definition keeps (us : option undoStore) (ref : textRef) (text : list byte) : Prop :=
  if ref_length ref =? 0 then text = [] else
  match us with
  | Some u => in_store (us_size u) ref /\ us_text u ref = text
  | None => False
  end.
Record extends (us us' : option undoStore) : Prop := mkExtends {
  ext_bytes : undo_bytes us <= undo_bytes us';
  ext_keeps : forall ref text, keeps us ref text -> keeps us' ref text }.

#[export] Instance extends_preorder : PreOrder extends.
Proof. split; [by intros us|intros x y z [H1 K1] [H2 K2]; split; [lia|auto]]. Qed.

(** A reference that names nothing of what the store held. *)
Definition beyond (us : option undoStore) (ref : textRef) : Prop := ref_length ref = 0 \/ undo_bytes us <= ref_offset ref.

(** References that share no byte. *)
Definition apart_refs (refs : list textRef) : Prop :=
  forall r1 r2, r1 ∈ refs -> r2 ∈ refs -> 0 < ref_length r1 -> 0 < ref_length r2 -> apart r1 r2.

Lemma beyond_extends us us' ref : extends us us' -> beyond us' ref -> beyond us ref.
Proof. intros [Hb _] [?|?]; [by left|right; lia]. Qed.

Lemma apart_sym r1 r2 : apart r1 r2 -> apart r2 r1.
Proof. unfold apart. intros [-> | [?|?]]; auto. Qed.

Lemma apart_beyond us r1 text r2 :
  keeps us r1 text -> beyond us r2 -> 0 < ref_length r1 -> 0 < ref_length r2 -> apart r1 r2.
Proof.
  unfold keeps. intros Hk [?|Hb] H1 H2; [lia|]. rewrite (proj2 (Z.eqb_neq (ref_length r1) 0)) in Hk by lia.
  destruct us as [u|]; [|done]. destruct Hk as [(? & ? & ?) _]. right; left. cbn in Hb. lia.
Qed.

Lemma apart_refs_sub L L' : L ⊆ L' -> apart_refs L' -> apart_refs L.
Proof. intros Hs H r1 r2 H1 H2. apply H; by apply Hs. Qed.

Lemma apart_refs_nil : apart_refs [].
Proof. by intros r1 r2 ?%elem_of_nil. Qed.

(** Kept references and references beyond the store. *)
Lemma apart_refs_app us L L' :
  Forall (fun r => exists text, keeps us r text) L -> Forall (beyond us) L' -> apart_refs L -> apart_refs L' -> apart_refs (L ++ L').
Proof.
  intros HL HL' H1 H2 r1 r2 [Hr1|Hr1]%elem_of_app [Hr2|Hr2]%elem_of_app; [by apply H1| | |by apply H2]; intros Hl1 Hl2;
    rewrite Forall_forall in HL, HL'; [|apply apart_sym].
  - destruct (HL _ Hr1) as [t Ht]. by apply (apart_beyond us _ t); [|apply HL'|..].
  - destruct (HL _ Hr2) as [t Ht]. by apply (apart_beyond us _ t); [|apply HL'|..].
Qed.

Lemma append_beyond us value us' ref err : append us value = (us', (ref, err)) -> beyond us ref.
Proof.
  unfold append. destruct (zlen value =? 0); [intros [= _ <- _]; by left|].
  destruct us as [u|]; [|intros [= _ <- _]; by left].
  destruct (us_file u) as [f|]; [|intros [= _ <- _]; by left].
  destruct (_ <? zlen value); [intros [= _ <- _]; by left|].
  destruct (file_WriteAt f value _) as [f' [n e]]. intros [= _ <- _]. right. cbn. lia.
Qed.

Lemma append_store us value us' ref err :
  store_ok us -> zlen value <= maxInt64 -> append us value = (us', (ref, err)) ->
  store_ok us' /\ extends us us' /\ (err = None -> keeps us' ref value /\ beyond us ref) /\
  (store_clean us -> store_clean us' /\ (err = None \/ err = Some document_errUndoQuota)).
Proof.
  intros Hok Hl H. destruct us as [u|].
  - destruct (append_spec _ _ _ _ _ Hok Hl H) as (u' & k & -> & Hok' & _ & Hb & Hin & Ht & _). split_and!; [done| | |].
    + pose proof (us_end _ Hok') as He. rewrite Hb, zlen_app, (us_end _ Hok) in He. pose proof (zlen_nonneg (ztake k value)).
      split; [cbn; lia|].
      intros r t. unfold keeps. destruct (_ =? 0); [done|]. intros [H1 H2].
      destruct (live_ok_mono u u' _ (r, t) Hok Hok' Hb); [by split|]. by split.
    + intros ->. specialize (Ht eq_refl). split; [|by eapply append_beyond]. unfold keeps.
      destruct (Z.eqb_spec (ref_length ref) 0) as [Hz|]; [rewrite <-Ht; unfold us_text; rewrite Hz; by apply slice_nil_len|by split].
    + intros Hc. destruct (append_clean _ _ _ _ _ Hok Hc H) as [(? & [= <-] & ?) ?]. by split.
  - unfold append in H. destruct (Z.eqb_spec (zlen value) 0) as [Hz|]; injection H as <- <- <-.
    + split_and!; auto; [done|]. intros _. split; [|by left]. by apply zlen_zero.
    + split_and!; auto; done.
Qed.

Lemma read_store us ref text us' r :
  store_ok us -> keeps us ref text -> read us ref = (us', r) ->
  store_ok us' /\ extends us us' /\ (forall v, r = Ok v -> v = text) /\
  (store_clean us -> store_clean us' /\ r = Ok text).
Proof.
  intros Hok Hk H. unfold keeps in Hk. destruct (Z.eqb_spec (ref_length ref) 0) as [Hz|Hz].
  { subst text. unfold read in H. rewrite (proj2 (Z.eqb_eq _ 0) Hz) in H. injection H as <- <-.
    split_and!; [done|reflexivity|naive_solver|done]. }
  destruct us as [u|]; [|done].
  - destruct Hk as [Hin <-]. destruct (read_spec _ _ _ _ Hok Hin H) as (u' & -> & Hok' & _ & Hsz & Hb & Hv & Hnf).
    split_and!; [done| |done|].
    + split; [cbn; by rewrite Hsz|]. intros q t. unfold keeps. destruct (_ =? 0); [done|]. intros [H1 H2].
      split; [by rewrite Hsz|]. unfold us_text in *. by rewrite Hb.
    + intros Hc. destruct (read_clean _ _ _ _ Hok Hc H) as (? & [= <-] & ?). split; [done|].
      destruct (us_open _ Hok) as [f Hf]. apply (Hnf f Hf). by apply Hc.
Qed.

Lemma reset_store us us' err :
  store_ok us -> reset us = (us', err) -> store_ok us' /\ (store_clean us -> store_clean us' /\ err = None).
Proof.
  intros Hok H. destruct us as [u|].
  - destruct (reset_spec _ _ _ Hok H) as (u' & -> & Hok' & _). split; [done|]. intros Hc.
    by destruct (reset_clean _ _ _ Hok Hc H) as (-> & ? & [= <-] & ?).
  - by injection H as <- <-.
Qed.

(** ** What recording history does to a session *)

Definition with_history (undo redo : list historyEntry) (us : option undoStore) (epoch : Z) (s : Session) : Session :=
  set_undoEpoch epoch (set_redo redo (set_undo undo (set_undoStore us s))).

(** After [n] quota resets: with none the stacks are as before and the store has
    only grown, otherwise both stacks are empty. *)
Record recorded (n : Z) (s s' : Session) : Prop := mkRecorded {
  rc_frame : s' = with_history (s_undo s') (s_redo s') (s_undoStore s') (s_undoEpoch s') s;
  rc_store : store_ok (s_undoStore s');
  rc_epoch : s_undoEpoch s' = u64 (s_undoEpoch s + n);
  rc_same : n = 0 -> s_undo s' = s_undo s /\ s_redo s' = s_redo s /\ extends (s_undoStore s) (s_undoStore s');
  rc_cleared : n <> 0 -> s_undo s' = [] /\ s_redo s' = [] }.

Lemma with_history_eta s : s = with_history (s_undo s) (s_redo s) (s_undoStore s) (s_undoEpoch s) s.
Proof. by destruct s. Qed.

Lemma recorded_refl s : store_ok (s_undoStore s) -> in_u64 (s_undoEpoch s) -> recorded 0 s s.
Proof. intros Hs He. split; try done; [apply with_history_eta|by rewrite Z.add_0_r, u64_id]. Qed.

Lemma recorded_trans n m s1 s2 s3 : 0 <= n -> 0 <= m -> recorded n s1 s2 -> recorded m s2 s3 -> recorded (n + m) s1 s3.
Proof.
  intros Hn Hm [F1 S1 E1 A1 C1] [F2 S2 E2 A2 C2]. split.
  - rewrite F2 at 1. rewrite F1 at 1. reflexivity.
  - done.
  - rewrite E2, E1. unfold u64. rewrite Zplus_mod_idemp_l. f_equal. lia.
  - intros H. destruct (A2 ltac:(lia)) as (-> & -> & ?). destruct (A1 ltac:(lia)) as (-> & -> & ?).
    split_and!; [done|done|by etransitivity].
  - intros H. destruct (decide (m = 0)) as [Hz|]; [|auto]. destruct (A2 Hz) as (-> & -> & _). apply C1. lia.
Qed.

Lemma historyText_spec value s k s' k' r :
  historyText value s k = (s', k', r) -> store_ok (s_undoStore s) -> in_u64 (s_undoEpoch s) -> zlen value <= maxInt64 ->
  exists n, 0 <= n <= 1 /\ recorded n s s' /\ (n = 0 -> forall ref, r = Ok ref -> keeps (s_undoStore s') ref value /\ beyond (s_undoStore s) ref) /\
    (store_clean (s_undoStore s) -> store_clean (s_undoStore s') /\ exists ref, r = Ok ref).
Proof.
  intros H Hok Hep Hl. unfold historyText in H. destruct (append (s_undoStore s) value) as [us1 [ref err]] eqn:Ha.
  destruct (append_store _ _ _ _ _ Hok Hl Ha) as (Hok1 & Hx1 & Hk1 & Hc1).
  assert (recorded 0 s (set_undoStore us1 s)) as Hr0 by (split; try done; cbn; by rewrite Z.add_0_r, u64_id).
  destruct err as [e|].
  2:{ injection H as <- <- <-. exists 0. split_and!; [lia|lia|done|naive_solver|]. intros Hc. destruct (Hc1 Hc). eauto. }
  destruct (errors_Is e document_errUndoQuota) eqn:He; cbn [negb] in H.
  2:{ injection H as <- <- <-. exists 0. split_and!; [lia|lia|done|done|]. intros Hc. destruct (Hc1 Hc) as [_ [?|[= ->]]]; done. }
  cbn [s_undoStore set_undoStore set_undoEpoch set_redo set_undo] in H.
  destruct (reset us1) as [us2 err2] eqn:Hrs. destruct (reset_store _ _ _ Hok1 Hrs) as [Hok2 Hc2].
  exists 1. split; [lia|].
  assert (forall us, store_ok us -> recorded 1 s (set_undoStore us (set_undoEpoch (s_undoEpoch s ⊕ 1) (set_redo [] (set_undo [] (set_undoStore us1 s)))))) as Hr1
    by (intros us Hus; by split).
  destruct err2 as [e2|].
  { injection H as <- <- <-. split_and!; [by apply Hr1|done|]. intros Hc. by destruct (Hc1 Hc) as [(_ & ?)%Hc2 _]. }
  destruct (append us2 value) as [us3 [ref3 err3]] eqn:Ha3.
  destruct (append_store _ _ _ _ _ Hok2 Hl Ha3) as (Hok3 & _ & _ & Hc3).
  assert (s' = set_undoStore us3 (set_undoEpoch (s_undoEpoch s ⊕ 1) (set_redo [] (set_undo [] (set_undoStore us1 s))))) as ->
    by (destruct err3 as [e3|]; [destruct (errors_Is e3 document_errUndoQuota)|]; by injection H as <- <- <-).
  split_and!; [by apply Hr1|done|]. intros Hc. destruct (Hc1 Hc) as [[Hc2' _]%Hc2 _]. destruct (Hc3 Hc2') as [Hc3' Hq].
  split; [done|]. destruct Hq as [->| ->]; injection H as <- <-; eauto.
Qed.

(** ** Entries of the history *)

Definition hist_op (us : option undoStore) (h : historyOperation) (op : ReplaceOperation) : Prop :=
  ho_start h = Start op /\ ho_deleteLength h = DeleteLength op /\ keeps us (ho_insert h) (Insert op).

Lemma hist_op_extends us us' hs ops : extends us us' -> Forall2 (hist_op us) hs ops -> Forall2 (hist_op us') hs ops.
Proof. intros Hx H. eapply Forall2_impl; [exact H|]. intros h op (? & ? & ?). split_and!; [done..|by apply Hx]. Qed.

(** The references of history operations, of an entry and of a stack. *)
Definition op_refs (hs : list historyOperation) : list textRef := map ho_insert hs.
Definition entry_refs (e : historyEntry) : list textRef := op_refs (he_forward e) ++ op_refs (he_inverse e).
Definition stack_refs (es : list historyEntry) : list textRef := concat (map entry_refs es).

Lemma hist_ops_kept us hs ops : Forall2 (hist_op us) hs ops -> Forall (fun r => exists text, keeps us r text) (op_refs hs).
Proof. induction 1 as [|h op hs ops (_ & _ & ?) _ IH]; constructor; eauto. Qed.

Lemma stack_refs_app es1 es2 : stack_refs (es1 ++ es2) = stack_refs es1 ++ stack_refs es2.
Proof. unfold stack_refs. by rewrite map_app, concat_app. Qed.

Lemma stack_refs_elem r es : r ∈ stack_refs es <-> exists e, e ∈ es /\ r ∈ entry_refs e.
Proof.
  unfold stack_refs. rewrite list_elem_of_In, in_concat. split.
  - intros (p & (e & <- & He)%in_map_iff & Hr). exists e. by split; apply list_elem_of_In.
  - intros (e & He%list_elem_of_In & Hr%list_elem_of_In). exists (entry_refs e). split; [by apply in_map|done].
Qed.

Lemma stack_refs_sub es es' : es ⊆ es' -> stack_refs es ⊆ stack_refs es'.
Proof. intros Hs r. rewrite !stack_refs_elem. intros (e & He & Hr). exists e. split; [by apply Hs|done]. Qed.

(** Two new texts and the texts of the entry after them. *)
Lemma apart_refs_cons us us1 us2 a b refs :
  extends us us1 -> extends us1 us2 -> (exists text, keeps us1 a text) -> (exists text, keeps us2 b text) ->
  beyond us a -> beyond us1 b -> Forall (beyond us2) refs -> apart_refs refs ->
  Forall (beyond us) (a :: b :: refs) /\ apart_refs (a :: b :: refs).
Proof.
  intros Hx1 Hx2 [ta Ha] [tb Hb] Ba Bb Br Hap. assert (extends us us2) as Hx by (by etransitivity). split.
  - constructor; [done|]. constructor; [by apply (beyond_extends _ us1)|]. eapply Forall_impl; [exact Br|]. intros r. by apply beyond_extends.
  - apply (apart_refs_app us2 [a; b]); [|done| |done].
    + apply Forall_cons; split; [exists ta; by apply Hx2|]. apply Forall_singleton. by exists tb.
    + apply (apart_refs_app us1 [a] [b]); [apply Forall_singleton; by exists ta|by apply Forall_singleton| |];
        intros r1 r2 ->%list_elem_of_singleton ->%list_elem_of_singleton; by left.
Qed.

Definition short_texts (x : stagedOperation) : Prop :=
  so_inserted x = Insert (so_operation x) /\ zlen (so_inserted x) <= maxInt64 /\ zlen (so_deleted x) <= maxInt64.

Lemma staged_short doc staged : staged_ok doc staged -> zlen doc <= maxInt64 -> Forall short_texts staged.
Proof.
  revert doc. induction staged as [|x staged IH]; intros doc H Hl; [constructor|]. cbn in H.
  destruct H as (Hi & Hd & _ & H0 & H1 & H2 & _ & _ & Hm & H). pose proof (zlen_nonneg (Insert (so_operation x))).
  constructor; [|apply (IH _ H); unfold apply_op; rewrite zlen_splice by done; lia].
  split; [done|]. rewrite Hi, Hd, zlen_slice by done. lia.
Qed.

(** The history loop of a commit. *)
Lemma record_entry_spec ctx staged : forall entry s k s' k' r,
  record_entry ctx staged entry s k = (s', k', r) -> store_ok (s_undoStore s) -> in_u64 (s_undoEpoch s) ->
  Forall short_texts staged ->
  exists n, 0 <= n <= 2 * zlen staged /\ recorded n s s' /\
    (n = 0 -> forall entry', r = Ok entry' -> exists fwd inv,
       entry' = mkHistoryEntry (he_forward entry ++ fwd) (inv ++ he_inverse entry) /\
       Forall2 (hist_op (s_undoStore s')) fwd (map so_operation staged) /\
       Forall2 (hist_op (s_undoStore s')) inv (rev (map undo_op staged)) /\
       Forall (beyond (s_undoStore s)) (op_refs (fwd ++ inv)) /\ apart_refs (op_refs (fwd ++ inv))) /\
    (steady ctx -> store_clean (s_undoStore s) -> store_clean (s_undoStore s') /\ exists entry', r = Ok entry').
Proof.
  induction staged as [|x staged IH]; intros entry s k s' k' r H Hok Hep Hst; cbn [record_entry] in H.
  { injection H as <- <- <-. exists 0. split_and!; [done|done|by apply recorded_refl| |eauto].
    intros _ entry' [= <-]. exists [], []. rewrite app_nil_r. split; [by destruct entry|]. split_and!; [constructor..|apply apart_refs_nil]. }
  apply Forall_cons in Hst as [(Hi & Hl1 & Hl2) Hst]. rewrite zlen_cons. pose proof (zlen_nonneg staged) as Hz.
  split_bind H; [apply check_inv in He|apply check_inv in Hc]; [destruct He as (-> & _ & He)|destruct Hc as (-> & _ & Hc)].
  { exists 0. split_and!; [lia|lia|by apply recorded_refl|done|]. intros Hs. by rewrite Hs in He. }
  split_bind H.
  { destruct (historyText_spec _ _ _ _ _ _ He Hok Hep Hl1) as (n & Hn & Hr & _ & Hcl). exists n.
    split_and!; [lia|lia|done|done|]. intros _ Hc'. by destruct (Hcl Hc') as [_ [? ?]]. }
  destruct (historyText_spec _ _ _ _ _ _ Hc0 Hok Hep Hl1) as (n1 & Hn1 & Hr1 & Hk1 & Hcl1).
  assert (in_u64 (s_undoEpoch s0)) as Hep1 by (rewrite (rc_epoch _ _ _ Hr1); apply u64_range).
  split_bind H.
  { destruct (historyText_spec _ _ _ _ _ _ He (rc_store _ _ _ Hr1) Hep1 Hl2) as (n2 & Hn2 & Hr2 & _ & Hcl2).
    exists (n1 + n2). split_and!; [lia|lia|apply (recorded_trans _ _ _ s0); (done || lia)|done|].
    intros _ Hc'. destruct (Hcl1 Hc') as [Hc2 _]. by destruct (Hcl2 Hc2) as [_ [? ?]]. }
  destruct (historyText_spec _ _ _ _ _ _ Hc1 (rc_store _ _ _ Hr1) Hep1 Hl2) as (n2 & Hn2 & Hr2 & Hk2 & Hcl2).
  assert (in_u64 (s_undoEpoch s1)) as Hep2 by (rewrite (rc_epoch _ _ _ Hr2); apply u64_range).
  destruct (IH _ _ _ _ _ _ H (rc_store _ _ _ Hr2) Hep2 Hst) as (n3 & Hn3 & Hr3 & Hk3 & Hcl3).
  exists (n1 + n2 + n3).
  split_and!; [lia|lia|apply (recorded_trans _ _ _ s1); [lia..|apply (recorded_trans _ _ _ s0); (done || lia)|done]| |].
  2:{ intros Hs Hc'. destruct (Hcl1 Hc') as [Hc2 _]. destruct (Hcl2 Hc2) as [Hc3 _]. by apply Hcl3. }
  intros Hsum entry' E. assert (n1 = 0 /\ n2 = 0 /\ n3 = 0) as (-> & -> & ->) by lia.
  destruct (Hk3 eq_refl _ E) as (fwd & inv & -> & Hf & Hv & Hbey & Hap). cbn [he_forward he_inverse map rev].
  destruct (rc_same _ _ _ Hr1 eq_refl) as (_ & _ & Hx1).
  destruct (rc_same _ _ _ Hr2 eq_refl) as (_ & _ & Hx2). destruct (rc_same _ _ _ Hr3 eq_refl) as (_ & _ & Hx3).
  destruct (Hk1 eq_refl _ eq_refl) as [Hka Hba]. destruct (Hk2 eq_refl _ eq_refl) as [Hkb Hbb].
  eexists (_ :: fwd), (inv ++ [_]). rewrite <-!app_assoc. split; [reflexivity|]. split_and!.
  - constructor; [|done]. split_and!; [done|done|]. cbn [ho_insert]. rewrite <-Hi. by apply Hx3, Hx2.
  - apply Forall2_app; [done|]. constructor; [|done]. split_and!; [done|done|]. cbn. by apply Hx3.
  - destruct (apart_refs_cons _ _ _ _ _ _ Hx1 Hx2 (ex_intro _ _ Hka) (ex_intro _ _ Hkb) Hba Hbb Hbey Hap) as [H1 _].
    unfold op_refs in *. rewrite List.Forall_forall in *. intros q Hq. apply H1. cbn [map app In] in Hq |- *.
    rewrite !map_app, !in_app_iff in Hq. rewrite map_app, in_app_iff. cbn in Hq. tauto.
  - destruct (apart_refs_cons _ _ _ _ _ _ Hx1 Hx2 (ex_intro _ _ Hka) (ex_intro _ _ Hkb) Hba Hbb Hbey Hap) as [_ H2].
    refine (apart_refs_sub _ _ _ H2). unfold op_refs. intros q. cbn [map app ho_insert]. rewrite !map_app. set_solver.
Qed.

(** Reading an entry back gives its edits. *)
Lemma materialize_spec ctx hs : forall ops s k s' k' r,
  materializeHistory ctx hs s k = (s', k', r) -> store_ok (s_undoStore s) -> Forall2 (hist_op (s_undoStore s)) hs ops ->
  s' = set_undoStore (s_undoStore s') s /\ store_ok (s_undoStore s') /\ extends (s_undoStore s) (s_undoStore s') /\
  (forall ops', r = Ok ops' -> ops' = ops) /\
  (steady ctx -> store_clean (s_undoStore s) -> store_clean (s_undoStore s') /\ r = Ok ops).
Proof.
  induction hs as [|h hs IH]; intros ops s k s' k' r H Hok Hops; cbn [materializeHistory] in H.
  { injection H as <- <- <-. inversion Hops; subst. split_and!; [by destruct s|done|done|naive_solver|done]. }
  inversion Hops as [|? op ? ops1 (Hs1 & Hs2 & Hk) Hops']; subst.
  split_bind H; [apply check_inv in He|apply check_inv in Hc]; [destruct He as (-> & _ & He)|destruct Hc as (-> & _ & Hc)].
  { split_and!; [by destruct s|done|done|done|]. intros Hs. by rewrite Hs in He. }
  destruct (read (s_undoStore s) (ho_insert h)) as [us r1] eqn:Hrd.
  destruct (read_store _ _ _ _ _ Hok Hk Hrd) as (Hok1 & Hx1 & Hv & Hcl1).
  unfold bind at 1 in H. cbn beta in H. rewrite Hrd in H. destruct r1 as [v|e].
  2:{ injection H as <- <- <-. split_and!; [by destruct s|done|done|done|]. intros _ Hc'. by destruct (Hcl1 Hc'). }
  rewrite (Hv v eq_refl) in H.
  split_bind H;
    [destruct (IH ops1 _ _ _ _ _ He Hok1) as (E & ? & ? & Ho & Hcl)|destruct (IH ops1 _ _ _ _ _ Hc0 Hok1) as (E & ? & ? & Ho & Hcl)];
    try (by apply (hist_op_extends _ _ _ _ Hx1)).
  - split_and!; [by rewrite E at 1|done|by etransitivity|done|].
    intros Hs Hc'. destruct (Hcl1 Hc') as [Hc2 _]. by destruct (Hcl Hs Hc2).
  - injection H as <- <- <-. specialize (Ho _ eq_refl) as ->.
    assert (mkReplace (ho_start h) (ho_deleteLength h) (Insert op) = op) as -> by (destruct op; cbn in *; by subst).
    split_and!; [by rewrite E at 1|done|by etransitivity|naive_solver|].
    intros Hs Hc'. destruct (Hcl1 Hc') as [Hc2 _]. destruct (Hcl Hs Hc2). by split.
Qed.

(** ** The stacks as paths of versions *)

(** An entry between two versions: its forward edits lead from the first to the
    second and its inverse edits back, and both can be staged. *)
Definition entry_ok (us : option undoStore) (before : list byte) (e : historyEntry) (after : list byte) : Prop :=
  exists fwd inv,
    Forall2 (hist_op us) (he_forward e) fwd /\ Forall2 (hist_op us) (he_inverse e) inv /\
    ops_ok before fwd /\ apply_ops fwd before = after /\ ops_ok after inv /\ apply_ops inv after = before /\
    1 <= zlen fwd <= maximumBatchSize /\ zlen inv = zlen fwd.

(** [undo_path us past stack doc]: undoing the stack from its top leads from
    [doc] through the versions [past], latest first. *)
Inductive undo_path (us : option undoStore) : list (list byte) -> list historyEntry -> list byte -> Prop :=
| undo_path_nil doc : undo_path us [] [] doc
| undo_path_snoc past stack before e doc :
    entry_ok us before e doc -> undo_path us past stack before ->
    undo_path us (past ++ [before]) (stack ++ [e]) doc.

Inductive redo_path (us : option undoStore) : list (list byte) -> list historyEntry -> list byte -> Prop :=
| redo_path_nil doc : redo_path us [] [] doc
| redo_path_snoc future stack e after doc :
    entry_ok us doc e after -> redo_path us future stack after ->
    redo_path us (future ++ [after]) (stack ++ [e]) doc.

Lemma entry_ok_extends us us' before e after : extends us us' -> entry_ok us before e after -> entry_ok us' before e after.
Proof.
  intros Hx (fwd & inv & Hf & Hi & ?). exists fwd, inv.
  split; [by apply (hist_op_extends us)|]. split; [by apply (hist_op_extends us)|done].
Qed.

Lemma undo_path_extends us us' past stack doc : extends us us' -> undo_path us past stack doc -> undo_path us' past stack doc.
Proof. intros Hx. induction 1; econstructor; [by eapply entry_ok_extends|done]. Qed.

Lemma redo_path_extends us us' future stack doc : extends us us' -> redo_path us future stack doc -> redo_path us' future stack doc.
Proof. intros Hx. induction 1; econstructor; [by eapply entry_ok_extends|done]. Qed.

Lemma pop_snoc stack e : pop (stack ++ [e]) = stack.
Proof. apply removelast_last. Qed.

Lemma undo_path_top us past stack doc e :
  undo_path us past stack doc -> top stack = Some e ->
  exists past' before, past = past' ++ [before] /\ stack = pop stack ++ [e] /\ entry_ok us before e doc /\ undo_path us past' (pop stack) before.
Proof.
  intros [|past' stack' before e' doc' He Hp] Ht; [done|]. unfold top in Ht. rewrite last_snoc in Ht. injection Ht as ->.
  exists past', before. by rewrite pop_snoc.
Qed.

Lemma redo_path_top us future stack doc e :
  redo_path us future stack doc -> top stack = Some e ->
  exists future' after, future = future' ++ [after] /\ stack = pop stack ++ [e] /\ entry_ok us doc e after /\ redo_path us future' (pop stack) after.
Proof.
  intros [|future' stack' e' after doc' He Hp] Ht; [done|]. unfold top in Ht. rewrite last_snoc in Ht. injection Ht as ->.
  exists future', after. by rewrite pop_snoc.
Qed.

Lemma undo_path_none us past stack doc : undo_path us past stack doc -> top stack = None <-> past = [].
Proof.
  intros [|past' stack' before e doc' _ _]; [done|]. unfold top. rewrite last_snoc.
  split; [done|]. intros H. by apply app_eq_nil in H as [_ ?].
Qed.

Lemma redo_path_none us future stack doc : redo_path us future stack doc -> top stack = None <-> future = [].
Proof.
  intros [|future' stack' e after doc' _ _]; [done|]. unfold top. rewrite last_snoc.
  split; [done|]. intros H. by apply app_eq_nil in H as [_ ?].
Qed.

(** Every reference of a path is kept. *)
Lemma entry_kept us before e after : entry_ok us before e after -> Forall (fun r => exists text, keeps us r text) (entry_refs e).
Proof. intros (fwd & inv & Hf & Hi & _). apply Forall_app. split; by eapply hist_ops_kept. Qed.

Lemma stack_refs_snoc es e : stack_refs (es ++ [e]) = stack_refs es ++ entry_refs e.
Proof. rewrite stack_refs_app. unfold stack_refs. cbn. by rewrite app_nil_r. Qed.

Lemma undo_path_kept us past stack doc : undo_path us past stack doc -> Forall (fun r => exists text, keeps us r text) (stack_refs stack).
Proof. induction 1; [constructor|]. rewrite stack_refs_snoc. apply Forall_app. split; [done|by eapply entry_kept]. Qed.

Lemma redo_path_kept us future stack doc : redo_path us future stack doc -> Forall (fun r => exists text, keeps us r text) (stack_refs stack).
Proof. induction 1; [constructor|]. rewrite stack_refs_snoc. apply Forall_app. split; [done|by eapply entry_kept]. Qed.

Lemma Forall_beyond_sub us refs refs' : refs ⊆ refs' -> Forall (beyond us) refs' -> Forall (beyond us) refs.
Proof. rewrite !Forall_forall. auto. Qed.

(** A stack and a new entry. *)
Lemma apart_snoc us es e :
  Forall (fun r => exists text, keeps us r text) (stack_refs es) -> apart_refs (stack_refs es) ->
  Forall (beyond us) (entry_refs e) -> apart_refs (entry_refs e) -> apart_refs (stack_refs (es ++ [e])).
Proof. rewrite stack_refs_snoc. intros. by apply (apart_refs_app us). Qed.
