(* ===== verification/SessionEdit.v ===== *)
(** * Committing edits: the theory of document/session.go's editing operations

    A session refines an editor of document versions: a batch makes a new version
    from the present one, undo and redo move between the versions, and an
    operation that fails publishes nothing. *)

From Stdlib Require Import ZArith Lia List.
From stdpp Require Import base list numbers gmap.
From S2P Require Import Prelude GoLib Store File Journal ChangeMap ChangeHistory Events UndoStore Utf8 Options TreeText JournalText Session SessionText SessionHistory.
#[local] Open Scope Z_scope.

(** ** The journal of a session *)

Definition session_data (s : Session) : list byte :=
  match s_journal s with Some j => journal_data j | None => [] end.

(** The texts behind the pieces of a session: the base file and its journal. *)
Definition texts (base data : list byte) : Texts := fun id =>
  if id =? SourceBase then base else if id =? SourceJournal then data else [].

Definition with_journaled (t : Tree) (j : option Journal) (n : Z) (s : Session) : Session :=
  set_tree t (set_journal j (set_journalBytes n s)).

Definition journal_open (s : Session) : Prop := forall j, s_journal s = Some j -> is_Some (j_file j).

(** The file system keeps room for one more batch. *)
Definition fits (s : Session) : Prop := zlen (session_data s) + batchHeaderSize + maximumBatchPayload <= maxInt64.

(** A journal file the session creates is new. *)
Definition setup_fresh (setup : JournalSetup) : Prop := forall f, js_openFile setup = Ok f -> f_bytes f = [].

(** No file operation of the journal will fail. *)
Definition journal_clean (setup : JournalSetup) (s : Session) : Prop :=
  match s_journal s with
  | Some j => forall f, j_file j = Some f -> f_faults f = []
  | None => js_mkdirAll setup = None /\ exists f, js_openFile setup = Ok f /\ f_faults f = []
  end.

(** What the journal of a session holds before the next batch, once it exists. *)
Definition prior (s : Session) : list byte :=
  match s_journal s with Some j => journal_data j | None => encodeFileHeader (s_fingerprint s) end.
Definition faultless (s : Session) : Prop := forall j f, s_journal s = Some j -> j_file j = Some f -> f_faults f = [].

(** The journal will not fail, and a repair finds its header. *)
Definition journal_sound (setup : JournalSetup) (s : Session) : Prop :=
  journal_clean setup s /\ (s_journal s <> None -> fileHeaderSize <= zlen (session_data s)).

(** The journal holds what it did, or has just been created. *)
Definition log_kept (s s' : Session) : Prop :=
  faultless s' /\ ((s_journal s' = None /\ s_journal s = None) \/ (is_Some (s_journal s') /\ session_data s' = prior s)).

(** Where the payloads of a batch come to lie in a journal of [n] bytes. *)
Definition payload_offsets (n revision group : Z) (ops : list Journal.ReplaceOperation) : list Z :=
  map op_PayloadOffset (b_Operations (locatedBatch n revision group ops)).

Lemma log_kept_refl setup s : journal_clean setup s -> log_kept s s.
Proof.
  unfold journal_clean, log_kept, faultless, prior, session_data. destruct (s_journal s) as [j|]; intros Hc.
  - split; [|right; eauto]. intros j' f [= <-]. auto.
  - split; [done|by left].
Qed.

(** Why a batch is refused when nothing fails around it. *)
Definition commit_refused (s : Session) (doc : list byte) (ops : list ReplaceOperation) : option error :=
  if u64 (maxUint64 - zlen ops) <? s_revision s then Some document_ErrRevisionOverflow else
  match stage_spec (MaxInsertBytes (Limits (s_config s))) doc ops with
  | Err e => Some e
  | Ok staged =>
    let size := BatchEncodedSize (s_revision s ⊕ 1) (s_revision s ⊕ 1) (map recovery_op staged) in
    let current := match s_journal s with None => EmptyJournalBytes | Some _ => s_journalBytes s end in
    if current <=? MaxJournalBytes (Limits (s_config s)) ⊟ or_zero 0 size
    then match size with Err e => Some e | Ok _ => None end
    else Some (errWrap 3 document_ErrLimitExceeded)
  end.

(** Nothing fails: the context stays alive and no file operation has a fault ahead. *)
Definition calm (ctx : Context) (setup : JournalSetup) (s : Session) : Prop :=
  steady ctx /\ store_clean (s_undoStore s) /\ journal_clean setup s.

Lemma or_zero_map br ar doc staged :
  staged_ok doc staged -> zlen doc <= maxInt64 -> 0 < zlen staged <= maximumBatchSize ->
  let m := or_zero zeroChangeMap (NewChangeMap br ar (zlen doc) (map edit_of staged)) in
  map_ok m /\ m = mkChangeMap br ar (zlen doc) (zlen (apply_ops (map so_operation staged) doc)) (map edit_of staged).
Proof.
  intros Hst Hmax Hn. pose proof (zlen_nonneg doc) as H0.
  assert (edits_ok (map edit_of staged) (zlen doc) (zlen (apply_ops (map so_operation staged) doc))) as Hok.
  { clear Hn H0. revert doc Hst Hmax. induction staged as [|x staged IH]; intros doc Hst Hmax; [done|]. cbn in *.
    destruct Hst as (Hi & _ & _ & H0 & H1 & H2 & _ & _ & Hl & Hst). pose proof (zlen_nonneg (Insert (so_operation x))).
    split; [unfold edit_ok; cbn; rewrite Hi; lia|]. rewrite Hi.
    assert (zlen doc - DeleteLength (so_operation x) + zlen (Insert (so_operation x)) = zlen (apply_op (so_operation x) doc)) as ->
      by (unfold apply_op; by rewrite zlen_splice).
    apply IH; [done|]. unfold apply_op. by rewrite zlen_splice. }
  unfold NewChangeMap. rewrite zlen_map, (proj2 (Z.ltb_ge (zlen doc) 0)), (proj2 (Z.eqb_neq (zlen staged) 0)) by lia.
  cbn [orb andb]. unfold maximumBatchSize, MaximumEdits in *. rewrite (proj2 (Z.ltb_ge _ (zlen staged))) by lia.
  destruct (validate_edits_spec (map edit_of staged) (zlen doc)) as [Hv _]; [lia|].
  rewrite (proj2 (Hv _) Hok). cbn. split; [|done]. split; [cbn; lia|exact Hok|cbn; unfold MaximumEdits; rewrite zlen_map; lia|].
  intros E. apply (f_equal zlen) in E. cbn in E. rewrite zlen_map, zlen_nil in E. lia.
Qed.

Section Edit.
Context (journal_reads : list byte -> ReaderAt) (reads_ok : forall data, ReaderOk (journal_reads data) data).
Context (base : list byte).

Abbreviation holds_text := (fun data => holds (texts base data)).

(** A state that differs from [s] in the journal only, which has grown. *)
Record journaled (s s' : Session) (doc : list byte) : Prop := mkJournaled {
  jl_frame : s' = with_journaled (s_tree s') (s_journal s') (s_journalBytes s') s;
  jl_text : holds_text (session_data s') (s_tree s') doc;
  jl_open : journal_open s';
  jl_data : exists tail, session_data s' = session_data s ++ tail }.

Lemma holds_grow data tail t doc :
  holds_text data t doc ->
  holds_text (data ++ tail) (SetSource t SourceJournal (Some (journal_reads (data ++ tail)))) doc.
Proof using reads_ok.
  intros Ht. apply (holds_SetSource (texts base data)); [done| |apply reads_ok|].
  - intros i Hi. unfold texts. by rewrite (proj2 (Z.eqb_neq i SourceJournal)) by done.
  - intros p Hp E. pose proof (holds_range _ _ _ Ht) as Hr. rewrite List.Forall_forall in Hr.
    destruct (Hr p Hp) as (H0 & H1 & H2). rewrite E in H2. change (texts base data SourceJournal) with data in H2.
    pose proof (zlen_nonneg tail). unfold piece_bytes. rewrite E.
    change (texts base data SourceJournal) with data. change (texts base (data ++ tail) SourceJournal) with (data ++ tail).
    rewrite zlen_app. split; [lia|]. by apply slice_app_l.
Qed.

Lemma alias_alias t j j' : alias journal_reads (alias journal_reads t j) j' = alias journal_reads t j'.
Proof. unfold alias, SetSource. cbn. f_equal. apply insert_insert_eq. Qed.

Lemma journaled_refl s doc : holds_text (session_data s) (s_tree s) doc -> journal_open s -> journaled s s doc.
Proof. intros. split; [by destruct s|done|done|]. exists []. by rewrite app_nil_r. Qed.

(** Replacing the journal by one whose file has grown. *)
Lemma journaled_use s s1 doc f path tail :
  holds_text (session_data s) (s_tree s) doc -> s1 = with_journaled (s_tree s1) (s_journal s1) (s_journalBytes s1) s ->
  (s_tree s1 = s_tree s \/ exists j, s_tree s1 = alias journal_reads (s_tree s) j) -> f_bytes f = session_data s ++ tail ->
  journaled s (use_journal journal_reads (mkJournal (Some f) path) s1) doc.
Proof using reads_ok.
  intros Ht Hf Ht1 Hb. split; [by rewrite Hf| | |].
  - unfold use_journal, session_data. cbn [s_tree s_journal set_tree set_journal journal_data j_file].
    assert (alias journal_reads (s_tree s1) (mkJournal (Some f) path) = alias journal_reads (s_tree s) (mkJournal (Some f) path)) as ->
      by (destruct Ht1 as [->|[j ->]]; [done|apply alias_alias]).
    unfold alias. cbn [journal_data j_file]. rewrite Hb. by apply holds_grow.
  - intros j' [= <-]. cbn. eauto.
  - exists tail. exact Hb.
Qed.

Lemma ensureJournal_spec setup s k s' k' r doc :
  ensureJournalLocked journal_reads setup s k = (s', k', r) ->
  holds_text (session_data s) (s_tree s) doc -> journal_open s -> fingerprint_ok (s_fingerprint s) -> setup_fresh setup ->
  journaled s s' doc /\ (r = Ok tt \/ exists e, r = Err e /\ s' = s) /\
  (s_tree s' = s_tree s \/ exists j, s_tree s' = alias journal_reads (s_tree s) j) /\
  (r = Ok tt -> exists f path, s_journal s' = Some (mkJournal (Some f) path) /\
     s_journalBytes s' = match s_journal s with None => EmptyJournalBytes | Some _ => s_journalBytes s end /\
     (s_journal s = None -> zlen (f_bytes f) = EmptyJournalBytes) /\ f_bytes f = prior s /\
     (journal_clean setup s -> f_faults f = [])) /\
  (journal_clean setup s -> r = Ok tt).
Proof using reads_ok.
  intros H Ht Ho Hfp Hnew. unfold ensureJournalLocked in H. unfold journal_clean.
  destruct (s_journal s) as [j|] eqn:Hj.
  { injection H as <- <- <-. split_and!; [by apply journaled_refl|by left|by left| |done]. intros _.
    destruct j as [[f|] path]; [|by destruct (Ho _ Hj)]. exists f, path.
    split_and!; [done|done|done|by unfold prior; rewrite Hj|naive_solver]. }
  destruct (js_openFile setup) as [f|e] eqn:Hf.
  2:{ unfold openJournal in H. destruct (BaseSize (s_fingerprint s) <? 0); [|destruct (js_mkdirAll setup)];
      injection H as <- <- <-; (split_and!; [by apply journaled_refl|eauto|by left|done|by intros (_ & ? & ? & _)]). }
  pose proof (openJournal_new (js_path setup) (s_fingerprint s) (js_mkdirAll setup) f Hfp (Hnew _ Hf)) as Hop.
  destruct (openJournal _ _ _ _) as [x [[j1 rr]|e]].
  2:{ injection H as <- <- <-. split_and!; [by apply journaled_refl|eauto|by left|done|].
      intros (? & ? & [= <-] & ?). by destruct Hop. }
  destruct Hop as (f1 & -> & Hb1 & _ & Hc1). unfold Size in H. cbn [j_file] in H.
  destruct (file_Stat f1) as [f2 sz] eqn:Hs. destruct (file_Stat_spec _ _ _ Hs) as (Hb2 & Hsz & Hc2).
  destruct sz as [n|e].
  2:{ destruct (Journal.Close _) in H. injection H as <- <- <-. split_and!; [by apply journaled_refl|eauto|by left|done|].
      intros (? & ? & [= <-] & Hc). by destruct (Hc2 (Hc1 Hc)). }
  injection H as <- <- <-. assert (session_data s = []) as Hd0 by (unfold session_data; by rewrite Hj).
  assert (zlen (f_bytes f2) = EmptyJournalBytes) as Hz.
  { rewrite Hb2, Hb1. by apply zlen_encodeFileHeader. }
  change (Journal.with_file (mkJournal (Some f1) (js_path setup)) f2) with (mkJournal (Some f2) (js_path setup)).
  split_and!; [| by left|right; by eexists| |done].
  - destruct (journaled_use s s doc f2 (js_path setup) (f_bytes f2) Ht) as [H1 H2 H3 H4];
      [by destruct s|by left|by rewrite Hd0|]. split; [|exact H2|exact H3|exact H4]. by rewrite H1 at 1.
  - intros _. eexists f2, _. split_and!; [done| |done| |].
    + cbn. rewrite (Hsz _ eq_refl), <-Hb2. exact Hz.
    + unfold prior. by rewrite Hj, Hb2.
    + intros (? & ? & [= <-] & Hc). apply Hc2, Hc1, Hc.
Qed.

(** The append of a batch, through the session. *)
Lemma append_phase s s1 k s2 k' r rev grp rops doc f path :
  with_journal journal_reads (fun j => AppendBatch j rev grp rops) s1 k = (s2, k', r) ->
  holds_text (session_data s) (s_tree s) doc -> journaled s s1 doc ->
  (s_tree s1 = s_tree s \/ exists j, s_tree s1 = alias journal_reads (s_tree s) j) ->
  s_journal s1 = Some (mkJournal (Some f) path) -> batch_typed rev grp rops -> fits s1 ->
  journaled s s2 doc /\
  exists f', s2 = use_journal journal_reads (mkJournal (Some f') path) s1 /\ appended f f' rev grp rops r /\
    (f_faults f = [] -> f_faults f' = []) /\
    (f_faults f = [] -> batch_ok rev grp rops -> exists a, r = Ok a) /\
    (forall e, batchPayloadSize rev grp rops = Err e -> r = Err e) /\
    (f_faults f = [] -> forall e, r = Err e -> f_bytes f' = f_bytes f).
Proof using reads_ok.
  intros H Ht Hj1 Htree Hj Hty Hfit. unfold with_journal in H. rewrite Hj in H.
  destruct (AppendBatch _ _ _ _) as [j' r'] eqn:Ha. injection H as <- <- <-.
  unfold fits, session_data in Hfit. rewrite Hj in Hfit. cbn [journal_data j_file] in Hfit.
  destruct (AppendBatch_appended _ _ _ _ _ _ _ Ha Hty Hfit) as (f' & -> & Happ & Hc & Hok & Hsame).
  split; [|exists f'; split_and!; try done].
  2:{ intros e E. rewrite AppendBatch_unfold, E in Ha by done. by injection Ha. }
  destruct (jl_data _ _ _ Hj1) as [t0 Ht0]. unfold session_data at 1 in Ht0. rewrite Hj in Ht0. cbn in Ht0.
  assert (exists tail, f_bytes f' = f_bytes f ++ tail) as [tail Htail].
  { destruct r' as [a|e]; [destruct Happ as (_ & Hb & _); by eexists|exact Happ]. }
  apply (journaled_use s s1 doc f' path (t0 ++ tail)); [done|apply Hj1|done|]. by rewrite Htail, Ht0, app_assoc.
Qed.

(** The second pass over the batch, on the payloads of the journal. *)
Lemma replay_staged_spec ctx D data staged : forall offsets t doc s k s' k' r,
  replay_staged ctx t staged offsets s k = (s', k', r) -> holds D t doc -> D SourceJournal = data -> zlen data <= maxInt64 ->
  (exists rd, t_sources t !! SourceJournal = Some rd /\ ReaderOk rd data) -> staged_ok doc staged ->
  Forall2 (payload_at data) offsets (map so_inserted staged) ->
  s' = s /\ (forall t', r = Ok t' -> holds D t' (apply_ops (map so_operation staged) doc)) /\
  (steady ctx -> exists t', r = Ok t').
Proof.
  induction staged as [|x staged IH]; intros offsets t doc s k s' k' r H Ht HD Hmax Hsrc Hst Hoff; cbn [replay_staged] in H.
  { injection H as <- <- <-. split_and!; [done|by intros t' [= <-]|eauto]. }
  cbn [map] in Hoff. inversion Hoff as [|off ? offs ? (Ho0 & Ho1 & Ho2) Hoff']; subst. cbn [hd tl] in H.
  split_bind H; [apply check_inv in He|apply check_inv in Hc]; [destruct He as (-> & _ & He)|destruct Hc as (-> & _ & Hc)].
  { split_and!; [done|done|]. intros Hs. by rewrite Hs in He. }
  destruct Hst as (Hi & _ & _ & H0 & H1 & H2 & _ & _ & Hl & Hst). set (op := so_operation x) in *.
  destruct (insert_piece_valid SourceJournal off (so_inserted x) Ho0 ltac:(lia)) as (Hty & Hv & Hlen & Hso).
  pose proof (zlen_nonneg (so_inserted x)) as Hi0.
  pose proof (holds_replace D t doc (Start op) (DeleteLength op) (insert_piece SourceJournal off (so_inserted x))
    Ht Hty H0 H1 H2 Hv ltac:(lia)) as Hr.
  assert (piece_bytes D (insert_piece SourceJournal off (so_inserted x)) = Insert op) as Hb.
  { unfold piece_bytes. rewrite Hlen, <-Hi. destruct (decide (0 < zlen (so_inserted x))) as [Hpos|Hz].
    - by destruct (Hso Hpos) as [-> ->].
    - rewrite (zlen_zero (so_inserted x)) by lia. by apply slice_nil_len. }
  rewrite Hb in Hr. unfold lift, bind in H. destruct (ReplacePiece _ _ _ _) as [t1 [y|e]].
  2:{ destruct Hr as (_ & _ & Hover); [|rewrite Hlen, Hi in Hover; lia].
      intros Hpos. destruct (Hso ltac:(lia)) as [E1 E2]. split; [unfold in_range; rewrite E1, E2, Hlen; lia|by rewrite E1]. }
  destruct Hr as [Hh Hsrc'].
  { intros Hpos. destruct (Hso ltac:(lia)) as [E1 E2]. split; [unfold in_range; rewrite E1, E2, Hlen; lia|by rewrite E1]. }
  apply (IH _ _ _ _ _ _ _ _ H Hh eq_refl Hmax); [by rewrite Hsrc'|done|done].
Qed.

(** [RepairTail] at the length the journal had before the append. *)
Lemma repair_phase {A} (c : M A) data n f path s1 s2 s3 k k2 k3 r2 r3 :
  repairing journal_reads n c s1 k = (s3, k3, r3) -> c s1 k = (s2, k2, r2) ->
  s_journal s2 = Some (mkJournal (Some f) path) -> (exists tail, f_bytes f = data ++ tail) -> n = zlen data ->
  match r2 with
  | Ok a => s3 = s2 /\ r3 = Ok a
  | Err e => exists f' e', s3 = use_journal journal_reads (mkJournal (Some f') path) s2 /\ r3 = Err e' /\
                           (exists tail, f_bytes f' = data ++ tail) /\
                           (f_faults f = [] -> fileHeaderSize <= n -> f_faults f' = [] /\ f_bytes f' = data)
  end.
Proof.
  intros H Hc Hj [tail Hb] ->. unfold repairing in H. rewrite Hc in H. destruct r2 as [a|e]; [by injection H as <- <- <-|].
  rewrite Hj in H. destruct (RepairTail _ _) as [j' re] eqn:Hr. injection H as <- <- <-. pose proof (zlen_nonneg tail).
  destruct (RepairTail_cut _ _ _ _ _ Hr) as (f' & -> & Hcut & Hcl & Hex); [rewrite Hb, zlen_app; lia|].
  eexists f', _. split_and!; [done|done| |].
  - destruct Hcut as [->| ->]; rewrite Hb; [exists []; rewrite app_nil_r; by apply ztake_app|by exists tail].
  - intros Hf Hh. split; [by apply Hcl|]. destruct (Hex Hf Hh) as [_ ->]. rewrite Hb. by apply ztake_app.
Qed.

(** What the commit does between the append and the publication. *)
Definition commit_body (ctx : Context) (staged : list stagedOperation) (offsets : list Z) (recordHistory : bool)
  : M (Tree * historyEntry) :=
  do _ <- check ctx;
  do s <- get;
  do finalTree <- replay_staged ctx (cloneDocumentTree (s_tree s)) staged offsets;
  do entry <- (if recordHistory then record_entry ctx staged emptyEntry else ret emptyEntry);
  ret (finalTree, entry).

(** The entry of a batch: its texts are new in the store and share no byte. *)
Definition entry_of (old us : option undoStore) (staged : list stagedOperation) (entry : historyEntry) : Prop :=
  Forall2 (hist_op us) (he_forward entry) (map so_operation staged) /\
  Forall2 (hist_op us) (he_inverse entry) (rev (map undo_op staged)) /\
  Forall (beyond old) (entry_refs entry) /\ apart_refs (entry_refs entry).

Lemma commit_body_spec ctx staged offsets rec s k s' k' r doc :
  commit_body ctx staged offsets rec s k = (s', k', r) ->
  holds_text (session_data s) (s_tree s) doc -> store_ok (s_undoStore s) -> in_u64 (s_undoEpoch s) ->
  (exists rd, t_sources (s_tree s) !! SourceJournal = Some rd /\ ReaderOk rd (session_data s)) ->
  zlen (session_data s) <= maxInt64 -> staged_ok doc staged ->
  Forall2 (payload_at (session_data s)) offsets (map so_inserted staged) ->
  exists n, 0 <= n <= 2 * zlen staged /\ recorded n s s' /\ (rec = false -> n = 0 /\ s' = s) /\
    (forall t entry, r = Ok (t, entry) -> holds_text (session_data s) t (apply_ops (map so_operation staged) doc) /\
       (rec = true -> n = 0 -> entry_of (s_undoStore s) (s_undoStore s') staged entry)) /\
    (steady ctx -> store_clean (s_undoStore s) -> store_clean (s_undoStore s') /\ exists x, r = Ok x).
Proof using.
  intros H Ht Hok Hep Hsrc Hmax Hst Hoff. destruct (cloneDocumentTree_holds _ _ _ Ht) as [Hclone Hcs].
  pose proof (zlen_nonneg staged) as Hz. pose proof (proj2 (holds_length _ _ _ Ht)) as Hlen.
  assert (recorded 0 s s) as Hr0 by (by apply recorded_refl).
  unfold commit_body in H.
  split_bind H; [apply check_inv in He|apply check_inv in Hc]; [destruct He as (-> & _ & He)|destruct Hc as (-> & _ & Hc)].
  { exists 0. split_and!; try done; [lia|]. intros Hs. by rewrite Hs in He. }
  unfold bind at 1, get in H.
  assert (forall s2 k2 r2, replay_staged ctx (cloneDocumentTree (s_tree s)) staged offsets s k0 = (s2, k2, r2) ->
    s2 = s /\ (forall t', r2 = Ok t' -> holds_text (session_data s) t' (apply_ops (map so_operation staged) doc)) /\
    (steady ctx -> exists t', r2 = Ok t')) as Hrep.
  { intros s2 k2 r2 E. apply (replay_staged_spec _ _ _ _ _ _ _ _ _ _ _ _ E Hclone eq_refl Hmax); [by rewrite Hcs|done|done]. }
  split_bind H; [destruct (Hrep _ _ _ He) as (-> & _ & Hst2)|destruct (Hrep _ _ _ Hc0) as (-> & Hh & _)].
  { exists 0. split_and!; try done; [lia|]. intros Hs _. by destruct (Hst2 Hs). }
  specialize (Hh _ eq_refl). destruct rec.
  2:{ injection H as <- <- <-. exists 0. split_and!; try done; [lia| |eauto]. by intros t entry [= <- <-]. }
  split_bind H;
    [destruct (record_entry_spec _ _ _ _ _ _ _ _ He Hok Hep (staged_short _ _ Hst Hlen)) as (n & Hn & Hr & Hk & Hcl)
    |destruct (record_entry_spec _ _ _ _ _ _ _ _ Hc1 Hok Hep (staged_short _ _ Hst Hlen)) as (n & Hn & Hr & Hk & Hcl)].
  - exists n. split_and!; try done; try lia. intros Hs Hc'. by destruct (Hcl Hs Hc') as [_ [? ?]].
  - injection H as <- <- <-. exists n. split_and!; try done; try lia.
    + intros t entry [= <- <-]. split; [done|]. intros _ H0. destruct (Hk H0 _ eq_refl) as (fwd & inv & -> & ? & ? & Hb & Ha).
      unfold op_refs in Hb, Ha. rewrite map_app in Hb, Ha. unfold entry_of, entry_refs, op_refs. cbn. rewrite app_nil_r. by split_and!.
    + intros Hs Hc'. destruct (Hcl Hs Hc') as [? _]. eauto.
Qed.

(** ** Commits *)

(** What a session has to be for an edit of [doc]. *)
Record session_base (s : Session) (doc : list byte) : Prop := mkBase {
  sb_config : config_ok (s_config s);
  sb_fingerprint : fingerprint_ok (s_fingerprint s);
  sb_text : holds_text (session_data s) (s_tree s) doc;
  sb_utf8 : utf8_Valid doc = true;
  sb_open : journal_open s;
  sb_revision : in_u64 (s_revision s);
  sb_epoch : in_u64 (s_undoEpoch s);
  sb_store : store_ok (s_undoStore s) }.

(** A failed commit: the journal and the undo store may have changed. *)
Definition aborted (sound : Prop) (s s' : Session) (doc : list byte) (rec : bool) : Prop :=
  exists s1 s2 n, journaled s s1 doc /\ recorded n s1 s2 /\ 0 <= n <= 2 * maximumBatchSize /\ (rec = false -> n = 0) /\
    s' = with_journaled (s_tree s') (s_journal s') (s_journalBytes s') s2 /\
    holds_text (session_data s') (s_tree s') doc /\ journal_open s' /\ (exists tail, session_data s' = session_data s ++ tail) /\
    (sound -> log_kept s s').

Definition committed (sound : Prop) (s s' : Session) (doc : list byte) (staged : list stagedOperation) (rec : bool) : Prop :=
  exists s1 s2 n t a entry, journaled s s1 doc /\ recorded n s1 s2 /\ 0 <= n <= 2 * maximumBatchSize /\ (rec = false -> n = 0) /\
    holds_text (session_data s2) t (apply_ops (map so_operation staged) doc) /\
    (rec = true -> n = 0 -> entry_of (s_undoStore s) (s_undoStore s2) staged entry) /\
    EndOffset a = zlen (session_data s2) /\
    PayloadOffsets a = payload_offsets (zlen (prior s)) (s_revision s ⊕ 1) (s_revision s ⊕ 1) (map recovery_op staged) /\ is_Some (s_journal s2) /\
    session_data s2 = prior s ++ encodeBatch (s_revision s ⊕ 1) (s_revision s ⊕ 1) (map recovery_op staged) /\
    batch_ok (s_revision s ⊕ 1) (s_revision s ⊕ 1) (map recovery_op staged) /\ (sound -> faultless s2) /\
    s' = commit_state t a staged (s_revision s ⊕ 1) entry (s_undoEpoch s) rec s2.

Lemma aborted_journaled sound s s' doc rec :
  session_base s doc -> journaled s s' doc -> (sound -> log_kept s s') -> aborted sound s s' doc rec.
Proof using.
  intros [] Hj Hlog. exists s', s', 0. pose proof Hj as [Hf Ht Ho Hd].
  split_and!; try done; [apply recorded_refl; by rewrite Hf|by destruct s'].
Qed.

(** The commit from the creation of the journal on. *)
Definition commit_rest (ctx : Context) (setup : JournalSetup) (staged : list stagedOperation) (batchBytes maximum group epoch : Z)
  (recordHistory : bool) (changes : ChangeMap) : M ChangeMap :=
  do _ <- ensureJournalLocked journal_reads setup;
  do s <- get;
  do _ <- lift (checkJournalQuota (s_journalBytes s) batchBytes maximum);
  do appendResult <- with_journal journal_reads (fun j => AppendBatch j (s_revision s ⊕ 1) group (map recovery_op staged));
  do finalTree_entry <- repairing journal_reads (BatchOffset appendResult)
    (commit_body ctx staged (PayloadOffsets appendResult) recordHistory);
  let '(finalTree, entry) := finalTree_entry in
  do _ <- modify (commit_state finalTree appendResult staged group entry epoch recordHistory);
  ret changes.

Lemma recovery_payloads staged doc : staged_ok doc staged -> map ro_Inserted (map recovery_op staged) = map so_inserted staged.
Proof. intros _. rewrite map_map. done. Qed.

(** After a successful append. *)
Lemma commit_appended (sound : Prop) ctx staged f f' path s s1 k s' k' r doc rec epoch changes a :
  session_base s doc -> journaled s s1 doc -> s_journal s1 = Some (mkJournal (Some f) path) -> fits s1 ->
  (s_tree s1 = s_tree s \/ exists j, s_tree s1 = alias journal_reads (s_tree s) j) ->
  staged_ok doc staged -> zlen staged <= maximumBatchSize -> f_bytes f = prior s ->
  (sound -> f_faults f' = [] /\ fileHeaderSize <= zlen (f_bytes f)) ->
  let s2 := use_journal journal_reads (mkJournal (Some f') path) s1 in
  journaled s s2 doc -> appended f f' (s_revision s ⊕ 1) (s_revision s ⊕ 1) (map recovery_op staged) (Ok a) ->
  bind (B := ChangeMap) (repairing journal_reads (BatchOffset a) (commit_body ctx staged (PayloadOffsets a) rec))
    (fun x : Tree * historyEntry => let '(finalTree, entry) := x in do _ <- modify (commit_state finalTree a staged (s_revision s ⊕ 1) entry epoch rec); ret changes)
    s2 k = (s', k', r) ->
  epoch = s_undoEpoch s ->
  match r with
  | Ok changes' => changes' = changes /\ committed sound s s' doc staged rec
  | Err _ => aborted sound s s' doc rec /\ (steady ctx -> ~ store_clean (s_undoStore s))
  end.
Proof using reads_ok.
  intros Hb Hj1 Hjs1 Hfit Htree Hst Hn Hprior Hsound s2 Hj2 (Hbo & Hbytes & Hboff & Hend & Hoffs) H ->.
  assert (session_data s1 = f_bytes f) as Hd1 by (unfold session_data; by rewrite Hjs1).
  assert (session_data s2 = f_bytes f') as Hd2 by done.
  destruct (jl_data _ _ _ Hj1) as [tail1 Htail1]. pose proof Hb as [_ _ Ht _ _ _ Hep Hok].
  assert (s_undoStore s2 = s_undoStore s /\ s_undoEpoch s2 = s_undoEpoch s) as [Hus Hepoch].
  { destruct Hj2 as [Hf _ _ _]. by rewrite Hf. }
  unfold fits in Hfit. rewrite Hd1 in Hfit.
  pose proof (appended_payloads (f_bytes f) (mkLogged (s_revision s ⊕ 1) (s_revision s ⊕ 1) (map recovery_op staged))) as Hpay.
  unfold encodeLogged in Hpay. cbn [l_rev l_group l_ops] in Hpay. rewrite <-Hoffs, <-Hbytes, <-Hd2, (recovery_payloads _ _ Hst) in Hpay.
  assert (zlen (session_data s2) <= maxInt64) as Hmax.
  { rewrite Hd2, Hbytes, zlen_app, zlen_encodeBatch. pose proof (bo_size _ _ _ Hbo). lia. }
  destruct (commit_body ctx staged (PayloadOffsets a) rec s2 k) as [[s3 k3] r3] eqn:Hbody.
  destruct (commit_body_spec _ _ _ _ _ _ _ _ _ doc Hbody) as (n & Hnn & Hrec & Hnorec & Hres & Hcl);
    [by apply Hj2|by rewrite Hus|by rewrite Hepoch| |done..|].
  { eexists. split; [apply lookup_insert_eq|]. apply reads_ok. }
  destruct (repairing journal_reads (BatchOffset a) (commit_body ctx staged (PayloadOffsets a) rec) s2 k) as [[s4 k4] r4] eqn:Hrep.
  assert (s_journal s3 = Some (mkJournal (Some f') path) /\ s_tree s3 = s_tree s2) as [Hj3 Ht3]
    by (rewrite (rc_frame _ _ _ Hrec); done).
  pose proof (repair_phase (commit_body ctx staged (PayloadOffsets a) rec) (f_bytes f) _ _ _ _ _ _ _ _ _ _ _ Hrep Hbody Hj3) as Hr4.
  unfold bind at 1 in H. rewrite Hrep in H.
  specialize (Hr4 (ex_intro _ _ Hbytes) Hboff). destruct r3 as [[t entry]|e].
  - destruct Hr4 as [-> ->]. injection H as <- <- <-. split; [done|]. destruct (Hres _ _ eq_refl) as [Hh Hent].
    exists s2, s3, n, t, a, entry.
    assert (session_data s3 = session_data s2) as E by (unfold session_data; rewrite Hj3; done).
    split_and!; try done; try lia; [by intros E'; destruct (Hnorec E')|by rewrite E|by rewrite <-Hus|by rewrite E, Hd2|by rewrite Hoffs, Hprior| |].
    + by rewrite E, Hd2, Hbytes, Hprior.
    + intros Hs j g. rewrite Hj3. intros [= <-] [= <-]. by apply Hsound.
  - destruct Hr4 as (f'' & e' & -> & -> & [tail'' Hb''] & Hcl''). injection H as <- <- <-. split.
    2:{ intros Hs Hc. rewrite Hus in Hcl. destruct (Hcl Hs Hc) as [_ [? ?]]. done. }
    exists s2, s3, n.
    assert (journaled s (use_journal journal_reads (mkJournal (Some f'') path) s2) doc) as [_ Ht' Ho' Hd'].
    { apply (journaled_use s s2 doc f'' path (tail1 ++ tail'')); [done|apply Hj2| |by rewrite Hb'', app_assoc, <-Hd1, Htail1].
      right. exists (mkJournal (Some f') path). cbn. destruct Htree as [->|[j ->]]; [done|apply alias_alias]. }
    split_and!; try done; try lia; [by intros E'; destruct (Hnorec E')| |].
    + unfold use_journal in *. cbn [s_tree set_tree set_journal] in *. by rewrite Ht3.
    + intros Hs. destruct (Hsound Hs) as [Hf Hh]. destruct (Hcl'' Hf) as [Hf'' Hbb]; [by rewrite Hboff|].
      split; [by intros j g [= <-] [= <-]|]. right. split; [by eexists|]. by rewrite <-Hprior, <-Hbb.
Qed.

Definition rev1 (s : Session) : Z := s_revision s ⊕ 1.

Lemma recovery_typed s staged doc :
  in_u64 (s_revision s) -> staged_ok doc staged -> zlen doc <= maxInt64 ->
  batch_typed (rev1 s) (rev1 s) (map recovery_op staged).
Proof.
  intros Hr Hst Hmax. split; [apply u64_range|]. split; [apply u64_range|]. clear Hr. revert doc Hst Hmax.
  induction staged as [|x staged IH]; intros doc Hst Hmax; [constructor|]. cbn in Hst.
  destruct Hst as (_ & _ & _ & H0 & H1 & H2 & _ & _ & Hl & Hst). pose proof (zlen_nonneg (Insert (so_operation x))).
  constructor; [unfold_ints; cbn; lia|]. apply (IH _ Hst). unfold apply_op. by rewrite zlen_splice.
Qed.

Definition commit_result (ctx : Context) (setup : JournalSetup) (s s' : Session) (doc : list byte) (staged : list stagedOperation)
  (rec : bool) (changes : ChangeMap) (refusal : option error) (r : result ChangeMap) : Prop :=
  match r with
  | Ok changes' => changes' = changes /\ refusal = None /\ committed (journal_sound setup s) s s' doc staged rec
  | Err e => aborted (journal_sound setup s) s s' doc rec /\ (calm ctx setup s -> refusal = Some e)
  end.

Lemma commit_rest_spec ctx setup staged s k s' k' r doc rec changes size :
  size = BatchEncodedSize (rev1 s) (rev1 s) (map recovery_op staged) ->
  commit_rest ctx setup staged (or_zero 0 size) (MaxJournalBytes (Limits (s_config s))) (rev1 s) (s_undoEpoch s) rec changes s k
    = (s', k', r) ->
  session_base s doc -> setup_fresh setup -> fits s -> staged_ok doc staged -> zlen staged <= maximumBatchSize ->
  (match s_journal s with None => EmptyJournalBytes | Some _ => s_journalBytes s end
     <=? MaxJournalBytes (Limits (s_config s)) ⊟ or_zero 0 size) = true ->
  commit_result ctx setup s s' doc staged rec changes (match size with Err e => Some e | Ok _ => None end) r.
Proof using reads_ok.
  intros Hsize H Hb Hnew Hfit Hst Hn Hquota. pose proof Hb as [Hcfg Hfp Ht Hv Ho Hrev Hep Hok].
  unfold commit_rest in H. unfold commit_result.
  split_bind H;
    [destruct (ensureJournal_spec _ _ _ _ _ _ _ He Ht Ho Hfp Hnew) as (_ & [?|(e' & [= <-] & ->)] & _ & _ & Hcalm); [done|]
    |destruct (ensureJournal_spec _ _ _ _ _ _ _ Hc Ht Ho Hfp Hnew) as (Hj1 & _ & Htree & Hj & Hcalm)].
  { split; [|intros (_ & _ & Hc); by specialize (Hcalm Hc)].
    apply aborted_journaled; [done|by apply journaled_refl|intros [Hs _]; by apply (log_kept_refl setup)]. }
  destruct a. destruct (Hj eq_refl) as (f & path & Hjs & Hjb & Hsz & Hprior & Hfc). clear Hj Hcalm.
  assert (s_revision s0 = s_revision s) as Hrev0 by (rewrite (jl_frame _ _ _ Hj1); done).
  unfold bind at 1, get in H. unfold checkJournalQuota in H. rewrite Hjb, Hquota in H. unfold bind at 1, lift in H.
  rewrite Hrev0 in H. fold (rev1 s) in H.
  assert (fits s0) as Hfit0.
  { unfold fits, session_data. rewrite Hjs. cbn. destruct (s_journal s) as [j|] eqn:E.
    - unfold ensureJournalLocked in Hc. rewrite E in Hc. injection Hc as <- _. unfold fits, session_data in Hfit.
      rewrite Hjs in Hfit. exact Hfit.
    - rewrite (Hsz eq_refl). done. }
  pose proof (recovery_typed s staged doc Hrev Hst (proj2 (holds_length _ _ _ Ht))) as Hty.
  assert (forall e, batchPayloadSize (rev1 s) (rev1 s) (map recovery_op staged) = Err e -> size = Err e) as Hse
    by (intros e E; rewrite Hsize; unfold BatchEncodedSize; by rewrite E).
  split_bind H;
    [destruct (append_phase _ _ _ _ _ _ _ _ _ _ _ _ He Ht Hj1 Htree Hjs Hty Hfit0) as (Hj2 & f' & -> & Happ & Hff & Hprog & Herr & Hclean)
    |destruct (append_phase _ _ _ _ _ _ _ _ _ _ _ _ Hc0 Ht Hj1 Htree Hjs Hty Hfit0) as (Hj2 & f' & -> & Happ & Hff & Hprog & Herr & Hclean)].
  - split.
    { apply aborted_journaled; [done|done|]. intros [Hs Hh]. split; [intros j g [= <-] [= <-]; by apply Hff, Hfc|].
      right. split; [by eexists|]. unfold session_data. cbn. rewrite <-Hprior. by apply (Hclean (Hfc Hs) _ eq_refl). }
    intros (_ & _ & Hc').
    destruct (batchPayloadSize (rev1 s) (rev1 s) (map recovery_op staged)) as [n|e'] eqn:Ep.
    + destruct (Hprog (Hfc Hc')) as [a ?]; [|done]. by apply batchPayloadSize_spec in Ep as [? _].
    + rewrite (Hse _ eq_refl). specialize (Herr _ eq_refl). by injection Herr as <-.
  - assert (exists n, size = Ok n) as [n ->].
    { destruct (batchPayloadSize (rev1 s) (rev1 s) (map recovery_op staged)) as [n|e'] eqn:Ep; [|by specialize (Herr _ eq_refl)].
      rewrite Hsize. unfold BatchEncodedSize. rewrite Ep. by eexists. }
    assert (journal_sound setup s -> f_faults f' = [] /\ fileHeaderSize <= zlen (f_bytes f)) as Hsound.
    { intros [Hs Hh]. split; [by apply Hff, Hfc|]. rewrite Hprior. unfold prior. unfold session_data in Hh.
      destruct (s_journal s) as [j|]; [by apply Hh|]. by rewrite zlen_encodeFileHeader. }
    pose proof (commit_appended _ ctx staged f f' path s s0 _ s' k' r doc rec _ changes a Hb Hj1 Hjs Hfit0 Htree Hst Hn Hprior Hsound Hj2 Happ H eq_refl) as Hres.
    destruct r as [c|e]; [by destruct Hres|]. destruct Hres as [Hab Hcl]. split; [done|]. intros (Hs & Hc' & _). by destruct (Hcl Hs).
Qed.

(** The change map a commit reports. *)
Definition commit_changes (s : Session) (doc : list byte) (staged : list stagedOperation) : ChangeMap :=
  mkChangeMap (s_revision s) (s_revision s + zlen staged) (zlen doc) (zlen (apply_ops (map so_operation staged) doc))
    (map edit_of staged).

Lemma apply_outcome ctx setup ops rec s k s' k' r doc :
  applyOperationsLocked journal_reads ctx setup ops rec s k = (s', k', r) ->
  session_base s doc -> setup_fresh setup -> fits s -> 0 < zlen ops <= maximumBatchSize ->
  match r with
  | Err e => aborted (journal_sound setup s) s s' doc rec /\ (calm ctx setup s -> commit_refused s doc ops = Some e)
  | Ok changes => exists staged, stage_spec (MaxInsertBytes (Limits (s_config s))) doc ops = Ok staged /\
      commit_refused s doc ops = None /\ committed (journal_sound setup s) s s' doc staged rec /\
      changes = commit_changes s doc staged /\ map_ok changes /\ s_revision s + zlen ops <= maxUint64
  end.
Proof using reads_ok.
  intros H Hb Hnew Hfit Hops. pose proof Hb as [Hcfg Hfp Ht Hv Ho Hrev Hep Hok].
  destruct (holds_length _ _ _ Ht) as [Hlen Hmax]. destruct Hcfg as [[? Hins _ _ _ _ _ _ _] _].
  assert (aborted (journal_sound setup s) s s doc rec) as Hstay
    by (apply aborted_journaled; [done|by apply journaled_refl|intros [Hs _]; by apply (log_kept_refl setup)]).
  unfold applyOperationsLocked, commit_refused in *. unfold bind at 1, get in H.
  unfold maximumBatchSize in *. replace (u64 (maxUint64 - zlen ops)) with (maxUint64 - zlen ops) in * by (rewrite u64_id; go_lia).
  destruct (Z.ltb_spec (maxUint64 - zlen ops) (s_revision s)) as [|Hfits]; [injection H as <- <- <-; done|].
  assert (forall s1 k1 r1, stageOperationsLocked ctx ops s k = (s1, k1, r1) -> s1 = s /\
    ((exists j e, ctx j = Some e /\ r1 = Err e) \/ r1 = stage_spec (MaxInsertBytes (Limits (s_config s))) doc ops)) as Hstage.
  { intros s1 k1 r1 E. apply (stageOperations_spec _ _ _ _ _ _ _ _ _ E Ht); [done|]. unfold MaximumInsertBytes in *.
    pose proof (Z.mul_le_mono_nonneg (Z.max 0 (MaxInsertBytes (Limits (s_config s)))) 1073741800 (zlen ops) 256). go_lia. }
  split_bind H; [destruct (Hstage _ _ _ He) as [-> Hr]|destruct (Hstage _ _ _ Hc) as [-> Hr]].
  { destruct Hr as [(j & e' & Hj & _)| <-]; split; try done. intros (Hs & _). by rewrite Hs in Hj. }
  destruct Hr as [(? & ? & _ & ?)|Hr]; [done|]. symmetry in Hr. rewrite Hr. destruct (stage_spec_ok _ _ _ _ Hr) as (Hst & Hmap & _).
  assert (zlen a = zlen ops) as Hzl by (by rewrite <-Hmap, zlen_map).
  replace (s_revision s ⊕ zlen a) with (s_revision s + zlen a) in H by (rewrite u64_id; go_lia).
  rewrite Hlen in H. destruct (or_zero_map (s_revision s) (s_revision s + zlen a) doc a Hst Hmax) as [Hmok Hm];
    [unfold maximumBatchSize; lia|]. rewrite Hm in Hmok, H.
  split_bind H; [apply check_inv in He|apply check_inv in Hc0]; [destruct He as (-> & _ & He)|destruct Hc0 as (-> & _ & _)].
  { split; [done|]. intros (Hs & _). by rewrite Hs in He. }
  unfold bind at 1, lift, checkJournalQuota in H. fold (rev1 s) in *.
  destruct (match s_journal s with None => EmptyJournalBytes | Some _ => s_journalBytes s end <=? _) eqn:Hq;
    [|by injection H as <- <- <-].
  split_bind H; [apply check_inv in He|apply check_inv in Hc0]; [destruct He as (-> & _ & He)|destruct Hc0 as (-> & _ & _)].
  { split; [done|]. intros (Hs & _). by rewrite Hs in He. }
  pose proof (commit_rest_spec ctx setup a s _ s' k' r doc rec _ _ eq_refl H Hb Hnew Hfit Hst ltac:(unfold maximumBatchSize; lia) Hq) as Hres.
  destruct r as [c|e]; [|exact Hres]. destruct Hres as (-> & Hnone & Hcom). exists a. split_and!; try done. lia.
Qed.

(** ** The versions of a session *)

(** The versions behind, the present one and the versions ahead; the nearest
    version is the last of its list. *)
Record Versions := mkVersions { v_past : list (list byte); v_now : list byte; v_future : list (list byte) }.

Record session_ok (s : Session) (v : Versions) : Prop := mkSessionOk {
  so_base : session_base s (v_now v);
  so_history : ChangeHistory.history_ok (s_changeHistory s);
  so_currentRevision : h_currentRevision (s_changeHistory s) = s_revision s;
  so_currentLength : h_currentLength (s_changeHistory s) = zlen (v_now v);
  so_undo : undo_path (s_undoStore s) (v_past v) (s_undo s) (v_now v);
  so_redo : redo_path (s_undoStore s) (v_future v) (s_redo s) (v_now v);
  so_apart : apart_refs (stack_refs (s_undo s ++ s_redo s)) }.

(** What a session shows to its users, apart from the text and the stacks. *)
Definition same_published (s s' : Session) : Prop :=
  s_config s' = s_config s /\ s_revision s' = s_revision s /\ s_committedRevision s' = s_committedRevision s /\
  s_dirty s' = s_dirty s /\ s_recovered s' = s_recovered s /\ s_pending s' = s_pending s /\
  s_changeHistory s' = s_changeHistory s /\ s_events s' = s_events s /\ s_fault s' = s_fault s /\ s_closed s' = s_closed s /\
  s_fingerprint s' = s_fingerprint s /\ exists tail, session_data s' = session_data s ++ tail.

Lemma same_published_refl s : same_published s s.
Proof. split_and!; try done. exists []. by rewrite app_nil_r. Qed.

Lemma recorded_paths n s s' past future doc :
  recorded n s s' -> undo_path (s_undoStore s) past (s_undo s) doc -> redo_path (s_undoStore s) future (s_redo s) doc ->
  (apart_refs (stack_refs (s_undo s ++ s_redo s)) -> apart_refs (stack_refs (s_undo s' ++ s_redo s'))) /\
  exists past' future', undo_path (s_undoStore s') past' (s_undo s') doc /\ redo_path (s_undoStore s') future' (s_redo s') doc /\
    (n = 0 -> past' = past /\ future' = future) /\ (n <> 0 -> past' = [] /\ future' = []).
Proof.
  intros Hr Hu Hd. destruct (decide (n = 0)) as [Hn|Hn].
  - destruct (rc_same _ _ _ Hr Hn) as (-> & -> & Hx). split; [done|]. exists past, future.
    split_and!; [by eapply undo_path_extends|by eapply redo_path_extends|done|done].
  - destruct (rc_cleared _ _ _ Hr Hn) as [-> ->]. split; [intros _; apply apart_refs_nil|]. exists [], []. split_and!; [constructor|constructor|done|done].
Qed.

Lemma aborted_ok (sound : Prop) s s' v rec :
  session_ok s v -> aborted sound s s' (v_now v) rec ->
  exists v', session_ok s' v' /\ v_now v' = v_now v /\
    (v' = v \/ (rec = true /\ v_past v' = [] /\ v_future v' = [])) /\ same_published s s' /\
    (rec = false -> s_undo s' = s_undo s /\ s_redo s' = s_redo s) /\ (sound -> log_kept s s').
Proof using.
  intros [[] Hh Hrev Hlen Hu Hr Hap] (s1 & s2 & n & Hj1 & Hrec & Hn & Hnorec & Hf & Ht & Ho & Hgrow & Hlog).
  pose proof (jl_frame _ _ _ Hj1) as F1. pose proof (rc_frame _ _ _ Hrec) as F2.
  assert (s_undoStore s1 = s_undoStore s /\ s_undo s1 = s_undo s /\ s_redo s1 = s_redo s) as (Eu1 & Eu2 & Eu3) by (by rewrite F1).
  assert (s_undoStore s' = s_undoStore s2 /\ s_undo s' = s_undo s2 /\ s_redo s' = s_redo s2 /\ s_undoEpoch s' = s_undoEpoch s2) as (E1 & E2 & E3 & E4)
    by (by rewrite Hf).
  destruct (recorded_paths n s1 s2 (v_past v) (v_future v) (v_now v) Hrec) as (Hap' & past' & future' & Hu' & Hr' & H0 & H1);
    [by rewrite Eu1, Eu2|by rewrite Eu1, Eu3|]. rewrite Eu2, Eu3 in Hap'. specialize (Hap' Hap).
  assert (same_published s s') as Hsame
    by (split_and!; [by rewrite Hf, F2, F1..|exact Hgrow]).
  pose proof Hsame as (Hc & Hrv & _ & _ & _ & _ & Hch & _).
  assert (s_fingerprint s' = s_fingerprint s) as Hfp by (rewrite Hf, F2, F1; done).
  exists (mkVersions past' (v_now v) future'). split_and!; [|done| |done| |exact Hlog].
  3:{ intros E. destruct (rc_same _ _ _ Hrec (Hnorec E)) as (? & ? & _). by rewrite E2, E3, <-Eu2, <-Eu3. }
  - split; cbn [v_now v_past v_future]; rewrite ?Hch, ?Hrv, ?E1, ?E2, ?E3; try done.
    split; rewrite ?Hc, ?Hrv, ?Hfp, ?E4, ?E1; try done; [rewrite (rc_epoch _ _ _ Hrec); apply u64_range|by apply Hrec].
  - destruct (decide (n = 0)) as [Hz|Hz]; [left; destruct (H0 Hz) as [-> ->]; by destruct v|right].
    destruct (H1 Hz) as [-> ->]. destruct rec; [done|by destruct Hz; apply Hnorec].
Qed.

Lemma maybeSchedule_frame s : exists n p c,
  maybeScheduleJournalCheckpointLocked s = set_checkpointRequest c (set_automaticCheckpointPending p (set_nextJournalCheckpoint n s)).
Proof.
  unfold maybeScheduleJournalCheckpointLocked. destruct (_ || _); [|by eexists _, _, _].
  exists (s_nextJournalCheckpoint s), (s_automaticCheckpointPending s), (s_checkpointRequest s). by destruct s.
Qed.

Lemma set_stacks_eta s : s = set_redo (s_redo s) (set_undo (s_undo s) s).
Proof. by destruct s. Qed.

Lemma commit_state_frame t a staged group entry epoch rec s :
  let keep := rec && (epoch =? s_undoEpoch s) in
  let ps := s_pending s ++ pending_of (s_revision s ⊕ 1) group staged (PayloadOffsets a) in
  exists c p q, commit_state t a staged group entry epoch rec s =
    set_checkpointRequest c (set_automaticCheckpointPending p (set_nextJournalCheckpoint q
      (set_redo (if keep then [] else s_redo s) (set_undo (if keep then s_undo s ++ [entry] else s_undo s)
        (set_dirty (s_committedRevision s <? s_revision s ⊕ zlen staged) (set_revision (s_revision s ⊕ zlen staged)
          (set_pending ps (set_tree t (set_journalBytes (EndOffset a) s))))))))).
Proof.
  intros keep ps. unfold commit_state. cbv zeta. set (s1 := set_pending _ (set_tree t _)).
  set (s2 := set_dirty (s_committedRevision s <? s_revision s ⊕ zlen staged) (set_revision (s_revision s ⊕ zlen staged) s1)).
  match goal with |- context [maybeScheduleJournalCheckpointLocked ?x] =>
    assert (x = set_redo (if keep then [] else s_redo s) (set_undo (if keep then s_undo s ++ [entry] else s_undo s) s2)) as -> end.
  { change (s_undoEpoch (set_dirty _ _)) with (s_undoEpoch s). fold keep. destruct keep; [reflexivity|].
    change (s_redo s) with (s_redo s2). change (s_undo s) with (s_undo s2). exact (set_stacks_eta s2). }
  destruct (maybeSchedule_frame (set_redo (if keep then [] else s_redo s)
    (set_undo (if keep then s_undo s ++ [entry] else s_undo s) s2))) as (q & p & c & ->). by eexists c, p, q.
Qed.

Lemma epoch_unmoved e n : in_u64 e -> 0 <= n <= 2 * maximumBatchSize -> (e =? u64 (e + n)) = (n =? 0).
Proof.
  unfold maximumBatchSize. intros He Hn. destruct (Z.eqb_spec n 0) as [->|Hne]; [rewrite Z.add_0_r, u64_id by done; apply Z.eqb_refl|].
  apply Z.eqb_neq. unfold u64. intros E. unfold_ints.
  destruct (Z_lt_le_dec (e + n) 18446744073709551616) as [Hlt|Hge]; [rewrite Z.mod_small in E by lia; lia|].
  replace (e + n) with (e + n - 18446744073709551616 + 1 * 18446744073709551616) in E by lia.
  rewrite Z.mod_add, Z.mod_small in E by lia. lia.
Qed.

Lemma entry_of_ok old us staged entry doc :
  entry_of old us staged entry -> staged_ok doc staged -> utf8_Valid doc = true -> zlen doc <= maxInt64 ->
  0 < zlen staged <= maximumBatchSize -> entry_ok us doc entry (apply_ops (map so_operation staged) doc).
Proof.
  intros (Hf & Hi & _) Hst Hv Hmax Hn. destruct (undo_ops_ok _ _ Hst Hv Hmax) as [Hok Hback].
  exists (map so_operation staged), (rev (map undo_op staged)).
  split_and!; try done; try (rewrite zlen_map; lia); [by apply staged_ops_ok|].
  unfold zlen. by rewrite length_rev, !length_map.
Qed.

(** The record of an edit in the journal. *)
Definition rec_op (op : ReplaceOperation) : Journal.ReplaceOperation :=
  Journal.mkReplaceOperation (Start op) (DeleteLength op) (Insert op).

Lemma recovery_rec staged doc : staged_ok doc staged -> map recovery_op staged = map rec_op (map so_operation staged).
Proof.
  revert doc. induction staged as [|x staged IH]; intros doc H; [done|]. cbn in *. destruct H as (Hi & _ & _ & _ & _ & _ & _ & _ & _ & H).
  f_equal; [unfold recovery_op, rec_op; by rewrite Hi|by eapply IH].
Qed.

(** The pending operations of a batch whose payloads lie at [offsets]. *)
Definition pending_entry (revision group offset : Z) (o : Journal.ReplaceOperation) : pendingOperation :=
  mkPending revision group (ro_Start o) (ro_DeleteLength o) offset (zlen (ro_Inserted o)) (count_newlines (ro_Inserted o)).
Fixpoint pending_entries (revision group : Z) (ops : list Journal.ReplaceOperation) (offsets : list Z) : list pendingOperation :=
  match ops with
  | [] => []
  | o :: ops => pending_entry revision group (hd 0 offsets) o :: pending_entries (revision ⊕ 1) group ops (tl offsets)
  end.

Lemma pending_of_entries staged : forall revision group offsets,
  pending_of revision group staged offsets = pending_entries revision group (map recovery_op staged) offsets.
Proof. induction staged as [|x staged IH]; intros; [done|]. cbn. by rewrite IH. Qed.

(** The pending operations a batch of edits adds to a session. *)
Definition pending_edit (s : Session) (ops : list ReplaceOperation) : list pendingOperation :=
  pending_entries (rev1 s) (rev1 s) (map rec_op ops) (payload_offsets (zlen (prior s)) (rev1 s) (rev1 s) (map rec_op ops)).

(** What a commit leaves, before the caller records the change. *)
Record commit_ok (sound : Prop) (s s' : Session) (v : Versions) (staged : list stagedOperation) (rec : bool) : Prop := mkCommitOk {
  co_base : session_base s' (apply_ops (map so_operation staged) (v_now v));
  co_frame : s_config s' = s_config s /\ s_changeHistory s' = s_changeHistory s /\ s_committedRevision s' = s_committedRevision s /\
    s_revision s' = s_revision s ⊕ zlen staged /\ s_dirty s' = (s_committedRevision s <? s_revision s') /\ s_events s' = s_events s;
  co_log : is_Some (s_journal s') /\ (sound -> faultless s') /\
    session_data s' = prior s ++ encodeBatch (rev1 s) (rev1 s) (map rec_op (map so_operation staged)) /\
    batch_ok (rev1 s) (rev1 s) (map rec_op (map so_operation staged)) /\ s_fingerprint s' = s_fingerprint s;
  co_pending : s_pending s' = s_pending s ++ pending_edit s (map so_operation staged);
  co_apart : apart_refs (stack_refs (s_undo s' ++ s_redo s'));
  co_stacks : exists past future,
    undo_path (s_undoStore s') past (s_undo s') (if rec then apply_ops (map so_operation staged) (v_now v) else v_now v) /\
    redo_path (s_undoStore s') future (s_redo s') (if rec then apply_ops (map so_operation staged) (v_now v) else v_now v) /\
    if rec then future = [] /\ (past = v_past v ++ [v_now v] \/ past = []) else
    past = v_past v /\ future = v_future v /\ s_undo s' = s_undo s /\ s_redo s' = s_redo s }.

Lemma committed_ok (sound : Prop) s s' v staged rec :
  session_ok s v -> committed sound s s' (v_now v) staged rec -> staged_ok (v_now v) staged -> 0 < zlen staged <= maximumBatchSize ->
  commit_ok sound s s' v staged rec.
Proof using.
  intros [[] Hh Hrev Hlen Hu Hr Hap] (s1 & s2 & n & t & a & entry & Hj1 & Hrec & Hn & Hnorec & Ht & Hent & _ & Hoff & Hlj & Hld & Hlb & Hlf & Hs') Hst Hc.
  pose proof (jl_frame _ _ _ Hj1) as F1. pose proof (rc_frame _ _ _ Hrec) as F2.
  assert (s_undoStore s1 = s_undoStore s /\ s_undo s1 = s_undo s /\ s_redo s1 = s_redo s /\ s_undoEpoch s1 = s_undoEpoch s)
    as (Eu1 & Eu2 & Eu3 & Eu4) by (by rewrite F1).
  assert (s_config s2 = s_config s /\ s_revision s2 = s_revision s /\ s_committedRevision s2 = s_committedRevision s /\
    s_pending s2 = s_pending s /\ s_changeHistory s2 = s_changeHistory s /\ s_events s2 = s_events s /\ s_fingerprint s2 = s_fingerprint s)
    as (P1 & P2 & P3 & P4 & P5 & P6 & Hfp) by (rewrite F2, F1; by split_and!).
  assert (s_journal s2 = s_journal s1 /\ s_undoEpoch s2 = u64 (s_undoEpoch s + n)) as [Ej Eep]
    by (split; [by rewrite F2|rewrite <-Eu4; apply Hrec]).
  destruct (recorded_paths n s1 s2 (v_past v) (v_future v) (v_now v) Hrec) as (Hap' & past' & future' & Hu' & Hr' & H0 & H1);
    [by rewrite Eu1, Eu2|by rewrite Eu1, Eu3|]. rewrite Eu2, Eu3 in Hap'. specialize (Hap' Hap).
  set (keep := rec && (n =? 0)).
  destruct (commit_state_frame t a staged (s_revision s ⊕ 1) entry (s_undoEpoch s) rec s2) as (c & p & q & F).
  rewrite <-Hs', Eep, epoch_unmoved in F by done. fold keep in F.
  clear Hs'. subst s'. split.
  - split; session_simpl; try done; [by rewrite P1|by rewrite Hfp|by apply (ops_ok_valid _ _ (staged_ops_ok _ _ Hst))| |
      apply u64_range|rewrite Eep; apply u64_range|apply Hrec].
    intros j. session_simpl. rewrite Ej. by apply Hj1.
  - session_simpl. rewrite P1, P2, P3, P5, P6. by split_and!.
  - session_simpl. unfold rev1. rewrite <-(recovery_rec _ _ Hst). by split_and!.
  - session_simpl. unfold pending_edit, rev1. rewrite <-(recovery_rec _ _ Hst), pending_of_entries, Hoff, P2, P4. done.
  - session_simpl. subst keep. destruct rec; cbn [andb]; [|done]. destruct (Z.eqb_spec n 0) as [Hz|Hz]; [|done].
    destruct (Hent eq_refl Hz) as (_ & _ & Hbey & Hape). destruct (rc_same _ _ _ Hrec Hz) as (E & _). rewrite app_nil_r, E, Eu2.
    apply (apart_snoc (s_undoStore s)); [by eapply undo_path_kept| |done|done].
    eapply apart_refs_sub; [|exact Hap]. apply stack_refs_sub. intros e' He'. apply elem_of_app. by left.
  - session_simpl. subst keep. destruct rec; cbn [andb].
    + destruct (Z.eqb_spec n 0) as [Hz|Hz].
      * destruct (H0 Hz) as [-> ->]. exists (v_past v ++ [v_now v]), []. split_and!; [|constructor|done|by left].
        constructor; [|done]. pose proof (Hent eq_refl Hz) as He.
        apply (entry_of_ok (s_undoStore s)); [done..|by apply (holds_length _ _ _ sb_text0)|done].
      * destruct (rc_cleared _ _ _ Hrec Hz) as [-> ->]. exists [], []. split_and!; [constructor|constructor|done|by right].
    + specialize (Hnorec eq_refl) as ->. destruct (H0 eq_refl) as [-> ->]. destruct (rc_same _ _ _ Hrec eq_refl) as (E1 & E2 & _).
      exists (v_past v), (v_future v). rewrite E1, E2 in *. split_and!; try done; congruence.
Qed.

(** ** The public operations *)

Definition op_edit (op : ReplaceOperation) : Edit := mkEdit (Start op) (DeleteLength op) (zlen (Insert op)).

(** The change map of a batch on a text. *)
Definition change_of (revision : Z) (doc : list byte) (ops : list ReplaceOperation) : ChangeMap :=
  mkChangeMap revision (revision + zlen ops) (zlen doc) (zlen (apply_ops ops doc)) (map op_edit ops).

Lemma commit_changes_eq s doc staged :
  staged_ok doc staged -> commit_changes s doc staged = change_of (s_revision s) doc (map so_operation staged).
Proof.
  intros Hst. unfold commit_changes, change_of. rewrite zlen_map. f_equal. rewrite map_map.
  revert doc Hst. induction staged as [|x staged IH]; intros doc Hst; [done|]. cbn in *.
  destruct Hst as (Hi & _ & _ & _ & _ & _ & _ & _ & _ & Hst). f_equal; [|by eapply IH]. unfold edit_of, op_edit. by rewrite Hi.
Qed.

(** [record_change] after a commit, with the stacks already moved. *)
Lemma record_change_ok takes origin s v changes :
  session_base s (v_now v) -> ChangeHistory.history_ok (s_changeHistory s) -> map_ok changes -> cm_edits changes <> [] ->
  cm_beforeRevision changes = h_currentRevision (s_changeHistory s) -> cm_beforeLength changes = h_currentLength (s_changeHistory s) ->
  cm_beforeRevision changes < cm_afterRevision changes ->
  cm_afterRevision changes = s_revision s -> cm_afterLength changes = zlen (v_now v) ->
  undo_path (s_undoStore s) (v_past v) (s_undo s) (v_now v) -> redo_path (s_undoStore s) (v_future v) (s_redo s) (v_now v) ->
  apart_refs (stack_refs (s_undo s ++ s_redo s)) -> session_ok (record_change takes origin changes s) v.
Proof using.
  intros [] Hh Hm Hne Hbr Hbl Hlt Har Hal Hu Hr Hap. unfold record_change, publishEventLocked.
  assert (forall h, h_currentRevision (ChangeHistory.append h changes) = cm_afterRevision changes /\
                    h_currentLength (ChangeHistory.append h changes) = cm_afterLength changes) as Hcur.
  { intros h. unfold ChangeHistory.append, Len.
    destruct (Z.eqb_spec (zlen (cm_edits changes)) 0) as [E|_]; [by apply zlen_zero in E|]. by destruct (_ =? _). }
  destruct (Hcur (s_changeHistory s)) as [E1 E2].
  split; session_simpl; rewrite ?E1, ?E2; try done. by apply append_ok.
Qed.

(** The session an operation is called on. *)
Definition guards (ctx : option Context) (s : Session) : option error :=
  match ctx with
  | None => Some document_ErrInvalidContext
  | Some _ =>
    if isSome (s_lifecycle s) || s_closed s then Some document_ErrClosed else
    match s_fault s with Some e => Some (errJoin document_ErrFaulted e) | None => None end
  end.

Lemma guard_open_inv s k s' k' r :
  guard_open s k = (s', k', r) -> s' = s /\ k' = k /\ r = if s_closed s || isSome (s_lifecycle s) then Err document_ErrClosed else Ok tt.
Proof. unfold guard_open. destruct (_ || _); by intros [= <- <- <-]. Qed.

Lemma guard_fault_inv s k s' k' r :
  guard_fault s k = (s', k', r) -> s' = s /\ k' = k /\
  r = match s_fault s with Some e => Err (errJoin document_ErrFaulted e) | None => Ok tt end.
Proof. unfold guard_fault. destruct (s_fault s); by intros [= <- <- <-]. Qed.

Lemma operationContext_inv ctx s k s' k' r :
  operationContext ctx s k = (s', k', r) -> s' = s /\ k' = k /\
  r = match ctx with None => Err document_ErrInvalidContext
      | Some c => if isSome (s_lifecycle s) then Err document_ErrClosed else Ok c end.
Proof. unfold operationContext. destruct ctx as [c|]; [destruct (isSome _)|]; by intros [= <- <- <-]. Qed.

(** What every accepted edit leaves. *)
Record edited (sound : Prop) (takes : Z -> list nat) (origin : ChangeOrigin) (s s' : Session) (doc : list byte) (v' : Versions)
  (ops : list ReplaceOperation) : Prop := mkEdited {
  ed_ok : session_ok s' v';
  ed_now : v_now v' = apply_ops ops doc;
  ed_change : map_ok (change_of (s_revision s) doc ops);
  ed_revision : s_revision s' = s_revision s + zlen ops;
  ed_config : s_config s' = s_config s;
  ed_dirty : s_committedRevision s' = s_committedRevision s /\ s_dirty s' = (s_committedRevision s <? s_revision s');
  ed_length : Tree_Len (s_tree s') = zlen (v_now v');
  ed_history : s_changeHistory s' = ChangeHistory.append (s_changeHistory s) (change_of (s_revision s) doc ops);
  ed_log : is_Some (s_journal s') /\ (sound -> faultless s') /\
    session_data s' = prior s ++ encodeBatch (rev1 s) (rev1 s) (map rec_op ops) /\
    batch_ok (rev1 s) (rev1 s) (map rec_op ops) /\ s_fingerprint s' = s_fingerprint s;
  ed_pending : s_pending s' = s_pending s ++ pending_edit s ops;
  ed_events : s_events s' = publish takes (s_events s)
    (session_event s' EventChanged origin (change_of (s_revision s) doc ops) None) }.

Lemma finish_edit (sound : Prop) takes origin s s1 u r v v' staged rec :
  session_ok s v -> commit_ok sound s s1 v staged rec -> staged_ok (v_now v) staged -> 0 < zlen staged ->
  s_revision s + zlen staged <= maxUint64 ->
  map_ok (change_of (s_revision s) (v_now v) (map so_operation staged)) ->
  v_now v' = apply_ops (map so_operation staged) (v_now v) ->
  undo_path (s_undoStore s1) (v_past v') u (v_now v') -> redo_path (s_undoStore s1) (v_future v') r (v_now v') ->
  apart_refs (stack_refs (u ++ r)) ->
  edited sound takes origin s
    (record_change takes origin (change_of (s_revision s) (v_now v) (map so_operation staged)) (set_redo r (set_undo u s1)))
    (v_now v) v' (map so_operation staged).
Proof using.
  intros [] [[] (F1 & F2 & F3 & F4 & F5 & F6) Hlog Hpend _ _] Hst Hn Hrev Hm Hnow Hu Hr Hap.
  assert (s_revision s1 = s_revision s + zlen (map so_operation staged)) as Hrev1.
  { rewrite F4, zlen_map, u64_id; [done|]. destruct so_base0 as [_ _ _ _ _ H _ _]. go_lia. }
  pose proof (zlen_map so_operation staged) as Hz.
  assert (Tree_Len (s_tree s1) = zlen (v_now v')) as Hlen by (rewrite Hnow; by apply (holds_length _ _ _ sb_text0)).
  split; try done.
  - apply record_change_ok; rewrite ?Hnow; session_simpl; rewrite ?F2; try done; [|cbn; lia|by rewrite <-Hnow|by rewrite <-Hnow].
    cbn. intros E. apply (f_equal zlen) in E. rewrite zlen_map, zlen_map, zlen_nil in E. lia.
  - unfold record_change, publishEventLocked. session_simpl. by rewrite F2.
  - unfold record_change, publishEventLocked. session_simpl. by rewrite F6.
Qed.

Definition apply_refused (s : Session) (doc : list byte) (expected : Z) (ops : list ReplaceOperation) : option error :=
  if negb (expected =? s_revision s) then Some document_ErrRevisionConflict
  else if zlen ops =? 0 then None
  else if MaxBatchOperations (Limits (s_config s)) <? zlen ops then Some (errWrap 1 document_ErrLimitExceeded)
  else commit_refused s doc ops.

Lemma session_ok_set_undoStore s v us :
  session_ok s v -> store_ok us -> extends (s_undoStore s) us -> session_ok (set_undoStore us s) v.
Proof using.
  intros [[] Hh Hrev Hlen Hu Hr Hap] Hus Hx. split; [by split|done|done|done| | |done]; session_simpl;
    [by eapply undo_path_extends|by eapply redo_path_extends].
Qed.

Lemma ApplyBatch_spec takes setup ctx expected ops s k s' k' r v :
  ApplyBatch journal_reads takes setup ctx expected ops s k = (s', k', r) ->
  session_ok s v -> setup_fresh setup -> fits s ->
  match r with
  | Ok res => guards ctx s = None /\ apply_refused s (v_now v) expected ops = None /\
      (ops = [] -> s' = s /\ res = mkApplyResult (s_revision s) (zlen (v_now v)) (s_dirty s) (change_of (s_revision s) (v_now v) [])) /\
      (ops <> [] -> ops_ok (v_now v) ops /\ exists v',
         edited (journal_sound setup s) takes ChangeOriginApply s s' (v_now v) v' ops /\ v_future v' = [] /\
         (v_past v' = v_past v ++ [v_now v] \/ v_past v' = []) /\
         res = mkApplyResult (s_revision s') (zlen (v_now v')) (s_dirty s') (change_of (s_revision s) (v_now v) ops))
  | Err e => (exists v', session_ok s' v' /\ v_now v' = v_now v /\
        (v' = v \/ (v_past v' = [] /\ v_future v' = [])) /\ same_published s s' /\ (journal_sound setup s -> log_kept s s')) /\
      (guards ctx s = None -> (forall c, ctx = Some c -> calm c setup s) -> apply_refused s (v_now v) expected ops = Some e)
  end.
Proof using reads_ok.
  intros H Hok Hnew Hfit. pose proof Hok as [Hb Hh Hcr Hcl Hu Hr]. pose proof (zlen_nonneg ops) as Hz.
  assert (exists v', session_ok s v' /\ v_now v' = v_now v /\ (v' = v \/ (v_past v' = [] /\ v_future v' = [])) /\ same_published s s /\ (journal_sound setup s -> log_kept s s)) as Hstay
    by (exists v; split; [done|]; split; [done|]; split; [by left|]; split; [apply same_published_refl|];
        intros [Hs _]; by apply (log_kept_refl setup)).
  unfold ApplyBatch in H. unfold guards.
  split_bind H; [apply operationContext_inv in He as (-> & -> & He)|apply operationContext_inv in Hc as (-> & -> & Hc)].
  { split; [done|]. destruct ctx as [c|]; [|done]. by destruct (isSome (s_lifecycle s)). }
  destruct ctx as [c|]; [|done]. destruct (isSome (s_lifecycle s)) eqn:Hlife; [done|]. injection Hc as ->. cbn [orb].
  split_bind H; [apply guard_open_inv in He as (-> & -> & He)|apply guard_open_inv in Hc as (-> & -> & Hc)].
  { split; [done|]. rewrite Hlife, orb_false_r in He. by destruct (s_closed s). }
  rewrite Hlife, orb_false_r in Hc. destruct (s_closed s) eqn:Hcl0; [done|].
  split_bind H; [apply guard_fault_inv in He as (-> & -> & He)|apply guard_fault_inv in Hc0 as (-> & -> & Hc0)].
  { split; [done|]. by destruct (s_fault s). }
  destruct (s_fault s) as [?|] eqn:Hfault; [done|]. unfold bind at 1, get in H. unfold apply_refused.
  destruct (Z.eqb_spec expected (s_revision s)) as [->|Hne]; cbn [negb] in H |- *; [|by injection H as <- <- <-].
  destruct (holds_length _ _ _ (sb_text _ _ Hb)) as [Hlen Hmax].
  destruct (Z.eqb_spec (zlen ops) 0) as [Hz0|Hz0].
  { injection H as <- <- <-. apply zlen_zero in Hz0 as ->. split_and!; [done|done| |done]. intros _. split; [done|].
    rewrite Hlen. destruct (identity_ok (s_revision s) (zlen (v_now v))) as [E _]; [pose proof (zlen_nonneg (v_now v)); lia|].
    rewrite E. cbn [or_zero]. f_equal. unfold change_of. cbn [map apply_ops fold_left]. by rewrite zlen_nil, Z.add_0_r. }
  split_bind H; [apply check_inv in He as (-> & -> & He)|apply check_inv in Hc1 as (-> & -> & Hc1)].
  { split; [done|]. intros _ Hcalm. destruct (Hcalm _ eq_refl) as (Hs & _). by rewrite Hs in He. }
  destruct (Z.ltb_spec (MaxBatchOperations (Limits (s_config s))) (zlen ops)) as [|Hbatch]; [by injection H as <- <- <-|].
  assert (0 < zlen ops <= maximumBatchSize) as Hops.
  { destruct (sb_config _ _ Hb) as [[Hl _] _]. unfold DefaultMaxBatchOperations, maximumBatchSize in *. lia. }
  split_bind H;
    [pose proof (apply_outcome _ _ _ _ _ _ _ _ _ _ He Hb Hnew Hfit Hops) as [Hab Hex]
    |pose proof (apply_outcome _ _ _ _ _ _ _ _ _ _ Hc2 Hb Hnew Hfit Hops) as (staged & Hst & Hno & Hcom & -> & Hm & Hrev)].
  { split; [|intros _ Hcalm; by apply Hex, Hcalm]. destruct (aborted_ok _ _ _ _ _ Hok Hab) as (v' & ? & ? & ? & ? & _ & ?). exists v'. naive_solver. }
  injection H as <- <- <-. destruct (stage_spec_ok _ _ _ _ Hst) as (Hstok & Hmap & _).
  assert (zlen staged = zlen ops) as Hzs by (by rewrite <-Hmap, zlen_map).
  split_and!; [done|done|by intros ->|]. intros _. split; [rewrite <-Hmap; by apply staged_ops_ok|].
  rewrite (commit_changes_eq _ _ _ Hstok) in *. rewrite Hmap in *.
  assert (commit_ok (journal_sound setup s) s s0 v staged true) as Hco by (apply committed_ok; (done || lia)).
  destruct (co_stacks _ _ _ _ _ _ Hco) as (past & future & Hu' & Hr' & -> & Hp). rewrite Hmap in *.
  set (v' := mkVersions past (apply_ops ops (v_now v)) []). exists v'.
  assert (edited (journal_sound setup s) takes ChangeOriginApply s (record_change takes ChangeOriginApply (change_of (s_revision s) (v_now v) ops) s0) (v_now v) v' ops) as Hed.
  { pose proof (finish_edit (journal_sound setup s) takes ChangeOriginApply s s0 (s_undo s0) (s_redo s0) v v' staged true Hok Hco Hstok) as Hf.
    rewrite Hmap in Hf. replace (set_redo (s_redo s0) (set_undo (s_undo s0) s0)) with s0 in Hf by (by destruct s0).
    apply Hf; (apply Hco || done || lia). }
  split_and!; [done|done|done|]. f_equal. apply (ed_length _ _ _ _ _ _ _ _ Hed).
Qed.

(** The common part of undo and redo. *)
Definition travel (takes : Z -> list nat) (setup : JournalSetup) (c : Context) (origin : ChangeOrigin)
  (hs : list historyOperation) (move : Session -> Session) : M ApplyResult :=
  do operations <- materializeHistory c hs;
  do changes <- applyOperationsLocked journal_reads c setup operations false;
  do _ <- modify move;
  do _ <- modify (record_change takes origin changes);
  do s <- get;
  ret (mkApplyResult (s_revision s) (Tree_Len (s_tree s)) true changes).

Lemma commit_refused_store s us doc ops : commit_refused (set_undoStore us s) doc ops = commit_refused s doc ops.
Proof. reflexivity. Qed.

Lemma travel_spec takes setup c origin hs move ops s k s' k' res v v' u r :
  travel takes setup c origin hs move s k = (s', k', res) ->
  session_ok s v -> setup_fresh setup -> fits s ->
  Forall2 (hist_op (s_undoStore s)) hs ops -> 0 < zlen ops <= maximumBatchSize -> v_now v' = apply_ops ops (v_now v) ->
  (forall s1, s_undo s1 = s_undo s -> s_redo s1 = s_redo s -> move s1 = set_redo r (set_undo u s1)) ->
  undo_path (s_undoStore s) (v_past v') u (v_now v') -> redo_path (s_undoStore s) (v_future v') r (v_now v') ->
  apart_refs (stack_refs (u ++ r)) ->
  match res with
  | Ok out => edited (journal_sound setup s) takes origin s s' (v_now v) v' ops /\ commit_refused s (v_now v) ops = None /\
      out = mkApplyResult (s_revision s') (zlen (v_now v')) true (change_of (s_revision s) (v_now v) ops)
  | Err e => session_ok s' v /\ same_published s s' /\ (s_undo s' = s_undo s /\ s_redo s' = s_redo s) /\ (journal_sound setup s -> log_kept s s') /\
      (calm c setup s -> commit_refused s (v_now v) ops = Some e)
  end.
Proof using reads_ok.
  intros H Hok Hnew Hfit Hops Hn Hnow Hmove Hu Hr Hap. unfold travel in H.
  assert (forall s1 k1 r1, materializeHistory c hs s k = (s1, k1, r1) -> exists us, s1 = set_undoStore us s /\ store_ok us /\
    extends (s_undoStore s) us /\ (forall ops', r1 = Ok ops' -> ops' = ops) /\
    (calm c setup s -> calm c setup s1 /\ r1 = Ok ops)) as Hmat.
  { intros s1 k1 r1 E. destruct (materialize_spec _ _ _ _ _ _ _ _ E (sb_store _ _ (so_base _ _ Hok)) Hops) as (E1 & ? & ? & ? & Hcl).
    exists (s_undoStore s1). split_and!; try done. intros (Hs & Hc & Hj). destruct (Hcl Hs Hc). split; [|done].
    split_and!; try done. by rewrite E1. }
  split_bind H; [destruct (Hmat _ _ _ He) as (us & -> & Hus & Hx & _ & Hcl)|destruct (Hmat _ _ _ Hc) as (us & -> & Hus & Hx & Heq & Hcl)].
  { split; [by apply session_ok_set_undoStore|]. split; [exact (same_published_refl s)|]. split; [done|].
    split; [intros [Hs _]; exact (log_kept_refl setup s Hs)|]. intros Hc. by destruct (Hcl Hc). }
  rewrite (Heq _ eq_refl) in H. assert (session_ok (set_undoStore us s) v) as Hok1 by (by apply session_ok_set_undoStore).
  split_bind H;
    [pose proof (apply_outcome _ _ _ _ _ _ _ _ _ _ He (so_base _ _ Hok1) Hnew Hfit Hn) as [Hab Hex]
    |pose proof (apply_outcome _ _ _ _ _ _ _ _ _ _ Hc0 (so_base _ _ Hok1) Hnew Hfit Hn) as (staged & Hst & Hnone & Hcom & -> & Hm & Hrev)].
  { destruct (aborted_ok _ _ _ _ _ Hok1 Hab) as (v1 & Hv1 & _ & [->|[? _]] & Hsame & Hstk & Hlog); [|done]. split; [done|]. split; [exact Hsame|].
    split; [by apply Hstk|]. split; [exact Hlog|].
    intros Hc'. rewrite <-(commit_refused_store s us). apply Hex. by destruct (Hcl Hc'). }
  destruct (stage_spec_ok _ _ _ _ Hst) as (Hstok & Hmap & Hshort).
  assert (zlen staged = zlen ops) as Hzs by (by rewrite <-Hmap, zlen_map).
  rewrite (commit_changes_eq _ _ _ Hstok) in *. rewrite Hmap in *. injection H as <- <- <-.
  assert (commit_ok (journal_sound setup s) (set_undoStore us s) s0 v staged false) as Hco by (apply committed_ok; (done || lia)).
  destruct (co_stacks _ _ _ _ _ _ Hco) as (past & future & _ & _ & _ & _ & E1 & E2).
  assert (extends us (s_undoStore s0)) as Hx0.
  { destruct Hcom as (s1 & s2 & n & t & ar & entry & Hj1 & Hrec & _ & Hnorec & _ & _ & _ & _ & _ & _ & _ & _ & ->).
    destruct (commit_state_frame t ar staged (s_revision (set_undoStore us s) ⊕ 1) entry (s_undoEpoch (set_undoStore us s)) false s2)
      as (x & y & z & ->). session_simpl. destruct (rc_same _ _ _ Hrec (Hnorec eq_refl)) as (_ & _ & Hx1).
    rewrite (jl_frame _ _ _ Hj1) in Hx1. exact Hx1. }
  rewrite (Hmove s0 E1 E2).
  pose proof (finish_edit (journal_sound setup s) takes origin (set_undoStore us s) s0 u r v v' staged false Hok1 Hco Hstok) as Hf. rewrite Hmap in Hf.
  assert (edited (journal_sound setup s) takes origin (set_undoStore us s) (record_change takes origin (change_of (s_revision s) (v_now v) ops)
            (set_redo r (set_undo u s0))) (v_now v) v' ops) as Hed.
  { rewrite <-Hzs in *. apply Hf; try done; try lia.
    - by apply (undo_path_extends us), (undo_path_extends (s_undoStore s)).
    - by apply (redo_path_extends us), (redo_path_extends (s_undoStore s)). }
  split; [by destruct Hed; split|]. split; [exact Hnone|f_equal; apply (ed_length _ _ _ _ _ _ _ _ Hed)].
Qed.

Lemma travel_guards {A} (ctx : option Context) (rest : Context -> Session -> M A) s k s' k' r :
  (do ctx <- operationContext ctx; do _ <- guard_open; do _ <- check ctx; do _ <- guard_fault; do s <- get; rest ctx s) s k
    = (s', k', r) ->
  (exists e, s' = s /\ r = Err e /\ (guards ctx s = None -> exists c, ctx = Some c /\ ~ steady c)) \/
  (exists c k1, ctx = Some c /\ guards ctx s = None /\ rest c s s k1 = (s', k', r)).
Proof.
  intros H. unfold guards.
  split_bind H; [apply operationContext_inv in He as (-> & -> & He)|apply operationContext_inv in Hc as (-> & -> & Hc)].
  { left. eexists. split_and!; try done. destruct ctx as [c|]; [|done]. by destruct (isSome (s_lifecycle s)). }
  destruct ctx as [c|]; [|done]. destruct (isSome (s_lifecycle s)) eqn:Hlife; [done|]. injection Hc as ->. cbn [orb].
  split_bind H; [apply guard_open_inv in He as (-> & -> & He)|apply guard_open_inv in Hc as (-> & -> & Hc)].
  { left. eexists. split_and!; try done. rewrite Hlife, orb_false_r in He. by destruct (s_closed s). }
  rewrite Hlife, orb_false_r in Hc. destruct (s_closed s); [done|].
  split_bind H; [apply check_inv in He as (-> & -> & He)|apply check_inv in Hc0 as (-> & -> & _)].
  { left. eexists. split_and!; try done. intros _. exists c. split; [done|]. intros Hs. by rewrite Hs in He. }
  split_bind H; [apply guard_fault_inv in He as (-> & -> & He)|apply guard_fault_inv in Hc0 as (-> & -> & Hc0)].
  { left. eexists. split_and!; try done. by destruct (s_fault s). }
  destruct (s_fault s); [done|]. right. exists c. eexists. split; [done|]. split; [done|exact H].
Qed.

(** The edits an undo or a redo makes: those of one direction of the latest entry of
    its stack, with their texts in the undo file. *)
Definition latest_edits (s : Session) (stack : list historyEntry) (direction : historyEntry -> list historyOperation) (ops : list ReplaceOperation) : Prop :=
  exists entry, top stack = Some entry /\ Forall2 (hist_op (s_undoStore s)) (direction entry) ops.
Definition undo_edits (s : Session) : list ReplaceOperation -> Prop := latest_edits s (s_undo s) he_inverse.
Definition redo_edits (s : Session) : list ReplaceOperation -> Prop := latest_edits s (s_redo s) he_forward.

(** What undo and redo promise: [target] is the version they lead to, by the edits
    [source]. *)
Definition travel_promise (takes : Z -> list nat) (setup : JournalSetup) (ctx : option Context) (origin : ChangeOrigin) (nothing : error)
  (source : list ReplaceOperation -> Prop) (s s' : Session) (v : Versions) (target : option Versions) (r : result ApplyResult) : Prop :=
  match r with
  | Ok res => guards ctx s = None /\ exists v' ops, target = Some v' /\ ops_ok (v_now v) ops /\ edited (journal_sound setup s) takes origin s s' (v_now v) v' ops /\
      res = mkApplyResult (s_revision s') (zlen (v_now v')) true (change_of (s_revision s) (v_now v) ops) /\
      source ops /\ 1 <= zlen ops <= maximumBatchSize /\ apply_ops ops (v_now v) = v_now v' /\ commit_refused s (v_now v) ops = None
  | Err e => session_ok s' v /\ same_published s s' /\ (journal_sound setup s -> log_kept s s') /\
      (guards ctx s = None -> (forall c, ctx = Some c -> calm c setup s) ->
         (target = None /\ e = nothing) \/
         exists v' ops, target = Some v' /\ source ops /\ ops_ok (v_now v) ops /\ apply_ops ops (v_now v) = v_now v' /\
           1 <= zlen ops <= maximumBatchSize /\ commit_refused s (v_now v) ops = Some e)
  end.

Definition undone (v : Versions) : option Versions :=
  match last (v_past v) with
  | Some before => Some (mkVersions (removelast (v_past v)) before (v_future v ++ [v_now v]))
  | None => None
  end.
Definition redone (v : Versions) : option Versions :=
  match last (v_future v) with
  | Some after => Some (mkVersions (v_past v ++ [v_now v]) after (removelast (v_future v)))
  | None => None
  end.

(** Moving an entry from one stack to the other keeps its texts. *)
Lemma moved_apart (undo redo : list historyEntry) e :
  undo = pop undo ++ [e] -> apart_refs (stack_refs (undo ++ redo)) -> apart_refs (stack_refs (pop undo ++ redo ++ [e])).
Proof. intros E. apply apart_refs_sub, stack_refs_sub. rewrite E at 2. intros x. rewrite !elem_of_app. tauto. Qed.
Lemma moved_back_apart (undo redo : list historyEntry) e :
  redo = pop redo ++ [e] -> apart_refs (stack_refs (undo ++ redo)) -> apart_refs (stack_refs ((undo ++ [e]) ++ pop redo)).
Proof. intros E. apply apart_refs_sub, stack_refs_sub. rewrite E at 2. intros x. rewrite !elem_of_app. tauto. Qed.

Lemma UndoContext_spec takes setup ctx s k s' k' r v :
  UndoContext journal_reads takes setup ctx s k = (s', k', r) -> session_ok s v -> setup_fresh setup -> fits s ->
  travel_promise takes setup ctx ChangeOriginUndo document_ErrNothingToUndo (undo_edits s) s s' v (undone v) r.
Proof using reads_ok.
  intros H Hok Hnew Hfit. unfold UndoContext in H. unfold travel_promise, undone.
  destruct (travel_guards ctx _ s k s' k' r H) as [(e & -> & -> & Hg)|(c & k1 & -> & Hg & Hrest)].
  { split; [done|]. split; [apply same_published_refl|]. split; [intros [Hs _]; by apply (log_kept_refl setup)|]. intros Hg' Hcalm. destruct (Hg Hg') as (c & -> & Hs). by destruct (Hcalm _ eq_refl). }
  pose proof (so_undo _ _ Hok) as Hp. destruct (top (s_undo s)) as [entry|] eqn:Htop.
  2:{ injection Hrest as <- <- <-. split; [done|]. split; [apply same_published_refl|]. split; [intros [Hs _]; by apply (log_kept_refl setup)|]. intros _ _. left.
      by rewrite (proj1 (undo_path_none _ _ _ _ Hp) Htop). }
  destruct (undo_path_top _ _ _ _ _ Hp Htop) as (past & before & E & Hstk & Hent & Hpop). rewrite E, last_snoc, removelast_last.
  pose proof Hent as (fwd & inv & Hf & Hi & Hfok & Hfwd & Hiok & Hback & Hn & Hz). pose (v' := mkVersions past before (v_future v ++ [v_now v])).
  pose proof (travel_spec takes setup c ChangeOriginUndo (he_inverse entry)
    (fun s => set_redo (s_redo s ++ [entry]) (set_undo (pop (s_undo s)) s)) inv s k1 s' k' r v v'
    (pop (s_undo s)) (s_redo s ++ [entry]) Hrest Hok Hnew Hfit Hi ltac:(lia) (eq_sym Hback)) as Ht.
  specialize (Ht ltac:(intros ? E1 E2; cbn beta; rewrite E1, E2; done) Hpop ltac:(constructor; [exact Hent|apply Hok])).
  specialize (Ht ltac:(apply (moved_apart _ _ _ Hstk), Hok)).
  assert (undo_edits s inv) as Hsrc by (exists entry; split; done).
  destruct r as [res|e]; [destruct Ht as (? & ? & ?); split; [done|]; exists v', inv; split_and!; (done || lia)|].
  destruct Ht as (? & ? & [_ _] & Hlog & Hex). split; [done|]. split; [done|]. split; [exact Hlog|]. intros _ Hcalm. right. exists v', inv.
  split_and!; try done; try lia. by apply Hex, Hcalm.
Qed.

Lemma RedoContext_spec takes setup ctx s k s' k' r v :
  RedoContext journal_reads takes setup ctx s k = (s', k', r) -> session_ok s v -> setup_fresh setup -> fits s ->
  travel_promise takes setup ctx ChangeOriginRedo document_ErrNothingToRedo (redo_edits s) s s' v (redone v) r.
Proof using reads_ok.
  intros H Hok Hnew Hfit. unfold RedoContext in H. unfold travel_promise, redone.
  destruct (travel_guards ctx _ s k s' k' r H) as [(e & -> & -> & Hg)|(c & k1 & -> & Hg & Hrest)].
  { split; [done|]. split; [apply same_published_refl|]. split; [intros [Hs _]; by apply (log_kept_refl setup)|]. intros Hg' Hcalm. destruct (Hg Hg') as (c & -> & Hs). by destruct (Hcalm _ eq_refl). }
  pose proof (so_redo _ _ Hok) as Hp. destruct (top (s_redo s)) as [entry|] eqn:Htop.
  2:{ injection Hrest as <- <- <-. split; [done|]. split; [apply same_published_refl|]. split; [intros [Hs _]; by apply (log_kept_refl setup)|]. intros _ _. left.
      by rewrite (proj1 (redo_path_none _ _ _ _ Hp) Htop). }
  destruct (redo_path_top _ _ _ _ _ Hp Htop) as (future & after & E & Hstk & Hent & Hpop). rewrite E, last_snoc, removelast_last.
  pose proof Hent as (fwd & inv & Hf & Hi & Hfok & Hfwd & Hiok & Hback & Hn & Hz). pose (v' := mkVersions (v_past v ++ [v_now v]) after future).
  pose proof (travel_spec takes setup c ChangeOriginRedo (he_forward entry)
    (fun s => set_undo (s_undo s ++ [entry]) (set_redo (pop (s_redo s)) s)) fwd s k1 s' k' r v v'
    (s_undo s ++ [entry]) (pop (s_redo s)) Hrest Hok Hnew Hfit Hf ltac:(lia) (eq_sym Hfwd)) as Ht.
  specialize (Ht ltac:(intros ? E1 E2; cbn beta; rewrite E1, E2; done) ltac:(constructor; [exact Hent|apply Hok]) Hpop).
  specialize (Ht ltac:(apply (moved_back_apart _ _ _ Hstk), Hok)).
  assert (redo_edits s fwd) as Hsrc by (exists entry; split; done).
  destruct r as [res|e]; [destruct Ht as (? & ? & ?); split; [done|]; exists v', fwd; split_and!; (done || lia)|].
  destruct Ht as (? & ? & [_ _] & Hlog & Hex). split; [done|]. split; [done|]. split; [exact Hlog|]. intros _ Hcalm. right. exists v', fwd.
  split_and!; try done; try lia. by apply Hex, Hcalm.
Qed.
End Edit.
