(* ===== verification/Editor.v ===== *)
(** * The editor a session implements

    The specification of document/session.go's editing operations, an editor of
    document versions, and the theorems that a session refines it: what a batch,
    an undo and a redo do when they are accepted, when they are refused, and that
    a refused one publishes nothing. *)

From Stdlib Require Import ZArith Lia List.
From stdpp Require Import base list numbers gmap.
From S2P Require Import Prelude GoLib Store File Journal ChangeMap ChangeHistory Events UndoStore Utf8 Options TreeText JournalText Session SessionText SessionHistory SessionEdit.
#[local] Open Scope Z_scope.

(** ** The specification *)

Inductive Command := CApply (expected : Z) (operations : list ReplaceOperation) | CUndo | CRedo.

(** The steps of the editor.  A batch may find the history gone: when the undo
    texts exceed their quota both directions are forgotten, even by a batch that
    is refused later. *)
Inductive editor_step : Versions -> Command -> bool -> Versions -> Prop :=
| step_empty v expected : editor_step v (CApply expected []) true v
| step_apply v expected ops past :
    ops <> [] -> ops_ok (v_now v) ops -> past = v_past v ++ [v_now v] \/ past = [] ->
    editor_step v (CApply expected ops) true (mkVersions past (apply_ops ops (v_now v)) [])
| step_undo past before now future :
    editor_step (mkVersions (past ++ [before]) now future) CUndo true (mkVersions past before (future ++ [now]))
| step_redo past now after future :
    editor_step (mkVersions past now (future ++ [after])) CRedo true (mkVersions (past ++ [now]) after future)
| step_refused v c : editor_step v c false v
| step_forgotten v expected ops : editor_step v (CApply expected ops) false (mkVersions [] (v_now v) []).

Inductive editor_run (v : Versions) : list (Command * bool) -> Versions -> Prop :=
| editor_nil : editor_run v [] v
| editor_snoc log v1 c b v2 : editor_run v log v1 -> editor_step v1 c b v2 -> editor_run v (log ++ [(c, b)]) v2.

(** The revisions a command that is accepted uses: one per edit of a batch. *)
Definition accepted {A} (r : result A) : bool := match r with Ok _ => true | Err _ => false end.

Section Refinement.
Context (journal_reads : list byte -> ReaderAt) (base : list byte).

Definition run_command (c : Command) (takes : Z -> list nat) (setup : JournalSetup) (ctx : option Context) : M ApplyResult :=
  match c with
  | CApply expected ops => ApplyBatch journal_reads takes setup ctx expected ops
  | CUndo => UndoContext journal_reads takes setup ctx
  | CRedo => RedoContext journal_reads takes setup ctx
  end.

(** Any sequence of operations, each with its own context, consumers and faults. *)
Inductive session_run (s : Session) : list (Command * bool) -> Session -> Prop :=
| session_nil : session_run s [] s
| session_snoc log s1 c takes setup ctx k s2 k2 r :
    session_run s log s1 -> setup_fresh setup -> fits s1 ->
    run_command c takes setup ctx s1 k = (s2, k2, r) -> session_run s (log ++ [(c, accepted r)]) s2.

(** What a reader of the session sees. *)
Record observes (s : Session) (text : list byte) : Prop := mkObserves {
  ob_length : Tree_Len (s_tree s) = zlen text;
  ob_read : forall off n, 0 <= off -> 0 <= n -> off + n <= zlen text -> readTreeRange (s_tree s) off n = Ok (slice off n text);
  ob_utf8 : utf8_Valid text = true;
  ob_changes : h_currentRevision (s_changeHistory s) = s_revision s /\ h_currentLength (s_changeHistory s) = zlen text }.

Lemma session_observes s v : session_ok base s v -> observes s (v_now v).
Proof.
  intros [[] Hh Hr Hl _ _]. split; [by apply (holds_length _ _ _ sb_text)| |done|done].
  intros off n H0 H1 H2. by eapply readTreeRange_holds.
Qed.

Hypothesis reads_ok : forall data, ReaderOk (journal_reads data) data.

Lemma undone_step v v' : undone v = Some v' -> editor_step v CUndo true v'.
Proof.
  unfold undone. destruct v as [past now future]. cbn. destruct (last past) as [before|] eqn:E; [|done]. intros [= <-].
  apply last_Some in E as [past' ->]. rewrite removelast_last. constructor.
Qed.

Lemma redone_step v v' : redone v = Some v' -> editor_step v CRedo true v'.
Proof.
  unfold redone. destruct v as [past now future]. cbn. destruct (last future) as [after|] eqn:E; [|done]. intros [= <-].
  apply last_Some in E as [future' ->]. rewrite removelast_last. constructor.
Qed.

Lemma travel_simulates takes setup ctx origin nothing source c s s' v target r :
  travel_promise base takes setup ctx origin nothing source s s' v target r -> (forall v', target = Some v' -> editor_step v c true v') ->
  exists v', editor_step v c (accepted r) v' /\ session_ok base s' v'.
Proof.
  intros H Hstep. unfold travel_promise in H. destruct r as [res|e].
  - destruct H as (_ & v' & ops & Hv & _ & Hed & _). exists v'. split; [by apply Hstep|apply Hed].
  - destruct H as (? & _). exists v. split; [constructor|done].
Qed.

Lemma run_command_simulates c takes setup ctx s k s' k' r v :
  run_command c takes setup ctx s k = (s', k', r) -> session_ok base s v -> setup_fresh setup -> fits s ->
  exists v', editor_step v c (accepted r) v' /\ session_ok base s' v'.
Proof using reads_ok.
  intros H Hok Hnew Hfit. destruct c as [expected ops| |]; cbn [run_command] in H.
  - pose proof (ApplyBatch_spec _ reads_ok base _ _ _ _ _ _ _ _ _ _ _ H Hok Hnew Hfit) as Hs. destruct r as [res|e]; cbn [accepted].
    + destruct Hs as (_ & _ & Hnil & Hcons). destruct ops as [|op ops].
      * destruct (Hnil eq_refl) as [-> _]. exists v. split; [constructor|done].
      * destruct (Hcons ltac:(done)) as (Hops & v' & Hed & Hf & Hp & _). exists v'. split; [|apply Hed].
        pose proof (ed_now _ _ _ _ _ _ _ _ _ Hed) as Hn. destruct v' as [past now future]. cbn in *. subst. by constructor.
    + destruct Hs as [(v' & Hok' & Hn & Hv & _) _]. exists v'. split; [|done].
      destruct Hv as [->|[Hp Hf]]; [constructor|]. destruct v' as [past now future]. cbn in *. subst. constructor.
  - pose proof (UndoContext_spec _ reads_ok base _ _ _ _ _ _ _ _ _ H Hok Hnew Hfit) as Hs.
    apply (travel_simulates _ _ _ _ _ _ _ _ _ _ _ _ Hs). apply undone_step.
  - pose proof (RedoContext_spec _ reads_ok base _ _ _ _ _ _ _ _ _ H Hok Hnew Hfit) as Hs.
    apply (travel_simulates _ _ _ _ _ _ _ _ _ _ _ _ Hs). apply redone_step.
Qed.
End Refinement.

(** ** Refusals *)

(** Whether edits that fit the text are refused, and why: the revision counter is
    exhausted, a text is too long to be inserted, the journal would exceed its quota
    (a batch the journal cannot hold counts for nothing there), or the batch exceeds
    the journal's payload limit. *)
Definition travel_refusal (s : Session) (ops : list ReplaceOperation) : option error :=
  let payload := batchRecordSize * zlen ops + zlen (concat (map Insert ops)) in
  let encodable := payload <=? maximumBatchPayload in
  let current := match s_journal s with None => EmptyJournalBytes | Some _ => s_journalBytes s end in
  if maxUint64 <? s_revision s + zlen ops then Some document_ErrRevisionOverflow else
  if existsb (fun op => MaxInsertBytes (Limits (s_config s)) <? zlen (Insert op)) ops then Some (errWrap 2 document_ErrLimitExceeded) else
  if MaxJournalBytes (Limits (s_config s)) ⊟ (if encodable then batchHeaderSize + payload else 0) <? current
  then Some (errWrap 3 document_ErrLimitExceeded) else
  if encodable then None else Some recovery_ErrInvalidBatch.

Lemma stage_spec_error m doc ops e :
  ops_ok doc ops -> stage_spec m doc ops = Err e ->
  e = errWrap 2 document_ErrLimitExceeded /\ Exists (fun op => m < zlen (Insert op)) ops.
Proof.
  revert doc. induction ops as [|op ops IH]; intros doc H He; [done|]. cbn in H, He.
  destruct H as (Hv & H0 & H1 & H2 & Hb1 & Hb2 & Hl & H). destruct (op_error m doc op) as [e'|] eqn:Ho.
  - injection He as ->. unfold op_error in Ho. apply boundary_spec in Hb1, Hb2. rewrite Hv, Hb1, Hb2 in Ho. cbn [negb andb] in Ho.
    destruct (Z.ltb_spec m (zlen (Insert op))); [injection Ho as <-; split; [done|by apply Exists_cons_hd]|].
    rewrite (proj2 (Z.leb_le 0 _)), (proj2 (Z.leb_le 0 _)), (proj2 (Z.leb_le (_ + _) _)), (proj2 (Z.ltb_ge maxInt64 _)) in Ho by lia. done.
  - destruct (stage_spec m (apply_op op doc) ops) as [?|e'] eqn:Hs; [done|]. injection He as ->.
    destruct (IH _ H Hs). split; [done|]. by apply Exists_cons_tl.
Qed.

Lemma recovery_inserted staged doc :
  staged_ok doc staged -> inserted (map recovery_op staged) = concat (map Insert (map so_operation staged)).
Proof.
  revert doc. induction staged as [|x staged IH]; intros doc H; [done|]. cbn in H. destruct H as (Hi & _ & _ & _ & _ & _ & _ & _ & _ & H).
  unfold inserted in *. cbn. rewrite Hi. f_equal. by eapply IH.
Qed.

Lemma staged_bounds doc staged :
  staged_ok doc staged -> zlen doc <= maxInt64 ->
  Forall (fun o => 0 <= ro_Start o <= maxInt64 /\ 0 <= ro_DeleteLength o <= maxInt64) (map recovery_op staged).
Proof.
  revert doc. induction staged as [|x staged IH]; intros doc H Hmax; [constructor|].
  cbn in H. destruct H as (_ & _ & _ & H0 & H1 & H2 & _ & _ & Hl & H). pose proof (zlen_nonneg (Insert (so_operation x))).
  constructor; [cbn; lia|]. apply (IH _ H). unfold apply_op. by rewrite zlen_splice.
Qed.

Lemma insert_limit m doc ops :
  ops_ok doc ops -> existsb (fun op => m <? zlen (Insert op)) ops = negb (accepted (stage_spec m doc ops)).
Proof.
  intros Hok. destruct (stage_spec m doc ops) as [staged|e] eqn:Hs; cbn [accepted negb].
  - destruct (stage_spec_ok _ _ _ _ Hs) as (Hst & <- & Hshort). clear Hs Hok. revert doc Hst.
    induction staged as [|x staged IH]; intros doc Hst; [done|]. apply Forall_cons in Hshort as [Hx Hshort]. cbn in Hst |- *.
    destruct Hst as (Hi & _ & _ & _ & _ & _ & _ & _ & _ & Hst). rewrite <-Hi, (proj2 (Z.ltb_ge _ _)) by lia. by eapply IH.
  - destruct (stage_spec_error _ _ _ _ Hok Hs) as [_ Hex]. apply existsb_exists. apply List.Exists_exists in Hex as (op & Hin & Hlt).
    exists op. split; [done|]. by apply Z.ltb_lt.
Qed.

(** The size of the batch of edits that fit. *)
Lemma staged_size s doc ops staged :
  ops_ok doc ops -> 1 <= zlen ops <= maximumBatchSize -> 0 <= s_revision s -> s_revision s + zlen ops <= maxUint64 -> zlen doc <= maxInt64 ->
  staged_ok doc staged -> map so_operation staged = ops ->
  let payload := batchRecordSize * zlen ops + zlen (concat (map Insert ops)) in
  BatchEncodedSize (rev1 s) (rev1 s) (map recovery_op staged) =
    if payload <=? maximumBatchPayload then Ok (batchHeaderSize + payload) else Err recovery_ErrInvalidBatch.
Proof.
  intros Hok Hn H0 Hrev Hmax Hst Hmap payload. assert (in_u64 (s_revision s)) as Hu by go_lia.
  assert (zlen staged = zlen ops) as Hz by (by rewrite <-Hmap, zlen_map). pose proof (recovery_typed s staged doc Hu Hst Hmax) as Hty.
  assert (inserted (map recovery_op staged) = concat (map Insert ops)) as Ei by (by rewrite (recovery_inserted _ _ Hst), Hmap).
  assert (rev1 s = s_revision s + 1) as E by (unfold rev1; rewrite u64_id; go_lia).
  unfold BatchEncodedSize. destruct (batchPayloadSize (rev1 s) (rev1 s) (map recovery_op staged)) as [n|e] eqn:Hp; cbn [res_bind].
  - apply batchPayloadSize_spec in Hp as [Hb ->]; [|done]. pose proof (bo_size _ _ _ Hb) as Hsz. rewrite zlen_map, Hz, Ei in *. fold payload in Hsz |- *.
    by rewrite (proj2 (Z.leb_le _ _) Hsz).
  - destruct (Z.leb_spec payload maximumBatchPayload) as [Hle|_]; [|by rewrite (batchPayloadSize_error _ _ _ _ Hp)]. exfalso.
    assert (batch_ok (rev1 s) (rev1 s) (map recovery_op staged)) as Hbok; [|by rewrite (proj2 (batchPayloadSize_spec _ _ _ _ Hty) (conj Hbok eq_refl)) in Hp].
    unfold maximumBatchSize in *. split; rewrite ?E, ?zlen_map, ?Hz, ?Ei; unfold maximumBatchSize; [lia|go_lia|go_lia|by apply (staged_bounds doc)|exact Hle].
Qed.

Lemma commit_refused_exact s doc ops :
  ops_ok doc ops -> 1 <= zlen ops <= maximumBatchSize -> in_u64 (s_revision s) -> zlen doc <= maxInt64 ->
  commit_refused s doc ops = travel_refusal s ops.
Proof.
  intros Hok Hn Hrev Hmax. unfold commit_refused, travel_refusal. rewrite u64_id by (unfold maximumBatchSize in *; go_lia).
  rewrite (insert_limit _ _ _ Hok). destruct (Z.ltb_spec (maxUint64 - zlen ops) (s_revision s)), (Z.ltb_spec maxUint64 (s_revision s + zlen ops)); try lia; [done|].
  destruct (stage_spec _ doc ops) as [staged|e] eqn:Hs; cbn [accepted negb]; [|by destruct (stage_spec_error _ _ _ _ Hok Hs) as [-> _]].
  destruct (stage_spec_ok _ _ _ _ Hs) as (Hst & Hmap & _). fold (rev1 s). rewrite (staged_size s doc ops staged) by (done || apply Hrev || lia). cbv zeta.
  destruct (_ <=? maximumBatchPayload); cbn [or_zero]; rewrite Z.leb_antisym; by destruct (_ <? _).
Qed.

(** ** A concrete session: the text "abc", inserts of at most two bytes *)

Definition ex_limits : SessionLimits := mkLimits 256 2 1000 4096 16 16 65536 1024 128.
Definition ex_config : SessionConfig := mkConfig [] [] DirectoryShared DirectoryOwned ex_limits 1000000000 0.
Definition ex_abc : list byte := [Byte.x61; Byte.x62; Byte.x63].
Definition ex_base_tree : Tree :=
  match NewWithBasePiece (Some (bytes_NewReader ex_abc)) (mkPiece SourceBase 0 3 0 true) with
  | Ok t => t | Err _ => mkTree nilNode ∅ 0 0 0 0 end.
Definition ex_session : Session :=
  mkSession [] [] [] ex_config ex_fp false EOLLF ex_base_tree None 0 [] [] (Some (mkUndoStore (Some (newFile [])) [] 0 1000 true))
    0 [] 0 0 false false (newChangeHistory 16 0 3) (newEventHub 16 128) 0 0 false [] None false None None false.
Definition ex_versions : Versions := mkVersions [] ex_abc [].
Definition ex_setup : JournalSetup := mkSetup [] None (Ok (newFile [])) None.
Definition ex_calm_context : Context := fun _ => None.
Definition ex_run (c : Command) (s : Session) : Session * nat * result ApplyResult :=
  run_command bytes_NewReader c (fun _ => []) ex_setup (Some ex_calm_context) s 0%nat.

(** Replace "c" by "xy", delete everything, and undo that. *)
Definition ex_replace : Command := CApply 0 [mkReplace 2 1 [Byte.x78; Byte.x79]].
Definition ex_delete : Command := CApply 1 [mkReplace 0 4 []].
Definition ex_after (cs : list Command) : Session := fold_left (fun s c => (ex_run c s).1.1) cs ex_session.

Lemma ex_session_ok : session_ok ex_abc ex_session ex_versions.
Proof.
  split; cbn [v_now v_past v_future ex_versions].
  - split; try done.
    + split; [split; cbn; unfold_ints; unfold DefaultMaxBatchOperations, MaximumInsertBytes, MinimumJournalBytes, MaximumEventHistory,
        MaximumChangeHistory, MaximumAnchorBatch, MaximumSnapshotLeases, MaximumSubscriptions; lia|].
      split; [cbn; lia|]. split; [by left|]. split; [by left|by right].
    + refine (NewWithBasePiece_holds (texts ex_abc []) (bytes_NewReader ex_abc) (mkPiece SourceBase 0 3 0 true) (mkOptions 0 false) ex_base_tree _ _ _ _ _);
        [reflexivity|by repeat split|done|by vm_compute].
  - apply newChangeHistory_ok; [done|cbn; unfold_ints; lia].
  - done.
  - done.
  - constructor.
  - constructor.
  - apply apart_refs_nil.
Qed.

Lemma ex_setup_fresh : setup_fresh ex_setup.
Proof. by intros f [= <-]. Qed.

Lemma ex_run_step cs c b log :
  session_run bytes_NewReader ex_session log (ex_after cs) -> fits (ex_after cs) -> accepted (ex_run c (ex_after cs)).2 = b ->
  session_run bytes_NewReader ex_session (log ++ [(c, b)]) (ex_after (cs ++ [c])).
Proof.
  intros Hr Hf <-. unfold ex_after at 2. rewrite fold_left_app. cbn [fold_left]. fold (ex_after cs).
  apply (session_snoc bytes_NewReader ex_session log (ex_after cs) c (fun _ => []) ex_setup (Some ex_calm_context) 0%nat
    (ex_run c (ex_after cs)).1.1 (ex_run c (ex_after cs)).1.2 (ex_run c (ex_after cs)).2); [exact Hr|exact ex_setup_fresh|exact Hf|].
  fold (ex_run c (ex_after cs)). by rewrite <-!surjective_pairing.
Qed.

Example ex_texts :
  map (fun cs => readTreeRange (s_tree (ex_after cs)) 0 (Tree_Len (s_tree (ex_after cs))))
    [[ex_replace]; [ex_replace; CUndo]; [ex_replace; CUndo; CRedo]; [ex_replace; ex_delete]; [ex_replace; ex_delete; CUndo]] =
  [Ok [Byte.x61; Byte.x62; Byte.x78; Byte.x79]; Ok ex_abc; Ok [Byte.x61; Byte.x62; Byte.x78; Byte.x79]; Ok []; Ok []].
Proof. vm_compute. reflexivity. Qed.

(** ** Properties *)

(** C1. A session refines an editor of document versions.  Whatever the contexts,
    consumers and faults of journal and undo store, every sequence of batches,
    undos and redos on a well-formed session is a run of the editor with the same
    accepted operations: an accepted batch makes the version its edits describe,
    undo and redo move to the neighbouring versions, a refused operation leaves
    the present version.  What a reader of the session sees is the present
    version: its length, any range of its bytes, valid UTF-8, and a change
    history that ends at the session's revision. *)
Theorem session_refines_editor journal_reads base s v log s' :
  (forall data, ReaderOk (journal_reads data) data) -> session_ok base s v -> session_run journal_reads s log s' ->
  exists v', editor_run v log v' /\ session_ok base s' v' /\ observes s' (v_now v').
Proof.
  intros Hreads Hok Hrun.
  enough (exists v', editor_run v log v' /\ session_ok base s' v') as (v' & ? & ?)
    by (exists v'; split_and!; [done|done|by eapply session_observes]).
  induction Hrun as [|log s1 c takes setup ctx k s2 k2 r Hrun IH Hnew Hfit Hc]; [exists v; split; [constructor|done]|].
  destruct IH as (v1 & Hv1 & Hok1).
  destruct (run_command_simulates _ _ Hreads _ _ _ _ _ _ _ _ _ _ Hc Hok1 Hnew Hfit) as (v2 & Hstep & Hok2).
  exists v2. split; [by econstructor|done].
Qed.

Definition ex_commands : list Command := [ex_replace; CUndo; CRedo; CApply 3 [mkReplace 0 4 []]; CUndo].
Definition ex_log : list (Command * bool) := zip ex_commands [true; true; true; true; false].

Lemma session_refines_editor_witness :
  exists s' v', session_run bytes_NewReader ex_session ex_log s' /\ editor_run ex_versions ex_log v' /\ observes s' (v_now v').
Proof.
  assert (session_run bytes_NewReader ex_session ex_log (ex_after ex_commands)) as Hrun.
  { change ex_log with ((((([] ++ [(ex_replace, true)]) ++ [(CUndo, true)]) ++ [(CRedo, true)]) ++ [(CApply 3 [mkReplace 0 4 []], true)]) ++ [(CUndo, false)]).
    change ex_commands with ((((([] ++ [ex_replace]) ++ [CUndo]) ++ [CRedo]) ++ [CApply 3 [mkReplace 0 4 []]]) ++ [CUndo]).
    do 5 (apply ex_run_step; [|vm_compute; congruence|vm_compute; reflexivity]). constructor. }
  destruct (session_refines_editor bytes_NewReader ex_abc ex_session ex_versions ex_log _ bytes_NewReader_ok ex_session_ok Hrun) as (v' & H1 & _ & H2).
  exists (ex_after ex_commands), v'. split_and!; [exact Hrun|exact H1|exact H2].
Defined.

(** C3. What an accepted batch does: it was addressed to the present revision,
    within the batch limit, and its edits can be applied one after the other, each
    in range and between rune boundaries.  The session then shows the text with
    those edits; the result carries the new revision, length, dirtiness and the
    change map of exactly those edits, a valid map which is appended to the change
    history and published to the subscribers with the new metadata. *)
Theorem ApplyBatch_result journal_reads base takes setup ctx expected ops s k s' k' res v :
  (forall data, ReaderOk (journal_reads data) data) -> session_ok base s v -> setup_fresh setup -> fits s -> ops <> [] ->
  ApplyBatch journal_reads takes setup ctx expected ops s k = (s', k', Ok res) ->
  expected = s_revision s /\ zlen ops <= MaxBatchOperations (Limits (s_config s)) /\ ops_ok (v_now v) ops /\
  observes s' (apply_ops ops (v_now v)) /\
  res = mkApplyResult (s_revision s + zlen ops) (zlen (apply_ops ops (v_now v))) (s_committedRevision s <? s_revision s + zlen ops)
          (change_of (s_revision s) (v_now v) ops) /\
  map_ok (Changes res) /\ s_changeHistory s' = ChangeHistory.append (s_changeHistory s) (Changes res) /\
  s_events s' = publish takes (s_events s) (session_event s' EventChanged ChangeOriginApply (Changes res) None).
Proof.
  intros Hreads Hok Hnew Hfit Hne H.
  destruct (ApplyBatch_spec _ Hreads base _ _ _ _ _ _ _ _ _ _ _ H Hok Hnew Hfit) as (_ & Href & _ & Hres).
  destruct (Hres Hne) as (Hops & v' & [Hok' Hnow Hm Hrev _ [_ Hd] Hlen Hh _ He] & _ & _ & ->).
  unfold apply_refused in Href. destruct (Z.eqb_spec expected (s_revision s)) as [->|]; [|done].
  destruct (Z.eqb_spec (zlen ops) 0) as [E|_]; [by apply zlen_zero in E|]. cbn [negb] in Href.
  destruct (Z.ltb_spec (MaxBatchOperations (Limits (s_config s))) (zlen ops)); [done|].
  rewrite <-Hnow. split_and!; try done; [by eapply session_observes|]. by rewrite Hd, Hrev.
Qed.

Lemma ApplyBatch_result_witness :
  exists s' k' res, ApplyBatch bytes_NewReader (fun _ => []) ex_setup (Some ex_calm_context) 0 [mkReplace 2 1 [Byte.x78; Byte.x79]] ex_session 0%nat
    = (s', k', Ok res) /\ observes s' [Byte.x61; Byte.x62; Byte.x78; Byte.x79] /\ Revision res = 1.
Proof.
  set (x := ApplyBatch bytes_NewReader (fun _ => []) ex_setup (Some ex_calm_context) 0 [mkReplace 2 1 [Byte.x78; Byte.x79]] ex_session 0%nat).
  assert (exists res, x.2 = Ok res /\ Revision res = 1) as (res & Hr & Hrev) by (eexists; split; vm_compute; reflexivity).
  assert (x = (x.1.1, x.1.2, Ok res)) as E by (rewrite <-Hr; by destruct x as [[? ?] ?]).
  exists x.1.1, x.1.2, res. split; [exact E|]. split; [|exact Hrev].
  destruct (ApplyBatch_result bytes_NewReader ex_abc (fun _ => []) ex_setup (Some ex_calm_context) 0 [mkReplace 2 1 [Byte.x78; Byte.x79]]
    ex_session 0%nat x.1.1 x.1.2 res ex_versions bytes_NewReader_ok ex_session_ok ex_setup_fresh
    ltac:(vm_compute; congruence) ltac:(done) E) as (_ & _ & _ & Ho & _). exact Ho.
Defined.

(** C4. What a batch is refused for.  When nothing fails around it, the outcome
    is decided by its arguments: [apply_refused] gives the error, in the order of
    the checks of the code, and without one the batch is accepted.  A batch that
    is refused, for whatever reason, publishes nothing: text, revisions, dirtiness,
    pending operations, change history and events are as before, and the stacks of
    the history are as before or both empty. *)
Theorem ApplyBatch_refusals journal_reads base takes setup c expected ops s k s' k' r v :
  (forall data, ReaderOk (journal_reads data) data) -> session_ok base s v -> setup_fresh setup -> fits s ->
  ApplyBatch journal_reads takes setup (Some c) expected ops s k = (s', k', r) ->
  (guards (Some c) s = None -> calm c setup s ->
     match apply_refused s (v_now v) expected ops with Some e => r = Err e | None => exists res, r = Ok res end) /\
  (forall e, r = Err e -> observes s' (v_now v) /\ same_published s s' /\
     exists v', session_ok base s' v' /\ (v' = v \/ v' = mkVersions [] (v_now v) [])).
Proof.
  intros Hreads Hok Hnew Hfit H. pose proof (ApplyBatch_spec _ Hreads base _ _ _ _ _ _ _ _ _ _ _ H Hok Hnew Hfit) as Hs.
  destruct r as [res|e].
  - destruct Hs as (_ & -> & _). split; [eauto|done].
  - destruct Hs as [(v' & Hok' & Hnow & Hv & Hsame & _) Hex]. split.
    + intros Hg Hc. by rewrite (Hex Hg) by (by intros ? [= <-]).
    + intros e' [= <-]. rewrite <-Hnow. split; [by eapply session_observes|]. split; [done|]. exists v'. split; [done|].
      destruct Hv as [?|[Hp Hf]]; [by left|right]. destruct v' as [past now future]. cbn in *. by subst.
Qed.

Lemma ApplyBatch_refusals_witness :
  calm ex_calm_context ex_setup ex_session /\
  (ApplyBatch bytes_NewReader (fun _ => []) ex_setup (Some ex_calm_context) 0 [mkReplace 1 0 [Byte.x78]; mkReplace 5 1 []] ex_session 0%nat).2
    = Err store_ErrInvalidRange.
Proof.
  assert (calm ex_calm_context ex_setup ex_session) as Hc.
  { split; [done|]. split; [intros f [= <-]; reflexivity|]. split; [done|]. eexists. by split. }
  split; [exact Hc|]. set (x := ApplyBatch _ _ _ _ _ _ _ _). assert (x = (x.1.1, x.1.2, x.2)) as E by (by destruct x as [[? ?] ?]).
  apply (proj1 (ApplyBatch_refusals bytes_NewReader ex_abc (fun _ => []) ex_setup ex_calm_context 0 [mkReplace 1 0 [Byte.x78]; mkReplace 5 1 []]
    ex_session 0%nat x.1.1 x.1.2 x.2 ex_versions bytes_NewReader_ok ex_session_ok ex_setup_fresh ltac:(vm_compute; congruence) E) eq_refl Hc).
Defined.

(** C5. Undo takes the session back and redo forward again.  With a version
    behind and nothing failing, the edits that undo makes are the inverse ones of
    the latest entry of its stack, with the texts the undo file keeps; they lead
    from the present text to the version behind.  [travel_refusal] decides whether
    they are made: if it finds no reason against them, undo succeeds and makes that
    version the present one - the same text, whatever was edited - and the present
    one the next ahead, so that redo returns to it; otherwise the session stays as
    it was and the error is that reason: the revision counter is exhausted, a text
    that has to be inserted again exceeds [MaxInsertBytes], the journal quota is
    exceeded, or the payload limit of the journal.  Redo likewise, by the forward
    edits of the latest entry of the other stack. *)
Theorem undo_redo_travel journal_reads base takes setup c s k v :
  (forall data, ReaderOk (journal_reads data) data) -> session_ok base s v -> setup_fresh setup -> fits s ->
  guards (Some c) s = None -> calm c setup s ->
  let travels run source v' :=
    exists ops, source ops /\ apply_ops ops (v_now v) = v_now v' /\
    match run s k with
    | (s', _, Ok res) => travel_refusal s ops = None /\
        session_ok base s' v' /\ observes s' (v_now v') /\ Revision res = s_revision s' /\ ByteLength res = zlen (v_now v')
    | (s', _, Err e) => travel_refusal s ops = Some e /\ session_ok base s' v /\ same_published s s'
    end in
  (forall past before, v_past v = past ++ [before] ->
     travels (UndoContext journal_reads takes setup (Some c)) (undo_edits s) (mkVersions past before (v_future v ++ [v_now v]))) /\
  (forall future after, v_future v = future ++ [after] ->
     travels (RedoContext journal_reads takes setup (Some c)) (redo_edits s) (mkVersions (v_past v ++ [v_now v]) after future)).
Proof.
  intros Hreads Hok Hnew Hfit Hg Hc. cbv zeta. pose proof (so_base _ _ _ Hok) as [_ _ Ht _ _ Hrev _ _].
  pose proof (proj2 (holds_length _ _ _ Ht)) as Hmax.
  assert (forall origin nothing source s' v' r, travel_promise base takes setup (Some c) origin nothing source s s' v (Some v') r ->
    exists ops, source ops /\ apply_ops ops (v_now v) = v_now v' /\
    match r with
    | Ok res => travel_refusal s ops = None /\ session_ok base s' v' /\ observes s' (v_now v') /\ Revision res = s_revision s' /\ ByteLength res = zlen (v_now v')
    | Err e => travel_refusal s ops = Some e /\ session_ok base s' v /\ same_published s s'
    end) as Hpromise.
  { intros origin nothing source s' v' r H. destruct r as [res|e]; cbn in H.
    - destruct H as (_ & ? & ops & [= <-] & Hops & Hed & -> & Hsrc & Hn & Happ & Hnone). exists ops. split; [done|]. split; [done|].
      rewrite <-(commit_refused_exact s (v_now v)) by done. split; [done|]. split; [apply Hed|]. split; [eapply session_observes, Hed|done].
    - destruct H as (Hok' & Hsame & _ & Hex).
      destruct (Hex Hg) as [[? _]|(? & ops & [= <-] & Hsrc & Hops & Happ & Hn & Href)]; [by intros ? [= <-]|done|].
      exists ops. split; [done|]. split; [done|]. by rewrite <-(commit_refused_exact s (v_now v)). }
  split; intros l x E.
  - destruct (UndoContext _ _ _ _ _ _) as [[s' k'] r] eqn:H.
    pose proof (UndoContext_spec _ Hreads base _ _ _ _ _ _ _ _ _ H Hok Hnew Hfit) as Hp. unfold undone in Hp.
    rewrite E, last_snoc, removelast_last in Hp. by apply (Hpromise _ _ _ _ _ _ Hp).
  - destruct (RedoContext _ _ _ _ _ _) as [[s' k'] r] eqn:H.
    pose proof (RedoContext_spec _ Hreads base _ _ _ _ _ _ _ _ _ H Hok Hnew Hfit) as Hp. unfold redone in Hp.
    rewrite E, last_snoc, removelast_last in Hp. by apply (Hpromise _ _ _ _ _ _ Hp).
Qed.

Definition ex_abxy : list byte := [Byte.x61; Byte.x62; Byte.x78; Byte.x79].

Lemma ex_replaced_ok : session_ok ex_abc (ex_after [ex_replace]) (mkVersions [ex_abc] ex_abxy []).
Proof.
  set (x := ex_run ex_replace ex_session). assert (x = (x.1.1, x.1.2, x.2)) as E by (by destruct x as [[? ?] ?]).
  pose proof (ApplyBatch_spec bytes_NewReader bytes_NewReader_ok ex_abc (fun _ => []) ex_setup (Some ex_calm_context) 0
    [mkReplace 2 1 [Byte.x78; Byte.x79]] ex_session 0%nat x.1.1 x.1.2 x.2 ex_versions E ex_session_ok ex_setup_fresh
    ltac:(vm_compute; congruence)) as H.
  assert (accepted x.2 = true) as Ha by (vm_compute; reflexivity). destruct x.2 as [res|e]; [|done].
  destruct H as (_ & _ & _ & H). destruct (H ltac:(done)) as (_ & v' & Hed & Hf & Hp & _).
  pose proof (ed_now _ _ _ _ _ _ _ _ _ Hed) as Hn. apply ed_ok in Hed. change (ex_after [ex_replace]) with x.1.1.
  destruct v' as [past now future]. cbn in Hn, Hf, Hp. subst future now.
  destruct Hp as [-> | ->]; [exact Hed|]. pose proof (proj2 (undo_path_none _ _ _ _ (so_undo _ _ _ Hed)) eq_refl) as Ht.
  apply (f_equal isSome) in Ht. vm_compute in Ht. done.
Qed.

Lemma undo_redo_travel_witness :
  exists s' k' res, UndoContext bytes_NewReader (fun _ => []) ex_setup (Some ex_calm_context) (ex_after [ex_replace]) 0%nat = (s', k', Ok res) /\
    observes s' ex_abc.
Proof.
  assert (calm ex_calm_context ex_setup (ex_after [ex_replace])) as Hcalm.
  { split; [done|]. split; vm_compute; intros f [= <-]; reflexivity. }
  pose proof (proj1 (undo_redo_travel bytes_NewReader ex_abc (fun _ => []) ex_setup ex_calm_context (ex_after [ex_replace]) 0%nat
    (mkVersions [ex_abc] ex_abxy []) bytes_NewReader_ok ex_replaced_ok ex_setup_fresh ltac:(vm_compute; congruence) eq_refl Hcalm)
    [] ex_abc eq_refl) as H. cbv beta zeta in H.
  assert (accepted (UndoContext bytes_NewReader (fun _ => []) ex_setup (Some ex_calm_context) (ex_after [ex_replace]) 0%nat).2 = true) as Ha
    by (vm_compute; reflexivity).
  destruct H as (ops & _ & _ & H). revert H Ha.
  generalize (UndoContext bytes_NewReader (fun _ => []) ex_setup (Some ex_calm_context) (ex_after [ex_replace]) 0%nat).
  intros [[s' k'] [res|e]] H Ha; [|discriminate Ha]. exists s', k', res. split; [reflexivity|]. destruct H as (_ & _ & Ho & _). exact Ho.
Defined.
