(* ===== verification/SessionFrame.v ===== *)
(** * What the editing operations leave alone

    Batches, undos and redos (document/session.go) change a fixed part of a
    session.  A save that has released the lock relies on the rest: the byte order
    mark, the path, the configuration, the committed revision. *)

From Stdlib Require Import ZArith Lia List.
From stdpp Require Import base list numbers gmap.
From S2P Require Import Prelude GoLib Store File Journal ChangeMap ChangeHistory Events UndoStore Utf8 Options TreeText JournalText Session SessionText SessionHistory SessionEdit Editor.
#[local] Open Scope Z_scope.

Record framed (s s' : Session) : Prop := mkFramed {
  fr_hasBOM : s_hasBOM s' = s_hasBOM s;
  fr_resolvedPath : s_resolvedPath s' = s_resolvedPath s;
  fr_config : s_config s' = s_config s;
  fr_fingerprint : s_fingerprint s' = s_fingerprint s;
  fr_committedRevision : s_committedRevision s' = s_committedRevision s;
  fr_durabilityUncertain : s_durabilityUncertain s' = s_durabilityUncertain s;
  fr_fault : s_fault s' = s_fault s;
  fr_closed : s_closed s' = s_closed s;
  fr_lifecycle : s_lifecycle s' = s_lifecycle s }.

#[export] Instance framed_order : PreOrder framed.
Proof. split; [by split|]. intros s1 s2 s3 [] []. split; congruence. Qed.

(** ** Computations that keep the frame *)

Definition leaves {A} (c : M A) : Prop := forall s k, framed s (c s k).1.1.

Lemma leaves_ret {A} (a : A) : leaves (ret a).
Proof. intros s k. cbn. reflexivity. Qed.
Lemma leaves_fail {A} e : leaves (@fail A e).
Proof. intros s k. cbn. reflexivity. Qed.
Lemma leaves_lift {A} (r : result A) : leaves (lift r).
Proof. intros s k. cbn. reflexivity. Qed.
Lemma leaves_get : leaves get.
Proof. intros s k. cbn. reflexivity. Qed.
Lemma leaves_check ctx : leaves (check ctx).
Proof. intros s k. unfold check. destruct (ctx k); reflexivity. Qed.
Lemma leaves_modify f : (forall s, framed s (f s)) -> leaves (modify f).
Proof. intros H s k. apply H. Qed.
Lemma leaves_bind {A B} (c : M A) (f : A -> M B) : leaves c -> (forall a, leaves (f a)) -> leaves (bind c f).
Proof.
  intros Hc Hf s k. unfold bind. specialize (Hc s k). destruct (c s k) as [[s1 k1] [a|e]]; cbn in *; [|done].
  etransitivity; [exact Hc|apply Hf].
Qed.
Lemma leaves_if {A} (b : bool) (c d : M A) : leaves c -> leaves d -> leaves (if b then c else d).
Proof. by destruct b. Qed.

Create HintDb leaves.
#[export] Hint Resolve leaves_ret leaves_fail leaves_lift leaves_get leaves_check leaves_modify : leaves.
Ltac leaves :=
  repeat first
    [ solve [auto with leaves] | apply leaves_bind; [|intros] | apply leaves_if
    | match goal with |- leaves (let '(_, _) := ?p in _) => destruct p end
    | match goal with |- leaves (match ?o with _ => _ end) => destruct o end ].

Lemma framed_scheduled s : framed s (maybeScheduleJournalCheckpointLocked s).
Proof. unfold maybeScheduleJournalCheckpointLocked. destruct (_ || _); by split. Qed.

Lemma framed_commit_state t a staged group entry epoch rec s : framed s (commit_state t a staged group entry epoch rec s).
Proof. unfold commit_state. cbv zeta. etransitivity; [|apply framed_scheduled]. destruct (_ && _); by split. Qed.

Lemma framed_record_change takes origin changes s : framed s (record_change takes origin changes s).
Proof. by split. Qed.

Lemma leaves_historyText value : leaves (historyText value).
Proof.
  intros s k. unfold historyText. destruct (UndoStore.append _ _) as [us [ref [e|]]]; [|by split]. destruct (negb _); [by split|].
  destruct (UndoStore.reset _) as [us1 [e1|]]; [by split|]. destruct (UndoStore.append _ _) as [us2 [ref2 [e2|]]]; [|by split].
  destruct (errors_Is _ _); by split.
Qed.
Lemma leaves_stage_loop ctx m ops : forall t staging acc, leaves (stage_loop ctx m t staging ops acc).
Proof. induction ops as [|op ops IH]; intros t staging acc; cbn [stage_loop]; leaves. Qed.
Lemma leaves_replay_staged ctx staged : forall t offsets, leaves (replay_staged ctx t staged offsets).
Proof. induction staged as [|x staged IH]; intros t offsets; cbn [replay_staged]; leaves. Qed.
Lemma leaves_record_entry ctx staged : forall entry, leaves (record_entry ctx staged entry).
Proof. pose proof leaves_historyText. induction staged as [|x staged IH]; intros entry; cbn [record_entry]; leaves. Qed.
Lemma leaves_materializeHistory ctx source : leaves (materializeHistory ctx source).
Proof.
  induction source as [|op source IH]; cbn [materializeHistory]; leaves. intros s k. by destruct (UndoStore.read _ _).
Qed.
#[export] Hint Resolve framed_commit_state framed_record_change leaves_historyText leaves_stage_loop leaves_replay_staged
  leaves_record_entry leaves_materializeHistory : leaves.

Section Frame.
Context (journal_reads : list byte -> ReaderAt).

Lemma leaves_with_journal {A} (f : Journal -> Journal * result A) : leaves (with_journal journal_reads f).
Proof. intros s k. unfold with_journal. destruct (s_journal s) as [j|]; [|reflexivity]. destruct (f j). by split. Qed.
Lemma leaves_repairing {A} offset (c : M A) : leaves c -> leaves (repairing journal_reads offset c).
Proof.
  intros Hc s k. unfold repairing. specialize (Hc s k). destruct (c s k) as [[s1 k1] [a|e]]; [done|]. cbn in Hc.
  destruct (s_journal s1) as [j|]; [|done]. destruct (RepairTail j offset). etransitivity; [exact Hc|by split].
Qed.
Lemma leaves_ensure setup : leaves (ensureJournalLocked journal_reads setup).
Proof.
  intros s k. unfold ensureJournalLocked. destruct (s_journal s); [reflexivity|]. destruct (openJournal _ _ _ _) as [o [[j rr]|e]]; [|reflexivity].
  destruct (Size j) as [j1 [size|e]]; [by split|]. destruct (Journal.Close j1). reflexivity.
Qed.
#[local] Hint Resolve leaves_with_journal leaves_repairing leaves_ensure : leaves.

Lemma leaves_apply ctx setup ops rec : leaves (applyOperationsLocked journal_reads ctx setup ops rec).
Proof.
  unfold applyOperationsLocked, stageOperationsLocked. leaves. apply leaves_repairing. leaves.
Qed.
#[local] Hint Resolve leaves_apply : leaves.

Lemma leaves_context ctx : leaves (operationContext ctx).
Proof. intros s k. unfold operationContext. destruct ctx; [|reflexivity]. by destruct (isSome _). Qed.
Lemma leaves_open : leaves guard_open.
Proof. intros s k. unfold guard_open. by destruct (_ || _). Qed.
Lemma leaves_fault : leaves guard_fault.
Proof. intros s k. unfold guard_fault. by destruct (s_fault s). Qed.
#[local] Hint Resolve leaves_context leaves_open leaves_fault : leaves.

(** Every operation keeps the frame, whether it is accepted or not. *)
Lemma run_command_framed c takes setup ctx : leaves (run_command journal_reads c takes setup ctx).
Proof.
  destruct c; cbn [run_command]; unfold ApplyBatch, UndoContext, RedoContext; leaves; apply leaves_modify; intros; by split.
Qed.

Lemma session_run_framed s log s' : session_run journal_reads s log s' -> framed s s'.
Proof.
  induction 1 as [|log s1 c takes setup ctx k s2 k2 r _ IH _ _ Hc]; [reflexivity|]. etransitivity; [exact IH|].
  pose proof (run_command_framed c takes setup ctx s1 k) as Hf. by rewrite Hc in Hf.
Qed.

(** A session with a fault refuses every operation and stays as it is. *)
Lemma faulted_command c takes setup ctx s k :
  isSome (s_fault s) = true -> (run_command journal_reads c takes setup ctx s k).1.1 = s.
Proof.
  intros Hf. destruct (s_fault s) as [e|] eqn:E; [|done].
  assert (forall ctx, (operationContext ctx s k).1.1 = s) as Hctx by (intros [x|]; unfold operationContext; [by destruct (isSome (s_lifecycle s))|done]).
  assert (forall k, (guard_open s k).1.1 = s) as Hopen by (intros k1; unfold guard_open; by destruct (_ || _)).
  assert (forall k, guard_fault s k = (s, k, Err (errJoin document_ErrFaulted e))) as Hfault by (intros k1; unfold guard_fault; by rewrite E).
  destruct c; cbn [run_command]; unfold ApplyBatch, UndoContext, RedoContext, bind; specialize (Hctx ctx);
    destruct (operationContext ctx s k) as [[s1 k1] [x|?]]; cbn in Hctx; subst s1; try done;
    specialize (Hopen k1); destruct (guard_open s k1) as [[s2 k2] [u|?]]; cbn in Hopen; subst s2; try done;
    [by rewrite Hfault| |]; unfold check; (destruct (x k2); [done|]); by rewrite Hfault.
Qed.

Lemma faulted_run s log s' : session_run journal_reads s log s' -> isSome (s_fault s) = true -> s' = s.
Proof.
  induction 1 as [|log s1 c takes setup ctx k s2 k2 r _ IH _ _ Hc]; [done|]. intros Hf. specialize (IH Hf) as ->.
  pose proof (faulted_command c takes setup ctx s k Hf) as E. by rewrite Hc in E.
Qed.
End Frame.
