(* ===== verification/SessionRecovery.v ===== *)
(** * Recovery: the journal of a session and its replay

    What a session has acknowledged is in its journal, and replaying a journal over
    the base text gives the session back (document/session.go [replay] over
    recovery/journal.go [Replay]). *)

From Stdlib Require Import ZArith Lia List.
From stdpp Require Import base list numbers gmap.
From S2P Require Import Prelude GoLib Store File Journal ChangeMap ChangeHistory Events UndoStore Utf8 Options TreeText JournalText Session SessionText SessionHistory SessionEdit Editor.
#[local] Open Scope Z_scope.

(** ** The log of a session *)

Definition to_op (o : Journal.ReplaceOperation) : ReplaceOperation := mkReplace (ro_Start o) (ro_DeleteLength o) (ro_Inserted o).

Definition apply_logs (xs : list logged) (doc : list byte) : list byte :=
  fold_left (fun doc x => apply_ops (map to_op (l_ops x)) doc) xs doc.

Fixpoint log_edits (xs : list logged) : Z := match xs with [] => 0 | x :: xs => zlen (l_ops x) + log_edits xs end.

(** A log that continues from a text and a revision. *)
Fixpoint logs_ok (doc : list byte) (revision : Z) (xs : list logged) : Prop :=
  match xs with
  | [] => True
  | x :: xs =>
    l_rev x = revision + 1 /\ l_group x <> 0 /\ logged_ok x /\ ops_ok doc (map to_op (l_ops x)) /\
    logs_ok (apply_ops (map to_op (l_ops x)) doc) (revision + zlen (l_ops x)) xs
  end.

Lemma to_rec_ops ops : map to_op (map rec_op ops) = ops.
Proof. rewrite map_map. rewrite <-(map_id ops) at 2. apply map_ext. by intros []. Qed.

Lemma apply_logs_app xs ys doc : apply_logs (xs ++ ys) doc = apply_logs ys (apply_logs xs doc).
Proof. apply fold_left_app. Qed.

Lemma log_edits_app xs ys : log_edits (xs ++ ys) = log_edits xs + log_edits ys.
Proof. induction xs as [|x xs IH]; [done|]. cbn [app log_edits]. rewrite IH. lia. Qed.

Lemma logs_ok_app doc revision xs ys :
  logs_ok doc revision (xs ++ ys) <-> logs_ok doc revision xs /\ logs_ok (apply_logs xs doc) (revision + log_edits xs) ys.
Proof.
  revert doc revision. induction xs as [|x xs IH]; intros doc revision.
  { cbn. rewrite Z.add_0_r. naive_solver. }
  cbn [app logs_ok apply_logs fold_left log_edits]. rewrite IH, <-Z.add_assoc. unfold apply_logs. tauto.
Qed.

Lemma logs_ok_logged doc revision xs : logs_ok doc revision xs -> Forall logged_ok xs.
Proof.
  revert doc revision. induction xs as [|x xs IH]; intros doc revision H; [constructor|]. destruct H as (_ & _ & Hx & _ & H).
  constructor; [done|by eapply IH].
Qed.

Lemma logs_ok_valid doc revision xs : logs_ok doc revision xs -> utf8_Valid doc = true -> utf8_Valid (apply_logs xs doc) = true.
Proof.
  revert doc revision. induction xs as [|x xs IH]; intros doc revision H Hv; [done|]. destruct H as (_ & _ & _ & Hx & H).
  cbn. eapply IH; [exact H|]. by apply ops_ok_valid.
Qed.

(** The journal of a session that started without one from [start] at [revision]
    holds the whole way to its present text. *)
Definition session_logged (start : list byte) (revision : Z) (s : Session) (doc : list byte) : Prop :=
  faultless s /\
  match s_journal s with
  | None => doc = start /\ s_revision s = revision
  | Some _ => exists xs, session_data s = encodeFileHeader (s_fingerprint s) ++ encodeAll xs /\ logs_ok start revision xs /\
      apply_logs xs start = doc /\ s_revision s = revision + log_edits xs
  end.

Lemma logged_kept start revision s s' doc :
  session_logged start revision s doc -> log_kept s s' -> s_revision s' = s_revision s -> s_fingerprint s' = s_fingerprint s ->
  session_logged start revision s' doc.
Proof.
  intros [_ Hs] [Hf Hk] Er Efp. split; [done|]. rewrite Er, Efp. destruct Hk as [[-> E]|[[j' ->] Hd]]; [by rewrite E in Hs|].
  rewrite Hd. unfold prior. destruct (s_journal s) as [j|] eqn:Hj.
  - unfold session_data in Hs. by rewrite Hj in Hs.
  - destruct Hs as [-> Hr]. exists []. unfold encodeAll. cbn. rewrite app_nil_r, Z.add_0_r. done.
Qed.

Lemma logged_edited base sound takes origin start revision s s' doc v' ops :
  session_logged start revision s doc -> edited base sound takes origin s s' doc v' ops -> (sound : Prop) ->
  in_u64 (s_revision s) -> ops_ok doc ops -> session_logged start revision s' (v_now v').
Proof.
  intros [_ Hs] Hed Hsound Hrev Hops.
  destruct (ed_log _ _ _ _ _ _ _ _ _ Hed) as (Hj & Hf & Hd & Hbo & Hfp).
  pose proof (ed_revision _ _ _ _ _ _ _ _ _ Hed) as Hr. rewrite (ed_now _ _ _ _ _ _ _ _ _ Hed).
  split; [by apply Hf|]. destruct Hj as [j' ->]. rewrite Hfp, Hr.
  set (x := mkLogged (rev1 s) (rev1 s) (map rec_op ops)). fold (encodeLogged x) in Hd.
  assert (exists xs, prior s = encodeFileHeader (s_fingerprint s) ++ encodeAll xs /\ logs_ok start revision xs /\
    apply_logs xs start = doc /\ s_revision s = revision + log_edits xs) as (xs & Hp & Hlog & Happ & Hrv).
  { unfold prior, session_data in *. destruct (s_journal s) as [j|]; [exact Hs|]. destruct Hs as [<- ->].
    exists []. change (encodeAll []) with (@nil byte). by rewrite app_nil_r, Z.add_0_r. }
  assert (rev1 s = s_revision s + 1) as E1.
  { pose proof (bo_rev _ _ _ Hbo) as Hb1. unfold rev1 in *. destruct (decide (s_revision s = maxUint64)) as [E|]; [|apply u64_id; go_lia].
    rewrite E in Hb1. change (u64 (maxUint64 + 1)) with 0 in Hb1. lia. }
  exists (xs ++ [x]). split_and!.
  - rewrite Hd, Hp, encodeAll_app, app_assoc. unfold encodeAll at 3. cbn. by rewrite app_nil_r.
  - apply logs_ok_app. split; [done|]. rewrite Happ, <-Hrv. cbn [logs_ok x l_rev l_group l_ops].
    rewrite to_rec_ops. pose proof (bo_group _ _ _ Hbo). split_and!; try done. lia.
  - rewrite apply_logs_app, Happ. cbn. by rewrite to_rec_ops.
  - rewrite log_edits_app. cbn [log_edits x l_ops]. rewrite zlen_map. lia.
Qed.

Section Recovery.
Context (journal_reads : list byte -> ReaderAt) (reads_ok : forall data, ReaderOk (journal_reads data) data).
Context (base : list byte).

(** A run in which the journal's file operations succeed. *)
Inductive durable_run (s : Session) : Session -> Prop :=
| durable_nil : durable_run s s
| durable_snoc s1 c takes setup ctx k s2 k2 r :
    durable_run s s1 -> setup_fresh setup -> fits s1 -> journal_clean setup s1 ->
    run_command journal_reads c takes setup ctx s1 k = (s2, k2, r) -> durable_run s s2.

Lemma logged_sound start revision s doc v setup :
  session_ok base s v -> session_logged start revision s doc -> journal_clean setup s -> journal_sound setup s.
Proof using.
  intros Hok [_ Hs] Hc. split; [done|]. intros Hj. destruct (s_journal s) as [j|]; [|done]. destruct Hs as (xs & -> & _).
  rewrite zlen_app, zlen_encodeFileHeader by apply (so_base _ _ _ Hok). pose proof (zlen_nonneg (encodeAll xs)). unfold fileHeaderSize. lia.
Qed.

(** What any operation of a session does, as far as its journal goes. *)
Lemma command_outcome c takes setup ctx s k s' k' r v :
  run_command journal_reads c takes setup ctx s k = (s', k', r) -> session_ok base s v -> setup_fresh setup -> fits s ->
  exists v', session_ok base s' v' /\
    ((exists origin ops, ops_ok (v_now v) ops /\ edited base (journal_sound setup s) takes origin s s' (v_now v) v' ops) \/
     (v_now v' = v_now v /\ same_published s s' /\ (journal_sound setup s -> log_kept s s'))).
Proof using reads_ok.
  intros H Hok Hnew Hfit.
  assert (forall origin nothing source target, travel_promise base takes setup ctx origin nothing source s s' v target r ->
    exists v', session_ok base s' v' /\
    ((exists origin ops, ops_ok (v_now v) ops /\ edited base (journal_sound setup s) takes origin s s' (v_now v) v' ops) \/
     (v_now v' = v_now v /\ same_published s s' /\ (journal_sound setup s -> log_kept s s')))) as Htravel.
  { intros origin nothing source target Hp. unfold travel_promise in Hp. destruct r as [res|e].
    - destruct Hp as (_ & v' & ops & _ & Hops & Hed & _). exists v'. split; [apply Hed|]. left. by exists origin, ops.
    - destruct Hp as (? & ? & ? & _). exists v. split; [done|]. by right. }
  destruct c as [expected ops| |]; cbn [run_command] in H.
  - pose proof (ApplyBatch_spec _ reads_ok base _ _ _ _ _ _ _ _ _ _ _ H Hok Hnew Hfit) as Hs. destruct r as [res|e].
    + destruct Hs as (_ & _ & Hnil & Hcons). destruct ops as [|op ops].
      * destruct (Hnil eq_refl) as [-> _]. exists v. split; [done|]. right. split; [done|]. split; [apply same_published_refl|].
        intros [Hs _]. by apply (log_kept_refl setup).
      * destruct (Hcons ltac:(done)) as (Hops & v' & Hed & _). exists v'. split; [apply Hed|]. left. by eexists _, _.
    + destruct Hs as [(v' & Hok' & Hn & _ & ? & ?) _]. exists v'. split; [done|]. by right.
  - eapply Htravel. by apply (UndoContext_spec _ reads_ok base _ _ _ _ _ _ _ _ _ H).
  - eapply Htravel. by apply (RedoContext_spec _ reads_ok base _ _ _ _ _ _ _ _ _ H).
Qed.

Lemma command_logged c takes setup ctx start revision s k s' k' r v :
  run_command journal_reads c takes setup ctx s k = (s', k', r) -> session_ok base s v -> setup_fresh setup -> fits s ->
  journal_clean setup s -> session_logged start revision s (v_now v) ->
  exists v', session_ok base s' v' /\ session_logged start revision s' (v_now v').
Proof using reads_ok.
  intros H Hok Hnew Hfit Hclean Hlog. pose proof (logged_sound _ _ _ _ _ _ Hok Hlog Hclean) as Hsound.
  pose proof (sb_revision _ _ _ (so_base _ _ _ Hok)) as Hrev.
  destruct (command_outcome _ _ _ _ _ _ _ _ _ _ H Hok Hnew Hfit) as (v' & Hok' & [(origin & ops & Hops & Hed)|(Hn & Hsame & Hk)]);
    exists v'; (split; [done|]).
  - by eapply logged_edited.
  - destruct Hsame as (_ & Er & _ & _ & _ & _ & _ & _ & _ & _ & Ef & _). rewrite Hn. by apply (logged_kept _ _ s); auto.
Qed.

Lemma durable_logged s v s' :
  session_ok base s v -> s_journal s = None -> durable_run s s' ->
  exists v', session_ok base s' v' /\ session_logged (v_now v) (s_revision s) s' (v_now v').
Proof using reads_ok.
  intros Hok Hj Hrun. induction Hrun as [|s1 c takes setup ctx k s2 k2 r _ (v1 & Hok1 & Hl1) Hnew Hfit Hc Hrun].
  - exists v. split; [done|]. split; [by intros ? ? E; rewrite Hj in E|by rewrite Hj].
  - by eapply command_logged.
Qed.

(** ** The pending operations of a session

    [s_pending] indexes the journal: one entry per edit that is not in the base
    yet, with the place of its text. *)

Definition pending_batch (data : list byte) (x : logged) (ps : list pendingOperation) : Prop :=
  exists offsets, Forall2 (payload_at data) offsets (map ro_Inserted (l_ops x)) /\
    ps = pending_entries (l_rev x) (l_group x) (l_ops x) offsets.

Inductive pending_logs (data : list byte) : list logged -> list pendingOperation -> Prop :=
| pending_logs_nil : pending_logs data [] []
| pending_logs_cons x xs ps qs : pending_batch data x ps -> pending_logs data xs qs -> pending_logs data (x :: xs) (ps ++ qs).

Lemma pending_logs_one data x ps : pending_batch data x ps -> pending_logs data [x] ps.
Proof. intros H. rewrite <-(app_nil_r ps). by constructor; [|constructor]. Qed.

Lemma pending_logs_app data xs ys ps qs : pending_logs data xs ps -> pending_logs data ys qs -> pending_logs data (xs ++ ys) (ps ++ qs).
Proof. intros H Hq. induction H; [done|]. cbn. rewrite <-app_assoc. by constructor. Qed.

Lemma pending_logs_grow data tail xs ps : pending_logs data xs ps -> pending_logs (data ++ tail) xs ps.
Proof.
  induction 1 as [|x xs ps qs (offsets & Ho & ->) _ IH]; constructor; [|done]. exists offsets. split; [|done].
  eapply Forall2_impl; [exact Ho|]. intros. by apply payload_at_app.
Qed.

(** ** Replaying a journal *)

(** A session during the replay of a journal that holds [data]. *)
Record recovering (data doc : list byte) (s : Session) : Prop := mkRecovering {
  rg_text : holds (texts base data) (s_tree s) doc;
  rg_journal : exists f path, s_journal s = Some (mkJournal (Some f) path) /\ f_bytes f = data;
  rg_store : store_ok (s_undoStore s);
  rg_epoch : in_u64 (s_undoEpoch s) }.

(** No file operation will fail. *)
Definition recovery_clean (s : Session) : Prop := faultless s /\ store_clean (s_undoStore s).

(** The fields a replay leaves alone. *)
Definition untouched (s s' : Session) : Prop :=
  s_config s' = s_config s /\ s_fingerprint s' = s_fingerprint s /\ s_changeHistory s' = s_changeHistory s /\
  s_events s' = s_events s /\ s_fault s' = s_fault s /\ s_closed s' = s_closed s.

Lemma untouched_trans s1 s2 s3 : untouched s1 s2 -> untouched s2 s3 -> untouched s1 s3.
Proof. unfold untouched. intuition congruence. Qed.

Lemma holds_use_journal data doc s f path :
  holds (texts base data) (s_tree s) doc -> f_bytes f = data ->
  holds (texts base data) (s_tree (use_journal journal_reads (mkJournal (Some f) path) s)) doc.
Proof using reads_ok.
  intros Ht <-. unfold use_journal. cbn [s_tree set_tree]. unfold alias. cbn [journal_data j_file].
  pose proof (holds_grow journal_reads reads_ok base (f_bytes f) [] (s_tree s) doc Ht) as H. by rewrite app_nil_r in H.
Qed.

Lemma read_payload_spec op ins data doc s k s' k' r :
  read_payload journal_reads op s k = (s', k', r) -> recovering data doc s -> payload_at data (op_PayloadOffset op) ins ->
  op_InsertLength op = zlen ins ->
  recovering data doc s' /\ untouched s s' /\ s_revision s' = s_revision s /\ s_committedRevision s' = s_committedRevision s /\
  s_pending s' = s_pending s /\
  (0 < zlen ins -> exists rd, t_sources (s_tree s') !! SourceJournal = Some rd /\ ReaderOk rd data) /\
  (forall v, r = Ok v -> v = ins) /\ (recovery_clean s -> recovery_clean s' /\ r = Ok ins).
Proof using reads_ok.
  intros H [Ht (f & path & Hj & Hf) Hus Hep] (H0 & H1 & H2) Hlen. unfold read_payload in H. pose proof (zlen_nonneg ins) as Hn.
  rewrite Hlen in H. destruct (Z.ltb_spec 0 (zlen ins)) as [Hpos|Hz].
  2:{ injection H as <- <- <-. assert (ins = []) as -> by (apply zlen_zero; lia).
      split; [split; eauto|]. split; [by split_and!|]. split_and!; try done; [by intros v [= <-]]. }
  rewrite Hj in H. unfold ReadAt in H. cbn [j_file] in H. destruct (file_ReadAt f (zlen ins) (op_PayloadOffset op)) as [f' [got e]] eqn:Hr.
  destruct (file_ReadAt_spec _ _ _ _ _ _ Hr) as (Hb & Hgot & Hnone & Hcl); [done|done|by rewrite Hf|].
  rewrite Hf, H2 in *. injection H as <- <- <-. change (Journal.with_file (mkJournal (Some f) path) f') with (mkJournal (Some f') path).
  assert (got = ins \/ zlen got <> zlen ins) as Hcase.
  { destruct (decide (zlen got = zlen ins)) as [E|]; [left|by right]. rewrite Hgot, E. by apply ztake_all. }
  split; [split; [by apply holds_use_journal|eauto|done|done]|]. split; [by split_and!|]. split; [done|]. split; [done|]. split; [done|]. split_and!.
  - intros _. eexists. split; [apply lookup_insert_eq|]. cbn [journal_data j_file]. rewrite Hb. apply reads_ok.
  - intros v Hv. destruct Hcase as [->|Hne].
    + destruct e as [e|]; [destruct (errors_Is e io_EOF && _)|destruct (zlen ins =? zlen ins)]; congruence.
    + apply Z.eqb_neq in Hne. rewrite Hne in Hv. destruct e; rewrite ?andb_false_r in Hv; done.
  - intros [Hff Hc]. destruct (Hcl (Hff _ _ Hj eq_refl)) as [-> Hf']. specialize (Hnone eq_refl) as ->. rewrite Z.eqb_refl.
    split; [|done]. split; [by intros j g [= <-] [= <-]|done].
Qed.

Lemma historyText_recovering value data doc s k s' k' r :
  historyText value s k = (s', k', r) -> recovering data doc s -> zlen value <= maxInt64 ->
  recovering data doc s' /\ untouched s s' /\ s_revision s' = s_revision s /\ s_committedRevision s' = s_committedRevision s /\
  s_pending s' = s_pending s /\
  t_sources (s_tree s') = t_sources (s_tree s) /\ (recovery_clean s -> recovery_clean s' /\ exists ref, r = Ok ref).
Proof using.
  intros H [Ht Hj Hus Hep] Hl. destruct (historyText_spec _ _ _ _ _ _ H Hus Hep Hl) as (n & Hn & Hrec & _ & Hcl).
  pose proof (rc_frame _ _ _ Hrec) as F. pose proof (rc_epoch _ _ _ Hrec) as E. pose proof (rc_store _ _ _ Hrec) as Hs.
  assert (s_tree s' = s_tree s /\ s_journal s' = s_journal s) as [Et Ej] by (rewrite F; done).
  split; [split; rewrite ?Et, ?Ej, ?E; try done; apply u64_range|]. split; [by rewrite F|]. split; [by rewrite F|]. split; [by rewrite F|].
  split; [by rewrite F|]. split; [by rewrite Et|]. intros [Hf Hc]. destruct (Hcl Hc). split; [|done]. split; [|done]. intros j f. rewrite Ej. apply Hf.
Qed.

Lemma journal_piece_valid op ins :
  op_InsertLength op = zlen ins -> 0 <= op_PayloadOffset op -> op_PayloadOffset op + zlen ins <= maxInt64 ->
  journal_piece op ins = insert_piece SourceJournal (op_PayloadOffset op) ins.
Proof. intros E _ _. unfold journal_piece, insert_piece. by rewrite E. Qed.

(** One operation of a batch. *)
Lemma replay_operation_spec revision group op ins entry data doc s k s' k' r :
  replay_operation journal_reads revision group op entry s k = (s', k', r) -> recovering data doc s ->
  payload_at data (op_PayloadOffset op) ins -> op_InsertLength op = zlen ins -> zlen data <= maxInt64 ->
  ops_ok doc [mkReplace (op_Start op) (op_DeleteLength op) ins] ->
  match r with
  | Ok _ => recovering data (apply_op (mkReplace (op_Start op) (op_DeleteLength op) ins) doc) s' /\ untouched s s' /\
      s_revision s' = revision /\ s_committedRevision s' = s_committedRevision s /\
      s_pending s' = s_pending s ++
        [pending_entry revision group (op_PayloadOffset op) (Journal.mkReplaceOperation (op_Start op) (op_DeleteLength op) ins)] /\
      (recovery_clean s -> recovery_clean s')
  | Err _ => ~ recovery_clean s
  end.
Proof using reads_ok.
  intros H Hg Hp Hlen Hmax (Hv & H0 & H1 & H2 & Hb1 & Hb2 & Hl & _). cbn [Start DeleteLength Insert] in *.
  pose proof (holds_length _ _ _ (rg_text _ _ _ Hg)) as [_ Hdoc]. apply boundary_spec in Hb1, Hb2. destruct Hp as (Hp0 & Hp1 & Hp2).
  unfold replay_operation in H. unfold bind at 1, get in H.
  rewrite (readTreeRange_holds _ _ _ (rg_text _ _ _ Hg)), (validate_holds _ _ _ (rg_text _ _ _ Hg)), Hb1, Hb2 in H by done.
  cbn [andb] in H. unfold bind at 1, lift in H. unfold bind at 1 in H.
  split_bind H;
    [destruct (read_payload_spec _ ins data doc _ _ _ _ _ He Hg) as (_ & _ & _ & _ & _ & _ & _ & Hcl); [done|done|]
    |destruct (read_payload_spec _ ins data doc _ _ _ _ _ Hc Hg) as (Hg1 & Hu1 & Hr1 & Hc1 & Hp1' & Hsrc & Hval & Hcl1); [done|done|]].
  { intros Hclean. by destruct (Hcl Hclean). }
  rewrite (Hval _ eq_refl), Hv in H. cbn [negb] in H. clear Hval.
  assert (zlen ins <= maxInt64) as Hi by lia. pose proof (zlen_nonneg ins) as Hi0.
  split_bind H;
    [destruct (historyText_recovering _ _ _ _ _ _ _ _ He Hg1 Hi) as (_ & _ & _ & _ & _ & _ & Hcl)
    |destruct (historyText_recovering _ _ _ _ _ _ _ _ Hc0 Hg1 Hi) as (Hg2 & Hu2 & Hr2 & Hc2 & Hp2' & Hs2 & Hcl2)].
  { intros Hclean. destruct (Hcl1 Hclean) as [Hx _]. by destruct (Hcl Hx) as [_ [? ?]]. }
  assert (zlen (slice (op_Start op) (op_DeleteLength op) doc) <= maxInt64) as Hd by (rewrite zlen_slice by lia; lia).
  split_bind H;
    [destruct (historyText_recovering _ _ _ _ _ _ _ _ He Hg2 Hd) as (_ & _ & _ & _ & _ & _ & Hcl)
    |destruct (historyText_recovering _ _ _ _ _ _ _ _ Hc3 Hg2 Hd) as (Hg3 & Hu3 & Hr3 & Hc3' & Hp3' & Hs3 & Hcl3)].
  { intros Hclean. destruct (Hcl1 Hclean) as [Hx _]. destruct (Hcl2 Hx) as [Hy _]. by destruct (Hcl Hy) as [_ [? ?]]. }
  destruct Hg3 as [Ht3 Hj3 Hus3 Hep3]. unfold bind, get, modify, lift in H. rewrite (journal_piece_valid op ins Hlen Hp0 ltac:(lia)) in H.
  destruct (insert_piece_valid SourceJournal (op_PayloadOffset op) ins Hp0 ltac:(lia)) as (Hty & Hpv & Hpl & Hso).
  pose proof (holds_replace _ _ doc (op_Start op) (op_DeleteLength op) _ Ht3 Hty H0 H1 H2 Hpv ltac:(lia)) as Hrep.
  match type of Hrep with (?A -> _) => assert A as Hserve end.
  { intros Hpos. destruct (Hso ltac:(lia)) as [E1 E2]. destruct (Hsrc ltac:(lia)) as (rd & Hrd & Hok). rewrite <-Hs2, <-Hs3 in Hrd.
    split; [unfold in_range; rewrite E1, E2, Hpl; change (texts base data SourceJournal) with data; lia|]. rewrite E1. by exists rd. }
  specialize (Hrep Hserve). assert (piece_bytes (texts base data) (insert_piece SourceJournal (op_PayloadOffset op) ins) = ins) as Hpb.
  { unfold piece_bytes. rewrite Hpl. destruct (decide (0 < zlen ins)) as [Hpos|Hz]; [by destruct (Hso Hpos) as [-> ->]|].
    rewrite (zlen_zero ins) by lia. by apply slice_nil_len. }
  rewrite Hpb in Hrep. destruct (ReplacePiece _ _ _ _) as [t1 [x|e]]; [|destruct Hrep as (_ & _ & Hover); rewrite Hpl in Hover; lia].
  destruct Hrep as [Hh _]. injection H as <- <- <-. split; [by split|].
  split; [exact (untouched_trans _ _ _ Hu1 (untouched_trans _ _ _ Hu2 Hu3))|]. split; [done|].
  split; [session_simpl; congruence|]. split; [unfold pending_entry; session_simpl; cbn [ro_Start ro_DeleteLength ro_Inserted]; congruence|].
  intros Hclean. apply Hcl3, Hcl2, Hcl1, Hclean.
Qed.

Definition located_in (data : list byte) (o : Operation) (x : Journal.ReplaceOperation) : Prop :=
  op_Start o = ro_Start x /\ op_DeleteLength o = ro_DeleteLength x /\ op_InsertLength o = zlen (ro_Inserted x) /\
  payload_at data (op_PayloadOffset o) (ro_Inserted x).

Lemma replay_operations_spec data group ops : forall xs revision entry doc s k s' k' r,
  replay_operations journal_reads revision group ops entry s k = (s', k', r) -> recovering data doc s ->
  Forall2 (located_in data) ops xs -> zlen data <= maxInt64 -> ops_ok doc (map to_op xs) ->
  1 <= revision -> revision + zlen xs - 1 <= maxUint64 ->
  match r with
  | Ok _ => recovering data (apply_ops (map to_op xs) doc) s' /\ untouched s s' /\
      s_revision s' = (if zlen xs =? 0 then s_revision s else revision + zlen xs - 1) /\
      s_committedRevision s' = s_committedRevision s /\
      s_pending s' = s_pending s ++ pending_entries revision group xs (map op_PayloadOffset ops) /\
      (recovery_clean s -> recovery_clean s')
  | Err _ => ~ recovery_clean s
  end.
Proof using reads_ok.
  induction ops as [|op ops IH]; intros xs revision entry doc s k s' k' r H Hg Hx Hmax Hok Hr0 Hr1; inversion Hx as [|? x ? xs' (E1 & E2 & E3 & E4) Hx']; subst.
  { injection H as <- <- <-. split_and!; try done. cbn. by rewrite app_nil_r. }
  cbn [replay_operations] in H. cbn [map ops_ok] in Hok. destruct Hok as (Hv & H0 & H1 & H2 & Hb1 & Hb2 & Hl & Hok).
  assert (ops_ok doc [mkReplace (op_Start op) (op_DeleteLength op) (ro_Inserted x)]) as Hok1 by (rewrite E1, E2; by split_and!).
  rewrite zlen_cons in *. pose proof (zlen_nonneg xs') as Hz.
  split_bind H;
    [exact (replay_operation_spec _ _ _ _ _ _ _ _ _ _ _ _ He Hg E4 E3 Hmax Hok1)
    |destruct (replay_operation_spec _ _ _ _ _ _ _ _ _ _ _ _ Hc Hg E4 E3 Hmax Hok1) as (Hg1 & Hu1 & Hr & Hcr & Hpe & Hcl)].
  rewrite E1, E2 in Hg1. fold (to_op x) in Hg1. rewrite E1, E2 in Hpe.
  replace (Journal.mkReplaceOperation (ro_Start x) (ro_DeleteLength x) (ro_Inserted x)) with x in Hpe by (by destruct x).
  destruct (decide (xs' = [])) as [->|Hne].
  { apply Forall2_nil_inv_r in Hx' as ->. injection H as <- <- <-. split; [exact Hg1|]. split; [done|]. split; [rewrite Hr, zlen_nil, (proj2 (Z.eqb_neq _ _)) by lia; lia|].
    split; [done|]. by split. }
  assert (0 < zlen xs') as Hpos by (destruct (decide (zlen xs' = 0)) as [E|]; [by apply zlen_zero in E|lia]).
  rewrite u64_id in H by go_lia. specialize (IH xs' (revision + 1) _ _ _ _ _ _ _ H Hg1 Hx' Hmax Hok ltac:(lia) ltac:(lia)).
  destruct r as [e|e]; [|intros Hc'; apply IH, Hcl, Hc'].
  destruct IH as (Hg2 & Hu2 & Hr2 & Hc2 & Hpe2 & Hcl2). split; [exact Hg2|]. split; [exact (untouched_trans _ _ _ Hu1 Hu2)|].
  rewrite (proj2 (Z.eqb_neq (zlen xs') 0)) in Hr2 by lia. rewrite (proj2 (Z.eqb_neq (1 + zlen xs') 0)) by lia.
  split; [lia|]. split; [congruence|]. split; [|auto].
  rewrite Hpe2, Hpe, <-app_assoc. cbn [map pending_entries app hd tl]. by rewrite u64_id by go_lia.
Qed.

Lemma located_offsets_at data ops xs : Forall2 (located_in data) ops xs -> Forall2 (payload_at data) (map op_PayloadOffset ops) (map ro_Inserted xs).
Proof. induction 1 as [|o x ops xs (_ & _ & _ & ?) _ IH]; by constructor. Qed.

(** The batches a journal replay reports, with the log they come from. *)
Definition batch_in (data : list byte) (b : Batch) (x : logged) : Prop :=
  b_FirstRevision b = l_rev x /\ b_Group b = l_group x /\ Forall2 (located_in data) (b_Operations b) (l_ops x).

Lemma replay_batch_spec data first b x doc revision s k s' k' r :
  replay_batch journal_reads first b s k = (s', k', r) -> recovering data doc s -> batch_in data b x -> zlen data <= maxInt64 ->
  logs_ok doc revision [x] -> 0 <= revision -> (first = false -> s_revision s = revision) ->
  match r with
  | Ok _ => recovering data (apply_logs [x] doc) s' /\ untouched s s' /\ s_revision s' = revision + zlen (l_ops x) /\
      s_committedRevision s' = (if first then revision else s_committedRevision s) /\
      (exists ps, s_pending s' = s_pending s ++ ps /\ pending_logs data [x] ps) /\ (recovery_clean s -> recovery_clean s')
  | Err _ => ~ recovery_clean s
  end.
Proof using reads_ok.
  intros H Hg (E1 & E2 & Hops) Hmax (L1 & L2 & L3 & L4 & _) H0 Hfirst. unfold replay_batch in H.
  pose proof (bo_rev _ _ _ L3) as Hrev. pose proof (bo_count _ _ _ L3) as Hcount.
  set (s0 := if first then set_revision revision (set_committedRevision revision s) else s).
  assert (recovering data doc s0 /\ untouched s s0 /\ s_revision s0 = revision /\
    s_committedRevision s0 = (if first then revision else s_committedRevision s) /\ s_pending s0 = s_pending s /\
    (recovery_clean s -> recovery_clean s0)) as (Hg0 & Hu0 & Hr0 & Hc0 & Hpe0 & Hcl0).
  { unfold s0. destruct first; [|split_and!; auto; by split_and!].
    split; [by destruct Hg; split|]. split; [by split_and!|]. by split_and!. }
  assert (exists k0, (do _ <- get; ret tt) s0 k0 = (s0, k0, Ok tt) /\
    (do s <- get;
     if negb (b_FirstRevision b =? s_revision s ⊕ 1) || (b_Group b =? 0) || (zlen (b_Operations b) =? 0) then fail nonMonotonicBatch
     else (do entry <- replay_operations journal_reads (b_FirstRevision b) (b_Group b) (b_Operations b) emptyEntry;
           modify (fun s => set_undo (s_undo s ++ [entry]) s))) s0 k0 = (s', k', r)) as (k0 & _ & H').
  { exists k. split; [done|]. unfold s0. destruct first; [|exact H]. unfold bind at 1 in H. rewrite E1, L1 in *.
    rewrite (proj2 (Z.eqb_neq (revision + 1) 0)) in H by lia. unfold modify at 1 in H.
    replace (revision + 1 ⊖ 1) with revision in H by (rewrite u64_id; go_lia). exact H. }
  clear H. unfold bind at 1, get in H'. rewrite Hr0, E1, L1, E2 in H'.
  replace (revision ⊕ 1) with (revision + 1) in H' by (rewrite u64_id; go_lia). rewrite Z.eqb_refl in H'.
  assert (zlen (b_Operations b) = zlen (l_ops x)) as Hz by (unfold zlen; by rewrite (Forall2_length _ _ _ Hops)).
  rewrite (proj2 (Z.eqb_neq (l_group x) 0)), Hz, (proj2 (Z.eqb_neq (zlen (l_ops x)) 0)) in H' by (done || lia). cbn [negb orb] in H'.
  split_bind H';
    [pose proof (replay_operations_spec _ _ _ _ _ _ _ _ _ _ _ _ He Hg0 Hops Hmax L4 ltac:(lia) ltac:(lia)) as Hres; auto
    |destruct (replay_operations_spec _ _ _ _ _ _ _ _ _ _ _ _ Hc Hg0 Hops Hmax L4 ltac:(lia) ltac:(lia)) as (Hg1 & Hu1 & Hr1 & Hc1 & Hpe1 & Hcl1)].
  injection H' as <- <- <-. rewrite (proj2 (Z.eqb_neq _ _)) in Hr1 by lia.
  split; [by destruct Hg1; split|]. split; [exact (untouched_trans _ _ _ Hu0 Hu1)|]. split; [session_simpl; lia|].
  split; [session_simpl; congruence|]. split; [|intros Hclean; apply Hcl1, Hcl0, Hclean].
  eexists. split; [session_simpl; rewrite Hpe1, Hpe0; reflexivity|]. apply pending_logs_one.
  exists (map op_PayloadOffset (b_Operations b)). split; [by apply located_offsets_at|by rewrite L1].
Qed.

Lemma replay_batches_spec data bs : forall xs first doc revision s k s' k' r,
  replay_batches journal_reads first bs s k = (s', k', r) -> recovering data doc s -> Forall2 (batch_in data) bs xs ->
  zlen data <= maxInt64 -> logs_ok doc revision xs -> 0 <= revision -> (first = false -> s_revision s = revision) ->
  match r with
  | Ok _ => recovering data (apply_logs xs doc) s' /\ untouched s s' /\ (recovery_clean s -> recovery_clean s') /\
      (exists ps, s_pending s' = s_pending s ++ ps /\ pending_logs data xs ps) /\
      match xs with
      | [] => s_revision s' = s_revision s /\ s_committedRevision s' = s_committedRevision s
      | _ => s_revision s' = revision + log_edits xs /\
             s_committedRevision s' = (if first then revision else s_committedRevision s)
      end
  | Err _ => ~ recovery_clean s
  end.
Proof using reads_ok.
  induction bs as [|b bs IH]; intros xs first doc revision s k s' k' r H Hg Hx Hmax Hlog H0 Hfirst;
    inversion Hx as [|? x ? xs' Hb Hx']; subst; cbn [replay_batches] in H.
  { injection H as <- <- <-. split_and!; try done. exists []. split; [by rewrite app_nil_r|constructor]. }
  change (x :: xs') with ([x] ++ xs') in Hlog. apply logs_ok_app in Hlog as [Hlog1 Hlog].
  cbn [log_edits] in Hlog. rewrite Z.add_0_r in Hlog. pose proof (zlen_nonneg (l_ops x)) as Hz.
  split_bind H;
    [exact (replay_batch_spec _ _ _ _ _ _ _ _ _ _ _ He Hg Hb Hmax Hlog1 H0 Hfirst)
    |destruct (replay_batch_spec _ _ _ _ _ _ _ _ _ _ _ Hc Hg Hb Hmax Hlog1 H0 Hfirst) as (Hg1 & Hu1 & Hr1 & Hc1 & (ps1 & Hps1 & Hpl1) & Hcl1)].
  specialize (IH xs' false _ _ _ _ _ _ _ H Hg1 Hx' Hmax Hlog ltac:(lia) (fun _ => Hr1)).
  destruct r as [u|e]; [|intros Hc'; apply IH, Hcl1, Hc'].
  destruct IH as (Hg2 & Hu2 & Hcl2 & (ps2 & Hps2 & Hpl2) & Hm). change (x :: xs') with ([x] ++ xs'). rewrite apply_logs_app.
  split; [exact Hg2|]. split; [exact (untouched_trans _ _ _ Hu1 Hu2)|]. split; [auto|].
  split; [exists (ps1 ++ ps2); split; [by rewrite Hps2, Hps1, app_assoc|by apply pending_logs_app]|].
  cbn [app log_edits]. destruct xs' as [|y ys]; destruct Hm as [-> ->]; rewrite Hc1; split; cbn [log_edits]; (lia || done).
Qed.

(** [Session.replay]: the text of the log, its last revision, and the revision
    before its first batch as the committed one. *)
Lemma replay_spec data rr xs doc revision s k s' k' r :
  replay journal_reads rr s k = (s', k', r) -> recovering data doc s -> Forall2 (batch_in data) (rr_Batches rr) xs ->
  zlen data <= maxInt64 -> logs_ok doc revision xs -> 0 <= revision ->
  match r with
  | Ok _ => recovering data (apply_logs xs doc) s' /\ untouched s s' /\
      (exists ps, s_pending s' = s_pending s ++ ps /\ pending_logs data xs ps) /\
      match xs with
      | [] => s' = s
      | _ => s_revision s' = revision + log_edits xs /\ s_committedRevision s' = revision /\ s_dirty s' = true /\ s_recovered s' = true
      end
  | Err _ => ~ recovery_clean s
  end.
Proof using reads_ok.
  intros H Hg Hx Hmax Hlog H0. unfold replay in H.
  split_bind H;
    [exact (replay_batches_spec _ _ _ _ _ _ _ _ _ _ _ He Hg Hx Hmax Hlog H0 ltac:(done))
    |destruct (replay_batches_spec _ _ _ _ _ _ _ _ _ _ _ Hc Hg Hx Hmax Hlog H0 ltac:(done)) as (Hg1 & Hu1 & _ & Hpe & Hm)].
  pose proof (Forall2_length _ _ _ Hx) as Hlen. destruct xs as [|x xs].
  - apply Forall2_nil_inv_r in Hx. rewrite Hx in *. injection Hc as <- <- <-. injection H as <- <- <-. by split_and!.
  - rewrite (proj2 (Z.ltb_lt 0 _)) in H by (unfold zlen; rewrite Hlen; cbn; lia). injection H as <- <- <-.
    split; [by destruct Hg1; split|]. split; [done|]. split; [done|]. by destruct Hm.
Qed.
End Recovery.

(** The batches of a journal file, located. *)
Lemma located_fields (ops : list Journal.ReplaceOperation) cursor :
  Forall2 (fun o x => op_Start o = ro_Start x /\ op_DeleteLength o = ro_DeleteLength x /\ op_InsertLength o = zlen (ro_Inserted x))
    (located ops cursor) ops.
Proof. revert cursor. induction ops as [|o ops IH]; intros cursor; [constructor|]. cbn. by constructor. Qed.

Lemma located_payloads data (ops : list Journal.ReplaceOperation) os :
  Forall2 (fun o x => op_Start o = ro_Start x /\ op_DeleteLength o = ro_DeleteLength x /\ op_InsertLength o = zlen (ro_Inserted x)) os ops ->
  Forall2 (payload_at data) (map op_PayloadOffset os) (map ro_Inserted ops) -> Forall2 (located_in data) os ops.
Proof.
  induction 1 as [|o x os ops (?&?&?) _ IH]; intros Hp; [constructor|]. cbn in Hp. inversion Hp; subst. constructor; [by split_and!|auto].
Qed.

Lemma locatedAll_batches pre xs rest :
  Forall2 (batch_in (pre ++ encodeAll xs ++ rest)) (locatedAll (zlen pre) xs) xs.
Proof.
  revert pre. induction xs as [|x xs IH]; intros pre; [constructor|]. cbn [locatedAll].
  assert (encodeAll (x :: xs) = encodeLogged x ++ encodeAll xs) as -> by done.
  replace (pre ++ (encodeLogged x ++ encodeAll xs) ++ rest) with ((pre ++ encodeLogged x) ++ encodeAll xs ++ rest) by (by rewrite <-!app_assoc).
  constructor; [|rewrite <-zlen_app; apply IH]. split; [done|]. split; [done|]. apply located_payloads; [apply located_fields|].
  eapply Forall2_impl; [apply (appended_payloads pre x)|]. intros off t. apply payload_at_app.
Qed.

(** ** Properties *)

(** A session being opened over the text [doc] of its base, before the replay. *)
Record opening (base doc : list byte) (s : Session) : Prop := mkOpening {
  op_text : holds (texts base []) (s_tree s) doc;
  op_store : store_ok (s_undoStore s) /\ store_clean (s_undoStore s);
  op_epoch : in_u64 (s_undoEpoch s) }.

(** A journal that holds the log from [doc] on, opened over a base with that text. *)
Record reopened (journal_reads : list byte -> ReaderAt) (base doc : list byte) (revision : Z) (xs : list logged) (f : file) (path : list byte)
  (s0 : Session) (k : nat) (s1 : Session) : Prop := mkReopened {
  ro_replay : exists j rr k1, Replay (mkJournal (Some f) path) = (j, (rr, None)) /\ rr_Truncated rr = false /\
    replay journal_reads rr (use_journal journal_reads j s0) k = (s1, k1, Ok tt) /\
    (xs = [] -> s1 = use_journal journal_reads j s0);
  ro_text : Tree_Len (s_tree s1) = zlen (apply_logs xs doc) /\
    forall off n, 0 <= off -> 0 <= n -> off + n <= zlen (apply_logs xs doc) ->
      readTreeRange (s_tree s1) off n = Ok (slice off n (apply_logs xs doc));
  ro_revision : xs <> [] -> s_revision s1 = revision + log_edits xs /\ s_committedRevision s1 = revision /\
    s_dirty s1 = true /\ s_recovered s1 = true }.

Lemma reopen_log journal_reads base fp doc revision xs f path s0 k :
  (forall data, ReaderOk (journal_reads data) data) -> fingerprint_ok fp -> f_bytes f = encodeFileHeader fp ++ encodeAll xs ->
  f_faults f = [] -> zlen (f_bytes f) <= maxInt64 -> logs_ok doc revision xs -> 0 <= revision -> opening base doc s0 ->
  exists s1, reopened journal_reads base doc revision xs f path s0 k s1.
Proof.
  intros Hreads Hfp Hdata Hff Hmax Hlogs H0 [Ht [Hus Hcl] Hep].
  assert (zlen (encodeFileHeader fp) = fileHeaderSize) as Hh by (by apply zlen_encodeFileHeader).
  assert (zdrop fileHeaderSize (f_bytes f) = encodeAll xs ++ []) as Hz by (rewrite app_nil_r, Hdata; by apply zdrop_app).
  pose proof (reading_exact f path xs [] Hff (logs_ok_logged _ _ _ Hlogs) no_batch_nil Hz) as Hread.
  pose proof (Replay_quiet f path Hff) as Hquiet. destruct (Replay (mkJournal (Some f) path)) as [j [rr e]] eqn:Hr.
  cbn [fst snd] in Hread, Hquiet. subst j. injection Hread as -> ->.
  set (rr := mkReplayResult _ _ _) in *.
  destruct (replay journal_reads rr (use_journal journal_reads (mkJournal (Some f) path) s0) k) as [[s1 k1] r] eqn:Hrep.
  assert (recovering base (f_bytes f) doc (use_journal journal_reads (mkJournal (Some f) path) s0)) as Hg.
  { split; [|by exists f, path|done|done]. unfold use_journal, alias. cbn [s_tree set_tree journal_data j_file].
    exact (holds_grow journal_reads Hreads base [] (f_bytes f) _ _ Ht). }
  assert (Forall2 (batch_in (f_bytes f)) (locatedAll fileHeaderSize xs) xs) as Hx.
  { rewrite Hdata, <-Hh. pose proof (locatedAll_batches (encodeFileHeader fp) xs []) as Hx. by rewrite app_nil_r in Hx. }
  pose proof (replay_spec _ Hreads base _ rr xs _ _ _ _ _ _ _ Hrep Hg Hx Hmax Hlogs H0) as Hres.
  assert (r = Ok tt) as ->.
  { destruct r as [[]|e]; [done|]. destruct Hres. split; [by intros j g [= <-] [= <-]|done]. }
  destruct Hres as (Hg1 & _ & _ & Hm). pose proof (rg_text _ _ _ _ Hg1) as Ht1. exists s1. split.
  - exists (mkJournal (Some f) path), rr, k1. split_and!; try done. by intros ->.
  - split; [by apply (holds_length _ _ _ Ht1)|]. intros. by eapply readTreeRange_holds.
  - intros Hne. by destruct xs.
Qed.

(** C2. Recovery gives back what was acknowledged.  Take a session without a
    journal and any run of batches, undos and redos on it, with any contexts,
    consumers, refusals and faults of the undo store, in which the file operations
    of the journal succeed.  Whenever it stops, reading the journal file again and
    replaying it over a session opened on the same base succeeds, reports no
    truncation, and yields exactly the text the first session shows, at its
    revision, dirty and recovered, with the revision the run started from as the
    committed one — or, when nothing was acknowledged, changes nothing. *)
Theorem recovery_restores journal_reads base s v s' j' f path s0 k :
  (forall data, ReaderOk (journal_reads data) data) -> session_ok base s v -> s_journal s = None ->
  durable_run journal_reads s s' -> s_journal s' = Some j' -> fits s' ->
  f_bytes f = session_data s' -> f_faults f = [] -> opening base (v_now v) s0 ->
  exists v', session_ok base s' v' /\
  let '(j, (rr, e)) := Replay (mkJournal (Some f) path) in
  let '(s1, _, r) := replay journal_reads rr (use_journal journal_reads j s0) k in
  e = None /\ rr_Truncated rr = false /\ r = Ok tt /\ Tree_Len (s_tree s1) = zlen (v_now v') /\
  (forall off n, 0 <= off -> 0 <= n -> off + n <= zlen (v_now v') -> readTreeRange (s_tree s1) off n = Ok (slice off n (v_now v'))) /\
  ((s_revision s1 = s_revision s' /\ s_committedRevision s1 = s_revision s /\ s_dirty s1 = true /\ s_recovered s1 = true) \/
   (v_now v' = v_now v /\ s_revision s' = s_revision s /\ s1 = use_journal journal_reads j s0)).
Proof.
  intros Hreads Hok Hj Hrun Hj' Hfit Hbytes Hff [Ht [Hus Hcl] Hep].
  destruct (durable_logged _ Hreads base s v s' Hok Hj Hrun) as (v' & Hok' & _ & Hlog). exists v'. split; [done|].
  rewrite Hj' in Hlog. destruct Hlog as (xs & Hdata & Hlogs & Happ & Hrev). pose proof (so_base _ _ _ Hok) as Hb.
  destruct (reopen_log journal_reads base (s_fingerprint s') (v_now v) (s_revision s) xs f path s0 k Hreads) as (s1 & Hro);
    [apply (so_base _ _ _ Hok')|by rewrite Hbytes|done|rewrite Hbytes; unfold fits, batchHeaderSize, maximumBatchPayload in Hfit; lia|done
    |apply (sb_revision _ _ _ Hb)|by split|].
  destruct Hro as [(j & rr & k1 & HR & Htr & Hrep & Hnil) [Hlen Hread] Hr]. rewrite HR, Hrep. rewrite Happ in Hlen, Hread.
  split_and!; try done. destruct xs as [|x xs]; [right|left].
  - cbn in Happ, Hrev. split_and!; [done|lia|by apply Hnil].
  - destruct (Hr ltac:(done)) as (? & ? & ? & ?). split_and!; try done. lia.
Qed.

Lemma recovery_restores_witness :
  exists s' text s1, durable_run bytes_NewReader ex_session s' /\ observes s' text /\ s_revision s' = 1 /\
    Tree_Len (s_tree s1) = zlen text /\ s_revision s1 = 1 /\ s_recovered s1 = true.
Proof.
  set (s' := ex_after [ex_replace]).
  assert (durable_run bytes_NewReader ex_session s') as Hrun.
  { apply (durable_snoc bytes_NewReader ex_session ex_session ex_replace (fun _ => []) ex_setup (Some ex_calm_context) 0%nat
      s' (ex_run ex_replace ex_session).1.2 (ex_run ex_replace ex_session).2); [constructor|exact ex_setup_fresh|vm_compute; congruence| |].
    - split; [done|]. eexists. by split.
    - change s' with (ex_run ex_replace ex_session).1.1. fold (ex_run ex_replace ex_session). by rewrite <-!surjective_pairing. }
  assert (s_revision s' = 1) as Hrev by (vm_compute; reflexivity).
  assert (exists j', s_journal s' = Some j') as [j' Hj'] by (eexists; vm_compute; reflexivity).
  assert (opening ex_abc ex_abc ex_session) as Hop.
  { pose proof (so_base _ _ _ ex_session_ok) as []. split; [done|split; [done|by intros f [= <-]]|done]. }
  destruct (recovery_restores bytes_NewReader ex_abc ex_session ex_versions s' j' (newFile (session_data s')) [] ex_session 0%nat
    bytes_NewReader_ok ex_session_ok eq_refl Hrun Hj' ltac:(vm_compute; congruence) eq_refl eq_refl Hop) as (v' & Hok' & H).
  destruct (Replay (mkJournal (Some (newFile (session_data s'))) [])) as [j [rr e]].
  destruct (replay bytes_NewReader rr (use_journal bytes_NewReader j ex_session) 0%nat) as [[s1 k1] r].
  destruct H as (_ & _ & _ & Hlen & _ & [(E1 & _ & _ & E2)|(_ & E & _)]); [|rewrite Hrev in E; discriminate E].
  exists s', (v_now v'), s1. split; [exact Hrun|]. split; [by eapply session_observes|]. split; [exact Hrev|].
  split; [exact Hlen|]. split; [by rewrite E1|exact E2].
Defined.
