(* ===== verification/SessionPending.v ===== *)
(** * The pending operations of a session

    document/session.go keeps, next to the journal, the list of edits that the
    base file does not hold yet ([Session.pending]).  A save rebuilds the journal
    and the tree from that list, so this file shows what it is: the index of the
    edits that lead from the base text at the committed revision to the present
    text, in every run and whatever fails. *)

From Stdlib Require Import ZArith Lia List.
From stdpp Require Import base list numbers gmap.
From S2P Require Import Prelude GoLib Store File Journal ChangeMap ChangeHistory Events UndoStore Utf8 Options TreeText JournalText Session SessionText SessionHistory SessionEdit Editor SessionRecovery.
#[local] Open Scope Z_scope.

(** ** The index *)

(** [start] is the text of the base file at the committed revision; [xs] are the
    batches made since. *)
Record indexed (start : list byte) (xs : list logged) (s : Session) (doc : list byte) : Prop := mkIndexed {
  ix_logs : logs_ok start (s_committedRevision s) xs;
  ix_groups : Forall (fun x => l_group x = l_rev x) xs;
  ix_text : apply_logs xs start = doc;
  ix_committed : 0 <= s_committedRevision s;
  ix_revision : s_revision s = s_committedRevision s + log_edits xs;
  ix_dirty : s_dirty s = (s_committedRevision s <? s_revision s);
  ix_pending : pending_logs (session_data s) xs (s_pending s);
  ix_room : zlen (encodeAll xs) <= zlen (session_data s) }.

Lemma log_edits_nonneg xs : 0 <= log_edits xs.
Proof. induction xs as [|x xs IH]; [done|]. cbn. pose proof (zlen_nonneg (l_ops x)). lia. Qed.

Lemma indexed_kept start xs s s' doc :
  indexed start xs s doc -> same_published s s' -> indexed start xs s' doc.
Proof.
  intros [] (_ & Er & Ec & Ed & _ & Ep & _ & _ & _ & _ & _ & tail & E). split; try done; [congruence..| |].
  - rewrite E, Ep. by apply pending_logs_grow.
  - rewrite E, zlen_app. pose proof (zlen_nonneg tail). lia.
Qed.

(** The batch of an edit, indexed where the journal holds it. *)
Definition logged_edit (s : Session) (ops : list ReplaceOperation) : logged := mkLogged (rev1 s) (rev1 s) (map rec_op ops).

Lemma pending_edit_batch s ops :
  pending_batch (prior s ++ encodeLogged (logged_edit s ops)) (logged_edit s ops) (pending_edit s ops).
Proof.
  exists (payload_offsets (zlen (prior s)) (rev1 s) (rev1 s) (map rec_op ops)).
  split; [exact (appended_payloads (prior s) (logged_edit s ops))|done].
Qed.

Lemma data_prior s : exists tail, prior s = session_data s ++ tail.
Proof. unfold prior, session_data. destruct (s_journal s); [exists []; by rewrite app_nil_r|by eexists]. Qed.

Lemma indexed_edited base sound takes origin start xs s s' doc v' ops :
  indexed start xs s doc -> edited base sound takes origin s s' doc v' ops -> in_u64 (s_revision s) -> ops_ok doc ops ->
  indexed start (xs ++ [logged_edit s ops]) s' (v_now v').
Proof.
  intros [] Hed Hrev Hops. pose proof (ed_revision _ _ _ _ _ _ _ _ _ Hed) as Hr.
  destruct (ed_dirty _ _ _ _ _ _ _ _ _ Hed) as [Ec Ed]. destruct (ed_log _ _ _ _ _ _ _ _ _ Hed) as (_ & _ & Hd & Hbo & _).
  assert (rev1 s = s_revision s + 1) as E1.
  { pose proof (bo_rev _ _ _ Hbo) as Hb1. unfold rev1 in *. destruct (decide (s_revision s = maxUint64)) as [E|]; [|apply u64_id; go_lia].
    rewrite E in Hb1. change (u64 (maxUint64 + 1)) with 0 in Hb1. lia. }
  split; rewrite ?Ec; try done.
  - apply logs_ok_app. split; [done|]. rewrite ix_text0, <-ix_revision0. cbn [logs_ok logged_edit l_rev l_group l_ops].
    rewrite to_rec_ops. pose proof (bo_group _ _ _ Hbo). split_and!; try done. lia.
  - apply Forall_app. split; [done|]. by apply Forall_singleton.
  - rewrite apply_logs_app, ix_text0, (ed_now _ _ _ _ _ _ _ _ _ Hed). cbn. by rewrite to_rec_ops.
  - rewrite log_edits_app. cbn [log_edits logged_edit l_ops]. rewrite zlen_map. lia.
  - rewrite (ed_pending _ _ _ _ _ _ _ _ _ Hed), Hd. apply pending_logs_app; [|apply pending_logs_one, pending_edit_batch].
    destruct (data_prior s) as [tail ->]. rewrite <-app_assoc. by apply pending_logs_grow.
  - rewrite encodeAll_app, Hd, !zlen_app. unfold encodeAll at 2. cbn [map concat]. rewrite app_nil_r.
    destruct (data_prior s) as [tail ->]. rewrite zlen_app. pose proof (zlen_nonneg tail). unfold encodeLogged, logged_edit. cbn [l_rev l_group l_ops]. lia.
Qed.

(** A session that has just been opened without a journal. *)
Lemma indexed_fresh s doc :
  s_pending s = [] -> in_u64 (s_revision s) -> s_committedRevision s = s_revision s -> s_dirty s = false -> indexed doc [] s doc.
Proof.
  intros Hp Hr Hc Hd. split; try done; rewrite ?Hc, ?Hp; cbn [log_edits]; [go_lia|lia|by rewrite Z.ltb_irrefl|constructor|apply zlen_nonneg].
Qed.

Section Pending.
Context (journal_reads : list byte -> ReaderAt) (reads_ok : forall data, ReaderOk (journal_reads data) data).
Context (base : list byte).

(** A run adds batches at the end. *)
Lemma run_indexed start xs s v log s' :
  session_ok base s v -> indexed start xs s (v_now v) -> session_run journal_reads s log s' ->
  exists ys v', session_ok base s' v' /\ indexed start (xs ++ ys) s' (v_now v') /\ s_committedRevision s' = s_committedRevision s.
Proof using reads_ok.
  intros Hok Hix Hrun. induction Hrun as [|log s1 c takes setup ctx k s2 k2 r _ IH Hnew Hfit Hc].
  { exists [], v. by rewrite app_nil_r. }
  destruct IH as (ys & v1 & Hok1 & Hix1 & Ec).
  destruct (command_outcome _ reads_ok base _ _ _ _ _ _ _ _ _ _ Hc Hok1 Hnew Hfit) as (v' & Hok' & [(origin & ops & Hops & Hed)|(Hn & Hsame & _)]).
  - exists (ys ++ [logged_edit s1 ops]), v'. rewrite app_assoc. split; [done|]. split.
    + eapply indexed_edited; [done..|apply Hok1|done].
    + destruct (ed_dirty _ _ _ _ _ _ _ _ _ Hed) as [-> _]. done.
  - exists ys, v'. split; [done|]. split; [rewrite Hn; by eapply indexed_kept|].
    destruct Hsame as (_ & _ & -> & _). done.
Qed.

(** The replay of a journal this program wrote. *)
Lemma replay_indexed data rr xs doc revision s k s' k' :
  replay journal_reads rr s k = (s', k', Ok tt) -> recovering base data doc s -> Forall2 (batch_in data) (rr_Batches rr) xs ->
  zlen data <= maxInt64 -> logs_ok doc revision xs -> 0 <= revision -> Forall (fun x => l_group x = l_rev x) xs ->
  s_pending s = [] -> xs <> [] -> zlen (encodeAll xs) <= zlen data -> indexed doc xs s' (apply_logs xs doc).
Proof using reads_ok.
  intros H Hg Hx Hmax Hlog H0 Hgr Hp Hne Hroom.
  pose proof (replay_spec _ reads_ok base _ _ _ _ _ _ _ _ _ _ H Hg Hx Hmax Hlog H0) as (Hg1 & _ & (ps & Hps & Hpl) & Hm).
  destruct xs as [|x xs]; [done|]. destruct Hm as (Er & Ec & Ed & _). rewrite Hp in Hps.
  destruct Hlog as (Hl1 & Hl2 & Hl3 & Hl4). pose proof (bo_count _ _ _ Hl3) as Hcount. pose proof (log_edits_nonneg xs).
  assert (session_data s' = data) as Edata by (destruct Hg1 as [_ (f & path & Hj & Hf) _ _]; unfold session_data; by rewrite Hj).
  split; rewrite ?Ec, ?Edata; try done.
  - rewrite Ed, Er. cbn [log_edits]. symmetry. apply Z.ltb_lt. lia.
  - by rewrite Hps.
Qed.
End Pending.
