(* ===== verification/SessionReplay.v ===== *)
(** * The history a replay rebuilds

    [Session.replay] of document/session.go records every replayed batch in the
    undo history.  As long as the undo store has room for the texts, the replayed
    session is a session like any other: its stacks lead along the versions that
    the journal went through.  When the store is reset in the middle of a batch,
    its entry keeps references of texts that are gone, unlike in a commit. *)

From Stdlib Require Import ZArith Lia List.
From stdpp Require Import base list numbers gmap.
From S2P Require Import Prelude GoLib Store File Journal ChangeMap ChangeHistory Events UndoStore Utf8 Options TreeText JournalText Session SessionText SessionHistory SessionEdit Editor SessionRecovery SessionPending.
#[local] Open Scope Z_scope.

Lemma u64_step e n : in_u64 e -> 0 <= n < 2 ^ 64 -> u64 (e + n) = e -> n = 0.
Proof. unfold in_u64, u64. unfold_ints. intros He Hn E. pose proof (Z.div_mod (e + n) 18446744073709551616 ltac:(lia)). lia. Qed.

(** After [n] resets of the undo store: with none the stacks are as before and the
    store has only grown. *)
Record remembered (n : Z) (s s' : Session) : Prop := mkRemembered {
  rm_resets : 0 <= n;
  rm_store : store_ok (s_undoStore s');
  rm_epoch : s_undoEpoch s' = u64 (s_undoEpoch s + n);
  rm_same : n = 0 -> s_undo s' = s_undo s /\ s_redo s' = s_redo s /\ extends (s_undoStore s) (s_undoStore s') }.

Lemma remembered_refl s : store_ok (s_undoStore s) -> in_u64 (s_undoEpoch s) -> remembered 0 s s.
Proof. intros Hs He. split; [done|done|by rewrite Z.add_0_r, u64_id|done]. Qed.

Lemma remembered_trans n m s1 s2 s3 : remembered n s1 s2 -> remembered m s2 s3 -> remembered (n + m) s1 s3.
Proof.
  intros [N1 S1 E1 A1] [N2 S2 E2 A2]. split; [lia|done| |].
  - rewrite E2, E1. unfold u64. rewrite Zplus_mod_idemp_l. f_equal. lia.
  - intros H. destruct (A2 ltac:(lia)) as (-> & -> & ?). destruct (A1 ltac:(lia)) as (-> & -> & ?). split_and!; [done|done|by etransitivity].
Qed.

Lemma recorded_remembered n s s' : 0 <= n -> recorded n s s' -> remembered n s s'.
Proof. intros Hn []. by split. Qed.

(** Steps that leave the history alone. *)
Lemma remembered_frame n s s1 s' :
  s_undo s' = s_undo s1 -> s_redo s' = s_redo s1 -> s_undoStore s' = s_undoStore s1 -> s_undoEpoch s' = s_undoEpoch s1 ->
  remembered n s s1 -> remembered n s s'.
Proof. intros E1 E2 E3 E4 []. split; [done|congruence|congruence|]. rewrite E1, E2, E3. done. Qed.

(** ** One operation *)

(** The two texts an operation records. *)
Definition noted (us us' : option undoStore) (x : stagedOperation) (before after : historyEntry) : Prop :=
  exists a b us1, after = mkHistoryEntry (he_forward before ++ [a]) (b :: he_inverse before) /\
    hist_op us' a (so_operation x) /\ hist_op us' b (undo_op x) /\ extends us us1 /\ extends us1 us' /\
    (exists t, keeps us1 (ho_insert a) t) /\ beyond us (ho_insert a) /\ beyond us1 (ho_insert b).

(** What a run of operations adds to an entry. *)
Definition noted_all (us us' : option undoStore) (staged : list stagedOperation) (before after : historyEntry) : Prop :=
  exists fwd inv, after = mkHistoryEntry (he_forward before ++ fwd) (inv ++ he_inverse before) /\
    Forall2 (hist_op us') fwd (map so_operation staged) /\ Forall2 (hist_op us') inv (rev (map undo_op staged)) /\
    Forall (beyond us) (op_refs (fwd ++ inv)) /\ apart_refs (op_refs (fwd ++ inv)).

Lemma noted_all_cons us us1 us2 x staged e e1 e2 :
  noted us us1 x e e1 -> extends us1 us2 -> noted_all us1 us2 staged e1 e2 -> noted_all us us2 (x :: staged) e e2.
Proof.
  intros (a & b & u & -> & Ha & Hb & X1 & X2 & Ka & Ba & Bb) X3 (fwd & inv & -> & Hf & Hv & Hbey & Hap).
  exists (a :: fwd), (inv ++ [b]). cbn [he_forward he_inverse map rev]. rewrite <-!app_assoc. split; [reflexivity|].
  assert (hist_op us2 a (so_operation x)) as Ha2 by (destruct Ha as (? & ? & ?); split_and!; [done..|by apply X3]).
  assert (hist_op us2 b (undo_op x)) as Hb2 by (destruct Hb as (? & ? & ?); split_and!; [done..|by apply X3]).
  destruct (apart_refs_cons _ _ _ _ _ _ X1 X2 Ka (ex_intro _ _ (proj2 (proj2 Hb))) Ba Bb Hbey Hap) as [H1 H2].
  assert (op_refs ((a :: fwd) ++ inv ++ [b]) ⊆ ho_insert a :: ho_insert b :: op_refs (fwd ++ inv)) as Hsub
    by (unfold op_refs; cbn [app map]; rewrite !map_app; set_solver).
  split_and!; [by constructor|by apply Forall2_app; [|constructor]|by eapply Forall_beyond_sub|by eapply apart_refs_sub].
Qed.

Lemma ops_ok_short doc ops : ops_ok doc ops -> Forall (fun op => zlen (Insert op) <= maxInt64) ops.
Proof.
  revert doc. induction ops as [|op ops IH]; intros doc H; [constructor|]. cbn in H. destruct H as (_ & ? & ? & ? & _ & _ & ? & H).
  constructor; [|by eapply IH]. lia.
Qed.

(** Splits a run of a bind that succeeds. *)
Ltac split_ok H :=
  let E := fresh in let a := fresh "a" in let s := fresh "s" in let k := fresh "k" in let Hc := fresh "Hc" in
  apply bind_inv in H as [(? & ? & E)|(a & s & k & Hc & H)]; [discriminate E|].

(** The texts that the pieces and the pending operations name end before [m] in
    the journal. *)
Definition journal_within (m : Z) (p : Piece) : Prop := p_Source p = SourceJournal -> p_Offset p + p_Length p <= m.
Definition pending_within (m : Z) (q : pendingOperation) : Prop := po_insertOffset q + po_insertLength q <= m.
Definition within (m : Z) (s : Session) : Prop :=
  Forall (journal_within m) (pieces (t_root (s_tree s))) /\ Forall (pending_within m) (s_pending s).
(** The same pieces, perhaps over other readers. *)
Definition same_pieces (s s' : Session) : Prop :=
  t_root (s_tree s') = t_root (s_tree s) /\ s_pending s' = s_pending s /\ (tree_wf (s_tree s) -> tree_wf (s_tree s')).

#[export] Instance same_pieces_order : PreOrder same_pieces.
Proof. split; [done|]. intros s1 s2 s3 (E1 & P1 & W1) (E2 & P2 & W2). split; [congruence|]. split; [congruence|auto]. Qed.

Lemma within_same m s s' : same_pieces s s' -> within m s -> within m s'.
Proof. intros (E & P & _). unfold within. by rewrite E, P. Qed.

Lemma recorded_pieces n s s' : recorded n s s' -> same_pieces s s'.
Proof. intros [F _ _ _ _]. rewrite F. done. Qed.

Lemma within_replace m t start del p :
  tree_wf t -> piece_typed p -> Forall (journal_within m) (pieces (t_root t)) -> (0 < p_Length p -> journal_within m p) ->
  Forall (journal_within m) (pieces (t_root (ReplacePiece t start del p).1)).
Proof.
  intros Ht Hp HP Hnew. apply replace_kept; [| |done|done|done|].
  - intros q off len _ Hq _ ? ? E. specialize (Hq E). cbn. lia.
  - intros a q _ _ [E1%Z.eqb_eq E2%Z.eqb_eq]%andb_prop Ha Hq E. cbn in *. rewrite E1 in E. specialize (Hq E). lia.
  - intros Hpos. specialize (Hnew Hpos). unfold normalizePiece. by destruct (p_NewlinesKnown p).
Qed.

Section Replay.
Context (journal_reads : list byte -> ReaderAt) (reads_ok : forall data, ReaderOk (journal_reads data) data).
Context (base : list byte).

Lemma read_payload_frame op s k s' k' r :
  read_payload journal_reads op s k = (s', k', r) ->
  (s_undo s' = s_undo s /\ s_redo s' = s_redo s /\ s_undoStore s' = s_undoStore s /\ s_undoEpoch s' = s_undoEpoch s) /\ same_pieces s s'.
Proof using.
  unfold read_payload. destruct (0 <? op_InsertLength op); [|by intros [= <- <- <-]].
  destruct (s_journal s) as [j|]; [|by intros [= <- <- <-]]. destruct (ReadAt _ _ _) as [j' [got e]]. intros [= <- <- <-].
  split; [done|]. split; [done|]. split; [done|apply SetSource_wf].
Qed.

Lemma replay_operation_history revision group op x entry data doc s k s' k' r :
  replay_operation journal_reads revision group op entry s k = (s', k', r) -> recovering base data doc s ->
  payload_at data (op_PayloadOffset op) (so_inserted x) -> op_InsertLength op = zlen (so_inserted x) ->
  op_Start op = Start (so_operation x) -> op_DeleteLength op = DeleteLength (so_operation x) -> staged_ok doc [x] -> zlen data <= maxInt64 ->
  (forall m, op_PayloadOffset op + op_InsertLength op <= m -> within m s -> within m s') /\
  exists n, n <= 2 /\ remembered n s s' /\ forall entry', n = 0 -> r = Ok entry' -> noted (s_undoStore s) (s_undoStore s') x entry entry'.
Proof using reads_ok.
  intros H Hg Hp Hlen Es Ed Hst Hdata. pose proof (staged_short _ _ Hst) as Hshort. cbn [staged_ok] in Hst.
  destruct Hst as (Hi & Hd & Hv & H0 & H1 & H2 & Hb1 & Hb2 & _).
  pose proof (holds_length _ _ _ (rg_text _ _ _ _ Hg)) as [_ Hdoc]. specialize (Hshort ltac:(lia)).
  apply Forall_cons in Hshort as [(_ & Hl1 & Hl2) _]. pose proof Hg as [_ _ Hus Hep].
  unfold replay_operation in H. unfold bind at 1, get in H. rewrite Es, Ed in H.
  apply boundary_spec in Hb1, Hb2.
  rewrite (readTreeRange_holds _ _ _ (rg_text _ _ _ _ Hg)), (validate_holds _ _ _ (rg_text _ _ _ _ Hg)), Hb1, Hb2, <-Hd in H by done.
  cbn [andb] in H. unfold bind at 1, lift in H. unfold bind at 1 in H.
  assert (forall s1 k1 r1, read_payload journal_reads op s k = (s1, k1, r1) -> remembered 0 s s1 /\ s_undoStore s1 = s_undoStore s /\
    same_pieces s s1 /\ forall v, r1 = Ok v -> v = so_inserted x) as Hread.
  { intros s1 k1 r1 E. destruct (read_payload_frame _ _ _ _ _ _ E) as ((E1 & E2 & E3 & E4) & Hpc). split.
    - eapply remembered_frame; [exact E1|exact E2|exact E3|exact E4|by apply remembered_refl].
    - split; [done|]. split; [done|]. apply (read_payload_spec _ reads_ok base _ _ _ _ _ _ _ _ _ E Hg Hp Hlen). }
  split_bind H; [destruct (Hread _ _ _ He) as (Hr0 & _ & P0 & _)|destruct (Hread _ _ _ Hc) as (Hr0 & Eus & P0 & Hval)].
  { split; [intros m _; by apply within_same|]. exists 0. split; [lia|]. by split. }
  rewrite (Hval _ eq_refl), Hi, Hv in H. cbn [negb] in H. rewrite <-Hi in H.
  pose proof (rm_store _ _ _ Hr0) as Hus0. assert (in_u64 (s_undoEpoch s0)) as Hep0 by (rewrite (rm_epoch _ _ _ Hr0); apply u64_range).
  split_bind H;
    [destruct (historyText_spec _ _ _ _ _ _ He Hus0 Hep0 Hl1) as (n1 & Hn1 & Hr1 & _)
    |destruct (historyText_spec _ _ _ _ _ _ Hc0 Hus0 Hep0 Hl1) as (n1 & Hn1 & Hr1 & Hk1 & _)].
  { split; [intros m _ ?; eapply within_same; [by eapply recorded_pieces|]; by eapply within_same|]. exists (0 + n1). split; [lia|]. split; [|done]. eapply remembered_trans; [exact Hr0|]. apply recorded_remembered; [lia|done]. }
  assert (in_u64 (s_undoEpoch s1)) as Hep1 by (rewrite (rc_epoch _ _ _ Hr1); apply u64_range).
  split_bind H;
    [destruct (historyText_spec _ _ _ _ _ _ He (rc_store _ _ _ Hr1) Hep1 Hl2) as (n2 & Hn2 & Hr2 & _)
    |destruct (historyText_spec _ _ _ _ _ _ Hc1 (rc_store _ _ _ Hr1) Hep1 Hl2) as (n2 & Hn2 & Hr2 & Hk2 & _)].
  all: assert (forall s3 n, recorded n s1 s3 -> same_pieces s s3) as Hpieces
    by (intros s3 n Hs3; etransitivity; [exact P0|]; etransitivity; eapply recorded_pieces; eassumption).
  all: pose proof (Hpieces _ _ Hr2) as HP2.
  { split; [intros m _; by apply within_same|]. exists (0 + (n1 + n2)). split; [lia|]. split; [|done]. eapply remembered_trans; [exact Hr0|]. eapply remembered_trans; (apply recorded_remembered; [lia|done]). }
  assert (remembered (0 + (n1 + n2)) s s2) as Hr.
  { eapply remembered_trans; [exact Hr0|]. eapply remembered_trans; (apply recorded_remembered; [lia|done]). }
  assert (forall t1 y, ReplacePiece (s_tree s2) (Start (so_operation x)) (DeleteLength (so_operation x)) (journal_piece op (so_inserted x)) = (t1, y) ->
    forall m, op_PayloadOffset op + op_InsertLength op <= m -> within m s -> Forall (journal_within m) (pieces (t_root t1))) as Hwithin.
  { destruct HP2 as (P2 & _ & W2). intros t1 y E m Hle [Hm _]. destruct Hp as (Hp0 & Hp1 & _).
    assert (tree_wf (s_tree s2)) as Hwf by (apply W2, (rg_text _ _ _ _ Hg)).
    rewrite (journal_piece_valid op (so_inserted x) Hlen Hp0 ltac:(lia)) in E.
    destruct (insert_piece_valid SourceJournal (op_PayloadOffset op) (so_inserted x) Hp0 ltac:(lia)) as (Hty & _ & Hpl & Hso).
    pose proof (within_replace m (s_tree s2) (Start (so_operation x)) (DeleteLength (so_operation x)) _ Hwf Hty) as Hrp.
    rewrite E in Hrp. apply Hrp; [by rewrite P2|]. intros Hpos _. rewrite Hpl in *. destruct (Hso Hpos) as [_ ->]. lia. }
  unfold bind, get, modify, lift in H. destruct (ReplacePiece _ _ _ _) as [t1 [y|e]]; injection H as <- <- <-;
    (split; [intros m Hle Hm; split; [exact (Hwithin _ _ eq_refl m Hle Hm)|]; destruct HP2 as (_ & P2 & _); destruct Hm as [_ Hm];
       session_simpl; rewrite P2; first [done|by apply Forall_app; split; [|apply Forall_singleton]]|]);
    exists (0 + (n1 + n2)); (split; [lia|]).
  2:{ split; [by eapply remembered_frame; [..|exact Hr]|done]. }
  split; [by eapply remembered_frame; [..|exact Hr]|]. intros entry' Hz [= <-]. assert (n1 = 0 /\ n2 = 0) as [-> ->] by lia.
  destruct (Hk1 eq_refl _ eq_refl) as [Ka Ba]. destruct (Hk2 eq_refl _ eq_refl) as [Kb Bb].
  destruct (rc_same _ _ _ Hr1 eq_refl) as (_ & _ & X1). destruct (rc_same _ _ _ Hr2 eq_refl) as (_ & _ & X2). rewrite Eus in X1, Ba.
  session_simpl. eexists _, _, (s_undoStore s1). split; [reflexivity|]. cbn [ho_insert]. split; [|split; [|by eauto 10]].
  - split_and!; [done|done|]. cbn [ho_insert]. rewrite <-Hi. by apply X2.
  - split_and!; [done|by rewrite Hlen|done].
Qed.

(** ** A batch *)

Lemma replay_operations_history data group ops : forall xs staged revision entry doc s k s' k' r,
  replay_operations journal_reads revision group ops entry s k = (s', k', r) -> recovering base data doc s ->
  Forall2 (located_in data) ops xs -> zlen data <= maxInt64 -> staged_ok doc staged -> map so_operation staged = map to_op xs ->
  (forall m, Forall (fun op => op_PayloadOffset op + op_InsertLength op <= m) ops -> within m s -> within m s') /\
  exists n, n <= 2 * zlen ops /\ remembered n s s' /\
    forall entry', n = 0 -> r = Ok entry' -> noted_all (s_undoStore s) (s_undoStore s') staged entry entry'.
Proof using reads_ok.
  induction ops as [|op ops IH]; intros xs staged revision entry doc s k s' k' r H Hg Hx Hmax Hst Hops;
    inversion Hx as [|? y ? xs' (E1 & E2 & E3 & E4) Hx']; subst.
  { destruct staged; [|done]. injection H as <- <- <-. split; [done|]. exists 0. split; [done|]. split; [apply remembered_refl; apply Hg|].
    intros entry' _ [= <-]. exists [], []. rewrite app_nil_r. split; [by destruct entry|]. split_and!; [constructor..|apply apart_refs_nil]. }
  destruct staged as [|x staged]; [done|]. cbn [map] in Hops. injection Hops as Hop Hops. cbn [replay_operations] in H.
  assert (ops_ok doc [mkReplace (op_Start op) (op_DeleteLength op) (ro_Inserted y)]) as Hok1.
  { pose proof (staged_ops_ok _ _ Hst) as Hok. cbn [map ops_ok] in Hok |- *. rewrite E1, E2. rewrite Hop in Hok. intuition. }
  cbn [staged_ok] in Hst. destruct Hst as (Hi & Hd & Hv & H0 & H1 & H2 & Hb1 & Hb2 & Hl & Hst).
  assert (so_inserted x = ro_Inserted y) as Ei by (by rewrite Hi, Hop).
  assert (op_Start op = Start (so_operation x) /\ op_DeleteLength op = DeleteLength (so_operation x)) as [Es Ed] by (by rewrite Hop).
  assert (staged_ok doc [x]) as Hst1 by (by split_and!).
  assert (forall s1 k1 r1, replay_operation journal_reads revision group op entry s k = (s1, k1, r1) ->
    (forall m, op_PayloadOffset op + op_InsertLength op <= m -> within m s -> within m s1) /\
    exists n, n <= 2 /\ remembered n s s1 /\ forall entry', n = 0 -> r1 = Ok entry' -> noted (s_undoStore s) (s_undoStore s1) x entry entry') as Hone.
  { intros s1 k1 r1 E. apply (replay_operation_history _ _ _ _ _ _ _ _ _ _ _ _ E Hg); [by rewrite Ei|by rewrite Ei|done..]. }
  rewrite zlen_cons. pose proof (zlen_nonneg ops).
  split_bind H; [destruct (Hone _ _ _ He) as (W1 & n & Hn & Hr & _)|destruct (Hone _ _ _ Hc) as (W1 & n1 & Hn1 & Hr1 & Hk1)].
  { split; [intros m Hm; apply Forall_cons in Hm as [Hm _]; by apply W1|]. exists n. split; [lia|by split]. }
  destruct (replay_operation_spec _ reads_ok base _ _ _ _ _ _ _ _ _ _ _ _ Hc Hg E4 E3 Hmax Hok1) as (Hg1 & _).
  assert (mkReplace (op_Start op) (op_DeleteLength op) (ro_Inserted y) = so_operation x) as Eop by (rewrite Hop; unfold to_op; by f_equal).
  rewrite Eop in Hg1. destruct (IH _ staged _ _ _ _ _ _ _ _ H Hg1 Hx' Hmax Hst Hops) as (W2 & n2 & Hn2 & Hr2 & Hk2).
  split; [intros m Hm Hw; apply Forall_cons in Hm as [Hm1 Hm]; by apply W2, W1|]. exists (n1 + n2). split; [lia|]. split; [by eapply remembered_trans|]. intros entry' Hz E.
  pose proof (rm_resets _ _ _ Hr1). pose proof (rm_resets _ _ _ Hr2). assert (n1 = 0 /\ n2 = 0) as [-> ->] by lia.
  eapply noted_all_cons; [by apply Hk1|apply (rm_same _ _ _ Hr2 eq_refl)|by apply Hk2].
Qed.

(** The stacks of a session during a replay. *)
Record retraced (s : Session) (past : list (list byte)) (doc : list byte) : Prop := mkRetraced {
  rt_undo : undo_path (s_undoStore s) past (s_undo s) doc;
  rt_redo : s_redo s = [];
  rt_apart : apart_refs (stack_refs (s_undo s)) }.

Lemma replay_batch_history data first b x doc revision s k s' k' :
  replay_batch journal_reads first b s k = (s', k', Ok tt) -> recovering base data doc s -> batch_in data b x -> zlen data <= maxInt64 ->
  logs_ok doc revision [x] -> utf8_Valid doc = true ->
  (forall m, Forall (fun op => op_PayloadOffset op + op_InsertLength op <= m) (b_Operations b) -> within m s -> within m s') /\
  exists n, 0 <= n <= 2 * zlen (l_ops x) /\ s_undoEpoch s' = u64 (s_undoEpoch s + n) /\
    (n = 0 -> forall past, retraced s past doc -> retraced s' (past ++ [doc]) (apply_logs [x] doc)).
Proof using reads_ok.
  intros H Hg (E1 & E2 & Hops) Hmax (_ & _ & L3 & L4 & _) Hv. pose proof (bo_count _ _ _ L3) as Hcount.
  pose proof (proj2 (holds_length _ _ _ (rg_text _ _ _ _ Hg))) as Hlen.
  destruct (stage_spec_complete maxInt64 doc (map to_op (l_ops x)) L4 (ops_ok_short _ _ L4)) as (staged & Hstaged & _).
  destruct (stage_spec_ok _ _ _ _ Hstaged) as (Hst & Hmap & _).
  assert (zlen staged = zlen (l_ops x)) as Hz by (rewrite <-(zlen_map so_operation), Hmap; apply zlen_map).
  assert (zlen (b_Operations b) = zlen (l_ops x)) as Hzb by (unfold zlen; by rewrite (Forall2_length _ _ _ Hops)).
  split_ok H. assert (recovering base data doc s0 /\ remembered 0 s s0 /\ s_tree s0 = s_tree s /\ s_pending s0 = s_pending s) as (Hg0 & Hm0 & Et & Ep).
  { pose proof Hg as [Ht Hj Hus Hep]. destruct first; [|injection Hc as <- <- <-; split; [done|]; split; [by apply remembered_refl|done]].
    destruct (b_FirstRevision b =? 0); [discriminate Hc|]. injection Hc as <- <- <-. split; [by split|].
    split; [|done]. eapply remembered_frame; [..|by apply remembered_refl]; done. }
  unfold bind at 1, get in H. destruct (_ || _); [discriminate H|].
  split_ok H. injection H as <- <-.
  destruct (replay_operations_history _ _ _ _ staged _ _ _ _ _ _ _ _ Hc0 Hg0 Hops Hmax Hst Hmap) as (Hw & n & Hn & Hm1 & Hnoted).
  pose proof (remembered_trans _ _ _ _ _ Hm0 Hm1) as Hm.
  split; [intros m Hall Hin; apply Hw; [done|]; unfold within; by rewrite Et, Ep|]. exists (0 + n).
  split; [pose proof (rm_resets _ _ _ Hm); lia|]. split; [apply Hm|]. intros Hz0 past [Hpath Hredo Hap]. assert (n = 0) as -> by lia.
  destruct (rm_same _ _ _ Hm eq_refl) as (Eu1 & Er1 & Hx). destruct (rm_same _ _ _ Hm0 eq_refl) as (_ & _ & Hx0).
  destruct (Hnoted _ eq_refl eq_refl) as (fwd & inv & -> & Hf & Hi & Hbey & Hapart). cbn [he_forward he_inverse emptyEntry app] in *.
  rewrite app_nil_r in *. unfold op_refs in Hbey, Hapart. rewrite map_app in Hbey, Hapart.
  assert (entry_of (s_undoStore s) (s_undoStore s1) staged (mkHistoryEntry fwd inv)) as Hent.
  { split; [done|]. split; [done|]. split; [|done]. eapply Forall_impl; [exact Hbey|]. intros q. by apply beyond_extends. }
  assert (apply_logs [x] doc = apply_ops (map so_operation staged) doc) as E by (unfold apply_logs; cbn; by rewrite Hmap).
  split; session_simpl; rewrite ?Eu1.
  - constructor; [|by eapply undo_path_extends]. rewrite E. eapply entry_of_ok; try done. lia.
  - by rewrite Er1.
  - eapply apart_snoc; [by eapply undo_path_kept|done|apply Hent|apply Hent].
Qed.

(** ** The whole replay *)

Lemma replay_batches_history data bs : forall xs first doc revision s k s' k',
  replay_batches journal_reads first bs s k = (s', k', Ok tt) -> recovering base data doc s -> Forall2 (batch_in data) bs xs ->
  zlen data <= maxInt64 -> logs_ok doc revision xs -> 0 <= revision -> (first = false -> s_revision s = revision) ->
  utf8_Valid doc = true ->
  (forall m, Forall (fun b => Forall (fun op => op_PayloadOffset op + op_InsertLength op <= m) (b_Operations b)) bs -> within m s -> within m s') /\
  exists n, 0 <= n <= 2 * log_edits xs /\ s_undoEpoch s' = u64 (s_undoEpoch s + n) /\
    (n = 0 -> forall past, retraced s past doc -> exists versions, retraced s' (past ++ versions) (apply_logs xs doc)).
Proof using reads_ok.
  induction bs as [|b bs IH]; intros xs first doc revision s k s' k' H Hg Hx Hmax Hlog H0 Hfirst Hv;
    inversion Hx as [|? x ? xs' Hb Hx']; subst; cbn [replay_batches] in H.
  { injection H as <- <-. split; [done|]. exists 0. split; [done|]. rewrite Z.add_0_r, u64_id by apply Hg. split; [done|].
    intros _ past Hrt. exists []. by rewrite app_nil_r. }
  change (x :: xs') with ([x] ++ xs') in Hlog. apply logs_ok_app in Hlog as [Hlog1 Hlog]. cbn [log_edits] in Hlog |- *. rewrite Z.add_0_r in Hlog.
  pose proof (zlen_nonneg (l_ops x)). pose proof (log_edits_nonneg xs').
  split_ok H. destruct a.
  destruct (replay_batch_history _ _ _ _ _ _ _ _ _ _ Hc Hg Hb Hmax Hlog1 Hv) as (W1 & n1 & Hn1 & En1 & Hrt1).
  destruct (replay_batch_spec _ reads_ok base _ _ _ _ _ _ _ _ _ _ _ Hc Hg Hb Hmax Hlog1 H0 Hfirst) as (Hg1 & _ & Hr1 & _).
  assert (utf8_Valid (apply_logs [x] doc) = true) as Hv1 by (apply (ops_ok_valid _ _ (proj1 (proj2 (proj2 (proj2 Hlog1)))) Hv)).
  destruct (IH xs' false _ _ _ _ _ _ H Hg1 Hx' Hmax Hlog ltac:(lia) (fun _ => Hr1) Hv1) as (W2 & n2 & Hn2 & En2 & Hrt2).
  split; [intros m Hm Hw; apply Forall_cons in Hm as [Hm1 Hm]; by apply W2, W1|]. exists (n1 + n2). split; [lia|]. split; [rewrite En2, En1; unfold u64; rewrite Zplus_mod_idemp_l; f_equal; lia|].
  intros Hz past Hrt. destruct (Hrt2 ltac:(lia) _ (Hrt1 ltac:(lia) _ Hrt)) as [vs Hvs]. exists ([doc] ++ vs). by rewrite app_assoc.
Qed.

Lemma log_edits_bound xs : Forall logged_ok xs -> 24 * log_edits xs <= zlen (encodeAll xs).
Proof using.
  induction 1 as [|x xs Hx _ IH]; [done|]. cbn [log_edits]. change (encodeAll (x :: xs)) with (encodeLogged x ++ encodeAll xs). rewrite zlen_app.
  unfold encodeLogged. rewrite zlen_encodeBatch. unfold batchHeaderSize, batchRecordSize. pose proof (zlen_nonneg (inserted (l_ops x))). lia.
Qed.

Lemma logs_valid xs : forall doc revision, logs_ok doc revision xs -> utf8_Valid doc = true -> utf8_Valid (apply_logs xs doc) = true.
Proof using.
  induction xs as [|x xs IH]; intros doc revision H Hv; [done|]. destruct H as (_ & _ & _ & Hops & H). eapply IH; [exact H|]. by apply ops_ok_valid.
Qed.

(** What the torn end of a journal held is not missed. *)
Lemma within_cut a rest t doc :
  holds (texts base (a ++ rest)) t doc -> Forall (journal_within (zlen a)) (pieces (t_root t)) ->
  holds (texts base a) (SetSource t SourceJournal (Some (journal_reads a))) doc.
Proof using reads_ok.
  intros Ht Hw. apply (holds_SetSource (texts base (a ++ rest))); [done| |apply reads_ok|].
  - intros i Hi. unfold texts. by rewrite (proj2 (Z.eqb_neq i SourceJournal)) by done.
  - intros p Hp E. pose proof (holds_range _ _ _ Ht) as Hr. rewrite List.Forall_forall in Hr. destruct (Hr p Hp) as (H0 & H1 & _).
    rewrite List.Forall_forall in Hw. specialize (Hw p Hp E). change (texts base a SourceJournal) with a. split; [done|].
    unfold piece_bytes. rewrite E. change (texts base a SourceJournal) with a. change (texts base (a ++ rest) SourceJournal) with (a ++ rest).
    symmetry. by apply slice_app_l.
Qed.

Lemma pending_entries_cut a rest group ops : forall revision offsets,
  Forall2 (payload_at (a ++ rest)) offsets (map ro_Inserted ops) -> Forall (pending_within (zlen a)) (pending_entries revision group ops offsets) ->
  Forall2 (payload_at a) offsets (map ro_Inserted ops).
Proof using.
  induction ops as [|o ops IH]; intros revision offsets H Hw; inversion H as [|off ? offs ? (H0 & H1 & H2) Hr]; subst; [constructor|].
  cbn [pending_entries hd tl] in Hw. apply Forall_cons in Hw as [Hw1 Hw]. constructor; [|by eapply IH].
  unfold pending_within, pending_entry in Hw1. cbn in Hw1. split; [done|]. split; [done|]. by rewrite <-(slice_app_l _ _ a rest).
Qed.

Lemma pending_logs_cut a rest xs ps :
  pending_logs (a ++ rest) xs ps -> Forall (pending_within (zlen a)) ps -> pending_logs a xs ps.
Proof using.
  induction 1 as [|x xs ps qs (offsets & Ho & ->) _ IH]; [constructor|]. intros [Hp Hq]%Forall_app. constructor; [|auto].
  exists offsets. split; [|done]. by eapply pending_entries_cut.
Qed.

(** A session during an opening, over the whole journal file and after the replay
    of the log [xs] it begins with. *)
Record replayed (a rest doc : list byte) (revision : Z) (xs : list logged) (s s' : Session) : Prop := mkReplayed {
  rp_recovering : recovering base (a ++ rest) (apply_logs xs doc) s';
  rp_within : within (zlen a) s';
  rp_untouched : untouched s s';
  rp_history : s_undoEpoch s' = s_undoEpoch s -> exists past, retraced s' past (apply_logs xs doc);
  rp_pending : pending_logs a xs (s_pending s');
  rp_revision : match xs with
    | [] => s' = s
    | _ => s_revision s' = revision + log_edits xs /\ s_committedRevision s' = revision /\ s_dirty s' = true /\ s_recovered s' = true
    end }.

Lemma located_within (pre : list byte) xs m :
  zlen pre + zlen (encodeAll xs) <= m ->
  Forall (fun b => Forall (fun op => op_PayloadOffset op + op_InsertLength op <= m) (b_Operations b)) (locatedAll (zlen pre) xs).
Proof using.
  intros Hm. pose proof (locatedAll_batches pre xs []) as H. rewrite app_nil_r in H.
  induction H as [|b x bs ys (_ & _ & Hops) _ IH]; constructor; [|done]. induction Hops as [|op o ops os (_ & _ & E & _ & Hp & _) _ IHo]; constructor; [|done].
  rewrite E. rewrite zlen_app in Hp. lia.
Qed.

Lemma replay_opened pre rest xs rr doc revision s k s' k' :
  let a := pre ++ encodeAll xs in
  replay journal_reads rr s k = (s', k', Ok tt) -> recovering base (a ++ rest) doc s -> rr_Batches rr = locatedAll (zlen pre) xs ->
  zlen (a ++ rest) <= maxInt64 -> logs_ok doc revision xs -> 0 <= revision -> utf8_Valid doc = true ->
  within (zlen a) s -> s_pending s = [] -> s_undo s = [] -> s_redo s = [] -> replayed a rest doc revision xs s s'.
Proof using reads_ok.
  intros a H Hg Hb Hmax Hlog H0 Hv Hw Hp Hundo Hredo.
  assert (Forall2 (batch_in (a ++ rest)) (rr_Batches rr) xs) as Hx by (rewrite Hb; unfold a; rewrite <-app_assoc; apply locatedAll_batches).
  pose proof (replay_spec _ reads_ok base _ _ _ _ _ _ _ _ _ _ H Hg Hx Hmax Hlog H0) as (Hg1 & Hu & (ps & Hps & Hpl) & Hm).
  rewrite Hp in Hps. unfold replay in H. split_ok H. destruct a0.
  destruct (replay_batches_history _ _ _ _ _ _ _ _ _ _ Hc Hg Hx Hmax Hlog H0 ltac:(done) Hv) as (W & n & Hn & En & Hhist).
  assert (within (zlen a) s0) as Hw0 by (apply W; [rewrite Hb; apply located_within; unfold a; by rewrite zlen_app|done]).
  assert (s_tree s' = s_tree s0 /\ s_pending s' = s_pending s0 /\ s_undoEpoch s' = s_undoEpoch s0 /\ s_undo s' = s_undo s0 /\
    s_redo s' = s_redo s0 /\ s_undoStore s' = s_undoStore s0) as (E1 & E2 & E3 & E4 & E5 & E6).
  { destruct (0 <? _); injection H as <- <-; done. }
  assert (within (zlen a) s') as Hw' by (unfold within; by rewrite E1, E2).
  split; [done|done|done| | |].
  - rewrite E3, En. intros E. assert (n = 0) as Hz.
    { pose proof (log_edits_bound xs (logs_ok_logged _ _ _ Hlog)). rewrite zlen_app in Hmax. unfold a in Hmax. rewrite zlen_app in Hmax.
      pose proof (zlen_nonneg pre). pose proof (zlen_nonneg rest). apply (u64_step (s_undoEpoch s)); [apply Hg|go_lia|done]. }
    destruct (Hhist Hz [] ) as [vs Hrt]; [split; rewrite ?Hundo; [constructor|done|apply apart_refs_nil]|].
    exists ([] ++ vs). destruct Hrt. split; rewrite ?E4, ?E5, ?E6; done.
  - rewrite Hps. cbn. eapply pending_logs_cut; [exact Hpl|]. destruct Hw' as [_ Hw']. by rewrite Hps in Hw'.
  - exact Hm.
Qed.
End Replay.

(** ** Where a replay differs from a commit

    A session whose undo file holds three bytes applies one batch to "abc": it
    deletes "ab" and inserts "cd".  The second text does not fit, the store is
    reset and the session forgets its history, so there is nothing to undo.  A
    session that replays the journal keeps the entry, whose reference to "ab" now
    finds "cd": undoing the batch gives "cdc". *)
Definition tight (s : Session) : Session := set_undoStore (Some (mkUndoStore (Some (newFile [])) [] 0 3 true)) s.
Definition ex_swap : Command := CApply 0 [mkReplace 0 2 []; mkReplace 0 0 [Byte.x63; Byte.x64]].
Definition ex_swapped : Session := (ex_run ex_swap (tight ex_session)).1.1.
Definition ex_replayed : Session :=
  let j := mkJournal (Some (newFile (session_data ex_swapped))) [] in
  let '(j, (rr, _)) := Replay j in
  (replay bytes_NewReader rr (use_journal bytes_NewReader j (tight ex_session)) 0%nat).1.1.

Example ex_swap_forgets : readTreeRange (s_tree ex_swapped) 0 3 = Ok [Byte.x63; Byte.x64; Byte.x63] /\
  (ex_run CUndo ex_swapped).2 = Err document_ErrNothingToUndo.
Proof. vm_compute. split; reflexivity. Qed.

Example replay_keeps_stale_references : readTreeRange (s_tree ex_replayed) 0 3 = Ok [Byte.x63; Byte.x64; Byte.x63] /\
  (exists r, (ex_run CUndo ex_replayed).2 = Ok r) /\
  readTreeRange (s_tree (ex_run CUndo ex_replayed).1.1) 0 3 = Ok [Byte.x63; Byte.x64; Byte.x63].
Proof. split_and!; [vm_compute; reflexivity|eexists; vm_compute; reflexivity|vm_compute; reflexivity]. Qed.
