(* ===== verification/Compaction.v ===== *)
(** * document/compaction.go: reclaiming pieces and undo texts

    [Compact] under [s.mu]: the undo store is rewritten to the references of the
    two history stacks, the stacks follow them, and the piece tree merges its
    fragments.  The reports of the rewrite become events of the hub.  The journal
    checkpoint that may go first is a call of [CommitAtLeastContext] (Commit). *)

From Stdlib Require Import ZArith Lia List.
From stdpp Require Import base list numbers gmap sorting.
From S2P Require Import Prelude GoLib Store File Journal ChangeMap ChangeHistory Events UndoStore Utf8 Options TreeText JournalText Session SessionText SessionHistory SessionEdit Editor SessionRecovery SessionPending.
#[local] Open Scope Z_scope.

(** ** Data *)

Record CompactionResult := mkCompactionResult {
  cr_OperationID : Z; cr_Metadata : Metadata; cr_Pieces : CompactResult; cr_UndoBytesBefore : Z; cr_UndoBytesAfter : Z;
  cr_JournalCheckpointed : bool; cr_Committed : bool }.

Definition zeroMetadata : Metadata := mkMetadata [] [] [] 0 0 0 false false false EOLLF false false false.
Definition zeroCompactionResult : CompactionResult := mkCompactionResult 0 zeroMetadata (mkCompactResult 0 0) 0 0 false false.

Definition compactionProgressQuantum : Z := 4194304.

(** The hub of its [session] is threaded by the methods. *)
Record compactionEventProgress := mkCompactionEventProgress {
  cep_value : CompactionProgress; cep_started : bool; cep_last : Z; cep_next : Z }.

(** ** The references of the history *)

Definition op_ref (operation : historyOperation) : list textRef :=
  if 0 <? ref_length (ho_insert operation) then [ho_insert operation] else [].

Definition collectHistoryRefs (groups : list (list historyEntry)) : list textRef :=
  flat_map (fun entries => flat_map (fun entry => flat_map op_ref (he_forward entry) ++ flat_map op_ref (he_inverse entry)) entries) groups.

(** A missing key of a map reads as the zero reference. *)
Definition remap_op (mapping : gmap textRef textRef) (operation : historyOperation) : historyOperation :=
  if 0 <? ref_length (ho_insert operation)
  then mkHistoryOperation (ho_start operation) (ho_deleteLength operation) (match mapping !! ho_insert operation with Some ref => ref | None => zeroRef end)
  else operation.

Definition remapHistoryRefs (mapping : gmap textRef textRef) (entries : list historyEntry) : list historyEntry :=
  map (fun entry => mkHistoryEntry (map (remap_op mapping) (he_forward entry)) (map (remap_op mapping) (he_inverse entry))) entries.

(** ** Events *)

Section Compaction.
(* what the consumers of the hub receive while an event is offered (Events) *)
Variable takes : Z -> list nat.

Definition compaction_event (s : Session) (kind : EventKind) (value : CompactionProgress) (cause : option error) : SessionEvent :=
  mkSessionEvent 0 0 kind ChangeOriginNone (metadataLocked s) zeroChangeMap (mkPersistenceProgress 0 0 0 0 false) value
    (mkProgress 0 ProgressNone ProgressIdle 0 0 0 0 0 0 false false None) cause.

Definition compaction_publish (kind : EventKind) (cause : option error) (p : compactionEventProgress) (s : Session) : Session :=
  set_events (publish takes (s_events s) (compaction_event s kind (cep_value p) cause)) s.

Definition with_completed (completed : Z) (v : CompactionProgress) : CompactionProgress :=
  mkCompactionProgress (cp_OperationID v) completed (cp_TotalBytes v) (cp_PiecesBefore v) (cp_PiecesAfter v)
    (cp_JournalCheckpointed v) (cp_Committed v).
Definition with_total (total : Z) (v : CompactionProgress) : CompactionProgress :=
  mkCompactionProgress (cp_OperationID v) (cp_CompletedBytes v) total (cp_PiecesBefore v) (cp_PiecesAfter v)
    (cp_JournalCheckpointed v) (cp_Committed v).
Definition with_outcome (after : Z) (committed : bool) (v : CompactionProgress) : CompactionProgress :=
  mkCompactionProgress (cp_OperationID v) (cp_CompletedBytes v) (cp_TotalBytes v) (cp_PiecesBefore v) after
    (cp_JournalCheckpointed v) committed.

Definition compaction_report (completed total : Z) (st : compactionEventProgress * Session) : compactionEventProgress * Session :=
  let '(p, s) := st in
  let '(p, s) :=
    if cep_started p then (p, s) else
    let p := mkCompactionEventProgress (with_total total (cep_value p)) true (-1) (Z.min compactionProgressQuantum total) in
    (p, compaction_publish EventCompactionStarted None p s) in
  let p := mkCompactionEventProgress (with_completed completed (cep_value p)) (cep_started p) (cep_last p) (cep_next p) in
  if (total =? 0) || (completed <? cep_next p) || (completed =? cep_last p) then (p, s) else
  let s := compaction_publish EventCompactionProgress None p s in
  (mkCompactionEventProgress (cep_value p) (cep_started p) completed (Z.min (completed ⊞ compactionProgressQuantum) total), s).

Definition compaction_finish (result : CompactionResult) (err : option error) (st : compactionEventProgress * Session) : Session :=
  let '(p, s) := st in
  if negb (cep_started p) then s else
  let value :=
    if cr_Committed result
    then with_outcome (AfterPieces (cr_Pieces result)) true (with_completed (cp_TotalBytes (cep_value p)) (cep_value p))
    else with_outcome (cp_PiecesBefore (cep_value p)) false (cep_value p) in
  compaction_publish (match err with Some _ => EventCompactionFailed | None => EventCompacted end) err
    (mkCompactionEventProgress value (cep_started p) (cep_last p) (cep_next p)) s.

(** ** The operation under the lock

    [create] and [remove] are the answers of the system to the rewrite of the
    undo store; [nextCompactionID] is the session's counter.  The events of the
    reports come between the start of the rewrite and its result, and nothing
    but the hub changes with them. *)

Definition next_operation_id (id : Z) : Z := let id := id ⊕ 1 in if id =? 0 then id ⊕ 1 else id.

Definition compact_locked (ctx : Context) (create : Prelude.result (file * list byte)) (remove : option error)
  (result : CompactionResult) (s : Session) (nextCompactionID : Z) (k : nat) : Session * Z * nat * (CompactionResult * option error) :=
  if s_closed s then (s, nextCompactionID, k, (result, Some document_ErrClosed)) else
  match s_fault s with
  | Some fault => (s, nextCompactionID, k, (result, Some (errJoin document_ErrFaulted fault)))
  | None =>
    let '(k, err) := poll (Some ctx) k in
    match err with
    | Some e => (s, nextCompactionID, k, (result, Some e))
    | None =>
      let id := next_operation_id nextCompactionID in
      let before := undo_bytes (s_undoStore s) in
      let refs := collectHistoryRefs [s_undo s; s_redo s] in
      let progress := mkCompactionEventProgress
        (mkCompactionProgress id 0 0 (PieceCount (s_tree s)) 0 (cr_JournalCheckpointed result) false) false 0 0 in
      let '(k, store, rw) := rewriteContext (Some ctx) k (s_undoStore s) refs create remove in
      let '(progress, s) := fold_left (fun st report => compaction_report report.1 report.2 st) (rw_reports rw) (progress, s) in
      let s := set_undoStore store s in
      let '(s, pieces, committed) :=
        match rw_mapping rw with
        | None => (s, cr_Pieces result, cr_Committed result)
        | Some mapping =>
          let s := set_redo (remapHistoryRefs mapping (s_redo s)) (set_undo (remapHistoryRefs mapping (s_undo s)) s) in
          let '(tree, pieces) := Store.Compact (s_tree s) in
          (set_tree tree s, pieces, true)
        end in
      let result := mkCompactionResult id (metadataLocked s) pieces before (undo_bytes store)
                      (cr_JournalCheckpointed result) committed in
      (compaction_finish result (rw_error rw) (progress, s), id, k, (result, rw_error rw))
    end
  end.
End Compaction.

(** ** The references of the stacks *)

Lemma op_ref_elem r h : r ∈ op_ref h <-> r = ho_insert h /\ 0 < ref_length r.
Proof.
  unfold op_ref. destruct (Z.ltb_spec 0 (ref_length (ho_insert h))); rewrite ?list_elem_of_singleton, ?elem_of_nil; naive_solver lia.
Qed.

Lemma op_refs_elem r hs : r ∈ flat_map op_ref hs <-> r ∈ op_refs hs /\ 0 < ref_length r.
Proof.
  induction hs as [|h hs IH]; cbn; [rewrite !elem_of_nil; tauto|].
  rewrite elem_of_app, elem_of_cons, IH, op_ref_elem. tauto.
Qed.

Lemma entry_refs_elem r entries :
  r ∈ flat_map (fun entry => flat_map op_ref (he_forward entry) ++ flat_map op_ref (he_inverse entry)) entries <->
  r ∈ stack_refs entries /\ 0 < ref_length r.
Proof.
  induction entries as [|e entries IH]; [cbn; rewrite !elem_of_nil; tauto|].
  change (stack_refs (e :: entries)) with (entry_refs e ++ stack_refs entries). cbn [flat_map]. unfold entry_refs.
  rewrite !elem_of_app, IH, !op_refs_elem. tauto.
Qed.

(** What is collected: the references with a text. *)
Lemma collect_elem r undo redo : r ∈ collectHistoryRefs [undo; redo] <-> r ∈ stack_refs (undo ++ redo) /\ 0 < ref_length r.
Proof.
  unfold collectHistoryRefs. cbn [flat_map]. rewrite app_nil_r, elem_of_app, !entry_refs_elem, stack_refs_app, elem_of_app. tauto.
Qed.

(** ** Following a relocation *)

Section Moved.
Context (us us' : option undoStore) (m : gmap textRef textRef) (refs : list textRef).
Hypothesis moved : forall ref text, ref ∈ refs -> 0 < ref_length ref -> keeps us ref text ->
  exists ref', m !! ref = Some ref' /\ keeps us' ref' text.

Lemma remap_hist_op h op : (0 < ref_length (ho_insert h) -> ho_insert h ∈ refs) -> hist_op us h op -> hist_op us' (remap_op m h) op.
Proof using moved.
  intros Hin (H1 & H2 & Hk). unfold remap_op. destruct (Z.ltb_spec 0 (ref_length (ho_insert h))) as [Hl|Hl].
  - destruct (moved _ _ (Hin Hl) Hl Hk) as (ref' & -> & Hk'). by split_and!.
  - split_and!; [done..|]. revert Hk. unfold keeps. destruct (Z.eqb_spec (ref_length (ho_insert h)) 0) as [_|Hne]; [done|].
    destruct us as [u|]; [|done]. intros [(_ & ? & _) _]. lia.
Qed.

Lemma remap_hist_ops hs ops :
  (forall r, r ∈ op_refs hs -> 0 < ref_length r -> r ∈ refs) -> Forall2 (hist_op us) hs ops -> Forall2 (hist_op us') (map (remap_op m) hs) ops.
Proof using moved.
  intros Hin H. induction H as [|h op hs ops Hh _ IH]; constructor.
  - apply remap_hist_op; [|done]. apply Hin. left.
  - apply IH. intros r Hr. apply Hin. by right.
Qed.

Lemma remap_entry_ok before e after :
  (forall r, r ∈ entry_refs e -> 0 < ref_length r -> r ∈ refs) -> entry_ok us before e after ->
  entry_ok us' before (mkHistoryEntry (map (remap_op m) (he_forward e)) (map (remap_op m) (he_inverse e))) after.
Proof using moved.
  intros Hin (fwd & inv & Hf & Hi & H). exists fwd, inv. cbn [he_forward he_inverse].
  split; [apply remap_hist_ops; [|done]|split; [apply remap_hist_ops; [|done]|done]];
    intros r Hr; apply Hin; unfold entry_refs; apply elem_of_app; auto.
Qed.

Lemma remap_snoc stack e :
  remapHistoryRefs m (stack ++ [e]) =
  remapHistoryRefs m stack ++ [mkHistoryEntry (map (remap_op m) (he_forward e)) (map (remap_op m) (he_inverse e))].
Proof using. unfold remapHistoryRefs. by rewrite map_app. Qed.

Lemma remap_undo_path past stack doc :
  (forall r, r ∈ stack_refs stack -> 0 < ref_length r -> r ∈ refs) -> undo_path us past stack doc ->
  undo_path us' past (remapHistoryRefs m stack) doc.
Proof using moved.
  intros Hin H. induction H as [|past stack before e doc He _ IH]; [constructor|]. rewrite remap_snoc.
  constructor; [apply remap_entry_ok; [|done]|apply IH]; intros r Hr; apply Hin; rewrite stack_refs_snoc; apply elem_of_app; auto.
Qed.

Lemma remap_redo_path future stack doc :
  (forall r, r ∈ stack_refs stack -> 0 < ref_length r -> r ∈ refs) -> redo_path us future stack doc ->
  redo_path us' future (remapHistoryRefs m stack) doc.
Proof using moved.
  intros Hin H. induction H as [|future stack e after doc He _ IH]; [constructor|]. rewrite remap_snoc.
  constructor; [apply remap_entry_ok; [|done]|apply IH]; intros r Hr; apply Hin; rewrite stack_refs_snoc; apply elem_of_app; auto.
Qed.
End Moved.

(** The texts of the remapped stacks. *)
Lemma remap_refs_elem m r' stack :
  r' ∈ stack_refs (remapHistoryRefs m stack) -> 0 < ref_length r' ->
  exists r, r ∈ stack_refs stack /\ 0 < ref_length r /\ r' = match m !! r with Some x => x | None => zeroRef end.
Proof.
  intros (e' & He' & Hr')%stack_refs_elem Hl. apply list_elem_of_In, in_map_iff in He' as (e & <- & He).
  assert (exists h, (h ∈ he_forward e \/ h ∈ he_inverse e) /\ r' = ho_insert (remap_op m h)) as (h & Hh & E).
  { unfold entry_refs, op_refs in Hr'. cbn [he_forward he_inverse] in Hr'. rewrite !map_map in Hr'.
    apply elem_of_app in Hr' as [H|H]; apply list_elem_of_In, in_map_iff in H as (h & <- & Hh); exists h;
      apply list_elem_of_In in Hh; auto. }
  assert (0 < ref_length (ho_insert h)) as Hpos.
  { rewrite E in Hl. unfold remap_op in Hl. by destruct (Z.ltb_spec 0 (ref_length (ho_insert h))); [|cbn in Hl]. }
  exists (ho_insert h). split; [|split; [done|]].
  - apply stack_refs_elem. exists e. split; [by apply list_elem_of_In|]. unfold entry_refs, op_refs. apply elem_of_app.
    destruct Hh as [Hh|Hh]; [left|right]; apply list_elem_of_In, in_map, list_elem_of_In, Hh.
  - rewrite E. unfold remap_op. by rewrite (proj2 (Z.ltb_lt _ _) Hpos).
Qed.

(** A rewrite of the store, for the stacks of a session. *)
Record relocated (us us' : option undoStore) (m : gmap textRef textRef) (refs : list textRef) : Prop := mkRelocated {
  rl_store : store_ok us';
  rl_bytes : undo_bytes us' <= undo_bytes us;
  rl_moved : forall ref text, ref ∈ refs -> 0 < ref_length ref -> keeps us ref text ->
    exists ref', m !! ref = Some ref' /\ keeps us' ref' text;
  rl_live : exists live, undo_bytes us' = total live /\ NoDup live /\ forall x, x ∈ live <-> x ∈ refs /\ 0 < ref_length x /\ us <> None;
  rl_apart : apart_images m }.

Lemma rewrite_relocated ctx k us refs create remove k' us' rw :
  store_ok us -> (forall new p, create = Ok (new, p) -> f_bytes new = [] /\ f_pos new = 0) ->
  (forall r1 r2, r1 ∈ refs -> r2 ∈ refs -> apart r1 r2) -> Forall (fun r => 0 < ref_length r) refs ->
  rewriteContext (Some ctx) k us refs create remove = (k', us', rw) ->
  (rw_mapping rw = None -> is_Some (rw_error rw) /\ store_ok us' /\ extends us us' /\ undo_bytes us' = undo_bytes us) /\
  (forall m, rw_mapping rw = Some m -> relocated us us' m refs) /\
  (rw_reports rw = [] \/ exists live hi, ascending live hi (rw_reports rw) /\ hi <= live).
Proof.
  intros Hok Hcreate Hap Hpos H. destruct us as [u|].
  - destruct (rewriteContext_keeps _ _ _ _ _ _ _ _ _ Hok Hcreate H) as [[Hf Hm Hr] _]. split_and!; [|clear Hf|exact Hr].
    + intros Hn. destruct (Hf Hn) as (He & u' & -> & Hok' & Hb & Hs & _). split_and!; [done|done| |by cbn].
      split; [cbn; by rewrite Hs|]. intros ref text. unfold keeps, us_text. by rewrite Hs, Hb.
    + intros m Hmap. destruct (Hm _ Hmap) as (u' & live & -> & Hrel & Hai & Hdom & Hopen & Hq & Hsz & Htot & Hnd & Hlive & Hw).
      destruct (Hw Hap) as [Hle Hok']. split; [done|done| | |done].
      * intros ref text Hin Hl Hk. unfold keeps in Hk. rewrite (proj2 (Z.eqb_neq (ref_length ref) 0)) in Hk by lia.
        destruct Hk as [Hin' Ht]. destruct (Hdom _ Hin ltac:(lia)) as [ref' Hr']. exists ref'. split; [done|].
        destruct (Hrel _ _ Hr') as (El & Hst & Et). unfold keeps. rewrite El, (proj2 (Z.eqb_neq (ref_length ref) 0)) by lia.
        split; [by rewrite Hsz|]. unfold us_text in *. by rewrite Et.
      * exists live. split_and!; [done|done|]. intros x. rewrite Hlive. rewrite List.Forall_forall in Hpos.
        split; [intros [Hx _]; split_and!; [done|by apply Hpos, list_elem_of_In|done]|intros (? & ? & _); split; [done|lia]].
  - unfold rewriteContext in H. cbn [poll] in H. destruct (ctx k) as [e|]; injection H as <- <- <-; cbn.
    { split_and!; [|done|by left]. intros _. split_and!; [by eexists|done|reflexivity|done]. }
    split_and!; [done| |right; exists 0, 0; split; [apply (asc_snoc 0 0 0 []); [constructor|done]|done]].
    intros m [= <-]. split; [done|done| |exists []; split_and!; [done|constructor|]|by intros ????; rewrite lookup_empty].
    + intros ref text _ Hl. unfold keeps. by rewrite (proj2 (Z.eqb_neq (ref_length ref) 0)) by lia.
    + intros x. rewrite elem_of_nil. tauto.
Qed.

(** ** The events of a compaction *)

(** The hub after a sequence of events. *)
Definition hub_run (takes : Z -> list nat) (events : list SessionEvent) (h : eventHub) : eventHub :=
  fold_left (publish takes) events h.

(** Only the hub changes. *)
Definition heard (takes : Z -> list nat) (events : list SessionEvent) (s : Session) : Session :=
  set_events (hub_run takes events (s_events s)) s.

Lemma heard_app takes es1 es2 s : heard takes es2 (heard takes es1 s) = heard takes (es1 ++ es2) s.
Proof. unfold heard, hub_run. rewrite fold_left_app. reflexivity. Qed.

Lemma publish_heard takes kind cause p s : compaction_publish takes kind cause p s = heard takes [compaction_event s kind (cep_value p) cause] s.
Proof. reflexivity. Qed.

(** The events up to the last report: the start and a strictly growing count. *)
Definition progress_events (s : Session) (value : CompactionProgress) (counts : list Z) : list SessionEvent :=
  compaction_event s EventCompactionStarted value None ::
  map (fun c => compaction_event s EventCompactionProgress (with_completed c value) None) counts.

Lemma with_completed_twice a b v : with_completed a (with_completed b v) = with_completed a v.
Proof. reflexivity. Qed.

Section Reports.
Context (takes : Z -> list nat) (s : Session) (value : CompactionProgress) (live : Z).

Definition rising (hi : Z) (counts : list Z) : Prop :=
  StronglySorted Z.lt counts /\ Forall (fun c => 0 <= c <= hi) counts.

Lemma rising_snoc hi c counts : rising hi counts -> hi <= c -> 0 <= c -> ~ In c counts -> rising c (counts ++ [c]).
Proof.
  intros [Hs Hb] Hc H0 Hn. rewrite List.Forall_forall in Hb. split.
  - induction counts as [|a counts IH]; cbn; [by repeat constructor|]. apply StronglySorted_inv in Hs as [Hs Ha].
    constructor.
    + apply IH; [done|intros x Hx; apply Hb; by right|intros Hx; apply Hn; by right].
    + apply List.Forall_app. split; [done|]. constructor; [|constructor].
      destruct (Hb a (or_introl eq_refl)). assert (a <> c); [|lia]. intros ->. apply Hn. by left.
  - apply List.Forall_app. split; [|constructor; [lia|constructor]]. apply List.Forall_forall. intros x Hx. destruct (Hb x Hx). lia.
Qed.

(** After some reports. *)
Record reported (hi : Z) (st : compactionEventProgress * Session) : Prop := mkReported {
  rd_started : cep_started st.1 = true;
  rd_value : with_completed 0 (cep_value st.1) = with_completed 0 (with_total live value);
  rd_completed : 0 <= cp_CompletedBytes (cep_value st.1) <= hi;
  rd_counts : exists counts, rising hi counts /\ (forall c, In c counts -> c <= cep_last st.1) /\ cep_last st.1 <= hi /\
    st.2 = heard takes (progress_events s (with_total live value) counts) s }.

Definition start_reports : compactionEventProgress * Session := (mkCompactionEventProgress value false 0 0, s).

Lemma report_step hi x st :
  reported hi st -> 0 <= hi <= x -> reported x (compaction_report takes x live st).
Proof.
  intros [H1 H2 _ (counts & Hr & Hlast & Hhi & Es)] Hx. destruct st as [p s1]. cbn [fst snd] in *. unfold compaction_report. rewrite H1.
  cbn [cep_started cep_value cep_last cep_next].
  assert (with_completed 0 (with_completed x (cep_value p)) = with_completed 0 (with_total live value)) as Hv by (by rewrite with_completed_twice).
  assert (with_completed x (cep_value p) = with_completed x (with_total live value)) as Hvx
    by (rewrite <-(with_completed_twice x 0 (cep_value p)), H2; done).
  assert (rising x counts) as Hr'.
  { destruct Hr as [Hs Hb]. split; [done|]. eapply List.Forall_impl; [|exact Hb]. cbn. lia. }
  destruct ((live =? 0) || (x <? cep_next p) || (x =? cep_last p)) eqn:Hskip.
  { split; cbn; [done|done|lia|]. exists counts. split_and!; [done|done|lia|done]. }
  apply orb_false_iff in Hskip as [_ Hne%Z.eqb_neq]. split; cbn; [done|done|lia|].
  exists (counts ++ [x]). split; [|split; [|split; [lia|]]].
  - apply (rising_snoc hi); [done|lia|lia|]. intros Hin%Hlast. lia.
  - intros c [Hc|[->|[]]]%in_app_or; [|done]. apply Hlast in Hc. lia.
  - rewrite publish_heard, Es, heard_app. unfold progress_events. rewrite map_app, Hvx. reflexivity.
Qed.

Lemma reports_spec reports : forall hi,
  ascending live hi reports -> reports <> [] -> cp_CompletedBytes value = 0 ->
  reported hi (fold_left (fun st report => compaction_report takes report.1 report.2 st) reports start_reports) /\ 0 <= hi.
Proof.
  intros hi H Hne H0. revert Hne. induction H as [|lo x l H IH Hle]; intros Hne; [done|]. rewrite fold_left_app. cbn [fold_left fst snd].
  destruct (decide (l = [])) as [->|Hl].
  - inversion H as [E|? ? l' ? ? E1]; [subst|by destruct l']. split; [|lia].
    cbn [fold_left]. unfold start_reports.
    set (p1 := mkCompactionEventProgress (with_total live value) true (-1) (Z.min compactionProgressQuantum live)).
    change (compaction_report takes x live (mkCompactionEventProgress value false 0 0, s))
      with (compaction_report takes x live (p1, compaction_publish takes EventCompactionStarted None p1 s)).
    assert (reported 0 (p1, compaction_publish takes EventCompactionStarted None p1 s)) as Hr.
    { split; cbn; [done|done|rewrite H0; lia|]. exists []. split_and!; [split; constructor|done|lia|]. done. }
    apply report_step with (hi := 0); [exact Hr|lia].
  - destruct (IH Hl) as [Hr Hlo]. split; [apply report_step with (hi := lo); [done|lia]|lia].
Qed.
End Reports.

(** ** What a compaction leaves *)

(** Everything but the tree, the stacks, the undo store and the hub is as before. *)
Definition compaction_frame (s s' : Session) : Prop :=
  s' = set_events (s_events s') (set_tree (s_tree s') (set_redo (s_redo s') (set_undo (s_undo s') (set_undoStore (s_undoStore s') s)))).

(** The events of a compaction: the start, a strictly growing count of the
    copied bytes, and the outcome with the piece counts. *)
Definition compaction_story (s s' : Session) (id before after : Z) (checkpointed committed : bool) (err : option error)
  (events : list SessionEvent) : Prop :=
  exists total completed counts,
    rising total counts /\ 0 <= completed <= total /\ (committed = true -> completed = total) /\
    events = progress_events s (mkCompactionProgress id 0 total before 0 checkpointed false) counts ++
      [compaction_event s' (match err with Some _ => EventCompactionFailed | None => EventCompacted end)
         (mkCompactionProgress id completed total before after checkpointed committed) err].

Lemma session_ok_heard base takes events s v : session_ok base s v -> session_ok base (heard takes events s) v.
Proof. intros [[] ? ? ? ? ? ?]. by split. Qed.

Lemma session_ok_reclaimed base s v us m :
  session_ok base s v -> relocated (s_undoStore s) us m (collectHistoryRefs [s_undo s; s_redo s]) ->
  session_ok base (set_tree (Store.Compact (s_tree s)).1
    (set_redo (remapHistoryRefs m (s_redo s)) (set_undo (remapHistoryRefs m (s_undo s)) (set_undoStore us s)))) v.
Proof.
  intros [[] Hh Hrev Hlen Hu Hr Hap] [Hok _ Hmoved _ Hai].
  pose proof (holds_Compact _ _ _ sb_text) as Hc. destruct (Store.Compact (s_tree s)) as [t' r]. destruct Hc as [Ht' _].
  assert (forall r stack, stack = s_undo s \/ stack = s_redo s -> r ∈ stack_refs stack -> 0 < ref_length r ->
    r ∈ collectHistoryRefs [s_undo s; s_redo s]) as Hin.
  { intros r0 stack Hs Hr0 Hl. apply collect_elem. split; [|done]. rewrite stack_refs_app, elem_of_app.
    destruct Hs as [-> | ->]; auto. }
  split; session_simpl; try done.
  - eapply remap_undo_path; [exact Hmoved| |done]. intros r0. apply (Hin r0 (s_undo s)). by left.
  - eapply remap_redo_path; [exact Hmoved| |done]. intros r0. apply (Hin r0 (s_redo s)). by right.
  - assert (forall r', r' ∈ stack_refs (remapHistoryRefs m (s_undo s) ++ remapHistoryRefs m (s_redo s)) -> 0 < ref_length r' ->
      exists r, m !! r = Some r') as Himg.
    { intros r' Hr' Hl. unfold remapHistoryRefs in Hr'. rewrite <-map_app in Hr'. fold (remapHistoryRefs m (s_undo s ++ s_redo s)) in Hr'.
      destruct (remap_refs_elem _ _ _ Hr' Hl) as (r0 & Hr0 & Hl0 & E). exists r0.
      assert (exists text, keeps (s_undoStore s) r0 text) as [text Hk].
      { rewrite stack_refs_app, elem_of_app in Hr0. pose proof (undo_path_kept _ _ _ _ Hu) as K1. pose proof (redo_path_kept _ _ _ _ Hr) as K2.
        rewrite Forall_forall in K1, K2. destruct Hr0; auto. }
      destruct (Hmoved r0 text) as (x & Ex & _); [by apply collect_elem|done|done|]. rewrite Ex in *. congruence. }
    intros r1 r2 H1 H2 Hl1 Hl2. destruct (Himg _ H1 Hl1) as [? ?], (Himg _ H2 Hl2) as [? ?]. eapply Hai; eauto.
Qed.

(** What [err] and the flag of the result mean for the session. *)
Definition compaction_outcome (s s' : Session) (out : CompactionResult) (err : option error) : Prop :=
  if cr_Committed out then
    no_mergeable (pieces (t_root (s_tree s'))) /\
    cr_Pieces out = mkCompactResult (PieceCount (s_tree s)) (PieceCount (s_tree s')) /\
    PieceCount (s_tree s') <= PieceCount (s_tree s) /\
    cr_UndoBytesBefore out = undo_bytes (s_undoStore s) /\ cr_UndoBytesAfter out = undo_bytes (s_undoStore s') /\
    cr_UndoBytesAfter out <= cr_UndoBytesBefore out /\
    exists live, cr_UndoBytesAfter out = total live /\ NoDup live /\
      forall x, x ∈ live <-> x ∈ collectHistoryRefs [s_undo s; s_redo s] /\ s_undoStore s <> None
  else is_Some err /\ s_undo s' = s_undo s /\ s_redo s' = s_redo s /\ s_tree s' = s_tree s.

(** The lock-held part refuses a closed, a faulted session and a dead context. *)
Definition compaction_refused (ctx : Context) (s : Session) (k : nat) : option error :=
  if s_closed s then Some document_ErrClosed else
  match s_fault s with Some fault => Some (errJoin document_ErrFaulted fault) | None => (poll (Some ctx) k).2 end.

Lemma heard_frame takes events s : compaction_frame s (heard takes events s).
Proof. by destruct s. Qed.

(** The part after the guards, for a rewrite that has reported. *)
Lemma compact_finish_spec base takes s v us rw m_or id ckpt live hi :
  session_ok base s v -> ascending live hi (rw_reports rw) -> hi <= live -> rw_reports rw <> [] ->
  m_or = rw_mapping rw ->
  (m_or = None -> is_Some (rw_error rw) /\ store_ok us /\ extends (s_undoStore s) us) ->
  (forall m, m_or = Some m -> relocated (s_undoStore s) us m (collectHistoryRefs [s_undo s; s_redo s])) ->
  let progress := mkCompactionEventProgress (mkCompactionProgress id 0 0 (PieceCount (s_tree s)) 0 ckpt false) false 0 0 in
  let '(progress, s1) := fold_left (fun st report => compaction_report takes report.1 report.2 st) (rw_reports rw) (progress, s) in
  let s1 := set_undoStore us s1 in
  let '(s2, pieces, committed) :=
    match m_or with
    | None => (s1, mkCompactResult 0 0, false)
    | Some mapping =>
      let s1 := set_redo (remapHistoryRefs mapping (s_redo s1)) (set_undo (remapHistoryRefs mapping (s_undo s1)) s1) in
      let '(tree, pieces) := Store.Compact (s_tree s1) in
      (set_tree tree s1, pieces, true)
    end in
  let out := mkCompactionResult id (metadataLocked s2) pieces (undo_bytes (s_undoStore s)) (undo_bytes us) ckpt committed in
  let s' := compaction_finish takes out (rw_error rw) (progress, s2) in
  session_ok base s' v /\ compaction_frame s s' /\ compaction_outcome s s' out (rw_error rw) /\
  exists events, s_events s' = hub_run takes events (s_events s) /\
    compaction_story s s' id (PieceCount (s_tree s)) (PieceCount (s_tree s')) ckpt committed (rw_error rw) events.
Proof.
  intros Hok Hasc Hhi Hne -> Hnone Hsome progress.
  destruct (reports_spec takes s (cep_value progress) live (rw_reports rw) hi Hasc Hne eq_refl) as [Hrep _].
  unfold start_reports in Hrep. change (mkCompactionEventProgress (cep_value progress) false 0 0) with progress in Hrep.
  destruct (fold_left _ (rw_reports rw) (progress, s)) as [p s1].
  destruct Hrep as [H1 H2 H3 (counts & Hrise & _ & _ & Es)]. cbn [fst snd] in *. subst s1.
  assert (cep_value p = with_completed (cp_CompletedBytes (cep_value p)) (with_total live (cep_value progress))) as Ev
    by (rewrite <-(with_completed_twice _ 0 (with_total live _)), <-H2; by destruct (cep_value p)).
  assert (rising live counts) as Hrise'.
  { destruct Hrise as [Hs Hb]. split; [done|]. eapply List.Forall_impl; [|exact Hb]. cbn. lia. }
  set (c := cp_CompletedBytes (cep_value p)) in *. set (s0 := heard takes _ s).
  assert (session_ok base s0 v) as Hok0 by (by apply session_ok_heard).
  destruct (rw_mapping rw) as [m|] eqn:Em.
  - pose proof (session_ok_reclaimed base s v us m Hok (Hsome m eq_refl)) as Hok2.
    pose proof (holds_Compact _ _ _ (sb_text _ _ _ (so_base _ _ _ Hok))) as Hc.
    change (s_tree (set_redo _ _)) with (s_tree s). destruct (Store.Compact (s_tree s)) as [t' pieces] eqn:Hcompact.
    cbn [fst] in Hok2. destruct Hc as (_ & Hnm & -> & Hle). unfold compaction_finish. rewrite H1.
    cbn [negb cr_Committed cr_Pieces AfterPieces]. rewrite publish_heard. 
    split; [apply session_ok_heard; exact (session_ok_heard base takes (progress_events s (with_total live (cep_value progress)) counts) _ v Hok2)|].
    split; [by destruct s|]. split.
    { destruct (Hsome m eq_refl) as [_ Hb _ (l & Hl1 & Hl2 & Hl3) _]. unfold compaction_outcome. cbn [cr_Committed].
      split_and!; [done|done|done|done|done|done|]. exists l. split_and!; [done|done|]. intros x. rewrite Hl3.
      split; [tauto|]. intros [Hx Hn]. split_and!; [done|by apply collect_elem in Hx as [_ ?]|done]. }
    eexists. split; [unfold s0, heard, hub_run; session_simpl; by rewrite <-fold_left_app|].
    exists live, live, counts. split; [exact Hrise'|split; [lia|split; [done|]]]. f_equal. f_equal. rewrite Ev. reflexivity.
  - destruct (Hnone eq_refl) as (Herr & Hus & Hx). unfold compaction_finish. rewrite H1. cbn [negb cr_Committed]. rewrite publish_heard.
    split; [by apply session_ok_heard, session_ok_set_undoStore|]. split; [by destruct s|].
    split; [split; [done|by destruct s]|].
    eexists. split; [unfold s0, heard, hub_run; session_simpl; by rewrite <-fold_left_app|].
    exists live, c, counts. split; [exact Hrise'|split; [lia|split; [done|]]]. f_equal. f_equal. rewrite Ev. reflexivity.
Qed.

Lemma copy_loop_reports fuel : forall ctx k dst src ref copied size live reports k' dst' src' reports' e,
  copy_loop fuel ctx k dst src ref copied size live reports = (k', dst', src', reports', e) -> exists tail, reports' = reports ++ tail.
Proof.
  induction fuel as [|fuel IH]; intros ctx k dst src ref copied size live reports k' dst' src' reports' e H;
    [injection H as _ _ _ <- _; exists []; by rewrite app_nil_r|]. cbn [copy_loop] in H.
  destruct (copied <? ref_length ref); [|injection H as _ _ _ <- _; exists []; by rewrite app_nil_r].
  destruct (poll (Some ctx) k) as [k1 [err|]]; [injection H as _ _ _ <- _; exists []; by rewrite app_nil_r|].
  destruct (file_ReadAt src _ _) as [src1 [buffer readErr]].
  destruct (_ <? zlen buffer); [injection H as _ _ _ <- _; exists []; by rewrite app_nil_r|].
  destruct (if 0 <? zlen buffer then _ else _) as [dst1 [written writeErr]].
  match type of H with context [reports ++ [?x]] => set (one := x) in H end.
  set (grown := if 0 <? zlen buffer then reports ++ [one] else reports) in H.
  assert (exists tail, grown = reports ++ tail) as [t0 Et] by (unfold grown; destruct (0 <? zlen buffer); [by eexists|exists []; by rewrite app_nil_r]).
  assert (forall k2, copy_loop fuel ctx k2 dst1 src1 ref (copied + written) size live grown = (k', dst', src', reports', e) ->
    exists tail, reports' = reports ++ tail) as Hrec.
  { intros k2 Hl. apply IH in Hl as [t1 ->]. rewrite Et, <-app_assoc. by eexists. }
  destruct writeErr; [injection H as _ _ _ <- _; rewrite Et; by eexists|].
  destruct (_ && negb (written =? zlen buffer)); [injection H as _ _ _ <- _; rewrite Et; by eexists|].
  destruct readErr as [re|].
  - destruct (errors_Is re io_EOF && _); [by eapply Hrec|]. injection H as _ _ _ <- _. rewrite Et. by eexists.
  - destruct ((zlen buffer =? 0) && _); [injection H as _ _ _ <- _; rewrite Et; by eexists|by eapply Hrec].
Qed.

Lemma copy_refs_reports ctx unique : forall k dst src mapping size live reports k' dst' src' reports' r,
  copy_refs ctx k dst src unique mapping size live reports = (k', dst', src', reports', r) -> exists tail, reports' = reports ++ tail.
Proof.
  induction unique as [|ref unique IH]; intros k dst src mapping size live reports k' dst' src' reports' r H; cbn [copy_refs] in H.
  { injection H as _ _ _ <- _. exists []. by rewrite app_nil_r. }
  destruct (copyUndoReference _ _ _ _ _ _ _ _) as [[[[k1 dst1] src1] reports1] e] eqn:Hc.
  apply copy_loop_reports in Hc as [t1 ->]. destruct e; [injection H as _ _ _ <- _; by eexists|].
  apply IH in H as [t2 ->]. rewrite <-app_assoc. by eexists.
Qed.

(** A rewrite that succeeds has reported. *)
Lemma rewriteContext_reported ctx k us refs create remove k' us' rw :
  rewriteContext ctx k us refs create remove = (k', us', rw) -> rw_mapping rw <> None -> rw_reports rw <> [].
Proof.
  unfold rewriteContext. destruct ctx as [ctx|]; [|by intros [= _ _ <-]].
  destruct (poll (Some ctx) k) as [k1 [e|]]; [by intros [= _ _ <-]|]. destruct us as [u|]; [|by intros [= _ _ <-]].
  destruct (us_file u) as [f|]; [|by intros [= _ _ <-]].
  destruct (unique_refs _ _ _ _ _ _ _) as [k2 [[unique live]|e]]; [|by intros [= _ _ <-]]. cbv zeta.
  destruct (zlen unique =? 0).
  - destruct (poll (Some ctx) k2) as [k3 [e|]]; [by intros [= _ _ <-]|].
    destruct (file_Truncate f 0) as [f1 [e|]]; by intros [= _ _ <-].
  - destruct create as [[new path]|e]; [|by intros [= _ _ <-]].
    destruct (copy_refs _ _ _ _ _ _ _ _ _) as [[[[k3 new'] f'] reports] [[m size]|e]] eqn:Hc; [|by intros [= _ _ <-]].
    apply copy_refs_reports in Hc as [tail ->].
    destruct (poll (Some ctx) k3) as [k4 [e|]]; [by intros [= _ _ <-]|]. destruct (file_Close f'). intros [= _ _ <-] _. done.
Qed.

Lemma collect_in_store s v base :
  session_ok base s v -> forall r, r ∈ collectHistoryRefs [s_undo s; s_redo s] -> exists u, s_undoStore s = Some u /\ in_store (us_size u) r.
Proof.
  intros Hok r [Hr Hl]%collect_elem. rewrite stack_refs_app, elem_of_app in Hr.
  pose proof (undo_path_kept _ _ _ _ (so_undo _ _ _ Hok)) as K1. pose proof (redo_path_kept _ _ _ _ (so_redo _ _ _ Hok)) as K2.
  rewrite Forall_forall in K1, K2.
  assert (exists text, keeps (s_undoStore s) r text) as [text Hk] by (destruct Hr; auto).
  unfold keeps in Hk. rewrite (proj2 (Z.eqb_neq (ref_length r) 0)) in Hk by lia.
  destruct (s_undoStore s) as [u|]; [|done]. exists u. split; [done|apply Hk].
Qed.

Lemma collect_apart s v base :
  session_ok base s v -> forall r1 r2, r1 ∈ collectHistoryRefs [s_undo s; s_redo s] -> r2 ∈ collectHistoryRefs [s_undo s; s_redo s] -> apart r1 r2.
Proof. intros Hok r1 r2 [H1 L1]%collect_elem [H2 L2]%collect_elem. by apply (so_apart _ _ _ Hok). Qed.

(** Without faults and cancellation the store of a session is rewritten. *)
Lemma rewrite_happens base ctx k s v create remove k' us rw :
  session_ok base s v -> (forall new p, create = Ok (new, p) -> f_bytes new = [] /\ f_pos new = 0) ->
  rewriteContext (Some ctx) k (s_undoStore s) (collectHistoryRefs [s_undo s; s_redo s]) create remove = (k', us, rw) ->
  steady ctx -> store_clean (s_undoStore s) -> (exists new p, create = Ok (new, p) /\ f_faults new = []) -> rw_mapping rw <> None.
Proof.
  intros Hok Hcreate Hrw. intros Hst Hc (new & p & Ec & Hnf) Hm. pose proof (sb_store _ _ _ (so_base _ _ _ Hok)) as Hus.
    destruct (s_undoStore s) as [u|] eqn:Eu.
    - destruct (us_open _ Hus) as [f Hf].
      destruct (rewriteContext_keeps _ _ _ _ _ _ _ _ _ Hus Hcreate Hrw) as [_ Hgo].
      destruct (Hgo ctx f new p eq_refl Hst Hf (Hc _ Hf) Ec Hnf) as [m Em]; [|by apply (collect_apart s v base)|congruence].
      apply Forall_forall. intros r Hr. destruct (collect_in_store _ _ _ Hok r Hr) as (u' & Eu' & ?). rewrite Eu in Eu'. by injection Eu' as ->.
    - cbn [rewriteContext poll] in Hrw. rewrite Hst in Hrw. injection Hrw as _ _ <-. done.
Qed.

Lemma indexed_frame start xs s s' doc : indexed start xs s doc -> compaction_frame s s' -> indexed start xs s' doc.
Proof. intros [] E. rewrite E. by split. Qed.

(** ** Properties *)

(** C24. Compaction reclaims without being seen.  Whatever the faults of the undo
    file, of its replacement and of their creation and removal, and wherever the
    context dies, the session after [Compact] has the text, every version behind
    and ahead, revision, dirty state, journal and pending edits it had; the only
    fields that change are the tree, the stacks, the undo store and the hub.
    Either nothing was rewritten, an error says so and tree and stacks are the
    old ones, or the tree has no two mergeable neighbours and no more pieces than
    before, and the undo store shrank to exactly the texts the stacks refer to.
    Guards are the only other refusals.  The hub hears nothing, or one start, a
    strictly growing count of copied bytes within the total, and the outcome with
    the piece counts; and without faults and cancellation the rewrite happens. *)
Theorem compaction_correct base takes ctx create remove checkpointed md s id k s' id' k' out err v :
  let result := mkCompactionResult 0 md (mkCompactResult 0 0) 0 0 checkpointed false in
  session_ok base s v -> (forall new p, create = Ok (new, p) -> f_bytes new = [] /\ f_pos new = 0) ->
  compact_locked takes ctx create remove result s id k = (s', id', k', (out, err)) ->
  session_ok base s' v /\ compaction_frame s s' /\
  (forall start xs, indexed start xs s (v_now v) -> indexed start xs s' (v_now v)) /\
  match compaction_refused ctx s k with
  | Some e => s' = s /\ id' = id /\ out = result /\ err = Some e
  | None =>
    id' = next_operation_id id /\ cr_OperationID out = id' /\ cr_JournalCheckpointed out = checkpointed /\
    cr_Metadata out = metadataLocked s' /\ compaction_outcome s s' out err /\
    (exists events, s_events s' = hub_run takes events (s_events s) /\
       ((events = [] /\ cr_Committed out = false) \/
        compaction_story s s' id' (PieceCount (s_tree s)) (PieceCount (s_tree s')) checkpointed (cr_Committed out) err events)) /\
    (steady ctx -> store_clean (s_undoStore s) -> (exists new p, create = Ok (new, p) /\ f_faults new = []) -> cr_Committed out = true)
  end.
Proof.
  intros result Hok Hcreate H.
  enough (session_ok base s' v /\ compaction_frame s s' /\
    match compaction_refused ctx s k with
    | Some e => s' = s /\ id' = id /\ out = result /\ err = Some e
    | None => _
    end) as (H1 & H2 & H3) by (split; [done|split; [done|split; [intros; by eapply indexed_frame|exact H3]]]).
  unfold compact_locked in H. unfold compaction_refused.
  destruct (s_closed s); [injection H as <- <- _ <- <-; split; [done|split; [by destruct s|done]]|].
  destruct (s_fault s); [injection H as <- <- _ <- <-; split; [done|split; [by destruct s|done]]|].
  destruct (poll (Some ctx) k) as [k1 [e|]]; cbn [snd]; [injection H as <- <- _ <- <-; split; [done|split; [by destruct s|done]]|].
  destruct (rewriteContext _ _ _ _ _ _) as [[k2 us] rw] eqn:Hrw.
  assert (Forall (fun r => 0 < ref_length r) (collectHistoryRefs [s_undo s; s_redo s])) as Hpos
    by (apply Forall_forall; intros r Hr; by apply collect_elem in Hr as [_ ?]).
  destruct (rewrite_relocated _ _ _ _ _ _ _ _ _ (sb_store _ _ _ (so_base _ _ _ Hok)) Hcreate (collect_apart _ _ _ Hok) Hpos Hrw)
    as (Hnone & Hsome & Hrep).
  pose proof (rewriteContext_reported _ _ _ _ _ _ _ _ _ Hrw) as Hrd.
  pose proof (rewrite_happens _ _ _ _ _ _ _ _ _ _ Hok Hcreate Hrw) as Hclean.
  change (cr_Pieces result) with (mkCompactResult 0 0) in H. change (cr_Committed result) with false in H.
  change (cr_JournalCheckpointed result) with checkpointed in H.
  destruct (decide (rw_reports rw = [])) as [Hnil|Hne].
  - assert (rw_mapping rw = None) as Em by (destruct (rw_mapping rw) eqn:E; [|done]; by destruct Hrd).
    rewrite Hnil, Em in H. cbn in H. injection H as <- <- _ <- <-. destruct (Hnone Em) as (Herr & Hus & Hx & _).
    split; [by apply session_ok_set_undoStore|]. split; [by destruct s|]. split_and!; try done.
    + exists []. split; [done|by left].
    + intros Hst Hc Hnew. by destruct (Hclean Hst Hc Hnew).
  - destruct Hrep as [?|(live & hi & Hasc & Hhi)]; [done|].
    pose proof (compact_finish_spec base takes s v us rw _ (next_operation_id id) checkpointed live hi Hok Hasc Hhi Hne eq_refl
      (fun E => let '(conj A (conj B (conj C _))) := Hnone E in conj A (conj B C)) Hsome) as Hfin.
    cbv zeta in Hfin.
    destruct (fold_left _ (rw_reports rw) _) as [p s1]. destruct (rw_mapping rw) as [m|] eqn:Em.
    + destruct (Store.Compact (s_tree _)) as [t pieces]. injection H as <- <- _ <- <-.
      destruct Hfin as (? & ? & ? & events & ? & ?). split; [done|]. split; [done|]. cbn [cr_OperationID cr_JournalCheckpointed cr_Metadata cr_Committed].
      split; [done|]. split; [done|]. split; [done|]. split; [|split; [done|split; [exists events; split; [done|by right]|done]]].
      unfold compaction_finish. by destruct (negb _).
    + injection H as <- <- _ <- <-.
      destruct Hfin as (? & ? & ? & events & ? & ?). split; [done|]. split; [done|]. cbn [cr_OperationID cr_JournalCheckpointed cr_Metadata cr_Committed].
      split; [done|]. split; [done|]. split; [done|]. split; [|split; [done|split; [exists events; split; [done|by right]|]]].
      * unfold compaction_finish. by destruct (negb _).
      * intros Hst Hc Hnew. by destruct (Hclean Hst Hc Hnew).
Qed.

Definition ex_compacted := compact_locked (fun _ => []) ex_calm_context (Ok (newFile [], [])) None zeroCompactionResult
  (ex_after [ex_replace]) 0 0%nat.

Lemma compaction_correct_witness :
  exists s' k' out, ex_compacted = (s', 1, k', (out, None)) /\ cr_Committed out = true /\
    session_ok ex_abc s' (mkVersions [ex_abc] ex_abxy []) /\ cr_UndoBytesAfter out <= cr_UndoBytesBefore out.
Proof.
  destruct ex_compacted as [[[s' id'] k'] [out err]] eqn:E. unfold ex_compacted in E.
  destruct (compaction_correct ex_abc (fun _ => []) ex_calm_context (Ok (newFile [], [])) None false zeroMetadata
    (ex_after [ex_replace]) 0 0%nat s' id' k' out err _ ex_replaced_ok ltac:(intros new p Hp; injection Hp as <- <-; split; reflexivity) E)
    as (Hok & _ & _ & Hc).
  change (compaction_refused ex_calm_context (ex_after [ex_replace]) 0%nat) with (@None error) in Hc. cbv beta iota in Hc.
  destruct Hc as (-> & _ & _ & _ & Ho & _ & Hgo).
  assert (cr_Committed out = true) as Hcm.
  { apply Hgo; [intros j; reflexivity|vm_compute; intros f Hf; injection Hf as <-; reflexivity|exists (newFile []), []; split; reflexivity]. }
  assert (err = None) as -> by (apply (f_equal (fun x => snd (snd x))) in E; vm_compute in E; symmetry; exact E).
  exists s', k', out. split; [reflexivity|]. split; [exact Hcm|]. split; [exact Hok|].
  unfold compaction_outcome in Ho. rewrite Hcm in Ho. apply Ho.
Defined.
