(* ===== verification/Save.v ===== *)
(** * document/save: crash-safe replacement of a document

    [atomicChecked] (atomic.go), the two platforms' [replaceFile]
    (replace_other.go, replace_windows.go), and the progress writer a save streams
    through (persistence_events.go).  The operations the code takes as tables of
    functions act on a state [W]; the system tables act on any state that has a
    disk.  A disk is a directory of inodes, a fault script and the trace of every
    state it went through, so that what a crash at any moment leaves is part of the
    model. *)

From Stdlib Require Import ZArith Lia List.
From stdpp Require Import base list numbers gmap sorting.
From S2P Require Import Prelude GoLib Store File.
#[local] Open Scope Z_scope.

(** ** Paths *)

#[export] Instance byte_eq_dec : EqDecision byte.
Proof. solve_decision. Defined.
#[export] Program Instance byte_countable : Countable byte :=
  {| encode b := encode (Byte.to_N b); decode p := n ← decode p; Byte.of_N n |}.
Next Obligation. intros b. cbn. rewrite decode_encode. cbn. apply Byte.of_to_N. Qed.

Abbreviation FilePath := (list byte).

(** [errors.As(err, *DurabilityError)] *)
Fixpoint as_durability (e : error) : bool :=
  match e with
  | errDurability _ => true
  | errJoin e1 e2 => as_durability e1 || as_durability e2
  | errWrap _ e1 | errRecoveryOpen _ _ _ e1 => as_durability e1
  | _ => false
  end.

(** ** The tables of operations *)

(** The interface [temporaryFile]: its methods change the state [W]. *)
Record temporaryFile (W : Type) := mkTemporaryFile {
  tf_Write : Writer W; tf_Name : FilePath; tf_Chmod : Z -> W -> W * option error;
  tf_Sync : W -> W * option error; tf_Close : W -> W * option error }.
Arguments tf_Write {W}. Arguments tf_Name {W}. Arguments tf_Chmod {W}. Arguments tf_Sync {W}. Arguments tf_Close {W}.

Record atomicOperations (W : Type) := mkAtomicOperations {
  ao_createTemp : FilePath -> list byte -> W -> W * result (temporaryFile W);
  ao_remove : FilePath -> W -> W * option error;
  ao_replace : FilePath -> FilePath -> W -> W * option error }.
Arguments ao_createTemp {W}. Arguments ao_remove {W}. Arguments ao_replace {W}.

Record directoryHandle (W : Type) := mkDirectoryHandle {
  dh_Sync : W -> W * option error; dh_Close : W -> W * option error }.
Arguments dh_Sync {W}. Arguments dh_Close {W}.

Record replaceOperations (W : Type) := mkReplaceOperations {
  ro_rename : FilePath -> FilePath -> W -> W * option error;
  ro_openDir : FilePath -> W -> W * result (directoryHandle W) }.
Arguments ro_rename {W}. Arguments ro_openDir {W}.

(** The content callback [func(io.Writer) (int64, error)] and the final check. *)
Definition ContentWriter (W : Type) : Type := Writer W -> W -> W * (Z * option error).
Definition Check (W : Type) : Type := W -> W * option error.

(** The pattern [".docengine-save-*.tmp"]. *)
Definition tempPattern : list byte :=
  map z2b [46;100;111;99;101;110;103;105;110;101;45;115;97;118;101;45;42;46;116;109;112].

(** [os.FileMode.Perm] *)
Definition Perm (mode : Z) : Z := Z.land mode 511.

Section Operations.
Context {W : Type}.
(* [filepath.Dir] *)
Variable Dir : FilePath -> FilePath.

(** ** atomic.go *)

(** Write the prefix: skipped when it is empty. *)
Definition write_prefix (temp : temporaryFile W) (prefix : list byte) (w : W) : W * (Z * option error) :=
  if 0 <? zlen prefix then
    let '(w, (n, err)) := tf_Write temp w prefix in
    match err with
    | Some e => (w, (n, Some e))
    | None => (w, (n, if n =? zlen prefix then None else Some io_ErrShortWrite))
    end
  else (w, (0, None)).

(** From [temp.Chmod] to the return: the state, whether the replacement is
    committed, the count and the error. *)
Definition atomic_body (operations : atomicOperations W) (temp : temporaryFile W) (path : FilePath) (mode : Z)
  (prefix : list byte) (writeContent : ContentWriter W) (beforeReplace : option (Check W)) (w : W)
  : W * bool * (Z * option error) :=
  let '(w, err) := tf_Chmod temp (Perm mode) w in
  match err with Some e => (w, false, (0, Some e)) | None =>
  let '(w, (total, err)) := write_prefix temp prefix w in
  match err with Some e => (w, false, (total, Some e)) | None =>
  let '(w, (n, err)) := writeContent (tf_Write temp) w in
  let total := total ⊞ n in
  match err with Some e => (w, false, (total, Some e)) | None =>
  let '(w, err) := tf_Sync temp w in
  match err with Some e => (w, false, (total, Some e)) | None =>
  let '(w, err) := tf_Close temp w in
  match err with Some e => (w, false, (total, Some e)) | None =>
  let '(w, err) := match beforeReplace with Some check => check w | None => (w, None) end in
  match err with Some e => (w, false, (total, Some e)) | None =>
  let '(w, err) := ao_replace operations (tf_Name temp) path w in
  match err with
  | Some e => (w, as_durability e, (total, Some (errWrap 40 e)))
  | None => (w, true, (total, None))
  end end end end end end end.

Definition atomicChecked (path : FilePath) (mode : Z) (prefix : list byte) (writeContent : ContentWriter W)
  (beforeReplace : option (Check W)) (operations : atomicOperations W) (w : W) : W * (Z * option error) :=
  let '(w, temp) := ao_createTemp operations (Dir path) tempPattern w in
  match temp with
  | Err e => (w, (0, Some e))
  | Ok temp =>
    let '(w, committed, out) := atomic_body operations temp path mode prefix writeContent beforeReplace w in
    let w := (tf_Close temp w).1 in
    (if committed then w else (ao_remove operations (tf_Name temp) w).1, out)
  end.

(** ** replace_other.go *)

Definition syncParentWithOperations (path : FilePath) (operations : replaceOperations W) (w : W) : W * option error :=
  let '(w, directory) := ro_openDir operations (Dir path) w in
  match directory with
  | Err e => (w, Some e)
  | Ok directory =>
    let '(w, syncErr) := dh_Sync directory w in
    let '(w, closeErr) := dh_Close directory w in
    (w, errors_Join syncErr closeErr)
  end.

Definition replaceFileWithOperations (from to : FilePath) (operations : replaceOperations W) (w : W) : W * option error :=
  let '(w, err) := ro_rename operations from to w in
  match err with
  | Some e => (w, Some e)
  | None =>
    let '(w, err) := syncParentWithOperations to operations w in
    (w, match err with Some e => Some (errDurability e) | None => None end)
  end.

Definition syncParent (operations : replaceOperations W) (path : FilePath) (w : W) : W * option error :=
  let '(w, err) := syncParentWithOperations path operations w in
  (w, match err with Some e => Some (errDurability e) | None => None end).

(** ** replace_windows.go *)

Definition replaceFileAttempts : Z := 8.
Definition replaceFileInitialDelay : Z := 1000000.

(** [syscall.Errno] values: [Errno(0)], [syscall.EINVAL] of Windows, and the
    transient errors of [ReplaceFileW]. *)
Definition errno (n : Z) : error := errOS n.
Definition windows_EINVAL : error := errno 536870951.
Definition isRetryableReplaceError (err : error) : bool :=
  errors_Is err (errno 32) || errors_Is err (errno 33) || errors_Is err (errno 1175) ||
  errors_Is err (errno 1176) || errors_Is err (errno 1177).

(* [call] with its pointers applied: the result and the error of [ReplaceFileW] *)
Variable call : W -> W * (Z * error).
(* [time.Sleep] *)
Variable wait : Z -> W -> W.

(** The retry loop; [attempt] counts from 0 and the loop stops at the last one. *)
Fixpoint replace_loop (fuel : nat) (attempt delay : Z) (w : W) : W * option error :=
  match fuel with
  | O => (w, None)
  | S fuel =>
    let '(w, (result, callErr)) := call w in
    if negb (result =? 0) then (w, None) else
    let callErr := if decide (callErr = errno 0) then windows_EINVAL else callErr in
    if (attempt =? replaceFileAttempts - 1) || negb (isRetryableReplaceError callErr) then (w, Some callErr) else
    replace_loop fuel (attempt + 1) (delay * 2) (wait delay w)
  end.

(* [windows.UTF16PtrFromString] *)
Variable UTF16PtrFromString : FilePath -> result (list Z).

Definition replaceFileWithCallAndWait (from to : FilePath) (w : W) : W * option error :=
  match UTF16PtrFromString from with
  | Err e => (w, Some e)
  | Ok _ =>
    match UTF16PtrFromString to with
    | Err e => (w, Some e)
    | Ok _ => replace_loop (Z.to_nat replaceFileAttempts) 0 replaceFileInitialDelay w
    end
  end.
End Operations.

(** ** The progress of a save (persistence_events.go) *)

Definition saveProgressQuantum : Z := 4194304.

Record saveProgressWriter := mkProgressWriter {
  pw_prefix : Z; pw_total : Z; pw_written : Z; pw_last : Z; pw_next : Z }.

Definition newSaveProgressWriter (prefix total : Z) : saveProgressWriter :=
  let next := prefix ⊞ saveProgressQuantum in
  mkProgressWriter prefix total 0 (-1) (if total <? next then total else next).

Section Progress.
Context {W : Type} (destination : Writer W) (report : Z -> W -> W).

Definition progress_publish (completed : Z) (st : saveProgressWriter * W) : saveProgressWriter * W :=
  let '(pw, w) := st in
  if completed =? pw_last pw then (pw, w)
  else (mkProgressWriter (pw_prefix pw) (pw_total pw) (pw_written pw) completed (pw_next pw), report completed w).

Definition progress_Write : Writer (saveProgressWriter * W) := fun st value =>
  let '(pw, w) := st in
  let '(w, (n, err)) := destination w value in
  let pw := mkProgressWriter (pw_prefix pw) (pw_total pw) (pw_written pw ⊞ n) (pw_last pw) (pw_next pw) in
  let completed := pw_prefix pw ⊞ pw_written pw in
  let completed := if pw_total pw <? completed then pw_total pw else completed in
  let '(pw, w) :=
    if (pw_next pw <=? completed) || isSome err then
      let '(pw, w) := progress_publish completed (pw, w) in
      let next := completed ⊞ saveProgressQuantum in
      (mkProgressWriter (pw_prefix pw) (pw_total pw) (pw_written pw) (pw_last pw)
         (if pw_total pw <? next then pw_total pw else next), w)
    else (pw, w) in
  (pw, w, (n, err)).

Definition progress_finish (st : saveProgressWriter * W) : saveProgressWriter * W :=
  progress_publish (pw_total st.1) st.
End Progress.

(** ** The system's disk *)

(** [i_synced]: the content is on stable storage. *)
Record inode := mkInode { i_bytes : list byte; i_mode : Z; i_synced : bool }.
Abbreviation directory := (gmap FilePath inode).

(** [w_synced]: the directories synced so far, latest first. *)
Record world := mkWorld { w_files : directory; w_faults : list fault; w_trace : list directory; w_synced : list FilePath }.

(** The states that have a disk. *)
Class Disk (W : Type) := { disk : W -> world; set_disk : world -> W -> W }.
Class DiskLaws (W : Type) `{Disk W} : Prop := {
  disk_set d w : disk (set_disk d w) = d;
  set_disk_set d d' w : set_disk d (set_disk d' w) = set_disk d w;
  set_disk_disk w : set_disk (disk w) w = w }.
#[export] Instance world_disk : Disk world := {| disk w := w; set_disk d _ := d |}.
#[export] Instance world_disk_laws : DiskLaws world.
Proof. by split. Qed.

(** The fault of the coming system call. *)
Definition syscall (d : world) : fault * world :=
  match w_faults d with
  | [] => (NoFault, d)
  | x :: xs => (x, mkWorld (w_files d) xs (w_trace d) (w_synced d))
  end.
(** Every change of the directory passes through here. *)
Definition set_files (m : directory) (d : world) : world := mkWorld m (w_faults d) (m :: w_trace d) (w_synced d).

Section System.
Context {W : Type} `{Disk W}.
Variable Dir : FilePath -> FilePath.
(* the unused name [os.CreateTemp(dir, pattern)] picks among the present ones *)
Variable tempName : FilePath -> list byte -> gset FilePath -> FilePath.

(** A call that only fails or succeeds. *)
Definition sys_plain (w : W) : W * option error :=
  let '(x, d) := syscall (disk w) in
  (set_disk d w, match x with Fault _ e => Some e | _ => None end).

Definition sys_update (name : FilePath) (f : inode -> inode) (w : W) : W * option error :=
  let '(x, d) := syscall (disk w) in
  match x with
  | Fault _ e => (set_disk d w, Some e)
  | _ => (set_disk (set_files (alter f name (w_files d)) d) w, None)
  end.

(** [os.File.Write]: a write that fails has not written everything. *)
Definition sys_Write (name : FilePath) : Writer W := fun w p =>
  let '(x, d) := syscall (disk w) in
  let '(p, e) := match x with
                 | NoFault => (p, None)
                 | Fault n e => (ztake (Z.min n (zlen p - 1)) p, Some e)
                 | ShortWrite n => (ztake n p, None)
                 end in
  (set_disk (set_files (alter (fun i => mkInode (i_bytes i ++ p) (i_mode i) false) name (w_files d)) d) w,
   (zlen p, e)).

Definition sys_temp (name : FilePath) : temporaryFile W :=
  mkTemporaryFile W (sys_Write name) name
    (fun mode => sys_update name (fun i => mkInode (i_bytes i) mode (i_synced i)))
    (sys_update name (fun i => mkInode (i_bytes i) (i_mode i) true))
    sys_plain.

Definition sys_createTemp (dir : FilePath) (pattern : list byte) (w : W) : W * result (temporaryFile W) :=
  let '(x, d) := syscall (disk w) in
  match x with
  | Fault _ e => (set_disk d w, Err e)
  | _ =>
    let name := tempName dir pattern (dom (w_files d)) in
    (set_disk (set_files (<[name := mkInode [] 384 false]> (w_files d)) d) w, Ok (sys_temp name))
  end.

Definition sys_remove (path : FilePath) (w : W) : W * option error :=
  let '(x, d) := syscall (disk w) in
  match x with
  | Fault _ e => (set_disk d w, Some e)
  | _ => (set_disk (set_files (delete path (w_files d)) d) w, None)
  end.

Definition sys_rename (from to : FilePath) (w : W) : W * option error :=
  let '(x, d) := syscall (disk w) in
  match x, w_files d !! from with
  | Fault _ e, _ => (set_disk d w, Some e)
  | _, None => (set_disk d w, Some os_ErrNotExist)
  | _, Some i => (set_disk (set_files (<[to := i]> (delete from (w_files d))) d) w, None)
  end.

Definition sys_syncDir (path : FilePath) (w : W) : W * option error :=
  let '(x, d) := syscall (disk w) in
  match x with
  | Fault _ e => (set_disk d w, Some e)
  | _ => (set_disk (mkWorld (w_files d) (w_faults d) (w_trace d) (path :: w_synced d)) w, None)
  end.

Definition sys_openDir (path : FilePath) (w : W) : W * result (directoryHandle W) :=
  let '(w, err) := sys_plain w in
  (w, match err with Some e => Err e | None => Ok (mkDirectoryHandle W (sys_syncDir path) sys_plain) end).

Definition systemReplaceOperations : replaceOperations W := mkReplaceOperations W sys_rename sys_openDir.

Definition replaceFile (from to : FilePath) (w : W) : W * option error :=
  replaceFileWithOperations Dir from to systemReplaceOperations w.

Definition systemAtomicOperations : atomicOperations W :=
  mkAtomicOperations W sys_createTemp sys_remove replaceFile.

Definition AtomicChecked (path : FilePath) (mode : Z) (prefix : list byte) (writeContent : ContentWriter W)
  (beforeReplace : option (Check W)) (w : W) : W * (Z * option error) :=
  atomicChecked Dir path mode prefix writeContent beforeReplace systemAtomicOperations w.

Definition Atomic (path : FilePath) (mode : Z) (prefix : list byte) (writeContent : ContentWriter W) (w : W)
  : W * (Z * option error) := AtomicChecked path mode prefix writeContent None w.

Definition SyncParent (path : FilePath) (w : W) : W * option error := syncParent Dir systemReplaceOperations path w.
End System.

(** * What the operations do *)

(** ** The system's calls

    [evolves Q w w']: from [w] to [w'] the directory went only through states
    with [Q], and system calls used up a part of the fault script. *)
Record evolves `{Disk W} (Q : directory -> Prop) (w w' : W) : Prop := {
  ev_trace : exists hist, w_trace (disk w') = hist ++ w_trace (disk w) /\ Forall Q hist;
  ev_faults : exists used, w_faults (disk w) = used ++ w_faults (disk w') }.

(** Nothing changes but the disk. *)
Definition only_disk `{Disk W} (w w' : W) : Prop := exists d, w' = set_disk d w.

(** No directory change at all. *)
Record quiet `{Disk W} (w w' : W) : Prop := {
  qu_files : w_files (disk w') = w_files (disk w);
  qu_trace : w_trace (disk w') = w_trace (disk w);
  qu_faults : exists used, w_faults (disk w) = used ++ w_faults (disk w') }.

(** The errors of the system are not the package's own [DurabilityError]. *)
Definition plain_error (e : option error) : Prop := forall e', e = Some e' -> as_durability e' = false.
Definition plain_fault (x : fault) : Prop := match x with Fault _ e => as_durability e = false | _ => True end.
Definition plain_disk `{Disk W} (w : W) : Prop := Forall plain_fault (w_faults (disk w)).

Section Steps.
Context {W : Type} `{Disk W} `{!DiskLaws W}.
Implicit Types (w : W) (m fs : directory).

Lemma evolves_trans Q w1 w2 w3 : evolves Q w1 w2 -> evolves Q w2 w3 -> evolves Q w1 w3.
Proof.
  intros [(h1 & E1 & H1) (u1 & F1)] [(h2 & E2 & H2) (u2 & F2)]. split.
  - exists (h2 ++ h1). rewrite E2, E1, app_assoc. split; [done|]. by apply Forall_app.
  - exists (u1 ++ u2). by rewrite F1, F2, app_assoc.
Qed.
Lemma quiet_evolves Q w1 w2 : quiet w1 w2 -> evolves Q w1 w2.
Proof. intros [_ E F]. split; [|done]. by exists []. Qed.
Lemma quiet_refl w : quiet w w.
Proof. split; [done|done|by exists []]. Qed.
Lemma quiet_trans w1 w2 w3 : quiet w1 w2 -> quiet w2 w3 -> quiet w1 w3.
Proof.
  intros [E1 T1 (u1 & F1)] [E2 T2 (u2 & F2)]. split; [congruence..|]. exists (u1 ++ u2). by rewrite F1, F2, app_assoc.
Qed.
Lemma evolves_no_fault Q w1 w2 : evolves Q w1 w2 -> w_faults (disk w1) = [] -> w_faults (disk w2) = [].
Proof. intros [_ (u & F)] E. rewrite E in F. by symmetry in F; apply app_nil in F as [_ ?]. Qed.
Lemma evolves_mono (Q Q' : directory -> Prop) w1 w2 :
  (forall m, Q m -> Q' m) -> evolves Q w1 w2 -> evolves Q' w1 w2.
Proof. intros HQ [(h & E & HF) F]. split; [|done]. exists h. split; [done|]. eapply Forall_impl; eauto. Qed.
Lemma plain_evolves Q w1 w2 : evolves Q w1 w2 -> plain_disk w1 -> plain_disk w2.
Proof. intros [_ (u & F)]. unfold plain_disk. rewrite F. by intros [_ ?]%Forall_app. Qed.

Lemma syscall_spec w x d :
  syscall (disk w) = (x, d) -> w_files d = w_files (disk w) /\ w_trace d = w_trace (disk w) /\
  (exists used, w_faults (disk w) = used ++ w_faults d) /\
  (plain_disk w -> plain_fault x) /\ (w_faults (disk w) = [] -> x = NoFault).
Proof.
  unfold syscall, plain_disk. destruct (w_faults (disk w)) as [|y ys] eqn:E; intros [= <- <-]; cbn.
  - split_and!; try done. exists []. by rewrite E.
  - split_and!; try done; [by exists [y]|]. by intros [? _]%Forall_cons.
Qed.

(** A call that fails, and one that succeeds with an update of the directory. *)
Lemma call_failed w x d : syscall (disk w) = (x, d) -> quiet w (set_disk d w).
Proof. intros (?&?&?&_)%syscall_spec. split; by rewrite disk_set. Qed.
Lemma call_changed Q w x d m :
  syscall (disk w) = (x, d) -> Q m -> w_files (disk (set_disk (set_files m d) w)) = m /\
  evolves Q w (set_disk (set_files m d) w).
Proof.
  intros (?&Ht&(u&Hu)&_)%syscall_spec HQ. rewrite disk_set. split; [done|]. split; rewrite disk_set; cbn; rewrite ?Ht.
  - exists [m]. split; [done|]. by constructor.
  - by exists u.
Qed.

(** The system's calls touch nothing but the disk. *)
Lemma only_disk_trans w1 w2 w3 : only_disk w1 w2 -> only_disk w2 w3 -> only_disk w1 w3.
Proof. intros [d1 ->] [d2 ->]. exists d2. apply set_disk_set. Qed.
Lemma sys_plain_only w : only_disk w (sys_plain w).1.
Proof. unfold sys_plain. destruct (syscall (disk w)). by eexists. Qed.
Lemma sys_update_only name f w : only_disk w (sys_update name f w).1.
Proof. unfold sys_update. destruct (syscall (disk w)) as [[] d]; by eexists. Qed.
Lemma sys_Write_only name w p : only_disk w (sys_Write name w p).1.
Proof. unfold sys_Write. destruct (syscall (disk w)) as [[] d]; by eexists. Qed.
Lemma sys_remove_only name w : only_disk w (sys_remove name w).1.
Proof. unfold sys_remove. destruct (syscall (disk w)) as [[] d]; by eexists. Qed.
Lemma sys_rename_only from to w : only_disk w (sys_rename from to w).1.
Proof. unfold sys_rename. destruct (syscall (disk w)) as [[] d], (w_files d !! from); by eexists. Qed.
Lemma sys_createTemp_only tempName dir pattern w : only_disk w (sys_createTemp tempName dir pattern w).1.
Proof. unfold sys_createTemp. destruct (syscall (disk w)) as [[] d]; by eexists. Qed.
Lemma sys_syncDir_only dir w : only_disk w (sys_syncDir dir w).1.
Proof. unfold sys_syncDir. destruct (syscall (disk w)) as [[] d]; by eexists. Qed.
Lemma syncParent_only Dir path w : only_disk w (syncParentWithOperations Dir path systemReplaceOperations w).1.
Proof.
  unfold syncParentWithOperations. cbn [systemReplaceOperations ro_openDir]. unfold sys_openDir.
  pose proof (sys_plain_only w) as H1. destruct (sys_plain w) as [w1 [e1|]]; [exact H1|]. cbn [dh_Sync dh_Close].
  pose proof (sys_syncDir_only (Dir path) w1) as H2. destruct (sys_syncDir (Dir path) w1) as [w2 e2]. pose proof (sys_plain_only w2) as H3.
  destruct (sys_plain w2) as [w3 e3]. eapply only_disk_trans; [exact H1|]. by eapply only_disk_trans.
Qed.
Lemma replaceFile_only Dir from to w : only_disk w (replaceFile Dir from to w).1.
Proof.
  unfold replaceFile, replaceFileWithOperations. cbn [systemReplaceOperations ro_rename]. pose proof (sys_rename_only from to w) as H1.
  destruct (sys_rename from to w) as [w1 [e1|]]; [exact H1|]. pose proof (syncParent_only Dir to w1) as H2.
  unfold systemReplaceOperations in H2. destruct (syncParentWithOperations _ _ _ _) as [w2 e2]. by eapply only_disk_trans.
Qed.

Lemma sys_plain_spec w w' e :
  sys_plain w = (w', e) -> quiet w w' /\ (plain_disk w -> plain_error e) /\ (w_faults (disk w) = [] -> e = None).
Proof.
  unfold sys_plain. destruct (syscall (disk w)) as [x d] eqn:E. pose proof (call_failed _ _ _ E).
  destruct (syscall_spec _ _ _ E) as (_&_&_&Hp&Hn). intros [= <- <-]. split_and!; [done| |].
  - intros Hw e' He. specialize (Hp Hw). by destruct x; simplify_eq.
  - intros Hf. by rewrite (Hn Hf).
Qed.

Lemma sys_update_spec Q name f w w' e :
  sys_update name f w = (w', e) -> Q (alter f name (w_files (disk w))) ->
  evolves Q w w' /\ (plain_disk w -> plain_error e) /\ (w_faults (disk w) = [] -> e = None) /\
  w_files (disk w') = (if e then w_files (disk w) else alter f name (w_files (disk w))).
Proof.
  unfold sys_update. destruct (syscall (disk w)) as [x d] eqn:E. intros Hs HQ.
  destruct (syscall_spec _ _ _ E) as (Hf&_&_&Hp&Hn). rewrite <-Hf in HQ |- *. pose proof (call_failed _ _ _ E) as Hq.
  destruct (call_changed Q _ _ _ _ E HQ) as [Hc1 Hc2].
  destruct x; injection Hs as <- <-; (split_and!; [first [done|by apply quiet_evolves]| | |]); try done;
    try (by intros Hw e' [= <-]; apply Hp); try (by intros Hw; specialize (Hn Hw)); rewrite Hf; apply Hq.
Qed.

Lemma sys_Write_spec Q name w p w' n e :
  sys_Write name w p = (w', (n, e)) ->
  (forall q, Q (alter (fun i => mkInode (i_bytes i ++ q) (i_mode i) false) name (w_files (disk w)))) ->
  evolves Q w w' /\ (plain_disk w -> plain_error e) /\ 0 <= n <= zlen p /\
  (w_faults (disk w) = [] -> e = None /\ n = zlen p) /\
  w_files (disk w') = alter (fun i => mkInode (i_bytes i ++ ztake n p) (i_mode i) false) name (w_files (disk w)).
Proof.
  unfold sys_Write. destruct (syscall (disk w)) as [x d] eqn:E. intros Hs HQ.
  destruct (syscall_spec _ _ _ E) as (Hf&_&_&Hp&Hn). rewrite <-Hf in HQ |- *.
  assert (exists k, (match x with NoFault => (p, None) | Fault n e => (ztake (Z.min n (zlen p - 1)) p, Some e)
                     | ShortWrite n => (ztake n p, None) end) = (ztake k p, e) /\ (x = NoFault -> e = None /\ ztake k p = p)) as (k & Hk & Hx).
  { destruct x; injection Hs as <- <- <-; [exists (zlen p); by rewrite ztake_all by lia|by eexists..]. }
  rewrite Hk in Hs. injection Hs as <- <-. destruct (call_changed Q _ _ _ _ E (HQ (ztake k p))) as [Hc1 Hc2].
  assert (ztake (zlen (ztake k p)) p = ztake k p) as Hz.
  { rewrite zlen_ztake. destruct (decide (k <= 0)) as [?|?]; [rewrite !ztake_0 by (pose proof (zlen_nonneg p); lia); done|].
    destruct (decide (k <= zlen p)); [f_equal; lia|]. by rewrite !ztake_all by lia. }
  rewrite Hz. split_and!; try done.
  - intros Hw e' ->. specialize (Hp Hw). destruct x; naive_solver.
  - apply zlen_nonneg.
  - rewrite zlen_ztake. pose proof (zlen_nonneg p). lia.
  - intros Hw. by destruct (Hx (Hn Hw)) as [-> ->].
Qed.

Lemma sys_Write_strict name w p w' n e : sys_Write name w p = (w', (n, Some e)) -> 0 < zlen p -> n < zlen p.
Proof.
  unfold sys_Write. destruct (syscall (disk w)) as [[] d]; intros [= _ <-] Hp; rewrite zlen_ztake; lia.
Qed.

#[export] Instance sys_Write_ok name : WriterOk (@sys_Write W _ name).
Proof.
  intros w p w' n e Hw. by destruct (sys_Write_spec (fun _ => True) _ _ _ _ _ _ Hw) as (_&_&?&_).
Qed.

Lemma sys_createTemp_spec (tempName : FilePath -> list byte -> gset FilePath -> FilePath) (dir : FilePath) (pattern : list byte) w w' (r : result (temporaryFile W)) (Q : directory -> Prop) :
  let name := tempName dir pattern (dom (w_files (disk w))) in
  let m := <[name := mkInode [] 384 false]> (w_files (disk w)) in
  sys_createTemp tempName dir pattern w = (w', r) -> Q m ->
  evolves Q w w' /\
  ((exists e, r = Err e /\ w_files (disk w') = w_files (disk w) /\ (plain_disk w -> as_durability e = false) /\
     w_faults (disk w) <> []) \/
   (r = Ok (sys_temp name) /\ w_files (disk w') = m)).
Proof.
  intros name m. unfold sys_createTemp. destruct (syscall (disk w)) as [x d] eqn:E. intros Hs HQ.
  destruct (syscall_spec _ _ _ E) as (Hf&_&_&Hp&Hn). unfold m, name in *. rewrite <-Hf in HQ |- *.
  pose proof (call_failed _ _ _ E) as Hq. destruct (call_changed Q _ _ _ _ E HQ) as [Hc1 Hc2].
  destruct x; injection Hs as <- <-; (split; [first [done|by apply quiet_evolves]|]); [right|left|right]; try done.
  eexists. split_and!; [done|rewrite Hf; apply Hq|done|]. intros Hw. by specialize (Hn Hw).
Qed.

Lemma sys_remove_spec Q name w w' e :
  sys_remove name w = (w', e) -> Q (delete name (w_files (disk w))) ->
  evolves Q w w' /\ (w_faults (disk w) = [] -> e = None) /\
  w_files (disk w') = (if e then w_files (disk w) else delete name (w_files (disk w))).
Proof.
  unfold sys_remove. destruct (syscall (disk w)) as [x d] eqn:E. intros Hs HQ.
  destruct (syscall_spec _ _ _ E) as (Hf&_&_&Hp&Hn). rewrite <-Hf in HQ |- *. pose proof (call_failed _ _ _ E) as Hq.
  destruct (call_changed Q _ _ _ _ E HQ) as [Hc1 Hc2].
  destruct x; injection Hs as <- <-; (split_and!; [first [done|by apply quiet_evolves]| |]); try done;
    try (by intros Hw; specialize (Hn Hw)); rewrite Hf; apply Hq.
Qed.

Lemma syscall_synced w x d : syscall (disk w) = (x, d) -> w_synced d = w_synced (disk w).
Proof. unfold syscall. destruct (w_faults (disk w)); by intros [= _ <-]. Qed.
Lemma sys_plain_synced w w' e : sys_plain w = (w', e) -> w_synced (disk w') = w_synced (disk w).
Proof.
  unfold sys_plain. destruct (syscall (disk w)) as [x d] eqn:E. intros [= <- _]. rewrite disk_set. by eapply syscall_synced.
Qed.

Lemma sys_syncDir_spec dir w w' e :
  sys_syncDir dir w = (w', e) -> quiet w w' /\ (plain_disk w -> plain_error e) /\ (w_faults (disk w) = [] -> e = None) /\
  (e = None -> w_synced (disk w') = dir :: w_synced (disk w)).
Proof.
  unfold sys_syncDir. destruct (syscall (disk w)) as [x d] eqn:E. pose proof (call_failed _ _ _ E) as Hq.
  destruct (syscall_spec _ _ _ E) as (Hf&Ht&Hu&Hp&Hn). pose proof (syscall_synced _ _ _ E) as Hs. intros Hx.
  assert (forall (d' : world), w_files d' = w_files d -> w_trace d' = w_trace d -> w_faults d' = w_faults d -> quiet w (set_disk d' w)) as Hquiet.
  { intros d' E1 E2 E3. split; rewrite disk_set, ?E1, ?E2, ?E3; done. }
  destruct x as [|k e'|k]; injection Hx as <- <-; (split_and!; [first [exact Hq|by apply Hquiet]|intros Hw e0 He0|intros Hw; specialize (Hn Hw)|]); try done.
  - intros _. rewrite disk_set. cbn. by rewrite Hs.
  - injection He0 as <-. by apply Hp.
  - intros _. rewrite disk_set. cbn. by rewrite Hs.
Qed.

Lemma syncParent_synced Dir path w w' :
  syncParentWithOperations Dir path systemReplaceOperations w = (w', None) -> w_synced (disk w') = Dir path :: w_synced (disk w).
Proof.
  unfold syncParentWithOperations, systemReplaceOperations, sys_openDir. cbn.
  destruct (sys_plain w) as [w1 e1] eqn:E1. destruct e1 as [e1|]; [done|]. cbn.
  destruct (sys_syncDir (Dir path) w1) as [w2 e2] eqn:E2. destruct (sys_syncDir_spec _ _ _ _ E2) as (_ & _ & _ & Hs).
  destruct (sys_plain w2) as [w3 e3] eqn:E3. intros Hx. apply pair_equal_spec in Hx as [<- Hx]. assert (e2 = None) as -> by (by destruct e2, e3).
  by rewrite (sys_plain_synced _ _ _ E3), (Hs eq_refl), (sys_plain_synced _ _ _ E1).
Qed.

Lemma syncParent_quiet Dir path w w' e :
  syncParentWithOperations Dir path systemReplaceOperations w = (w', e) -> quiet w w' /\ (w_faults (disk w) = [] -> e = None).
Proof.
  unfold syncParentWithOperations, systemReplaceOperations, sys_openDir. cbn.
  destruct (sys_plain w) as [w1 e1] eqn:E1. destruct (sys_plain_spec _ _ _ E1) as (Hq1 & _ & Hn1).
  destruct e1 as [e1|]; [intros [= <- <-]; by split|]. cbn.
  destruct (sys_syncDir (Dir path) w1) as [w2 e2] eqn:E2. destruct (sys_syncDir_spec _ _ _ _ E2) as (Hq2 & _ & Hn2 & _).
  destruct (sys_plain w2) as [w3 e3] eqn:E3. destruct (sys_plain_spec _ _ _ E3) as (Hq3 & _ & Hn3).
  intros [= <- <-]. split; [eauto using quiet_trans|]. intros Hf. pose proof (quiet_evolves (fun _ => True)) as Hqe.
  rewrite Hn2, Hn3 by eauto using evolves_no_fault. done.
Qed.

(** Renaming over the target: it happens entirely or not at all, and a
    [DurabilityError] means that it happened. *)
Lemma replaceFile_spec Dir Q from to i w w' e :
  replaceFile Dir from to w = (w', e) -> w_files (disk w) !! from = Some i ->
  Q (<[to := i]> (delete from (w_files (disk w)))) -> plain_disk w ->
  evolves Q w w' /\ (w_faults (disk w) = [] -> e = None) /\
  match e with
  | Some e' => if as_durability e' then w_files (disk w') = <[to := i]> (delete from (w_files (disk w)))
               else w_files (disk w') = w_files (disk w)
  | None => w_files (disk w') = <[to := i]> (delete from (w_files (disk w)))
  end.
Proof.
  unfold replaceFile, replaceFileWithOperations. cbn [systemReplaceOperations ro_rename]. intros Hr Hi HQ Hplain.
  destruct (sys_rename from to w) as [w1 e1] eqn:E1. unfold sys_rename in E1.
  destruct (syscall (disk w)) as [x d] eqn:E. destruct (syscall_spec _ _ _ E) as (Hf&_&_&Hp&Hn).
  pose proof (call_failed _ _ _ E) as Hq. rewrite <-Hf in HQ, Hi |- *. rewrite Hi in E1.
  destruct (call_changed Q _ _ _ _ E HQ) as [Hc1 Hc2].
  assert ((exists n e, x = Fault n e) \/ ~ exists n e, x = Fault n e) as [(n & e2 & ->)|Hx]
    by (destruct x; [right; naive_solver|left; eauto|right; naive_solver]); cbn in E1.
  - injection E1 as <- <-. injection Hr as <- <-. specialize (Hp Hplain). cbn in Hp. rewrite Hp.
    split_and!; [by apply quiet_evolves|by intros Hw; specialize (Hn Hw)|]. rewrite Hf. apply Hq.
  - assert (w1 = set_disk (set_files (<[to := i]> (delete from (w_files d))) d) w /\ e1 = None) as [-> ->].
    { destruct x; try (by injection E1 as <- <-). destruct Hx. eauto. }
    destruct (syncParentWithOperations _ _ _ _) as [w3 e3] eqn:E3.
    destruct (syncParent_quiet _ _ _ _ _ E3) as [Hq3 Hn3]. injection Hr as <- <-.
    assert (w_files (disk w3) = <[to := i]> (delete from (w_files d))) as Hw3 by (rewrite <-Hc1; apply Hq3).
    split_and!; [eapply evolves_trans; [done|by apply quiet_evolves]| |by destruct e3].
    intros Hw. by rewrite Hn3 by (by eapply evolves_no_fault).
Qed.
End Steps.

(** ** The content that reaches the temporary file *)

(** From [w] to [w'] exactly [bs] was appended to the file [name], besides steps
    that leave the directory alone. *)
Inductive appended `{Disk W} (name : FilePath) : W -> list byte -> W -> Prop :=
| appended_quiet w w' : quiet w w' -> appended name w [] w'
| appended_write w p w' n e : sys_Write name w p = (w', (n, e)) -> appended name w (ztake n p) w'
| appended_trans w1 bs w2 cs w3 : appended name w1 bs w2 -> appended name w2 cs w3 -> appended name w1 (bs ++ cs) w3.

(** A content callback that streams [content]: whatever happens it appends to the
    file it is given and reports how much, and without an error that is [content]. *)
Definition streams `{Disk W} (name : FilePath) (content : list byte) (writeContent : ContentWriter W) : Prop :=
  forall w w' n e, writeContent (sys_Write name) w = (w', (n, e)) -> plain_disk w ->
  exists bs, appended name w bs w' /\ n = zlen bs /\ plain_error e /\ (e = None -> bs = content).

(** A final check that does not touch the directory. *)
Definition harmless `{Disk W} (beforeReplace : option (Check W)) : Prop :=
  forall check w w' e, beforeReplace = Some check -> check w = (w', e) -> plain_disk w -> quiet w w' /\ plain_error e.

Lemma fed_appended `{Disk W} name (w w' : W) bs : fed (sys_Write name) w bs w' -> appended name w bs w'.
Proof.
  induction 1 as [w|w p w1 n e rest w2 Hw _ IH]; [apply appended_quiet, quiet_refl|].
  eapply appended_trans; [by eapply appended_write|done].
Qed.

(** What holds of the state around the disk while a save runs: [Start] until the
    content is written, [Ready] then, [Checked] after the final check; [Stopped]
    after a callback failed.  [fs] is the directory without the temporary file. *)
Record phases `{Disk W} (fs : directory) (name : FilePath) (content : list byte) (writeContent : ContentWriter W) (beforeReplace : option (Check W))
  (Start Ready Checked Stopped : W -> Prop) : Prop := mkPhases {
  ph_start w d : Start w -> Start (set_disk d w);
  ph_ready w d : Ready w -> Ready (set_disk d w);
  ph_checked w d : Checked w -> Checked (set_disk d w);
  ph_stopped w d : Stopped w -> Stopped (set_disk d w);
  ph_stream w w' n e : Start w -> plain_disk w -> writeContent (sys_Write name) w = (w', (n, e)) ->
    exists bs, appended name w bs w' /\ n = zlen bs /\ plain_error e /\
      match e with None => bs = content /\ Ready w' | Some _ => Stopped w' end;
  ph_check w w' e : Ready w -> plain_disk w -> delete name (w_files (disk w)) = fs ->
    match beforeReplace with Some check => check w | None => (w, None) end = (w', e) ->
    quiet w w' /\ plain_error e /\ match e with None => Checked w' | Some _ => Stopped w' end }.

Section Atomic.
Context {W : Type} `{Disk W} `{!DiskLaws W}.
Variables (Dir : FilePath -> FilePath) (tempName : FilePath -> list byte -> gset FilePath -> FilePath).
Variables (fs : directory) (name path : FilePath) (new : inode).
Hypothesis (Hname : fs !! name = None) (Hpath : path <> name).
Context (content : list byte) (writeContent : ContentWriter W) (beforeReplace : option (Check W)) (Start Ready Checked Stopped : W -> Prop).
Hypothesis Hphases : phases fs name content writeContent beforeReplace Start Ready Checked Stopped.
Implicit Types (w : W).

(** The directory with the temporary file in it, and every directory a save goes
    through: the temporary file comes and goes, the target changes at once. *)
Definition holding (i : inode) w : Prop := w_files (disk w) = <[name := i]> fs.
Definition passing (m : directory) : Prop := delete name m = fs \/ m = <[path := new]> fs.

Lemma passing_temp i : passing (<[name := i]> fs).
Proof. left. by rewrite delete_insert_id. Qed.
Lemma passing_alter f i w : holding i w -> passing (alter f name (w_files (disk w))).
Proof. intros ->. rewrite alter_insert_eq. apply passing_temp. Qed.

Lemma holding_update f i w w' e :
  sys_update name f w = (w', e) -> holding i w -> plain_disk w ->
  evolves passing w w' /\ plain_error e /\ (w_faults (disk w) = [] -> e = None) /\
  holding (if e then i else f i) w'.
Proof.
  intros Hs Hh Hp. destruct (sys_update_spec passing _ _ _ _ _ Hs) as (He&Hpe&Hn&Hf); [by eapply passing_alter|].
  split_and!; [done|by apply Hpe|done|]. unfold holding. rewrite Hf. destruct e; [done|]. by rewrite Hh, alter_insert_eq.
Qed.

Lemma holding_appended w bs w' :
  appended name w bs w' -> forall i, holding i w ->
  evolves passing w w' /\ exists b, holding (mkInode (i_bytes i ++ bs) (i_mode i) b) w'.
Proof.
  induction 1 as [w w' Hq|w p w' n e Hw|w1 bs w2 cs w3 _ IH1 _ IH2]; intros i Hh.
  - split; [by apply quiet_evolves|]. exists (i_synced i). rewrite app_nil_r. unfold holding.
    rewrite (qu_files _ _ Hq), Hh. by destruct i.
  - destruct (sys_Write_spec passing _ _ _ _ _ _ Hw) as (He&_&_&_&Hf); [intros q; by eapply passing_alter|].
    split; [done|]. exists false. unfold holding. by rewrite Hf, Hh, alter_insert_eq.
  - destruct (IH1 _ Hh) as (He1 & b1 & Hh1). destruct (IH2 _ Hh1) as (He2 & b2 & Hh2).
    split; [by eapply evolves_trans|]. exists b2. by rewrite app_assoc.
Qed.

Lemma holding_quiet i w w' : quiet w w' -> holding i w -> holding i w'.
Proof. intros Hq. unfold holding. by rewrite (qu_files _ _ Hq). Qed.

(** A save that did not replace the target stopped in one of its phases. *)
Definition undone w : Prop := Start w \/ Ready w \/ Checked w \/ Stopped w.
Lemma undone_disk w w' : undone w -> only_disk w w' -> undone w'.
Proof using Hphases. intros [|[|[|]]] [d ->]; unfold undone; destruct Hphases; eauto. Qed.

(** What the body leaves behind. *)
Definition body_end (total : Z) w w' (committed : bool) (out : Z * option error) : Prop :=
  evolves passing w w' /\
  if committed then w_files (disk w') = <[path := new]> fs /\ out.1 = total /\ Checked w' /\ forall e, out.2 = Some e -> as_durability e = true
  else undone w' /\ (exists i, holding i w') /\ exists e, out.2 = Some e /\ as_durability e = false.

Lemma body_stop total w w' n e i :
  evolves passing w w' -> holding i w' -> plain_error (Some e) -> undone w' -> body_end total w w' false (n, Some e).
Proof using. intros He Hh Hp Hu. split; [done|]. split; [done|]. split; [by exists i|]. exists e. split; [done|]. by apply Hp. Qed.

Lemma body_trans total w1 w2 w3 c out : evolves passing w1 w2 -> body_end total w2 w3 c out -> body_end total w1 w3 c out.
Proof. intros He [He2 Hb]. split; [by eapply evolves_trans|done]. Qed.

Lemma write_prefix_spec w w' prefix n e :
  write_prefix (sys_temp name) prefix w = (w', (n, e)) -> plain_disk w ->
  exists bs, appended name w bs w' /\ plain_error e /\ (e = None -> bs = prefix /\ n = zlen prefix) /\
  (w_faults (disk w) = [] -> e = None).
Proof.
  unfold write_prefix. intros Hw Hp. destruct (Z.ltb_spec 0 (zlen prefix)).
  2:{ injection Hw as <- <- <-. exists []. pose proof (zlen_nonneg prefix).
      rewrite (zlen_zero prefix) by lia. split_and!; [apply appended_quiet, quiet_refl|done|done|done]. }
  cbn [tf_Write sys_temp] in Hw. destruct (sys_Write name w prefix) as [w1 [k err]] eqn:E.
  destruct (sys_Write_spec (fun _ => True) _ _ _ _ _ _ E) as (_&Hpe&Hk&Hn&_); [done|]. specialize (Hpe Hp).
  exists (ztake k prefix). destruct err as [err|].
  { injection Hw as <- <- <-. split_and!; [by eapply appended_write|done|done|]. intros Hf. by destruct (Hn Hf). }
  injection Hw as <- <- <-. split_and!; [by eapply appended_write| | |].
  - intros e'. by destruct (k =? zlen prefix); intros [= <-].
  - destruct (Z.eqb_spec k (zlen prefix)) as [->|]; [|done]. by rewrite ztake_all.
  - intros Hf. destruct (Hn Hf) as [_ ->]. by rewrite Z.eqb_refl.
Qed.

(** Every early return of the body, and its end. *)
Lemma body_spec mode prefix w w' c out b :
  new = mkInode (prefix ++ content) (Perm mode) true ->
  zlen prefix + zlen content <= maxInt64 -> plain_disk w -> holding (mkInode [] b false) w ->
  Start w ->
  atomic_body (systemAtomicOperations Dir tempName) (sys_temp name) path mode prefix writeContent beforeReplace w =
    (w', c, out) ->
  body_end (zlen (prefix ++ content)) w w' c out.
Proof.
  intros Hnew Hmax Hp Hh Hstart. pose proof Hphases as [Ps Pr Pc Pst Pstream Pcheck]. unfold atomic_body. cbn [tf_Chmod tf_Sync tf_Close tf_Name sys_temp systemAtomicOperations ao_replace].
  pose proof (sys_update_only name (fun i => mkInode (i_bytes i) (Perm mode) (i_synced i)) w) as [d1 D1].
  destruct (sys_update _ _ w) as [w1 e1] eqn:E1. destruct (holding_update _ _ _ _ _ E1 Hh Hp) as (He1&Hpe1&_&Hh1).
  pose proof (plain_evolves _ _ _ He1 Hp) as Hp1. cbn [fst] in D1. assert (Start w1) as Hs1 by (rewrite D1; by apply Ps). clear d1 D1.
  destruct e1 as [e1|]; [intros [= <- <- <-]; eapply body_stop; by try left|]. cbn [i_bytes i_synced] in Hh1.
  assert (only_disk w1 (write_prefix (sys_temp name) prefix w1).1) as [d2 D2].
  { unfold write_prefix. cbn [tf_Write sys_temp]. pose proof (sys_Write_only name w1 prefix) as Hd.
    destruct (0 <? zlen prefix); [|exists (disk w1); symmetry; apply set_disk_disk]. by destruct (sys_Write name w1 prefix) as [? [? [?|]]]. }
  destruct (write_prefix _ _ w1) as [w2 [n2 e2]] eqn:E2. cbn [fst] in D2.
  assert (Start w2) as Hs2 by (rewrite D2; by apply Ps). clear d2 D2. destruct (write_prefix_spec _ _ _ _ _ E2 Hp1) as (bs & Ha & Hpe2 & Hn2 & _).
  destruct (holding_appended _ _ _ Ha _ Hh1) as (He2 & b2 & Hh2). pose proof (plain_evolves _ _ _ He2 Hp1) as Hp2.
  pose proof (evolves_trans _ _ _ _ He1 He2) as He12.
  destruct e2 as [e2|]; [intros [= <- <- <-]; eapply body_stop; by try left|]. destruct (Hn2 eq_refl) as [-> ->].
  destruct (writeContent _ w2) as [w3 [n3 e3]] eqn:E3. destruct (Pstream _ _ _ _ Hs2 Hp2 E3) as (cs & Hc & -> & Hpe3 & Hn3).
  destruct (holding_appended _ _ _ Hc _ Hh2) as (He3 & b3 & Hh3). pose proof (plain_evolves _ _ _ He3 Hp2) as Hp3.
  pose proof (evolves_trans _ _ _ _ He12 He3) as He13.
  destruct e3 as [e3|]; [intros [= <- <- <-]; eapply body_stop; [done..|]; by right; right; right|]. destruct Hn3 as [-> Hs3].
  pose proof (sys_update_only name (fun i => mkInode (i_bytes i) (i_mode i) true) w3) as [d4 D4].
  destruct (sys_update _ _ w3) as [w4 e4] eqn:E4. cbn [fst] in D4. assert (Ready w4) as Hs4 by (rewrite D4; by apply Pr). clear d4 D4. destruct (holding_update _ _ _ _ _ E4 Hh3 Hp3) as (He4&Hpe4&_&Hh4).
  pose proof (plain_evolves _ _ _ He4 Hp3) as Hp4. pose proof (evolves_trans _ _ _ _ He13 He4) as He14.
  destruct e4 as [e4|]; [intros [= <- <- <-]; eapply body_stop; [done..|]; by right; left|].
  cbn [i_bytes i_mode app] in Hh4. rewrite <-Hnew in Hh4.
  pose proof (sys_plain_only w4) as [d5 D5].
  destruct (sys_plain w4) as [w5 e5] eqn:E5. cbn [fst] in D5. assert (Ready w5) as Hs5 by (rewrite D5; by apply Pr). clear d5 D5. destruct (sys_plain_spec _ _ _ E5) as (Hq5&Hpe5&_). specialize (Hpe5 Hp4).
  pose proof (quiet_evolves passing _ _ Hq5) as He5. pose proof (plain_evolves _ _ _ He5 Hp4) as Hp5.
  pose proof (holding_quiet _ _ _ Hq5 Hh4) as Hh5. pose proof (evolves_trans _ _ _ _ He14 He5) as He15.
  destruct e5 as [e5|]; [intros [= <- <- <-]; eapply body_stop; [done..|]; by right; left|].
  destruct (match beforeReplace with Some check => check w5 | None => (w5, None) end) as [w6 e6] eqn:E6.
  destruct (Pcheck _ _ _ Hs5 Hp5 ltac:(rewrite Hh5; by apply delete_insert_id) E6) as (Hq6 & Hpe6 & Hs6).
  pose proof (quiet_evolves passing _ _ Hq6) as He6. pose proof (plain_evolves _ _ _ He6 Hp5) as Hp6.
  pose proof (holding_quiet _ _ _ Hq6 Hh5) as Hh6. pose proof (evolves_trans _ _ _ _ He15 He6) as He16.
  destruct e6 as [e6|]; [intros [= <- <- <-]; eapply body_stop; [done..|]; by right; right; right|].
  pose proof (replaceFile_only Dir name path w6) as [d7 D7].
  destruct (replaceFile Dir name path w6) as [w7 e7] eqn:E7. cbn [fst] in D7.
  assert (Checked w7) as Hs7 by (rewrite D7; by apply Pc). clear d7 D7.
  destruct (replaceFile_spec Dir passing _ _ new _ _ _ E7) as (He7&_&Hr); [by rewrite Hh6, lookup_insert_eq| |done|].
  { right. by rewrite Hh6, delete_insert_id. }
  rewrite Hh6, delete_insert_id in Hr by done. pose proof (evolves_trans _ _ _ _ He16 He7) as He17.
  assert (zlen prefix ⊞ zlen content = zlen (prefix ++ content)) as Htotal.
  { rewrite zlen_app. pose proof (zlen_nonneg prefix). pose proof (zlen_nonneg content). unwrap64_goal. done. }
  destruct e7 as [e7|]; intros [= <- <- <-]; (split; [done|]).
  - destruct (as_durability e7) eqn:Hd.
    + split; [done|]. split; [done|]. split; [done|]. by intros e [= <-].
    + split; [by right; right; left|]. split; [by exists new|]. by eexists.
  - done.
Qed.
End Atomic.

(** ** The content of a document *)

(** [lease.WriteTo] as the content callback of a save. *)
Definition document_writer {W} (s : Snapshot) : ContentWriter W := fun write w =>
  let '(w, n, err) := WriteTo write s w in (w, (n, err)).

Section Document.
Context {W : Type} (write : Writer W) `{!WriterOk write}.
Variables (I : W -> Prop) (P : error -> Prop).
Hypothesis Hwrite : forall w p w' n e, I w -> write w p = (w', (n, e)) -> I w' /\ forall e', e = Some e' -> P e'.
Hypothesis HP_short : P io_ErrShortWrite.

Lemma write_walk_fed D sources n w total w' total' e :
  walk n (write_visit write sources) (w, total) = ((w', total'), e) ->
  node_wf n -> sources_serve sources D (pieces n) -> I w -> 0 <= total -> total + sum_len (pieces n) <= maxInt64 ->
  exists bs rest, fed write w bs w' /\ total' = total + zlen bs /\ content D (pieces n) = bs ++ rest /\
    (e = None -> rest = []) /\ I w' /\ forall e', e = Some e' -> P e'.
Proof.
  revert w total w' total' e. induction n as [|p pr lt IHl rt IHr b nl k c]; intros w total w' total' e Hw Hwf Hs HI Ht Hm.
  { injection Hw as <- <- <-. exists [], []. split_and!; [apply fed_nil|rewrite (@zlen_nil byte); lia|done|done|done|done]. }
  destruct (node_wf_node _ _ _ _ _ _ _ _ Hwf) as (Hl&Hr&Hp&_&_).
  cbn [walk pieces] in *. apply Forall_app in Hs as [Hsl [(Hrange&r&Hget&Hok) Hsr]%Forall_cons].
  rewrite sum_len_app in Hm. cbn [sum_len] in Hm.
  pose proof (sum_len_nonneg (pieces rt) ltac:(apply Hr)). destruct Hp as (Hpl&Hpo&_).
  pose proof (sum_len_nonneg (pieces lt) ltac:(apply Hl)).
  destruct (walk lt _ _) as [[w1 t1] e1] eqn:E1.
  destruct (IHl _ _ _ _ _ E1) as (b1 & r1 & F1 & -> & C1 & N1 & I1 & P1); [done..|lia|].
  rewrite content_app, content_cons, C1. unfold piece_bytes.
  destruct e1 as [e1|].
  { injection Hw as <- <- <-. exists b1. eexists. split_and!; [done|done|by rewrite <-app_assoc|done|done|done]. }
  rewrite (N1 eq_refl), app_nil_r in *. cbn [write_visit] in Hw. rewrite Hget in Hw.
  assert (zlen (content D (pieces lt)) = sum_len (pieces lt)) as Z1 by (apply zlen_content; by eapply sources_serve_range).
  rewrite C1 in Z1.
  destruct (io_CopyN write w1 r (p_Offset p) (p_Length p)) as [[w2 n2] e2] eqn:E2.
  destruct (io_CopyN_fed write r (D (p_Source p)) I P Hwrite HP_short _ _ _ _ _ _ E2 I1) as (b2 & r2 & F2 & -> & C2 & N2 & I2 & P2);
    [destruct Hrange as (?&?&?); lia..|].
  assert (zlen (slice (p_Offset p) (p_Length p) (D (p_Source p))) = p_Length p) as Z2 by (apply zlen_slice; destruct Hrange as (?&?&?); lia).
  rewrite C2 in *. rewrite zlen_app in Z2. pose proof (zlen_nonneg b2). pose proof (zlen_nonneg r2).
  unwrap64_in Hw. destruct e2 as [e2|].
  { injection Hw as <- <- <-. exists (b1 ++ b2). eexists.
    split_and!; [by eapply fed_app|rewrite zlen_app; lia|by rewrite <-!app_assoc|done|done|done]. }
  rewrite (N2 eq_refl), app_nil_r in *. rewrite (@zlen_nil byte) in Z2.
  destruct (IHr _ _ _ _ _ Hw) as (b3 & r3 & F3 & -> & C3 & N3 & I3 & P3); [done..|lia|lia|].
  exists (b1 ++ b2 ++ b3), r3. rewrite C3, !zlen_app, <-!app_assoc.
  split_and!; [|lia|done|done|done|done]. eapply fed_app; [done|]. by eapply fed_app.
Qed.
End Document.

(** A snapshot whose sources serve it streams its content into any file. *)
Lemma document_streams `{Disk W} `{!DiskLaws W} name D s :
  node_wf (s_root s) -> sources_serve (s_sources s) D (pieces (s_root s)) ->
  streams (W := W) name (snapshot_content D s) (document_writer s).
Proof.
  intros Hwf Hs w w' n e. unfold document_writer, WriteTo. intros Hw Hplain.
  destruct (walk _ _ _) as [[w1 t] e1] eqn:E. injection Hw as <- <- <-.
  destruct (write_walk_fed (sys_Write name) plain_disk (fun e => as_durability e = false)) with (3 := E) (D := D)
    as (bs & rest & Hf & -> & Hc & Hn & _ & Hp); try done.
  - intros v p v' k e' Hv Hw. destruct (sys_Write_spec (fun _ => True) _ _ _ _ _ _ Hw) as (He & Hpe & _); [done|].
    split; [by eapply plain_evolves|by apply Hpe].
  - pose proof (proj2 (proj2 Hwf)). lia.
  - exists bs. split_and!; [by apply fed_appended|lia|done|]. intros ->. rewrite (Hn eq_refl), app_nil_r in Hc. done.
Qed.

(** ** Saving a document

    A save is atomic.  Whatever the system does at each call, and wherever a
    crash strikes, the target is the old file or the complete new one, already on
    stable storage when it appears; nothing but the temporary file is touched
    besides.  A save without an error, or with a [DurabilityError], has replaced the
    target with the prefix and the content; any other error leaves every file as it
    was, up to a temporary file whose removal failed. *)
(** A save whose callbacks keep their phases, for any state around the disk. *)
Lemma AtomicChecked_phases {W} `{Disk W} `{!DiskLaws W} Dir tempName path mode prefix content
  (writeContent : ContentWriter W) (beforeReplace : option (Check W)) Start Ready Checked Stopped (w w' : W) total e :
  let fs := w_files (disk w) in
  let name := tempName (Dir path) tempPattern (dom fs) in
  let new := mkInode (prefix ++ content) (Perm mode) true in
  fs !! name = None -> path <> name -> plain_disk w -> zlen prefix + zlen content <= maxInt64 ->
  phases fs name content writeContent beforeReplace Start Ready Checked Stopped -> Start w ->
  AtomicChecked Dir tempName path mode prefix writeContent beforeReplace w = (w', (total, e)) ->
  evolves (fun m => (m !! path = fs !! path \/ m !! path = Some new) /\
                    forall p, p <> path -> p <> name -> m !! p = fs !! p) w w' /\
  (if match e with Some e => as_durability e | None => true end
   then w_files (disk w') = <[path := new]> fs /\ total = zlen (prefix ++ content) /\ Checked w'
   else delete name (w_files (disk w')) = fs /\ undone Start Ready Checked Stopped w' /\ (w_faults (disk w) = [] -> w_files (disk w') = fs)).
Proof.
  intros fs name new Hname Hpath Hplain Hmax Hphases Hstart. unfold AtomicChecked, atomicChecked. cbn [systemAtomicOperations ao_createTemp ao_remove].
  assert (forall m, passing fs name path new m ->
    (m !! path = fs !! path \/ m !! path = Some new) /\ forall p, p <> path -> p <> name -> m !! p = fs !! p) as Hpassing.
  { intros m [E| ->]; split; [left| |right|]; intros; rewrite <-?E, ?lookup_delete_ne, ?lookup_insert_ne by done; try done.
    apply lookup_insert_eq. }
  pose proof (sys_createTemp_only tempName (Dir path) tempPattern w) as D1.
  destruct (sys_createTemp tempName (Dir path) tempPattern w) as [w1 r] eqn:E1. cbn [fst] in D1.
  assert (Start w1) as Hs1 by (destruct D1 as [d1 ->]; by eapply ph_start). clear D1.
  destruct (sys_createTemp_spec _ _ _ _ _ _ (passing fs name path new) E1) as [He1 Hr]; [by apply passing_temp|].
  destruct Hr as [(e1 & -> & Hf1 & Hd1 & Hn1)|[-> Hf1]].
  { intros [= <- <- <-]. rewrite (Hd1 Hplain). split; [by eapply evolves_mono|]. fold fs in Hf1.
    rewrite Hf1, delete_id by done. split; [done|]. split; [by left|done]. }
  fold fs name in Hf1. pose proof (plain_evolves _ _ _ He1 Hplain) as Hp1.
  destruct (atomic_body _ _ _ _ _ _ _ w1) as [[w2 c] out] eqn:E2.
  assert (body_end fs name path new Start Ready Checked Stopped (zlen (prefix ++ content)) w1 w2 c out) as [He2 Hend] by (by eapply body_spec).
  cbn [tf_Close sys_temp tf_Name]. fold fs name.
  pose proof (sys_plain_only w2) as D3.
  destruct (sys_plain w2) as [w3 e3] eqn:E3. cbn [fst] in D3. destruct (sys_plain_spec _ _ _ E3) as (Hq3 & _ & _). cbn [fst].
  pose proof (evolves_trans _ _ _ _ (evolves_trans _ _ _ _ He1 He2) (quiet_evolves _ _ _ Hq3)) as He3.
  destruct c.
  - destruct Hend as (Hf2 & Ht & Hk & Hd). assert (Checked w3) as Hk3 by (destruct D3 as [d3 ->]; by eapply ph_checked). destruct out as [total' e2]. cbn [fst snd] in Ht, Hd. intros [= <- <- <-].
    split; [by eapply evolves_mono|]. assert (w_files (disk w3) = <[path := new]> fs) by (by rewrite (qu_files _ _ Hq3)).
    destruct e2 as [e2|]; [rewrite (Hd e2 eq_refl)|]; done.
  - destruct Hend as (Hu & (i & Hh) & e2 & He & Hd). pose proof (undone_disk _ _ _ _ _ _ _ _ _ Hphases _ _ Hu D3) as Hu3. destruct out as [total' ?]. cbn [snd] in He. subst.
    pose proof (undone_disk _ _ _ _ _ _ _ _ _ Hphases _ _ Hu3 (sys_remove_only name w3)) as Hu4.
    destruct (sys_remove name w3) as [w4 e4] eqn:E4. cbn [fst] in Hu4. intros [= <- <- <-]. cbn [fst].
    pose proof (holding_quiet _ _ _ _ _ Hq3 Hh) as Hh3. unfold holding in Hh3.
    destruct (sys_remove_spec (passing fs name path new) _ _ _ _ E4) as (He4 & Hn4 & Hf4).
    { left. by rewrite Hh3, delete_insert_id, delete_id. }
    split; [eapply evolves_mono; [exact Hpassing|exact (evolves_trans _ _ _ _ He3 He4)]|]. rewrite Hd, Hf4, Hh3.
    split; [destruct e4; by rewrite delete_insert_id, ?delete_id|]. split; [done|].
    intros Hw. rewrite (Hn4 (evolves_no_fault _ _ _ He3 Hw)). by rewrite delete_insert_id.
Qed.


(** C25. Atomic replacement: for every fault script, content callback and final
    check, each directory the save goes through holds the old target or the new
    one, complete and synced; success and [DurabilityError] mean replaced, every
    other error means untouched; without faults the temporary file is gone too. *)
Theorem AtomicChecked_atomic {W} `{Disk W} `{!DiskLaws W} Dir tempName path mode prefix content
  (writeContent : ContentWriter W) (beforeReplace : option (Check W)) (w w' : W) total e :
  let fs := w_files (disk w) in
  let name := tempName (Dir path) tempPattern (dom fs) in
  let new := mkInode (prefix ++ content) (Perm mode) true in
  fs !! name = None -> path <> name -> plain_disk w -> zlen prefix + zlen content <= maxInt64 ->
  streams name content writeContent -> harmless beforeReplace ->
  AtomicChecked Dir tempName path mode prefix writeContent beforeReplace w = (w', (total, e)) ->
  evolves (fun m => (m !! path = fs !! path \/ m !! path = Some new) /\
                    forall p, p <> path -> p <> name -> m !! p = fs !! p) w w' /\
  (if match e with Some e => as_durability e | None => true end
   then w_files (disk w') = <[path := new]> fs /\ total = zlen (prefix ++ content)
   else delete name (w_files (disk w')) = fs /\ (w_faults (disk w) = [] -> w_files (disk w') = fs)).
Proof.
  intros fs name new Hname Hpath Hplain Hmax Hstreams Hcheck Hrun.
  destruct (AtomicChecked_phases Dir tempName path mode prefix content writeContent beforeReplace
    (fun _ => True) (fun _ => True) (fun _ => True) (fun _ => True) w w' total e Hname Hpath Hplain Hmax) as [He Hend]; [|done|exact Hrun|].
  - split; try done.
    + intros v v' n e' _ Hv Hw. destruct (Hstreams _ _ _ _ Hw Hv) as (bs & ? & ? & ? & Hn). exists bs. split_and!; try done.
      destruct e'; [done|]. split; [by apply Hn|done].
    + intros v v' e' _ Hv _ Hc. destruct beforeReplace as [check|].
      * destruct (Hcheck _ _ _ _ eq_refl Hc Hv). split_and!; try done. by destruct e'.
      * injection Hc as <- <-. split_and!; [apply quiet_refl|done|done].
  - split; [exact He|]. destruct (match e with Some e => as_durability e | None => true end); [|by destruct Hend as (? & _ & ?)].
    by destruct Hend as (? & ? & _).
Qed.

(** ** Progress

    The reports of a save, with the writer that collects them. *)

Definition collect {W} (completed : Z) (st : W * list Z) : W * list Z := (st.1, st.2 ++ [completed]).
Definition collecting {W} (destination : Writer W) : Writer (W * list Z) := fun st p =>
  let '(w, out) := destination st.1 p in ((w, st.2), out).

(** Writing chunks one after the other. *)
Fixpoint progress_run {W} (destination : Writer W) (chunks : list (list byte)) (st : saveProgressWriter * (W * list Z))
  : saveProgressWriter * (W * list Z) :=
  match chunks with
  | [] => st
  | chunk :: chunks => progress_run destination chunks (progress_Write (collecting destination) collect st chunk).1
  end.

Section Reports.
Context {W : Type} (destination : Writer W) `{!WriterOk destination}.
(* [failing]: the destination may fail *)
Variables (failing : bool) (prefix total : Z).
Hypothesis Hfail : failing = false -> forall w p, (destination w p).2.2 = None.
Hypotheses (Hprefix : 0 <= prefix <= total) (Htotal : total + saveProgressQuantum <= maxInt64).

(** Consecutive reports: growing, a quantum apart up to the last one. *)
Definition advances (a b : Z) : Prop := a < b <= total /\ (failing = true \/ b = total \/ a + saveProgressQuantum <= b).

Record progress_ok (sent : Z) (st : saveProgressWriter * (W * list Z)) : Prop := {
  po_prefix : pw_prefix st.1 = prefix;
  po_total : pw_total st.1 = total;
  po_written : 0 <= pw_written st.1 <= sent;
  po_sorted : Sorted advances (-1 :: st.2.2);
  po_last : last (-1 :: st.2.2) = Some (pw_last st.1);
  po_bound : -1 <= pw_last st.1 <= prefix + pw_written st.1;
  po_next : pw_next st.1 = Z.min total (Z.max (pw_last st.1) prefix + saveProgressQuantum) }.

Lemma Sorted_last_snoc {A} (R : A -> A -> Prop) l a b : Sorted R l -> last l = Some a -> R a b -> Sorted R (l ++ [b]).
Proof.
  induction l as [|x l IH]; intros Hs Hl Hr; [done|]. apply Sorted_inv in Hs as [Hs Hx]. destruct l as [|y l].
  - cbn in Hl. injection Hl as ->. cbn. repeat constructor; done.
  - cbn [app]. constructor; [by apply IH|]. constructor. by apply HdRel_inv in Hx.
Qed.

Lemma advances_last l a : Sorted advances (-1 :: l) -> last (-1 :: l) = Some a -> a <= total.
Proof.
  assert (-1 <= total) as Hle by lia. revert Hle. generalize (-1). induction l as [|x l IH]; intros b Hb Hs Hl.
  - cbn in Hl. by injection Hl as <-.
  - apply Sorted_inv in Hs as [Hs Hx]. apply HdRel_inv in Hx as [[_ ?] _]. by apply (IH x).
Qed.

(** A report that may be due. *)
Lemma progress_publish_spec pw (w : W) l c :
  Sorted advances (-1 :: l) -> last (-1 :: l) = Some (pw_last pw) ->
  c = pw_last pw \/ advances (pw_last pw) c ->
  exists l', progress_publish collect c (pw, (w, l)) =
    (mkProgressWriter (pw_prefix pw) (pw_total pw) (pw_written pw) c (pw_next pw), (w, l')) /\
    Sorted advances (-1 :: l') /\ last (-1 :: l') = Some c.
Proof.
  intros Hs Hl Hc. unfold progress_publish. destruct (Z.eqb_spec c (pw_last pw)) as [->|Hne].
  - exists l. by destruct pw.
  - destruct Hc as [?|Hc]; [done|]. exists (l ++ [c]). split_and!; [done| |].
    + rewrite app_comm_cons. by eapply Sorted_last_snoc.
    + rewrite app_comm_cons. apply last_snoc.
Qed.

Lemma progress_Write_ok sent st chunk :
  progress_ok sent st -> prefix + sent + zlen chunk <= maxInt64 ->
  progress_ok (sent + zlen chunk) (progress_Write (collecting destination) collect st chunk).1.
Proof.
  intros [E1 E2 Hw Hs Hl Hb Hn] Hmax. destruct st as [pw [w l]]. cbn [fst snd] in *.
  unfold progress_Write, collecting. cbn [fst snd].
  destruct (destination w chunk) as [w1 [n err]] eqn:Hd. pose proof (writer_count _ _ _ _ _ Hd) as Hc.
  assert (failing = true \/ err = None) as Herr.
  { destruct failing; [by left|right]. specialize (Hfail eq_refl w chunk). by rewrite Hd in Hfail. }
  cbn [pw_prefix pw_total pw_written pw_last pw_next]. rewrite E1, E2. unfold saveProgressQuantum in *. unwrap64_goal. unwrap64_goal.
  set (c0 := prefix + (pw_written pw + n)). assert ((if total <? c0 then total else c0) = Z.min total c0) as ->
    by (destruct (Z.ltb_spec total c0); lia).
  pose proof (advances_last _ _ Hs Hl) as Hlt.
  destruct ((pw_next pw <=? Z.min total c0) || isSome err) eqn:Hr.
  - destruct (progress_publish_spec (mkProgressWriter prefix total (pw_written pw + n) (pw_last pw) (pw_next pw)) w1 l (Z.min total c0) Hs Hl)
      as (l' & -> & Hs' & Hl').
    { cbn [pw_last]. destruct (decide (Z.min total c0 = pw_last pw)); [by left|right]. unfold advances, saveProgressQuantum.
      split; [lia|]. destruct Herr as [->| ->]; [by left|]. rewrite orb_false_r in Hr. apply Z.leb_le in Hr. lia. }
    cbn [fst snd pw_prefix pw_total pw_written pw_last pw_next]. rewrite (i64_id (Z.min total c0 + _)) by go_lia.
    split; cbn [fst snd pw_prefix pw_total pw_written pw_last pw_next]; try done; try lia.
    destruct (Z.ltb_spec total (Z.min total c0 + 4194304)); unfold saveProgressQuantum; lia.
  - cbn [fst snd]. split; cbn [fst snd pw_prefix pw_total pw_written pw_last pw_next]; try done; lia.
Qed.

Lemma progress_run_ok chunks : forall sent st,
  progress_ok sent st -> prefix + sent + zlen (concat chunks) <= maxInt64 ->
  progress_ok (sent + zlen (concat chunks)) (progress_run destination chunks st).
Proof.
  induction chunks as [|chunk chunks IH]; intros sent st Hst Hmax; cbn [progress_run concat] in *.
  { rewrite (@zlen_nil byte), Z.add_0_r. done. }
  rewrite zlen_app in *. pose proof (zlen_nonneg (concat chunks)). rewrite Z.add_assoc. apply IH; [|lia].
  apply progress_Write_ok; [done|lia].
Qed.

Lemma newSaveProgressWriter_ok (w : W) : progress_ok 0 (newSaveProgressWriter prefix total, (w, [])).
Proof.
  unfold newSaveProgressWriter, saveProgressQuantum in *. split; cbn [fst snd pw_prefix pw_total pw_written pw_last pw_next]; try done; try lia.
  - repeat constructor.
  - rewrite (i64_id (prefix + _)) by go_lia. destruct (Z.ltb_spec total (prefix + 4194304)); unfold saveProgressQuantum; lia.
Qed.
End Reports.

(** What a save reports: whatever is written, the counts grow strictly, stay
    within the total and, while the destination does not fail, are at least a
    quantum apart up to the last one; a save that ends by [finish] has reported the
    total. *)
Theorem progress_reports {W} (destination : Writer W) `{!WriterOk destination} failing prefix total chunks w :
  (failing = false -> forall w p, (destination w p).2.2 = None) -> 0 <= prefix <= total ->
  total + saveProgressQuantum <= maxInt64 -> prefix + zlen (concat chunks) <= maxInt64 ->
  let st := progress_run destination chunks (newSaveProgressWriter prefix total, (w, [])) in
  Sorted (advances failing total) (-1 :: st.2.2) /\
  let st := progress_finish collect st in
  Sorted (advances failing total) (-1 :: st.2.2) /\ last (-1 :: st.2.2) = Some total.
Proof.
  intros Hfail Hp Ht Hmax st.
  assert (progress_ok failing prefix total (0 + zlen (concat chunks)) st) as [E1 E2 Hw Hs Hl Hb Hn].
  { apply progress_run_ok; try done; [by apply newSaveProgressWriter_ok|lia]. }
  split; [done|]. destruct st as [pw [w1 l]]. cbn [fst snd] in *. unfold progress_finish. cbn [fst]. rewrite E2.
  destruct (progress_publish_spec failing total pw w1 l total Hs Hl) as (l' & -> & Hs' & Hl'); [|done].
  destruct (decide (total = pw_last pw)); [by left|right]. split; [|by right; left]. split; [|lia].
  pose proof (advances_last failing prefix total Hp _ _ Hs Hl). lia.
Qed.

(** ** Retrying a replacement *)

(** The answers of [ReplaceFileW] so far: what the loop saw before it stopped. *)
Definition transient (answer : Z * error) : Prop :=
  answer.1 = 0 /\ isRetryableReplaceError (if decide (answer.2 = errno 0) then windows_EINVAL else answer.2) = true.

(** The script of a Windows run: the coming answers, and the waits so far. *)
Definition next_answer (st : list (Z * error) * list Z) : list (Z * error) * list Z * (Z * error) :=
  match st.1 with
  | [] => (st, (1, errno 0))
  | answer :: rest => (rest, st.2, answer)
  end.
Definition record_wait (delay : Z) (st : list (Z * error) * list Z) : list (Z * error) * list Z :=
  (st.1, st.2 ++ [delay]).

(** [n] waits from [delay] on, each twice the one before. *)
Fixpoint backoff (n : nat) (delay : Z) : list Z :=
  match n with O => [] | S n => delay :: backoff n (delay * 2) end.

Lemma replace_loop_spec fuel : forall delay answers ws st e,
  (1 <= fuel <= 8)%nat -> (fuel <= length answers)%nat ->
  replace_loop next_answer record_wait fuel (replaceFileAttempts - Z.of_nat fuel) delay (answers, ws) = (st, e) ->
  exists before last after, answers = before ++ last :: after /\ (length before < fuel)%nat /\ Forall transient before /\
    st = (after, ws ++ backoff (length before) delay) /\
    (last.1 <> 0 -> e = None) /\
    (last.1 = 0 -> (S (length before) = fuel \/ ~ transient last) /\
       e = Some (if decide (last.2 = errno 0) then windows_EINVAL else last.2)).
Proof.
  induction fuel as [|fuel IH]; intros delay answers ws st e Hf Hl Hr; [lia|].
  destruct answers as [|[res err] answers]; [cbn in Hl; lia|]. cbn [replace_loop next_answer fst snd] in Hr.
  destruct (Z.eqb_spec res 0) as [->|Hres]; cbn [negb] in Hr.
  2:{ injection Hr as <- <-. exists [], (res, err), answers. cbn. rewrite app_nil_r. split_and!; try done. lia. }
  set (code := if decide (err = errno 0) then windows_EINVAL else err) in *.
  destruct ((replaceFileAttempts - Z.of_nat (S fuel) =? replaceFileAttempts - 1) || negb (isRetryableReplaceError code)) eqn:Hstop.
  - injection Hr as <- <-. exists [], (0, err), answers. cbn. rewrite app_nil_r. split_and!; try done; [lia|]. intros _. split; [|done].
    apply orb_true_iff in Hstop as [Hs|Hs]; [left; apply Z.eqb_eq in Hs; lia|right]. intros [_ Ht]. cbn [snd] in Ht. fold code in Ht.
    rewrite Ht in Hs. done.
  - apply orb_false_iff in Hstop as [Hs1 Hs2]. apply Z.eqb_neq in Hs1. apply negb_false_iff in Hs2.
    replace (replaceFileAttempts - Z.of_nat (S fuel) + 1) with (replaceFileAttempts - Z.of_nat fuel) in Hr by lia.
    cbn in Hl. destruct (IH (delay * 2) answers (ws ++ [delay]) st e) as (before & final & after & -> & Hb & Ht & -> & Hok & Hbad); [lia|lia|done|].
    exists ((0, err) :: before), final, after. cbn [length backoff app]. rewrite <-app_assoc. split_and!; try done; [lia|by constructor|].
    intros Hz. destruct (Hbad Hz) as [[?|?] ->]; (split; [|done]); [left; lia|by right].
Qed.

(** C26. [ReplaceFileW] is tried at most eight times: through transient failures,
    with a doubling wait after each, until it succeeds, fails for good, or the last
    attempt is spent; the answer of the last call is the result, and paths the
    system cannot take are refused without a call. *)
Theorem replace_retries UTF16PtrFromString from to answers st e :
  (8 <= length answers)%nat ->
  replaceFileWithCallAndWait next_answer record_wait UTF16PtrFromString from to (answers, []) = (st, e) ->
  (exists e', (UTF16PtrFromString from = Err e' \/ UTF16PtrFromString to = Err e') /\ st = (answers, []) /\ e = Some e') \/
  exists before last after, answers = before ++ last :: after /\ (length before < 8)%nat /\ Forall transient before /\
    st = (after, backoff (length before) replaceFileInitialDelay) /\
    (last.1 <> 0 -> e = None) /\
    (last.1 = 0 -> (length before = 7%nat \/ ~ transient last) /\
       e = Some (if decide (last.2 = errno 0) then windows_EINVAL else last.2)).
Proof.
  intros Hl. unfold replaceFileWithCallAndWait.
  destruct (UTF16PtrFromString from) as [p|e1]; [|intros [= <- <-]; left; eauto].
  destruct (UTF16PtrFromString to) as [q|e1]; [|intros [= <- <-]; left; eauto].
  intros Hr. right. destruct (replace_loop_spec 8 _ _ _ _ _ ltac:(lia) Hl Hr) as (b & l & a & -> & Hb & Ht & -> & Hok & Hbad).
  exists b, l, a. split_and!; try done. intros Hz. destruct (Hbad Hz) as [[?|?] ?]; eauto.
Qed.

Lemma replace_retries_witness :
  (8 <= length (replicate 9 (0, errno 32)))%nat /\
  exists before last after, replicate 9 (0, errno 32) = before ++ last :: after /\ (length before < 8)%nat /\
    Forall transient before /\
    (replaceFileWithCallAndWait next_answer record_wait (fun p => Ok (map b2z p)) [Byte.x61] [Byte.x62] (replicate 9 (0, errno 32), [])).1
      = (after, backoff (length before) replaceFileInitialDelay).
Proof.
  split; [cbn; lia|].
  destruct (replace_retries (fun p => Ok (map b2z p)) [Byte.x61] [Byte.x62] (replicate 9 (0, errno 32))
    _ _ ltac:(cbn; lia) (surjective_pairing _)) as [(e & [H|H] & _)|(b & l & a & H1 & H2 & H3 & H4 & _)]; [discriminate H..|].
  exists b, l, a. split; [exact H1|split; [exact H2|split; [exact H3|exact H4]]].
Defined.

(** ** Concrete runs *)

Definition ex_dir (p : FilePath) : FilePath := [].
(* a name longer than every present one *)
Definition ex_tempName (dir : FilePath) (pattern : list byte) (present : gset FilePath) : FilePath :=
  replicate (S (set_fold (fun p n => Nat.max (length p) n) 0%nat present)) Byte.x74.
Definition ex_target : FilePath := [Byte.x64].
Definition ex_disk (faults : list fault) : world :=
  mkWorld {[ ex_target := mkInode [Byte.x6f] 420 true ]} faults [] [].

Lemma AtomicChecked_atomic_witness :
  let w := ex_disk [NoFault; NoFault; NoFault; NoFault; NoFault; NoFault; Fault 0 (errOS 5)] in
  let fs := w_files w in
  let out := AtomicChecked ex_dir ex_tempName ex_target 420 [Byte.x70] (document_writer (Tree_Snapshot ex_tree)) None w in
  out.2.2 = Some (errWrap 40 (errOS 5)) /\ w_files out.1 !! ex_target = Some (mkInode [Byte.x6f] 420 true).
Proof.
  intros w fs out.
  destruct (AtomicChecked_atomic ex_dir ex_tempName ex_target 420 [Byte.x70] (snapshot_content ex_D (Tree_Snapshot ex_tree))
    (document_writer (Tree_Snapshot ex_tree)) None w out.1 out.2.1 out.2.2) as [_ Hend].
  - vm_compute. reflexivity.
  - vm_compute. discriminate.
  - repeat constructor.
  - vm_compute. discriminate.
  - apply document_streams; [apply ex_tree_wf|apply ex_tree_serves].
  - intros check v v' e H. discriminate H.
  - vm_compute. reflexivity.
  - assert (out.2.2 = Some (errWrap 40 (errOS 5))) as He by (vm_compute; reflexivity). rewrite He in Hend.
    destruct Hend as [Hend _]. split; [exact He|].
    apply (f_equal (fun m => m !! ex_target)) in Hend. rewrite lookup_delete_ne in Hend by (vm_compute; discriminate).
    etransitivity; [exact Hend|]. vm_compute. reflexivity.
Defined.

Lemma progress_reports_witness :
  let st := progress_run (@bytes_Buffer) [[Byte.x61]] (newSaveProgressWriter 3 4, ([], [])) in
  last (-1 :: (progress_finish collect st).2.2) = Some 4.
Proof.
  apply (progress_reports (@bytes_Buffer) false 3 4 [[Byte.x61]] []); [done|lia|vm_compute; discriminate|vm_compute; discriminate].
Defined.
