(* ===== verification/SysFiles.v ===== *)
(** * The files of a disk as os.Stat and os.Open show them

    What document/session.go asks the system about a file, on any state with the
    disk of Save: the description of a path, an open file, its change stamp. *)

From Stdlib Require Import ZArith Lia List.
From stdpp Require Import base list numbers gmap.
From S2P Require Import Prelude GoLib File Effects Scan Save.
#[local] Open Scope Z_scope.

Section Files.
Context {W : Type} `{Disk W}.
(* [os.FileInfo] of an open file, and [captureFileChange] *)
Variables (describe : inode -> FileInfo) (stampOf : FileInfo -> Prelude.result fileChangeStamp).

Definition sys_stat (path : FilePath) : Eff W FileInfo := fun w =>
  let '(x, d) := syscall (disk w) in
  (set_disk d w,
   match x, w_files d !! path with
   | Fault _ e, _ => Err e
   | _, None => Err os_ErrNotExist
   | _, Some i => Ok (describe i)
   end).

(** An open file. *)
Definition open_file (i : inode) : readStatFile W :=
  mkReadStatFile W
    (fun n off w =>
       let '(x, d) := syscall (disk w) in
       (set_disk d w, match x with Fault k e => (ztake k (slice off n (i_bytes i)), Some e) | _ => bytes_NewReader (i_bytes i) off n end))
    (fun w => let '(x, d) := syscall (disk w) in (set_disk d w, match x with Fault _ e => Err e | _ => Ok (describe i) end)).

Definition sys_openBase (path : FilePath) : Eff W inode := fun w =>
  let '(x, d) := syscall (disk w) in
  (set_disk d w,
   match x, w_files d !! path with
   | Fault _ e, _ => Err e
   | _, None => Err os_ErrNotExist
   | _, Some i => Ok i
   end).

Definition captureChange (file : readStatFile W) (info : FileInfo) : Eff W fileChangeStamp := eff_lift (stampOf info).

End Files.
