(* ===== verification/Rebase.v ===== *)
(** * document/session.go: the journal of a new base

    A save that goes on while edits arrive ends with a base file that holds the
    text at some revision, and edits made after it.  [prepareJournalRebaseLocked]
    writes those edits into a new recovery journal, synced with its directory,
    before the base file is replaced, so that a crash on either side of the
    replacement finds a journal that belongs to the base it finds.  The file also
    has the state a saving goroutine works on; Commit has the save itself. *)

From Stdlib Require Import ZArith Lia List.
From stdpp Require Import base list numbers gmap.
From S2P Require Import Prelude GoLib Store File Journal ChangeMap ChangeHistory Events UndoStore Utf8 Options Effects Scan TreeText JournalText Session SessionText SessionHistory SessionEdit Editor SessionRecovery SessionPending Save.
#[local] Open Scope Z_scope.

(** ** Data *)

Record preparedJournalRebase := mkPrepared {
  pj_journal : option Journal; pj_path : list byte; pj_pending : list pendingOperation; pj_bytes : Z }.

(** The local variables of [commitAtLeast] and of its callbacks. *)
Record Locals := mkLocals {
  lc_persistence : PersistenceProgress; lc_metadata : Metadata; lc_started : bool; lc_finished : bool;
  lc_progress : saveProgressWriter; lc_hashed : list byte; lc_newContentHash : list byte; lc_newFingerprint : Fingerprint;
  lc_prepared : option preparedJournalRebase; lc_boundaryLocked : bool }.

(** What a saving goroutine works on: the session with the fields only saves
    use, the disk, the polls of its context so far and its variables. *)
Record Saving := mkSaving {
  sv_session : Session; sv_mode : Z; sv_diskIdentity : fileIdentity; sv_nextPersistenceID : Z;
  sv_disk : world; sv_poll : nat; sv_locals : Locals }.

Definition set_session (s : Session) (w : Saving) : Saving :=
  mkSaving s (sv_mode w) (sv_diskIdentity w) (sv_nextPersistenceID w) (sv_disk w) (sv_poll w) (sv_locals w).
Definition set_diskIdentity (i : fileIdentity) (w : Saving) : Saving :=
  mkSaving (sv_session w) (sv_mode w) i (sv_nextPersistenceID w) (sv_disk w) (sv_poll w) (sv_locals w).
Definition set_nextPersistenceID (n : Z) (w : Saving) : Saving :=
  mkSaving (sv_session w) (sv_mode w) (sv_diskIdentity w) n (sv_disk w) (sv_poll w) (sv_locals w).
Definition set_world (d : world) (w : Saving) : Saving :=
  mkSaving (sv_session w) (sv_mode w) (sv_diskIdentity w) (sv_nextPersistenceID w) d (sv_poll w) (sv_locals w).
Definition set_poll (k : nat) (w : Saving) : Saving :=
  mkSaving (sv_session w) (sv_mode w) (sv_diskIdentity w) (sv_nextPersistenceID w) (sv_disk w) k (sv_locals w).
Definition set_locals (l : Locals) (w : Saving) : Saving :=
  mkSaving (sv_session w) (sv_mode w) (sv_diskIdentity w) (sv_nextPersistenceID w) (sv_disk w) (sv_poll w) l.

#[export] Instance saving_disk : Disk Saving := {| disk := sv_disk; set_disk := set_world |}.
#[export] Instance saving_disk_laws : DiskLaws Saving.
Proof. split; [done|done|]. by intros []. Qed.

Definition lc_set_prepared (p : option preparedJournalRebase) (l : Locals) : Locals :=
  mkLocals (lc_persistence l) (lc_metadata l) (lc_started l) (lc_finished l) (lc_progress l) (lc_hashed l) (lc_newContentHash l)
    (lc_newFingerprint l) p (lc_boundaryLocked l).
Definition sv_prepared (w : Saving) : option preparedJournalRebase := lc_prepared (sv_locals w).
Definition set_prepared (p : option preparedJournalRebase) (w : Saving) : Saving := set_locals (lc_set_prepared p (sv_locals w)) w.

(** [contextError(ctx)] *)
Definition context_error (ctx : Context) (w : Saving) : Saving * option error := (set_poll (S (sv_poll w)) w, ctx (sv_poll w)).
Definition sv_check (ctx : Context) : Eff Saving unit := eff_call (context_error ctx).

(** A call of the prepared journal. *)
Definition with_prepared {A} (f : Journal -> Journal * Prelude.result A) : Eff Saving A := fun w =>
  match sv_prepared w with
  | Some p =>
    match pj_journal p with
    | Some j => let '(j, r) := f j in (set_prepared (Some (mkPrepared (Some j) (pj_path p) (pj_pending p) (pj_bytes p))) w, r)
    | None => (w, Err recovery_ErrClosed)
    end
  | None => (w, Err recovery_ErrClosed)
  end.
Definition update_prepared (f : preparedJournalRebase -> preparedJournalRebase) : Eff Saving unit :=
  eff_modify (fun w => set_prepared (match sv_prepared w with Some p => Some (f p) | None => None end) w).

(** The message only differs. *)
Definition journalNotEmpty : error := errMsg 44.

(** [errors.As(err, &durability)]: the cause of the first one found. *)
Fixpoint durability_cause (e : error) : option error :=
  match e with
  | errDurability e1 => Some e1
  | errJoin e1 e2 => match durability_cause e1 with Some e => Some e | None => durability_cause e2 end
  | errWrap _ e1 | errRecoveryOpen _ _ _ e1 => durability_cause e1
  | _ => None
  end.

(** ** Preparing the journal *)

Section Rebase.
(* the reads of a journal through its tree (Session), [filepath.Dir] *)
Variable journal_reads : list byte -> ReaderAt.
Variable Dir : FilePath -> FilePath.
(* the path of the new journal and what the system answers when it is created
   and removed *)
Variable setup : JournalSetup.

Definition discardPreparedJournal (remove : bool) (w : Saving) : Saving * option error :=
  match sv_prepared w with
  | None => (w, None)
  | Some p =>
    match pj_journal p with
    | None => (w, None)
    | Some j =>
      let '(_, closeErr) := Journal.Close j in
      let w := set_prepared (Some (mkPrepared None (pj_path p) (pj_pending p) (pj_bytes p))) w in
      if negb remove then (w, closeErr) else
      let removeErr :=
        match js_remove setup with Some e => if errors_Is e os_ErrNotExist then None else Some e | None => None end in
      (w, errors_Join closeErr removeErr)
    end
  end.

(** The closure [fail]: whatever failed, the new journal goes. *)
Definition or_discard (c : Eff Saving unit) : Eff Saving unit := fun w =>
  let '(w, r) := c w in
  match r with
  | Ok a => (w, Ok a)
  | Err cause =>
    let '(w, e) := discardPreparedJournal true w in
    (set_prepared None w, Err (match e with Some e => errJoin cause e | None => cause end))
  end.

Fixpoint newer_loop (ctx : Context) (targetRevision : Z) (pending newer : list pendingOperation) : Eff Saving (list pendingOperation) :=
  match pending with
  | [] => eff_ret newer
  | operation :: pending =>
    let* _ := sv_check ctx in
    newer_loop ctx targetRevision pending (if targetRevision <? po_revision operation then newer ++ [operation] else newer)
  end.

(** The operations up to [last]: those of the first one's group. *)
Fixpoint same_group (group : Z) (newer : list pendingOperation) : list pendingOperation * list pendingOperation :=
  match newer with
  | operation :: rest =>
    if po_group operation =? group then let '(batch, rest) := same_group group rest in (operation :: batch, rest) else ([], newer)
  | [] => ([], [])
  end.

(** The text of an edit, from the session's journal. *)
Definition read_pending (operation : pendingOperation) : Eff Saving (list byte) :=
  if 0 <? po_insertLength operation then
    fun w =>
      match s_journal (sv_session w) with
      | None => (w, Err recovery_ErrClosed)
      | Some j =>
        let '(j, (inserted, readErr)) := Journal.ReadAt j (po_insertLength operation) (po_insertOffset operation) in
        (set_session (use_journal journal_reads j (sv_session w)) w,
         match readErr with
         | Some e => if errors_Is e io_EOF && (zlen inserted =? po_insertLength operation) then Ok inserted else Err e
         | None => if zlen inserted =? po_insertLength operation then Ok inserted else Err io_ErrUnexpectedEOF
         end)
      end
  else eff_ret [].

Fixpoint read_batch (ctx : Context) (operations : list pendingOperation) : Eff Saving (list Journal.ReplaceOperation) :=
  match operations with
  | [] => eff_ret []
  | operation :: operations =>
    let* _ := sv_check ctx in
    let* inserted := read_pending operation in
    let* batch := read_batch ctx operations in
    eff_ret (Journal.mkReplaceOperation (po_start operation) (po_deleteLength operation) inserted :: batch)
  end.

Definition move_pending (operation : pendingOperation) (insertOffset : Z) : pendingOperation :=
  mkPending (po_revision operation) (po_group operation) (po_start operation) (po_deleteLength operation) insertOffset
    (po_insertLength operation) (po_insertNewlines operation).
Fixpoint move_batch (operations : list pendingOperation) (offsets : list Z) : list pendingOperation :=
  match operations with
  | [] => []
  | operation :: operations => move_pending operation (hd 0 offsets) :: move_batch operations (tl offsets)
  end.

(** The loop over the batches; every pass takes an operation, so their number is
    enough fuel. *)
Fixpoint rebase_loop (fuel : nat) (ctx : Context) (newer : list pendingOperation) : Eff Saving unit :=
  match fuel, newer with
  | S fuel, first :: _ =>
    let* _ := sv_check ctx in
    let '(operations, rest) := same_group (po_group first) newer in
    let* batch := read_batch ctx operations in
    let* appendResult := with_prepared (fun j => AppendBatch j (po_revision first) (po_group first) batch) in
    let* _ := update_prepared (fun p => mkPrepared (pj_journal p) (pj_path p)
                (pj_pending p ++ move_batch operations (PayloadOffsets appendResult)) (EndOffset appendResult)) in
    rebase_loop fuel ctx rest
  | _, _ => eff_ret tt
  end.

(** [s.operations.syncParent(path)] with its error taken out of [DurabilityError]. *)
Definition sync_prepared_parent (path : list byte) : Eff Saving unit := fun w =>
  let '(w, err) := SyncParent Dir path w in
  (w, match err with
      | None => Ok tt
      | Some e => Err (errWrap 45 (match durability_cause e with Some e => e | None => e end))
      end).

Definition prepareJournalRebaseLocked (ctx : Context) (fingerprint : Fingerprint) (targetRevision : Z) : Eff Saving unit :=
  let* w := eff_get in
  let* newer := newer_loop ctx targetRevision (s_pending (sv_session w)) [] in
  let* _ := sv_check ctx in
  let* (journal, replay) := eff_lift (openJournal (js_path setup) fingerprint (js_mkdirAll setup) (js_openFile setup)).2 in
  let* _ := eff_modify (set_prepared (Some (mkPrepared (Some journal) (js_path setup) [] 0))) in
  or_discard
    (if rr_Truncated replay || negb (zlen (rr_Batches replay) =? 0) then eff_fail journalNotEmpty else
     let* size := with_prepared Size in
     let* _ := update_prepared (fun p => mkPrepared (pj_journal p) (pj_path p) (pj_pending p) size) in
     let* _ := rebase_loop (length newer) ctx newer in
     let* _ := sv_check ctx in
     let* _ := with_prepared (fun j => let '(j, e) := Sync j in (j, match e with Some e => Err e | None => Ok tt end)) in
     let* _ := sv_check ctx in
     sync_prepared_parent (js_path setup)).
End Rebase.

(** * What preparing does *)

(** ** Errors of the system

    [commitAtLeast] tells a replaced base from an untouched one by the
    [DurabilityError] in the error, so no other error may have that type. *)

Definition plain (e : error) : Prop := as_durability e = false.
Definition plain_result {A} (r : Prelude.result A) : Prop := forall e, r = Err e -> plain e.
Definition plain_file (f : file) : Prop := Forall plain_fault (f_faults f).

Lemma next_fault_plain f x f' : next_fault f = (x, f') -> plain_file f -> plain_fault x /\ plain_file f'.
Proof.
  unfold next_fault, plain_file. destruct (f_faults f) as [|y ys] eqn:E; intros [= <- <-]; [by rewrite E|].
  by intros [? ?]%Forall_cons.
Qed.

Ltac plain_op f :=
  let x := fresh "x" in let f1 := fresh "f1" in let Hx := fresh "Hx" in let Hp := fresh "Hp" in
  destruct (next_fault f) as [x f1] eqn:Hx; intros H Hp; destruct (next_fault_plain _ _ _ Hx Hp) as [? ?];
  destruct x; injection H as; subst; cbn in *; unfold plain_result, plain_error, plain; naive_solver.

Lemma file_Stat_plain f f' r : file_Stat f = (f', r) -> plain_file f -> plain_file f' /\ plain_result r.
Proof. unfold file_Stat. plain_op f. Qed.
Lemma file_SeekEnd_plain f f' r : file_SeekEnd f = (f', r) -> plain_file f -> plain_file f' /\ plain_result r.
Proof. unfold file_SeekEnd. plain_op f. Qed.
Lemma file_Sync_plain f f' e : file_Sync f = (f', e) -> plain_file f -> plain_file f' /\ plain_error e.
Proof. unfold file_Sync. plain_op f. Qed.
Lemma file_Close_plain f f' e : file_Close f = (f', e) -> plain_file f -> plain_file f' /\ plain_error e.
Proof. unfold file_Close. plain_op f. Qed.
Lemma file_Sync_spec f f' e : file_Sync f = (f', e) ->
  f_bytes f' = f_bytes f /\ (f_faults f = [] -> e = None /\ f_faults f' = []) /\ (e = None -> durable f').
Proof.
  unfold file_Sync. destruct (next_fault f) as [x f1] eqn:Hx. destruct (next_fault_bytes _ _ _ Hx) as (Hb & _ & Hn).
  intros H. split; [by destruct x; injection H as <- _|]. split.
  - intros Hf. destruct (Hn Hf) as [-> ?]. by injection H as <- <-.
  - intros ->. by destruct x; injection H as <-.
Qed.
Lemma file_Truncate_plain f n f' e : file_Truncate f n = (f', e) -> plain_file f -> plain_file f' /\ plain_error e.
Proof. unfold file_Truncate. plain_op f. Qed.
Lemma file_Write_plain f p f' n e : file_Write f p = (f', (n, e)) -> plain_file f -> plain_file f' /\ plain_error e.
Proof. unfold file_Write. plain_op f. Qed.
Lemma file_WriteAt_plain f p off f' n e : file_WriteAt f p off = (f', (n, e)) -> plain_file f -> plain_file f' /\ plain_error e.
Proof. unfold file_WriteAt. plain_op f. Qed.
Lemma bytes_NewReader_plain p off n : plain_error (bytes_NewReader p off n).2.
Proof. unfold bytes_NewReader. repeat case_match; intros e; cbn; try (intros [= <-]; done); done. Qed.
Lemma file_ReadAt_plain f n off f' d e : file_ReadAt f n off = (f', (d, e)) -> plain_file f -> plain_file f' /\ plain_error e.
Proof.
  unfold file_ReadAt. destruct (next_fault f) as [x f1] eqn:Hx. intros H Hp. destruct (next_fault_plain _ _ _ Hx Hp) as [? ?].
  pose proof (bytes_NewReader_plain (f_bytes f1) off n) as Hb.
  destruct x; [injection H as <- E|injection H as <- <- <-|injection H as <- E];
    try (by rewrite E in Hb); split; [done|]. by intros e' [= <-].
Qed.
Lemma plain_join e1 e2 : plain_error e1 -> plain_error e2 -> plain_error (errors_Join e1 e2).
Proof.
  destruct e1 as [a|], e2 as [b|]; cbn; intros H1 H2 e' [= <-]; auto. cbn. by rewrite (H1 _ eq_refl), (H2 _ eq_refl).
Qed.

Lemma rollback_plain f n cause f' r : rollback f n cause = (f', r) -> plain_file f -> plain cause -> plain_file f' /\ plain_result r.
Proof.
  unfold rollback. destruct (file_Truncate f n) as [f1 e] eqn:Ht. intros [= <- <-] Hp Hc.
  destruct (file_Truncate_plain _ _ _ _ Ht Hp) as [? He]. split; [done|]. intros e' [= <-].
  destruct e as [e|]; cbn; [|done]. unfold plain in *. cbn. by rewrite Hc, (He _ eq_refl).
Qed.

Lemma appendBatch_plain f b p f' r : appendBatch f b p = (f', r) -> plain_file f -> plain_file f' /\ plain_result r.
Proof.
  unfold appendBatch. destruct (file_SeekEnd f) as [f1 [n|e]] eqn:H1; intros H Hp; destruct (file_SeekEnd_plain _ _ _ H1 Hp) as [Hp1 He1].
  2:{ injection H as <- <-. split; [done|]. by intros ? [= <-]; apply He1. }
  destruct (file_Write f1 _) as [f2 [k [e|]]] eqn:H2; destruct (file_Write_plain _ _ _ _ _ H2 Hp1) as [Hp2 He2].
  { eapply rollback_plain; [exact H|done|by apply He2]. }
  destruct (negb _); [by eapply rollback_plain|]. destruct (0 <? zlen p); [|by injection H as <- <-].
  destruct (file_Write f2 _) as [f3 [k3 [e|]]] eqn:H3; destruct (file_Write_plain _ _ _ _ _ H3 Hp2) as [Hp3 He3].
  { eapply rollback_plain; [exact H|done|by apply He3]. }
  destruct (negb _); [by eapply rollback_plain|by injection H as <- <-].
Qed.

Definition plain_journal (j : Journal) : Prop := forall f, j_file j = Some f -> plain_file f.

Lemma AppendBatch_plain j rev grp ops j' r : AppendBatch j rev grp ops = (j', r) -> plain_journal j -> plain_journal j' /\ plain_result r.
Proof.
  unfold AppendBatch. destruct j as [[f|] path]; cbn [j_file]; intros H Hp; [|injection H as <- <-; split; [done|by intros ? [= <-]]].
  specialize (Hp _ eq_refl). destruct (encodeBatchPayload rev grp ops) as [[p offs]|e] eqn:He.
  2:{ injection H as <- <-. split; [by intros ? [= <-]|]. intros e' [= <-]. unfold encodeBatchPayload in He.
      destruct (batchPayloadSize rev grp ops) as [n|e1] eqn:Hb; [done|]. injection He as <-.
      by rewrite (batchPayloadSize_error _ _ _ _ Hb). }
  destruct (appendBatch _ _ _) as [f1 o] eqn:Ha. injection H as <- <-. destruct (appendBatch_plain _ _ _ _ _ Ha Hp) as [Hp1 He1].
  split; [by intros ? [= <-]|]. destruct o as [[]|e]; [done|]. intros e' [= <-]. by apply He1.
Qed.

Lemma Size_plain j j' r : Size j = (j', r) -> plain_journal j -> plain_journal j' /\ plain_result r.
Proof.
  unfold Size. destruct j as [[f|] path]; cbn [j_file]; intros H Hp; [|injection H as <- <-; split; [done|by intros ? [= <-]]].
  destruct (file_Stat f) as [f1 o] eqn:Hs. injection H as <- <-. destruct (file_Stat_plain _ _ _ Hs (Hp _ eq_refl)). split; [by intros ? [= <-]|done].
Qed.
Lemma Sync_plain j j' e : Sync j = (j', e) -> plain_journal j -> plain_journal j' /\ plain_error e.
Proof.
  unfold Sync. destruct j as [[f|] path]; cbn [j_file]; intros H Hp; [|injection H as <- <-; split; [done|by intros ? [= <-]]].
  destruct (file_Sync f) as [f1 o] eqn:Hs. injection H as <- <-. destruct (file_Sync_plain _ _ _ Hs (Hp _ eq_refl)). split; [by intros ? [= <-]|done].
Qed.
Lemma Close_plain j : plain_journal j -> plain_error (Journal.Close j).2.
Proof.
  unfold Journal.Close. destruct j as [[f|] path]; cbn [j_file]; intros Hp; [|done].
  destruct (file_Close f) as [f1 o] eqn:Hs. by destruct (file_Close_plain _ _ _ Hs (Hp _ eq_refl)).
Qed.

(** A journal file that is created. *)
Lemma openJournal_plain path fp mk f j r :
  fingerprint_ok fp -> f_bytes f = [] -> plain_file f -> plain_error mk -> openJournal path fp mk (Ok f) = (j, r) ->
  plain_result r /\ forall journal rr, r = Ok (journal, rr) -> plain_journal journal.
Proof.
  intros Hfp Hnil Hp Hmk. unfold openJournal. rewrite (proj2 (Z.ltb_ge (BaseSize fp) 0)) by apply Hfp.
  destruct mk as [e|]; [intros [= <- <-]; split; [by intros ? [= <-]; apply Hmk|done]|].
  destruct (file_Stat f) as [f1 info] eqn:Hs. destruct (file_Stat_spec _ _ _ Hs) as (_ & Hsz & _).
  destruct (file_Stat_plain _ _ _ Hs Hp) as [Hp1 He1].
  destruct info as [size|e]; [|destruct (file_Close f1); intros [= <- <-]; split; [by intros ? [= <-]; apply He1|done]].
  rewrite (Hsz _ eq_refl), Hnil. change (zlen [] =? 0) with true. cbv iota. unfold writeFileHeader.
  destruct (file_WriteAt f1 _ _) as [f2 [n e2]] eqn:Hw. destruct (file_WriteAt_plain _ _ _ _ _ _ Hw Hp1) as [Hp2 He2].
  assert (forall f3 (e3 : option error), plain_file f3 -> plain_error e3 ->
    match e3 with
    | Some e => let '(f, _) := file_Close f3 in (Some f, Err e)
    | None => (Some f3, Ok (mkJournal (Some f3) path, mkReplayResult [] fileHeaderSize false))
    end = (j, r) -> plain_result r /\ forall journal rr, r = Ok (journal, rr) -> plain_journal journal) as Hend.
  { intros f3 [e3|] Hp3 He3; [destruct (file_Close f3); intros [= <- <-]; split; [by intros ? [= <-]; apply He3|done]|].
    intros [= <- <-]. split; [done|]. intros journal rr [= <- <-]. by intros ? [= <-]. }
  destruct e2 as [e2|]; [by apply (Hend f2 (Some e2))|]. destruct (file_Sync f2) as [f3 e3] eqn:Hy.
  destruct (file_Sync_plain _ _ _ Hy Hp2) as [Hp3 He3]. by apply Hend.
Qed.

(** ** Reading the session's journal *)

Definition journal_faults (s : Session) : list fault :=
  match s_journal s with Some j => match j_file j with Some f => f_faults f | None => [] end | None => [] end.
Definition plain_session (s : Session) : Prop := Forall plain_fault (journal_faults s).

(** A session whose journal has been read. *)
Record reread (s s' : Session) : Prop := mkReread {
  re_frame : s' = set_tree (s_tree s') (set_journal (s_journal s') s);
  re_data : session_data s' = session_data s;
  re_text base doc : holds (texts base (session_data s)) (s_tree s) doc -> holds (texts base (session_data s)) (s_tree s') doc;
  re_open : journal_open s -> journal_open s';
  re_faults : exists used, journal_faults s = used ++ journal_faults s' }.

Lemma reread_refl s : reread s s.
Proof. split; try done; [by destruct s|by exists []]. Qed.
Lemma reread_trans s1 s2 s3 : reread s1 s2 -> reread s2 s3 -> reread s1 s3.
Proof.
  intros [F1 D1 T1 O1 [u1 U1]] [F2 D2 T2 O2 [u2 U2]]. split; [|congruence|intros base doc H; rewrite <-D1; apply T2; rewrite D1; auto|auto|].
  - rewrite F2, F1 at 1. done.
  - exists (u1 ++ u2). by rewrite U1, U2, app_assoc.
Qed.
Lemma plain_reread s s' : reread s s' -> plain_session s -> plain_session s'.
Proof. intros [_ _ _ _ [u U]]. unfold plain_session. rewrite U. by intros [_ ?]%Forall_app. Qed.
Lemma clean_reread s s' : reread s s' -> journal_faults s = [] -> journal_faults s' = [].
Proof. intros [_ _ _ _ [u U]] E. rewrite E in U. by symmetry in U; apply app_nil in U as [_ ?]. Qed.

Lemma session_ok_reread base s s' v : session_ok base s v -> reread s s' -> session_ok base s' v.
Proof.
  intros [[] ? ? ? ? ? ?] [F D T O _]. split; [|rewrite F; by session_simpl..].
  split; [by rewrite F|by rewrite F|rewrite D; by apply T|done|by apply O|by rewrite F|by rewrite F|by rewrite F].
Qed.
Lemma indexed_reread start xs s s' doc : indexed start xs s doc -> reread s s' -> indexed start xs s' doc.
Proof. intros [] [F D _ _ _]. split; rewrite ?D; try done; by rewrite F. Qed.

(** A part of the preparation: the session's journal may have been read, the
    prepared journal written and system calls made. *)
Record working (w w' : Saving) : Prop := mkWorking {
  wk_session : reread (sv_session w) (sv_session w');
  wk_frame : w' = set_prepared (sv_prepared w') (set_poll (sv_poll w') (set_world (sv_disk w') (set_session (sv_session w') w)));
  wk_quiet : quiet w w' }.

Lemma working_refl w : working w w.
Proof. split; [apply reread_refl|by destruct w as [? ? ? ? ? ? []]|apply quiet_refl]. Qed.
Lemma working_trans w1 w2 w3 : working w1 w2 -> working w2 w3 -> working w1 w3.
Proof.
  intros [S1 F1 Q1] [S2 F2 Q2]. split; [by eapply reread_trans| |by eapply quiet_trans]. rewrite F2, F1 at 1. done.
Qed.
Lemma working_poll k w : working w (set_poll k w).
Proof. split; [apply reread_refl|by destruct w as [? ? ? ? ? ? []]|split; [done|done|by exists []]]. Qed.
Lemma working_prepared p w : working w (set_prepared p w).
Proof. split; [apply reread_refl|by destruct w as [? ? ? ? ? ? []]|split; [done|done|by exists []]]. Qed.
Lemma working_session s w : reread (sv_session w) s -> working w (set_session s w).
Proof. intros. split; [done|by destruct w as [? ? ? ? ? ? []]|split; [done|done|by exists []]]. Qed.

Definition plain_context (ctx : Context) : Prop := forall k e, ctx k = Some e -> plain e.

Lemma sv_check_inv ctx w w' r :
  sv_check ctx w = (w', r) -> w' = set_poll (S (sv_poll w)) w /\ r = match ctx (sv_poll w) with Some e => Err e | None => Ok tt end.
Proof. intros (e & [= <- <-] & ->)%eff_call_inv. done. Qed.

Lemma sv_check_spec ctx w w' r :
  sv_check ctx w = (w', r) -> working w w' /\ sv_prepared w' = sv_prepared w /\ sv_session w' = sv_session w /\
  (plain_context ctx -> plain_result r) /\ (steady ctx -> r = Ok tt).
Proof.
  intros [-> ->]%sv_check_inv. split_and!; [apply working_poll|done|done| |].
  - intros Hp e. destruct (ctx (sv_poll w)) as [e'|] eqn:E; [|done]. intros [= <-]. by eapply Hp.
  - intros Hs. by rewrite Hs.
Qed.

Section Preparing.
Context (journal_reads : list byte -> ReaderAt) (reads_ok : forall data, ReaderOk (journal_reads data) data).

Lemma reread_read s f f' path used :
  s_journal s = Some (mkJournal (Some f) path) -> f_bytes f' = f_bytes f -> f_faults f = used ++ f_faults f' ->
  reread s (use_journal journal_reads (mkJournal (Some f') path) s).
Proof using reads_ok.
  intros Hj Hb Hf. assert (session_data s = f_bytes f) as Hd by (unfold session_data; by rewrite Hj). split.
  - by destruct s.
  - rewrite Hd. exact Hb.
  - intros base doc Ht. unfold use_journal. cbn [s_tree set_tree]. unfold alias. cbn [journal_data j_file]. rewrite Hb, <-Hd.
    pose proof (holds_grow journal_reads reads_ok base (session_data s) [] (s_tree s) doc Ht) as H. by rewrite app_nil_r in H.
  - intros _ j [= <-]. by eexists.
  - exists used. unfold journal_faults. rewrite Hj. exact Hf.
Qed.

Lemma file_ReadAt_faults f n off f' r : file_ReadAt f n off = (f', r) -> exists used, f_faults f = used ++ f_faults f'.
Proof using.
  unfold file_ReadAt, next_fault. destruct (f_faults f) as [|[] xs] eqn:E; intros [= <- _]; cbn; rewrite ?E; [by exists []|..]; by eexists [_].
Qed.

Lemma read_pending_spec op text w w' r :
  read_pending journal_reads op w = (w', r) -> journal_open (sv_session w) -> payload_at (session_data (sv_session w)) (po_insertOffset op) text ->
  po_insertLength op = zlen text ->
  working w w' /\ sv_prepared w' = sv_prepared w /\ (forall v, r = Ok v -> v = text) /\
  (plain_session (sv_session w) -> plain_result r) /\ (journal_faults (sv_session w) = [] -> r = Ok text).
Proof using reads_ok.
  intros H Hopen (H0 & H1 & H2) Hlen. unfold read_pending in H. pose proof (zlen_nonneg text) as Hn. rewrite Hlen in H.
  destruct (Z.ltb_spec 0 (zlen text)) as [Hpos|Hz].
  2:{ injection H as <- <-. assert (text = []) as -> by (apply zlen_zero; lia).
      split_and!; [apply working_refl|done|by intros v [= <-]|done|done]. }
  assert (exists f path, s_journal (sv_session w) = Some (mkJournal (Some f) path)) as (f & path & Hj).
  { destruct (s_journal (sv_session w)) as [[[f|] path]|] eqn:E; [by eexists _, _|by destruct (Hopen _ E)|].
    unfold session_data in H1. rewrite E, zlen_nil in H1. lia. }
  assert (session_data (sv_session w) = f_bytes f) as Hd by (unfold session_data; by rewrite Hj). rewrite Hd in *.
  rewrite Hj in H. unfold ReadAt in H. cbn [j_file] in H. destruct (file_ReadAt f (zlen text) (po_insertOffset op)) as [f' [got e]] eqn:Hr.
  destruct (file_ReadAt_spec _ _ _ _ _ _ Hr H0 Hpos H1) as (Hb & Hgot & Hnone & Hcl). destruct (file_ReadAt_faults _ _ _ _ _ Hr) as [used Hu].
  rewrite H2 in *. injection H as <- <-. change (Journal.with_file (mkJournal (Some f) path) f') with (mkJournal (Some f') path).
  assert (got = text \/ zlen got <> zlen text) as Hcase.
  { destruct (decide (zlen got = zlen text)) as [E|]; [left|by right]. rewrite Hgot, E. by apply ztake_all. }
  split; [apply working_session; by eapply reread_read|]. split; [done|]. split_and!.
  - intros v Hv. destruct Hcase as [->|Hne].
    + destruct e as [e|]; [destruct (errors_Is e io_EOF && _)|destruct (zlen text =? zlen text)]; congruence.
    + apply Z.eqb_neq in Hne. rewrite Hne in Hv. destruct e; rewrite ?andb_false_r in Hv; done.
  - intros Hp. unfold plain_session, journal_faults in Hp. rewrite Hj in Hp. destruct (file_ReadAt_plain _ _ _ _ _ _ Hr Hp) as [_ He].
    intros e'. destruct e as [e|]; [destruct (_ && _); [done|]; intros [= <-]; by apply He|destruct (_ =? _); [done|by intros [= <-]]].
  - intros Hc. unfold journal_faults in Hc. rewrite Hj in Hc. destruct (Hcl Hc) as [-> _]. specialize (Hnone eq_refl) as ->. by rewrite Z.eqb_refl.
Qed.

(** Nothing fails around the preparation: the context and the session's journal. *)
Definition calm_session (ctx : Context) (w : Saving) : Prop := steady ctx /\ journal_faults (sv_session w) = [].
Definition plain_around (ctx : Context) (w : Saving) : Prop := plain_context ctx /\ plain_session (sv_session w).

Lemma calm_working ctx w w' : working w w' -> calm_session ctx w -> calm_session ctx w'.
Proof using. intros [Hr _ _] [? ?]. split; [done|]. by eapply clean_reread. Qed.
Lemma plain_working ctx w w' : working w w' -> plain_around ctx w -> plain_around ctx w'.
Proof using. intros [Hr _ _] [? ?]. split; [done|]. by eapply plain_reread. Qed.

Lemma read_batch_spec ctx grp ops : forall revision offsets w w' r,
  read_batch journal_reads ctx (pending_entries revision grp ops offsets) w = (w', r) -> journal_open (sv_session w) ->
  Forall2 (payload_at (session_data (sv_session w))) offsets (map ro_Inserted ops) ->
  working w w' /\ sv_prepared w' = sv_prepared w /\ (forall v, r = Ok v -> v = ops) /\
  (plain_around ctx w -> plain_result r) /\ (calm_session ctx w -> r = Ok ops).
Proof using reads_ok.
  induction ops as [|o ops IH]; intros revision offsets w w' r H Ho Hp; cbn [pending_entries read_batch] in H.
  { injection H as <- <-. split_and!; [apply working_refl|done|by intros v [= <-]|done|done]. }
  inversion Hp as [|off ? offs ? Hp1 Hps]; subst. cbn [hd tl] in H.
  split_eff H; [destruct (sv_check_spec _ _ _ _ Hc) as (Hw1 & Ep1 & Es1 & Hpl1 & Hcl1)|destruct (sv_check_spec _ _ _ _ Hc) as (Hw1 & Ep1 & Es1 & Hpl1 & Hcl1)].
  { split_and!; [done|done|done|by intros [? _] ? [= <-]; apply Hpl1|intros [Hs _]; by specialize (Hcl1 Hs)]. }
  split_eff H; [destruct (read_pending_spec _ (ro_Inserted o) _ _ _ Hc0) as (Hw2 & Ep2 & Hv2 & Hpl2 & Hcl2); rewrite ?Es1; [done..|]
               |destruct (read_pending_spec _ (ro_Inserted o) _ _ _ Hc0) as (Hw2 & Ep2 & Hv2 & Hpl2 & Hcl2); rewrite ?Es1; [done..|]].
  { pose proof (working_trans _ _ _ Hw1 Hw2) as Hw. split_and!; [done|congruence|done| |].
    - intros [_ Hs] e' [= <-]. rewrite Es1 in Hpl2. by apply Hpl2.
    - intros [_ Hs]. rewrite Es1 in Hcl2. by specialize (Hcl2 Hs). }
  pose proof (working_trans _ _ _ Hw1 Hw2) as Hw. rewrite (Hv2 _ eq_refl) in *.
  assert (journal_open (sv_session w1)) as Ho1 by (by apply (re_open _ _ (wk_session _ _ Hw))).
  assert (session_data (sv_session w1) = session_data (sv_session w)) as Hd1 by apply (re_data _ _ (wk_session _ _ Hw)).
  split_eff H; [destruct (IH _ _ _ _ _ Hc1 Ho1) as (Hw3 & Ep3 & Hv3 & Hpl3 & Hcl3); [by rewrite Hd1|]
               |destruct (IH _ _ _ _ _ Hc1 Ho1) as (Hw3 & Ep3 & Hv3 & Hpl3 & Hcl3); [by rewrite Hd1|]].
  { split_and!; [by eapply working_trans|congruence|done| |].
    - intros Hp0 e' [= <-]. apply Hpl3; [|done]. by eapply plain_working.
    - intros Hc0'. by specialize (Hcl3 (calm_working _ _ _ Hw Hc0')). }
  injection H as <- <-. split_and!; [by eapply working_trans|congruence| |done|].
  - intros v [= <-]. rewrite (Hv3 _ eq_refl). by destruct o.
  - intros _. rewrite (Hv3 _ eq_refl). by destruct o.
Qed.

End Preparing.

(** ** The edits after a revision *)

Lemma pending_logs_split data xs ys : forall ps, pending_logs data (xs ++ ys) ps ->
  exists p q, ps = p ++ q /\ pending_logs data xs p /\ pending_logs data ys q.
Proof.
  induction xs as [|x xs IH]; intros ps H; [exists [], ps; split_and!; [done|constructor|done]|].
  inversion H as [|? ? p q Hx Hxs]; subst. destruct (IH _ Hxs) as (p' & q' & -> & Hp & Hq).
  exists (p ++ p'), q'. rewrite app_assoc. split_and!; [done|by constructor|done].
Qed.

(** The revisions of a batch are consecutive and its group is one. *)
Lemma pending_entries_spec grp ops : forall revision offsets,
  0 <= revision -> revision + zlen ops - 1 <= maxUint64 ->
  Forall (fun o => po_group o = grp /\ revision <= po_revision o <= revision + zlen ops - 1) (pending_entries revision grp ops offsets).
Proof.
  induction ops as [|o ops IH]; intros revision offsets H0 H1; cbn [pending_entries]; constructor; rewrite zlen_cons in *; pose proof (zlen_nonneg ops).
  - cbn. lia.
  - destruct (decide (ops = [])) as [->|Hne]; [constructor|]. assert (0 < zlen ops) by (destruct ops; [done|rewrite zlen_cons; pose proof (zlen_nonneg ops); lia]).
    rewrite u64_id by go_lia. eapply List.Forall_impl; [|apply IH; lia]. cbn. lia.
Qed.

Lemma length_pending_entries grp ops : forall revision offsets, length (pending_entries revision grp ops offsets) = length ops.
Proof. induction ops as [|o ops IH]; intros; [done|]. cbn. by rewrite IH. Qed.

Lemma pending_revisions data start xs ps : forall revision,
  logs_ok start revision xs -> 0 <= revision -> pending_logs data xs ps ->
  Forall (fun o => revision < po_revision o <= revision + log_edits xs) ps.
Proof.
  intros revision H H0 Hp. revert start revision H H0. induction Hp as [|x xs ps qs (offs & _ & ->) _ IH]; intros start revision H H0; [constructor|].
  destruct H as (Hr & _ & Hx & _ & H). pose proof (bo_rev _ _ _ Hx) as Hrev. pose proof (log_edits_nonneg xs) as Hn.
  pose proof (zlen_nonneg (l_ops x)). cbn [log_edits].
  apply List.Forall_app. split.
  - eapply List.Forall_impl; [|apply pending_entries_spec; lia]. cbn. lia.
  - eapply List.Forall_impl; [|apply (IH _ _ H); lia]. cbn. lia.
Qed.

Lemma newer_logs data start revision xs ys ps :
  logs_ok start revision (xs ++ ys) -> 0 <= revision -> pending_logs data (xs ++ ys) ps ->
  pending_logs data ys (List.filter (fun o => revision + log_edits xs <? po_revision o) ps).
Proof.
  intros H H0 Hp. apply logs_ok_app in H as [Hx Hy]. destruct (pending_logs_split _ _ _ _ Hp) as (p & q & -> & Hpx & Hpy).
  rewrite List.filter_app. pose proof (pending_revisions _ _ _ _ _ Hx H0 Hpx) as Fx.
  pose proof (log_edits_nonneg xs). pose proof (pending_revisions _ _ _ _ _ Hy ltac:(lia) Hpy) as Fy.
  replace (List.filter _ p) with (@nil pendingOperation).
  - replace (List.filter _ q) with q; [done|]. clear -Fy. induction Fy as [|o q Ho _ IH]; [done|]. cbn.
    rewrite (proj2 (Z.ltb_lt _ _)) by lia. by f_equal.
  - clear -Fx. induction Fx as [|o p Ho _ IH]; [done|]. cbn. by rewrite (proj2 (Z.ltb_ge _ _)) by lia.
Qed.

Lemma same_group_app grp p q :
  Forall (fun o => po_group o = grp) p -> match q with [] => True | o :: _ => po_group o <> grp end -> same_group grp (p ++ q) = (p, q).
Proof.
  intros Hp Hq. induction Hp as [|o p Ho _ IH]; cbn [app same_group].
  - destruct q as [|o q]; [done|]. cbn. by rewrite (proj2 (Z.eqb_neq _ _)).
  - rewrite Ho, Z.eqb_refl, IH. done.
Qed.

(** The operations of the first batch, taken from the whole list. *)
Lemma first_batch data start revision x xs p q :
  logs_ok start revision (x :: xs) -> 0 <= revision -> Forall (fun x => l_group x = l_rev x) (x :: xs) ->
  pending_batch data x p -> pending_logs data xs q ->
  exists o p', p = o :: p' /\ po_revision o = l_rev x /\ po_group o = l_group x /\ same_group (l_group x) (p ++ q) = (p, q).
Proof.
  intros (Hr & _ & Hx & _ & H) H0 Hg (offs & _ & ->) Hq. apply Forall_cons in Hg as [Hgx Hg].
  pose proof (bo_rev _ _ _ Hx) as Hrev. pose proof (bo_count _ _ _ Hx) as Hcount. pose proof (zlen_nonneg (l_ops x)).
  destruct (l_ops x) as [|o ops] eqn:Eo; [rewrite zlen_nil in Hcount; lia|]. eexists _, _. split; [done|]. split; [done|]. split; [done|].
  rewrite <-Eo in *. apply same_group_app; [eapply List.Forall_impl; [|apply (pending_entries_spec (l_group x)); lia]; cbn; tauto|].
  destruct Hq as [|y ys ps qs (offs' & _ & ->) _]; [done|]. destruct H as (Hry & _ & Hy & _). apply Forall_cons in Hg as [Hgy _].
  pose proof (bo_count _ _ _ Hy) as Hcy. destruct (l_ops y) as [|o' ops'] eqn:Ey; [rewrite zlen_nil in Hcy; lia|]. cbn. lia.
Qed.

Lemma move_entries grp ops : forall revision offsets offsets',
  move_batch (pending_entries revision grp ops offsets) offsets' = pending_entries revision grp ops offsets'.
Proof. induction ops as [|o ops IH]; intros; [done|]. cbn. rewrite IH. done. Qed.

(** ** The new journal *)

Section Prepared.
Context (journal_reads : list byte -> ReaderAt) (reads_ok : forall data, ReaderOk (journal_reads data) data).

Lemma newer_loop_spec ctx target ps : forall acc w w' r,
  newer_loop ctx target ps acc w = (w', r) ->
  working w w' /\ sv_prepared w' = sv_prepared w /\ sv_session w' = sv_session w /\
  (forall v, r = Ok v -> v = acc ++ List.filter (fun o => target <? po_revision o) ps) /\
  (plain_context ctx -> plain_result r) /\ (steady ctx -> exists v, r = Ok v).
Proof using.
  induction ps as [|o ps IH]; intros acc w w' r H; cbn [newer_loop] in H.
  { injection H as <- <-. split_and!; [apply working_refl|done|done|intros v [= <-]; by rewrite app_nil_r|done|by eexists]. }
  split_eff H; destruct (sv_check_spec _ _ _ _ Hc) as (Hw1 & Ep1 & Es1 & Hpl1 & Hcl1).
  { split_and!; [done|done|done|done|by intros Hp ? [= <-]; apply Hpl1|intros Hs; by specialize (Hcl1 Hs)]. }
  destruct (IH _ _ _ _ H) as (Hw2 & Ep2 & Es2 & Hv2 & Hpl2 & Hcl2).
  split_and!; [by eapply working_trans|congruence|congruence| |done|done].
  intros v Hv. rewrite (Hv2 v Hv). cbn. destruct (target <? po_revision o); [by rewrite <-app_assoc|done].
Qed.

(** What has been prepared: a journal that holds [data], and the operations. *)
Definition prepared_with (w : Saving) (f : file) (path : list byte) (ps : list pendingOperation) (n : Z) : Prop :=
  sv_prepared w = Some (mkPrepared (Some (mkJournal (Some f) path)) path ps n).

Lemma with_prepared_inv {A} (c : Journal -> Journal * Prelude.result A) w w' r f path ps n :
  with_prepared c w = (w', r) -> prepared_with w f path ps n ->
  exists j, c (mkJournal (Some f) path) = (j, r) /\ w' = set_prepared (Some (mkPrepared (Some j) path ps n)) w.
Proof using.
  unfold with_prepared, prepared_with. intros H E. rewrite E in H. cbn [pj_journal pj_path pj_pending pj_bytes] in H.
  destruct (c _) as [j o]. injection H as <- <-. by eexists.
Qed.

Lemma rebase_loop_spec ctx ys : forall start revision ps fuel w w' r f path ps0 n,
  rebase_loop journal_reads fuel ctx ps w = (w', r) -> (length ps <= fuel)%nat ->
  logs_ok start revision ys -> 0 <= revision -> Forall (fun x => l_group x = l_rev x) ys ->
  pending_logs (session_data (sv_session w)) ys ps -> journal_open (sv_session w) -> prepared_with w f path ps0 n ->
  zlen (f_bytes f) + zlen (encodeAll ys) + batchHeaderSize + maximumBatchPayload <= maxInt64 -> n = zlen (f_bytes f) ->
  working w w' /\
  (forall a, r = Ok a -> exists f' qs, prepared_with w' f' path (ps0 ++ qs) (zlen (f_bytes f')) /\ f_bytes f' = f_bytes f ++ encodeAll ys /\
     pending_logs (f_bytes f') ys qs /\ (plain_file f -> plain_file f') /\ (f_faults f = [] -> f_faults f' = [])) /\
  (forall e, r = Err e -> exists p j, sv_prepared w' = Some p /\ pj_journal p = Some j /\ (plain_file f -> plain_journal j)) /\
  (plain_around ctx w -> plain_file f -> plain_result r) /\ (calm_session ctx w -> f_faults f = [] -> exists a, r = Ok a).
Proof using reads_ok.
  induction ys as [|y ys IH]; intros start revision ps fuel w w' r f path ps0 n H Hfuel Hlog H0 Hgr Hp Ho Hpr Hroom ->.
  { inversion Hp; subst. assert (H' : eff_ret tt w = (w', r)) by (by destruct fuel). injection H' as <- <-.
    split; [apply working_refl|]. split; [|split; [done|by split; [|intros; eexists]]].
    intros a _. exists f, []. unfold encodeAll. cbn. rewrite !app_nil_r. split; [done|split; [done|split; [constructor|done]]]. }
  inversion Hp as [|? ? p q Hb Hq]; subst. destruct (first_batch _ _ _ _ _ _ _ Hlog H0 Hgr Hb Hq) as (o & p' & -> & Er & Eg & Hsame).
  destruct Hlog as (Hr & Hg & Hy & Hops & Hlog). apply Forall_cons in Hgr as [_ Hgr]. pose proof (bo_rev _ _ _ Hy) as Hrev.
  pose proof (bo_count _ _ _ Hy) as Hcount.
  cbn [app length] in Hfuel. destruct fuel as [|fuel]; [lia|]. cbn [app rebase_loop] in H.
  unfold encodeAll in Hroom. cbn [map concat] in Hroom. rewrite zlen_app in Hroom. fold (encodeAll ys) in Hroom.
  pose proof (zlen_nonneg (encodeAll ys)) as Hn1. pose proof (zlen_nonneg (encodeLogged y)) as Hn2.
  assert (forall w1, sv_prepared w1 = sv_prepared w ->
    exists p j, sv_prepared w1 = Some p /\ pj_journal p = Some j /\ (plain_file f -> plain_journal j)) as Hkeep.
  { intros w1 ->. eexists _, _. split; [exact Hpr|]. split; [done|]. by intros ? ? [= <-]. }
  split_eff H; destruct (sv_check_spec _ _ _ _ Hc) as (Hw1 & Ep1 & Es1 & Hpl1 & Hcl1).
  { split_and!; [done|done|intros ? _; by apply Hkeep|by intros [? _] _ ? [= <-]; apply Hpl1|intros [Hs _]; by specialize (Hcl1 Hs)]. }
  rewrite Eg in H. change (o :: p' ++ q) with ((o :: p') ++ q) in H. rewrite Hsame in H.
  destruct Hb as (offs & Hoff & Epp). rewrite Epp in H. rewrite <-Es1 in Hoff, Ho.
  split_eff H; destruct (read_batch_spec _ reads_ok _ _ _ _ _ _ _ _ Hc0 Ho Hoff) as (Hw2 & Ep2 & Hv2 & Hpl2 & Hcl2);
    pose proof (working_trans _ _ _ Hw1 Hw2) as Hw12.
  { split_and!; [done|done|intros ? _; apply Hkeep; congruence| |].
    - intros Hp0 _ ? [= <-]. apply Hpl2; [|done]. by eapply plain_working.
    - intros Hc0' _. by specialize (Hcl2 (calm_working _ _ _ Hw1 Hc0')). }
  rewrite (Hv2 _ eq_refl), Er in H. clear Hv2. assert (prepared_with w1 f path ps0 (zlen (f_bytes f))) as Hpr1 by (unfold prepared_with; congruence).
  split_eff H; destruct (with_prepared_inv _ _ _ _ _ _ _ _ Hc1 Hpr1) as (j & Hj & ->);
    destruct (AppendBatch_appended _ _ _ _ _ _ _ Hj (batch_ok_typed _ _ _ Hy) ltac:(lia)) as (f1 & -> & Happ & Hcl3 & Hprog & _);
    pose proof (AppendBatch_plain _ _ _ _ _ _ Hj) as Hpl3.
  { split_and!; [eapply working_trans; [exact Hw12|apply working_prepared]|done| | |].
    - intros ? _. eexists _, _. split; [done|]. split; [done|]. intros Hf. apply Hpl3. by intros ? [= <-].
    - intros _ Hf ? [= <-]. apply Hpl3; [by intros ? [= <-]|done].
    - intros _ Hf. by destruct (Hprog Hf Hy). }
  destruct Happ as (_ & Hbytes & _ & Hend & Hoffs). unfold update_prepared, eff_modify, eff_bind at 1 in H.
  rewrite move_entries, Hoffs, Hend in H. cbn [sv_prepared set_prepared set_locals lc_set_prepared lc_prepared sv_locals pj_journal pj_path pj_pending pj_bytes] in H.
  assert (f_bytes f1 = f_bytes f ++ encodeLogged y) as Hbytes' by exact Hbytes.
  set (w3 := set_prepared _ _) in H. assert (working w w3) as Hw3.
  { eapply working_trans; [exact Hw12|]. eapply working_trans; [apply working_prepared|apply working_prepared]. }
  pose proof (re_data _ _ (wk_session _ _ Hw12)) as Hd.
  destruct (IH (apply_ops (map to_op (l_ops y)) start) (revision + zlen (l_ops y)) _ _ _ _ _ f1 path (ps0 ++ pending_entries (l_rev y) (l_group y) (l_ops y) (map op_PayloadOffset (b_Operations (locatedBatch (zlen (f_bytes f)) (l_rev y) (l_group y) (l_ops y)))))
    (zlen (f_bytes f1)) H) as (Hw4 & Hok & Herr & Hpl4 & Hcl4).
  - rewrite length_app in Hfuel. lia.
  - exact Hlog.
  - lia.
  - done.
  - change (sv_session w3) with (sv_session w1). by rewrite Hd.
  - change (sv_session w3) with (sv_session w1). rewrite Es1 in Ho. by apply (re_open _ _ (wk_session _ _ Hw12)).
  - done.
  - rewrite Hbytes', zlen_app. lia.
  - done.
  - assert (plain_file f -> plain_file f1) as Hpf by (intros Hf; apply (Hpl3 ltac:(by intros ? [= <-])); done).
    split; [by eapply working_trans|]. split; [|split; [|split]].
    + intros a' Ha. destruct (Hok a' Ha) as (f' & qs & Hpr' & Hb' & Hl' & Hpf' & Hcf'). exists f'. eexists. rewrite <-app_assoc in Hpr'.
      split; [exact Hpr'|]. unfold encodeAll. cbn [map concat]. fold (encodeAll ys). rewrite app_assoc, <-Hbytes'. split; [done|].
      split; [|by split; auto]. constructor; [|done].
      eexists. split; [|reflexivity]. pose proof (appended_payloads (f_bytes f) y) as Hpay. rewrite <-Hbytes' in Hpay. rewrite Hb'.
      eapply Forall2_impl; [exact Hpay|]. intros. by apply payload_at_app.
    + intros e He. destruct (Herr e He) as (p1 & j1 & ? & ? & ?). exists p1, j1. split_and!; [done|done|auto].
    + intros Hp0 Hf. apply Hpl4; [by eapply plain_working|auto].
    + intros Hc0' Hf. apply Hcl4; [by eapply calm_working|auto].
Qed.
End Prepared.

(** The system's answers about the new journal. *)
Record plain_setup (setup : JournalSetup) : Prop := mkPlainSetup {
  ps_mkdirAll : plain_error (js_mkdirAll setup);
  ps_openFile : plain_result (js_openFile setup) /\ forall f, js_openFile setup = Ok f -> plain_file f;
  ps_remove : plain_error (js_remove setup) }.
Definition calm_setup (setup : JournalSetup) : Prop :=
  js_mkdirAll setup = None /\ exists f, js_openFile setup = Ok f /\ f_faults f = [].

(** Nothing fails, or fails with an error of the system's own. *)
Definition calm_saving (ctx : Context) (setup : JournalSetup) (w : Saving) : Prop :=
  calm_session ctx w /\ calm_setup setup /\ w_faults (disk w) = [].
Definition plain_saving (ctx : Context) (setup : JournalSetup) (w : Saving) : Prop :=
  plain_around ctx w /\ plain_setup setup /\ plain_disk w.

Lemma calm_saving_working ctx setup w w' : working w w' -> calm_saving ctx setup w -> calm_saving ctx setup w'.
Proof.
  intros Hw (? & ? & Hd). split; [by eapply calm_working|]. split; [done|].
  exact (evolves_no_fault (fun _ => True) _ _ (quiet_evolves _ _ _ (wk_quiet _ _ Hw)) Hd).
Qed.
Lemma plain_saving_working ctx setup w w' : working w w' -> plain_saving ctx setup w -> plain_saving ctx setup w'.
Proof.
  intros Hw (? & ? & Hd). split; [by eapply plain_working|]. split; [done|].
  exact (plain_evolves (fun _ => True) _ _ (quiet_evolves _ _ _ (wk_quiet _ _ Hw)) Hd).
Qed.

(** A step that may fail, within a preparation: [Q] after a success, [K] after a
    failure. *)
Record step_of {A} (ctx : Context) (setup : JournalSetup) (Q : A -> Saving -> Prop) (K : Saving -> Prop) (w w' : Saving)
  (r : Prelude.result A) : Prop := mkStep {
  st_working : working w w';
  st_ok a : r = Ok a -> Q a w';
  st_err e : r = Err e -> K w';
  st_plain : plain_saving ctx setup w -> plain_result r;
  st_calm : calm_saving ctx setup w -> exists a, r = Ok a }.

Lemma step_bind {A B} ctx setup (c : Eff Saving A) (k : A -> Eff Saving B) P Q K w w' r :
  eff_bind c k w = (w', r) -> (forall w1 r1, c w = (w1, r1) -> step_of ctx setup P K w w1 r1) ->
  (forall a w1, P a w1 -> working w w1 -> forall w2 r2, k a w1 = (w2, r2) -> step_of ctx setup Q K w1 w2 r2) ->
  step_of ctx setup Q K w w' r.
Proof.
  intros H Hc Hk. apply eff_bind_inv in H as [(e & He & ->)|(w1 & a & Ha & Hb)].
  - destruct (Hc _ _ He) as [H1 _ H2 H3 H4]. split; [done|done|by intros ? _; eapply H2|by intros Hp ? [= <-]; apply H3|intros Hcalm; by destruct (H4 Hcalm)].
  - destruct (Hc _ _ Ha) as [H1 H2 _ H3 H4]. destruct (Hk a w1 (H2 a eq_refl) H1 _ _ Hb) as [K1 K2 Ke K3 K4]. split; [by eapply working_trans|done|done| |].
    + intros Hp. apply K3. by eapply plain_saving_working.
    + intros Hp. apply K4. by eapply calm_saving_working.
Qed.

(** Nothing of the session and the prepared journal changes. *)
Definition unmoved (w w1 : Saving) : Prop := sv_prepared w1 = sv_prepared w /\ sv_session w1 = sv_session w.

Lemma step_check ctx setup K w w' r :
  (forall w1, unmoved w w1 -> K w1) -> sv_check ctx w = (w', r) -> step_of ctx setup (fun _ => unmoved w) K w w' r.
Proof.
  intros HK H. destruct (sv_check_spec _ _ _ _ H) as (? & ? & ? & Hp & Hs). split; [done|done|intros ? _; by apply HK|intros ((? & _) & _); by apply Hp|].
  intros ((? & _) & _). eexists. by apply Hs.
Qed.

Section Prepare.
Context (journal_reads : list byte -> ReaderAt) (reads_ok : forall data, ReaderOk (journal_reads data) data).
Context (Dir : FilePath -> FilePath) (setup : JournalSetup).

Lemma discard_spec remove w w' e :
  discardPreparedJournal setup remove w = (w', e) ->
  working w w' /\ (plain_error (js_remove setup) -> (forall p j, sv_prepared w = Some p -> pj_journal p = Some j -> plain_journal j) -> plain_error e) /\
  (match sv_prepared w with Some p => pj_journal p = None | None => True end -> w' = w /\ e = None) /\
  (forall p, sv_prepared w = Some p -> sv_prepared w' = Some (mkPrepared None (pj_path p) (pj_pending p) (pj_bytes p)) \/ w' = w).
Proof using.
  unfold discardPreparedJournal. intros H. destruct (sv_prepared w) as [p|] eqn:Ep.
  2:{ injection H as <- <-. split_and!; [apply working_refl|done|done|done]. }
  destruct (pj_journal p) as [j|] eqn:Ej.
  2:{ injection H as <- <-. split_and!; [apply working_refl|done|done|intros ? [= <-]; by right]. }
  destruct (Journal.Close j) as [j' e1] eqn:Hcl. split_and!.
  - destruct (negb remove); injection H as <- _; apply working_prepared.
  - intros Hr Hj. pose proof (Close_plain j (Hj _ _ eq_refl Ej)) as He. rewrite Hcl in He. cbn in He.
    destruct (negb remove); injection H as _ <-; [done|]. apply plain_join; [done|].
    destruct (js_remove setup) as [e2|]; [|done]. by destruct (errors_Is e2 os_ErrNotExist).
  - done.
  - intros p' [= <-]. left. destruct (negb remove); injection H as <- _; done.
Qed.

Lemma sync_prepared_step ctx K path w w' r :
  (forall w1, unmoved w w1 -> K w1) -> sync_prepared_parent Dir path w = (w', r) ->
  step_of ctx setup (fun _ w1 => unmoved w w1 /\ head (w_synced (disk w1)) = Some (Dir path)) K w w' r.
Proof using.
  intros HK. unfold sync_prepared_parent, SyncParent, syncParent. pose proof (syncParent_only Dir path w) as [d Hd].
  destruct (syncParentWithOperations _ _ _ _) as [w1 e] eqn:E. cbn [fst] in Hd.
  destruct (syncParent_quiet _ _ _ _ _ E) as [Hq Hn].
  assert (e = None -> head (w_synced (disk w1)) = Some (Dir path)) as Hsy by (intros ->; by rewrite (syncParent_synced _ _ _ _ E)).
  intros H. apply pair_equal_spec in H as [<- <-]. split.
  - rewrite Hd in *. split; [apply reread_refl|by destruct w as [? ? ? ? ? ? []]|done].
  - intros [] He. split; [|by apply Hsy; destruct e]. rewrite Hd. done.
  - intros ? _. apply HK. rewrite Hd. done.
  - intros (_ & _ & Hp) e'. destruct e as [e|]; [|done]. intros [= <-]. cbn.
    assert (plain_error (Some e)) as He; [|exact (He e eq_refl)].
    clear Hn Hd Hsy. unfold syncParentWithOperations in E. cbn [systemReplaceOperations ro_openDir] in E. unfold sys_openDir in E.
    destruct (sys_plain w) as [v1 [x1|]] eqn:E1; destruct (sys_plain_spec _ _ _ E1) as (Q1 & P1 & _); [injection E as _ <-; by apply P1|].
    cbn [dh_Sync dh_Close] in E. destruct (sys_syncDir (Dir path) v1) as [v2 x2] eqn:E2. destruct (sys_syncDir_spec _ _ _ _ E2) as (Q2 & P2 & _).
    destruct (sys_plain v2) as [v3 x3] eqn:E3. destruct (sys_plain_spec _ _ _ E3) as (_ & P3 & _). injection E as _ <-.
    pose proof (plain_evolves _ _ _ (quiet_evolves (fun _ => True) _ _ Q1) Hp) as Hp1.
    apply plain_join; [by apply P2|]. apply P3. by apply (plain_evolves (fun _ => True) v1 v2 (quiet_evolves _ _ _ Q2)).
  - intros (_ & _ & Hc). rewrite (Hn Hc). by eexists.
Qed.

(** The prepared journal is there to be closed. *)
Definition closable (w : Saving) : Prop :=
  plain_setup setup -> exists p j, sv_prepared w = Some p /\ pj_journal p = Some j /\ plain_journal j.

Lemma closable_unmoved w w1 : closable w -> unmoved w w1 -> closable w1.
Proof using. intros H [E _]. unfold closable. by rewrite E. Qed.

Lemma or_discard_step ctx (c : Eff Saving unit) Q w w' r :
  or_discard setup c w = (w', r) -> (forall w1 r1, c w = (w1, r1) -> step_of ctx setup Q closable w w1 r1) ->
  step_of ctx setup Q (fun w1 => sv_prepared w1 = None) w w' r.
Proof using.
  unfold or_discard. intros H Hc. destruct (c w) as [w1 r1] eqn:E. destruct (Hc _ _ eq_refl) as [H1 H2 H3 H4 H5]. destruct r1 as [a|cause].
  - injection H as <- <-. by split.
  - destruct (discardPreparedJournal setup true w1) as [w2 e] eqn:Hd. injection H as <- <-.
    destruct (discard_spec _ _ _ _ Hd) as (Hw & Hp & _). split.
    + eapply working_trans; [exact H1|]. eapply working_trans; [exact Hw|apply working_prepared].
    + done.
    + done.
    + intros Hpl. pose proof Hpl as (_ & Hset & _). destruct (H3 cause eq_refl Hset) as (p & j & Ep & Ej & Hj).
      specialize (H4 Hpl cause eq_refl). assert (plain_error e) as He by (apply Hp; [apply Hset|intros p' j' E1 E2; assert (j' = j) as -> by congruence; done]).
      intros e' [= <-]. destruct e as [e|]; [|done]. unfold plain in *. cbn. by rewrite H4, (He _ eq_refl).
    + intros Hcalm. by destruct (H5 Hcalm).
Qed.

(** After a success: a journal for the edits [ys]. *)
Definition rebased (fp : Fingerprint) (ys : list logged) (w : Saving) : Prop :=
  exists f ps, prepared_with w f (js_path setup) ps (zlen (f_bytes f)) /\ f_bytes f = encodeFileHeader fp ++ encodeAll ys /\
    pending_logs (f_bytes f) ys ps /\ (plain_setup setup -> plain_file f) /\ (calm_setup setup -> f_faults f = []).

(** The file of the new journal is synced, and so is its directory. *)
Definition journal_durable (w : Saving) : Prop :=
  exists p j f, sv_prepared w = Some p /\ pj_journal p = Some j /\ j_file j = Some f /\ durable f.
Definition secured (fp : Fingerprint) (ys : list logged) (w : Saving) : Prop :=
  rebased fp ys w /\ journal_durable w /\ head (w_synced (disk w)) = Some (Dir (js_path setup)).

(** The new journal leaves room for one more batch. *)
Definition roomy (s : Session) : Prop :=
  zlen (session_data s) + EmptyJournalBytes + batchHeaderSize + maximumBatchPayload <= maxInt64.

(** Step by step from the journal that was opened. *)
Lemma rebase_body_step ctx fp start revision ys newer w w' r f0 :
  setup_fresh setup -> fingerprint_ok fp ->
  logs_ok start revision ys -> 0 <= revision -> Forall (fun x => l_group x = l_rev x) ys ->
  pending_logs (session_data (sv_session w)) ys newer -> journal_open (sv_session w) ->
  EmptyJournalBytes + zlen (encodeAll ys) + batchHeaderSize + maximumBatchPayload <= maxInt64 ->
  prepared_with w f0 (js_path setup) [] 0 -> f_bytes f0 = encodeFileHeader fp -> (plain_setup setup -> plain_file f0) ->
  (calm_setup setup -> f_faults f0 = []) ->
  (let* size := with_prepared Size in
   let* _ := update_prepared (fun p => mkPrepared (pj_journal p) (pj_path p) (pj_pending p) size) in
   let* _ := rebase_loop journal_reads (length newer) ctx newer in
   let* _ := sv_check ctx in
   let* _ := with_prepared (fun j => let '(j, e) := Sync j in (j, match e with Some e => Err e | None => Ok tt end)) in
   let* _ := sv_check ctx in
   sync_prepared_parent Dir (js_path setup)) w = (w', r) ->
  step_of ctx setup (fun _ => secured fp ys) closable w w' r.
Proof using reads_ok.
  intros Hnew Hfp Hlog H0 Hgr Hp Ho Hroom Hpr Hhead Hpf Hcf H.
  pose proof (zlen_encodeFileHeader fp Hfp) as Hz.
  assert (forall f n w1, prepared_with w1 f (js_path setup) [] n -> (plain_setup setup -> plain_file f) -> closable w1) as Hclose.
  { intros f n w1 Hw1 Hf Hs. eexists _, _. split; [exact Hw1|]. split; [done|]. intros g [= <-]. auto. }
  eapply (step_bind _ _ _ _ (fun size w1 => exists f, prepared_with w1 f (js_path setup) [] 0 /\ f_bytes f = f_bytes f0 /\ size = zlen (f_bytes f) /\
    (plain_setup setup -> plain_file f) /\ (calm_setup setup -> f_faults f = []) /\ sv_session w1 = sv_session w)); [exact H| |].
  { clear H. intros w1 r1 H. destruct (with_prepared_inv _ _ _ _ _ _ _ _ H Hpr) as (j & Hj & ->).
    assert (plain_setup setup -> plain_journal j /\ plain_result r1) as Hpl.
    { intros Hs. eapply Size_plain; [exact Hj|]. intros g [= <-]. auto. }
    unfold Size in Hj. cbn [j_file] in Hj. destruct (file_Stat f0) as [f1 sz] eqn:Hst. injection Hj as <- <-.
    destruct (file_Stat_spec _ _ _ Hst) as (Hb & Hsz & Hnf). split.
    - apply working_prepared.
    - intros n ->. exists f1. split; [done|]. split; [done|]. split; [rewrite Hb; by apply Hsz|]. split; [|split; [|done]].
      + intros Hs. by apply (proj1 (Hpl Hs)).
      + intros Hs. by apply Hnf, Hcf.
    - intros e _ Hs. eexists _, _. split; [done|]. split; [done|]. by apply Hpl.
    - intros (_ & Hs & _). by apply Hpl.
    - intros (_ & Hs & _). destruct (Hnf (Hcf Hs)) as [-> _]. by eexists. }
  clear H. intros size w1 (f1 & Hpr1 & Hb1 & -> & Hpf1 & Hcf1 & Es1) _ w2 r2 H. rewrite Hhead in Hb1.
  unfold update_prepared, eff_modify, eff_bind at 1 in H. rewrite Hpr1 in H. cbn [pj_journal pj_path pj_pending pj_bytes] in H.
  set (w1' := set_prepared _ w1) in H.
  enough (step_of ctx setup (fun _ => secured fp ys) closable w1' w2 r2) as [K1 K2 K3 K4 K5].
  { assert (working w1 w1') as Hw by apply working_prepared. split; [by eapply working_trans|done|done| |].
    - intros Hs. apply K4. by eapply plain_saving_working.
    - intros Hs. apply K5. by eapply calm_saving_working. }
  assert (prepared_with w1' f1 (js_path setup) [] (zlen (f_bytes f1))) as Hpr1' by done.
  change (sv_session w1) with (sv_session w1') in Es1. clearbody w1'.
  eapply (step_bind _ _ _ _ (fun _ => rebased fp ys)); [exact H| |].
  { clear H. intros w3 r3 H.
    destruct (rebase_loop_spec _ reads_ok _ _ _ _ _ _ _ _ _ _ _ _ _ H ltac:(lia) Hlog H0 Hgr ltac:(rewrite Es1; exact Hp)
      ltac:(rewrite Es1; exact Ho) Hpr1' ltac:(rewrite Hb1, Hz; unfold EmptyJournalBytes, fileHeaderSize in *; lia) eq_refl)
      as (Hw & Hok & Herr & Hpl & Hcl).
    split; [done| | | |].
    - intros a Ha. destruct (Hok a Ha) as (f' & qs & Hpr' & Hbf & ? & ? & ?). exists f', qs. split; [exact Hpr'|]. split; [by rewrite Hbf, Hb1|]. split_and!; auto.
    - intros e He Hs. destruct (Herr e He) as (p & j & ? & ? & ?). exists p, j. auto.
    - intros (? & Hs & _). by apply Hpl; auto.
    - intros (? & Hs & _). by apply Hcl; auto. }
  clear H. intros [] w3 (f3 & ps & Hpr3 & Hb3 & Hl3 & Hpf3 & Hcf3) _ w4 r4 H.
  assert (forall w5, unmoved w3 w5 -> rebased fp ys w5) as Hrb.
  { intros w5 [E _]. exists f3, ps. unfold prepared_with. rewrite E. by split_and!. }
  assert (closable w3) as Hc3.
  { intros Hs. eexists _, _. split; [exact Hpr3|]. split; [done|]. intros g [= <-]. auto. }
  eapply step_bind; [exact H|intros w5 r5; exact (step_check _ _ _ _ _ _ (fun w1 E => closable_unmoved _ _ Hc3 E))|].
  clear H. intros a5 w5 [E5 _] _ w6 r6 H.
  eapply (step_bind _ _ _ _ (fun _ w1 => rebased fp ys w1 /\ journal_durable w1)); [exact H| |].
  { clear H. intros w7 r7 H. assert (prepared_with w5 f3 (js_path setup) ps (zlen (f_bytes f3))) as Hpr5 by (unfold prepared_with; by rewrite E5).
    destruct (with_prepared_inv _ _ _ _ _ _ _ _ H Hpr5) as (j & Hj & ->). destruct (Sync _) as [j' e] eqn:Hsy. injection Hj as <- <-.
    assert (plain_setup setup -> plain_journal j' /\ plain_error e) as Hpl.
    { intros Hs. eapply Sync_plain; [exact Hsy|]. intros g [= <-]. auto. }
    unfold Sync in Hsy. cbn [j_file] in Hsy. destruct (file_Sync f3) as [f4 e4] eqn:Hf4. injection Hsy as <- <-.
    destruct (file_Sync_spec _ _ _ Hf4) as (Hb4 & Hn4 & Hd4). split.
    - apply working_prepared.
    - intros u Hok4. split; [|eexists _, _, f4; split; [done|]; split; [done|]; split; [done|]; apply Hd4; by destruct e4]. exists f4, ps. unfold prepared_with. rewrite Hb4. split_and!; [done|done|by rewrite Hb3 in *| |].
      + intros Hs. by apply (proj1 (Hpl Hs)).
      + intros Hs. apply Hn4. auto.
    - intros e' _ Hs. eexists _, _. split; [done|]. split; [done|]. by apply Hpl.
    - intros (_ & Hs & _) e'. destruct e4 as [e4|]; [|done]. intros [= <-]. by apply (proj2 (Hpl Hs)).
    - intros (_ & Hs & _). destruct (Hn4 (Hcf3 Hs)) as [-> _]. by eexists. }
  clear H. intros a7 w7 [Hrb7 Hdu7] _ w8 r8 H.
  assert (closable w7) as Hc7.
  { destruct Hrb7 as (f7 & ps7 & E7 & _ & _ & Hpf7 & _). intros Hs. eexists _, _. split; [exact E7|]. split; [done|]. intros g [= <-]. auto. }
  eapply step_bind; [exact H|intros w9 r9; exact (step_check _ _ _ _ _ _ (fun w1 E => closable_unmoved _ _ Hc7 E))|].
  clear H. intros a9 w9 E9 _ w10 r10 H.
  cbv beta in E9, H. destruct (sync_prepared_step ctx _ _ _ _ _ (fun w1 E => closable_unmoved _ _ (closable_unmoved _ _ Hc7 E9) E) H) as [S1 S2 S3 S4 S5].
  split; [done| |done|done|done]. intros a Ha. destruct (S2 a Ha) as [[E10 _] Hsy]. destruct Hrb7 as (f7 & ps7 & Hp7 & ?).
  destruct E9 as [E9 _]. split; [|split; [|exact Hsy]].
  - exists f7, ps7. split; [|done]. unfold prepared_with in *. congruence.
  - destruct Hdu7 as (p & j & f & Ep7 & ?). exists p, j, f. split; [congruence|done].
Qed.

(** The whole preparation, from any state of the save. *)
Lemma prepare_spec ctx fp start xs ys doc w w' r :
  setup_fresh setup -> fingerprint_ok fp -> journal_open (sv_session w) -> indexed start (xs ++ ys) (sv_session w) doc ->
  roomy (sv_session w) -> sv_prepared w = None ->
  prepareJournalRebaseLocked journal_reads Dir setup ctx fp (s_committedRevision (sv_session w) + log_edits xs) w = (w', r) ->
  step_of ctx setup (fun _ => secured fp ys) (fun w1 => sv_prepared w1 = None) w w' r.
Proof using reads_ok.
  intros Hnew Hfp Ho [Hlog Hgr _ H0 _ _ Hp Hdata] Hroom Hnone H. unfold roomy in Hroom.
  assert (zlen (encodeAll ys) <= zlen (session_data (sv_session w))) as Hys.
  { rewrite encodeAll_app, zlen_app in Hdata. pose proof (zlen_nonneg (encodeAll xs)). lia. }
  unfold prepareJournalRebaseLocked, eff_bind at 1, eff_get in H.
  eapply (step_bind _ _ _ _ (fun newer w1 => unmoved w w1 /\ pending_logs (session_data (sv_session w)) ys newer)); [exact H| |].
  { clear H. intros w1 r1 H. destruct (newer_loop_spec _ _ _ _ _ _ _ H) as (Hw & Ep & Es & Hv & Hpl & Hcl). split; [done| | |intros ((? & _) & _); auto|intros ((? & _) & _); auto].
    - intros a Ha. split; [done|]. rewrite (Hv a Ha). by apply (newer_logs _ start _ xs).
    - intros _ _. congruence. }
  clear H. intros newer w1 [[Ep1 Es1] Hnewer] _ w2 r2 H.
  eapply step_bind; [exact H|intros w3 r3; apply step_check; intros w4 [E _]; congruence|].
  clear H. intros a3 w3 [Ep3 Es3] _ w4 r4 H. cbv beta in H.
  apply logs_ok_app in Hlog as [_ Hlog]. apply List.Forall_app in Hgr as [_ Hgr]. pose proof (log_edits_nonneg xs) as Hxs.
  destruct (js_openFile setup) as [f0|e0] eqn:Hf0.
  2:{ assert (exists e, (openJournal (js_path setup) fp (js_mkdirAll setup) (Err e0)).2 = Err e /\ (plain_setup setup -> plain e)) as (e & He & Hpe).
      { unfold openJournal. rewrite (proj2 (Z.ltb_ge (BaseSize fp) 0)) by apply Hfp. destruct (js_mkdirAll setup) as [e|] eqn:Hmk.
        - exists e. split; [done|]. intros [Hm _ _]. by apply Hm.
        - exists e0. split; [done|]. intros [_ [Ho' _] _]. by apply Ho'. }
      rewrite He in H. injection H as <- <-. split; [apply working_refl|done|intros; congruence| |].
      - intros (_ & Hs & _) e' [= <-]. auto.
      - intros (_ & [_ (f & ? & _)] & _). congruence. }
  pose proof (openJournal_new (js_path setup) fp (js_mkdirAll setup) f0 Hfp (Hnew _ Hf0)) as Hop.
  destruct (openJournal (js_path setup) fp (js_mkdirAll setup) (Ok f0)) as [left_open [[journal replay]|e]] eqn:Ej; cbn [snd] in H.
  2:{ injection H as <- <-. split; [apply working_refl|done|intros; congruence| |].
      - intros (_ & [Hm [_ Hpf] _] & _) e' [= <-]. exact (proj1 (openJournal_plain _ _ _ _ _ _ Hfp (Hnew _ Hf0) (Hpf _ Hf0) Hm Ej) e eq_refl).
      - intros (_ & [Hm (f & Hf & Hff)] & _). rewrite Hf0 in Hf. injection Hf as <-. destruct Hop; [by rewrite Hm in *|done]. }
  assert (rr_Truncated replay = false) as Htr.
  { unfold openJournal in Ej. rewrite (proj2 (Z.ltb_ge (BaseSize fp) 0)) in Ej by apply Hfp. destruct (js_mkdirAll setup); [done|].
    destruct (file_Stat f0) as [g [size|e]] eqn:Hst; [|by destruct (file_Close g)]. destruct (file_Stat_spec _ _ _ Hst) as (_ & Hsz & _).
    rewrite (Hsz _ eq_refl), (Hnew _ Hf0) in Ej. cbn [zlen length Z.of_nat Z.eqb] in Ej.
    destruct (writeFileHeader g fp) as [g1 [e|]]; [by destruct (file_Close g1)|]. by injection Ej as _ _ <-. }
  destruct Hop as (f1 & -> & Hb1 & Hbatches & Hc1). unfold eff_lift, eff_modify, eff_bind at 1 2 in H.
  set (w3' := set_prepared _ w3) in H.
  enough (step_of ctx setup (fun _ => secured fp ys) (fun w1 => sv_prepared w1 = None) w3' w4 r4) as [K1 K2 K3 K4 K5].
  { assert (working w3 w3') as Hw by apply working_prepared. split; [by eapply working_trans|done|done| |].
    - intros Hs. apply K4. by eapply plain_saving_working.
    - intros Hs. apply K5. by eapply calm_saving_working. }
  eapply or_discard_step; [exact H|]. clear H. intros w5 r5 H. rewrite Htr, Hbatches in H. cbn [orb negb] in H.
  change (negb (zlen [] =? 0)) with false in H. cbv iota in H.
  assert (sv_session w3' = sv_session w) as Es by (change (sv_session w3 = sv_session w); congruence).
  eapply (rebase_body_step ctx fp _ _ ys newer w3' w5 r5 f1 Hnew Hfp Hlog); [lia|done|by rewrite Es|by rewrite Es|lia|done|done| | |exact H].
  - intros [Hm [_ Hpf] _]. exact (proj2 (openJournal_plain _ _ _ _ _ _ Hfp (Hnew _ Hf0) (Hpf _ Hf0) Hm Ej) _ _ eq_refl _ eq_refl).
  - intros [_ (f & Hf & Hff)]. rewrite Hf0 in Hf. injection Hf as <-. auto.
Qed.
End Prepare.

(** ** Properties *)

(** C27. The journal of a new base is complete before the base is replaced.
    Whatever the context, the faults of both journals and of the directory:
    preparing it only reads the session, which keeps all its versions, and no
    directory changes.  A success leaves a new journal of exactly the edits after
    the target revision, whose operations are where [pending] says; all its bytes
    were made durable by a sync, and after that its directory was synced; opened
    again over any base that holds the text at that revision, its replay gives the
    present text and revision.  A failure closes and forgets the new journal, and
    its error is never a [DurabilityError], by which the save would take the base
    for replaced.  When nothing fails around it, the preparation succeeds. *)
Theorem prepare_correct journal_reads Dir setup ctx fp base start xs ys w w' r v :
  (forall data, ReaderOk (journal_reads data) data) -> setup_fresh setup -> fingerprint_ok fp ->
  session_ok base (sv_session w) v -> indexed start (xs ++ ys) (sv_session w) (v_now v) -> roomy (sv_session w) -> sv_prepared w = None ->
  let target := s_committedRevision (sv_session w) + log_edits xs in
  prepareJournalRebaseLocked journal_reads Dir setup ctx fp target w = (w', r) ->
  session_ok base (sv_session w') v /\ same_published (sv_session w) (sv_session w') /\ quiet w w' /\
  match r with
  | Ok _ => exists f ps, sv_prepared w' = Some (mkPrepared (Some (mkJournal (Some f) (js_path setup))) (js_path setup) ps (zlen (f_bytes f))) /\
      durable f /\ head (w_synced (disk w')) = Some (Dir (js_path setup)) /\
      pending_logs (f_bytes f) ys ps /\ Forall (fun o => target < po_revision o <= s_revision (sv_session w)) ps /\
      forall base' f2 s0 k, f_bytes f2 = f_bytes f -> f_faults f2 = [] -> opening base' (apply_logs xs start) s0 ->
        exists s1, reopened journal_reads base' (apply_logs xs start) target ys f2 (js_path setup) s0 k s1 /\
          Tree_Len (s_tree s1) = zlen (v_now v) /\ (ys <> [] -> s_revision s1 = s_revision (sv_session w)) /\
          forall off n, 0 <= off -> 0 <= n -> off + n <= zlen (v_now v) -> readTreeRange (s_tree s1) off n = Ok (slice off n (v_now v))
  | Err e => sv_prepared w' = None /\ (plain_saving ctx setup w -> as_durability e = false)
  end /\
  (calm_saving ctx setup w -> r = Ok tt).
Proof.
  intros Hreads Hnew Hfp Hok Hix Hroom Hnone target H. pose proof (so_base _ _ _ Hok) as Hb. pose proof Hix as [Hlog Hgr Htext H0 Hrev _ _ Hsize].
  destruct (prepare_spec _ Hreads _ _ _ _ _ _ _ _ _ _ _ Hnew Hfp (sb_open _ _ _ Hb) Hix Hroom Hnone H) as [Hw Hq Hk Hp Hc].
  pose proof (log_edits_nonneg xs) as Hxs. apply logs_ok_app in Hlog as [Hlx Hly]. rewrite apply_logs_app in Htext. rewrite log_edits_app in Hrev.
  split; [eapply session_ok_reread; [done|apply Hw]|]. split.
  { destruct (wk_session _ _ Hw) as [F D _ _ _]. split_and!; try (by rewrite F). exists []. by rewrite app_nil_r. }
  split; [apply Hw|]. split.
  2:{ intros Hcalm. destruct (Hc Hcalm) as [[] ->]. done. }
  destruct r as [[]|e]; [|split; [by eapply Hk|by intros Hpl; apply Hp]].
  destruct (Hq tt eq_refl) as ((f & ps & Hpr & Hbytes & Hpl & _) & (p & j & g & Ep & Ej & Eg & Hdur) & Hsy).
  exists f, ps. split; [exact Hpr|]. split; [unfold prepared_with in Hpr; rewrite Hpr in Ep; injection Ep as <-; injection Ej as <-; by injection Eg as <-|].
  split; [exact Hsy|]. split; [done|]. split.
  { eapply List.Forall_impl; [|eapply pending_revisions; [exact Hly|lia|exact Hpl]]. cbn. unfold target. lia. }
  intros base' f2 s0 k Hb2 Hf2 Hop. rewrite encodeAll_app, zlen_app in Hsize. unfold roomy in Hroom.
  pose proof (zlen_nonneg (encodeAll xs)) as Hn. pose proof (zlen_encodeFileHeader fp Hfp) as Hz.
  destruct (reopen_log journal_reads base' fp (apply_logs xs start) target ys f2 (js_path setup) s0 k Hreads Hfp) as (s1 & Hs1);
    [by rewrite Hb2|done| |exact Hly|unfold target; lia|done|].
  { rewrite Hb2, Hbytes, zlen_app, Hz. unfold EmptyJournalBytes, fileHeaderSize, batchHeaderSize, maximumBatchPayload in *. lia. }
  exists s1. split; [done|]. destruct Hs1 as [_ [Hlen Hread] Hr]. rewrite Htext in Hlen, Hread. split; [done|]. split; [|done].
  intros Hne. destruct (Hr Hne) as [-> _]. unfold target. lia.
Qed.

(** A save that has just begun, of the concrete session after an edit. *)
Definition ex_locals : Locals :=
  mkLocals (mkPersistenceProgress 1 0 0 3 false) (mkMetadata [] [] [] 0 0 0 false false false EOLLF false false false) true false
    (newSaveProgressWriter 0 3) [] [] ex_fp None true.
Definition ex_saving : Saving :=
  mkSaving (ex_after [ex_replace]) 420 (mkFileIdentity 3 0 []) 1 (mkWorld ∅ [] [] []) 0 ex_locals.

Lemma prepare_correct_witness :
  let out := prepareJournalRebaseLocked bytes_NewReader ex_dir ex_setup ex_calm_context ex_fp 0 ex_saving in
  out.2 = Ok tt /\ exists f ps, sv_prepared out.1 = Some (mkPrepared (Some (mkJournal (Some f) [])) [] ps (zlen (f_bytes f))) /\
    Forall (fun o => 0 < po_revision o <= 1) ps.
Proof.
  intros out.
  assert (session_run bytes_NewReader ex_session [(ex_replace, true)] (ex_after [ex_replace])) as Hrun.
  { apply (ex_run_step [] ex_replace true []); [constructor|vm_compute; congruence|vm_compute; reflexivity]. }
  destruct (run_indexed bytes_NewReader bytes_NewReader_ok ex_abc ex_abc [] ex_session ex_versions _ _ ex_session_ok
    (indexed_fresh ex_session ex_abc eq_refl ltac:(vm_compute; split; congruence) eq_refl eq_refl) Hrun) as (ys & v & Hok & Hix & _).
  destruct (prepare_correct bytes_NewReader ex_dir ex_setup ex_calm_context ex_fp ex_abc ex_abc [] ys ex_saving out.1 out.2 v
    bytes_NewReader_ok ex_setup_fresh ex_fp_ok Hok Hix ltac:(vm_compute; congruence) eq_refl
    (surjective_pairing _)) as (_ & _ & _ & Hr & Hc).
  assert (out.2 = Ok tt) as E.
  { apply Hc. split; [split; [intros k; reflexivity|vm_compute; reflexivity]|]. split; [|reflexivity].
    split; [reflexivity|]. eexists. split; reflexivity. }
  split; [exact E|]. rewrite E in Hr. destruct Hr as (f & ps & Hp & _ & _ & _ & Hb & _). exists f, ps. split; [exact Hp|].
  eapply List.Forall_impl; [|exact Hb]. intros o Ho. exact Ho.
Defined.
