(* ===== verification/Commit.v ===== *)
(** * document/session.go: saving a session

    [commitAtLeast] with the persistence events of persistence_events.go and the
    context writer of session_lifecycle.go.  The session is locked while the
    snapshot is taken, again from the final identity check to the end, and free in
    between; what other goroutines make of it there is [others].  The gate that
    admits one save at a time and the generations of sources are in Lifecycle, the
    atomic replacement in Save, the journal of the new base in Rebase. *)

From Stdlib Require Import ZArith Lia List.
From stdpp Require Import base list numbers gmap.
From S2P Require Import Prelude GoLib Store File Journal ChangeMap ChangeHistory Events UndoStore Utf8 Options Effects Scan TreeText JournalText Session SessionText SessionHistory SessionEdit Editor SessionRecovery SessionPending Compaction Save SysFiles Rebase.
#[local] Open Scope Z_scope.

(** ** The variables of a save *)

Definition zeroPersistence : PersistenceProgress := mkPersistenceProgress 0 0 0 0 false.
Definition zeroFingerprint : Fingerprint := mkFingerprint 0 [] [].
Definition initialLocals : Locals :=
  mkLocals zeroPersistence zeroMetadata false false (mkProgressWriter 0 0 0 0 0) [] [] zeroFingerprint None false.

Definition lc_set_persistence (p : PersistenceProgress) (l : Locals) : Locals :=
  mkLocals p (lc_metadata l) (lc_started l) (lc_finished l) (lc_progress l) (lc_hashed l) (lc_newContentHash l)
    (lc_newFingerprint l) (lc_prepared l) (lc_boundaryLocked l).
Definition lc_start (p : PersistenceProgress) (m : Metadata) (l : Locals) : Locals :=
  mkLocals p m true (lc_finished l) (lc_progress l) (lc_hashed l) (lc_newContentHash l) (lc_newFingerprint l) (lc_prepared l)
    (lc_boundaryLocked l).
Definition lc_finish (l : Locals) : Locals :=
  mkLocals (lc_persistence l) (lc_metadata l) (lc_started l) true (lc_progress l) (lc_hashed l) (lc_newContentHash l)
    (lc_newFingerprint l) (lc_prepared l) (lc_boundaryLocked l).
Definition lc_set_progress (pw : saveProgressWriter) (l : Locals) : Locals :=
  mkLocals (lc_persistence l) (lc_metadata l) (lc_started l) (lc_finished l) pw (lc_hashed l) (lc_newContentHash l)
    (lc_newFingerprint l) (lc_prepared l) (lc_boundaryLocked l).
Definition lc_hash (p : list byte) (l : Locals) : Locals :=
  mkLocals (lc_persistence l) (lc_metadata l) (lc_started l) (lc_finished l) (lc_progress l) (lc_hashed l ++ p)
    (lc_newContentHash l) (lc_newFingerprint l) (lc_prepared l) (lc_boundaryLocked l).
Definition lc_set_identity (hash : list byte) (fp : Fingerprint) (l : Locals) : Locals :=
  mkLocals (lc_persistence l) (lc_metadata l) (lc_started l) (lc_finished l) (lc_progress l) (lc_hashed l) hash fp
    (lc_prepared l) (lc_boundaryLocked l).
Definition lc_lock (locked : bool) (l : Locals) : Locals :=
  mkLocals (lc_persistence l) (lc_metadata l) (lc_started l) (lc_finished l) (lc_progress l) (lc_hashed l)
    (lc_newContentHash l) (lc_newFingerprint l) (lc_prepared l) locked.
Definition on_locals (f : Locals -> Locals) (w : Saving) : Saving := set_locals (f (sv_locals w)) w.

Definition with_completedBytes (completed : Z) (p : PersistenceProgress) : PersistenceProgress :=
  mkPersistenceProgress (pp_OperationID p) (pp_TargetRevision p) completed (pp_TotalBytes p) (pp_Committed p).
Definition with_committed (committed : bool) (p : PersistenceProgress) : PersistenceProgress :=
  mkPersistenceProgress (pp_OperationID p) (pp_TargetRevision p) (pp_CompletedBytes p) (pp_TotalBytes p) committed.
Definition completed (p : PersistenceProgress) : PersistenceProgress := with_committed true (with_completedBytes (pp_TotalBytes p) p).

(** What [commitAtLeast] returns. *)
Abbreviation Outcome := (Metadata * option error)%type.

(** The messages only differ. *)
Definition identityCheckSkipped : error := errMsg 46.
Definition committedLengthMismatch : error := errMsg 47.

Section Commit.
(* the reads of a journal and of a base file through the tree *)
Variables journal_reads base_reads : list byte -> ReaderAt.
(* what the consumers of the hub receive while an event is offered (Events) *)
Variable takes : Z -> list nat.
(* [filepath.Dir] and the name [os.CreateTemp] picks (Save) *)
Variables (Dir : FilePath -> FilePath) (tempName : FilePath -> list byte -> gset FilePath -> FilePath).
(* the journal of the new base (Rebase) *)
Variable setup : JournalSetup.
(* [sha256.Sum256], and the paths of [recovery.FingerprintFor] (Journal) *)
Variables (sha256 normalizeFingerprintPath : list byte -> list byte) (absolutePath : list byte -> Prelude.result (list byte)).
(* [os.FileInfo] of an open file, and [captureFileChange] *)
Variables (describe : inode -> FileInfo) (stampOf : FileInfo -> Prelude.result fileChangeStamp).
(* the session as other goroutines leave it when this one locks it again *)
Variable others : Saving -> Session.

Definition interfere (w : Saving) : Saving := set_session (others w) w.

(** ** Events (persistence_events.go) *)

Definition persistence_event (kind : EventKind) (metadata : Metadata) (progress : PersistenceProgress) (cause : option error) : SessionEvent :=
  mkSessionEvent 0 0 kind ChangeOriginNone metadata zeroChangeMap progress (mkCompactionProgress 0 0 0 0 0 false false)
    (mkProgress 0 ProgressNone ProgressIdle 0 0 0 0 0 0 false false None) cause.

Definition publishPersistenceEvent (kind : EventKind) (metadata : Metadata) (progress : PersistenceProgress) (cause : option error)
  (s : Session) : Session :=
  set_events (publish takes (s_events s) (persistence_event kind metadata progress cause)) s.

Definition beginPersistenceLocked (targetRevision totalBytes : Z) (w : Saving) : Saving :=
  let id := next_operation_id (sv_nextPersistenceID w) in
  let progress := mkPersistenceProgress id targetRevision 0 totalBytes false in
  let metadata := metadataLocked (sv_session w) in
  let w := set_session (publishPersistenceEvent EventSaveStarted metadata progress None (sv_session w)) (set_nextPersistenceID id w) in
  on_locals (lc_start progress metadata) w.

(** ** Identifying the file *)

Definition scanDiskIdentity (ctx : Context) (path : FilePath) : Eff Saving fileIdentity :=
  let* i := sys_openBase path in
  fun w =>
    let '(w, r) := scanDiskIdentityOpenedWithChange (context_error ctx) (open_file describe i) path (sys_stat describe) (captureChange stampOf) sha256 w in
    ((sys_plain w).1, r).

(** ** Streaming the snapshot *)

(** [contextWriter.Write] *)
Definition context_Write (ctx : Context) (writer : Writer Saving) : Writer Saving := fun w value =>
  let '(w, e) := context_error ctx w in
  match e with Some e => (w, (0, Some e)) | None => writer w value end.

Definition report_saved (completed : Z) (w : Saving) : Saving :=
  let w := interfere w in
  let persistence := with_completedBytes completed (lc_persistence (sv_locals w)) in
  let w := on_locals (lc_set_persistence persistence) w in
  set_session (publishPersistenceEvent EventSaveProgress (lc_metadata (sv_locals w)) persistence None (sv_session w)) w.

(** The progress writer over its fields. *)
Definition progress_part (ctx : Context) (writer : Writer Saving) : Writer Saving := fun w value =>
  let '(pw, w, out) := progress_Write (context_Write ctx writer) report_saved (lc_progress (sv_locals w), w) value in
  (on_locals (lc_set_progress pw) w, out).

(** [io.MultiWriter(progressWriter, hasher)] *)
Definition multi_Write (ctx : Context) (writer : Writer Saving) : Writer Saving := fun w value =>
  let '(w, (n, err)) := progress_part ctx writer w value in
  match err with
  | Some e => (w, (n, Some e))
  | None => if n =? zlen value then (on_locals (lc_hash value) w, (zlen value, None)) else (w, (n, Some io_ErrShortWrite))
  end.

Definition writeContent (ctx : Context) (prefix : list byte) (lease : Snapshot) : ContentWriter Saving := fun writer w =>
  let total := pp_TotalBytes (lc_persistence (sv_locals w)) in
  let w := on_locals (lc_set_progress (newSaveProgressWriter (zlen prefix) total)) w in
  let '(w, written, writeErr) := WriteTo (multi_Write ctx writer) lease w in
  match writeErr with
  | Some e => (w, (written, Some e))
  | None =>
    let '(pw, w) := progress_finish report_saved (lc_progress (sv_locals w), w) in
    (on_locals (lc_set_progress pw) w, (written, None))
  end.

(** ** The final check *)

Definition same_content (current expected : fileIdentity) : bool :=
  (id_size current =? id_size expected) && bool_decide (id_contentHash current = id_contentHash expected).

(** What [checkIdentity] does with the session locked. *)
Definition check_locked (ctx : Context) (path : FilePath) (targetRevision : Z) (expectedIdentity : fileIdentity) : Eff Saving unit :=
  let* _ := sv_check ctx in
  let* current := scanDiskIdentity ctx path in
  if negb (same_content current expectedIdentity) then eff_fail document_ErrExternalChange else
  let* _ := eff_modify (on_locals (fun l =>
    let hash := sha256 (lc_hashed l) in
    lc_set_identity hash (fingerprintFor sha256 normalizeFingerprintPath absolutePath path (pp_TotalBytes (lc_persistence l)) hash) l)) in
  let* w := eff_get in
  let* _ := prepareJournalRebaseLocked journal_reads Dir setup ctx (lc_newFingerprint (sv_locals w)) targetRevision in
  fun w =>
    let '(w, e) := context_error ctx w in
    match e with
    | None => (w, Ok tt)
    | Some e =>
      let '(w, discardErr) := discardPreparedJournal setup true w in
      (w, Err (match discardErr with Some e' => errJoin e e' | None => e end))
    end.

Definition checkIdentity (ctx : Context) (path : FilePath) (targetRevision : Z) (expectedIdentity : fileIdentity) : Check Saving := fun w =>
  let '(w, e) := context_error ctx w in
  match e with
  | Some e => (w, Some e)
  | None =>
    let w := on_locals (lc_lock true) (interfere w) in
    let '(w, r) := check_locked ctx path targetRevision expectedIdentity w in
    match r with
    | Ok _ => (w, None)
    | Err e => (on_locals (lc_lock false) w, Some e)
    end
  end.

(** ** The new base *)

Definition pending_piece (operation : pendingOperation) : Piece :=
  if 0 <? po_insertLength operation
  then mkPiece SourceJournal (po_insertOffset operation) (po_insertLength operation) (po_insertNewlines operation) true
  else zeroPiece.

(** The edits after the saved revision, on the tree of the new base. *)
Fixpoint rebuild_tree (newTree : Tree) (remaining : list pendingOperation) : Tree * Prelude.result unit :=
  match remaining with
  | [] => (newTree, Ok tt)
  | operation :: remaining =>
    let '(newTree, r) := ReplacePiece newTree (po_start operation) (po_deleteLength operation) (pending_piece operation) in
    match r with
    | Ok _ => rebuild_tree newTree remaining
    | Err e => (newTree, Err e)
    end
  end.

(** [current] is [journal == s.journal], a comparison of pointers. *)
Definition recordJournalSyncResultLocked (current : bool) (syncErr : option error) (s : Session) : Session :=
  if negb current then s else
  match syncErr with
  | Some e =>
    let firstFailure := negb (isSome (s_journalSyncErr s)) in
    let s := set_journalSyncErr (Some e) s in
    if firstFailure then publishEventLocked takes EventJournalSyncFailed ChangeOriginNone zeroChangeMap (Some e) s else s
  | None =>
    if isSome (s_journalSyncErr s)
    then publishEventLocked takes EventJournalSyncRestored ChangeOriginNone zeroChangeMap None (set_journalSyncErr None s)
    else s
  end.

(** The assignments that publish the new base. *)
Definition rebase_session (newTree : Tree) (journal : option Journal) (remaining : list pendingOperation) (journalBytes targetRevision : Z)
  (fingerprint : Fingerprint) (uncertain : bool) (s : Session) : Session :=
  let s := set_tree newTree (set_journal journal s) in
  let s := set_journalBytes journalBytes (set_pending remaining s) in
  let s := set_fingerprint fingerprint (set_committedRevision targetRevision s) in
  let s := set_durabilityUncertain uncertain s in
  let s := set_dirty (s_committedRevision s <? s_revision s) s in
  let s := resetJournalCheckpointLocked s in
  let s := if s_dirty s then s else set_recovered false s in
  maybeScheduleJournalCheckpointLocked (recordJournalSyncResultLocked true None s).

(** [errors.Join(ErrFaulted, cause, atomicErr)] *)
Definition faulted_error (cause : error) (atomicErr : option error) : error :=
  errJoin document_ErrFaulted (match atomicErr with Some e => errJoin cause e | None => cause end).

Definition commitFailure (targetRevision total : Z) (atomicErr : option error) (cause : error) (w : Saving) : Saving * Outcome :=
  let '(w, discardErr) := discardPreparedJournal setup false w in
  let cause := match discardErr with Some e => errJoin cause e | None => cause end in
  let s := set_committedRevision targetRevision (sv_session w) in
  let s := set_dirty (s_committedRevision s <? s_revision s) s in
  let s := set_fault (Some cause) (set_durabilityUncertain (isSome atomicErr) s) in
  let w := set_session s (set_diskIdentity (mkFileIdentity total 0 (lc_newContentHash (sv_locals w))) w) in
  (w, (metadataLocked s, Some (faulted_error cause atomicErr))).

(** The new tree over the new base file. *)
Definition new_base_tree (s : Session) (info : FileInfo) (base : inode) : Prelude.result Tree :=
  let offset := boolOffset (s_hasBOM s) 3 in
  NewWithBasePiece (Some (base_reads (i_bytes base))) (mkPiece SourceBase offset (fi_Size info ⊟ offset) 0 false).

(** The exchange of the bases and of their journals. *)
Definition commit_exchange (newTree : Tree) (info : FileInfo) (targetRevision total : Z) (atomicErr : option error) (w : Saving)
  : Saving * Outcome :=
  let '(newTree, journal, remaining, journalBytes, w) :=
    match sv_prepared w with
    | None => (newTree, None, [], 0, w)
    | Some p =>
      (match pj_journal p with Some j => alias journal_reads newTree j | None => SetSource newTree SourceJournal None end,
       pj_journal p, pj_pending p, pj_bytes p,
       set_prepared (Some (mkPrepared None (pj_path p) (pj_pending p) (pj_bytes p))) w)
    end in
  let '(newTree, r) := rebuild_tree newTree remaining in
  match r with
  | Err e => commitFailure targetRevision total atomicErr e w
  | Ok _ =>
    let s := rebase_session newTree journal remaining journalBytes targetRevision (lc_newFingerprint (sv_locals w)) (isSome atomicErr)
               (sv_session w) in
    let w := set_diskIdentity (identityFor info (lc_newContentHash (sv_locals w))) w in
    let metadata := metadataLocked s in
    let persistence := completed (lc_persistence (sv_locals w)) in
    let w := on_locals (fun l => lc_finish (lc_set_persistence persistence l)) w in
    (set_session (publishPersistenceEvent EventSaved metadata persistence atomicErr s) w, (metadata, atomicErr))
  end.

(** From the replacement to the end; [atomicErr], when there is one, is a
    [DurabilityError]. *)
Definition commit_publish (path : FilePath) (targetRevision total : Z) (atomicErr : option error) (w : Saving) : Saving * Outcome :=
  let failure := commitFailure targetRevision total atomicErr in
  let '(w, info) := sys_stat describe path w in
  match info with Err e => failure e w | Ok info =>
  if negb (fi_Size info =? total) then failure committedLengthMismatch w else
  let '(w, newBase) := sys_openBase path w in
  match newBase with Err e => failure e w | Ok newBase =>
  match new_base_tree (sv_session w) info newBase with
  | Err e => failure e (sys_plain w).1
  | Ok newTree => commit_exchange newTree info targetRevision total atomicErr w
  end end end.

(** ** The save *)

(** The refusals before anything is done. *)
Definition save_refused (ctx : Context) (expectedRevision : Z) (w : Saving) : Saving * option Outcome :=
  let s := sv_session w in
  if s_closed s || isSome (s_lifecycle s) then (w, Some (zeroMetadata, Some document_ErrClosed)) else
  let '(w, e) := context_error ctx w in
  match e, s_fault s with
  | Some e, _ => (w, Some (zeroMetadata, Some e))
  | None, Some fault => (w, Some (metadataLocked s, Some (errJoin document_ErrFaulted fault)))
  | None, None => (w, if s_revision s <? expectedRevision then Some (zeroMetadata, Some document_ErrRevisionConflict) else None)
  end.

(** Nothing to save; a directory that may not be synced is synced again. *)
Definition save_nothing (ctx : Context) (w : Saving) : Saving * Outcome :=
  let s := sv_session w in
  if negb (s_durabilityUncertain s) then (w, (metadataLocked s, None)) else
  let path := s_resolvedPath s in
  let w := beginPersistenceLocked (s_committedRevision s) (id_size (sv_diskIdentity w)) w in
  let '(w, e) := context_error ctx w in
  match e with
  | Some e => (w, (zeroMetadata, Some e))
  | None =>
    let '(w, e) := SyncParent Dir path w in
    let w := interfere w in
    match e with
    | Some e => (w, (metadataLocked (sv_session w), Some e))
    | None =>
      let s := set_durabilityUncertain false (sv_session w) in
      let metadata := metadataLocked s in
      let persistence := completed (lc_persistence (sv_locals w)) in
      let w := on_locals (fun l => lc_finish (lc_set_persistence persistence l)) w in
      (set_session (publishPersistenceEvent EventSaved metadata persistence None s) w, (metadata, None))
    end
  end.

(** The file still is what this session last saw. *)
Definition quick_check (ctx : Context) (path : FilePath) (expectedIdentity : fileIdentity) : Eff Saving unit :=
  let* _ := sv_check ctx in
  let* quickInfo := sys_stat describe path in
  if negb (fi_Size quickInfo =? id_size expectedIdentity) then eff_fail document_ErrExternalChange else
  if negb (fi_ModTime quickInfo =? id_modTime expectedIdentity) then
    let* current := scanDiskIdentity ctx path in
    if negb (same_content current expectedIdentity) then eff_fail document_ErrExternalChange else eff_ret tt
  else eff_ret tt.

(** The replacement and what follows it. *)
Definition save_replace (ctx : Context) (path : FilePath) (mode : Z) (expectedIdentity : fileIdentity) (prefix : list byte) (lease : Snapshot)
  (targetRevision : Z) (w : Saving) : Saving * Outcome :=
  let w := on_locals (lc_hash prefix) w in
  let '(w, (total, atomicErr)) :=
    AtomicChecked Dir tempName path mode prefix (writeContent ctx prefix lease)
      (Some (checkIdentity ctx path targetRevision expectedIdentity)) w in
  match atomicErr with
  | Some e =>
    if as_durability e then
      if negb (lc_boundaryLocked (sv_locals w)) then (w, (zeroMetadata, Some identityCheckSkipped)) else
      commit_publish path targetRevision total atomicErr w
    else if lc_boundaryLocked (sv_locals w) then
      let '(w, discardErr) := discardPreparedJournal setup true w in
      (on_locals (lc_lock false) w, (zeroMetadata, Some (match discardErr with Some d => errJoin e d | None => e end)))
    else (w, (zeroMetadata, Some e))
  | None =>
    if negb (lc_boundaryLocked (sv_locals w)) then (w, (zeroMetadata, Some identityCheckSkipped)) else
    commit_publish path targetRevision total atomicErr w
  end.

(** From the snapshot on. *)
Definition save_snapshot (ctx : Context) (w : Saving) : Saving * Outcome :=
  let s := sv_session w in
  let targetRevision := s_revision s in
  let lease := Tree_Snapshot (s_tree s) in
  let path := s_resolvedPath s in
  let expectedIdentity := sv_diskIdentity w in
  let prefix := if s_hasBOM s then byteOrderMark else [] in
  if maxInt64 ⊟ zlen prefix <? Snapshot_Len lease then (w, (zeroMetadata, Some store_ErrLengthOverflow)) else
  let w := beginPersistenceLocked targetRevision (Snapshot_Len lease ⊞ zlen prefix) w in
  let '(w, r) := quick_check ctx path expectedIdentity w in
  match r with
  | Err e => (w, (zeroMetadata, Some e))
  | Ok _ => save_replace ctx path (sv_mode w) expectedIdentity prefix lease targetRevision w
  end.

(** The deferred report of a failure. *)
Definition save_failed (w : Saving) (out : Outcome) : Saving * Outcome :=
  match out.2 with
  | Some e =>
    if negb (lc_started (sv_locals w)) || lc_finished (sv_locals w) then (w, out) else
    let w := interfere w in
    let s := sv_session w in
    let progress := lc_persistence (sv_locals w) in
    let persistence := with_committed (pp_TargetRevision progress <=? s_committedRevision s) progress in
    (set_session (publishPersistenceEvent EventSaveFailed (metadataLocked s) persistence (Some e) s)
       (on_locals (lc_set_persistence persistence) w), out)
  | None => (w, out)
  end.

Definition commitAtLeast (ctx : Context) (expectedRevision : Z) (w : Saving) : Saving * Outcome :=
  let w := set_locals initialLocals w in
  let '(w, refused) := save_refused ctx expectedRevision w in
  let '(w, out) :=
    match refused with
    | Some out => (w, out)
    | None =>
      let s := sv_session w in
      if negb (s_dirty s) || ((expectedRevision <=? s_committedRevision s) && negb (expectedRevision =? 0))
      then save_nothing ctx w else save_snapshot ctx w
    end in
  save_failed w out.

(** [acquireSave] is the gate of Lifecycle; [admission] is what it returns. *)
Definition CommitAtLeastContext (ctx : option Context) (admission : option error) (expectedRevision : Z) (w : Saving) : Saving * Outcome :=
  match ctx with
  | None => (w, (zeroMetadata, Some document_ErrInvalidContext))
  | Some ctx =>
    let '(w, e) := context_error ctx w in
    match (match e with Some e => Some e | None => admission end) with
    | Some e => (w, (zeroMetadata, Some e))
    | None => commitAtLeast ctx expectedRevision w
    end
  end.

Definition SaveContext (ctx : option Context) (admission : option error) (w : Saving) : Saving * Outcome :=
  CommitAtLeastContext ctx admission 0 w.
End Commit.
