(* ===== verification/CommitStream.v ===== *)
(** * document/session.go: the content of a save

    What [writeContent] sends to the temporary file and to the hasher, and what
    [scanDiskIdentity] learns of the file to be replaced.  Other goroutines edit
    the session meanwhile; all that is used of it here is a property [F] that they
    keep. *)

From Stdlib Require Import ZArith Lia List.
From stdpp Require Import base list numbers gmap.
From S2P Require Import Prelude GoLib Store File Journal ChangeMap ChangeHistory Events UndoStore Utf8 Options Effects Scan TreeText JournalText Session SessionText SessionHistory SessionEdit Editor SessionRecovery SessionPending Compaction Save SysFiles Rebase Commit.
#[local] Open Scope Z_scope.

(** ** Complete copies *)

(** [bs] went through the writer without an error. *)
Inductive sent {W} (write : Writer W) : W -> list byte -> W -> Prop :=
| sent_nil w : sent write w [] w
| sent_cons w p w1 rest w2 : write w p = (w1, (zlen p, None)) -> sent write w1 rest w2 -> sent write w (p ++ rest) w2.

Lemma sent_app {W} (write : Writer W) w1 bs w2 cs w3 : sent write w1 bs w2 -> sent write w2 cs w3 -> sent write w1 (bs ++ cs) w3.
Proof. induction 1; intros; [done|]. rewrite <-app_assoc. eapply sent_cons; eauto. Qed.

(** A writer that fails has not written everything. *)
Class WriterStrict {W} (write : Writer W) : Prop :=
  writer_strict : forall w p w' n e, write w p = (w', (n, Some e)) -> 0 < zlen p -> n < zlen p.
#[export] Instance sys_Write_strict_writer `{Disk W} name : WriterStrict (@sys_Write W _ name).
Proof. intros w p w' n e. apply sys_Write_strict. Qed.

Section Sent.
Context {W : Type} (write : Writer W) `{!WriterOk write} `{!WriterStrict write}.

Lemma copy_loop_sent (r : ReaderAt) data `{!ReaderOk r data} fuel : forall w off n written w' k e,
  GoLib.copy_loop write fuel r w off n written = (w', k, e) -> 0 <= off -> 0 <= n -> off + n <= zlen data -> (Z.to_nat n <= fuel)%nat ->
  k <= written + n /\ (k = written + n -> sent write w (slice off n data) w').
Proof.
  assert (forall w off written, written <= written + 0 /\ (written = written + 0 -> sent write w (slice off 0 data) w)) as Hnil.
  { intros. split; [lia|]. intros _. rewrite slice_nil_len by lia. constructor. }
  induction fuel as [|fuel IH]; intros w off n written w' k e Hc Hoff Hn Hle Hfuel; cbn [GoLib.copy_loop] in Hc.
  { injection Hc as <- <- <-. replace n with 0 by lia. apply Hnil. }
  destruct (Z.leb_spec n 0); [injection Hc as <- <- <-; replace n with 0 by lia; apply Hnil|].
  unfold copyBufferBytes in Hc. remember (Z.min n 32768) as m eqn:Em. assert (0 < m <= n) as Hm by lia. clear Em.
  destruct (reader_full off m) as [Hdata Herr]; [lia..|].
  destruct (r off m) as [got err]. cbn [fst snd] in *. subst got.
  rewrite (zlen_slice off m data) in Hc by lia. rewrite (proj2 (Z.ltb_lt 0 m)) in Hc by lia.
  assert (slice off n data = slice off m data ++ slice (off + m) (n - m) data) as Hsplit.
  { rewrite <-slice_split by lia. by replace (m + (n - m)) with n by lia. }
  assert (zlen (slice off m data) = m) as Hz by (apply zlen_slice; lia).
  destruct (write w (slice off m data)) as [w1 [nw ew]] eqn:Hw. pose proof (writer_count _ _ _ _ _ Hw) as Hnw. rewrite Hz in Hnw.
  destruct ew as [ew|].
  { injection Hc as <- <- <-. pose proof (writer_strict _ _ _ _ _ Hw) as Hs. rewrite Hz in Hs.
    split; [lia|]. intros. lia. }
  destruct (Z.eqb_spec m nw) as [<-|Hne]; cbn [andb negb] in Hc; [|injection Hc as <- <- <-; split; [lia|intros; lia]].
  rewrite <-Hz in Hw at 2. destruct Herr as [-> |[-> Hend]].
  - destruct (IH _ _ _ _ _ _ _ Hc) as [Hk Hsent]; [lia..|]. split; [lia|]. intros ->. rewrite Hsplit.
    eapply sent_cons; [exact Hw|]. apply Hsent. lia.
  - rewrite decide_True in Hc by done. injection Hc as <- <- <-. split; [lia|]. intros E. rewrite Hsplit, (slice_nil_len (off + m)) by lia.
    eapply sent_cons; [exact Hw|constructor].
Qed.

Lemma io_CopyN_sent (r : ReaderAt) data `{!ReaderOk r data} w off n w' k :
  io_CopyN write w r off n = (w', k, None) -> 0 <= off -> 0 <= n -> off + n <= zlen data -> sent write w (slice off n data) w'.
Proof.
  unfold io_CopyN. intros Hc Hoff Hn Hle. destruct (GoLib.copy_loop _ _ _ _ _ _ _) as [[w1 k1] e1] eqn:Hl.
  destruct (copy_loop_sent _ _ _ _ _ _ _ _ _ _ Hl) as [Hk Hs]; [lia..|].
  destruct (Z.eqb_spec k1 n) as [->|Hne]; [injection Hc as <- _; by apply Hs|].
  destruct e1 as [e1|]; [rewrite andb_false_r in Hc; done|]. rewrite (proj2 (Z.ltb_lt _ _)) in Hc by lia. done.
Qed.

Lemma walk_sent D sources n : forall w total w' total',
  walk n (write_visit write sources) (w, total) = ((w', total'), None) -> node_wf n -> sources_serve sources D (pieces n) ->
  sent write w (content D (pieces n)) w'.
Proof.
  induction n as [|p pr lt IHl rt IHr b nl k c]; intros w total w' total' Hw Hwf Hs; cbn [walk pieces] in *.
  { injection Hw as <- <-. constructor. }
  destruct (node_wf_node _ _ _ _ _ _ _ _ Hwf) as (Hl&Hr&Hp&_&_).
  apply Forall_app in Hs as [Hsl [(Hrange&r&Hget&Hok) Hsr]%Forall_cons]. destruct Hp as (Hpl&Hpo&_).
  destruct (walk lt _ _) as [[w1 t1] [e1|]] eqn:E1; [done|]. rewrite content_app, content_cons.
  eapply sent_app; [by eapply IHl|]. cbn [write_visit] in Hw. rewrite Hget in Hw.
  destruct (io_CopyN write w1 r (p_Offset p) (p_Length p)) as [[w2 n2] [e2|]] eqn:E2; [done|].
  eapply sent_app; [|by eapply IHr]. destruct Hrange as (?&?&?). eapply (io_CopyN_sent r (D (p_Source p))); [exact E2|lia..].
Qed.
End Sent.

(** ** A save under way *)

(** The save has begun and not reported its end. *)
Definition afoot (target total : Z) (expected : fileIdentity) (w : Saving) : Prop :=
  lc_started (sv_locals w) = true /\ lc_finished (sv_locals w) = false /\
  pp_TargetRevision (lc_persistence (sv_locals w)) = target /\ pp_TotalBytes (lc_persistence (sv_locals w)) = total /\
  sv_diskIdentity w = expected.

(** Nothing is prepared and the session is free for other goroutines. *)
Record underway (F : Session -> Prop) (target total : Z) (expected : fileIdentity) (w : Saving) : Prop := mkUnderway {
  uw_session : F (sv_session w);
  uw_prepared : sv_prepared w = None;
  uw_unlocked : lc_boundaryLocked (sv_locals w) = false;
  uw_afoot : afoot target total expected w }.

Section Stream.
Context (takes : Z -> list nat) (others : Saving -> Session) (ctx : Context).
Context (F : Session -> Prop) (target total : Z) (expected : fileIdentity).
Hypothesis F_events : forall s h, F s -> F (set_events h s).
Hypothesis F_others : forall w, F (sv_session w) -> F (others w).

(** A step beside the file and the hasher. *)
Record aside (w w' : Saving) : Prop := mkAside {
  as_disk : sv_disk w' = sv_disk w;
  as_hashed : lc_hashed (sv_locals w') = lc_hashed (sv_locals w);
  as_underway : underway F target total expected w -> underway F target total expected w' }.

#[local] Instance aside_order : PreOrder aside.
Proof using. split; [by split|]. intros w1 w2 w3 [D1 H1 U1] [D2 H2 U2]. split; [congruence|congruence|auto]. Qed.

Lemma aside_quiet w w' : aside w w' -> quiet w w'.
Proof using. intros [D _ _]. split; cbn; rewrite D; [done|done|by exists []]. Qed.
Lemma aside_poll k w : aside w (set_poll k w).
Proof using. split; [done|done|]. by intros []. Qed.
Lemma aside_progress pw w : aside w (on_locals (lc_set_progress pw) w).
Proof using. split; [done|done|]. by intros []. Qed.
Lemma aside_interfere w : aside w (interfere others w).
Proof using F_others. split; [done|done|]. intros []. split; [by apply F_others|done..]. Qed.

Lemma report_saved_aside completed w : aside w (report_saved takes others completed w).
Proof using target total expected F_events F_others.
  etransitivity; [apply aside_interfere|]. split; [done|done|]. intros []. split; [|done..]. cbn. by apply F_events.
Qed.

Lemma publish_aside completed pw w pw' w' :
  progress_publish (report_saved takes others) completed (pw, w) = (pw', w') -> aside w w'.
Proof using target total expected F_events F_others.
  unfold progress_publish. destruct (_ =? _); intros [= _ <-]; [reflexivity|apply report_saved_aside].
Qed.

(** A write of [io.MultiWriter]: what reached the file, and the hasher when all of
    it did. *)
Lemma multi_Write_spec name w p w' n e :
  multi_Write takes others ctx (sys_Write name) w p = (w', (n, e)) ->
  appended name w (ztake n p) w' /\ 0 <= n <= zlen p /\
  (underway F target total expected w -> underway F target total expected w') /\
  (plain_context ctx -> plain_disk w -> plain_disk w' /\ forall e', e = Some e' -> as_durability e' = false) /\
  match e with
  | None => n = zlen p /\ lc_hashed (sv_locals w') = lc_hashed (sv_locals w) ++ p
  | Some _ => 0 < zlen p -> n < zlen p
  end.
Proof using target total expected F_events F_others.
  unfold multi_Write, progress_part, progress_Write, context_Write, context_error. intros H. pose proof (zlen_nonneg p) as Hp0.
  set (w1 := set_poll (S (sv_poll w)) w) in H. assert (aside w w1) as A1 by apply aside_poll.
  destruct (match ctx (sv_poll w) with Some e => (w1, (0, Some e)) | None => sys_Write name w1 p end) as [w2 [k err]] eqn:Hw.
  assert (appended name w (ztake k p) w2 /\ 0 <= k <= zlen p /\ (underway F target total expected w -> underway F target total expected w2) /\
    (plain_context ctx -> plain_disk w -> plain_disk w2 /\ forall e', err = Some e' -> as_durability e' = false) /\
    lc_hashed (sv_locals w2) = lc_hashed (sv_locals w) /\ (forall e', err = Some e' -> 0 < zlen p -> k < zlen p)) as (Ha & Hk & Hu & Hpl & Hh & Hs).
  { destruct (ctx (sv_poll w)) as [ce|] eqn:Hc.
    - injection Hw as <- <- <-. rewrite ztake_0 by lia. split_and!; [by apply appended_quiet, aside_quiet|lia|lia|apply A1| |done|by intros].
      intros Hctx Hd. split; [done|]. intros e' [= <-]. by eapply Hctx.
    - destruct (sys_Write_spec (fun _ => True) _ _ _ _ _ _ Hw ltac:(done)) as (He & Hpe & Hn & _). pose proof (sys_Write_only name w1 p) as [d Hd].
      rewrite Hw in Hd. cbn in Hd. split_and!; try lia.
      + apply (appended_trans name w [] w1); [by apply appended_quiet, aside_quiet|by eapply appended_write].
      + rewrite Hd. by intros [].
      + intros _ Hdisk. split; [by eapply (plain_evolves (fun _ => True))|by apply Hpe].
      + by rewrite Hd.
      + intros e' ->. by eapply sys_Write_strict. }
  set (pw := mkProgressWriter _ _ _ _ _) in H.
  match goal with _ : context [if ?b then _ else (pw, w2)] |- _ =>
    destruct (if b then let '(pw, w) := progress_publish (report_saved takes others) _ (pw, w2) in _ else (pw, w2)) as [pw' w3] eqn:Hpub end.
  assert (aside w2 w3) as A3.
  { revert Hpub. destruct (_ || _); [|intros [= _ <-]; reflexivity]. destruct (progress_publish _ _ _) as [pw1 w4] eqn:Hp.
    intros [= _ <-]. by eapply publish_aside. }
  set (w4 := on_locals (lc_set_progress pw') w3) in H. assert (aside w2 w4) as A4 by (etransitivity; [exact A3|apply aside_progress]).
  assert (appended name w (ztake k p) w4) as Ha4.
  { rewrite <-(app_nil_r (ztake k p)). eapply appended_trans; [exact Ha|]. by apply appended_quiet, aside_quiet. }
  assert (plain_context ctx -> plain_disk w -> plain_disk w4 /\ forall e', err = Some e' -> as_durability e' = false) as Hpl4.
  { intros Hc Hd. destruct (Hpl Hc Hd) as [Hd2 He]. split; [|done]. unfold plain_disk in *. cbn in *. by rewrite (as_disk _ _ A3). }
  destruct err as [err|].
  { injection H as <- <- <-. split; [done|]. split; [done|]. split; [intros ?; by apply A4, Hu|]. split; [done|]. by eapply Hs. }
  destruct (Z.eqb_spec k (zlen p)) as [->|Hne]; injection H as <- <- <-.
  - split.
    { rewrite <-(app_nil_r (ztake _ p)). eapply appended_trans; [exact Ha4|]. apply appended_quiet. split; [done|done|by exists []]. }
    split; [lia|]. split; [intros U; destruct (as_underway _ _ A4 (Hu U)); by split|]. split; [exact Hpl4|]. split; [done|].
    cbn. by rewrite (as_hashed _ _ A3), Hh.
  - split; [done|]. split; [done|]. split; [intros ?; by apply A4, Hu|]. split; [|lia].
    intros Hc Hd. split; [by apply Hpl4|]. by intros e' [= <-].
Qed.

#[local] Instance multi_Write_ok name : WriterOk (multi_Write takes others ctx (sys_Write name)).
Proof using target total expected F_events F_others. intros w p w' n e Hw. by destruct (multi_Write_spec _ _ _ _ _ _ Hw) as (_ & ? & _). Qed.
#[local] Instance multi_Write_strict name : WriterStrict (multi_Write takes others ctx (sys_Write name)).
Proof using target total expected F_events F_others. intros w p w' n e Hw. by destruct (multi_Write_spec _ _ _ _ _ _ Hw) as (_ & _ & _ & _ & ?). Qed.

Lemma multi_appended name w bs w' : GoLib.fed (multi_Write takes others ctx (sys_Write name)) w bs w' -> appended name w bs w'.
Proof using target total expected F_events F_others.
  induction 1 as [w|w p w1 n e rest w2 Hw _ IH]; [apply appended_quiet, quiet_refl|].
  destruct (multi_Write_spec _ _ _ _ _ _ Hw) as (Ha & _). by eapply appended_trans.
Qed.

Lemma multi_hashed name w bs w' :
  sent (multi_Write takes others ctx (sys_Write name)) w bs w' -> lc_hashed (sv_locals w') = lc_hashed (sv_locals w) ++ bs.
Proof using target total expected F_events F_others.
  induction 1 as [w|w p w1 rest w2 Hw _ IH]; [by rewrite app_nil_r|].
  destruct (multi_Write_spec _ _ _ _ _ _ Hw) as (_ & _ & _ & _ & _ & E). by rewrite IH, E, app_assoc.
Qed.

(** The whole content: the file gets what the count says, and without an error
    the file and the hasher get the text of the snapshot. *)
Lemma writeContent_spec name prefix lease D w w' n e :
  writeContent takes others ctx prefix lease (sys_Write name) w = (w', (n, e)) ->
  node_wf (s_root lease) -> sources_serve (s_sources lease) D (pieces (s_root lease)) ->
  plain_context ctx -> plain_disk w -> underway F target total expected w ->
  exists bs, appended name w bs w' /\ n = zlen bs /\ plain_error e /\ underway F target total expected w' /\
    (e = None -> bs = snapshot_content D lease /\ lc_hashed (sv_locals w') = lc_hashed (sv_locals w) ++ snapshot_content D lease).
Proof using target total expected F_events F_others.
  intros H Hwf Hs Hctx Hd Hu. unfold writeContent in H. set (w1 := on_locals _ w) in H.
  assert (aside w w1) as A1 by apply aside_progress.
  destruct (WriteTo _ lease w1) as [[w2 written] err] eqn:Hw. unfold WriteTo in Hw.
  destruct (write_walk_fed (multi_Write takes others ctx (sys_Write name)) (fun w => underway F target total expected w /\ plain_disk w)
    (fun e => as_durability e = false)) with (3 := Hw) (D := D) as (bs & rest & Hf & -> & Hc & Hn & [Hu2 Hd2] & Hp); try done.
  { intros v p v' k e' [Uv Dv] Hv. destruct (multi_Write_spec _ _ _ _ _ _ Hv) as (_ & _ & U & P & _).
    destruct (P Hctx Dv). split; [split; [by apply U|done]|done]. }
  { split; [by apply A1|done]. }
  { pose proof (proj2 (proj2 Hwf)). lia. }
  assert (appended name w bs w2) as Ha.
  { apply (appended_trans name w [] w1); [by apply appended_quiet, aside_quiet|by apply multi_appended]. }
  destruct err as [err|].
  { injection H as <- <- <-. exists bs. split_and!; [done|lia| |done|done]. by intros e' [= <-]; apply Hp. }
  destruct (progress_finish _ _) as [pw w3] eqn:Hpub. unfold progress_finish in Hpub. apply publish_aside in Hpub as A3.
  injection H as <- <- <-. set (w4 := on_locals _ w3). assert (aside w2 w4) as A4 by (etransitivity; [exact A3|apply aside_progress]).
  exists bs. split_and!.
  - rewrite <-(app_nil_r bs). eapply appended_trans; [exact Ha|]. by apply appended_quiet, aside_quiet.
  - lia.
  - done.
  - by apply A4.
  - intros _. split; [unfold snapshot_content; by rewrite Hc, (Hn eq_refl), app_nil_r|].
    rewrite (as_hashed _ _ A4), (multi_hashed _ _ _ _ (walk_sent _ D _ _ _ _ _ _ Hw Hwf Hs)). by rewrite (as_hashed _ _ A1).
Qed.
End Stream.
