(* ===== verification/CommitCheck.v ===== *)
(** * document/session.go: the last check of a save

    The file to be replaced is read again with the session locked, and the journal
    of the new base is prepared; only then may the replacement happen.  The file
    also says what other goroutines may make of a session that is being saved. *)

From Stdlib Require Import ZArith Lia List.
From stdpp Require Import base list numbers gmap.
From S2P Require Import Prelude GoLib Store File Journal ChangeMap ChangeHistory Events UndoStore Utf8 Options Effects Scan TreeText JournalText Session SessionText SessionHistory SessionEdit Editor SessionRecovery SessionPending Compaction Save SysFiles Rebase Commit CommitStream.
#[local] Open Scope Z_scope.

(** ** Looking at the file *)

(** Only system calls that change no directory, and polls. *)
Record peeked (w w' : Saving) : Prop := mkPeeked {
  pk_quiet : quiet w w';
  pk_frame : w' = set_poll (sv_poll w') (set_world (sv_disk w') w) }.

#[export] Instance peeked_order : PreOrder peeked.
Proof.
  split; [intros w; split; [apply quiet_refl|by destruct w]|].
  intros w1 w2 w3 [Q1 F1] [Q2 F2]. split; [by eapply quiet_trans|]. rewrite F2, F1 at 1. done.
Qed.
Lemma peeked_disk (w w' : Saving) : quiet w w' -> only_disk w w' -> peeked w w'.
Proof. intros Hq [d ->]. split; [done|by destruct w]. Qed.
Lemma peeked_poll k w : peeked w (set_poll k w).
Proof. split; [split; [done|done|by exists []]|by destruct w]. Qed.
Lemma plain_quiet (w w' : Saving) : quiet w w' -> plain_disk w -> plain_disk w'.
Proof. intros Hq. apply (plain_evolves (fun _ => True)). by apply quiet_evolves. Qed.
Lemma peeked_plain w w' : peeked w w' -> plain_disk w -> plain_disk w'.
Proof. intros [Hq _]. by apply plain_quiet. Qed.
Lemma peeked_files w w' : peeked w w' -> w_files (disk w') = w_files (disk w).
Proof. intros [Hq _]. apply Hq. Qed.

Lemma ztake_zlen {A} k (l : list A) : ztake (zlen (ztake k l)) l = ztake k l.
Proof.
  rewrite zlen_ztake. pose proof (zlen_nonneg l). destruct (Z.le_gt_cases k 0); [by rewrite !ztake_0 by lia|].
  destruct (Z.le_gt_cases k (zlen l)); [f_equal; lia|]. by rewrite !ztake_all by lia.
Qed.

Section Look.
Context (describe : inode -> FileInfo) (stampOf : FileInfo -> Prelude.result fileChangeStamp) (sha256 : list byte -> list byte) (ctx : Context).

Lemma open_file_serves i : serves (open_file describe i) (i_bytes i).
Proof using.
  intros n off w H0 H1. cbn. destruct (syscall (sv_disk w)) as [x d]. cbn.
  assert (forall k, k <= n -> zlen (ztake k (zdrop off (i_bytes i))) <= n /\
    ztake k (zdrop off (i_bytes i)) = slice off (zlen (ztake k (zdrop off (i_bytes i)))) (i_bytes i)) as Hk.
  { intros k Hk. unfold slice. rewrite ztake_zlen. split; [rewrite zlen_ztake; lia|done]. }
  assert (let data := (bytes_NewReader (i_bytes i) off n).1 in zlen data <= n /\ data = slice off (zlen data) (i_bytes i)) as Hr.
  { assert (zlen (@nil byte) <= n /\ [] = slice off (zlen (@nil byte)) (i_bytes i)) as Hnil by (rewrite zlen_nil, slice_nil_len by lia; done).
    unfold bytes_NewReader. destruct (off <? 0); [exact Hnil|]. destruct (_ <=? off); [exact Hnil|]. apply Hk. lia. }
  destruct x as [|k e|k]; cbn; try exact Hr.
  assert (ztake k (slice off n (i_bytes i)) = ztake (Z.min k n) (zdrop off (i_bytes i))) as -> by apply ztake_ztake.
  apply Hk. lia.
Qed.

Lemma call_peeked w x d : syscall (sv_disk w) = (x, d) -> plain_disk w -> peeked w (set_world d w) /\ plain_fault x.
Proof using.
  change (sv_disk w) with (disk w). intros E Hd. destruct (syscall_spec w x d E) as (_ & _ & _ & Hp & _). split; [|by apply Hp].
  apply peeked_disk; [exact (call_failed w x d E)|by exists d].
Qed.

Lemma sys_stat_spec path w w' r :
  sys_stat describe path w = (w', r) -> plain_disk w ->
  peeked w w' /\ plain_result r /\ forall info, r = Ok info -> exists i, w_files (disk w) !! path = Some i /\ info = describe i.
Proof using.
  unfold sys_stat. cbn [disk saving_disk]. destruct (syscall (sv_disk w)) as [x d] eqn:E. intros [= <- <-] Hd.
  destruct (call_peeked _ _ _ E Hd) as [Hp Hx]. change (sv_disk w) with (disk w) in E. destruct (syscall_spec _ _ _ E) as (Hf & _). split; [exact Hp|]. destruct x as [|k e|k]; [|split; [by intros ? [= <-]|done]|];
    (destruct (w_files d !! path) as [i|] eqn:Hi; [|split; [by intros ? [= <-]|done]]); (split; [done|]); intros info [= <-]; exists i; change (sv_disk w) with (disk w); by rewrite <-Hf.
Qed.

Lemma sys_openBase_spec path w w' r :
  sys_openBase path w = (w', r) -> plain_disk w ->
  peeked w w' /\ plain_result r /\ forall i, r = Ok i -> w_files (disk w) !! path = Some i.
Proof using.
  unfold sys_openBase. cbn [disk saving_disk]. destruct (syscall (sv_disk w)) as [x d] eqn:E. intros [= <- <-] Hd.
  destruct (call_peeked _ _ _ E Hd) as [Hp Hx]. change (sv_disk w) with (disk w) in E. destruct (syscall_spec _ _ _ E) as (Hf & _). split; [exact Hp|]. destruct x as [|k e|k]; [|split; [by intros ? [= <-]|done]|];
    (destruct (w_files d !! path) as [i|] eqn:Hi; [|split; [by intros ? [= <-]|done]]); (split; [done|]); intros j [= <-]; change (sv_disk w) with (disk w); by rewrite <-Hf.
Qed.

Hypothesis describe_size : forall i, fi_Size (describe i) = zlen (i_bytes i).
Hypothesis stampOf_plain : forall info, plain_result (stampOf info).
Hypothesis ctx_plain : plain_context ctx.

(** The identity is that of the whole file at [path]. *)
Lemma scanDiskIdentity_spec path w w' r :
  scanDiskIdentity sha256 describe stampOf ctx path w = (w', r) -> plain_disk w ->
  peeked w w' /\ plain_result r /\
  forall id, r = Ok id -> exists i, w_files (disk w) !! path = Some i /\ id_size id = zlen (i_bytes i) /\ id_contentHash id = sha256 (i_bytes i).
Proof using describe_size stampOf_plain ctx_plain.
  unfold scanDiskIdentity. intros H Hd.
  split_eff H; destruct (sys_openBase_spec _ _ _ _ Hc Hd) as (H1 & P1 & O1); [by split_and!; try done; intros ? [= <-]; apply P1|].
  rename a into i. specialize (O1 i eq_refl). pose proof (peeked_plain _ _ H1 Hd) as Hd1.
  destruct (scanDiskIdentityOpenedWithChange _ _ _ _ _ _ w0) as [w2 r2] eqn:Hs.
  assert (safely peeked (fun w => plain_disk w) plain
    (scanDiskIdentityOpenedWithChange (context_error ctx) (open_file describe i) path (sys_stat describe) (captureChange stampOf) sha256)) as Hsafe.
  { apply scanDiskIdentityOpened_safely; try done; try apply peeked_order.
    - intros v v'. apply peeked_plain.
    - apply safely_call. intros v v' e [= <- <-] _. split; [apply peeked_poll|]. intros e' He. by eapply ctx_plain.
    - intros n off v v' data e Hr Hv. cbn in Hr. destruct (syscall (sv_disk v)) as [x d] eqn:E. injection Hr as <- Hr.
      destruct (call_peeked _ _ _ E Hv) as [Hp Hx]. split; [done|]. intros e' ->.
      pose proof (bytes_NewReader_plain (i_bytes i) off n) as Hb. destruct x; [rewrite Hr in Hb; by apply Hb|by injection Hr as _ <-|rewrite Hr in Hb; by apply Hb].
    - intros v v' q Hr Hv. cbn in Hr. destruct (syscall (sv_disk v)) as [x d] eqn:E. injection Hr as <- <-.
      destruct (call_peeked _ _ _ E Hv) as [Hp Hx]. split; [done|]. intros e'. destruct x; [done|by intros [= <-]|done].
    - intros v v' q Hr Hv. by destruct (sys_stat_spec _ _ _ _ Hr Hv) as (? & ? & _).
    - intros info. apply safely_lift; [apply peeked_order|]. apply stampOf_plain. }
  destruct (Hsafe _ _ _ Hs Hd1) as [H2 P2]. pose proof (peeked_plain _ _ H2 Hd1) as Hd2.
  pose proof (sys_plain_only w2) as Ho. destruct (sys_plain w2) as [w3 e3] eqn:Hcl. destruct (sys_plain_spec _ _ _ Hcl) as (Q3 & _).
  injection H as <- <-. cbn [fst] in *. split; [|split; [exact P2|]].
  { etransitivity; [exact H1|]. etransitivity; [exact H2|]. by apply peeked_disk. }
  intros id ->. destruct (scanDiskIdentity_hash _ _ (i_bytes i) _ _ _ _ _ _ _ (open_file_serves i) Hs) as (info & v1 & v2 & Hst & Hsz & Hh).
  cbn in Hst. destruct (syscall (sv_disk v1)) as [x d]. assert (info = describe i) as -> by (destruct x; congruence).
  rewrite describe_size in Hsz. exists i. split; [done|]. split; [done|]. rewrite Hsz in Hh. destruct (Hh (zlen_nonneg _)) as [_ ->].
  by rewrite ztake_all.
Qed.
End Look.

(** ** What others do meanwhile *)

(** The session with the batches [xs] and then [ys] since its base. *)
Record flight (base start : list byte) (xs ys : list logged) (v : Versions) (s : Session) : Prop := mkFlight {
  fl_ok : session_ok base s v;
  fl_indexed : indexed start (xs ++ ys) s (v_now v);
  fl_roomy : roomy s;
  fl_plain : plain_session s }.

(** A session being saved: the batches [xs] are in the snapshot, any may follow. *)
Record in_flight (base start : list byte) (xs : list logged) (committed : Z) (marked : bool) (s : Session) : Prop := mkInFlight {
  if_committed : s_committedRevision s = committed;
  if_marked : s_hasBOM s = marked;
  if_flight : exists ys v, flight base start xs ys v s }.

(** Whatever they do to the session, it stays one; and a session with a fault
    refuses every edit, undo, redo and save. *)
Record env_ok (others : Saving -> Session) (base start : list byte) (xs : list logged) (committed : Z) (marked : bool) : Prop := mkEnv {
  en_flight w : in_flight base start xs committed marked (sv_session w) -> in_flight base start xs committed marked (others w);
  en_faulted w v : session_ok base (sv_session w) v -> isSome (s_fault (sv_session w)) = true ->
    session_ok base (others w) v /\ s_fault (others w) = s_fault (sv_session w) /\ s_committedRevision (others w) = s_committedRevision (sv_session w) }.

Lemma session_ok_events base s v h : session_ok base s v -> session_ok base (set_events h s) v.
Proof. intros [[]]. split; [split|..]; done. Qed.
Lemma indexed_events start xs s doc h : indexed start xs s doc -> indexed start xs (set_events h s) doc.
Proof. intros []. by split. Qed.
Lemma in_flight_events base start xs c m s h : in_flight base start xs c m s -> in_flight base start xs c m (set_events h s).
Proof.
  intros [? ? (ys & v & [])]. split; [done|done|]. exists ys, v. split; [by apply session_ok_events|by apply indexed_events|done|done].
Qed.
Lemma flight_reread base start xs ys v s s' : flight base start xs ys v s -> reread s s' -> flight base start xs ys v s'.
Proof.
  intros [H1 H2 H3 H4] Hr. split; [by eapply session_ok_reread|by eapply indexed_reread| |by eapply plain_reread].
  unfold roomy in *. by rewrite (re_data _ _ Hr).
Qed.

Lemma in_flight_reread base start xs c m s s' : in_flight base start xs c m s -> reread s s' -> in_flight base start xs c m s'.
Proof.
  intros [Hc Hm (ys & v & Hf)] Hr. split; [by rewrite (re_frame _ _ Hr)|by rewrite (re_frame _ _ Hr)|].
  exists ys, v. by eapply flight_reread.
Qed.

Lemma peeked_fields w w' :
  peeked w w' -> sv_session w' = sv_session w /\ sv_locals w' = sv_locals w /\ sv_diskIdentity w' = sv_diskIdentity w.
Proof. intros [_ ->]. done. Qed.
Lemma peeked_afoot target total expected w w' : peeked w w' -> afoot target total expected w -> afoot target total expected w'.
Proof. intros [_ ->]. done. Qed.
Lemma working_afoot target total expected w w' : working w w' -> afoot target total expected w -> afoot target total expected w'.
Proof. intros [_ -> _]. done. Qed.
Lemma plain_saving_peeked ctx setup w w' : peeked w w' -> plain_saving ctx setup w -> plain_saving ctx setup w'.
Proof.
  intros Hp ([? ?] & ? & ?). split; [split; [done|]|split; [done|by eapply peeked_plain]].
  by rewrite (proj1 (peeked_fields _ _ Hp)).
Qed.

(** ** The check *)

Section Check.
Context (journal_reads : list byte -> ReaderAt) (Dir : FilePath -> FilePath) (setup : JournalSetup).
Context (sha256 normalizeFingerprintPath : list byte -> list byte) (absolutePath : list byte -> Prelude.result (list byte)).
Context (describe : inode -> FileInfo) (stampOf : FileInfo -> Prelude.result fileChangeStamp) (others : Saving -> Session) (ctx : Context).
Hypothesis reads_ok : forall data, ReaderOk (journal_reads data) data.
Hypothesis describe_size : forall i, fi_Size (describe i) = zlen (i_bytes i).
Hypothesis stampOf_plain : forall info, plain_result (stampOf info).
Hypothesis ctx_plain : plain_context ctx.
Hypotheses (setup_plain : plain_setup setup) (setup_new : setup_fresh setup).
Context (base start : list byte) (xs : list logged) (c : Z) (m : bool) (fs : directory) (name path : FilePath) (whole : list byte).
Context (total : Z) (expected : fileIdentity).

Definition new_fingerprint : Fingerprint := fingerprintFor sha256 normalizeFingerprintPath absolutePath path total (sha256 whole).
Hypothesis fp_ok : fingerprint_ok new_fingerprint.
Hypothesis path_name : path <> name.

Abbreviation target := (c + log_edits xs).

(** The file that is replaced: what this session last saw there. *)
Definition as_expected : Prop :=
  exists i, fs !! path = Some i /\ zlen (i_bytes i) = id_size expected /\ sha256 (i_bytes i) = id_contentHash expected.

(** The check is passed: everything for the new base is ready. *)
Record checked (w : Saving) : Prop := mkChecked {
  ck_flight : exists ys v, flight base start xs ys v (sv_session w) /\ rebased setup new_fingerprint ys w;
  ck_committed : s_committedRevision (sv_session w) = c;
  ck_marked : s_hasBOM (sv_session w) = m;
  ck_locked : lc_boundaryLocked (sv_locals w) = true;
  ck_afoot : afoot target total expected w;
  ck_hash : lc_newContentHash (sv_locals w) = sha256 whole;
  ck_fingerprint : lc_newFingerprint (sv_locals w) = new_fingerprint;
  ck_old : as_expected }.

(** The save failed and left the session to the others. *)
Record halted (w : Saving) : Prop := mkHalted {
  ha_session : in_flight base start xs c m (sv_session w);
  ha_unlocked : lc_boundaryLocked (sv_locals w) = false;
  ha_afoot : afoot target total expected w }.

Lemma in_flight_plain w : in_flight base start xs c m (sv_session w) -> plain_disk w -> plain_saving ctx setup w.
Proof using ctx_plain setup_plain. intros [_ _ (ys & v & Hf)] Hd. split; [split; [done|apply Hf]|done]. Qed.

(** The state once the identity is known to be as expected. *)
Record identified (w : Saving) : Prop := mkIdentified {
  ie_session : in_flight base start xs c m (sv_session w);
  ie_prepared : sv_prepared w = None;
  ie_locked : lc_boundaryLocked (sv_locals w) = true;
  ie_afoot : afoot target total expected w;
  ie_hash : lc_newContentHash (sv_locals w) = sha256 whole;
  ie_fingerprint : lc_newFingerprint (sv_locals w) = new_fingerprint;
  ie_old : as_expected }.

(** The journal of the new base, and a last look at the context. *)
Lemma prepare_step w w' r :
  (let* _ := prepareJournalRebaseLocked journal_reads Dir setup ctx new_fingerprint target in
   fun w =>
     let '(w, e) := context_error ctx w in
     match e with
     | None => (w, Ok tt)
     | Some e =>
       let '(w, discardErr) := discardPreparedJournal setup true w in
       (w, Err (match discardErr with Some e' => errJoin e e' | None => e end))
     end) w = (w', r) ->
  identified w -> plain_disk w ->
  quiet w w' /\ plain_result r /\
  match r with Ok _ => checked w' | Err _ => in_flight base start xs c m (sv_session w') /\ afoot target total expected w' end.
Proof using reads_ok ctx_plain setup_plain setup_new fp_ok.
  intros H [HF Ep Elk Haf Enh Efp Hold] Hd. pose proof HF as [Ec Em (ys & v & Hfl)]. pose proof Hfl as [Hok Hix Hroom _].
  rewrite <-Ec in H.
  split_eff H; destruct (prepare_spec _ reads_ok Dir _ ctx new_fingerprint start xs ys (v_now v) _ _ _ setup_new fp_ok
    (sb_open _ _ _ (so_base _ _ _ Hok)) Hix Hroom Ep Hc) as [Hw Hq _ Hp _].
  { split; [apply Hw|]. split; [intros ? [= <-]; by apply Hp; [apply in_flight_plain|]|].
    split; [by eapply in_flight_reread, Hw|by eapply working_afoot]. }
  destruct (context_error ctx w0) as [w4 e] eqn:Hce. injection Hce as <- <-. pose proof (working_poll (S (sv_poll w0)) w0) as Hw4.
  pose proof (working_trans _ _ _ Hw Hw4) as Hw04. destruct (Hq _ eq_refl) as [Hq' _]. clear Hq. rename Hq' into Hq.
  destruct (ctx (sv_poll w0)) as [e|] eqn:Hctx.
  - destruct (discardPreparedJournal setup true _) as [w5 de] eqn:Hdis. injection H as <- <-.
    destruct (discard_spec _ _ _ _ _ Hdis) as (Hw5 & Hpd & _). pose proof (working_trans _ _ _ Hw04 Hw5) as Hw05.
    split; [apply Hw05|]. split; [|split; [by eapply in_flight_reread, Hw05|by eapply working_afoot]].
    assert (plain_error de) as Hde.
    { apply Hpd; [apply setup_plain|]. intros p j E1 E2. destruct Hq as (f & ps & Hpr & _ & _ & Hpf & _).
      assert (sv_prepared w0 = Some p) as E3 by exact E1. unfold prepared_with in Hpr. rewrite Hpr in E3. injection E3 as <-.
      injection E2 as <-. intros g [= <-]. auto. }
    intros e' [= <-]. pose proof (ctx_plain _ _ Hctx) as He. unfold plain in *. destruct de as [de|]; cbn; rewrite ?He; [|done]. by apply Hde.
  - injection H as <- <-. split; [apply Hw04|]. split; [done|].
    destruct (in_flight_reread _ _ _ _ _ _ _ HF (wk_session _ _ Hw04)) as [Ec4 Em4 _]. pose proof (working_afoot _ _ _ _ _ Hw04 Haf) as Haf4.
    pose proof (flight_reread _ _ _ _ _ _ _ Hfl (wk_session _ _ Hw04)) as Hfl4. rewrite (wk_frame _ _ Hw) in *.
    split; try done. by exists ys, v.
Qed.

Lemma check_locked_spec w w' r :
  check_locked journal_reads Dir setup sha256 normalizeFingerprintPath absolutePath describe stampOf ctx path target expected w = (w', r) ->
  in_flight base start xs c m (sv_session w) -> sv_prepared w = None -> lc_boundaryLocked (sv_locals w) = true ->
  afoot target total expected w -> lc_hashed (sv_locals w) = whole -> delete name (w_files (disk w)) = fs -> plain_disk w ->
  quiet w w' /\ plain_result r /\
  match r with Ok _ => checked w' | Err _ => in_flight base start xs c m (sv_session w') /\ afoot target total expected w' end.
Proof using reads_ok describe_size stampOf_plain ctx_plain setup_plain setup_new fp_ok path_name.
  intros H HF Hnone Hlock Haf Hhash Hfs Hd. unfold check_locked in H.
  assert (forall w1, peeked w w1 -> in_flight base start xs c m (sv_session w1) /\ afoot target total expected w1) as Hpeek.
  { intros w1 Hp. split; [by rewrite (proj1 (peeked_fields _ _ Hp))|by eapply peeked_afoot]. }
  split_eff H; apply sv_check_inv in Hc as [-> Hr].
  { split; [apply pk_quiet, peeked_poll|]. split; [|apply Hpeek, peeked_poll]. intros e' [= <-]. destruct (ctx (sv_poll w)) eqn:E; [|done].
    injection Hr as ->. by eapply ctx_plain. }
  set (w1 := set_poll (S (sv_poll w)) w) in *. assert (peeked w w1) as P1 by apply peeked_poll.
  split_eff H; destruct (scanDiskIdentity_spec _ _ _ _ describe_size stampOf_plain ctx_plain _ _ _ _ Hc (peeked_plain _ _ P1 Hd)) as (P2 & Hpl & Hid).
  { assert (peeked w w') as P by (by etransitivity). split; [apply P|]. split; [intros ? [= <-]; by apply Hpl|by apply Hpeek]. }
  rename a0 into current. assert (peeked w w0) as P by (by etransitivity). destruct (Hid current eq_refl) as (i & Hi & Hsz & Hch).
  rewrite (peeked_files _ _ P1) in Hi.
  destruct (same_content current expected) eqn:Hsame; cbn [negb] in H.
  2:{ injection H as <- <-. split; [apply P|]. split; [by intros ? [= <-]|by apply Hpeek]. }
  apply andb_prop in Hsame as [Es%Z.eqb_eq Eh%bool_decide_eq_true].
  unfold eff_modify, eff_bind at 1 in H. unfold eff_get, eff_bind at 1 in H.
  destruct (peeked_fields _ _ P) as (Es0 & El0 & Ei0). set (w2 := on_locals _ w0) in H.
  assert (quiet w w2) as Q2 by (destruct (pk_quiet _ _ P); by split).
  assert (identified w2) as Hid2.
  { split; [change (sv_session w2) with (sv_session w0); by rewrite Es0|unfold sv_prepared; cbn; by rewrite El0|cbn; by rewrite El0
      |exact (peeked_afoot _ _ _ _ _ P Haf)|cbn; by rewrite El0, Hhash| |].
    - cbn. rewrite El0, Hhash. by destruct Haf as (_ & _ & _ & -> & _).
    - exists i. rewrite <-Hfs, lookup_delete_ne by done. split; [done|]. by rewrite <-Es, <-Eh. }
  rewrite (ie_fingerprint _ Hid2) in H. destruct (prepare_step _ _ _ H Hid2 (plain_quiet _ _ Q2 Hd)) as (Q3 & ?).
  split; [by eapply quiet_trans|done].
Qed.

(** The whole check, from a save whose content is written. *)
Lemma checkIdentity_spec w w' e :
  env_ok others base start xs c m ->
  checkIdentity journal_reads Dir setup sha256 normalizeFingerprintPath absolutePath describe stampOf others ctx path target expected w = (w', e) ->
  underway (in_flight base start xs c m) target total expected w -> lc_hashed (sv_locals w) = whole ->
  delete name (w_files (disk w)) = fs -> plain_disk w ->
  quiet w w' /\ plain_error e /\ match e with None => checked w' | Some _ => halted w' end.
Proof using reads_ok describe_size stampOf_plain ctx_plain setup_plain setup_new fp_ok path_name.
  intros Henv H [HF Hnone Hun Haf] Hhash Hfs Hd. unfold checkIdentity, context_error in H.
  destruct (ctx (sv_poll w)) as [ce|] eqn:Hctx.
  { injection H as <- <-. split; [apply pk_quiet, peeked_poll|]. split; [intros ? [= <-]; by eapply ctx_plain|by split]. }
  set (w1 := on_locals (lc_lock true) _) in H. destruct (check_locked _ _ _ _ _ _ _ _ _ _ _ _ w1) as [w2 r] eqn:Hr.
  assert (quiet w w1) as Q1 by (split; [done|done|by exists []]).
  destruct (check_locked_spec _ _ _ Hr) as (Q2 & Hp & Hres); try done; [by apply (en_flight _ _ _ _ _ _ Henv)|].
  assert (quiet w w2) as Q by (by eapply quiet_trans). destruct r as [a|e2]; injection H as <- <-.
  - by split_and!.
  - split; [destruct Q; by split|]. split; [intros ? [= <-]; by apply Hp|]. destruct Hres. by split.
Qed.
End Check.
