(* ===== verification/CommitBase.v ===== *)
(** * document/session.go: the session on its new base

    After the replacement the session reads the new file, puts the edits made
    since the snapshot on top of it and drops the old journal.  If that fails, the
    session is left as it was and faulted, for the file on disk is no longer its
    base. *)

From Stdlib Require Import ZArith Lia List.
From stdpp Require Import base list numbers gmap.
From S2P Require Import Prelude GoLib Store File Journal ChangeMap ChangeHistory Events UndoStore Utf8 Options Effects Scan TreeText JournalText Session SessionText SessionHistory SessionEdit Editor SessionRecovery SessionPending Compaction Save SysFiles Rebase Commit CommitStream CommitCheck.
#[local] Open Scope Z_scope.

(** ** The pending edits on another tree *)

Section Rebuild.
Context (D : Texts) (data : list byte).
Hypothesis D_journal : D SourceJournal = data.
Hypothesis data_size : zlen data <= maxInt64.

(** The sources of the tree serve the new journal. *)
Definition journaled_tree (t : Tree) : Prop := exists rd, t_sources t !! SourceJournal = Some rd /\ ReaderOk rd data.

Lemma rebuild_entry t doc revision group off o :
  holds D t doc -> journaled_tree t -> ops_ok doc [to_op o] -> payload_at data off (ro_Inserted o) ->
  exists t' x, ReplacePiece t (ro_Start o) (ro_DeleteLength o) (pending_piece (pending_entry revision group off o)) = (t', Ok x) /\
    holds D t' (apply_op (to_op o) doc) /\ journaled_tree t'.
Proof using D_journal data_size.
  intros Ht (rd & Hrd & Hok) (Hv & H0 & H1 & H2 & _ & _ & Hl & _) (Hp0 & Hp1 & Hp2). cbn [to_op Start DeleteLength Insert] in *.
  set (ins := ro_Inserted o) in *. pose proof (zlen_nonneg ins) as Hi0.
  change (pending_piece (pending_entry revision group off o)) with (insert_piece SourceJournal off ins).
  destruct (insert_piece_valid SourceJournal off ins Hp0 ltac:(lia)) as (Hty & Hpv & Hpl & Hso).
  pose proof (holds_replace _ _ doc _ _ _ Ht Hty H0 H1 H2 Hpv ltac:(lia)) as Hrep.
  match type of Hrep with (?A -> _) => assert A as Hserve end.
  { intros Hpos. destruct (Hso ltac:(lia)) as [E1 E2]. split; [unfold in_range; rewrite E1, E2, Hpl, D_journal; lia|]. rewrite E1, D_journal. by exists rd. }
  specialize (Hrep Hserve). assert (piece_bytes D (insert_piece SourceJournal off ins) = ins) as Hpb.
  { unfold piece_bytes. rewrite Hpl. destruct (decide (0 < zlen ins)) as [Hpos|Hz]; [destruct (Hso Hpos) as [-> ->]; by rewrite D_journal|].
    rewrite (zlen_zero ins) by lia. by apply slice_nil_len. }
  rewrite Hpb in Hrep. destruct (ReplacePiece _ _ _ _) as [t1 [x|e]]; [|destruct Hrep as (_ & _ & Hover); rewrite Hpl in Hover; lia].
  destruct Hrep as [Hh Hsrc]. exists t1, x. split; [done|]. split; [exact Hh|]. exists rd. by rewrite Hsrc.
Qed.

Lemma rebuild_entries ops : forall t doc revision group offsets ps,
  holds D t doc -> journaled_tree t -> ops_ok doc (map to_op ops) -> Forall2 (payload_at data) offsets (map ro_Inserted ops) ->
  exists t', rebuild_tree t (pending_entries revision group ops offsets ++ ps) = rebuild_tree t' ps /\
    holds D t' (apply_ops (map to_op ops) doc) /\ journaled_tree t'.
Proof using D_journal data_size.
  induction ops as [|o ops IH]; intros t doc revision group offsets ps Ht Hj Hops Hpay; [by exists t|].
  inversion Hpay as [|off ? offs ? Hp1 Hps]; subst. cbn [pending_entries hd tl app rebuild_tree].
  cbn [map ops_ok] in Hops. destruct Hops as (? & ? & ? & ? & ? & ? & ? & Hops).
  destruct (rebuild_entry t doc revision group off o Ht Hj ltac:(by split_and!) Hp1) as (t1 & x & E & Ht1 & Hj1).
  cbn [po_start po_deleteLength pending_entry] in *. rewrite E. by apply IH.
Qed.

(** All of them apply, and give the text of their log. *)
Lemma rebuild_logs ys ps : pending_logs data ys ps -> forall t doc revision,
  holds D t doc -> journaled_tree t -> logs_ok doc revision ys ->
  exists t', rebuild_tree t ps = (t', Ok tt) /\ holds D t' (apply_logs ys doc).
Proof using D_journal data_size.
  induction 1 as [|y ys p q (offs & Hoff & ->) _ IH]; intros t doc revision Ht Hj Hlog; [by exists t|].
  destruct Hlog as (_ & _ & _ & Hops & Hlog).
  destruct (rebuild_entries _ t doc (l_rev y) (l_group y) offs q Ht Hj Hops Hoff) as (t1 & -> & Ht1 & Hj1). by eapply IH.
Qed.
End Rebuild.

(** ** The two ends of a commit *)

(** A session on the base [base], at the committed revision [target] with the text
    [text], with the edits [ys] since. *)
Record settled (base text : list byte) (target : Z) (fp : Fingerprint) (ys : list logged) (v : Versions) (s : Session) : Prop := mkSettled {
  se_ok : session_ok base s v;
  se_indexed : indexed text ys s (v_now v);
  se_committed : s_committedRevision s = target;
  se_fingerprint : s_fingerprint s = fp;
  se_journal : session_data s = encodeFileHeader fp ++ encodeAll ys;
  se_size : zlen (session_data s) <= maxInt64 }.

(** What the session does around an exchange of bases keeps it well formed. *)
Lemma settled_events base text target fp ys v s h : settled base text target fp ys v s -> settled base text target fp ys v (set_events h s).
Proof. intros [? ? ? ? ? ?]. split; [by apply session_ok_events|by apply indexed_events|done..]. Qed.

Lemma settled_scheduled base text target fp ys v s :
  settled base text target fp ys v s -> settled base text target fp ys v (maybeScheduleJournalCheckpointLocked s).
Proof.
  intros [[[]] [] ? ? ? ?]. unfold maybeScheduleJournalCheckpointLocked. destruct (_ || _); [by split; [split; [split|..]|split|..]|].
  by split; [split; [split|..]|split|..].
Qed.

Lemma settled_synced takes base text target fp ys v s :
  settled base text target fp ys v s -> settled base text target fp ys v (recordJournalSyncResultLocked takes true None s).
Proof.
  intros H. unfold recordJournalSyncResultLocked. destruct (isSome _); [|done]. apply settled_events.
  destruct H as [[[]] [] ? ? ? ?]. by split; [split; [split|..]|split|..].
Qed.

Lemma recovered_settled base text target fp ys v s b :
  settled base text target fp ys v s -> settled base text target fp ys v (set_recovered b s).
Proof. intros [[[]] [] ? ? ? ?]. by split; [split; [split|..]|split|..]. Qed.

(** The assignments of the exchange. *)
Lemma rebase_session_settled takes base0 base target text fp start xs ys v s tree f path ps n uncertain :
  flight base0 start xs ys v s -> target = s_committedRevision s + log_edits xs -> text = apply_logs xs start ->
  holds (texts base (f_bytes f)) tree (v_now v) -> f_bytes f = encodeFileHeader fp ++ encodeAll ys -> fingerprint_ok fp ->
  pending_logs (f_bytes f) ys ps -> zlen (f_bytes f) <= maxInt64 ->
  settled base text target fp ys v
    (rebase_session takes tree (Some (mkJournal (Some f) path)) ps n target fp uncertain s).
Proof.
  intros [Hok Hix _ _] -> -> Ht Hf Hfp Hps Hsize. unfold rebase_session. cbv zeta.
  set (s1 := resetJournalCheckpointLocked _).
  assert (settled base (apply_logs xs start) (s_committedRevision s + log_edits xs) fp ys v s1) as H1.
  { destruct Hix as [Hlog Hgr Htext H0 Hrev Hdirty Hpend Hroom]. apply logs_ok_app in Hlog as [_ Hlog].
    apply List.Forall_app in Hgr as [_ Hgr]. rewrite log_edits_app in Hrev. pose proof (log_edits_nonneg xs).
    split; [|split|done|done|exact Hf|exact Hsize].
    - destruct Hok as [[] Hh Hr Hl Hu Hre Hap]. split; [split|..]; try done. intros j [= <-]. by eexists.
    - exact Hlog.
    - exact Hgr.
    - by rewrite <-apply_logs_app.
    - change (0 <= s_committedRevision s + log_edits xs). lia.
    - change (s_revision s = s_committedRevision s + log_edits xs + log_edits ys). lia.
    - done.
    - exact Hps.
    - change (session_data s1) with (f_bytes f). rewrite Hf, zlen_app. pose proof (zlen_nonneg (encodeFileHeader fp)). lia. }
  clearbody s1. apply settled_scheduled, settled_synced. destruct (s_dirty s1); [done|by apply recovered_settled].
Qed.

Lemma rebase_session_uncertain takes tree j ps n target fp uncertain s :
  s_durabilityUncertain (rebase_session takes tree j ps n target fp uncertain s) = uncertain.
Proof.
  unfold rebase_session, maybeScheduleJournalCheckpointLocked, recordJournalSyncResultLocked. cbv zeta.
  repeat match goal with |- context [if ?b then _ else _] => destruct b end; done.
Qed.

Lemma metadataLocked_events h s : metadataLocked (set_events h s) = metadataLocked s.
Proof. done. Qed.

(** The fields a failure after the replacement sets. *)
Lemma session_ok_faulted base v s target uncertain cause :
  session_ok base s v ->
  session_ok base (set_fault (Some cause) (set_durabilityUncertain uncertain
    (set_dirty (target <? s_revision s) (set_committedRevision target s)))) v.
Proof. intros [[]]. split; [split|..]; done. Qed.

Lemma boolOffset_mark (b : bool) : boolOffset b 3 = zlen (if b then byteOrderMark else []).
Proof. by destruct b. Qed.

Section Publish.
Context (journal_reads base_reads : list byte -> ReaderAt) (takes : Z -> list nat) (Dir : FilePath -> FilePath) (setup : JournalSetup).
Context (sha256 normalizeFingerprintPath : list byte -> list byte) (absolutePath : list byte -> Prelude.result (list byte)).
Context (describe : inode -> FileInfo).
Hypothesis reads_ok : forall data, ReaderOk (journal_reads data) data.
Hypothesis base_reads_ok : forall data, ReaderOk (base_reads data) data.
Hypothesis describe_size : forall i, fi_Size (describe i) = zlen (i_bytes i).
Context (base start : list byte) (xs : list logged) (c : Z) (m : bool) (fs : directory) (path : FilePath) (mode : Z).
Context (expected : fileIdentity).

Definition mark : list byte := if m then byteOrderMark else [].
(** The new base: the mark and the text of the snapshot. *)
Definition new_base : list byte := mark ++ apply_logs xs start.
Definition new_inode : inode := mkInode new_base (Perm mode) true.

Abbreviation target := (c + log_edits xs).
Abbreviation total := (zlen new_base).
Abbreviation fingerprint := (new_fingerprint sha256 normalizeFingerprintPath absolutePath path new_base total).
Abbreviation passed := (checked setup sha256 normalizeFingerprintPath absolutePath base start xs c m fs path new_base total expected).

Hypothesis base_size : total <= maxInt64.
Lemma new_base_tree_spec s t :
  s_hasBOM s = m -> new_base_tree base_reads s (describe new_inode) new_inode = Ok t ->
  holds (texts new_base []) t (apply_logs xs start).
Proof using base_reads_ok describe_size base_size.
  unfold new_base_tree. rewrite describe_size. cbn [new_inode i_bytes]. intros -> H.
  assert (boolOffset m 3 = zlen mark) as Eo by apply boolOffset_mark. pose proof (zlen_nonneg mark) as H0.
  pose proof (zlen_nonneg (apply_logs xs start)) as H1. unfold new_base in *. rewrite zlen_app in *.
  assert (zlen mark + zlen (apply_logs xs start) ⊟ boolOffset m 3 = zlen (apply_logs xs start)) as El by (rewrite Eo, i64_id by go_lia; lia).
  rewrite El, Eo in H.
  pose proof (NewWithBasePiece_holds (texts (mark ++ apply_logs xs start) []) _ _ _ _ H) as Hh. cbn [p_Offset p_Length] in Hh.
  change (texts (mark ++ apply_logs xs start) [] SourceBase) with (mark ++ apply_logs xs start) in Hh.
  rewrite slice_app_r, Z.sub_diag, slice_all in Hh by lia. apply Hh; [by split_and!; cbn; go_lia|done|apply base_reads_ok|].
  rewrite zlen_app. lia.
Qed.
Hypothesis fp_ok : fingerprint_ok fingerprint.

(** The file is replaced and the session is on it. *)
Record saved (atomicErr : option error) (w : Saving) (out : Outcome) : Prop := mkSaved {
  sd_settled : exists ys v, settled new_base (apply_logs xs start) target fingerprint ys v (sv_session w);
  sd_identity : id_size (sv_diskIdentity w) = total /\ id_contentHash (sv_diskIdentity w) = sha256 new_base;
  sd_uncertain : s_durabilityUncertain (sv_session w) = isSome atomicErr;
  sd_finished : lc_finished (sv_locals w) = true;
  sd_outcome : out = (metadataLocked (sv_session w), atomicErr) }.

(** The file is replaced but the session could not follow: it keeps its text and
    history and takes no more edits. *)
Record faulted (w : Saving) : Prop := mkFaulted {
  fd_ok : exists v, session_ok base (sv_session w) v;
  fd_fault : isSome (s_fault (sv_session w)) = true;
  fd_committed : s_committedRevision (sv_session w) = target }.

Lemma commitFailure_spec atomicErr cause w w' out :
  commitFailure setup target total atomicErr cause w = (w', out) -> (exists v, session_ok base (sv_session w) v) ->
  faulted w' /\ quiet w w' /\ exists e, out.2 = Some (errJoin document_ErrFaulted e).
Proof using.
  unfold commitFailure. destruct (discardPreparedJournal setup false w) as [w1 de] eqn:Hd. intros [= <- <-] [v Hok].
  destruct (discard_spec _ _ _ _ _ Hd) as ([Hr _ Hq] & _). split; [|split; [by destruct Hq; split|by eexists]].
  split; [|done|done]. exists v. apply (session_ok_faulted _ _ (sv_session w1)). by eapply session_ok_reread.
Qed.

(** The edits since the snapshot, on the tree of the new base. *)
Lemma rebuilt ys v s f ps jpath t :
  flight base start xs ys v s -> s_committedRevision s = c -> f_bytes f = encodeFileHeader fingerprint ++ encodeAll ys ->
  pending_logs (f_bytes f) ys ps -> holds (texts new_base []) t (apply_logs xs start) ->
  zlen (f_bytes f) <= maxInt64 /\
  exists t', rebuild_tree (alias journal_reads t (mkJournal (Some f) jpath)) ps = (t', Ok tt) /\
    holds (texts new_base (f_bytes f)) t' (v_now v).
Proof using reads_ok fp_ok.
  intros [_ [Hlog _ Htext _ _ _ _ Hroom] Hroomy _] Ec Hbytes Hpl Ht.
  apply logs_ok_app in Hlog as [_ Hlog]. rewrite apply_logs_app in Htext. rewrite <-Htext.
  assert (zlen (f_bytes f) <= maxInt64) as Hsize.
  { rewrite Hbytes, zlen_app, zlen_encodeFileHeader by done. rewrite encodeAll_app, zlen_app in Hroom. unfold roomy in Hroomy.
    pose proof (zlen_nonneg (encodeAll xs)). unfold EmptyJournalBytes, fileHeaderSize, batchHeaderSize, maximumBatchPayload in *. lia. }
  split; [done|]. eapply (rebuild_logs (texts new_base (f_bytes f)) (f_bytes f) eq_refl); [exact Hsize|exact Hpl| | |exact Hlog].
  - exact (holds_grow journal_reads reads_ok new_base [] (f_bytes f) t _ Ht).
  - eexists. split; [apply lookup_insert_eq|apply reads_ok].
Qed.

Lemma commit_exchange_spec t info atomicErr w w' out :
  commit_exchange journal_reads takes setup t info target total atomicErr w = (w', out) -> passed w ->
  holds (texts new_base []) t (apply_logs xs start) -> fi_Size info = total ->
  quiet w w' /\ saved atomicErr w' out.
Proof using reads_ok fp_ok.
  intros H [(ys & v & Hfl & f & ps & Hpr & Hbytes & Hpl & _) Ec Em _ Haf Ehash Efp _] Ht Hsize.
  unfold commit_exchange in H. unfold prepared_with in Hpr. rewrite Hpr in H. cbn [pj_journal pj_path pj_pending pj_bytes] in H.
  destruct (rebuilt ys v (sv_session w) f ps (js_path setup) t Hfl Ec Hbytes Hpl Ht) as (Hfsize & t' & Hreb & Ht'). rewrite Hreb in H.
  cbn [sv_locals sv_session set_prepared set_locals lc_newFingerprint lc_set_prepared] in H. rewrite Efp in H.
  pose proof (rebase_session_uncertain takes t' (Some (mkJournal (Some f) (js_path setup))) ps (zlen (f_bytes f)) target fingerprint
    (isSome atomicErr) (sv_session w)) as Hun.
  assert (settled new_base (apply_logs xs start) target fingerprint ys v
    (rebase_session takes t' (Some (mkJournal (Some f) (js_path setup))) ps (zlen (f_bytes f)) target fingerprint (isSome atomicErr)
       (sv_session w))) as Hse by (apply (rebase_session_settled takes base new_base target _ fingerprint start xs); try done; by rewrite Ec).
  revert H Hun Hse. generalize (rebase_session takes t' (Some (mkJournal (Some f) (js_path setup))) ps (zlen (f_bytes f)) target fingerprint
    (isSome atomicErr) (sv_session w)). intros s' [= <- <-] Hun Hse. split; [by split; [done|done|exists []]|]. split.
  - exists ys, v. by apply settled_events.
  - cbn. by rewrite Ehash.
  - exact Hun.
  - done.
  - by rewrite <-(metadataLocked_events (publish takes (s_events s') (persistence_event EventSaved (metadataLocked s')
      (completed (lc_persistence (sv_locals w))) atomicErr)) s').
Qed.

Lemma passed_peeked w w' : peeked w w' -> passed w -> passed w'.
Proof using.
  intros [_ ->] [(ys & v & ? & f & ps & ? & ?) ? ? ? ? ? ? ?]. split; try done. exists ys, v. split; [done|]. by exists f, ps.
Qed.

(** Whatever happens after the replacement: one of the two ends. *)
Lemma commit_publish_spec atomicErr w w' out :
  commit_publish journal_reads base_reads takes setup describe path target total atomicErr w = (w', out) ->
  passed w -> w_files (disk w) !! path = Some new_inode -> plain_disk w ->
  quiet w w' /\ (saved atomicErr w' out \/ faulted w' /\ exists e, out.2 = Some (errJoin document_ErrFaulted e)).
Proof using reads_ok base_reads_ok describe_size base_size fp_ok.
  intros H Hpass Hfile Hd. unfold commit_publish in H. pose proof Hpass as [(ys & v & Hfl & _) _ Em _ _ _ _ _].
  assert (forall atomicErr cause w1, quiet w w1 -> sv_session w1 = sv_session w ->
    commitFailure setup target total atomicErr cause w1 = (w', out) ->
    quiet w w' /\ (saved atomicErr w' out \/ faulted w' /\ exists e, out.2 = Some (errJoin document_ErrFaulted e))) as Hfail.
  { intros a cause w1 Hq Es Hf. destruct (commitFailure_spec _ _ _ _ _ Hf) as (? & Hq2 & ?); [exists v; rewrite Es; apply Hfl|].
    split; [by eapply quiet_trans|by right]. }
  destruct (sys_stat describe path w) as [w1 [info|e1]] eqn:H1; destruct (sys_stat_spec _ _ _ _ _ H1 Hd) as (P1 & _ & Hinfo);
    [|eapply Hfail; [apply P1|by apply peeked_fields|exact H]].
  destruct (Hinfo _ eq_refl) as (i & Hi & ->). rewrite Hfile in Hi. injection Hi as <-.
  assert (fi_Size (describe new_inode) = total) as Hsize by apply describe_size. rewrite Hsize, Z.eqb_refl in H. cbn [negb] in H.
  destruct (sys_openBase path w1) as [w2 [i|e2]] eqn:H2; destruct (sys_openBase_spec _ _ _ _ H2 (peeked_plain _ _ P1 Hd)) as (P2 & _ & Hi);
    assert (peeked w w2) as P by (by etransitivity); [|eapply Hfail; [apply P|by apply peeked_fields|exact H]].
  specialize (Hi _ eq_refl). rewrite (peeked_files _ _ P1), Hfile in Hi. injection Hi as <-.
  destruct (peeked_fields _ _ P) as (Es & El & Eid).
  destruct (new_base_tree base_reads (sv_session w2) (describe new_inode) new_inode) as [t|e] eqn:Ht.
  2:{ pose proof (sys_plain_only w2) as Ho. destruct (sys_plain w2) as [w3 e3] eqn:H3. destruct (sys_plain_spec _ _ _ H3) as (Q3 & _).
      cbn [fst] in *. eapply Hfail; [eapply quiet_trans; [apply P|exact Q3]| |exact H]. destruct Ho as [d ->]. exact Es. }
  apply new_base_tree_spec in Ht; [|by rewrite Es].
  destruct (commit_exchange_spec _ _ _ _ _ _ H (passed_peeked _ _ P Hpass) Ht Hsize) as [Hq Hs].
  split; [eapply quiet_trans; [apply P|exact Hq]|by left].
Qed.
End Publish.
