(* ===== verification/CommitSave.v ===== *)
(** * document/session.go: what a save promises

    [commitAtLeast] as a whole: a save publishes the text of its snapshot as the
    new base, atomically and only over the file it expects, and the session goes on
    with the edits made meanwhile; or it leaves file and session alone. *)

From Stdlib Require Import ZArith Lia List.
From stdpp Require Import base list numbers gmap.
From S2P Require Import Prelude GoLib Store File Journal ChangeMap ChangeHistory Events UndoStore Utf8 Options Effects Scan TreeText JournalText Session SessionText SessionHistory SessionEdit Editor SessionFrame SessionRecovery SessionPending Compaction Save SysFiles Rebase Commit CommitStream CommitCheck CommitBase.
#[local] Open Scope Z_scope.

(** The documented behaviour of what is not in the repository. *)
Record system_ok (journal_reads base_reads : list byte -> ReaderAt) (sha256 : list byte -> list byte) (describe : inode -> FileInfo)
  (stampOf : FileInfo -> Prelude.result fileChangeStamp) : Prop := mkSystem {
  sy_journal data : ReaderOk (journal_reads data) data;
  sy_base data : ReaderOk (base_reads data) data;
  sy_sha256 p : length (sha256 p) = 32%nat;
  sy_size i : fi_Size (describe i) = zlen (i_bytes i);
  sy_stamp info : plain_result (stampOf info) }.

(** The refusals change nothing. *)
Lemma save_refused_spec ctx expected w w' refused :
  save_refused ctx expected w = (w', refused) ->
  peeked w w' /\ match refused with Some out => is_Some out.2 | None => expected <= s_revision (sv_session w) end.
Proof.
  unfold save_refused. destruct (_ || _); [intros [= <- <-]; split; [reflexivity|by eexists]|].
  destruct (context_error ctx w) as [w1 e] eqn:Hc. injection Hc as <- <-. pose proof (peeked_poll (S (sv_poll w)) w) as P.
  destruct (ctx (sv_poll w)) as [e|]; [intros [= <- <-]; split; [exact P|by eexists]|].
  destruct (s_fault (sv_session w)) as [fault|]; [intros [= <- <-]; split; [exact P|by eexists]|]. intros [= <- <-]. split; [exact P|].
  destruct (Z.ltb_spec (s_revision (sv_session w)) expected); [by eexists|lia].
Qed.

Section Saving.
Context (journal_reads base_reads : list byte -> ReaderAt) (takes : Z -> list nat).
Context (Dir : FilePath -> FilePath) (tempName : FilePath -> list byte -> gset FilePath -> FilePath) (setup : JournalSetup).
Context (sha256 normalizeFingerprintPath : list byte -> list byte) (absolutePath : list byte -> Prelude.result (list byte)).
Context (describe : inode -> FileInfo) (stampOf : FileInfo -> Prelude.result fileChangeStamp) (others : Saving -> Session) (ctx : Context).
Context (base start : list byte) (xs : list logged) (c : Z) (m : bool) (fs : directory) (path : FilePath) (mode : Z) (expected : fileIdentity).
Hypothesis system : system_ok journal_reads base_reads sha256 describe stampOf.
Hypothesis ctx_plain : plain_context ctx.
Hypotheses (setup_plain : plain_setup setup) (setup_new : setup_fresh setup).
Hypothesis env : env_ok others base start xs c m.

Abbreviation name := (tempName (Dir path) tempPattern (dom fs)).
Hypotheses (name_unused : fs !! name = None) (path_name : path <> name).

Abbreviation text := (apply_logs xs start).
Abbreviation whole := (new_base start xs m).
Abbreviation target := (c + log_edits xs).
Abbreviation total := (zlen whole).
Abbreviation fingerprint := (new_fingerprint sha256 normalizeFingerprintPath absolutePath path whole total).
Abbreviation flying := (in_flight base start xs c m).
Abbreviation passed := (checked setup sha256 normalizeFingerprintPath absolutePath base start xs c m fs path whole total expected).
Abbreviation stopped := (halted base start xs c m total expected).
Abbreviation going := (underway flying target total expected).

Lemma flying_events s h : flying s -> flying (set_events h s).
Proof using. apply in_flight_events. Qed.

Lemma fingerprint_fine : total <= maxInt64 -> fingerprint_ok fingerprint.
Proof using system.
  intros Hmax. pose proof (zlen_nonneg whole). split; [cbn; lia|]. split; apply (sy_sha256 _ _ _ _ _ system).
Qed.

(** The callbacks of [atomicChecked] keep these phases. *)
Lemma save_phases lease D :
  total <= maxInt64 -> node_wf (s_root lease) -> sources_serve (s_sources lease) D (pieces (s_root lease)) -> snapshot_content D lease = text ->
  phases fs name text (writeContent takes others ctx (mark m) lease)
    (Some (checkIdentity journal_reads Dir setup sha256 normalizeFingerprintPath absolutePath describe stampOf others ctx path target expected))
    (fun w => going w /\ lc_hashed (sv_locals w) = mark m) (fun w => going w /\ lc_hashed (sv_locals w) = whole) passed stopped.
Proof using system ctx_plain setup_plain setup_new env path_name.
  intros Hmax Hwf Hs Htext. split.
  - intros w d [[] ?]. by split.
  - intros w d [[] ?]. by split.
  - intros w d [(ys & v & ? & f & ps & ? & ?) ? ? ? ? ? ? ?]. split; try done. exists ys, v. split; [done|]. by exists f, ps.
  - intros w d []. by split.
  - intros w w' n e [Hu Hh] Hd Hw.
    destruct (writeContent_spec takes others ctx flying target total expected flying_events (en_flight _ _ _ _ _ _ env) _ _ _ _ _ _ _ _ Hw Hwf Hs
      ctx_plain Hd Hu) as (bs & Ha & Hn & Hp & Hu' & Hres). exists bs. split; [done|]. split; [done|]. split; [done|].
    destruct e as [e|]; [by destruct Hu'|]. destruct (Hres eq_refl) as [-> Hh']. rewrite Htext in *. split; [done|]. split; [done|].
    by rewrite Hh', Hh.
  - intros w w' e [Hu Hh] Hd Hfs Hc.
    exact (checkIdentity_spec _ _ _ _ _ _ _ _ _ _ (sy_journal _ _ _ _ _ system) (sy_size _ _ _ _ _ system) (sy_stamp _ _ _ _ _ system) ctx_plain setup_plain
      setup_new _ _ _ _ _ _ _ _ _ _ _ (fingerprint_fine Hmax) path_name _ _ _ env Hc Hu Hh Hfs Hd).
Qed.
(** The directories a save goes through. *)
Definition stages (d : directory) : Prop :=
  (d !! path = fs !! path \/ d !! path = Some (new_inode start xs m mode)) /\ forall p, p <> path -> p <> name -> d !! p = fs !! p.

(** Not saved: only a temporary file may be left, and the session goes on. *)
Record unsaved (w : Saving) : Prop := mkUnsaved {
  us_files : delete name (w_files (disk w)) = fs;
  us_session : flying (sv_session w);
  us_identity : sv_diskIdentity w = expected }.

(** Replaced: over the file that was expected, and with one of the two ends. *)
Record replaced (w : Saving) (out : Outcome) : Prop := mkReplaced {
  rp_files : w_files (disk w) = <[path := new_inode start xs m mode]> fs;
  rp_old : as_expected sha256 fs path expected;
  rp_end : (exists atomicErr, saved sha256 normalizeFingerprintPath absolutePath start xs c m path atomicErr w out /\
       forall e, atomicErr = Some e -> as_durability e = true) \/
     (faulted base xs c w /\ exists e, out.2 = Some (errJoin document_ErrFaulted e)) }.

Lemma undone_flying w :
  undone (fun w => going w /\ lc_hashed (sv_locals w) = mark m) (fun w => going w /\ lc_hashed (sv_locals w) = whole) passed stopped w ->
  flying (sv_session w) /\ sv_diskIdentity w = expected.
Proof using.
  intros [[[? _ _ (_ & _ & _ & _ & ?)] _]|[[[? _ _ (_ & _ & _ & _ & ?)] _]|[[(ys & v & ? & _) ? ? _ (_ & _ & _ & _ & ?) _ _ _]|[? _ (_ & _ & _ & _ & ?)]]]];
    split; try done. split; [done|done|by exists ys, v].
Qed.

Lemma save_replace_spec lease D w w' out :
  save_replace journal_reads base_reads takes Dir tempName setup sha256 normalizeFingerprintPath absolutePath describe stampOf others ctx path mode
    expected (mark m) lease target w = (w', out) ->
  total <= maxInt64 -> node_wf (s_root lease) -> sources_serve (s_sources lease) D (pieces (s_root lease)) -> snapshot_content D lease = text ->
  going w -> lc_hashed (sv_locals w) = [] -> w_files (disk w) = fs -> plain_disk w ->
  evolves stages w w' /\ ((unsaved w' /\ is_Some out.2) \/ replaced w' out).
Proof using system ctx_plain setup_plain setup_new env path_name name_unused.
  intros H Hmax Hwf Hs Htext [HF Hp Hu Haf] Hhash Hfs Hd. unfold save_replace in H. set (w1 := on_locals _ w) in H.
  assert (going w1) as Hg1 by (by split). assert (lc_hashed (sv_locals w1) = mark m) as Hh1 by (cbn; by rewrite Hhash).
  destruct (AtomicChecked _ _ _ _ _ _ _ w1) as [w2 [n aerr]] eqn:Ha.
  assert (zlen (mark m) + zlen text <= maxInt64) as Hz by (unfold new_base in Hmax; by rewrite zlen_app in Hmax).
  pose proof (save_phases lease D Hmax Hwf Hs Htext) as Hph.
  match type of Hph with phases _ _ _ ?a ?b ?S ?R ?C ?T =>
    pose proof (AtomicChecked_phases Dir tempName path mode (mark m) text a b S R C T w1 w2 n aerr) as Hat end.
  cbv zeta in Hat. change (w_files (disk w1)) with (w_files (disk w)) in Hat. rewrite Hfs in Hat.
  specialize (Hat name_unused path_name Hd Hz Hph (conj Hg1 Hh1) Ha) as [He1 Hend].
  assert (evolves stages w w2) as He by (by destruct He1; split). clear He1.
  destruct (match aerr with Some e => as_durability e | None => true end) eqn:Hdur.
  - destruct Hend as (Hfiles & -> & Hck). pose proof (ck_locked _ _ _ _ _ _ _ _ _ _ _ _ _ _ _ Hck) as Hlock. rewrite Hlock in H. cbn [negb] in H.
    assert (commit_publish journal_reads base_reads takes setup describe path target total aerr w2 = (w', out)) as Hpub.
    { destruct aerr as [e|]; [by rewrite Hdur in H|exact H]. }
    assert (w_files (disk w2) !! path = Some (new_inode start xs m mode)) as Hnew by (rewrite Hfiles; apply lookup_insert_eq).
    assert (plain_disk w2) as Hd2 by (eapply plain_evolves; [exact He|exact Hd]).
    destruct (commit_publish_spec _ _ _ _ _ _ _ _ (sy_journal _ _ _ _ _ system) (sy_base _ _ _ _ _ system) (sy_size _ _ _ _ _ system) _ _ _ _ _ _ _ _ _ Hmax
      (fingerprint_fine Hmax) _ _ _ _ Hpub Hck Hnew Hd2) as [Hq Hres].
    split; [eapply evolves_trans; [exact He|by apply quiet_evolves]|]. right. split; [by rewrite (qu_files _ _ Hq)|apply Hck|].
    destruct Hres as [Hs'|Hf]; [left|by right]. exists aerr. split; [done|]. intros e ->. exact Hdur.
  - destruct Hend as (Hfiles & Hun & _). destruct (undone_flying _ Hun) as [HF2 Hid2]. destruct aerr as [e|]; [|done]. rewrite Hdur in H.
    destruct (lc_boundaryLocked (sv_locals w2)).
    + destruct (discardPreparedJournal setup true w2) as [w3 de] eqn:Hdis. injection H as <- <-.
      destruct (discard_spec _ _ _ _ _ Hdis) as ([Hr Hframe Hq] & _).
      split; [eapply evolves_trans; [exact He|]; apply quiet_evolves; by destruct Hq; split|]. left. split; [|by eexists].
      split; [change (delete name (w_files (disk w3)) = fs); by rewrite (qu_files _ _ Hq)|by eapply in_flight_reread|]. change (sv_diskIdentity w3 = expected). by rewrite Hframe.
    + injection H as <- <-. split; [done|]. left. split; [by split|by eexists].
Qed.
(** ** Around the replacement *)

Lemma quick_check_peeked w w' r :
  quick_check sha256 describe stampOf ctx path expected w = (w', r) -> plain_disk w -> peeked w w'.
Proof using system ctx_plain.
  unfold quick_check. intros H Hd.
  split_eff H; apply sv_check_inv in Hc as [-> _]; pose proof (peeked_poll (S (sv_poll w)) w) as P1; [done|].
  split_eff H; destruct (sys_stat_spec _ _ _ _ _ Hc (peeked_plain _ _ P1 Hd)) as (P2 & _);
    match type of P2 with peeked _ ?x => assert (peeked w x) as P by (etransitivity; [exact P1|exact P2]) end; [done|].
  destruct (negb _); [by injection H as <- _|]. destruct (negb _); [|by injection H as <- _].
  split_eff H; destruct (scanDiskIdentity_spec _ _ _ _ (sy_size _ _ _ _ _ system) (sy_stamp _ _ _ _ _ system) ctx_plain _ _ _ _ Hc0 (peeked_plain _ _ P Hd))
    as (P3 & _); match type of P3 with peeked _ ?x => assert (peeked w x) as P' by (etransitivity; [exact P|exact P3]) end; [done|].
  destruct (negb _); by injection H as <- _.
Qed.

(** A save that begins: nothing prepared, nothing locked, nothing hashed. *)
Record fresh (w : Saving) : Prop := mkFresh {
  fr_prepared : sv_prepared w = None;
  fr_unlocked : lc_boundaryLocked (sv_locals w) = false;
  fr_unfinished : lc_finished (sv_locals w) = false;
  fr_hashed : lc_hashed (sv_locals w) = [] }.

Lemma save_snapshot_spec v w w' out :
  save_snapshot journal_reads base_reads takes Dir tempName setup sha256 normalizeFingerprintPath absolutePath describe stampOf others ctx w = (w', out) ->
  flight base start xs [] v (sv_session w) -> s_committedRevision (sv_session w) = c -> s_hasBOM (sv_session w) = m ->
  s_resolvedPath (sv_session w) = path -> sv_mode w = mode -> sv_diskIdentity w = expected -> w_files (disk w) = fs ->
  fresh w -> plain_disk w ->
  evolves stages w w' /\ ((unsaved w' /\ is_Some out.2) \/ replaced w' out).
Proof using system ctx_plain setup_plain setup_new env path_name name_unused.
  intros H Hfl Ec Em Epath Emode Eid Efs [Hp Hu Hfin Hh] Hd. unfold save_snapshot in H. rewrite Em, Epath, Eid in H.
  change (if m then byteOrderMark else []) with (mark m) in H.
  pose proof Hfl as [Hok Hix _ _]. pose proof (sb_text _ _ _ (so_base _ _ _ Hok)) as Ht. destruct Hix as [_ _ Htext _ Hrev _ _ _].
  rewrite app_nil_r in Htext, Hrev. destruct (holds_length _ _ _ Ht) as [Hlen Hmax]. pose proof Ht as [Hwf Hserve Hcontent].
  assert (Snapshot_Len (Tree_Snapshot (s_tree (sv_session w))) = zlen text) as Es by (rewrite Htext; exact Hlen).
  rewrite Es in H. pose proof (zlen_nonneg text). pose proof (zlen_nonneg (mark m)).
  assert (zlen (mark m) <= 3) as Hm3 by (unfold mark; destruct m; vm_compute; congruence).
  assert (flying (sv_session w)) as HF by (split; [done|done|by exists [], v]).
  assert (forall w1, quiet w w1 -> flying (sv_session w1) -> sv_diskIdentity w1 = expected -> out = out -> is_Some out.2 ->
    evolves stages w w1 /\ ((unsaved w1 /\ is_Some out.2) \/ replaced w1 out)) as Hstop.
  { intros w1 Hq HF1 Eid1 _ He. split; [by apply quiet_evolves|]. left. split; [|done]. split; [|done|done].
    rewrite (qu_files _ _ Hq), Efs. by apply delete_id. }
  rewrite (i64_id (maxInt64 - zlen (mark m))) in H by (unfold_ints; lia).
  destruct (Z.ltb_spec (maxInt64 - zlen (mark m)) (zlen text)) as [|Hfit].
  { injection H as <- <-. apply Hstop; [apply quiet_refl|done|done|done|by eexists]. }
  assert (zlen text ⊞ zlen (mark m) = total) as Etot by (unfold new_base; rewrite zlen_app, i64_id by (unfold_ints; lia); lia).
  rewrite Etot, Hrev, Ec in H. assert (total <= maxInt64) as Htmax by (unfold new_base; rewrite zlen_app; lia).
  set (w1 := beginPersistenceLocked takes target total w) in H.
  assert (going w1) as Hg1 by (split; [by apply flying_events|done|done|by split_and!]).
  assert (quiet w w1) as Q1 by (split; [done|done|by exists []]).
  destruct (quick_check _ _ _ _ _ _ w1) as [w2 [a|e]] eqn:Hq; pose proof (quick_check_peeked _ _ _ Hq Hd) as P;
    destruct (peeked_fields _ _ P) as (Es2 & El2 & Eid2); pose proof (quiet_trans _ _ _ Q1 (pk_quiet _ _ P)) as Q2.
  2:{ injection H as <- <-. apply Hstop; [done|by rewrite Es2; apply Hg1|by rewrite Eid2; apply Hg1|done|by eexists]. }
  assert (going w2) as Hg2.
  { destruct Hg1 as [? Hp1 ? ?]. split; [by rewrite Es2|unfold sv_prepared; by rewrite El2|by rewrite El2|by eapply peeked_afoot]. }
  assert (sv_mode w2 = mode) as Emode2 by (rewrite (pk_frame _ _ P); exact Emode). rewrite Emode2 in H.
  destruct (save_replace_spec (Tree_Snapshot (s_tree (sv_session w))) (texts base (session_data (sv_session w))) _ _ _ H Htmax) as [He Hres];
    [apply Hwf|exact Hserve|by rewrite Htext|done|by rewrite El2|by rewrite (qu_files _ _ Q2)|by eapply plain_quiet|].
  split; [eapply evolves_trans; [by apply quiet_evolves|exact He]|done].
Qed.

(** Nothing to save: at most the directory is synced. *)
Lemma save_nothing_spec w w' out :
  save_nothing takes Dir others ctx w = (w', out) -> flying (sv_session w) -> sv_diskIdentity w = expected -> w_files (disk w) = fs ->
  evolves stages w w' /\ unsaved w'.
Proof using env name_unused.
  unfold save_nothing. intros H HF Eid Efs.
  assert (forall w1, quiet w w1 -> flying (sv_session w1) -> sv_diskIdentity w1 = expected -> evolves stages w w1 /\ unsaved w1) as Hend.
  { intros w1 Hq HF1 Eid1. split; [by apply quiet_evolves|]. split; [|done|done]. rewrite (qu_files _ _ Hq), Efs. by apply delete_id. }
  destruct (negb _); [injection H as <- _; apply Hend; [apply quiet_refl|done|done]|].
  set (w1 := beginPersistenceLocked _ _ _ w) in H. assert (flying (sv_session w1)) as HF1 by by apply flying_events.
  destruct (context_error ctx w1) as [w2 e] eqn:Hc. injection Hc as <- <-. destruct (ctx (sv_poll w)) as [e|].
  { injection H as <- _. apply Hend; [by split; [done|done|exists []]|done|done]. }
  set (w2 := set_poll _ w1) in H. unfold SyncParent, syncParent in H. pose proof (syncParent_only Dir (s_resolvedPath (sv_session w)) w2) as [d Hd].
  destruct (syncParentWithOperations _ _ _ w2) as [w3 e] eqn:Hsp. cbn [fst] in Hd. destruct (syncParent_quiet _ _ _ _ _ Hsp) as [Hq _].
  assert (quiet w w3) as Q3 by (destruct Hq as [? ? ?]; by split). assert (flying (sv_session (interfere others w3))) as HF3.
  { apply (en_flight _ _ _ _ _ _ env). rewrite Hd. exact HF1. }
  assert (sv_diskIdentity w3 = expected) as Eid3 by (by rewrite Hd). clear Hd.
  destruct e as [e|]; injection H as <- _.
  - apply Hend; [by destruct Q3; split|exact HF3|exact Eid3].
  - apply Hend; [by destruct Q3; split| |exact Eid3]. apply flying_events. destruct HF3 as [? ? (ys & v & [] )].
    split; [done|done|]. exists ys, v. split; [|by destruct fl_indexed; split|done|done]. destruct fl_ok as [[]]. by split; [split|..].
Qed.

(** The report of a failure. *)
Lemma save_failed_spec w w' out out' :
  save_failed takes others w out = (w', out') -> out' = out /\ quiet w w' /\
  (unsaved w -> unsaved w') /\ (replaced w out -> replaced w' out).
Proof using env.
  unfold save_failed. destruct out as [md [e|]]; cbn [snd]; [|intros [= <- <-]; split_and!; [done|apply quiet_refl|done|done]].
  destruct (negb (lc_started (sv_locals w)) || lc_finished (sv_locals w)) eqn:Hf.
  { intros [= <- <-]; split_and!; [done|apply quiet_refl|done|done]. }
  apply orb_false_iff in Hf as [_ Hf]. intros [= <- <-]. split; [done|]. split; [by split; [done|done|exists []]|]. split.
  - intros []. split; [done| |done]. apply flying_events. by apply (en_flight _ _ _ _ _ _ env).
  - intros [Hfiles Hold [(aerr & [_ _ _ Hfin _] & _)|[[(v & Hok) Hfault Hcom] Hex]]]; [by rewrite Hf in Hfin|]. split; [done|done|]. right.
    destruct (en_faulted _ _ _ _ _ _ env w v Hok Hfault) as (Hok' & Hf' & Hc'). split; [|done].
    split; [exists v; by apply session_ok_events|by rewrite <-Hf' in Hfault|by rewrite <-Hc' in Hcom].
Qed.
(** The whole of it. *)
Lemma commitAtLeast_spec v expectedRevision w w' out :
  commitAtLeast journal_reads base_reads takes Dir tempName setup sha256 normalizeFingerprintPath absolutePath describe stampOf others ctx
    expectedRevision w = (w', out) ->
  flight base start xs [] v (sv_session w) -> s_committedRevision (sv_session w) = c -> s_hasBOM (sv_session w) = m ->
  s_resolvedPath (sv_session w) = path -> sv_mode w = mode -> sv_diskIdentity w = expected -> w_files (disk w) = fs -> plain_disk w ->
  evolves stages w w' /\ ((unsaved w' /\ (out.2 = None -> expectedRevision <= c)) \/ (replaced w' out /\ expectedRevision <= target)).
Proof using system ctx_plain setup_plain setup_new env path_name name_unused.
  intros H Hfl Ec Em Epath Emode Eid Efs Hd. unfold commitAtLeast in H. set (w0 := set_locals initialLocals w) in H.
  pose proof Hfl as [_ Hix _ _]. destruct Hix as [_ _ _ _ Hrev Hdirty _ _]. rewrite app_nil_r, Ec in Hrev.
  assert (quiet w w0) as Q0 by (split; [done|done|by exists []]).
  destruct (save_refused ctx expectedRevision w0) as [w1 refused] eqn:Hr. destruct (save_refused_spec _ _ _ _ _ Hr) as [P1 Hle].
  destruct (peeked_fields _ _ P1) as (Es & El & Ei). change (sv_session w0) with (sv_session w) in Es, Hle.
  pose proof (quiet_trans _ _ _ Q0 (pk_quiet _ _ P1)) as Q1.
  assert (flying (sv_session w1)) as HF1 by (rewrite Es; split; [done|done|by exists [], v]).
  match type of H with (let '(w, out) := ?t in _) = _ => destruct t as [w2 out2] eqn:H2 end.
  assert (evolves stages w1 w2 /\ ((unsaved w2 /\ (out2.2 = None -> expectedRevision <= c)) \/ (replaced w2 out2 /\ expectedRevision <= target)))
    as [He Hres].
  { assert (w_files (disk w1) = fs) as Efs1 by (by rewrite (qu_files _ _ Q1)). assert (sv_diskIdentity w1 = expected) as Eid1 by (by rewrite Ei).
    destruct refused as [o|].
    { injection H2 as <- <-. split; [apply quiet_evolves, quiet_refl|]. left. destruct Hle as [e ->]. split; [|done].
      split; [rewrite Efs1; by apply delete_id|done|done]. }
    rewrite Es in H2. destruct (negb _ || _) eqn:Hcase.
    - destruct (save_nothing_spec _ _ _ H2 HF1 Eid1 Efs1) as [? ?]. split; [done|]. left. split; [done|]. intros _.
      apply orb_true_iff in Hcase as [Hn|[Hle' _]%andb_prop]; [|rewrite Ec in Hle'; lia].
      rewrite Hdirty in Hn. apply negb_true_iff, Z.ltb_ge in Hn. lia.
    - assert (fresh w1) as Hf1 by (split; [unfold sv_prepared; by rewrite El|by rewrite El|by rewrite El|by rewrite El]).
      assert (sv_mode w1 = mode) as Em1 by (rewrite (pk_frame _ _ P1); exact Emode).
      destruct (save_snapshot_spec v _ _ _ H2) as [? [[? [e Hex]]|?]]; try (by rewrite Es); try done; [by eapply plain_quiet| |].
      + split; [done|]. left. split; [done|]. by rewrite Hex.
      + split; [done|]. right. split; [done|]. lia. }
  destruct (save_failed_spec _ _ _ _ H) as (-> & Q3 & Hu & Hrp).
  split; [eapply evolves_trans; [by apply quiet_evolves|]; eapply evolves_trans; [exact He|by apply quiet_evolves]|].
  destruct Hres as [[? ?]|[? ?]]; [left|right]; split; auto.
Qed.
End Saving.

(** ** Properties *)

(** C6. A save is all or nothing, for the file and for the session.  Take any
    state of a session and of the disk, any context, any faults of the system and
    any edits, undos and redos that other goroutines make while the session is not
    locked.  Every directory the save goes through has the old file or the complete
    synced new one, with the mark and the text of the revision at which the save
    began, and no other file changes but the temporary one.  In the end either
    nothing is saved: the files are as before, the session still has its base, its
    journal and every edit, and the index of the edits that are not in its base; or
    the file is replaced, which had the very content this session last saw.  Then
    the session is settled on the new base with the edits made since, at the
    revision it saved, knows the new file's identity, and its journal, reopened over
    the new base after a crash, gives the present text - or it could not read the
    new file: it keeps its text, takes no more edits and says so.  A save without
    an error has committed the expected revision. *)
Theorem commitAtLeast_correct journal_reads base_reads takes Dir tempName setup sha256 normalizeFingerprintPath absolutePath describe stampOf
  others ctx base start xs expected w w' out v :
  let s := sv_session w in
  let path := s_resolvedPath s in
  let fs := w_files (disk w) in
  let name := tempName (Dir path) tempPattern (dom fs) in
  let new := mkInode (mark (s_hasBOM s) ++ v_now v) (Perm (sv_mode w)) true in
  system_ok journal_reads base_reads sha256 describe stampOf -> setup_fresh setup -> plain_saving ctx setup w ->
  session_ok base s v -> indexed start xs s (v_now v) -> roomy s -> fs !! name = None -> path <> name ->
  env_ok others base start xs (s_committedRevision s) (s_hasBOM s) ->
  commitAtLeast journal_reads base_reads takes Dir tempName setup sha256 normalizeFingerprintPath absolutePath describe stampOf others ctx expected w
    = (w', out) ->
  evolves (fun d => (d !! path = fs !! path \/ d !! path = Some new) /\ forall p, p <> path -> p <> name -> d !! p = fs !! p) w w' /\
  (out.2 = None -> expected <= s_committedRevision (sv_session w')) /\
  ((delete name (w_files (disk w')) = fs /\ sv_diskIdentity w' = sv_diskIdentity w /\
    in_flight base start xs (s_committedRevision s) (s_hasBOM s) (sv_session w')) \/
   (w_files (disk w') = <[path := new]> fs /\ as_expected sha256 fs path (sv_diskIdentity w) /\
    ((exists fp ys v', settled (i_bytes new) (v_now v) (s_revision s) fp ys v' (sv_session w') /\
        id_size (sv_diskIdentity w') = zlen (i_bytes new) /\ id_contentHash (sv_diskIdentity w') = sha256 (i_bytes new) /\
        out.1 = metadataLocked (sv_session w') /\ (forall e, out.2 = Some e -> as_durability e = true) /\
        forall f s0 k, f_bytes f = session_data (sv_session w') -> f_faults f = [] -> opening (i_bytes new) (v_now v) s0 ->
          exists s1, reopened journal_reads (i_bytes new) (v_now v) (s_revision s) ys f (js_path setup) s0 k s1 /\
            Tree_Len (s_tree s1) = zlen (v_now v') /\
            forall off n, 0 <= off -> 0 <= n -> off + n <= zlen (v_now v') -> readTreeRange (s_tree s1) off n = Ok (slice off n (v_now v'))) \/
     (exists v', session_ok base (sv_session w') v') /\ isSome (s_fault (sv_session w')) = true /\
        exists e, out.2 = Some (errJoin document_ErrFaulted e)))).
Proof.
  intros s path fs name new Hsys Hnew ([Hctx Hpj] & Hset & Hd) Hok Hix Hroom Hname Hpath Henv H.
  assert (flight base start xs [] v s) as Hfl by (split; rewrite ?app_nil_r; done).
  pose proof Hix as [_ _ Htext _ Hrev _ _ _].
  destruct (commitAtLeast_spec _ _ _ _ _ _ _ _ _ _ _ _ _ base start xs (s_committedRevision s) (s_hasBOM s) fs path (sv_mode w) (sv_diskIdentity w)
    Hsys Hctx Hset Hnew Henv Hname Hpath v expected w w' out H Hfl eq_refl eq_refl eq_refl eq_refl eq_refl eq_refl Hd) as [He Hres].
  assert (new_inode start xs (s_hasBOM s) (sv_mode w) = new) as Enew by (unfold new_inode, new_base; by rewrite Htext).
  assert (new_base start xs (s_hasBOM s) = i_bytes new) as Ebase by (unfold new_base; by rewrite Htext).
  split; [unfold stages in He; by rewrite Enew in He|]. destruct Hres as [[[Hf HF Hid] Hnone]|[[Hf Hold Hend] Hle]].
  { split; [intros Hn; rewrite (if_committed _ _ _ _ _ _ HF); auto|by left]. }
  rewrite Enew in Hf. destruct Hend as [(aerr & [(ys & v' & Hse) Hident _ _ ->] & Haerr)|[[Hok' Hfault Hcom] (e & Hex)]].
  - rewrite Htext, Ebase, <-Hrev in Hse. rewrite Ebase in Hident. pose proof Hse as [Hok' [Hlog _ Ht' H0 _ _ _ _] Ecom Hfp Hj Hsz].
    rewrite Ecom in Hlog, H0. split; [intros _; lia|]. right. split; [done|]. split; [done|]. left. eexists _, ys, v'. split; [exact Hse|].
    split; [apply Hident|]. split; [apply Hident|]. split; [done|]. split; [done|]. intros f s0 k Hb Hff Hop.
    destruct (reopen_log journal_reads (i_bytes new) _ (v_now v) (s_revision s) ys f (js_path setup) s0 k (sy_journal _ _ _ _ _ Hsys)
      (sb_fingerprint _ _ _ (so_base _ _ _ Hok'))) as (s1 & Hs1); [by rewrite Hb, Hj, Hfp|done|by rewrite Hb|done|done|done|].
    exists s1. split; [done|]. rewrite <-Ht'. apply Hs1.
  - split; [by rewrite Hex|]. right. split; [done|]. split; [done|]. right. split; [done|]. split; [done|by exists e].
Qed.

(** The concrete session after an edit, over its file. *)
Definition ex_sha256 (p : list byte) : list byte := take 32 (p ++ replicate 32 Byte.x00).
Definition ex_describe (i : inode) : FileInfo := mkFileInfo (zlen (i_bytes i)) 0 true 1.
Definition ex_stampOf (info : FileInfo) : Prelude.result fileChangeStamp := Ok (mkStamp 0 0 false).
Definition ex_unsaved : Saving :=
  mkSaving (ex_after [ex_replace]) 420 (mkFileIdentity 3 0 (ex_sha256 ex_abc)) 0 (mkWorld {[ [] := mkInode ex_abc 420 true ]} [] [] []) 0 initialLocals.
Definition ex_save (expected : Z) (w : Saving) : Saving * Outcome :=
  commitAtLeast bytes_NewReader bytes_NewReader (fun _ => []) ex_dir ex_tempName ex_setup ex_sha256 (fun p => p) (fun p => Ok p) ex_describe
    ex_stampOf sv_session ex_calm_context expected w.

Example ex_save_file : w_files (disk (ex_save 1 ex_unsaved).1) !! [] = Some (mkInode ex_abxy 420 true).
Proof. vm_compute. reflexivity. Qed.
Example ex_save_journal : session_data (sv_session (ex_save 1 ex_unsaved).1) =
  encodeFileHeader (fingerprintFor ex_sha256 (fun p => p) (fun p => Ok p) [] 4 (ex_sha256 ex_abxy)).
Proof. vm_compute. reflexivity. Qed.

Lemma ex_system_ok : system_ok bytes_NewReader bytes_NewReader ex_sha256 ex_describe ex_stampOf.
Proof.
  split; [apply bytes_NewReader_ok|apply bytes_NewReader_ok| |done|done]. intros p. unfold ex_sha256. rewrite length_take, length_app, length_replicate. lia.
Qed.

(** Any edits, undos and redos of other goroutines are such an environment: they
    make up a run, whose journal has room and whose faults are plain. *)
Definition runs_between (journal_reads : list byte -> ReaderAt) (others : Saving -> Session) : Prop :=
  forall w, (exists log, session_run journal_reads (sv_session w) log (others w)) /\
    (roomy (sv_session w) -> roomy (others w)) /\ (plain_session (sv_session w) -> plain_session (others w)).

Lemma env_ok_runs journal_reads others base start xs c m :
  (forall p, ReaderOk (journal_reads p) p) -> runs_between journal_reads others -> env_ok others base start xs c m.
Proof.
  intros Hreads Hruns. split.
  - intros w [Ec Em (ys & v & [Hok Hix Hr Hp])]. destruct (Hruns w) as ([log Hrun] & Hr' & Hp').
    pose proof (session_run_framed _ _ _ _ Hrun) as []. destruct (run_indexed _ Hreads base _ _ _ _ _ _ Hok Hix Hrun) as (zs & v' & Hok' & Hix' & _).
    split; [congruence|congruence|]. exists (ys ++ zs), v'. split; [done|by rewrite app_assoc|auto|auto].
  - intros w v Hok Hf. destruct (Hruns w) as ([log Hrun] & _). by rewrite (faulted_run _ _ _ _ Hrun Hf).
Qed.

(** A session no other goroutine uses. *)
Lemma env_ok_idle base start xs c m : env_ok sv_session base start xs c m.
Proof. by split. Qed.

Lemma commitAtLeast_correct_witness :
  (ex_save 1 ex_unsaved).2.2 = None /\ 1 <= s_committedRevision (sv_session (ex_save 1 ex_unsaved).1).
Proof.
  assert (session_run bytes_NewReader ex_session [(ex_replace, true)] (ex_after [ex_replace])) as Hrun.
  { apply (ex_run_step [] ex_replace true []); [constructor|vm_compute; congruence|vm_compute; reflexivity]. }
  destruct (run_indexed bytes_NewReader bytes_NewReader_ok ex_abc ex_abc [] ex_session ex_versions _ _ ex_session_ok
    (indexed_fresh ex_session ex_abc eq_refl ltac:(vm_compute; split; congruence) eq_refl eq_refl) Hrun) as (ys & v & Hok & Hix & _).
  assert ((ex_save 1 ex_unsaved).2.2 = None) as E by (vm_compute; reflexivity). split; [exact E|].
  apply (commitAtLeast_correct bytes_NewReader bytes_NewReader (fun _ => []) ex_dir ex_tempName ex_setup ex_sha256 (fun p => p) (fun p => Ok p)
    ex_describe ex_stampOf sv_session ex_calm_context ex_abc ex_abc ys 1 ex_unsaved (ex_save 1 ex_unsaved).1 (ex_save 1 ex_unsaved).2 v
    ex_system_ok ex_setup_fresh).
  - split; [split; [intros k e He; discriminate He|vm_compute; constructor]|]. split; [|constructor].
    split; [intros e He; discriminate He|split; [intros e He; discriminate He|intros f Hf; injection Hf as <-; constructor]|intros e He; discriminate He].
  - exact Hok.
  - exact Hix.
  - vm_compute. congruence.
  - vm_compute. reflexivity.
  - vm_compute. discriminate.
  - apply env_ok_idle.
  - apply surjective_pairing.
  - exact E.
Defined.
