(* ===== verification/Launch.v ===== *)
(** * document/session.go: opening a session

    [openSessionContext]: the options and the path are resolved, the base file is
    opened and scanned, the journal of a crashed session is looked for and
    replayed, and the session is put together.  [openMatchingJournalWithQuarantine]
    never guesses: a journal directory that is not clear is moved aside and reported.
    What the marker of the session directory answers is an argument.  A handle on a
    journal is a [file]; what was done through it is written to the file of its name
    where the code has used it ([write_back]). *)

From Stdlib Require Import ZArith Lia List.
From stdpp Require Import base list numbers gmap.
From S2P Require Import Prelude GoLib Store File Journal ChangeMap ChangeHistory Events UndoStore Utf8 Options Effects Scan TreeText JournalText Session SessionText SessionHistory SessionEdit Editor SessionRecovery SessionPending Compaction Save SysFiles Rebase Commit.
#[local] Open Scope Z_scope.

(** ** The state of an opening *)

(** The disk with the recovery directory, what the coming opens of journal files
    do (an error, or a handle with its faults), the readings of the clock and the
    polls of the context so far. *)
Record Launch := mkLaunch {
  la_disk : world; la_opens : list (Prelude.result (list fault)); la_clock : list Z; la_poll : nat }.

#[export] Instance launch_disk : Disk Launch :=
  {| disk := la_disk; set_disk d w := mkLaunch d (la_opens w) (la_clock w) (la_poll w) |}.
#[export] Instance launch_disk_laws : DiskLaws Launch.
Proof. split; [done|done|]. by intros []. Qed.

Definition launch_context (ctx : Context) (w : Launch) : Launch * option error :=
  (mkLaunch (la_disk w) (la_opens w) (la_clock w) (S (la_poll w)), ctx (la_poll w)).

(** [time.Now().UnixNano()] *)
Definition now_UnixNano (w : Launch) : Launch * Z :=
  (mkLaunch (la_disk w) (la_opens w) (tail (la_clock w)) (la_poll w), hd 0 (la_clock w)).

(** A handle on a journal file. *)
Definition sys_openFile (create : bool) (path : FilePath) : Eff Launch file := fun w =>
  let next := match la_opens w with [] => Ok [] | x :: _ => x end in
  let w1 := mkLaunch (la_disk w) (tail (la_opens w)) (la_clock w) (la_poll w) in
  match next with
  | Err e => (w1, Err e)
  | Ok faults =>
    match w_files (la_disk w) !! path with
    | Some i => (w1, Ok (mkFile (i_bytes i) 0 faults (if i_synced i then Some (i_bytes i) else None)))
    | None =>
      if create
      then (set_disk (set_files (<[path := mkInode [] 384 false]> (w_files (la_disk w1))) (la_disk w1)) w1, Ok (mkFile [] 0 faults None))
      else (w1, Err os_ErrNotExist)
    end
  end.

(** What was done through a handle is done to the file of that name. *)
Definition inode_of (f : file) (i : inode) : inode := mkInode (f_bytes f) (i_mode i) (bool_decide (durable f)).
Definition write_back (path : FilePath) (f : file) (w : Launch) : Launch :=
  set_disk (set_files (alter (inode_of f) path (w_files (la_disk w))) (la_disk w)) w.
Definition write_back_journal (journal : option Journal) (w : Launch) : Launch :=
  match journal with
  | Some (mkJournal (Some f) path) => write_back path f w
  | _ => w
  end.

(** [recovery.ReadFingerprint] and [recovery.Open] on it. *)
Definition recovery_ReadFingerprint (path : FilePath) : Eff Launch Fingerprint := fun w =>
  let '(w, f) := sys_openFile false path w in (w, ReadFingerprint f).

Definition recovery_Open (path : FilePath) (fingerprint : Fingerprint) : Eff Launch (Journal * ReplayResult) := fun w =>
  if BaseSize fingerprint <? 0 then (w, Err recovery_ErrStaleJournal) else
  let '(w, mkdirAll) := sys_plain w in
  match mkdirAll with
  | Some e => (w, Err e)
  | None =>
    let '(w, f) := sys_openFile true path w in
    let '(held, r) := openJournal path fingerprint None f in
    (match held with Some f => write_back path f w | None => w end, r)
  end.

(** ** Quarantine *)

(** [errors.As(err, *RecoveryOpenError)]: the quarantined path. *)
Fixpoint as_recoveryOpen (e : error) : option (list byte) :=
  match e with
  | errRecoveryOpen _ quarantined _ _ => Some quarantined
  | errJoin e1 e2 => match as_recoveryOpen e1 with Some q => Some q | None => as_recoveryOpen e2 end
  | errDurability e1 | errWrap _ e1 => as_recoveryOpen e1
  | _ => None
  end.

(** [errors.Join] of a list. *)
Definition errors_JoinAll (es : list (option error)) : option error := foldr errors_Join None es.

Section Launch.
(* [filepath.Join], and [filepath.Glob] on the names that exist *)
Variables (Join : FilePath -> list byte -> FilePath) (Glob : list byte -> gset FilePath -> Prelude.result (list FilePath)).
(* [sort.Slice] on the paths, newest first, with its calls of [os.Stat] *)
Variable sort_newest : list FilePath -> Launch -> Launch * list FilePath.
(* [hex.EncodeToString], and the decimal digits of [%d] *)
Variables (hex : list byte -> list byte) (decimal : Z -> list byte).
(* [sha256.Sum256] *)
Variable sha256 : list byte -> list byte.

Definition quarantineName (path : FilePath) (reason : list byte) (nano : Z) : FilePath :=
  path ++ map z2b [46; 113; 117; 97; 114; 97; 110; 116; 105; 110; 101; 45] ++ reason ++ [z2b 45] ++ decimal nano.

Definition quarantineRecoveryWith (rename : FilePath -> FilePath -> Launch -> Launch * option error)
  (path : FilePath) (reason : list byte) (cause : error) (w : Launch) : Launch * option error :=
  let '(w, nano) := now_UnixNano w in
  let quarantined := quarantineName path reason nano in
  let '(w, err) := rename path quarantined w in
  (w, Some (match err with
            | Some e => errRecoveryOpen path [] reason (errJoin cause e)
            | None => errRecoveryOpen path quarantined reason cause
            end)).

Definition quarantineRecovery : FilePath -> list byte -> error -> Launch -> Launch * option error :=
  quarantineRecoveryWith sys_rename.

(** ** The journal of the base *)

Definition journalPrefix (fingerprint : Fingerprint) : list byte := hex (ztake 16 (sha256 (PathHash fingerprint))).

(** The suffix of a journal's name, and the reasons of a quarantine. *)
Definition journalSuffix : list byte :=
  map z2b [46; 100; 111; 99; 101; 110; 103; 105; 110; 101; 45; 106; 111; 117; 114; 110; 97; 108; 45; 118; 50].
Definition invalidHeader : list byte := map z2b [105; 110; 118; 97; 108; 105; 100; 45; 104; 101; 97; 100; 101; 114].
Definition ambiguous : list byte := map z2b [97; 109; 98; 105; 103; 117; 111; 117; 115].
Definition baseMismatch : list byte := map z2b [98; 97; 115; 101; 45; 109; 105; 115; 109; 97; 116; 99; 104].
Definition retiredBase : list byte := map z2b [114; 101; 116; 105; 114; 101; 100; 45; 98; 97; 115; 101].
Definition openFailed : list byte := map z2b [111; 112; 101; 110; 45; 102; 97; 105; 108; 101; 100].
Definition multipleJournals : error := errMsg 48.

Definition journalPattern (dir : FilePath) (fingerprint : Fingerprint) : list byte :=
  Join dir (journalPrefix fingerprint ++ [z2b 42] ++ journalSuffix).

Section Matching.
Variable openRecovery : FilePath -> Fingerprint -> Eff Launch (Journal * ReplayResult).
Variable quarantine : FilePath -> list byte -> error -> Launch -> Launch * option error.

(** The journals with the fingerprint, and the errors of those without one. *)
Fixpoint probe_loop (fingerprint : Fingerprint) (paths matching : list FilePath) (probeErrors : list (option error)) (w : Launch)
  : Launch * (list FilePath * list (option error)) :=
  match paths with
  | [] => (w, (matching, probeErrors))
  | path :: paths =>
    let '(w, stored) := recovery_ReadFingerprint path w in
    match stored with
    | Err probeErr =>
      let '(w, e) := quarantine path invalidHeader probeErr w in
      probe_loop fingerprint paths matching (probeErrors ++ [e]) w
    | Ok stored => probe_loop fingerprint paths (if bool_decide (stored = fingerprint) then matching ++ [path] else matching) probeErrors w
    end
  end.

Fixpoint quarantine_all (reason : list byte) (cause : error) (paths : list FilePath) (w : Launch) : Launch * list (option error) :=
  match paths with
  | [] => (w, [])
  | path :: paths =>
    let '(w, e) := quarantine path reason cause w in
    let '(w, es) := quarantine_all reason cause paths w in (w, e :: es)
  end.

(** The other journals are retired; those that could not be moved are errors. *)
Fixpoint retire_loop (path : FilePath) (paths : list FilePath) (w : Launch) : Launch * list (option error) :=
  match paths with
  | [] => (w, [])
  | candidate :: paths =>
    if bool_decide (candidate = path) then retire_loop path paths w else
    let '(w, retired) := quarantine candidate retiredBase recovery_ErrStaleJournal w in
    let moved := match retired with
                 | Some e => match as_recoveryOpen e with Some quarantined => negb (zlen quarantined =? 0) | None => false end
                 | None => false
                 end in
    let '(w, es) := retire_loop path paths w in (w, if moved then es else retired :: es)
  end.

(** No journal and no replay with the joined errors, if any. *)
Definition no_journal (e : option error) : Prelude.result (option Journal * ReplayResult) :=
  match e with Some e => Err e | None => Ok (None, noReplay) end.

Definition openMatchingJournalWithQuarantine (dir : FilePath) (fingerprint : Fingerprint) : Eff Launch (option Journal * ReplayResult) := fun w =>
  let '(w, err) := sys_plain w in
  match err with Some e => (w, Err e) | None =>
  match Glob (journalPattern dir fingerprint) (dom (w_files (disk w))) with
  | Err e => (w, Err e)
  | Ok paths =>
    let '(w, paths) := sort_newest paths w in
    if zlen paths =? 0 then (w, no_journal None) else
    let '(w, (matching, probeErrors)) := probe_loop fingerprint paths [] [] w in
    if negb (zlen probeErrors =? 0) then (w, no_journal (errors_JoinAll probeErrors)) else
    match matching with
    | [] => let '(w, es) := quarantine_all baseMismatch recovery_ErrStaleJournal paths w in (w, no_journal (errors_JoinAll es))
    | [path] =>
      let '(w, retiredErrors) := retire_loop path paths w in
      if negb (zlen retiredErrors =? 0) then (w, no_journal (errors_JoinAll retiredErrors)) else
      let '(w, r) := openRecovery path fingerprint w in
      match r with
      | Err openErr => let '(w, e) := quarantine path openFailed openErr w in (w, no_journal e)
      | Ok (journal, replay) => (w, Ok (Some journal, replay))
      end
    | _ => let '(w, es) := quarantine_all ambiguous multipleJournals matching w in (w, no_journal (errors_JoinAll es))
    end
  end end.
End Matching.

Definition openMatchingJournalWith (dir : FilePath) (fingerprint : Fingerprint)
  (openRecovery : FilePath -> Fingerprint -> Eff Launch (Journal * ReplayResult)) : Eff Launch (option Journal * ReplayResult) :=
  openMatchingJournalWithQuarantine openRecovery quarantineRecovery dir fingerprint.

Definition openMatchingJournal (dir : FilePath) (fingerprint : Fingerprint) : Eff Launch (option Journal * ReplayResult) :=
  openMatchingJournalWith dir fingerprint recovery_Open.

(** ** The session *)

(* the paths ([filepath.Abs], [filepath.EvalSymlinks] with its fallback, [filepath.Base])
   and the defaults of the options (Options) *)
Variables (absolutePath evalSymlinks : list byte -> Prelude.result (list byte)) (Base clean : list byte -> list byte).
Variables (defaultRecoveryDir defaultSessionDir : list byte).
(* the reads of a journal and of a base file through the tree *)
Variables journal_reads base_reads : list byte -> ReaderAt.
(* [os.FileInfo] of an open file, [captureFileChange], and the paths of [recovery.FingerprintFor] *)
Variables (describe : inode -> FileInfo) (stampOf : FileInfo -> Prelude.result fileChangeStamp) (normalizeFingerprintPath : list byte -> list byte).
(* what the consumers of the hub receive while an event is offered (Events) *)
Variable takes : Z -> list nat.

(** What the system answers about the session directory: the marker and its
    release, the undo file, and the removal of the directories. *)
Record LaunchSetup := mkLaunchSetup {
  ls_marker : option error; ls_markerClose : option error; ls_undoMkdir : option error; ls_undoTemp : Prelude.result (file * list byte);
  ls_undoRemove : option error; ls_removeSession : option error; ls_removeRecovery : option error }.
Variable setup : LaunchSetup.

(** The messages only differ. *)
Definition notRegular : error := errMsg 49.

Definition join_onto (e : error) (es : list (option error)) : error :=
  match errors_JoinAll es with Some e' => errJoin e e' | None => e end.

Definition marker_close (config : SessionConfig) : option error :=
  if SessionDirOwnership config =? DirectoryOwned then ls_markerClose setup else None.
Definition cleanup (config : SessionConfig) (includeRecovery : bool) : option error :=
  cleanupOwnedDirectories config includeRecovery (ls_removeSession setup) (ls_removeRecovery setup).

(** What is opened is closed again on a failure: the undo store, the marker, the
    base file and the directories. *)
Definition abandon {A} (config : SessionConfig) (undo : option undoStore) (err : error) (closeErr : option error) : Eff Launch A := fun w =>
  let undoErr := (UndoStore.close undo (ls_undoRemove setup)).2 in
  let '(w, baseErr) := sys_plain w in
  (w, Err (join_onto err [closeErr; undoErr; marker_close config; baseErr; cleanup config true])).

(** [generation.retireAndWait(false)] with the only reference closes the journal and
    the base file. *)
Definition retire_sources {A} (config : SessionConfig) (undo : option undoStore) (journal : option Journal) (err : error) : Eff Launch A := fun w =>
  let journalErr := match journal with Some j => (Journal.Close j).2 | None => None end in
  let '(w, baseErr) := sys_plain w in
  let undoErr := (UndoStore.close undo (ls_undoRemove setup)).2 in
  (w, Err (join_onto err [errors_Join journalErr baseErr; undoErr; marker_close config; cleanup config true])).

(** Opening and scanning the base file. *)
Definition open_base (ctx : Context) (resolved : FilePath) : Eff Launch (inode * FileInfo * baseScan) := fun w =>
  let '(w, base) := sys_openBase resolved w in
  match base with
  | Err e => (w, Err (errWrap 50 e))
  | Ok i =>
    let '(w, info) := rf_Stat (open_file describe i) w in
    match info with
    | Err e => ((sys_plain w).1, Err e)
    | Ok info =>
      if negb (fi_Regular info) then ((sys_plain w).1, Err notRegular) else
      let '(w, scan) := scanOpenedBaseWithChange (launch_context ctx) (open_file describe i) resolved (sys_stat describe)
                          (captureChange stampOf) sha256 info w in
      match scan with
      | Err e => ((sys_plain w).1, Err (errWrap 51 e))
      | Ok scan => (w, Ok (i, info, scan))
      end
    end
  end.

(** The session before its journal is replayed. *)
Definition new_session (absolute resolved : FilePath) (config : SessionConfig) (fingerprint : Fingerprint) (scan : baseScan) (tree : Tree)
  (journal : option Journal) (undo : option undoStore) : Session :=
  mkSession absolute resolved (Base absolute) config fingerprint (bs_hasBOM scan) (bs_eol scan) tree journal 0 [] [] undo 0 [] 0 0
    false false (newChangeHistory 0 0 0) (newEventHub (EventHistory (Limits config)) (MaxSubscriptions (Limits config))) 0 0 false []
    None false None None false.

(** The journal is replayed and its torn end cut off. *)
Definition open_journal (replayed : ReplayResult) (s : Session) : Session * Prelude.result unit :=
  match s_journal s with
  | None => (s, Ok tt)
  | Some _ =>
    let '(s, _, r) := replay journal_reads replayed s 0%nat in
    match r, s_journal s with
    | Err e, _ => (s, Err e)
    | Ok _, None => (s, Ok tt)
    | Ok _, Some j =>
      let '(j, repairErr) := if rr_Truncated replayed then RepairTail j (rr_ValidBytes replayed) else (j, None) in
      let s := use_journal journal_reads j s in
      match repairErr with
      | Some e => (s, Err e)
      | None =>
        let '(j, size) := Journal.Size j in
        let s := use_journal journal_reads j s in
        match size with
        | Err e => (s, Err e)
        | Ok size => (set_journalBytes size s, Ok tt)
        end
      end
    end
  end.

(** The history of changes starts, and the consumers are told. *)
Definition open_finish (s : Session) : Session :=
  let s := resetJournalCheckpointLocked s in
  let s := set_changeHistory (newChangeHistory (Options.ChangeHistory (Limits (s_config s))) (s_revision s) (Tree_Len (s_tree s))) s in
  let s := publishEventLocked takes EventOpened ChangeOriginNone zeroChangeMap None s in
  let s := if s_recovered s then publishEventLocked takes EventRecovered ChangeOriginNone zeroChangeMap None s else s in
  maybeScheduleJournalCheckpointLocked s.

(** From the scanned base file to the session. *)
Definition open_sources (absolute resolved : FilePath) (config : SessionConfig) (base : inode) (info : FileInfo) (scan : baseScan)
  : Eff Launch (Session * Z * fileIdentity) := fun w =>
  match (if SessionDirOwnership config =? DirectoryOwned then ls_marker setup else None) with
  | Some e => ((sys_plain w).1, Err e)
  | None =>
    match openUndoStoreWith (SessionDir config) (UndoBytes (Limits config)) (ls_undoMkdir setup) (ls_undoTemp setup) with
    | Err e => ((sys_plain w).1, Err (join_onto e [marker_close config; cleanup config false]))
    | Ok undo =>
      let fingerprint := fingerprintFor sha256 normalizeFingerprintPath absolutePath resolved (bs_size scan) (bs_contentHash scan) in
      let '(w, opened) := openMatchingJournalWith (RecoveryDir config) fingerprint recovery_Open w in
      match opened with
      | Err e => abandon config undo e None w
      | Ok (journal, replayed) =>
        match NewWithBasePiece (Some (base_reads (i_bytes base)))
                (mkPiece SourceBase (bs_baseOffset scan) (bs_size scan ⊟ bs_baseOffset scan) (bs_newlines scan) true) with
        | Err e => abandon config undo e (match journal with Some j => (Journal.Close j).2 | None => None end) w
        | Ok tree =>
          let tree := match journal with Some j => alias journal_reads tree j | None => tree end in
          let s := new_session absolute resolved config fingerprint scan tree journal undo in
          let '(s, r) := open_journal replayed s in
          let w := write_back_journal (s_journal s) w in
          match r with
          | Err e => retire_sources config (s_undoStore s) (s_journal s) e w
          | Ok _ => (w, Ok (open_finish s, i_mode base, identityFor info (bs_contentHash scan)))
          end
        end
      end
    end
  end.

Definition openSessionContext (ctx : option Context) (path : list byte) (options : OpenOptions) : Eff Launch (Session * Z * fileIdentity) :=
  match ctx with
  | None => eff_fail document_ErrInvalidContext
  | Some ctx =>
    let* _ := eff_call (launch_context ctx) in
    let* config := eff_lift (resolveOpenOptions absolutePath clean defaultRecoveryDir defaultSessionDir options) in
    let* absolute := eff_lift (absolutePath path) in
    let* resolved := eff_lift (match evalSymlinks absolute with Err e => Err (errWrap 52 e) | Ok p => Ok p end) in
    let* resolved := eff_lift (absolutePath resolved) in
    let* (base, info, scan) := open_base ctx resolved in
    open_sources absolute resolved config base info scan
  end.
End Launch.
