(* ===== verification/LaunchHandle.v ===== *)
(** * What the handle on a journal does to its file

    Opening a journal only reads a file that holds bytes, and replaying it into a
    session only reads it too; cutting off a torn end is the one write of an
    opening, and it leaves the header with the batches that were read. *)

From Stdlib Require Import ZArith Lia List.
From stdpp Require Import base list numbers gmap.
From S2P Require Import Prelude GoLib Store File Journal UndoStore Options Effects Scan JournalText Session SessionText SessionHistory SessionEdit SessionRecovery SessionReplay Save SysFiles Rebase Launch.
#[local] Open Scope Z_scope.

(** ** Reading a file *)

(** The same bytes, and the same of them synced. *)
Definition only_read (f g : file) : Prop := f_bytes g = f_bytes f /\ f_durable g = f_durable f.

#[export] Instance only_read_order : PreOrder only_read.
Proof. split; [done|]. unfold only_read. intros f g h. intuition congruence. Qed.

Lemma only_read_fault f : only_read f (next_fault f).2.
Proof. unfold next_fault. by destruct (f_faults f). Qed.
Lemma only_read_ReadAt f n off : only_read f (file_ReadAt f n off).1.
Proof. unfold file_ReadAt. pose proof (only_read_fault f) as H. destruct (next_fault f) as [[] g]; exact H. Qed.
Lemma only_read_Stat f : only_read f (file_Stat f).1.
Proof. unfold file_Stat. pose proof (only_read_fault f) as H. destruct (next_fault f) as [[] g]; exact H. Qed.
Lemma only_read_Close f : only_read f (file_Close f).1.
Proof. unfold file_Close. pose proof (only_read_fault f) as H. destruct (next_fault f) as [[] g]; exact H. Qed.

Lemma only_read_header f : only_read f (readFileHeader f).1.
Proof.
  unfold readFileHeader. pose proof (only_read_ReadAt f fileHeaderSize 0) as H. by destruct (file_ReadAt _ _ _) as [g [header [e|]]].
Qed.

Lemma only_read_crc fuel : forall f remaining cursor crc, only_read f (crc_loop fuel f remaining cursor crc).1.
Proof.
  induction fuel as [|fuel IH]; intros f remaining cursor crc; [done|]. cbn [crc_loop]. destruct (0 <? remaining); [|done].
  pose proof (only_read_ReadAt f (Z.min crcBufferBytes remaining) cursor) as H. destruct (file_ReadAt _ _ _) as [g [data [e|]]]; cbn [fst] in H.
  - destruct (_ && _); [|done]. etransitivity; [exact H|apply IH].
  - destruct (_ && _); [done|]. etransitivity; [exact H|apply IH].
Qed.

Lemma only_read_operations f batch off n : only_read f (decodeBatchOperations f batch off n).1.
Proof.
  unfold decodeBatchOperations. destruct (_ <? _); [done|]. pose proof (only_read_ReadAt f (zlen (b_Operations batch) * batchRecordSize) off) as H.
  destruct (file_ReadAt _ _ _) as [g [data [e|]]]; [done|]. by destruct (decode_records _ _ _ _) as [[ops c]|].
Qed.

Lemma only_read_replay fuel : forall f size off r, only_read f (replay_loop fuel f size off r).1.
Proof.
  induction fuel as [|fuel IH]; intros f size off r; [done|]. cbn [replay_loop]. destruct (off <? size); [|done]. destruct (_ <? batchHeaderSize); [done|].
  pose proof (only_read_ReadAt f batchHeaderSize off) as H1. destruct (file_ReadAt _ _ _) as [f1 [header [e|]]]; [done|]. cbn [fst] in H1.
  destruct (decodeBatchHeader header) as [[[batch n] stored]|]; [|done]. destruct (_ <? n); [done|]. destruct (_ <? n); [done|].
  match goal with |- context[crc_loop ?x f1 ?a ?b ?c] => pose proof (only_read_crc x f1 a b c) as H2; destruct (crc_loop x f1 a b c) as [f2 [crc|e]] end; cbn [fst] in H2.
  2:{ by etransitivity. }
  destruct (negb _); [by etransitivity|]. pose proof (only_read_operations f2 batch (off + batchHeaderSize) n) as H3.
  destruct (decodeBatchOperations _ _ _ _) as [f3 [[ops|]|e]]; cbn [fst] in H3; [|by do 2 (etransitivity; [eassumption|])..].
  do 3 (etransitivity; [eassumption|]). apply IH.
Qed.

(** A journal that holds bytes is not changed by its opening. *)
Lemma openJournal_keeps f path fp left r :
  openJournal path fp None (Ok f) = (left, r) -> f_bytes f <> [] -> 0 <= BaseSize fp ->
  exists g, left = Some g /\ only_read f g /\ forall j rr, r = Ok (j, rr) -> j = mkJournal (Some g) path.
Proof.
  unfold openJournal. intros H Hne Hfp. rewrite (proj2 (Z.ltb_ge _ _)) in H by done.
  pose proof (only_read_Stat f) as H1. destruct (file_Stat f) as [f1 info] eqn:Hs. destruct (file_Stat_spec _ _ _ Hs) as (_ & Hsz & _). cbn [fst] in H1.
  assert (forall g e, only_read f g -> (let '(f, _) := file_Close g in (Some f, Err e)) = (left, r) ->
    exists g, left = Some g /\ only_read f g /\ forall j rr, r = Ok (j, rr) -> j = mkJournal (Some g) path) as Hclosed.
  { intros g e Hg Hc. pose proof (only_read_Close g) as H2. destruct (file_Close g) as [g' e']. injection Hc as <- <-.
    exists g'. split; [done|]. split; [by etransitivity|done]. }
  destruct info as [size|e]; [|by eapply Hclosed]. rewrite (Hsz _ eq_refl), (proj2 (Z.eqb_neq _ 0)) in H by (by intros ?%zlen_zero).
  pose proof (only_read_header f1) as H2. destruct (readFileHeader f1) as [f2 stored]. cbn [fst] in H2.
  assert (only_read f f2) as H12 by (by etransitivity). destruct stored as [stored|e]; [|by eapply Hclosed].
  destruct (negb _); [by eapply Hclosed|]. unfold Replay in H. cbn [j_file] in H.
  pose proof (only_read_Stat f2) as H3. destruct (file_Stat f2) as [f3 info3]. cbn [fst] in H3. assert (only_read f f3) as H13 by (by etransitivity).
  destruct info3 as [size3|e]; [|cbn [Journal.with_file j_file] in H; by eapply Hclosed]. pose proof (only_read_replay (Z.to_nat size3) f3 size3 fileHeaderSize (mkReplayResult [] fileHeaderSize false)) as H4.
  destruct (replay_loop _ _ _ _ _) as [f4 [rr e]]. cbn [fst] in H4. assert (only_read f f4) as H14 by (by etransitivity). cbn [Journal.with_file j_file] in H.
  destruct e as [e|]; [by eapply Hclosed|]. injection H as <- <-. exists f4. split; [done|]. split; [done|]. by intros j rr' [= <- <-].
Qed.

(** ** The file behind a handle *)

(** The handle is on the content of the file. *)
Definition handle_shows (f : file) (i : inode) : Prop :=
  f_bytes f = i_bytes i /\ f_durable f = if i_synced i then Some (i_bytes i) else None.

Lemma handle_shows_same f g i : handle_shows f i -> only_read f g -> handle_shows g i.
Proof. unfold handle_shows, only_read. intuition congruence. Qed.

Lemma handle_shows_inode f i : handle_shows f i -> inode_of f i = i.
Proof.
  unfold inode_of, durable. destruct i as [bytes mode []]; cbn; intros [Hb Hd]; cbn in *; rewrite Hb, Hd; f_equal.
  by apply bool_decide_true.
Qed.

Lemma write_back_files path f w i :
  w_files (disk w) !! path = Some i ->
  w_files (disk (write_back path f w)) = <[path := inode_of f i]> (w_files (disk w)).
Proof.
  intros Hi. apply map_eq. intros p. unfold write_back. rewrite disk_set. cbn [set_files w_files]. destruct (decide (p = path)) as [->|Hp].
  - change (la_disk w) with (disk w). by rewrite lookup_alter_eq, lookup_insert_eq, Hi.
  - by rewrite lookup_alter_ne, lookup_insert_ne.
Qed.

Lemma write_back_same path f w i :
  w_files (disk w) !! path = Some i -> handle_shows f i -> w_files (disk (write_back path f w)) = w_files (disk w).
Proof. intros Hi Hf. rewrite (write_back_files _ _ _ _ Hi), (handle_shows_inode _ _ Hf). by apply insert_id. Qed.

(** A torn end is cut off: the header and the batches that could be read stay. *)
Definition cut_off (i i' : inode) : Prop := exists header xs rest, zlen header = fileHeaderSize /\ Forall logged_ok xs /\ no_batch rest /\ rest <> [] /\
  i_bytes i = (header ++ encodeAll xs) ++ rest /\ i' = mkInode (header ++ encodeAll xs) (i_mode i) false.

(** What a handle that was opened on the file [i] makes of it. *)
Definition repaired (i i' : inode) : Prop := i' = i \/ cut_off i i'.

Lemma repaired_bytes i i' fp xs rest :
  repaired i i' -> fingerprint_ok fp -> Forall logged_ok xs -> no_batch rest -> i_bytes i = (encodeFileHeader fp ++ encodeAll xs) ++ rest ->
  i' = i \/ i_bytes i' = encodeFileHeader fp ++ encodeAll xs.
Proof.
  intros [->|(header & ys & rest' & Hh & Hys & Hrest' & _ & Hi & ->)] Hfp Hxs Hrest E; [by left|right]. cbn [i_bytes].
  rewrite E, <-!app_assoc in Hi. apply app_inj_1 in Hi as [-> Hi].
  - by destruct (reading_unique xs ys rest rest' 0 Hxs Hys Hrest Hrest' Hi) as (<- & _ & _).
  - apply Nat2Z.inj. change (zlen (encodeFileHeader fp) = zlen header). by rewrite zlen_encodeFileHeader, Hh.
Qed.

Lemma RepairTail_repaired f path i header xs rest j e :
  RepairTail (mkJournal (Some f) path) (zlen (header ++ encodeAll xs)) = (j, e) -> handle_shows f i ->
  i_bytes i = (header ++ encodeAll xs) ++ rest -> zlen header = fileHeaderSize -> Forall logged_ok xs -> no_batch rest -> rest <> [] ->
  exists g, j = mkJournal (Some g) path /\ repaired i (inode_of g i).
Proof.
  intros H Hf Hi Hh Hxs Hrest Hne. unfold RepairTail in H. cbn [j_file] in H.
  pose proof (zlen_nonneg (encodeAll xs)) as H0. rewrite (proj2 (Z.ltb_ge _ _)) in H by (rewrite zlen_app, Hh; lia).
  unfold file_Truncate in H. pose proof (only_read_fault f) as Hs. destruct (next_fault f) as [x f1]. cbn [snd] in Hs.
  assert (handle_shows f1 i) as Hf1 by (by eapply handle_shows_same).
  destruct (match x with Fault _ e => Some e | _ => None end) as [ex|] eqn:Hx.
  { exists f1. split; [destruct x; try done; by injection H as <- <-|]. left. by apply handle_shows_inode. }
  set (n := zlen (header ++ encodeAll xs)) in *. exists (mkFile (ztake n (pad_to n (f_bytes f1))) (f_pos f1) (f_faults f1) (f_durable f1)).
  split; [destruct x; try done; by injection H as <- <-|]. right.
  assert (ztake n (pad_to n (f_bytes f1)) = header ++ encodeAll xs) as Eb.
  { destruct Hf1 as [-> _]. unfold pad_to. rewrite Hi, zlen_app. pose proof (zlen_nonneg rest). fold n.
    replace (Z.to_nat (n - (n + zlen rest))) with 0%nat by lia. cbn [replicate]. rewrite app_nil_r. by apply ztake_app. }
  exists header, xs, rest. split_and!; try done. unfold inode_of, durable. cbn [f_bytes f_durable]. rewrite Eb. f_equal.
  apply bool_decide_false. destruct Hf1 as [_ ->]. destruct (i_synced i); [|done]. intros [= E]. apply Hne. apply zlen_zero.
  apply (f_equal zlen) in E. rewrite Hi, zlen_app in E. lia.
Qed.

(** ** Replaying reads *)

(** The session's handle on its journal is [f], after some reads. *)
Definition handle_on (f : file) (path : list byte) (s : Session) : Prop :=
  exists g, s_journal s = Some (mkJournal (Some g) path) /\ only_read f g.

Definition reading {A} (c : M A) : Prop := forall f path s k, handle_on f path s -> handle_on f path (c s k).1.1.

Lemma reading_ret {A} (a : A) : reading (ret a).
Proof. by intros f path s k. Qed.
Lemma reading_fail {A} e : reading (@fail A e).
Proof. by intros f path s k. Qed.
Lemma reading_lift {A} (r : result A) : reading (lift r).
Proof. by intros f path s k. Qed.
Lemma reading_get : reading get.
Proof. by intros f path s k. Qed.
Lemma reading_modify h : (forall s, s_journal (h s) = s_journal s) -> reading (modify h).
Proof. intros Hh f path s k. unfold handle_on. cbn. by rewrite Hh. Qed.
Lemma reading_bind {A B} (c : M A) (h : A -> M B) : reading c -> (forall a, reading (h a)) -> reading (bind c h).
Proof.
  intros Hc Hh f path s k Hs. unfold bind. specialize (Hc f path s k Hs). destruct (c s k) as [[s1 k1] [a|e]]; cbn in *; [|done]. by apply Hh.
Qed.
Lemma reading_if {A} (b : bool) (c d : M A) : reading c -> reading d -> reading (if b then c else d).
Proof. by destruct b. Qed.
Lemma reading_historyText value : reading (historyText value).
Proof.
  intros f path s k. unfold historyText, handle_on. destruct (UndoStore.append _ _) as [us [ref [e|]]]; [|done]. destruct (negb _); [done|].
  destruct (UndoStore.reset _) as [us1 [e1|]]; [done|]. destruct (UndoStore.append _ _) as [us2 [ref2 [e2|]]]; [|done].
  by destruct (errors_Is _ _).
Qed.

Create HintDb reading.
#[local] Hint Resolve reading_ret reading_fail reading_lift reading_get reading_modify reading_historyText : reading.
Ltac reading :=
  repeat first
    [ solve [auto with reading] | apply reading_bind; [|intros] | apply reading_if
    | match goal with |- reading (let '(_, _) := ?p in _) => destruct p end ].

Section Replay.
Context (journal_reads : list byte -> ReaderAt).

Lemma reading_payload op : reading (read_payload journal_reads op).
Proof using.
  unfold read_payload. apply reading_if; [|apply reading_ret]. intros f path s k (g & Hj & Hg). rewrite Hj. unfold Journal.ReadAt. cbn [j_file].
  pose proof (only_read_ReadAt g (op_InsertLength op) (op_PayloadOffset op)) as H. destruct (file_ReadAt _ _ _) as [g1 [got e]]. cbn [fst] in H.
  exists g1. split; [done|by etransitivity].
Qed.
#[local] Hint Resolve reading_payload : reading.

Lemma reading_replay_operation revision group op entry : reading (replay_operation journal_reads revision group op entry).
Proof using. unfold replay_operation. reading. Qed.
#[local] Hint Resolve reading_replay_operation : reading.
Lemma reading_replay_operations group ops : forall revision entry, reading (replay_operations journal_reads revision group ops entry).
Proof using. induction ops as [|op ops IH]; intros; cbn [replay_operations]; reading. Qed.
#[local] Hint Resolve reading_replay_operations : reading.
Lemma reading_replay_batch first b : reading (replay_batch journal_reads first b).
Proof using. unfold replay_batch. reading. Qed.
#[local] Hint Resolve reading_replay_batch : reading.
Lemma reading_replay_batches bs : forall first, reading (replay_batches journal_reads first bs).
Proof using. induction bs as [|b bs IH]; intros; cbn [replay_batches]; reading. Qed.
#[local] Hint Resolve reading_replay_batches : reading.
Lemma reading_replay rr : reading (replay journal_reads rr).
Proof using. unfold replay. reading. Qed.

(** After the replay the handle is on the file, or on what is left of it. *)
Lemma open_journal_handle rr s s' r f path i :
  open_journal journal_reads rr s = (s', r) -> s_journal s = Some (mkJournal (Some f) path) -> handle_shows f i ->
  fileHeaderSize <= zlen (i_bytes i) -> replay_reads (i_bytes i) fileHeaderSize [] rr None ->
  exists g, s_journal s' = Some (mkJournal (Some g) path) /\ repaired i (inode_of g i).
Proof using.
  intros H Hj Hf Hlen (xs & rest & Hxs & Hdrop & _ & Hv & Hrest & Ht). unfold open_journal in H. rewrite Hj in H.
  pose proof (reading_replay rr f path s 0%nat) as Hr. destruct (replay journal_reads rr s 0%nat) as [[s1 k1] r1].
  destruct Hr as (g & Hg & Hsame); [by exists f|]. cbn [fst] in Hg. assert (handle_shows g i) as Hs by (by eapply handle_shows_same).
  destruct r1 as [u|e]; [|injection H as <- <-; exists g; split; [done|left; by apply handle_shows_inode]]. rewrite Hg in H.
  set (header := ztake fileHeaderSize (i_bytes i)).
  assert (zlen header = fileHeaderSize) as Hh by (unfold header; rewrite zlen_ztake; unfold fileHeaderSize in *; lia).
  assert (i_bytes i = (header ++ encodeAll xs) ++ rest) as Hi by (by rewrite <-app_assoc, <-Hdrop; unfold header; rewrite ztake_zdrop).
  rewrite Hv, <-Hh, <-zlen_app in H.
  destruct (if rr_Truncated rr then _ else _) as [j1 e1] eqn:Hrep.
  assert (exists g1, j1 = mkJournal (Some g1) path /\ repaired i (inode_of g1 i)) as (g1 & -> & Hg1).
  { rewrite Ht in Hrep. destruct (Z.eqb_spec (zlen rest) 0) as [Hz|Hz]; cbn [negb] in Hrep.
    - injection Hrep as <- <-. exists g. split; [done|left; by apply handle_shows_inode].
    - eapply RepairTail_repaired; try eassumption. by intros ->. }
  destruct e1 as [e1|]; [injection H as <- <-; by exists g1|]. unfold Journal.Size in H. cbn [j_file] in H.
  pose proof (only_read_Stat g1) as H2. destruct (file_Stat g1) as [g2 size]. cbn [fst] in H2.
  assert (repaired i (inode_of g2 i)) as Hg2 by (unfold inode_of, durable in *; by destruct H2 as [-> ->]).
  destruct size; injection H as <- <-; by exists g2.
Qed.
End Replay.
