(* ===== verification/LaunchJournal.v ===== *)
(** * Finding the journal of a base file

    [openMatchingJournalWithQuarantine] of Launch: whatever fails, no journal is lost
    (it stays or is renamed), and a journal is opened only when it is the one
    journal of the base and every other journal of the path was moved aside. *)

From Stdlib Require Import ZArith Lia List.
From stdpp Require Import base list numbers gmap.
From S2P Require Import Prelude GoLib Store File Journal Effects Scan JournalText Save SysFiles Launch LaunchHandle.
#[local] Open Scope Z_scope.

(** Without faults none are left for the journal that is opened. *)
Lemma openJournal_quiet f path fp g j rr :
  openJournal path fp None (Ok f) = (g, Ok (j, rr)) -> f_bytes f <> [] -> f_faults f = [] ->
  forall f', j_file j = Some f' -> f_faults f' = [].
Proof.
  unfold openJournal. intros H Hne Hf f' Hj. destruct (BaseSize fp <? 0); [discriminate H|].
  destruct (file_Stat f) as [f1 info] eqn:Hs. destruct (file_Stat_spec _ _ _ Hs) as (_ & _ & Hn1). destruct (Hn1 Hf) as [-> Hf1].
  rewrite (proj2 (Z.eqb_neq _ 0)) in H by (by intros ?%zlen_zero).
  destruct (readFileHeader f1) as [f2 [stored|e]] eqn:Hr; [|by destruct (file_Close f2)].
  destruct (readFileHeader_spec _ _ _ Hr) as (_ & Hf2 & _). destruct (negb _); [by destruct (file_Close f2)|].
  pose proof (Replay_quiet f2 path (Hf2 Hf1)) as Hq. destruct (Replay _) as [j1 [rr1 e1]]. cbn in Hq. subst j1. cbn [j_file] in H.
  destruct e1; [by destruct (file_Close f2)|]. injection H as _ <- _. injection Hj as <-. auto.
Qed.

Section Matching.
Variable decimal : Z -> list byte.
Abbreviation qname := (quarantineName decimal).

(** The names a quarantine may choose are unused and tell the journals apart. *)
Record names_ok (fs0 : directory) (paths : list FilePath) : Prop := mkNamesOk {
  nk_present p : p ∈ paths -> is_Some (fs0 !! p);
  nk_fresh p reason t : p ∈ paths -> fs0 !! qname p reason t = None;
  nk_apart p p' reason reason' t t' : p ∈ paths -> p' ∈ paths -> qname p reason t = qname p' reason' t' -> p = p' }.

(** A journal is where it was or has been renamed; everything else is untouched. *)
Record moved (fs0 : directory) (paths : list FilePath) (fs : directory) : Prop := mkMoved {
  mv_kept p i : fs0 !! p = Some i -> fs !! p = Some i \/ (p ∈ paths /\ fs !! p = None /\ exists reason t, fs !! qname p reason t = Some i);
  mv_only q i : fs !! q = Some i -> fs0 !! q = Some i \/ exists p reason t, p ∈ paths /\ q = qname p reason t /\ fs0 !! p = Some i /\ fs !! p = None }.

Lemma moved_refl fs paths : moved fs paths fs.
Proof. split; auto. Qed.

Section Moving.
Context (fs0 : directory) (paths : list FilePath) (names : names_ok fs0 paths).

Lemma moved_at fs p i : moved fs0 paths fs -> p ∈ paths -> fs !! p = Some i -> fs0 !! p = Some i.
Proof using names.
  intros [_ Ho] Hp Hi. destruct (Ho _ _ Hi) as [?|(p' & reason & t & Hp' & -> & _)]; [done|].
  destruct (nk_present _ _ names _ Hp) as [x Hx]. by rewrite (nk_fresh _ _ names _ _ _ Hp') in Hx.
Qed.

Lemma qname_other fs p reason t q i : p ∈ paths -> moved fs0 paths fs -> fs0 !! q = Some i -> qname p reason t <> q.
Proof using names. intros Hp _ Hq <-. by rewrite (nk_fresh _ _ names _ _ _ Hp) in Hq. Qed.

Lemma moved_rename fs p reason t i :
  moved fs0 paths fs -> p ∈ paths -> fs !! p = Some i -> moved fs0 paths (<[qname p reason t := i]> (delete p fs)).
Proof using names.
  intros Hm Hp Hi. pose proof (moved_at _ _ _ Hm Hp Hi) as H0. pose proof Hm as [Hk Ho].
  assert (qname p reason t <> p) as Hqp by (by eapply qname_other). split.
  - intros p1 i1 H1. destruct (decide (p1 = p)) as [->|Hne].
    + right. split; [done|]. assert (i1 = i) as -> by congruence. rewrite lookup_insert_ne, lookup_delete_eq by done.
      split; [done|]. exists reason, t. apply lookup_insert_eq.
    + assert (qname p reason t <> p1) as Hq1 by (by eapply qname_other).
      destruct (Hk _ _ H1) as [H|(Hp1 & Hn & r1 & t1 & H)].
      * left. by rewrite lookup_insert_ne, lookup_delete_ne.
      * right. split; [done|]. rewrite lookup_insert_ne, lookup_delete_ne by done. split; [done|]. exists r1, t1.
        rewrite lookup_insert_ne, lookup_delete_ne; [done| |].
        -- intros E. symmetry in E. by apply (qname_other fs p1 r1 t1 p i Hp1 Hm H0).
        -- intros E. apply Hne. symmetry. by apply (nk_apart _ _ names _ _ _ _ _ _ Hp Hp1 E).
  - intros q iq. destruct (decide (q = qname p reason t)) as [->|Hq].
    + rewrite lookup_insert_eq. intros [= <-]. right. exists p, reason, t. split_and!; try done.
      by rewrite lookup_insert_ne, lookup_delete_eq.
    + rewrite lookup_insert_ne by done. intros [Hne H]%lookup_delete_Some.
      destruct (Ho _ _ H) as [?|(p1 & r1 & t1 & Hp1 & -> & H1 & Hn)]; [by left|]. right. exists p1, r1, t1. split_and!; try done.
      destruct (decide (p1 = p)) as [->|]; [by rewrite lookup_insert_ne, lookup_delete_eq|].
      rewrite lookup_insert_ne, lookup_delete_ne; try done. by eapply qname_other.
Qed.

(** No fault is ahead. *)
Definition calm (w : Launch) : Prop := w_faults (la_disk w) = [] /\ la_opens w = [].

Lemma calm_call w x d : calm w -> syscall (disk w) = (x, d) -> x = NoFault /\ calm (set_disk d w) /\ w_files d = w_files (disk w).
Proof using. intros [H1 H2] H. unfold syscall in H. change (disk w) with (la_disk w) in H. rewrite H1 in H. by injection H as <- <-. Qed.

Lemma call_files (w : Launch) x d : syscall (disk w) = (x, d) -> w_files d = w_files (disk w).
Proof using. unfold syscall. destruct (w_faults (disk w)); by intros [= <- <-]. Qed.

(** ** One quarantine *)

Record moving (path : FilePath) (w w' : Launch) : Prop := mkMoving {
  mg_moved : moved fs0 paths (w_files (disk w'));
  mg_others p : p ∈ paths -> p <> path -> w_files (disk w') !! p = w_files (disk w) !! p;
  mg_calm : calm w -> calm w' }.

Lemma quarantine_spec path reason cause w w' e :
  quarantineRecovery decimal path reason cause w = (w', e) -> moved fs0 paths (w_files (disk w)) -> path ∈ paths ->
  moving path w w' /\ exists e', e = Some e' /\ exists q, as_recoveryOpen e' = Some q /\
    (q <> [] -> w_files (disk w') !! path = None) /\ (calm w -> is_Some (w_files (disk w) !! path) -> q <> []).
Proof using names.
  intros H Hm Hp. unfold quarantineRecovery, quarantineRecoveryWith in H. destruct (now_UnixNano w) as [w1 t] eqn:Hn.
  assert (disk w1 = disk w /\ la_opens w1 = la_opens w) as [Ed Eo] by (by injection Hn as <- <-). clear Hn.
  destruct (sys_rename path (qname path reason t) w1) as [w2 err] eqn:Hr. unfold sys_rename in Hr.
  destruct (syscall (disk w1)) as [x d] eqn:Hc. pose proof (call_files _ _ _ Hc) as Ef. rewrite Ed in Ef.
  assert (calm w -> x = NoFault /\ w_faults d = []) as Hcalm.
  { intros [C1 C2]. unfold syscall in Hc. rewrite Ed in Hc. change (disk w) with (la_disk w) in Hc. rewrite C1 in Hc. by injection Hc as <- <-. }
  assert (calm w -> forall m, calm (set_disk (set_files m d) w1) /\ calm (set_disk d w1)) as Hcalm2.
  { intros C m. destruct (Hcalm C) as [_ Hd]. destruct C as [_ C2]. split; (split; [done|]); cbn; congruence. }
  injection H as <- <-.
  assert (moving path w (set_disk d w1)) as Hstay.
  { split; rewrite ?disk_set, ?Ef; [done|done|]. intros C. by apply Hcalm2. }
  destruct (match x with Fault _ e => Some e | _ => None end) as [ex|] eqn:Hx.
  { assert (w2 = set_disk d w1 /\ err = Some ex) as [-> ->] by (destruct x; try done; apply pair_equal_spec in Hr as [<- <-]; split; congruence).
    split; [done|]. eexists. split; [done|]. exists []. split; [done|]. split; [done|].
    intros C. destruct (Hcalm C) as [-> _]. done. }
  assert ((w2, err) = match w_files d !! path with None => (set_disk d w1, Some os_ErrNotExist)
    | Some i => (set_disk (set_files (<[qname path reason t := i]> (delete path (w_files d))) d) w1, None) end) as E
    by (rewrite <-Hr; destruct x; try done; by destruct (w_files d !! path)).
  destruct (w_files d !! path) as [i|] eqn:Hi; apply pair_equal_spec in E as [-> ->].
  - assert (qname path reason t <> path) as Hqp.
    { eapply qname_other; [done|done|]. eapply moved_at; [exact Hm|done|]. by rewrite <-Ef. }
    split; [split|].
    + rewrite disk_set. cbn. rewrite Ef in *. by apply moved_rename.
    + intros p Hpp Hne. rewrite disk_set. cbn. rewrite Ef. rewrite lookup_insert_ne, lookup_delete_ne; try done.
      destruct (nk_present _ _ names _ Hpp) as [y Hy]. by eapply qname_other.
    + intros C. by apply Hcalm2.
    + eexists. split; [done|]. exists (qname path reason t). split; [done|]. split.
      * intros _. rewrite disk_set. cbn. by rewrite lookup_insert_ne, lookup_delete_eq.
      * intros _ _. unfold quarantineName. by destruct path.
  - split; [done|]. eexists. split; [done|]. exists []. split; [done|]. split; [done|]. intros _ [y Hy]. rewrite <-Ef in Hy. congruence.
Qed.

Lemma moving_refl path w : moved fs0 paths (w_files (disk w)) -> moving path w w.
Proof using. by split. Qed.

(** Moved journals stay moved. *)
Lemma moving_gone path w w' p : moving path w w' -> p ∈ paths -> w_files (disk w) !! p = None -> p <> path -> w_files (disk w') !! p = None.
Proof using. intros [_ Ho _] Hp Hn Hne. by rewrite Ho. Qed.

(** ** Probing *)

(** The journal file starts with the header of a base. *)
Definition header_of (i : inode) (fp : Fingerprint) : Prop := fingerprint_ok fp /\ ztake fileHeaderSize (i_bytes i) = encodeFileHeader fp.

Lemma header_unique i fp fp' : header_of i fp -> header_of i fp' -> fp = fp'.
Proof using.
  intros [H1 E1] [H2 E2]. pose proof (decode_encodeFileHeader _ H1) as D1. rewrite <-E1, E2, (decode_encodeFileHeader _ H2) in D1. congruence.
Qed.

Lemma ReadFingerprint_spec path w w' r :
  recovery_ReadFingerprint path w = (w', r) ->
  disk w' = disk w /\ (calm w -> calm w') /\
  (forall fp, r = Ok fp -> exists i, w_files (disk w) !! path = Some i /\ header_of i fp) /\
  (calm w -> forall i fp, w_files (disk w) !! path = Some i -> header_of i fp -> r = Ok fp).
Proof using.
  unfold recovery_ReadFingerprint, sys_openFile. set (w1 := mkLaunch _ _ _ _).
  assert (disk w1 = disk w) as Ed by done.
  assert (calm w -> calm w1) as Hcl by (intros [C1 C2]; split; [done|]; cbn; by rewrite C2).
  intros H. destruct (match la_opens w with [] => Ok [] | x :: _ => x end) as [faults|e] eqn:Hx.
  - destruct (w_files (la_disk w) !! path) as [i|] eqn:Hi; apply pair_equal_spec in H as [<- <-].
    2:{ split; [done|]. split; [done|]. split; [done|]. intros _ i' fp Hi'. change (la_disk w) with (disk w) in Hi. congruence. }
    split; [done|]. split; [done|]. unfold ReadFingerprint. destruct (readFileHeader _) as [f' r] eqn:Hr.
    destruct (readFileHeader_spec _ _ _ Hr) as (_ & _ & Hs & Hc). cbn [snd]. split.
    + intros fp ->. exists i. split; [done|]. by apply Hs.
    + intros [_ C2] i' fp Hi' [Hfp Hh]. change (la_disk w) with (disk w) in Hi. assert (i' = i) as -> by congruence.
      apply Hc; [|done|done]. cbn. rewrite C2 in Hx. congruence.
  - apply pair_equal_spec in H as [<- <-]. split; [done|]. split; [done|]. split; [done|]. intros [_ C2]. rewrite C2 in Hx. done.
Qed.

(** The probe only renames what it cannot read; then nothing is opened. *)
Record probed (fp : Fingerprint) (ps extra : list FilePath) (errs : list (option error)) (w w' : Launch) : Prop := mkProbed {
  pb_moved : moved fs0 paths (w_files (disk w'));
  pb_calm : calm w -> calm w';
  pb_errors : Forall is_Some errs;
  pb_same : errs = [] -> disk w' = disk w;
  pb_headers : errs = [] -> Forall (fun p => exists i stored, w_files (disk w) !! p = Some i /\ header_of i stored /\ (p ∈ extra <-> stored = fp)) ps;
  pb_extra : sublist extra ps;
  pb_readable : calm w -> Forall (fun p => exists i stored, w_files (disk w) !! p = Some i /\ header_of i stored) ps -> errs = [] }.

Lemma probe_loop_spec fp : forall ps matching errs w w' matching' errs',
  probe_loop (quarantineRecovery decimal) fp ps matching errs w = (w', (matching', errs')) ->
  moved fs0 paths (w_files (disk w)) -> ps ⊆ paths -> List.NoDup ps ->
  exists extra more, matching' = matching ++ extra /\ errs' = errs ++ more /\ probed fp ps extra more w w'.
Proof using names.
  induction ps as [|p ps IH]; intros matching errs w w' matching' errs' H Hm Hsub Hnd; cbn [probe_loop] in H.
  { injection H as <- <- <-. exists [], []. rewrite !app_nil_r. split; [done|]. split; [done|]. by split. }
  inversion Hnd as [|? ? Hp Hnd']; subst. assert (p ∈ paths) as Hpp by (apply Hsub; by left). assert (ps ⊆ paths) as Hsub' by (intros x Hx; apply Hsub; by right).
  assert (p ∉ ps) as Hp' by (by rewrite list_elem_of_In).
  destruct (recovery_ReadFingerprint p w) as [w1 [stored|e]] eqn:Hr; destruct (ReadFingerprint_spec _ _ _ _ Hr) as (Ed & Hc & Hok & Hread).
  - destruct (Hok _ eq_refl) as (i & Hi & Hh). destruct (IH _ _ _ _ _ _ H) as (extra & more & -> & -> & [M C E S Hd X R]); [by rewrite Ed|done|done|].
    rewrite Ed in Hd, S, R.
    assert (sublist extra ps -> p ∉ extra) as Hnot by (intros Hx Hin; apply Hp'; by eapply elem_of_sublist).
    exists (if bool_decide (stored = fp) then p :: extra else extra), more.
    split; [case_bool_decide; [by rewrite <-app_assoc|done]|]. split; [done|]. split; [done|auto|done|done| | |].
    + intros Hn. constructor.
      * exists i, stored. split; [done|]. split; [done|]. case_bool_decide; [split; [done|intros; by left]|]. split; [intros Hin; by destruct (Hnot X)|done].
      * specialize (Hd Hn). rewrite Forall_forall in Hd |- *. intros q Hq. destruct (Hd q Hq) as (iq & sq & H1 & H2 & H3). exists iq, sq. split; [done|]. split; [done|].
        rewrite <-H3. case_bool_decide; [|done]. rewrite elem_of_cons. split; [intros [-> | ?]; done|by right].
    + case_bool_decide; by constructor.
    + intros C0 Hall. apply Forall_cons in Hall as [_ Hall]. apply R; [auto|done].
  - destruct (quarantineRecovery decimal p invalidHeader e w1) as [w2 qe] eqn:Hq.
    destruct (quarantine_spec _ _ _ _ _ _ Hq) as [[M2 _ C2] (e' & -> & _)]; [by rewrite Ed|done|].
    destruct (IH _ _ _ _ _ _ H M2 Hsub' Hnd') as (extra & more & -> & -> & [M C E S Hd X R]).
    exists extra, (Some e' :: more). split; [done|]. split; [by rewrite <-app_assoc|]. split; [done|auto|by constructor|done|done|by constructor|].
    intros C0 Hall. apply Forall_cons in Hall as [(i & st & Hi & Hh) _]. by specialize (Hread C0 _ _ Hi Hh).
Qed.

(** ** Moving the others *)

Lemma quarantine_all_spec reason cause : forall ps w w' es,
  quarantine_all (quarantineRecovery decimal) reason cause ps w = (w', es) -> moved fs0 paths (w_files (disk w)) -> ps ⊆ paths ->
  moved fs0 paths (w_files (disk w')) /\ (calm w -> calm w') /\ Forall is_Some es /\ length es = length ps.
Proof using names.
  induction ps as [|p ps IH]; intros w w' es H Hm Hsub; cbn [quarantine_all] in H; [by injection H as <- <-|].
  assert (p ∈ paths) as Hpp by (apply Hsub; by left). assert (ps ⊆ paths) as Hsub' by (intros x Hx; apply Hsub; by right).
  destruct (quarantineRecovery decimal p reason cause w) as [w1 e] eqn:Hq.
  destruct (quarantine_spec _ _ _ _ _ _ Hq Hm Hpp) as [[M _ C] (e' & -> & _)].
  destruct (quarantine_all _ _ _ ps w1) as [w2 es2] eqn:Hqs. injection H as <- <-.
  destruct (IH _ _ _ Hqs M Hsub') as (? & ? & ? & ?). split; [done|]. split; [auto|]. split; [by constructor|cbn; congruence].
Qed.

Record retired (path : FilePath) (ps : list FilePath) (es : list (option error)) (w w' : Launch) : Prop := mkRetired {
  rd_moved : moved fs0 paths (w_files (disk w'));
  rd_calm : calm w -> calm w';
  rd_errors : Forall is_Some es;
  rd_kept : w_files (disk w') !! path = w_files (disk w) !! path;
  rd_others p : p ∈ paths -> p ∉ ps -> w_files (disk w') !! p = w_files (disk w) !! p;
  rd_gone : es = [] -> Forall (fun p => p <> path -> w_files (disk w') !! p = None) ps;
  rd_all : calm w -> Forall (fun p => is_Some (w_files (disk w) !! p)) ps -> es = [] }.

Lemma retire_loop_spec path : forall ps w w' es,
  retire_loop (quarantineRecovery decimal) path ps w = (w', es) -> moved fs0 paths (w_files (disk w)) -> path ∈ paths -> ps ⊆ paths -> List.NoDup ps ->
  retired path ps es w w'.
Proof using names.
  induction ps as [|p ps IH]; intros w w' es H Hm Hpath Hsub Hnd; cbn [retire_loop] in H; [injection H as <- <-; by split|].
  inversion Hnd as [|? ? Hp Hnd']; subst. assert (p ∈ paths) as Hpp by (apply Hsub; by left). assert (ps ⊆ paths) as Hsub' by (intros x Hx; apply Hsub; by right).
  assert (p ∉ ps) as Hp' by (by rewrite list_elem_of_In). case_bool_decide as Heq.
  { subst p. destruct (IH _ _ _ H Hm Hpath Hsub' Hnd') as [M C E K O G A]. split; [done|done|done|done| | |].
    - intros q Hq Hn. apply O; [done|]. intros ?. apply Hn. by right.
    - intros Hn. constructor; [done|by apply G].
    - intros Hc Hall. apply Forall_cons in Hall as [_ Hall]. by apply A. }
  destruct (quarantineRecovery decimal p retiredBase recovery_ErrStaleJournal w) as [w1 e] eqn:Hq.
  destruct (quarantine_spec _ _ _ _ _ _ Hq Hm Hpp) as [[M1 O1 C1] (e' & -> & q & Eq & Hgone & Hcalm)].
  destruct (retire_loop _ path ps w1) as [w2 es2] eqn:Hrl. rewrite Eq in H. apply pair_equal_spec in H as [-> <-].
  destruct (IH _ _ _ Hrl M1 Hpath Hsub' Hnd') as [M C E K O G A].
  assert (negb (zlen q =? 0) = true <-> q <> []) as Hz.
  { destruct q as [|b q]; [done|]. rewrite zlen_cons. pose proof (zlen_nonneg q). rewrite (proj2 (Z.eqb_neq _ 0)) by lia. done. }
  split.
  - done.
  - auto.
  - destruct (negb _); [done|by constructor].
  - rewrite K. by apply O1.
  - intros x Hx Hn. rewrite O, O1; try done; [intros ->|intros ?]; apply Hn; [by left|by right].
  - destruct (negb _) eqn:Hb; [|done]. intros Hn. specialize (G Hn). constructor; [|done]. intros _. rewrite O by done.
    apply Hgone. by apply Hz.
  - intros Hc Hall. apply Forall_cons in Hall as [Hp1 Hall]. rewrite (proj2 Hz (Hcalm Hc Hp1)). apply A; [auto|].
    rewrite Forall_forall in Hall |- *. intros x Hx. rewrite O1; [by apply Hall|by apply Hsub'|]. intros ->. done.
Qed.

(** ** Opening *)

Lemma recovery_Open_spec path fp w w' r i :
  recovery_Open path fp w = (w', r) -> w_files (disk w) !! path = Some i -> header_of i fp ->
  w_files (disk w') = w_files (disk w) /\ (calm w -> calm w') /\
  (forall j rr, r = Ok (j, rr) -> exists f, j = mkJournal (Some f) path /\ handle_shows f i /\ (calm w -> f_faults f = []) /\
     replay_reads (i_bytes i) fileHeaderSize [] rr None) /\
  (calm w -> exists jr, r = Ok jr).
Proof using.
  intros H Hi [Hfp Hh]. unfold recovery_Open in H. rewrite (proj2 (Z.ltb_ge (BaseSize fp) 0)) in H by apply Hfp.
  unfold sys_plain in H. destruct (syscall (disk w)) as [x d] eqn:Hc. pose proof (call_files _ _ _ Hc) as Ef.
  assert (calm w -> x = NoFault /\ w_faults d = []) as Hcalm.
  { intros [C1 C2]. unfold syscall in Hc. change (disk w) with (la_disk w) in Hc. rewrite C1 in Hc. by injection Hc as <- <-. }
  destruct (match x with Fault _ e => Some e | _ => None end) as [e|] eqn:Hx.
  { apply pair_equal_spec in H as [<- <-]. rewrite disk_set, Ef. split; [done|]. split.
    - intros C. destruct (Hcalm C) as [_ Hd]. by destruct C.
    - split; [done|]. intros C. destruct (Hcalm C) as [-> _]. done. }
  unfold sys_openFile in H. change (la_disk (set_disk d w)) with d in H. rewrite Ef, Hi in H. change (la_opens (set_disk d w)) with (la_opens w) in H.
  set (w1 := mkLaunch _ _ _ _) in H.
  assert (w_files (disk w1) = w_files (disk w)) as Ew by exact Ef.
  assert (calm w -> calm w1) as Hcw by (intros C; destruct (Hcalm C) as [_ Hd]; destruct C as [_ C2]; split; [done|]; cbn; by rewrite C2).
  assert (i_bytes i <> []) as Hne.
  { intros Hnil. pose proof (zlen_encodeFileHeader _ Hfp) as Hl. by rewrite <-Hh, Hnil in Hl. }
  destruct (match la_opens w with [] => Ok [] | x :: _ => x end) as [faults|e] eqn:Ho.
  2:{ unfold openJournal in H. rewrite (proj2 (Z.ltb_ge (BaseSize fp) 0)) in H by apply Hfp. apply pair_equal_spec in H as [<- <-].
      split; [done|]. split; [done|]. split; [done|]. intros [_ C2]. by rewrite C2 in Ho. }
  set (f := mkFile (i_bytes i) 0 faults _) in H.
  assert (calm w -> f_faults f = []) as Hff by (intros [_ C2]; rewrite C2 in Ho; cbn; congruence).
  pose proof (openJournal_existing f path fp Hfp Hne) as Hop. pose proof (openJournal_quiet f path fp) as Hqu.
  destruct (openJournal path fp None (Ok f)) as [g r1] eqn:Hoj. destruct Hop as [(f1 & -> & _ & Hres) Hacc].
  destruct (openJournal_keeps _ _ _ _ _ Hoj Hne) as (f' & [= <-] & Hsame & Hj); [apply Hfp|].
  assert (handle_shows f1 i) as Hshows by (by eapply handle_shows_same).
  apply pair_equal_spec in H as [<- <-]. rewrite <-Ew in Hi. rewrite (write_back_same _ _ _ _ Hi Hshows).
  split; [done|]. split; [exact Hcw|]. split.
  - intros j rr ->. specialize (Hj _ _ eq_refl) as ->. destruct (Hres _ _ eq_refl) as (_ & _ & Hrr).
    exists f1. split; [done|]. split; [done|]. split; [intros C; apply (Hqu _ _ _ eq_refl Hne (Hff C) _ eq_refl)|].
    by rewrite <-(proj1 Hshows).
  - intros C. by apply (Hacc (Hff C)).
Qed.

(** ** The decision *)

(** The one journal of the base among the paths, the others moved aside. *)
Record chosen (fp : Fingerprint) (w w' : Launch) (path : FilePath) (i : inode) (j : Journal) (rr : ReplayResult) : Prop := mkChosen {
  ch_path : path ∈ paths;
  ch_inode : w_files (disk w) !! path = Some i;
  ch_header : header_of i fp;
  ch_stays : w_files (disk w') !! path = Some i;
  ch_others p : p ∈ paths -> p <> path -> (exists i' fp', w_files (disk w) !! p = Some i' /\ header_of i' fp' /\ fp' <> fp) /\ w_files (disk w') !! p = None;
  ch_journal : exists f, j = mkJournal (Some f) path /\ handle_shows f i /\ (calm w -> f_faults f = []);
  ch_replay : replay_reads (i_bytes i) fileHeaderSize [] rr None }.
End Moving.

Lemma Forall_JoinAll es : es <> [] -> Forall is_Some es -> exists e, errors_JoinAll es = Some e.
Proof using.
  intros Hne H. destruct H as [|x es [e ->] _]; [done|]. unfold errors_JoinAll. cbn. destruct (foldr _ _ es); eauto.
Qed.

Section Decision.
Variables (Join : FilePath -> list byte -> FilePath) (Glob : list byte -> gset FilePath -> Prelude.result (list FilePath)).
Variable sort_newest : list FilePath -> Launch -> Launch * list FilePath.
Variables (hex : list byte -> list byte) (sha256 : list byte -> list byte).

(** [sort.Slice] and its [os.Stat]s read only. *)
Definition sort_ok : Prop := forall ps w, (sort_newest ps w).2 ≡ₚ ps /\
  w_files (disk (sort_newest ps w).1) = w_files (disk w) /\ (calm w -> calm (sort_newest ps w).1).
Hypothesis sorts : sort_ok.

(** A journal of the base, and a readable journal of another one. *)
Definition serves_base (fp : Fingerprint) (fs : directory) (p : FilePath) : Prop := exists i, fs !! p = Some i /\ header_of i fp.
Definition serves_other (fp : Fingerprint) (fs : directory) (p : FilePath) : Prop :=
  exists i fp', fs !! p = Some i /\ header_of i fp' /\ fp' <> fp.

Lemma openMatching_spec dir fp w w' r paths :
  openMatchingJournal Join Glob sort_newest hex decimal sha256 dir fp w = (w', r) ->
  Glob (journalPattern Join hex sha256 dir fp) (dom (w_files (disk w))) = Ok paths -> List.NoDup paths -> names_ok (w_files (disk w)) paths ->
  moved (w_files (disk w)) paths (w_files (disk w')) /\ (calm w -> calm w') /\
  match r with
  | Ok (None, rr) => paths = [] /\ rr = noReplay
  | Ok (Some j, rr) => exists path i, chosen paths fp w w' path i j rr
  | Err _ => ~ (calm w /\ (paths = [] \/ exists p, p ∈ paths /\ serves_base fp (w_files (disk w)) p /\
      forall q, q ∈ paths -> q <> p -> serves_other fp (w_files (disk w)) q))
  end.
Proof using sorts.
  intros H Hglob Hnd Hnames. unfold openMatchingJournal, openMatchingJournalWith, openMatchingJournalWithQuarantine in H.
  destruct (sys_plain w) as [w1 err] eqn:Hsys. unfold sys_plain in Hsys. destruct (syscall (disk w)) as [x d] eqn:Hc.
  pose proof (call_files _ _ _ Hc) as Ef. apply pair_equal_spec in Hsys as [<- Eerr].
  assert (calm w -> err = None /\ calm (set_disk d w)) as Hcalm1.
  { intros C. destruct (calm_call _ _ _ C Hc) as (-> & ? & _). by split. }
  assert (w_files (disk (set_disk d w)) = w_files (disk w)) as E1 by (by rewrite disk_set).
  set (w1 := set_disk d w) in *. clearbody w1. clear Hc Ef d x Eerr. set (fs0 := w_files (disk w)) in *.
  assert (moved fs0 paths fs0) as M0 by apply moved_refl.
  destruct err as [e|].
  { apply pair_equal_spec in H as [<- <-]. rewrite E1. split; [done|]. split; [intros C; by apply Hcalm1|].
    intros [C _]. by destruct (Hcalm1 C). }
  rewrite E1, Hglob in H. destruct (sort_newest paths w1) as [w2 ps] eqn:Hsort.
  destruct (sorts paths w1) as (Hperm & E2 & C2). rewrite Hsort in Hperm, E2, C2. cbn [fst snd] in Hperm, E2, C2. rewrite E1 in E2.
  assert (calm w -> calm w2) as Hcalm2 by (intros C; apply C2, Hcalm1, C).
  assert (List.NoDup ps) as Hnd' by (by apply (Permutation_NoDup (symmetry Hperm))).
  assert (forall p, p ∈ ps <-> p ∈ paths) as Hin by (intros p; by rewrite Hperm).
  assert (ps ⊆ paths) as Hsub by (intros p; apply Hin).
  destruct (Z.eqb_spec (zlen ps) 0) as [Hz|Hz].
  { apply zlen_zero in Hz as ->. apply Permutation_nil in Hperm as ->. apply pair_equal_spec in H as [<- <-]. rewrite E2. by split. }
  assert (paths <> []) as Hne by (intros ->; by apply Permutation_nil_r in Hperm as ->).
  destruct (probe_loop _ fp ps [] [] w2) as [w3 [matching errs]] eqn:Hprobe.
  destruct (probe_loop_spec fs0 paths Hnames fp ps [] [] w2 w3 matching errs Hprobe) as (extra & more & -> & -> & [M3 C3 Er S3 Hd X R]);
    [by rewrite E2|done|done|]. rewrite !app_nil_l in H.
  assert (calm w -> calm w3) as Hcalm3 by auto. rewrite E2 in Hd, R.
  destruct (Z.eqb_spec (zlen more) 0) as [Hm|Hm]; cbn [negb] in H.
  2:{ destruct (Forall_JoinAll more) as [e He]; [by intros ->|done|]. rewrite He in H. apply pair_equal_spec in H as [<- <-].
      split; [done|]. split; [done|]. intros [C [?|(p & Hp & (ip & Hip & Hhp) & Hoth)]]; [done|]. apply Hm. rewrite R; [done|by apply Hcalm2|].
      rewrite Forall_forall. intros q Hq. destruct (decide (q = p)) as [->|Hqp]; [by exists ip, fp|].
      destruct (Hoth q) as (iq & fq & ? & ? & _); [by apply Hin|done|]. by exists iq, fq. }
  apply zlen_zero in Hm as ->. specialize (Hd eq_refl). rewrite (S3 eq_refl) in M3. clear R.
  assert (forall p, p ∈ extra -> serves_base fp fs0 p) as Hext.
  { intros p Hp. rewrite Forall_forall in Hd. destruct (Hd p) as (i & st & ? & ? & Hst); [by eapply elem_of_sublist|].
    exists i. split; [done|]. by rewrite <-(proj1 Hst Hp). }
  assert (forall p, p ∈ ps -> p ∉ extra -> serves_other fp fs0 p) as Hoth.
  { intros p Hp Hn. rewrite Forall_forall in Hd. destruct (Hd p Hp) as (i & st & ? & ? & Hst). exists i, st. split; [done|]. split; [done|].
    intros E. by apply Hn, Hst. }
  assert (forall p, serves_base fp fs0 p -> serves_other fp fs0 p -> False) as Hexcl.
  { intros p (i & Hi & Hh) (i' & fp' & Hi' & Hh' & Hne'). assert (i' = i) as -> by congruence. by apply Hne', (header_unique i). }
  assert (disk w3 = disk w2) as Ed3 by auto.
  assert (List.NoDup extra) as Hnde by (apply NoDup_ListNoDup; apply (sublist_NoDup _ ps); [by apply NoDup_ListNoDup|done]).
  destruct extra as [|path [|path' extra]].
  - destruct (quarantine_all _ _ _ ps w3) as [w4 es] eqn:Hq.
    destruct (quarantine_all_spec fs0 paths Hnames _ _ _ _ _ _ Hq) as (M4 & C4 & Hes & Hlen); [by rewrite Ed3, E2|done|].
    destruct (Forall_JoinAll es) as [e He]; [by intros ->; destruct ps|done|]. rewrite He in H. apply pair_equal_spec in H as [<- <-].
    split; [done|]. split; [auto|].
    intros [C [?|(p & Hp & Hb & _)]]; [done|]. apply (Hexcl p Hb), Hoth; [by apply Hin|]. by intros ?%elem_of_nil.
  - assert (path ∈ ps) as Hps by (by apply (elem_of_sublist _ _ _ (proj2 (list_elem_of_singleton path path) eq_refl))).
    assert (path ∈ paths) as Hpath by (by apply Hin).
    destruct (retire_loop _ path ps w3) as [w4 es] eqn:Hrl.
    destruct (retire_loop_spec fs0 paths Hnames path ps w3 w4 es Hrl) as [M4 C4 Hes K4 _ G4 A4]; [by rewrite Ed3, E2|done|done|done|].
    rewrite Ed3, E2 in K4.
    destruct (Z.eqb_spec (zlen es) 0) as [Hm|Hm]; cbn [negb] in H.
    2:{ destruct (Forall_JoinAll es) as [e He]; [by intros ->|done|]. rewrite He in H. apply pair_equal_spec in H as [<- <-].
        split; [done|]. split; [auto|]. intros [C _]. apply Hm. rewrite A4; [done|auto|]. rewrite Forall_forall. intros q Hq.
        rewrite Ed3, E2. apply Hnames. by apply Hin. }
    apply zlen_zero in Hm as ->. specialize (G4 eq_refl). clear A4.
    destruct (Hext path) as (i & Hi & Hh); [by left|]. rewrite Hi in K4.
    destruct (recovery_Open path fp w4) as [w5 opened] eqn:Hop.
    destruct (recovery_Open_spec _ _ _ _ _ _ Hop K4 Hh) as (E5 & C5 & Hok & Hacc).
    assert (moved fs0 paths (w_files (disk w5))) as M5 by (by rewrite E5). destruct opened as [[j rr]|e].
    + apply pair_equal_spec in H as [<- <-]. split; [done|]. split; [auto|]. exists path, i.
      destruct (Hok _ _ eq_refl) as (f & -> & Hf & Hff & Hrr). split; try done.
      * by rewrite E5.
      * intros p Hp Hpp. split; [|rewrite E5; rewrite Forall_forall in G4; apply G4; [by apply Hin|done]].
        apply Hoth; [by apply Hin|]. by intros ?%list_elem_of_singleton.
      * exists f. split; [done|]. split; [done|]. intros C. apply Hff, C4. auto.
    + destruct (quarantineRecovery decimal path openFailed e w5) as [w6 qe] eqn:Hq.
      destruct (quarantine_spec fs0 paths Hnames _ _ _ _ _ _ Hq M5 Hpath) as [[M6 _ C6] (e' & -> & _)].
      apply pair_equal_spec in H as [<- <-]. split; [done|]. split; [auto|]. intros [C _].
      destruct Hacc as [? ?]; [apply C4; auto|done].
  - destruct (quarantine_all _ _ _ (path :: path' :: extra) w3) as [w4 es] eqn:Hq.
    assert (path :: path' :: extra ⊆ paths) as Hsub2 by (intros p Hp; apply Hsub; by eapply elem_of_sublist).
    destruct (quarantine_all_spec fs0 paths Hnames _ _ _ _ _ _ Hq) as (M4 & C4 & Hes & Hlen); [by rewrite Ed3, E2|done|].
    destruct (Forall_JoinAll es) as [e He]; [by intros ->|done|]. rewrite He in H. apply pair_equal_spec in H as [<- <-].
    split; [done|]. split; [auto|]. intros [C [?|(p & Hp & Hb & Hall)]]; [done|].
    apply NoDup_ListNoDup in Hnde. apply NoDup_cons in Hnde as [Hnot _].
    assert (path <> path') as Hpp by (intros ->; apply Hnot; by left).
    assert (path = p) as -> by (destruct (decide (path = p)) as [|Hx]; [done|]; destruct (Hexcl path); [apply Hext; by left|apply Hall; [apply Hsub2; by left|done]]).
    destruct (Hexcl path'); [apply Hext; by right; left|apply Hall; [apply Hsub2; by right; left|done]].
Qed.
End Decision.
End Matching.
