(* ===== verification/LaunchBase.v ===== *)
(** * Opening the base file

    [open_base] of Launch on a disk: a session is opened only on a valid text, whose
    file is left as it was; and on a calm disk every valid text is opened. *)

From Stdlib Require Import ZArith Lia List.
From stdpp Require Import base list numbers gmap.
From S2P Require Import Prelude GoLib Store File Journal Utf8 Options Effects Scan TreeText Save SysFiles Launch LaunchJournal.
#[local] Open Scope Z_scope.

(** ** Computations that do the same *)

(** From related states both return the same and end in related states. *)
Definition sims {W V A} (R : W -> V -> Prop) (c : W -> W * A) (d : V -> V * A) : Prop :=
  forall w v, R w v -> R (c w).1 (d v).1 /\ (c w).2 = (d v).2.

Section Sims.
Context {W V : Type} (R : W -> V -> Prop).

Lemma sims_ret {A} (a : A) : sims R (eff_ret a) (eff_ret a).
Proof using. by intros w v H. Qed.
Lemma sims_fail {A} e : sims R (@eff_fail W A e) (eff_fail e).
Proof using. by intros w v H. Qed.
Lemma sims_lift {A} (r : Prelude.result A) : sims R (eff_lift r) (eff_lift r).
Proof using. by intros w v H. Qed.
Lemma sims_bind {A B} (c : Eff W A) (d : Eff V A) (f : A -> Eff W B) (g : A -> Eff V B) :
  sims R c d -> (forall a, sims R (f a) (g a)) -> sims R (eff_bind c f) (eff_bind d g).
Proof using.
  intros Hc Hf w v H. unfold eff_bind. destruct (Hc _ _ H) as [H1 E]. destruct (c w) as [w1 [a|e]], (d v) as [v1 r]; cbn in *; subst r; [|done].
  by apply Hf.
Qed.
(** As above, for a first result of which something is known. *)
Lemma sims_bind_known {A B} (P : A -> Prop) (c : Eff W A) (d : Eff V A) (f : A -> Eff W B) (g : A -> Eff V B) :
  sims R c d -> (forall v a, (d v).2 = Ok a -> P a) -> (forall a, P a -> sims R (f a) (g a)) -> sims R (eff_bind c f) (eff_bind d g).
Proof using.
  intros Hc HP Hf w v H. unfold eff_bind. destruct (Hc _ _ H) as [H1 E]. specialize (HP v).
  destruct (c w) as [w1 [a|e]], (d v) as [v1 r]; cbn in *; subst r; [|done]. apply Hf; auto.
Qed.
Lemma sims_call (c : W -> W * option error) (d : V -> V * option error) : sims R c d -> sims R (eff_call c) (eff_call d).
Proof using. intros Hc w v H. unfold eff_call. destruct (Hc _ _ H). destruct (c w), (d v). cbn in *. by subst. Qed.
Lemma sims_ok {A} (c : W -> W * A) (d : V -> V * A) :
  sims R c d -> sims R (fun w => let '(w, r) := c w in (w, Ok r)) (fun v => let '(v, r) := d v in (v, Ok r)).
Proof using. intros Hc w v H. destruct (Hc _ _ H). destruct (c w), (d v). cbn in *. by subst. Qed.
Lemma sims_if {A} (b : bool) (c1 c2 : W -> W * A) (d1 d2 : V -> V * A) :
  sims R c1 d1 -> sims R c2 d2 -> sims R (if b then c1 else c2) (if b then d1 else d2).
Proof using. by destruct b. Qed.

Context (poll : W -> W * option error) (poll' : V -> V * option error) (f : readStatFile W) (f' : readStatFile V).
Hypothesis polls : sims R poll poll'.
Hypothesis read : forall n off, sims R (rf_ReadAt f n off) (rf_ReadAt f' n off).

Lemma sims_read_loop {A} (feed : list byte -> A -> Prelude.result A) size fuel : forall offset a,
  sims R (read_loop poll f fuel feed size offset a) (read_loop poll' f' fuel feed size offset a).
Proof using polls read.
  induction fuel as [|fuel IH]; intros offset a; cbn [read_loop]; [apply sims_ret|]. apply sims_if; [apply sims_ret|].
  apply sims_bind; [by apply sims_call|]. intros _. cbv zeta.
  apply sims_bind; [apply sims_ok, read|]. intros [value readErr]. apply sims_bind; [apply sims_lift|]. intros a'.
  destruct readErr; repeat apply sims_if; try apply sims_fail; apply IH.
Qed.

Context (path : list byte) (stat : list byte -> Eff W FileInfo) (stat' : list byte -> Eff V FileInfo).
Context (capture : readStatFile W -> FileInfo -> Eff W fileChangeStamp) (capture' : readStatFile V -> FileInfo -> Eff V fileChangeStamp).
Context (sha256 : list byte -> list byte) (P : FileInfo -> Prop).
Hypothesis stats : sims R (stat path) (stat' path).
Hypothesis file_stats : sims R (rf_Stat f) (rf_Stat f').
Hypothesis known : forall v info, (rf_Stat f' v).2 = Ok info -> P info.
Hypothesis captures : forall info, P info -> sims R (capture f info) (capture' f' info).

Lemma sims_scan initial : P initial ->
  sims R (scanOpenedBaseWithChange poll f path stat capture sha256 initial) (scanOpenedBaseWithChange poll' f' path stat' capture' sha256 initial).
Proof using polls read stats file_stats known captures.
  intros HP. unfold scanOpenedBaseWithChange. apply sims_if; [apply sims_fail|]. apply sims_bind; [by apply captures|]. intros c1.
  apply sims_bind; [apply sims_read_loop|]. intros st. apply sims_bind; [apply sims_lift|]. intros st'. apply sims_if; [apply sims_fail|].
  apply sims_bind; [by apply sims_call|]. intros _. apply sims_bind; [done|]. intros pathInfo.
  apply (sims_bind_known P); [done|exact known|]. intros final Hf. apply sims_bind; [by apply captures|]. intros c2.
  apply sims_if; [apply sims_fail|apply sims_ret].
Qed.
End Sims.

(** ** On a disk *)

Section Disk.
Context (sha256 : list byte -> list byte) (describe : inode -> FileInfo) (stampOf : FileInfo -> Prelude.result fileChangeStamp) (ctx : Context).

(** The files stay, and on a calm disk nothing fails. *)
Definition same_files (fs : directory) (w v : Launch) : Prop := w = v /\ w_files (disk w) = fs.
Definition calm_files (fs : directory) (w : Launch) (_ : unit) : Prop := calm w /\ w_files (disk w) = fs.

Lemma keeps_files {A} fs (c : Launch -> Launch * A) : (forall w, w_files (disk (c w).1) = w_files (disk w)) -> sims (same_files fs) c c.
Proof using. intros Hc w v [<- Hw]. split; [split; [done|]|done]. by rewrite Hc. Qed.

Lemma stays_calm {A} fs (c : Launch -> Launch * A) (a : A) :
  (forall w, calm w -> w_files (disk w) = fs -> calm (c w).1 /\ w_files (disk (c w).1) = fs /\ (c w).2 = a) -> sims (calm_files fs) c (fun v => (v, a)).
Proof using. intros Hc w v [H1 H2]. destruct (Hc w H1 H2) as (? & ? & ?). by split. Qed.

Lemma read_files i n off w : w_files (disk (rf_ReadAt (open_file describe i) n off w).1) = w_files (disk w).
Proof using. cbn. destruct (syscall (la_disk w)) as [x d] eqn:E. exact (call_files w x d E). Qed.
Lemma stat_file_files i w : w_files (disk (rf_Stat (open_file describe i) w).1) = w_files (disk w).
Proof using. cbn. destruct (syscall (la_disk w)) as [x d] eqn:E. exact (call_files w x d E). Qed.
Lemma stat_files path (w : Launch) : w_files (disk (sys_stat describe path w).1) = w_files (disk w).
Proof using. unfold sys_stat. destruct (syscall (disk w)) as [x d] eqn:E. cbn [fst]. rewrite disk_set. by eapply call_files. Qed.
Lemma open_files path (w : Launch) : w_files (disk (sys_openBase path w).1) = w_files (disk w).
Proof using. unfold sys_openBase. destruct (syscall (disk w)) as [x d] eqn:E. cbn [fst]. rewrite disk_set. by eapply call_files. Qed.
Lemma plain_files (w : Launch) : w_files (disk (sys_plain w).1) = w_files (disk w).
Proof using. unfold sys_plain. destruct (syscall (disk w)) as [x d] eqn:E. cbn [fst]. rewrite disk_set. by eapply call_files. Qed.

(** A file as it is without faults. *)
Definition quiet_file (i : inode) : readStatFile unit :=
  mkReadStatFile unit (fun n off v => (v, bytes_NewReader (i_bytes i) off n)) (fun v => (v, Ok (describe i))).

Lemma calm_syscall (w : Launch) : calm w -> exists d, syscall (disk w) = (NoFault, d) /\ calm (set_disk d w) /\ w_files d = w_files (disk w).
Proof using. intros C. destruct (syscall (disk w)) as [x d] eqn:E. destruct (calm_call _ _ _ C E) as (-> & ? & ?). eauto. Qed.

Lemma open_file_calm fs i n off : sims (calm_files fs) (rf_ReadAt (open_file describe i) n off) (rf_ReadAt (quiet_file i) n off).
Proof using. apply stays_calm. intros w C F. cbn. destruct (calm_syscall w C) as (d & E & C' & F'). change (la_disk w) with (disk w). rewrite E. cbn. by rewrite <-F, <-F'. Qed.
Lemma file_Stat_calm fs i : sims (calm_files fs) (rf_Stat (open_file describe i)) (rf_Stat (quiet_file i)).
Proof using. apply stays_calm. intros w C F. cbn. destruct (calm_syscall w C) as (d & E & C' & F'). change (la_disk w) with (disk w). rewrite E. cbn. by rewrite <-F, <-F'. Qed.
Lemma sys_stat_calm fs path i : fs !! path = Some i -> sims (calm_files fs) (sys_stat describe path) (fun v => (v, Ok (describe i))).
Proof using.
  intros Hi. apply stays_calm. intros w C F. unfold sys_stat. destruct (calm_syscall w C) as (d & E & C' & F'). rewrite E. cbn [fst snd].
  rewrite disk_set, F', F, Hi. by split.
Qed.
Lemma poll_calm fs : (forall n, ctx n = None) -> sims (calm_files fs) (launch_context ctx) (fun v => (v, None)).
Proof using. intros Ha. apply stays_calm. intros w C F. cbn. by rewrite Ha. Qed.

Lemma launch_file_serves i : serves (open_file describe i : readStatFile Launch) (i_bytes i).
Proof using.
  intros n off w Hn Ho. cbn. destruct (syscall (la_disk w)) as [x d].
  assert (zlen (bytes_NewReader (i_bytes i) off n).1 <= n /\ (bytes_NewReader (i_bytes i) off n).1 = slice off (zlen (bytes_NewReader (i_bytes i) off n).1) (i_bytes i)) as Hr.
  { unfold bytes_NewReader. rewrite (proj2 (Z.ltb_ge off 0)) by done. destruct (_ <=? off); cbn [fst]; [split; [done|by rewrite slice_nil_len]|].
    unfold slice. rewrite zlen_ztake. split; [lia|]. destruct (Z.le_gt_cases n (zlen (zdrop off (i_bytes i)))); [f_equal; lia|]. rewrite !ztake_all by lia. done. }
  destruct x as [|k e|k]; cbn [fst snd]; [done| |done]. unfold slice. rewrite ztake_ztake, zlen_ztake. split; [lia|].
  generalize (zdrop off (i_bytes i)) as l. intros l. destruct (Z.le_gt_cases (Z.min k n) (zlen l)); [|by rewrite !ztake_all by lia].
  pose proof (zlen_nonneg l). unfold ztake. f_equal. lia.
Qed.

Hypothesis describe_size : forall i, fi_Size (describe i) = zlen (i_bytes i).

Lemma launch_openBase_spec path (w w' : Launch) r :
  sys_openBase path w = (w', r) ->
  w_files (disk w') = w_files (disk w) /\ (forall i, r = Ok i -> w_files (disk w) !! path = Some i) /\
  (forall i, calm w -> w_files (disk w) !! path = Some i -> calm w' /\ r = Ok i).
Proof using.
  intros H. pose proof (open_files path w) as F. rewrite H in F. split; [exact F|]. unfold sys_openBase in H.
  destruct (syscall (disk w)) as [x d] eqn:E. pose proof (call_files _ _ _ E) as Fd. rewrite Fd in H. apply pair_equal_spec in H as [<- <-]. split.
  - intros i. destruct x; [|done|]; by destruct (w_files (disk w) !! path) as [j|]; [intros [= ->]|].
  - intros i C Hi. destruct (calm_call _ _ _ C E) as (-> & ? & _). by rewrite Hi.
Qed.

Lemma launch_Stat_spec i (w w' : Launch) r :
  rf_Stat (open_file describe i) w = (w', r) ->
  w_files (disk w') = w_files (disk w) /\ (forall info, r = Ok info -> info = describe i) /\ (calm w -> calm w' /\ r = Ok (describe i)).
Proof using.
  intros H. pose proof (stat_file_files i w) as F. rewrite H in F. split; [exact F|]. split.
  - intros info ->. cbn in H. destruct (syscall (la_disk w)) as [x d]. apply pair_equal_spec in H as [_ H]. destruct x; congruence.
  - intros C. pose proof (file_Stat_calm (w_files (disk w)) i w tt (conj C eq_refl)) as [[C' _] E]. rewrite H in C', E. by split.
Qed.

Lemma quiet_plain i : plain (fun v : unit => (v, None)) (quiet_file i) (i_bytes i).
Proof using.
  split; [done|]. intros n off v Hn Ho Hle. cbn. unfold bytes_NewReader. rewrite (proj2 (Z.ltb_ge off 0)) by lia.
  rewrite (proj2 (Z.leb_gt _ off)) by lia. unfold slice. rewrite zlen_ztake, zlen_zdrop. by rewrite (proj2 (Z.ltb_ge _ n)) by lia.
Qed.

(** The scan of the open file. *)
Abbreviation scan i path := (scanOpenedBaseWithChange (launch_context ctx) (open_file describe i) path (sys_stat describe) (captureChange stampOf) sha256).

Lemma scan_safe i path (w w' : Launch) r :
  scan i path (describe i) w = (w', r) -> zlen (i_bytes i) <= maxInt64 ->
  w_files (disk w') = w_files (disk w) /\
  forall b, r = Ok b -> utf8_Valid (text_of (i_bytes i)) = true /\ b = scan_of (i_bytes i) sha256 (zlen (i_bytes i)).
Proof using describe_size.
  intros H Hmax. split.
  - assert (sims (same_files (w_files (disk w))) (scan i path (describe i)) (scan i path (describe i))) as Hs.
    { apply (sims_scan _ _ _ _ _) with (P := fun _ => True); try done; intros; apply keeps_files; intros v; try done;
        [apply read_files|apply stat_files|apply stat_file_files]. }
    destruct (Hs w w) as [[_ F] _]; [by split|]. by rewrite H in F.
  - intros b ->. pose proof (scanOpenedBase_spec (launch_context ctx) (open_file describe i) (i_bytes i) path (sys_stat describe)
      (captureChange stampOf) sha256 (describe i) w w' _ (launch_file_serves i) ltac:(by rewrite describe_size) H) as [Hok _].
    destruct (Hok b eq_refl) as (_ & Hv & ->). rewrite describe_size in *. rewrite ztake_all in Hv by lia. by split.
Qed.

Lemma scan_calm i path (w w' : Launch) r stamp :
  scan i path (describe i) w = (w', r) -> zlen (i_bytes i) <= maxInt64 -> calm w -> (forall n, ctx n = None) ->
  w_files (disk w) !! path = Some i -> stampOf (describe i) = Ok stamp -> utf8_Valid (text_of (i_bytes i)) = true ->
  calm w' /\ exists b, r = Ok b.
Proof using describe_size.
  intros H Hmax C Ha Hi Hst Hv. set (quiet := fun v : unit => (v, None : option error)).
  set (pure := scanOpenedBaseWithChange quiet (quiet_file i) path (fun _ v => (v, Ok (describe i))) (fun _ _ v => (v, Ok stamp)) sha256).
  assert (sims (calm_files (w_files (disk w))) (scan i path (describe i)) (pure (describe i))) as Hs.
  { apply (sims_scan _ _ _ _ _) with (P := fun info => info = describe i); try done.
    - by apply poll_calm.
    - intros n off. apply open_file_calm.
    - by apply sys_stat_calm.
    - apply file_Stat_calm.
    - intros v info. by intros [= <-].
    - intros info ->. apply stays_calm. intros v Cv Fv. unfold captureChange, eff_lift. by rewrite Hst. }
  destruct (Hs w tt) as [[C' _] E]; [by split|]. rewrite H in C', E. cbn [fst snd] in *. split; [done|].
  destruct (pure (describe i) tt) as [u r'] eqn:Hp. cbn [snd] in E. subst r'.
  assert (serves (quiet_file i) (i_bytes i)) as Hserve.
  { intros n off v Hn Ho. pose proof (launch_file_serves i n off w Hn Ho) as Hso. pose proof (open_file_calm (w_files (disk w)) i n off w v) as [_ E].
    { by split. } rewrite E in Hso. exact Hso. }
  pose proof (scanOpenedBase_spec quiet (quiet_file i) (i_bytes i) path _ _ sha256 (describe i) tt u r Hserve ltac:(by rewrite describe_size) Hp) as [_ Hok].
  specialize (Hok stamp (quiet_plain i) (conj (fun _ => eq_refl) (conj (fun _ => eq_refl) (fun _ _ => eq_refl)))).
  pose proof (zlen_nonneg (i_bytes i)). rewrite describe_size, ztake_all, Hv in Hok by lia. eexists. apply Hok. lia.
Qed.

(** What is known of the base that was opened. *)
Record base_opened (fs : directory) (resolved : FilePath) (i : inode) (info : FileInfo) (b : baseScan) : Prop := mkBaseOpened {
  bo_inode : fs !! resolved = Some i;
  bo_info : info = describe i;
  bo_regular : fi_Regular info = true;
  bo_utf8 : utf8_Valid (text_of (i_bytes i)) = true;
  bo_scan : b = scan_of (i_bytes i) sha256 (zlen (i_bytes i)) }.

Lemma open_base_spec resolved w w' r :
  open_base sha256 describe stampOf ctx resolved w = (w', r) -> (forall i, w_files (disk w) !! resolved = Some i -> zlen (i_bytes i) <= maxInt64) ->
  w_files (disk w') = w_files (disk w) /\
  (forall i info b, r = Ok (i, info, b) -> base_opened (w_files (disk w)) resolved i info b) /\
  (forall i stamp, calm w -> (forall n, ctx n = None) -> w_files (disk w) !! resolved = Some i -> fi_Regular (describe i) = true ->
     stampOf (describe i) = Ok stamp -> utf8_Valid (text_of (i_bytes i)) = true -> calm w' /\ exists b, r = Ok (i, describe i, b)).
Proof using describe_size.
  intros H Hmax. unfold open_base in H. destruct (sys_openBase resolved w) as [w1 base] eqn:Hb.
  destruct (launch_openBase_spec _ _ _ _ Hb) as (F1 & O1 & C1).
  destruct base as [i|e]; [specialize (O1 i eq_refl); specialize (Hmax _ O1)
    |apply pair_equal_spec in H as [<- <-]; split; [done|]; split; [done|]; intros i stamp C _ Hi; by destruct (C1 i C Hi)].
  destruct (rf_Stat (open_file describe i) w1) as [w2 info] eqn:Hs. destruct (launch_Stat_spec _ _ _ _ Hs) as (F2 & O2 & C2).
  assert (forall (e : error) (v : Launch), w_files (disk (sys_plain v).1) = w_files (disk v)) as Fp by (intros; apply plain_files).
  assert (forall j, w_files (disk w) !! resolved = Some j -> j = i) as Hj by congruence.
  destruct info as [info|e]; [specialize (O2 _ eq_refl); subst info
    |apply pair_equal_spec in H as [<- <-]; rewrite (Fp e), F2, F1; split; [done|]; split; [done|]; intros j stamp C _ Hi; destruct (C1 j C Hi) as [C' _]; by destruct (C2 C')].
  destruct (negb (fi_Regular (describe i))) eqn:Hreg.
  { apply pair_equal_spec in H as [<- <-]. rewrite (Fp notRegular), F2, F1. split; [done|]. split; [done|]. intros j stamp _ _ Hi Hr.
    apply Hj in Hi as ->. by rewrite Hr in Hreg. }
  apply negb_false_iff in Hreg. destruct (scan i resolved (describe i) w2) as [w3 rs] eqn:Hsc.
  destruct (scan_safe _ _ _ _ _ Hsc Hmax) as (F3 & O3).
  assert (forall stamp, calm w -> (forall n, ctx n = None) -> stampOf (describe i) = Ok stamp -> utf8_Valid (text_of (i_bytes i)) = true ->
    calm w3 /\ exists b, rs = Ok b) as C3.
  { intros stamp C Ha Hst Hv. destruct (C1 i C O1) as [Cw1 _]. destruct (C2 Cw1) as [Cw2 _].
    eapply scan_calm; try eassumption. by rewrite F2, F1. }
  destruct rs as [b|e]; apply pair_equal_spec in H as [<- <-].
  - rewrite F3, F2, F1. split; [done|]. split.
    + intros i' info b' [= <- <- <-]. destruct (O3 b eq_refl) as [Hv ->]. by split.
    + intros j stamp C Ha Hi _ Hst Hv. apply Hj in Hi as ->. destruct (C3 stamp C Ha Hst Hv) as [Cw _]. split; [done|]. by eexists.
  - rewrite (Fp e), F3, F2, F1. split; [done|]. split; [done|]. intros j stamp C Ha Hi _ Hst Hv. apply Hj in Hi as ->.
    by destruct (C3 stamp C Ha Hst Hv) as [_ [b ?]].
Qed.
End Disk.
