(* ===== verification/LaunchSession.v ===== *)
(** * What opening a session gives

    The journal of a crashed session is replayed into a session that stands where
    the log ends, its torn end cut off; without a journal the session shows its
    file. *)

From Stdlib Require Import ZArith Lia List.
From stdpp Require Import base list numbers gmap.
From S2P Require Import Prelude GoLib Store File Journal ChangeMap ChangeHistory Events UndoStore Utf8 Options Effects Scan TreeText JournalText Session SessionText SessionHistory SessionEdit Editor SessionRecovery SessionPending SessionReplay Compaction Save SysFiles Rebase Commit CommitCheck CommitBase Launch LaunchJournal.
#[local] Open Scope Z_scope.

Lemma logs_revision xs : forall doc revision, logs_ok doc revision xs -> revision <= maxUint64 -> revision + log_edits xs <= maxUint64.
Proof.
  induction xs as [|x xs IH]; intros doc revision H Hr; [cbn; lia|]. destruct H as (Hl & _ & Hb & _ & H). cbn [log_edits].
  pose proof (bo_rev _ _ _ Hb). specialize (IH _ _ H ltac:(lia)). lia.
Qed.

(** The end of a journal that is no batch is cut off. *)
Lemma RepairTail_tail f path a rest j e :
  RepairTail (mkJournal (Some f) path) (zlen a) = (j, e) -> f_bytes f = a ++ rest -> fileHeaderSize <= zlen a ->
  (exists g, j = mkJournal (Some g) path /\ (e = None -> f_bytes g = a) /\ (f_faults f = [] -> f_faults g = [])) /\
  (f_faults f = [] -> e = None).
Proof.
  unfold RepairTail. cbn [j_file]. intros H Hf Ha. rewrite (proj2 (Z.ltb_ge _ _)) in H by done.
  destruct (file_Truncate f (zlen a)) as [g e'] eqn:Ht. injection H as <- <-. unfold file_Truncate in Ht.
  destruct (next_fault f) as [x f1] eqn:Hx. destruct (next_fault_bytes _ _ _ Hx) as (Hb & _ & Hnf).
  assert (ztake (zlen a) (pad_to (zlen a) (f_bytes f1)) = a) as Hz.
  { unfold pad_to. rewrite Hb, Hf, zlen_app. pose proof (zlen_nonneg rest).
    replace (Z.to_nat (zlen a - (zlen a + zlen rest))) with 0%nat by lia. cbn. rewrite app_nil_r. by apply ztake_app. }
  split; [exists g; split; [done|]|].
  - destruct x; injection Ht as <- <-; cbn [f_bytes f_faults]; (split; [done|]); intros Hff; by destruct (Hnf Hff).
  - intros Hff. destruct (Hnf Hff) as [-> _]. by injection Ht as _ <-.
Qed.

Lemma Size_bytes f path j r :
  Journal.Size (mkJournal (Some f) path) = (j, r) ->
  (exists g, j = mkJournal (Some g) path /\ f_bytes g = f_bytes f /\ (f_faults f = [] -> f_faults g = [])) /\ (f_faults f = [] -> exists n, r = Ok n).
Proof.
  unfold Journal.Size. cbn [j_file]. destruct (file_Stat f) as [g size] eqn:Hs. destruct (file_Stat_spec _ _ _ Hs) as (Hb & _ & Hn).
  intros H. assert (j = mkJournal (Some g) path /\ r = size) as [-> ->] by (destruct size; by injection H as <- <-).
  split; [exists g; split; [done|]; split; [done|]; intros Hf; by destruct (Hn Hf)|]. intros Hf. destruct (Hn Hf) as [-> _]. eauto.
Qed.

(** ** The session before and after the replay *)

(** A session that shows its base file; [data] is its journal file. *)
Record fresh (base data doc : list byte) (s : Session) : Prop := mkFresh {
  fr_config : config_ok (s_config s);
  fr_fingerprint : fingerprint_ok (s_fingerprint s);
  fr_text : holds (texts base data) (s_tree s) doc;
  fr_pieces : Forall (fun p => p_Source p = SourceBase) (pieces (t_root (s_tree s)));
  fr_utf8 : utf8_Valid doc = true;
  fr_stacks : s_pending s = [] /\ s_undo s = [] /\ s_redo s = [];
  fr_revision : s_revision s = 0 /\ s_committedRevision s = 0 /\ s_dirty s = false /\ s_undoEpoch s = 0;
  fr_store : store_ok (s_undoStore s) }.

(** A session at the end of the log [xs] of its journal, whose bytes are [data]. *)
Record caught_up (base data doc : list byte) (xs : list logged) (fp : Fingerprint) (s : Session) : Prop := mkCaughtUp {
  cu_config : config_ok (s_config s);
  cu_fingerprint : fingerprint_ok (s_fingerprint s) /\ s_fingerprint s = fp;
  cu_data : session_data s = data;
  cu_open : journal_open s;
  cu_text : holds (texts base data) (s_tree s) (apply_logs xs doc);
  cu_utf8 : utf8_Valid (apply_logs xs doc) = true;
  cu_revision : in_u64 (s_revision s);
  cu_store : store_ok (s_undoStore s) /\ in_u64 (s_undoEpoch s);
  cu_log : indexed doc xs s (apply_logs xs doc);
  cu_recovered : xs <> [] -> s_recovered s = true;
  cu_history : s_undoEpoch s = 0 -> exists past, retraced s past (apply_logs xs doc) }.

(** A session that has just been opened. *)
Record opened (base data doc : list byte) (xs : list logged) (fp : Fingerprint) (v : Versions) (s : Session) : Prop := mkOpened {
  od_ok : session_ok base s v;
  od_now : v_now v = apply_logs xs doc /\ v_future v = [];
  od_indexed : indexed doc xs s (v_now v);
  od_data : session_data s = data;
  od_fingerprint : s_fingerprint s = fp;
  od_recovered : xs <> [] -> s_recovered s = true }.

Lemma base_tree_pieces r p t : NewWithBasePiece r p = Ok t -> Forall (fun q => p_Source q = SourceBase) (pieces (t_root t)).
Proof.
  unfold NewWithBasePiece, NewWithBasePieceOptions. destruct (resolveOptions _) as [a|]; [|done]. cbn [res_bind].
  set (q := normalizePiece _). destruct (validatePiece q); [done|]. destruct (_ && _); [done|].
  destruct (0 <? p_Length q); [|intros E; injection E as <-; constructor]. intros E. injection E as <-. apply Forall_singleton.
  unfold q, normalizePiece. cbn. by destruct (p_NewlinesKnown p).
Qed.

Lemma finish_frame takes s :
  let s' := open_finish takes s in
  s_config s' = s_config s /\ s_fingerprint s' = s_fingerprint s /\ s_tree s' = s_tree s /\ s_journal s' = s_journal s /\
  s_revision s' = s_revision s /\ s_committedRevision s' = s_committedRevision s /\ s_dirty s' = s_dirty s /\ s_recovered s' = s_recovered s /\
  s_pending s' = s_pending s /\ s_undo s' = s_undo s /\ s_redo s' = s_redo s /\ s_undoStore s' = s_undoStore s /\ s_undoEpoch s' = s_undoEpoch s /\
  s_changeHistory s' = newChangeHistory (Options.ChangeHistory (Limits (s_config s))) (s_revision s) (Tree_Len (s_tree s)).
Proof.
  unfold open_finish. destruct (s_recovered _) eqn:E; unfold maybeScheduleJournalCheckpointLocked; destruct (_ || _); split_and!; first [done|exact E].
Qed.

Lemma finish_opened takes base data doc xs fp s :
  caught_up base data doc xs fp s -> s_undoEpoch s = 0 -> exists v, opened base data doc xs fp v (open_finish takes s).
Proof.
  intros [Hc [Hfp <-] <- Ho Ht Hv Hr [Hs He] Hix Hrec Hh] H0. destruct (Hh H0) as (past & [Hu Hre Hap]). exists (mkVersions past (apply_logs xs doc) []).
  pose proof (finish_frame takes s) as F. cbv zeta in F. destruct F as (F1 & F2 & F3 & F4 & F5 & F6 & F7 & F8 & F9 & F10 & F11 & F12 & F13 & F14).
  assert (session_data (open_finish takes s) = session_data s) as Ed by (unfold session_data; by rewrite F4).
  destruct (holds_length _ _ _ Ht) as [Hlen Hmax]. split.
  - split; cbn [v_now v_past v_future].
    + split; rewrite ?F1, ?F2, ?F3, ?F5, ?F12, ?F13, ?Ed; try done. intros j. rewrite F4. apply Ho.
    + rewrite F14. apply newChangeHistory_ok; [|rewrite Hlen; pose proof (zlen_nonneg (apply_logs xs doc)); lia].
      destruct Hc as [[] _]. lia.
    + by rewrite F14, F5.
    + by rewrite F14.
    + by rewrite F10, F12.
    + rewrite F11, Hre. constructor.
    + by rewrite F10, F11, Hre, app_nil_r.
  - done.
  - destruct Hix. split; cbn [v_now]; rewrite ?Ed, ?F5, ?F6, ?F7, ?F9; done.
  - done.
  - done.
  - by rewrite F8.
Qed.

Lemma fresh_caught_up base data doc s :
  fresh base data doc s -> session_data s = data -> journal_open s -> caught_up base data doc [] (s_fingerprint s) s.
Proof.
  intros [Hc Hfp Ht _ Hv (Hp & Hu & Hre) (Er & Ec & Ed & Ee) Hs] Hd Ho. split; try done.
  - rewrite Er. go_lia.
  - split; [done|]. rewrite Ee. go_lia.
  - split; rewrite ?Er, ?Ec, ?Ed, ?Hp; try done; [constructor|cbn; apply zlen_nonneg].
  - intros _. exists []. split; rewrite ?Hu; [constructor|done|apply apart_refs_nil].
Qed.

(** A replay keeps a clean session clean. *)
Lemma replay_clean journal_reads base data rr xs doc revision s k s' k' :
  (forall bytes, ReaderOk (journal_reads bytes) bytes) ->
  replay journal_reads rr s k = (s', k', Ok tt) -> recovering base data doc s -> Forall2 (batch_in data) (rr_Batches rr) xs ->
  zlen data <= maxInt64 -> logs_ok doc revision xs -> 0 <= revision -> recovery_clean s -> recovery_clean s'.
Proof.
  intros Hreads H Hg Hx Hmax Hlog H0 Hcl. unfold replay in H. split_ok H. destruct a.
  pose proof (replay_batches_spec _ Hreads base _ _ _ _ _ _ _ _ _ _ _ Hc Hg Hx Hmax Hlog H0 ltac:(done)) as (_ & _ & Hk & _).
  specialize (Hk Hcl). destruct (0 <? _); injection H as <- <-; exact Hk.
Qed.

Section Replaying.
Context (journal_reads : list byte -> ReaderAt) (reads_ok : forall data, ReaderOk (journal_reads data) data).
Context (base doc : list byte) (fp : Fingerprint) (revision : Z) (xs : list logged) (rest : list byte).
Abbreviation log := (encodeFileHeader fp ++ encodeAll xs).
Hypothesis logs : logs_ok doc revision xs.
Hypothesis groups : Forall (fun x => l_group x = l_rev x) xs.
Hypothesis revision_ok : 0 <= revision <= maxUint64.
Hypothesis tail : no_batch rest.
Hypothesis size : zlen (log ++ rest) <= maxInt64.

(** What the journal was read as. *)
Lemma log_read rr :
  fingerprint_ok fp -> replay_reads (log ++ rest) fileHeaderSize [] rr None ->
  rr_Batches rr = locatedAll (zlen (encodeFileHeader fp)) xs /\ rr_ValidBytes rr = zlen log /\ rr_Truncated rr = negb (zlen rest =? 0).
Proof using logs tail size.
  intros Hfp (ys & rest' & Hys & Hdrop & Hb & Hv & Hrest & Ht). assert (zlen (encodeFileHeader fp) = fileHeaderSize) as Hh by (by apply zlen_encodeFileHeader).
  assert (zdrop fileHeaderSize (log ++ rest) = encodeAll xs ++ rest) as Hz by (rewrite <-app_assoc; by apply zdrop_app).
  rewrite Hz in Hdrop.
  destruct (reading_unique xs ys rest rest' fileHeaderSize (logs_ok_logged _ _ _ logs) Hys tail Hrest Hdrop) as (E1 & -> & E3).
  rewrite Hh. split; [by rewrite Hb, E3|]. split; [by rewrite Hv, E1, zlen_app, Hh|done].
Qed.

(** The journal's handle is replaced by one on the log alone. *)
Lemma cut_journal s g path :
  holds (texts base (log ++ rest)) (s_tree s) (apply_logs xs doc) -> within (zlen log) s -> f_bytes g = log ->
  holds (texts base log) (s_tree (use_journal journal_reads (mkJournal (Some g) path) s)) (apply_logs xs doc).
Proof using reads_ok.
  intros Ht [Hw _] Hg. unfold use_journal, alias. cbn [s_tree set_tree journal_data j_file]. rewrite Hg. eapply within_cut; eassumption.
Qed.

Lemma use_journal_twice j j' s : use_journal journal_reads j' (use_journal journal_reads j s) = use_journal journal_reads j' s.
Proof using. unfold use_journal. cbn [s_tree set_tree set_journal]. by rewrite alias_alias. Qed.

(** The replayed session over the journal without its torn end. *)
Lemma replayed_cut s s1 g path n :
  fresh base (log ++ rest) doc s -> s_fingerprint s = fp -> replayed base log rest doc revision xs s s1 -> f_bytes g = log ->
  let s2 := set_journalBytes n (use_journal journal_reads (mkJournal (Some g) path) s1) in
  caught_up base log doc xs fp s2 /\ s_committedRevision s2 = match xs with [] => 0 | _ => revision end.
Proof using reads_ok logs groups revision_ok size.
  intros [Hc Hfp Ht Hpc Hv (Hp & Hu & Hre) (Er & Ec & Ed & Ee) Hs] Efp [Hg1 Hw1 (U1 & U2 & _) Hhist Hpend Hrev] Hg s2.
  destruct Hg1 as [Ht1 _ Hs1 He1]. pose proof (cut_journal s1 g path Ht1 Hw1 Hg) as Ht2. assert (fingerprint_ok fp) as Hfp' by (by rewrite <-Efp).
  change (s_tree (use_journal journal_reads (mkJournal (Some g) path) s1)) with (s_tree s2) in Ht2.
  assert (session_data s2 = log) as Ed2 by exact Hg.
  assert (s_revision s2 = s_revision s1 /\ s_committedRevision s2 = s_committedRevision s1 /\ s_dirty s2 = s_dirty s1 /\
    s_recovered s2 = s_recovered s1 /\ s_pending s2 = s_pending s1 /\ s_config s2 = s_config s1 /\ s_fingerprint s2 = s_fingerprint s1 /\
    s_undoStore s2 = s_undoStore s1 /\ s_undoEpoch s2 = s_undoEpoch s1 /\ s_undo s2 = s_undo s1 /\ s_redo s2 = s_redo s1)
    as (B1 & B2 & B3 & B4 & B5 & B6 & B7 & B8 & B9 & B10 & B11) by done.
  assert (journal_open s2) as Ho2 by (intros j [= <-]; by eexists). clearbody s2.
  pose proof (logs_revision xs doc revision logs (proj2 revision_ok)) as Hmaxr. pose proof (log_edits_nonneg xs) as Hn0.
  assert (s_committedRevision s1 = match xs with [] => 0 | _ => revision end /\ s_revision s1 = s_committedRevision s1 + log_edits xs /\
    s_dirty s1 = (s_committedRevision s1 <? s_revision s1) /\ (xs <> [] -> s_recovered s1 = true)) as (C1 & C2 & C3 & C4).
  { destruct xs as [|x ys]; [subst s1; rewrite Er, Ec, Ed; done|]. destruct Hrev as (R1 & R2 & R3 & R4). rewrite R1, R2, R3.
    split; [done|]. split; [done|]. split; [|done]. symmetry. apply Z.ltb_lt. destruct logs as (_ & _ & Hb1 & _). pose proof (bo_count _ _ _ Hb1).
    cbn [log_edits]. pose proof (log_edits_nonneg ys). lia. }
  split; [|by rewrite B2]. assert (0 <= s_committedRevision s1 /\ 0 <= s_revision s1 <= maxUint64) as [C0 C5].
  { rewrite C2, C1. destruct xs; [cbn; go_lia|lia]. }
  split.
  - by rewrite B6, U1.
  - rewrite B7, U2. by split.
  - done.
  - done.
  - done.
  - by eapply logs_valid.
  - rewrite B1. go_lia.
  - rewrite B8, B9. by split.
  - split; rewrite ?B1, ?B2, ?B3, ?B5, ?Ed2; try done.
    + rewrite C1. by destruct xs.
    + rewrite zlen_app. pose proof (zlen_nonneg (encodeFileHeader fp)). lia.
  - by rewrite B4.
  - rewrite B9. intros E0. destruct (Hhist ltac:(congruence)) as [past [P1 P2 P3]]. exists past. split; rewrite ?B8, ?B10, ?B11; done.
Qed.

Lemma open_journal_spec s f path rr s' r :
  open_journal journal_reads rr s = (s', r) -> fresh base (log ++ rest) doc s -> s_fingerprint s = fp ->
  s_journal s = Some (mkJournal (Some f) path) -> f_bytes f = log ++ rest -> replay_reads (f_bytes f) fileHeaderSize [] rr None ->
  (r = Ok tt -> caught_up base log doc xs fp s' /\ s_committedRevision s' = match xs with [] => 0 | _ => revision end) /\
  (f_faults f = [] -> store_clean (s_undoStore s) -> r = Ok tt).
Proof using reads_ok logs groups revision_ok tail size.
  intros H Hfr Efp Hj Hf Hrr. pose proof Hfr as [Hc Hfp Ht Hpc Hv (Hp & Hu & Hre) (Er & Ec & Ed & Ee) Hs].
  assert (recovering base (log ++ rest) doc s) as Hg by (split; [done|eauto|done|rewrite Ee; go_lia]).
  rewrite Hf in Hrr. assert (fingerprint_ok fp) as Hfp' by (by rewrite <-Efp). destruct (log_read rr Hfp' Hrr) as (Hb & Hvb & Htr).
  assert (zlen (encodeFileHeader fp) = fileHeaderSize) as Hh by (by apply zlen_encodeFileHeader). unfold open_journal in H. rewrite Hj in H.
  destruct (replay journal_reads rr s 0%nat) as [[s1 k1] r1] eqn:Hrep.
  assert (Forall2 (batch_in (log ++ rest)) (rr_Batches rr) xs) as Hx by (rewrite Hb, <-app_assoc; apply locatedAll_batches).
  pose proof (replay_spec _ reads_ok base _ _ _ _ _ _ _ _ _ _ Hrep Hg Hx size logs (proj1 revision_ok)) as Hres.
  destruct r1 as [[]|e]; [|injection H as <- <-; split; [done|]; intros Hff Hcl; destruct Hres; split; [|done]; intros j g; rewrite Hj; by intros [= <-] [= <-]].
  clear Hres. assert (within (zlen log) s) as Hw.
  { split; [|by rewrite Hp]. eapply List.Forall_impl; [|exact Hpc]. intros p E1 E2. rewrite E1 in E2. discriminate E2. }
  pose proof (replay_opened journal_reads reads_ok base (encodeFileHeader fp) rest xs rr doc revision s 0%nat s1 k1 Hrep Hg Hb size logs
    (proj1 revision_ok) Hv Hw Hp Hu Hre) as Hrepl.
  pose proof (replay_clean journal_reads base _ _ _ _ _ _ _ _ _ reads_ok Hrep Hg Hx size logs (proj1 revision_ok)) as Hclean.
  destruct (rg_journal _ _ _ _ (rp_recovering _ _ _ _ _ _ _ _ Hrepl)) as (f1 & path1 & Hj1 & Hf1). rewrite Hj1, Hvb in H.
  assert (f_faults f = [] -> store_clean (s_undoStore s) -> f_faults f1 = []) as Hff1.
  { intros Hff Hcl. destruct Hclean as [Hq _]; [split; [intros j g; rewrite Hj; by intros [= <-] [= <-]|done]|]. by eapply Hq. }
  destruct (if rr_Truncated rr then _ else _) as [j1 repairErr] eqn:Hrep1.
  assert ((exists g, j1 = mkJournal (Some g) path1 /\ (repairErr = None -> f_bytes g = log) /\ (f_faults f1 = [] -> f_faults g = [])) /\
    (f_faults f1 = [] -> repairErr = None)) as ((g & -> & Hgb & Hgf) & Hrepair).
  { rewrite Htr in Hrep1. destruct (Z.eqb_spec (zlen rest) 0) as [Hz|Hz]; cbn [negb] in Hrep1.
    - injection Hrep1 as <- <-. apply zlen_zero in Hz. rewrite Hz, app_nil_r in Hf1. split; [by exists f1|done].
    - eapply RepairTail_tail; [exact Hrep1|exact Hf1|]. rewrite zlen_app, Hh. pose proof (zlen_nonneg (encodeAll xs)). lia. }
  destruct repairErr as [e|]; [injection H as <- <-; split; [done|]; intros Hff Hcl; by specialize (Hrepair (Hff1 Hff Hcl))|].
  destruct (Journal.Size (mkJournal (Some g) path1)) as [j2 n] eqn:Hsz. destruct (Size_bytes _ _ _ _ Hsz) as ((g2 & -> & Hg2 & _) & Hn).
  destruct n as [n|e]; injection H as <- <-; [|split; [done|]; intros Hff Hcl; by destruct (Hn (Hgf (Hff1 Hff Hcl)))].
  split; [intros _|done]. rewrite use_journal_twice. eapply replayed_cut; [exact Hfr|done|exact Hrepl|by rewrite Hg2, Hgb].
Qed.
End Replaying.
