(* ===== verification/LaunchOpen.v ===== *)
(** * Opening a session as a whole

    [openSessionContext] of Launch, under any faults of the system: no file is lost,
    at most one journal loses a torn end, and a session that is opened shows its file
    or, if the file has a journal, stands where the log of that journal ends.  On a
    calm disk it is opened. *)

From Stdlib Require Import ZArith Lia List.
From stdpp Require Import base list numbers gmap.
From S2P Require Import Prelude GoLib Store File Journal ChangeMap ChangeHistory Events UndoStore Utf8 Options Effects Scan TreeText JournalText Session SessionText SessionHistory SessionEdit Editor SessionFrame SessionRecovery SessionPending SessionReplay Save SysFiles CommitBase CommitSave Launch LaunchHandle LaunchJournal LaunchBase LaunchSession.
#[local] Open Scope Z_scope.

(** ** What the parts need *)

Lemma resolve_limits absolutePath clean d1 d2 o c :
  resolveOpenOptions absolutePath clean d1 d2 o = Ok c -> Options.Limits c = default_limits (oo_Limits o).
Proof.
  destruct (resolve_numbers absolutePath clean d1 d2 o) as [(_ & _ & E)|[_ [k E]]]; rewrite E; [|done].
  destruct (resolveDirectoryWith (oo_RecoveryDir o) _ _ _ _ _) as [[p1 own1]|]; [|done]. cbn [res_bind].
  destruct (resolveDirectoryWith (oo_SessionDir o) _ _ _ _ _) as [[p2 own2]|]; [|done]. cbn [res_bind]. by intros [= <-].
Qed.

(** The temporary file of the undo store is new. *)
Definition undo_file_new (setup : LaunchSetup) : Prop := forall f name, ls_undoTemp setup = Ok (f, name) -> f_bytes f = [].

Lemma openUndoStore_ok setup dir quota us :
  openUndoStoreWith dir quota (ls_undoMkdir setup) (ls_undoTemp setup) = Ok us -> undo_file_new setup -> 0 <= quota <= maxInt64 -> store_ok us.
Proof.
  unfold openUndoStoreWith. intros H Hnew Hq. destruct (_ =? 0); [by injection H as <-|]. destruct (ls_undoMkdir setup); [done|].
  destruct (ls_undoTemp setup) as [[f name]|e] eqn:Ht; [|done]. injection H as <-. split; cbn; [by eexists| |done].
  unfold us_bytes. cbn. by rewrite (Hnew _ _ Ht).
Qed.

(** The text of the base is where the scan says. *)
Lemma text_slice c :
  let o := boolOffset (marked c) 3 in
  0 <= o <= zlen c /\ (zlen c <= maxInt64 -> zlen c ⊟ o = zlen (text_of c)) /\ slice o (zlen (text_of c)) c = text_of c /\ zlen (text_of c) = zlen c - o.
Proof.
  unfold text_of, boolOffset. destruct (marked c) eqn:Hm.
  - unfold marked in Hm. apply bool_decide_eq_true in Hm. assert (3 <= zlen c) as H3.
    { apply (f_equal zlen) in Hm. rewrite zlen_ztake in Hm. change (zlen byteOrderMark) with 3 in Hm. lia. }
    assert (zlen (zdrop 3 c) = zlen c - 3) as E by (rewrite zlen_zdrop; lia). split; [lia|]. split; [intros; rewrite E; apply i64_id; go_lia|].
    split; [|done]. unfold slice. by apply ztake_all.
  - pose proof (zlen_nonneg c). split; [lia|]. split; [intros; rewrite Z.sub_0_r; apply i64_id; go_lia|]. split; [by apply slice_all|lia].
Qed.

Lemma base_tree_built reads c r :
  NewWithBasePiece (Some reads)
    (mkPiece SourceBase (boolOffset (marked c) 3) (zlen c ⊟ boolOffset (marked c) 3) (count_newlines (text_of c)) true) = r ->
  ReaderOk reads c -> zlen c <= maxInt64 ->
  exists t, r = Ok t /\ holds (texts c []) t (text_of c) /\ Forall (fun p => p_Source p = SourceBase) (pieces (t_root t)).
Proof.
  intros H Hr Hmax. destruct (text_slice c) as (Ho & El & Es & Ez). specialize (El Hmax). rewrite El in H.
  pose proof (zlen_nonneg (text_of c)) as H0. pose proof (count_newlines_bounds (text_of c)) as Hn. destruct r as [t|e].
  - exists t. split; [done|]. split; [|by eapply base_tree_pieces]. rewrite <-Es.
    refine (NewWithBasePiece_holds (texts c []) _ _ _ _ H _ _ Hr _); [by split_and!; cbn; go_lia|done|].
    change (texts c [] SourceBase) with c. cbn. lia.
  - exfalso. unfold NewWithBasePiece, NewWithBasePieceOptions in H. cbn [resolveOptions res_bind o_DisableAutoCompact o_AutoCompactPieces Z.eqb] in H.
    set (q := normalizePiece _) in H. assert (p_Length q = zlen (text_of c)) as Eq by (unfold q; by rewrite normalize_length).
    rewrite validatePiece_spec in H by (rewrite Eq; go_lia). assert (piece_valid q = true) as Hv.
    { unfold q, normalizePiece, piece_valid. cbn. unfold_ints. lia. }
    rewrite Hv in H. cbn [isSome negb] in H. rewrite andb_false_r in H. by destruct (0 <? p_Length q).
Qed.

(** ** What a replay leaves alone *)

Definition identity (s s' : Session) : Prop :=
  s_hasBOM s' = s_hasBOM s /\ s_config s' = s_config s /\ s_fingerprint s' = s_fingerprint s /\ s_resolvedPath s' = s_resolvedPath s.

#[export] Instance identity_order : PreOrder identity.
Proof. split; [done|]. unfold identity. intros s1 s2 s3. intuition congruence. Qed.

Lemma framed_identity s s' : framed s s' -> identity s s'.
Proof. by intros []. Qed.

Section Identity.
Context (journal_reads : list byte -> ReaderAt).

Lemma leaves_read_payload op : leaves (read_payload journal_reads op).
Proof using.
  unfold read_payload. apply leaves_if; [|apply leaves_ret]. intros s k. destruct (s_journal s) as [j|]; [|reflexivity].
  destruct (Journal.ReadAt _ _ _) as [j' [got e]]. by split.
Qed.
#[local] Hint Resolve leaves_read_payload : leaves.

Lemma leaves_replay_operation revision group op entry : leaves (replay_operation journal_reads revision group op entry).
Proof using. unfold replay_operation. leaves; by split. Qed.
#[local] Hint Resolve leaves_replay_operation : leaves.
Lemma leaves_replay_operations group ops : forall revision entry, leaves (replay_operations journal_reads revision group ops entry).
Proof using. induction ops as [|op ops IH]; intros; cbn [replay_operations]; leaves. Qed.

Lemma replay_batch_identity first b s k s' k' r : replay_batch journal_reads first b s k = (s', k', r) -> identity s s'.
Proof using.
  intros H. unfold replay_batch in H.
  assert (forall s1 k1 k2 r1, (if first then if b_FirstRevision b =? 0 then fail zeroJournalRevision
    else modify (fun s => set_revision (b_FirstRevision b ⊖ 1) (set_committedRevision (b_FirstRevision b ⊖ 1) s)) else ret tt) s k1 = (s1, k2, r1) -> identity s s1) as Hset.
  { intros s1 k1 k2 r1. destruct first; [destruct (_ =? 0)|]; by intros [= <- <- <-]. }
  split_bind H; [by eapply Hset|]. apply Hset in Hc. etransitivity; [exact Hc|]. clear Hset Hc.
  unfold bind at 1, get in H. destruct (_ || _); [by injection H as <- <- <-|]. apply framed_identity.
  match type of H with ?c ?s0 ?k0 = _ => assert (leaves c) as Hl; [|specialize (Hl s0 k0); rewrite H in Hl; exact Hl] end.
  apply leaves_bind; [apply leaves_replay_operations|]. intros entry. apply leaves_modify. by split.
Qed.

Lemma replay_identity rr s k s' k' r : replay journal_reads rr s k = (s', k', r) -> identity s s'.
Proof using.
  intros H. unfold replay in H.
  assert (forall bs first s k s' k' r, replay_batches journal_reads first bs s k = (s', k', r) -> identity s s') as Hbs.
  { induction bs as [|b bs IH]; intros first s0 k0 s1 k1 r1 E; cbn [replay_batches] in E; [by injection E as <- <- <-|].
    split_bind E; [by eapply replay_batch_identity|]. etransitivity; [by eapply replay_batch_identity|by eapply IH]. }
  split_bind H; [by eapply Hbs|]. etransitivity; [by eapply Hbs|]. destruct (0 <? _); by injection H as <- <- <-.
Qed.

Lemma open_journal_identity rr s s' r : open_journal journal_reads rr s = (s', r) -> identity s s'.
Proof using.
  unfold open_journal. destruct (s_journal s); [|by intros [= <- <-]]. destruct (replay journal_reads rr s 0%nat) as [[s1 k1] r1] eqn:Hr.
  apply replay_identity in Hr. destruct r1 as [u|e]; [|by intros [= <- <-]]. destruct (s_journal s1) as [j0|]; [|by intros [= <- <-]].
  destruct (if rr_Truncated rr then _ else _) as [j1 [e|]]; [by intros [= <- <-]|]. destruct (Journal.Size j1) as [j2 [n|e]]; by intros [= <- <-].
Qed.
End Identity.

Lemma finish_identity takes s : identity s (open_finish takes s).
Proof. unfold open_finish. destruct (s_recovered _); unfold maybeScheduleJournalCheckpointLocked; by destruct (_ || _). Qed.

(** ** What an opening promises *)

(** The file [i] is a journal of the base with the fingerprint [fp] and the text
    [text]: the log [xs] from [revision] on, and a torn end [rest]. *)
Record journal_log (fp : Fingerprint) (text : list byte) (i : inode) (revision : Z) (xs : list logged) (rest : list byte) : Prop := mkJournalLog {
  jl_bytes : i_bytes i = (encodeFileHeader fp ++ encodeAll xs) ++ rest;
  jl_tail : no_batch rest;
  jl_logs : logs_ok text revision xs;
  jl_groups : Forall (fun x => l_group x = l_rev x) xs;
  jl_revision : 0 <= revision <= maxUint64;
  jl_size : zlen (i_bytes i) <= maxInt64 }.

(** The session shows the log of its journal; unless the undo file ran full, its
    history leads back through the versions of the log. *)
Definition shows_log (base : list byte) (fp : Fingerprint) (i : inode) (s : Session) : Prop := forall revision xs rest,
  journal_log fp (text_of base) i revision xs rest ->
  let log := encodeFileHeader fp ++ encodeAll xs in
  session_data s = log /\ s_revision s = (match xs with [] => 0 | _ => revision end) + log_edits xs /\
  holds (texts base log) (s_tree s) (apply_logs xs (text_of base)) /\
  (s_undoEpoch s = 0 -> exists v, opened base log (text_of base) xs fp v s).

(** The names the listing of a directory may give. *)
Definition listing_ok (decimal : Z -> list byte) (Glob : list byte -> gset FilePath -> Prelude.result (list FilePath)) (fs : directory) : Prop :=
  forall pattern paths, Glob pattern (dom fs) = Ok paths -> List.NoDup paths /\ names_ok decimal fs paths.

Lemma finish_data takes s path g : s_journal s = Some (mkJournal (Some g) path) -> session_data (open_finish takes s) = f_bytes g.
Proof.
  intros H. pose proof (finish_frame takes s) as F. cbv zeta in F. destruct F as (_ & _ & _ & F & _). unfold session_data. by rewrite F, H.
Qed.

Lemma header_long i fp : header_of i fp -> fileHeaderSize <= zlen (i_bytes i).
Proof. intros [Hfp Hh]. apply (f_equal zlen) in Hh. rewrite zlen_encodeFileHeader, zlen_ztake in Hh by done. unfold fileHeaderSize in *. lia. Qed.

Section Opening.
Context (Join : FilePath -> list byte -> FilePath) (Glob : list byte -> gset FilePath -> Prelude.result (list FilePath)).
Context (sort_newest : list FilePath -> Launch -> Launch * list FilePath) (hex : list byte -> list byte) (decimal : Z -> list byte).
Context (sha256 : list byte -> list byte) (absolutePath : list byte -> Prelude.result (list byte)) (Base : list byte -> list byte).
Context (journal_reads base_reads : list byte -> ReaderAt) (describe : inode -> FileInfo) (stampOf : FileInfo -> Prelude.result fileChangeStamp).
Context (normalizeFingerprintPath : list byte -> list byte) (takes : Z -> list nat) (setup : LaunchSetup).
Hypothesis system : system_ok journal_reads base_reads sha256 describe stampOf.
Hypothesis sorts : sort_ok sort_newest.
Hypothesis undo_new : undo_file_new setup.

Abbreviation fingerprint resolved content :=
  (fingerprintFor sha256 normalizeFingerprintPath absolutePath resolved (zlen content) (sha256 content)).
Abbreviation search := (openMatchingJournalWith Join Glob sort_newest hex decimal sha256).

(** What is left on the disk, and what session it is. *)
Record launched (fs : directory) (resolved : FilePath) (config : SessionConfig) (i : inode) (fs' : directory) (s : Session) (mode : Z) (id : fileIdentity) : Prop :=
  mkLaunched {
  ln_mode : mode = i_mode i /\ id_size id = zlen (i_bytes i) /\ id_contentHash id = sha256 (i_bytes i);
  ln_config : s_config s = config /\ s_hasBOM s = marked (i_bytes i);
  ln_fingerprint : s_fingerprint s = fingerprint resolved (i_bytes i);
  ln_session : exists paths, Glob (journalPattern Join hex sha256 (RecoveryDir config) (s_fingerprint s)) (dom fs) = Ok paths /\
    ((paths = [] /\ exists v, opened (i_bytes i) [] (text_of (i_bytes i)) [] (s_fingerprint s) v s /\ v_past v = []) \/
     exists path ij ij', path ∈ paths /\ fs !! path = Some ij /\ header_of ij (s_fingerprint s) /\
       fs' !! path = Some ij' /\ repaired ij ij' /\ i_bytes ij' = session_data s /\
       (forall p, p ∈ paths -> p <> path -> serves_other (s_fingerprint s) fs p /\ fs' !! p = None) /\
       shows_log (i_bytes i) (s_fingerprint s) ij s) }.

(** The files stay or, journals, are renamed. *)
Definition renamed (fs fs' : directory) : Prop :=
  exists paths, (paths = [] \/ exists pattern, Glob pattern (dom fs) = Ok paths) /\ moved decimal fs paths fs'.

(** Nothing is lost: then at most one journal is without its torn end. *)
Definition nothing_lost (fs fs' : directory) : Prop :=
  exists fs1, renamed fs fs1 /\ (fs' = fs1 \/ exists path i i', fs1 !! path = Some i /\ cut_off i i' /\ fs' = <[path := i']> fs1).

Lemma renamed_refl fs : renamed fs fs.
Proof using. exists []. split; [by left|]. apply moved_refl. Qed.
Lemma renamed_lost fs fs' : renamed fs fs' -> nothing_lost fs fs'.
Proof using. intros H. exists fs'. split; [done|by left]. Qed.
Lemma nothing_lost_refl fs : nothing_lost fs fs.
Proof using. apply renamed_lost, renamed_refl. Qed.

(** Writing a handle back after the search. *)
Lemma written_lost fs w path f i :
  renamed fs (w_files (disk w)) -> w_files (disk w) !! path = Some i -> repaired i (inode_of f i) ->
  nothing_lost fs (w_files (disk (write_back path f w))) /\ w_files (disk (write_back path f w)) = <[path := inode_of f i]> (w_files (disk w)).
Proof using.
  intros Hr Hi Hf. pose proof (write_back_files path f w i Hi) as E. split; [|done]. exists (w_files (disk w)). split; [done|]. rewrite E.
  destruct Hf as [->|Hc]; [left; by apply insert_id|right]. by exists path, i, (inode_of f i).
Qed.

Lemma fingerprint_ok_base resolved content : zlen content <= maxInt64 -> fingerprint_ok (fingerprint resolved content).
Proof using system. intros H. pose proof (zlen_nonneg content). pose proof (sy_sha256 _ _ _ _ _ system) as Hs. split; [done|]. by split; apply Hs. Qed.

(** The session before the replay. *)
Lemma new_session_fresh absolute resolved config content tree journal undo :
  let data := match journal with Some j => journal_data j | None => [] end in
  let tree' := match journal with Some j => alias journal_reads tree j | None => tree end in
  config_ok config -> zlen content <= maxInt64 -> store_ok undo ->
  holds (texts content []) tree (text_of content) -> Forall (fun p => p_Source p = SourceBase) (pieces (t_root tree)) ->
  utf8_Valid (text_of content) = true ->
  fresh content data (text_of content)
    (new_session Base absolute resolved config (fingerprint resolved content) (scan_of content sha256 (zlen content)) tree' journal undo).
Proof using system.
  intros data tree' Hc Hmax Hs Ht Hp Hv. split; try done.
  - by apply fingerprint_ok_base.
  - unfold tree', data. cbn [new_session s_tree]. destruct journal as [j|]; [|done].
    exact (holds_grow journal_reads (sy_journal _ _ _ _ _ system) content [] (journal_data j) _ _ Ht).
  - cbn [new_session s_tree]. unfold tree'. by destruct journal.
Qed.

(** A replayed session is launched. *)
Lemma open_journal_shows content s f path rr s' ij :
  open_journal journal_reads rr s = (s', Ok tt) -> fresh content (i_bytes ij) (text_of content) s ->
  s_journal s = Some (mkJournal (Some f) path) -> f_bytes f = i_bytes ij -> replay_reads (i_bytes ij) fileHeaderSize [] rr None ->
  shows_log content (s_fingerprint s) ij (open_finish takes s').
Proof using system.
  intros H Hfr Hj Hf Hrr revision xs rest [Eb Ht Hl Hg Hr Hs] log. rewrite Eb in Hfr, Hf, Hrr, Hs. rewrite <-Hf in Hrr.
  destruct (open_journal_spec journal_reads (sy_journal _ _ _ _ _ system) content (text_of content) (s_fingerprint s) revision xs rest Hl Hg Hr Ht Hs
    s f path rr s' (Ok tt) H Hfr eq_refl Hj Hf Hrr) as [Hok _].
  destruct (Hok eq_refl) as [Hcu Ec]. pose proof (finish_frame takes s') as F. cbv zeta in F.
  destruct F as (F1 & F2 & F3 & F4 & F5 & F6 & F7 & F8 & F9 & F10 & F11 & F12 & F13 & F14).
  split; [unfold session_data; rewrite F4; exact (cu_data _ _ _ _ _ _ Hcu)|].
  split; [rewrite F5, <-Ec; exact (ix_revision _ _ _ _ (cu_log _ _ _ _ _ _ Hcu))|].
  split; [rewrite F3; exact (cu_text _ _ _ _ _ _ Hcu)|]. rewrite F13. intros E. by eapply finish_opened.
Qed.

Lemma open_no_journal content s s' rr :
  open_journal journal_reads rr s = (s', Ok tt) -> fresh content [] (text_of content) s -> s_journal s = None ->
  exists v, opened content [] (text_of content) [] (s_fingerprint s) v (open_finish takes s') /\ v_past v = [].
Proof using.
  unfold open_journal. intros H Hfr Hj. rewrite Hj in H. injection H as <-.
  destruct (finish_opened takes content [] (text_of content) [] (s_fingerprint s) s) as [v Hv];
    [apply fresh_caught_up; [done|unfold session_data; by rewrite Hj|by intros j; rewrite Hj]|apply Hfr|].
  exists v. split; [done|]. pose proof (so_undo _ _ _ (od_ok _ _ _ _ _ _ _ Hv)) as Hu.
  pose proof (finish_frame takes s) as F. cbv zeta in F. destruct F as (_ & _ & _ & _ & _ & _ & _ & _ & _ & F10 & _).
  rewrite F10, (proj1 (proj2 (fr_stacks _ _ _ _ Hfr))) in Hu. inversion Hu as [|? ? ? ? ? ? ? Hnil E]; [done|]. by destruct (app_cons_not_nil stack [] e).
Qed.
Lemma journal_search_spec dir fp w w' r :
  openMatchingJournal Join Glob sort_newest hex decimal sha256 dir fp w = (w', r) -> listing_ok decimal Glob (w_files (disk w)) ->
  renamed (w_files (disk w)) (w_files (disk w')) /\
  (forall j rr, r = Ok (j, rr) -> exists paths, Glob (journalPattern Join hex sha256 dir fp) (dom (w_files (disk w))) = Ok paths /\
     match j with None => paths = [] | Some j => exists path i, chosen paths fp w w' path i j rr end) /\
  (forall paths, Glob (journalPattern Join hex sha256 dir fp) (dom (w_files (disk w))) = Ok paths -> calm w ->
     (paths = [] \/ exists p, p ∈ paths /\ serves_base fp (w_files (disk w)) p /\
        forall q, q ∈ paths -> q <> p -> serves_other fp (w_files (disk w)) q) -> exists jr, r = Ok jr).
Proof using sorts.
  intros H Hl. destruct (Glob (journalPattern Join hex sha256 dir fp) (dom (w_files (disk w)))) as [paths|e] eqn:Hg.
  - destruct (Hl _ _ Hg) as [Hnd Hn]. destruct (openMatching_spec _ _ _ _ _ _ sorts _ _ _ _ _ _ H Hg Hnd Hn) as (Hm & _ & Hr).
    split; [exists paths; split; [right; by eexists|done]|]. split.
    + intros j rr ->. exists paths. split; [done|]. destruct j; [done|apply Hr].
    + intros paths' [= <-] C Hp. destruct r as [jr|e]; [by eexists|by destruct Hr].
  - unfold openMatchingJournal, openMatchingJournalWith, openMatchingJournalWithQuarantine in H. pose proof (plain_files w) as F.
    destruct (sys_plain w) as [w1 err]. cbn [fst] in F.
    assert (w1 = w' /\ exists e', r = Err e') as [-> [e' ->]].
    { destruct err as [e1|]; [apply pair_equal_spec in H as [-> <-]; split; [done|by eexists]|]. rewrite F, Hg in H. apply pair_equal_spec in H as [-> <-].
      split; [done|by eexists]. }
    split; [rewrite F; apply renamed_refl|]. by split.
Qed.

(** What the system must answer for a session to open. *)
Record calm_setup (config : SessionConfig) : Prop := mkCalmSetup {
  cs_marker : SessionDirOwnership config = DirectoryOwned -> ls_marker setup = None;
  cs_mkdir : ls_undoMkdir setup = None;
  cs_temp : exists f name, ls_undoTemp setup = Ok (f, name) /\ f_faults f = [] }.

(** Its journals: none, or exactly one of this base, with a log of its text, next
    to readable journals of other bases. *)
Definition recoverable (fp : Fingerprint) (text : list byte) (fs : directory) (paths : list FilePath) : Prop :=
  paths = [] \/ exists p, p ∈ paths /\
    (exists i revision xs rest, fs !! p = Some i /\ journal_log fp text i revision xs rest) /\
    forall q, q ∈ paths -> q <> p -> serves_other fp fs q.

Lemma journal_log_header fp text i revision xs rest : fingerprint_ok fp -> journal_log fp text i revision xs rest -> header_of i fp.
Proof using.
  intros Hfp [Eb _ _ _ _ _]. split; [done|]. rewrite Eb, <-app_assoc. apply ztake_app. symmetry. by apply zlen_encodeFileHeader.
Qed.

Lemma abandon_spec {A} config undo e closeErr w w' (r : Prelude.result A) :
  abandon setup config undo e closeErr w = (w', r) -> w_files (disk w') = w_files (disk w) /\ exists e', r = Err e'.
Proof using.
  unfold abandon. pose proof (plain_files w) as F. destruct (sys_plain w) as [w1 err]. intros [<- <-]%pair_equal_spec. split; [exact F|by eexists].
Qed.
Lemma retire_sources_spec {A} config undo j e w w' (r : Prelude.result A) :
  retire_sources setup config undo j e w = (w', r) -> w_files (disk w') = w_files (disk w) /\ exists e', r = Err e'.
Proof using.
  unfold retire_sources. pose proof (plain_files w) as F. destruct (sys_plain w) as [w1 err]. intros [<- <-]%pair_equal_spec. split; [exact F|by eexists].
Qed.

Lemma recoverable_opens content fp paths w w' path ij f rr s s' r :
  recoverable fp (text_of content) (w_files (disk w)) paths -> chosen paths fp w w' path ij (mkJournal (Some f) path) rr ->
  open_journal journal_reads rr s = (s', r) -> fresh content (i_bytes ij) (text_of content) s -> s_fingerprint s = fp ->
  s_journal s = Some (mkJournal (Some f) path) -> f_bytes f = i_bytes ij -> f_faults f = [] -> store_clean (s_undoStore s) ->
  fingerprint_ok fp -> r = Ok tt.
Proof using system.
  intros Hrec [Hin Hij Hh _ _ _ Hrr] H Hfr E1 Hj Hf Hff Hcl Hfp.
  destruct Hrec as [->|(p & Hp & (ip & rev & xs & rest & Hip & Hlog) & Hoth)]; [by apply elem_of_nil in Hin|].
  destruct (decide (path = p)) as [->|Hne].
  2:{ destruct (Hoth path Hin Hne) as (i' & fp' & Hi' & Hh' & Hn'). destruct Hn'. assert (i' = ij) as -> by congruence. by apply (header_unique ij). }
  assert (ip = ij) as -> by congruence. pose proof Hlog as [Eb Htl Hlg Hgr Hrv Hsz]. rewrite <-Hf in Hrr. rewrite Eb in Hfr, Hf, Hsz.
  destruct (open_journal_spec journal_reads (sy_journal _ _ _ _ _ system) _ _ fp rev xs rest Hlg Hgr Hrv Htl Hsz s f p rr s' r H Hfr E1 Hj Hf Hrr) as [_ Hdone].
  by apply Hdone.
Qed.

Lemma open_sources_spec absolute resolved config i info b w w' r :
  open_sources Join Glob sort_newest hex decimal sha256 absolutePath Base journal_reads base_reads normalizeFingerprintPath takes setup
    absolute resolved config i info b w = (w', r) ->
  let fs := w_files (disk w) in let fp := fingerprint resolved (i_bytes i) in
  base_opened sha256 describe fs resolved i info b -> config_ok config -> UndoBytes (Options.Limits config) <= maxInt64 ->
  zlen (i_bytes i) <= maxInt64 -> listing_ok decimal Glob fs ->
  nothing_lost fs (w_files (disk w')) /\
  (forall s mode id, r = Ok (s, mode, id) -> launched fs resolved config i (w_files (disk w')) s mode id) /\
  (forall paths, Glob (journalPattern Join hex sha256 (RecoveryDir config) fp) (dom fs) = Ok paths ->
     calm w -> calm_setup config -> recoverable fp (text_of (i_bytes i)) fs paths -> exists x, r = Ok x).
Proof using system sorts undo_new.
  intros H fs fp [Hi Hinfo _ Hv Hb] Hc Hq Hmax Hl. unfold open_sources in H. pose proof (plain_files w) as Fp.
  destruct (if SessionDirOwnership config =? DirectoryOwned then ls_marker setup else None) as [e|] eqn:Hm.
  { apply pair_equal_spec in H as [<- <-]. rewrite Fp. split; [apply nothing_lost_refl|]. split; [done|].
    intros paths _ _ [Hmark _ _] _. destruct (Z.eqb_spec (SessionDirOwnership config) DirectoryOwned) as [E|]; [|done]. by rewrite (Hmark E) in Hm. }
  destruct (openUndoStoreWith _ _ _ _) as [undo|e] eqn:Hundo.
  2:{ apply pair_equal_spec in H as [<- <-]. rewrite Fp. split; [apply nothing_lost_refl|]. split; [done|].
      intros paths _ _ [_ Hk (f & name & Ht & _)] _. unfold openUndoStoreWith in Hundo. rewrite Hk, Ht in Hundo. by destruct (_ =? 0). }
  assert (store_ok undo) as Hus by (eapply openUndoStore_ok; [exact Hundo|done|]; destruct Hc as [[] _]; lia).
  assert (calm_setup config -> store_clean undo) as Hclean.
  { intros [_ Hk (f & name & Ht & Hf)]. unfold openUndoStoreWith in Hundo. rewrite Hk, Ht in Hundo. destruct (_ =? 0); injection Hundo as <-; [done|].
    by intros g [= <-]. }
  rewrite Hb in H. cbn [bs_size bs_contentHash bs_baseOffset bs_newlines scan_of] in H. rewrite ztake_all in H by done. fold fp in H.
  assert (fingerprint_ok fp) as Hfp by (by apply fingerprint_ok_base).
  destruct (openMatchingJournalWith _ _ _ _ _ _ _ fp _ w) as [w1 opened1] eqn:Hs.
  destruct (journal_search_spec _ _ _ _ _ Hs Hl) as (L1 & O1 & A1). fold fs in L1, O1, A1.
  destruct opened1 as [[journal rr]|e].
  2:{ destruct (abandon_spec _ _ _ _ _ _ _ H) as [F [e' ->]]. rewrite F. split; [by apply renamed_lost|]. split; [done|]. intros paths Hg C _ Hrec.
      destruct (A1 paths Hg C) as [? ?]; [|done]. destruct Hrec as [?|(p & Hp & (ij & rev & xs & rest & Hij & Hlog) & Hoth)]; [by left|].
      right. exists p. split; [done|]. split; [|done]. exists ij. split; [done|by eapply journal_log_header]. }
  specialize (O1 _ _ eq_refl). destruct O1 as (paths & Hg & Hj).
  destruct (NewWithBasePiece _ _) as [tree|e] eqn:Ht; destruct (base_tree_built _ _ _ Ht (sy_base _ _ _ _ _ system (i_bytes i)) Hmax) as (t & Et & Hh & Hp); [|done].
  injection Et as <-.
  pose proof (fun x => new_session_fresh absolute resolved config (i_bytes i) tree x undo Hc Hmax Hus Hh Hp Hv) as Hfresh. cbv zeta in Hfresh.
  specialize (Hfresh journal). fold fp in Hfresh. set (s0 := new_session _ _ _ _ _ _ _ _ _) in *.
  assert (s_fingerprint s0 = fp /\ s_config s0 = config /\ s_hasBOM s0 = marked (i_bytes i) /\ s_journal s0 = journal /\ s_undoStore s0 = undo)
    as (E1 & E2 & E3 & E4 & E5) by (split_and!; try done; cbn; by rewrite ztake_all by done). clearbody s0.
  destruct (open_journal journal_reads rr s0) as [s1 opened2] eqn:Hoj.
  assert (identity s0 (open_finish takes s1)) as (G1 & G2 & G3 & _).
  { etransitivity; [eapply open_journal_identity, Hoj|apply finish_identity]. }
  rewrite E3 in G1. rewrite E2 in G2. rewrite E1 in G3.
  destruct journal as [j|].
  - destruct Hj as (path & ij & Hch). destruct (ch_journal _ _ _ _ _ _ _ _ Hch) as (f & -> & Hf & Hff).
    change (journal_data (mkJournal (Some f) path)) with (f_bytes f) in Hfresh. rewrite (proj1 Hf) in Hfresh.
    assert (fileHeaderSize <= zlen (i_bytes ij)) as Hlen by (eapply header_long, Hch).
    destruct (open_journal_handle journal_reads rr s0 s1 opened2 f path ij Hoj E4 Hf Hlen) as (g & Hg1 & Hrep); [apply Hch|].
    rewrite Hg1 in H. cbn [write_back_journal] in H.
    destruct (written_lost fs w1 path g ij L1) as [L2 W2]; [apply Hch|done|]. destruct Hf as [Hf _].
    destruct opened2 as [[]|e].
    + apply pair_equal_spec in H as [<- <-]. split; [done|]. split; [|by eexists]. intros s mode id [= <- <- <-].
      split; [rewrite Hinfo; split; [done|]; split; [exact (sy_size _ _ _ _ _ system i)|done]|by split|done|].
      exists paths. rewrite G3. split; [done|]. right. exists path, ij, (inode_of g ij). split; [apply Hch|]. split; [apply Hch|]. split; [apply Hch|].
      rewrite W2. split; [apply lookup_insert_eq|]. split; [done|].
      split; [by rewrite (finish_data _ _ _ _ Hg1)|].
      split; [intros q Hin Hne; rewrite lookup_insert_ne by done; by apply Hch|]. rewrite <-E1. eapply open_journal_shows; [exact Hoj|exact Hfresh|exact E4|exact Hf|apply Hch].
    + destruct (retire_sources_spec _ _ _ _ _ _ _ H) as [F [e' ->]]. rewrite F. split; [exact L2|]. split; [done|]. intros paths' Hg' C Hcs Hrec.
      rewrite Hg in Hg'. injection Hg' as <-.
      assert (Err e = Ok tt) as Hdone; [|discriminate Hdone].
      eapply recoverable_opens; try eassumption; [by apply Hff|by rewrite E5; apply Hclean].
  - subst paths. assert (opened2 = Ok tt) as -> by (unfold open_journal in Hoj; rewrite E4 in Hoj; by injection Hoj as <- <-).
    assert (s_journal s1 = None) as Ej by (unfold open_journal in Hoj; rewrite E4 in Hoj; by injection Hoj as <-). rewrite Ej in H. cbn [write_back_journal] in H.
    apply pair_equal_spec in H as [<- <-]. split; [by apply renamed_lost|]. split; [|by eexists]. intros s mode id [= <- <- <-].
    split; [rewrite Hinfo; split; [done|]; split; [exact (sy_size _ _ _ _ _ system i)|done]|by split|done|].
    exists []. rewrite G3. split; [done|]. left. split; [done|]. rewrite <-E1. eapply open_no_journal; [exact Hoj|exact Hfresh|exact E4].
Qed.

Section Finding.
Context (evalSymlinks : list byte -> Prelude.result (list byte)) (clean : list byte -> list byte) (defaultRecoveryDir defaultSessionDir : list byte).
Context (ctx : Context) (path : list byte) (options : OpenOptions).
Hypotheses (recovery_owner : 0 <= oo_RecoveryDirOwnership options) (session_owner : 0 <= oo_SessionDirOwnership options).
Hypothesis quota : UndoBytes (oo_Limits options) <= maxInt64.
Abbreviation resolve := (resolveOpenOptions absolutePath clean defaultRecoveryDir defaultSessionDir options).

(** What a session must find to be opened. *)
Record openable (fs : directory) (config : SessionConfig) (resolved : FilePath) (i : inode) (paths : list FilePath) : Prop := mkOpenable {
  oa_alive n : ctx n = None;
  oa_config : resolve = Ok config;
  oa_path : exists absolute linked, absolutePath path = Ok absolute /\ evalSymlinks absolute = Ok linked /\ absolutePath linked = Ok resolved;
  oa_file : fs !! resolved = Some i;
  oa_regular : fi_Regular (describe i) = true;
  oa_stamp : exists stamp, stampOf (describe i) = Ok stamp;
  oa_utf8 : utf8_Valid (text_of (i_bytes i)) = true;
  oa_setup : calm_setup config;
  oa_listed : Glob (journalPattern Join hex sha256 (RecoveryDir config) (fingerprint resolved (i_bytes i))) (dom fs) = Ok paths;
  oa_recoverable : recoverable (fingerprint resolved (i_bytes i)) (text_of (i_bytes i)) fs paths }.

(** What an opening that starts on [w] may give. *)
Record promised (w w' : Launch) (r : Prelude.result (Session * Z * fileIdentity)) : Prop := mkPromised {
  pr_lost : nothing_lost (w_files (disk w)) (w_files (disk w'));
  pr_session s mode id : r = Ok (s, mode, id) -> exists config resolved i, resolve = Ok config /\
    w_files (disk w) !! resolved = Some i /\ utf8_Valid (text_of (i_bytes i)) = true /\
    launched (w_files (disk w)) resolved config i (w_files (disk w')) s mode id;
  pr_opens config resolved i paths : calm w -> openable (w_files (disk w)) config resolved i paths -> exists x, r = Ok x }.

Lemma promised_failure w w' e :
  w_files (disk w') = w_files (disk w) -> (forall config resolved i paths, calm w -> ~ openable (w_files (disk w)) config resolved i paths) ->
  promised w w' (Err e).
Proof using. intros F Hno. split; [rewrite F; apply nothing_lost_refl|done|]. intros config resolved i paths C Ho. by destruct (Hno _ _ _ _ C Ho). Qed.

Lemma undo_quota config : resolve = Ok config -> UndoBytes (Options.Limits config) <= maxInt64.
Proof using quota. intros H. rewrite (resolve_limits _ _ _ _ _ _ H). cbn. unfold default. destruct (_ =? 0); [by vm_compute|done]. Qed.

(** C7. Opening a session, whatever the system calls, the context and the journals
    answer: every file stays as it was, except that journals of the path may have
    been renamed and that one journal may have lost a torn end, the bytes after its
    last batch that can be read; so nothing is lost.  If a session is returned it is
    on a file that is valid UTF-8, with the resolved configuration and the
    fingerprint of the whole file; either there was no journal and the session shows
    exactly the text of its file, clean, with an empty history; or there was exactly
    one journal of this file, every other journal of the path was moved aside, the
    file of the journal has the bytes the session's handle has, and if that journal
    held a log of the text (with any torn end) then these bytes are the log without
    that end, the session's text is the text after the log and its revision is the
    one the log reached.  Only if the undo file did not run full, it is then also a
    well-formed session whose undo history leads back along the log.  And it does
    open: on a calm
    system a regular valid file without a journal, or with one such journal next to
    readable journals of other files, always gives a session. *)
Theorem openSession_correct w w' r :
  (forall p i, w_files (disk w) !! p = Some i -> zlen (i_bytes i) <= maxInt64) -> listing_ok decimal Glob (w_files (disk w)) ->
  openSessionContext Join Glob sort_newest hex decimal sha256 absolutePath evalSymlinks Base clean defaultRecoveryDir defaultSessionDir
    journal_reads base_reads describe stampOf normalizeFingerprintPath takes setup (Some ctx) path options w = (w', r) ->
  promised w w' r.
Proof using system sorts undo_new recovery_owner session_owner quota.
  intros Hsmall Hlist H. unfold openSessionContext in H.
  split_eff H; apply eff_call_inv in Hc as (e1 & [<- <-]%pair_equal_spec & E1).
  { apply promised_failure; [done|]. intros config resolved i paths _ Ho. by rewrite (oa_alive _ _ _ _ _ Ho) in E1. }
  split_eff H; apply pair_equal_spec in Hc as [<- Ec].
  { apply promised_failure; [done|]. intros config resolved i paths _ Ho. pose proof (oa_config _ _ _ _ _ Ho). congruence. }
  rename a0 into config. pose proof (resolve_config _ _ _ _ _ _ recovery_owner session_owner Ec) as Hcfg.
  split_eff H; apply pair_equal_spec in Hc as [<- Ea].
  { apply promised_failure; [done|]. intros ? ? ? ? _ Ho. destruct (oa_path _ _ _ _ _ Ho) as (? & ? & ? & _). congruence. }
  split_eff H; apply pair_equal_spec in Hc as [<- El].
  { apply promised_failure; [done|]. intros ? ? ? ? _ Ho. destruct (oa_path _ _ _ _ _ Ho) as (? & ? & E & E' & _).
    rewrite Ea in E. injection E as <-. by rewrite E' in El. }
  split_eff H; apply pair_equal_spec in Hc as [<- Er].
  { apply promised_failure; [done|]. intros ? ? ? ? _ Ho. destruct (oa_path _ _ _ _ _ Ho) as (? & ? & E & E' & E'').
    rewrite Ea in E. injection E as <-. rewrite E' in El. injection El as <-. congruence. }
  rename a0 into absolute, a1 into linked, a2 into resolved.
  assert (forall c r' i p, openable (w_files (disk w)) c r' i p -> c = config /\ r' = resolved) as Hsame.
  { intros c r' i p Ho. pose proof (oa_config _ _ _ _ _ Ho). destruct (oa_path _ _ _ _ _ Ho) as (? & ? & E & E' & E'').
    rewrite Ea in E. injection E as <-. rewrite E' in El. injection El as <-. split; congruence. }
  set (w1 := (launch_context ctx w).1). match type of H with _ ?v = _ => change v with w1 in H end.
  assert (w_files (disk w1) = w_files (disk w)) as F1 by done.
  assert (calm w -> calm w1) as C1 by done. clearbody w1.
  split_eff H.
  - destruct (open_base_spec _ _ _ _ (sy_size _ _ _ _ _ system) _ _ _ _ Hc) as (F2 & _ & C2); [intros i; rewrite F1; apply Hsmall|].
    apply promised_failure; [congruence|]. intros c r' i p C Ho. destruct (Hsame _ _ _ _ Ho) as [-> ->]. destruct Ho as [Ha _ _ Hi Hreg [st Hst] Hv _ _ _].
    rewrite F1 in C2. by destruct (C2 i st (C1 C) Ha Hi Hreg Hst Hv) as (_ & ? & ?).
  - destruct a0 as [[base info] scan]. destruct (open_base_spec _ _ _ _ (sy_size _ _ _ _ _ system) _ _ _ _ Hc) as (F2 & O2 & C2); [intros i; rewrite F1; apply Hsmall|].
    specialize (O2 _ _ _ eq_refl). rewrite F1 in F2, O2, C2. pose proof (bo_inode _ _ _ _ _ _ _ O2) as Hi.
    match type of H with open_sources _ _ _ _ _ _ _ _ _ _ _ _ _ _ _ _ _ _ _ ?v = _ => rename v into w2 end.
    destruct (open_sources_spec _ _ _ _ _ _ _ _ _ H) as (L & S & A); [by rewrite F2|done|by apply undo_quota|by eapply Hsmall|by rewrite F2|].
    rewrite F2 in L, S, A. split; [done| |].
    + intros s mode id E. exists config, resolved, base. split; [done|]. split; [done|]. split; [apply O2|by apply S].
    + intros c r' i p C Ho. destruct (Hsame _ _ _ _ Ho) as [-> ->]. assert (i = base) as -> by (pose proof (oa_file _ _ _ _ _ Ho); congruence).
      destruct Ho as [Ha _ _ _ Hreg [st Hst] Hv Hset Hg Hrec]. destruct (C2 base st (C1 C) Ha Hi Hreg Hst Hv) as [C3 _]. by eapply A.
Qed.
End Finding.
End Opening.

(** ** A recovery *)

(** The file "b" with "abc", its journal "j" with one edit and a torn end, and the
    journal "k" of another file at the same path. *)
Definition ex_fp : Fingerprint := fingerprintFor ex_sha256 (fun p => p) (fun p => Ok p) [Byte.x62] 3 (ex_sha256 ex_abc).
Definition ex_other_fp : Fingerprint := fingerprintFor ex_sha256 (fun p => p) (fun p => Ok p) [Byte.x62] 4 (ex_sha256 ex_abxy).
Definition ex_edit : logged := mkLogged 6 6 [Journal.mkReplaceOperation 2 1 [Byte.x78; Byte.x79]].
Definition ex_log : inode := mkInode ((encodeFileHeader ex_fp ++ encodeAll [ex_edit]) ++ [Byte.x44]) 384 false.
Definition ex_disk : directory :=
  {[ [Byte.x62] := mkInode ex_abc 420 true; [Byte.x6a] := ex_log; [Byte.x6b] := mkInode (encodeFileHeader ex_other_fp) 384 false ]}.
Definition ex_launch : Launch := mkLaunch (mkWorld ex_disk [] [] []) [] [7] 0.
Definition ex_paths : list FilePath := [[Byte.x6a]; [Byte.x6b]].
Definition ex_launch_setup : LaunchSetup := mkLaunchSetup None None None (Ok (newFile [], [])) None None None.
Definition ex_open : Launch * Prelude.result (Session * Z * fileIdentity) :=
  openSessionContext (fun dir name => dir ++ name) (fun _ _ => Ok ex_paths) (fun ps w => (w, ps)) (fun p => p) (fun _ => []) ex_sha256
    (fun p => Ok p) (fun p => Ok p) (fun p => p) (fun p => p) [] [Byte.x73] bytes_NewReader bytes_NewReader ex_describe ex_stampOf (fun p => p)
    (fun _ => []) ex_launch_setup (Some ex_calm_context) [Byte.x62] ex_options ex_launch.

Definition ex_config : SessionConfig :=
  match resolveOpenOptions (fun p => Ok p) (fun p => p) [] [Byte.x73] ex_options with Ok c => c | Err _ => s_config ex_session end.

Example ex_open_text : (match ex_open.2 with Ok (s, _, _) => readTreeRange (s_tree s) 0 4 | Err e => Err e end) = Ok ex_abxy.
Proof. vm_compute. reflexivity. Qed.
Example ex_open_cut : i_bytes <$> w_files (disk ex_open.1) !! [Byte.x6a] = Some (encodeFileHeader ex_fp ++ encodeAll [ex_edit]).
Proof. vm_compute. reflexivity. Qed.
Example ex_open_moved : w_files (disk ex_open.1) !! [Byte.x6b] = None /\
  w_files (disk ex_open.1) !! quarantineName (fun _ => []) [Byte.x6b] retiredBase 7 = ex_disk !! [Byte.x6b].
Proof. vm_compute. split; reflexivity. Qed.

Lemma ex_names_ok : names_ok (fun _ => []) ex_disk ex_paths.
Proof.
  assert (forall p, p ∈ ex_paths -> p = [Byte.x6a] \/ p = [Byte.x6b]) as Hp.
  { intros p [->|[->|[]%elem_of_nil]%elem_of_cons]%elem_of_cons; auto. }
  split.
  - intros p [-> | ->]%Hp; by eexists.
  - intros p reason t [-> | ->]%Hp; unfold ex_disk, quarantineName; cbn [map app]; by simplify_map_eq.
  - intros p p' reason reason' t t' [-> | ->]%Hp [-> | ->]%Hp; [done|by intros [=]..|done].
Qed.

Lemma ex_log_ok : journal_log ex_fp ex_abc ex_log 5 [ex_edit] [Byte.x44].
Proof.
  assert (logged_ok ex_edit) as Hok.
  { split; cbn; [vm_compute; split; discriminate..| |vm_compute; discriminate]. repeat constructor; vm_compute; discriminate. }
  split; [done| | | | |].
  - intros x tail Hx E. pose proof (logged_size x Hx). apply (f_equal zlen) in E. rewrite zlen_app in E.
    pose proof (zlen_nonneg tail). change (zlen [Byte.x44]) with 1 in E. lia.
  - split; [done|]. split; [done|]. split; [done|]. split; [|done]. split_and!; try done; try (vm_compute; discriminate); apply boundary_spec; vm_compute; reflexivity.
  - by constructor.
  - vm_compute. split; discriminate.
  - vm_compute. discriminate.
Qed.

Lemma openSession_correct_witness :
  exists s mode id, ex_open.2 = Ok (s, mode, id) /\
    nothing_lost (fun _ _ => Ok ex_paths) (fun _ => []) ex_disk (w_files (disk ex_open.1)).
Proof.
  assert (sort_ok (fun ps (w : Launch) => (w, ps))) as Hsort by (intros ps w; by split_and!).
  assert (undo_file_new ex_launch_setup) as Hundo by (intros f name E; injection E as <- _; reflexivity).
  assert (forall p i, ex_disk !! p = Some i -> zlen (i_bytes i) <= maxInt64) as Hsmall.
  { intros p i. unfold ex_disk. intros [[_ <-]|[_ [[_ <-]|[_ [_ <-]%lookup_singleton_Some]]%lookup_insert_Some]]%lookup_insert_Some; vm_compute; discriminate. }
  assert (listing_ok (fun _ => []) (fun _ _ => Ok ex_paths) ex_disk) as Hlist.
  { intros pattern paths E. injection E as <-. split; [|apply ex_names_ok]. apply NoDup_ListNoDup. by apply (bool_decide_unpack _). }
  destruct (openSession_correct (fun dir name => dir ++ name) (fun _ _ => Ok ex_paths) (fun ps w => (w, ps)) (fun p => p) (fun _ => []) ex_sha256
    (fun p => Ok p) (fun p => p) bytes_NewReader bytes_NewReader ex_describe ex_stampOf (fun p => p) (fun _ => []) ex_launch_setup ex_system_ok
    Hsort Hundo (fun p => Ok p) (fun p => p) [] [Byte.x73] ex_calm_context [Byte.x62] ex_options ltac:(vm_compute; discriminate)
    ltac:(vm_compute; discriminate) ltac:(vm_compute; discriminate) ex_launch ex_open.1 ex_open.2 Hsmall Hlist) as [Hlost _ Hopens].
  { apply surjective_pairing. }
  destruct (Hopens ex_config [Byte.x62] (mkInode ex_abc 420 true) ex_paths) as [[[s mode] id] Hs]; [by split| |exact (ex_intro _ s (ex_intro _ mode (ex_intro _ id (conj Hs Hlost))))].
  split.
  - intros n. reflexivity.
  - vm_compute. reflexivity.
  - exists [Byte.x62], [Byte.x62]. split; [reflexivity|split; reflexivity].
  - reflexivity.
  - reflexivity.
  - eexists. reflexivity.
  - vm_compute. reflexivity.
  - split; [intros _; reflexivity|reflexivity|exists (newFile []), []; split; reflexivity].
  - reflexivity.
  - right. exists [Byte.x6a]. split; [apply list_elem_of_here|]. split.
    + exists ex_log, 5, [ex_edit], [Byte.x44]. split; [reflexivity|exact ex_log_ok].
    + intros q [->|[->|[]%elem_of_nil]%elem_of_cons]%elem_of_cons Hq; [destruct Hq; reflexivity|].
      exists (mkInode (encodeFileHeader ex_other_fp) 384 false), ex_other_fp. split; [reflexivity|].
      split; [split; [vm_compute; repeat split; discriminate|vm_compute; reflexivity]|]. intros E. apply (f_equal BaseSize) in E. discriminate E.
Defined.
