(* ===== verification/Cleanup.v ===== *)
(** * document/session_cleanup.go: the directories of sessions

    A session with a directory of its own keeps a marker file in it and a lock on
    the marker.  What a crash leaves behind is reclaimed: [reclaim] removes a
    directory only when its marker is old, intact and not locked, and nothing but
    undo files lies next to it.  The state is the files below a root, with the
    locks that live processes hold. *)

From Stdlib Require Import ZArith Lia List.
From stdpp Require Import base list numbers gmap.
From S2P Require Import Prelude GoLib File Options Effects Save Launch.
#[local] Open Scope Z_scope.

(** ** The files *)

(** [os.FileInfo] with the bytes and whether some process holds the lock. *)
Record entry := mkEntry { en_dir : bool; en_regular : bool; en_modTime : Z; en_bytes : list byte; en_locked : bool }.
Definition lockable (locked : bool) (e : entry) : entry := mkEntry (en_dir e) (en_regular e) (en_modTime e) (en_bytes e) locked.

(** The entries by path, what the coming system calls do, and the clock. *)
Record Yard := mkYard { y_entries : gmap FilePath entry; y_faults : list fault; y_now : Z }.
Definition set_entries (m : gmap FilePath entry) (w : Yard) : Yard := mkYard m (y_faults w) (y_now w).

(** A system call: it fails, or does [f]. *)
Definition system {A} (f : Yard -> Yard * Prelude.result A) : Eff Yard A := fun w =>
  let x := hd NoFault (y_faults w) in
  let w := mkYard (y_entries w) (tail (y_faults w)) (y_now w) in
  match x with Fault _ e => (w, Err e) | _ => f w end.
Definition answer {A} (r : Yard -> Prelude.result A) : Eff Yard A := system (fun w => (w, r w)).

(** A call of which the error is all that counts. *)
Definition failure {A} (r : Prelude.result A) : option error := match r with Ok _ => None | Err e => Some e end.

Definition os_ErrExist : error := errMsg 60.
Definition notDirectory : error := errMsg 61.
Definition notEmpty : error := errMsg 62.
Definition ErrSessionInUse : error := errMsg 63.
Definition invalidRoot : error := errMsg 64.

(** [".docengine-session-v1"], ["DOCSESSION1\n"], [".docengine-undo-"] and [".store"]. *)
Definition sessionMarkerName : list byte :=
  map z2b [46; 100; 111; 99; 101; 110; 103; 105; 110; 101; 45; 115; 101; 115; 115; 105; 111; 110; 45; 118; 49].
Definition sessionMarkerMagic : list byte := map z2b [68; 79; 67; 83; 69; 83; 83; 73; 79; 78; 49; 10].
Definition undoPrefix : list byte := map z2b [46; 100; 111; 99; 101; 110; 103; 105; 110; 101; 45; 117; 110; 100; 111; 45].
Definition undoSuffix : list byte := map z2b [46; 115; 116; 111; 114; 101].
(** 24 hours in nanoseconds. *)
Definition DefaultStaleSessionAge : Z := 86400000000000.

Definition strings_HasPrefix (s prefix : list byte) : bool := bool_decide (ztake (zlen prefix) s = prefix).
Definition strings_HasSuffix (s suffix : list byte) : bool :=
  (zlen suffix <=? zlen s) && bool_decide (zdrop (zlen s - zlen suffix) s = suffix).

Record ReclaimStats := mkReclaimStats { Scanned : Z; Reclaimed : Z; Skipped : Z }.

Section Cleanup.
(* [filepath.Join], [filepath.Dir], [filepath.Abs], and the directories [os.MkdirAll] goes through *)
Variables (Join : FilePath -> list byte -> FilePath) (Dir : FilePath -> FilePath) (absolutePath : list byte -> Prelude.result FilePath).
Variable ancestors : FilePath -> list FilePath.
(* the names [os.ReadDir] lists, of the paths that exist *)
Variable children : FilePath -> gset FilePath -> list (list byte).

(** ** The system calls *)

Definition lstat (path : FilePath) : Eff Yard entry := answer (fun w =>
  match y_entries w !! path with Some e => Ok e | None => Err os_ErrNotExist end).

(** The names, with what [entry.IsDir] says. *)
Definition readDir (path : FilePath) : Eff Yard (list (list byte * bool)) := answer (fun w =>
  match y_entries w !! path with
  | None => Err os_ErrNotExist
  | Some e =>
    if en_dir e
    then Ok (map (fun name => (name, match y_entries w !! Join path name with Some e => en_dir e | None => false end))
                 (children path (dom (y_entries w))))
    else Err notDirectory
  end).

Definition openFile (path : FilePath) : Eff Yard unit := answer (fun w =>
  match y_entries w !! path with
  | None => Err os_ErrNotExist
  | Some e => if en_dir e then Err notDirectory else Ok tt
  end).

(** With [O_CREATE|O_EXCL]. *)
Definition createFile (path : FilePath) : Eff Yard unit := system (fun w =>
  match y_entries w !! path, y_entries w !! Dir path with
  | Some _, _ => (w, Err os_ErrExist)
  | None, None => (w, Err os_ErrNotExist)
  | None, Some _ => (set_entries (<[path := mkEntry false true (y_now w) [] false]> (y_entries w)) w, Ok tt)
  end).

Definition update (path : FilePath) (f : entry -> entry) (w : Yard) : Yard := set_entries (alter f path (y_entries w)) w.

Definition lock (path : FilePath) : Eff Yard bool := system (fun w =>
  match y_entries w !! path with
  | Some e => if en_locked e then (w, Ok false) else (update path (lockable true) w, Ok true)
  | None => (w, Ok true)
  end).
Definition unlock (path : FilePath) : Eff Yard unit := system (fun w => (update path (lockable false) w, Ok tt)).

(** Closing a handle gives up its lock, even when it reports an error. *)
Definition close (path : FilePath) (held : bool) : Eff Yard unit := fun w =>
  let '(w, r) := answer (fun _ => Ok tt) w in (if held then update path (lockable false) w else w, r).

(** [io.ReadAll] of one byte more than the marker has. *)
Definition readMarker (path : FilePath) : Eff Yard (list byte) := answer (fun w =>
  match y_entries w !! path with
  | Some e => Ok (ztake (zlen sessionMarkerMagic + 1) (en_bytes e))
  | None => Ok []
  end).
(** A failed write may leave a part. *)
Definition writeMarker (path : FilePath) (value : list byte) : Eff Yard unit := fun w =>
  let k := match hd NoFault (y_faults w) with Fault k _ => k | _ => zlen value end in
  let '(w, r) := answer (fun _ => Ok tt) w in
  (update path (fun e => mkEntry (en_dir e) (en_regular e) (en_modTime e) (ztake k value) (en_locked e)) w, r).
Definition syncMarker : Eff Yard unit := answer (fun _ => Ok tt).

Definition remove (path : FilePath) : Eff Yard unit := system (fun w =>
  match y_entries w !! path with
  | None => (w, Err os_ErrNotExist)
  | Some e =>
    match children path (dom (y_entries w)) with
    | _ :: _ => if en_dir e then (w, Err notEmpty) else (set_entries (delete path (y_entries w)) w, Ok tt)
    | [] => (set_entries (delete path (y_entries w)) w, Ok tt)
    end
  end).

Definition add_dir (w : Yard) (path : FilePath) : Yard :=
  match y_entries w !! path with
  | Some _ => w
  | None => set_entries (<[path := mkEntry true false (y_now w) [] false]> (y_entries w)) w
  end.
Definition mkdirAll (path : FilePath) : Eff Yard unit := system (fun w =>
  if forallb (fun p => match y_entries w !! p with Some e => en_dir e | None => true end) (ancestors path ++ [path])
  then (fold_left add_dir (ancestors path ++ [path]) w, Ok tt)
  else (w, Err notDirectory)).

(** [if err := remove(path); err != nil && !errors.Is(err, os.ErrNotExist)] *)
Definition remove_existing (path : FilePath) : Eff Yard unit := fun w =>
  let '(w, r) := remove path w in
  (w, match r with Err e => if errors_Is e os_ErrNotExist then Ok tt else Err e | Ok x => Ok x end).

(** ** Reclaiming one directory *)

(** The undo files among the entries, as long as nothing else is there. *)
Fixpoint undo_paths (dir : FilePath) (entries : list (list byte * bool)) (paths : list FilePath) (w : Yard)
  : Yard * (bool * list FilePath * option error) :=
  match entries with
  | [] => (w, (true, paths, None))
  | (name, _) :: entries =>
    if bool_decide (name = sessionMarkerName) then undo_paths dir entries paths w else
    if negb (strings_HasPrefix name undoPrefix) || negb (strings_HasSuffix name undoSuffix) then (w, (false, paths, None)) else
    let path := Join dir name in
    let '(w, info) := lstat path w in
    match info with
    | Err e => (w, (false, paths, Some e))
    | Ok info => if negb (en_regular info) then (w, (false, paths, None)) else undo_paths dir entries (paths ++ [path]) w
    end
  end.

(** Under the lock of the marker: the undo files to remove, if the directory may
    be reclaimed.  The lock is given up again. *)
Definition inspect_locked (dir : FilePath) : Eff Yard (option (list FilePath)) := fun w =>
  let markerPath := Join dir sessionMarkerName in
  let '(w, content) := readMarker markerPath w in
  let '(w, entries) := readDir dir w in
  let '(w, (removable, paths, statErr)) :=
    match content, entries with
    | Ok content, Ok entries =>
      if bool_decide (content = sessionMarkerMagic) then undo_paths dir entries [] w else (w, (false, [], None))
    | _, _ => (w, (false, [], None))
    end in
  let entriesErr := match failure entries with Some e => Some e | None => statErr end in
  let '(w, unlockErr) := unlock markerPath w in
  let '(w, closeErr) := close markerPath true w in
  match errors_JoinAll [failure content; entriesErr; failure unlockErr; failure closeErr] with
  | Some e => (w, Err e)
  | None => (w, Ok (if removable then Some paths else None))
  end.

Definition inspect (dir : FilePath) (before : Z) : Eff Yard (option (list FilePath)) := fun w =>
  let markerPath := Join dir sessionMarkerName in
  let '(w, info) := lstat markerPath w in
  match info with
  | Err e => (w, if errors_Is e os_ErrNotExist then Ok None else Err e)
  | Ok info =>
    if negb (en_regular info) || negb (en_modTime info <? before) then (w, Ok None) else
    let '(w, opened) := openFile markerPath w in
    match opened with
    | Err e => (w, Err e)
    | Ok _ =>
      let '(w, locked) := lock markerPath w in
      match locked with
      | Err e => ((close markerPath false w).1, Err e)
      | Ok false => ((close markerPath false w).1, Ok None)
      | Ok true => inspect_locked dir w
      end
    end
  end.

Fixpoint remove_paths (paths : list FilePath) : Eff Yard unit :=
  match paths with
  | [] => eff_ret tt
  | path :: paths => let* _ := remove_existing path in remove_paths paths
  end.

(** The removal, after the lock was given up. *)
Definition remove_session (dir : FilePath) (paths : list FilePath) : Eff Yard bool :=
  let* _ := remove_paths paths in
  let* _ := remove_existing (Join dir sessionMarkerName) in
  let* _ := remove_existing dir in
  eff_ret true.

Definition reclaimSessionDirectoryWith (dir : FilePath) (before : Z) : Eff Yard bool :=
  let* removable := inspect dir before in
  match removable with
  | None => eff_ret false
  | Some paths => remove_session dir paths
  end.

(** ** Reclaiming a root *)

Fixpoint reclaim_entries (root : FilePath) (before : Z) (entries : list (list byte * bool)) (stats : ReclaimStats) (cleanupErr : option error) (w : Yard)
  : Yard * (ReclaimStats * option error) :=
  match entries with
  | [] => (w, (stats, cleanupErr))
  | (name, isDir) :: entries =>
    if negb isDir then reclaim_entries root before entries stats cleanupErr w else
    let '(w, reclaimed) := reclaimSessionDirectoryWith (Join root name) before w in
    let scanned := Scanned stats + 1 in
    match reclaimed with
    | Err e => reclaim_entries root before entries (mkReclaimStats scanned (Reclaimed stats) (Skipped stats + 1)) (errors_Join cleanupErr (Some e)) w
    | Ok true => reclaim_entries root before entries (mkReclaimStats scanned (Reclaimed stats + 1) (Skipped stats)) cleanupErr w
    | Ok false => reclaim_entries root before entries (mkReclaimStats scanned (Reclaimed stats) (Skipped stats + 1)) cleanupErr w
    end
  end.

Definition noStats : ReclaimStats := mkReclaimStats 0 0 0.

Definition reclaimStaleSessionDirectoriesWith (root : list byte) (before : Z) (w : Yard) : Yard * (ReclaimStats * option error) :=
  match absolutePath root with
  | Err e => (w, (noStats, Some e))
  | Ok absolute =>
    let '(w, info) := lstat absolute w in
    match info with
    | Err e => (w, (noStats, if errors_Is e os_ErrNotExist then None else Some e))
    | Ok info =>
      if negb (en_dir info) then (w, (noStats, Some invalidRoot)) else
      let '(w, entries) := readDir absolute w in
      match entries with
      | Err e => (w, (noStats, if errors_Is e os_ErrNotExist then None else Some e))
      | Ok entries => reclaim_entries absolute before entries noStats None w
      end
    end
  end.

(** ** The marker of a session *)

Definition removeEmptyDirectory (path : FilePath) : Eff Yard unit := fun w =>
  let '(w, info) := lstat path w in
  match info with
  | Err e => (w, if errors_Is e os_ErrNotExist then Ok tt else Err e)
  | Ok info =>
    if negb (en_dir info) then (w, Ok tt) else
    let '(w, entries) := readDir path w in
    match entries with
    | Err e => (w, if errors_Is e os_ErrNotExist then Ok tt else Err e)
    | Ok entries => if negb (zlen entries =? 0) then (w, Ok tt) else remove_existing path w
    end
  end.

(** What a failure after the creation of the marker undoes. *)
Definition abandon_marker (dir path : FilePath) (cause : error) : Eff Yard FilePath := fun w =>
  let '(w, closeErr) := close path false w in
  let '(w, removeErr) := remove path w in
  let '(w, dirErr) := removeEmptyDirectory dir w in
  (w, Err (match errors_JoinAll [failure closeErr; failure removeErr; failure dirErr] with Some e => errJoin cause e | None => cause end)).

(** The path of the marker stands for the marker. *)
Definition create_marker (dir : FilePath) : Eff Yard FilePath := fun w =>
  let path := Join dir sessionMarkerName in
  let '(w, created) := createFile path w in
  match created with
  | Err e => (w, Err (if errors_Is e os_ErrExist then errWrap 60 ErrSessionInUse else e))
  | Ok _ =>
    let '(w, written) := writeMarker path sessionMarkerMagic w in
    match written with
    | Err e => abandon_marker dir path e w
    | Ok _ =>
      let '(w, synced) := syncMarker w in
      match synced with
      | Err e => abandon_marker dir path e w
      | Ok _ =>
        let '(w, locked) := lock path w in
        match locked with
        | Err e => abandon_marker dir path e w
        | Ok false => abandon_marker dir path ErrSessionInUse w
        | Ok true => (w, Ok path)
        end
      end
    end
  end.

Definition openOwnedSessionMarkerWith (dir : FilePath) : Eff Yard FilePath := fun w =>
  let '(w, _) := reclaimStaleSessionDirectoriesWith (Dir dir) (y_now w - DefaultStaleSessionAge) w in
  (let* _ := reclaimSessionDirectoryWith dir (y_now w + 1) in
   let* _ := mkdirAll dir in
   create_marker dir) w.

(** [sessionMarker.close]: a marker that was closed has no file any more. *)
Definition closeMarker (m : option FilePath) (w : Yard) : Yard * option FilePath * option error :=
  match m with
  | None => (w, None, None)
  | Some path =>
    let '(w, unlockErr) := unlock path w in
    let '(w, closeErr) := close path true w in
    let '(w, removeErr) := remove_existing path w in
    (w, None, errors_JoinAll [failure unlockErr; failure closeErr; failure removeErr])
  end.
End Cleanup.
