(* ===== verification/CleanupSafe.v ===== *)
(** * Only abandoned directories are reclaimed

    Whatever the system calls answer, [reclaim] removes nothing but the undo files,
    the marker and the directory of a crashed session; a directory whose marker is
    locked, recent or not a marker, or that holds anything else, is left as it is.
    On a calm system every abandoned directory is gone afterwards, and the marker of
    a new session is refused only for one that is not abandoned. *)

From Stdlib Require Import ZArith Lia List.
From stdpp Require Import base list numbers gmap.
From S2P Require Import Prelude GoLib File Options Effects Save Launch Cleanup.
#[local] Open Scope Z_scope.

(** ** Honest systems *)

(** No call says that a file that is there is not. *)
Definition honest_fault (x : fault) : Prop := match x with Fault _ e => errors_Is e os_ErrNotExist = false | _ => True end.
Definition honest (w : Yard) : Prop := Forall honest_fault (y_faults w).

(** The next states in which only the faults have been used up. *)
Record spent (w w' : Yard) : Prop := mkSpent {
  sp_honest : honest w -> honest w';
  sp_calm : y_faults w = [] -> y_faults w' = [];
  sp_now : y_now w' = y_now w }.

#[export] Instance spent_order : PreOrder spent.
Proof. split; [by split|]. intros w1 w2 w3 [] []. split; [auto|auto|congruence]. Qed.

Lemma system_inv {A} (f : Yard -> Yard * Prelude.result A) w w' r :
  system f w = (w', r) ->
  exists w1, spent w w1 /\ y_entries w1 = y_entries w /\
    ((exists k e, w' = w1 /\ r = Err e /\ y_faults w <> [] /\ (honest w -> honest_fault (Fault k e))) \/ f w1 = (w', r)).
Proof.
  unfold system. set (w1 := mkYard _ _ _). intros H. exists w1. split; [|split; [done|]].
  { unfold w1, honest. destruct w as [m [|x xs] t]; split; cbn; try done. by intros [_ ?]%Forall_cons. }
  destruct (hd NoFault (y_faults w)) as [|k e|k] eqn:Hx; [by right| |by right]. left. exists k, e.
  apply pair_equal_spec in H as [<- <-]. split; [done|]. split; [done|]. unfold honest. destruct (y_faults w) as [|x xs]; [done|]. cbn in Hx. subst x.
  split; [done|]. by intros [? _]%Forall_cons.
Qed.

(** A call that answers and changes nothing. *)
Lemma answer_spec {A} (g : Yard -> Prelude.result A) w w' r :
  (forall w1, y_entries w1 = y_entries w -> g w1 = g w) -> answer g w = (w', r) ->
  spent w w' /\ y_entries w' = y_entries w /\ (r = g w \/ exists k e, r = Err e /\ y_faults w <> [] /\ (honest w -> honest_fault (Fault k e))).
Proof.
  intros Hg H. apply system_inv in H as (w1 & Hs & E & [(k & e & -> & -> & Hf)|H]).
  - split; [done|]. split; [done|]. right. by exists k, e.
  - apply pair_equal_spec in H as [<- <-]. split; [done|]. split; [done|]. left. by apply Hg.
Qed.

Section Safe.
Context (Join : FilePath -> list byte -> FilePath) (children : FilePath -> gset FilePath -> list (list byte)).
Context (isPath : FilePath -> bool) (isName : list byte -> bool).

(** What is relied on for clean absolute paths and single names: joined paths tell
    directory and name apart, and a listing has the names of the paths that exist. *)
Record paths_ok : Prop := mkPathsOk {
  pk_path d n : isPath d = true -> isName n = true -> isPath (Join d n) = true;
  pk_inj d n d' n' : isPath d = true -> isPath d' = true -> isName n = true -> isName n' = true -> Join d n = Join d' n' -> d = d' /\ n = n';
  pk_below d n : isPath d = true -> isName n = true -> Join d n <> d;
  pk_children d (names : gset FilePath) n : isPath d = true -> n ∈ children d names <-> Join d n ∈ names /\ isName n = true;
  pk_nodup d names : NoDup (children d names);
  pk_marker : isName sessionMarkerName = true }.
Hypothesis laws : paths_ok.

(** What a file system is: a regular file is no directory, and what lies in
    something lies in a directory. *)
Record yard_ok (m : gmap FilePath entry) : Prop := mkYardOk {
  yk_regular p e : m !! p = Some e -> en_regular e = true -> en_dir e = false;
  yk_parent d n : isPath d = true -> isName n = true -> is_Some (m !! Join d n) -> exists e, m !! d = Some e /\ en_dir e = true }.

Abbreviation marker dir := (Join dir sessionMarkerName).
Abbreviation listed dir m := (children dir (dom m)).

Definition undoName (name : list byte) : bool := strings_HasPrefix name undoPrefix && strings_HasSuffix name undoSuffix.

(** Nothing but the marker and undo files. *)
Definition only_undo (m : gmap FilePath entry) (dir : FilePath) : bool :=
  forallb (fun name => bool_decide (name = sessionMarkerName) ||
    (undoName name && match m !! Join dir name with Some e => en_regular e | None => false end)) (listed dir m).

(** The directory of a session that crashed before [before]. *)
Definition abandoned (m : gmap FilePath entry) (dir : FilePath) (before : Z) : bool :=
  match m !! marker dir with
  | Some e => en_regular e && (en_modTime e <? before) && negb (en_locked e) && bool_decide (en_bytes e = sessionMarkerMagic)
  | None => false
  end && match m !! dir with Some e => en_dir e | None => false end && only_undo m dir.

Definition undo_files (m : gmap FilePath entry) (dir : FilePath) : list FilePath :=
  map (Join dir) (base.filter (fun name => name <> sessionMarkerName) (listed dir m)).

(** What a reclaim may remove. *)
Definition belongings (m : gmap FilePath entry) (dir : FilePath) : list FilePath := undo_files m dir ++ [marker dir; dir].

(** ** Looking *)

Lemma lstat_spec path w w' r :
  lstat path w = (w', r) ->
  spent w w' /\ y_entries w' = y_entries w /\
  (forall e, r = Ok e -> y_entries w !! path = Some e) /\
  (forall e, r = Err e -> honest w -> errors_Is e os_ErrNotExist = true -> y_entries w !! path = None) /\
  (y_faults w = [] -> r = match y_entries w !! path with Some e => Ok e | None => Err os_ErrNotExist end).
Proof using.
  intros H. apply answer_spec in H as (Hs & E & Hr); [|by intros w1 ->]. split; [done|]. split; [done|].
  destruct Hr as [->|(k & e & -> & Hf & Hh)].
  - destruct (y_entries w !! path); split_and!; try done; by intros e' [= <-].
  - split; [done|]. split; [|done]. intros e' [= <-] Hw He. specialize (Hh Hw). cbn in Hh. congruence.
Qed.

Lemma bytes_magic b : ztake (zlen sessionMarkerMagic + 1) b = sessionMarkerMagic <-> b = sessionMarkerMagic.
Proof using.
  split; [|by intros ->]. intros H. pose proof (f_equal zlen H) as Hz. rewrite zlen_ztake in Hz. pose proof (zlen_nonneg sessionMarkerMagic).
  rewrite <-H at 1. symmetry. rewrite ztake_all; [done|]. lia.
Qed.

Lemma undo_paths_spec dir m es : forall paths w w' b paths' e,
  undo_paths Join dir es paths w = (w', (b, paths', e)) -> y_entries w = m -> Forall (fun x => is_Some (m !! Join dir x.1)) es ->
  let good := forallb (fun name => bool_decide (name = sessionMarkerName) ||
    (undoName name && match m !! Join dir name with Some e => en_regular e | None => false end)) (map fst es) in
  spent w w' /\ y_entries w' = m /\
  (b = true -> good = true /\ paths' = paths ++ map (Join dir) (base.filter (fun name => name <> sessionMarkerName) (map fst es))) /\
  (y_faults w = [] -> b = good /\ e = None).
Proof using.
  induction es as [|[name d] es IH]; intros paths w w' b paths' e H Hm Hall; cbn [undo_paths] in H.
  { injection H as <- <- <- <-. split; [done|]. split; [done|]. cbn. by rewrite app_nil_r. }
  apply Forall_cons in Hall as [[x Hx] Hall]. cbn [map fst forallb] in *. cbn [fst] in Hx. case_bool_decide as Hn.
  { subst name. destruct (IH _ _ _ _ _ _ H Hm Hall) as (Hs & E & Hb & Hc). cbn [orb andb].
    rewrite filter_cons_False by (by intros Hne). by split_and!. }
  cbn [orb]. rewrite filter_cons_True by done. unfold undoName. destruct (strings_HasPrefix name undoPrefix), (strings_HasSuffix name undoSuffix); cbn [negb orb andb] in *;
    try (injection H as <- <- <- <-; split_and!; done).
  destruct (lstat (Join dir name) w) as [w1 info] eqn:Hl. apply lstat_spec in Hl as (Hs1 & E1 & Hok & _ & Hc1). rewrite Hm in E1, Hok, Hc1. rewrite Hx in Hc1 |- *.
  destruct info as [info|e1].
  - specialize (Hok _ eq_refl). assert (info = x) as -> by congruence. destruct (en_regular x); cbn [negb andb] in *.
    + destruct (IH _ _ _ _ _ _ H E1 Hall) as (Hs & E & Hb & Hc). split; [by etransitivity|]. split; [done|]. split.
      * intros Ht. destruct (Hb Ht) as [? ->]. split; [done|]. by rewrite <-app_assoc.
      * intros Hf. apply Hc. by apply Hs1.
    + injection H as <- <- <- <-. by split_and!.
  - injection H as <- <- <- <-. split; [done|]. split; [done|]. split; [done|]. intros Hf. by specialize (Hc1 Hf).
Qed.

(** ** Under the lock *)

Lemma unlocked_same (p : FilePath) (m : gmap FilePath entry) e : m !! p = Some e -> en_locked e = false -> alter (lockable false) p m = m.
Proof using.
  intros Hp He. apply map_eq. intros q. destruct (decide (q = p)) as [->|Hne]; [|by rewrite lookup_alter_ne by done].
  rewrite lookup_alter_eq, Hp. cbn. destruct e. cbn in *. by subst.
Qed.
Lemma relock (p : FilePath) (b : bool) (m : gmap FilePath entry) e : m !! p = Some e -> en_locked e = false -> alter (lockable false) p (alter (lockable b) p m) = m.
Proof using.
  intros Hp He. apply map_eq. intros q. destruct (decide (q = p)) as [->|Hne]; [|by rewrite !lookup_alter_ne by done].
  rewrite !lookup_alter_eq, Hp. cbn. destruct e as [d r t by' l]. cbn in *. by subst l.
Qed.

Lemma alter_entry {A} (f : entry -> A) (d : A) (p : FilePath) (b : bool) (m : gmap FilePath entry) q :
  (forall e, f (lockable b e) = f e) ->
  match alter (lockable b) p m !! q with Some e => f e | None => d end = match m !! q with Some e => f e | None => d end.
Proof using.
  intros Hf. destruct (decide (q = p)) as [->|Hne]; [|by rewrite lookup_alter_ne by done]. rewrite lookup_alter_eq. destruct (m !! p); cbn; [apply Hf|done].
Qed.

Lemma unlock_spec p w w' r :
  unlock p w = (w', r) -> spent w w' /\ (y_entries w' = y_entries w \/ y_entries w' = alter (lockable false) p (y_entries w)) /\
  (y_faults w = [] -> r = Ok tt).
Proof using.
  intros H. apply system_inv in H as (w1 & Hs & E & [(k & e & -> & -> & Hf & _)|H]).
  - split; [done|]. split; [by left|]. intros Hc. by destruct (Hf Hc).
  - apply pair_equal_spec in H as [<- <-]. split; [by destruct Hs|]. split; [right; cbn; by rewrite E|done].
Qed.

Lemma close_spec p held w w' r :
  close p held w = (w', r) -> spent w w' /\ y_entries w' = (if held then alter (lockable false) p (y_entries w) else y_entries w) /\
  (y_faults w = [] -> r = Ok tt).
Proof using.
  unfold close. destruct (answer _ w) as [w1 r1] eqn:Ha. apply answer_spec in Ha as (Hs & E & Hr); [|done].
  intros [<- <-]%pair_equal_spec. split; [by destruct held; [destruct Hs|]|]. split; [destruct held; cbn; by rewrite E|].
  intros Hf. destruct Hr as [->|(k & e & _ & Hn & _)]; [done|by destruct (Hn Hf)].
Qed.

Lemma lock_spec p w w' r :
  lock p w = (w', r) -> spent w w' /\
  match r with
  | Ok true => (forall e, y_entries w !! p = Some e -> en_locked e = false) /\ y_entries w' = alter (lockable true) p (y_entries w)
  | Ok false => y_entries w' = y_entries w /\ exists e, y_entries w !! p = Some e /\ en_locked e = true
  | Err _ => y_entries w' = y_entries w /\ y_faults w <> []
  end.
Proof using.
  intros H. apply system_inv in H as (w1 & Hs & E & [(k & e & -> & -> & Hf & _)|H]); [done|]. rewrite E in H.
  destruct (y_entries w !! p) as [e|] eqn:Hp; [destruct (en_locked e) eqn:He|]; apply pair_equal_spec in H as [<- <-].
  - split; [done|]. split; [done|by exists e].
  - split; [by destruct Hs|]. split; [by intros ? [= <-]|cbn; by rewrite E].
  - split; [done|]. split; [done|]. rewrite E. symmetry. apply map_eq. intros q.
    destruct (decide (q = p)) as [->|]; [by rewrite lookup_alter_eq, Hp|by rewrite lookup_alter_ne].
Qed.

Lemma JoinAll_None es : errors_JoinAll es = None -> Forall (fun e => e = None) es.
Proof using.
  induction es as [|e es IH]; [constructor|]. unfold errors_JoinAll in *. cbn. intros H.
  destruct e as [e|], (foldr errors_Join None es); cbn in H; try done. constructor; [done|by apply IH].
Qed.

Lemma readDir_spec dir w w' r :
  readDir Join children dir w = (w', r) ->
  spent w w' /\ y_entries w' = y_entries w /\
  (forall es, r = Ok es -> map fst es = listed dir (y_entries w) /\ exists e, y_entries w !! dir = Some e /\ en_dir e = true) /\
  (y_faults w = [] -> forall e, y_entries w !! dir = Some e -> en_dir e = true -> exists es, r = Ok es).
Proof using.
  intros H. apply answer_spec in H as (Hs & E & Hr); [|by intros w1 ->]. split; [done|]. split; [done|].
  destruct Hr as [->|(k & e & -> & Hf & _)]; [|split; [done|]; intros Hc; by destruct (Hf Hc)]. split.
  - intros es. destruct (y_entries w !! dir) as [e|]; [|done]. destruct (en_dir e) eqn:Hd; [|done]. intros [= <-]. rewrite map_map. cbn. rewrite map_id. eauto.
  - intros _ e -> ->. by eexists.
Qed.

(** What the marker and the listing say together. *)
Definition examined (m : gmap FilePath entry) (dir : FilePath) (e : entry) (calm : Prop) (removable : bool) (paths : list FilePath) (errs : list (option error)) : Prop :=
  (removable = true -> en_bytes e = sessionMarkerMagic /\ only_undo m dir = true /\ paths = undo_files m dir) /\
  (calm -> removable = bool_decide (en_bytes e = sessionMarkerMagic) && only_undo m dir /\ Forall (fun e => e = None) errs).

Lemma only_undo_locked (m : gmap FilePath entry) (dir : FilePath) (b : bool) : only_undo (alter (lockable b) (marker dir) m) dir = only_undo m dir /\ undo_files (alter (lockable b) (marker dir) m) dir = undo_files m dir.
Proof using.
  assert (dom (alter (lockable b) (marker dir) m) = dom m) as Hdom by apply dom_alter_L. unfold only_undo, undo_files. rewrite Hdom. split; [|done].
  induction (listed dir m) as [|n ns IH]; [done|]. cbn [forallb]. rewrite IH. do 3 f_equal. by apply (alter_entry en_regular false).
Qed.

Lemma listed_present (dir : FilePath) (m : gmap FilePath entry) : isPath dir = true -> Forall (fun n => is_Some (m !! Join dir n)) (listed dir m).
Proof using laws. intros Hp. apply Forall_forall. intros n Hn. apply (pk_children laws) in Hn as [Hn _]; [|done]. by apply elem_of_dom. Qed.

Lemma examine_spec dir m e w w1 w2 w3 content entries removable paths statErr :
  readMarker (marker dir) w = (w1, content) -> readDir Join children dir w1 = (w2, entries) ->
  match content, entries with
  | Ok content, Ok entries => if bool_decide (content = sessionMarkerMagic) then undo_paths Join dir entries [] w2 else (w2, (false, [], None))
  | _, _ => (w2, (false, [], None)) end = (w3, (removable, paths, statErr)) ->
  y_entries w = alter (lockable true) (marker dir) m -> yard_ok m -> isPath dir = true -> m !! marker dir = Some e ->
  spent w w3 /\ y_entries w3 = y_entries w /\
  examined m dir e (y_faults w = []) removable paths [failure content; failure entries; statErr].
Proof using laws.
  intros H1 H2 H3 Hw Hyard Hpath He. destruct (only_undo_locked m dir true) as [Ho Hu]. set (m1 := alter _ _ _) in *.
  assert (m1 !! marker dir = Some (lockable true e)) as Hm1 by (unfold m1; by rewrite lookup_alter_eq, He).
  apply answer_spec in H1 as (S1 & E1 & R1); [|by intros v ->]. rewrite Hw, Hm1 in R1. cbn [lockable en_bytes] in R1.
  apply readDir_spec in H2 as (S2 & E2 & R2 & C2). rewrite E1 in E2, R2, C2. assert (spent w w2) as S12 by (by etransitivity).
  assert (y_faults w = [] -> exists es, entries = Ok es) as Hent.
  { intros Hf. destruct (yk_parent _ Hyard dir sessionMarkerName Hpath (pk_marker laws)) as (d & Hd & Hdir); [by eexists|].
    apply (C2 (sp_calm _ _ S1 Hf) (if bool_decide (dir = marker dir) then lockable true d else d)).
    - rewrite Hw. unfold m1. rewrite bool_decide_eq_false_2 by (intros E; by apply (pk_below laws dir sessionMarkerName Hpath (pk_marker laws))).
      rewrite lookup_alter_ne; [done|]. apply (pk_below laws); [done|apply laws].
    - by case_bool_decide. }
  destruct R1 as [->|(k & x & -> & Hn & _)]; cycle 1.
  { injection H3 as <- <- <- <-. split; [done|]. split; [congruence|]. split; [done|]. intros Hf. by destruct (Hn Hf). }
  destruct entries as [es|x]; cycle 1.
  { injection H3 as <- <- <- <-. split; [done|]. split; [congruence|]. split; [done|]. intros Hf. by destruct (Hent Hf). }
  destruct (R2 es eq_refl) as [Hes _]. pose proof (bytes_magic (en_bytes e)) as Hmagic. case_bool_decide as Hc; cycle 1.
  { injection H3 as <- <- <- <-. split; [done|]. split; [congruence|]. split; [done|]. intros Hf. rewrite bool_decide_eq_false_2 by tauto. split; [done|]. by repeat constructor. }
  assert (Forall (fun x => is_Some (m1 !! Join dir x.1)) es) as Hall.
  { apply (Forall_map fst (fun n => is_Some (m1 !! Join dir n)) es). rewrite Hes, Hw. by apply listed_present. }
  destruct (undo_paths_spec dir m1 es _ _ _ _ _ _ H3 (eq_trans E2 Hw) Hall) as (S3 & E3 & Hb & Hcalm). rewrite Hes, Hw in Hb, Hcalm.
  split; [by etransitivity|]. split; [congruence|]. split.
  - intros Ht. destruct (Hb Ht) as [Hg ->]. split; [by apply Hmagic|]. split; [by rewrite <-Ho|by rewrite <-Hu].
  - intros Hf. destruct (Hcalm (sp_calm _ _ S12 Hf)) as [-> ->]. rewrite bool_decide_eq_true_2 by (by apply Hmagic). cbn [andb].
    split; [exact Ho|by repeat constructor].
Qed.

Lemma inspect_locked_spec dir m e w w' r :
  inspect_locked Join children dir w = (w', r) -> y_entries w = alter (lockable true) (marker dir) m -> yard_ok m -> isPath dir = true ->
  m !! marker dir = Some e -> en_locked e = false ->
  spent w w' /\ y_entries w' = m /\
  (forall paths, r = Ok (Some paths) -> en_bytes e = sessionMarkerMagic /\ only_undo m dir = true /\ paths = undo_files m dir) /\
  (y_faults w = [] -> r = Ok (if bool_decide (en_bytes e = sessionMarkerMagic) && only_undo m dir then Some (undo_files m dir) else None)).
Proof using laws.
  intros H Hw Hyard Hpath He Hl. unfold inspect_locked in H. destruct (readMarker (marker dir) w) as [w1 content] eqn:H1.
  destruct (readDir Join children dir w1) as [w2 entries] eqn:H2. destruct (match content with Ok _ => _ | Err _ => _ end) as [w3 [[removable paths] statErr]] eqn:H3.
  destruct (examine_spec dir m e w w1 w2 w3 content entries removable paths statErr H1 H2 H3 Hw Hyard Hpath He) as (S3 & E3 & Hsafe & Hcalm).
  destruct (unlock (marker dir) w3) as [w4 unlockErr] eqn:H4. apply unlock_spec in H4 as (S4 & E4 & C4).
  destruct (close (marker dir) true w4) as [w5 closeErr] eqn:H5. apply close_spec in H5 as (S5 & E5 & C5).
  assert (y_entries w5 = m) as E.
  { rewrite E5. destruct E4 as [-> | ->]; rewrite E3, Hw; rewrite (relock _ true m e He Hl); [done|]. by eapply unlocked_same. }
  assert (spent w w5) as S by (etransitivity; [exact S3|by etransitivity]).
  destruct (errors_JoinAll _) as [x|] eqn:Hj; apply pair_equal_spec in H as [<- <-].
  - split; [done|]. split; [done|]. split; [done|]. intros Hf. exfalso. destruct (Hcalm Hf) as [_ Herr].
    pose proof (sp_calm _ _ S3 Hf) as F3. rewrite (C4 F3), (C5 (sp_calm _ _ S4 F3)) in Hj.
    apply Forall_cons in Herr as [H6 [H7 [H8 _]%Forall_cons]%Forall_cons]. rewrite H6, H7, H8 in Hj. discriminate Hj.
  - split; [done|]. split; [done|]. split.
    + intros ps Hp. destruct removable; [|done]. injection Hp as <-. by apply Hsafe.
    + intros Hf. destruct (Hcalm Hf) as [Hr _]. destruct removable; rewrite <-Hr; [|done]. by destruct (Hsafe eq_refl) as (_ & _ & ->).
Qed.

Lemma inspect_spec dir before w w' r :
  inspect Join children dir before w = (w', r) -> yard_ok (y_entries w) -> isPath dir = true ->
  spent w w' /\ y_entries w' = y_entries w /\
  (forall paths, r = Ok (Some paths) -> abandoned (y_entries w) dir before = true /\ paths = undo_files (y_entries w) dir) /\
  (y_faults w = [] -> r = Ok (if abandoned (y_entries w) dir before then Some (undo_files (y_entries w) dir) else None)).
Proof using laws.
  intros H Hyard Hpath. unfold inspect in H. destruct (lstat (marker dir) w) as [w1 info] eqn:H1. apply lstat_spec in H1 as (S1 & E1 & O1 & _ & C1).
  unfold abandoned. destruct info as [e|x].
  2:{ apply pair_equal_spec in H as [<- <-]. split; [done|]. split; [done|]. split; [intros paths; by destruct (errors_Is x os_ErrNotExist)|].
      intros Hf. specialize (C1 Hf). destruct (y_entries w !! marker dir); [done|]. by injection C1 as ->. }
  specialize (O1 e eq_refl). rewrite O1.
  destruct (en_regular e && (en_modTime e <? before)) eqn:Hold.
  2:{ rewrite <-negb_andb, Hold in H. apply pair_equal_spec in H as [<- <-]. by split_and!. }
  rewrite <-negb_andb, Hold in H. cbn [negb andb] in H |- *. apply andb_prop in Hold as [Hreg _].
  destruct (openFile (marker dir) w1) as [w2 op] eqn:H2. apply answer_spec in H2 as (S2 & E2 & R2); [|by intros v ->].
  rewrite E1, O1, (yk_regular _ Hyard _ _ O1 Hreg) in R2. rewrite E1 in E2. assert (spent w w2) as S12 by (by etransitivity).
  destruct (yk_parent _ Hyard dir sessionMarkerName Hpath (pk_marker laws)) as (d & Hd & Hdir); [by eexists|]. rewrite Hd, Hdir.
  destruct op as [[]|x].
  2:{ apply pair_equal_spec in H as [<- <-]. split; [done|]. split; [done|]. split; [done|]. intros Hf. destruct R2 as [R2|(? & ? & _ & Hn & _)]; [done|].
      by destruct (Hn (sp_calm _ _ S1 Hf)). }
  clear R2. destruct (lock (marker dir) w2) as [w3 locked] eqn:H3. apply lock_spec in H3 as (S3 & R3). rewrite E2 in R3.
  assert (spent w w3) as S13 by (by etransitivity). destruct locked as [[|]|x].
  - destruct R3 as [Hun E3]. specialize (Hun e O1). rewrite Hun. cbn [negb andb].
    destruct (inspect_locked_spec dir (y_entries w) e w3 w' r H E3 Hyard Hpath O1 Hun) as (S4 & E4 & O4 & C4). split; [by etransitivity|]. split; [done|]. split.
    + intros paths ->. destruct (O4 paths eq_refl) as (Hb & -> & ->). by rewrite bool_decide_eq_true_2.
    + intros Hf. rewrite (C4 (sp_calm _ _ S13 Hf)). by rewrite andb_true_r.
  - destruct R3 as (E3 & e' & He' & Hl). assert (e' = e) as -> by congruence. rewrite Hl. cbn [negb andb].
    destruct (close (marker dir) false w3) as [w4 c] eqn:H4. apply close_spec in H4 as (S4 & E4 & _). apply pair_equal_spec in H as [<- <-].
    cbn [fst]. split; [by etransitivity|]. split; [congruence|]. by split.
  - destruct R3 as [E3 Hn]. destruct (close (marker dir) false w3) as [w4 c] eqn:H4. apply close_spec in H4 as (S4 & E4 & _). apply pair_equal_spec in H as [<- <-].
    cbn [fst]. split; [by etransitivity|]. split; [congruence|]. split; [done|]. intros Hf. by destruct (Hn (sp_calm _ _ S12 Hf)).
Qed.

(** ** Removing *)

(** Only the paths [ps] may be gone. *)
Definition removed (ps : list FilePath) (m m' : gmap FilePath entry) : Prop := forall q, m' !! q = m !! q \/ (q ∈ ps /\ m' !! q = None).

Lemma removed_refl ps m : removed ps m m.
Proof using. by left. Qed.
Lemma removed_trans ps m1 m2 m3 : removed ps m1 m2 -> removed ps m2 m3 -> removed ps m1 m3.
Proof using. intros H1 H2 q. destruct (H2 q) as [->|?]; [|by right]. destruct (H1 q) as [->|?]; [by left|by right]. Qed.
Lemma removed_sub ps qs m m' : removed ps m m' -> ps ⊆ qs -> removed qs m m'.
Proof using. intros H Hs q. destruct (H q) as [?|[? ?]]; [by left|right; auto]. Qed.
Lemma removed_gone ps m m' q : removed ps m m' -> m !! q = None -> m' !! q = None.
Proof using. intros H Hq. destruct (H q) as [->|[_ ?]]; done. Qed.
Lemma removed_back ps m m' q e : removed ps m m' -> m' !! q = Some e -> m !! q = Some e.
Proof using. intros H Hq. destruct (H q) as [<-|[_ ?]]; [done|congruence]. Qed.

(** A removal, from a well-formed file system. *)
Record removal (ps : list FilePath) (w w' : Yard) : Prop := mkRemoval {
  rl_spent : spent w w';
  rl_removed : removed ps (y_entries w) (y_entries w');
  rl_ok : yard_ok (y_entries w') }.

Lemma removal_trans ps w1 w2 w3 : removal ps w1 w2 -> removal ps w2 w3 -> removal ps w1 w3.
Proof using. intros [S1 R1 _] [S2 R2 K]. split; [by etransitivity|by eapply removed_trans|done]. Qed.
Lemma removal_sub ps qs w w' : removal ps w w' -> ps ⊆ qs -> removal qs w w'.
Proof using. intros [S R K] Hs. split; [done|by eapply removed_sub|done]. Qed.

(** What is not an empty directory stays. *)
Definition removable (m : gmap FilePath entry) (p : FilePath) : Prop := forall e, m !! p = Some e -> en_dir e = false \/ listed p m = [].

Lemma delete_ok m p e : yard_ok m -> m !! p = Some e -> (listed p m = [] \/ en_dir e = false) -> yard_ok (delete p m).
Proof using laws.
  intros Hm Hp Hempty. split.
  - intros q x [_ Hq]%lookup_delete_Some Hx. by apply (yk_regular _ Hm q).
  - intros d n Hpath Hn [x [Hne Hx]%lookup_delete_Some]. destruct (yk_parent _ Hm d n Hpath Hn) as (y & Hy & Hd); [by eexists|]. exists y. split; [|done].
    apply lookup_delete_Some. split; [|done]. intros <-. assert (y = e) as -> by congruence. destruct Hempty as [Hl|?]; [|congruence].
    assert (n ∈ listed p m) as Hin by (apply (pk_children laws); [done|]; split; [apply elem_of_dom; by eexists|done]). rewrite Hl in Hin. by apply elem_of_nil in Hin.
Qed.

Lemma remove_existing_spec p w w' r :
  remove_existing children p w = (w', r) -> yard_ok (y_entries w) ->
  removal [p] w w' /\ (honest w -> r = Ok tt -> y_entries w' !! p = None) /\
  (y_faults w = [] -> removable (y_entries w) p -> r = Ok tt).
Proof using laws.
  unfold remove_existing. intros H Hm. destruct (remove children p w) as [w1 r1] eqn:Hr. apply pair_equal_spec in H as [<- Er].
  apply system_inv in Hr as (w0 & Hs & E & [(k & e & -> & -> & Hf & Hh)|Hr]).
  { split; [split; [done|rewrite E; apply removed_refl|by rewrite E]|]. split; [|intros Hc; by destruct (Hf Hc)].
    intros Hw ->. specialize (Hh Hw). cbn in Hh. by rewrite Hh in Er. }
  rewrite E in Hr. destruct (y_entries w !! p) as [e|] eqn:Hp; cycle 1.
  { apply pair_equal_spec in Hr as [<- <-]. split; [split; [done|rewrite E; apply removed_refl|by rewrite E]|]. split; [by rewrite E|by subst r]. }
  assert (forall v, v = set_entries (delete p (y_entries w)) w0 -> (listed p (y_entries w) = [] \/ en_dir e = false) ->
    removal [p] w v /\ y_entries v !! p = None) as Hdel.
  { intros v -> Hempty. split; [split|apply lookup_delete_eq].
    - by destruct Hs.
    - intros q. cbn. destruct (decide (q = p)) as [->|]; [right; split; [by left|apply lookup_delete_eq]|left; by apply lookup_delete_ne].
    - by eapply delete_ok. }
  destruct (listed p (y_entries w)) as [|n ns] eqn:Hl; [|destruct (en_dir e) eqn:Hd]; apply pair_equal_spec in Hr as [<- <-].
  - destruct (Hdel _ eq_refl) as [R1 R2]; [by left|]. split; [done|]. split; [done|by subst r].
  - split; [split; [done|rewrite E; apply removed_refl|by rewrite E]|]. subst r. split; [done|]. intros _ Hrem.
    destruct (Hrem e Hp) as [?|Hx]; [congruence|]. by rewrite Hl in Hx.
  - destruct (Hdel _ eq_refl) as [R1 R2]; [by right|]. split; [done|]. split; [done|by subst r].
Qed.

Lemma lockable_ok m p b : yard_ok m -> yard_ok (alter (lockable b) p m).
Proof using.
  intros Hm. assert (forall q e, alter (lockable b) p m !! q = Some e -> exists e0, m !! q = Some e0 /\ en_regular e0 = en_regular e /\ en_dir e0 = en_dir e) as Hback.
  { intros q e He. destruct (decide (q = p)) as [->|Hne]; [|rewrite lookup_alter_ne in He by done; by exists e].
    rewrite lookup_alter_eq in He. apply fmap_Some in He as (e0 & He0 & ->). by exists e0. }
  split.
  - intros q e (e0 & He0 & Hr & <-)%Hback Hreg. apply (yk_regular _ Hm q e0 He0). congruence.
  - intros d n Hd Hn [x (x0 & Hx0 & _)%Hback]. destruct (yk_parent _ Hm d n Hd Hn) as (e & He & Hdir); [by eexists|].
    destruct (decide (d = p)) as [->|Hne]; [|exists e; by rewrite lookup_alter_ne by done]. exists (lockable b e). by rewrite lookup_alter_eq, He.
Qed.

(** Closing a marker takes its file away and touches no other; without faults it
    succeeds.  A second close does nothing. *)
Lemma closeMarker_spec path w w' m' err :
  closeMarker children (Some path) w = (w', m', err) -> yard_ok (y_entries w) ->
  m' = None /\ closeMarker children m' w' = (w', None, None) /\ yard_ok (y_entries w') /\
  (forall q, q <> path -> y_entries w' !! q = y_entries w !! q) /\
  (honest w -> err = None -> y_entries w' !! path = None) /\
  (forall e, y_faults w = [] -> y_entries w !! path = Some e -> en_regular e = true -> err = None).
Proof using laws.
  cbn. destruct (unlock path w) as [w1 r1] eqn:H1. destruct (close path true w1) as [w2 r2] eqn:H2. destruct (remove_existing children path w2) as [w3 r3] eqn:H3.
  apply unlock_spec in H1 as (S1 & E1 & C1). apply close_spec in H2 as (S2 & E2 & C2). intros H Hm. injection H as <- <- <-.
  assert (yard_ok (y_entries w2)) as Hm2 by (rewrite E2; apply lockable_ok; destruct E1 as [->| ->]; [done|by apply lockable_ok]).
  destruct (remove_existing_spec _ _ _ _ H3 Hm2) as ([S3 R3 K3] & G3 & C3).
  split; [done|]. split; [done|]. split; [done|]. split; [|split].
  - intros q Hq. destruct (R3 q) as [->|[Hin _]]; [|by apply list_elem_of_singleton in Hin].
    rewrite E2, lookup_alter_ne by done. destruct E1 as [->| ->]; [done|]. by rewrite lookup_alter_ne by done.
  - change (honest w -> errors_JoinAll [failure r1; failure r2; failure r3] = None -> y_entries w3 !! path = None).
    intros Hw He%JoinAll_None. rewrite !Forall_cons in He. destruct He as (_ & _ & He & _). apply G3; [by apply S2, S1|]. by destruct r3 as [[]|].
  - intros e Hc He Hreg. rewrite C1, C2 by (try apply S1; done). rewrite C3; [done|by apply S2, S1|].
    intros x Hx. left. apply (yk_regular _ Hm2 path x Hx). rewrite E2, lookup_alter_eq in Hx.
    destruct E1 as [E1|E1]; rewrite E1, ?lookup_alter_eq, He in Hx; by injection Hx as <-.
Qed.

Lemma removable_removed ps m m' p : removed ps m m' -> (forall e, m !! p = Some e -> en_dir e = false) -> removable m' p.
Proof using. intros Hr Hp e He. left. apply Hp. by eapply removed_back. Qed.

Lemma remove_paths_spec ps : forall w w' r,
  remove_paths children ps w = (w', r) -> yard_ok (y_entries w) ->
  removal ps w w' /\ (honest w -> r = Ok tt -> Forall (fun p => y_entries w' !! p = None) ps) /\
  (y_faults w = [] -> Forall (fun p => forall e, y_entries w !! p = Some e -> en_dir e = false) ps -> r = Ok tt).
Proof using laws.
  induction ps as [|p ps IH]; intros w w' r H Hm; cbn [remove_paths] in H.
  { injection H as <- <-. split; [split; [done|apply removed_refl|done]|]. by split. }
  assert ([p] ⊆ p :: ps /\ ps ⊆ p :: ps) as [Sub1 Sub2] by (split; intros q; set_solver).
  split_eff H; destruct (remove_existing_spec _ _ _ _ Hc Hm) as (R1 & G1 & C1).
  { split; [by eapply removal_sub|]. split; [done|]. intros Hf Hall. apply Forall_cons in Hall as [Hp _].
    apply C1; [done|]. intros x Hx. left. by apply Hp. }
  destruct a. destruct (IH _ _ _ H (rl_ok _ _ _ R1)) as (R2 & G2 & C2). split; [|split].
  - eapply removal_trans; by eapply removal_sub.
  - intros Hw ->. constructor; [eapply removed_gone; [apply R2|by apply G1]|]. apply G2; [|done]. by apply R1.
  - intros Hf Hall. apply Forall_cons in Hall as [_ Hall]. apply C2; [by apply R1|]. eapply Forall_impl; [exact Hall|].
    intros q Hq e He. apply Hq. eapply removed_back; [apply R1|done].
Qed.

Lemma only_undo_names m dir : only_undo m dir = true <->
  forall n, n ∈ listed dir m -> n = sessionMarkerName \/ (undoName n = true /\ exists e, m !! Join dir n = Some e /\ en_regular e = true).
Proof using.
  unfold only_undo. rewrite forallb_forall. split; intros H n Hn.
  - apply list_elem_of_In in Hn. specialize (H n Hn). apply orb_true_iff in H as [H%bool_decide_eq_true|[H1 H2]%andb_prop]; [by left|right].
    split; [done|]. destruct (m !! Join dir n); eauto; done.
  - apply list_elem_of_In in Hn. destruct (H n Hn) as [->|(Hu & e & -> & He)]; [by rewrite bool_decide_eq_true_2|]. by rewrite Hu, He, orb_true_r.
Qed.

Lemma abandoned_parts m dir before : abandoned m dir before = true ->
  (exists e, m !! marker dir = Some e /\ en_regular e = true /\ en_modTime e < before /\ en_locked e = false /\ en_bytes e = sessionMarkerMagic) /\
  (exists d, m !! dir = Some d /\ en_dir d = true) /\ only_undo m dir = true.
Proof using.
  unfold abandoned. intros [[H1 H2]%andb_prop H3]%andb_prop. split; [|split; [|done]].
  - destruct (m !! marker dir) as [e|]; [|done]. exists e. split; [done|].
    apply andb_prop in H1 as [[[-> Ht]%andb_prop Hl%negb_true_iff]%andb_prop Hb%bool_decide_eq_true]. split; [done|]. split; [lia|done].
  - destruct (m !! dir) as [d|]; [|done]. by exists d.
Qed.

Lemma remove_session_spec dir before w w' r :
  remove_session Join children dir (undo_files (y_entries w) dir) w = (w', r) -> yard_ok (y_entries w) -> isPath dir = true -> abandoned (y_entries w) dir before = true ->
  removal (belongings (y_entries w) dir) w w' /\
  (honest w -> r = Ok true -> Forall (fun p => y_entries w' !! p = None) (belongings (y_entries w) dir)) /\
  (y_faults w = [] -> r = Ok true) /\ r <> Ok false.
Proof using laws.
  intros H Hm Hpath Hab. destruct (abandoned_parts _ _ _ Hab) as ((e & He & Hreg & _) & (d & Hd & Hdir) & Honly). pose proof (proj1 (only_undo_names _ _) Honly) as Hnames.
  set (m := y_entries w) in *. set (ps := undo_files m dir) in *. unfold remove_session in H.
  assert (ps ⊆ belongings m dir /\ [marker dir] ⊆ belongings m dir /\ [dir] ⊆ belongings m dir) as (Sub1 & Sub2 & Sub3)
    by (unfold belongings; fold ps; split_and!; intros q; set_solver).
  assert (Forall (fun p => forall x, m !! p = Some x -> en_dir x = false) ps) as Hfiles.
  { apply Forall_forall. intros p (n & -> & Hn)%list_elem_of_fmap x Hx. apply list_elem_of_filter in Hn as [Hne Hn].
    destruct (Hnames n Hn) as [->|(_ & y & Hy & Hr)]; [done|]. assert (y = x) as -> by congruence. by apply (yk_regular _ Hm _ _ Hy). }
  split_eff H; destruct (remove_paths_spec _ _ _ _ Hc Hm) as (R1 & G1 & C1).
  { split; [by eapply removal_sub|]. split; [done|]. split; [|done]. intros Hf. by specialize (C1 Hf Hfiles). }
  assert (removable (y_entries w0) (marker dir)) as Hmk.
  { eapply removable_removed; [apply R1|]. intros x Hx. assert (x = e) as -> by (fold m in Hx; congruence). by apply (yk_regular _ Hm _ _ He). }
  split_eff H; destruct (remove_existing_spec _ _ _ _ Hc0 (rl_ok _ _ _ R1)) as (R2 & G2 & C2).
  { split; [eapply removal_trans; by eapply removal_sub|]. split; [done|]. split; [|done]. intros Hf. by specialize (C2 (sp_calm _ _ (rl_spent _ _ _ R1) Hf) Hmk). }
  destruct a, a0. assert (removal (belongings m dir) w w1) as R12 by (eapply removal_trans; by eapply removal_sub).
  assert (honest w -> forall n, n ∈ listed dir m -> y_entries w1 !! Join dir n = None) as Hgone.
  { intros Hw n Hn. destruct (decide (n = sessionMarkerName)) as [->|Hne]; [apply G2; [by apply R1|done]|].
    eapply removed_gone; [apply R2|]. specialize (G1 Hw eq_refl). rewrite Forall_forall in G1. apply G1, list_elem_of_fmap. exists n. split; [done|]. by apply list_elem_of_filter. }
  assert (honest w -> listed dir (y_entries w1) = []) as Hempty.
  { intros Hw. apply elem_of_nil_inv. intros n Hn. apply (pk_children laws) in Hn as [Hn Hname]; [|done]. apply elem_of_dom in Hn as [x Hx].
    assert (n ∈ listed dir m) as Hin by (apply (pk_children laws); [done|]; split; [apply elem_of_dom; exists x; by eapply removed_back; [apply R12|]|done]).
    rewrite (Hgone Hw n Hin) in Hx. done. }
  assert (y_faults w = [] -> honest w) as Hcalm by (intros Hf; unfold honest; by rewrite Hf).
  split_eff H; destruct (remove_existing_spec _ _ _ _ Hc1 (rl_ok _ _ _ R2)) as (R3 & G3 & C3).
  { split; [eapply removal_trans; [exact R12|by eapply removal_sub]|]. split; [done|]. split; [|done]. intros Hf.
    specialize (C3 (sp_calm _ _ (rl_spent _ _ _ R12) Hf)). assert (removable (y_entries w1) dir) as Hrd by (intros x _; right; by apply Hempty, Hcalm). by specialize (C3 Hrd). }
  destruct a. injection H as <- <-. split; [eapply removal_trans; [exact R12|by eapply removal_sub]|]. split; [|by split].
  intros Hw _. apply Forall_app. split; [|constructor; [|constructor; [|constructor]]].
  - specialize (G1 Hw eq_refl). eapply Forall_impl; [exact G1|]. intros q Hq. eapply removed_gone; [apply R3|]. by eapply removed_gone; [apply R2|].
  - eapply removed_gone; [apply R3|]. apply G2; [by apply R1|done].
  - apply G3; [by apply R12|done].
Qed.

(** ** One directory *)

(** A directory that is not abandoned is left alone; what is removed of an
    abandoned one is its own; a success leaves nothing; without faults it succeeds. *)
Record reclaim_outcome (dir : FilePath) (before : Z) (w w' : Yard) (r : Prelude.result bool) : Prop := mkReclaimOutcome {
  ro_removal : removal (belongings (y_entries w) dir) w w';
  ro_spares : abandoned (y_entries w) dir before = false -> y_entries w' = y_entries w /\ r <> Ok true;
  ro_refuses : r = Ok false -> y_entries w' = y_entries w;
  ro_gone : honest w -> r = Ok true -> Forall (fun p => y_entries w' !! p = None) (belongings (y_entries w) dir);
  ro_calm : y_faults w = [] -> r = Ok (abandoned (y_entries w) dir before) }.

Lemma reclaim_spec dir before w w' r :
  reclaimSessionDirectoryWith Join children dir before w = (w', r) -> yard_ok (y_entries w) -> isPath dir = true -> reclaim_outcome dir before w w' r.
Proof using laws.
  unfold reclaimSessionDirectoryWith. intros H Hm Hpath.
  assert (forall v, spent w v -> y_entries v = y_entries w -> removal (belongings (y_entries w) dir) w v) as Hkeep.
  { intros v Hs E. split; [done|rewrite E; apply removed_refl|by rewrite E]. }
  split_eff H; destruct (inspect_spec _ _ _ _ _ Hc Hm Hpath) as (S & E & O & C).
  { split; [by apply Hkeep|done|done|done|]. intros Hf. by specialize (C Hf). }
  destruct a as [paths|].
  - destruct (O paths eq_refl) as [Hab ->]. rewrite <-E in H, Hm, Hab. destruct (remove_session_spec _ _ _ _ _ H Hm Hpath Hab) as ([S2 R K] & G & C2 & Hne). rewrite E in *.
    split; [split; [by etransitivity|done|done]|congruence|done| |].
    + intros Hw. apply G. by apply S.
    + intros Hf. rewrite Hab. apply C2. by apply S.
  - injection H as <- <-. split; [by apply Hkeep|done|done|done|]. intros Hf. specialize (C Hf). by destruct (abandoned _ _ _).
Qed.

(** ** A root *)

Lemma Join_apart root a b n : isPath root = true -> isName a = true -> isName b = true -> isName n = true -> a <> b ->
  Join (Join root a) n <> Join root b /\ Join root a <> Join (Join root b) n /\ Join root a <> Join root b.
Proof using laws.
  intros Hr Ha Hb Hn Hne. pose proof (pk_path laws _ _ Hr Ha). pose proof (pk_path laws _ _ Hr Hb). split; [|split].
  - intros [E _]%(pk_inj laws); try done. by apply (pk_below laws root a).
  - intros [E _]%(pk_inj laws); try done. apply (pk_below laws root b); congruence.
  - by intros [_ E]%(pk_inj laws).
Qed.

Lemma belongings_spec m dir q : isPath dir = true -> q ∈ belongings m dir -> q = dir \/ exists n, isName n = true /\ q = Join dir n.
Proof using laws.
  unfold belongings, undo_files. intros Hp [(n & -> & Hn)%list_elem_of_fmap|[->|[->|[]%elem_of_nil]%elem_of_cons]%elem_of_cons]%elem_of_app; [|right|by left].
  - right. exists n. split; [|done]. apply list_elem_of_filter in Hn as [_ Hn]. by apply (pk_children laws) in Hn as [_ ?].
  - exists sessionMarkerName. split; [apply laws|done].
Qed.

(** Reclaiming one directory does not touch its siblings. *)
Lemma sibling_apart m root a b q : isPath root = true -> isName a = true -> isName b = true -> a <> b -> q ∈ belongings m (Join root a) ->
  q <> Join root b /\ forall n, isName n = true -> q <> Join (Join root b) n.
Proof using laws.
  intros Hr Ha Hb Hne Hq. pose proof (pk_path laws _ _ Hr Ha). pose proof (pk_path laws _ _ Hr Hb). apply belongings_spec in Hq as [->|(n & Hn & ->)]; [| |done].
  - split; [by apply (Join_apart root a b sessionMarkerName); try done; apply laws|]. intros n Hn. by apply (Join_apart root a b n).
  - split; [by apply (Join_apart root a b n)|]. intros n' Hn' [E _]%(pk_inj laws); try done. by apply (Join_apart root a b n) in E.
Qed.

Lemma listed_same (m m' : gmap FilePath entry) (dir : FilePath) :
  isPath dir = true -> (forall n, isName n = true -> m' !! Join dir n = m !! Join dir n) -> forall n, n ∈ listed dir m' <-> n ∈ listed dir m.
Proof using laws.
  intros Hp H n. rewrite !(pk_children laws), !elem_of_dom by done. unfold is_Some. split; intros [? Hn]; (split; [|done]); [rewrite <-H|rewrite H]; done.
Qed.

Lemma abandoned_same m m' dir before :
  isPath dir = true -> m' !! dir = m !! dir -> (forall n, isName n = true -> m' !! Join dir n = m !! Join dir n) ->
  abandoned m' dir before = abandoned m dir before.
Proof using laws.
  intros Hp Hd Hn. unfold abandoned. rewrite Hd, Hn by apply laws. f_equal. apply eq_true_iff_eq. rewrite !only_undo_names.
  pose proof (listed_same _ _ _ Hp Hn) as Hl. split; intros H n Hin; pose proof Hin as Hname; apply (pk_children laws) in Hname as [_ Hname]; try done.
  - rewrite <-Hn by done. by apply H, Hl.
  - rewrite Hn by done. by apply H, Hl.
Qed.

(** What a root-wide reclaim may remove. *)
Definition reclaimed_paths (m m' : gmap FilePath entry) (root : FilePath) (before : Z) (names : list (list byte)) : Prop :=
  forall q, m' !! q = m !! q \/ (m' !! q = None /\ exists n, n ∈ names /\ abandoned m (Join root n) before = true /\ (q = Join root n \/ exists k, isName k = true /\ q = Join (Join root n) k)).

(** The sub-directories that a calm system reclaims. *)
Definition stale (m : gmap FilePath entry) (root : FilePath) (before : Z) (es : list (list byte * bool)) : Z :=
  zlen (base.filter (fun x : list byte * bool => x.2 && abandoned m (Join root x.1) before) es).

Lemma sibling_same m m' root a b before :
  isPath root = true -> isName a = true -> isName b = true -> a <> b -> removed (belongings m (Join root a)) m m' ->
  abandoned m' (Join root b) before = abandoned m (Join root b) before.
Proof using laws.
  intros Hp Ha Hb Hne Hr. apply abandoned_same; [by apply (pk_path laws)| |intros n Hn].
  - destruct (Hr (Join root b)) as [?|[Hin _]]; [done|]. by destruct (sibling_apart _ _ _ _ _ Hp Ha Hb Hne Hin).
  - destruct (Hr (Join (Join root b) n)) as [?|[Hin _]]; [done|]. destruct (sibling_apart _ _ _ _ _ Hp Ha Hb Hne Hin) as [_ Hx]. by destruct (Hx n Hn).
Qed.

Lemma sibling_names m m' root a b n :
  isPath root = true -> isName a = true -> isName b = true -> a <> b -> removed (belongings m (Join root a)) m m' -> isName n = true ->
  m' !! Join (Join root b) n = m !! Join (Join root b) n.
Proof using laws.
  intros Hp Ha Hb Hne Hr Hn. destruct (Hr (Join (Join root b) n)) as [?|[Hin _]]; [done|].
  destruct (sibling_apart _ _ _ _ _ Hp Ha Hb Hne Hin) as [_ Hx]. by destruct (Hx n Hn).
Qed.

(** Nothing is left of a directory. *)
Definition gone (m m' : gmap FilePath entry) (dir : FilePath) : Prop := Forall (fun p => m' !! p = None) (belongings m dir).

Lemma gone_same m1 m m' dir : isPath dir = true -> (forall n, isName n = true -> m1 !! Join dir n = m !! Join dir n) ->
  gone m1 m' dir -> gone m m' dir.
Proof using laws.
  intros Hp Hn. unfold gone. rewrite !Forall_forall. intros H q Hq. apply H. revert Hq. unfold belongings, undo_files. rewrite !elem_of_app.
  intros [Hq|?]; [left|by right]. apply list_elem_of_fmap in Hq as (n & -> & Hq). apply list_elem_of_fmap. exists n. split; [done|].
  apply list_elem_of_filter in Hq as [? Hq]. apply list_elem_of_filter. split; [done|]. by apply (listed_same m m1).
Qed.

Lemma gone_later m m1 m2 root before names dir : gone m m1 dir -> reclaimed_paths m1 m2 root before names -> gone m m2 dir.
Proof using.
  unfold gone. rewrite !Forall_forall. intros H Hr q Hq. destruct (Hr q) as [->|[? _]]; [by apply H|done].
Qed.

(** The directories counted as reclaimed: crashed ones of which nothing is left. *)
Definition counted (m m' : gmap FilePath entry) (root : FilePath) (before : Z) (listing : list (list byte)) (n : Z) : Prop := exists names,
  NoDup names /\ zlen names = n /\
  Forall (fun a => a ∈ listing /\ abandoned m (Join root a) before = true /\ gone m m' (Join root a)) names.

Lemma stale_same m m' root before es :
  Forall (fun x : list byte * bool => abandoned m' (Join root x.1) before = abandoned m (Join root x.1) before) es ->
  stale m' root before es = stale m root before es.
Proof using.
  unfold stale. induction 1 as [|x es Hx _ IH]; [done|]. rewrite !filter_cons, Hx. destruct (decide _); [|done]. rewrite !zlen_cons. by f_equal.
Qed.

Lemma reclaim_entries_spec root before es : forall stats cleanupErr w w' stats' err,
  reclaim_entries Join children root before es stats cleanupErr w = (w', (stats', err)) -> yard_ok (y_entries w) -> isPath root = true -> NoDup (map fst es) -> Forall (fun n => isName n = true) (map fst es) ->
  spent w w' /\ yard_ok (y_entries w') /\ reclaimed_paths (y_entries w) (y_entries w') root before (map fst es) /\
  Scanned stats' = Scanned stats + zlen (base.filter (fun x : list byte * bool => x.2) es) /\
  Scanned stats' - Reclaimed stats' - Skipped stats' = Scanned stats - Reclaimed stats - Skipped stats /\
  (y_faults w = [] -> err = cleanupErr /\ Reclaimed stats' = Reclaimed stats + stale (y_entries w) root before es /\
     forall n, (n, true) ∈ es -> abandoned (y_entries w) (Join root n) before = true -> gone (y_entries w) (y_entries w') (Join root n)) /\
  (honest w -> counted (y_entries w) (y_entries w') root before (map fst es) (Reclaimed stats' - Reclaimed stats)).
Proof using laws.
  induction es as [|[n d] es IH]; intros stats cleanupErr w w' stats' err H Hm Hpath Hnd Hnames; cbn [reclaim_entries] in H.
  { injection H as <- <- <-. split; [done|]. split; [done|]. split; [by left|]. cbn. rewrite !Z.add_0_r, Z.sub_diag.
    split; [done|]. split; [done|]. split; [|intros _; by exists []]. intros _. split; [done|]. split; [done|]. by intros n Hn%elem_of_nil. }
  cbn [map fst] in Hnd, Hnames. apply NoDup_cons in Hnd as [Hn Hnd]. apply Forall_cons in Hnames as [Hname Hnames].
  assert (forall m m' : gmap FilePath entry, reclaimed_paths m m' root before (map fst es) -> reclaimed_paths m m' root before (n :: map fst es)) as Hmore.
  { intros m m' Hr q. destruct (Hr q) as [?|(? & k & ? & ?)]; [by left|right]. split; [done|]. exists k. split; [by right|done]. }
  destruct d; cbn [negb] in H; cycle 1.
  { destruct (IH _ _ _ _ _ _ H Hm Hpath Hnd Hnames) as (S & K & R & E1 & E2 & C & N). split; [done|]. split; [done|]. split; [by apply Hmore|].
    unfold stale in *. rewrite !filter_cons_False by (by intros []). split; [done|]. split; [done|]. split.
    - intros Hf. destruct (C Hf) as (? & ? & Hg). split; [done|]. split; [done|]. intros k [[=]|Hk]%elem_of_cons. by apply Hg.
    - intros Hw. destruct (N Hw) as (names & ? & ? & Hall). exists names. split; [done|]. split; [done|]. eapply Forall_impl; [exact Hall|].
      intros k (? & ? & ?). split; [by right|done]. }
  destruct (reclaimSessionDirectoryWith Join children (Join root n) before w) as [w1 r1] eqn:H1.
  destruct (reclaim_spec _ _ _ _ _ H1 Hm (pk_path laws _ _ Hpath Hname)) as [[S1 R1 K1] Hspare Hrefuse Hgone Hcalm]. set (m := y_entries w) in *.
  assert (forall k, k ∈ map fst es -> abandoned (y_entries w1) (Join root k) before = abandoned m (Join root k) before) as Hsame.
  { intros k Hk. eapply sibling_same; [done|exact Hname| | |exact R1]; [rewrite Forall_forall in Hnames; by apply Hnames|by intros ->]. }
  assert (stale (y_entries w1) root before es = stale m root before es) as Hst.
  { apply stale_same, Forall_forall. intros x Hx. apply Hsame, list_elem_of_fmap. by exists x. }
  assert (forall stats1 e1, reclaim_entries Join children root before es stats1 e1 w1 = (w', (stats', err)) ->
    spent w w' /\ yard_ok (y_entries w') /\ reclaimed_paths m (y_entries w') root before (n :: map fst es) /\
    Scanned stats' = Scanned stats1 + zlen (base.filter (fun x : list byte * bool => x.2) es) /\
    Scanned stats' - Reclaimed stats' - Skipped stats' = Scanned stats1 - Reclaimed stats1 - Skipped stats1 /\
    (y_faults w = [] -> err = e1 /\ Reclaimed stats' = Reclaimed stats1 + stale m root before es /\
       forall k, (k, true) ∈ es -> abandoned m (Join root k) before = true -> gone m (y_entries w') (Join root k)) /\
    (honest w -> counted m (y_entries w') root before (map fst es) (Reclaimed stats' - Reclaimed stats1)) /\
    (gone m (y_entries w1) (Join root n) -> gone m (y_entries w') (Join root n))) as Hrest.
  { intros stats1 e1 E. destruct (IH _ _ _ _ _ _ E K1 Hpath Hnd Hnames) as (S2 & K2 & R2 & E1 & E2 & C2 & N2). rewrite Hst in C2.
    assert (forall k, k ∈ map fst es -> gone (y_entries w1) (y_entries w') (Join root k) -> gone m (y_entries w') (Join root k)) as Hback.
    { intros k Hk. rewrite Forall_forall in Hnames. apply gone_same; [by apply (pk_path laws); [|apply Hnames]|]. intros j Hj.
      apply (sibling_names _ _ root n k); try done; [by apply Hnames|by intros ->]. }
    split; [by etransitivity|]. split; [done|]. split; [|split; [done|split; [done|]]].
    2:{ split; [|split].
        - intros Hf. destruct (C2 (sp_calm _ _ S1 Hf)) as (? & ? & Hg). split; [done|]. split; [done|]. intros k Hk Hab.
          assert (k ∈ map fst es) as Hin by (apply list_elem_of_fmap; by exists (k, true)). apply (Hback k Hin), (Hg k Hk). by rewrite Hsame.
        - intros Hw. destruct (N2 (sp_honest _ _ S1 Hw)) as (names & ? & ? & Hall). exists names. split; [done|]. split; [done|]. eapply Forall_impl; [exact Hall|].
          intros k (Hin & Hab & Hg). split; [done|]. split; [by rewrite <-Hsame|by apply Hback].
        - intros Hg. eapply gone_later; [exact Hg|exact R2]. }
    intros q. destruct (R2 q) as [Eq|(Hq & k & Hk & Hab & Hqk)].
    - rewrite Eq. destruct (R1 q) as [?|[Hin Hq]]; [by left|]. destruct (abandoned m (Join root n) before) eqn:Hab.
      + right. split; [done|]. exists n. split; [by left|]. split; [done|]. apply belongings_spec in Hin; [done|by apply (pk_path laws)].
      + left. by destruct (Hspare eq_refl) as [-> _].
    - right. split; [done|]. exists k. split; [by right|]. by rewrite <-Hsame. }
  unfold stale in *. rewrite !filter_cons_True by done. rewrite zlen_cons. cbn [map fst].
  rewrite filter_cons. cbn [fst snd andb].
  assert (forall c, counted m (y_entries w') root before (map fst es) c -> counted m (y_entries w') root before (n :: map fst es) c) as Hwider.
  { intros c (names & ? & ? & Hall). exists names. split; [done|]. split; [done|]. eapply Forall_impl; [exact Hall|]. intros k (? & ? & ?). split; [by right|done]. }
  destruct r1 as [[|]|e]; destruct (Hrest _ _ H) as (S & K & R & E1 & E2 & C & N & G); cbn [Scanned Reclaimed Skipped] in *;
    (split; [done|]; split; [done|]; split; [done|]; split; [lia|]; split; [lia|]; split; [intros Hf; specialize (C Hf); specialize (Hcalm Hf)|intros Hw; specialize (N Hw)]).
  - injection Hcalm as <-. rewrite decide_True by done. rewrite zlen_cons. destruct C as (-> & -> & Hg). split; [done|]. split; [lia|].
    intros k [[= ->]|Hk]%elem_of_cons Hk'; [|by apply Hg]. apply G, Hgone; [|done]. unfold honest. by rewrite Hf.
  - destruct N as (names & Hns & Hz & Hall). assert (abandoned m (Join root n) before = true) as Hab.
    { destruct (abandoned m (Join root n) before); [done|]. by destruct (Hspare eq_refl). }
    exists (n :: names). rewrite zlen_cons, Hz. split; [|split; [lia|]].
    + constructor; [|done]. intros Hin. rewrite Forall_forall in Hall. by destruct (Hall n Hin) as [? _].
    + constructor; [split; [by left|split; [done|]]; by apply G, Hgone|]. eapply Forall_impl; [exact Hall|]. intros k (? & ? & ?). split; [by right|done].
  - injection Hcalm as Hab. rewrite <-Hab. rewrite decide_False by (by intros []). destruct C as (-> & -> & Hg). split; [done|]. split; [done|].
    intros k [[= ->]|Hk]%elem_of_cons Hk'; [congruence|by apply Hg].
  - by apply Hwider.
  - discriminate Hcalm.
  - by apply Hwider.
Qed.

Definition isDirectory (m : gmap FilePath entry) (path : FilePath) : bool := match m !! path with Some e => en_dir e | None => false end.

(** What a reclaim of a whole root may do. *)
Record root_reclaimed (absolutePath : list byte -> Prelude.result FilePath) (root : list byte) (before : Z) (w w' : Yard) (stats : ReclaimStats) (err : option error) : Prop :=
  mkRootReclaimed {
  rr_spent : spent w w';
  rr_ok : yard_ok (y_entries w');
  rr_only q : y_entries w' !! q = y_entries w !! q \/ (y_entries w' !! q = None /\ exists a n, absolutePath root = Ok a /\
    n ∈ listed a (y_entries w) /\ abandoned (y_entries w) (Join a n) before = true /\
    (q = Join a n \/ exists k, isName k = true /\ q = Join (Join a n) k));
  rr_counts : Scanned stats = Reclaimed stats + Skipped stats;
  rr_gone : honest w -> 0 < Reclaimed stats -> exists a, absolutePath root = Ok a /\
    counted (y_entries w) (y_entries w') a before (listed a (y_entries w)) (Reclaimed stats);
  rr_calm a d : y_faults w = [] -> absolutePath root = Ok a -> y_entries w !! a = Some d -> en_dir d = true -> err = None /\
    (forall n, n ∈ listed a (y_entries w) -> abandoned (y_entries w) (Join a n) before = true -> gone (y_entries w) (y_entries w') (Join a n)) /\
    Scanned stats = zlen (base.filter (fun n => isDirectory (y_entries w) (Join a n)) (listed a (y_entries w))) /\
    Reclaimed stats = zlen (base.filter (fun n => abandoned (y_entries w) (Join a n) before) (listed a (y_entries w))) }.

Lemma listing_counts m root before :
  let es := map (fun n => (n, isDirectory m (Join root n))) (listed root m) in
  zlen (base.filter (fun x : list byte * bool => x.2) es) =
    zlen (base.filter (fun n => isDirectory m (Join root n)) (listed root m)) /\
  stale m root before es = zlen (base.filter (fun n => abandoned m (Join root n) before) (listed root m)).
Proof using.
  unfold stale. induction (listed root m) as [|n ns [IH1 IH2]]; [done|]. cbn [map]. rewrite !filter_cons. cbn [fst snd].
  assert (isDirectory m (Join root n) && abandoned m (Join root n) before = abandoned m (Join root n) before) as ->.
  { destruct (abandoned m (Join root n) before) eqn:Hab; [|apply andb_false_r]. destruct (abandoned_parts _ _ _ Hab) as (_ & (d & Hd & Hdir) & _). unfold isDirectory. by rewrite Hd, Hdir. }
  split; destruct (decide _); rewrite ?zlen_cons; by rewrite ?IH1, ?IH2.
Qed.

Lemma reclaimStale_spec absolutePath root before w w' stats err :
  reclaimStaleSessionDirectoriesWith Join absolutePath children root before w = (w', (stats, err)) -> yard_ok (y_entries w) ->
  (forall a, absolutePath root = Ok a -> isPath a = true) -> root_reclaimed absolutePath root before w w' stats err.
Proof using laws.
  unfold reclaimStaleSessionDirectoriesWith. intros H Hm Habs.
  assert (forall v e, spent w v -> y_entries v = y_entries w ->
    (forall a d, y_faults w = [] -> absolutePath root = Ok a -> y_entries w !! a = Some d -> en_dir d <> true) -> root_reclaimed absolutePath root before w v noStats e) as Hnone.
  { intros v e Hs E Hno. split; [done|by rewrite E|by left; rewrite E|done|cbn; lia|]. intros a d Hf Ha Hd Hdir. by destruct (Hno a d Hf Ha Hd). }
  destruct (absolutePath root) as [a|e] eqn:Ha; [|injection H as <- <- <-; by apply Hnone].
  destruct (lstat a w) as [w1 info] eqn:H1. apply lstat_spec in H1 as (S1 & E1 & O1 & _ & C1).
  destruct info as [info|e].
  2:{ injection H as <- <- <-. apply Hnone; [done|done|]. intros a' d Hf [= <-] Hd. specialize (C1 Hf). by rewrite Hd in C1. }
  specialize (O1 _ eq_refl). destruct (en_dir info) eqn:Hdir; cbn [negb] in H.
  2:{ injection H as <- <- <-. apply Hnone; [done|done|]. intros a' d Hf [= <-] Hd. congruence. }
  destruct (readDir Join children a w1) as [w2 entries] eqn:H2. pose proof H2 as Hrd. apply readDir_spec in H2 as (S2 & E2 & O2 & C2). rewrite E1 in E2, O2, C2.
  assert (spent w w2) as S12 by (by etransitivity). destruct entries as [es|e].
  2:{ injection H as <- <- <-. apply Hnone; [done|done|]. intros a' d Hf [= <-] Hd _. by destruct (C2 (sp_calm _ _ S1 Hf) info O1 Hdir). }
  destruct (O2 es eq_refl) as [Hes _].
  assert (y_faults w = [] -> es = map (fun n => (n, isDirectory (y_entries w) (Join a n))) (listed a (y_entries w))) as Heq.
  { intros Hf. unfold readDir in Hrd. apply answer_spec in Hrd as (_ & _ & [Hrd|(? & ? & _ & Hn & _)]); [|by destruct (Hn (sp_calm _ _ S1 Hf))|by intros v ->].
    rewrite E1, O1, Hdir in Hrd. by injection Hrd as ->. }
  destruct (reclaim_entries_spec _ _ _ _ _ _ _ _ _ H) as (S3 & K & R & N1 & N2 & C & G); [by rewrite E2|by apply Habs|rewrite Hes; apply (pk_nodup laws)
    |rewrite Hes; apply Forall_forall; intros n Hn; apply (pk_children laws) in Hn as [_ ?]; [done|by apply Habs]|].
  rewrite E2 in R, C, G. rewrite Hes in R, G. split.
  - by etransitivity.
  - done.
  - intros q. destruct (R q) as [?|(Hq & n & Hn & Hab & Hqn)]; [by left|right]. split; [done|]. by exists a, n.
  - cbn in N2. lia.
  - intros Hw _. exists a. split; [done|]. cbn [noStats Reclaimed] in G. rewrite Z.sub_0_r in G. apply G. by apply S12.
  - intros a' d Hf Ha' _ _. rewrite Ha in Ha'. injection Ha' as <-. destruct (C (sp_calm _ _ S12 Hf)) as (-> & Hr & Hg). split; [done|].
    split; [intros n Hn Hab; apply Hg; [|done]; rewrite (Heq Hf); apply list_elem_of_fmap; exists n; split; [|done]; f_equal;
      destruct (abandoned_parts _ _ _ Hab) as (_ & (x & Hx & Hxd) & _); unfold isDirectory; by rewrite Hx, Hxd|]. cbn [noStats Scanned Reclaimed] in *.
    rewrite (Heq Hf) in N1, Hr. destruct (listing_counts (y_entries w) a before) as [L1 L2]. rewrite L1 in N1. rewrite L2 in Hr. split; lia.
Qed.

(** ** The marker of a session *)

(** Paths that are there stay as they are. *)
Definition stays (q : FilePath) (w w' : Yard) : Prop := forall e, y_entries w !! q = Some e -> y_entries w' !! q = Some e.

Lemma stays_trans q w1 w2 w3 : stays q w1 w2 -> stays q w2 w3 -> stays q w1 w3.
Proof using. unfold stays. auto. Qed.
Lemma stays_same q w w' : y_entries w' = y_entries w -> stays q w w'.
Proof using. unfold stays. by intros ->. Qed.
Lemma stays_removed q ps w w' : removed ps (y_entries w) (y_entries w') -> q ∉ ps -> stays q w w'.
Proof using. intros H Hq e He. destruct (H q) as [->|[? _]]; done. Qed.
Lemma stays_update q p f w : q <> p -> stays q w (update p f w).
Proof using. intros Hne e He. cbn. by rewrite lookup_alter_ne. Qed.

Lemma mkdirAll_stays ancestors path q w w' r : mkdirAll ancestors path w = (w', r) -> stays q w w'.
Proof using.
  intros H. apply system_inv in H as (w1 & _ & E & [(k & e & -> & _)|H]); [by apply stays_same|].
  destruct (forallb _ _); apply pair_equal_spec in H as [<- _]; [|by apply stays_same].
  apply (stays_trans _ _ w1); [by apply stays_same|]. clear E. generalize (ancestors path ++ [path]) as ps. intros ps. revert w1.
  induction ps as [|p ps IH]; intros w1 e He; [done|]. cbn. apply IH. unfold add_dir. destruct (y_entries w1 !! p) eqn:Hp; [done|].
  cbn. rewrite lookup_insert_ne; [done|]. intros ->. congruence.
Qed.

Lemma abandon_marker_stays dir path cause q w w' r :
  abandon_marker Join children dir path cause w = (w', r) -> q <> path -> q <> dir -> stays q w w' /\ exists e, r = Err e.
Proof using.
  unfold abandon_marker. intros H Hp Hd. destruct (close path false w) as [w1 r1] eqn:H1. apply close_spec in H1 as (_ & E1 & _).
  destruct (remove children path w1) as [w2 r2] eqn:H2. assert (forall p v v' x, remove children p v = (v', x) -> q <> p -> stays q v v') as Hrem.
  { intros p v v' x Hx Hne. apply system_inv in Hx as (w0 & _ & E & [(k & e & -> & _)|Hx]); [by apply stays_same|]. rewrite E in Hx.
    intros e He. destruct (y_entries v !! p) as [y|]; [|by apply pair_equal_spec in Hx as [<- _]; rewrite E].
    destruct (children p _), (en_dir y); apply pair_equal_spec in Hx as [<- _]; cbn; rewrite ?lookup_delete_ne by done; congruence. }
  destruct (removeEmptyDirectory Join children dir w2) as [w3 r3] eqn:H3. apply pair_equal_spec in H as [<- <-]. split; [|by eexists].
  apply (stays_trans _ _ w1); [by apply stays_same|]. apply (stays_trans _ _ w2); [by eapply Hrem|]. unfold removeEmptyDirectory in H3.
  destruct (lstat dir w2) as [w4 info] eqn:H4. apply lstat_spec in H4 as (_ & E4 & _). apply (stays_trans _ _ w4); [by apply stays_same|].
  destruct info as [info|x]; [|apply pair_equal_spec in H3 as [<- _]; by apply stays_same].
  destruct (negb (en_dir info)); [apply pair_equal_spec in H3 as [<- _]; by apply stays_same|].
  destruct (readDir Join children dir w4) as [w5 es] eqn:H5. apply readDir_spec in H5 as (_ & E5 & _). apply (stays_trans _ _ w5); [by apply stays_same|].
  destruct es as [es|x]; [|apply pair_equal_spec in H3 as [<- _]; by apply stays_same].
  destruct (negb _); [apply pair_equal_spec in H3 as [<- _]; by apply stays_same|]. unfold remove_existing in H3.
  destruct (remove children dir w5) as [w6 r6] eqn:H6. apply pair_equal_spec in H3 as [<- _]. by eapply Hrem.
Qed.

Lemma createFile_spec Dir p w w' r : createFile Dir p w = (w', r) ->
  y_now w' = y_now w /\
  match r with
  | Ok _ => y_entries w !! p = None /\ y_entries w' = <[p := mkEntry false true (y_now w) [] false]> (y_entries w)
  | Err _ => y_entries w' = y_entries w
  end.
Proof using.
  intros H. apply system_inv in H as (w1 & S & E & [(k & e & -> & -> & _)|H]); [split; [apply S|done]|]. rewrite E in H. pose proof (sp_now _ _ S) as Hn.
  destruct (y_entries w !! p) as [e|] eqn:Hp; [apply pair_equal_spec in H as [<- <-]; by split|].
  destruct (y_entries w !! Dir p); apply pair_equal_spec in H as [<- <-]; [|by split]. split; [done|]. split; [done|]. cbn. by rewrite Hn.
Qed.

Lemma writeMarker_spec p value w w' r : writeMarker p value w = (w', r) ->
  exists k, y_entries w' = alter (fun e => mkEntry (en_dir e) (en_regular e) (en_modTime e) (ztake k value) (en_locked e)) p (y_entries w) /\
    (r = Ok tt -> ztake k value = value).
Proof using.
  unfold writeMarker. set (k := match hd NoFault (y_faults w) with Fault k _ => k | _ => zlen value end). intros H. exists k.
  destruct (answer _ w) as [w1 r1] eqn:Ha. unfold answer, system in Ha. apply pair_equal_spec in H as [<- <-]. unfold k.
  destruct (hd NoFault (y_faults w)); apply pair_equal_spec in Ha as [<- <-]; (split; [done|]); try done; intros _; by apply ztake_all.
Qed.

(** The new marker, or nothing but it and its directory touched. *)
Lemma create_marker_spec Dir dir w w' r : create_marker Join Dir children dir w = (w', r) ->
  (forall q, q <> marker dir -> q <> dir -> stays q w w') /\
  (is_Some (y_entries w !! marker dir) -> y_entries w' = y_entries w /\ exists e, r = Err e) /\
  (forall path, r = Ok path -> path = marker dir /\ exists t, y_entries w' !! path = Some (mkEntry false true t sessionMarkerMagic true)).
Proof using.
  unfold create_marker. intros H. destruct (createFile Dir (marker dir) w) as [w1 created] eqn:H1. apply createFile_spec in H1 as (_ & H1).
  destruct created as [[]|e]; [|apply pair_equal_spec in H as [<- <-]; split; [intros; by apply stays_same|]; split; [intros; split; [done|by eexists]|done]].
  destruct H1 as [Hno E1]. assert (forall q, q <> marker dir -> stays q w w1) as K1 by (intros q Hq e He; rewrite E1, lookup_insert_ne; done).
  split; [|split; [by intros [x Hx]; rewrite Hno in Hx|]]; destruct (writeMarker (marker dir) sessionMarkerMagic w1) as [w2 written] eqn:H2;
    apply writeMarker_spec in H2 as (k & E2 & Hk).
  - intros q Hq Hd. assert (stays q w w2) as K2 by (eapply stays_trans; [by apply K1|]; intros e He; rewrite E2, lookup_alter_ne; done).
    assert (forall v cause, stays q w v -> abandon_marker Join children dir (marker dir) cause v = (w', r) -> stays q w w') as Hab.
    { intros v cause Kv Ha. eapply stays_trans; [exact Kv|]. by eapply abandon_marker_stays. }
    destruct written as [[]|e]; [|by eapply Hab]. destruct (syncMarker w2) as [w3 synced] eqn:H3. apply answer_spec in H3 as (_ & E3 & _); [|done].
    assert (stays q w w3) as K3 by (eapply stays_trans; [exact K2|by apply stays_same]). destruct synced as [[]|e]; [|by eapply Hab].
    destruct (lock (marker dir) w3) as [w4 locked] eqn:H4. apply lock_spec in H4 as (_ & H4).
    assert (stays q w w4) as K4.
    { eapply stays_trans; [exact K3|]. destruct locked as [[|]|e]; destruct H4 as [H4 H4']; [|by apply stays_same..].
      intros e He. rewrite H4', lookup_alter_ne; done. }
    destruct locked as [[|]|e]; [|by eapply Hab..]. by apply pair_equal_spec in H as [<- _].
  - intros path ->. assert (forall v cause, abandon_marker Join children dir (marker dir) cause v = (w', Ok path) -> False) as Hab.
    { intros v cause. unfold abandon_marker. destruct (close _ _ _), (remove _ _ _), (removeEmptyDirectory _ _ _ _). by intros [_ [=]]%pair_equal_spec. }
    destruct written as [[]|e]; [|by destruct (Hab _ _ H)]. rewrite (Hk eq_refl) in E2. destruct (syncMarker w2) as [w3 synced] eqn:H3. apply answer_spec in H3 as (_ & E3 & _); [|done].
    destruct synced as [[]|e]; [|by destruct (Hab _ _ H)]. destruct (lock (marker dir) w3) as [w4 locked] eqn:H4. apply lock_spec in H4 as (_ & H4).
    destruct locked as [[|]|e]; [|by destruct (Hab _ _ H)..]. apply pair_equal_spec in H as [<- [= <-]]. split; [done|].
    exists (y_now w). destruct H4 as [_ ->]. by rewrite E3, E2, E1, !lookup_alter_eq, lookup_insert_eq.
Qed.

(** ** On a calm system *)

Lemma add_dirs_spec ps : forall w, let w' := fold_left add_dir ps w in
  y_faults w' = y_faults w /\ (forall q, q ∉ ps -> y_entries w' !! q = y_entries w !! q) /\ (forall q, q ∈ ps -> is_Some (y_entries w' !! q)).
Proof using.
  induction ps as [|p ps IH]; intros w; cbn; [split; [done|split; [done|by intros q ?%elem_of_nil]]|].
  destruct (IH (add_dir w p)) as (F & O & N). assert (y_faults (add_dir w p) = y_faults w /\ (forall q, q <> p -> y_entries (add_dir w p) !! q = y_entries w !! q) /\
    is_Some (y_entries (add_dir w p) !! p)) as (F1 & O1 & N1).
  { unfold add_dir. destruct (y_entries w !! p) eqn:Hp; [by rewrite Hp|]. cbn. split; [done|]. split; [intros q Hq; by apply lookup_insert_ne|].
    rewrite lookup_insert_eq. by eexists. }
  split; [congruence|]. split; [intros q [? ?]%not_elem_of_cons; by rewrite O, O1|]. intros q Hq. destruct (decide (q ∈ ps)) as [?|Hn]; [by apply N|].
  rewrite O by done. apply elem_of_cons in Hq as [->|?]; done.
Qed.

(** Nothing on the way to a directory is a file. *)
Definition clear_way (m : gmap FilePath entry) (ps : list FilePath) : Prop := Forall (fun p => forall e, m !! p = Some e -> en_dir e = true) ps.

Lemma mkdirAll_calm ancestors path w w' r : mkdirAll ancestors path w = (w', r) -> y_faults w = [] -> clear_way (y_entries w) (ancestors path ++ [path]) ->
  r = Ok tt /\ y_faults w' = [] /\ is_Some (y_entries w' !! path) /\ forall q, q ∉ ancestors path -> q <> path -> y_entries w' !! q = y_entries w !! q.
Proof using.
  intros H Hf Hway. apply system_inv in H as (w1 & S & E & [(k & e & _ & _ & Hn & _)|H]); [by destruct (Hn Hf)|]. rewrite E in H.
  assert (forallb (fun p => match y_entries w !! p with Some e => en_dir e | None => true end) (ancestors path ++ [path]) = true) as Hb.
  { apply forallb_forall. intros p Hp. unfold clear_way in Hway. rewrite Forall_forall in Hway. apply list_elem_of_In in Hp. specialize (Hway p Hp).
    destruct (y_entries w !! p); [by apply Hway|done]. }
  rewrite Hb in H. apply pair_equal_spec in H as [<- <-]. destruct (add_dirs_spec (ancestors path ++ [path]) w1) as (F & O & N).
  split; [done|]. split; [rewrite F; by apply S|]. split; [apply N, elem_of_app; right; by left|]. intros q Hq Hne. rewrite O, E; [done|].
  intros [?|?%list_elem_of_singleton]%elem_of_app; done.
Qed.

Lemma system_calm {A} (f : Yard -> Yard * Prelude.result A) w w' r : system f w = (w', r) -> y_faults w = [] ->
  exists w1, y_entries w1 = y_entries w /\ y_faults w1 = [] /\ f w1 = (w', r).
Proof using.
  intros H Hf. apply system_inv in H as (w1 & S & E & [(k & e & _ & _ & Hn & _)|H]); [by destruct (Hn Hf)|]. exists w1. split; [done|]. split; [by apply S|done].
Qed.

Lemma create_marker_calm Dir dir w w' r : create_marker Join Dir children dir w = (w', r) -> y_faults w = [] -> Dir (marker dir) = dir ->
  is_Some (y_entries w !! dir) ->
  r = match y_entries w !! marker dir with Some _ => Err (errWrap 60 ErrSessionInUse) | None => Ok (marker dir) end.
Proof using.
  unfold create_marker. intros H Hf Hdir [d Hd]. destruct (createFile Dir (marker dir) w) as [w1 created] eqn:H1.
  apply system_calm in H1 as (v1 & E1 & F1 & H1); [|done]. rewrite E1, Hdir, Hd in H1.
  destruct (y_entries w !! marker dir) as [e|]; apply pair_equal_spec in H1 as [<- <-]; [by apply pair_equal_spec in H as [_ <-]|].
  cbv iota beta in H. destruct (writeMarker (marker dir) sessionMarkerMagic _) as [w2 written] eqn:H2. unfold writeMarker in H2.
  destruct (answer _ _) as [v2 x2] eqn:Ha2. apply system_calm in Ha2 as (u2 & E2 & F2 & Ha2); [|done]. apply pair_equal_spec in Ha2 as [<- <-].
  apply pair_equal_spec in H2 as [<- <-]. destruct (syncMarker _) as [w3 synced] eqn:H3. apply system_calm in H3 as (u3 & E3 & F3 & H3); [|done].
  apply pair_equal_spec in H3 as [<- <-]. destruct (lock (marker dir) u3) as [w4 locked] eqn:H4. apply system_calm in H4 as (u4 & E4 & F4 & H4); [|done].
  rewrite E4, E3 in H4. cbn in H4. rewrite lookup_alter_eq, E2 in H4. cbn in H4. rewrite lookup_insert_eq in H4. cbn in H4.
  apply pair_equal_spec in H4 as [<- <-]. by apply pair_equal_spec in H as [_ <-].
Qed.

Lemma abandoned_longer m dir b b' : abandoned m dir b = true -> b <= b' -> abandoned m dir b' = true.
Proof using.
  unfold abandoned. destruct (m !! marker dir) as [e|]; [|done]. rewrite !andb_true_iff, !Z.ltb_lt. intros. split_and!; try tauto; lia.
Qed.

(** ** Opening the marker *)

Lemma child_apart root a b q : isPath root = true -> isName a = true -> isName b = true -> b <> a ->
  (q = Join root a \/ exists k, isName k = true /\ q = Join (Join root a) k) ->
  (q = Join root b \/ exists k, isName k = true /\ q = Join (Join root b) k) -> False.
Proof using laws.
  intros Hr Ha Hb Hne [->|(k & Hk & ->)] [E|(k' & Hk' & E)].
  - by destruct (Join_apart root a b a Hr Ha Hb Ha (not_eq_sym Hne)) as (_ & _ & X).
  - by destruct (Join_apart root a b k' Hr Ha Hb Hk' (not_eq_sym Hne)) as (_ & X & _).
  - by destruct (Join_apart root a b k Hr Ha Hb Hk (not_eq_sym Hne)) as (X & _ & _).
  - apply (pk_inj laws) in E as [E _]; try done; try (by apply (pk_path laws)).
    by destruct (Join_apart root a b k Hr Ha Hb Hk (not_eq_sym Hne)) as (_ & _ & X).
Qed.

(** The pass over the root leaves alone what is not abandoned. *)
Lemma first_pass_spares absolutePath root before w w1 stats err n :
  root_reclaimed absolutePath root before w w1 stats err -> isPath root = true -> absolutePath root = Ok root -> isName n = true ->
  abandoned (y_entries w) (Join root n) before = false ->
  y_entries w1 !! Join root n = y_entries w !! Join root n /\
  forall k, isName k = true -> y_entries w1 !! Join (Join root n) k = y_entries w !! Join (Join root n) k.
Proof using laws.
  intros [_ _ R _ _ _] Hr Habs Hn Hnot.
  assert (forall q, (q = Join root n \/ exists k, isName k = true /\ q = Join (Join root n) k) -> y_entries w1 !! q = y_entries w !! q) as Hq.
  { intros q Hq. destruct (R q) as [?|(_ & a & n' & Ha & Hin & Hab & Hqn)]; [done|]. exfalso. rewrite Habs in Ha. injection Ha as <-.
    apply (pk_children laws) in Hin as [_ Hn']; [|done]. destruct (decide (n' = n)) as [->|Hne]; [congruence|].
    eapply (child_apart root n n' q); eauto. }
  split; [apply Hq; by left|]. intros k Hk. apply Hq. right. by exists k.
Qed.

Section Open.
Context (Dir : FilePath -> FilePath) (absolutePath : list byte -> Prelude.result FilePath) (ancestors : FilePath -> list FilePath).
Context (root : FilePath) (name : list byte).
Abbreviation dir := (Join root name).
Abbreviation open := (openOwnedSessionMarkerWith Join Dir absolutePath ancestors children dir).
Hypotheses (Hroot : isPath root = true) (Hname : isName name = true) (Hdir : Dir dir = root) (Habs : absolutePath root = Ok root).

Lemma open_start w w' r : open w = (w', r) -> yard_ok (y_entries w) -> exists w1 stats err,
  root_reclaimed absolutePath root (y_now w - DefaultStaleSessionAge) w w1 stats err /\
  (let* _ := reclaimSessionDirectoryWith Join children dir (y_now w1 + 1) in let* _ := mkdirAll ancestors dir in create_marker Join Dir children dir) w1 = (w', r).
Proof using laws Hroot Hdir Habs.
  unfold openOwnedSessionMarkerWith. rewrite Hdir. intros H Hm. destruct (reclaimStaleSessionDirectoriesWith _ _ _ root _ w) as [w1 [stats err]] eqn:H1.
  exists w1, stats, err. split; [|exact H]. eapply reclaimStale_spec; [exact H1|done|]. intros a Ha. rewrite Habs in Ha. by injection Ha as <-.
Qed.

Lemma openOwned_live w w' r e : open w = (w', r) -> yard_ok (y_entries w) -> y_entries w !! marker dir = Some e -> en_locked e = true ->
  (exists x, r = Err x) /\ stays dir w w' /\ forall n, isName n = true -> stays (Join dir n) w w'.
Proof using laws Hroot Hname Hdir Habs.
  intros H Hm He Hl. pose proof (pk_path laws _ _ Hroot Hname) as Hpath. apply open_start in H as (w1 & stats & err & Hroot1 & H); [|done].
  assert (forall b, abandoned (y_entries w) dir b = false) as Hlive.
  { intros b. destruct (abandoned (y_entries w) dir b) eqn:Hab; [|done]. destruct (abandoned_parts _ _ _ Hab) as ((x & Hx & _ & _ & Hu & _) & _). congruence. }
  destruct (first_pass_spares _ _ _ _ _ _ _ name Hroot1 Hroot Habs Hname (Hlive _)) as [E1 E1']. pose proof (rr_ok _ _ _ _ _ _ _ Hroot1) as K1.
  assert (abandoned (y_entries w1) dir (y_now w1 + 1) = false) as Hlive1 by (rewrite (abandoned_same (y_entries w)); auto).
  assert (forall v, y_entries v = y_entries w1 -> stays dir w v /\ forall n, isName n = true -> stays (Join dir n) w v) as Hst.
  { intros v E. split; [intros x Hx; by rewrite E, E1|]. intros n Hn x Hx. by rewrite E, E1'. }
  split_eff H; destruct (reclaim_spec _ _ _ _ _ Hc K1 Hpath) as [_ Hs _ _ _]; destruct (Hs Hlive1) as [E2 _]; [split; [by eexists|by apply Hst]|].
  split_eff H; [split; [by eexists|]; split; [|intros n Hn]; (eapply stays_trans; [by apply (Hst _ E2)|by eapply mkdirAll_stays])|].
  destruct (create_marker_spec _ _ _ _ _ H) as (_ & Hno & _).
  assert (y_entries w2 !! marker dir = Some e) as He2 by (eapply mkdirAll_stays; [exact Hc0|]; rewrite E2, E1' by apply laws; done).
  destruct Hno as [E3 Hr]; [by eexists|]. split; [done|]. split; [|intros n Hn];
    (eapply stays_trans; [eapply stays_trans; [by apply (Hst _ E2)|by eapply mkdirAll_stays]|by apply stays_same]).
Qed.

Lemma openOwned_marker w w' r path : open w = (w', r) -> yard_ok (y_entries w) -> r = Ok path ->
  path = marker dir /\ exists t, y_entries w' !! path = Some (mkEntry false true t sessionMarkerMagic true).
Proof using laws Hroot Hdir Habs.
  intros H Hm Hr. apply open_start in H as (w1 & stats & err & _ & H); [|done]. split_eff H; [done|]. split_eff H; [done|]. by eapply create_marker_spec.
Qed.

Lemma openOwned_siblings w w' r n : open w = (w', r) -> yard_ok (y_entries w) -> n <> name -> isName n = true ->
  abandoned (y_entries w) (Join root n) (y_now w - DefaultStaleSessionAge) = false ->
  stays (Join root n) w w' /\ forall k, isName k = true -> stays (Join (Join root n) k) w w'.
Proof using laws Hroot Hname Hdir Habs.
  intros H Hm Hne Hn Hnot. pose proof (pk_path laws _ _ Hroot Hname) as Hpath. apply open_start in H as (w1 & stats & err & Hroot1 & H); [|done].
  destruct (first_pass_spares _ _ _ _ _ _ _ n Hroot1 Hroot Habs Hn Hnot) as [E1 E1']. pose proof (rr_ok _ _ _ _ _ _ _ Hroot1) as K1.
  assert (forall q, y_entries w1 !! q = y_entries w !! q -> (q = Join root n \/ exists k, isName k = true /\ q = Join (Join root n) k) -> stays q w w') as Hall.
  { intros q Eq Hq. assert (q <> dir /\ forall k, isName k = true -> q <> Join dir k) as [Hd Hk].
    { split; [intros Ed|intros k Hk Ed]; apply (child_apart root name n q Hroot Hname Hn Hne); try exact Hq; [by left|right; by exists k]. }
    assert (stays q w w1) as K by (intros x Hx; by rewrite Eq).
    assert (forall v b x, reclaimSessionDirectoryWith Join children dir b w1 = (v, x) -> stays q w v) as Hrec.
    { intros v b x Hr. destruct (reclaim_spec _ _ _ _ _ Hr K1 Hpath) as [[_ Rm _] _ _ _ _]. eapply stays_trans; [exact K|]. eapply stays_removed; [exact Rm|].
      intros [->|(k & Hk' & ->)]%belongings_spec; [done|by apply (Hk k)|done]. }
    split_eff H; [by eapply Hrec|]. apply Hrec in Hc. split_eff H; [eapply stays_trans; [exact Hc|by eapply mkdirAll_stays]|].
    eapply stays_trans; [exact Hc|]. eapply stays_trans; [by eapply mkdirAll_stays|].
    apply (create_marker_spec _ _ _ _ _ H); [apply Hk, laws|done]. }
  split; [|intros k Hk]; apply Hall; auto. right. by exists k.
Qed.

(** What is left of the directory when the marker is created, if nothing fails. *)
Lemma reclaimed_calm w w1 stats err : root_reclaimed absolutePath root (y_now w - DefaultStaleSessionAge) w w1 stats err ->
  yard_ok (y_entries w) -> y_faults w = [] -> exists v x,
  reclaimSessionDirectoryWith Join children dir (y_now w1 + 1) w1 = (v, Ok x) /\ y_faults v = [] /\
  (forall q, y_entries v !! q = y_entries w !! q \/ y_entries v !! q = None) /\
  (y_entries v !! marker dir = if abandoned (y_entries w) dir (y_now w + 1) then None else y_entries w !! marker dir).
Proof using laws Hroot Hname Habs.
  intros Hr1 Hm Hf. pose proof Hr1 as [S1 K1 R1 _ _ C1]. pose proof (pk_path laws _ _ Hroot Hname) as Hpath.
  pose proof (sp_calm _ _ S1 Hf) as Hf1. pose proof (sp_now _ _ S1) as Hn1. set (m := y_entries w) in *.
  destruct (reclaimSessionDirectoryWith Join children dir (y_now w1 + 1) w1) as [v x] eqn:Hv.
  destruct (reclaim_spec _ _ _ _ _ Hv K1 Hpath) as [[S2 R2 _] Hs _ Hg Hc]. specialize (Hc Hf1). rewrite Hn1 in *. rewrite Hc in Hs, Hg |- *.
  exists v, (abandoned (y_entries w1) dir (y_now w + 1)). split; [done|]. split; [by apply S2|]. split.
  { intros q. destruct (R2 q) as [->|[_ ?]]; [|by right]. destruct (R1 q) as [?|[? _]]; [by left|by right]. }
  destruct (abandoned m dir (y_now w - DefaultStaleSessionAge)) eqn:Hab.
  - rewrite (abandoned_longer _ _ _ (y_now w + 1) Hab) by (change DefaultStaleSessionAge with 86400000000000; lia).
    destruct (abandoned_parts _ _ _ Hab) as (_ & (d & Hd & Hdd) & _). destruct (yk_parent _ Hm root name Hroot Hname) as (e & He & Hed); [by eexists|].
    assert (gone m (y_entries w1) dir) as Hgone.
    { destruct (C1 root e Hf Habs He Hed) as (_ & Hg1 & _). apply Hg1; [|done]. apply (pk_children laws); [done|]. split; [apply elem_of_dom; by eexists|done]. }
    unfold gone, belongings in Hgone. rewrite Forall_forall in Hgone. destruct (R2 (marker dir)) as [->|[_ ?]]; [|done].
    apply Hgone, elem_of_app. right. by left.
  - destruct (first_pass_spares _ _ _ _ _ _ _ name Hr1 Hroot Habs Hname Hab) as [E1 E1'].
    rewrite (abandoned_same m) in Hs, Hg by done. destruct (abandoned m dir (y_now w + 1)).
    + assert (honest w1) as Hh by (unfold honest; by rewrite Hf1). specialize (Hg Hh eq_refl). rewrite Forall_forall in Hg. apply Hg.
      apply elem_of_app. right. by left.
    + destruct (Hs eq_refl) as [-> _]. apply E1', laws.
Qed.

(** The answer of a calm system: in use when there is a marker that is not a crashed
    session's. *)
Lemma openOwned_calm w w' r : open w = (w', r) -> yard_ok (y_entries w) ->
  Dir (marker dir) = dir -> marker dir ∉ ancestors dir -> clear_way (y_entries w) (ancestors dir ++ [dir]) -> y_faults w = [] ->
  r = match y_entries w !! marker dir with
      | Some _ => if abandoned (y_entries w) dir (y_now w + 1) then Ok (marker dir) else Err (errWrap 60 ErrSessionInUse)
      | None => Ok (marker dir)
      end.
Proof using laws Hroot Hname Hdir Habs.
  intros H Hm Hdir' Hanc Hway Hf. pose proof (pk_below laws dir sessionMarkerName (pk_path laws _ _ Hroot Hname) (pk_marker laws)) as Hne.
  apply open_start in H as (w1 & stats & err & Hr1 & H); [|done]. destruct (reclaimed_calm _ _ _ _ Hr1 Hm Hf) as (v & x & Hv & Fv & Ev & Mv).
  assert (clear_way (y_entries v) (ancestors dir ++ [dir])) as Hclear.
  { unfold clear_way in *. eapply Forall_impl; [exact Hway|]. intros p Hp e He. destruct (Ev p) as [E|E]; rewrite E in He; [by apply Hp|done]. }
  split_eff H; rewrite Hv in Hc; apply pair_equal_spec in Hc as [<- Hc]; [done|].
  split_eff H; destruct (mkdirAll_calm _ _ _ _ _ Hc0 Fv Hclear) as (Er & Fd & Hd & Oth); [done|].
  rewrite (create_marker_calm _ _ _ _ _ H Fd Hdir' Hd), Oth, Mv by done. destruct (abandoned (y_entries w) dir (y_now w + 1)); [|done].
  by destruct (y_entries w !! marker dir).
Qed.
End Open.


(** C9. Opening the marker of a session's own directory, whatever the system calls
    answer.  If a live session holds the lock of that marker, the opening is
    refused and everything in the directory stays as it was; a success means the
    marker is there, intact and locked; and no sibling directory is touched that
    is not itself a crashed session's, older than a day.  On a calm system where
    only directories lie on the way it does succeed, unless there is a marker that
    is not a crashed session's, however recent the crash: then, and only then, it
    is refused with [ErrSessionInUse]. *)
Theorem openOwnedSessionMarker_correct Dir absolutePath ancestors root name w w' r :
  let dir := Join root name in let m := y_entries w in
  openOwnedSessionMarkerWith Join Dir absolutePath ancestors children dir w = (w', r) ->
  yard_ok m -> isPath root = true -> isName name = true -> Dir dir = root -> absolutePath root = Ok root ->
  (forall e, m !! marker dir = Some e -> en_locked e = true ->
     (exists x, r = Err x) /\ stays dir w w' /\ forall n, isName n = true -> stays (Join dir n) w w') /\
  (forall path, r = Ok path -> path = marker dir /\ exists t, y_entries w' !! path = Some (mkEntry false true t sessionMarkerMagic true)) /\
  (forall n, n <> name -> isName n = true -> abandoned m (Join root n) (y_now w - DefaultStaleSessionAge) = false ->
     stays (Join root n) w w' /\ forall k, isName k = true -> stays (Join (Join root n) k) w w') /\
  (y_faults w = [] -> Dir (marker dir) = dir -> marker dir ∉ ancestors dir -> clear_way m (ancestors dir ++ [dir]) ->
     r = match m !! marker dir with
         | Some _ => if abandoned m dir (y_now w + 1) then Ok (marker dir) else Err (errWrap 60 ErrSessionInUse)
         | None => Ok (marker dir)
         end).
Proof using laws.
  intros dir m H Hm Hroot Hname Hdir Habs.
  split; [|split; [|split]]; [| | |intros; by eapply openOwned_calm].
  - intros e He Hl. eapply openOwned_live; eauto.
  - intros path Hr. eapply openOwned_marker; eauto.
  - intros n Hne Hn Hnot. by refine (openOwned_siblings _ _ _ _ name _ _ _ _ _ _ _ _ H Hm Hne Hn Hnot).
Qed.
End Safe.

(** ** A concrete root *)

(** Paths as sequences of names after slashes. *)
Definition ex_Join (d : FilePath) (n : list byte) : FilePath := d ++ z2b 47 :: n.
Definition ex_isName (n : list byte) : bool := negb (bool_decide (z2b 47 ∈ n)).
Definition ex_strip (d p : FilePath) : option (list byte) :=
  let n := drop (S (length d)) p in if bool_decide (p = ex_Join d n) && ex_isName n then Some n else None.
Definition ex_children (d : FilePath) (names : gset FilePath) : list (list byte) := omap (ex_strip d) (elements names).
Definition ex_isPath (p : FilePath) : bool := true.

Lemma ex_strip_spec d p n : ex_strip d p = Some n <-> p = ex_Join d n /\ ex_isName n = true.
Proof.
  unfold ex_strip. assert (drop (S (length d)) (ex_Join d n) = n) as E.
  { unfold ex_Join. change (S (length d)) with (1 + length d)%nat. rewrite Nat.add_comm, <-drop_drop, drop_app_length. done. }
  split.
  - case_bool_decide as Hp; [|done]. destruct (ex_isName _) eqn:Hn; [|done]. by intros [= <-].
  - intros [-> Hn]. by rewrite E, bool_decide_eq_true_2, Hn.
Qed.

Lemma ex_Join_names d n d' n' : z2b 47 ∉ n -> z2b 47 ∉ n' -> ex_Join d n = ex_Join d' n' -> d = d' /\ n = n'.
Proof.
  intros Hn Hn' [(k & Hd & Hk)|(k & Hd & Hk)]%app_eq_inv; destruct k as [|x k]; cbn in Hk;
    rewrite ?app_nil_r in Hd; try (injection Hk as Hk; by split); injection Hk as Hx Hk; exfalso.
  - apply Hn'. rewrite Hk. apply elem_of_app. right. left.
  - apply Hn. rewrite Hk. apply elem_of_app. right. left.
Qed.

Lemma ex_paths_ok : paths_ok ex_Join ex_children ex_isPath ex_isName.
Proof.
  assert (forall n, ex_isName n = true -> z2b 47 ∉ n) as Hname by (intros n; unfold ex_isName; by case_bool_decide).
  split; [done| | | | |reflexivity].
  - intros d n d' n' _ _ Hn Hn'. apply ex_Join_names; auto.
  - intros d n _ _ E. apply (f_equal length) in E. unfold ex_Join in E. rewrite length_app in E. cbn in E. lia.
  - intros d names n _. unfold ex_children. rewrite list_elem_of_omap. setoid_rewrite ex_strip_spec. setoid_rewrite elem_of_elements.
    split; [by intros (p & Hp & -> & Hn)|]. intros [Hin Hn]. by exists (ex_Join d n).
  - intros d names. unfold ex_children. pose proof (NoDup_elements names) as Hnd. induction Hnd as [|p ps Hp Hnd IH]; [constructor|]. cbn.
    destruct (ex_strip d p) as [n|] eqn:E; [|done]. constructor; [|done]. intros (p' & Hp' & E')%list_elem_of_omap.
    apply ex_strip_spec in E as [-> _], E' as [-> _]. done.
Qed.

(** A root with one directory, of a session that crashed long ago, or is alive. *)
Definition ex_root : FilePath := [z2b 114].
Definition ex_name : list byte := [z2b 97].
Definition ex_session : FilePath := ex_Join ex_root ex_name.
Definition ex_marker : FilePath := ex_Join ex_session sessionMarkerName.
Definition ex_directory : entry := mkEntry true false 0 [] false.
Definition ex_yard (locked : bool) : Yard :=
  mkYard (<[ex_marker := mkEntry false true 0 sessionMarkerMagic locked]> (<[ex_session := ex_directory]> {[ex_root := ex_directory]})) [] (2 * DefaultStaleSessionAge).
Definition ex_absolute (root : list byte) : Prelude.result FilePath := Ok root.
(** [filepath.Dir] of the two paths that are asked for. *)
Definition ex_Dir (p : FilePath) : FilePath := if bool_decide (p = ex_marker) then ex_session else ex_root.
Definition ex_ancestors (p : FilePath) : list FilePath := [ex_root].

Lemma ex_yard_ok locked : yard_ok ex_Join ex_isPath ex_isName (y_entries (ex_yard locked)).
Proof.
  assert (forall n, ex_isName n = true -> z2b 47 ∉ n) as Hname by (intros n; unfold ex_isName; by case_bool_decide).
  unfold ex_yard. cbn [y_entries]. split.
  - intros p e. rewrite !lookup_insert_Some, lookup_singleton_Some. intros [[_ <-]|[_ [[_ <-]|[_ [_ <-]]]]]; done.
  - intros d n _ Hn%Hname [e He]. rewrite !lookup_insert_Some, lookup_singleton_Some in He. destruct He as [[E _]|[_ [[E _]|[_ [E _]]]]].
    + apply ex_Join_names in E as [<- <-]; [|by apply Hname|done]. exists ex_directory. split; [|done]. by rewrite lookup_insert_ne, lookup_insert_eq by done.
    + apply ex_Join_names in E as [<- <-]; [|by apply Hname|done]. exists ex_directory. by rewrite !lookup_insert_ne, lookup_singleton_eq by done.
    + unfold ex_root, ex_Join in E. destruct d as [|x [|]]; discriminate E.
Qed.

Abbreviation ex_reclaim locked := (reclaimStaleSessionDirectoriesWith ex_Join ex_absolute ex_children ex_root DefaultStaleSessionAge (ex_yard locked)).
Abbreviation ex_open w := (openOwnedSessionMarkerWith ex_Join ex_Dir ex_absolute ex_ancestors ex_children ex_session w).


(** The lock of a live session keeps a second one out; a crashed one does not. *)
Lemma openOwnedSessionMarker_correct_witness :
  (ex_open (ex_yard false)).2 = Ok ex_marker /\
  (ex_open (ex_yard true)).2 = Err (errWrap 60 ErrSessionInUse) /\ stays ex_session (ex_yard true) (ex_open (ex_yard true)).1.
Proof.
  split; [vm_compute; reflexivity|].
  destruct (openOwnedSessionMarker_correct ex_Join ex_children ex_isPath ex_isName ex_paths_ok ex_Dir ex_absolute ex_ancestors ex_root ex_name
    (ex_yard true) (ex_open (ex_yard true)).1 (ex_open (ex_yard true)).2) as (Hlive & _ & _ & Hcalm).
  - apply surjective_pairing.
  - exact (ex_yard_ok true).
  - reflexivity.
  - reflexivity.
  - vm_compute; reflexivity.
  - reflexivity.
  - destruct (Hlive (mkEntry false true 0 sessionMarkerMagic true)) as (Hr & Hd & _); [vm_compute; reflexivity|reflexivity|]. split; [|exact Hd].
    assert (y_entries (ex_yard true) !! (ex_Join (ex_Join ex_root ex_name) sessionMarkerName) = Some (mkEntry false true 0 sessionMarkerMagic true)) as Em by (vm_compute; reflexivity).
    cbv zeta in Hcalm. rewrite Em in Hcalm. apply Hcalm.
    + reflexivity.
    + vm_compute; reflexivity.
    + intros Hin. apply list_elem_of_singleton in Hin. vm_compute in Hin. discriminate Hin.
    + repeat constructor; intros e; vm_compute; intros He; injection He as <-; reflexivity.
Defined.

(** The lock is given up before the removal.  A reclaims the directory of a crashed
    session and is overtaken, after its inspection, by B, which opens the same
    directory; A then removes the marker whose lock B holds, and the directory. *)
Example reclaim_race :
  let '(a, inspected) := inspect ex_Join ex_children ex_session DefaultStaleSessionAge (ex_yard false) in
  let '(b, opened) := ex_open a in
  let '(c, reclaimed) := remove_session ex_Join ex_children ex_session [] b in
  inspected = Ok (Some []) /\ opened = Ok ex_marker /\ (en_locked <$> y_entries b !! ex_marker) = Some true /\
  reclaimed = Ok true /\ y_entries c !! ex_marker = None /\ y_entries c !! ex_session = None.
Proof. vm_compute. auto 10. Qed.
