(* ===== verification/Lifecycle.v ===== *)
(** * document/generation.go, session_lifecycle.go: handles, leases and the save gate

    The source generations that own the base file and the journal of a session,
    the snapshot leases that keep them alive, the gate that serialises saves, and
    the shutdown that waits for both.  These are the parts of a session that
    several goroutines drive at once: every critical section of the code is one
    function here, and a step of the system is one goroutine running its next
    section. *)

From Stdlib Require Import ZArith Lia List.
From stdpp Require Import relations base list numbers.
From S2P Require Import Prelude GoLib Options.
#[local] Open Scope Z_scope.

(** ** Source generations (generation.go) *)

(** A handle is the identity of an open file; paths are only carried around. *)
Record sourceGeneration := mkGeneration {
  g_base : option Z; g_journal : option Z; g_journalPath : list byte; g_journalCleanupDir : list byte;
  g_refs : Z; g_retired : bool; g_removeJournal : bool; g_closeErr : option error }.

(** What the system answers while a generation closes: [journal.Close()],
    [base.Close()], [os.Remove] and [removeEmptyDirectory]. *)
Record closing := mkClosing {
  cl_journal : option error; cl_base : option error; cl_remove : option error; cl_removeDir : option error }.

Definition newSourceGeneration (base : option Z) (journal : option (Z * list byte)) : sourceGeneration :=
  match journal with
  | Some (j, path) => mkGeneration base (Some j) path [] 1 false false None
  | None => mkGeneration base None [] [] 1 false false None
  end.

Definition setJournalCleanupDirectory (path : list byte) (g : sourceGeneration) : sourceGeneration :=
  mkGeneration (g_base g) (g_journal g) (g_journalPath g) path (g_refs g) (g_retired g) (g_removeJournal g) (g_closeErr g).

Definition attachJournal (journal : Z) (path : list byte) (g : sourceGeneration) : sourceGeneration :=
  mkGeneration (g_base g) (Some journal) path (g_journalCleanupDir g) (g_refs g) (g_retired g) (g_removeJournal g) (g_closeErr g).

Definition with_refs (refs : Z) (g : sourceGeneration) : sourceGeneration :=
  mkGeneration (g_base g) (g_journal g) (g_journalPath g) (g_journalCleanupDir g) refs (g_retired g) (g_removeJournal g) (g_closeErr g).

Definition acquire (g : sourceGeneration) : sourceGeneration := with_refs (g_refs g + 1) g.

Definition handles (g : sourceGeneration) : list Z := option_list (g_journal g) ++ option_list (g_base g).

(** The new generation and the handles closed, in order. *)
Definition closeIfUnusedLocked (os : closing) (g : sourceGeneration) : sourceGeneration * list Z :=
  if negb (g_retired g) || negb (g_refs g =? 0) then (g, []) else
  let err := g_closeErr g in
  let err := match g_journal g with Some _ => errors_Join err (cl_journal os) | None => err end in
  let err := match g_base g with Some _ => errors_Join err (cl_base os) | None => err end in
  let '(err, path) :=
    if g_removeJournal g && negb (zlen (g_journalPath g) =? 0) then
      match cl_remove os with
      | Some e => if errors_Is e os_ErrNotExist then (err, []) else (errors_Join err (Some e), g_journalPath g)
      | None => (err, [])
      end
    else (err, g_journalPath g) in
  let '(err, dir) :=
    if g_removeJournal g && negb (zlen (g_journalCleanupDir g) =? 0) then
      match cl_removeDir os with
      | Some e => (errors_Join err (Some e), g_journalCleanupDir g)
      | None => (err, [])
      end
    else (err, g_journalCleanupDir g) in
  (mkGeneration None None path dir (g_refs g) (g_retired g) (g_removeJournal g) err, handles g).

(** [retire], and [retireAndWait] up to the wait: the session owner's reference
    is given up once. *)
Definition retire (os : closing) (removeJournal : bool) (g : sourceGeneration) : sourceGeneration * list Z :=
  let refs := if g_retired g then g_refs g else g_refs g - 1 in
  closeIfUnusedLocked os
    (mkGeneration (g_base g) (g_journal g) (g_journalPath g) (g_journalCleanupDir g) refs true
       (g_removeJournal g || removeJournal) (g_closeErr g)).

(** The end of [retireAndWait]: the wait is over when no reference is left. *)
Definition retireAndWait_done (g : sourceGeneration) : option (option error) :=
  if 0 <? g_refs g then None else Some (g_closeErr g).

Definition release (os : closing) (g : sourceGeneration) : sourceGeneration * list Z * option error :=
  let '(g, closed) := closeIfUnusedLocked os (with_refs (if 0 <? g_refs g then g_refs g - 1 else g_refs g) g) in
  (g, closed, g_closeErr g).

(** ** Leases *)

(** How far [Close] of a lease is: nothing done, the session's permit returned,
    the lease marked closed, the generation released with its result. *)
Inductive stage :=
| LeaseOpen
| LeaseCounted
| LeaseClosing
| LeaseReleased (err : option error).

(** [snapshotLease], inside a [trackedSnapshotLease] when [l_tracked]. *)
Record lease := mkLease { l_generation : nat; l_tracked : bool; l_stage : stage }.

Definition l_closed (l : lease) : bool :=
  match l_stage l with LeaseOpen | LeaseCounted => false | _ => true end.

(** ** The host's resources (session_lifecycle.go) *)

(** The fields of [Session] that account for leases, saves and shutdown;
    [h_token] says whether [saveGate] holds its token. *)
Record host := mkHost {
  h_active : Z; h_peak : Z; h_max : Z; h_waitingSaves : Z; h_saveActive : bool; h_token : bool;
  h_lifecycle : option error; h_closed : bool; h_closeCompleted : bool; h_closeErr : option error;
  h_generation : nat }.

Definition set_leases (active peak : Z) (h : host) : host :=
  mkHost active peak (h_max h) (h_waitingSaves h) (h_saveActive h) (h_token h) (h_lifecycle h) (h_closed h)
    (h_closeCompleted h) (h_closeErr h) (h_generation h).
Definition set_gate (waiting : Z) (active token : bool) (h : host) : host :=
  mkHost (h_active h) (h_peak h) (h_max h) waiting active token (h_lifecycle h) (h_closed h)
    (h_closeCompleted h) (h_closeErr h) (h_generation h).
Definition set_shutdown (lifecycle : option error) (closed completed : bool) (err : option error) (h : host) : host :=
  mkHost (h_active h) (h_peak h) (h_max h) (h_waitingSaves h) (h_saveActive h) (h_token h) lifecycle closed
    completed err (h_generation h).
Definition set_generation (g : nat) (h : host) : host :=
  mkHost (h_active h) (h_peak h) (h_max h) (h_waitingSaves h) (h_saveActive h) (h_token h) (h_lifecycle h) (h_closed h)
    (h_closeCompleted h) (h_closeErr h) g.

(** [s.closed || context.Cause(s.lifecycleContext) != nil] *)
Definition shut (h : host) : bool := h_closed h || isSome (h_lifecycle h).

Record LifecycleStats := mkLifecycleStats {
  ActiveSnapshotLeases : Z; PeakSnapshotLeases : Z; MaxSnapshotLeases : Z; WaitingSaves : Z; SaveActive : bool;
  Closing : bool; Closed : bool }.

Definition lifecycleStats (h : host) : LifecycleStats :=
  mkLifecycleStats (h_active h) (h_peak h) (h_max h) (h_waitingSaves h) (h_saveActive h)
    (isSome (h_lifecycle h) && negb (h_closeCompleted h)) (h_closeCompleted h).

(** The guards and the accounting of [snapshotLocked]; the reference is taken on
    the current generation (below). *)
Definition snapshotLocked (h : host) : host * result unit :=
  if shut h then (h, Err document_ErrClosed) else
  if h_max h <=? h_active h then (h, Err (errWrap 50 document_ErrLimitExceeded)) else
  let active := h_active h + 1 in
  (set_leases active (if h_peak h <? active then active else h_peak h) h, Ok tt).

Definition releaseSnapshotLease (h : host) : host :=
  set_leases (if 0 <? h_active h then h_active h - 1 else h_active h) (h_peak h) h.

(** ** Saving: [acquireSave] and [releaseSave], one section at a time *)

Inductive saver :=
| SaveWaiting                        (* in the select *)
| SaveReceived                       (* has the token, about to lock [s.mu] again *)
| SaveGivingBack (err : error)       (* refused after all: about to return the token *)
| SaveRunning                        (* [acquireSave] returned nil *)
| SaveFinishing                      (* [saveActive] cleared, about to return the token *)
| SaveReturned (err : option error).

Definition acquireSave_enter (h : host) : host * saver :=
  if shut h then (h, SaveReturned (Some document_ErrClosed))
  else (set_gate (h_waitingSaves h + 1) (h_saveActive h) (h_token h) h, SaveWaiting).

(** The cancelled branches of the select. *)
Definition acquireSave_cancel (err : error) (h : host) : host * saver :=
  (set_gate (h_waitingSaves h - 1) (h_saveActive h) (h_token h) h, SaveReturned (Some err)).

(** After the token: [ctxErr] is [contextError(ctx)]. *)
Definition acquireSave_admit (ctxErr : option error) (h : host) : host * saver :=
  let h := set_gate (h_waitingSaves h - 1) (h_saveActive h) (h_token h) h in
  if shut h then (h, SaveGivingBack document_ErrClosed) else
  match ctxErr with
  | Some e => (h, SaveGivingBack e)
  | None => (set_gate (h_waitingSaves h) true (h_token h) h, SaveRunning)
  end.

Definition releaseSave (h : host) : host * saver :=
  (set_gate (h_waitingSaves h) false (h_token h) h, SaveFinishing).

Definition take_token (h : host) : host := set_gate (h_waitingSaves h) (h_saveActive h) false h.
Definition give_token (h : host) : host := set_gate (h_waitingSaves h) (h_saveActive h) true h.

(** ** Shutdown: [CloseContext] and [finishClose] *)

Inductive closer :=
| CloseIdle
| CloseCancelled              (* the lifecycle context is cancelled *)
| CloseStopped                (* [s.closed] is set *)
| CloseHolding                (* has the token of the save gate *)
| CloseRetiring (g : nat)     (* waiting in [retireAndWait] of the generation it read *)
| CloseRetired (err : option error)
| CloseCompleted              (* [closeDone] is closed; the token goes back last *)
| CloseFinished.

(** ** The system *)

Record system := mkSystem {
  y_host : host; y_generations : list sourceGeneration; y_leases : list lease; y_savers : list saver;
  y_closer : closer; y_log : list Z }.

Definition with_host (h : host) (y : system) : system :=
  mkSystem h (y_generations y) (y_leases y) (y_savers y) (y_closer y) (y_log y).
Definition with_leases (l : list lease) (y : system) : system :=
  mkSystem (y_host y) (y_generations y) l (y_savers y) (y_closer y) (y_log y).
Definition with_saver (h : host) (savers : list saver) (y : system) : system :=
  mkSystem h (y_generations y) (y_leases y) savers (y_closer y) (y_log y).
Definition with_closer (h : host) (c : closer) (y : system) : system :=
  mkSystem h (y_generations y) (y_leases y) (y_savers y) c (y_log y).
(** Replace a generation; [closed] are the handles that were closed. *)
Definition with_generation (i : nat) (g : sourceGeneration) (closed : list Z) (y : system) : system :=
  mkSystem (y_host y) (<[i := g]> (y_generations y)) (y_leases y) (y_savers y) (y_closer y) (y_log y ++ closed).

(** A lease on the current generation: [generation.acquire], tracked or not. *)
Definition lease_current (tracked : bool) (y : system) : system :=
  let i := h_generation (y_host y) in
  match y_generations y !! i with
  | Some g =>
    with_leases (y_leases y ++ [mkLease i tracked LeaseOpen]) (with_generation i (acquire g) [] y)
  | None => y
  end.

(** [Session.Snapshot] *)
Definition Snapshot (y : system) : system * result unit :=
  match snapshotLocked (y_host y) with
  | (h, Ok _) => (lease_current true (with_host h y), Ok tt)
  | (h, Err e) => (with_host h y, Err e)
  end.

(** The sections of closing a lease: [trackedSnapshotLease.Close] returns the
    permit, then [snapshotLease.Close] marks the lease and releases. *)
Definition close_lease (os : closing) (i : nat) (l : lease) (y : system) : system :=
  let put stage := with_leases (<[i := mkLease (l_generation l) (l_tracked l) stage]> (y_leases y)) in
  match l_stage l with
  | LeaseOpen => if l_tracked l then with_host (releaseSnapshotLease (y_host y)) (put LeaseCounted y) else put LeaseClosing y
  | LeaseCounted => put LeaseClosing y
  | LeaseClosing =>
    match y_generations y !! l_generation l with
    | Some g => let '(g, closed, err) := release os g in with_generation (l_generation l) g closed (put (LeaseReleased err) y)
    | None => y
    end
  | LeaseReleased _ => y
  end.

(** A committed save installs a new generation and retires the old one. *)
Definition install (os : closing) (g : sourceGeneration) (y : system) : system :=
  let i := h_generation (y_host y) in
  match y_generations y !! i with
  | Some old =>
    let '(old, closed) := retire os true old in
    let y := with_generation i old closed y in
    mkSystem (set_generation (length (y_generations y)) (y_host y)) (y_generations y ++ [g]) (y_leases y) (y_savers y)
      (y_closer y) (y_log y)
  | None => y
  end.

(** Handles that no generation has had so far. *)
Definition fresh_handles (hs : list Z) (y : system) : Prop :=
  NoDup hs /\ forall h, h ∈ hs -> h ∉ y_log y /\ forall g, g ∈ y_generations y -> h ∉ handles g.

(** One goroutine runs its next critical section. *)
Inductive step (y : system) : system -> Prop :=
| step_Snapshot : step y (Snapshot y).1
| step_close_lease os i l : y_leases y !! i = Some l -> step y (close_lease os i l y)
| step_attachJournal g j path :
    y_generations y !! h_generation (y_host y) = Some g -> g_journal g = None -> shut (y_host y) = false ->
    fresh_handles [j] y ->
    step y (with_generation (h_generation (y_host y)) (attachJournal j path g) [] y)
| step_acquireSave :
    step y (with_saver (acquireSave_enter (y_host y)).1 (y_savers y ++ [(acquireSave_enter (y_host y)).2]) y)
| step_cancelSave i err : y_savers y !! i = Some SaveWaiting ->
    step y (with_saver (acquireSave_cancel err (y_host y)).1 (<[i := (acquireSave_cancel err (y_host y)).2]> (y_savers y)) y)
| step_receiveSave i : y_savers y !! i = Some SaveWaiting -> h_token (y_host y) = true ->
    step y (with_saver (take_token (y_host y)) (<[i := SaveReceived]> (y_savers y)) y)
| step_admitSave i ctxErr : y_savers y !! i = Some SaveReceived ->
    step y (with_saver (acquireSave_admit ctxErr (y_host y)).1 (<[i := (acquireSave_admit ctxErr (y_host y)).2]> (y_savers y)) y)
| step_refusedSave i err : y_savers y !! i = Some (SaveGivingBack err) ->
    step y (with_saver (give_token (y_host y)) (<[i := SaveReturned (Some err)]> (y_savers y)) y)
| step_saveLease i : y_savers y !! i = Some SaveRunning -> shut (y_host y) = false -> step y (lease_current false y)
| step_install i os base journal dir :
    y_savers y !! i = Some SaveRunning ->
    fresh_handles (option_list (fst <$> journal) ++ [base]) y ->
    step y (install os (setJournalCleanupDirectory dir (newSourceGeneration (Some base) journal)) y)
| step_releaseSave i : y_savers y !! i = Some SaveRunning ->
    step y (with_saver (releaseSave (y_host y)).1 (<[i := (releaseSave (y_host y)).2]> (y_savers y)) y)
| step_returnedSave i : y_savers y !! i = Some SaveFinishing ->
    step y (with_saver (give_token (y_host y)) (<[i := SaveReturned None]> (y_savers y)) y)
| step_cancelLifecycle : y_closer y = CloseIdle ->
    step y (with_closer (set_shutdown (Some document_ErrClosed) (h_closed (y_host y)) (h_closeCompleted (y_host y))
                           (h_closeErr (y_host y)) (y_host y)) CloseCancelled y)
| step_stop : y_closer y = CloseCancelled ->
    step y (with_closer (set_shutdown (h_lifecycle (y_host y)) true (h_closeCompleted (y_host y)) (h_closeErr (y_host y))
                           (y_host y)) CloseStopped y)
| step_closeGate : y_closer y = CloseStopped -> h_token (y_host y) = true ->
    step y (with_closer (take_token (y_host y)) CloseHolding y)
| step_closeRetire os remove g : y_closer y = CloseHolding -> y_generations y !! h_generation (y_host y) = Some g ->
    step y (let '(g, closed) := retire os remove g in
            with_generation (h_generation (y_host y)) g closed
              (with_closer (y_host y) (CloseRetiring (h_generation (y_host y))) y))
| step_closeRetired i g err : y_closer y = CloseRetiring i -> y_generations y !! i = Some g ->
    retireAndWait_done g = Some err -> step y (with_closer (y_host y) (CloseRetired err) y)
| step_closeCompleted err err' : y_closer y = CloseRetired err ->
    step y (with_closer (set_shutdown (h_lifecycle (y_host y)) true true (errors_Join err err') (y_host y)) CloseCompleted y)
| step_closeReturn : y_closer y = CloseCompleted ->
    step y (with_closer (give_token (y_host y)) CloseFinished y).

(** A session that was just opened: one generation, nothing else. *)
Definition opened (y : system) : Prop :=
  exists base journal dir max, 0 <= max /\
    NoDup (option_list (fst <$> journal) ++ [base]) /\
    y = mkSystem (mkHost 0 0 max 0 false true None false false None 0)
          [setJournalCleanupDirectory dir (newSourceGeneration (Some base) journal)] [] [] CloseIdle [].

Inductive reachable : system -> Prop :=
| reachable_open y : opened y -> reachable y
| reachable_step y y' : reachable y -> step y y' -> reachable y'.

(** * The save gate *)

Definition waits (s : saver) : bool := match s with SaveWaiting | SaveReceived => true | _ => false end.
Definition runs (s : saver) : bool := match s with SaveRunning => true | _ => false end.
Definition has_token (s : saver) : bool :=
  match s with SaveReceived | SaveGivingBack _ | SaveRunning | SaveFinishing => true | _ => false end.

(** How far the shutdown is. *)
Definition progress (c : closer) : Z :=
  match c with
  | CloseIdle => 0 | CloseCancelled => 1 | CloseStopped => 2 | CloseHolding => 3 | CloseRetiring _ => 4
  | CloseRetired _ => 5 | CloseCompleted => 6 | CloseFinished => 7
  end.

(** There is one token; it is in the channel, with one save, or with the shutdown. *)
Record gate_ok (y : system) : Prop := {
  ga_lifecycle : isSome (h_lifecycle (y_host y)) = (1 <=? progress (y_closer y));
  ga_closed : h_closed (y_host y) = (2 <=? progress (y_closer y));
  ga_completed : h_closeCompleted (y_host y) = (6 <=? progress (y_closer y));
  ga_waiting : h_waitingSaves (y_host y) = countb waits (y_savers y);
  ga_token : flag (h_token (y_host y)) + countb has_token (y_savers y) +
             flag ((3 <=? progress (y_closer y)) && (progress (y_closer y) <=? 6)) = 1;
  ga_active : flag (h_saveActive (y_host y)) = countb runs (y_savers y);
  ga_quiet : 3 <= progress (y_closer y) -> countb runs (y_savers y) = 0 }.

Lemma runs_token s : runs s = true -> has_token s = true.
Proof. by destruct s. Qed.

(** Two systems that look the same to the gate. *)
Lemma gate_frame y y' :
  h_lifecycle (y_host y') = h_lifecycle (y_host y) -> h_closed (y_host y') = h_closed (y_host y) ->
  h_closeCompleted (y_host y') = h_closeCompleted (y_host y) -> h_waitingSaves (y_host y') = h_waitingSaves (y_host y) ->
  h_token (y_host y') = h_token (y_host y) -> h_saveActive (y_host y') = h_saveActive (y_host y) ->
  y_savers y' = y_savers y -> y_closer y' = y_closer y -> gate_ok y -> gate_ok y'.
Proof. intros E1 E2 E3 E4 E5 E6 E7 E8 []. split; rewrite ?E1, ?E2, ?E3, ?E4, ?E5, ?E6, ?E7, ?E8; done. Qed.

Lemma lease_current_frame tracked y :
  y_host (lease_current tracked y) = y_host y /\ y_savers (lease_current tracked y) = y_savers y /\
  y_closer (lease_current tracked y) = y_closer y.
Proof. unfold lease_current. by destruct (_ !! _). Qed.

Lemma Snapshot_gate y : gate_ok y -> gate_ok (Snapshot y).1.
Proof.
  intros H. unfold Snapshot, snapshotLocked. destruct (shut (y_host y)); [by apply (gate_frame y)|].
  destruct (h_max (y_host y) <=? h_active (y_host y)); [by apply (gate_frame y)|]. cbn [fst].
  match goal with |- gate_ok (lease_current _ ?y') => destruct (lease_current_frame true y') as (E1 & E2 & E3) end.
  by apply (gate_frame y); rewrite ?E1, ?E2, ?E3.
Qed.

Lemma close_lease_gate os i l y : gate_ok y -> gate_ok (close_lease os i l y).
Proof.
  intros H. unfold close_lease. destruct (l_stage l); [destruct (l_tracked l)| | |]; try by apply (gate_frame y).
  destruct (_ !! _) as [g|]; [|done]. destruct (release os g) as [[g' closed] err]. by apply (gate_frame y).
Qed.

Lemma install_gate os g y : gate_ok y -> gate_ok (install os g y).
Proof.
  intros H. unfold install. destruct (_ !! _) as [old|]; [|done]. destruct (retire os true old) as [old' closed].
  by apply (gate_frame y).
Qed.

(** A save's section: the saver's state changes and the counters with it. *)
Ltac gate_step :=
  match goal with Hs : y_savers _ !! _ = Some _ |- _ =>
    split; cbn [y_host y_savers y_closer with_saver with_closer set_gate take_token give_token h_lifecycle h_closed h_closeCompleted
                h_waitingSaves h_token h_saveActive fst snd] in *;
    rewrite ?(countb_insert _ _ _ _ _ Hs); cbn [waits runs has_token flag]; try done; try lia
  end.

Lemma gate_step_ok y y' : step y y' -> gate_ok y -> gate_ok y'.
Proof.
  intros Hstep H. pose proof (countb_mono runs has_token (y_savers y) runs_token) as Hle.
  pose proof (countb_nonneg runs (y_savers y)) as Hn. pose proof (countb_nonneg has_token (y_savers y)) as Hn'.
  destruct Hstep as [|os i l Hl|g j path Hg Hj Hs Hf| |i err Hs|i Hs Ht|i ctxErr Hs|i err Hs|i Hs Hsh|i os base journal dir Hs Hf|i Hs|i Hs|Hc|Hc
    |Hc Ht|os rm g Hc Hg|i g err Hc Hg Hd|err err' Hc|Hc].
  - by apply Snapshot_gate.
  - by apply close_lease_gate.
  - by apply (gate_frame y).
  - unfold acquireSave_enter. destruct (shut (y_host y)) eqn:Hsh; destruct H; split;
      cbn [y_host y_savers y_closer with_saver set_gate h_lifecycle h_closed h_closeCompleted h_waitingSaves h_token h_saveActive fst snd];
      rewrite ?countb_app; cbn [countb waits runs has_token flag]; try done; try lia.
  - destruct H. unfold acquireSave_cancel. gate_step.
  - destruct H. rewrite Ht in *. gate_step. cbn [flag] in *. lia.
  - destruct H as [H1 H2 H3 H4 H5 H6 H7]. unfold acquireSave_admit, shut in *. cbn [set_gate h_closed h_lifecycle].
    pose proof (countb_lookup has_token _ _ _ Hs eq_refl).
    destruct (h_closed (y_host y) || isSome (h_lifecycle (y_host y))) eqn:Hsh.
    { gate_step. }
    apply orb_false_iff in Hsh as [Hcl Hli].
    rewrite H2 in Hcl. apply Z.leb_gt in Hcl. destruct ctxErr as [e|]; gate_step.
    assert (flag (h_saveActive (y_host y)) = 0); [|lia]. rewrite H6.
    assert (countb has_token (y_savers y) = 1) as Hone by (destruct (h_token (y_host y)), (_ && _); cbn [flag] in *; lia).
    pose proof (countb_insert has_token _ _ _ (SaveReturned None) Hs) as Hi1. cbn [has_token flag] in Hi1.
    pose proof (countb_insert runs _ _ _ (SaveReturned None) Hs) as Hi2. cbn [runs flag] in Hi2.
    pose proof (countb_mono runs has_token (<[i := SaveReturned None]> (y_savers y)) runs_token). lia.
  - destruct H. pose proof (countb_lookup has_token _ _ _ Hs eq_refl).
    assert (h_token (y_host y) = false) as Ht by (destruct (h_token (y_host y)), (_ && _); cbn [flag] in *; (done || lia)).
    rewrite Ht in *. gate_step. cbn [flag] in *. lia.
  - destruct (lease_current_frame false y) as (E1 & E2 & E3). by apply (gate_frame y); rewrite ?E1.
  - by apply install_gate.
  - destruct H. pose proof (countb_lookup runs _ _ _ Hs eq_refl). unfold releaseSave. gate_step.
    assert (countb runs (y_savers y) <= 1) by (destruct (h_saveActive (y_host y)); cbn [flag] in *; lia). lia.
  - destruct H. pose proof (countb_lookup has_token _ _ _ Hs eq_refl).
    assert (h_token (y_host y) = false) as Ht by (destruct (h_token (y_host y)), (_ && _); cbn [flag] in *; (done || lia)).
    rewrite Ht in *. gate_step. cbn [flag] in *. lia.
  - destruct H. rewrite Hc in *. split; cbn in *; try done; lia.
  - destruct H. rewrite Hc in *. split; cbn in *; try done; lia.
  - destruct H. rewrite Hc, Ht in *. split; cbn in *; try done; lia.
  - destruct (retire os rm g) as [g' closed]. destruct H. rewrite Hc in *. split; cbn in *; try done; lia.
  - destruct H. rewrite Hc in *. split; cbn in *; try done; lia.
  - destruct H. rewrite Hc in *. split; cbn in *; try done; lia.
  - destruct H as [H1 H2 H3 H4 H5 H6 H7]. rewrite Hc in *. cbn in H5. assert (h_token (y_host y) = false) as Ht.
    { destruct (h_token (y_host y)); [|done]. cbn [flag] in H5. lia. }
    rewrite Ht in *. split; cbn in *; try done; try lia.
Qed.

(** * Generations and leases *)

Definition released (l : lease) : bool := match l_stage l with LeaseReleased _ => true | _ => false end.
Definition refers (i : nat) (l : lease) : bool := bool_decide (l_generation l = i) && negb (released l).
Definition permits (l : lease) : bool := l_tracked l && match l_stage l with LeaseOpen => true | _ => false end.

(** A generation with [n] unreleased leases: its count is exact, and its handles
    are open as long as something refers to it. *)
Record generation_ok (n : Z) (g : sourceGeneration) : Prop := {
  ge_refs : g_refs g = n + flag (negb (g_retired g));
  ge_open : 0 < g_refs g -> is_Some (g_base g);
  ge_closed : g_refs g = 0 -> handles g = [] }.

Lemma closeIfUnused_spec os n g g' closed :
  closeIfUnusedLocked os g = (g', closed) -> 0 <= n -> g_refs g = n + flag (negb (g_retired g)) ->
  (0 < g_refs g -> is_Some (g_base g)) ->
  generation_ok n g' /\ closed ++ handles g' = handles g /\ g_retired g' = g_retired g.
Proof.
  unfold closeIfUnusedLocked. intros H Hn Hr Ho.
  destruct (g_retired g) eqn:Hret; cbn [negb orb flag] in *; [|injection H as <- <-; (split_and!; [split|..]); try done; rewrite ?Hret; cbn [negb flag]; lia].
  destruct (Z.eqb_spec (g_refs g) 0) as [E|E]; cbn [negb] in H; [|injection H as <- <-; (split_and!; [split|..]); try done; rewrite ?Hret; cbn [negb flag]; lia].
  destruct (if g_removeJournal g && negb (zlen (g_journalPath g) =? 0) then _ else _) as [err path].
  destruct (if g_removeJournal g && negb (zlen (g_journalCleanupDir g) =? 0) then _ else _) as [err' dir].
  injection H as <- <-. split_and!; [split|apply app_nil_r|done]; cbn; rewrite ?Hret; cbn; (done || lia).
Qed.

Lemma release_spec os n g g' closed err :
  release os g = (g', closed, err) -> 0 <= n -> generation_ok (n + 1) g ->
  generation_ok n g' /\ closed ++ handles g' = handles g /\ g_retired g' = g_retired g.
Proof.
  unfold release. intros H Hn [Hr Ho _]. destruct (closeIfUnusedLocked _ _) as [g1 c1] eqn:E. injection H as <- <- <-.
  assert (0 < g_refs g) as Hpos by (rewrite Hr; destruct (g_retired g); cbn; lia). rewrite (proj2 (Z.ltb_lt _ _) Hpos) in E.
  apply (closeIfUnused_spec _ n _ _ _ E Hn); cbn; [lia|auto].
Qed.

Lemma retire_spec os remove n g g' closed :
  retire os remove g = (g', closed) -> 0 <= n -> generation_ok n g -> g_retired g = false ->
  generation_ok n g' /\ closed ++ handles g' = handles g /\ g_retired g' = true.
Proof.
  unfold retire. intros H Hn [Hr Ho _] Hret. rewrite Hret in *. cbn [negb flag] in Hr.
  apply (closeIfUnused_spec _ n _ _ _ H Hn); cbn; [lia|intros; apply Ho; lia].
Qed.

(** All the handles the generations still hold. *)
Definition held (gs : list sourceGeneration) : list Z := flat_map handles gs.

Lemma held_insert gs i g g' : gs !! i = Some g ->
  exists rest, held gs ≡ₚ handles g ++ rest /\ held (<[i := g']> gs) ≡ₚ handles g' ++ rest.
Proof.
  revert i. induction gs as [|x gs IH]; intros [|i] H; try done.
  - injection H as ->. by exists (held gs).
  - destruct (IH i H) as (rest & E1 & E2). exists (handles x ++ rest). unfold held in *.
    change (<[S i := g']> (x :: gs)) with (x :: <[i := g']> gs). cbn [flat_map]. rewrite E1, E2. split; solve_Permutation.
Qed.

Lemma log_update log gs i g g' closed : gs !! i = Some g -> closed ++ handles g' = handles g ->
  NoDup (log ++ held gs) -> NoDup ((log ++ closed) ++ held (<[i := g']> gs)).
Proof.
  intros Hi Hc Hn. destruct (held_insert gs i g g' Hi) as (rest & E1 & E2). rewrite E2. rewrite E1, <-Hc in Hn.
  by rewrite <-!app_assoc in *.
Qed.

Lemma log_fresh log gs hs : NoDup (log ++ held gs) -> NoDup hs ->
  (forall h, h ∈ hs -> h ∉ log /\ forall g, g ∈ gs -> h ∉ handles g) -> NoDup (hs ++ log ++ held gs).
Proof.
  intros Hn Hh Hf. apply list.NoDup_app. split_and!; [done| |done]. intros h Hin [Hl|Hg]%elem_of_app.
  - by apply (Hf h Hin).
  - unfold held in Hg. apply list_elem_of_In, in_flat_map in Hg as (g & Hg1 & Hg2). apply list_elem_of_In in Hg1, Hg2.
    by destruct (proj2 (Hf h Hin) g Hg1).
Qed.

Record leases_ok (y : system) : Prop := {
  le_generation : forall i g, y_generations y !! i = Some g -> generation_ok (countb (refers i) (y_leases y)) g;
  le_current : exists g, y_generations y !! h_generation (y_host y) = Some g /\
    g_retired g = (4 <=? progress (y_closer y)) /\ (5 <= progress (y_closer y) -> g_refs g = 0);
  le_old : forall i g, y_generations y !! i = Some g -> i <> h_generation (y_host y) -> g_retired g = true;
  le_retiring : forall i, y_closer y = CloseRetiring i -> i = h_generation (y_host y);
  le_lease : Forall (fun l => is_Some (y_generations y !! l_generation l)) (y_leases y);
  le_active : h_active (y_host y) = countb permits (y_leases y);
  le_budget : h_active (y_host y) <= h_peak (y_host y) <= h_max (y_host y);
  le_log : NoDup (y_log y ++ held (y_generations y)) }.

Lemma refers_out (gs : list sourceGeneration) (leases : list lease) i :
  Forall (fun l => is_Some (gs !! l_generation l)) leases -> gs !! i = None -> countb (refers i) leases = 0.
Proof.
  intros Hl Hi. apply countb_zero. eapply Forall_impl; [|exact Hl]. intros l [g Hg]. unfold refers.
  rewrite bool_decide_false by congruence. done.
Qed.

(** Replacing the generation [i] while lease [l] may change. *)
Lemma lookup_insert_cases (gs : list sourceGeneration) i g g' j x :
  gs !! i = Some g -> <[i := g']> gs !! j = Some x -> (j = i /\ x = g') \/ (j <> i /\ gs !! j = Some x).
Proof.
  intros Hi. destruct (decide (i = j)) as [<-|Hne].
  - rewrite list_lookup_insert_eq by (by eapply lookup_lt_Some). intros [= <-]. by left.
  - rewrite list_lookup_insert_ne by done. right. by split.
Qed.

Lemma leases_same (gs : list sourceGeneration) i g' (leases : list lease) :
  Forall (fun l => is_Some (gs !! l_generation l)) leases ->
  Forall (fun l => is_Some (<[i := g']> gs !! l_generation l)) leases.
Proof.
  intros H. eapply Forall_impl; [|exact H]. intros l [x Hx]. apply lookup_lt_Some in Hx. apply lookup_lt_is_Some.
  by rewrite length_insert.
Qed.

(** Only the host's gate and the savers moved. *)
Lemma leases_frame y y' :
  y_generations y' = y_generations y -> y_leases y' = y_leases y -> y_log y' = y_log y ->
  h_generation (y_host y') = h_generation (y_host y) -> h_active (y_host y') = h_active (y_host y) ->
  h_peak (y_host y') = h_peak (y_host y) -> h_max (y_host y') = h_max (y_host y) ->
  y_closer y' = y_closer y -> leases_ok y -> leases_ok y'.
Proof. intros E1 E2 E3 E4 E5 E6 E7 E8 []. split; rewrite ?E1, ?E2, ?E3, ?E4, ?E5, ?E6, ?E7, ?E8; done. Qed.

Lemma lease_current_ok tracked y y0 :
  leases_ok y0 -> progress (y_closer y0) < 4 ->
  y_generations y = y_generations y0 -> y_leases y = y_leases y0 -> y_log y = y_log y0 -> y_closer y = y_closer y0 ->
  h_generation (y_host y) = h_generation (y_host y0) ->
  h_active (y_host y) = h_active (y_host y0) + flag tracked -> h_active (y_host y) <= h_peak (y_host y) <= h_max (y_host y) ->
  leases_ok (lease_current tracked y).
Proof.
  intros [Hg (g & Hc & Hret & Hd) Ho Hr Hl Ha Hb Hlog] Hp E1 E2 E3 E4 E5 Ea Eb. unfold lease_current.
  rewrite E1, E5, Hc. assert (g_retired g = false) as Hret0 by (rewrite Hret; apply Z.leb_gt; lia).
  destruct (Hg _ _ Hc) as [Hn Hopen Hcl]. rewrite Hret0 in Hn. cbn [negb flag] in Hn.
  split; cbn [y_generations y_leases y_host y_log y_closer with_leases with_generation]; rewrite ?E1, ?E2, ?E3, ?E4, ?E5.
  - intros j x Hj. rewrite countb_app. cbn [countb]. unfold refers at 2. cbn [l_generation released l_stage negb]. rewrite andb_true_r, Z.add_0_r.
    destruct (lookup_insert_cases _ _ _ _ _ _ Hc Hj) as [[-> ->]|[Hne Hj']].
    + rewrite bool_decide_true by done. pose proof (countb_nonneg (refers (h_generation (y_host y0))) (y_leases y0)).
      split; cbn; rewrite ?Hret0; cbn; [lia|intros; apply Hopen; lia|intros; lia].
    + rewrite bool_decide_false by done. cbn [flag]. rewrite Z.add_0_r. by apply Hg.
  - exists (acquire g). rewrite list_lookup_insert_eq by (by eapply lookup_lt_Some). split_and!; [done|done|lia].
  - intros j x Hj Hne. destruct (lookup_insert_cases _ _ _ _ _ _ Hc Hj) as [[-> ->]|[_ Hj']]; [done|by eapply Ho].
  - done.
  - apply Forall_app. split; [by apply leases_same|]. constructor; [|done]. cbn.
    rewrite list_lookup_insert_eq by (by eapply lookup_lt_Some). by eexists.
  - rewrite countb_app, Ea, Ha. cbn [countb permits l_tracked l_stage]. destruct tracked; cbn; lia.
  - done.
  - eapply log_update; [done| |done]. done.
Qed.

Lemma shut_progress y : gate_ok y -> shut (y_host y) = false -> progress (y_closer y) = 0.
Proof.
  intros [H1 H2 _ _ _ _ _]. unfold shut. rewrite H1, H2. intros [? H]%orb_false_iff. apply Z.leb_gt in H.
  destruct (y_closer y); cbn in *; lia.
Qed.

Lemma Snapshot_leases y : gate_ok y -> leases_ok y -> leases_ok (Snapshot y).1.
Proof.
  intros Hgate H. unfold Snapshot, snapshotLocked. destruct (shut (y_host y)) eqn:Hsh; [by apply (leases_frame y)|].
  destruct (Z.leb_spec (h_max (y_host y)) (h_active (y_host y))); [by apply (leases_frame y)|]. cbn [fst].
  pose proof (shut_progress _ Hgate Hsh). pose proof (le_budget _ H).
  eapply (lease_current_ok true _ y); try done; [lia|].
  cbn. destruct (Z.ltb_spec (h_peak (y_host y)) (h_active (y_host y) + 1)); lia.
Qed.

(** A lease moves one stage on without releasing. *)
Lemma lease_stage_ok y i l stage h : leases_ok y -> y_leases y !! i = Some l -> released l = false ->
  released (mkLease (l_generation l) (l_tracked l) stage) = false -> h_generation h = h_generation (y_host y) ->
  h_active h = h_active (y_host y) - flag (permits l) + flag (permits (mkLease (l_generation l) (l_tracked l) stage)) ->
  h_active h <= h_peak h <= h_max h ->
  leases_ok (with_host h (with_leases (<[i := mkLease (l_generation l) (l_tracked l) stage]> (y_leases y)) y)).
Proof.
  intros [Hg Hc Ho Hr Hl Ha Hb Hlog] Hi Hrel Hrel' Eg Ea Eb.
  split; cbn [y_generations y_leases y_host y_log y_closer with_leases with_host]; rewrite ?Eg; try done.
  - intros j x Hj. rewrite (countb_insert _ _ _ _ _ Hi). unfold refers at 2 3. rewrite Hrel, Hrel'. cbn [l_generation].
    replace (countb (refers j) (y_leases y) - _ + _) with (countb (refers j) (y_leases y)) by lia. by apply Hg.
  - apply Forall_insert; [done|]. by apply (Forall_lookup_1 _ _ _ _ Hl Hi).
  - rewrite (countb_insert _ _ _ _ _ Hi), Ea, Ha. done.
Qed.

(** A generation moves on; the leases on it are counted anew. *)
Lemma generation_step_ok y i g g' closed leases c :
  leases_ok y -> y_generations y !! i = Some g ->
  generation_ok (countb (refers i) leases) g' -> closed ++ handles g' = handles g ->
  (forall j, j <> i -> countb (refers j) leases = countb (refers j) (y_leases y)) ->
  countb permits leases = countb permits (y_leases y) ->
  Forall (fun l => is_Some (y_generations y !! l_generation l)) leases ->
  (i = h_generation (y_host y) -> g_retired g' = (4 <=? progress c) /\ (5 <= progress c -> g_refs g' = 0)) ->
  (i <> h_generation (y_host y) -> g_retired g' = g_retired g /\ c = y_closer y) ->
  (forall j, c = CloseRetiring j -> j = h_generation (y_host y)) ->
  leases_ok (mkSystem (y_host y) (<[i := g']> (y_generations y)) leases (y_savers y) c (y_log y ++ closed)).
Proof.
  intros [Hg (g0 & Hc & Hret & Hd) Ho Hr Hl Ha Hb Hlog] Hi Hok Hcl Href Hper Hls Hcur Hother Hret'.
  split; cbn [y_generations y_leases y_host y_log y_closer]; try done.
  - intros j x Hj. destruct (lookup_insert_cases _ _ _ _ _ _ Hi Hj) as [[-> ->]|[Hne Hj']]; [done|].
    rewrite Href by done. by apply Hg.
  - destruct (decide (i = h_generation (y_host y))) as [->|Hne].
    + exists g'. rewrite list_lookup_insert_eq by (by eapply lookup_lt_Some). split; [done|by apply Hcur].
    + exists g0. rewrite list_lookup_insert_ne by done. destruct (Hother Hne) as [_ ->]. done.
  - intros j x Hj Hne. destruct (lookup_insert_cases _ _ _ _ _ _ Hi Hj) as [[-> ->]|[_ Hj']]; [|by eapply Ho].
    destruct (Hother Hne) as [-> _]. by eapply Ho.
  - by apply leases_same.
  - congruence.
  - by eapply log_update.
Qed.

Lemma close_lease_leases os i l y : leases_ok y -> y_leases y !! i = Some l -> leases_ok (close_lease os i l y).
Proof.
  intros H Hi. pose proof (le_budget _ H) as Hb. pose proof (le_active _ H) as Ha. unfold close_lease.
  destruct l as [gi tr st]. cbn [l_stage l_tracked l_generation].
  destruct st; [destruct tr| | |done].
  - assert (0 < h_active (y_host y)) as Hpos by (rewrite Ha; by eapply countb_lookup).
    apply (lease_stage_ok y i (mkLease gi true LeaseOpen) LeaseCounted); try done; cbn; rewrite (proj2 (Z.ltb_lt _ _) Hpos); lia.
  - apply (lease_stage_ok y i (mkLease gi false LeaseOpen) LeaseClosing (y_host y)); try done; cbn; lia.
  - apply (lease_stage_ok y i (mkLease gi tr LeaseCounted) LeaseClosing (y_host y)); try done. destruct tr; cbn; lia.
  - destruct (y_generations y !! gi) as [g|] eqn:Hg; [|done].
    destruct (release os g) as [[g' closed] err] eqn:Hr.
    set (leases := <[i := mkLease gi tr (LeaseReleased err)]> (y_leases y)).
    assert (forall j, countb (refers j) leases = countb (refers j) (y_leases y) - flag (bool_decide (gi = j))) as Hcount.
    { intros j. unfold leases. rewrite (countb_insert _ _ _ _ _ Hi). unfold refers at 2 3. cbn. rewrite andb_true_r, andb_false_r. cbn. lia. }
    pose proof (Hcount gi) as Hgi. rewrite bool_decide_true in Hgi by done. cbn [flag] in Hgi.
    pose proof (countb_nonneg (refers gi) leases) as Hnn. destruct (le_current _ H) as (g0 & Hc & Hret0 & Hd0).
    pose proof (le_generation _ H _ _ Hg) as Hok. replace (countb (refers gi) (y_leases y)) with (countb (refers gi) leases + 1) in Hok by lia.
    destruct (release_spec _ _ _ _ _ _ Hr Hnn Hok) as (Hok' & Hcl & Hret).
    apply (generation_step_ok y gi g g' closed leases (y_closer y)); try done.
    + intros j Hj. rewrite Hcount, bool_decide_false by done. cbn. lia.
    + unfold leases. rewrite (countb_insert _ _ _ _ _ Hi). destruct tr; cbn; lia.
    + apply Forall_insert; [apply (le_lease _ H)|by eexists].
    + intros ->. rewrite Hc in Hg. injection Hg as ->. rewrite Hret. split; [done|]. intros Hp. specialize (Hd0 Hp).
      destruct Hok as [E _ _]. rewrite Hd0 in E. destruct (g_retired g); cbn in E; lia.
    + apply (le_retiring _ H).
Qed.

Lemma attach_leases y g j path : gate_ok y -> leases_ok y ->
  y_generations y !! h_generation (y_host y) = Some g -> g_journal g = None -> shut (y_host y) = false -> fresh_handles [j] y ->
  leases_ok (with_generation (h_generation (y_host y)) (attachJournal j path g) [] y).
Proof.
  intros Hgate H Hg Hj Hsh [_ Hf]. pose proof (shut_progress _ Hgate Hsh) as Hp. pose proof (le_generation _ H _ _ Hg) as Hok.
  destruct (le_current _ H) as (g0 & Hc & Hret & Hd). rewrite Hg in Hc. injection Hc as <-. rewrite Hp in Hret. cbn in Hret.
  pose proof H as [Hgs _ Ho Hr Hl Ha Hb Hlog]. unfold with_generation.
  assert (generation_ok (countb (refers (h_generation (y_host y))) (y_leases y)) (attachJournal j path g)) as Hok'.
  { destruct Hok as [E1 E2 E3]. pose proof (countb_nonneg (refers (h_generation (y_host y))) (y_leases y)).
    rewrite Hret in E1. cbn in E1. split; cbn; [by rewrite Hret|done|lia]. }
  split; cbn [y_generations y_leases y_host y_log y_closer]; try done.
  - intros k x Hk. destruct (lookup_insert_cases _ _ _ _ _ _ Hg Hk) as [[-> ->]|[Hne Hk']]; [done|by apply Hgs].
  - exists (attachJournal j path g). rewrite list_lookup_insert_eq by (by eapply lookup_lt_Some). rewrite Hp. by split_and!.
  - intros k x Hk Hne. destruct (lookup_insert_cases _ _ _ _ _ _ Hg Hk) as [[-> ->]|[_ Hk']]; [done|by eapply Ho].
  - by apply leases_same.
  - rewrite app_nil_r. destruct (held_insert _ _ _ (attachJournal j path g) Hg) as (rest & E1 & E2).
    pose proof (log_fresh _ _ _ Hlog (NoDup_singleton j) Hf) as Hn. rewrite E1 in Hn. rewrite E2.
    unfold handles in *. rewrite Hj in Hn. cbn [attachJournal g_journal g_base option_list app] in *.
    change (option_list (Some j)) with [j]. change (option_list None) with (@nil Z) in Hn. cbn [app] in *. by rewrite <-Permutation_middle.
Qed.

Lemma install_leases os g0 y i : gate_ok y -> leases_ok y -> y_savers y !! i = Some SaveRunning ->
  fresh_handles (handles g0) y -> g_refs g0 = 1 -> g_retired g0 = false -> is_Some (g_base g0) ->
  leases_ok (install os g0 y).
Proof.
  intros Hgate H Hs [Hfn Hf] Hrefs Hret0 Hbase. unfold install.
  assert (progress (y_closer y) < 3) as Hp.
  { destruct (Z.ltb_spec (progress (y_closer y)) 3); [done|]. pose proof (ga_quiet _ Hgate ltac:(lia)).
    pose proof (countb_lookup runs _ _ _ Hs eq_refl). lia. }
  destruct (le_current _ H) as (g & Hc & Hret & _). rewrite Hc. rewrite (proj2 (Z.leb_gt 4 _)) in Hret by lia.
  destruct (retire os true g) as [old closed] eqn:Hr. set (n := h_generation (y_host y)) in *.
  pose proof H as [Hgs _ Ho Hre Hl Ha Hb Hlog].
  destruct (retire_spec _ _ _ _ _ _ Hr (countb_nonneg _ _) (Hgs _ _ Hc) Hret) as (Hok & Hcl & Hret').
  cbn [y_host y_generations y_leases y_savers y_closer y_log with_generation].
  assert (length (<[n := old]> (y_generations y)) = length (y_generations y)) as Hlen by apply length_insert.
  assert (forall j x, (<[n := old]> (y_generations y) ++ [g0]) !! j = Some x ->
    (j = length (y_generations y) /\ x = g0) \/ ((j < length (y_generations y))%nat /\ <[n := old]> (y_generations y) !! j = Some x)) as Hcases.
  { intros j x Hj. apply lookup_app_Some in Hj as [Hj|[Hle Hj]].
    - right. split; [|done]. apply lookup_lt_Some in Hj. lia.
    - rewrite Hlen in Hle, Hj. left. destruct (j - length (y_generations y))%nat eqn:E; [|by destruct n0]. cbn in Hj. injection Hj as ->. split; [lia|done]. }
  split; cbn [y_generations y_leases y_host y_log y_closer set_generation h_generation h_active h_peak h_max]; try done.
  - intros j x Hj. destruct (Hcases _ _ Hj) as [[-> ->]|[_ Hj']].
    + rewrite (refers_out (y_generations y) _ _ Hl) by (by apply lookup_ge_None). destruct Hbase as [b Hb']. split; rewrite ?Hret0; cbn; [lia|by eexists|lia].
    + destruct (lookup_insert_cases _ _ _ _ _ _ Hc Hj') as [[-> ->]|[_ Hj2]]; [done|by apply Hgs].
  - exists g0. rewrite lookup_app_r, Hlen, Nat.sub_diag by lia. split_and!; [done| |lia]. rewrite Hret0. symmetry. apply Z.leb_gt. lia.
  - intros j x Hj Hne. destruct (Hcases _ _ Hj) as [[-> ->]|[_ Hj']]; [by rewrite Hlen in Hne|].
    destruct (lookup_insert_cases _ _ _ _ _ _ Hc Hj') as [[-> ->]|[Hnej Hj2]]; [done|by eapply Ho].
  - intros j Hj. rewrite Hj in Hp. cbn in Hp. lia.
  - eapply Forall_impl; [|by apply (leases_same (y_generations y) n old)]. intros l [x Hx]. exists x. by apply lookup_app_l_Some.
  - unfold held. rewrite flat_map_app. cbn [flat_map]. rewrite app_nil_r.
    pose proof (log_fresh _ _ _ Hlog Hfn Hf) as Hn.
    assert (forall h, h ∈ handles g0 -> h ∉ y_log y ++ held (y_generations y)) as Hout.
    { intros h Hh. apply list.NoDup_app in Hn as (_ & Hn & _). by apply Hn. }
    pose proof (log_update _ _ _ _ _ _ Hc Hcl Hlog) as Hn2. destruct (held_insert _ _ _ old Hc) as (rest & E1 & E2).
    fold (held (<[n := old]> (y_generations y))). rewrite app_assoc. rewrite (Permutation_app_comm _ (handles g0)). apply list.NoDup_app. split_and!; [done| |done].
    intros h Hh Hin. apply (Hout h Hh). rewrite E1, <-Hcl. rewrite E2 in Hin. by rewrite <-!app_assoc in *.
Qed.

(** The shutdown moves on without touching a generation. *)
Lemma closer_leases y h c : leases_ok y -> h_generation h = h_generation (y_host y) -> h_active h = h_active (y_host y) ->
  h_peak h = h_peak (y_host y) -> h_max h = h_max (y_host y) ->
  (4 <=? progress c) = (4 <=? progress (y_closer y)) ->
  (forall g, y_generations y !! h_generation (y_host y) = Some g -> 5 <= progress c -> g_refs g = 0) ->
  (forall i, c = CloseRetiring i -> i = h_generation (y_host y)) -> leases_ok (with_closer h c y).
Proof.
  intros [Hg (g & Hc & Hret & Hd) Ho Hr Hl Ha Hb Hlog] E1 E2 E3 E4 Hp Hz Hi.
  split; cbn [y_generations y_leases y_host y_log y_closer with_closer]; rewrite ?E1, ?E2, ?E3, ?E4; try done.
  exists g. split_and!; [done|by rewrite Hp|by apply Hz].
Qed.

Lemma new_generation_handles base journal dir :
  handles (setJournalCleanupDirectory dir (newSourceGeneration (Some base) journal)) = option_list (fst <$> journal) ++ [base].
Proof. by destruct journal as [[j p]|]. Qed.

Lemma leases_step_ok y y' : step y y' -> gate_ok y -> leases_ok y -> leases_ok y'.
Proof.
  intros Hstep Hgate H. pose proof H as [Hgs (g0 & Hc & Hret & Hd) Ho Hr Hl Ha Hb Hlog].
  destruct Hstep as [|os i l Hi|g j path Hg Hj Hs Hf| |i err Hs|i Hs Ht|i ctxErr Hs|i err Hs|i Hs Hsh|i os base journal dir Hs Hf|i Hs|i Hs|Hcl|Hcl
    |Hcl Ht|os rm g Hcl Hg|i g err Hcl Hg Hdone|err err' Hcl|Hcl].
  - by apply Snapshot_leases.
  - by apply close_lease_leases.
  - by apply attach_leases.
  - unfold acquireSave_enter. destruct (shut _); by apply (leases_frame y).
  - by apply (leases_frame y).
  - by apply (leases_frame y).
  - unfold acquireSave_admit. destruct (shut _); [|destruct ctxErr]; by apply (leases_frame y).
  - by apply (leases_frame y).
  - pose proof (shut_progress _ Hgate Hsh). apply (lease_current_ok false y y); try done; cbn; lia.
  - eapply install_leases; [done|done|done|by rewrite new_generation_handles| | |]; destruct journal as [[? ?]|]; try done; by eexists.
  - by apply (leases_frame y).
  - by apply (leases_frame y).
  - apply closer_leases; rewrite ?Hcl; try done; cbn; lia.
  - apply closer_leases; rewrite ?Hcl; try done; cbn; lia.
  - apply closer_leases; rewrite ?Hcl; try done; cbn; lia.
  - rewrite Hg in Hc. injection Hc as <-. rewrite Hcl in *. cbn in Hret. destruct (retire os rm g) as [g' closed] eqn:Hrt.
    destruct (retire_spec _ _ _ _ _ _ Hrt (countb_nonneg _ _) (Hgs _ _ Hg) Hret) as (Hok & Hclosed & Hret').
    apply (generation_step_ok y _ g g' closed (y_leases y)); try done.
    by intros j [= E].
  - assert (i = h_generation (y_host y)) as -> by (by apply Hr). rewrite Hg in Hc. injection Hc as <-.
    apply closer_leases; try done; rewrite ?Hcl; try done. intros x Hx _. rewrite Hg in Hx. injection Hx as <-.
    unfold retireAndWait_done in Hdone. destruct (Z.ltb_spec 0 (g_refs g)); [done|].
    destruct (Hgs _ _ Hg) as [E _ _]. pose proof (countb_nonneg (refers (h_generation (y_host y))) (y_leases y)).
    destruct (g_retired g); cbn in E; lia.
  - apply closer_leases; try done; rewrite ?Hcl in *; try done. intros x Hx _. rewrite Hx in Hc. injection Hc as <-. apply Hd. cbn. lia.
  - apply closer_leases; try done; rewrite ?Hcl in *; try done. intros x Hx _. rewrite Hx in Hc. injection Hc as <-. apply Hd. cbn. lia.
Qed.

Lemma reachable_ok y : reachable y -> gate_ok y /\ leases_ok y.
Proof.
  induction 1 as [y (base & journal & dir & max & Hmax & Hnd & ->)|y y' _ [Hg Hl] Hstep].
  - split; [by split|]. split; cbn; try done.
    + intros [|i] g Hi; [|by destruct i]. cbn in Hi. injection Hi as <-. destruct journal as [[j p]|]; split; cbn; try done; intros; by eexists.
    + eexists. split_and!; [done|by destruct journal as [[j p]|]|lia].
    + intros [|i] g Hi; [done|by destruct i].
    + rewrite app_nil_r, new_generation_handles. done.
  - split; [by eapply gate_step_ok|by eapply leases_step_ok].
Qed.

(** * What the accounting guarantees *)

(** ** What a lease keeps open *)

(** A generation keeps its handles until nothing refers to it. *)
Definition keeps_handles (gs gs' : list sourceGeneration) : Prop := forall j g, gs !! j = Some g ->
  exists g', gs' !! j = Some g' /\ (handles g ⊆ handles g' \/ g_refs g' = 0).

Lemma keeps_handles_refl gs : keeps_handles gs gs.
Proof. intros j g Hg. exists g. split; [done|]. by left. Qed.
Lemma keeps_handles_app gs gs' : keeps_handles gs (gs ++ gs').
Proof. intros j g Hg. exists g. split; [by apply lookup_app_l_Some|]. by left. Qed.
Lemma keeps_handles_insert gs i g g' : gs !! i = Some g -> handles g ⊆ handles g' \/ g_refs g' = 0 -> keeps_handles gs (<[i := g']> gs).
Proof.
  intros Hi Hg j x Hj. destruct (decide (i = j)) as [<-|Hne].
  - exists g'. rewrite list_lookup_insert_eq by (by eapply lookup_lt_Some). split; [done|]. assert (x = g) as -> by congruence. done.
  - exists x. rewrite list_lookup_insert_ne by done. split; [done|]. by left.
Qed.

Lemma closeIfUnused_keeps os g g' closed : closeIfUnusedLocked os g = (g', closed) -> handles g ⊆ handles g' \/ g_refs g' = 0.
Proof.
  unfold closeIfUnusedLocked. destruct (negb (g_retired g)); cbn [orb]; [intros [= <- _]; by left|].
  destruct (Z.eqb_spec (g_refs g) 0) as [E|]; cbn [negb]; [|intros [= <- _]; by left].
  destruct (if g_removeJournal g && negb (zlen (g_journalPath g) =? 0) then _ else _) as [err path].
  destruct (if g_removeJournal g && negb (zlen (g_journalCleanupDir g) =? 0) then _ else _) as [err' dir].
  intros [= <- _]. by right.
Qed.

Lemma step_keeps_handles y y' : step y y' -> keeps_handles (y_generations y) (y_generations y').
Proof.
  assert (forall tracked y0, keeps_handles (y_generations y0) (y_generations (lease_current tracked y0))) as Hcur.
  { intros tracked y0. unfold lease_current. destruct (y_generations y0 !! _) as [g|] eqn:Hg; [|apply keeps_handles_refl].
    apply (keeps_handles_insert _ _ g); [done|by left]. }
  assert (forall os rm g g' closed, retire os rm g = (g', closed) -> handles g ⊆ handles g' \/ g_refs g' = 0) as Hret.
  { intros os rm g g' closed H. by apply closeIfUnused_keeps in H. }
  intros [|os i l Hl|g j path Hg Hj Hs Hf| |i err Hs|i Hs Ht|i ctxErr Hs|i err Hs|i Hs Hsh|i os base journal dir Hs Hf|i Hs|i Hs|Hc|Hc
    |Hc Ht|os rm g Hc Hg|i g err Hc Hg Hd|err err' Hc|Hc]; try apply keeps_handles_refl.
  - unfold Snapshot. destruct (snapshotLocked _) as [h [[]|e]]; [apply (Hcur true (with_host h y))|apply keeps_handles_refl].
  - unfold close_lease. destruct (l_stage l); [destruct (l_tracked l)| | |]; try apply keeps_handles_refl.
    destruct (y_generations y !! _) as [g|] eqn:Hg; [|apply keeps_handles_refl]. destruct (release os g) as [[g' closed] err] eqn:Hr.
    apply (keeps_handles_insert _ _ g); [done|]. unfold release in Hr. destruct (closeIfUnusedLocked _ _) as [g1 c1] eqn:Hc. injection Hr as <- _ _.
    by apply closeIfUnused_keeps in Hc.
  - apply (keeps_handles_insert _ _ g); [done|]. left. unfold handles. rewrite Hj. cbn. intros h Hh. by right.
  - apply Hcur.
  - unfold install. destruct (y_generations y !! _) as [old|] eqn:Hg; [|apply keeps_handles_refl]. destruct (retire os true old) as [old' closed] eqn:Hr.
    intros j g Hj. destruct (keeps_handles_insert _ _ _ _ Hg (Hret _ _ _ _ _ Hr) j g Hj) as (g' & Hg' & Hk). exists g'. split; [|done].
    by apply lookup_app_l_Some.
  - destruct (retire os rm g) as [g' closed] eqn:Hr. apply (keeps_handles_insert _ _ g); [done|]. by eapply Hret.
Qed.

(** A lease stays on its generation, and once released it is for good. *)
Lemma step_keeps_leases y y' i l : step y y' -> y_leases y !! i = Some l ->
  exists l', y_leases y' !! i = Some l' /\ l_generation l' = l_generation l /\ (released l = true -> released l' = true).
Proof.
  intros Hstep Hi.
  assert (forall tracked y0, y_leases y0 = y_leases y -> y_leases (lease_current tracked y0) !! i = Some l) as Hcur.
  { intros tracked y0 E. unfold lease_current. destruct (y_generations y0 !! _); [|by rewrite E]. cbn. rewrite E. by apply lookup_app_l_Some. }
  assert (y_leases y' !! i = Some l \/ exists l', y_leases y' !! i = Some l' /\ l_generation l' = l_generation l /\ released l = false) as [E|(l' & E & Eg & Hn)];
    [|by exists l|exists l'; split; [done|]; split; [done|]; congruence].
  destruct Hstep as [|os j x Hl|g j path Hg Hj Hs Hf| |j err Hs|j Hs Ht|j ctxErr Hs|j err Hs|j Hs Hsh|j os base journal dir Hs Hf|j Hs|j Hs|Hc|Hc
    |Hc Ht|os rm g Hc Hg|j g err Hc Hg Hd|err err' Hc|Hc]; try (by left).
  - unfold Snapshot. destruct (snapshotLocked _) as [h [[]|e]]; left; [by apply Hcur|done].
  - assert (forall x', l_generation x' = l_generation x -> released x = false -> <[j := x']> (y_leases y) !! i = Some l \/
      exists l', <[j := x']> (y_leases y) !! i = Some l' /\ l_generation l' = l_generation l /\ released l = false) as Hput.
    { intros x' Ex Hx. destruct (decide (j = i)) as [->|Hne]; [|left; by rewrite list_lookup_insert_ne].
      right. assert (x = l) as -> by congruence. exists x'. by rewrite list_lookup_insert_eq by (by eapply lookup_lt_Some). }
    assert (released x = false \/ exists err, l_stage x = LeaseReleased err) as [Hx|[err Ex]] by (unfold released; destruct (l_stage x); eauto);
      unfold close_lease; [|rewrite Ex; by left].
    destruct (l_stage x); [destruct (l_tracked x)| | |by left]; try by apply Hput.
    destruct (y_generations y !! _) as [g|]; [|by left]. destruct (release os g) as [[g' closed] err]. by apply Hput.
  - left. by apply Hcur.
  - unfold install. destruct (y_generations y !! _) as [old|]; [|by left]. destruct (retire os true old). by left.
  - destruct (retire os rm g). by left.
Qed.

Lemma lease_refs y i l g : leases_ok y -> y_leases y !! i = Some l -> released l = false -> y_generations y !! l_generation l = Some g -> 0 < g_refs g.
Proof.
  intros H Hi Hrel Hg. destruct (le_generation _ H _ _ Hg) as [E _ _].
  assert (0 < countb (refers (l_generation l)) (y_leases y)); [|destruct (g_retired g); cbn in E; lia].
  eapply countb_lookup; [done|]. unfold refers. by rewrite bool_decide_true, Hrel.
Qed.

Lemma handle_open y i g h : leases_ok y -> y_generations y !! i = Some g -> h ∈ handles g -> h ∉ y_log y.
Proof.
  intros H Hg Hh Hin. pose proof (le_log _ H) as Hlog. apply list.NoDup_app in Hlog as (_ & Hlog & _). apply (Hlog h Hin). unfold held.
  apply list_elem_of_In, in_flat_map. exists g. split; [eapply list_elem_of_In, list_elem_of_lookup_2; done|by apply list_elem_of_In].
Qed.

Lemma reachable_rtc y y' : reachable y -> rtc step y y' -> reachable y'.
Proof. intros Hy Hr. induction Hr as [|y1 y2 y3 Hs _ IH]; [done|]. apply IH. by eapply reachable_step. Qed.

(** From any moment of a lease until its release. *)
Lemma lease_keeps y y' i l : reachable y -> rtc step y y' -> y_leases y !! i = Some l ->
  exists l', y_leases y' !! i = Some l' /\ l_generation l' = l_generation l /\
    (released l' = false -> released l = false /\ forall g, y_generations y !! l_generation l = Some g ->
       exists g', y_generations y' !! l_generation l = Some g' /\ handles g ⊆ handles g').
Proof.
  intros Hy Hr. revert l. induction Hr as [y|y1 y2 y3 Hs Hr IH]; intros l Hl.
  { exists l. split; [done|]. split; [done|]. intros Hn. split; [done|]. intros g Hg. by exists g. }
  destruct (step_keeps_leases _ _ _ _ Hs Hl) as (l2 & Hl2 & E2 & Hrel2). assert (reachable y2) as Hy2 by (by eapply reachable_step).
  destruct (IH Hy2 l2 Hl2) as (l3 & Hl3 & E3 & Hk). exists l3. split; [done|]. split; [congruence|]. intros Hn.
  destruct (Hk Hn) as [Hn2 Hk2]. split; [destruct (released l); [by rewrite Hrel2 in Hn2|done]|]. intros g Hg.
  destruct (step_keeps_handles _ _ Hs _ _ Hg) as (g2 & Hg2 & Hsub). rewrite E2 in Hk2. destruct (Hk2 g2 Hg2) as (g3 & Hg3 & Hsub3).
  exists g3. split; [done|]. destruct Hsub as [Hsub|Hz]; [by etransitivity|].
  destruct (reachable_ok _ Hy2) as [_ Hok]. pose proof (lease_refs _ _ _ g2 Hok Hl2 Hn2). rewrite E2 in *. specialize (H Hg2). lia.
Qed.

(** C28. Leases protect their sources: in every reachable state of the goroutines,
    whatever the system answers, the base handle of the generation of a lease that
    is not fully closed is open; and whatever the goroutines do next, as long as
    the lease is not fully closed, every handle its generation has now, the base
    and the journal alike, is still held and has not been closed.  A retired
    generation without such a lease holds no handle, and no handle is ever closed
    twice or closed while it is held. *)
Theorem leases_protect y :
  reachable y ->
  (forall l, l ∈ y_leases y -> released l = false ->
    exists g b, y_generations y !! l_generation l = Some g /\ g_base g = Some b /\ b ∉ y_log y) /\
  (forall y' i l l' g, rtc step y y' -> y_leases y !! i = Some l -> y_leases y' !! i = Some l' -> released l' = false ->
    y_generations y !! l_generation l = Some g -> l_generation l' = l_generation l /\
    exists g', y_generations y' !! l_generation l = Some g' /\ forall h, h ∈ handles g -> h ∈ handles g' /\ h ∉ y_log y') /\
  (forall i g, y_generations y !! i = Some g -> g_retired g = true ->
    (forall l, l ∈ y_leases y -> l_generation l = i -> released l = true) -> handles g = []) /\
  (forall i g, y_generations y !! i = Some g -> i <> h_generation (y_host y) -> g_retired g = true) /\
  NoDup (y_log y ++ held (y_generations y)).
Proof.
  intros Hy. destruct (reachable_ok _ Hy) as [Hgate H]. pose proof (le_log _ H) as Hlog. split_and!; [| | |apply H|done].
  2:{ intros y' i l l' g Hr Hl Hl' Hn Hg. destruct (lease_keeps _ _ _ _ Hy Hr Hl) as (l2 & Hl2 & E & Hk). rewrite Hl' in Hl2. injection Hl2 as <-.
      split; [done|]. destruct (Hk Hn) as [_ Hk']. destruct (Hk' g Hg) as (g' & Hg' & Hsub). exists g'. split; [done|]. intros h Hh.
      destruct (reachable_ok _ (reachable_rtc _ _ Hy Hr)) as [_ H']. split; [by apply Hsub|]. eapply handle_open; [exact H'|exact Hg'|by apply Hsub]. }
  - intros l Hl Hrel. apply list_elem_of_lookup in Hl as [i Hi]. destruct (Forall_lookup_1 _ _ _ _ (le_lease _ H) Hi) as [g Hg].
    destruct (le_generation _ H _ _ Hg) as [E Ho _].
    assert (0 < g_refs g) as Hpos.
    { assert (0 < countb (refers (l_generation l)) (y_leases y)); [|destruct (g_retired g); cbn in E; lia].
      eapply countb_lookup; [done|]. unfold refers. by rewrite bool_decide_true, Hrel. }
    destruct (Ho Hpos) as [b Hb]. exists g, b. split_and!; [done|done|]. intros Hin.
    apply list.NoDup_app in Hlog as (_ & Hlog & _). apply (Hlog b Hin). unfold held. apply list_elem_of_In, in_flat_map.
    exists g. split; [eapply list_elem_of_In, list_elem_of_lookup_2; done|]. apply list_elem_of_In. unfold handles. rewrite Hb.
    apply elem_of_app. right. by apply list_elem_of_singleton.
  - intros i g Hi Hret Hall. destruct (le_generation _ H _ _ Hi) as [E _ Hz]. apply Hz. rewrite E, Hret. cbn.
    rewrite Z.add_0_r. apply countb_zero. apply Forall_forall. intros l Hl. unfold refers.
    destruct (decide (l_generation l = i)) as [El|]; [|by rewrite bool_decide_false]. apply list_elem_of_In in Hl. rewrite (Hall l Hl El). apply andb_false_r.
Qed.

(** C29. The budgets: the lifecycle statistics count exactly the open host leases
    and the waiting and running saves, within the configured maximum; a snapshot is
    granted exactly when the session is open and below it; at most one save runs,
    and none while the shutdown retires the sources. *)
Theorem lifecycle_budgets y :
  reachable y ->
  let stats := lifecycleStats (y_host y) in
  ActiveSnapshotLeases stats = countb permits (y_leases y) /\
  ActiveSnapshotLeases stats <= PeakSnapshotLeases stats <= MaxSnapshotLeases stats /\
  WaitingSaves stats = countb waits (y_savers y) /\
  countb runs (y_savers y) = flag (SaveActive stats) /\
  (3 <= progress (y_closer y) -> SaveActive stats = false) /\
  countb has_token (y_savers y) + flag ((3 <=? progress (y_closer y)) && (progress (y_closer y) <=? 6)) <= 1 /\
  ((Snapshot y).2 = Ok tt <->
     ActiveSnapshotLeases stats < MaxSnapshotLeases stats /\ Closing stats = false /\ Closed stats = false).
Proof.
  intros [[G1 G2 G3 G4 G5 G6 G7] H]%reachable_ok stats. subst stats. cbn.
  split_and!; [apply H|apply H|apply H|done|by rewrite G6| | |].
  - intros Hp. specialize (G7 Hp). rewrite <-G6 in G7. by destruct (h_saveActive _).
  - destruct (h_token (y_host y)); cbn in G5; lia.
  - unfold Snapshot, snapshotLocked, shut. rewrite G1, G2, G3.
    destruct (y_closer y); cbn; (try (split; [done|intros (_ & ? & ?); done]));
      destruct (Z.leb_spec (h_max (y_host y)) (h_active (y_host y))); cbn; (split; [|done || lia]); try done;
      try (intros; split_and!; done || lia); intros; lia.
Qed.

(** C30. The shutdown barrier: once a close has completed the current sources are
    closed, no lease on them is left, no save runs, and nothing new is admitted. *)
Theorem closed_for_good y os :
  reachable y -> Closed (lifecycleStats (y_host y)) = true ->
  (exists g, y_generations y !! h_generation (y_host y) = Some g /\ handles g = []) /\
  (forall l, l ∈ y_leases y -> l_generation l = h_generation (y_host y) -> released l = true) /\
  countb runs (y_savers y) = 0 /\
  (Snapshot y).2 = Err document_ErrClosed /\
  (acquireSave_enter (y_host y)).2 = SaveReturned (Some document_ErrClosed) /\
  (acquireSave_admit os (y_host y)).2 = SaveGivingBack document_ErrClosed.
Proof.
  intros [[G1 G2 G3 G4 G5 G6 G7] H]%reachable_ok Hclosed. cbn in Hclosed. rewrite G3 in Hclosed. apply Z.leb_le in Hclosed.
  assert (shut (y_host y) = true) as Hshut by (unfold shut; rewrite G2; destruct (y_closer y); cbn in *; (done || lia)).
  destruct (le_current _ H) as (g & Hc & Hret & Hd). destruct (le_generation _ H _ _ Hc) as [E _ Hz]. rewrite (Hd ltac:(lia)) in *.
  split_and!.
  - exists g. split; [done|by apply Hz].
  - intros l Hl El. destruct (released l) eqn:Hr; [done|]. apply list_elem_of_lookup in Hl as [i Hi].
    assert (0 < countb (refers (h_generation (y_host y))) (y_leases y)) as Hpos.
    { eapply countb_lookup; [exact Hi|]. unfold refers. by rewrite bool_decide_true, Hr. }
    destruct (g_retired g); cbn in E; lia.
  - apply G7. lia.
  - unfold Snapshot, snapshotLocked. by rewrite Hshut.
  - unfold acquireSave_enter. by rewrite Hshut.
  - unfold acquireSave_admit, shut in *. cbn. by rewrite Hshut.
Qed.

(** ** A concrete run

    A host takes a snapshot, a save installs a second generation while it is open,
    and the session is closed. *)

Definition ex_os : closing := mkClosing None None (Some os_ErrNotExist) None.
Definition ex_y0 : system :=
  mkSystem (mkHost 0 0 2 0 false true None false false None 0)
    [setJournalCleanupDirectory [] (newSourceGeneration (Some 1) (Some (2, [Byte.x6a])))] [] [] CloseIdle [].
Definition ex_y1 : system := (Snapshot ex_y0).1.
Definition ex_y2 : system := with_saver (acquireSave_enter (y_host ex_y1)).1 (y_savers ex_y1 ++ [(acquireSave_enter (y_host ex_y1)).2]) ex_y1.
Definition ex_y3 : system := with_saver (take_token (y_host ex_y2)) (<[0%nat := SaveReceived]> (y_savers ex_y2)) ex_y2.
Definition ex_y4 : system :=
  with_saver (acquireSave_admit None (y_host ex_y3)).1 (<[0%nat := (acquireSave_admit None (y_host ex_y3)).2]> (y_savers ex_y3)) ex_y3.
Definition ex_y5 : system := install ex_os (setJournalCleanupDirectory [] (newSourceGeneration (Some 3) None)) ex_y4.
Definition ex_y6 : system := with_saver (releaseSave (y_host ex_y5)).1 (<[0%nat := (releaseSave (y_host ex_y5)).2]> (y_savers ex_y5)) ex_y5.
Definition ex_y7 : system := with_saver (give_token (y_host ex_y6)) (<[0%nat := SaveReturned None]> (y_savers ex_y6)) ex_y6.
Definition ex_y7a : system :=
  with_closer (set_shutdown (Some document_ErrClosed) (h_closed (y_host ex_y7)) (h_closeCompleted (y_host ex_y7))
                 (h_closeErr (y_host ex_y7)) (y_host ex_y7)) CloseCancelled ex_y7.
Definition ex_y7b : system :=
  with_closer (set_shutdown (h_lifecycle (y_host ex_y7a)) true (h_closeCompleted (y_host ex_y7a)) (h_closeErr (y_host ex_y7a))
                 (y_host ex_y7a)) CloseStopped ex_y7a.
Definition ex_y8 : system := with_closer (take_token (y_host ex_y7b)) CloseHolding ex_y7b.
Definition ex_y9 : system :=
  let '(g, closed) := retire ex_os false (setJournalCleanupDirectory [] (newSourceGeneration (Some 3) None)) in
  with_generation (h_generation (y_host ex_y8)) g closed (with_closer (y_host ex_y8) (CloseRetiring (h_generation (y_host ex_y8))) ex_y8).
Definition ex_y10 : system := with_closer (y_host ex_y9) (CloseRetired None) ex_y9.
Definition ex_y11 : system :=
  with_closer (set_shutdown (h_lifecycle (y_host ex_y10)) true true (errors_Join None None) (y_host ex_y10)) CloseCompleted ex_y10.

Lemma ex_reachable5 : reachable ex_y5.
Proof.
  eapply reachable_step; [|apply (step_install ex_y4 0 ex_os 3 None []); [reflexivity|]].
  - eapply reachable_step; [|exact (step_admitSave ex_y3 0 None eq_refl)].
    eapply reachable_step; [|exact (step_receiveSave ex_y2 0 eq_refl eq_refl)].
    eapply reachable_step; [|exact (step_acquireSave ex_y1)].
    eapply reachable_step; [|exact (step_Snapshot ex_y0)].
    apply reachable_open. exists 1, (Some (2, [Byte.x6a])), [], 2. split_and!; [lia| |reflexivity].
    apply (bool_decide_unpack _). vm_compute. exact I.
  - split; [apply NoDup_singleton|]. intros h ->%list_elem_of_singleton. split; [by intros ?%elem_of_nil|].
    intros g Hg. apply list_elem_of_singleton in Hg. subst g. apply (bool_decide_unpack _). vm_compute. exact I.
Qed.

Lemma ex_reachable11 : reachable ex_y11.
Proof.
  eapply reachable_step; [|exact (step_closeCompleted ex_y10 None None eq_refl)].
  eapply reachable_step; [|refine (step_closeRetired ex_y9 1 _ None eq_refl _ _); reflexivity].
  eapply reachable_step; [|exact (step_closeRetire ex_y8 ex_os false _ eq_refl eq_refl)].
  eapply reachable_step; [|exact (step_closeGate ex_y7b eq_refl eq_refl)].
  eapply reachable_step; [|exact (step_stop ex_y7a eq_refl)].
  eapply reachable_step; [|exact (step_cancelLifecycle ex_y7 eq_refl)].
  eapply reachable_step; [|exact (step_returnedSave ex_y6 0 eq_refl)].
  eapply reachable_step; [|exact (step_releaseSave ex_y5 0 eq_refl)]. apply ex_reachable5.
Qed.

Lemma leases_protect_witness :
  y_leases ex_y5 = [mkLease 0 true LeaseOpen] /\ y_log ex_y5 = [] /\
  exists g b, y_generations ex_y5 !! 0%nat = Some g /\ g_base g = Some b /\ b ∉ y_log ex_y5.
Proof.
  split; [vm_compute; reflexivity|]. split; [vm_compute; reflexivity|].
  apply (proj1 (leases_protect ex_y5 ex_reachable5) (mkLease 0 true LeaseOpen)); [|reflexivity].
  vm_compute. apply list_elem_of_here.
Defined.

Lemma lifecycle_budgets_witness :
  ActiveSnapshotLeases (lifecycleStats (y_host ex_y5)) = 1 /\ countb runs (y_savers ex_y5) = flag (SaveActive (lifecycleStats (y_host ex_y5))).
Proof.
  split; [vm_compute; reflexivity|]. apply (proj1 (proj2 (proj2 (proj2 (lifecycle_budgets ex_y5 ex_reachable5))))).
Defined.

Lemma closed_for_good_witness :
  y_log ex_y11 = [3] /\ (Snapshot ex_y11).2 = Err document_ErrClosed.
Proof.
  split; [vm_compute; reflexivity|].
  apply (closed_for_good ex_y11 None ex_reachable11). vm_compute. reflexivity.
Defined.
