(* ===== verification/Polling.v ===== *)
(** * Computations that poll a context

    Long operations of Go ask their context between two steps whether to go on.
    [C] is the monad of such computations: the clock counts the polls. *)

From Stdlib Require Import ZArith Lia List.
From stdpp Require Import base list numbers.
From S2P Require Import Prelude GoLib.
#[local] Open Scope Z_scope.

Definition C (A : Type) : Type := nat -> nat * result A.
Definition cret {A} (a : A) : C A := fun k => (k, Ok a).
Definition cfail {A} (e : error) : C A := fun k => (k, Err e).
Definition cbind {A B} (c : C A) (f : A -> C B) : C B := fun k =>
  let '(k, r) := c k in match r with Ok a => f a k | Err e => (k, Err e) end.
Notation "'let!' x ':=' c 'in' k" := (cbind c (fun x => k)) (at level 200, x pattern, c at level 100, k at level 200).
(** [if err := ctx.Err(); err != nil { return err }] *)
Definition cpoll (ctx : Context) : C unit := fun k =>
  (S k, match ctx k with Some e => Err e | None => Ok tt end).

Definition cancelled {A} (ctx : Context) (r : result A) : Prop := exists j e, ctx j = Some e /\ r = Err e.

(** ** Computations that may be cancelled *)

(** Whatever the context answers, the result is right or one of its errors. *)
Definition yields {A} (ctx : Context) (c : C A) (Q : result A -> Prop) : Prop :=
  forall k, Q (c k).2 \/ exists j e, ctx j = Some e /\ (c k).2 = Err e.

Lemma yields_ret {A} ctx (a : A) (Q : result A -> Prop) : Q (Ok a) -> yields ctx (cret a) Q.
Proof. intros H k. by left. Qed.
Lemma yields_fail {A} ctx e (Q : result A -> Prop) : Q (Err e) -> yields ctx (cfail e) Q.
Proof. intros H k. by left. Qed.
Lemma yields_poll {A} ctx (f : unit -> C A) Q : yields ctx (f tt) Q -> yields ctx (cbind (cpoll ctx) f) Q.
Proof.
  intros H k. unfold cbind, cpoll. destruct (ctx k) as [e|] eqn:E; [right; by exists k, e|]. apply H.
Qed.
Lemma yields_bind {A B} ctx (c : C A) (f : A -> C B) (P : result A -> Prop) Q :
  yields ctx c P -> (forall a, P (Ok a) -> yields ctx (f a) Q) -> (forall e, P (Err e) -> Q (Err e)) -> yields ctx (cbind c f) Q.
Proof.
  intros Hc Hf He k. specialize (Hc k). unfold cbind. destruct (c k) as [k1 [a|e]]; cbn [snd] in *.
  - destruct Hc as [HP|(j & e & _ & H)]; [by apply Hf|done].
  - destruct Hc as [HP|(j & e' & Hj & [= ->])]; [left; by apply He|right; eauto].
Qed.
Lemma yields_imp {A} ctx (c : C A) (P Q : result A -> Prop) : (forall r, P r -> Q r) -> yields ctx c P -> yields ctx c Q.
Proof. intros H Hc k. destruct (Hc k); [left; by apply H|by right]. Qed.
