(* ===== verification/Index.v ===== *)
(** * document/coordinate/index.go, cache.go: the coordinate index

    Checkpoints over a UTF-8 document and the queries that translate between
    bytes, runes and line positions; the incremental rebuild after a change; the
    cache of decoded windows.  The source is an immutable [io.ReaderAt]; a context
    is polled. *)

From Stdlib Require Import ZArith Lia List.
From stdpp Require Import base list numbers.
From S2P Require Import Prelude GoLib Utf8 ChangeMap Polling.
#[local] Open Scope Z_scope.

Definition DefaultCheckpointBytes : Z := 65536.
Definition MaximumCheckpointBytes : Z := 67108864.
Definition DefaultCacheBytes : Z := 1048576.
Definition MaximumCacheBytes : Z := 268435456.
Definition buildReadBufferSize : Z := 65536.
Definition UTFMax : Z := 4.

(** ** Data *)

Record Source := mkSource { src_ReadAt : ReaderAt; src_Len : Z }.
(** [OwnedSource]: a source with the outcome of its [Close]. *)
Record OwnedSource := mkOwned { own_source : Source; own_Close : option error }.

(** A lineage is a pointer: an identity. *)
Definition Lineage : Type := Z.

Record Options := mkOptions {
  o_CheckpointBytes : Z; o_CacheBytes : Z; o_DisableCache : bool; o_Lineage : option Lineage }.

Record Position := mkPosition { ByteOffset : Z; RuneOffset : Z; Line : Z; Column : Z }.
Record checkpoint := mkCheckpoint { byteOffset : Z; runeOffset : Z; line : Z; column : Z }.
#[export] Instance checkpoint_eq_dec : EqDecision checkpoint.
Proof. solve_decision. Defined.
Definition zeroCheckpoint : checkpoint := mkCheckpoint 0 0 0 0.

Record cacheEntry := mkCacheEntry { ce_start : Z; ce_data : list byte }.

(** [i_cache] is the list [cacheList], front first, with the map [cache] over it;
    [None] is the nil map after [Close]. [i_release] is the release function, by
    its outcome. *)
Record Index := mkIndex {
  i_source : ReaderAt; i_release : option (option error); i_closed : bool; i_revision : Z; i_byteLength : Z;
  i_runeCount : Z; i_lineCount : Z; i_checkpointBytes : Z; i_checkpoints : list checkpoint;
  i_reused : Z; i_reusedPrefix : Z; i_reusedSuffix : Z; i_scannedBytes : Z; i_lineage : option Lineage;
  i_cache : option (list cacheEntry); i_cacheBytes : Z; i_maxCacheBytes : Z; i_cacheHits : Z; i_cacheMisses : Z }.

Definition with_cache (cache : option (list cacheEntry)) (bytes hits misses : Z) (i : Index) : Index :=
  mkIndex (i_source i) (i_release i) (i_closed i) (i_revision i) (i_byteLength i) (i_runeCount i) (i_lineCount i)
    (i_checkpointBytes i) (i_checkpoints i) (i_reused i) (i_reusedPrefix i) (i_reusedSuffix i) (i_scannedBytes i)
    (i_lineage i) cache bytes (i_maxCacheBytes i) hits misses.

(** ** Runes *)

Definition isNewline (r : Z) : bool := r =? 10.

Definition advance (state : checkpoint) (r size : Z) : checkpoint :=
  if isNewline r
  then mkCheckpoint (byteOffset state ⊞ size) (runeOffset state ⊞ 1) (line state ⊞ 1) 0
  else mkCheckpoint (byteOffset state ⊞ size) (runeOffset state ⊞ 1) (line state) (column state ⊞ 1).

Definition decodeRune (data : list byte) : result (Z * Z) :=
  if (zlen data =? 0) || negb (utf8_FullRune data) then Err coordinate_ErrSourceInconsistent else
  let '(r, size) := utf8_DecodeRune data in
  if (r =? RuneError) && (size =? 1) then Err coordinate_ErrInvalidUTF8 else Ok (r, size).

Definition positionFor (state : checkpoint) : Position :=
  mkPosition (byteOffset state) (runeOffset state) (line state) (column state).

Definition nextCheckpointAfter (offset block : Z) : Z :=
  if maxInt64 ⊟ block <? offset then maxInt64 else (offset / block + 1) * block.

(** ** Scanning *)

Record scan_state := mkScan { sc_state : checkpoint; sc_checkpoints : list checkpoint; sc_next : Z; sc_pending : list byte }.

Section Scan.
Variable ctx : Context.
Variable block : Z.

(** The inner loop of [scanSegment] from the byte [absolute] on; [data] is what is
    left of the buffer. *)
Fixpoint scan_runes (fuel : nat) (absolute : Z) (data : list byte) (s : scan_state) : C scan_state :=
  match fuel with
  | O => cret s
  | S fuel =>
    if zlen data =? 0 then cret s else
    let! _ := cpoll ctx in
    if negb (utf8_FullRune data) then cret (mkScan (sc_state s) (sc_checkpoints s) (sc_next s) data) else
    let '(r, size) := utf8_DecodeRune data in
    if (r =? RuneError) && (size =? 1) then cfail coordinate_ErrInvalidUTF8 else
    let '(state, checkpoints, next) :=
      if sc_next s <=? absolute then
        let state := mkCheckpoint absolute (runeOffset (sc_state s)) (line (sc_state s)) (column (sc_state s)) in
        (state, sc_checkpoints s ++ [state], nextCheckpointAfter absolute block)
      else (sc_state s, sc_checkpoints s, sc_next s) in
    let state :=
      mkCheckpoint (byteOffset state) (runeOffset state ⊞ 1) (if isNewline r then line state ⊞ 1 else line state)
        (if isNewline r then 0 else column state ⊞ 1) in
    scan_runes fuel (absolute + size) (zdrop size data) (mkScan state checkpoints next [])
  end.

(** The outer loop: one read per pass. *)
Fixpoint scan_loop (fuel : nat) (source : ReaderAt) (byteLength scanEnd readOffset : Z) (s : scan_state) : C scan_state :=
  match fuel with
  | O => cret s
  | S fuel =>
    if negb (readOffset <? scanEnd) then cret s else
    let! _ := cpoll ctx in
    let want := Z.min buildReadBufferSize (scanEnd - readOffset) in
    let '(got, readErr) := source readOffset want in
    let n := zlen got in
    if want <? n then cfail coordinate_ErrSourceInconsistent else
    let data := sc_pending s ++ got in
    let base := readOffset - zlen (sc_pending s) in
    let! s := scan_runes (length data) base data (mkScan (sc_state s) (sc_checkpoints s) (sc_next s) []) in
    let readOffset := readOffset + n in
    match readErr with
    | Some e =>
      if errors_Is e io_EOF && (readOffset =? scanEnd) && (scanEnd =? byteLength)
      then scan_loop fuel source byteLength scanEnd readOffset s else cfail e
    | None =>
      if (n =? 0) && (readOffset <? scanEnd) then cfail io_ErrUnexpectedEOF
      else scan_loop fuel source byteLength scanEnd readOffset s
    end
  end.

(** [scanSegment]: the state at [scanEnd] and the checkpoints with the new ones. *)
Definition scanSegment (source : ReaderAt) (byteLength : Z) (checkpoints : list checkpoint) (state : checkpoint)
  (scanStart scanEnd : Z) : C (checkpoint * list checkpoint) :=
  let! s := scan_loop (S (Z.to_nat (scanEnd - scanStart))) source byteLength scanEnd scanStart
              (mkScan state checkpoints (nextCheckpointAfter scanStart block) []) in
  if negb (zlen (sc_pending s) =? 0) then
    cfail (if scanEnd =? byteLength then coordinate_ErrInvalidUTF8 else coordinate_ErrSourceInconsistent)
  else
  let! _ := cpoll ctx in
  cret (mkCheckpoint scanEnd (runeOffset (sc_state s)) (line (sc_state s)) (column (sc_state s)), sc_checkpoints s).
End Scan.

Definition lastCheckpoint (l : list checkpoint) : checkpoint := List.last l zeroCheckpoint.
Definition replace_last (c : checkpoint) (l : list checkpoint) : list checkpoint := removelast l ++ [c].

(** ** Building *)

Definition resolveOptions (options : Options) : result (Z * Z) :=
  let checkpointBytes := if o_CheckpointBytes options =? 0 then DefaultCheckpointBytes else o_CheckpointBytes options in
  if o_DisableCache options && negb (o_CacheBytes options =? 0) then Err coordinate_ErrInvalidOptions else
  let cacheBytes :=
    if o_DisableCache options then o_CacheBytes options
    else if o_CacheBytes options =? 0 then DefaultCacheBytes else o_CacheBytes options in
  if (checkpointBytes <? 0) || (MaximumCheckpointBytes <? checkpointBytes) || (cacheBytes <? 0) || (MaximumCacheBytes <? cacheBytes)
  then Err coordinate_ErrInvalidOptions else Ok (checkpointBytes, cacheBytes).

(** The state and the checkpoints at the end of a scan that reached the end. *)
Definition finishScan (byteLength : Z) (state : checkpoint) (checkpoints : list checkpoint) : checkpoint * list checkpoint :=
  let state := mkCheckpoint byteLength (runeOffset state) (line state) (column state) in
  (state, if negb (byteOffset (lastCheckpoint checkpoints) =? byteOffset state)
          then checkpoints ++ [state] else replace_last state checkpoints).

Definition build (ctx : option Context) (source : option Source) (revision : Z) (options : Options)
  (release : option (option error)) : C Index :=
  match ctx with None => cfail coordinate_ErrInvalidContext | Some ctx =>
  match source with None => cfail coordinate_ErrInvalidSource | Some source =>
  let length := src_Len source in
  if length <? 0 then cfail coordinate_ErrInvalidSource else
  match resolveOptions options with
  | Err _ => cfail coordinate_ErrInvalidOptions
  | Ok (checkpointBytes, cacheBytes) =>
    let! (state, checkpoints) :=
      scanSegment ctx checkpointBytes (src_ReadAt source) length [zeroCheckpoint] zeroCheckpoint 0 length in
    let '(state, checkpoints) := finishScan length state checkpoints in
    cret (mkIndex (src_ReadAt source) release false revision length (runeOffset state) (line state ⊞ 1)
            checkpointBytes checkpoints 0 0 0 (length - 0) (o_Lineage options) (Some []) 0 cacheBytes 0 0)
  end end end.

Definition Build (ctx : option Context) (source : option Source) (revision : Z) (options : Options) : C Index :=
  build ctx source revision options None.

(** [errors.Join(err, source.Close())] when the construction fails. *)
Definition owning (source : option OwnedSource) (c : OwnedSource -> C Index) : C Index := fun k =>
  match source with
  | None => (k, Err coordinate_ErrInvalidSource)
  | Some source =>
    match c source k with
    | (k, Err e) => (k, Err (match own_Close source with Some e' => errJoin e e' | None => e end))
    | r => r
    end
  end.

Definition BuildOwned (ctx : option Context) (source : option OwnedSource) (revision : Z) (options : Options) : C Index :=
  owning source (fun source => build ctx (Some (own_source source)) revision options (Some (own_Close source))).

(** ** Rebuilding after a change *)

Record incrementalPlan := mkPlan {
  pl_checkpointBytes : Z; pl_cacheBytes : Z; pl_scanStart : Z; pl_scanEnd : Z;
  pl_prefix : list checkpoint; pl_suffix : list checkpoint; pl_reusedPrefix : Z; pl_lineage : option Lineage }.

Definition at_index (l : list checkpoint) (k : Z) : checkpoint := nth (Z.to_nat k) l zeroCheckpoint.

Definition stable_prefix (changes : ChangeMap) : Z :=
  fold_left (fun stable edit => if e_Start edit <? stable then e_Start edit else stable) (cm_edits changes) (cm_beforeLength changes).

Definition incrementalSeed (previous : Index) (changes : ChangeMap) (afterLength : Z) : result incrementalPlan :=
  if i_closed previous then Err coordinate_ErrClosed else
  if negb (i_revision previous =? cm_beforeRevision changes) then Err coordinate_ErrRevisionMismatch else
  if negb (i_byteLength previous =? cm_beforeLength changes) || negb (afterLength =? cm_afterLength changes)
  then Err coordinate_ErrLengthMismatch else
  let cps := i_checkpoints previous in
  if (i_checkpointBytes previous <=? 0) || (MaximumCheckpointBytes <? i_checkpointBytes previous) || (zlen cps =? 0) ||
     negb (bool_decide (at_index cps 0 = zeroCheckpoint)) then Err coordinate_ErrInvalidIndex else
  let stablePrefix := stable_prefix changes in
  let last := sort_Search (zlen cps) (fun index => stablePrefix <? byteOffset (at_index cps index)) - 1 in
  if last <? 0 then Err coordinate_ErrInvalidIndex else
  let checkpoints := ztake (last + 1) cps in
  let scanStart := byteOffset (lastCheckpoint checkpoints) in
  if (scanStart <? 0) || (stablePrefix <? scanStart) || (afterLength <? scanStart) then Err coordinate_ErrInvalidIndex else
  let plan scanEnd suffix :=
    mkPlan (i_checkpointBytes previous) (i_maxCacheBytes previous) scanStart scanEnd checkpoints suffix
      (zlen checkpoints) (i_lineage previous) in
  if zlen (cm_edits changes) =? 0 then Ok (plan scanStart (zdrop (last + 1) cps)) else
  match stableSuffix changes with
  | None => Err coordinate_ErrInvalidIndex
  | Some (oldSuffix, newSuffix) =>
    let suffixIndex := sort_Search (zlen cps) (fun index => oldSuffix <=? byteOffset (at_index cps index)) in
    if zlen cps - 1 <=? suffixIndex then Ok (plan afterLength []) else
    let oldSeam := byteOffset (at_index cps suffixIndex) in
    let newSeam := newSuffix ⊞ oldSeam ⊟ oldSuffix in
    Ok (plan newSeam (zdrop suffixIndex cps))
  end.

Definition translate (newSeam oldSeam old : checkpoint) : checkpoint :=
  mkCheckpoint (byteOffset newSeam ⊞ byteOffset old ⊟ byteOffset oldSeam)
    (runeOffset newSeam ⊞ runeOffset old ⊟ runeOffset oldSeam)
    (line newSeam ⊞ line old ⊟ line oldSeam)
    (if line old =? line oldSeam then column newSeam ⊞ column old ⊟ column oldSeam else column old).

(** The loop of [appendTranslatedSuffix]: the checkpoints, the last translated
    one, and how many of the suffix were new entries. *)
Fixpoint append_suffix (newSeam oldSeam : checkpoint) (first : bool) (suffix checkpoints : list checkpoint) (latest : checkpoint)
  (reused : Z) : list checkpoint * checkpoint * Z :=
  match suffix with
  | [] => (checkpoints, latest, reused)
  | old :: suffix =>
    let translated := translate newSeam oldSeam old in
    if byteOffset (lastCheckpoint checkpoints) =? byteOffset translated
    then append_suffix newSeam oldSeam false suffix (replace_last translated checkpoints) translated (if first then reused - 1 else reused)
    else append_suffix newSeam oldSeam false suffix (checkpoints ++ [translated]) translated reused
  end.

Definition appendTranslatedSuffix (newSeam : checkpoint) (suffix checkpoints : list checkpoint) : list checkpoint * checkpoint * Z :=
  append_suffix newSeam (nth 0 suffix zeroCheckpoint) true suffix checkpoints zeroCheckpoint (zlen suffix).

Definition rebuild (ctx : option Context) (source : option Source) (previous : option Index) (changes : ChangeMap)
  (release : option (option error)) : C Index :=
  match ctx with None => cfail coordinate_ErrInvalidContext | Some ctx =>
  match source with None => cfail coordinate_ErrInvalidSource | Some source =>
  match previous with None => cfail coordinate_ErrInvalidIndex | Some previous =>
  let length := src_Len source in
  if length <? 0 then cfail coordinate_ErrInvalidSource else
  match incrementalSeed previous changes length with
  | Err e => cfail e
  | Ok plan =>
    let index runes lines checkpoints reused suffix scanned :=
      mkIndex (src_ReadAt source) release false (cm_afterRevision changes) length runes lines (pl_checkpointBytes plan)
        checkpoints reused (pl_reusedPrefix plan) suffix scanned (pl_lineage plan) (Some []) 0 (pl_cacheBytes plan) 0 0 in
    let! (state, checkpoints) :=
      scanSegment ctx (pl_checkpointBytes plan) (src_ReadAt source) length (pl_prefix plan)
        (lastCheckpoint (pl_prefix plan)) (pl_scanStart plan) (pl_scanEnd plan) in
    if zlen (pl_suffix plan) =? 0 then
      let '(state, checkpoints) := finishScan length state checkpoints in
      cret (index (runeOffset state) (line state ⊞ 1) checkpoints (pl_reusedPrefix plan) 0 (length - pl_scanStart plan))
    else
      let '(checkpoints, final, reused) := appendTranslatedSuffix state (pl_suffix plan) checkpoints in
      cret (index (runeOffset final) (line final ⊞ 1) checkpoints (pl_reusedPrefix plan + reused) reused
              (pl_scanEnd plan - pl_scanStart plan))
  end end end end.

Definition Rebuild (ctx : option Context) (source : option Source) (previous : option Index) (changes : ChangeMap) : C Index :=
  rebuild ctx source previous changes None.
Definition RebuildOwned (ctx : option Context) (source : option OwnedSource) (previous : option Index) (changes : ChangeMap) : C Index :=
  owning source (fun source => rebuild ctx (Some (own_source source)) previous changes (Some (own_Close source))).

(** ** The window cache (cache.go) *)

Definition find_entry (start : Z) (l : list cacheEntry) : option cacheEntry :=
  List.find (fun e => ce_start e =? start) l.
(** [MoveToFront] *)
Definition to_front (start : Z) (l : list cacheEntry) : list cacheEntry :=
  List.filter (fun e => ce_start e =? start) l ++ List.filter (fun e => negb (ce_start e =? start)) l.

Definition cachedWindow (start : Z) (i : Index) : Index * option (list byte) :=
  match i_cache i with
  | Some l =>
    match find_entry start l with
    | Some e => (with_cache (Some (to_front start l)) (i_cacheBytes i) (i_cacheHits i ⊕ 1) (i_cacheMisses i) i, Some (ce_data e))
    | None => (with_cache (i_cache i) (i_cacheBytes i) (i_cacheHits i) (i_cacheMisses i ⊕ 1) i, None)
    end
  | None => (with_cache (i_cache i) (i_cacheBytes i) (i_cacheHits i) (i_cacheMisses i ⊕ 1) i, None)
  end.

(** The eviction loop, from the back. *)
Fixpoint evict (fuel : nat) (maxCacheBytes : Z) (l : list cacheEntry) (bytes : Z) : list cacheEntry * Z :=
  match fuel with
  | O => (l, bytes)
  | S fuel =>
    if maxCacheBytes <? bytes then
      evict fuel maxCacheBytes (removelast l) (bytes - zlen (ce_data (List.last l (mkCacheEntry 0 []))))
    else (l, bytes)
  end.

Definition storeWindow (start : Z) (data : list byte) (i : Index) : Index :=
  match i_cache i with
  | None => i
  | Some l =>
    if (i_maxCacheBytes i =? 0) || (i_maxCacheBytes i <? zlen data) then i else
    match find_entry start l with
    | Some _ => with_cache (Some (to_front start l)) (i_cacheBytes i) (i_cacheHits i) (i_cacheMisses i) i
    | None =>
      let l := mkCacheEntry start data :: l in
      let '(l, bytes) := evict (length l) (i_maxCacheBytes i) l (i_cacheBytes i + zlen data) in
      with_cache (Some l) bytes (i_cacheHits i) (i_cacheMisses i) i
    end
  end.

(** ** Queries

    They run on the index under its read lock; the cache is the only thing they
    change. *)

Section Query.
Variable ctx : Context.

(** The read loop of [readWindow]: [data] is what was read so far. *)
Fixpoint window_loop (fuel : nat) (source : ReaderAt) (start length : Z) (data : list byte) : C (list byte) :=
  match fuel with
  | O => cret data
  | S fuel =>
    let read := zlen data in
    if negb (read <? length) then cret data else
    let! _ := cpoll ctx in
    let '(got, err) := source (start + read) (length - read) in
    if length - read <? zlen got then cfail coordinate_ErrSourceInconsistent else
    let data := data ++ got in
    match err with
    | Some e => if errors_Is e io_EOF && (zlen data =? length) then window_loop fuel source start length data else cfail e
    | None => if (zlen got =? 0) && (zlen data <? length) then cfail io_ErrUnexpectedEOF
              else window_loop fuel source start length data
    end
  end.

Definition readWindow (start : Z) (i : Index) : nat -> Index * nat * result (list byte) := fun k =>
  match cpoll ctx k with
  | (k, Err e) => (i, k, Err e)
  | (k, Ok _) =>
    match cachedWindow start i with
    | (i, Some data) => (i, k, Ok data)
    | (i, None) =>
      let window := i_checkpointBytes i + UTFMax in
      let last := i_byteLength i in
      let last := if (start <=? maxInt64 - window) && (start + window <? last) then start + window else last in
      let length := last - start in
      match window_loop (S (Z.to_nat length)) (i_source i) start length [] k with
      | (k, Err e) => (i, k, Err e)
      | (k, Ok data) => (storeWindow start data i, k, Ok data)
      end
    end
  end.

(** The decoding loop the queries share: [stop] looks at every state, [ahead] at
    the end of the rune that follows, [short] is the error at the end of the data. *)
Fixpoint walk_window {A} (fuel : nat) (stop : checkpoint -> option (result A)) (ahead : Z -> option error) (short : error)
  (data : list byte) (state : checkpoint) : C A :=
  match fuel with
  | O => cfail short
  | S fuel =>
    let! _ := cpoll ctx in
    match stop state with
    | Some r => fun k => (k, r)
    | None =>
      if zlen data =? 0 then cfail short else
      match decodeRune data with
      | Err e => cfail e
      | Ok (r, size) =>
        match ahead (byteOffset state + size) with
        | Some e => cfail e
        | None => walk_window fuel stop ahead short (zdrop size data) (advance state r size)
        end
      end
    end
  end.

(** The last checkpoint that is not beyond the target, and the walk from it. *)
Definition nearest (beyond : checkpoint -> bool) (i : Index) : checkpoint :=
  let cps := i_checkpoints i in
  at_index cps (sort_Search (zlen cps) (fun index => beyond (at_index cps index)) - 1).

Definition seek {A} (cp : checkpoint) (stop : checkpoint -> option (result A)) (ahead : Z -> option error) (short : error)
  (i : Index) (k : nat) : Index * nat * result A :=
  match readWindow (byteOffset cp) i k with
  | (i, k, Err e) => (i, k, Err e)
  | (i, k, Ok data) => let '(k, r) := walk_window (S (length data)) stop ahead short data cp k in (i, k, r)
  end.
End Query.

(** The guards every query starts with. *)
Definition query {A} (ctx : option Context) (i : Index) (k : nat) (body : Context -> nat -> Index * nat * result A)
  : Index * nat * result A :=
  match ctx with
  | None => (i, k, Err coordinate_ErrInvalidContext)
  | Some ctx =>
    match cpoll ctx k with
    | (k, Err e) => (i, k, Err e)
    | (k, Ok _) => if i_closed i then (i, k, Err coordinate_ErrClosed) else body ctx k
    end
  end.

Definition ByteToPosition (ctx : option Context) (offset : Z) (i : Index) (k : nat) : Index * nat * result Position :=
  query ctx i k (fun ctx k =>
    if (offset <? 0) || (i_byteLength i <? offset) then (i, k, Err coordinate_ErrInvalidOffset) else
    let cp := nearest (fun c => offset <? byteOffset c) i in
    if byteOffset cp =? offset then (i, k, Ok (positionFor cp)) else
    seek ctx cp (fun state => if byteOffset state =? offset then Some (Ok (positionFor state)) else None)
      (fun after => if offset <? after then Some coordinate_ErrNotRuneBoundary else None)
      coordinate_ErrSourceInconsistent i k).

Definition RuneToByte (ctx : option Context) (offset : Z) (i : Index) (k : nat) : Index * nat * result Z :=
  query ctx i k (fun ctx k =>
    if (offset <? 0) || (i_runeCount i <? offset) then (i, k, Err coordinate_ErrInvalidOffset) else
    let cp := nearest (fun c => offset <? runeOffset c) i in
    if runeOffset cp =? offset then (i, k, Ok (byteOffset cp)) else
    seek ctx cp (fun state => if runeOffset state =? offset then Some (Ok (byteOffset state)) else None)
      (fun _ => None) coordinate_ErrSourceInconsistent i k).

(** [state.line > line || state.line == line && state.column > column] *)
Definition beyond_position (l c : Z) (state : checkpoint) : bool := (l <? line state) || (line state =? l) && (c <? column state).

Definition PositionToByte (ctx : option Context) (l c : Z) (i : Index) (k : nat) : Index * nat * result Z :=
  query ctx i k (fun ctx k =>
    if (l <? 0) || (i_lineCount i <=? l) || (c <? 0) then (i, k, Err coordinate_ErrInvalidPosition) else
    let cp := nearest (beyond_position l c) i in
    if (line cp =? l) && (column cp =? c) then (i, k, Ok (byteOffset cp)) else
    seek ctx cp (fun state => if (line state =? l) && (column state =? c) then Some (Ok (byteOffset state))
                              else if beyond_position l c state then Some (Err coordinate_ErrInvalidPosition) else None)
      (fun _ => None) coordinate_ErrInvalidPosition i k).

Definition LineStart (ctx : option Context) (l : Z) (i : Index) (k : nat) : Index * nat * result Z :=
  PositionToByte ctx l 0 i k.

(** ** The rest of the interface *)

Record Stats := mkStats {
  st_Revision : Z; st_ByteLength : Z; st_RuneCount : Z; st_LineCount : Z; st_CheckpointCount : Z; st_CheckpointBytes : Z;
  st_ReusedCheckpoints : Z; st_ReusedPrefixCheckpoints : Z; st_ReusedSuffixCheckpoints : Z; st_ScannedBytes : Z;
  st_CacheBytes : Z; st_CacheEntries : Z; st_MaximumCacheBytes : Z; st_CacheHits : Z; st_CacheMisses : Z }.

Definition index_Stats (i : Index) : Stats :=
  mkStats (i_revision i) (i_byteLength i) (i_runeCount i) (i_lineCount i) (zlen (i_checkpoints i)) (i_checkpointBytes i)
    (i_reused i) (i_reusedPrefix i) (i_reusedSuffix i) (i_scannedBytes i) (i_cacheBytes i)
    (match i_cache i with Some l => zlen l | None => 0 end) (i_maxCacheBytes i) (i_cacheHits i) (i_cacheMisses i).

Definition BelongsTo (lineage : option Lineage) (i : Index) : bool := isSome lineage && bool_decide (i_lineage i = lineage).

Definition Close (i : Index) : Index * option error :=
  if i_closed i then (i, None) else
  (mkIndex (i_source i) None true (i_revision i) (i_byteLength i) (i_runeCount i) (i_lineCount i) (i_checkpointBytes i)
     (i_checkpoints i) (i_reused i) (i_reusedPrefix i) (i_reusedSuffix i) (i_scannedBytes i) (i_lineage i)
     None 0 (i_maxCacheBytes i) (i_cacheHits i) (i_cacheMisses i),
   match i_release i with Some err => err | None => None end).
