(* ===== verification/IndexQuery.v ===== *)
(** * Queries of the coordinate index

    The position of every rune of a text, as a fold over its runes; what makes an
    index one of a text; and that the queries answer from it exactly, wherever
    their checkpoints and whatever their cache. *)

From Stdlib Require Import ZArith Lia List.
From stdpp Require Import base list numbers.
From S2P Require Import Prelude GoLib Utf8 ChangeMap Polling Index.
#[local] Open Scope Z_scope.

(** ** Positions in a text *)

Definition rune_ok (r : list byte) : Prop := is_rune r = true.
Definition is_newline (r : list byte) : bool := bool_decide (r = [newline]).

(** The position after one more rune. *)
Definition pass (c : checkpoint) (r : list byte) : checkpoint :=
  if is_newline r then mkCheckpoint (byteOffset c + zlen r) (runeOffset c + 1) (line c + 1) 0
  else mkCheckpoint (byteOffset c + zlen r) (runeOffset c + 1) (line c) (column c + 1).
Definition passes (c : checkpoint) (rs : list (list byte)) : checkpoint := fold_left pass rs c.

(** The position of the [n]-th rune of a text. *)
Definition pos (rs : list (list byte)) (n : nat) : checkpoint := passes zeroCheckpoint (take n rs).

Lemma passes_app c rs qs : passes c (rs ++ qs) = passes (passes c rs) qs.
Proof. apply fold_left_app. Qed.

Lemma passes_byteOffset c rs : byteOffset (passes c rs) = byteOffset c + zlen (concat rs).
Proof.
  revert c. induction rs as [|r rs IH]; intros c; cbn [passes fold_left concat].
  - rewrite (@zlen_nil byte). lia.
  - rewrite zlen_app. fold (passes (pass c r) rs). rewrite IH. unfold pass. destruct (is_newline r); cbn; lia.
Qed.

Lemma pos_byteOffset rs n : byteOffset (pos rs n) = zlen (concat (take n rs)).
Proof. unfold pos. by rewrite passes_byteOffset. Qed.

Lemma pos_S rs n r : rs !! n = Some r -> pos rs (S n) = pass (pos rs n) r.
Proof. intros H. unfold pos. rewrite (take_S_r _ _ _ H), passes_app. done. Qed.

Lemma pos_0 rs : pos rs 0 = zeroCheckpoint.
Proof. done. Qed.

Lemma pos_add rs n m : pos rs (n + m) = passes (pos rs n) (take m (drop n rs)).
Proof. unfold pos. by rewrite <-passes_app, take_take_drop. Qed.

Lemma rune_pos r : rune_ok r -> 1 <= zlen r.
Proof. apply rune_len. Qed.

Lemma concat_len rs : Forall rune_ok rs -> Z.of_nat (length rs) <= zlen (concat rs).
Proof.
  induction 1 as [|r rs Hr _ IH]; cbn [concat length]; [by rewrite (@zlen_nil byte)|].
  rewrite zlen_app. pose proof (rune_pos r Hr). lia.
Qed.

(** The counters never exceed the bytes. *)
Definition sane (c : checkpoint) : Prop :=
  0 <= runeOffset c <= byteOffset c /\ 0 <= line c <= byteOffset c /\ 0 <= column c <= byteOffset c.

Lemma sane_pass c r : sane c -> rune_ok r -> sane (pass c r).
Proof. intros (H1&H2&H3) Hr%rune_pos. unfold sane, pass. destruct (is_newline r); cbn; lia. Qed.
Lemma sane_passes c rs : sane c -> Forall rune_ok rs -> sane (passes c rs).
Proof. intros Hc Hr. revert c Hc. induction Hr; intros; cbn; [done|]. by apply IHHr, sane_pass. Qed.
Lemma sane_pos rs n : Forall rune_ok rs -> sane (pos rs n).
Proof. intros H. apply sane_passes; [unfold sane; cbn; lia|]. by apply Forall_take. Qed.

(** One rune further: bytes and runes grow, the line position grows in the
    lexicographic order. *)
Definition after (c d : checkpoint) : Prop :=
  byteOffset c < byteOffset d /\ runeOffset c < runeOffset d /\
  (line c < line d \/ line c = line d /\ column c < column d).

Lemma pass_after c r : rune_ok r -> after c (pass c r).
Proof. intros Hr%rune_pos. unfold after, pass. destruct (is_newline r); cbn; lia. Qed.
Lemma after_trans c d e : after c d -> after d e -> after c e.
Proof. unfold after. lia. Qed.

Lemma pos_after rs n m : Forall rune_ok rs -> (n < m <= length rs)%nat -> after (pos rs n) (pos rs m).
Proof.
  intros Hrs [Hlt Hle]. induction m as [|m IH]; [lia|].
  destruct (lookup_lt_is_Some_2 rs m) as [r Hr]; [lia|]. rewrite (pos_S _ _ _ Hr).
  assert (rune_ok r) as Hok by (by eapply Forall_lookup_1).
  destruct (decide (n = m)) as [->|]; [by apply pass_after|]. eapply after_trans; [apply IH; lia|by apply pass_after].
Qed.

Lemma pos_runeOffset rs n : (n <= length rs)%nat -> runeOffset (pos rs n) = Z.of_nat n.
Proof.
  induction n as [|n IH]; intros H; [done|]. destruct (lookup_lt_is_Some_2 rs n) as [r Hr]; [lia|].
  rewrite (pos_S _ _ _ Hr). unfold pass. destruct (is_newline r); cbn; rewrite IH; lia.
Qed.

Lemma pos_line_mono rs n m : Forall rune_ok rs -> (n <= m <= length rs)%nat -> line (pos rs n) <= line (pos rs m).
Proof.
  intros Hrs H. destruct (decide (n = m)) as [->|]; [lia|].
  destruct (pos_after rs n m Hrs) as (_&_&?); [lia|]. lia.
Qed.

(** The loop of the queries takes the same step. *)
Lemma decode_rune r q : rune_ok r -> exists c, decodeRune (r ++ q) = Ok (c, zlen r) /\ isNewline c = is_newline r.
Proof.
  intros Hr. destruct (rune_decodes r q Hr) as (Hf & c & Hd & He & Hn). exists c. pose proof (rune_pos r Hr).
  unfold decodeRune. rewrite zlen_app. pose proof (zlen_nonneg q). rewrite (proj2 (Z.eqb_neq _ 0)) by lia.
  rewrite Hf, Hd, He. split; [done|]. unfold isNewline, is_newline. destruct (decide (r = [newline])) as [E|E].
  - rewrite bool_decide_true by done. apply Z.eqb_eq. by apply Hn.
  - rewrite bool_decide_false by done. apply Z.eqb_neq. by intros ->%Hn.
Qed.

Lemma advance_pass c d r : sane c -> byteOffset c + zlen r <= maxInt64 -> rune_ok r -> isNewline d = is_newline r ->
  advance c d (zlen r) = pass c r.
Proof.
  intros (H1&H2&H3) Hm Hr%rune_pos Hd. unfold advance, pass. rewrite Hd. unfold maxInt64 in *.
  destruct (is_newline r); unwrap64_goal; done.
Qed.

(** ** The walk from a checkpoint *)

Section Walk.
Context {A : Type} (ctx : Context) (stop : checkpoint -> option (result A)) (ahead : Z -> option error) (short : error).

Lemma walk_yields Q ms : forall fuel rest state,
  Forall rune_ok ms -> sane state -> byteOffset state + zlen (concat ms ++ rest) <= maxInt64 ->
  (length (concat ms ++ rest) < fuel)%nat ->
  (forall j, (j < length ms)%nat -> stop (passes state (take j ms)) = None /\ ahead (byteOffset (passes state (take (S j) ms))) = None) ->
  (forall fuel', (length rest < fuel')%nat -> yields ctx (walk_window ctx fuel' stop ahead short rest (passes state ms)) Q) ->
  yields ctx (walk_window ctx fuel stop ahead short (concat ms ++ rest) state) Q.
Proof.
  induction ms as [|r ms IH]; intros fuel rest state Hms Hs Hm Hf Hq Hend; [by apply Hend|].
  apply Forall_cons_iff in Hms as [Hr Hms]. cbn [concat] in *. destruct fuel as [|fuel]; [lia|].
  rewrite <-app_assoc in *. cbn [walk_window]. apply yields_poll.
  destruct (Hq 0%nat ltac:(cbn; lia)) as [Hst Hah]. cbn in Hst, Hah. rewrite take_0 in Hah. cbn in Hah. rewrite Hst.
  pose proof (rune_pos r Hr) as Hlen. pose proof (zlen_nonneg (concat ms ++ rest)).
  rewrite (zlen_app r) in Hm |- *. rewrite (proj2 (Z.eqb_neq _ 0)) by lia.
  destruct (decode_rune r (concat ms ++ rest) Hr) as (c & -> & Hc).
  assert (byteOffset (pass state r) = byteOffset state + zlen r) as Hb by (unfold pass; by destruct (is_newline r)).
  rewrite <-Hb, Hah. rewrite zdrop_app by done. rewrite (advance_pass _ _ r) by (done || lia).
  apply IH; [done|by apply sane_pass|lia| | |done].
  - unfold zlen in Hlen. rewrite length_app in Hf. lia.
  - intros j Hj. apply (Hq (S j)). cbn. lia.
Qed.

(** At the target: a state that stops, the end of the data, or a rune not to be
    entered. *)
Lemma walk_stop (Q : result A -> Prop) fuel rest state r : (length rest < fuel)%nat -> stop state = Some r -> Q r ->
  yields ctx (walk_window ctx fuel stop ahead short rest state) Q.
Proof.
  intros Hf Hs HQ. destruct fuel; [lia|]. cbn [walk_window]. apply yields_poll. rewrite Hs. intros k. by left.
Qed.
Lemma walk_short (Q : result A -> Prop) fuel state : (0 < fuel)%nat -> stop state = None -> Q (Err short) ->
  yields ctx (walk_window ctx fuel stop ahead short [] state) Q.
Proof.
  intros Hf Hs HQ. destruct fuel; [lia|]. cbn [walk_window]. apply yields_poll. rewrite Hs. cbn. by apply yields_fail.
Qed.
Lemma walk_ahead (Q : result A -> Prop) fuel r rest state e : (length (r ++ rest) < fuel)%nat -> rune_ok r -> stop state = None ->
  ahead (byteOffset state + zlen r) = Some e -> Q (Err e) ->
  yields ctx (walk_window ctx fuel stop ahead short (r ++ rest) state) Q.
Proof.
  intros Hf Hr Hs Ha HQ. destruct fuel; [lia|]. cbn [walk_window]. apply yields_poll. rewrite Hs.
  pose proof (rune_pos r Hr). pose proof (zlen_nonneg rest). rewrite zlen_app, (proj2 (Z.eqb_neq _ 0)) by lia.
  destruct (decode_rune r rest Hr) as (c & -> & _). rewrite Ha. by apply yields_fail.
Qed.
End Walk.

(** ** The index of a text *)

(** Consecutive checkpoints: at most a block apart, up to the rune that spans it. *)
Definition spaced (rs : list (list byte)) (block : Z) (a b : nat) : Prop :=
  (a < b <= length rs)%nat /\ byteOffset (pos rs b) <= byteOffset (pos rs a) + block + 3.

(** The checkpoints are positions of the text, from its start to its end. *)
Record marks (rs : list (list byte)) (block : Z) (ns : list nat) : Prop := {
  mk_first : ns !! 0%nat = Some 0%nat;
  mk_last : ns !! Nat.pred (length ns) = Some (length rs);
  mk_spaced : forall k a b, ns !! k = Some a -> ns !! S k = Some b -> spaced rs block a b }.

Definition window_at (rs : list (list byte)) (block start : Z) : list byte := slice start (block + UTFMax) (concat rs).

Fixpoint entry_bytes (l : list cacheEntry) : Z :=
  match l with [] => 0 | e :: l => zlen (ce_data e) + entry_bytes l end.

Record cache_ok (rs : list (list byte)) (block maximum : Z) (l : list cacheEntry) (bytes : Z) : Prop := {
  ca_windows : Forall (fun e => ce_data e = window_at rs block (ce_start e)) l;
  ca_keys : List.NoDup (map ce_start l);
  ca_bytes : bytes = entry_bytes l;
  ca_bound : bytes <= maximum }.

Record index_ok (rs : list (list byte)) (i : Index) : Prop := {
  io_runes : Forall rune_ok rs;
  io_length : i_byteLength i = zlen (concat rs) /\ zlen (concat rs) <= maxInt64;
  io_source : ReaderOk (i_source i) (concat rs);
  io_open : i_closed i = false;
  io_runeCount : i_runeCount i = runeOffset (pos rs (length rs));
  io_lineCount : i_lineCount i = line (pos rs (length rs)) + 1;
  io_block : 0 < i_checkpointBytes i <= MaximumCheckpointBytes;
  io_marks : exists ns, i_checkpoints i = map (pos rs) ns /\ marks rs (i_checkpointBytes i) ns;
  io_cache : exists l, i_cache i = Some l /\ cache_ok rs (i_checkpointBytes i) (i_maxCacheBytes i) l (i_cacheBytes i) }.

Lemma spaced_mono rs block (ns : list nat) j k a b : (forall k a b, ns !! k = Some a -> ns !! S k = Some b -> spaced rs block a b) ->
  (j <= k)%nat -> ns !! j = Some a -> ns !! k = Some b -> (a <= b)%nat.
Proof.
  intros Hs Hjk Ha. revert b. induction Hjk as [|k Hjk IH]; intros b Hb; [rewrite Ha in Hb; by injection Hb as ->|].
  destruct (lookup_lt_is_Some_2 ns k) as [c Hc]; [apply lookup_lt_Some in Hb; lia|].
  destruct (Hs _ _ _ Hc Hb) as [[? _] _]. specialize (IH _ Hc). lia.
Qed.

Lemma marks_mono rs block ns j k a b : marks rs block ns -> (j <= k)%nat -> ns !! j = Some a -> ns !! k = Some b -> (a <= b)%nat.
Proof. intros [_ _ Hs]. by apply (spaced_mono rs block). Qed.

Lemma marks_bound rs block ns k a : marks rs block ns -> ns !! k = Some a -> (a <= length rs)%nat.
Proof.
  intros H Ha. pose proof (mk_last _ _ _ H) as Hl.
  apply (marks_mono rs block ns k (Nat.pred (length ns)) a _ H); [apply lookup_lt_Some in Ha; lia|done|done].
Qed.

Lemma at_index_map rs ns k a : ns !! k = Some a -> at_index (map (pos rs) ns) (Z.of_nat k) = pos rs a.
Proof. intros H. unfold at_index. rewrite Nat2Z.id. apply nth_lookup_Some. by apply list_lookup_fmap_Some_2 with (f := pos rs). Qed.

(** A search over the checkpoints splits them at the first that is beyond. *)
Lemma search_spec rs block (ns : list nat) beyond :
  marks rs block ns -> (forall n m, (n <= m <= length rs)%nat -> beyond (pos rs n) = true -> beyond (pos rs m) = true) ->
  let cps := map (pos rs) ns in
  let r := sort_Search (zlen cps) (fun k => beyond (at_index cps k)) in
  0 <= r <= Z.of_nat (length ns) /\
  forall k n, ns !! k = Some n -> beyond (pos rs n) = negb (Z.of_nat k <? r).
Proof.
  intros Hm Hmono cps r. unfold cps in r.
  assert (forall k, 0 <= k < zlen (map (pos rs) ns) -> exists a, ns !! Z.to_nat k = Some a /\ at_index (map (pos rs) ns) k = pos rs a) as Hat.
  { intros k Hk. rewrite zlen_map in Hk. unfold zlen in Hk. destruct (lookup_lt_is_Some_2 ns (Z.to_nat k)) as [a Ha]; [lia|].
    exists a. split; [done|]. rewrite <-(at_index_map rs ns _ _ Ha). f_equal. lia. }
  destruct (sort_Search_spec (zlen (map (pos rs) ns)) (fun k => beyond (at_index (map (pos rs) ns) k))) as (Hr & Hlo & Hhi).
  { apply zlen_nonneg. }
  { intros a b Hab Hb Hf. destruct (Hat a ltac:(lia)) as (x & Hx & Ex). destruct (Hat b ltac:(lia)) as (y & Hy & Ey).
    rewrite Ex in Hf. rewrite Ey. apply (Hmono x y); [|done]. split; [eapply (marks_mono _ _ _ _ _ _ _ Hm); [|done|done]; lia|by eapply marks_bound]. }
  fold r in Hr, Hlo, Hhi. rewrite zlen_map in *. unfold zlen in *. split; [exact Hr|]. intros k n Hk.
  pose proof (lookup_lt_Some _ _ _ Hk). rewrite <-(at_index_map rs ns k n Hk).
  destruct (Z.ltb_spec (Z.of_nat k) r); [apply Hlo|apply Hhi]; lia.
Qed.

(** The search finds the last checkpoint that is not beyond. *)
Lemma nearest_spec rs i beyond :
  index_ok rs i -> beyond (pos rs 0) = false ->
  (forall n m, (n <= m <= length rs)%nat -> beyond (pos rs n) = true -> beyond (pos rs m) = true) ->
  exists n, (n <= length rs)%nat /\ nearest beyond i = pos rs n /\ beyond (pos rs n) = false /\
    (n = length rs \/ exists m, (n < m <= length rs)%nat /\ beyond (pos rs m) = true /\
       byteOffset (pos rs m) <= byteOffset (pos rs n) + i_checkpointBytes i + 3).
Proof.
  intros H H0 Hmono. destruct (io_marks _ _ H) as (ns & Hcps & Hm). unfold nearest. rewrite Hcps.
  destruct (search_spec rs _ ns beyond Hm Hmono) as [Hr Hsplit]. set (r := sort_Search _ _) in *.
  pose proof (mk_first _ _ _ Hm) as Hf. assert (0 < r) as Hr0.
  { specialize (Hsplit _ _ Hf). rewrite H0 in Hsplit. destruct (Z.ltb_spec (Z.of_nat 0) r); [lia|done]. }
  destruct (lookup_lt_is_Some_2 ns (Z.to_nat (r - 1))) as [n Hn]; [lia|]. exists n.
  replace (r - 1) with (Z.of_nat (Z.to_nat (r - 1))) by lia. rewrite (at_index_map rs ns _ _ Hn).
  split; [by eapply marks_bound|]. split; [done|]. split; [rewrite (Hsplit _ _ Hn), (proj2 (Z.ltb_lt _ _)) by lia; done|].
  destruct (decide (r = Z.of_nat (length ns))) as [E|E].
  - left. pose proof (mk_last _ _ _ Hm) as Hl.
    replace (Nat.pred (length ns)) with (Z.to_nat (r - 1)) in Hl by lia. congruence.
  - right. destruct (lookup_lt_is_Some_2 ns (S (Z.to_nat (r - 1)))) as [m Hmm]; [lia|]. exists m.
    destruct (mk_spaced _ _ _ Hm _ _ _ Hn Hmm) as [Hnm Hsp]. split; [exact Hnm|]. split; [|exact Hsp].
    rewrite (Hsplit _ _ Hmm), (proj2 (Z.ltb_ge _ _)) by lia. done.
Qed.

(** ** Windows and their cache *)

(** Nothing but the cache differs. *)
Definition same_index (i i' : Index) : Prop :=
  exists cache bytes hits misses, i' = with_cache cache bytes hits misses i.

Lemma same_index_refl i : same_index i i.
Proof. exists (i_cache i), (i_cacheBytes i), (i_cacheHits i), (i_cacheMisses i). by destruct i. Qed.

Lemma index_ok_cache rs i l bytes hits misses :
  index_ok rs i -> cache_ok rs (i_checkpointBytes i) (i_maxCacheBytes i) l bytes ->
  index_ok rs (with_cache (Some l) bytes hits misses i).
Proof. intros [] Hc. split; try done. by exists l. Qed.

Lemma filter_split (p : cacheEntry -> bool) l : Permutation (List.filter p l ++ List.filter (fun e => negb (p e)) l) l.
Proof.
  induction l as [|e l IH]; [done|]. cbn. destruct (p e); cbn; [by constructor|].
  rewrite <-Permutation_middle. by constructor.
Qed.

Lemma entry_bytes_app l k : entry_bytes (l ++ k) = entry_bytes l + entry_bytes k.
Proof. induction l as [|e l IH]; cbn; [lia|]. rewrite IH. lia. Qed.
Lemma entry_bytes_nonneg l : 0 <= entry_bytes l.
Proof. induction l as [|e l IH]; cbn; [lia|]. pose proof (zlen_nonneg (ce_data e)). lia. Qed.
Lemma entry_bytes_perm l k : Permutation l k -> entry_bytes l = entry_bytes k.
Proof. induction 1; cbn; lia. Qed.

Lemma cache_perm rs block maximum l k bytes : Permutation k l -> cache_ok rs block maximum l bytes -> cache_ok rs block maximum k bytes.
Proof.
  intros Hp [Hw Hk Hb Hm]. split; [by rewrite Hp| |by rewrite (entry_bytes_perm _ _ Hp)|done].
  eapply Permutation_NoDup; [|exact Hk]. symmetry. by apply Permutation_map.
Qed.

Lemma evict_spec rs block maximum fuel : forall l,
  (length l <= fuel)%nat -> 0 <= maximum -> Forall (fun e => ce_data e = window_at rs block (ce_start e)) l -> List.NoDup (map ce_start l) ->
  let '(l', bytes) := evict fuel maximum l (entry_bytes l) in cache_ok rs block maximum l' bytes.
Proof.
  induction fuel as [|fuel IH]; intros l Hl Hm Hw Hk; cbn [evict].
  { destruct l; [|cbn in Hl; lia]. split; try done. }
  destruct (Z.ltb_spec maximum (entry_bytes l)) as [Hlt|Hge]; [|split; try done].
  destruct l as [|e l _] using rev_ind; [cbn in Hlt; lia|].
  rewrite removelast_last, last_last, entry_bytes_app. cbn [entry_bytes]. replace (entry_bytes l + (zlen (ce_data e) + 0) - zlen (ce_data e)) with (entry_bytes l) by lia.
  rewrite length_app in Hl. cbn in Hl. rewrite map_app in Hk. apply Forall_app in Hw as [Hw _].
  apply IH; [lia|done|done|]. by apply NoDup_app_remove_r in Hk.
Qed.

Lemma find_entry_spec start l : match find_entry start l with
  | Some e => In e l /\ ce_start e = start
  | None => ~ In start (map ce_start l)
  end.
Proof.
  unfold find_entry. destruct (List.find _ l) as [e|] eqn:E.
  - apply find_some in E as [? ?%Z.eqb_eq]. done.
  - intros (e & He & Hin)%in_map_iff. pose proof (find_none _ _ E e Hin) as Hn. cbn in Hn. by apply Z.eqb_neq in Hn.
Qed.

Lemma cachedWindow_spec rs i start i' o : index_ok rs i -> cachedWindow start i = (i', o) ->
  index_ok rs i' /\ same_index i i' /\ forall data, o = Some data -> data = window_at rs (i_checkpointBytes i) start.
Proof.
  intros H Hc. destruct (io_cache _ _ H) as (l & Hl & Hok). unfold cachedWindow in Hc. rewrite Hl in Hc.
  pose proof (find_entry_spec start l) as Hf. destruct (find_entry start l) as [e|]; injection Hc as <- <-.
  - destruct Hf as [Hin <-]. split_and!; [|by do 4 eexists|].
    + apply index_ok_cache; [done|]. eapply cache_perm; [apply filter_split|done].
    + intros data [= <-]. pose proof (ca_windows _ _ _ _ _ Hok) as Hw. rewrite List.Forall_forall in Hw. by apply Hw.
  - split_and!; [by apply index_ok_cache|by do 4 eexists|done].
Qed.

Lemma storeWindow_spec rs i start : index_ok rs i ->
  let i' := storeWindow start (window_at rs (i_checkpointBytes i) start) i in index_ok rs i' /\ same_index i i'.
Proof.
  intros H. destruct (io_cache _ _ H) as (l & Hl & Hok). unfold storeWindow. rewrite Hl.
  destruct ((i_maxCacheBytes i =? 0) || _) eqn:Hbig; [split; [done|apply same_index_refl]|].
  pose proof (find_entry_spec start l) as Hf. destruct (find_entry start l) as [e|].
  - split; [|by do 4 eexists]. apply index_ok_cache; [done|]. eapply cache_perm; [apply filter_split|done].
  - apply orb_false_iff in Hbig as [_ Hbig%Z.ltb_ge]. pose proof (zlen_nonneg (window_at rs (i_checkpointBytes i) start)).
    set (e := mkCacheEntry start (window_at rs (i_checkpointBytes i) start)) in *.
    assert (i_cacheBytes i + zlen (window_at rs (i_checkpointBytes i) start) = entry_bytes (e :: l)) as ->
      by (rewrite (ca_bytes _ _ _ _ _ Hok); cbn; lia).
    pose proof (evict_spec rs (i_checkpointBytes i) (i_maxCacheBytes i) (length (e :: l)) (e :: l)) as He.
    destruct (evict _ _ _ _) as [l' bytes]. split; [|by do 4 eexists]. apply index_ok_cache; [done|].
    apply He; [done|lia|by constructor; [|apply Hok]|]. cbn. constructor; [done|apply Hok].
Qed.

Lemma window_loop_spec ctx source doc start length fuel : ReaderOk source doc ->
  0 <= start -> 0 <= length -> start + length <= zlen doc -> (0 < fuel)%nat -> (length = 0 \/ (1 < fuel)%nat) ->
  yields ctx (window_loop ctx fuel source start length []) (fun r => r = Ok (slice start length doc)).
Proof.
  intros Hs H0 Hl Hle Hf Hf2. destruct fuel as [|fuel]; [lia|]. cbn [window_loop]. rewrite (@zlen_nil byte).
  destruct (Z.ltb_spec 0 length) as [Hpos|Hz]; cbn [negb].
  2:{ apply yields_ret. by rewrite slice_nil_len by lia. }
  apply yields_poll. rewrite Z.add_0_r, Z.sub_0_r. destruct (reader_full start length) as [Hd He]; [lia..|].
  destruct (source start length) as [got err]. cbn [fst snd app] in *. subst got. rewrite zlen_slice by lia.
  rewrite Z.ltb_irrefl.
  assert (yields ctx (window_loop ctx fuel source start length (slice start length doc)) (fun r => r = Ok (slice start length doc))) as Hend.
  { destruct fuel as [|fuel]; [lia|]. cbn [window_loop]. rewrite zlen_slice, Z.ltb_irrefl by lia. cbn [negb]. by apply yields_ret. }
  destruct He as [->|[-> _]]; [rewrite andb_false_r|cbn [errors_Is]; rewrite bool_decide_true, Z.eqb_refl by done]; exact Hend.
Qed.

Lemma readWindow_spec rs ctx i start k : index_ok rs i -> 0 <= start <= i_byteLength i ->
  let '(i', _, r) := readWindow ctx start i k in
  index_ok rs i' /\ same_index i i' /\ (r = Ok (window_at rs (i_checkpointBytes i) start) \/ cancelled ctx r).
Proof.
  intros H Hstart. unfold readWindow. destruct (cpoll ctx k) as [k1 r1] eqn:Ep. unfold cpoll in Ep.
  destruct (ctx k) as [e|] eqn:Ek; injection Ep as <- <-.
  { split_and!; [done|apply same_index_refl|right; by exists k, e]. }
  destruct (cachedWindow start i) as [i1 [data|]] eqn:Ec; destruct (cachedWindow_spec _ _ _ _ _ H Ec) as (H1 & Hsame & Hd).
  { split_and!; [done|done|left]. by rewrite (Hd _ eq_refl). }
  destruct Hsame as (c & b & h & m & ->). cbn [i_checkpointBytes i_byteLength i_source with_cache].
  pose proof (io_length _ _ H) as [Hlen Hmax]. pose proof (io_block _ _ H) as Hblock. unfold MaximumCheckpointBytes, UTFMax, maxInt64 in *.
  set (last := if _ && _ then _ else _).
  assert (last = Z.min (start + (i_checkpointBytes i + 4)) (i_byteLength i)) as ->.
  { unfold last. destruct (Z.leb_spec start (9223372036854775807 - (i_checkpointBytes i + 4))); cbn [andb]; [|lia].
    destruct (Z.ltb_spec (start + (i_checkpointBytes i + 4)) (i_byteLength i)); lia. }
  set (len := Z.min (start + (i_checkpointBytes i + 4)) (i_byteLength i) - start).
  assert (slice start len (concat rs) = window_at rs (i_checkpointBytes i) start) as Hw.
  { unfold window_at, slice, UTFMax. set (rest := zdrop start (concat rs)).
    assert (zlen rest = i_byteLength i - start) as Hr by (unfold rest; rewrite zlen_zdrop; lia).
    destruct (decide (start + (i_checkpointBytes i + 4) <= i_byteLength i)); [f_equal; lia|]. rewrite !ztake_all by lia. done. }
  pose proof (window_loop_spec ctx (i_source i) (concat rs) start len (S (Z.to_nat len)) (io_source _ _ H)
    ltac:(lia) ltac:(lia) ltac:(lia) ltac:(lia) ltac:(lia) (S k)) as Hloop.
  destruct (window_loop ctx _ _ _ _ _ _) as [k2 [data|e]]; cbn [snd] in Hloop.
  - destruct Hloop as [[= ->]|(j & e & _ & ?)]; [|done]. rewrite Hw.
    destruct (storeWindow_spec rs _ start H1) as [H2 (c2 & b2 & h2 & m2 & E2)]. cbn [i_checkpointBytes with_cache] in H2, E2.
    split_and!; [done| |by left]. rewrite E2. by do 4 eexists.
  - destruct Hloop as [?|(j & e' & Hj & [= ->])]; [done|]. split_and!; [done|by do 4 eexists|right; by exists j, e'].
Qed.

(** ** Seeking from a checkpoint *)

Lemma window_split rs block n t :
  (n <= t <= length rs)%nat -> byteOffset (pos rs t) <= byteOffset (pos rs n) + block + UTFMax ->
  window_at rs block (byteOffset (pos rs n)) =
  concat (take (t - n) (drop n rs)) ++ ztake (byteOffset (pos rs n) + block + UTFMax - byteOffset (pos rs t)) (concat (drop t rs)).
Proof.
  intros Hnt Hb. unfold window_at, slice. set (a := byteOffset (pos rs n)) in *. set (b := byteOffset (pos rs t)) in *.
  assert (concat rs = concat (take n rs) ++ concat (take (t - n) (drop n rs)) ++ concat (drop t rs)) as ->.
  { rewrite <-concat_app. replace (drop t rs) with (drop (t - n) (drop n rs)) by (rewrite drop_drop; f_equal; lia).
    by rewrite take_drop, <-concat_app, take_drop. }
  assert (zlen (concat (take n rs)) = a) as Ha by (unfold a; by rewrite pos_byteOffset).
  assert (zlen (concat (take (t - n) (drop n rs))) = b - a) as Hd.
  { unfold b. replace t with (n + (t - n))%nat at 2 by lia. rewrite pos_add, passes_byteOffset. lia. }
  rewrite zdrop_app, ztake_app_r by (unfold UTFMax in *; lia). rewrite Hd. f_equal. f_equal. lia.
Qed.

(** How a walk may end at the position [c] with the text [rs] behind it. *)
Inductive ends {A} (stop : checkpoint -> option (result A)) (ahead : Z -> option error) (short : error) (room : Z)
  (c : checkpoint) : list (list byte) -> result A -> Prop :=
| ends_stop rs r : stop c = Some r -> ends stop ahead short room c rs r
| ends_short : stop c = None -> ends stop ahead short room c [] (Err short)
| ends_ahead r rs e : rune_ok r -> stop c = None -> zlen r <= room -> ahead (byteOffset c + zlen r) = Some e ->
    ends stop ahead short room c (r :: rs) (Err e).

Lemma walk_ends {A} ctx (stop : checkpoint -> option (result A)) ahead short room c rs r fuel :
  ends stop ahead short room c rs r -> (length (ztake room (concat rs)) < fuel)%nat ->
  yields ctx (walk_window ctx fuel stop ahead short (ztake room (concat rs)) c) (fun r' => r' = r).
Proof.
  intros [rs' r' Hs|Hs|r' rs' e Hr Hs Hroom Ha] Hf.
  - by eapply walk_stop.
  - assert (ztake room (concat (@nil (list byte))) = []) as E by (unfold ztake; cbn [concat]; apply firstn_nil).
    rewrite E in *. by apply walk_short; [lia| |].
  - cbn [concat] in *. rewrite ztake_app_r in * by done. eapply walk_ahead; done.
Qed.

(** What a query leaves and answers: the index of the same text, only its cache
    changed, and an expected answer, or an error of the context. *)
Definition answers {A} (ctx : Context) (rs : list (list byte)) (i : Index) (Q : result A -> Prop) (o : Index * nat * result A) : Prop :=
  let '(i', _, r) := o in index_ok rs i' /\ same_index i i' /\ (Q r \/ cancelled ctx r).

Lemma seek_spec {A} rs ctx i n t (stop : checkpoint -> option (result A)) ahead short r k :
  index_ok rs i -> (n <= t <= length rs)%nat ->
  byteOffset (pos rs t) <= byteOffset (pos rs n) + i_checkpointBytes i + UTFMax ->
  (forall j, (n <= j < t)%nat -> stop (pos rs j) = None /\ ahead (byteOffset (pos rs (S j))) = None) ->
  ends stop ahead short (byteOffset (pos rs n) + i_checkpointBytes i + UTFMax - byteOffset (pos rs t)) (pos rs t) (drop t rs) r ->
  answers ctx rs i (fun r' => r' = r) (seek ctx (pos rs n) stop ahead short i k).
Proof.
  intros H Hnt Hb Hq He. unfold seek.
  pose proof (io_runes _ _ H) as Hrs. pose proof (io_length _ _ H) as [Hlen Hmax].
  assert (0 <= byteOffset (pos rs n) <= i_byteLength i) as Hbound.
  { rewrite pos_byteOffset, Hlen. rewrite <-(take_drop n rs) at 3. rewrite concat_app, zlen_app. pose proof (zlen_nonneg (concat (drop n rs))).
    pose proof (zlen_nonneg (concat (take n rs))). lia. }
  pose proof (readWindow_spec rs ctx i _ k H Hbound) as Hw.
  destruct (readWindow ctx _ i k) as [[i1 k1] [data|e]]; destruct Hw as (H1 & Hs & [Hw|(j & e' & Hj & E)]); try done.
  2:{ injection E as ->. split_and!; [done|done|right; by exists j, e']. }
  injection Hw as ->. pose proof (window_split rs (i_checkpointBytes i) n t Hnt Hb) as Hsplit. rewrite Hsplit.
  assert (yields ctx (walk_window ctx (S (length (window_at rs (i_checkpointBytes i) (byteOffset (pos rs n))))) stop ahead short
    (window_at rs (i_checkpointBytes i) (byteOffset (pos rs n))) (pos rs n)) (fun r' => r' = r)) as Hy.
  { rewrite Hsplit. set (ms := take (t - n) (drop n rs)) in *.
    assert (length ms = (t - n)%nat) as Hms by (unfold ms; rewrite length_take, length_drop; lia).
    assert (forall j, (j <= t - n)%nat -> passes (pos rs n) (take j ms) = pos rs (n + j)) as Hp.
    { intros j Hj. unfold ms. rewrite take_take, pos_add. do 2 f_equal. lia. }
    apply walk_yields; [by apply Forall_take, Forall_drop|by apply sane_pos| |lia| |].
    - rewrite <-Hsplit. unfold window_at. unfold slice.
      assert (zlen (ztake (i_checkpointBytes i + UTFMax) (zdrop (byteOffset (pos rs n)) (concat rs))) <= zlen (zdrop (byteOffset (pos rs n)) (concat rs))).
      { rewrite zlen_ztake. lia. }
      rewrite zlen_zdrop in * by lia. lia.
    - intros j Hj. rewrite !Hp by lia. replace (n + S j)%nat with (S (n + j)) by lia. apply Hq. lia.
    - intros fuel' Hf. rewrite <-(take_ge ms (t - n)) at 1 by lia. rewrite Hp by lia.
      replace (n + (t - n))%nat with t by lia. by apply walk_ends. }
  specialize (Hy k1). rewrite <-Hsplit. destruct (walk_window _ _ _ _ _ _ _ k1) as [k2 r2]. cbn [snd] in Hy.
  split_and!; [done|done|]. destruct Hy as [->|(j & e & Hj & ->)]; [by left|right; by exists j, e].
Qed.

(** ** The queries *)

Section Queries.
Context (rs : list (list byte)) (i : Index) (Hi : index_ok rs i) (ctx : Context).

Lemma answers_here {A} (Q : result A -> Prop) k r : Q r -> answers ctx rs i Q (i, k, r).
Proof. intros H. split; [done|]. split; [apply same_index_refl|by left]. Qed.

Lemma answers_weaken {A} (P Q : result A -> Prop) o : (forall r, P r -> Q r) -> answers ctx rs i P o -> answers ctx rs i Q o.
Proof. intros HPQ. destruct o as [[i' k] r]. intros (? & ? & [?|?]); split_and!; auto. Qed.

Lemma query_answers {A} (Q : result A -> Prop) k body :
  (forall k, answers ctx rs i Q (body ctx k)) -> answers ctx rs i Q (query (Some ctx) i k body).
Proof.
  intros H. unfold query, cpoll. destruct (ctx k) as [e|] eqn:E.
  - split; [done|]. split; [apply same_index_refl|]. right. by exists k, e.
  - rewrite (io_open _ _ Hi). apply H.
Qed.

(** Where a monotone test changes. *)
Lemma crossing (f : nat -> bool) n m : (n <= m)%nat -> f n = false -> f m = true ->
  exists t, (n <= t < m)%nat /\ f t = false /\ f (S t) = true.
Proof.
  intros Hnm Hn. induction Hnm as [|m Hnm IH]; [congruence|]. intros Hm. destruct (f m) eqn:E.
  - destruct (IH eq_refl) as (t & ? & ? & ?). exists t. split_and!; [lia..|done|done].
  - exists m. split_and!; [lia..|done|done].
Qed.

Lemma byteOffset_mono n m : (n <= m <= length rs)%nat -> byteOffset (pos rs n) <= byteOffset (pos rs m).
Proof.
  intros H. destruct (decide (n = m)) as [->|]; [lia|]. destruct (pos_after rs n m (io_runes _ _ Hi)) as [? _]; lia.
Qed.

Lemma byteOffset_end : byteOffset (pos rs (length rs)) = i_byteLength i.
Proof. rewrite pos_byteOffset, take_ge by done. by rewrite (proj1 (io_length _ _ Hi)). Qed.

(** Later positions are beyond whatever an earlier one is beyond. *)
Definition monotone (beyond : checkpoint -> bool) : Prop :=
  forall n m, (n <= m <= length rs)%nat -> beyond (pos rs n) = true -> beyond (pos rs m) = true.

Lemma monotone_after (beyond : checkpoint -> bool) :
  (forall c d, after c d -> beyond c = true -> beyond d = true) -> monotone beyond.
Proof.
  intros H n m Hnm Hn. destruct (decide (n = m)) as [->|]; [done|]. eapply H; [|exact Hn]. apply pos_after; [apply Hi|lia].
Qed.

(** A position that is not beyond the target while its checkpoint is the nearest:
    it lies in the window. *)
Lemma nearest_window beyond : monotone beyond -> beyond (pos rs 0) = false ->
  exists n, (n <= length rs)%nat /\ nearest beyond i = pos rs n /\ beyond (pos rs n) = false /\
    forall t, (n <= t <= length rs)%nat -> t = n \/ beyond (pos rs (Nat.pred t)) = false ->
      byteOffset (pos rs t) <= byteOffset (pos rs n) + i_checkpointBytes i + 3.
Proof.
  intros Hm H0. destruct (nearest_spec rs i beyond Hi H0 Hm) as (n & Hn & -> & Hb & Hcase). exists n. split_and!; [done..|].
  pose proof (io_block _ _ Hi) as Hblock. intros t Ht [->|Hp]; [lia|].
  destruct Hcase as [->|(m & Hnm & Hbm & Hlen)]; [replace t with (length rs) by lia; lia|].
  destruct (decide (t <= m)%nat) as [Hle|Hgt]; [pose proof (byteOffset_mono t m); lia|].
  rewrite (Hm m (Nat.pred t)) in Hp; [done|lia|done].
Qed.

(** [ByteToPosition]: the position of the rune that starts at the offset, or why
    there is none. *)
Definition byte_answer (offset : Z) (r : result Position) : Prop :=
  match r with
  | Ok p => exists n, (n <= length rs)%nat /\ byteOffset (pos rs n) = offset /\ p = positionFor (pos rs n)
  | Err e =>
    (e = coordinate_ErrInvalidOffset /\ ~ 0 <= offset <= zlen (concat rs)) \/
    (e = coordinate_ErrNotRuneBoundary /\ 0 <= offset <= zlen (concat rs) /\
     forall n, (n <= length rs)%nat -> byteOffset (pos rs n) <> offset)
  end.

(** The last rune that starts at the offset or before. *)
Lemma byte_target offset n : (n <= length rs)%nat -> byteOffset (pos rs n) <= offset <= zlen (concat rs) ->
  exists t, (n <= t <= length rs)%nat /\ byteOffset (pos rs t) <= offset /\
    (byteOffset (pos rs t) = offset \/ (t < length rs)%nat /\ byteOffset (pos rs t) < offset < byteOffset (pos rs (S t))).
Proof.
  intros Hn Hin. pose proof byteOffset_end as Hend. rewrite (proj1 (io_length _ _ Hi)) in Hend.
  destruct (decide (offset = zlen (concat rs))) as [->|]; [exists (length rs); lia|].
  destruct (crossing (fun t => offset <? byteOffset (pos rs t)) n (length rs)) as (t & ? & Ht1%Z.ltb_ge & Ht2%Z.ltb_lt); [lia..|].
  exists t. lia.
Qed.

Lemma ByteToPosition_answers offset k : answers ctx rs i (byte_answer offset) (ByteToPosition (Some ctx) offset i k).
Proof.
  apply query_answers. clear k. intros k. pose proof (proj1 (io_length _ _ Hi)) as Hlen. rewrite Hlen.
  destruct ((offset <? 0) || (zlen (concat rs) <? offset)) eqn:Hout; [apply answers_here; left; split; [done|lia]|].
  assert (0 <= offset <= zlen (concat rs)) as Hin by lia. clear Hout.
  set (beyond := fun c => offset <? byteOffset c).
  assert (monotone beyond) as Hm by (apply monotone_after; unfold beyond, after; lia).
  cbv zeta. destruct (nearest_window beyond Hm) as (n & Hn & -> & Hb & Hwin); [apply Z.ltb_ge; rewrite pos_0; unfold zeroCheckpoint; cbn [byteOffset]; lia|]. unfold beyond in Hb. apply Z.ltb_ge in Hb.
  destruct (Z.eqb_spec (byteOffset (pos rs n)) offset) as [E|Hne]; [apply answers_here; by exists n|].
  pose proof byteOffset_end as Hend. assert (n < length rs)%nat as Hlt by (destruct (decide (n = length rs)) as [->|]; lia).
  destruct (byte_target offset n Hn) as (t & Ht & Hle & Hcase); [lia|].
  assert (byteOffset (pos rs t) <= byteOffset (pos rs n) + i_checkpointBytes i + 3) as Hroom.
  { apply Hwin; [lia|]. destruct (decide (t = n)); [by left|right]. apply Z.ltb_ge. pose proof (byteOffset_mono (Nat.pred t) t). lia. }
  assert (forall j, (n <= j < t)%nat -> byteOffset (pos rs j) < byteOffset (pos rs (S j)) <= byteOffset (pos rs t)) as Hstep.
  { intros j Hj. split; [apply pos_after; [apply Hi|lia]|apply byteOffset_mono; lia]. }
  destruct Hcase as [E|[Htl Hnext]].
  - eapply answers_weaken; [|eapply (seek_spec rs ctx i n t _ _ _ (Ok (positionFor (pos rs t)))); [done|lia|unfold UTFMax; lia| |]].
    + intros r ->. exists t. split_and!; [lia|done..].
    + intros j Hj. specialize (Hstep j Hj). rewrite (proj2 (Z.eqb_neq _ _)), (proj2 (Z.ltb_ge _ _)) by lia. done.
    + apply ends_stop. by rewrite (proj2 (Z.eqb_eq _ _)).
  - destruct (lookup_lt_is_Some_2 rs t) as [r Hr]; [lia|].
    assert (byteOffset (pos rs (S t)) = byteOffset (pos rs t) + zlen r) as Hnext'
      by (rewrite (pos_S _ _ _ Hr); unfold pass; by destruct (is_newline r)).
    eapply answers_weaken; [|eapply (seek_spec rs ctx i n t _ _ _ (Err coordinate_ErrNotRuneBoundary)); [done|lia|unfold UTFMax; lia| |]].
    + intros r' ->. right. split_and!; [done|lia|lia|]. intros m Hm2 E.
      destruct (decide (m <= t)%nat) as [Hmt|Hmt]; [pose proof (byteOffset_mono m t)|pose proof (byteOffset_mono (S t) m)]; lia.
    + intros j Hj. specialize (Hstep j Hj). rewrite (proj2 (Z.eqb_neq _ _)), (proj2 (Z.ltb_ge _ _)) by lia. done.
    + assert (byteOffset (pos rs (S t)) <= byteOffset (pos rs n) + i_checkpointBytes i + 3) as Hroom'
        by (apply Hwin; [lia|right; by apply Z.ltb_ge]).
      rewrite (drop_S _ _ _ Hr). apply ends_ahead.
      * by eapply (Forall_lookup_1 rune_ok rs); [apply Hi|].
      * by rewrite (proj2 (Z.eqb_neq _ _)) by lia.
      * unfold UTFMax. lia.
      * by rewrite (proj2 (Z.ltb_lt _ _)) by lia.
Qed.
(** [RuneToByte]: the byte offset of a rune, one past the last included. *)
Definition rune_answer (offset : Z) (r : result Z) : Prop :=
  match r with
  | Ok b => 0 <= offset <= Z.of_nat (length rs) /\ b = byteOffset (pos rs (Z.to_nat offset))
  | Err e => e = coordinate_ErrInvalidOffset /\ ~ 0 <= offset <= Z.of_nat (length rs)
  end.

Lemma RuneToByte_answers offset k : answers ctx rs i (rune_answer offset) (RuneToByte (Some ctx) offset i k).
Proof.
  apply query_answers. clear k. intros k. pose proof (io_runeCount _ _ Hi) as Hcount. rewrite pos_runeOffset in Hcount by lia.
  rewrite Hcount. destruct ((offset <? 0) || (Z.of_nat (length rs) <? offset)) eqn:Hout; [apply answers_here; split; [done|lia]|].
  assert (exists t, offset = Z.of_nat t /\ (t <= length rs)%nat) as (t & -> & Ht) by (exists (Z.to_nat offset); lia). clear Hout.
  set (beyond := fun c => Z.of_nat t <? runeOffset c).
  assert (monotone beyond) as Hm by (apply monotone_after; unfold beyond, after; lia).
  destruct (nearest_window beyond Hm) as (n & Hn & -> & Hb & Hwin); [apply Z.ltb_ge; rewrite pos_0; unfold zeroCheckpoint; cbn [runeOffset]; lia|].
  cbv zeta. unfold beyond in Hb. apply Z.ltb_ge in Hb. rewrite pos_runeOffset in Hb |- * by done.
  destruct (Z.eqb_spec (Z.of_nat n) (Z.of_nat t)) as [E|Hne].
  { apply answers_here. split; [lia|]. by replace (Z.to_nat (Z.of_nat t)) with n by lia. }
  eapply answers_weaken; [|eapply (seek_spec rs ctx i n t _ _ _ (Ok (byteOffset (pos rs t)))); [done|lia| | |]].
  - intros r ->. split; [lia|]. by rewrite Nat2Z.id.
  - unfold UTFMax. enough (byteOffset (pos rs t) <= byteOffset (pos rs n) + i_checkpointBytes i + 3) by lia.
    apply Hwin; [lia|]. right. apply Z.ltb_ge. rewrite pos_runeOffset; lia.
  - intros j Hj. rewrite pos_runeOffset, (proj2 (Z.eqb_neq _ _)) by lia. done.
  - apply ends_stop. by rewrite pos_runeOffset, Z.eqb_refl by done.
Qed.

(** [PositionToByte]: the byte offset of the rune at a line and a column. *)
Definition position_answer (l c : Z) (r : result Z) : Prop :=
  match r with
  | Ok b => exists n, (n <= length rs)%nat /\ line (pos rs n) = l /\ column (pos rs n) = c /\ b = byteOffset (pos rs n)
  | Err e => e = coordinate_ErrInvalidPosition /\
    forall n, (n <= length rs)%nat -> ~ (line (pos rs n) = l /\ column (pos rs n) = c)
  end.

Definition at_position (l c : Z) (state : checkpoint) : bool := (line state =? l) && (column state =? c).

Definition halts (l c : Z) (state : checkpoint) : bool := at_position l c state || beyond_position l c state.

Lemma halts_mono l c n m : (n <= m <= length rs)%nat -> halts l c (pos rs n) = true -> halts l c (pos rs m) = true.
Proof.
  intros Hnm H. destruct (decide (n = m)) as [->|]; [done|].
  destruct (pos_after rs n m (io_runes _ _ Hi)) as (_ & _ & ?); [lia|]. unfold halts, at_position, beyond_position in *. lia.
Qed.

Lemma at_not_later l c n m : (n < m <= length rs)%nat -> beyond_position l c (pos rs n) = true -> at_position l c (pos rs m) = false.
Proof.
  intros Hnm. destruct (pos_after rs n m (io_runes _ _ Hi) Hnm) as (_ & _ & ?). unfold at_position, beyond_position. lia.
Qed.

Lemma position_absent l c e : (forall n, (n <= length rs)%nat -> at_position l c (pos rs n) = false) ->
  e = coordinate_ErrInvalidPosition -> position_answer l c (Err e).
Proof. intros H ->. split; [done|]. intros n Hn Hat. specialize (H n Hn). unfold at_position in H. lia. Qed.

(** The test of the loop, where the walk from the rune [n] ends and with what. *)
Definition position_stop (l c : Z) (state : checkpoint) : option (result Z) :=
  if at_position l c state then Some (Ok (byteOffset state))
  else if beyond_position l c state then Some (Err coordinate_ErrInvalidPosition) else None.

Lemma position_stop_None l c state : halts l c state = false -> position_stop l c state = None.
Proof. unfold position_stop. by intros [-> ->]%orb_false_iff. Qed.

Lemma position_target l c n : (n <= length rs)%nat -> halts l c (pos rs n) = false ->
  exists t r, (n <= t <= length rs)%nat /\ (forall j, (n <= j < t)%nat -> halts l c (pos rs j) = false) /\
    (forall room, ends (position_stop l c) (fun _ => None) coordinate_ErrInvalidPosition room (pos rs t) (drop t rs) r) /\ position_answer l c r.
Proof.
  intros Hn Hhn. assert (forall j m, (j <= m <= length rs)%nat -> halts l c (pos rs m) = false -> halts l c (pos rs j) = false) as Hback.
  { intros j m Hj Hm. destruct (halts l c (pos rs j)) eqn:E; [|done]. by rewrite (halts_mono l c j m) in Hm. }
  destruct (halts l c (pos rs (length rs))) eqn:Eend.
  - destruct (crossing (fun t => halts l c (pos rs t)) n (length rs)) as (t & Ht & Ht1 & Ht2); [lia|done|done|].
    exists (S t), (if at_position l c (pos rs (S t)) then Ok (byteOffset (pos rs (S t))) else Err coordinate_ErrInvalidPosition).
    split_and!; [lia|lia|intros j Hj; apply (Hback j t); [lia|done]| |].
    + intros room. apply ends_stop. unfold position_stop, halts in *. destruct (at_position l c (pos rs (S t))); [done|]. cbn [orb] in Ht2. by rewrite Ht2.
    + destruct (at_position l c (pos rs (S t))) eqn:E.
      * exists (S t). unfold at_position in E. split_and!; [lia..|done].
      * apply position_absent; [|done]. unfold halts in Ht2. rewrite E in Ht2. intros m Hm.
        destruct (decide (m <= t)%nat); [by destruct (orb_false_elim _ _ (Hback m t ltac:(lia) Ht1))|].
        destruct (decide (m = S t)) as [->|]; [done|]. apply (at_not_later l c (S t)); [lia|done].
  - exists (length rs), (Err coordinate_ErrInvalidPosition).
    split_and!; [lia|lia|intros j Hj; apply (Hback j (length rs)); [lia|done]| |].
    + intros room. rewrite drop_ge by done. apply ends_short. by apply position_stop_None.
    + apply position_absent; [|done]. intros m Hm. by destruct (orb_false_elim _ _ (Hback m (length rs) ltac:(lia) Eend)).
Qed.

Lemma PositionToByte_answers l c k : answers ctx rs i (position_answer l c) (PositionToByte (Some ctx) l c i k).
Proof.
  apply query_answers. clear k. intros k. pose proof (io_runes _ _ Hi) as Hrs. rewrite (io_lineCount _ _ Hi).
  destruct ((l <? 0) || (line (pos rs (length rs)) + 1 <=? l) || (c <? 0)) eqn:Hout.
  { apply answers_here, position_absent; [|done]. intros n Hn. destruct (sane_pos rs n Hrs) as (_ & ? & ?).
    pose proof (pos_line_mono rs n (length rs) Hrs). unfold at_position. lia. }
  assert (monotone (beyond_position l c)) as Hm by (apply monotone_after; unfold beyond_position, after; lia).
  destruct (nearest_window (beyond_position l c) Hm) as (n & Hn & -> & Hb & Hwin).
  { unfold beyond_position. rewrite pos_0. unfold zeroCheckpoint. cbn [line column]. lia. }
  cbv zeta. fold (at_position l c (pos rs n)). destruct (at_position l c (pos rs n)) eqn:Eat.
  { apply answers_here. exists n. unfold at_position in Eat. split_and!; [done|lia|lia|done]. }
  destruct (position_target l c n) as (t & r & Ht & Hq & He & HQ); [done|unfold halts; by rewrite Eat|].
  eapply answers_weaken; [|eapply (seek_spec rs ctx i n t (position_stop l c)); [done|lia| | |apply He]]; [by intros r' ->|..].
  - unfold UTFMax. enough (byteOffset (pos rs t) <= byteOffset (pos rs n) + i_checkpointBytes i + 3) by lia.
    apply Hwin; [lia|]. destruct (decide (t = n)); [by left|right]. by destruct (orb_false_elim _ _ (Hq (Nat.pred t) ltac:(lia))).
  - intros j Hj. split; [|done]. by apply position_stop_None, Hq.
Qed.
End Queries.

(** After [Close] the guard of every query refuses. *)
Definition refused {A} (ctx : Context) (o : Index * nat * result A) : Prop := o.2 = Err coordinate_ErrClosed \/ cancelled ctx o.2.

Lemma query_closed {A} ctx i k (body : Context -> nat -> Index * nat * result A) :
  refused ctx (query (Some ctx) (Close i).1 k body).
Proof.
  unfold query, cpoll, refused. destruct (ctx k) as [e|] eqn:E; [right; by exists k, e|].
  assert (i_closed (Close i).1 = true) as -> by (unfold Close; by destruct (i_closed i) eqn:Hc). by left.
Qed.

(** C31. The queries are exact. On an index of a UTF-8 text - whatever the spacing of
    its checkpoints and whatever its cache holds - [ByteToPosition] answers the
    rune, line and column of the rune that starts at the offset, and otherwise
    says that the offset is outside or not a rune boundary; [RuneToByte] answers
    for exactly the runes there are; [PositionToByte] and [LineStart] answer the
    offset of the rune at a line and column exactly when there is one. The only
    other errors are those of the context, and all a query changes is the cache,
    within its budget. A closed index answers nothing. *)
Theorem queries_exact rs i ctx :
  index_ok rs i ->
  (forall offset k, answers ctx rs i (byte_answer rs offset) (ByteToPosition (Some ctx) offset i k)) /\
  (forall offset k, answers ctx rs i (rune_answer rs offset) (RuneToByte (Some ctx) offset i k)) /\
  (forall l c k, answers ctx rs i (position_answer rs l c) (PositionToByte (Some ctx) l c i k)) /\
  (forall l k, answers ctx rs i (position_answer rs l 0) (LineStart (Some ctx) l i k)) /\
  (forall offset l c k, let closed := (Close i).1 in
     refused ctx (ByteToPosition (Some ctx) offset closed k) /\ refused ctx (RuneToByte (Some ctx) offset closed k) /\
     refused ctx (PositionToByte (Some ctx) l c closed k)).
Proof.
  intros H. split_and!; intros.
  - by apply ByteToPosition_answers.
  - by apply RuneToByte_answers.
  - by apply PositionToByte_answers.
  - by apply PositionToByte_answers.
  - split_and!; by apply query_closed.
Qed.

(** A line feed and a two-byte rune. *)
Definition ex_runes : list (list byte) := [[Byte.x61]; [newline]; [Byte.xc3; Byte.xa9]; [Byte.x62]].
Definition ex_index : Index :=
  mkIndex (bytes_NewReader (concat ex_runes)) None false 1 5 4 2 2 (map (pos ex_runes) [0%nat; 2%nat; 4%nat]) 0 0 0 5 None (Some []) 0 16 0 0.

Lemma ex_index_ok : index_ok ex_runes ex_index.
Proof.
  split; try done.
  - repeat (constructor; [done|]). constructor.
  - apply bytes_NewReader_ok.
  - exists [0%nat; 2%nat; 4%nat]. split; [done|]. split; [done|done|].
    intros [|[|k]] a b; cbn; intros Ha Hb; [..|done]; injection Ha as <-; injection Hb as <-; (split; [cbn; lia|]); vm_compute; done.
  - exists []. split; [done|]. split; try done. constructor.
Qed.

Lemma queries_exact_witness :
  answers (fun _ => None) ex_runes ex_index (byte_answer ex_runes 3) (ByteToPosition (Some (fun _ => None)) 3 ex_index 0) /\
  (ByteToPosition (Some (fun _ => None)) 3 ex_index 0).2 = Err coordinate_ErrNotRuneBoundary /\
  (ByteToPosition (Some (fun _ => None)) 4 ex_index 0).2 = Ok (mkPosition 4 3 1 1) /\
  answers (fun _ => None) ex_runes ex_index (position_answer ex_runes 1 1) (PositionToByte (Some (fun _ => None)) 1 1 ex_index 0) /\
  (PositionToByte (Some (fun _ => None)) 1 1 ex_index 0).2 = Ok 4.
Proof.
  destruct (queries_exact ex_runes ex_index (fun _ => None) ex_index_ok) as (Hb & _ & Hp & _).
  split; [apply Hb|]. split; [reflexivity|]. split; [reflexivity|]. split; [apply Hp|]. reflexivity.
Defined.
