(* ===== verification/IndexBuild.v ===== *)
(** * Building the coordinate index

    The scan of a text appends a checkpoint at the first rune that starts at or
    after every multiple of the block and refuses a text that is not UTF-8; an
    incremental rebuild keeps the checkpoints before the first edit, scans up to
    the stable suffix and translates the checkpoints behind it. *)

From Stdlib Require Import ZArith Lia List.
From stdpp Require Import base list numbers.
From S2P Require Import Prelude GoLib Utf8 ChangeMap Polling Index IndexQuery.
#[local] Open Scope Z_scope.

(** ** Checkpoints of a text read so far *)

(** The position behind the last rune. *)
Definition fin (rs : list (list byte)) : checkpoint := pos rs (length rs).

Lemma pos_app rs qs n : (n <= length rs)%nat -> pos (rs ++ qs) n = pos rs n.
Proof. intros H. unfold pos. by rewrite take_app_le. Qed.

Lemma fin_snoc rs r : fin (rs ++ [r]) = pass (fin rs) r.
Proof. unfold fin, pos. rewrite !take_ge by done. apply passes_app. Qed.

Lemma fin_byteOffset rs : byteOffset (fin rs) = zlen (concat rs).
Proof. unfold fin. by rewrite pos_byteOffset, take_ge. Qed.

Lemma pass_byteOffset c r : byteOffset (pass c r) = byteOffset c + zlen r.
Proof. unfold pass. by destruct (is_newline r). Qed.

(** The checkpoints [ns] of a text, the last at the rune [l] and near its end. *)
Record trail (rs : list (list byte)) (block : Z) (ns : list nat) (l : nat) : Prop := {
  tr_first : ns !! 0%nat = Some 0%nat;
  tr_last : ns !! Nat.pred (length ns) = Some l;
  tr_spaced : forall k a b, ns !! k = Some a -> ns !! S k = Some b -> spaced rs block a b;
  tr_bound : (l <= length rs)%nat;
  tr_near : byteOffset (fin rs) <= byteOffset (pos rs l) + block + 3 }.

Lemma spaced_app rs qs block a b : spaced rs block a b -> spaced (rs ++ qs) block a b.
Proof. intros [H1 H2]. unfold spaced. rewrite length_app, !pos_app by lia. split; [lia|done]. Qed.

Lemma trail_grow rs block ns l r : trail rs block ns l ->
  byteOffset (fin (rs ++ [r])) <= byteOffset (pos rs l) + block + 3 -> trail (rs ++ [r]) block ns l.
Proof.
  intros [H1 H2 H3 H4 H5] Hn. split; [done|done| | |].
  - intros k a b Ha Hb. by apply spaced_app, (H3 k).
  - rewrite length_app. lia.
  - by rewrite pos_app.
Qed.

Lemma trail_push rs block ns l : trail rs block ns l -> (l < length rs)%nat -> 0 <= block ->
  trail rs block (ns ++ [length rs]) (length rs).
Proof.
  intros [H1 H2 H3 H4 H5] Hl Hb. pose proof (lookup_lt_Some _ _ _ H1) as Hlen. split.
  - by rewrite lookup_app_l.
  - rewrite length_app, lookup_app_r by (cbn; lia). by replace (_ - _)%nat with 0%nat by (cbn; lia).
  - intros k a b Ha Hb'. destruct (decide (S k < length ns)%nat).
    + rewrite lookup_app_l in Ha, Hb' by lia. by apply (H3 k).
    + pose proof (lookup_lt_Some _ _ _ Hb') as Hk. rewrite length_app in Hk. cbn in Hk.
      replace k with (Nat.pred (length ns)) in * by lia. rewrite lookup_app_l in Ha by lia. rewrite H2 in Ha. injection Ha as <-.
      rewrite lookup_app_r in Hb' by lia. replace (_ - _)%nat with 0%nat in Hb' by lia. injection Hb' as <-. split; [lia|done].
  - done.
  - unfold fin. lia.
Qed.

Lemma trail_marks rs block ns : trail rs block ns (length rs) -> marks rs block ns.
Proof. intros [H1 H2 H3 _ _]. by split. Qed.

(** Checkpoints reused from another index of the same beginning. *)
Lemma marks_trail rs block ns k n : marks rs block ns -> 0 <= block -> ns !! k = Some n ->
  trail (take n rs) block (take (S k) ns) n.
Proof.
  intros H Hb Hk. pose proof (lookup_lt_Some _ _ _ Hk) as Hlen. pose proof (marks_bound _ _ _ _ _ H Hk) as Hn.
  assert (forall j, (j <= n)%nat -> pos (take n rs) j = pos rs j) as Hp.
  { intros j Hj. unfold pos. rewrite take_take. do 2 f_equal. lia. }
  split.
  - rewrite lookup_take_lt by lia. apply H.
  - rewrite length_take, lookup_take_lt by lia. by replace (Nat.pred _) with k by lia.
  - intros j a b Ha Hb'. apply lookup_take_Some in Ha as [Ha _]. apply lookup_take_Some in Hb' as [Hb' Hj].
    pose proof (marks_mono _ _ _ (S j) k b n H ltac:(lia) Hb' Hk). destruct (mk_spaced _ _ _ H _ _ _ Ha Hb') as [? ?].
    unfold spaced. rewrite length_take, !Hp by lia. split; [lia|done].
  - rewrite length_take. lia.
  - unfold fin. rewrite length_take. replace (n `min` length rs)%nat with n by lia. lia.
Qed.

(** ** The scan *)

Definition same_counts (c d : checkpoint) : Prop := runeOffset c = runeOffset d /\ line c = line d /\ column c = column d.

(** The state of a scan that has read the text [rs]. *)
Record scan_ok (rs : list (list byte)) (block : Z) (s : scan_state) : Prop := {
  so_runes : Forall rune_ok rs;
  so_counts : same_counts (sc_state s) (fin rs);
  so_trail : exists ns l, sc_checkpoints s = map (pos rs) ns /\ trail rs block ns l /\
    sc_next s <= byteOffset (pos rs l) + block /\ (byteOffset (pos rs l) < maxInt64 -> byteOffset (pos rs l) < sc_next s) }.

Lemma next_bounds offset block : 0 <= offset <= maxInt64 -> 0 < block <= MaximumCheckpointBytes ->
  nextCheckpointAfter offset block <= offset + block /\ (offset < maxInt64 -> offset < nextCheckpointAfter offset block).
Proof.
  unfold nextCheckpointAfter, MaximumCheckpointBytes, maxInt64. intros Ho Hb. unwrap64_goal.
  destruct (Z.ltb_spec (9223372036854775807 - block) offset); [lia|].
  pose proof (Z.div_mod offset block ltac:(lia)). pose proof (Z.mod_pos_bound offset block ltac:(lia)). nia.
Qed.

Lemma rune_size r : rune_ok r -> zlen r <= 4.
Proof. unfold rune_ok. destruct r as [|? [|? [|? [|? [|]]]]]; done. Qed.

Lemma checkpoint_eta c d : byteOffset c = byteOffset d -> same_counts c d -> c = d.
Proof. intros H (?&?&?). destruct c, d; cbn in *. by subst. Qed.

Lemma trail_le rs block ns l n : trail rs block ns l -> In n ns -> (n <= length rs)%nat.
Proof.
  intros [_ H2 H3 H4 _] Hn. apply list_elem_of_In, list_elem_of_lookup in Hn as [k Hk].
  enough (n <= l)%nat by lia. apply (spaced_mono rs block ns k (Nat.pred (length ns))); try done.
  apply lookup_lt_Some in Hk. lia.
Qed.

Lemma map_pos_app rs qs block ns l : trail rs block ns l -> map (pos (rs ++ qs)) ns = map (pos rs) ns.
Proof. intros H. apply map_ext_in. intros n Hn. apply pos_app. by eapply trail_le. Qed.

(** One rune of the scan. *)
Lemma scan_step rs block s r c : scan_ok rs block s -> 0 < block <= MaximumCheckpointBytes -> rune_ok r ->
  zlen (concat rs) + zlen r <= maxInt64 -> isNewline c = is_newline r ->
  let absolute := zlen (concat rs) in
  let '(state, checkpoints, next) :=
    if sc_next s <=? absolute then
      let state := mkCheckpoint absolute (runeOffset (sc_state s)) (line (sc_state s)) (column (sc_state s)) in
      (state, sc_checkpoints s ++ [state], nextCheckpointAfter absolute block)
    else (sc_state s, sc_checkpoints s, sc_next s) in
  scan_ok (rs ++ [r]) block
    (mkScan (mkCheckpoint (byteOffset state) (runeOffset state ⊞ 1) (if isNewline c then line state ⊞ 1 else line state)
       (if isNewline c then 0 else column state ⊞ 1)) checkpoints next []).
Proof.
  intros [Hrs Hc (ns & l & Hcps & Ht & Hn1 & Hn2)] Hblock Hr Hmax Hnl absolute. pose proof (rune_pos r Hr). pose proof (rune_size r Hr).
  pose proof (fin_byteOffset rs) as Hfin. pose proof (sane_pos rs (length rs) Hrs) as Hsane. fold (fin rs) in Hsane.
  assert (forall b, same_counts (mkCheckpoint b (runeOffset (sc_state s) ⊞ 1)
    (if isNewline c then line (sc_state s) ⊞ 1 else line (sc_state s)) (if isNewline c then 0 else column (sc_state s) ⊞ 1)) (fin (rs ++ [r]))) as Hcounts.
  { intros b. rewrite fin_snoc. unfold same_counts, pass, sane in *. destruct Hc as (-> & -> & ->). rewrite Hnl. unfold maxInt64 in *.
    destruct (is_newline r); cbn; unwrap64_goal; done. }
  assert (Forall rune_ok (rs ++ [r])) as Hrs' by (apply Forall_app; by split; [|constructor]).
  assert (byteOffset (fin (rs ++ [r])) = absolute + zlen r) as Hfin' by (by rewrite fin_snoc, pass_byteOffset, Hfin).
  pose proof (zlen_nonneg (concat rs)). destruct (Z.leb_spec (sc_next s) absolute) as [Hle|Hgt]; cbn [byteOffset runeOffset line column].
  - split; [done|apply Hcounts|].
    assert (mkCheckpoint absolute (runeOffset (sc_state s)) (line (sc_state s)) (column (sc_state s)) = pos rs (length rs)) as ->
      by (apply checkpoint_eta; [exact (eq_sym Hfin)|exact Hc]).
    assert (l < length rs)%nat as Hl.
    { pose proof (tr_bound _ _ _ _ Ht). destruct (decide (l = length rs)) as [->|]; [|lia]. fold (fin rs) in *. lia. }
    pose proof (trail_push _ _ _ _ Ht Hl ltac:(lia)) as Ht'.
    assert (trail (rs ++ [r]) block (ns ++ [length rs]) (length rs)) as Ht2 by (apply trail_grow; [done|fold (fin rs); lia]).
    exists (ns ++ [length rs]), (length rs). cbn [sc_checkpoints sc_next]. rewrite pos_app by lia. fold (fin rs). rewrite Hfin.
    split; [|split; [done|apply next_bounds; lia]].
    by rewrite (map_pos_app rs [r] _ _ _ Ht'), map_app, Hcps.
  - split; [done|apply Hcounts|]. exists ns, l. cbn [sc_checkpoints sc_next]. rewrite pos_app by apply Ht.
    split_and!; [by rewrite (map_pos_app rs [r] _ _ _ Ht)| |done|done]. apply trail_grow; [done|]. lia.
Qed.

Section Scan.
Context (ctx : Context) (block : Z) (Hblock : 0 < block <= MaximumCheckpointBytes).

(** Scanning a buffer behind the text [rs]: the runes in it are read, what is left
    pending is the beginning of one; or it holds an encoding nothing completes. *)
Definition scanned (rs : list (list byte)) (data : list byte) (r : result scan_state) : Prop :=
  match r with
  | Ok s => exists ms, data = concat ms ++ sc_pending s /\ scan_ok (rs ++ ms) block s /\ partial (sc_pending s)
  | Err e => e = coordinate_ErrInvalidUTF8 /\ forall q, utf8_Valid (data ++ q) = false
  end.

Lemma scanned_rune rs r q res : rune_ok r -> scanned (rs ++ [r]) q res -> scanned rs (r ++ q) res.
Proof.
  intros Hr. destruct res as [s|e]; cbn.
  - intros (ms & -> & Hs & Hp). exists (r :: ms). cbn [concat]. rewrite <-!app_assoc in *. split_and!; [done|exact Hs|done].
  - intros [-> H]. split; [done|]. intros q'. rewrite <-app_assoc, Valid_rune by done. apply H.
Qed.

Lemma scan_runes_spec fuel : forall data rs s,
  (length data <= fuel)%nat -> scan_ok rs block s -> sc_pending s = [] -> zlen (concat rs) + zlen data <= maxInt64 ->
  yields ctx (scan_runes ctx block fuel (zlen (concat rs)) data s) (scanned rs data).
Proof.
  assert (forall rs s, scan_ok rs block s -> sc_pending s = [] -> scanned rs [] (Ok s)) as Hdone.
  { intros rs s Hs Hp. exists []. cbn [concat app]. rewrite Hp, app_nil_r. split; [done|]. split; [exact Hs|by left]. }
  induction fuel as [|fuel IH]; intros data rs s Hf Hs Hp Hmax; cbn [scan_runes].
  { destruct data; [|cbn in Hf; lia]. by apply yields_ret, Hdone. }
  destruct (Z.eqb_spec (zlen data) 0) as [E|Hne]; [rewrite (zlen_zero data) by done; by apply yields_ret, Hdone|].
  apply yields_poll. assert (data <> []) as Hnil by (intros ->; done).
  destruct (front_spec data Hnil) as [r q c Hr Hfull Hdec Hc Hv|p Hfull Hdec Hi|p Hfull Hlen Hv].
  - rewrite Hfull. cbn [negb]. destruct (rune_decodes r q Hr) as (_ & c' & Hdec' & _ & Hn10). rewrite Hdec in Hdec'. injection Hdec' as <-.
    rewrite Hdec, Hc. rewrite zlen_app in Hmax. pose proof (zlen_nonneg q). pose proof (rune_pos r Hr) as Hlen.
    assert (isNewline c = is_newline r) as Hnl.
    { unfold isNewline, is_newline. destruct (bool_decide_reflect (r = [newline])); [apply Z.eqb_eq; by apply Hn10|].
      apply Z.eqb_neq. by intros ->%Hn10. }
    pose proof (scan_step rs block s r c Hs Hblock Hr ltac:(lia) Hnl) as Hstep. cbv zeta in Hstep |- *.
    destruct (if sc_next s <=? zlen (concat rs) then _ else _) as [[state cps] next]. rewrite zdrop_app by done.
    replace (zlen (concat rs) + zlen r) with (zlen (concat (rs ++ [r]))) by (rewrite concat_app, zlen_app; cbn [concat]; by rewrite app_nil_r).
    intros k. destruct (IH q (rs ++ [r]) _ ltac:(rewrite length_app in Hf; unfold zlen in Hlen; lia) Hstep eq_refl) with k as [Hy|Hy];
      [|left; by apply scanned_rune|by right].
    rewrite concat_app, zlen_app. cbn [concat]. rewrite app_nil_r. lia.
  - rewrite Hfull, Hdec. cbn. apply yields_fail. by split.
  - rewrite Hfull. cbn [negb]. apply yields_ret. exists []. cbn [concat app sc_pending]. rewrite app_nil_r.
    split; [done|]. split; [by destruct Hs; split|]. by right.
Qed.

(** The reads: up to [stop] of the text [doc]. *)
Context (source : ReaderAt) (doc : list byte) (Hsource : ReaderOk source doc) (Hmax : zlen doc <= maxInt64).

Definition read_text (stop : Z) (rs : list (list byte)) (r : result scan_state) : Prop :=
  match r with
  | Ok s => exists ms, ztake stop doc = concat (rs ++ ms) ++ sc_pending s /\ scan_ok (rs ++ ms) block s /\ partial (sc_pending s)
  | Err e => e = coordinate_ErrInvalidUTF8 /\ utf8_Valid doc = false
  end.

Lemma read_text_more stop rs ms r : read_text stop (rs ++ ms) r -> read_text stop rs r.
Proof. destruct r as [s|e]; [|done]. intros (qs & ? & ? & ?). exists (ms ++ qs). rewrite app_assoc. done. Qed.

Lemma scan_ok_Valid rs s : scan_ok rs block s -> utf8_Valid (concat rs) = true.
Proof. intros H. apply Valid_runes. exists rs. split; [apply H|done]. Qed.

Lemma scan_loop_spec stop fuel : forall offset rs s,
  0 <= offset <= stop -> stop <= zlen doc -> (Z.to_nat (stop - offset) < fuel)%nat ->
  scan_ok rs block s -> partial (sc_pending s) -> ztake offset doc = concat rs ++ sc_pending s ->
  yields ctx (scan_loop ctx block fuel source (zlen doc) stop offset s) (read_text stop rs).
Proof.
  induction fuel as [|fuel IH]; intros offset rs s Ho Hstop Hf Hs Hp Htext; [lia|]. cbn [scan_loop].
  destruct (Z.ltb_spec offset stop) as [Hlt|Hge]; cbn [negb].
  2:{ apply yields_ret. exists []. rewrite app_nil_r. replace stop with offset by lia. done. }
  apply yields_poll. cbv zeta. unfold buildReadBufferSize. set (want := Z.min 65536 (stop - offset)).
  destruct (reader_full offset want) as [Hgot Herr]; [lia..|].
  destruct (source offset want) as [got err]. cbn [fst snd] in *. subst got. rewrite (zlen_slice offset want doc), Z.ltb_irrefl by lia.
  assert (ztake (offset + want) doc = concat rs ++ sc_pending s ++ slice offset want doc) as Hnext.
  { rewrite app_assoc, <-Htext. unfold slice. rewrite <-(ztake_zdrop offset doc) at 1. rewrite ztake_app_r; rewrite zlen_ztake; [|lia].
    do 2 f_equal. lia. }
  pose proof (f_equal zlen Htext) as Hl. rewrite zlen_ztake, zlen_app in Hl by lia. pose proof (f_equal zlen Hnext) as Hl'.
  rewrite zlen_ztake, !zlen_app in Hl' by lia. pose proof (zlen_nonneg (sc_pending s)).
  replace (offset - zlen (sc_pending s)) with (zlen (concat rs)) by lia.
  eapply yields_bind; [apply (scan_runes_spec _ _ rs)|..].
  - done.
  - by destruct Hs; split.
  - done.
  - rewrite zlen_app. lia.
  - intros s' (ms & Hdata & Hs' & Hp').
    assert (yields ctx (scan_loop ctx block fuel source (zlen doc) stop (offset + want) s') (read_text stop rs)) as Hgo.
    { intros k. destruct (IH (offset + want) (rs ++ ms) s' ltac:(lia) Hstop ltac:(lia) Hs' Hp') with k as [Hy|Hy]; [|left|by right].
      - by rewrite Hnext, Hdata, concat_app, <-app_assoc.
      - by eapply read_text_more. }
    destruct Herr as [->|[-> Hend]].
    + rewrite (proj2 (Z.eqb_neq want 0)) by lia. exact Hgo.
    + cbn [errors_Is]. rewrite bool_decide_true, !(proj2 (Z.eqb_eq _ _)) by (done || lia). exact Hgo.
  - intros e [-> Hinv]. split; [done|].
    rewrite <-(ztake_zdrop (offset + want) doc), Hnext, <-app_assoc, Valid_app by (by eapply scan_ok_Valid). apply Hinv.
Qed.

(** [scanSegment] from the end of the text [rs] to [stop]. *)
Definition segment_answer (stop : Z) (rs : list (list byte)) (r : result (checkpoint * list checkpoint)) : Prop :=
  match r with
  | Ok (state, cps) => exists ms ns l, ztake stop doc = concat (rs ++ ms) /\ Forall rune_ok (rs ++ ms) /\ state = fin (rs ++ ms) /\
      cps = map (pos (rs ++ ms)) ns /\ trail (rs ++ ms) block ns l
  | Err e => (e = coordinate_ErrInvalidUTF8 /\ utf8_Valid doc = false) \/
      (e = coordinate_ErrSourceInconsistent /\ stop <> zlen doc /\ utf8_Valid (ztake stop doc) = false)
  end.

Lemma scanSegment_spec rs ns l stop : Forall rune_ok rs -> trail rs block ns l -> l = length rs ->
  zlen (concat rs) <= stop <= zlen doc -> ztake (zlen (concat rs)) doc = concat rs ->
  yields ctx (scanSegment ctx block source (zlen doc) (map (pos rs) ns) (fin rs) (zlen (concat rs)) stop) (segment_answer stop rs).
Proof.
  intros Hrs Ht -> Hstop Htext. pose proof (zlen_nonneg (concat rs)). unfold scanSegment.
  eapply yields_bind; [apply (scan_loop_spec stop _ _ rs)|..]; cbn [sc_pending]; try lia; [|by left|by rewrite app_nil_r|..].
  - split; [done|done|]. exists ns, (length rs). fold (fin rs). rewrite fin_byteOffset. split_and!; [done|done|apply next_bounds; lia..].
  - intros s (ms & Ht' & Hs & Hp). destruct (Z.eqb_spec (zlen (sc_pending s)) 0) as [E|Hne]; cbn [negb].
    + apply yields_poll, yields_ret. rewrite (zlen_zero _ E), app_nil_r in Ht'. destruct Hs as [Hr Hc (ns' & l' & Hcps & Htr & _)].
      exists ms, ns', l'. split_and!; [done|done| |done|done]. apply checkpoint_eta; [|exact Hc].
      rewrite fin_byteOffset, <-Ht', zlen_ztake; cbn; lia.
    + assert (utf8_Valid (ztake stop doc) = false) as Hinv.
      { rewrite Ht', Valid_app by (by eapply scan_ok_Valid). destruct Hp as [E|(_ & _ & ?)]; [by rewrite E in Hne|done]. }
      apply yields_fail. destruct (Z.eqb_spec stop (zlen doc)) as [->|Hn]; [left|by right].
      by rewrite ztake_all in Hinv by lia.
  - intros e H'. by left.
Qed.
End Scan.

(** ** The end of a scan *)

Lemma lastCheckpoint_trail rs block ns l : trail rs block ns l -> lastCheckpoint (map (pos rs) ns) = pos rs l /\
  exists ns0, ns = ns0 ++ [l].
Proof.
  intros [H1 H2 _ _ _]. destruct ns as [|n ns _] using rev_ind; [done|]. rewrite length_app, lookup_app_r in H2 by (cbn; lia).
  replace (_ - _)%nat with 0%nat in H2 by (cbn; lia). injection H2 as ->. unfold lastCheckpoint. rewrite map_app; cbn [map]; rewrite List.last_last. eauto.
Qed.

(** The same checkpoint again takes the place of the last, another goes behind it. *)
Lemma last_or_push rs block ns l : trail rs block ns l -> Forall rune_ok rs -> 0 <= block ->
  exists ns', (if negb (byteOffset (lastCheckpoint (map (pos rs) ns)) =? byteOffset (fin rs))
               then map (pos rs) ns ++ [fin rs] else replace_last (fin rs) (map (pos rs) ns)) = map (pos rs) ns' /\
    trail rs block ns' (length rs).
Proof.
  intros Ht Hrs Hb. destruct (lastCheckpoint_trail _ _ _ _ Ht) as [-> [ns0 ->]]. pose proof (tr_bound _ _ _ _ Ht) as Hl.
  destruct (Z.eqb_spec (byteOffset (pos rs l)) (byteOffset (fin rs))) as [E|Hne]; cbn [negb].
  - assert (l = length rs) as ->.
    { destruct (decide (l = length rs)); [done|]. unfold fin in E. pose proof (pos_after rs l (length rs) Hrs) as Ha. destruct Ha; lia. }
    exists (ns0 ++ [length rs]). split; [|done]. unfold replace_last. by rewrite !map_app; cbn [map]; rewrite removelast_last.
  - exists ((ns0 ++ [l]) ++ [length rs]). split; [by rewrite !map_app|]. apply (trail_push _ _ _ l); [done| |done].
    destruct (decide (l = length rs)) as [->|]; [done|lia].
Qed.

Lemma finishScan_spec rs block ns l : trail rs block ns l -> Forall rune_ok rs -> 0 <= block ->
  exists ns', finishScan (zlen (concat rs)) (fin rs) (map (pos rs) ns) = (fin rs, map (pos rs) ns') /\ marks rs block ns'.
Proof.
  intros Ht Hrs Hb. destruct (last_or_push _ _ _ _ Ht Hrs Hb) as (ns' & E & Ht'). exists ns'. split; [|by apply trail_marks].
  unfold finishScan. assert (mkCheckpoint (zlen (concat rs)) (runeOffset (fin rs)) (line (fin rs)) (column (fin rs)) = fin rs) as ->
    by (apply checkpoint_eta; [by rewrite fin_byteOffset|done]). by rewrite E.
Qed.

Lemma resolveOptions_spec options block cache : resolveOptions options = Ok (block, cache) ->
  0 < block <= MaximumCheckpointBytes /\ 0 <= cache.
Proof.
  unfold resolveOptions. destruct (_ && _); [done|]. destruct (_ || _) eqn:E; [done|]. intros [= <- <-].
  unfold DefaultCheckpointBytes in *. destruct (Z.eqb_spec (o_CheckpointBytes options) 0); lia.
Qed.

Lemma trail_zero block : 0 <= block -> trail [] block [0%nat] 0.
Proof. intros H. split; [done|done| |done|cbn; lia]. intros [|k] a b; cbn; [done|]. by destruct k. Qed.

Lemma fin_lines rs : Forall rune_ok rs -> zlen (concat rs) < maxInt64 -> line (fin rs) ⊞ 1 = line (fin rs) + 1.
Proof.
  intros Hrs Hm. destruct (sane_pos rs (length rs) Hrs) as (_ & Hl & _). fold (fin rs) in Hl. rewrite fin_byteOffset in Hl.
  unfold maxInt64 in *. by unwrap64_goal.
Qed.

(** A fresh index of the text [rs]. *)
Lemma fresh_index_ok rs i ns : Forall rune_ok rs -> zlen (concat rs) < maxInt64 -> ReaderOk (i_source i) (concat rs) ->
  marks rs (i_checkpointBytes i) ns -> 0 < i_checkpointBytes i <= MaximumCheckpointBytes -> 0 <= i_maxCacheBytes i ->
  i_closed i = false -> i_byteLength i = zlen (concat rs) -> i_runeCount i = runeOffset (fin rs) ->
  i_lineCount i = line (fin rs) ⊞ 1 -> i_checkpoints i = map (pos rs) ns -> i_cache i = Some [] -> i_cacheBytes i = 0 ->
  index_ok rs i.
Proof.
  intros Hrs Hm Hsrc Hns Hb Hc ? ? ? Hl ? Hcache Hbytes. rewrite (fin_lines rs Hrs Hm) in Hl.
  split; try done; [split; [done|lia]|by exists ns|]. exists []. rewrite Hcache, Hbytes. split; [done|]. split; [done|constructor|done|lia].
Qed.

(** What building an index of [doc] gives. *)
Definition build_answer (doc : list byte) (source : ReaderAt) (revision : Z) (options : Options) (release : option (option error))
  (r : result Index) : Prop :=
  match r with
  | Ok i => exists rs, doc = concat rs /\ index_ok rs i /\ i_source i = source /\ i_revision i = revision /\ i_release i = release /\
      i_lineage i = o_Lineage options /\ resolveOptions options = Ok (i_checkpointBytes i, i_maxCacheBytes i)
  | Err e => e = coordinate_ErrInvalidUTF8 /\ utf8_Valid doc = false
  end.

Lemma build_spec ctx source doc revision options release block cache :
  ReaderOk source doc -> zlen doc < maxInt64 -> resolveOptions options = Ok (block, cache) ->
  yields ctx (build (Some ctx) (Some (mkSource source (zlen doc))) revision options release)
    (build_answer doc source revision options release).
Proof.
  intros Hsrc Hm Hopt. unfold build. cbn [src_Len src_ReadAt]. pose proof (zlen_nonneg doc).
  rewrite (proj2 (Z.ltb_ge _ _)), Hopt by lia. destruct (resolveOptions_spec _ _ _ Hopt) as [Hblock Hcache].
  pose proof (scanSegment_spec ctx block Hblock source doc Hsrc ltac:(lia) [] [0%nat] 0 (zlen doc) (List.Forall_nil _)
    (trail_zero block ltac:(lia)) eq_refl (conj H (Z.le_refl _)) eq_refl) as Hscan.
  eapply yields_bind; [exact Hscan|..].
  - intros [state cps] (ms & ns & l & Htext & Hrs & -> & -> & Ht). cbn [app] in *. rewrite ztake_all in Htext by lia. subst doc.
    destruct (finishScan_spec ms block ns l Ht Hrs ltac:(lia)) as (ns' & -> & Hmk). apply yields_ret. exists ms.
    split_and!; try done. by eapply (fresh_index_ok _ _ ns').
  - intros e [?|(_ & ? & _)]; done.
Qed.

(** ** What an edit leaves alone *)

Lemma apply_edits_prefix {A} edits (changes : list (Edit * list A)) doc final k :
  realizes edits changes -> edits_ok edits (zlen doc) final -> k <= zlen doc -> Forall (fun e => k <= e_Start e) edits ->
  ztake k (apply_edits changes doc) = ztake k doc.
Proof.
  revert changes doc. induction edits as [|e es IH]; intros cs doc Hr Hok Hk Hs.
  { destruct Hr as [Hr _]. by destruct cs. }
  apply realizes_cons in Hr as (ins & cs' & -> & Hi & Hr). destruct Hok as [He Hok]. apply Forall_cons_iff in Hs as [Hke Hs].
  cbn [apply_edits]. pose proof (zlen_splice_ok e ins doc He Hi) as Hz. unfold edit_ok in He. rewrite IH; [|done|by rewrite Hz|pose proof (zlen_nonneg ins); lia|done].
  unfold splice. rewrite ztake_app_l by (rewrite zlen_ztake; lia). rewrite ztake_ztake. f_equal. lia.
Qed.

Lemma stable_prefix_spec m : map_ok m ->
  0 <= stable_prefix m <= cm_beforeLength m /\ Forall (fun e => stable_prefix m <= e_Start e) (cm_edits m).
Proof.
  intros [Hl He _ _].
  assert (forall es k, Forall (fun e => 0 <= e_Start e) es -> 0 <= k ->
    let f := fold_left (fun stable edit => if e_Start edit <? stable then e_Start edit else stable) es k in
    0 <= f <= k /\ Forall (fun e => f <= e_Start e) es) as Hfold.
  { induction es as [|e es IH]; intros k Hes Hk; cbn [fold_left]; [by split; [lia|constructor]|].
    apply Forall_cons_iff in Hes as [He0 Hes]. cbv zeta.
    destruct (IH (if e_Start e <? k then e_Start e else k) Hes) as [H1 H2]; [destruct (_ <? _); lia|].
    destruct (Z.ltb_spec (e_Start e) k); (split; [lia|]; constructor; [lia|done]). }
  apply Hfold; [|lia]. clear -He. generalize dependent (cm_beforeLength m). induction (cm_edits m) as [|e es IH]; intros n H; [constructor|].
  destruct H as [He H]. unfold edit_ok in He. constructor; [lia|by eapply IH].
Qed.

(** The stable suffix of an edited text starts behind the stable prefix. *)
Lemma suffix_loop_start k edits : forall oldStart currentStart cur final r,
  edits_ok edits cur final -> 0 <= cur <= maxInt64 -> 0 <= currentStart <= cur -> Forall (fun e => k <= e_Start e) edits ->
  edits <> [] \/ k <= currentStart -> suffix_loop edits oldStart currentStart cur = Some r -> k <= r.1.2.
Proof.
  induction edits as [|e es IH]; intros os cs cur final r Hok Hcur Hcs Hs Hk Hr.
  { cbn in Hr. injection Hr as <-. cbn. by destruct Hk. }
  destruct Hok as [He Hok]. apply Forall_cons_iff in Hs as [Hke Hs]. unfold edit_ok in He. cbn [suffix_loop] in Hr.
  rewrite (i64_id (cur - e_Start e)), (i64_id (e_Start e + e_OldLength e)), (i64_id (cur - e_OldLength e)) in Hr by go_lia.
  rewrite (i64_id (maxInt64 - (cur - e_OldLength e))) in Hr by go_lia.
  destruct (_ || _); [done|].
  destruct (Z.leb_spec (e_Start e + e_OldLength e) cs).
  - rewrite (i64_id (e_NewLength e - e_OldLength e)), (i64_id (cs + (e_NewLength e - e_OldLength e))) in Hr by go_lia.
    destruct (_ <? _); [done|]. rewrite (i64_id (cur - e_OldLength e + e_NewLength e)) in Hr by go_lia.
    refine (IH _ _ _ _ _ Hok _ _ Hs _ Hr); [lia|lia|right; lia].
  - rewrite (i64_id (e_Start e + e_NewLength e)) in Hr by go_lia.
    destruct (_ <? _); [done|]. rewrite (i64_id (cur - e_OldLength e + e_NewLength e)) in Hr by go_lia.
    refine (IH _ _ _ _ _ Hok _ _ Hs _ Hr); [lia|lia|right; lia].
Qed.

Lemma stableSuffix_start m os cs : map_ok m -> cm_edits m <> [] -> stableSuffix m = Some (os, cs) -> stable_prefix m <= cs.
Proof.
  intros Hm Hne Hs. pose proof (stable_prefix_spec m Hm) as [_ Hst]. destruct Hm as [Hl He _ _]. unfold stableSuffix in Hs.
  destruct (suffix_loop _ _ _ _) as [[[o c] l]|] eqn:E; [|done]. destruct (_ || _); [done|]. injection Hs as <- <-.
  apply (suffix_loop_start (stable_prefix m) _ _ _ _ _ _ He) in E; [done|lia|lia|done|by left].
Qed.

(** ** The plan of a rebuild *)

(** Checkpoints of a text from the rune [n] to its end. *)
Record suffix_marks (rs : list (list byte)) (block : Z) (n : nat) (ns : list nat) : Prop := {
  sm_first : ns !! 0%nat = Some n;
  sm_last : ns !! Nat.pred (length ns) = Some (length rs);
  sm_spaced : forall k a b, ns !! k = Some a -> ns !! S k = Some b -> spaced rs block a b }.

Lemma marks_rune rs block n ns : suffix_marks rs block n ns -> (n <= length rs)%nat.
Proof. intros [H1 H2 H3]. by apply (spaced_mono rs block ns 0 (Nat.pred (length ns))); [|lia|..]. Qed.

Lemma marks_drop rs block ns k n : marks rs block ns -> ns !! k = Some n -> suffix_marks rs block n (drop k ns).
Proof.
  intros [H1 H2 H3] Hk. pose proof (lookup_lt_Some _ _ _ Hk). split.
  - rewrite lookup_drop. by rewrite Nat.add_0_r.
  - rewrite length_drop, lookup_drop. by replace (k + Nat.pred (length ns - k))%nat with (Nat.pred (length ns)) by lia.
  - intros j a b. rewrite !lookup_drop. replace (k + S j)%nat with (S (k + j)) by lia. apply H3.
Qed.

(** A plan for the text [doc]: the prefix and the suffix come from the index [i] of
    [rs], and the text is unchanged before the one and from the other on. *)
Record plan_ok (rs : list (list byte)) (i : Index) (doc : list byte) (pl : incrementalPlan) : Prop := {
  pk_block : pl_checkpointBytes pl = i_checkpointBytes i;
  pk_cache : pl_cacheBytes pl = i_maxCacheBytes i;
  pk_lineage : pl_lineage pl = i_lineage i;
  pk_prefix : exists ns n, (n <= length rs)%nat /\ pl_prefix pl = map (pos (take n rs)) ns /\
    trail (take n rs) (i_checkpointBytes i) ns n /\ pl_scanStart pl = zlen (concat (take n rs)) /\
    ztake (pl_scanStart pl) doc = concat (take n rs);
  pk_range : pl_scanStart pl <= pl_scanEnd pl <= zlen doc;
  pk_suffix : (pl_suffix pl = [] /\ pl_scanEnd pl = zlen doc) \/
    exists n ns, pl_suffix pl = map (pos rs) ns /\ suffix_marks rs (i_checkpointBytes i) n ns /\
      zdrop (pl_scanEnd pl) doc = concat (drop n rs) }.

Lemma concat_ztake rs n : ztake (byteOffset (pos rs n)) (concat rs) = concat (take n rs).
Proof. rewrite pos_byteOffset. rewrite <-(take_drop n rs) at 2. rewrite concat_app. by apply ztake_app. Qed.
Lemma concat_zdrop rs n : zdrop (byteOffset (pos rs n)) (concat rs) = concat (drop n rs).
Proof. rewrite pos_byteOffset. rewrite <-(take_drop n rs) at 2. rewrite concat_app. by apply zdrop_app. Qed.

Section Seed.
Context (rs : list (list byte)) (i : Index) (Hi : index_ok rs i) (m : ChangeMap) (Hm : map_ok m)
  (changes : list (Edit * list byte)) (Hch : realizes (cm_edits m) changes)
  (Hrev : i_revision i = cm_beforeRevision m) (Hlen : cm_beforeLength m = zlen (concat rs)).
Let doc := apply_edits changes (concat rs).

Lemma after_length : cm_afterLength m = zlen doc.
Proof. symmetry. apply (zlen_apply_edits (cm_edits m)); [done|]. rewrite <-Hlen. apply Hm. Qed.

(** The intermediate sum may wrap, the difference does not. *)
Lemma i64_sum_diff a b c : in_i64 (a + b - c) -> i64 (i64 (a + b) - c) = a + b - c.
Proof.
  unfold in_i64, minInt64, maxInt64, i64, two64. intros H. set (z := a + b).
  pose proof (Z.div_mod (z + 9223372036854775808) 18446744073709551616 ltac:(lia)) as Hd.
  pose proof (Z.mod_pos_bound (z + 9223372036854775808) 18446744073709551616 ltac:(lia)).
  replace ((z + 9223372036854775808) mod 18446744073709551616 - 9223372036854775808 - c + 9223372036854775808)
    with ((z - c + 9223372036854775808) + - ((z + 9223372036854775808) / 18446744073709551616) * 18446744073709551616) by lia.
  rewrite Z.mod_add, Z.mod_small by lia. lia.
Qed.

Lemma stable_room : stable_prefix m <= zlen doc /\ ztake (stable_prefix m) doc = ztake (stable_prefix m) (concat rs).
Proof.
  destruct (stable_prefix_spec m Hm) as [Hs Hst]. assert (edits_ok (cm_edits m) (zlen (concat rs)) (cm_afterLength m)) as Hok by (rewrite <-Hlen; apply Hm).
  pose proof (apply_edits_prefix _ _ _ _ (stable_prefix m) Hch Hok ltac:(lia) Hst) as E. fold doc in E.
  split; [|exact E]. apply (f_equal zlen) in E. rewrite !zlen_ztake in E. lia.
Qed.

(** The prefix of the plan: the checkpoints up to the stable prefix. *)
Lemma seed_prefix ns : i_checkpoints i = map (pos rs) ns -> marks rs (i_checkpointBytes i) ns ->
  let last := sort_Search (zlen (i_checkpoints i)) (fun index => stable_prefix m <? byteOffset (at_index (i_checkpoints i) index)) - 1 in
  exists n, ns !! Z.to_nat last = Some n /\ 0 <= last /\ ztake (last + 1) (i_checkpoints i) = map (pos rs) (take (S (Z.to_nat last)) ns) /\
    lastCheckpoint (ztake (last + 1) (i_checkpoints i)) = pos rs n /\ (n <= length rs)%nat /\
    byteOffset (pos rs n) <= stable_prefix m /\
    (stable_prefix m = zlen (concat rs) -> zdrop (last + 1) (i_checkpoints i) = [] /\ n = length rs).
Proof.
  intros Hcps Hmk. rewrite Hcps. destruct (stable_prefix_spec m Hm) as [Hsp _].
  destruct (search_spec rs _ ns (fun c => stable_prefix m <? byteOffset c) Hmk) as [Hr Hsplit].
  { intros a b Hab. pose proof (byteOffset_mono rs i Hi a b Hab). lia. }
  set (r := sort_Search _ _) in *. cbv zeta. pose proof (mk_first _ _ _ Hmk) as Hf. pose proof (mk_last _ _ _ Hmk) as Hl.
  assert (0 < r) as Hr0.
  { pose proof (Hsplit _ _ Hf) as H0. cbn [byteOffset zeroCheckpoint] in H0. rewrite pos_0 in H0. unfold zeroCheckpoint in H0. cbn [byteOffset] in H0.
    destruct (Z.ltb_spec (Z.of_nat 0) r); lia. }
  destruct (lookup_lt_is_Some_2 ns (Z.to_nat (r - 1))) as [n Hn]; [lia|]. exists n.
  assert (ztake (r - 1 + 1) (map (pos rs) ns) = map (pos rs) (take (S (Z.to_nat (r - 1))) ns)) as Ht.
  { unfold ztake. rewrite <-firstn_map. f_equal. lia. }
  rewrite Ht. split_and!; [done|lia|done| |by eapply marks_bound| |].
  - rewrite (take_S_r _ _ _ Hn), map_app. unfold lastCheckpoint. cbn [map]. by rewrite List.last_last.
  - specialize (Hsplit _ _ Hn). destruct (Z.ltb_spec (Z.of_nat (Z.to_nat (r - 1))) r); lia.
  - intros E. assert (r = Z.of_nat (length ns)) as ->.
    { specialize (Hsplit _ _ Hl). fold (fin rs) in Hsplit. rewrite fin_byteOffset in Hsplit.
      destruct (Z.ltb_spec (Z.of_nat (Nat.pred (length ns))) r); lia. }
    split; [apply zdrop_all; rewrite zlen_map; unfold zlen; lia|].
    replace (Nat.pred (length ns)) with (Z.to_nat (Z.of_nat (length ns) - 1)) in Hl by lia. congruence.
Qed.

(** The suffix of the plan: the checkpoints from the stable suffix on. *)
Lemma seed_suffix ns os cs : marks rs (i_checkpointBytes i) ns -> cm_edits m <> [] -> stableSuffix m = Some (os, cs) ->
  let cps := map (pos rs) ns in
  let suffixIndex := sort_Search (zlen cps) (fun index => os <=? byteOffset (at_index cps index)) in
  suffixIndex < zlen cps - 1 ->
  let oldSeam := byteOffset (at_index cps suffixIndex) in
  stable_prefix m <= cs ⊞ oldSeam ⊟ os <= zlen doc /\
  exists n ns', zdrop suffixIndex cps = map (pos rs) ns' /\ suffix_marks rs (i_checkpointBytes i) n ns' /\
    zdrop (cs ⊞ oldSeam ⊟ os) doc = concat (drop n rs).
Proof.
  intros Hmk Hne Hs cps j Hj oldSeam. pose proof (stableSuffix_start m os cs Hm Hne Hs) as Hstart.
  destruct (stableSuffix_spec m Hm) as (os' & cs' & Hs' & Ho & Hc & Heq & Hdrop). rewrite Hs in Hs'. injection Hs' as <- <-.
  specialize (Hdrop _ (concat rs) changes (eq_sym Hlen) Hch). fold doc in Hdrop. rewrite Hlen, after_length in *.
  destruct (search_spec rs _ ns (fun c => os <=? byteOffset c) Hmk) as [Hr Hsplit].
  { intros a b Hab. pose proof (byteOffset_mono rs i Hi a b Hab). lia. }
  fold cps in Hr, Hsplit. fold j in Hr, Hsplit. unfold cps in Hj. rewrite zlen_map in Hj. unfold zlen in Hj.
  destruct (lookup_lt_is_Some_2 ns (Z.to_nat j)) as [n Hn]; [lia|].
  assert (oldSeam = byteOffset (pos rs n)) as Hseam.
  { unfold oldSeam, cps. rewrite <-(at_index_map rs ns _ _ Hn). do 2 f_equal. lia. }
  assert (os <= oldSeam) as Hos.
  { specialize (Hsplit _ _ Hn). rewrite Hseam. destruct (Z.ltb_spec (Z.of_nat (Z.to_nat j)) j); lia. }
  assert (oldSeam <= zlen (concat rs)) as Hle.
  { rewrite Hseam, <-(fin_byteOffset rs). apply (byteOffset_mono rs i Hi). split; [by eapply marks_bound|done]. }
  assert (zlen doc <= maxInt64) as Hmax.
  { rewrite <-after_length. destruct Hm as [Hl He _ _]. pose proof (edits_ok_final _ _ _ He Hl). lia. }
  rewrite i64_sum_diff by (unfold in_i64, minInt64; lia). split; [lia|].
  exists n, (drop (Z.to_nat j) ns). split; [unfold cps, zdrop; by rewrite skipn_map|]. split; [by apply marks_drop|].
  replace (cs + oldSeam - os) with (cs + (oldSeam - os)) by lia. rewrite <-zdrop_zdrop, <-Hdrop, zdrop_zdrop by lia.
  replace (os + (oldSeam - os)) with oldSeam by lia. by rewrite Hseam, concat_zdrop.
Qed.

Lemma incrementalSeed_spec : exists pl, incrementalSeed i m (zlen doc) = Ok pl /\ plan_ok rs i doc pl.
Proof.
  destruct (io_marks _ _ Hi) as (ns & Hcps & Hmk). pose proof (io_block _ _ Hi) as Hblock.
  destruct (seed_prefix ns Hcps Hmk) as (n & Hn & Hlast & Hpre & Hlc & Hnl & Hnb & Hall). destruct stable_room as [Hroom Hsame].
  destruct (stable_prefix_spec m Hm) as [Hsp _]. pose proof (mk_first _ _ _ Hmk) as Hfirst. pose proof (lookup_lt_Some _ _ _ Hfirst) as Hns.
  unfold incrementalSeed. rewrite (io_open _ _ Hi), Hrev, Z.eqb_refl, (proj1 (io_length _ _ Hi)), Hlen, after_length, !Z.eqb_refl. cbn [negb orb].
  rewrite (proj2 (Z.leb_gt (i_checkpointBytes i) 0)), (proj2 (Z.ltb_ge MaximumCheckpointBytes _)) by lia.
  rewrite (proj2 (Z.eqb_neq (zlen (i_checkpoints i)) 0)) by (rewrite Hcps, zlen_map; unfold zlen; lia).
  rewrite bool_decide_true by (rewrite Hcps; apply (at_index_map rs ns 0 0 Hfirst)). cbn [negb orb]. cbv zeta in Hpre, Hlc, Hall, Hlast, Hn |- *.
  set (last := sort_Search _ _ - 1) in *. rewrite (proj2 (Z.ltb_ge last 0)), Hlc by done.
  assert (0 <= byteOffset (pos rs n)) as H0 by (destruct (sane_pos rs n (io_runes _ _ Hi)); lia).
  rewrite (proj2 (Z.ltb_ge (byteOffset (pos rs n)) 0)), (proj2 (Z.ltb_ge (stable_prefix m) _)), (proj2 (Z.ltb_ge (zlen doc) _)) by lia. cbn [orb].
  assert (forall stop suffix, byteOffset (pos rs n) <= stop <= zlen doc ->
    (suffix = [] /\ stop = zlen doc \/ exists n' ns', suffix = map (pos rs) ns' /\ suffix_marks rs (i_checkpointBytes i) n' ns' /\
       zdrop stop doc = concat (drop n' rs)) ->
    plan_ok rs i doc (mkPlan (i_checkpointBytes i) (i_maxCacheBytes i) (byteOffset (pos rs n)) stop (ztake (last + 1) (i_checkpoints i)) suffix
      (zlen (ztake (last + 1) (i_checkpoints i))) (i_lineage i))) as Hplan.
  { intros stop suffix Hstop Hsuf. split; cbn; try done. exists (take (S (Z.to_nat last)) ns), n. split; [done|].
    pose proof (marks_trail rs (i_checkpointBytes i) ns (Z.to_nat last) n Hmk ltac:(lia) Hn) as Htr.
    split_and!; [|exact Htr|by rewrite pos_byteOffset|].
    - rewrite Hpre. rewrite <-(take_drop n rs) at 1. exact (map_pos_app _ _ _ _ _ Htr).
    - rewrite <-(concat_ztake rs n). rewrite <-(Z.min_l (byteOffset (pos rs n)) (stable_prefix m)) by done.
      by rewrite <-!ztake_ztake, Hsame. }
  destruct (Z.eqb_spec (zlen (cm_edits m)) 0) as [Hz|Hz].
  - apply zlen_zero in Hz. eexists. split; [done|]. assert (doc = concat rs) as Hdoc.
    { unfold doc. destruct Hch as [Hf _]. rewrite Hz in Hf. by destruct changes. }
    destruct Hall as [Hd ->]; [unfold stable_prefix; rewrite Hz; exact Hlen|]. fold (fin rs) in *. rewrite Hd. rewrite fin_byteOffset in *.
    apply Hplan; [rewrite Hdoc; lia|]. left. by rewrite Hdoc.
  - assert (cm_edits m <> []) as Hne by (by intros E; rewrite E in Hz).
    destruct (stableSuffix_spec m Hm) as (os & cs & Hs & _). rewrite Hs. rewrite Hcps.
    destruct (Z.leb_spec (zlen (map (pos rs) ns) - 1) (sort_Search (zlen (map (pos rs) ns))
      (fun index => os <=? byteOffset (at_index (map (pos rs) ns) index)))) as [Hsi|Hsi]; rewrite <-Hcps.
    + eexists. split; [done|]. apply Hplan; [lia|]. by left.
    + destruct (seed_suffix ns os cs Hmk Hne Hs Hsi) as [Hb Hsuf]. rewrite <-Hcps in Hb, Hsuf.
      eexists. split; [done|]. apply Hplan; [lia|]. right. destruct Hsuf as (n' & ns' & ? & ? & ?). by exists n', ns'.
Qed.
End Seed.

(** ** Translating the suffix *)

Lemma sane_line c ms : Forall rune_ok ms -> line c <= line (passes c ms).
Proof.
  revert c. induction ms as [|r ms IH]; intros c H; [done|]. apply Forall_cons_iff in H as [_ H].
  change (line c <= line (passes (pass c r) ms)). specialize (IH (pass c r) H).
  assert (line c <= line (pass c r)) by (unfold pass; destruct (is_newline r); cbn; lia). lia.
Qed.

(** Two walks over the same runes keep step. *)
Lemma passes_parallel c d ms : Forall rune_ok ms ->
  runeOffset (passes c ms) - runeOffset c = runeOffset (passes d ms) - runeOffset d /\
  line (passes c ms) - line c = line (passes d ms) - line d /\
  (if line (passes d ms) =? line d then column (passes c ms) - column c = column (passes d ms) - column d
   else column (passes c ms) = column (passes d ms)).
Proof.
  induction ms as [|r ms IH] using rev_ind; intros H; [cbn; rewrite Z.eqb_refl; lia|].
  apply Forall_app in H as [H _]. destruct (IH H) as (H1 & H2 & H3). pose proof (sane_line d ms H).
  rewrite !passes_app. change (passes (passes c ms) [r]) with (pass (passes c ms) r). change (passes (passes d ms) [r]) with (pass (passes d ms) r).
  unfold pass. destruct (is_newline r); cbn; (split; [lia|]); (split; [lia|]).
  - by rewrite (proj2 (Z.eqb_neq _ _)) by lia.
  - destruct (Z.eqb_spec (line (passes d ms)) (line d)); lia.
Qed.

Lemma translate_passes c d ms : Forall rune_ok ms -> sane c -> 0 <= byteOffset c -> byteOffset c + zlen (concat ms) <= maxInt64 ->
  translate c d (passes d ms) = passes c ms.
Proof.
  intros Hms Hc H0 Hm. destruct (passes_parallel c d ms Hms) as (H1 & H2 & H3). pose proof (sane_passes c ms Hc Hms) as (S1 & S2 & S3).
  pose proof (passes_byteOffset c ms) as Bc. pose proof (passes_byteOffset d ms) as Bd. pose proof (zlen_nonneg (concat ms)). unfold translate.
  assert (forall x y z v, x + y - z = v -> 0 <= v <= byteOffset (passes c ms) -> x ⊞ y ⊟ z = v) as Hw.
  { intros x y z v <- Hv. apply i64_sum_diff. unfold in_i64, minInt64. lia. }
  rewrite (Hw _ _ _ (byteOffset (passes c ms))), (Hw _ _ _ (runeOffset (passes c ms))), (Hw _ _ _ (line (passes c ms))) by lia.
  destruct (line (passes d ms) =? line d); [rewrite (Hw _ _ _ (column (passes c ms))) by lia|rewrite <-H3]; by destruct (passes c ms).
Qed.

Definition linked {A} (R : A -> A -> Prop) (l : list A) : Prop := forall k a b, l !! k = Some a -> l !! S k = Some b -> R a b.

Lemma linked_join {A} (R : A -> A -> Prop) l x k : linked R (l ++ [x]) -> linked R (x :: k) -> linked R (l ++ x :: k).
Proof.
  intros H1 H2 j a b Ha Hb. destruct (decide (S j <= length l)%nat) as [Hle|Hgt].
  - apply (H1 j).
    + rewrite lookup_app_l in Ha |- * by lia. done.
    + destruct (decide (S j = length l)) as [E|].
      * rewrite E, lookup_app_r, Nat.sub_diag in Hb |- * by lia. done.
      * rewrite lookup_app_l in Hb |- * by lia. done.
  - rewrite lookup_app_r in Ha, Hb by lia. replace (S j - length l)%nat with (S (j - length l)) in Hb by lia. by apply (H2 (j - length l)%nat).
Qed.

Section Suffix.
Context (rs : list (list byte)) (block : Z) (rs1 : list (list byte)) (n : nat).
Hypothesis Hn : (n <= length rs)%nat.
Hypothesis Hrs : Forall rune_ok rs.
Hypothesis Hrs1 : Forall rune_ok rs1.
Let rs' := rs1 ++ drop n rs.
Hypothesis Hmax : zlen (concat rs') <= maxInt64.

(** A rune behind the seam of the old text, in the new one. *)
Definition shift (a : nat) : nat := (length rs1 + (a - n))%nat.

Lemma shift_pos a : (n <= a <= length rs)%nat -> translate (fin rs1) (pos rs n) (pos rs a) = pos rs' (shift a).
Proof.
  intros Ha. assert (pos rs a = passes (pos rs n) (take (a - n) (drop n rs))) as ->.
  { rewrite <-pos_add. f_equal. lia. }
  assert (pos rs' (shift a) = passes (fin rs1) (take (a - n) (drop n rs))) as ->.
  { unfold shift. rewrite pos_add. unfold rs'. rewrite pos_app by done. f_equal. by rewrite drop_app_length. }
  pose proof (fin_byteOffset rs1). pose proof (zlen_nonneg (concat rs1)). apply translate_passes.
  - by apply Forall_take, Forall_drop.
  - by apply sane_pos.
  - lia.
  - unfold rs' in Hmax. rewrite concat_app, zlen_app in Hmax. rewrite <-(take_drop (a - n) (drop n rs)), concat_app, zlen_app in Hmax.
    pose proof (zlen_nonneg (concat (drop (a - n) (drop n rs)))). lia.
Qed.

Lemma shift_byteOffset a : (n <= a <= length rs)%nat ->
  byteOffset (pos rs' (shift a)) - byteOffset (fin rs1) = byteOffset (pos rs a) - byteOffset (pos rs n).
Proof.
  intros Ha. unfold shift. rewrite pos_add. unfold rs'. rewrite pos_app, drop_app_length, passes_byteOffset by done.
  replace a with (n + (a - n))%nat at 2 by lia. rewrite pos_add, passes_byteOffset. unfold fin. lia.
Qed.

Lemma shift_spaced a b : (n <= a)%nat -> spaced rs block a b -> spaced rs' block (shift a) (shift b).
Proof.
  intros Ha [Hab Hsp]. pose proof (shift_byteOffset a ltac:(lia)). pose proof (shift_byteOffset b ltac:(lia)). unfold spaced.
  unfold rs' at 1. rewrite length_app, length_drop. unfold shift at 1 2 3. split; lia.
Qed.

(** Behind the first one every translated checkpoint is new. *)
Lemma append_rest ms : forall a cps latest reused,
  (n <= a <= length rs)%nat -> linked (spaced rs block) (a :: ms) -> lastCheckpoint cps = pos rs' (shift a) ->
  append_suffix (fin rs1) (pos rs n) false (map (pos rs) ms) cps latest reused =
  (cps ++ map (fun b => pos rs' (shift b)) ms, List.last (map (fun b => pos rs' (shift b)) ms) latest, reused).
Proof.
  induction ms as [|b ms IH]; intros a cps latest reused Ha Hl Hlast; cbn [map append_suffix]; [by rewrite app_nil_r|].
  pose proof (Hl 0%nat a b eq_refl eq_refl) as [Hab _]. rewrite shift_pos by lia. rewrite Hlast.
  rewrite (proj2 (Z.eqb_neq _ _)).
  2:{ pose proof (shift_byteOffset a Ha). pose proof (shift_byteOffset b ltac:(lia)). destruct (pos_after rs a b Hrs Hab) as [? _]. lia. }
  rewrite (IH b); [|lia|intros k x y Hx Hy; by apply (Hl (S k) x y)|unfold lastCheckpoint; by rewrite List.last_last].
  rewrite <-app_assoc. cbn [app]. do 2 f_equal. symmetry.
  destruct ms as [|c ms _] using rev_ind; [done|]. rewrite map_app, app_comm_cons. cbn [map]. by rewrite !List.last_last.
Qed.

Lemma shift_n : shift n = length rs1.
Proof. unfold shift. lia. Qed.

Lemma shift_seam : pos rs' (shift n) = fin rs1.
Proof. unfold shift. rewrite Nat.sub_diag, Nat.add_0_r. unfold rs'. rewrite pos_app by lia. done. Qed.

Lemma shift_end : pos rs' (shift (length rs)) = fin rs'.
Proof. unfold fin, rs', shift. by rewrite length_app, length_drop. Qed.

Lemma last_cons_lookup {A B} (f : A -> B) (x y : A) l : (x :: l) !! Nat.pred (length (x :: l)) = Some y -> List.last (map f l) (f x) = f y.
Proof.
  destruct l as [|z l _] using rev_ind; [by intros [= ->]|]. cbn [length Nat.pred]. rewrite length_app. cbn [length].
  rewrite Nat.add_1_r. change ((l ++ [z]) !! length l = Some y -> List.last (map f (l ++ [z])) (f x) = f y). rewrite lookup_app_r, Nat.sub_diag by lia. intros [= ->].
  rewrite map_app. cbn [map]. by rewrite List.last_last.
Qed.

(** The kept checkpoints and the translated ones are those of the new text. *)
Lemma shifted_marks ns0 ms : trail rs1 block (ns0 ++ [length rs1]) (length rs1) -> suffix_marks rs block n (n :: ms) ->
  marks rs' block (ns0 ++ map shift (n :: ms)).
Proof.
  intros [H1 H2 H3 _ _] [_ Hs2 Hs3]. pose proof shift_n as Hseam. split.
  - cbn [map]. rewrite Hseam. destruct ns0; [by cbn in *|done].
  - rewrite length_app, length_map, lookup_app_r by (cbn; lia). cbn [length] in Hs2 |- *.
    replace (Nat.pred (length ns0 + S (length ms)) - length ns0)%nat with (Nat.pred (S (length ms))) by lia.
    change (map shift (n :: ms)) with (shift <$> (n :: ms)). rewrite list_lookup_fmap, Hs2. cbn. f_equal. unfold rs', shift. by rewrite length_app, length_drop.
  - cbn [map]. rewrite Hseam. apply linked_join.
    + intros k a b Ha Hb. by eapply spaced_app, H3.
    + rewrite <-Hseam. change (shift n :: map shift ms) with (shift <$> (n :: ms)). intros k a b.
      rewrite !list_lookup_fmap. intros (x & Hx & ->)%fmap_Some (y & Hy & ->)%fmap_Some.
      apply shift_spaced; [|by eapply Hs3]. eapply (spaced_mono rs block (n :: ms) 0 k); [done|lia|done|done].
Qed.

Lemma appendTranslatedSuffix_spec ns l ns1 : trail rs1 block ns l -> suffix_marks rs block n ns1 -> 0 <= block ->
  exists ns' reused, appendTranslatedSuffix (fin rs1) (map (pos rs) ns1) (map (pos rs1) ns) = (map (pos rs') ns', fin rs', reused) /\
    marks rs' block ns'.
Proof.
  intros Ht Hsm Hb. pose proof Hsm as [Hs1 Hs2 _]. destruct ns1 as [|x ms]; [done|]. injection Hs1 as ->.
  destruct (last_or_push rs1 block ns l Ht Hrs1 Hb) as (ns2 & E & Ht2). unfold appendTranslatedSuffix. cbn [map nth append_suffix].
  rewrite shift_pos, shift_seam by lia. destruct (lastCheckpoint_trail _ _ _ _ Ht2) as [Hlc [ns0 Hns0]].
  assert (forall reused, append_suffix (fin rs1) (pos rs n) false (map (pos rs) ms) (map (pos rs1) ns2) (fin rs1) reused =
    (map (pos rs') (ns2 ++ map shift ms), fin rs', reused)) as Happ.
  { intros reused. rewrite (append_rest ms n) by (exact (sm_spaced _ _ _ _ Hsm) || lia || by rewrite Hlc, shift_seam).
    rewrite map_app, (map_pos_app rs1 (drop n rs) _ _ _ Ht2 : map (pos rs') ns2 = _), map_map. do 2 f_equal.
    rewrite <-shift_seam, <-shift_end. exact (last_cons_lookup (fun b => pos rs' (shift b)) n (length rs) ms Hs2). }
  exists (ns2 ++ map shift ms). destruct (_ =? _) in E |- *; cbn [negb] in E; rewrite E, Happ; (eexists; split; [done|]);
    subst ns2; rewrite <-app_assoc; pose proof (shifted_marks ns0 ms Ht2 Hsm) as Hmk; cbn [map] in Hmk;
    rewrite shift_n in Hmk; exact Hmk.
Qed.
End Suffix.

(** ** Rebuilding *)

(** Valid text in front of valid text: the seam is a rune boundary. *)
Lemma seam_valid (doc : list byte) stop rs : utf8_Valid doc = true -> 0 <= stop <= zlen doc -> zdrop stop doc = concat rs -> Forall rune_ok rs ->
  utf8_Valid (ztake stop doc) = true.
Proof.
  intros Hv Hs Hd Hrs. apply (Valid_cut doc stop Hv Hs). destruct rs as [|r rs].
  - right; left. apply (f_equal zlen) in Hd. rewrite zlen_zdrop in Hd. cbn [concat] in Hd. rewrite (@zlen_nil byte) in Hd. lia.
  - right; right. apply Forall_cons_iff in Hrs as [Hr _]. destruct (rune_shape r Hr) as (b & bs & -> & Hb & _). exists b. split; [|done].
    apply (f_equal (fun l => l !! 0%nat)) in Hd. unfold zdrop in Hd. rewrite lookup_drop, Nat.add_0_r in Hd. exact Hd.
Qed.

(** What rebuilding gives for the text [doc]. *)
Definition rebuild_answer (i : Index) (m : ChangeMap) (doc : list byte) (source : ReaderAt) (release : option (option error))
  (r : result Index) : Prop :=
  match r with
  | Ok i' => exists rs', doc = concat rs' /\ index_ok rs' i' /\ i_source i' = source /\ i_release i' = release /\
      i_revision i' = cm_afterRevision m /\ i_lineage i' = i_lineage i /\
      i_checkpointBytes i' = i_checkpointBytes i /\ i_maxCacheBytes i' = i_maxCacheBytes i
  | Err e => utf8_Valid doc = false /\ (e = coordinate_ErrInvalidUTF8 \/ e = coordinate_ErrSourceInconsistent)
  end.

Lemma cache_budget rs i : index_ok rs i -> 0 <= i_maxCacheBytes i.
Proof.
  intros H. destruct (io_cache _ _ H) as (l & _ & Hc). pose proof (ca_bound _ _ _ _ _ Hc). rewrite (ca_bytes _ _ _ _ _ Hc) in H0.
  pose proof (entry_bytes_nonneg l). lia.
Qed.

Lemma rebuild_spec ctx source rs i m changes release :
  index_ok rs i -> map_ok m -> realizes (cm_edits m) changes -> i_revision i = cm_beforeRevision m ->
  cm_beforeLength m = zlen (concat rs) -> cm_afterLength m < maxInt64 ->
  let doc := apply_edits changes (concat rs) in
  ReaderOk source doc ->
  yields ctx (rebuild (Some ctx) (Some (mkSource source (zlen doc))) (Some i) m release) (rebuild_answer i m doc source release).
Proof.
  intros Hi Hm Hch Hrev Hlen Hmax doc Hsrc. rewrite (after_length rs m Hm changes Hch Hlen) in Hmax. fold doc in Hmax.
  destruct (incrementalSeed_spec rs i Hi m Hm changes Hch Hrev Hlen) as (pl & Hseed & [Hpb Hpc Hpl (ns & n & Hn & Hpre & Htr & Hstart & Htake) Hrange Hsuf]).
  fold doc in Hseed, Htake, Hrange, Hsuf. pose proof (io_block _ _ Hi) as Hblock. pose proof (io_runes _ _ Hi) as Hrs. pose proof (cache_budget _ _ Hi).
  unfold rebuild. cbn [src_Len src_ReadAt]. pose proof (zlen_nonneg doc). rewrite (proj2 (Z.ltb_ge _ _)), Hseed by lia. cbv zeta.
  assert (length (take n rs) = n) as Hln by (rewrite length_take; lia).
  assert (lastCheckpoint (pl_prefix pl) = fin (take n rs)) as ->.
  { rewrite Hpre, (proj1 (lastCheckpoint_trail _ _ _ _ Htr)). unfold fin. by rewrite Hln. }
  rewrite Hpb, Hpc, Hpl, Hpre, Hstart in *. assert (Forall rune_ok (take n rs)) as Hrs0 by (by apply Forall_take).
  pose proof (scanSegment_spec ctx (i_checkpointBytes i) Hblock source doc Hsrc ltac:(lia) (take n rs) ns n (pl_scanEnd pl) Hrs0 Htr (eq_sym Hln)
    ltac:(lia) Htake) as Hscan.
  eapply yields_bind; [exact Hscan|..].
  - intros [state cps] (ms & ns' & l & Htext & Hrs1 & -> & -> & Ht). destruct Hsuf as [[-> Hend]|(n1 & ns1 & -> & Hsm & Hdrop)].
    + rewrite (@zlen_nil checkpoint). rewrite Hend, ztake_all in Htext by lia. rewrite Htext.
      destruct (finishScan_spec _ _ ns' l Ht Hrs1 ltac:(lia)) as (ns2 & E & Hmk). rewrite E. apply yields_ret.
      exists (take n rs ++ ms). split_and!; try done. eapply (fresh_index_ok _ _ ns2); cbn; try done; by rewrite <-Htext.
    + pose proof (marks_rune _ _ _ _ Hsm) as Hn1. rewrite zlen_map. destruct (Z.eqb_spec (zlen ns1) 0) as [E|_].
      { apply zlen_zero in E. rewrite E in Hsm. by pose proof (sm_first _ _ _ _ Hsm). }
      assert (doc = concat ((take n rs ++ ms) ++ drop n1 rs)) as Hdoc by (by rewrite concat_app, <-Htext, <-Hdrop, ztake_zdrop).
      destruct (appendTranslatedSuffix_spec rs (i_checkpointBytes i) (take n rs ++ ms) n1 Hn1 Hrs Hrs1 ltac:(rewrite <-Hdoc; lia) ns' l ns1 Ht Hsm ltac:(lia))
        as (ns2 & reused & -> & Hmk). apply yields_ret.
      exists ((take n rs ++ ms) ++ drop n1 rs). split_and!; try done. eapply (fresh_index_ok _ _ ns2); cbn; rewrite <-?Hdoc; try done.
      apply Forall_app; split; [done|by apply Forall_drop].
  - intros e [[-> Hv]|(-> & Hne & Hv)]; [split; [done|by left]|]. split; [|by right].
    destruct Hsuf as [[_ ?]|(n1 & ns1 & _ & _ & Hdrop)]; [done|]. destruct (utf8_Valid doc) eqn:E; [|done].
    rewrite (seam_valid doc (pl_scanEnd pl) (drop n1 rs) E) in Hv; [done| |done|by apply Forall_drop].
    pose proof (zlen_nonneg (concat (take n rs))). lia.
Qed.

(** ** The claims *)

(** Building an index decides the encoding and gives the index of the text:
    whatever the context, [Build] over a reader that keeps its contract either
    reports an error of the context, or refuses with [ErrInvalidUTF8] a text that
    is not UTF-8, or returns an index whose checkpoints, totals and empty cache
    are those of the runes of the text, at the block and the budget of the
    options; options out of bounds are refused before anything is read. *)
Theorem Build_correct ctx source doc revision options :
  ReaderOk source doc -> zlen doc < maxInt64 ->
  match resolveOptions options with
  | Ok _ => yields ctx (Build (Some ctx) (Some (mkSource source (zlen doc))) revision options) (build_answer doc source revision options None)
  | Err _ => forall k, Build (Some ctx) (Some (mkSource source (zlen doc))) revision options k = (k, Err coordinate_ErrInvalidOptions)
  end.
Proof.
  intros Hs Hm. destruct (resolveOptions options) as [[block cache]|e] eqn:Ho; [by eapply build_spec|].
  intros k. unfold Build, build. cbn [src_Len]. pose proof (zlen_nonneg doc). by rewrite (proj2 (Z.ltb_ge _ _)), Ho by lia.
Qed.

Definition ex_options : Options := mkOptions 2 16 false None.

Lemma Build_correct_witness :
  yields (fun _ => None) (Build (Some (fun _ => None)) (Some (mkSource (bytes_NewReader (concat ex_runes)) 5)) 1 ex_options)
    (build_answer (concat ex_runes) (bytes_NewReader (concat ex_runes)) 1 ex_options None) /\
  match Build (Some (fun _ => None)) (Some (mkSource (bytes_NewReader (concat ex_runes)) 5)) 1 ex_options 0%nat with
  | (_, Ok i) => i_checkpoints i = map (pos ex_runes) [0%nat; 2%nat; 3%nat; 4%nat] /\ i_lineCount i = 2
  | _ => False
  end.
Proof.
  split; [|vm_compute; by split].
  exact (Build_correct (fun _ => None) (bytes_NewReader (concat ex_runes)) (concat ex_runes) 1 ex_options
    (bytes_NewReader_ok (concat ex_runes)) eq_refl).
Defined.

(** C32. An incremental rebuild is as good as a build: given an index of the old
    text and a well-formed change map from its revision, whatever text the edits
    insert, [Rebuild] over the new text reports an error of the context, or
    refuses a new text that is not UTF-8, or returns an index of the new text -
    the checkpoints kept before the first edit, those scanned and those
    translated from behind the last - at the map's revision, with the lineage,
    the block and the budget of the old one. *)
Theorem Rebuild_correct ctx source rs i m changes :
  index_ok rs i -> map_ok m -> realizes (cm_edits m) changes -> i_revision i = cm_beforeRevision m ->
  cm_beforeLength m = zlen (concat rs) -> cm_afterLength m < maxInt64 ->
  let doc := apply_edits changes (concat rs) in
  ReaderOk source doc ->
  yields ctx (Rebuild (Some ctx) (Some (mkSource source (zlen doc))) (Some i) m) (rebuild_answer i m doc source None).
Proof. intros. by apply (rebuild_spec ctx source rs). Qed.

(** The first letter of the example becomes two lines. *)
Definition ex_change : ChangeMap := mkChangeMap 1 2 5 6 [mkEdit 0 1 2].
Definition ex_inserted : list (Edit * list byte) := [(mkEdit 0 1 2, [newline; newline])].

Lemma Rebuild_correct_witness :
  let doc := apply_edits ex_inserted (concat ex_runes) in
  yields (fun _ => None) (Rebuild (Some (fun _ => None)) (Some (mkSource (bytes_NewReader doc) 6)) (Some ex_index) ex_change)
    (rebuild_answer ex_index ex_change doc (bytes_NewReader doc) None) /\
  match Rebuild (Some (fun _ => None)) (Some (mkSource (bytes_NewReader doc) 6)) (Some ex_index) ex_change 0%nat with
  | (_, Ok i) => i_scannedBytes i = 3 /\ i_lineCount i = 4 /\ i_reused i = 3
  | _ => False
  end.
Proof.
  intros doc. split; [|vm_compute; by split].
  assert (map_ok ex_change) as Hm by (split; cbn; unfold edit_ok; cbn; unfold_ints; [lia|lia|done|done]).
  assert (realizes (cm_edits ex_change) ex_inserted) as Hr by (split; [done|by constructor]).
  exact (Rebuild_correct (fun _ => None) (bytes_NewReader doc) ex_runes ex_index ex_change ex_inserted ex_index_ok Hm Hr
    eq_refl eq_refl eq_refl (bytes_NewReader_ok doc)).
Defined.
