(* ===== verification/Virtual.v ===== *)
(** * document/virtual: the pager

    Logical pages over a UTF-8 source, fragments that a host publishes over them
    generation by generation, bounded windows of pages, and the progress of a
    publication.  A pager is bound to one immutable source.

    Every critical section of [p.mu] is one step of the monad [V]; between two of
    them an arbitrary [env] - the other goroutines - may change the pager. *)

From Stdlib Require Import ZArith Lia List.
From Stdlib Require Strings.String.
From stdpp Require Import base list numbers gmap strings sorting.
From S2P Require Import Prelude GoLib Utf8 Polling Events.
#[local] Open Scope Z_scope.

Definition DefaultTargetPageBytes : Z := 65536.
Definition DefaultMaximumPageBytes : Z := 262144.
Definition MaximumPageBytes : Z := 67108864.
Definition DefaultMaximumFragments : Z := 1048576.
Definition MaximumFragments : Z := 16777216.
Definition DefaultMaximumConcurrentTasks : Z := 4.
Definition MaximumConcurrentTasks : Z := 1024.
Definition DefaultCacheBytes : Z := 8388608.
Definition MaximumCacheBytes : Z := 1073741824.
Definition DefaultMaximumKeyBytes : Z := 16777216.
Definition MaximumKeyBytes : Z := 268435456.
Definition DefaultWindowBytes : Z := 4194304.
Definition MaximumWindowBytes : Z := 1073741824.
Definition DefaultWindowPages : Z := 128.
Definition MaximumWindowPages : Z := 1048576.
Definition DefaultWindowFragments : Z := 4096.
Definition MaximumWindowFragments : Z := MaximumFragments.
Definition DefaultWindowMeasure : Z := 1125899906842624.
Definition MaximumWindowMeasure : Z := maxInt64.
Definition DefaultMaximumInflightBytes : Z := 16777216.
Definition MaximumInflightBytes : Z := 4294967296.
Definition scanBufferBytes : Z := 65536.

(** ** Data *)

(** [src_Len] answers the successive calls of [Len]. *)
Record Source := mkSource { src_ReadAt : ReaderAt; src_Len : nat -> Z }.
Record OwnedSource := mkOwned { own_Source : Source; own_Close : option error }.

(** Lineages and pager identities are pointers. *)
Definition Lineage : Type := Z.
Definition pagerIdentity : Type := Z.
Definition Measure : Type := Z.

Record Budget := mkBudget { bu_Bytes : Z; bu_Pages : Z; bu_Fragments : Z; bu_Measure : Measure }.

(** [o_Observer] is whether there is one. *)
Record Options := mkOptions {
  o_TargetPageBytes : Z; o_MaximumPageBytes : Z; o_MaximumFragments : Z; o_MaximumTasks : Z; o_MaximumKeyBytes : Z;
  o_CacheBytes : Z; o_MaximumInflightBytes : Z; o_Window : Budget; o_DisableCache : bool; o_Lineage : option Lineage;
  o_Observer : bool }.

Record Fragment := mkFragment { f_ID : string; f_Start : Z; f_End : Z; f_Measure : Measure; f_DataKey : string }.
Record Publication := mkPublication {
  pu_Revision : Z; pu_BaseGeneration : Z; pu_IndexedThrough : Z; pu_Complete : bool; pu_Fragments : list Fragment }.
Record FragmentProgress := mkFragmentProgress { fp_IndexedThrough : Z; fp_Fragments : Z }.
Record FragmentResult := mkFragmentResult { fr_IndexedThrough : Z; fr_Complete : bool; fr_Fragments : list Fragment }.

(** A host may pass any affinity. *)
Inductive Affinity := AffinityBefore | AffinityAfter | AffinityOther.
#[export] Instance Affinity_eq_dec : EqDecision Affinity.
Proof. solve_decision. Defined.

Record PageKey := mkPageKey {
  k_Revision : Z; k_Generation : Z; k_Index : Z; k_Start : Z; k_End : Z; k_identity : pagerIdentity }.
Record Page := mkPage {
  g_Key : PageKey; g_StartLine : Z; g_EndLine : Z; g_ContinuesFromPrevious : bool; g_ContinuesToNext : bool;
  g_FragmentID : string; g_DataKey : string; g_FragmentIndex : Z; g_ContinuationIndex : Z; g_ContinuationCount : Z;
  g_MeasureStart : Measure; g_MeasureEnd : Measure; g_Indexed : bool; g_Content : list byte }.
Record Window := mkWindow {
  w_Revision : Z; w_Generation : Z; w_Pages : list Page; w_Bytes : Z; w_Fragments : Z; w_Measure : Measure;
  w_IndexedThrough : Z; w_Complete : bool; w_TruncatedBefore : bool; w_TruncatedAfter : bool }.

Record ByteWindowRequest := mkByteRequest {
  br_Revision : Z; br_Generation : Z; br_Offset : Z; br_Before : Z; br_After : Z; br_Budget : Budget }.
Record FragmentWindowRequest := mkFragmentRequest {
  fq_Revision : Z; fq_Generation : Z; fq_ID : string; fq_Continuation : Z; fq_Before : Z; fq_After : Z; fq_Budget : Budget }.
Record MeasureWindowRequest := mkMeasureRequest {
  mr_Revision : Z; mr_Generation : Z; mr_Offset : Measure; mr_Affinity : Affinity; mr_Before : Measure; mr_After : Measure;
  mr_Budget : Budget }.

Record resolvedOptions := mkResolved {
  ro_targetPageBytes : Z; ro_maximumPageBytes : Z; ro_maximumFragments : Z; ro_maximumTasks : Z; ro_maximumKeyBytes : Z;
  ro_cacheBytes : Z; ro_maximumInflightBytes : Z; ro_window : Budget; ro_lineage : option Lineage; ro_observer : bool }.

Record pageMeta := mkPageMeta {
  pm_start : Z; pm_end : Z; pm_startLine : Z; pm_endLine : Z; pm_continuesFrom : bool; pm_continuesTo : bool;
  pm_endsWithLF : bool; pm_fragment : Z; pm_continuation : Z; pm_continuations : Z; pm_measureStart : Measure;
  pm_measureEnd : Measure; pm_indexed : bool }.
Record fragmentMeta := mkFragmentMeta {
  fm_Fragment : Fragment; fm_measureStart : Measure; fm_pageFirst : Z; fm_pageLast : Z }.
Record pagerState := mkPagerState {
  st_generation : Z; st_pages : list pageMeta; st_fragments : list fragmentMeta; st_fragmentByID : gmap string Z;
  st_indexedThrough : Z; st_complete : bool; st_totalMeasure : Measure; st_keyBytes : Z }.

Record cacheKey := mkCacheKey { ck_generation : Z; ck_index : Z; ck_start : Z; ck_end : Z }.
#[export] Instance cacheKey_eq_dec : EqDecision cacheKey.
Proof. solve_decision. Defined.
Record cacheEntry := mkCacheEntry { ce_key : cacheKey; ce_data : list byte }.

(** [p_tasks] is the number of tokens in the channel; [p_cache] the list
    [cacheList] with the map over it, [None] after the shutdown; [p_release] the
    outcome of closing an owned source.  States are told apart by their
    generation: only a publication sets the state, and it counts it up. *)
Record Pager := mkPager {
  p_source : Source; p_identity : pagerIdentity; p_lineage : option Lineage; p_observer : bool; p_revision : Z;
  p_length : Z; p_options : resolvedOptions; p_logical : list pageMeta;
  p_release : option (option error); p_state : pagerState; p_closed : bool; p_closing : bool; p_closeCompleted : bool;
  p_closeErr : option error; p_nextOperationID : Z; p_tasks : Z; p_activeInflightBytes : Z;
  p_cache : option (list cacheEntry); p_cacheBytes : Z }.

(** The immutable half of a pager with another mutable half. *)
Definition with_mutable (p : Pager) release state closed closing completed closeErr nextID tasks inflight cache bytes : Pager :=
  mkPager (p_source p) (p_identity p) (p_lineage p) (p_observer p) (p_revision p) (p_length p) (p_options p) (p_logical p)
    release state closed closing completed closeErr nextID tasks inflight cache bytes.
Definition set_state (state : pagerState) (p : Pager) : Pager :=
  with_mutable p (p_release p) state (p_closed p) (p_closing p) (p_closeCompleted p) (p_closeErr p) (p_nextOperationID p)
    (p_tasks p) (p_activeInflightBytes p) (p_cache p) (p_cacheBytes p).
Definition set_tasks (tasks : Z) (p : Pager) : Pager :=
  with_mutable p (p_release p) (p_state p) (p_closed p) (p_closing p) (p_closeCompleted p) (p_closeErr p) (p_nextOperationID p)
    tasks (p_activeInflightBytes p) (p_cache p) (p_cacheBytes p).
Definition set_inflight (bytes : Z) (p : Pager) : Pager :=
  with_mutable p (p_release p) (p_state p) (p_closed p) (p_closing p) (p_closeCompleted p) (p_closeErr p) (p_nextOperationID p)
    (p_tasks p) bytes (p_cache p) (p_cacheBytes p).
Definition set_cache (cache : option (list cacheEntry)) (bytes : Z) (p : Pager) : Pager :=
  with_mutable p (p_release p) (p_state p) (p_closed p) (p_closing p) (p_closeCompleted p) (p_closeErr p) (p_nextOperationID p)
    (p_tasks p) (p_activeInflightBytes p) cache bytes.
Definition set_nextOperationID (id : Z) (p : Pager) : Pager :=
  with_mutable p (p_release p) (p_state p) (p_closed p) (p_closing p) (p_closeCompleted p) (p_closeErr p) id
    (p_tasks p) (p_activeInflightBytes p) (p_cache p) (p_cacheBytes p).

(** ** Logical pages (build.go) *)

Record page_scan := mkPageScan {
  ps_pages : list pageMeta; ps_pageStart : Z; ps_pageStartLine : Z; ps_line : Z; ps_previousRuneLF : bool;
  ps_pending : list byte }.

Definition zeroPage : pageMeta := mkPageMeta 0 0 0 0 false false false (-1) 0 0 0 0 false.

(** [appendPage] *)
Definition appendPage (length endOffset endLine : Z) (endsWithLF : bool) (s : page_scan) : page_scan :=
  let continuesFrom :=
    (0 <? ps_pageStart s) && (0 <? zlen (ps_pages s)) && negb (pm_endsWithLF (List.last (ps_pages s) zeroPage)) in
  mkPageScan
    (ps_pages s ++ [mkPageMeta (ps_pageStart s) endOffset (ps_pageStartLine s) endLine continuesFrom
       ((endOffset <? length) && negb endsWithLF) endsWithLF (-1) 0 0 0 0 false])
    endOffset endLine (ps_line s) (ps_previousRuneLF s) (ps_pending s).

Definition set_line (line : Z) (lf : bool) (s : page_scan) : page_scan :=
  mkPageScan (ps_pages s) (ps_pageStart s) (ps_pageStartLine s) line lf (ps_pending s).
Definition set_pending (pending : list byte) (s : page_scan) : page_scan :=
  mkPageScan (ps_pages s) (ps_pageStart s) (ps_pageStartLine s) (ps_line s) (ps_previousRuneLF s) pending.

(** One rune from [runeStart] to [runeEnd]. *)
Definition page_rune (options : resolvedOptions) (length runeStart runeEnd r : Z) (s : page_scan) : page_scan :=
  let s := if ro_maximumPageBytes options <? runeEnd - ps_pageStart s
           then appendPage length runeStart (ps_line s) (ps_previousRuneLF s) s else s in
  let s := set_line (if r =? 10 then ps_line s ⊞ 1 else ps_line s) (r =? 10) s in
  if (ro_targetPageBytes options <=? runeEnd - ps_pageStart s) && (r =? 10)
  then appendPage length runeEnd (ps_line s) true s else s.

(** The line at an offset, and whether a line feed precedes it. *)
Abbreviation line_maps := (gmap Z Z * gmap Z bool)%type.

Section Build.
Variable ctx : Context.

(** The inner loop, over what is left of the buffer. *)
Fixpoint page_runes (fuel : nat) (options : resolvedOptions) (length absolute : Z) (data : list byte) (s : page_scan) : C page_scan :=
  match fuel with
  | O => cret s
  | S fuel =>
    if zlen data =? 0 then cret s else
    let! _ := cpoll ctx in
    if negb (utf8_FullRune data) then cret (set_pending data s) else
    let '(r, size) := utf8_DecodeRune data in
    if (r =? RuneError) && (size =? 1) then cfail virtual_ErrInvalidUTF8 else
    page_runes fuel options length (absolute + size) (zdrop size data) (page_rune options length absolute (absolute + size) r s)
  end.

(** The outer loop, one read per pass. *)
Fixpoint page_loop (fuel : nat) (source : ReaderAt) (options : resolvedOptions) (length readOffset : Z) (s : page_scan) : C page_scan :=
  match fuel with
  | O => cret s
  | S fuel =>
    if negb (readOffset <? length) then cret s else
    let! _ := cpoll ctx in
    let want := Z.min scanBufferBytes (length - readOffset) in
    let '(got, readErr) := source readOffset want in
    let n := zlen got in
    if want <? n then cfail virtual_ErrSourceInconsistent else
    let data := ps_pending s ++ got in
    let base := readOffset - zlen (ps_pending s) in
    let! s := page_runes (List.length data) options length base data (set_pending [] s) in
    let readOffset := readOffset + n in
    match readErr with
    | Some e =>
      if errors_Is e io_EOF && (readOffset =? length)
      then page_loop fuel source options length readOffset s else cfail e
    | None =>
      if (n =? 0) && (readOffset <? length) then cfail io_ErrUnexpectedEOF
      else page_loop fuel source options length readOffset s
    end
  end.

Definition buildLogicalPages (source : ReaderAt) (length : Z) (options : resolvedOptions) : C (list pageMeta) :=
  let! s := page_loop (S (Z.to_nat length)) source options length 0 (mkPageScan [] 0 0 0 false []) in
  if negb (zlen (ps_pending s) =? 0) then cfail virtual_ErrInvalidUTF8 else
  let! _ := cpoll ctx in
  let s := if ps_pageStart s <? length then appendPage length length (ps_line s) (ps_previousRuneLF s) s else s in
  cret (if zlen (ps_pages s) =? 0 then ps_pages s ++ [zeroPage] else ps_pages s).

(** [readExactAt]: [data] is what was read so far of [length] bytes. *)
Fixpoint readExactAt (fuel : nat) (source : ReaderAt) (offset length : Z) (data : list byte) : C (list byte) :=
  match fuel with
  | O => cret data
  | S fuel =>
    let read := zlen data in
    if negb (read <? length) then cret data else
    let! _ := cpoll ctx in
    let '(got, err) := source (offset + read) (length - read) in
    if length - read <? zlen got then cfail virtual_ErrSourceInconsistent else
    let data := data ++ got in
    match err with
    | Some e => if errors_Is e io_EOF && (zlen data =? length) then readExactAt fuel source offset length data else cfail e
    | None => if (zlen got =? 0) && (zlen data <? length) then cfail io_ErrUnexpectedEOF
              else readExactAt fuel source offset length data
    end
  end.

Definition readPageBytes (source : ReaderAt) (page : pageMeta) : C (list byte) :=
  let length := pm_end page ⊟ pm_start page in
  if length <? 0 then cfail virtual_ErrSourceInconsistent else
  readExactAt (S (Z.to_nat length)) source (pm_start page) length [].

(** ** Lines at fragment boundaries *)

(** The offsets inside one page, in order. *)
Fixpoint line_offsets (page : pageMeta) (data : list byte) (offsets : list Z) (cursor currentLine : Z) (maps : line_maps)
  : result line_maps :=
  match offsets with
  | [] => Ok maps
  | offset :: offsets =>
    let position := offset - pm_start page in
    if (position <? zlen data) && negb (utf8_RuneStart (nth (Z.to_nat position) data Byte.x00)) then Err virtual_ErrInvalidFragment else
    let currentLine := currentLine ⊞ count_newlines (slice cursor (position - cursor) data) in
    let afterLF := (position =? 0) || bool_decide (nth (Z.to_nat (position - 1)) data Byte.x00 = newline) in
    line_offsets page data offsets position currentLine
      (<[offset := currentLine]> maps.1, <[offset := afterLF]> maps.2)
  end.

(** The offsets up to [bound], and the others. *)
Fixpoint span (p : Z -> bool) (l : list Z) : list Z * list Z :=
  match l with
  | [] => ([], [])
  | x :: l' => if p x then let '(a, b) := span p l' in (x :: a, b) else ([], l)
  end.

Fixpoint line_pages (source : ReaderAt) (logical : list pageMeta) (extra : list Z) (maps : line_maps) : C line_maps :=
  match logical with
  | [] => cret maps
  | page :: logical =>
    let maps := (<[pm_start page := pm_startLine page]> maps.1,
                 <[pm_start page := if pm_start page =? 0 then true else negb (pm_continuesFrom page)]> maps.2) in
    let '(_, extra) := span (fun x => x <=? pm_start page) extra in
    let '(inside, extra) := span (fun x => x <? pm_end page) extra in
    let! maps :=
      match inside with
      | [] => cret maps
      | _ =>
        let! data := readPageBytes source page in
        fun k => (k, line_offsets page data inside 0 (pm_startLine page) maps)
      end in
    line_pages source logical extra
      (<[pm_end page := pm_endLine page]> maps.1, <[pm_end page := pm_endsWithLF page]> maps.2)
  end.

Definition lineAndBoundaryMap (source : ReaderAt) (logical : list pageMeta) (extra : list Z) : C line_maps :=
  line_pages source logical extra ({[0 := 0]}, {[0 := true]}).
End Build.

(** ** Publication (publication.go) *)

Definition checkedAddMeasure (left right : Measure) : option Measure :=
  if (left <? 0) || (right <? 0) || (maxInt64 - right <? left) then None else Some (left + right).

Definition stringLength (s : string) : Z := Z.of_nat (String.length s).

(** The loop of [validateFragments]. *)
Fixpoint validate_fragments (ctx : Context) (options : resolvedOptions) (publication : Publication) (fragments : list Fragment)
  (seen : gset string) (cursor : Z) (total : Measure) (keyBytes : Z) : C (list fragmentMeta * Measure * Z) :=
  match fragments with
  | [] => cret ([], total, keyBytes)
  | fragment :: fragments =>
    let! _ := cpoll ctx in
    if bool_decide (f_ID fragment = ""%string) || (f_Start fragment <? cursor) || (f_End fragment <=? f_Start fragment) ||
       (pu_IndexedThrough publication <? f_End fragment) || (f_Measure fragment <? 0) ||
       (bu_Measure (ro_window options) <? f_Measure fragment) then cfail virtual_ErrInvalidFragment else
    let keyLength := stringLength (f_ID fragment) ⊞ stringLength (f_DataKey fragment) in
    if ro_maximumKeyBytes options - keyBytes <? keyLength then cfail virtual_ErrInvalidFragment else
    if bool_decide (f_ID fragment ∈ seen) then cfail virtual_ErrInvalidFragment else
    match checkedAddMeasure total (f_Measure fragment) with
    | None => cfail virtual_ErrInvalidFragment
    | Some next =>
      let! (rest, total', keyBytes') :=
        validate_fragments ctx options publication fragments ({[f_ID fragment]} ∪ seen) (f_End fragment) next (keyBytes + keyLength) in
      cret (mkFragmentMeta fragment total (-1) (-1) :: rest, total', keyBytes')
    end
  end.

Definition validateFragments (ctx : Context) (options : resolvedOptions) (publication : Publication) (length : Z)
  : C (list fragmentMeta * Measure * Z) :=
  if (pu_IndexedThrough publication <? 0) || (length <? pu_IndexedThrough publication) ||
     (pu_Complete publication && negb (pu_IndexedThrough publication =? length)) ||
     (ro_maximumFragments options <? zlen (pu_Fragments publication))
  then cfail virtual_ErrInvalidPublication
  else validate_fragments ctx options publication (pu_Fragments publication) ∅ 0 0 0.

(** [sort.Slice] on integers: any sorting algorithm gives this list. *)
Definition sort_offsets (l : list Z) : list Z := merge_sort Z.le l.

Fixpoint compact_from (previous : Z) (l : list Z) : list Z :=
  match l with
  | [] => []
  | x :: l => if x =? previous then compact_from previous l else x :: compact_from x l
  end.
Definition compactOffsets (offsets : list Z) : list Z :=
  match offsets with [] => [] | x :: l => x :: compact_from x l end.

(** Skipping the fragments that end at [start] or before; the index counts on. *)
Fixpoint skip_fragments (start index : Z) (fragments : list fragmentMeta) : Z * list fragmentMeta :=
  match fragments with
  | [] => (index, [])
  | f :: fragments' => if f_End (fm_Fragment f) <=? start then skip_fragments start (index + 1) fragments' else (index, fragments)
  end.

Definition published_page (length indexedThrough : Z) (maps : line_maps) (start endOffset : Z) (index : Z) (fragments : list fragmentMeta)
  : pageMeta :=
  let lineAt x := default 0 (maps.1 !! x) in
  let afterLF x := default false (maps.2 !! x) in
  let page fragment measureStart measureEnd :=
    mkPageMeta start endOffset (lineAt start) (lineAt endOffset) ((0 <? start) && negb (afterLF start))
      ((endOffset <? length) && negb (afterLF endOffset)) (afterLF endOffset) fragment 0 0 measureStart measureEnd
      (endOffset <=? indexedThrough) in
  match fragments with
  | f :: _ =>
    if (f_Start (fm_Fragment f) <=? start) && (endOffset <=? f_End (fm_Fragment f))
    then page index (fm_measureStart f) (fm_measureStart f + f_Measure (fm_Fragment f)) else page (-1) 0 0
  | [] => page (-1) 0 0
  end.

(** The pages between consecutive boundaries. *)
Fixpoint published_pages (ctx : Context) (length indexedThrough : Z) (maps : line_maps) (boundaries : list Z) (index : Z)
  (fragments : list fragmentMeta) : C (list pageMeta) :=
  match boundaries with
  | start :: ((endOffset :: _) as boundaries') =>
    let! _ := cpoll ctx in
    let '(index, fragments) := skip_fragments start index fragments in
    let! pages := published_pages ctx length indexedThrough maps boundaries' index fragments in
    cret (published_page length indexedThrough maps start endOffset index fragments :: pages)
  | _ => cret []
  end.

(** The first and the last page of every fragment. *)
Definition mark_page (pageIndex : Z) (f : fragmentMeta) : fragmentMeta :=
  mkFragmentMeta (fm_Fragment f) (fm_measureStart f) (if fm_pageFirst f <? 0 then pageIndex else fm_pageFirst f) pageIndex.
Fixpoint mark_pages (pageIndex : Z) (pages : list pageMeta) (fragments : list fragmentMeta) : list fragmentMeta :=
  match pages with
  | [] => fragments
  | page :: pages =>
    mark_pages (pageIndex + 1) pages
      (if pm_fragment page <? 0 then fragments else alter (mark_page pageIndex) (Z.to_nat (pm_fragment page)) fragments)
  end.

Definition set_continuation (continuation continuations : Z) (p : pageMeta) : pageMeta :=
  mkPageMeta (pm_start p) (pm_end p) (pm_startLine p) (pm_endLine p) (pm_continuesFrom p) (pm_continuesTo p) (pm_endsWithLF p)
    (pm_fragment p) continuation continuations (pm_measureStart p) (pm_measureEnd p) (pm_indexed p).

(** The pages of one fragment, numbered. *)
Fixpoint number_pages (count : nat) (pageIndex first total : Z) (pages : list pageMeta) : list pageMeta :=
  match count with
  | O => pages
  | S count =>
    number_pages count (pageIndex + 1) first total (alter (set_continuation (pageIndex - first) total) (Z.to_nat pageIndex) pages)
  end.
Fixpoint number_fragments (fragments : list fragmentMeta) (pages : list pageMeta) : list pageMeta :=
  match fragments with
  | [] => pages
  | f :: fragments =>
    let count := fm_pageLast f - fm_pageFirst f + 1 in
    number_fragments fragments (number_pages (Z.to_nat count) (fm_pageFirst f) (fm_pageFirst f) count pages)
  end.

(** The fragments are updated in place: they are a second result. *)
Definition buildPublishedPages (ctx : Context) (source : ReaderAt) (length : Z) (logical : list pageMeta) (fragments : list fragmentMeta)
  (indexedThrough : Z) (complete : bool) : C (list pageMeta * list fragmentMeta) :=
  let extra := concat (map (fun f => [f_Start (fm_Fragment f); f_End (fm_Fragment f)]) fragments) in
  let extra := if (0 <? indexedThrough) && (indexedThrough <? length) then extra ++ [indexedThrough] else extra in
  let extra := compactOffsets (sort_offsets extra) in
  let! maps := lineAndBoundaryMap ctx source logical extra in
  let boundaries := compactOffsets (sort_offsets (0 :: map pm_end logical ++ extra)) in
  if length =? 0 then cret ([mkPageMeta 0 0 0 0 false false false (-1) 0 0 0 0 complete], fragments) else
  let! pages := published_pages ctx length indexedThrough maps boundaries 0 fragments in
  let fragments := mark_pages 0 pages fragments in
  cret (number_fragments fragments pages, fragments).

(** ** The pager under interference *)

Definition V (A : Type) : Type := nat -> Pager -> nat * Pager * result A.
Definition vret {A} (a : A) : V A := fun k p => (k, p, Ok a).
Definition vfail {A} (e : error) : V A := fun k p => (k, p, Err e).
Definition vbind {A B} (c : V A) (f : A -> V B) : V B := fun k p =>
  let '(k, p, r) := c k p in match r with Ok a => f a k p | Err e => (k, p, Err e) end.
(** [defer d()] *)
Definition finally {A} (c : V A) (d : V unit) : V A := fun k p =>
  let '(k, p, r) := c k p in let '(k, p, _) := d k p in (k, p, r).
(** What needs no lock. *)
Definition lift {A} (c : C A) : V A := fun k p => let '(k, r) := c k in (k, p, r).
Notation "'let*' x ':=' c 'in' k" := (vbind c (fun x => k)) (at level 200, x pattern, c at level 100, k at level 200).
Definition of_result {A} (r : result A) : V A := fun k p => (k, p, r).

Record Stats := mkStats {
  s_Revision : Z; s_Generation : Z; s_ByteLength : Z; s_LogicalPages : Z; s_Pages : Z; s_Fragments : Z; s_IndexedThrough : Z;
  s_Complete : bool; s_TotalMeasure : Measure; s_TargetPageBytes : Z; s_MaximumPageBytes : Z; s_CacheBytes : Z;
  s_CacheEntries : Z; s_MaximumCacheBytes : Z; s_ActiveTasks : Z; s_MaximumTasks : Z; s_MaximumKeyBytes : Z; s_KeyBytes : Z;
  s_Window : Budget; s_ActiveInflightBytes : Z; s_MaximumInflightBytes : Z; s_Closing : bool; s_Closed : bool }.
Definition noStats : Stats := mkStats 0 0 0 0 0 0 0 false 0 0 0 0 0 0 0 0 0 0 (mkBudget 0 0 0 0) 0 0 false false.

Definition statsLocked (p : Pager) : Stats :=
  let state := p_state p in
  let options := p_options p in
  mkStats (p_revision p) (st_generation state) (p_length p) (zlen (p_logical p)) (zlen (st_pages state)) (zlen (st_fragments state))
    (st_indexedThrough state) (st_complete state) (st_totalMeasure state) (ro_targetPageBytes options) (ro_maximumPageBytes options)
    (p_cacheBytes p) (match p_cache p with Some l => zlen l | None => 0 end) (ro_cacheBytes options) (p_tasks p) (ro_maximumTasks options)
    (ro_maximumKeyBytes options) (st_keyBytes state) (ro_window options) (p_activeInflightBytes p) (ro_maximumInflightBytes options)
    (p_closing p && negb (p_closeCompleted p)) (p_closeCompleted p).

(** ** The cache (cache.go) *)

Definition clearCacheLocked (p : Pager) : Pager := set_cache (Some []) 0 p.

Definition find_entry (key : cacheKey) (l : list cacheEntry) : option cacheEntry :=
  List.find (fun e => bool_decide (ce_key e = key)) l.
(** [MoveToFront] *)
Definition to_front (key : cacheKey) (l : list cacheEntry) : list cacheEntry :=
  List.filter (fun e => bool_decide (ce_key e = key)) l ++ List.filter (fun e => negb (bool_decide (ce_key e = key))) l.

Definition cached_locked (key : cacheKey) (p : Pager) : Pager * option (list byte) :=
  if p_closed p then (p, None) else
  match p_cache p with
  | None => (p, None)
  | Some l =>
    match find_entry key l with
    | None => (p, None)
    | Some e => (set_cache (Some (to_front key l)) (p_cacheBytes p) p, Some (ce_data e))
    end
  end.

(** The eviction loop, from the back. *)
Fixpoint evict (fuel : nat) (maximum : Z) (l : list cacheEntry) (bytes : Z) : list cacheEntry * Z :=
  match fuel with
  | O => (l, bytes)
  | S fuel =>
    if maximum <? bytes then
      evict fuel maximum (removelast l) (bytes - zlen (ce_data (List.last l (mkCacheEntry (mkCacheKey 0 0 0 0) []))))
    else (l, bytes)
  end.

Definition storeCache_locked (generation : Z) (key : cacheKey) (data : list byte) (p : Pager) : Pager :=
  if p_closed p || negb (st_generation (p_state p) =? generation) then p else
  match p_cache p with
  | None => p
  | Some l =>
    match find_entry key l with
    | Some _ => set_cache (Some (to_front key l)) (p_cacheBytes p) p
    | None =>
      let l := mkCacheEntry key data :: l in
      let '(l, bytes) := evict (length l) (ro_cacheBytes (p_options p)) l (p_cacheBytes p + zlen data) in
      set_cache (Some l) bytes p
    end
  end.

(** ** Anchors (window.go) *)

Definition page_at (l : list pageMeta) (index : Z) : pageMeta := nth (Z.to_nat index) l zeroPage.
Definition zeroFragment : fragmentMeta := mkFragmentMeta (mkFragment "" 0 0 0 "") 0 (-1) (-1).
Definition fragment_at (l : list fragmentMeta) (index : Z) : fragmentMeta := nth (Z.to_nat index) l zeroFragment.

Definition pageAtByte (pages : list pageMeta) (offset length : Z) : Z :=
  if offset =? length then zlen pages - 1 else
  let index := sort_Search (zlen pages) (fun index => offset <? pm_end (page_at pages index)) in
  if index =? zlen pages then zlen pages - 1 else index.

Definition pageBeforeByte (pages : list pageMeta) (offset length : Z) : Z :=
  if offset <=? 0 then 0 else if length <=? offset then zlen pages - 1 else pageAtByte pages (offset - 1) length.

Definition measureEnd (f : fragmentMeta) : Z := fm_measureStart f + f_Measure (fm_Fragment f).

Definition fragmentAtMeasure (fragments : list fragmentMeta) (offset : Measure) (affinity : Affinity) : Z :=
  if zlen fragments =? 1 then 0 else
  let total := measureEnd (List.last fragments zeroFragment) in
  if total =? 0 then (if bool_decide (affinity = AffinityBefore) then zlen fragments - 1 else 0) else
  if bool_decide (affinity = AffinityBefore) then
    if offset =? 0 then 0 else
    let index := sort_Search (zlen fragments) (fun index => offset <=? fm_measureStart (fragment_at fragments index)) - 1 in
    if index <? 0 then 0 else index
  else
    let index := sort_Search (zlen fragments) (fun index => offset <? measureEnd (fragment_at fragments index)) in
    if index =? zlen fragments then zlen fragments - 1 else index.

(** ** What a window may hold *)

Record usage := mkUsage { u_bytes : Z; u_pages : Z; u_fragments : gset Z; u_measure : Measure }.
Definition usedFragments (u : usage) : Z := Z.of_nat (size (u_fragments u)).

Definition fitsPage (state : pagerState) (index : Z) (budget : Budget) (current : usage) : bool :=
  let page := page_at (st_pages state) index in
  let length := pm_end page - pm_start page in
  if (bu_Pages budget <=? u_pages current) || (bu_Bytes budget - u_bytes current <? length) then false else
  if pm_fragment page <? 0 then true else
  if bool_decide (pm_fragment page ∈ u_fragments current) then true else
  if bu_Fragments budget <=? usedFragments current then false else
  f_Measure (fm_Fragment (fragment_at (st_fragments state) (pm_fragment page))) <=? bu_Measure budget - u_measure current.

Definition addPageUsage (state : pagerState) (index : Z) (current : usage) : usage :=
  let page := page_at (st_pages state) index in
  let bytes := u_bytes current + (pm_end page - pm_start page) in
  let pages := u_pages current + 1 in
  if (pm_fragment page <? 0) || bool_decide (pm_fragment page ∈ u_fragments current)
  then mkUsage bytes pages (u_fragments current) (u_measure current)
  else mkUsage bytes pages ({[pm_fragment page]} ∪ u_fragments current)
         (u_measure current + f_Measure (fm_Fragment (fragment_at (st_fragments state) (pm_fragment page)))).

(** The anchor pages, which must all fit. *)
Fixpoint anchor_loop (count : nat) (state : pagerState) (budget : Budget) (index : Z) (current : usage) : option usage :=
  match count with
  | O => Some current
  | S count => if fitsPage state index budget current then anchor_loop count state budget (index + 1) (addPageUsage state index current) else None
  end.

(** Growing in a direction ([step] is -1 or 1): the usage, the last page that fits
    and whether one did not. *)
Fixpoint grow_loop (count : nat) (step : Z) (state : pagerState) (budget : Budget) (reached : Z) (current : usage) : usage * Z * bool :=
  match count with
  | O => (current, reached, false)
  | S count =>
    let index := reached + step in
    if fitsPage state index budget current then grow_loop count step state budget index (addPageUsage state index current)
    else (current, reached, true)
  end.

(** ** Options and budgets (pager.go) *)

Definition orDefault (value default : Z) : Z := if value =? 0 then default else value.

Definition resolveOptions (options : Options) : result resolvedOptions :=
  if o_DisableCache options && negb (o_CacheBytes options =? 0) then Err virtual_ErrInvalidOptions else
  let window := o_Window options in
  let window := mkBudget (orDefault (bu_Bytes window) DefaultWindowBytes) (orDefault (bu_Pages window) DefaultWindowPages)
                  (orDefault (bu_Fragments window) DefaultWindowFragments) (orDefault (bu_Measure window) DefaultWindowMeasure) in
  let r := mkResolved (orDefault (o_TargetPageBytes options) DefaultTargetPageBytes)
             (orDefault (o_MaximumPageBytes options) DefaultMaximumPageBytes)
             (orDefault (o_MaximumFragments options) DefaultMaximumFragments)
             (orDefault (o_MaximumTasks options) DefaultMaximumConcurrentTasks)
             (orDefault (o_MaximumKeyBytes options) DefaultMaximumKeyBytes)
             (if o_DisableCache options then 0 else orDefault (o_CacheBytes options) DefaultCacheBytes)
             (orDefault (o_MaximumInflightBytes options) (Z.max DefaultMaximumInflightBytes (bu_Bytes window)))
             window (o_Lineage options) (o_Observer options) in
  if (ro_targetPageBytes r <? 4) || (ro_maximumPageBytes r <? ro_targetPageBytes r) || (MaximumPageBytes <? ro_maximumPageBytes r) ||
     (ro_maximumFragments r <? 1) || (MaximumFragments <? ro_maximumFragments r) ||
     (ro_maximumTasks r <? 1) || (MaximumConcurrentTasks <? ro_maximumTasks r) ||
     (ro_maximumKeyBytes r <? 1) || (MaximumKeyBytes <? ro_maximumKeyBytes r) ||
     (ro_cacheBytes r <? 0) || (MaximumCacheBytes <? ro_cacheBytes r) ||
     (bu_Bytes window <? 1) || (bu_Pages window <? 1) || (bu_Fragments window <? 1) || (bu_Measure window <? 1) ||
     (MaximumWindowBytes <? bu_Bytes window) || (MaximumWindowPages <? bu_Pages window) ||
     (MaximumWindowFragments <? bu_Fragments window) || (MaximumWindowMeasure <? bu_Measure window) ||
     (bu_Bytes window <? ro_maximumPageBytes r) || (ro_maximumInflightBytes r <? bu_Bytes window) ||
     (MaximumInflightBytes <? ro_maximumInflightBytes r)
  then Err virtual_ErrInvalidOptions else Ok r.

Definition resolveBudget (p : Pager) (budget : Budget) : result Budget :=
  let window := ro_window (p_options p) in
  let b := mkBudget (orDefault (bu_Bytes budget) (bu_Bytes window)) (orDefault (bu_Pages budget) (bu_Pages window))
             (orDefault (bu_Fragments budget) (bu_Fragments window)) (orDefault (bu_Measure budget) (bu_Measure window)) in
  if (bu_Bytes b <? 1) || (bu_Pages b <? 1) || (bu_Fragments b <? 1) || (bu_Measure b <? 1) ||
     (bu_Bytes window <? bu_Bytes b) || (bu_Pages window <? bu_Pages b) ||
     (bu_Fragments window <? bu_Fragments b) || (bu_Measure window <? bu_Measure b)
  then Err virtual_ErrInvalidRequest else Ok b.

Definition initialState (pages : list pageMeta) : pagerState := mkPagerState 0 pages [] ∅ 0 false 0 0.

(** [identity] is the address of the new [pagerIdentity]. *)
Definition build (identity : pagerIdentity) (ctx : option Context) (source : option Source) (revision : Z) (options : Options)
  (release : option (option error)) : C Pager :=
  match ctx with None => cfail virtual_ErrInvalidContext | Some ctx =>
  let! _ := cpoll ctx in
  match source with None => cfail virtual_ErrInvalidSource | Some source =>
  let length := src_Len source 0%nat in
  if length <? 0 then cfail virtual_ErrInvalidSource else
  match resolveOptions options with
  | Err e => cfail e
  | Ok resolved =>
    let! logical := buildLogicalPages ctx (src_ReadAt source) length resolved in
    if negb (src_Len source 1%nat =? length) then cfail virtual_ErrSourceInconsistent else
    cret (mkPager source identity (ro_lineage resolved) (ro_observer resolved) revision length resolved logical
            release (initialState logical) false false false None 0 0 0 (Some []) 0)
  end end end.

Definition Build (identity : pagerIdentity) (ctx : option Context) (source : option Source) (revision : Z) (options : Options) : C Pager :=
  build identity ctx source revision options None.

Definition joinClose (e : error) (close : option error) : error := match close with Some e' => errJoin e e' | None => e end.

Definition BuildOwned (identity : pagerIdentity) (ctx : option Context) (source : option OwnedSource) (revision : Z) (options : Options)
  : C Pager := fun k =>
  match source with
  | None => (k, Err virtual_ErrInvalidSource)
  | Some source =>
    match build identity ctx (Some (own_Source source)) revision options (Some (own_Close source)) k with
    | (k, Err e) => (k, Err (joinClose e (own_Close source)))
    | r => r
    end
  end.

Definition rebuildOptions (p : Pager) : result Options :=
  if p_closed p then Err virtual_ErrClosed else
  let o := p_options p in
  Ok (mkOptions (ro_targetPageBytes o) (ro_maximumPageBytes o) (ro_maximumFragments o) (ro_maximumTasks o) (ro_maximumKeyBytes o)
        (ro_cacheBytes o) (ro_maximumInflightBytes o) (ro_window o) (ro_cacheBytes o =? 0) (p_lineage p) (p_observer p)).

Definition BelongsTo (lineage : option Lineage) (p : Pager) : bool := isSome lineage && bool_decide (p_lineage p = lineage).

(** The critical sections of the shutdown: [CloseContext], and the two of
    [finishClose], the first of which waits for the tasks. *)
Definition closeLocked (p : Pager) : Pager :=
  if p_closing p then p else
  with_mutable p (p_release p) (p_state p) true true (p_closeCompleted p) (p_closeErr p) (p_nextOperationID p) (p_tasks p)
    (p_activeInflightBytes p) (p_cache p) (p_cacheBytes p).
Definition finishClose_drain (p : Pager) : option (Pager * option error) :=
  if negb (p_tasks p =? 0) then None else
  Some (with_mutable p None (p_state p) (p_closed p) (p_closing p) (p_closeCompleted p) (p_closeErr p) (p_nextOperationID p) (p_tasks p)
          (p_activeInflightBytes p) None 0,
        match p_release p with Some err => err | None => None end).
Definition finishClose_done (err : option error) (p : Pager) : Pager :=
  with_mutable p (p_release p) (p_state p) (p_closed p) (p_closing p) true err (p_nextOperationID p) (p_tasks p)
    (p_activeInflightBytes p) (p_cache p) (p_cacheBytes p).

(** ** Critical sections, tasks and windows *)

Section Operations.
(** What the other goroutines do before the section that starts at a time, and
    when the lifecycle context is cancelled. *)
Variable env : nat -> Pager -> Pager.
Variable lifecycle : nat -> bool.

(** One critical section; the clock tells it apart from the others. *)
Definition lock {A} (f : nat -> Pager -> Pager * result A) : V A := fun k p =>
  let '(p, r) := f k (env k p) in (S k, p, r).

(** [pagerTaskContext] *)
Definition taskContext (parent : Context) : Context := fun k =>
  match parent k with Some e => Some e | None => if lifecycle k then Some virtual_ErrClosed else None end.

Definition acquireTask (parent : option Context) : V Context :=
  match parent with None => vfail virtual_ErrInvalidContext | Some parent =>
  let* _ := lift (cpoll parent) in
  lock (fun k p =>
    if p_closed p then (p, Err virtual_ErrClosed) else
    match parent k with
    | Some e => (p, Err e)
    | None => if ro_maximumTasks (p_options p) <=? p_tasks p then (p, Err virtual_ErrBusy)
              else (set_tasks (p_tasks p + 1) p, Ok (taskContext parent))
    end)
  end.
Definition releaseTask : V unit := lock (fun _ p => (set_tasks (p_tasks p - 1) p, Ok tt)).

Definition withTask {A} (parent : option Context) (body : Context -> V A) : V A :=
  let* ctx := acquireTask parent in finally (body ctx) releaseTask.

Definition reserveInflight (bytes : Z) : V unit := lock (fun _ p =>
  if p_closed p then (p, Err virtual_ErrClosed) else
  if (bytes <? 0) || (ro_maximumInflightBytes (p_options p) - p_activeInflightBytes p <? bytes) then (p, Err virtual_ErrBusy)
  else (set_inflight (p_activeInflightBytes p + bytes) p, Ok tt)).
Definition releaseInflight (bytes : Z) : V unit := lock (fun _ p => (set_inflight (p_activeInflightBytes p - bytes) p, Ok tt)).

Definition capture (revision generation : Z) : V pagerState := lock (fun _ p =>
  (p, if p_closed p then Err virtual_ErrClosed
      else if negb (revision =? p_revision p) then Err virtual_ErrRevisionMismatch
      else if negb (generation =? st_generation (p_state p)) then Err virtual_ErrStaleGeneration
      else Ok (p_state p))).

Definition stateStillCurrent (state : pagerState) : V unit := lock (fun _ p =>
  (p, if p_closed p then Err virtual_ErrClosed
      else if negb (st_generation (p_state p) =? st_generation state) then Err virtual_ErrStaleGeneration
      else Ok tt)).

(** The immutable half may be read without the lock. *)
Definition asks {A} (f : Pager -> A) : V A := fun k p => (k, p, Ok (f p)).

Definition cached (key : cacheKey) : V (option (list byte)) := lock (fun _ p => let '(p, o) := cached_locked key p in (p, Ok o)).
Definition storeCache (generation : Z) (key : cacheKey) (data : list byte) : V unit :=
  let* options := asks p_options in
  if (ro_cacheBytes options =? 0) || (ro_cacheBytes options <? zlen data) then vret tt
  else lock (fun _ p => (storeCache_locked generation key data p, Ok tt)).

Definition pageOf (p : Pager) (state : pagerState) (index : Z) (data : list byte) : Page :=
  let meta := page_at (st_pages state) index in
  let fragment := fm_Fragment (fragment_at (st_fragments state) (pm_fragment meta)) in
  let '(id, dataKey, fragmentIndex) :=
    if 0 <=? pm_fragment meta then (f_ID fragment, f_DataKey fragment, pm_fragment meta) else (""%string, ""%string, -1) in
  mkPage (mkPageKey (p_revision p) (st_generation state) index (pm_start meta) (pm_end meta) (p_identity p))
    (pm_startLine meta) (pm_endLine meta) (pm_continuesFrom meta) (pm_continuesTo meta) id dataKey fragmentIndex
    (pm_continuation meta) (pm_continuations meta) (pm_measureStart meta) (pm_measureEnd meta) (pm_indexed meta) data.

Definition readMeta (ctx : Context) (state : pagerState) (index : Z) : V Page :=
  let meta := page_at (st_pages state) index in
  let key := mkCacheKey (st_generation state) index (pm_start meta) (pm_end meta) in
  let* found := cached key in
  let* data :=
    match found with
    | Some data => vret data
    | None =>
      let* source := asks p_source in
      let* data := lift (readPageBytes ctx (src_ReadAt source) meta) in
      let* _ := storeCache (st_generation state) key data in
      vret data
    end in
  asks (fun p => pageOf p state index data).

Definition ReadPage (ctx : option Context) (key : PageKey) : V Page :=
  withTask ctx (fun ctx =>
    let* state := capture (k_Revision key) (k_Generation key) in
    let* _ := lift (cpoll ctx) in
    let* identity := asks p_identity in
    if negb (k_identity key =? identity) then vfail virtual_ErrInvalidRequest else
    if (k_Index key <? 0) || (zlen (st_pages state) <=? k_Index key) then vfail virtual_ErrInvalidRequest else
    let meta := page_at (st_pages state) (k_Index key) in
    if negb (k_Start key =? pm_start meta) || negb (k_End key =? pm_end meta) then vfail virtual_ErrInvalidRequest else
    let reserved := pm_end meta - pm_start meta in
    let* _ := reserveInflight reserved in
    finally
      (let* page := readMeta ctx state (k_Index key) in
       let* _ := stateStillCurrent state in
       vret page)
      (releaseInflight reserved)).

(** Reading the chosen pages. *)
Fixpoint read_pages (count : nat) (ctx : Context) (state : pagerState) (index : Z) : V (list Page) :=
  match count with
  | O => vret []
  | S count =>
    let* _ := lift (cpoll ctx) in
    let* page := readMeta ctx state index in
    let* pages := read_pages count ctx state (index + 1) in
    vret (page :: pages)
  end.

Definition choosePages (state : pagerState) (anchorFirst anchorLast desiredFirst desiredLast : Z) (budget : Budget)
  : result (usage * Z * Z * bool * bool) :=
  if (anchorFirst <? 0) || (anchorLast <? anchorFirst) || (zlen (st_pages state) <=? anchorLast) ||
     (desiredFirst <? 0) || (anchorFirst <? desiredFirst) || (desiredLast <? anchorLast) || (zlen (st_pages state) <=? desiredLast)
  then Err virtual_ErrInvalidRequest else
  match anchor_loop (Z.to_nat (anchorLast - anchorFirst + 1)) state budget anchorFirst (mkUsage 0 0 ∅ 0) with
  | None => Err virtual_ErrBudgetExceeded
  | Some current =>
    let '(current, first, truncatedBefore) := grow_loop (Z.to_nat (anchorFirst - desiredFirst)) (-1) state budget anchorFirst current in
    let '(current, last, truncatedAfter) := grow_loop (Z.to_nat (desiredLast - anchorLast)) 1 state budget anchorLast current in
    Ok (current, first, last, truncatedBefore, truncatedAfter)
  end.

Definition readWindow (ctx : Context) (state : pagerState) (anchorFirst anchorLast desiredFirst desiredLast : Z) (budget : Budget) : V Window :=
  let* (current, first, last, truncatedBefore, truncatedAfter) :=
    of_result (choosePages state anchorFirst anchorLast desiredFirst desiredLast budget) in
  let* pages := read_pages (Z.to_nat (last - first + 1)) ctx state first in
  let* _ := stateStillCurrent state in
  let* revision := asks p_revision in
  vret (mkWindow revision (st_generation state) pages (u_bytes current) (usedFragments current) (u_measure current)
          (st_indexedThrough state) (st_complete state) truncatedBefore truncatedAfter).

Definition reserved {A} (bytes : Z) (c : V A) : V A :=
  let* _ := reserveInflight bytes in finally c (releaseInflight bytes).

Definition WindowByByte (ctx : option Context) (request : ByteWindowRequest) : V Window :=
  withTask ctx (fun ctx =>
    let offset := br_Offset request in
    if (offset <? 0) || (br_Before request <? 0) || (br_After request <? 0) then vfail virtual_ErrInvalidRequest else
    let* state := capture (br_Revision request) (br_Generation request) in
    let* length := asks p_length in
    if length <? offset then vfail virtual_ErrInvalidRequest else
    let* p := asks id in
    let* budget := of_result (resolveBudget p (br_Budget request)) in
    let pages := st_pages state in
    let anchor := pageAtByte pages offset length in
    let first := if 0 <? br_Before request then pageAtByte pages (offset - Z.min offset (br_Before request)) length else anchor in
    let last :=
      if 0 <? br_After request then
        let endOffset := if (offset <=? maxInt64 - br_After request) && (offset + br_After request <? length)
                         then offset + br_After request else length in
        if offset <? endOffset then pageBeforeByte pages endOffset length else anchor
      else anchor in
    reserved (bu_Bytes budget) (readWindow ctx state anchor anchor first last budget)).

Definition WindowByFragment (ctx : option Context) (request : FragmentWindowRequest) : V Window :=
  withTask ctx (fun ctx =>
    if bool_decide (fq_ID request = ""%string) || (fq_Continuation request <? 0) || (fq_Before request <? 0) || (fq_After request <? 0)
    then vfail virtual_ErrInvalidRequest else
    let* state := capture (fq_Revision request) (fq_Generation request) in
    match st_fragmentByID state !! fq_ID request with
    | None => vfail virtual_ErrNotFound
    | Some fragmentIndex =>
      let* p := asks id in
      let* budget := of_result (resolveBudget p (fq_Budget request)) in
      let fragments := st_fragments state in
      let firstFragment := fragmentIndex - Z.min fragmentIndex (fq_Before request) in
      let lastFragment := zlen fragments - 1 in
      let lastFragment := if fq_After request <? lastFragment - fragmentIndex then fragmentIndex + fq_After request else lastFragment in
      let target := fragment_at fragments fragmentIndex in
      if fm_pageLast target - fm_pageFirst target + 1 <=? fq_Continuation request then vfail virtual_ErrInvalidRequest else
      let anchor := fm_pageFirst target + fq_Continuation request in
      reserved (bu_Bytes budget)
        (readWindow ctx state anchor anchor (fm_pageFirst (fragment_at fragments firstFragment))
           (fm_pageLast (fragment_at fragments lastFragment)) budget)
    end).

Definition WindowByMeasure (ctx : option Context) (request : MeasureWindowRequest) : V Window :=
  withTask ctx (fun ctx =>
    let offset := mr_Offset request in
    let affinity := mr_Affinity request in
    if (offset <? 0) || (mr_Before request <? 0) || (mr_After request <? 0) || bool_decide (affinity = AffinityOther)
    then vfail virtual_ErrInvalidRequest else
    let* state := capture (mr_Revision request) (mr_Generation request) in
    let fragments := st_fragments state in
    let total := st_totalMeasure state in
    if zlen fragments =? 0 then vfail virtual_ErrMeasureUnavailable else
    if total <? offset then vfail virtual_ErrInvalidRequest else
    let* p := asks id in
    let* budget := of_result (resolveBudget p (mr_Budget request)) in
    let fragmentIndex := fragmentAtMeasure fragments offset affinity in
    let fragment := fragment_at fragments fragmentIndex in
    let anchor :=
      if (0 <? total) && (offset =? 0) then fm_pageFirst fragment
      else if (0 <? total) && (offset =? total) then fm_pageLast fragment
      else if bool_decide (affinity = AffinityBefore) then fm_pageLast fragment else fm_pageFirst fragment in
    let firstFragment :=
      if 0 <? mr_Before request then
        let start := offset - Z.min offset (mr_Before request) in
        if start <? offset then fragmentAtMeasure fragments start AffinityAfter else fragmentIndex
      else fragmentIndex in
    let lastFragment :=
      if 0 <? mr_After request then
        let endMeasure := if (offset <=? maxInt64 - mr_After request) && (offset + mr_After request <? total)
                          then offset + mr_After request else total in
        if offset <? endMeasure then fragmentAtMeasure fragments endMeasure AffinityBefore else fragmentIndex
      else fragmentIndex in
    reserved (bu_Bytes budget)
      (readWindow ctx state anchor anchor (fm_pageFirst (fragment_at fragments firstFragment))
         (fm_pageLast (fragment_at fragments lastFragment)) budget)).

(** ** Installing a publication *)

Definition nextState (publication : Publication) (pages : list pageMeta) (fragments : list fragmentMeta) (total : Measure) (keyBytes : Z)
  : pagerState :=
  mkPagerState (pu_BaseGeneration publication + 1) pages fragments
    (fold_left (fun m '(index, f) => <[f_ID (fm_Fragment f) := Z.of_nat index]> m) (imap pair fragments) ∅)
    (pu_IndexedThrough publication) (pu_Complete publication) total keyBytes.

Definition publish (ctx : Context) (publication : Publication) : V Stats :=
  let* _ := lift (cpoll ctx) in
  let* (revision, length, baseGeneration) := lock (fun _ p =>
    (p, if p_closed p then Err virtual_ErrClosed else Ok (p_revision p, p_length p, st_generation (p_state p)))) in
  if negb (pu_Revision publication =? revision) then vfail virtual_ErrRevisionMismatch else
  if negb (pu_BaseGeneration publication =? baseGeneration) then vfail virtual_ErrStaleGeneration else
  if baseGeneration =? maxUint64 then vfail virtual_ErrGenerationOverflow else
  let* p := asks id in
  let* (fragments, total, keyBytes) := lift (validateFragments ctx (p_options p) publication length) in
  let* (pages, fragments) :=
    lift (buildPublishedPages ctx (src_ReadAt (p_source p)) length (p_logical p) fragments (pu_IndexedThrough publication)
            (pu_Complete publication)) in
  let state := nextState publication pages fragments total keyBytes in
  lock (fun _ p =>
    if p_closed p then (p, Err virtual_ErrClosed) else
    if negb (st_generation (p_state p) =? baseGeneration) then (p, Err virtual_ErrStaleGeneration) else
    let p := clearCacheLocked (set_state state p) in (p, Ok (statsLocked p))).

(** ** Progress (progress.go)

    [po_emitted] is what the observer was handed. *)

Record progressOperation := mkOperation {
  po_observer : bool; po_value : Progress; po_maxFragments : Z; po_reporting : bool; po_reportError : option error;
  po_finished : bool; po_emitted : list Progress }.

Definition emitLocked (o : progressOperation) : progressOperation :=
  mkOperation (po_observer o) (po_value o) (po_maxFragments o) (po_reporting o) (po_reportError o) (po_finished o)
    (if po_observer o then po_emitted o ++ [po_value o] else po_emitted o).
Definition set_value (v : Progress) (o : progressOperation) : progressOperation :=
  mkOperation (po_observer o) v (po_maxFragments o) (po_reporting o) (po_reportError o) (po_finished o) (po_emitted o).
Definition set_reportError (e : error) (o : progressOperation) : progressOperation :=
  mkOperation (po_observer o) (po_value o) (po_maxFragments o) (po_reporting o) (Some e) (po_finished o) (po_emitted o).

Definition ProgressKind_isPublish (kind : ProgressKind) : bool := match kind with ProgressPublish => true | _ => false end.

Definition startProgress (kind : ProgressKind) : V (option progressOperation) :=
  let* o := lock (fun _ p =>
    if p_closed p then (p, Err virtual_ErrClosed) else
    if negb (p_observer p) && ProgressKind_isPublish kind then (p, Ok None) else
    if p_nextOperationID p =? maxUint64 then (p, Err virtual_ErrOperationOverflow) else
    let p := set_nextOperationID (p_nextOperationID p + 1) p in
    (p, Ok (Some (mkOperation (p_observer p)
       (mkProgress (p_nextOperationID p) kind ProgressStarted (p_revision p) (st_generation (p_state p)) 0 (p_length p) 0 0 false false None)
       (ro_maximumFragments (p_options p)) (match kind with ProgressRefresh => true | _ => false end) None false [])))) in
  vret (option_map emitLocked o).

Definition advanced (v : Progress) (indexedThrough fragments : Z) : Progress :=
  mkProgress (vp_OperationID v) (vp_Kind v) ProgressAdvanced (vp_Revision v) (vp_BaseGeneration v) (vp_PublishedGeneration v)
    (vp_ByteLength v) indexedThrough fragments (vp_Complete v) (vp_Published v) (vp_Cause v).

(** [polled] is the answer of the context, asked only when the call comes in time. *)
Definition report (polled : option error) (progress : FragmentProgress) (o : progressOperation) : progressOperation * option error :=
  if negb (po_reporting o) || po_finished o then (o, Some virtual_ErrStaleGeneration) else
  match po_reportError o with
  | Some e => (o, Some e)
  | None =>
    match polled with
    | Some e => (set_reportError e o, Some e)
    | None =>
      let v := po_value o in
      if (fp_IndexedThrough progress <? vp_IndexedThrough v) || (vp_ByteLength v <? fp_IndexedThrough progress) ||
         (fp_Fragments progress <? vp_Fragments v) || (po_maxFragments o <? fp_Fragments progress)
      then (set_reportError virtual_ErrInvalidPublication o, Some virtual_ErrInvalidPublication)
      else if (fp_IndexedThrough progress =? vp_IndexedThrough v) && (fp_Fragments progress =? vp_Fragments v) then (o, None)
      else (emitLocked (set_value (advanced v (fp_IndexedThrough progress) (fp_Fragments progress)) o), None)
    end
  end.

Definition stop_reporting (v : Progress) (o : progressOperation) : progressOperation :=
  mkOperation (po_observer o) v (po_maxFragments o) false (po_reportError o) (po_finished o) (po_emitted o).

Definition finishProvider (result : FragmentResult) (providerErr : option error) (o : progressOperation)
  : progressOperation * option error :=
  let v := po_value o in
  match po_reportError o with
  | Some e => (stop_reporting v o, errors_Join (Some e) providerErr)
  | None =>
    match providerErr with
    | Some e => (stop_reporting v o, Some e)
    | None =>
      if (fr_IndexedThrough result <? vp_IndexedThrough v) || (zlen (fr_Fragments result) <? vp_Fragments v)
      then (stop_reporting v o, Some virtual_ErrInvalidPublication)
      else (stop_reporting (mkProgress (vp_OperationID v) (vp_Kind v) (vp_Stage v) (vp_Revision v) (vp_BaseGeneration v)
              (vp_PublishedGeneration v) (vp_ByteLength v) (fr_IndexedThrough result) (zlen (fr_Fragments result))
              (fr_Complete result) (vp_Published v) (vp_Cause v)) o, None)
    end
  end.

Definition finish (r : result Stats) (o : progressOperation) : progressOperation :=
  if po_finished o then o else
  let v := po_value o in
  let v := match r with
    | Err e => mkProgress (vp_OperationID v) (vp_Kind v) ProgressFailed (vp_Revision v) (vp_BaseGeneration v) (vp_PublishedGeneration v)
        (vp_ByteLength v) (vp_IndexedThrough v) (vp_Fragments v) (vp_Complete v) (vp_Published v) (Some e)
    | Ok stats => mkProgress (vp_OperationID v) (vp_Kind v) ProgressCompleted (vp_Revision v) (vp_BaseGeneration v) (s_Generation stats)
        (vp_ByteLength v) (s_IndexedThrough stats) (s_Fragments stats) (s_Complete stats) true (vp_Cause v)
    end in
  emitLocked (mkOperation (po_observer o) v (po_maxFragments o) false (po_reportError o) true (po_emitted o)).

(** ** Publish and Refresh *)

Definition attempt {A} (c : V A) : V (result A) := fun k p => let '(k, p, r) := c k p in (k, p, Ok r).

(** An operation answers with its progress next to its result. *)
Definition observed (parent : option Context) (body : Context -> V (option progressOperation * result Stats))
  : V (option progressOperation * result Stats) :=
  let* task := attempt (acquireTask parent) in
  match task with
  | Err e => vret (None, Err e)
  | Ok ctx => finally (body ctx) releaseTask
  end.

Definition Publish (ctx : option Context) (publication : Publication) : V (option progressOperation * result Stats) :=
  observed ctx (fun ctx =>
    let* operation := attempt (startProgress ProgressPublish) in
    match operation with
    | Err e => vret (None, Err e)
    | Ok operation =>
      let* r := attempt (publish ctx publication) in
      vret (option_map (finish r) operation, r)
    end).

(** A run of a provider: the reports it made, in order, and its outcome. *)
Record FragmentRequest := mkRequest {
  rq_Revision : Z; rq_BaseGeneration : Z; rq_ByteLength : Z; rq_MaxFragments : Z; rq_MaxKeyBytes : Z; rq_MaxFragmentMeasure : Measure }.
Definition FragmentProvider : Type := FragmentRequest -> list FragmentProgress * (FragmentResult * option error).

Fixpoint run_reports (ctx : Context) (reports : list FragmentProgress) (o : progressOperation) : C progressOperation :=
  match reports with
  | [] => cret o
  | progress :: reports => fun k => run_reports ctx reports (report (ctx k) progress o).1 (S k)
  end.

Definition Refresh (ctx : option Context) (provider : option FragmentProvider) : V (option progressOperation * result Stats) :=
  observed ctx (fun ctx =>
    match provider with
    | None => vret (None, Err virtual_ErrInvalidPublication)
    | Some provider =>
      let* operation := attempt (startProgress ProgressRefresh) in
      match operation with
      | Err e => vret (None, Err e)
      | Ok None => vret (None, Err virtual_ErrInvalidPublication)
      | Ok (Some o) =>
        let* request := lock (fun _ p =>
          (p, Ok (mkRequest (p_revision p) (st_generation (p_state p)) (p_length p) (ro_maximumFragments (p_options p))
                    (ro_maximumKeyBytes (p_options p)) (bu_Measure (ro_window (p_options p)))))) in
        let '(reports, (result, providerErr)) := provider request in
        let* o := lift (run_reports ctx reports o) in
        let '(o, err) := finishProvider result providerErr o in
        match err with
        | Some e => vret (Some (finish (Err e) o), Err e)
        | None =>
          let* r := attempt (publish ctx (mkPublication (rq_Revision request) (rq_BaseGeneration request)
                      (fr_IndexedThrough result) (fr_Complete result) (fr_Fragments result))) in
          vret (Some (finish r o), r)
        end
      end
    end).
End Operations.

(** ** Rebuild

    The new pager is private until it is returned: nothing interferes. *)

Definition finishRebuild (lifecycle : nat -> bool) (ctx : option Context) (provider : option FragmentProvider) (pager : Pager) : C Pager := fun k =>
  match provider with
  | None => (k, Ok pager)
  | Some provider =>
    match Refresh (fun _ p => p) lifecycle ctx (Some provider) k pager with
    | (k, pager, Ok (_, Ok _)) => (k, Ok pager)
    | (k, pager, Ok (_, Err e)) | (k, pager, Err e) =>
      (k, Err (joinClose e (match p_release pager with Some err => err | None => None end)))
    end
  end.

Definition Rebuild (lifecycle : nat -> bool) (identity : pagerIdentity) (ctx : option Context) (source : option Source) (revision : Z)
  (previous : option Pager) (provider : option FragmentProvider) : C Pager :=
  match previous with None => cfail virtual_ErrInvalidPager | Some previous =>
  match rebuildOptions previous with
  | Err e => cfail e
  | Ok options => cbind (Build identity ctx source revision options) (finishRebuild lifecycle ctx provider)
  end end.

Definition RebuildOwned (lifecycle : nat -> bool) (identity : pagerIdentity) (ctx : option Context) (source : option OwnedSource) (revision : Z)
  (previous : option Pager) (provider : option FragmentProvider) : C Pager := fun k =>
  match source with None => (k, Err virtual_ErrInvalidSource) | Some source =>
  match previous with
  | None => (k, Err (joinClose virtual_ErrInvalidPager (own_Close source)))
  | Some previous =>
    match rebuildOptions previous with
    | Err e => (k, Err (joinClose e (own_Close source)))
    | Ok options => cbind (BuildOwned identity ctx (Some source) revision options) (finishRebuild lifecycle ctx provider) k
    end
  end end.
