(* ===== verification/VirtualPages.v ===== *)
(** * Pages of the virtual pager

    What a page says about its text, and that the logical pages of a build
    partition a UTF-8 text by the page policy. *)

From Stdlib Require Import ZArith Lia List.
From stdpp Require Import base list numbers gmap strings sorting.
From S2P Require Import Prelude GoLib Utf8 Polling Events Virtual.
#[local] Open Scope Z_scope.

(** ** Runes and line feeds *)

Definition rune_ok (r : list byte) : Prop := is_rune r = true.

Lemma rune_length r : rune_ok r -> 1 <= zlen r <= 4.
Proof. intros H. split; [by apply rune_len|]. unfold rune_ok in H. by destruct r as [|? [|? [|? [|? [|]]]]]. Qed.

Lemma newline_start : utf8_RuneStart newline = true.
Proof. done. Qed.

Lemma rune_newline r b : rune_ok r -> In b r -> b = newline -> r = [newline].
Proof.
  intros Hr Hin ->. destruct (rune_shape r Hr) as (b0 & bs & -> & _ & Hbs). destruct Hin as [->|Hin].
  - unfold rune_ok in Hr. by destruct bs as [|? [|? [|? [|]]]].
  - rewrite List.Forall_forall in Hbs. specialize (Hbs _ Hin). by rewrite newline_start in Hbs.
Qed.

Lemma count_newlines_none l : ~ In newline l -> count_newlines l = 0.
Proof.
  induction l as [|b l IH]; [done|]. cbn [count_newlines In]. intros H. destruct (decide (b = newline)) as [->|]; [by destruct H; left|].
  rewrite IH; [done|]. intros ?. apply H. by right.
Qed.

Lemma rune_newlines r : rune_ok r -> count_newlines r = if bool_decide (r = [newline]) then 1 else 0.
Proof.
  intros Hr. destruct (bool_decide_reflect (r = [newline])) as [->|Hne]; [done|].
  apply count_newlines_none. intros Hin. apply Hne. by eapply rune_newline.
Qed.

Lemma ztake_prefix (l pre post : list byte) k : l = pre ++ post -> k = zlen pre -> ztake k l = pre.
Proof. intros -> ->. by apply ztake_app. Qed.

(** ** What a page says about its text *)

Definition lines (doc : list byte) (offset : Z) : Z := count_newlines (ztake offset doc).
Definition lf_before (doc : list byte) (offset : Z) : bool := (0 <? offset) && bool_decide (doc !! Z.to_nat (offset - 1) = Some newline).
(** A rune boundary of a text that is valid up to it. *)
Definition cut (doc : list byte) (offset : Z) : Prop := 0 <= offset <= zlen doc /\ utf8_Valid (ztake offset doc) = true.

Record page_text (doc : list byte) (p : pageMeta) : Prop := {
  pt_range : pm_start p < pm_end p;
  pt_start : cut doc (pm_start p);
  pt_end : cut doc (pm_end p);
  pt_startLine : pm_startLine p = lines doc (pm_start p);
  pt_endLine : pm_endLine p = lines doc (pm_end p);
  pt_continuesFrom : pm_continuesFrom p = (0 <? pm_start p) && negb (lf_before doc (pm_start p));
  pt_continuesTo : pm_continuesTo p = (pm_end p <? zlen doc) && negb (lf_before doc (pm_end p));
  pt_endsWithLF : pm_endsWithLF p = lf_before doc (pm_end p) }.

(** Pages in a row, from one offset to another. *)
Fixpoint tiles (a b : Z) (pages : list pageMeta) : Prop :=
  match pages with
  | [] => a = b
  | p :: pages => pm_start p = a /\ tiles (pm_end p) b pages
  end.

Lemma tiles_snoc a b pages p : tiles a (pm_start p) pages -> pm_end p = b -> tiles a b (pages ++ [p]).
Proof. revert a. induction pages as [|q pages IH]; intros a; cbn; [intros ->; auto|]. intros [-> H] E. auto. Qed.

Lemma tiles_last a b pages : tiles a b pages -> pages = [] /\ a = b \/ pages <> [] /\ pm_end (List.last pages zeroPage) = b.
Proof.
  revert a. induction pages as [|p pages IH]; intros a; cbn [tiles]; [intros ->; by left|]. intros [_ H]. right. split; [done|].
  destruct pages as [|q pages]; [exact H|]. destruct (IH _ H) as [[? _]|[_ E]]; [done|exact E].
Qed.

(** How the builder cuts: within the maximum, at the first line feed from the
    target on, else where the next rune does not fit, else at the end. *)
Record page_policy (doc : list byte) (target maximum : Z) (p : pageMeta) : Prop := {
  pp_size : pm_end p - pm_start p <= maximum;
  pp_short : forall offset, pm_start p < offset < pm_end p -> lf_before doc offset = true -> offset - pm_start p < target;
  pp_close : pm_end p = zlen doc \/ (lf_before doc (pm_end p) = true /\ target <= pm_end p - pm_start p) \/
    exists r rest, zdrop (pm_end p) doc = r ++ rest /\ rune_ok r /\ maximum < pm_end p + zlen r - pm_start p }.

Section Logical.
Context (doc : list byte) (options : resolvedOptions).
Hypothesis Hdoc : zlen doc <= maxInt64.
Hypothesis Hoptions : 4 <= ro_targetPageBytes options <= ro_maximumPageBytes options.

Definition logical_page (p : pageMeta) : Prop :=
  page_text doc p /\ page_policy doc (ro_targetPageBytes options) (ro_maximumPageBytes options) p /\
  pm_fragment p = -1 /\ pm_indexed p = false /\
  pm_continuation p = 0 /\ pm_continuations p = 0 /\ pm_measureStart p = 0 /\ pm_measureEnd p = 0.

(** The scan has read [n] bytes: what its state says of the text, and that the
    open page may go on. *)
Record scan_base (n : Z) (s : page_scan) : Prop := {
  si_cut : cut doc n;
  si_tiles : tiles 0 (ps_pageStart s) (ps_pages s);
  si_pages : Forall logical_page (ps_pages s);
  si_start : 0 <= ps_pageStart s <= n;
  si_valid : cut doc (ps_pageStart s);
  si_startLine : ps_pageStartLine s = lines doc (ps_pageStart s);
  si_line : ps_line s = lines doc n;
  si_lf : ps_previousRuneLF s = lf_before doc n }.
Record scan_inv (n : Z) (s : page_scan) : Prop := {
  si_base : scan_base n s;
  si_room : n - ps_pageStart s <= ro_maximumPageBytes options;
  si_short : forall offset, ps_pageStart s < offset <= n -> lf_before doc offset = true -> offset - ps_pageStart s < ro_targetPageBytes options }.

Let target := ro_targetPageBytes options.
Let maximum := ro_maximumPageBytes options.

(** Closing the page that ends at [n]. *)
Lemma append_page n s : scan_base n s -> ps_pageStart s < n ->
  page_policy doc target maximum (mkPageMeta (ps_pageStart s) n 0 0 false false false (-1) 0 0 0 0 false) ->
  scan_inv n (appendPage (zlen doc) n (ps_line s) (lf_before doc n) s).
Proof.
  intros [H1 H2 H3 H4 H5 H6 H7 H8] Hlt [P1 P2 P3]. cbn in P1, P2, P3. unfold appendPage.
  assert ((0 <? ps_pageStart s) && (0 <? zlen (ps_pages s)) && negb (pm_endsWithLF (List.last (ps_pages s) zeroPage)) =
    (0 <? ps_pageStart s) && negb (lf_before doc (ps_pageStart s))) as ->.
  { destruct (Z.ltb_spec 0 (ps_pageStart s)) as [Hp|]; [|done]. cbn [andb].
    destruct (tiles_last _ _ _ H2) as [[_ E]|[Hne E]]; [lia|].
    destruct (ps_pages s) as [|q qs _] using rev_ind; [done|]. rewrite List.last_last in E |- *.
    apply Forall_app in H3 as [_ H3]. apply Forall_cons_iff in H3 as [[Hq _] _].
    rewrite (pt_endsWithLF _ _ Hq), E.
    assert (0 <? zlen (qs ++ [q]) = true) as -> by (rewrite zlen_app, zlen_cons; pose proof (zlen_nonneg qs); pose proof (zlen_nonneg (@nil pageMeta)); lia).
    done. }
  split; [split|..]; cbn [ps_pages ps_pageStart ps_pageStartLine ps_line ps_previousRuneLF ps_pending]; try done; try lia.
  - apply tiles_snoc; [exact H2|done].
  - apply Forall_app. split; [done|]. constructor; [|constructor]. split; [by split|]. split; [by split|by split_and!].
Qed.

Lemma cut_rune n r rest : cut doc n -> zdrop n doc = r ++ rest -> rune_ok r ->
  cut doc (n + zlen r) /\ zdrop (n + zlen r) doc = rest /\
  lines doc (n + zlen r) = lines doc n + (if bool_decide (r = [newline]) then 1 else 0) /\
  lf_before doc (n + zlen r) = bool_decide (r = [newline]) /\
  (forall offset, n < offset < n + zlen r -> lf_before doc offset = false).
Proof.
  intros [Hn Hv] Hd Hr. pose proof (rune_length r Hr) as Hsz. pose proof (zlen_nonneg rest).
  assert (zlen doc = n + zlen r + zlen rest) as Hlen.
  { rewrite <-(ztake_zdrop n doc), Hd, !zlen_app, zlen_ztake. lia. }
  assert (ztake (n + zlen r) doc = ztake n doc ++ r) as Ht.
  { rewrite <-(ztake_zdrop n doc) at 1. rewrite ztake_app_r by (rewrite zlen_ztake; lia). f_equal. rewrite zlen_ztake, Hd.
    rewrite ztake_app by lia. done. }
  assert (forall k, 0 <= k < zlen r -> doc !! Z.to_nat (n + k) = r !! Z.to_nat k) as Hat.
  { intros k Hk. replace (Z.to_nat (n + k)) with (Z.to_nat n + Z.to_nat k)%nat by lia. rewrite <-lookup_drop.
    change (drop (Z.to_nat n) doc) with (zdrop n doc). rewrite Hd. apply lookup_app_l. unfold zlen in *. lia. }
  assert (forall k, 0 < k <= zlen r -> lf_before doc (n + k) = true -> r = [newline]) as Hlf.
  { intros k Hk [_ Hb%bool_decide_eq_true]%andb_true_iff. replace (n + k - 1) with (n + (k - 1)) in Hb by lia.
    rewrite Hat in Hb by lia. apply (rune_newline r newline Hr); [|done]. by apply list_elem_of_In, list_elem_of_lookup; eexists. }
  split; [split; [lia|]; rewrite Ht; rewrite Valid_app by done; rewrite <-(app_nil_r r); by rewrite Valid_rune|].
  split; [rewrite <-zdrop_zdrop, Hd, zdrop_app by lia; done|].
  split; [unfold lines; rewrite Ht, count_newlines_app, (rune_newlines r Hr); done|]. split.
  - destruct (bool_decide_reflect (r = [newline])) as [E|E].
    + unfold lf_before. rewrite (proj2 (Z.ltb_lt 0 _)) by lia. cbn [andb]. apply bool_decide_eq_true.
      replace (n + zlen r - 1) with (n + 0) by (rewrite E; change (zlen [newline]) with 1; lia).
      rewrite Hat by lia. by rewrite E.
    + destruct (lf_before doc (n + zlen r)) eqn:Eb; [|done]. by destruct E; apply (Hlf (zlen r)); [lia|].
  - intros offset Ho. destruct (lf_before doc offset) eqn:Eb; [|done]. replace offset with (n + (offset - n)) in Eb by lia.
    apply Hlf in Eb; [|lia]. subst r. change (zlen [newline]) with 1 in Ho. lia.
Qed.

Lemma page_rune_inv n s r rest c : scan_inv n s -> zdrop n doc = r ++ rest -> rune_ok r -> (c =? 10) = bool_decide (r = [newline]) ->
  scan_inv (n + zlen r) (page_rune options (zlen doc) n (n + zlen r) c s).
Proof.
  intros H Hd Hr Hc. pose proof (rune_length r Hr) as Hsz. unfold page_rune. rewrite Hc.
  destruct (cut_rune n r rest (si_cut _ _ (si_base _ _ H)) Hd Hr) as (Hcut & _ & Hlines & Hlf & Hno).
  (* the page is closed in front of a rune that does not fit *)
  set (s1 := if _ <? _ then _ else s).
  assert (scan_inv n s1 /\ n + zlen r - ps_pageStart s1 <= maximum) as [[[In I2 I3 I4 I5 I6 I7 I8] I9 I10] Hroom].
  { subst s1. fold maximum. destruct (Z.ltb_spec maximum (n + zlen r - ps_pageStart s)) as [Hbig|]; [|by split].
    split; [|cbn; lia]. rewrite (si_lf _ _ (si_base _ _ H)). apply append_page; [apply H|lia|]. split; cbn.
    - apply (si_room _ _ H).
    - intros offset Ho. apply (si_short _ _ H). lia.
    - right; right. exists r, rest. done. }
  clearbody s1. clear H s. set (lf := bool_decide (r = [newline])) in *. destruct In as [In Iv]. pose proof (proj1 Hcut) as Hend.
  assert (ps_line s1 ⊞ 1 = lines doc n + 1) as Hwrap.
  { rewrite I7. pose proof (count_newlines_bounds (ztake n doc)) as Hb. fold (lines doc n) in Hb. rewrite zlen_ztake in Hb.
    unfold maxInt64 in Hdoc. by unwrap64_goal. }
  set (s2 := set_line _ _ s1). assert (scan_base (n + zlen r) s2) as Hbase.
  { split; try done; cbn; [lia|]. destruct lf; [rewrite Hwrap|rewrite I7]; lia. }
  assert (forall offset, ps_pageStart s2 < offset < n + zlen r -> lf_before doc offset = true -> offset - ps_pageStart s2 < target) as Hshort.
  { cbn. intros offset Ho Hb. destruct (decide (offset <= n)); [apply I10; [lia|done]|]. rewrite Hno in Hb; [done|lia]. }
  fold target. destruct (Z.leb_spec target (n + zlen r - ps_pageStart s2)) as [Ht|Ht]; cbn [andb].
  - destruct lf eqn:Elf; [rewrite <-Hlf; apply append_page; [done|cbn in *; lia|]; split; [exact Hroom|exact Hshort|by right; left]|].
    split; [done|exact Hroom|]. intros offset Ho Hb. destruct (decide (offset = n + zlen r)) as [->|]; [congruence|]. apply Hshort; [lia|done].
  - split; [done|exact Hroom|]. intros offset Ho Hb. destruct (decide (offset = n + zlen r)) as [->|]; [done|]. apply Hshort; [lia|done].
Qed.

(** ** The scan *)

Definition scanned (n : Z) (data : list byte) (r : result page_scan) : Prop :=
  match r with
  | Ok s => exists d, data = d ++ ps_pending s /\ scan_inv (n + zlen d) s /\ partial (ps_pending s)
  | Err e => e = virtual_ErrInvalidUTF8 /\ forall q, utf8_Valid (data ++ q) = false
  end.

Lemma scan_inv_pending n s pending : scan_inv n s -> scan_inv n (set_pending pending s).
Proof. intros [[] ? ?]. by split; [split|..]. Qed.

Lemma page_rune_pending length start last c s : ps_pending (page_rune options length start last c s) = ps_pending s.
Proof. unfold page_rune. destruct (_ <? _); cbn; destruct (_ && _); done. Qed.

Lemma page_runes_spec ctx fuel : forall data rest n s,
  (length data <= fuel)%nat -> scan_inv n s -> ps_pending s = [] -> zdrop n doc = data ++ rest ->
  yields ctx (page_runes ctx fuel options (zlen doc) n data s) (scanned n data).
Proof.
  assert (forall n s, scan_inv n s -> ps_pending s = [] -> scanned n [] (Ok s)) as Hdone.
  { intros n s Hs Hp. exists []. rewrite Hp, (@zlen_nil byte), Z.add_0_r. split; [done|]. split; [done|by left]. }
  induction fuel as [|fuel IH]; intros data rest n s Hf Hs Hp Hd; cbn [page_runes].
  { destruct data; [|cbn in Hf; lia]. by apply yields_ret, Hdone. }
  destruct (Z.eqb_spec (zlen data) 0) as [E|Hne]; [rewrite (zlen_zero data) by done; by apply yields_ret, Hdone|].
  apply yields_poll. assert (data <> []) as Hnil by (intros ->; done).
  destruct (front_spec data Hnil) as [r q c Hr Hfull Hdec Hc Hv|p Hfull Hdec Hi|p Hfull Hlen Hv].
  - rewrite Hfull. cbn [negb]. destruct (rune_decodes r q Hr) as (_ & c' & Hdec' & _ & Hn10). rewrite Hdec in Hdec'. injection Hdec' as <-.
    rewrite Hdec, Hc, zdrop_app by done. rewrite <-app_assoc in Hd.
    assert ((c =? 10) = bool_decide (r = [newline])) as Hnl.
    { destruct (bool_decide_reflect (r = [newline])); [apply Z.eqb_eq; by apply Hn10|]. apply Z.eqb_neq. by intros ->%Hn10. }
    pose proof (page_rune_inv n s r (q ++ rest) c Hs Hd Hr Hnl) as Hstep.
    destruct (cut_rune n r (q ++ rest) (si_cut _ _ (si_base _ _ Hs)) Hd Hr) as (_ & Hd' & _). pose proof (rune_length r Hr) as Hsz.
    intros k. destruct (IH q rest (n + zlen r) _ ltac:(rewrite length_app in Hf; unfold zlen in Hsz; lia) Hstep
      ltac:(by rewrite page_rune_pending) Hd' k) as [Hy|Hy]; [left|by right].
    destruct (page_runes _ _ _ _ _ _ _ k) as [k' [s'|e]]; cbn [snd scanned] in *.
    + destruct Hy as (d & -> & Hs' & Hp'). exists (r ++ d). rewrite zlen_app, Z.add_assoc, app_assoc. done.
    + destruct Hy as [-> Hy]. split; [done|]. intros q'. rewrite <-app_assoc, Valid_rune by done. apply Hy.
  - rewrite Hfull, Hdec. cbn. apply yields_fail. by split.
  - rewrite Hfull. cbn [negb]. apply yields_ret. exists []. cbn [app ps_pending set_pending]. rewrite (@zlen_nil byte), Z.add_0_r.
    split; [done|]. split; [by apply scan_inv_pending|]. by right.
Qed.

Context (source : ReaderAt) (Hsource : ReaderOk source doc).

Definition read_all (r : result page_scan) : Prop :=
  match r with
  | Ok s => exists n, doc = ztake n doc ++ ps_pending s /\ scan_inv n s /\ partial (ps_pending s)
  | Err e => e = virtual_ErrInvalidUTF8 /\ utf8_Valid doc = false
  end.

Lemma page_loop_spec ctx fuel : forall offset n s,
  0 <= offset <= zlen doc -> (Z.to_nat (zlen doc - offset) < fuel)%nat ->
  scan_inv n s -> partial (ps_pending s) -> ztake offset doc = ztake n doc ++ ps_pending s ->
  yields ctx (page_loop ctx fuel source options (zlen doc) offset s) read_all.
Proof.
  induction fuel as [|fuel IH]; intros offset n s Ho Hf Hs Hp Htext; [lia|]. cbn [page_loop].
  destruct (Z.ltb_spec offset (zlen doc)) as [Hlt|Hge]; cbn [negb].
  2:{ apply yields_ret. exists n. split; [|done]. rewrite <-Htext. by rewrite ztake_all by lia. }
  apply yields_poll. cbv zeta. unfold scanBufferBytes. set (want := Z.min 65536 (zlen doc - offset)).
  destruct (reader_full offset want) as [Hgot Herr]; [lia..|].
  destruct (source offset want) as [got err]. cbn [fst snd] in *. subst got. rewrite (zlen_slice offset want doc), Z.ltb_irrefl by lia.
  destruct (si_cut _ _ (si_base _ _ Hs)) as [Hn Hv].
  pose proof (f_equal zlen Htext) as Hl. rewrite zlen_app, !zlen_ztake in Hl by lia. pose proof (zlen_nonneg (ps_pending s)).
  assert (zdrop n doc = (ps_pending s ++ slice offset want doc) ++ zdrop (offset + want) doc) as Hdrop.
  { assert (doc = ztake n doc ++ (ps_pending s ++ slice offset want doc) ++ zdrop (offset + want) doc) as E.
    { rewrite !app_assoc, <-Htext. rewrite <-(ztake_zdrop offset doc) at 1. rewrite <-app_assoc. f_equal. unfold slice.
      rewrite <-(ztake_zdrop want (zdrop offset doc)) at 1. f_equal. by rewrite zdrop_zdrop by lia. }
    rewrite E at 1. apply zdrop_app. rewrite zlen_ztake. lia. }
  replace (offset - zlen (ps_pending s)) with n by lia.
  eapply yields_bind; [apply (page_runes_spec ctx _ _ _ n _ (Nat.le_refl _) (scan_inv_pending _ _ [] Hs) eq_refl Hdrop)|..].
  - intros s' (d & Hdata & Hs' & Hp').
    assert (ztake (offset + want) doc = ztake (n + zlen d) doc ++ ps_pending s') as Hnext.
    { assert (doc = (ztake n doc ++ d) ++ ps_pending s' ++ zdrop (offset + want) doc) as E.
      { rewrite <-app_assoc, (app_assoc d), <-Hdata, <-Hdrop. by rewrite ztake_zdrop. }
      assert (zlen (ztake n doc ++ d) = n + zlen d) as El by (rewrite zlen_app, zlen_ztake; lia).
      apply (f_equal zlen) in Hdata as Hdl. rewrite !zlen_app, zlen_slice in Hdl by lia.
      rewrite (ztake_prefix doc ((ztake n doc ++ d) ++ ps_pending s') (zdrop (offset + want) doc) (offset + want));
        [|rewrite <-(app_assoc (ztake n doc ++ d)); exact E|rewrite zlen_app, El; lia].
      by rewrite (ztake_prefix doc (ztake n doc ++ d) (ps_pending s' ++ zdrop (offset + want) doc) (n + zlen d)). }
    assert (yields ctx (page_loop ctx fuel source options (zlen doc) (offset + want) s') read_all) as Hgo
      by (apply (IH _ (n + zlen d)); [lia|lia|done|done|done]).
    destruct Herr as [->|[-> Hend]].
    + rewrite (proj2 (Z.eqb_neq want 0)) by lia. exact Hgo.
    + cbn [errors_Is]. rewrite bool_decide_true, (proj2 (Z.eqb_eq _ _)) by (done || lia). exact Hgo.
  - intros e [-> Hinv]. split; [done|]. rewrite <-(ztake_zdrop n doc), Valid_app, Hdrop by done. apply Hinv.
Qed.

(** The pages of a text: a partition by the policy, or one empty page. *)
Definition logical_pages (pages : list pageMeta) : Prop :=
  doc = [] /\ pages = [zeroPage] \/ doc <> [] /\ tiles 0 (zlen doc) pages /\ Forall logical_page pages.

Definition logical_answer (r : result (list pageMeta)) : Prop :=
  match r with
  | Ok pages => utf8_Valid doc = true /\ logical_pages pages
  | Err e => e = virtual_ErrInvalidUTF8 /\ utf8_Valid doc = false
  end.

Lemma scan_inv_start : scan_inv 0 (mkPageScan [] 0 0 0 false []).
Proof.
  pose proof (zlen_nonneg doc). split; [|cbn; lia|intros offset Ho; cbn in Ho; lia].
  assert (cut doc 0) by (split; [lia|done]). by split.
Qed.

Lemma buildLogicalPages_spec ctx : yields ctx (buildLogicalPages ctx source (zlen doc) options) logical_answer.
Proof.
  unfold buildLogicalPages. pose proof (zlen_nonneg doc).
  eapply yields_bind; [apply (page_loop_spec ctx _ 0 0 _); [lia|lia|apply scan_inv_start|by left|done]|..].
  - intros s (n & Htext & Hs & Hp). destruct (si_cut _ _ (si_base _ _ Hs)) as [Hn Hv].
    destruct (Z.eqb_spec (zlen (ps_pending s)) 0) as [E|Hne]; cbn [negb].
    2:{ apply yields_fail. split; [done|]. rewrite Htext, Valid_app by done.
        destruct Hp as [E|(_ & _ & ?)]; [rewrite E in Hne; by destruct Hne|done]. }
    apply yields_poll, yields_ret. rewrite (zlen_zero _ E), app_nil_r in Htext.
    assert (n = zlen doc) as -> by (apply (f_equal zlen) in Htext; rewrite zlen_ztake in Htext; lia).
    split; [by rewrite Htext|]. destruct Hs as [Hb Hroom Hshort]. pose proof (si_start _ _ Hb) as Hst.
    assert (exists s', (if ps_pageStart s <? zlen doc then appendPage (zlen doc) (zlen doc) (ps_line s) (ps_previousRuneLF s) s else s) = s' /\
      tiles 0 (zlen doc) (ps_pages s') /\ Forall logical_page (ps_pages s')) as (s' & -> & Ht & Hpg).
    { eexists. split; [done|]. destruct (Z.ltb_spec (ps_pageStart s) (zlen doc)) as [Hlt|Hge].
      - rewrite (si_lf _ _ Hb). assert (scan_inv (zlen doc) (appendPage (zlen doc) (zlen doc) (ps_line s) (lf_before doc (zlen doc)) s)) as Hi.
        { apply append_page; [done|done|]. split; cbn; [exact Hroom|intros; apply Hshort; [lia|done]|by left]. }
        destruct Hi as [[_ I2 I3 _ _ _ _ _] _ _]. cbn [ps_pageStart appendPage] in I2. by split.
      - split; [|apply Hb]. replace (zlen doc) with (ps_pageStart s) by lia. apply Hb. }
    destruct (Z.eqb_spec (zlen (ps_pages s')) 0) as [E0|E0].
    + left. apply zlen_zero in E0. rewrite E0 in Ht |- *. cbn in Ht. split; [apply zlen_zero; lia|done].
    + right. split_and!; [|done|done]. intros E1. assert (zlen doc = 0) as E2 by (by rewrite E1). destruct (ps_pages s') as [|q qs]; [done|].
      apply Forall_cons_iff in Hpg as [[Hq _] _]. destruct Hq as [Hr [? _] [? _] _ _ _ _ _]. lia.
  - done.
Qed.
End Logical.
