(* ===== verification/VirtualPublish.v ===== *)
(** * Publications over the virtual pager

    The validation of fragments decides what the host has to keep to, and the
    pages of a publication are the logical pages cut at the fragments: one
    fragment is exactly its pages, numbered. *)

From Stdlib Require Import ZArith Lia List.
From stdpp Require Import base list numbers gmap strings sorting.
From S2P Require Import Prelude GoLib Utf8 Polling Events Virtual VirtualPages.
#[local] Open Scope Z_scope.

(** ** Offsets in order *)

Definition increasing (l : list Z) : Prop := StronglySorted Z.lt l.

Lemma compact_from_spec x l : Sorted Z.le (x :: l) ->
  increasing (x :: compact_from x l) /\ forall y, In y (x :: compact_from x l) <-> In y (x :: l).
Proof.
  revert x. induction l as [|y l IH]; intros x Hs; [by split; [repeat constructor|]|]. cbn [compact_from].
  inversion Hs as [|? ? Hs' Hx]; subst. inversion Hx as [|? ? Hxy]; subst. destruct (Z.eqb_spec y x) as [->|Hne].
  - destruct (IH x Hs') as [H1 H2]. split; [done|]. intros z. rewrite H2. cbn. naive_solver.
  - destruct (IH y Hs') as [H1 H2]. split.
    + constructor; [done|]. inversion H1 as [|? ? _ Hall]; subst. constructor; [lia|]. eapply List.Forall_impl; [|exact Hall]. cbn. lia.
    + intros z. split; intros [->|Hz]; [by left|right|by left|right]; by apply H2.
Qed.

Lemma sort_compact l : increasing (compactOffsets (sort_offsets l)) /\ forall x, In x (compactOffsets (sort_offsets l)) <-> In x l.
Proof.
  unfold sort_offsets. pose proof (Sorted_merge_sort Z.le l) as Hs. pose proof (merge_sort_Permutation Z.le l) as Hp.
  destruct (merge_sort Z.le l) as [|x k].
  - apply Permutation_nil_l in Hp. subst. by split; [constructor|].
  - cbn [compactOffsets]. destruct (compact_from_spec x k Hs) as [H1 H2]. split; [done|]. intros y. rewrite H2.
    split; intros; eapply Permutation_in; try done.
Qed.

Lemma span_spec p (l : list Z) : let '(a, b) := span p l in
  l = a ++ b /\ Forall (fun x => p x = true) a /\ match b with [] => True | x :: _ => p x = false end.
Proof.
  induction l as [|x l IH]; cbn [span]; [by repeat split|]. destruct (p x) eqn:E; [|by repeat split].
  destruct (span p l) as [a b]. destruct IH as (-> & Ha & Hb). repeat split; [by constructor|done].
Qed.

Lemma offsets_app a b : increasing (a ++ b) -> increasing a /\ increasing b /\ Forall (fun x => Forall (Z.lt x) b) a.
Proof.
  induction a as [|x a IH]; cbn; [intros H; by split_and!; [constructor|..]|]. intros H. inversion H as [|? ? Hs Hall]; subst.
  destruct (IH Hs) as (H1 & H2 & H3). apply Forall_app in Hall as [? ?]. split_and!; [by constructor|done|by constructor].
Qed.

(** Splitting an increasing list at a bound. *)
Lemma span_le bound l : increasing l -> let '(a, b) := span (fun x => x <=? bound) l in
  l = a ++ b /\ increasing b /\ Forall (fun x => x <= bound) a /\ Forall (fun x => bound < x) b.
Proof.
  intros Hl. pose proof (span_spec (fun x => x <=? bound) l) as H. destruct (span _ l) as [a b]. destruct H as (-> & Ha & Hb).
  destruct (offsets_app a b Hl) as (_ & H2 & _). split_and!; [done|done|eapply List.Forall_impl; [|exact Ha]; cbn; lia|].
  destruct b as [|x b]; [constructor|]. apply Z.leb_gt in Hb. inversion H2 as [|? ? _ Hall]; subst.
  constructor; [done|]. eapply List.Forall_impl; [|exact Hall]. cbn. lia.
Qed.
Lemma span_lt bound l : increasing l -> let '(a, b) := span (fun x => x <? bound) l in
  l = a ++ b /\ increasing a /\ increasing b /\ Forall (fun x => x < bound) a /\ Forall (fun x => bound <= x) b.
Proof.
  intros Hl. pose proof (span_spec (fun x => x <? bound) l) as H. destruct (span _ l) as [a b]. destruct H as (-> & Ha & Hb).
  destruct (offsets_app a b Hl) as (H1 & H2 & _). split_and!; [done|done|done|eapply List.Forall_impl; [|exact Ha]; cbn; lia|].
  destruct b as [|x b]; [constructor|]. apply Z.ltb_ge in Hb. inversion H2 as [|? ? _ Hall]; subst.
  constructor; [done|]. eapply List.Forall_impl; [|exact Hall]. cbn. lia.
Qed.

(** ** Reading and the lines at offsets *)

Lemma readExactAt_spec ctx source doc offset length fuel : ReaderOk source doc ->
  0 <= offset -> 0 <= length -> offset + length <= zlen doc -> (0 < fuel)%nat -> (length = 0 \/ (1 < fuel)%nat) ->
  yields ctx (readExactAt ctx fuel source offset length []) (fun r => r = Ok (slice offset length doc)).
Proof.
  intros Hs H0 Hl Hle Hf Hf2. destruct fuel as [|fuel]; [lia|]. cbn [readExactAt]. rewrite (@zlen_nil byte).
  destruct (Z.ltb_spec 0 length) as [Hpos|Hz]; cbn [negb].
  2:{ apply yields_ret. by rewrite slice_nil_len by lia. }
  apply yields_poll. rewrite Z.add_0_r, Z.sub_0_r. destruct (reader_full offset length) as [Hd He]; [lia..|].
  destruct (source offset length) as [got err]. cbn [fst snd app] in *. subst got. rewrite zlen_slice by lia.
  rewrite Z.ltb_irrefl.
  assert (yields ctx (readExactAt ctx fuel source offset length (slice offset length doc)) (fun r => r = Ok (slice offset length doc))) as Hend.
  { destruct fuel as [|fuel]; [lia|]. cbn [readExactAt]. rewrite zlen_slice, Z.ltb_irrefl by lia. cbn [negb]. by apply yields_ret. }
  destruct He as [->|[-> _]]; [rewrite andb_false_r|cbn [errors_Is]; rewrite bool_decide_true, Z.eqb_refl by done]; exact Hend.
Qed.

Definition page_bytes (doc : list byte) (p : pageMeta) : list byte := slice (pm_start p) (pm_end p - pm_start p) doc.

Lemma readPageBytes_spec ctx source doc p : ReaderOk source doc -> zlen doc <= maxInt64 ->
  0 <= pm_start p <= pm_end p -> pm_end p <= zlen doc ->
  yields ctx (readPageBytes ctx source p) (fun r => r = Ok (page_bytes doc p)).
Proof.
  intros Hs Hm H1 H2. unfold readPageBytes, maxInt64 in *. rewrite i64_id by (unfold in_i64, minInt64, maxInt64; lia).
  rewrite (proj2 (Z.ltb_ge _ _)) by lia. apply readExactAt_spec; [done|lia..].
Qed.

Section Lines.
Context (doc : list byte) (Hvalid : utf8_Valid doc = true) (Hdoc : zlen doc <= maxInt64).

Definition after_lf (x : Z) : bool := (x =? 0) || lf_before doc x.

(** Every entry tells the truth about its offset. *)
Definition maps_right (maps : line_maps) : Prop :=
  (forall x v, maps.1 !! x = Some v -> v = lines doc x) /\ (forall x v, maps.2 !! x = Some v -> v = after_lf x).
Definition known (maps : line_maps) (x : Z) : Prop := is_Some (maps.1 !! x) /\ is_Some (maps.2 !! x).

Definition enter (x line : Z) (lf : bool) (maps : line_maps) : line_maps := (<[x := line]> maps.1, <[x := lf]> maps.2).

Lemma enter_right x line lf maps : maps_right maps -> line = lines doc x -> lf = after_lf x -> maps_right (enter x line lf maps).
Proof.
  intros [H1 H2] -> ->. split; intros y v; cbn; intros Hv; destruct (decide (y = x)) as [->|Hne].
  - rewrite lookup_insert_eq in Hv. by injection Hv as <-.
  - rewrite lookup_insert_ne in Hv by done. by apply H1.
  - rewrite lookup_insert_eq in Hv. by injection Hv as <-.
  - rewrite lookup_insert_ne in Hv by done. by apply H2.
Qed.

Lemma enter_known x line lf maps y : y = x \/ known maps y -> known (enter x line lf maps) y.
Proof.
  intros H. unfold known, enter. cbn. destruct (decide (y = x)) as [->|Hne].
  - rewrite !lookup_insert_eq. split; by eexists.
  - rewrite !lookup_insert_ne by done. by destruct H.
Qed.

(** An offset of a valid text is a cut exactly when a rune starts there. *)
Lemma cut_byte x b : 0 <= x < zlen doc -> doc !! Z.to_nat x = Some b -> (cut doc x <-> utf8_RuneStart b = true).
Proof.
  intros Hx Hb. split.
  - intros [_ Hv]. rewrite <-(ztake_zdrop x doc), Valid_app in Hvalid by done.
    apply Valid_runes in Hvalid as (rs & Hrs & E). destruct rs as [|r rs].
    { apply (f_equal zlen) in E. rewrite zlen_zdrop in E. change (concat []) with (@nil byte) in E. rewrite (@zlen_nil byte) in E. lia. }
    apply Forall_cons_iff in Hrs as [Hr _]. destruct (rune_shape r Hr) as (b0 & bs & -> & Hs & _).
    apply (f_equal (fun l => l !! 0%nat)) in E. unfold zdrop in E. rewrite lookup_drop, Nat.add_0_r, Hb in E. by injection E as ->.
  - intros Hs. split; [lia|]. apply (Valid_cut doc x Hvalid); [lia|]. right; right. by exists b.
Qed.

Lemma lines_split x y : 0 <= x <= y -> lines doc y = lines doc x + count_newlines (slice x (y - x) doc).
Proof.
  intros H. unfold lines. rewrite <-count_newlines_app. f_equal. unfold slice.
  rewrite <-(ztake_zdrop x (ztake y doc)), ztake_ztake, zdrop_ztake by lia. f_equal. f_equal. lia.
Qed.

Lemma slice_lookup off n k : 0 <= off -> 0 <= k < n -> slice off n doc !! Z.to_nat k = doc !! Z.to_nat (off + k).
Proof.
  intros H1 H2. unfold slice, ztake, zdrop. rewrite lookup_take_lt by lia. rewrite lookup_drop. f_equal. lia.
Qed.

Lemma line_offsets_spec page offsets : 0 <= pm_start page -> pm_end page <= zlen doc -> forall cursor maps,
  0 <= cursor -> increasing offsets -> Forall (fun x => pm_start page + cursor < x < pm_end page) offsets -> maps_right maps ->
  match line_offsets page (page_bytes doc page) offsets cursor (lines doc (pm_start page + cursor)) maps with
  | Ok maps' => maps_right maps' /\ (forall x, In x offsets \/ known maps x -> known maps' x) /\ Forall (cut doc) offsets
  | Err e => e = virtual_ErrInvalidFragment /\ Exists (fun x => ~ cut doc x) offsets
  end.
Proof.
  intros H0 Hend. induction offsets as [|x offsets IH]; intros cursor maps Hc Hinc Hin Hr; cbn [line_offsets].
  { split_and!; [done|naive_solver|constructor]. }
  inversion Hinc as [|? ? Hinc' Hlt]; subst. apply Forall_cons_iff in Hin as [Hx Hin].
  assert (zlen (page_bytes doc page) = pm_end page - pm_start page) as Hlen by (apply zlen_slice; lia).
  rewrite Hlen, (proj2 (Z.ltb_lt _ _)) by lia. cbn [andb].
  assert (forall k, 0 <= k < pm_end page - pm_start page -> exists b, doc !! Z.to_nat (pm_start page + k) = Some b /\
    nth (Z.to_nat k) (page_bytes doc page) Byte.x00 = b) as Hnth.
  { intros k Hk. destruct (lookup_lt_is_Some_2 doc (Z.to_nat (pm_start page + k))) as [b Hb]; [unfold zlen in Hend; lia|]. exists b.
    split; [done|]. apply nth_lookup_Some. unfold page_bytes. by rewrite slice_lookup by lia. }
  destruct (Hnth (x - pm_start page) ltac:(lia)) as (b & Hb & Enth). rewrite Enth.
  replace (pm_start page + (x - pm_start page)) with x in Hb by lia. pose proof (cut_byte x b ltac:(lia) Hb) as Hcut.
  destruct (utf8_RuneStart b) eqn:Es; cbn [negb].
  2:{ split; [done|]. constructor. rewrite Hcut. done. }
  destruct (Hnth (x - pm_start page - 1) ltac:(lia)) as (b' & Hb' & Enth'). rewrite Enth'.
  replace (pm_start page + (x - pm_start page - 1)) with (x - 1) in Hb' by lia.
  assert (lines doc (pm_start page + cursor) ⊞ count_newlines (slice cursor (x - pm_start page - cursor) (page_bytes doc page)) = lines doc x) as Hline.
  { unfold page_bytes. rewrite slice_slice by lia. pose proof (lines_split (pm_start page + cursor) x ltac:(lia)) as Hsp.
    replace (x - pm_start page - cursor) with (x - (pm_start page + cursor)) by lia.
    pose proof (count_newlines_bounds (ztake x doc)) as Hbd. fold (lines doc x) in Hbd. rewrite zlen_ztake in Hbd.
    unfold maxInt64 in Hdoc. rewrite <-Hsp. apply i64_id. unfold in_i64, minInt64, maxInt64. lia. }
  rewrite Hline. set (lf := _ || _). assert (lf = after_lf x) as Hlf.
  { unfold lf, after_lf, lf_before. rewrite Hb', (proj2 (Z.eqb_neq (x - pm_start page) 0)), (proj2 (Z.eqb_neq x 0)), (proj2 (Z.ltb_lt 0 x)) by lia.
    cbn [orb andb]. apply bool_decide_ext. split; [by intros ->|by intros [= ->]]. }
  clearbody lf. specialize (IH (x - pm_start page) (enter x (lines doc x) lf maps)).
  replace (pm_start page + (x - pm_start page)) with x in IH by lia. unfold enter in IH at 1.
  assert (Forall (fun y => x < y < pm_end page) offsets) as Hin'.
  { rewrite List.Forall_forall in Hin, Hlt |- *. intros y Hy. specialize (Hin y Hy). specialize (Hlt y Hy). lia. }
  specialize (IH ltac:(lia) Hinc' Hin' ltac:(by apply enter_right)).
  destruct (line_offsets _ _ _ _ _ _) as [maps'|e].
  - destruct IH as (H1 & H2 & H3). split_and!; [done| |constructor; [|done]; by apply Hcut].
    intros y Hy. apply H2. destruct Hy as [[<-|Hy]|Hy]; [right; apply enter_known; by left|by left|right; apply enter_known; by right].
  - destruct IH as [-> IH]. split; [done|]. by constructor 2.
Qed.

Definition line_answer (maps : line_maps) (pages : list pageMeta) (extra : list Z) (r : result line_maps) : Prop :=
  match r with
  | Ok maps' => maps_right maps' /\ Forall (cut doc) extra /\
      forall x, known maps x \/ In x extra \/ Exists (fun p => x = pm_start p \/ x = pm_end p) pages -> known maps' x
  | Err e => e = virtual_ErrInvalidFragment /\ Exists (fun x => ~ cut doc x) extra
  end.

(** The entry for the start of a page, and the one for its end. *)
Lemma start_entry p maps : page_text doc p -> maps_right maps ->
  maps_right (enter (pm_start p) (pm_startLine p) (if pm_start p =? 0 then true else negb (pm_continuesFrom p)) maps).
Proof.
  intros Hp Hm. apply enter_right; [done|apply Hp|]. unfold after_lf. rewrite (pt_continuesFrom _ _ Hp).
  destruct (Z.eqb_spec (pm_start p) 0) as [->|Hne]; [done|]. destruct (pt_start _ _ Hp) as [? _].
  rewrite (proj2 (Z.ltb_lt 0 _)) by lia. cbn [andb orb]. by rewrite negb_involutive.
Qed.
Lemma end_entry p maps : page_text doc p -> maps_right maps -> maps_right (enter (pm_end p) (pm_endLine p) (pm_endsWithLF p) maps).
Proof.
  intros Hp Hm. apply enter_right; [done|apply Hp|]. unfold after_lf. rewrite (pt_endsWithLF _ _ Hp).
  destruct (pt_start _ _ Hp) as [? _]. pose proof (pt_range _ _ Hp). by rewrite (proj2 (Z.eqb_neq _ _)) by lia.
Qed.

Lemma inside_spec ctx source page inside maps : ReaderOk source doc -> page_text doc page -> increasing inside ->
  Forall (fun x => pm_start page < x < pm_end page) inside -> maps_right maps ->
  yields ctx (match inside with
    | [] => cret maps
    | _ => let! data := readPageBytes ctx source page in
           fun k => (k, line_offsets page data inside 0 (pm_startLine page) maps)
    end) (line_answer maps [] inside).
Proof.
  intros Hs Hp Hinc Hin Hm. destruct inside as [|x inside].
  { apply yields_ret. split_and!; [done|constructor|]. intros x [?|[[]|H]]; [done|by inversion H]. }
  destruct (pt_start _ _ Hp) as [H0 _]. destruct (pt_end _ _ Hp) as [H1 _]. pose proof (pt_range _ _ Hp).
  eapply yields_bind; [apply (readPageBytes_spec ctx source doc page Hs Hdoc); lia|..]; [|done].
  intros data [= ->] k. left. cbn [snd].
  pose proof (line_offsets_spec page (x :: inside) ltac:(lia) ltac:(lia) 0 maps ltac:(lia) Hinc) as Hl.
  rewrite Z.add_0_r, <-(pt_startLine _ _ Hp) in Hl. specialize (Hl ltac:(eapply List.Forall_impl; [|exact Hin]; cbn; lia) Hm).
  destruct (line_offsets _ _ _ _ _ _) as [maps'|e]; [|done]. destruct Hl as (H2 & H3 & H4). split_and!; [done|done|].
  intros y [?|[?|Hy]]; [apply H3; by right|apply H3; by left|by inversion Hy].
Qed.

Lemma line_pages_spec ctx source pages : ReaderOk source doc -> forall a b extra maps,
  tiles a b pages -> Forall (page_text doc) pages -> cut doc a -> known maps a -> maps_right maps ->
  increasing extra -> Forall (fun x => a <= x <= b) extra ->
  yields ctx (line_pages ctx source pages extra maps) (line_answer maps pages extra).
Proof.
  intros Hs. induction pages as [|p pages IH]; intros a b extra maps Ht Hp Hcut Hk Hm Hinc Hx; cbn [line_pages].
  { cbn in Ht. subst b. apply yields_ret. assert (Forall (fun x => x = a) extra) as Hxa by (eapply List.Forall_impl; [|exact Hx]; cbn; lia).
    split_and!; [done|eapply List.Forall_impl; [|exact Hxa]; by intros x ->|].
    rewrite List.Forall_forall in Hxa. intros x [?|[Hin|He]]; [done|by rewrite (Hxa x Hin)|by inversion He]. }
  destruct Ht as [<- Ht]. apply Forall_cons_iff in Hp as [Hp Hps]. pose proof (pt_range _ _ Hp) as Hr.
  pose proof (start_entry p maps Hp Hm) as Hm1. cbv zeta. fold (enter (pm_start p) (pm_startLine p) (if pm_start p =? 0 then true else negb (pm_continuesFrom p)) maps).
  set (maps1 := enter _ _ _ maps) in *.
  pose proof (span_le (pm_start p) extra Hinc) as Hsp. destruct (span (fun x => x <=? pm_start p) extra) as [skipped extra1].
  destruct Hsp as (-> & Hinc1 & Hle & Hgt). pose proof (span_lt (pm_end p) extra1 Hinc1) as Hsp.
  destruct (span (fun x => x <? pm_end p) extra1) as [inside extra2]. destruct Hsp as (-> & Hinc2 & Hinc3 & Hlt & Hge).
  apply Forall_app in Hx as [Hx1 Hx2]. apply Forall_app in Hgt as [Hg1 Hg2]. apply Forall_app in Hx2 as [Hx2 Hx3].
  assert (Forall (fun x => x = pm_start p) skipped) as Hskip.
  { rewrite List.Forall_forall in Hx1, Hle |- *. intros x Hin. specialize (Hx1 x Hin). specialize (Hle x Hin). lia. }
  eapply yields_bind; [apply (inside_spec ctx source p inside maps1 Hs Hp Hinc2); [|exact Hm1]|..].
  - rewrite List.Forall_forall in Hg1, Hlt |- *. intros x Hin. split; auto.
  - intros maps2 (Hm2 & Hc2 & Hk2). pose proof (end_entry p maps2 Hp Hm2) as Hm3. fold (enter (pm_end p) (pm_endLine p) (pm_endsWithLF p) maps2).
    assert (Forall (fun x => pm_end p <= x <= b) extra2) as Hx4.
    { rewrite List.Forall_forall in Hx3, Hge |- *. intros x Hin. specialize (Hx3 x Hin). specialize (Hge x Hin). lia. }
    intros k. destruct (IH (pm_end p) b extra2 (enter (pm_end p) (pm_endLine p) (pm_endsWithLF p) maps2) Ht Hps (pt_end _ _ Hp)
      ltac:(apply enter_known; by left) Hm3 Hinc3 Hx4 k) as [Hy|Hy]; [left|by right].
    destruct (line_pages _ _ _ _ _ k) as [k' [maps'|e]]; cbn [snd line_answer] in *.
    + destruct Hy as (H1 & H2 & H3). split_and!; [done| |].
      * apply Forall_app. split; [eapply List.Forall_impl; [|exact Hskip]; intros x ->; apply Hp|by apply Forall_app].
      * assert (forall x, known maps2 x -> known maps' x) as H4 by (intros x Hkx; apply H3; left; apply enter_known; by right).
        assert (known maps' (pm_end p)) as H5 by (apply H3; left; apply enter_known; by left).
        assert (forall x, known maps1 x -> known maps' x) as H6 by (intros x Hkx; apply H4, Hk2; by left).
        assert (known maps' (pm_start p)) as H7 by (apply H6, enter_known; by left).
        intros x [Hkx|[Hin|He]]; [apply H6, enter_known; by right|..].
        -- apply in_app_iff in Hin as [Hin|[Hin|Hin]%in_app_iff].
           ++ rewrite List.Forall_forall in Hskip. by rewrite (Hskip x Hin).
           ++ apply H4, Hk2. right; by left.
           ++ apply H3. right; by left.
        -- inversion He as [? ? [->| ->]|]; subst; [done|done|]. apply H3. by right; right.
    + destruct Hy as [-> Hy]. split; [done|]. rewrite !List.Exists_app. by right; right.
  - intros e [-> He]. split; [done|]. rewrite !List.Exists_app. by right; left.
Qed.
End Lines.

(** ** Fragments *)

(** Fragments in order between two offsets, their measures summed up. *)
Fixpoint fragment_chain (cursor : Z) (total : Measure) (limit : Z) (fragments : list fragmentMeta) : Prop :=
  match fragments with
  | [] => True
  | f :: fragments =>
    let g := fm_Fragment f in
    cursor <= f_Start g < f_End g /\ f_End g <= limit /\ 0 <= f_Measure g /\ fm_measureStart f = total /\
    total + f_Measure g <= maxInt64 /\ fragment_chain (f_End g) (total + f_Measure g) limit fragments
  end.

Definition measures (fragments : list Fragment) : Z := fold_right (fun f n => f_Measure f + n) 0 fragments.
Definition keyLengths (fragments : list Fragment) : Z :=
  fold_right (fun f n => stringLength (f_ID f) + stringLength (f_DataKey f) + n) 0 fragments.

(** What the host has to keep to. *)
Record fragments_valid (options : resolvedOptions) (limit : Z) (fragments : list Fragment) : Prop := {
  fv_ids : List.NoDup (map f_ID fragments);
  fv_named : Forall (fun f => f_ID f <> ""%string) fragments;
  fv_measure : Forall (fun f => 0 <= f_Measure f <= bu_Measure (ro_window options)) fragments;
  fv_order : forall k f g, fragments !! k = Some f -> fragments !! S k = Some g -> f_End f <= f_Start g;
  fv_range : Forall (fun f => 0 <= f_Start f < f_End f /\ f_End f <= limit) fragments;
  fv_total : measures fragments <= maxInt64;
  fv_keys : keyLengths fragments <= ro_maximumKeyBytes options }.

Lemma stringLength_nonneg s : 0 <= stringLength s.
Proof. unfold stringLength. lia. Qed.
Lemma keyLengths_nonneg fragments : 0 <= keyLengths fragments.
Proof. induction fragments as [|f l IH]; cbn [keyLengths fold_right]; [lia|]. fold (keyLengths l). pose proof (stringLength_nonneg (f_ID f)). pose proof (stringLength_nonneg (f_DataKey f)). lia. Qed.

Lemma measures_cons f l : measures (f :: l) = f_Measure f + measures l.
Proof. done. Qed.
Lemma keyLengths_cons f l : keyLengths (f :: l) = stringLength (f_ID f) + stringLength (f_DataKey f) + keyLengths l.
Proof. done. Qed.

(** The same, along the loop: behind [cursor], with the identifiers [seen], the
    measure [total] and the bytes [keyBytes] already spent. *)
Record rest_valid (options : resolvedOptions) (limit : Z) (seen : gset string) (cursor total keyBytes : Z) (fragments : list Fragment) : Prop := {
  rv_ids : List.NoDup (map f_ID fragments);
  rv_seen : Forall (fun f => f_ID f ∉ seen) fragments;
  rv_named : Forall (fun f => f_ID f <> ""%string) fragments;
  rv_measure : Forall (fun f => 0 <= f_Measure f <= bu_Measure (ro_window options)) fragments;
  rv_first : match fragments with [] => True | f :: _ => cursor <= f_Start f end;
  rv_order : forall k f g, fragments !! k = Some f -> fragments !! S k = Some g -> f_End f <= f_Start g;
  rv_range : Forall (fun f => f_Start f < f_End f /\ f_End f <= limit) fragments;
  rv_total : total + measures fragments <= maxInt64;
  rv_keys : keyBytes + keyLengths fragments <= ro_maximumKeyBytes options }.

Lemma measures_nonneg options fragments :
  Forall (fun f => 0 <= f_Measure f <= bu_Measure (ro_window options)) fragments -> 0 <= measures fragments.
Proof. induction 1 as [|f l Hf _ IH]; [done|rewrite measures_cons; lia]. Qed.

Lemma rest_valid_cons options limit seen cursor total keyBytes f fragments :
  rest_valid options limit seen cursor total keyBytes (f :: fragments) <->
  (f_ID f <> ""%string /\ cursor <= f_Start f < f_End f /\ f_End f <= limit /\ 0 <= f_Measure f <= bu_Measure (ro_window options) /\
   f_ID f ∉ seen) /\
  rest_valid options limit ({[f_ID f]} ∪ seen) (f_End f) (total + f_Measure f)
    (keyBytes + (stringLength (f_ID f) + stringLength (f_DataKey f))) fragments.
Proof.
  split.
  - intros [H1 H2 H3 H4 H5 H6 H7 H8 H9]. cbn in H5. rewrite measures_cons in H8. rewrite keyLengths_cons in H9. inversion H1 as [|? ? Hni Hnd]; subst.
    apply Forall_cons_iff in H2 as [Hs H2]. apply Forall_cons_iff in H3 as [Hn H3]. apply Forall_cons_iff in H4 as [Hm H4].
    apply Forall_cons_iff in H7 as [Hr H7]. split; [split_and!; [done|lia|lia|lia|lia|lia|done]|]. split; try done; try lia.
    + rewrite List.Forall_forall in H2 |- *. intros g Hg. specialize (H2 g Hg). rewrite elem_of_union, elem_of_singleton.
      intros [E|?]; [|done]. apply Hni. rewrite <-E. by apply in_map.
    + destruct fragments as [|g fragments]; [done|]. apply (H6 0%nat); done.
    + intros k g h Hg Hh. by apply (H6 (S k)).
  - intros [(Hn & Hst & Hl & Hm & Hs) [H1 H2 H3 H4 H5 H6 H7 H8 H9]]. split; rewrite ?measures_cons, ?keyLengths_cons; cbn [map]; try (constructor; try done; lia); try lia.
    + constructor; [|done]. intros (g & E & Hg)%in_map_iff. rewrite List.Forall_forall in H2. apply (H2 g Hg). rewrite E.
      apply elem_of_union_l, elem_of_singleton. done.
    + constructor; [done|]. eapply List.Forall_impl; [|exact H2]. cbn. intros g Hg ?. apply Hg. by apply elem_of_union_r.
    + intros [|k] g h Hg Hh; [|by apply (H6 k)]. injection Hg as <-. by destruct fragments; [|injection Hh as ->].
Qed.

Definition fresh_meta (p : Fragment * Z) : fragmentMeta := mkFragmentMeta p.1 p.2 (-1) (-1).

Definition validated (options : resolvedOptions) (limit cursor total keyBytes : Z) (seen : gset string) (fragments : list Fragment)
  (r : result (list fragmentMeta * Measure * Z)) : Prop :=
  match r with
  | Ok (metas, total', keyBytes') =>
    rest_valid options limit seen cursor total keyBytes fragments /\ map fm_Fragment metas = fragments /\
    fragment_chain cursor total limit metas /\ Forall (fun f => fm_pageFirst f = -1 /\ fm_pageLast f = -1) metas /\
    total' = total + measures fragments /\ keyBytes' = keyBytes + keyLengths fragments
  | Err e => e = virtual_ErrInvalidFragment /\ ~ rest_valid options limit seen cursor total keyBytes fragments
  end.

(** Strings that a Go program can hold. *)
Definition strings_fit (fragments : list Fragment) : Prop :=
  Forall (fun f => stringLength (f_ID f) + stringLength (f_DataKey f) <= maxInt64) fragments.

Lemma validate_fragments_spec ctx options publication fragments : strings_fit fragments -> forall seen cursor total keyBytes,
  0 <= total <= maxInt64 -> keyBytes <= ro_maximumKeyBytes options ->
  yields ctx (validate_fragments ctx options publication fragments seen cursor total keyBytes)
    (validated options (pu_IndexedThrough publication) cursor total keyBytes seen fragments).
Proof.
  intros Hfit. induction Hfit as [|f fragments Hf _ IH]; intros seen cursor total keyBytes Ht Hk; cbn [validate_fragments].
  { apply yields_ret. split_and!; try done; cbn; try lia. split; try done; try constructor; cbn; lia. }
  apply yields_poll.
  assert (forall b : bool, (rest_valid options (pu_IndexedThrough publication) seen cursor total keyBytes (f :: fragments) -> b = false) ->
    forall c, (b = false -> yields ctx c (validated options (pu_IndexedThrough publication) cursor total keyBytes seen (f :: fragments))) ->
    yields ctx (if b then cfail virtual_ErrInvalidFragment else c)
      (validated options (pu_IndexedThrough publication) cursor total keyBytes seen (f :: fragments))) as Hguard.
  { intros [] Hb c Hc; [|by apply Hc]. apply yields_fail. split; [done|]. by intros Hv%Hb. }
  apply Hguard.
  { intros [(H1 & H2 & H3 & H4 & H5) _]%rest_valid_cons. rewrite bool_decide_false by done. lia. }
  intros Hg1. rewrite i64_id by (pose proof (stringLength_nonneg (f_ID f)); pose proof (stringLength_nonneg (f_DataKey f)); unfold_ints; lia).
  apply Hguard.
  { intros [_ Hr]%rest_valid_cons. pose proof (rv_keys _ _ _ _ _ _ _ Hr). pose proof (keyLengths_nonneg fragments). lia. }
  intros Hg2. apply Hguard.
  { intros [(_ & _ & _ & _ & H5) _]%rest_valid_cons. by apply bool_decide_eq_false. }
  intros Hg3%bool_decide_eq_false. unfold checkedAddMeasure.
  destruct ((total <? 0) || (f_Measure f <? 0) || (maxInt64 - f_Measure f <? total)) eqn:Hg4.
  { apply yields_fail. split; [done|]. intros [(_ & _ & _ & H4 & _) Hr]%rest_valid_cons.
    pose proof (rv_total _ _ _ _ _ _ _ Hr). pose proof (measures_nonneg _ _ (rv_measure _ _ _ _ _ _ _ Hr)). lia. }
  repeat match goal with H : _ || _ = false |- _ => apply orb_false_iff in H as [? ?] end.
  assert (f_ID f <> ""%string) as Hname by (by eapply bool_decide_eq_false).
  eapply yields_bind; [apply (IH ({[f_ID f]} ∪ seen) (f_End f) (total + f_Measure f) (keyBytes + (stringLength (f_ID f) + stringLength (f_DataKey f)))); lia|..].
  - intros [[metas total'] keyBytes'] (Hr & Hmap & Hchain & Hfresh & -> & ->). apply yields_ret.
    assert (rest_valid options (pu_IndexedThrough publication) seen cursor total keyBytes (f :: fragments)) as Hv
      by (apply rest_valid_cons; split; [split_and!; [done|lia|lia|lia|lia|lia|done]|done]).
    split_and!; [done|cbn; by rewrite Hmap| |by constructor| |].
    + cbn. split_and!; try lia; done.
    + rewrite measures_cons. lia.
    + rewrite keyLengths_cons. lia.
  - intros e [-> Hn]. split; [done|]. by intros [_ Hr]%rest_valid_cons.
Qed.

Lemma rest_valid_start options limit fragments : forall seen cursor total keyBytes,
  rest_valid options limit seen cursor total keyBytes fragments -> Forall (fun f => cursor <= f_Start f) fragments.
Proof.
  induction fragments as [|f fragments IH]; intros seen cursor total keyBytes H; [constructor|].
  apply rest_valid_cons in H as [(_ & H1 & _) H]. constructor; [lia|]. eapply List.Forall_impl; [|by eapply IH]. cbn. lia.
Qed.

Lemma fragments_valid_rest options limit fragments :
  fragments_valid options limit fragments <-> rest_valid options limit ∅ 0 0 0 fragments.
Proof.
  split.
  - intros [H1 H2 H3 H4 H5 H6 H7]. split; try done; try lia.
    + apply List.Forall_forall. intros f _. apply not_elem_of_empty.
    + destruct fragments; [done|]. apply Forall_cons_iff in H5 as [? _]. lia.
    + eapply List.Forall_impl; [|exact H5]. cbn. lia.
  - intros H. pose proof (rest_valid_start _ _ _ _ _ _ _ H) as Hst. destruct H as [H1 _ H3 H4 H5 H6 H7 H8 H9]. split; try done; try lia.
    rewrite List.Forall_forall in Hst, H7 |- *. intros f Hf. specialize (Hst f Hf). specialize (H7 f Hf). lia.
Qed.

Record publication_valid (options : resolvedOptions) (length : Z) (publication : Publication) : Prop := {
  pv_through : 0 <= pu_IndexedThrough publication <= length;
  pv_complete : pu_Complete publication = true -> pu_IndexedThrough publication = length;
  pv_count : zlen (pu_Fragments publication) <= ro_maximumFragments options;
  pv_fragments : fragments_valid options (pu_IndexedThrough publication) (pu_Fragments publication) }.

Definition validation_answer (options : resolvedOptions) (length : Z) (publication : Publication)
  (r : result (list fragmentMeta * Measure * Z)) : Prop :=
  match r with
  | Ok (metas, total, keyBytes) =>
    publication_valid options length publication /\ map fm_Fragment metas = pu_Fragments publication /\
    fragment_chain 0 0 (pu_IndexedThrough publication) metas /\ Forall (fun f => fm_pageFirst f = -1 /\ fm_pageLast f = -1) metas /\
    total = measures (pu_Fragments publication) /\ keyBytes = keyLengths (pu_Fragments publication)
  | Err e => (e = virtual_ErrInvalidPublication \/ e = virtual_ErrInvalidFragment) /\ ~ publication_valid options length publication
  end.

Lemma validateFragments_spec ctx options length publication : strings_fit (pu_Fragments publication) -> 0 <= ro_maximumKeyBytes options ->
  yields ctx (validateFragments ctx options publication length) (validation_answer options length publication).
Proof.
  intros Hfit Hk. unfold validateFragments.
  destruct ((pu_IndexedThrough publication <? 0) || (length <? pu_IndexedThrough publication) ||
     (pu_Complete publication && negb (pu_IndexedThrough publication =? length)) ||
     (ro_maximumFragments options <? zlen (pu_Fragments publication))) eqn:Hg.
  { apply yields_fail. split; [by left|]. intros [H1 H2 H3 _]. destruct (pu_Complete publication); [specialize (H2 eq_refl)|]; lia. }
  assert (0 <= pu_IndexedThrough publication <= length /\ (pu_Complete publication = true -> pu_IndexedThrough publication = length) /\
    zlen (pu_Fragments publication) <= ro_maximumFragments options) as (H1 & H2 & H3) by (destruct (pu_Complete publication); lia).
  intros k. destruct (validate_fragments_spec ctx options publication (pu_Fragments publication) Hfit ∅ 0 0 0 ltac:(unfold maxInt64; lia) Hk k)
    as [Hy|Hy]; [left|by right].
  destruct (validate_fragments _ _ _ _ _ _ _ _ k) as [k' [[[metas total] keyBytes]|e]]; cbn [snd validated validation_answer] in *.
  - destruct Hy as (Hr & Hmap & Hc & Hf & -> & ->). split_and!; try done. split; try done. by apply fragments_valid_rest.
  - destruct Hy as [-> Hn]. split; [by right|]. intros [_ _ _ Hv]. apply Hn. by apply fragments_valid_rest.
Qed.

(** ** Pages between boundaries *)

(** The fragment that covers a page, or none that touches it. *)
Definition placed (fragments : list fragmentMeta) (p : pageMeta) : Prop :=
  (exists k f, fragments !! k = Some f /\ pm_fragment p = Z.of_nat k /\ f_Start (fm_Fragment f) <= pm_start p /\
     pm_end p <= f_End (fm_Fragment f) /\ pm_measureStart p = fm_measureStart f /\ pm_measureEnd p = measureEnd f) \/
  (pm_fragment p = -1 /\ pm_measureStart p = 0 /\ pm_measureEnd p = 0 /\
   Forall (fun f => f_End (fm_Fragment f) <= pm_start p \/ pm_end p <= f_Start (fm_Fragment f)) fragments).

Definition published (doc : list byte) (through : Z) (fragments : list fragmentMeta) (p : pageMeta) : Prop :=
  page_text doc p /\ placed fragments p /\ pm_indexed p = (pm_end p <=? through) /\ pm_continuation p = 0 /\ pm_continuations p = 0.

Lemma chain_starts limit fragments : forall cursor total, fragment_chain cursor total limit fragments ->
  Forall (fun g => cursor <= f_Start (fm_Fragment g)) fragments.
Proof.
  induction fragments as [|g fragments IH]; intros cursor total H; [constructor|]. destruct H as (H1 & _ & _ & _ & _ & H).
  constructor; [lia|]. eapply List.Forall_impl; [|by eapply IH]. cbn. lia.
Qed.
Lemma chain_later cursor total limit f fragments : fragment_chain cursor total limit (f :: fragments) ->
  Forall (fun g => f_End (fm_Fragment f) <= f_Start (fm_Fragment g)) fragments.
Proof. intros (_ & _ & _ & _ & _ & H). by eapply chain_starts. Qed.

Lemma skip_fragments_spec start fragments : forall index cursor total limit, fragment_chain cursor total limit fragments ->
  let '(index', rest) := skip_fragments start index fragments in
  exists skipped, fragments = skipped ++ rest /\ index' = index + zlen skipped /\ Forall (fun f => f_End (fm_Fragment f) <= start) skipped /\
    (exists cursor total, fragment_chain cursor total limit rest) /\
    match rest with [] => True | f :: _ => start < f_End (fm_Fragment f) end.
Proof.
  induction fragments as [|f fragments IH]; intros index cursor total limit Hc; cbn [skip_fragments].
  { exists []. rewrite (@zlen_nil fragmentMeta). split_and!; [done|lia|constructor|by exists 0, 0|done]. }
  destruct (Z.leb_spec (f_End (fm_Fragment f)) start) as [Hle|Hgt].
  - destruct Hc as (_ & _ & _ & _ & _ & Hc). specialize (IH (index + 1) _ _ _ Hc). destruct (skip_fragments start (index + 1) fragments) as [index' rest].
    destruct IH as (skipped & -> & -> & Hs & Hr & Hh). exists (f :: skipped). rewrite zlen_cons. split_and!; [done|lia|by constructor|done|done].
  - exists []. rewrite (@zlen_nil fragmentMeta). split_and!; [done|lia|constructor|by exists cursor, total|done].
Qed.

Section Published.
Context (doc : list byte) (through : Z) (maps : line_maps) (Hmaps : maps_right doc maps) (all : list fragmentMeta).

Lemma lookup_right x : known maps x -> default 0 (maps.1 !! x) = lines doc x /\ default false (maps.2 !! x) = after_lf doc x.
Proof.
  destruct Hmaps as [H1 H2]. intros [[l Hl] [b Hb]]. rewrite Hl, Hb. cbn. split; [by apply H1|by apply H2].
Qed.

Lemma after_lf_pos x : 0 < x -> after_lf doc x = lf_before doc x.
Proof. intros H. unfold after_lf. by rewrite (proj2 (Z.eqb_neq _ _)) by lia. Qed.

Lemma published_page_spec before rest start stop : all = before ++ rest -> start < stop ->
  cut doc start -> cut doc stop -> known maps start -> known maps stop ->
  (exists cursor total limit, fragment_chain cursor total limit rest) ->
  Forall (fun f => f_End (fm_Fragment f) <= start) before ->
  match rest with [] => True | f :: _ => start < f_End (fm_Fragment f) end ->
  Forall (fun f => (f_Start (fm_Fragment f) <= start \/ stop <= f_Start (fm_Fragment f)) /\
                   (f_End (fm_Fragment f) <= start \/ stop <= f_End (fm_Fragment f))) rest ->
  let p := published_page (zlen doc) through maps start stop (zlen before) rest in
  published doc through all p /\ pm_start p = start /\ pm_end p = stop.
Proof.
  intros Hall Hlt Hc1 Hc2 Hk1 Hk2 (cursor & total & limit & Hchain) Hbefore Hhead Hcross.
  destruct (lookup_right start Hk1) as [E1 E2]. destruct (lookup_right stop Hk2) as [E3 E4].
  assert (0 <= start) as H0 by apply Hc1. rewrite (after_lf_pos stop) in E4 by lia.
  assert (forall fragment s e, page_text doc (mkPageMeta start stop (lines doc start) (lines doc stop) ((0 <? start) && negb (after_lf doc start))
    ((stop <? zlen doc) && negb (lf_before doc stop)) (lf_before doc stop) fragment 0 0 s e (stop <=? through))) as Htext.
  { intros. split; cbn; try done. destruct (Z.ltb_spec 0 start); [|done]. cbn [andb]. by rewrite after_lf_pos. }
  unfold published_page. rewrite E1, E2, E3, E4. destruct rest as [|f rest].
  - split; [|done]. split; [apply Htext|]. split_and!; try done. right. cbn. split_and!; try done.
    rewrite app_nil_r in Hall. rewrite Hall. eapply List.Forall_impl; [|exact Hbefore]. cbn. auto.
  - apply Forall_cons_iff in Hcross as [Hf Hcross].
    destruct (Z.leb_spec (f_Start (fm_Fragment f)) start); [destruct (Z.leb_spec stop (f_End (fm_Fragment f)))|]; cbn [andb].
    + split; [|done]. split; [apply Htext|]. split_and!; try done. left. exists (length before), f. cbn.
      split_and!; try done. rewrite Hall, lookup_app_r, Nat.sub_diag; done.
    + lia.
    + split; [|done]. split; [apply Htext|]. split_and!; try done. right. cbn. split_and!; try done.
      rewrite Hall. apply Forall_app. split; [eapply List.Forall_impl; [|exact Hbefore]; cbn; auto|].
      constructor; [lia|]. pose proof (chain_later _ _ _ _ _ Hchain) as Hl. destruct Hchain as (? & _).
      eapply List.Forall_impl; [|exact Hl]. cbn. intros g Hg. right. lia.
Qed.

Lemma published_pages_spec ctx boundaries : forall before rest,
  all = before ++ rest -> (exists cursor total limit, fragment_chain cursor total limit rest) ->
  increasing boundaries -> Forall (fun x => cut doc x /\ known maps x) boundaries ->
  match boundaries with [] => True | b :: _ =>
    Forall (fun f => f_End (fm_Fragment f) <= b) before /\
    Forall (fun f => (f_Start (fm_Fragment f) <= b \/ In (f_Start (fm_Fragment f)) boundaries) /\
                     (f_End (fm_Fragment f) <= b \/ In (f_End (fm_Fragment f)) boundaries)) rest
  end ->
  yields ctx (published_pages ctx (zlen doc) through maps boundaries (zlen before) rest)
    (fun r => exists pages, r = Ok pages /\ Forall (published doc through all) pages /\
                map pm_start pages = removelast boundaries /\ map pm_end pages = tl boundaries).
Proof.
  induction boundaries as [|b boundaries IH]; intros before rest Hall Hchain Hinc Hb Hin; cbn [published_pages].
  { apply yields_ret. by exists []. }
  destruct boundaries as [|c boundaries]; [apply yields_ret; by exists []|].
  apply yields_poll. destruct Hin as [Hbefore Hin]. destruct Hchain as (cursor & total & limit & Hchain).
  pose proof (skip_fragments_spec b rest (zlen before) _ _ _ Hchain) as Hs. destruct (skip_fragments b (zlen before) rest) as [index rest'].
  destruct Hs as (skipped & -> & -> & Hskip & (cursor' & total' & Hchain') & Hhead). rewrite <-zlen_app.
  apply Forall_app in Hin as [_ Hin]. rewrite app_assoc in Hall.
  apply StronglySorted_inv in Hinc as [Hinc' Hlt]. apply Forall_cons_iff in Hlt as [Hbc Hlt].
  apply Forall_cons_iff in Hb as [[Hc1 Hk1] Hb]. pose proof Hb as Hb'. apply Forall_cons_iff in Hb' as [[Hc2 Hk2] _].
  assert (forall x, x <= b \/ In x (b :: c :: boundaries) -> x <= b \/ c <= x /\ In x (c :: boundaries)) as Hx.
  { apply StronglySorted_inv in Hinc' as [_ Hc]. rewrite List.Forall_forall in Hc. intros x [?|[->|[->|Hi]]]; [by left|left; lia|right; split; [lia|by left]|].
    right. specialize (Hc x Hi). split; [lia|by right]. }
  assert (Forall (fun f => f_End (fm_Fragment f) <= b) (before ++ skipped)) as Hbefore' by (by apply Forall_app).
  destruct (published_page_spec (before ++ skipped) rest' b c Hall Hbc Hc1 Hc2 Hk1 Hk2 ltac:(by do 3 eexists) Hbefore' Hhead) as (Hp & Hps & Hpe).
  { eapply List.Forall_impl; [|exact Hin]. cbn. intros f [H1 H2]. destruct (Hx _ H1), (Hx _ H2); lia. }
  eapply yields_bind; [apply (IH (before ++ skipped) rest' Hall); [by do 3 eexists|done|done|split]|..].
  - eapply List.Forall_impl; [|exact Hbefore']. cbn. lia.
  - eapply List.Forall_impl; [|exact Hin]. cbn. intros f [H1 H2]. destruct (Hx _ H1) as [?|[_ ?]], (Hx _ H2) as [?|[_ ?]]; split; (by right) || (left; lia).
  - intros pages (pages' & [= ->] & Hpub & Hst & He). apply yields_ret. eexists. split; [done|]. split; [by constructor|].
    cbn [map]. rewrite Hps, Hpe, Hst, He. done.
  - by intros e (? & ? & _).
Qed.
End Published.

(** ** Pages in a row *)

Lemma tiles_boundaries boundaries pages : boundaries <> [] ->
  map pm_start pages = removelast boundaries -> map pm_end pages = tl boundaries ->
  tiles (hd 0 boundaries) (List.last boundaries 0) pages.
Proof.
  revert pages. induction boundaries as [|b boundaries IH]; intros pages Hne Hs He; [done|]. destruct boundaries as [|c boundaries].
  { by destruct pages. }
  destruct pages as [|p pages]; [done|]. cbn [map removelast tl] in Hs, He. injection Hs as Hs1 Hs. injection He as He1 He.
  cbn [tiles hd]. split; [done|]. rewrite He1. apply (IH pages); [done|exact Hs|exact He].
Qed.

Lemma tiles_bounds pages : forall a b, tiles a b pages -> Forall (fun p => pm_start p < pm_end p) pages ->
  a <= b /\ Forall (fun p => a <= pm_start p /\ pm_end p <= b) pages.
Proof.
  induction pages as [|p pages IH]; intros a b; cbn [tiles]; [intros -> _; split; [lia|constructor]|].
  intros [<- Ht] [Hp Hps]%Forall_cons_iff. destruct (IH _ _ Ht Hps) as [H1 H2]. split; [lia|]. constructor; [lia|].
  eapply List.Forall_impl; [|exact H2]. cbn. lia.
Qed.

Lemma tiles_app pages1 pages2 : forall a b, tiles a b (pages1 ++ pages2) <-> exists x, tiles a x pages1 /\ tiles x b pages2.
Proof.
  induction pages1 as [|p pages1 IH]; intros a b; cbn [tiles app].
  - split; [intros H; by exists a|by intros (x & -> & H)].
  - rewrite IH. split; [intros (Hp & x & ? & ?); by exists x|intros (x & [? ?] & ?); split; [done|by exists x]].
Qed.

Lemma tiles_split pages x : forall a b, tiles a b pages -> x = b \/ In x (map pm_start pages) ->
  exists pages1 pages2, pages = pages1 ++ pages2 /\ tiles a x pages1 /\ tiles x b pages2.
Proof.
  induction pages as [|p pages IH]; intros a b; cbn [tiles map].
  - intros -> [->|[]]. by exists [], [].
  - intros [<- Ht] Hx. destruct (decide (x = pm_start p)) as [->|Hne]; [by exists [], (p :: pages)|].
    destruct (IH _ _ Ht) as (pages1 & pages2 & -> & H1 & H2); [naive_solver|]. by exists (p :: pages1), pages2.
Qed.

(** ** The pages of a fragment *)

(** A fragment is exactly its pages. *)
Definition covers (pages : list pageMeta) (f : fragmentMeta) : Prop :=
  exists pages1 pages2 pages3, pages = pages1 ++ pages2 ++ pages3 /\ pages2 <> [] /\
    tiles (f_Start (fm_Fragment f)) (f_End (fm_Fragment f)) pages2 /\
    fm_pageFirst f = zlen pages1 /\ fm_pageLast f = zlen pages1 + zlen pages2 - 1.

Fixpoint mark_one (k pageIndex : Z) (pages : list pageMeta) (f : fragmentMeta) : fragmentMeta :=
  match pages with
  | [] => f
  | p :: pages => mark_one k (pageIndex + 1) pages (if pm_fragment p =? k then mark_page pageIndex f else f)
  end.

Lemma mark_pages_lookup pages n : Forall (fun p => -1 <= pm_fragment p) pages -> forall pageIndex fragments,
  mark_pages pageIndex pages fragments !! n = mark_one (Z.of_nat n) pageIndex pages <$> fragments !! n.
Proof.
  induction 1 as [|p pages Hp _ IH]; intros pageIndex fragments; cbn [mark_pages mark_one]; [by destruct (fragments !! n)|].
  rewrite IH. destruct (Z.ltb_spec (pm_fragment p) 0).
  - by rewrite (proj2 (Z.eqb_neq _ _)) by lia.
  - destruct (Z.eqb_spec (pm_fragment p) (Z.of_nat n)) as [E|E].
    + rewrite E, Nat2Z.id, list_lookup_alter_eq. by destruct (fragments !! n).
    + by rewrite list_lookup_alter_ne by lia.
Qed.

Lemma mark_one_app k pages1 pages2 : forall pageIndex f,
  mark_one k pageIndex (pages1 ++ pages2) f = mark_one k (pageIndex + zlen pages1) pages2 (mark_one k pageIndex pages1 f).
Proof.
  induction pages1 as [|p pages1 IH]; intros pageIndex f; cbn [app mark_one]; [by rewrite (@zlen_nil pageMeta), Z.add_0_r|].
  rewrite IH, zlen_cons. f_equal. lia.
Qed.

Lemma mark_one_none k pages : Forall (fun p => pm_fragment p <> k) pages -> forall pageIndex f, mark_one k pageIndex pages f = f.
Proof. induction 1 as [|p pages Hp _ IH]; intros; cbn [mark_one]; [done|]. by rewrite (proj2 (Z.eqb_neq _ _)). Qed.

Lemma mark_one_all k pages : Forall (fun p => pm_fragment p = k) pages -> pages <> [] -> forall pageIndex f, 0 <= pageIndex ->
  mark_one k pageIndex pages f =
  mkFragmentMeta (fm_Fragment f) (fm_measureStart f) (if fm_pageFirst f <? 0 then pageIndex else fm_pageFirst f) (pageIndex + zlen pages - 1).
Proof.
  induction 1 as [|p pages Hp Hps IH]; intros Hne pageIndex f Hi; [done|]. cbn [mark_one]. rewrite Hp, Z.eqb_refl, zlen_cons.
  destruct pages as [|q pages].
  - cbn [mark_one]. unfold mark_page. rewrite (@zlen_nil pageMeta). f_equal. lia.
  - rewrite IH by (done || lia). cbn [fm_Fragment fm_measureStart fm_pageFirst mark_page]. f_equal; [|lia].
    destruct (Z.ltb_spec (fm_pageFirst f) 0); [|by rewrite (proj2 (Z.ltb_ge _ _)) by lia].
    by rewrite (proj2 (Z.ltb_ge _ _)) by lia.
Qed.

Lemma number_pages_lookup total first (j : nat) count : forall pageIndex pages, 0 <= pageIndex ->
  number_pages count pageIndex first total pages !! j =
  (fun p => if (pageIndex <=? Z.of_nat j) && (Z.of_nat j <? pageIndex + Z.of_nat count)
            then set_continuation (Z.of_nat j - first) total p else p) <$> pages !! j.
Proof.
  induction count as [|count IH]; intros pageIndex pages Hi; cbn [number_pages].
  { destruct (pages !! j); [|done]. cbn [fmap option_fmap option_map]. f_equal.
    destruct (Z.leb_spec pageIndex (Z.of_nat j)), (Z.ltb_spec (Z.of_nat j) (pageIndex + Z.of_nat 0)); (done || lia). }
  rewrite IH by lia. destruct (decide (Z.of_nat j = pageIndex)) as [<-|Hne].
  - rewrite Nat2Z.id, list_lookup_alter_eq. destruct (pages !! j); [|done]. cbn [fmap option_fmap option_map]. f_equal.
    rewrite (proj2 (Z.leb_gt (Z.of_nat j + 1) _)), Z.leb_refl, (proj2 (Z.ltb_lt (Z.of_nat j) (Z.of_nat j + Z.of_nat (S count)))) by lia. done.
  - rewrite list_lookup_alter_ne by lia. destruct (pages !! j); [|done]. cbn [fmap option_fmap option_map]. f_equal.
    replace (pageIndex + 1 + Z.of_nat count) with (pageIndex + Z.of_nat (S count)) by lia.
    destruct (Z.leb_spec pageIndex (Z.of_nat j)), (Z.leb_spec (pageIndex + 1) (Z.of_nat j)); try done; lia.
Qed.

Definition number_one (j : Z) (fragments : list fragmentMeta) (p : pageMeta) : pageMeta :=
  fold_left (fun p f => if (fm_pageFirst f <=? j) && (j <=? fm_pageLast f)
                        then set_continuation (j - fm_pageFirst f) (fm_pageLast f - fm_pageFirst f + 1) p else p) fragments p.

Lemma number_fragments_lookup (j : nat) fragments : Forall (fun f => 0 <= fm_pageFirst f <= fm_pageLast f) fragments -> forall pages,
  number_fragments fragments pages !! j = number_one (Z.of_nat j) fragments <$> pages !! j.
Proof.
  induction 1 as [|f fragments Hf _ IH]; intros pages; cbn [number_fragments]; [by destruct (pages !! j)|].
  rewrite IH, number_pages_lookup by lia. destruct (pages !! j) as [p|]; [|done]. cbn [fmap option_fmap option_map]. f_equal.
  unfold number_one. cbn [fold_left]. f_equal. rewrite Z2Nat.id by lia.
  replace (Z.of_nat j <? fm_pageFirst f + (fm_pageLast f - fm_pageFirst f + 1)) with (Z.of_nat j <=? fm_pageLast f); [done|].
  destruct (Z.leb_spec (Z.of_nat j) (fm_pageLast f)), (Z.ltb_spec (Z.of_nat j) (fm_pageFirst f + (fm_pageLast f - fm_pageFirst f + 1))); lia || done.
Qed.

Lemma chain_disjoint limit fragments : forall cursor total a b f g, fragment_chain cursor total limit fragments ->
  fragments !! a = Some f -> fragments !! b = Some g -> (a < b)%nat -> f_End (fm_Fragment f) <= f_Start (fm_Fragment g).
Proof.
  induction fragments as [|h fragments IH]; intros cursor total a b f g Hc Ha Hb Hab; [done|].
  destruct b as [|b]; [lia|]. destruct a as [|a].
  - injection Ha as <-. pose proof (chain_later _ _ _ _ _ Hc) as Hl. rewrite List.Forall_forall in Hl. apply Hl.
    apply list_elem_of_In. eapply list_elem_of_lookup_2. exact Hb.
  - destruct Hc as (_ & _ & _ & _ & _ & Hc). eapply (IH _ _ a b); [exact Hc|done|done|lia].
Qed.

Section Marks.
Context (doc : list byte) (through limit : Z) (fragments : list fragmentMeta) (pages : list pageMeta).
Hypothesis Hchain : fragment_chain 0 0 limit fragments.
Hypothesis Hfresh : Forall (fun f => fm_pageFirst f = -1 /\ fm_pageLast f = -1) fragments.
Hypothesis Htiles : tiles 0 (zlen doc) pages.
Hypothesis Hpages : Forall (published doc through fragments) pages.
Hypothesis Hstarts : Forall (fun f => In (f_Start (fm_Fragment f)) (map pm_start pages) /\
  (f_End (fm_Fragment f) = zlen doc \/ In (f_End (fm_Fragment f)) (map pm_start pages))) fragments.

Lemma pages_nonempty : Forall (fun p => pm_start p < pm_end p) pages.
Proof. eapply List.Forall_impl; [|exact Hpages]. intros p [Hp _]. apply Hp. Qed.

Lemma chain_range (n : nat) f : fragments !! n = Some f -> f_Start (fm_Fragment f) < f_End (fm_Fragment f).
Proof.
  clear Hfresh Hpages Hstarts Htiles. revert n Hchain. generalize 0 at 1. generalize 0. induction fragments as [|g gs IH]; intros t c n Hc Hn; [done|].
  destruct Hc as (H1 & _ & _ & _ & _ & Hc). destruct n as [|n]; [injection Hn as <-; lia|]. by eapply IH.
Qed.

(** The pages of the fragment [n] are those inside it. *)
Lemma fragment_pages n f : fragments !! n = Some f -> exists pages1 pages2 pages3,
  pages = pages1 ++ pages2 ++ pages3 /\ pages2 <> [] /\ tiles (f_Start (fm_Fragment f)) (f_End (fm_Fragment f)) pages2 /\
  Forall (fun p => pm_fragment p <> Z.of_nat n) pages1 /\ Forall (fun p => pm_fragment p = Z.of_nat n) pages2 /\
  Forall (fun p => pm_fragment p <> Z.of_nat n) pages3.
Proof.
  intros Hn. pose proof (chain_range n f Hn) as Hlt. pose proof pages_nonempty as Hne.
  destruct (Forall_lookup_1 _ _ _ _ Hstarts Hn) as [Hs He].
  destruct (tiles_split pages _ _ _ Htiles (or_intror Hs)) as (pages1 & rest & Hp1 & Ht1 & Ht2).
  rewrite Hp1 in Hne. apply Forall_app in Hne as [Hne1 Hne2].
  assert (f_End (fm_Fragment f) = zlen doc \/ In (f_End (fm_Fragment f)) (map pm_start rest)) as He'.
  { destruct He as [?|He]; [by left|right]. rewrite Hp1, map_app in He. apply in_app_iff in He as [He|?]; [|done].
    destruct (tiles_bounds _ _ _ Ht1 Hne1) as [_ Hb]. apply in_map_iff in He as (p & Ep & Hin). rewrite List.Forall_forall in Hb, Hne1.
    specialize (Hb p Hin). specialize (Hne1 p Hin). lia. }
  destruct (tiles_split rest _ _ _ Ht2 He') as (pages2 & pages3 & Hp2 & Ht3 & Ht4).
  rewrite Hp2 in Hne2. apply Forall_app in Hne2 as [Hne2 Hne3].
  destruct (tiles_bounds _ _ _ Ht1 Hne1) as [_ Hb1]. destruct (tiles_bounds _ _ _ Ht3 Hne2) as [_ Hb2]. destruct (tiles_bounds _ _ _ Ht4 Hne3) as [_ Hb3].
  assert (Forall (published doc through fragments) (pages1 ++ pages2 ++ pages3)) as Hpub by (by rewrite <-Hp2, <-Hp1).
  apply Forall_app in Hpub as [Hq1 Hpub]. apply Forall_app in Hpub as [Hq2 Hq3].
  assert (forall p, published doc through fragments p -> pm_fragment p = Z.of_nat n ->
    f_Start (fm_Fragment f) <= pm_start p /\ pm_end p <= f_End (fm_Fragment f)) as Hinside.
  { intros p (_ & [(k & g & Hk & Ek & H1 & H2 & _)|(Ek & _)] & _) E; [|lia]. assert (k = n) as -> by lia. rewrite Hn in Hk. by injection Hk as <-. }
  exists pages1, pages2, pages3. split; [by rewrite Hp1, Hp2|]. split_and!.
  - intros ->. cbn in Ht3. lia.
  - done.
  - rewrite List.Forall_forall in Hb1, Hq1, Hne1 |- *. intros p Hp E. destruct (Hinside p (Hq1 p Hp) E).
    specialize (Hb1 p Hp). specialize (Hne1 p Hp). lia.
  - rewrite List.Forall_forall in Hb2, Hq2, Hne2 |- *. intros p Hp. specialize (Hb2 p Hp). specialize (Hne2 p Hp).
    destruct (Hq2 p Hp) as (_ & [(k & g & Hk & Ek & H1 & H2 & _)|(_ & _ & _ & Hout)] & _).
    + destruct (decide (k < n)%nat) as [Hkn|]; [pose proof (chain_disjoint _ _ _ _ _ _ _ _ Hchain Hk Hn Hkn); lia|].
      destruct (decide (n < k)%nat) as [Hkn|]; [pose proof (chain_disjoint _ _ _ _ _ _ _ _ Hchain Hn Hk Hkn); lia|]. by replace n with k by lia.
    + pose proof (Forall_lookup_1 _ _ _ _ Hout Hn) as H. cbn in H. lia.
  - rewrite List.Forall_forall in Hb3, Hq3, Hne3 |- *. intros p Hp E. destruct (Hinside p (Hq3 p Hp) E).
    specialize (Hb3 p Hp). specialize (Hne3 p Hp). lia.
Qed.

Lemma fragments_at_least : Forall (fun p => -1 <= pm_fragment p) pages.
Proof.
  eapply List.Forall_impl; [|exact Hpages]. intros p (_ & [(k & g & _ & -> & _)|(-> & _)] & _); lia.
Qed.

(** After the marking: every fragment is exactly its pages, and nothing else of it
    changed. *)
Lemma marked n f' : mark_pages 0 pages fragments !! n = Some f' -> exists f, fragments !! n = Some f /\
  fm_Fragment f' = fm_Fragment f /\ fm_measureStart f' = fm_measureStart f /\ covers pages f' /\
  forall j p, pages !! j = Some p -> (pm_fragment p = Z.of_nat n <-> fm_pageFirst f' <= Z.of_nat j <= fm_pageLast f').
Proof.
  rewrite (mark_pages_lookup pages n fragments_at_least). destruct (fragments !! n) as [f|] eqn:Hn; [|done]. intros [= <-].
  exists f. split; [done|]. destruct (fragment_pages n f Hn) as (pages1 & pages2 & pages3 & Hp & Hne & Ht & H1 & H2 & H3).
  destruct (Forall_lookup_1 _ _ _ _ Hfresh Hn) as [Hf _].
  assert (mark_one (Z.of_nat n) 0 pages f = mkFragmentMeta (fm_Fragment f) (fm_measureStart f) (zlen pages1) (zlen pages1 + zlen pages2 - 1)) as ->.
  { rewrite Hp, !mark_one_app, (mark_one_none _ pages1), (mark_one_none _ pages3) by done. pose proof (zlen_nonneg pages1).
    rewrite mark_one_all by (done || lia). by rewrite Hf, Z.add_0_l. }
  cbn. split_and!; try done; [by exists pages1, pages2, pages3|].
  intros j p Hj. rewrite Hp in Hj. unfold zlen. destruct (decide (j < length pages1)%nat) as [L1|L1].
  - rewrite lookup_app_l in Hj by done. pose proof (Forall_lookup_1 _ _ _ _ H1 Hj). cbn in *. lia.
  - rewrite lookup_app_r in Hj by lia. destruct (decide (j - length pages1 < length pages2)%nat) as [L2|L2].
    + rewrite lookup_app_l in Hj by done. pose proof (Forall_lookup_1 _ _ _ _ H2 Hj). cbn in *. lia.
    + rewrite lookup_app_r in Hj by lia. pose proof (Forall_lookup_1 _ _ _ _ H3 Hj). cbn in *. lia.
Qed.
End Marks.

(** ** What numbering keeps *)

Lemma map_alter {A B} (g : A -> B) (h : A -> A) i l : (forall x, g (h x) = g x) -> map g (alter h i l) = map g l.
Proof. intros H. revert i. induction l as [|x l IH]; intros [|i]; cbn; try done; f_equal; auto. Qed.

Lemma number_pages_map {B} (g : pageMeta -> B) count first total : (forall a b p, g (set_continuation a b p) = g p) ->
  forall i pages, map g (number_pages count i first total pages) = map g pages.
Proof. intros Hg. induction count as [|count IH]; intros i pages; cbn [number_pages]; [done|]. rewrite IH. by apply map_alter. Qed.

Lemma number_fragments_map {B} (g : pageMeta -> B) fragments : (forall a b p, g (set_continuation a b p) = g p) -> forall pages,
  map g (number_fragments fragments pages) = map g pages.
Proof.
  intros Hg. induction fragments as [|f fragments IH]; intros pages; cbn [number_fragments]; [done|]. by rewrite IH, number_pages_map.
Qed.

Lemma tiles_ext pages pages' : map pm_start pages = map pm_start pages' -> map pm_end pages = map pm_end pages' ->
  forall a b, tiles a b pages -> tiles a b pages'.
Proof.
  revert pages'. induction pages as [|p pages IH]; intros [|q pages'] Hs He a b; try done. cbn [map tiles] in *.
  injection Hs as Hs1 Hs. injection He as He1 He. rewrite Hs1, He1. intros [? ?]. split; [done|]. by apply (IH pages').
Qed.

Lemma covers_ext pages pages' f : map pm_start pages = map pm_start pages' -> map pm_end pages = map pm_end pages' ->
  covers pages f -> covers pages' f.
Proof.
  intros Hs He (p1 & p2 & p3 & -> & Hne & Ht & H1 & H2).
  assert (length pages' = length (p1 ++ p2 ++ p3)) as Hl by (rewrite <-(length_map pm_start pages'), <-Hs, length_map; done).
  rewrite !length_app in Hl. set (n1 := length p1) in *. set (n2 := length p2) in *.
  exists (take n1 pages'), (take n2 (drop n1 pages')), (drop n2 (drop n1 pages')). rewrite !take_drop.
  assert (forall g : pageMeta -> Z, map g (p1 ++ p2 ++ p3) = map g pages' -> map g p2 = map g (take n2 (drop n1 pages'))) as Hsub.
  { intros g E. rewrite !map_app in E. rewrite <-firstn_map, <-skipn_map, <-E. unfold n1, n2.
    rewrite <-(length_map g p1), drop_app_length, <-(length_map g p2). by rewrite take_app_length. }
  split_and!; [done| |eapply tiles_ext; [by apply Hsub|by apply Hsub|exact Ht]|..].
  - intros E. apply (f_equal length) in E. rewrite length_take, length_drop in E. cbn [length] in E.
    assert (0 < n2)%nat by (unfold n2; destruct p2; [done|cbn; lia]). lia.
  - rewrite H1. unfold zlen. rewrite length_take. lia.
  - rewrite H2. unfold zlen. rewrite !length_take, length_drop. lia.
Qed.

Lemma number_one_none j fragments p : Forall (fun f => ~ fm_pageFirst f <= j <= fm_pageLast f) fragments -> number_one j fragments p = p.
Proof.
  unfold number_one. intros H. revert p. induction H as [|f fragments Hf _ IH]; intros p; cbn [fold_left]; [done|].
  replace ((fm_pageFirst f <=? j) && (j <=? fm_pageLast f)) with false by lia. apply IH.
Qed.

Lemma number_one_at j n f fragments p : fragments !! n = Some f -> fm_pageFirst f <= j <= fm_pageLast f ->
  (forall k g, fragments !! k = Some g -> fm_pageFirst g <= j <= fm_pageLast g -> k = n) ->
  number_one j fragments p = set_continuation (j - fm_pageFirst f) (fm_pageLast f - fm_pageFirst f + 1) p.
Proof.
  intros Hn Hj Huniq.
  assert (forall l, (forall k g, l !! k = Some g -> ~ fm_pageFirst g <= j <= fm_pageLast g) -> forall q, number_one j l q = q) as Hnone.
  { intros l Hl q. apply number_one_none. apply Forall_lookup. exact Hl. }
  rewrite <-(take_drop_middle _ _ _ Hn).
  assert (forall l k q, number_one j (l ++ k) q = number_one j k (number_one j l q)) as Happ by (intros; apply fold_left_app).
  rewrite Happ, (Hnone (take n fragments)).
  2:{ intros k g Hk Hr. apply lookup_take_Some in Hk as [Hk ?]. specialize (Huniq k g Hk Hr). lia. }
  change (f :: drop (S n) fragments) with ([f] ++ drop (S n) fragments). rewrite Happ, (Hnone (drop (S n) fragments)).
  2:{ intros k g Hk Hr. rewrite lookup_drop in Hk. specialize (Huniq _ g Hk Hr). lia. }
  unfold number_one. cbn [fold_left]. by replace ((fm_pageFirst f <=? j) && (j <=? fm_pageLast f)) with true by lia.
Qed.

(** ** The state of a pager *)

(** A page lies in the fragment it names, at its place in it, or touches none. *)
Definition numbered (fragments : list fragmentMeta) (j : nat) (p : pageMeta) : Prop :=
  (exists n f, fragments !! n = Some f /\ pm_fragment p = Z.of_nat n /\
     f_Start (fm_Fragment f) <= pm_start p /\ pm_end p <= f_End (fm_Fragment f) /\
     pm_measureStart p = fm_measureStart f /\ pm_measureEnd p = measureEnd f /\
     fm_pageFirst f <= Z.of_nat j <= fm_pageLast f /\
     pm_continuation p = Z.of_nat j - fm_pageFirst f /\ pm_continuations p = fm_pageLast f - fm_pageFirst f + 1) \/
  (pm_fragment p = -1 /\ pm_measureStart p = 0 /\ pm_measureEnd p = 0 /\ pm_continuation p = 0 /\ pm_continuations p = 0 /\
   Forall (fun f => f_End (fm_Fragment f) <= pm_start p \/ pm_end p <= f_Start (fm_Fragment f)) fragments).

Record state_ok (doc : list byte) (options : resolvedOptions) (st : pagerState) : Prop := {
  so_pages :
    doc = [] /\ st_fragments st = [] /\ (exists indexed, st_pages st = [mkPageMeta 0 0 0 0 false false false (-1) 0 0 0 0 indexed]) \/
    doc <> [] /\ tiles 0 (zlen doc) (st_pages st) /\ Forall (page_text doc) (st_pages st) /\
    Forall (fun p => pm_indexed p = (pm_end p <=? st_indexedThrough st)) (st_pages st);
  so_size : Forall (fun p => pm_end p - pm_start p <= ro_maximumPageBytes options) (st_pages st);
  so_numbered : forall j p, st_pages st !! j = Some p -> numbered (st_fragments st) j p;
  so_covers : Forall (covers (st_pages st)) (st_fragments st);
  so_chain : fragment_chain 0 0 (st_indexedThrough st) (st_fragments st);
  so_valid : fragments_valid options (st_indexedThrough st) (map fm_Fragment (st_fragments st));
  so_byID : forall id k, st_fragmentByID st !! id = Some k <->
    exists n f, k = Z.of_nat n /\ st_fragments st !! n = Some f /\ f_ID (fm_Fragment f) = id;
  so_total : st_totalMeasure st = measures (map fm_Fragment (st_fragments st));
  so_through : 0 <= st_indexedThrough st <= zlen doc;
  so_complete : st_complete st = true -> st_indexedThrough st = zlen doc }.

(** ** Building the pages of a publication *)

Lemma increasing_hd l x : increasing l -> In x l -> Forall (fun y => x <= y) l -> hd 0 l = x.
Proof.
  destruct l as [|y l]; [done|]. intros [_ Hlt]%StronglySorted_inv [->|Hin] Hall; [done|].
  apply Forall_cons_iff in Hall as [? _]. rewrite List.Forall_forall in Hlt. specialize (Hlt x Hin). cbn. lia.
Qed.
Lemma increasing_last l x : increasing l -> In x l -> Forall (fun y => y <= x) l -> List.last l 0 = x.
Proof.
  intros Hl Hin Hall. destruct l as [|y l _] using rev_ind; [done|]. rewrite List.last_last.
  apply in_app_iff in Hin as [Hin|[->|[]]]; [|done]. apply offsets_app in Hl as (_ & _ & Hlt).
  apply Forall_app in Hall as [_ Hall]. apply Forall_cons_iff in Hall as [? _]. rewrite List.Forall_forall in Hlt.
  specialize (Hlt x Hin). apply Forall_cons_iff in Hlt as [? _]. lia.
Qed.

Lemma chain_bounds limit fragments : forall cursor total, fragment_chain cursor total limit fragments -> cursor <= limit \/ fragments = [] ->
  Forall (fun f => cursor <= f_Start (fm_Fragment f) < f_End (fm_Fragment f) /\ f_End (fm_Fragment f) <= limit) fragments.
Proof.
  induction fragments as [|f fragments IH]; intros cursor total H Hl; [constructor|]. destruct H as (H1 & H2 & _ & _ & _ & H).
  constructor; [lia|]. eapply List.Forall_impl; [|apply (IH _ _ H); lia]. cbn. lia.
Qed.

Lemma fragment_chain_ext limit fragments fragments' : map fm_Fragment fragments = map fm_Fragment fragments' ->
  map fm_measureStart fragments = map fm_measureStart fragments' ->
  forall cursor total, fragment_chain cursor total limit fragments -> fragment_chain cursor total limit fragments'.
Proof.
  revert fragments'. induction fragments as [|f fragments IH]; intros [|g fragments'] Hf Hm cursor total; try done. cbn [map] in *.
  injection Hf as Hf1 Hf. injection Hm as Hm1 Hm. cbn. rewrite Hf1, Hm1. intros (? & ? & ? & ? & ? & ?). split_and!; try lia. by apply IH.
Qed.

Lemma tiles_find pages : forall a b x, tiles a b pages -> a <= x < b -> exists p, In p pages /\ pm_start p <= x < pm_end p.
Proof.
  induction pages as [|p pages IH]; intros a b x; cbn [tiles]; [intros ->; lia|]. intros [<- Ht] Hx.
  destruct (decide (x < pm_end p)); [exists p; split; [by left|lia]|]. destruct (IH _ _ x Ht ltac:(lia)) as (q & ? & ?). exists q. split; [by right|done].
Qed.

(** A page between consecutive boundaries lies within one logical page. *)
Lemma cut_size maximum logical pages len : tiles 0 len logical -> Forall (fun p => pm_end p - pm_start p <= maximum) logical ->
  tiles 0 len pages -> Forall (fun p => pm_start p < pm_end p) pages ->
  Forall (fun q => pm_end q = len \/ In (pm_end q) (map pm_start pages)) logical ->
  Forall (fun p => pm_end p - pm_start p <= maximum) pages.
Proof.
  intros Hl Hsize Ht Hne Hends. destruct (tiles_bounds _ _ _ Ht Hne) as [_ Hb]. rewrite List.Forall_forall in *. intros p Hp.
  destruct (tiles_find logical 0 len (pm_start p) Hl) as (q & Hq & Hqp); [specialize (Hb p Hp); specialize (Hne p Hp); lia|].
  specialize (Hsize q Hq). enough (pm_end p <= pm_end q) by lia. pose proof (Hb p Hp).
  destruct (Hends q Hq) as [->|Hin]; [lia|].
  destruct (tiles_split pages (pm_end q) _ _ Ht (or_intror Hin)) as (p1 & p2 & -> & Ht1 & Ht2).
  apply in_app_iff in Hp as [Hp|Hp].
  - destruct (tiles_bounds _ _ _ Ht1) as [_ Hb1]; [apply List.Forall_forall; intros x Hx; apply Hne, in_app_iff; by left|].
    rewrite List.Forall_forall in Hb1. specialize (Hb1 p Hp). lia.
  - destruct (tiles_bounds _ _ _ Ht2) as [_ Hb2]; [apply List.Forall_forall; intros x Hx; apply Hne, in_app_iff; by right|].
    rewrite List.Forall_forall in Hb2. specialize (Hb2 p Hp). lia.
Qed.

Lemma page_text_numbered doc a b p : page_text doc p -> page_text doc (set_continuation a b p).
Proof. intros []. by split. Qed.

Lemma number_one_shape j fragments : forall p, number_one j fragments p = p \/ exists a b, number_one j fragments p = set_continuation a b p.
Proof.
  unfold number_one. induction fragments as [|f fragments IH]; intros p; cbn [fold_left]; [by left|].
  destruct (_ && _); [|apply IH]. right. set (a := j - _). set (b := _ + 1).
  destruct (IH (set_continuation a b p)) as [->|(c & d & ->)]; [by exists a, b|by exists c, d].
Qed.

(** The number a page gets is its place in its fragment. *)
Lemma numbered_page doc through fragments metas pages :
  map fm_Fragment metas = map fm_Fragment fragments -> (forall n f, fragments !! n = Some f -> exists f', metas !! n = Some f') ->
  (forall n f', metas !! n = Some f' -> exists f, fragments !! n = Some f /\ fm_Fragment f' = fm_Fragment f /\
     fm_measureStart f' = fm_measureStart f /\ covers pages f' /\
     forall j p, pages !! j = Some p -> (pm_fragment p = Z.of_nat n <-> fm_pageFirst f' <= Z.of_nat j <= fm_pageLast f')) ->
  forall j p, pages !! j = Some p -> published doc through fragments p -> numbered metas j (number_one (Z.of_nat j) metas p).
Proof.
  intros Hmf Hsome Hmark j p Hj (_ & [(n & f & Hf & En & H1 & H2 & H3 & H4)|(En & H1 & H2 & Hout)] & _ & Hc1 & Hc2).
  - destruct (Hsome n f Hf) as [f' Hf']. destruct (Hmark n f' Hf') as (f0 & Hf0 & Ef & Em & _ & Hr). rewrite Hf in Hf0. injection Hf0 as <-.
    assert (fm_pageFirst f' <= Z.of_nat j <= fm_pageLast f') as Hrange by (by apply (Hr j p)).
    rewrite (number_one_at _ n f' _ _ Hf' Hrange).
    + left. exists n, f'. cbn. unfold measureEnd in *. rewrite Ef, Em. split_and!; try done; lia.
    + intros k g Hg Hrg. destruct (Hmark k g Hg) as (_ & _ & _ & _ & _ & Hrk). apply (Hrk j p Hj) in Hrg. lia.
  - rewrite number_one_none.
    + right. split_and!; try done. assert (Forall (fun f => f_End f <= pm_start p \/ pm_end p <= f_Start f) (map fm_Fragment fragments)) as Hm.
      { apply List.Forall_map. exact Hout. }
      rewrite <-Hmf in Hm. by apply List.Forall_map in Hm.
    + apply Forall_lookup. intros k g Hg Hrg. destruct (Hmark k g Hg) as (_ & _ & _ & _ & _ & Hrk). apply (Hrk j p Hj) in Hrg. lia.
Qed.

Lemma in_removelast (l : list Z) x : In x l -> In x (removelast l) \/ x = List.last l 0.
Proof.
  destruct l as [|y l _] using rev_ind; [done|]. rewrite removelast_last, List.last_last. intros [?|[->|[]]]%in_app_iff; auto.
Qed.

Section BuildPublished.
Context (doc : list byte) (Hvalid : utf8_Valid doc = true) (Hdoc : zlen doc <= maxInt64) (Hne : doc <> []).
Context (options : resolvedOptions) (source : ReaderAt) (Hsource : ReaderOk source doc) (logical : list pageMeta).
Hypothesis Hlt : tiles 0 (zlen doc) logical.
Hypothesis Hlp : Forall (page_text doc) logical.
Hypothesis Hls : Forall (fun p => pm_end p - pm_start p <= ro_maximumPageBytes options) logical.
Context (through : Z) (Hthrough : 0 <= through <= zlen doc) (fragments : list fragmentMeta).
Hypothesis Hchain : fragment_chain 0 0 through fragments.
Hypothesis Hfresh : Forall (fun f => fm_pageFirst f = -1 /\ fm_pageLast f = -1) fragments.

(** The offsets a publication cuts at. *)
Definition cuts : list Z :=
  let extra := concat (map (fun f => [f_Start (fm_Fragment f); f_End (fm_Fragment f)]) fragments) in
  if (0 <? through) && (through <? zlen doc) then extra ++ [through] else extra.

Lemma in_cuts x : In x cuts <->
  (exists f, In f fragments /\ (x = f_Start (fm_Fragment f) \/ x = f_End (fm_Fragment f))) \/ (x = through /\ 0 < through < zlen doc).
Proof.
  assert (In x (concat (map (fun f => [f_Start (fm_Fragment f); f_End (fm_Fragment f)]) fragments)) <->
    exists f, In f fragments /\ (x = f_Start (fm_Fragment f) \/ x = f_End (fm_Fragment f))) as Hc.
  { rewrite in_concat. split.
    - intros (l & (f & <- & Hf)%in_map_iff & [<-|[<-|[]]]); exists f; auto.
    - intros (f & Hf & Hx). eexists. split; [by apply in_map|]. cbn. naive_solver. }
  unfold cuts. destruct ((0 <? through) && (through <? zlen doc)) eqn:E.
  - rewrite in_app_iff, Hc. cbn. split; [intros [?|[<-|[]]]; [by left|right; split; [done|lia]]|intros [?|[-> _]]; auto].
  - rewrite Hc. split; [by left|intros [?|[-> ?]]; [done|lia]].
Qed.

Lemma cuts_range : Forall (fun x => 0 <= x <= zlen doc) cuts.
Proof.
  apply List.Forall_forall. intros x [(f & Hf & Hx)|[-> ?]]%in_cuts; [|lia].
  pose proof (chain_bounds _ _ _ _ Hchain (or_introl (proj1 Hthrough))) as Hb. rewrite List.Forall_forall in Hb. specialize (Hb f Hf). lia.
Qed.

(** The pages of the publication and its fragments with their pages. *)
Definition built (r : result (list pageMeta * list fragmentMeta)) : Prop :=
  match r with
  | Ok (pages, metas) =>
    Forall (cut doc) cuts /\ map fm_Fragment metas = map fm_Fragment fragments /\ fragment_chain 0 0 through metas /\
    tiles 0 (zlen doc) pages /\ Forall (page_text doc) pages /\ Forall (fun p => pm_indexed p = (pm_end p <=? through)) pages /\
    Forall (fun p => pm_end p - pm_start p <= ro_maximumPageBytes options) pages /\
    (forall j p, pages !! j = Some p -> numbered metas j p) /\ Forall (covers pages) metas
  | Err e => e = virtual_ErrInvalidFragment /\ Exists (fun x => ~ cut doc x) cuts
  end.

(** From the pages between the boundaries on. *)
Lemma finish_pages pages : Forall (cut doc) cuts -> Forall (published doc through fragments) pages -> tiles 0 (zlen doc) pages ->
  (forall x, In x cuts \/ Exists (fun q => x = pm_end q) logical -> x = zlen doc \/ In x (map pm_start pages)) ->
  built (Ok (number_fragments (mark_pages 0 pages fragments) pages, mark_pages 0 pages fragments)).
Proof.
  intros Hcuts Hpub Ht Hin. set (metas := mark_pages 0 pages fragments).
  assert (Forall (fun p => pm_start p < pm_end p) pages) as Hpne by (eapply List.Forall_impl; [|exact Hpub]; intros p [Hp _]; apply Hp).
  pose proof (chain_bounds _ _ _ _ Hchain (or_introl (proj1 Hthrough))) as Hb.
  assert (Forall (fun f => In (f_Start (fm_Fragment f)) (map pm_start pages) /\
    (f_End (fm_Fragment f) = zlen doc \/ In (f_End (fm_Fragment f)) (map pm_start pages))) fragments) as Hstarts.
  { rewrite List.Forall_forall in Hb |- *. intros f Hf. specialize (Hb f Hf). split.
    - destruct (Hin (f_Start (fm_Fragment f))) as [E|?]; [left; apply in_cuts; left; by exists f; auto|lia|done].
    - apply Hin. left. apply in_cuts. left. exists f. auto. }
  pose proof (marked doc through through fragments pages Hchain Hfresh Ht Hpub Hstarts) as Hmark. fold metas in Hmark.
  assert (forall n f, fragments !! n = Some f -> exists f', metas !! n = Some f') as Hsome.
  { intros n f Hf. unfold metas. rewrite (mark_pages_lookup pages n (fragments_at_least doc through fragments pages Hpub)), Hf. by eexists. }
  assert (forall B (g : fragmentMeta -> B), (forall n f' f, metas !! n = Some f' -> fragments !! n = Some f -> g f' = g f) ->
    map g metas = map g fragments) as Hmap.
  { intros B g Hg. apply list_eq. intros n. change (map g metas) with (g <$> metas). change (map g fragments) with (g <$> fragments).
    rewrite !list_lookup_fmap. destruct (fragments !! n) as [f|] eqn:Hf.
    - destruct (Hsome n f Hf) as [f' Hf']. rewrite Hf'. cbn. f_equal. by apply (Hg n).
    - destruct (metas !! n) as [f'|] eqn:Hf'; [|done]. destruct (Hmark n f' Hf') as (f & ? & _). congruence. }
  assert (map fm_Fragment metas = map fm_Fragment fragments) as Hmf.
  { apply Hmap. intros n f' f Hf' Hf. destruct (Hmark n f' Hf') as (f0 & Hf0 & ? & _). congruence. }
  assert (map fm_measureStart metas = map fm_measureStart fragments) as Hmm.
  { apply Hmap. intros n f' f Hf' Hf. destruct (Hmark n f' Hf') as (f0 & Hf0 & _ & ? & _). congruence. }
  assert (Forall (covers pages) metas) as Hcov by (apply Forall_lookup; intros n f' Hf'; by destruct (Hmark n f' Hf') as (? & _ & _ & _ & ? & _)).
  assert (Forall (fun f => 0 <= fm_pageFirst f <= fm_pageLast f) metas) as Hranges.
  { eapply List.Forall_impl; [|exact Hcov]. intros f (p1 & p2 & p3 & _ & Hne2 & _ & -> & ->). pose proof (zlen_nonneg p1).
    assert (0 < zlen p2) by (destruct p2; [done|rewrite zlen_cons; pose proof (zlen_nonneg p2); lia]). lia. }
  assert (forall j p', number_fragments metas pages !! j = Some p' -> exists p, pages !! j = Some p /\ p' = number_one (Z.of_nat j) metas p) as Hnum.
  { intros j p'. rewrite number_fragments_lookup by done. destruct (pages !! j) as [p|]; [|done]. intros [= <-]. by exists p. }
  assert (forall g : pageMeta -> Z, (forall a b p, g (set_continuation a b p) = g p) -> map g pages = map g (number_fragments metas pages)) as Hg
    by (intros; by rewrite number_fragments_map).
  assert (forall P : pageMeta -> Prop, (forall a b p, P p -> P (set_continuation a b p)) -> Forall P pages -> Forall P (number_fragments metas pages)) as Hall.
  { intros P HP Hp. apply Forall_lookup. intros j p' Hj. destruct (Hnum j p' Hj) as (p & Hp' & ->).
    destruct (number_one_shape (Z.of_nat j) metas p) as [->|(a & b & ->)]; [|apply HP]; by eapply (Forall_lookup_1 P pages). }
  split_and!; [done|done|by eapply fragment_chain_ext| | | | | |].
  - eapply tiles_ext; [by apply Hg|by apply Hg|done].
  - apply Hall; [intros; by apply page_text_numbered|]. eapply List.Forall_impl; [|exact Hpub]. by intros p [? _].
  - apply Hall; [done|]. eapply List.Forall_impl; [|exact Hpub]. by intros p (_ & _ & ? & _).
  - apply Hall; [done|]. apply (cut_size _ logical _ _ Hlt Hls Ht Hpne). apply List.Forall_forall. intros q Hq. apply Hin. right.
    apply List.Exists_exists. by exists q.
  - intros j p' Hj. destruct (Hnum j p' Hj) as (p & Hp & ->). apply (numbered_page doc through fragments metas pages Hmf Hsome Hmark j p Hp).
    by eapply (Forall_lookup_1 _ pages).
  - eapply List.Forall_impl; [|exact Hcov]. intros f. apply covers_ext; by apply Hg.
Qed.

Lemma doc_pos : 0 < zlen doc.
Proof. pose proof (zlen_nonneg doc). destruct (decide (zlen doc = 0)) as [E|]; [by apply zlen_zero in E|lia]. Qed.

Lemma known_zero : known ({[0 := 0]}, {[0 := true]}) 0.
Proof. split; eexists; apply lookup_singleton_eq. Qed.
Lemma right_zero : maps_right doc ({[0 := 0]}, {[0 := true]}).
Proof. split; intros x v; cbn; intros [<- <-]%lookup_singleton_Some; done. Qed.

Definition boundaries : list Z := compactOffsets (sort_offsets (0 :: map pm_end logical ++ compactOffsets (sort_offsets cuts))).

Lemma in_boundaries x : In x boundaries <-> x = 0 \/ In x (map pm_end logical) \/ In x cuts.
Proof.
  unfold boundaries. rewrite (proj2 (sort_compact _)). cbn. rewrite in_app_iff, (proj2 (sort_compact cuts)). naive_solver.
Qed.

Lemma logical_end x : In x (map pm_end logical) -> Exists (fun p => x = pm_start p \/ x = pm_end p) logical /\ cut doc x.
Proof.
  rewrite List.Forall_forall in Hlp. intros (q & <- & Hq)%in_map_iff. split; [|by apply Hlp]. apply List.Exists_exists. exists q. auto.
Qed.

Lemma boundaries_range : Forall (fun x => 0 <= x <= zlen doc) boundaries.
Proof.
  pose proof doc_pos. pose proof cuts_range as Hcr. rewrite List.Forall_forall in Hcr |- *.
  intros x [->|[[_ [? _]]%logical_end|Hx]]%in_boundaries; [lia|done|auto].
Qed.

Lemma boundaries_ends : hd 0 boundaries = 0 /\ List.last boundaries 0 = zlen doc /\ boundaries <> [].
Proof.
  assert (increasing boundaries) as Hinc by apply sort_compact. pose proof boundaries_range as Hr.
  assert (In 0 boundaries) as H0 by (apply in_boundaries; by left). split_and!.
  - apply increasing_hd; [done|done|]. eapply List.Forall_impl; [|exact Hr]. cbn. lia.
  - apply increasing_last; [done| |eapply List.Forall_impl; [|exact Hr]; cbn; lia]. apply in_boundaries. right; left.
    destruct (tiles_last _ _ _ Hlt) as [[_ E]|[Hn E]]; [pose proof doc_pos; lia|]. rewrite <-E. apply in_map.
    destruct logical as [|q qs _] using rev_ind; [done|]. rewrite List.last_last. apply in_app_iff. right; by left.
  - intros E. by rewrite E in H0.
Qed.

(** [lineAndBoundaryMap] knows every boundary, or some cut is none. *)
Definition mapped (r : result line_maps) : Prop :=
  match r with
  | Ok maps => maps_right doc maps /\ Forall (cut doc) cuts /\ Forall (fun x => cut doc x /\ known maps x) boundaries
  | Err e => e = virtual_ErrInvalidFragment /\ Exists (fun x => ~ cut doc x) cuts
  end.

Lemma lineAndBoundaryMap_spec ctx :
  yields ctx (lineAndBoundaryMap ctx source logical (compactOffsets (sort_offsets cuts))) mapped.
Proof.
  pose proof doc_pos. destruct (sort_compact cuts) as [Hinc Hextra]. set (extra := compactOffsets (sort_offsets cuts)) in *.
  pose proof cuts_range as Hcr. rewrite List.Forall_forall in Hcr.
  assert (Forall (fun x => 0 <= x <= zlen doc) extra) as Her by (apply List.Forall_forall; intros x Hx; apply Hcr; by apply Hextra).
  eapply yields_imp; [|apply (line_pages_spec doc Hvalid Hdoc ctx source logical Hsource 0 (zlen doc) extra)]; try done;
    [|split; [lia|done]|apply right_zero].
  intros [maps|e]; cbn.
  - intros (Hright & Hec & Hknown). rewrite List.Forall_forall in Hec.
    assert (forall x, In x cuts -> cut doc x) as Hcuts by (intros x Hx; apply Hec; by apply Hextra).
    split_and!; [done|by apply List.Forall_forall|]. apply List.Forall_forall. intros x [->|[[He ?]%logical_end|Hx]]%in_boundaries.
    + split; [split; [lia|done]|]. apply Hknown. left. apply known_zero.
    + split; [done|]. apply Hknown. by right; right.
    + split; [by apply Hcuts|]. apply Hknown. right; left. by apply Hextra.
  - intros [-> He]. split; [done|]. apply List.Exists_exists in He as (x & Hx & ?). apply List.Exists_exists. exists x.
    split; [by apply Hextra|done].
Qed.

Lemma buildPublishedPages_spec ctx complete :
  yields ctx (buildPublishedPages ctx source (zlen doc) logical fragments through complete) built.
Proof.
  unfold buildPublishedPages. fold cuts boundaries. pose proof doc_pos. destruct boundaries_ends as (Hhd & Hlast & Hne').
  eapply yields_bind; [apply lineAndBoundaryMap_spec| |by intros e [-> He]].
  intros maps (Hright & Hcuts & Hb). rewrite (proj2 (Z.eqb_neq _ _)) by lia.
  eapply yields_bind; [apply (published_pages_spec doc through maps Hright fragments ctx boundaries [] fragments)| |by intros e (? & ? & _)]; try done.
  - by do 3 eexists.
  - apply sort_compact.
  - destruct boundaries as [|b bs] eqn:E; [done|]. split; [constructor|]. rewrite <-E. apply List.Forall_forall. intros f Hf.
    split; right; apply in_boundaries; right; right; apply in_cuts; left; exists f; auto.
  - intros pages (pages' & [= ->] & Hpub & Hst & He). apply yields_ret.
    pose proof (tiles_boundaries boundaries pages' Hne' Hst He) as Ht. rewrite Hhd, Hlast in Ht.
    apply finish_pages; [done|done|done|]. intros x Hx. rewrite Hst, <-Hlast.
    assert (In x boundaries) as Hxb; [|destruct (in_removelast boundaries x Hxb); auto].
    apply in_boundaries. right. destruct Hx as [?|Hx]; [auto|left]. apply List.Exists_exists in Hx as (q & Hq & ->). by apply in_map.
Qed.
End BuildPublished.

(** ** The state of a publication *)

(** What a host may publish over a text. *)
Definition publishable (doc : list byte) (options : resolvedOptions) (publication : Publication) : Prop :=
  publication_valid options (zlen doc) publication /\
  Forall (fun f => cut doc (f_Start f) /\ cut doc (f_End f)) (pu_Fragments publication) /\ cut doc (pu_IndexedThrough publication).

Lemma cuts_publication doc through fragments : utf8_Valid doc = true -> 0 <= through <= zlen doc ->
  (Forall (cut doc) (cuts doc through fragments) <->
   Forall (fun f => cut doc (f_Start f) /\ cut doc (f_End f)) (map fm_Fragment fragments) /\ cut doc through).
Proof.
  intros Hv Ht. rewrite !List.Forall_forall. split.
  - intros H. split.
    + intros g (f & <- & Hf)%in_map_iff. split; apply H, (in_cuts doc through Ht); left; exists f; auto.
    + destruct (decide (0 < through < zlen doc)); [apply H, (in_cuts doc through Ht); by right|]. split; [lia|].
      destruct (decide (through = 0)) as [->|]; [done|]. by rewrite ztake_all by lia.
  - intros [H1 H2] x Hx. apply (in_cuts doc through Ht) in Hx as [(f & Hf & [->| ->])|[-> _]]; [..|done]; apply (H1 (fm_Fragment f)); by apply in_map.
Qed.

Definition build_answer (doc : list byte) (options : resolvedOptions) (publication : Publication) (metas : list fragmentMeta)
  (r : result (list pageMeta * list fragmentMeta)) : Prop :=
  match r with
  | Ok (pages, metas') =>
    publishable doc options publication /\
    (doc = [] /\ metas = [] /\ metas' = [] /\ pages = [mkPageMeta 0 0 0 0 false false false (-1) 0 0 0 0 (pu_Complete publication)] \/
     doc <> [] /\ built doc options (pu_IndexedThrough publication) metas (Ok (pages, metas')))
  | Err e => e = virtual_ErrInvalidFragment /\ ~ publishable doc options publication
  end.

Lemma empty_answer doc options publication : doc = [] -> publication_valid options (zlen doc) publication ->
  pu_Fragments publication = [] /\ publishable doc options publication.
Proof.
  intros -> Hp. pose proof (pv_through _ _ _ Hp) as Ht. change (zlen []) with 0 in Ht.
  assert (pu_Fragments publication = []) as E.
  { pose proof (fv_range _ _ _ (pv_fragments _ _ _ Hp)) as Hr. destruct (pu_Fragments publication) as [|f l]; [done|].
    apply Forall_cons_iff in Hr as [? _]. lia. }
  split; [done|]. split; [done|]. rewrite E. split; [constructor|]. replace (pu_IndexedThrough publication) with 0 by lia. by split.
Qed.

Lemma publication_pages_spec ctx doc source options logical publication metas total keyBytes :
  utf8_Valid doc = true -> zlen doc <= maxInt64 -> ReaderOk source doc -> logical_pages doc options logical ->
  validation_answer options (zlen doc) publication (Ok (metas, total, keyBytes)) ->
  yields ctx (buildPublishedPages ctx source (zlen doc) logical metas (pu_IndexedThrough publication) (pu_Complete publication))
    (build_answer doc options publication metas).
Proof.
  intros Hv Hd Hs [[E ->]|(Hne & Ht & Hl)] (Hp & Hmap & Hc & Hf & _ & _).
  - destruct (empty_answer doc options publication E Hp) as [Ef Hpub]. rewrite Ef in Hmap. apply map_eq_nil in Hmap. subst metas doc.
    change (zlen []) with 0 in *. pose proof (pv_through _ _ _ Hp). unfold buildPublishedPages.
    replace ((0 <? pu_IndexedThrough publication) && (pu_IndexedThrough publication <? 0)) with false by lia.
    intros k. left. cbn. split; [done|]. by left.
  - assert (Forall (fun p => pm_end p - pm_start p <= ro_maximumPageBytes options) logical) as Hsize
      by (eapply List.Forall_impl; [|exact Hl]; intros p (_ & Hpp & _); apply Hpp).
    assert (Forall (page_text doc) logical) as Htext by (eapply List.Forall_impl; [|exact Hl]; by intros p (? & _)).
    pose proof (pv_through _ _ _ Hp) as Hth. pose proof (cuts_publication doc _ metas Hv Hth) as Hcuts. rewrite Hmap in Hcuts.
    eapply yields_imp; [|apply (buildPublishedPages_spec doc Hv Hd Hne options source Hs logical Ht Htext Hsize _ Hth metas Hc Hf)].
    intros [[pages metas']|e]; cbn.
    + intros Hb. assert (publishable doc options publication) as Hpub by (split; [done|apply Hcuts, Hb]). split; [done|]. by right.
    + intros [-> He]. split; [done|]. intros [_ Hpub%Hcuts]. apply List.Exists_exists in He as (x & Hx & Hn).
      rewrite List.Forall_forall in Hpub. auto.
Qed.

(** The index of the identifiers. *)
Definition byID (fragments : list fragmentMeta) : gmap string Z :=
  fold_left (fun m '(index, f) => <[f_ID (fm_Fragment f) := Z.of_nat index]> m) (imap pair fragments) ∅.

Lemma byID_spec fragments : List.NoDup (map f_ID (map fm_Fragment fragments)) -> forall id k,
  byID fragments !! id = Some k <-> exists n f, k = Z.of_nat n /\ fragments !! n = Some f /\ f_ID (fm_Fragment f) = id.
Proof.
  unfold byID. induction fragments as [|f fragments IH] using rev_ind; intros Hnd id k.
  { split; [done|intros (n & f & _ & H & _); done]. }
  rewrite !map_app in Hnd. apply List.NoDup_app_remove_r in Hnd as Hnd'. apply List.NoDup_remove_2 in Hnd. rewrite app_nil_r in Hnd.
  rewrite imap_app, fold_left_app. cbn [imap fold_left]. change (imap (pair ∘ _) [f]) with [(length fragments + 0, f)%nat].
  cbn [fold_left]. rewrite Nat.add_0_r. destruct (decide (id = f_ID (fm_Fragment f))) as [->|Hne].
  - rewrite lookup_insert_eq. split.
    + intros [= <-]. exists (length fragments), f. split_and!; [done|by rewrite list_lookup_middle|done].
    + intros (n & g & -> & Hg & E). apply lookup_app_Some in Hg as [Hg|[Hle Hg]].
      * destruct Hnd. rewrite <-E. apply in_map, in_map. by apply list_elem_of_In, list_elem_of_lookup; eexists.
      * f_equal. destruct (n - length fragments)%nat eqn:En; [|done]. lia.
  - rewrite lookup_insert_ne, (IH Hnd') by done. split.
    + intros (n & g & -> & Hg & E). exists n, g. split_and!; [done| |done]. by apply lookup_app_l_Some.
    + intros (n & g & -> & Hg & E). exists n, g. split_and!; [done| |done]. apply lookup_app_Some in Hg as [Hg|[_ Hg]]; [done|].
      destruct (n - length fragments)%nat; [|done]. injection Hg as ->. by destruct Hne.
Qed.

Lemma nextState_ok doc options publication metas total keyBytes pages metas' :
  validation_answer options (zlen doc) publication (Ok (metas, total, keyBytes)) ->
  build_answer doc options publication metas (Ok (pages, metas')) -> 0 <= ro_maximumPageBytes options ->
  state_ok doc options (nextState publication pages metas' total keyBytes) /\ map fm_Fragment metas' = pu_Fragments publication.
Proof.
  intros (Hp & Hmap & Hc & _ & -> & _) [_ Hb] Hmax. pose proof (pv_fragments _ _ _ Hp) as Hfv.
  assert (map fm_Fragment metas' = pu_Fragments publication) as Hmap'.
  { destruct Hb as [(_ & -> & -> & _)|(_ & _ & -> & _)]; done. }
  split; [|done]. pose proof (fv_ids _ _ _ Hfv) as Hids. rewrite <-Hmap' in Hids.
  destruct Hb as [(Ed & -> & -> & ->)|(Hne & _ & _ & Hc' & Ht & Htext & Hidx & Hsize & Hnum & Hcov)].
  - split; cbn [nextState st_pages st_fragments st_indexedThrough st_fragmentByID st_totalMeasure st_complete]; try (rewrite ?Hmap'; done); try apply Hp.
    + left. split_and!; [done|done|by eexists].
    + by repeat constructor.
    + intros [|[|j]] p; [intros [= <-]|done|done]. right. by split_and!.
    + apply (byID_spec []). constructor.
  - split; cbn [nextState st_pages st_fragments st_indexedThrough st_fragmentByID st_totalMeasure st_complete]; try (rewrite ?Hmap'; done); try apply Hp.
    + right. by split_and!.
    + by apply byID_spec.
Qed.

Lemma initialState_ok doc options logical : logical_pages doc options logical -> 0 <= ro_maximumPageBytes options -> 0 <= ro_maximumKeyBytes options ->
  state_ok doc options (initialState logical).
Proof.
  intros Hl Hmax Hkeys. pose proof (zlen_nonneg doc).
  assert (fragments_valid options 0 []) as Hfv by (split; try constructor; try done; cbn; unfold maxInt64; lia).
  assert (forall p, pm_fragment p = -1 /\ pm_measureStart p = 0 /\ pm_measureEnd p = 0 /\ pm_continuation p = 0 /\ pm_continuations p = 0 -> forall j, numbered [] j p) as Hn
    by (intros p (? & ? & ? & ? & ?) j; right; by split_and!).
  assert (forall id k, (∅ : gmap string Z) !! id = Some k <-> exists n f, k = Z.of_nat n /\ ([] : list fragmentMeta) !! n = Some f /\ f_ID (fm_Fragment f) = id) as Hid
    by (intros id k; split; [done|intros (n & f & _ & Hf & _); done]).
  destruct Hl as [[E ->]|(Hne & Ht & Hp)].
  - split; cbn; try done; try lia; try (by constructor).
    + left. split_and!; [done|done|by eexists].
    + intros [|[|j]] p; [intros [= <-]|done|done]. by apply Hn.
  - split; cbn; try done; try lia; try (by constructor).
    + right. split_and!; [done|done|..]; (eapply List.Forall_impl; [|exact Hp]); [by intros p (? & _)|].
      intros p (Hpt & _ & _ & -> & _). symmetry. apply Z.leb_gt. pose proof (pt_range _ _ Hpt). destruct (pt_start _ _ Hpt). lia.
    + eapply List.Forall_impl; [|exact Hp]. intros p (_ & Hpp & _). apply Hpp.
    + intros j p Hj. eapply (Forall_lookup_1 _ _ _ _ Hp) in Hj. apply Hn. destruct Hj as (_ & _ & ? & _ & ? & ? & ? & ?). by split_and!.
Qed.
