(* ===== verification/VirtualPager.v ===== *)
(** * The virtual pager under interference

    The invariant of a pager over its source, what another goroutine may do to it,
    and the rules by which an operation is proved against any such interference;
    then building, the tasks, the cache, and publishing. *)

From Stdlib Require Import ZArith Lia List.
From stdpp Require Import base list numbers gmap strings.
From S2P Require Import Prelude GoLib Utf8 Polling Events Virtual VirtualPages VirtualPublish.
#[local] Open Scope Z_scope.

(** ** Options *)

Record options_ok (o : resolvedOptions) : Prop := {
  oo_page : 4 <= ro_targetPageBytes o <= ro_maximumPageBytes o;
  oo_window : ro_maximumPageBytes o <= bu_Bytes (ro_window o) <= ro_maximumInflightBytes o;
  oo_tasks : 1 <= ro_maximumTasks o <= MaximumConcurrentTasks;
  oo_fragments : 1 <= ro_maximumFragments o <= MaximumFragments;
  oo_keys : 1 <= ro_maximumKeyBytes o <= MaximumKeyBytes;
  oo_cache : 0 <= ro_cacheBytes o <= MaximumCacheBytes;
  oo_inflight : ro_maximumInflightBytes o <= MaximumInflightBytes;
  oo_budget : 1 <= bu_Pages (ro_window o) <= MaximumWindowPages /\ 1 <= bu_Fragments (ro_window o) <= MaximumWindowFragments /\
    1 <= bu_Measure (ro_window o) <= MaximumWindowMeasure }.

Lemma pager_options_ok options o : resolveOptions options = Ok o -> options_ok o.
Proof.
  unfold resolveOptions. destruct (_ && _); [done|]. cbv zeta. set (window := mkBudget _ _ _ _). set (r := mkResolved _ _ _ _ _ _ _ _ _ _).
  destruct (_ || _) eqn:E; [done|]. intros [= <-]. assert (ro_window r = window) as Hw by done. clearbody r.
  repeat match goal with H : _ || _ = false |- _ => apply orb_false_iff in H as [? ?] end. clearbody window. subst window.
  split; lia.
Qed.

(** A budget asked for is within the window's. *)
Record budget_ok (window b : Budget) : Prop := {
  bo_bytes : 1 <= bu_Bytes b <= bu_Bytes window;
  bo_pages : 1 <= bu_Pages b <= bu_Pages window;
  bo_fragments : 1 <= bu_Fragments b <= bu_Fragments window;
  bo_measure : 1 <= bu_Measure b <= bu_Measure window }.

Lemma resolveBudget_ok p budget b : resolveBudget p budget = Ok b -> budget_ok (ro_window (p_options p)) b.
Proof.
  unfold resolveBudget. cbv zeta. set (b' := mkBudget _ _ _ _). destruct (_ || _) eqn:E; [done|]. intros [= <-]. clearbody b'.
  repeat match goal with H : _ || _ = false |- _ => apply orb_false_iff in H as [? ?] end. split; lia.
Qed.
Lemma resolveBudget_error p budget e : resolveBudget p budget = Err e -> e = virtual_ErrInvalidRequest.
Proof. unfold resolveBudget. cbv zeta. destruct (_ || _); [by intros [= <-]|done]. Qed.

(** ** The cache *)

Definition data_bytes (l : list cacheEntry) : Z := fold_right (fun e n => zlen (ce_data e) + n) 0 l.

Lemma data_bytes_cons e l : data_bytes (e :: l) = zlen (ce_data e) + data_bytes l.
Proof. done. Qed.
Lemma data_bytes_app l1 l2 : data_bytes (l1 ++ l2) = data_bytes l1 + data_bytes l2.
Proof. induction l1 as [|e l1 IH]; [done|]. cbn [app]. rewrite !data_bytes_cons, IH. lia. Qed.
Lemma data_bytes_nonneg l : 0 <= data_bytes l.
Proof. induction l as [|e l IH]; [done|]. rewrite data_bytes_cons. pose proof (zlen_nonneg (ce_data e)). lia. Qed.
Lemma data_bytes_perm l1 l2 : Permutation l1 l2 -> data_bytes l1 = data_bytes l2.
Proof. induction 1; rewrite ?data_bytes_cons; lia. Qed.

(** An entry holds the text of a page of the state. *)
Definition entry_ok (doc : list byte) (st : pagerState) (e : cacheEntry) : Prop :=
  exists j m, st_pages st !! j = Some m /\ ce_key e = mkCacheKey (st_generation st) (Z.of_nat j) (pm_start m) (pm_end m) /\
    ce_data e = page_bytes doc m.

Record cache_ok (doc : list byte) (st : pagerState) (maximum : Z) (l : list cacheEntry) (bytes : Z) : Prop := {
  co_keys : List.NoDup (map ce_key l);
  co_entries : Forall (entry_ok doc st) l;
  co_bytes : bytes = data_bytes l;
  co_maximum : bytes <= maximum }.

Lemma to_front_perm key l : Permutation (to_front key l) l.
Proof.
  unfold to_front. induction l as [|e l IH]; [done|]. cbn [List.filter].
  destruct (bool_decide (ce_key e = key)); cbn [negb app]; [by constructor|]. rewrite <-Permutation_middle. by constructor.
Qed.

Lemma cache_ok_perm doc st maximum l l' bytes : Permutation l' l -> cache_ok doc st maximum l bytes -> cache_ok doc st maximum l' bytes.
Proof.
  intros Hp [H1 H2 H3 H4]. split; [|by rewrite Hp| |done].
  - eapply Permutation_NoDup; [|exact H1]. apply Permutation_map. by symmetry.
  - by rewrite (data_bytes_perm _ _ Hp).
Qed.

Lemma find_entry_some key l e : find_entry key l = Some e -> In e l /\ ce_key e = key.
Proof. intros [? H%bool_decide_eq_true]%List.find_some. done. Qed.
Lemma find_entry_none key l : find_entry key l = None -> ~ In key (map ce_key l).
Proof.
  intros H (e & E & Hin)%in_map_iff. pose proof (List.find_none _ _ H e Hin) as Hf. by apply bool_decide_eq_false in Hf.
Qed.

(** Eviction keeps the longest prefix that fits. *)
Lemma pager_evict_spec maximum fuel : forall l, (length l <= fuel)%nat -> 0 <= maximum ->
  exists kept dropped, evict fuel maximum l (data_bytes l) = (kept, data_bytes kept) /\ l = kept ++ dropped /\ data_bytes kept <= maximum /\
    match dropped with [] => True | e :: _ => maximum < data_bytes (kept ++ [e]) end.
Proof.
  induction fuel as [|fuel IH]; intros l Hf Hm; cbn [evict].
  { destruct l; [|cbn in Hf; lia]. exists [], []. by split_and!. }
  destruct (Z.ltb_spec maximum (data_bytes l)) as [Hgt|Hle]; [|exists l, []; split_and!; [done|by rewrite app_nil_r|done|done]].
  destruct l as [|e l _] using rev_ind; [cbn in Hgt; lia|]. rewrite removelast_last, List.last_last.
  rewrite data_bytes_app in Hgt |- *. change (data_bytes [e]) with (zlen (ce_data e) + 0) in *. rewrite length_app in Hf. cbn in Hf.
  replace (data_bytes l + (zlen (ce_data e) + 0) - zlen (ce_data e)) with (data_bytes l) by lia.
  destruct (IH l ltac:(lia) Hm) as (kept & dropped & E & -> & Hk & Hd). exists kept, (dropped ++ [e]). rewrite app_assoc.
  split_and!; [done|done|done|]. destruct dropped as [|d dropped]; [|done]. cbn. rewrite app_nil_r in Hgt. rewrite data_bytes_app.
  change (data_bytes [e]) with (zlen (ce_data e) + 0). lia.
Qed.

Lemma cache_ok_evict doc st maximum l bytes entry : cache_ok doc st maximum l bytes -> 0 <= maximum -> entry_ok doc st entry ->
  ~ In (ce_key entry) (map ce_key l) ->
  let '(l', bytes') := evict (length (entry :: l)) maximum (entry :: l) (bytes + zlen (ce_data entry)) in cache_ok doc st maximum l' bytes'.
Proof.
  intros [H1 H2 -> H4] Hm He Hn. replace (data_bytes l + zlen (ce_data entry)) with (data_bytes (entry :: l)) by (rewrite data_bytes_cons; lia).
  destruct (pager_evict_spec maximum (length (entry :: l)) (entry :: l) (Nat.le_refl _) Hm) as (kept & dropped & -> & E & Hk & _).
  assert (List.NoDup (map ce_key (kept ++ dropped))) as Hnd by (rewrite <-E; by constructor).
  assert (Forall (entry_ok doc st) (kept ++ dropped)) as Hall by (rewrite <-E; by constructor).
  rewrite map_app in Hnd. apply Forall_app in Hall as [? _]. split; [by apply List.NoDup_app_remove_r in Hnd|done|done|done].
Qed.

(** ** The invariant *)

Record pager_ok (doc : list byte) (p : Pager) : Prop := {
  po_source : ReaderOk (src_ReadAt (p_source p)) doc;
  po_valid : utf8_Valid doc = true;
  po_length : p_length p = zlen doc;
  po_range : zlen doc <= maxInt64;
  po_options : options_ok (p_options p);
  po_logical : logical_pages doc (p_options p) (p_logical p);
  po_state : state_ok doc (p_options p) (p_state p);
  po_tasks : p_tasks p <= ro_maximumTasks (p_options p);
  po_inflight : p_activeInflightBytes p <= ro_maximumInflightBytes (p_options p);
  po_cache : match p_cache p with
    | Some l => cache_ok doc (p_state p) (ro_cacheBytes (p_options p)) l (p_cacheBytes p)
    | None => p_closed p = true
    end }.

(** What no step of a pager changes. *)
Definition immutable (p : Pager) :=
  (p_source p, p_identity p, p_lineage p, p_observer p, p_revision p, p_length p, p_options p, p_logical p).

(** What may have happened to a pager in the meantime: generations count up, and
    a generation is one state. *)
Record evolves (p p' : Pager) : Prop := {
  ev_immutable : immutable p' = immutable p;
  ev_generation : st_generation (p_state p) <= st_generation (p_state p');
  ev_state : st_generation (p_state p') = st_generation (p_state p) -> p_state p' = p_state p;
  ev_closed : p_closed p = true -> p_closed p' = true }.

#[export] Instance evolves_preorder : PreOrder evolves.
Proof.
  split; [by split|]. intros p q r [H1 H2 H3 H4] [H5 H6 H7 H8]. split; [congruence|lia| |auto].
  intros E. rewrite H7 by lia. apply H3. lia.
Qed.

Lemma evolves_fields p p' : evolves p p' ->
  p_source p' = p_source p /\ p_identity p' = p_identity p /\ p_revision p' = p_revision p /\ p_length p' = p_length p /\
  p_options p' = p_options p /\ p_logical p' = p_logical p.
Proof. intros [H _ _ _]. injection H as ? ? ? ? ? ? ? ?. by split_and!. Qed.

(** A step that leaves the state alone. *)
Lemma evolves_same p p' : immutable p' = immutable p -> p_state p' = p_state p -> p_closed p' = p_closed p -> evolves p p'.
Proof. intros H1 H2 H3. split; [done|rewrite H2; lia|by rewrite H2|by rewrite H3]. Qed.

Lemma set_tasks_ok doc tasks p : pager_ok doc p -> tasks <= ro_maximumTasks (p_options p) ->
  pager_ok doc (set_tasks tasks p) /\ evolves p (set_tasks tasks p).
Proof. intros [] H. split; [by split|by apply evolves_same]. Qed.
Lemma set_inflight_ok doc bytes p : pager_ok doc p -> bytes <= ro_maximumInflightBytes (p_options p) ->
  pager_ok doc (set_inflight bytes p) /\ evolves p (set_inflight bytes p).
Proof. intros [] H. split; [by split|by apply evolves_same]. Qed.
Lemma set_cache_ok doc l bytes p : pager_ok doc p -> cache_ok doc (p_state p) (ro_cacheBytes (p_options p)) l bytes ->
  pager_ok doc (set_cache (Some l) bytes p) /\ evolves p (set_cache (Some l) bytes p).
Proof. intros [] H. split; [by split|by apply evolves_same]. Qed.

(** ** Building *)

Definition source_ok (doc : list byte) (source : Source) : Prop := ReaderOk (src_ReadAt source) doc /\ forall k, src_Len source k = zlen doc.

Definition built_pager (doc : list byte) (identity : pagerIdentity) (source : Source) (revision : Z) (options : Options) (release : option (option error))
  (r : result Pager) : Prop :=
  match r with
  | Ok p => resolveOptions options = Ok (p_options p) /\ pager_ok doc p /\ p_source p = source /\ p_identity p = identity /\
      p_revision p = revision /\ p_release p = release /\ p_state p = initialState (p_logical p) /\ p_closed p = false /\
      p_tasks p = 0 /\ p_activeInflightBytes p = 0 /\ p_lineage p = o_Lineage options /\ p_observer p = o_Observer options
  | Err e => e = virtual_ErrInvalidOptions /\ resolveOptions options = Err e \/ e = virtual_ErrInvalidUTF8 /\ utf8_Valid doc = false
  end.

Lemma resolveOptions_kept options o : resolveOptions options = Ok o -> ro_lineage o = o_Lineage options /\ ro_observer o = o_Observer options.
Proof. unfold resolveOptions. destruct (_ && _); [done|]. cbv zeta. destruct (_ || _); [done|]. by intros [= <-]. Qed.
Lemma resolveOptions_error options e : resolveOptions options = Err e -> e = virtual_ErrInvalidOptions.
Proof. unfold resolveOptions. destruct (_ && _); [by intros [= <-]|]. cbv zeta. destruct (_ || _); [by intros [= <-]|done]. Qed.

Lemma build_ok doc identity ctx source revision options release : source_ok doc source -> zlen doc <= maxInt64 ->
  yields ctx (build identity (Some ctx) (Some source) revision options release) (built_pager doc identity source revision options release).
Proof.
  intros [Hs Hl] Hd. unfold build. apply yields_poll. pose proof (zlen_nonneg doc). rewrite !Hl, (proj2 (Z.ltb_ge _ _)) by done.
  destruct (resolveOptions options) as [o|e] eqn:E; [|apply yields_fail; left; split; [by eapply resolveOptions_error|done]].
  pose proof (pager_options_ok _ _ E) as Ho. destruct (resolveOptions_kept _ _ E) as [Hlin Hobs].
  eapply yields_bind; [apply (buildLogicalPages_spec doc o Hd (oo_page _ Ho) _ Hs)| |by intros e He; right].
  intros logical [Hv Hlog]. rewrite Z.eqb_refl. apply yields_ret.
  pose proof (oo_page _ Ho). pose proof (oo_keys _ Ho). pose proof (oo_tasks _ Ho). pose proof (oo_window _ Ho). pose proof (oo_cache _ Ho).
  split; [done|]. split; [|by split_and!]. split; cbn; try done; try lia.
  - apply initialState_ok; [done|lia|lia].
  - split; [constructor|constructor|done|lia].
Qed.

(** ** Proving an operation against interference *)

Section Rules.
Context (doc : list byte) (env : nat -> Pager -> Pager).

(** The other goroutines keep to the invariant too. *)
Definition env_ok : Prop := forall k p, pager_ok doc p -> pager_ok doc (env k p) /\ evolves p (env k p).

(** From any pager that [p0] may have become, [c] keeps the invariant and answers
    as told. *)
Definition runs {A} (p0 : Pager) (c : V A) (Q : A -> Prop) (E : error -> Prop) : Prop := forall k p, pager_ok doc p -> evolves p0 p ->
  let '(_, p', r) := c k p in pager_ok doc p' /\ evolves p p' /\ match r with Ok a => Q a | Err e => E e end.

Lemma runs_ret {A} p0 (a : A) (Q : A -> Prop) E : Q a -> runs p0 (vret a) Q E.
Proof. intros H k p Hp _. by split_and!. Qed.
Lemma runs_fail {A} p0 e (Q : A -> Prop) (E : error -> Prop) : E e -> runs p0 (vfail e) Q E.
Proof. intros H k p Hp _. by split_and!. Qed.

Lemma runs_bind {A B} p0 (c : V A) (f : A -> V B) (Q : A -> Prop) R E :
  runs p0 c Q E -> (forall a, Q a -> runs p0 (f a) R E) -> runs p0 (vbind c f) R E.
Proof.
  intros Hc Hf k p Hp He. specialize (Hc k p Hp He). unfold vbind. destruct (c k p) as [[k1 p1] [a|e]]; [|done].
  destruct Hc as (Hp1 & He1 & Ha). specialize (Hf a Ha k1 p1 Hp1 (transitivity He He1)).
  destruct (f a k1 p1) as [[k2 p2] r]. destruct Hf as (Hp2 & He2 & Hr). split_and!; [done|by etransitivity|done].
Qed.

Lemma runs_from {A} p0 p1 (c : V A) Q E : evolves p0 p1 -> runs p0 c Q E -> runs p1 c Q E.
Proof. intros H Hc k p Hp He. apply Hc; [done|by etransitivity]. Qed.

Lemma runs_imp {A} p0 (c : V A) (Q Q' : A -> Prop) (E E' : error -> Prop) :
  (forall a, Q a -> Q' a) -> (forall e, E e -> E' e) -> runs p0 c Q E -> runs p0 c Q' E'.
Proof.
  intros HQ HE Hc k p Hp He. specialize (Hc k p Hp He). destruct (c k p) as [[k1 p1] [a|e]]; destruct Hc as (? & ? & ?); split_and!; auto.
Qed.

Lemma runs_finally {A} p0 (c : V A) d (Q : A -> Prop) E :
  runs p0 c Q E -> runs p0 d (fun _ => True) (fun _ => True) -> runs p0 (finally c d) Q E.
Proof.
  intros Hc Hd k p Hp He. specialize (Hc k p Hp He). unfold finally. destruct (c k p) as [[k1 p1] r]. destruct Hc as (Hp1 & He1 & Hr).
  specialize (Hd k1 p1 Hp1 (transitivity He He1)). destruct (d k1 p1) as [[k2 p2] r2]. destruct Hd as (Hp2 & He2 & _).
  split_and!; [done|by etransitivity|done].
Qed.

Lemma runs_attempt {A} p0 (c : V A) (Q : A -> Prop) (E E' : error -> Prop) :
  runs p0 c Q E -> runs p0 (attempt c) (fun r => match r with Ok a => Q a | Err e => E e end) E'.
Proof. intros Hc k p Hp He. specialize (Hc k p Hp He). unfold attempt. by destruct (c k p) as [[k1 p1] r]. Qed.

Definition cancels (ctx : Context) (e : error) : Prop := exists j, ctx j = Some e.

Lemma runs_lift {A} p0 ctx (c : C A) (Q : A -> Prop) (E : error -> Prop) (P : result A -> Prop) :
  yields ctx c P -> (forall a, P (Ok a) -> Q a) -> (forall e, P (Err e) -> E e) -> (forall e, cancels ctx e -> E e) -> runs p0 (lift c) Q E.
Proof.
  intros Hc HQ HE Hctx k p Hp _. unfold lift. specialize (Hc k). destruct (c k) as [k1 r]. cbn in Hc. split_and!; [done|done|].
  destruct Hc as [Hr|(j & e & Hj & ->)]; [destruct r; auto|]. apply Hctx. by exists j.
Qed.

Lemma runs_poll {B} p0 ctx (f : unit -> V B) Q (E : error -> Prop) :
  (forall e, cancels ctx e -> E e) -> runs p0 (f tt) Q E -> runs p0 (vbind (lift (cpoll ctx)) f) Q E.
Proof.
  intros HE Hf. eapply runs_bind; [apply (runs_lift _ ctx _ (fun _ => True) _ (fun r => match r with Ok _ => True | Err _ => False end)); try done|].
  - intros k. cbn. destruct (ctx k) as [e|] eqn:Ek; [right; by exists k, e|by left].
  - by intros [] _.
Qed.

Lemma runs_asks {A B} p0 (g : Pager -> A) (f : A -> V B) Q E :
  (forall p, pager_ok doc p -> evolves p0 p -> runs p0 (f (g p)) Q E) -> runs p0 (vbind (asks g) f) Q E.
Proof. intros Hf k p Hp He. unfold vbind, asks. by apply Hf. Qed.
Lemma runs_of_result {A B} p0 (r : result A) (f : A -> V B) Q (E : error -> Prop) :
  (forall a, r = Ok a -> runs p0 (f a) Q E) -> (forall e, r = Err e -> E e) -> runs p0 (vbind (of_result r) f) Q E.
Proof. intros Hf HE k p Hp He. unfold vbind, of_result. destruct r as [a|e]; [by apply Hf|]. by split_and!; [| |apply HE]. Qed.

Hypothesis Henv : env_ok.

Lemma runs_lock {A} p0 (f : nat -> Pager -> Pager * result A) (Q : A -> Prop) E :
  (forall k p, pager_ok doc p -> evolves p0 p -> let '(p', r) := f k p in pager_ok doc p' /\ evolves p p' /\ match r with Ok a => Q a | Err e => E e end) ->
  runs p0 (lock env f) Q E.
Proof.
  intros Hf k p Hp He. unfold lock. destruct (Henv k p Hp) as [Hp1 He1]. specialize (Hf k (env k p) Hp1 (transitivity He He1)).
  destruct (f k (env k p)) as [p' r]. destruct Hf as (? & ? & ?). split_and!; [done|by etransitivity|done].
Qed.

(** ** Tasks *)

Section Tasks.
Variable lifecycle : nat -> bool.

(** How an operation may be refused or stopped, whatever it does. *)
Inductive task_error (parent : option Context) (e : error) : Prop :=
| te_context : parent = None -> e = virtual_ErrInvalidContext -> task_error parent e
| te_cancelled ctx : parent = Some ctx -> cancels ctx e -> task_error parent e
| te_closed : e = virtual_ErrClosed -> task_error parent e
| te_busy : e = virtual_ErrBusy -> task_error parent e.

Lemma task_cancels parent e : cancels (taskContext lifecycle parent) e -> task_error (Some parent) e.
Proof.
  intros [j Hj]. unfold taskContext in Hj. destruct (parent j) as [e'|] eqn:E.
  - injection Hj as ->. eapply te_cancelled; [done|by exists j].
  - destruct (lifecycle j); [|done]. injection Hj as <-. by apply te_closed.
Qed.

Lemma acquireTask_runs p0 parent : runs p0 (acquireTask env lifecycle parent)
  (fun ctx => exists parent', parent = Some parent' /\ ctx = taskContext lifecycle parent') (task_error parent).
Proof.
  unfold acquireTask. destruct parent as [parent|]; [|by apply runs_fail, te_context].
  apply runs_poll; [intros e He; by eapply te_cancelled|]. apply runs_lock. intros k p Hp _.
  destruct (p_closed p) eqn:Ec; [split_and!; [done|done|by apply te_closed]|].
  destruct (parent k) as [e|] eqn:Ek; [split_and!; [done|done|eapply te_cancelled; [done|by exists k]]|].
  destruct (Z.leb_spec (ro_maximumTasks (p_options p)) (p_tasks p)); [split_and!; [done|done|by apply te_busy]|].
  destruct (set_tasks_ok doc (p_tasks p + 1) p Hp ltac:(lia)) as [? ?]. split_and!; [done|done|by exists parent].
Qed.

Lemma releaseTask_runs p0 : runs p0 (releaseTask env) (fun _ => True) (fun _ => True).
Proof.
  apply runs_lock. intros k p Hp _. destruct (set_tasks_ok doc (p_tasks p - 1) p Hp) as [? ?]; [pose proof (po_tasks _ _ Hp); lia|done].
Qed.

Lemma withTask_runs {A} p0 parent (body : Context -> V A) Q (E : error -> Prop) :
  (forall e, task_error parent e -> E e) ->
  (forall parent', parent = Some parent' -> runs p0 (body (taskContext lifecycle parent')) Q E) ->
  runs p0 (withTask env lifecycle parent body) Q E.
Proof.
  intros HE Hb. unfold withTask. eapply runs_bind; [eapply runs_imp; [..|apply acquireTask_runs]; [done|exact HE]|].
  intros ctx (parent' & -> & ->). apply runs_finally; [by apply Hb|apply releaseTask_runs].
Qed.

Lemma reserved_runs {A} p0 bytes (c : V A) Q (E : error -> Prop) :
  E virtual_ErrClosed -> E virtual_ErrBusy -> 0 <= bytes -> runs p0 c Q E -> runs p0 (reserved env bytes c) Q E.
Proof.
  intros HE1 HE2 Hb Hc. unfold reserved. eapply runs_bind with (Q := fun _ => True).
  - apply runs_lock. intros k p Hp _. destruct (p_closed p); [done|].
    destruct (Z.ltb_spec bytes 0), (Z.ltb_spec (ro_maximumInflightBytes (p_options p) - p_activeInflightBytes p) bytes); try done; cbn [orb].
    destruct (set_inflight_ok doc (p_activeInflightBytes p + bytes) p Hp ltac:(lia)) as [? ?]. done.
  - intros _ _. apply runs_finally; [done|]. apply runs_lock. intros k p Hp _.
    destruct (set_inflight_ok doc (p_activeInflightBytes p - bytes) p Hp) as [? ?]; [pose proof (po_inflight _ _ Hp); lia|done].
Qed.

Lemma capture_runs {B} p0 revision generation (f : pagerState -> V B) Q (E : error -> Prop) :
  E virtual_ErrClosed -> (revision <> p_revision p0 -> E virtual_ErrRevisionMismatch) -> E virtual_ErrStaleGeneration ->
  (forall p, pager_ok doc p -> evolves p0 p -> revision = p_revision p -> generation = st_generation (p_state p) -> runs p (f (p_state p)) Q E) ->
  runs p0 (vbind (capture env revision generation) f) Q E.
Proof.
  intros H1 H2 H3 Hf k p Hp He. unfold capture, vbind, lock. destruct (Henv k p Hp) as [Hp1 He1]. set (p1 := env k p) in *.
  pose proof (transitivity He He1) as He2. destruct (p_closed p1); [done|].
  destruct (Z.eqb_spec revision (p_revision p1)) as [Er|Hne]; cbn [negb].
  2:{ split_and!; [done|done|]. apply H2. by destruct (evolves_fields _ _ He2) as (_ & _ & <- & _). }
  destruct (Z.eqb_spec generation (st_generation (p_state p1))) as [Eg|]; cbn [negb]; [|done].
  specialize (Hf p1 Hp1 He2 Er Eg (S k) p1 Hp1 (reflexivity p1)). destruct (f (p_state p1) (S k) p1) as [[k2 p2] r].
  destruct Hf as (? & ? & ?). split_and!; [done|by etransitivity|done].
Qed.

Lemma stateStillCurrent_runs {B} p0 st (f : unit -> V B) Q (E : error -> Prop) :
  E virtual_ErrClosed -> E virtual_ErrStaleGeneration -> runs p0 (f tt) Q E -> runs p0 (vbind (stateStillCurrent env st) f) Q E.
Proof.
  intros H1 H2 Hf. eapply runs_bind with (Q := fun _ => True); [|by intros []]. apply runs_lock. intros k p Hp _.
  destruct (p_closed p); [done|]. by destruct (_ =? _).
Qed.

(** ** Reading a page through the cache *)

Definition key_of (st : pagerState) (j : nat) (m : pageMeta) : cacheKey := mkCacheKey (st_generation st) (Z.of_nat j) (pm_start m) (pm_end m).

Lemma cached_runs p0 j m (E : error -> Prop) :
  runs p0 (cached env (key_of (p_state p0) j m)) (fun o => forall data, o = Some data -> data = page_bytes doc m) E.
Proof.
  apply runs_lock. intros k p Hp He. unfold cached_locked. destruct (p_closed p); [done|].
  pose proof (po_cache _ _ Hp) as Hc. destruct (p_cache p) as [l|]; [|done].
  destruct (find_entry _ l) as [e|] eqn:Ef; [|done]. apply find_entry_some in Ef as [Hin Hk].
  destruct (set_cache_ok doc (to_front (key_of (p_state p0) j m) l) (p_cacheBytes p) p Hp) as [? ?].
  { eapply cache_ok_perm; [apply to_front_perm|exact Hc]. }
  split_and!; [done|done|]. intros data [= <-]. pose proof (co_entries _ _ _ _ _ Hc) as Hall. rewrite List.Forall_forall in Hall.
  destruct (Hall e Hin) as (j' & m' & _ & Hk' & ->). rewrite Hk' in Hk. injection Hk as _ _ Hs He'. unfold page_bytes. by rewrite Hs, He'.
Qed.

Lemma storeCache_runs p0 j m (E : error -> Prop) : pager_ok doc p0 -> st_pages (p_state p0) !! j = Some m ->
  runs p0 (storeCache env (st_generation (p_state p0)) (key_of (p_state p0) j m) (page_bytes doc m)) (fun _ => True) E.
Proof.
  intros Hp0 Hm. unfold storeCache. apply runs_asks. intros q _ _. destruct (_ || _); [by apply runs_ret|].
  apply runs_lock. intros k p Hp He. unfold storeCache_locked. destruct (p_closed p) eqn:Ec; [done|].
  destruct (Z.eqb_spec (st_generation (p_state p)) (st_generation (p_state p0))) as [Eg|]; cbn [negb orb]; [|done].
  pose proof (ev_state _ _ He Eg) as Es. pose proof (po_cache _ _ Hp) as Hc. destruct (p_cache p) as [l|]; [|congruence].
  destruct (find_entry _ l) as [e|] eqn:Ef.
  - destruct (set_cache_ok doc (to_front (key_of (p_state p0) j m) l) (p_cacheBytes p) p Hp) as [? ?]; [|done].
    eapply cache_ok_perm; [apply to_front_perm|exact Hc].
  - apply find_entry_none in Ef. pose proof (oo_cache _ (po_options _ _ Hp)).
    pose proof (cache_ok_evict doc _ _ l _ (mkCacheEntry (key_of (p_state p0) j m) (page_bytes doc m)) Hc ltac:(lia)) as Hev.
    cbn [ce_key ce_data] in Hev. destruct (evict _ _ _ _) as [l' bytes']. destruct (set_cache_ok doc l' bytes' p Hp) as [? ?]; [|done].
    apply Hev; [|done]. exists j, m. by rewrite Es.
Qed.

Lemma page_range st j m options : state_ok doc options st -> st_pages st !! j = Some m -> 0 <= pm_start m <= pm_end m /\ pm_end m <= zlen doc.
Proof.
  intros Hs Hm. pose proof (zlen_nonneg doc). destruct (so_pages _ _ _ Hs) as [(-> & _ & idx & E)|(_ & _ & Ht & _)].
  - rewrite E in Hm. destruct j as [|[|j]]; [injection Hm as <-|done|done]. cbn. change (zlen []) with 0. lia.
  - eapply (Forall_lookup_1 _ _ _ _ Ht) in Hm. pose proof (pt_range _ _ Hm). destruct (pt_start _ _ Hm), (pt_end _ _ Hm). lia.
Qed.

Lemma readMeta_runs p0 ctx j m (E : error -> Prop) : pager_ok doc p0 -> st_pages (p_state p0) !! j = Some m -> (forall e, cancels ctx e -> E e) ->
  runs p0 (readMeta env ctx (p_state p0) (Z.of_nat j)) (fun page => page = pageOf p0 (p_state p0) (Z.of_nat j) (page_bytes doc m)) E.
Proof.
  intros Hp0 Hm HE. unfold readMeta. assert (page_at (st_pages (p_state p0)) (Z.of_nat j) = m) as ->
    by (unfold page_at; rewrite Nat2Z.id; by apply nth_lookup_Some).
  fold (key_of (p_state p0) j m). eapply runs_bind; [apply cached_runs|]. intros o Ho.
  eapply runs_bind with (Q := fun data => data = page_bytes doc m).
  - destruct o as [data|]; [by apply runs_ret, Ho|]. apply runs_asks. intros p Hp He.
    destruct (page_range _ _ _ _ (po_state _ _ Hp0) Hm).
    eapply runs_bind with (Q := fun data => data = page_bytes doc m).
    + eapply runs_lift; [apply (readPageBytes_spec ctx _ doc m (po_source _ _ Hp) (po_range _ _ Hp)); lia|by intros ? [= ->]|done|done].
    + intros data ->. eapply runs_bind; [by apply storeCache_runs|]. intros _ _. by apply runs_ret.
  - intros data ->. intros k p Hp He. unfold asks. split_and!; [done|done|].
    destruct (evolves_fields _ _ He) as (_ & Hi & Hr & _). unfold pageOf. by rewrite Hi, Hr.
Qed.
End Tasks.
End Rules.

(** ** Others that keep to the rules *)

(** Running any operation in between is such an interference, and so are the
    steps of a shutdown. *)
Lemma runs_env {A} doc (c : V A) Q E : (forall p, pager_ok doc p -> runs doc p c Q E) -> env_ok doc (fun k p => (c k p).1.2).
Proof.
  intros Hc k p Hp. specialize (Hc p Hp k p Hp (reflexivity p)). destruct (c k p) as [[k' p'] r]. by destruct Hc as (? & ? & _).
Qed.

Lemma closeLocked_ok doc p : pager_ok doc p -> pager_ok doc (closeLocked p) /\ evolves p (closeLocked p).
Proof.
  intros Hp. unfold closeLocked. destruct (p_closing p); [done|]. destruct Hp as [H1 H2 H3 H4 H5 H6 H7 H8 H9 H10]. split.
  - split; try done. cbn. by destruct (p_cache p).
  - by split.
Qed.
Lemma finishClose_drain_ok doc p p' err : pager_ok doc p -> p_closed p = true -> finishClose_drain p = Some (p', err) ->
  pager_ok doc p' /\ evolves p p' /\ p_tasks p' = 0 /\ p_cache p' = None /\ p_release p' = None.
Proof.
  intros [H1 H2 H3 H4 H5 H6 H7 H8 H9 H10] Hc. unfold finishClose_drain. destruct (Z.eqb_spec (p_tasks p) 0); [|done]. intros [= <- _].
  split_and!; [by split| |done|done|done]. by apply evolves_same.
Qed.
Lemma finishClose_done_ok doc err p : pager_ok doc p -> pager_ok doc (finishClose_done err p) /\ evolves p (finishClose_done err p).
Proof. intros []. split; [by split|by apply evolves_same]. Qed.

(** ** Publishing *)

(** What [p0] may answer to a publication: the pager that it became holds the
    fragments as the next generation, with an empty cache. *)
Definition published_as (doc : list byte) (p0 : Pager) (publication : Publication) (stats : Stats) : Prop := exists p,
  pager_ok doc p /\ evolves p0 p /\ publishable doc (p_options p0) publication /\ pu_Revision publication = p_revision p0 /\
  st_generation (p_state p) = pu_BaseGeneration publication + 1 /\ map fm_Fragment (st_fragments (p_state p)) = pu_Fragments publication /\
  st_indexedThrough (p_state p) = pu_IndexedThrough publication /\ st_complete (p_state p) = pu_Complete publication /\
  p_cache p = Some [] /\ stats = statsLocked p.

Inductive publish_error (doc : list byte) (p0 : Pager) (ctx : Context) (publication : Publication) (e : error) : Prop :=
| pe_cancelled : cancels ctx e -> publish_error doc p0 ctx publication e
| pe_closed : e = virtual_ErrClosed -> publish_error doc p0 ctx publication e
| pe_revision : pu_Revision publication <> p_revision p0 -> e = virtual_ErrRevisionMismatch -> publish_error doc p0 ctx publication e
| pe_stale : e = virtual_ErrStaleGeneration -> publish_error doc p0 ctx publication e
| pe_overflow : pu_BaseGeneration publication = maxUint64 -> e = virtual_ErrGenerationOverflow -> publish_error doc p0 ctx publication e
| pe_invalid : ~ publishable doc (p_options p0) publication -> (e = virtual_ErrInvalidPublication \/ e = virtual_ErrInvalidFragment) ->
    publish_error doc p0 ctx publication e.

Lemma clear_cache_ok doc p : pager_ok doc p -> pager_ok doc (clearCacheLocked p) /\ evolves p (clearCacheLocked p).
Proof.
  intros Hp. apply set_cache_ok; [done|]. pose proof (oo_cache _ (po_options _ _ Hp)). split; [constructor|constructor|done|lia].
Qed.

(** Installing the next state. *)
Lemma install_ok doc p state : pager_ok doc p -> state_ok doc (p_options p) state -> st_generation state = st_generation (p_state p) + 1 ->
  pager_ok doc (clearCacheLocked (set_state state p)) /\ evolves p (clearCacheLocked (set_state state p)).
Proof.
  intros [H1 H2 H3 H4 H5 H6 H7 H8 H9 H10] Hs Hg. pose proof (oo_cache _ H5). split.
  - split; try done. cbn. split; [constructor|constructor|done|lia].
  - split; cbn; [done|lia|lia|done].
Qed.

Section Publishing.
Context (doc : list byte) (env : nat -> Pager -> Pager) (Henv : env_ok doc env).

Lemma publish_runs p0 ctx publication : pager_ok doc p0 -> strings_fit (pu_Fragments publication) ->
  runs doc p0 (publish env ctx publication) (published_as doc p0 publication) (publish_error doc p0 ctx publication).
Proof.
  intros Hp0 Hfit. unfold publish. apply runs_poll; [intros; by apply pe_cancelled|].
  eapply runs_bind with (Q := fun '(revision, length, base) => revision = p_revision p0 /\ length = zlen doc).
  { apply runs_lock; [done|]. intros k p Hp He. destruct (p_closed p); [split_and!; [done|done|by apply pe_closed]|].
    destruct (evolves_fields _ _ He) as (_ & _ & Er & _). split_and!; [done|done|done|apply Hp]. }
  intros [[revision length] base] [-> ->].
  destruct (Z.eqb_spec (pu_Revision publication) (p_revision p0)) as [Er|]; cbn [negb]; [|by apply runs_fail, pe_revision].
  destruct (Z.eqb_spec (pu_BaseGeneration publication) base) as [<-|]; cbn [negb]; [|by apply runs_fail, pe_stale].
  destruct (Z.eqb_spec (pu_BaseGeneration publication) maxUint64); [by apply runs_fail, pe_overflow|].
  apply runs_asks. intros p1 Hp1 He1. unfold id. destruct (evolves_fields _ _ He1) as (Es & _ & _ & _ & Eo & El). rewrite Eo, El, Es.
  pose proof (po_options _ _ Hp0) as Ho. pose proof (oo_page _ Ho). pose proof (oo_keys _ Ho).
  eapply runs_bind; [eapply runs_lift; [apply (validateFragments_spec ctx (p_options p0) (zlen doc) publication Hfit); lia|..]|].
  { intros a Ha. exact Ha. }
  { intros e [He Hn]. apply pe_invalid; [|done]. by intros [? _]. }
  { intros; by apply pe_cancelled. }
  intros [[metas total] keyBytes] Hval.
  eapply runs_bind; [eapply runs_lift; [apply (publication_pages_spec ctx doc (src_ReadAt (p_source p0)) (p_options p0) (p_logical p0) publication metas total keyBytes)|..]|];
    try apply Hp0; try exact Hval.
  { intros a Ha. exact Ha. }
  { intros e [-> Hn]. apply pe_invalid; auto. }
  { intros; by apply pe_cancelled. }
  intros [pages metas'] Hbuilt. destruct (nextState_ok _ _ _ _ _ _ _ _ Hval Hbuilt ltac:(lia)) as [Hst Hmap].
  apply runs_lock; [done|]. intros k p Hp He. destruct (p_closed p); [split_and!; [done|done|by apply pe_closed]|].
  destruct (Z.eqb_spec (st_generation (p_state p)) (pu_BaseGeneration publication)) as [Eg|]; cbn [negb];
    [|split_and!; [done|done|by apply pe_stale]].
  destruct (evolves_fields _ _ He) as (_ & _ & _ & _ & Eo' & _). set (state := nextState _ _ _ _ _) in *.
  destruct (install_ok doc p state Hp) as [Hn1 Hn2]; [by rewrite Eo'|by rewrite Eg|]. split_and!; [done|done|].
  exists (clearCacheLocked (set_state state p)). split_and!; try done; [by etransitivity|apply Hbuilt].
Qed.
End Publishing.

(** ** A pager left to itself *)

Definition quiet (k : nat) (p : Pager) : Pager := p.
Definition patient (ctx : Context) : Prop := forall k, ctx k = None.

Lemma quiet_ok doc : env_ok doc quiet.
Proof. done. Qed.

Lemma yields_patient {A} ctx (c : C A) Q k : patient ctx -> yields ctx c Q -> Q (c k).2.
Proof. intros Hp Hy. destruct (Hy k) as [?|(j & e & Hj & _)]; [done|]. by rewrite Hp in Hj. Qed.

(** A failed publication leaves the pager as it was. *)
Lemma publish_quiet_error ctx publication k p k' p' e : publish quiet ctx publication k p = (k', p', Err e) -> p' = p.
Proof.
  unfold publish, vbind, lift, lock, quiet, vfail, asks, id. destruct (cpoll ctx k) as [k1 [[]|e1]]; [|congruence].
  destruct (p_closed p) eqn:Ec; [congruence|]. destruct (negb _); [congruence|]. destruct (negb _); [congruence|].
  destruct (_ =? _); [congruence|]. destruct (validateFragments _ _ _ _ _) as [k2 [[[metas total] keyBytes]|e2]]; [|congruence].
  destruct (buildPublishedPages _ _ _ _ _ _ _ _) as [k3 [[pages metas']|e3]]; [|congruence].
  rewrite Ec. destruct (negb _); congruence.
Qed.

(** C34. A pager left to itself decides a publication: without cancellation and
    before it is closed, a publication for another revision, for another than the
    current generation or past the last generation is refused for that reason;
    any other is refused as invalid exactly when its fragments are not ordered,
    disjoint, distinctly named ranges within the watermark, the measure and the
    key limits that begin and end between runes; a refused publication leaves
    the pager as it was, and an accepted one keeps the invariant - the pages
    still partition the text, every fragment is exactly its numbered pages - with
    exactly these fragments as the next generation and an empty cache. *)
Theorem publish_decides doc ctx publication k p : pager_ok doc p -> patient ctx -> strings_fit (pu_Fragments publication) -> p_closed p = false ->
  let '(_, p', r) := publish quiet ctx publication k p in
  match r with
  | Ok stats => pu_Revision publication = p_revision p /\ pu_BaseGeneration publication = st_generation (p_state p) /\
      pu_BaseGeneration publication <> maxUint64 /\ publishable doc (p_options p) publication /\
      pager_ok doc p' /\ st_generation (p_state p') = st_generation (p_state p) + 1 /\
      map fm_Fragment (st_fragments (p_state p')) = pu_Fragments publication /\
      st_indexedThrough (p_state p') = pu_IndexedThrough publication /\ st_complete (p_state p') = pu_Complete publication /\
      p_cache p' = Some [] /\ stats = statsLocked p'
  | Err e => p' = p /\
      (pu_Revision publication <> p_revision p /\ e = virtual_ErrRevisionMismatch \/
       pu_Revision publication = p_revision p /\ pu_BaseGeneration publication <> st_generation (p_state p) /\ e = virtual_ErrStaleGeneration \/
       pu_Revision publication = p_revision p /\ pu_BaseGeneration publication = st_generation (p_state p) /\
         (pu_BaseGeneration publication = maxUint64 /\ e = virtual_ErrGenerationOverflow \/
          pu_BaseGeneration publication <> maxUint64 /\ ~ publishable doc (p_options p) publication /\
            (e = virtual_ErrInvalidPublication \/ e = virtual_ErrInvalidFragment)))
  end.
Proof.
  intros Hp Hctx Hfit Hc. pose proof (po_options _ _ Hp) as Ho. pose proof (oo_keys _ Ho). pose proof (oo_page _ Ho).
  unfold publish, vbind, lift, lock, quiet, vfail, asks, id, cpoll. rewrite Hctx, Hc.
  destruct (Z.eqb_spec (pu_Revision publication) (p_revision p)) as [Er|]; cbn [negb]; [|auto].
  destruct (Z.eqb_spec (pu_BaseGeneration publication) (st_generation (p_state p))) as [Eg|]; cbn [negb]; [|split; [done|auto]].
  destruct (Z.eqb_spec (st_generation (p_state p)) maxUint64) as [Em|Em]; rewrite <-Eg in Em; [split; [done|right; right; auto]|].
  pose proof (yields_patient ctx _ _ (S (S k)) Hctx (validateFragments_spec ctx (p_options p) (zlen doc) publication Hfit ltac:(lia))) as Hv.
  rewrite (po_length _ _ Hp). destruct (validateFragments _ _ _ _ _) as [k2 [[[metas total] keyBytes]|e2]]; cbn [snd] in Hv.
  2:{ split; [done|]. right; right. destruct Hv as [? Hn]. split_and!; [done|done|]. right. split_and!; [done| |done]. by intros [? _]. }
  pose proof (yields_patient ctx _ _ k2 Hctx (publication_pages_spec ctx doc (src_ReadAt (p_source p)) (p_options p) (p_logical p) publication metas total keyBytes
    (po_valid _ _ Hp) (po_range _ _ Hp) (po_source _ _ Hp) (po_logical _ _ Hp) Hv)) as Hb.
  destruct (buildPublishedPages _ _ _ _ _ _ _ _) as [k3 [[pages metas']|e3]]; cbn [snd] in Hb.
  2:{ split; [done|]. destruct Hb as [-> ?]. auto 10. }
  rewrite Hc, Z.eqb_refl. cbn [negb]. destruct (nextState_ok _ _ _ _ _ _ _ _ Hv Hb ltac:(lia)) as [Hst Hmap].
  destruct (install_ok doc p (nextState publication pages metas' total keyBytes) Hp Hst) as [Hn _]; [by rewrite <-Eg|].
  split_and!; try done; [apply Hb|cbn; lia].
Qed.

(** ** An example: two lines, with a rune of two bytes in the second *)

Definition ex_doc : list byte := [Byte.x61; Byte.x62; Byte.x63; newline; Byte.x64; Byte.xc3; Byte.xa9; Byte.x66; newline].
Definition ex_source : Source := mkSource (bytes_NewReader ex_doc) (fun _ => 9).
Definition ex_options : Options := mkOptions 4 4 8 2 100 6 64 (mkBudget 16 8 4 100) false None true.
Definition never : Context := fun _ => None.

Definition no_pager : Pager :=
  mkPager ex_source 0 None false 0 0 (mkResolved 0 0 0 0 0 0 0 (mkBudget 0 0 0 0) None false) [] None (initialState []) true true true None 0 0 0 None 0.
Definition ex_pager : Pager := match Build 7 (Some never) (Some ex_source) 3 ex_options 0%nat with (_, Ok p) => p | _ => no_pager end.
Definition ex_publication : Publication :=
  mkPublication 3 0 9 true [mkFragment "x" 0 5 10 "kx"; mkFragment "y" 5 9 20 "ky"].
Definition ex_published : Pager := (publish quiet never ex_publication 0%nat ex_pager).1.2.

Lemma ex_source_ok : source_ok ex_doc ex_source.
Proof. split; [apply bytes_NewReader_ok|done]. Qed.

Lemma ex_pager_ok : pager_ok ex_doc ex_pager.
Proof.
  destruct (build_ok ex_doc 7 never ex_source 3 ex_options None ex_source_ok ltac:(done) 0%nat) as [H|(j & e & Hj & _)]; [|done].
  assert ((build 7 (Some never) (Some ex_source) 3 ex_options None 0%nat).2 = Ok ex_pager) as E by (vm_compute; reflexivity).
  rewrite E in H. apply H.
Qed.

Lemma ex_fit : strings_fit (pu_Fragments ex_publication).
Proof. repeat constructor; vm_compute; discriminate. Qed.

Lemma ex_published_ok : pager_ok ex_doc ex_published.
Proof.
  pose proof (publish_runs ex_doc quiet (quiet_ok ex_doc) ex_pager never ex_publication ex_pager_ok ex_fit 0%nat ex_pager ex_pager_ok (reflexivity _)) as H.
  unfold ex_published. destruct (publish quiet never ex_publication 0%nat ex_pager) as [[k p] r]. apply H.
Qed.

Lemma publish_decides_witness :
  match publish quiet never ex_publication 0%nat ex_pager with
  | (_, p', Ok stats) => pager_ok ex_doc p' /\ map fm_Fragment (st_fragments (p_state p')) = pu_Fragments ex_publication /\
      map (fun g => (pm_start g, pm_end g, pm_fragment g, pm_continuation g)) (st_pages (p_state p')) =
        [(0, 4, 0, 0); (4, 5, 0, 1); (5, 8, 1, 0); (8, 9, 1, 1)]
  | _ => False
  end.
Proof.
  pose proof (publish_decides ex_doc never ex_publication 0%nat ex_pager ex_pager_ok (fun _ => eq_refl) ex_fit eq_refl) as H.
  destruct (publish quiet never ex_publication 0%nat ex_pager) as [[k p'] [stats|e]] eqn:E; [|exfalso; vm_compute in E; discriminate E].
  destruct H as (_ & _ & _ & _ & H1 & _ & H2 & _). split; [exact H1|]. split; [exact H2|].
  assert (p' = ex_published) as -> by (unfold ex_published; rewrite E; reflexivity). vm_compute. reflexivity.
Defined.

(** C36. Building a pager over a source refuses the options outside the limits and
    a text that is not UTF-8, reports the context's error, or gives a pager of the
    text: its logical pages partition the text between runes, tell its lines, and
    end at the first line feed from the target size on, or in front of the rune
    that would exceed the maximum, or at the end. *)
Theorem Build_partitions doc identity ctx source revision options : source_ok doc source -> zlen doc <= maxInt64 ->
  yields ctx (Build identity (Some ctx) (Some source) revision options) (built_pager doc identity source revision options None).
Proof. intros. by apply build_ok. Qed.

Lemma Build_partitions_witness :
  yields never (Build 7 (Some never) (Some ex_source) 3 ex_options) (built_pager ex_doc 7 ex_source 3 ex_options None) /\
  match Build 7 (Some never) (Some ex_source) 3 ex_options 0%nat with
  | (_, Ok p) => map (fun g => (pm_start g, pm_end g, pm_startLine g)) (p_logical p) = [(0, 4, 0); (4, 8, 1); (8, 9, 1)]
  | _ => False
  end.
Proof.
  split; [|vm_compute; reflexivity].
  exact (Build_partitions ex_doc 7 never ex_source 3 ex_options ex_source_ok ltac:(vm_compute; discriminate)).
Defined.
