(* ===== verification/VirtualWindow.v ===== *)
(** * Windows of the virtual pager

    What a window may use of its budget, which pages it chooses, where the anchors
    of a byte, a fragment and a measure are; and what a window then holds. *)

From Stdlib Require Import ZArith Lia List.
From stdpp Require Import base list numbers gmap strings fin_sets.
From S2P Require Import Prelude GoLib Utf8 Polling Events Virtual VirtualPages VirtualPublish VirtualPager.
#[local] Open Scope Z_scope.

(** ** Usage *)

Definition page_length (p : pageMeta) : Z := pm_end p - pm_start p.
Definition fragment_measure (st : pagerState) (k : Z) : Z := f_Measure (fm_Fragment (fragment_at (st_fragments st) k)).
Definition zsum (l : list Z) : Z := fold_right Z.add 0 l.
Definition measure_of (st : pagerState) (X : gset Z) : Z := zsum (map (fragment_measure st) (elements X)).
(** The fragments on some pages. *)
Definition on_pages (st : pagerState) (l : list Z) : gset Z :=
  list_to_set (List.filter (fun k => 0 <=? k) (map (fun i => pm_fragment (page_at (st_pages st) i)) l)).
(** What a list of pages uses. *)
Definition pages_usage (st : pagerState) (l : list Z) : usage :=
  mkUsage (zsum (map (fun i => page_length (page_at (st_pages st) i)) l)) (zlen l) (on_pages st l) (measure_of st (on_pages st l)).

Record within (b : Budget) (u : usage) : Prop := {
  wi_bytes : u_bytes u <= bu_Bytes b;
  wi_pages : u_pages u <= bu_Pages b;
  wi_fragments : usedFragments u <= bu_Fragments b;
  wi_measure : u_measure u <= bu_Measure b }.

Lemma zsum_cons x l : zsum (x :: l) = x + zsum l.
Proof. done. Qed.
Lemma zsum_perm l l' : Permutation l l' -> zsum l = zsum l'.
Proof. induction 1; rewrite ?zsum_cons; lia. Qed.

Lemma measure_of_insert st k X : k ∉ X -> measure_of st ({[k]} ∪ X) = fragment_measure st k + measure_of st X.
Proof.
  intros Hk. unfold measure_of. rewrite <-zsum_cons. apply zsum_perm. change (fragment_measure st k :: map (fragment_measure st) (elements X))
    with (map (fragment_measure st) (k :: elements X)). apply Permutation_map. by apply elements_union_singleton.
Qed.

Lemma on_pages_cons st i l : on_pages st (i :: l) =
  if pm_fragment (page_at (st_pages st) i) <? 0 then on_pages st l else {[pm_fragment (page_at (st_pages st) i)]} ∪ on_pages st l.
Proof.
  unfold on_pages. cbn [map List.filter]. destruct (Z.leb_spec 0 (pm_fragment (page_at (st_pages st) i))), (Z.ltb_spec (pm_fragment (page_at (st_pages st) i)) 0);
    (lia || done).
Qed.

Lemma on_pages_perm st l l' : Permutation l l' -> on_pages st l = on_pages st l'.
Proof.
  induction 1 as [|i l l' _ IH|i j l|l1 l2 l3 _ IH1 _ IH2]; [done| | |congruence].
  - by rewrite !on_pages_cons, IH.
  - rewrite !on_pages_cons. destruct (_ <? 0), (_ <? 0); try done. set_solver.
Qed.

Lemma pages_usage_perm st l l' : Permutation l l' -> pages_usage st l = pages_usage st l'.
Proof.
  intros Hp. unfold pages_usage. rewrite (on_pages_perm st _ _ Hp). f_equal; [|by unfold zlen; rewrite Hp].
  apply zsum_perm. by apply Permutation_map.
Qed.

Lemma addPageUsage_spec st i l : addPageUsage st i (pages_usage st l) = pages_usage st (i :: l).
Proof.
  unfold addPageUsage, pages_usage. cbn [u_bytes u_pages u_fragments u_measure map]. rewrite zsum_cons, zlen_cons, on_pages_cons.
  fold (page_length (page_at (st_pages st) i)). set (k := pm_fragment (page_at (st_pages st) i)).
  destruct (Z.ltb_spec k 0) as [Hk|Hk]; cbn [orb]; [f_equal; lia|].
  destruct (bool_decide_reflect (k ∈ on_pages st l)) as [Hin|Hin].
  - assert ({[k]} ∪ on_pages st l = on_pages st l) as -> by set_solver. f_equal; lia.
  - rewrite measure_of_insert by done. unfold fragment_measure. f_equal; lia.
Qed.

Lemma used_insert k (X : gset Z) : k ∉ X -> Z.of_nat (size ({[k]} ∪ X)) = Z.of_nat (size X) + 1.
Proof. intros H. rewrite size_union_alt, size_singleton. assert (X ∖ {[k]} = X) as -> by set_solver. lia. Qed.

Lemma usage_nil st : pages_usage st [] = mkUsage 0 0 ∅ 0.
Proof. done. Qed.

(** A page fits exactly when the usage with it keeps to the budget. *)
Lemma fitsPage_spec st i b l : within b (pages_usage st l) -> (fitsPage st i b (pages_usage st l) = true <-> within b (pages_usage st (i :: l))).
Proof.
  intros [H1 H2 H3 H4]. unfold fitsPage. fold (page_length (page_at (st_pages st) i)).
  assert (within b (pages_usage st (i :: l)) <->
    page_length (page_at (st_pages st) i) + u_bytes (pages_usage st l) <= bu_Bytes b /\ u_pages (pages_usage st l) + 1 <= bu_Pages b /\
    usedFragments (pages_usage st (i :: l)) <= bu_Fragments b /\ u_measure (pages_usage st (i :: l)) <= bu_Measure b) as ->.
  { cbn [pages_usage u_bytes u_pages map]. split; [intros [W1 W2 W3 W4]|intros (W1 & W2 & W3 & W4); split; try done];
      cbn [pages_usage u_bytes u_pages map] in *; rewrite ?zsum_cons, ?zlen_cons in *; try (split_and!; done || lia); lia. }
  unfold usedFragments in *. cbn [pages_usage u_fragments u_measure] in *. rewrite on_pages_cons. unfold usedFragments.
  set (k := pm_fragment (page_at (st_pages st) i)). set (pu := u_pages _). set (bu := u_bytes _).
  destruct (Z.leb_spec (bu_Pages b) pu), (Z.ltb_spec (bu_Bytes b - bu) (page_length (page_at (st_pages st) i))); cbn [orb]; try (split; [done|lia]).
  destruct (Z.ltb_spec k 0); [split; [intros _; split_and!; lia|done]|].
  destruct (bool_decide_reflect (k ∈ on_pages st l)) as [Hin|Hin].
  { assert ({[k]} ∪ on_pages st l = on_pages st l) as -> by set_solver. split; [intros _; split_and!; lia|done]. }
  rewrite used_insert, measure_of_insert by done. unfold fragment_measure.
  destruct (Z.leb_spec (bu_Fragments b) (Z.of_nat (size (on_pages st l)))); [split; [done|lia]|]. rewrite Z.leb_le. lia.
Qed.

(** ** Choosing the pages *)

(** The indices from [a] to [b]. *)
Definition zrange (a b : Z) : list Z := map (fun k => a + Z.of_nat k) (seq 0 (Z.to_nat (b - a + 1))).

Lemma zrange_cons a b : a <= b -> zrange a b = a :: zrange (a + 1) b.
Proof.
  intros H. unfold zrange. replace (Z.to_nat (b - a + 1)) with (S (Z.to_nat (b - (a + 1) + 1))) by lia. cbn [seq map].
  f_equal; [lia|]. rewrite <-seq_shift, map_map. apply map_ext. intros k. lia.
Qed.
Lemma zrange_nil a b : b < a -> zrange a b = [].
Proof. intros H. unfold zrange. by replace (Z.to_nat (b - a + 1)) with 0%nat by lia. Qed.
Lemma zrange_one a : zrange a a = [a].
Proof. by rewrite zrange_cons, zrange_nil by lia. Qed.
Lemma zrange_snoc a b : a <= b + 1 -> zrange a (b + 1) = zrange a b ++ [b + 1].
Proof.
  intros H. unfold zrange. replace (Z.to_nat (b + 1 - a + 1)) with (S (Z.to_nat (b - a + 1))) by lia. rewrite seq_S, map_app. cbn. f_equal. f_equal. lia.
Qed.
Lemma zlen_zrange a b : a <= b + 1 -> zlen (zrange a b) = b - a + 1.
Proof. intros H. unfold zrange, zlen. rewrite length_map, length_seq. lia. Qed.

(** Growing to the front and to the back, as far as the budget allows. *)
Lemma grow_before st b last count : forall first, within b (pages_usage st (zrange first last)) -> first <= last + 1 ->
  let '(u, reached, truncated) := grow_loop count (-1) st b first (pages_usage st (zrange first last)) in
  first - Z.of_nat count <= reached <= first /\ u = pages_usage st (zrange reached last) /\ within b u /\
  truncated = (first - Z.of_nat count <? reached) /\
  (first - Z.of_nat count < reached -> ~ within b (pages_usage st (zrange (reached - 1) last))).
Proof.
  induction count as [|count IH]; intros first Hw Hle; cbn [grow_loop].
  { split_and!; [lia|lia|done|done|symmetry; apply Z.ltb_ge; lia|lia]. }
  pose proof (fitsPage_spec st (first + -1) b _ Hw) as Hfit. rewrite addPageUsage_spec.
  assert (first + -1 :: zrange first last = zrange (first + -1) last) as Econs.
  { rewrite (zrange_cons (first + -1)) by lia. f_equal. f_equal. lia. }
  rewrite Econs in Hfit |- *. destruct (fitsPage st (first + -1) b _).
  - specialize (IH (first + -1) (proj1 Hfit eq_refl) ltac:(lia)). destruct (grow_loop _ _ _ _ _ _) as [[u reached] truncated].
    destruct IH as (H1 & H2 & H3 & H4 & H5). replace (first - Z.of_nat (S count)) with (first + -1 - Z.of_nat count) by lia.
    split_and!; [lia|lia|done|done|done|done].
  - split_and!; [lia|lia|done|done|symmetry; apply Z.ltb_lt; lia|]. intros _ Hn. by apply Hfit in Hn.
Qed.
Lemma grow_after st b first count : forall last, within b (pages_usage st (zrange first last)) -> first <= last + 1 ->
  let '(u, reached, truncated) := grow_loop count 1 st b last (pages_usage st (zrange first last)) in
  last <= reached <= last + Z.of_nat count /\ u = pages_usage st (zrange first reached) /\ within b u /\
  truncated = (reached <? last + Z.of_nat count) /\
  (reached < last + Z.of_nat count -> ~ within b (pages_usage st (zrange first (reached + 1)))).
Proof.
  induction count as [|count IH]; intros last Hw Hle; cbn [grow_loop].
  { split_and!; [lia|lia|done|done|symmetry; apply Z.ltb_ge; lia|lia]. }
  pose proof (fitsPage_spec st (last + 1) b _ Hw) as Hfit. rewrite addPageUsage_spec.
  assert (pages_usage st (last + 1 :: zrange first last) = pages_usage st (zrange first (last + 1))) as Eusage.
  { rewrite zrange_snoc by lia. apply pages_usage_perm. rewrite (Permutation_app_comm _ [_]). done. }
  rewrite Eusage in Hfit |- *. destruct (fitsPage st (last + 1) b _).
  - specialize (IH (last + 1) (proj1 Hfit eq_refl) ltac:(lia)). destruct (grow_loop _ _ _ _ _ _) as [[u reached] truncated].
    destruct IH as (H1 & H2 & H3 & H4 & H5). replace (last + Z.of_nat (S count)) with (last + 1 + Z.of_nat count) by lia.
    split_and!; [lia|lia|done|done|done|done].
  - split_and!; [lia|lia|done|done|symmetry; apply Z.ltb_lt; lia|]. intros _ Hn. by apply Hfit in Hn.
Qed.

(** The choice around an anchor: within the budget, and cut short only where one
    more page would exceed it - before the anchor first. *)
Record chosen (st : pagerState) (b : Budget) (anchor desiredFirst desiredLast first last : Z) : Prop := {
  ch_order : desiredFirst <= first <= anchor /\ anchor <= last <= desiredLast;
  ch_within : within b (pages_usage st (zrange first last));
  ch_before : desiredFirst < first -> ~ within b (pages_usage st (zrange (first - 1) anchor));
  ch_after : last < desiredLast -> ~ within b (pages_usage st (zrange first (last + 1))) }.

Definition choice_answer (st : pagerState) (b : Budget) (anchor desiredFirst desiredLast : Z) (r : result (usage * Z * Z * bool * bool)) : Prop :=
  match r with
  | Ok (u, first, last, before, after) =>
    chosen st b anchor desiredFirst desiredLast first last /\ u = pages_usage st (zrange first last) /\
    before = (desiredFirst <? first) /\ after = (last <? desiredLast)
  | Err e => e = virtual_ErrBudgetExceeded /\ ~ within b (pages_usage st [anchor])
  end.

Lemma choosePages_spec st b anchor desiredFirst desiredLast :
  0 <= desiredFirst <= anchor -> anchor <= desiredLast < zlen (st_pages st) ->
  1 <= bu_Bytes b -> 1 <= bu_Pages b -> 1 <= bu_Fragments b -> 1 <= bu_Measure b ->
  choice_answer st b anchor desiredFirst desiredLast (choosePages st anchor anchor desiredFirst desiredLast b).
Proof.
  intros H1 H2 B1 B2 B3 B4. unfold choosePages.
  assert ((anchor <? 0) || (anchor <? anchor) || (zlen (st_pages st) <=? anchor) || (desiredFirst <? 0) || (anchor <? desiredFirst) ||
    (desiredLast <? anchor) || (zlen (st_pages st) <=? desiredLast) = false) as -> by lia.
  replace (anchor - anchor + 1) with 1 by lia. change (Z.to_nat 1) with 1%nat. cbn [anchor_loop].
  assert (within b (mkUsage 0 0 ∅ 0)) as Hw0 by (split; unfold usedFragments; cbn [u_bytes u_pages u_fragments u_measure]; rewrite ?size_empty; lia).
  rewrite <-(usage_nil st) in Hw0 |- *. pose proof (fitsPage_spec st anchor b [] Hw0) as Hfit. rewrite addPageUsage_spec.
  destruct (fitsPage st anchor b _); [|split; [done|]; by intros Hn%Hfit].
  specialize (proj1 Hfit eq_refl) as Hw. rewrite <-zrange_one in Hw |- *.
  pose proof (grow_before st b anchor (Z.to_nat (anchor - desiredFirst)) anchor Hw ltac:(lia)) as Hb.
  destruct (grow_loop _ (-1) _ _ _ _) as [[u first] before]. destruct Hb as (R1 & -> & Hw1 & -> & Hn1).
  pose proof (grow_after st b first (Z.to_nat (desiredLast - anchor)) anchor Hw1 ltac:(lia)) as Ha.
  destruct (grow_loop _ 1 _ _ _ _) as [[u last] after]. destruct Ha as (R2 & -> & Hw2 & -> & Hn2).
  rewrite !Z2Nat.id in * by lia.
  replace (anchor - (anchor - desiredFirst)) with desiredFirst in * by lia. replace (anchor + (desiredLast - anchor)) with desiredLast in * by lia.
  split_and!; [by split; [lia|..]|done|done|done].
Qed.

(** ** The pages of a state, by index *)

Section State.
Context (doc : list byte) (options : resolvedOptions) (st : pagerState) (Hst : state_ok doc options st).

Let n := zlen (st_pages st).
Let pg (i : Z) : pageMeta := page_at (st_pages st) i.

Lemma pages_positive : 0 < n.
Proof.
  unfold n. destruct (so_pages _ _ _ Hst) as [(_ & _ & idx & ->)|(Hne & Ht & _)]; [done|].
  destruct (st_pages st) as [|p l]; [|rewrite zlen_cons; pose proof (zlen_nonneg l); lia]. cbn in Ht. symmetry in Ht. by apply zlen_zero in Ht.
Qed.

Lemma page_lookup i : 0 <= i < n -> st_pages st !! Z.to_nat i = Some (pg i).
Proof.
  intros H. unfold n, zlen in H. destruct (lookup_lt_is_Some_2 (st_pages st) (Z.to_nat i)) as [p Hp]; [lia|]. rewrite Hp. f_equal.
  symmetry. unfold pg, page_at. by apply nth_lookup_Some.
Qed.

Lemma tiles_at pages : forall a b, tiles a b pages ->
  (forall p, pages !! 0%nat = Some p -> pm_start p = a) /\
  (forall i p q, pages !! i = Some p -> pages !! S i = Some q -> pm_end p = pm_start q) /\
  (forall i p, S i = length pages -> pages !! i = Some p -> pm_end p = b).
Proof.
  induction pages as [|p pages IH]; intros a b; cbn [tiles]; [done|]. intros [<- Ht]. destruct (IH _ _ Ht) as (H1 & H2 & H3). split_and!.
  - by intros q [= ->].
  - intros [|i] q r Hq Hr; [|by apply (H2 i)]. injection Hq as <-. symmetry. by apply H1.
  - intros [|i] q Hi Hq; [|apply (H3 i); [by injection Hi|done]]. injection Hq as <-. destruct pages; [by symmetry|done].
Qed.

Lemma page_shape : pm_start (pg 0) = 0 /\ pm_end (pg (n - 1)) = zlen doc /\
  (forall i, 0 <= i -> i + 1 < n -> pm_end (pg i) = pm_start (pg (i + 1))) /\
  (forall i, 0 <= i < n -> pm_start (pg i) <= pm_end (pg i)).
Proof.
  pose proof pages_positive as Hpos.
  assert (forall i, 0 <= i < n -> pm_start (pg i) <= pm_end (pg i)) as Hle by (intros i Hi; eapply page_range; [exact Hst|by apply page_lookup]).
  destruct (so_pages _ _ _ Hst) as [(Ed & _ & idx & E)|(Hne & Ht & _)].
  - assert (n = 1) as En by (unfold n; by rewrite E). rewrite En. unfold pg. rewrite E, Ed. split_and!; [done|done|lia|].
    intros i Hi. replace i with 0 by lia. done.
  - destruct (tiles_at _ _ _ Ht) as (H1 & H2 & H3). split_and!; [| | |exact Hle].
    + apply H1. apply (page_lookup 0). lia.
    + apply (H3 (Z.to_nat (n - 1))); [unfold n, zlen in *; lia|apply page_lookup; lia].
    + intros i Hi Hin. apply (H2 (Z.to_nat i)); [apply page_lookup; lia|]. replace (S (Z.to_nat i)) with (Z.to_nat (i + 1)) by lia.
      apply page_lookup. lia.
Qed.

Lemma page_order i j : 0 <= i <= j -> j < n -> pm_start (pg i) <= pm_start (pg j) /\ pm_end (pg i) <= pm_end (pg j) /\
  (i < j -> pm_end (pg i) <= pm_start (pg j)).
Proof.
  destruct page_shape as (_ & _ & Hnext & Hle). intros Hij Hj. replace j with (i + (j - i)) in * by lia.
  remember (Z.to_nat (j - i)) as d eqn:Ed. replace (j - i) with (Z.of_nat d) in * by lia. clear Ed. destruct Hij as [Hi _].
  induction d as [|d IH]; [rewrite Z.add_0_r; split_and!; lia|].
  destruct IH as (H1 & H2 & _); [lia|]. replace (i + Z.of_nat (S d)) with (i + Z.of_nat d + 1) in * by lia.
  pose proof (Hnext (i + Z.of_nat d) ltac:(lia) ltac:(lia)). pose proof (Hle (i + Z.of_nat d + 1) ltac:(lia)).
  pose proof (Hle (i + Z.of_nat d) ltac:(lia)). split_and!; lia.
Qed.

(** The text of consecutive pages. *)
Lemma pages_text a b : 0 <= a -> a <= b < n ->
  concat (map (fun i => page_bytes doc (pg i)) (zrange a b)) = slice (pm_start (pg a)) (pm_end (pg b) - pm_start (pg a)) doc.
Proof.
  intros Ha Hb. destruct page_shape as (_ & _ & Hnext & Hle). remember (Z.to_nat (b - a)) as d eqn:Ed. revert a Ha Hb Ed.
  induction d as [|d IH]; intros a Ha Hb Ed; rewrite zrange_cons by lia.
  - replace b with a by lia. rewrite zrange_nil by lia. cbn [map concat]. by rewrite app_nil_r.
  - cbn [map concat]. rewrite (IH (a + 1)) by lia. rewrite <-(Hnext a) by lia. unfold page_bytes.
    pose proof (Hle a ltac:(lia)). destruct (page_order a b ltac:(lia) ltac:(lia)) as (_ & Hab & _).
    destruct (page_range doc st _ _ options Hst (page_lookup a ltac:(lia))) as [? _].
    replace (pm_end (pg b) - pm_start (pg a)) with ((pm_end (pg a) - pm_start (pg a)) + (pm_end (pg b) - pm_end (pg a))) by lia.
    rewrite slice_split by lia. f_equal. f_equal. lia.
Qed.

(** ** The anchor of a byte *)

(** The page that holds the byte at [x], or the last one at the end. *)
Definition page_holds (i x : Z) : Prop :=
  0 <= i < zlen (st_pages st) /\ pm_start (page_at (st_pages st) i) <= x /\
  (x < pm_end (page_at (st_pages st) i) \/ x = zlen doc /\ i = zlen (st_pages st) - 1).

Lemma pageAtByte_spec x : 0 <= x <= zlen doc -> page_holds (pageAtByte (st_pages st) x (zlen doc)) x.
Proof.
  intros Hx. pose proof pages_positive as Hpos. destruct page_shape as (H0 & Hend & Hnext & Hle). unfold pageAtByte, page_holds. fold n.
  destruct (Z.eqb_spec x (zlen doc)) as [->|Hne].
  { split_and!; [lia|lia| |by right]. rewrite <-Hend. apply Hle. lia. }
  destruct (sort_Search_spec n (fun index => x <? pm_end (pg index))) as (Hr & Hlo & Hhi); [lia| |].
  { intros a b Ha Hb Hlt. destruct (page_order a b ltac:(lia) Hb) as (_ & ? & _). lia. }
  cbv zeta in *. change (fun index => x <? pm_end (page_at (st_pages st) index)) with (fun index => x <? pm_end (pg index)).
  set (r := sort_Search n _) in *. change (page_at (st_pages st)) with pg.
  assert (forall k, 0 <= k < r -> pm_end (pg k) <= x) as Hbelow by (intros k Hk; specialize (Hlo k Hk); cbn beta in Hlo; lia).
  assert (r < n) as Hrn by (destruct (decide (r = n)) as [E|]; [specialize (Hbelow (n - 1) ltac:(lia)); rewrite Hend in Hbelow; lia|lia]).
  rewrite (proj2 (Z.eqb_neq _ _)) by lia. specialize (Hhi r ltac:(lia)). cbn beta in Hhi. split_and!; [lia|lia| |left; lia].
  destruct (decide (r = 0)) as [->|]; [lia|]. specialize (Hbelow (r - 1) ltac:(lia)). rewrite Hnext in Hbelow by lia.
  replace (r - 1 + 1) with r in Hbelow by lia. lia.
Qed.

(** The page that holds the byte before [x]. *)
Lemma pageBeforeByte_spec x : 0 < x <= zlen doc -> page_holds (pageBeforeByte (st_pages st) x (zlen doc)) (x - 1).
Proof.
  intros Hx. unfold pageBeforeByte. rewrite (proj2 (Z.leb_gt _ _)) by lia. destruct (Z.leb_spec (zlen doc) x) as [Hge|Hlt].
  - pose proof pages_positive. destruct page_shape as (_ & Hend & _ & Hle). unfold page_holds. fold n. fold (pg (n - 1)).
    assert (x = zlen doc) as -> by lia. split_and!; [lia|lia| |left; lia].
    destruct (so_pages _ _ _ Hst) as [(E & _)|(_ & _ & Htext & _)]; [exfalso; rewrite E in Hx; by change (zlen []) with 0 in Hx; lia|].
    pose proof (Forall_lookup_1 _ _ _ _ Htext (page_lookup (n - 1) ltac:(lia))) as Hp. pose proof (pt_range _ _ Hp). lia.
  - apply pageAtByte_spec. lia.
Qed.

Lemma holds_mono i j x y : page_holds i x -> page_holds j y -> x <= y -> i <= j.
Proof.
  intros (Hi & H1 & H2) (Hj & H3 & H4) Hxy. destruct (decide (i <= j)); [done|]. exfalso.
  destruct (page_order j i ltac:(lia) ltac:(unfold n; lia)) as (_ & _ & Hlt). unfold pg in Hlt. specialize (Hlt ltac:(lia)). lia.
Qed.
End State.

(** ** The fragments of a state, by index *)

Lemma chain_at fragments : forall cursor total limit, fragment_chain cursor total limit fragments ->
  (forall f, fragments !! 0%nat = Some f -> fm_measureStart f = total) /\
  (forall i f, fragments !! i = Some f -> f_Start (fm_Fragment f) < f_End (fm_Fragment f) /\ 0 <= f_Measure (fm_Fragment f)) /\
  (forall i f g, fragments !! i = Some f -> fragments !! S i = Some g ->
     f_End (fm_Fragment f) <= f_Start (fm_Fragment g) /\ fm_measureStart g = measureEnd f).
Proof.
  induction fragments as [|f fragments IH]; intros cursor total limit H; [done|].
  destruct H as (H1 & H2 & H3 & H4 & H5 & H). destruct (IH _ _ _ H) as (I1 & I2 & I3). pose proof (chain_starts _ _ _ _ H) as Hs. split_and!.
  - by intros g [= ->].
  - intros [|i] g Hg; [injection Hg as <-; lia|by apply (I2 i)].
  - intros [|i] g h Hg Hh; [|by apply (I3 i)]. injection Hg as <-. split.
    + by apply (Forall_lookup_1 _ _ _ _ Hs) in Hh.
    + unfold measureEnd. rewrite H4. by apply I1.
Qed.

Section Fragments.
Context (doc : list byte) (options : resolvedOptions) (st : pagerState) (Hst : state_ok doc options st).

Let m := zlen (st_fragments st).
Let fr (i : Z) : fragmentMeta := fragment_at (st_fragments st) i.

Lemma fragment_lookup i : 0 <= i < m -> st_fragments st !! Z.to_nat i = Some (fr i).
Proof.
  intros H. unfold m, zlen in H. destruct (lookup_lt_is_Some_2 (st_fragments st) (Z.to_nat i)) as [f Hf]; [lia|]. rewrite Hf. f_equal.
  symmetry. unfold fr, fragment_at. by apply nth_lookup_Some.
Qed.

(** The pages of a fragment begin and end where it does. *)
Lemma fragment_span i : 0 <= i < m ->
  0 <= fm_pageFirst (fr i) <= fm_pageLast (fr i) /\ fm_pageLast (fr i) < zlen (st_pages st) /\
  pm_start (page_at (st_pages st) (fm_pageFirst (fr i))) = f_Start (fm_Fragment (fr i)) /\
  pm_end (page_at (st_pages st) (fm_pageLast (fr i))) = f_End (fm_Fragment (fr i)).
Proof.
  intros Hi. pose proof (Forall_lookup_1 _ _ _ _ (so_covers _ _ _ Hst) (fragment_lookup i Hi)) as (p1 & p2 & p3 & E & Hne & Ht & E1 & E2).
  rewrite E1, E2, E, !zlen_app. pose proof (zlen_nonneg p1). pose proof (zlen_nonneg p3).
  assert (0 < zlen p2) by (destruct p2; [done|rewrite zlen_cons; pose proof (zlen_nonneg p2); lia]).
  destruct (tiles_at _ _ _ Ht) as (T1 & _ & T3). assert (forall k, 0 <= k < zlen p2 -> p2 !! Z.to_nat k = Some (page_at (p1 ++ p2 ++ p3) (zlen p1 + k))) as Hat.
  { intros k Hk. destruct (lookup_lt_is_Some_2 p2 (Z.to_nat k)) as [q Hq]; [unfold zlen in Hk; lia|]. rewrite Hq. f_equal. symmetry.
    unfold page_at. apply nth_lookup_Some. unfold zlen in *. rewrite lookup_app_r by lia.
    replace (Z.to_nat (Z.of_nat (length p1) + k) - length p1)%nat with (Z.to_nat k) by lia. by apply lookup_app_l_Some. }
  split_and!; [lia|lia|lia| |].
  - pose proof (Hat 0 ltac:(lia)) as Hfirst. rewrite Z.add_0_r in Hfirst. by apply T1.
  - pose proof (Hat (zlen p2 - 1) ltac:(lia)) as Hend. replace (zlen p1 + (zlen p2 - 1)) with (zlen p1 + zlen p2 - 1) in Hend by lia.
    eapply T3; [|exact Hend]. unfold zlen in *. lia.
Qed.

Lemma fragment_step i : 0 <= i < m -> f_Start (fm_Fragment (fr i)) < f_End (fm_Fragment (fr i)) /\ fm_measureStart (fr i) <= measureEnd (fr i) /\
  (i + 1 < m -> f_End (fm_Fragment (fr i)) <= f_Start (fm_Fragment (fr (i + 1))) /\ fm_measureStart (fr (i + 1)) = measureEnd (fr i)).
Proof.
  intros Hi. destruct (chain_at _ _ _ _ (so_chain _ _ _ Hst)) as (_ & C2 & C3). destruct (C2 _ _ (fragment_lookup i Hi)) as [? ?].
  unfold measureEnd at 1. split_and!; [done|lia|]. intros Hn. apply (C3 (Z.to_nat i)); [by apply fragment_lookup|].
  replace (S (Z.to_nat i)) with (Z.to_nat (i + 1)) by lia. apply fragment_lookup. lia.
Qed.

Lemma fragment_order i j : 0 <= i < j -> j < m ->
  f_End (fm_Fragment (fr i)) <= f_Start (fm_Fragment (fr j)) /\ measureEnd (fr i) <= fm_measureStart (fr j) /\ fm_pageLast (fr i) < fm_pageFirst (fr j).
Proof.
  intros Hij Hj. assert (f_End (fm_Fragment (fr i)) <= f_Start (fm_Fragment (fr j)) /\ measureEnd (fr i) <= fm_measureStart (fr j)) as [H1 H2].
  { remember (Z.to_nat (j - i - 1)) as d eqn:Ed. replace j with (i + Z.of_nat d + 1) in * by lia. clear Ed.
    induction d as [|d IH].
    - rewrite Z.add_0_r in *. destruct (fragment_step i ltac:(lia)) as (_ & _ & H). specialize (H Hj). lia.
    - destruct IH as [I1 I2]; [lia|lia|]. destruct (fragment_step (i + Z.of_nat d + 1) ltac:(lia)) as (S1 & S2 & S3). specialize (S3 ltac:(lia)).
      replace (i + Z.of_nat (S d) + 1) with (i + Z.of_nat d + 1 + 1) by lia. lia. }
  split_and!; [done|done|]. destruct (fragment_span i ltac:(lia)) as (A1 & A2 & _ & A4). destruct (fragment_span j ltac:(lia)) as (B1 & B2 & B3 & _).
  destruct (decide (fm_pageLast (fr i) < fm_pageFirst (fr j))); [done|]. exfalso.
  destruct (page_order doc options st Hst (fm_pageFirst (fr j)) (fm_pageLast (fr i)) ltac:(lia) ltac:(lia)) as (P1 & _ & _).
  destruct (page_shape doc options st Hst) as (_ & _ & _ & Hle).
  pose proof (Hle (fm_pageLast (fr i)) ltac:(lia)). destruct (fragment_step i ltac:(lia)) as (S1 & _ & _).
  assert (pm_start (page_at (st_pages st) (fm_pageLast (fr i))) < pm_end (page_at (st_pages st) (fm_pageLast (fr i)))); [|lia].
  destruct (so_pages _ _ _ Hst) as [(_ & E & _)|(_ & _ & Htext & _)]; [unfold m in Hj; rewrite E in Hj; change (zlen []) with 0 in Hj; lia|].
  apply (pt_range doc). eapply (Forall_lookup_1 _ _ _ _ Htext), page_lookup. lia.
Qed.

Lemma fragment_monotone i j : 0 <= i <= j -> j < m ->
  fm_pageFirst (fr i) <= fm_pageFirst (fr j) /\ fm_pageLast (fr i) <= fm_pageLast (fr j).
Proof.
  intros Hij Hj. destruct (decide (i = j)) as [->|]; [lia|]. destruct (fragment_order i j ltac:(lia) Hj) as (_ & _ & ?).
  destruct (fragment_span i ltac:(lia)) as (? & _). destruct (fragment_span j ltac:(lia)) as (? & _). lia.
Qed.

(** ** The anchor of a measure *)

Lemma measure_total l : forall cursor total limit, fragment_chain cursor total limit l -> l <> [] ->
  measureEnd (List.last l zeroFragment) = total + measures (map fm_Fragment l).
Proof.
  induction l as [|f l IH]; intros cursor total limit H Hne; [done|]. destruct H as (_ & _ & _ & Hm & _ & H). cbn [map]. rewrite measures_cons.
  destruct l as [|g l]; [unfold measureEnd; cbn [List.last map measures fold_right]; lia|].
  change (List.last (f :: g :: l) zeroFragment) with (List.last (g :: l) zeroFragment). rewrite (IH _ _ _ H) by done. lia.
Qed.

Lemma last_is_nth {A} (l : list A) d : List.last l d = nth (length l - 1) l d.
Proof.
  destruct l as [|x l _] using rev_ind; [done|]. rewrite List.last_last, length_app, Nat.add_sub. by rewrite app_nth2, Nat.sub_diag by lia.
Qed.

Lemma measure_ends : 0 < m -> fm_measureStart (fr 0) = 0 /\ measureEnd (fr (m - 1)) = st_totalMeasure st /\
  List.last (st_fragments st) zeroFragment = fr (m - 1).
Proof.
  intros Hm. destruct (chain_at _ _ _ _ (so_chain _ _ _ Hst)) as (C1 & _ & _).
  assert (st_fragments st <> []) as Hne by (intros E; unfold m in Hm; by rewrite E in Hm).
  assert (List.last (st_fragments st) zeroFragment = fr (m - 1)) as El.
  { rewrite last_is_nth. unfold fr, fragment_at. f_equal. unfold m, zlen. lia. }
  split_and!; [apply C1, (fragment_lookup 0); lia| |done]. rewrite <-El, (so_total _ _ _ Hst), (measure_total _ _ _ _ (so_chain _ _ _ Hst) Hne). lia.
Qed.

(** The fragment whose measures hold [x]: the interval is closed on the side of
    the affinity, where there is any measure. *)
Definition measure_holds (i x : Z) (affinity : Affinity) : Prop :=
  0 <= i < zlen (st_fragments st) /\
  fm_measureStart (fragment_at (st_fragments st) i) <= x <= measureEnd (fragment_at (st_fragments st) i) /\
  (1 < zlen (st_fragments st) -> 0 < st_totalMeasure st ->
   if bool_decide (affinity = AffinityBefore) then 0 < x -> fm_measureStart (fragment_at (st_fragments st) i) < x
   else x < st_totalMeasure st -> x < measureEnd (fragment_at (st_fragments st) i)).

Lemma fragmentAtMeasure_spec x affinity : 0 < m -> 0 <= x <= st_totalMeasure st ->
  measure_holds (fragmentAtMeasure (st_fragments st) x affinity) x affinity.
Proof.
  intros Hm Hx. destruct (measure_ends Hm) as (E0 & E1 & El). unfold fragmentAtMeasure, measure_holds. rewrite El, E1. fold m.
  change (fragment_at (st_fragments st)) with fr.
  destruct (Z.eqb_spec m 1) as [Em|Hm1].
  { replace (m - 1) with 0 in E1 by lia. split_and!; try lia; intros; lia. }
  assert (forall i, 0 <= i < m -> 0 <= fm_measureStart (fr i) /\ measureEnd (fr i) <= st_totalMeasure st) as Hrange.
  { intros i Hi. destruct (fragment_step 0 ltac:(lia)) as (_ & ? & _). destruct (fragment_step (m - 1) ltac:(lia)) as (_ & ? & _).
    split; [destruct (decide (i = 0)) as [->|]; [lia|destruct (fragment_order 0 i ltac:(lia) ltac:(lia)) as (_ & ? & _); lia]|].
    destruct (decide (i = m - 1)) as [->|]; [lia|]. destruct (fragment_order i (m - 1) ltac:(lia) ltac:(lia)) as (_ & ? & _). lia. }
  assert (forall i j, 0 <= i <= j -> j < m -> fm_measureStart (fr i) <= fm_measureStart (fr j) /\ measureEnd (fr i) <= measureEnd (fr j)) as Hmono.
  { intros i j Hij Hj. destruct (decide (i = j)) as [->|]; [lia|]. destruct (fragment_order i j ltac:(lia) Hj) as (_ & ? & _).
    destruct (fragment_step i ltac:(lia)) as (_ & ? & _). destruct (fragment_step j ltac:(lia)) as (_ & ? & _). lia. }
  destruct (Z.eqb_spec (st_totalMeasure st) 0) as [Et|Ht].
  { assert (forall i, 0 <= i < m -> fm_measureStart (fr i) <= x <= measureEnd (fr i)) as Hz.
    { intros i Hi. destruct (Hrange i Hi). destruct (fragment_step i Hi) as (_ & ? & _). lia. }
    destruct (bool_decide _); (split_and!; [lia|lia|apply Hz; lia|apply Hz; lia|lia]). }
  destruct (bool_decide_reflect (affinity = AffinityBefore)) as [Ea|Ea].
  - destruct (Z.eqb_spec x 0) as [->|Hx0]; [destruct (fragment_step 0 ltac:(lia)) as (_ & ? & _); split_and!; lia|].
    set (p := fun index => x <=? fm_measureStart (fr index)).
    destruct (sort_Search_spec m p) as (Hr & Hlo & Hhi); [lia|intros a b Ha Hb Hp; destruct (Hmono a b Ha Hb); unfold p in *; lia|].
    cbv zeta in *. set (r := sort_Search m p) in *. unfold p in Hlo, Hhi. cbn beta in Hlo, Hhi.
    assert (0 < r) as Hr0 by (destruct (decide (r = 0)) as [E|]; [specialize (Hhi 0 ltac:(lia)); lia|lia]).
    rewrite (proj2 (Z.ltb_ge (r - 1) 0)) by lia. specialize (Hlo (r - 1) ltac:(lia)). split_and!; [lia|lia|lia| |lia].
    destruct (decide (r = m)) as [->|]; [lia|]. specialize (Hhi r ltac:(lia)). destruct (fragment_step (r - 1) ltac:(lia)) as (_ & _ & Hn).
    replace (r - 1 + 1) with r in Hn by lia. specialize (Hn ltac:(lia)). lia.
  - set (p := fun index => x <? measureEnd (fr index)).
    destruct (sort_Search_spec m p) as (Hr & Hlo & Hhi); [lia|intros a b Ha Hb Hp; destruct (Hmono a b Ha Hb); unfold p in *; lia|].
    cbv zeta in *. set (r := sort_Search m p) in *. unfold p in Hlo, Hhi. cbn beta in Hlo, Hhi.
    assert (forall i, 0 <= i < m -> r = i \/ (r = m /\ i = m - 1) -> fm_measureStart (fr i) <= x) as Hstart.
    { intros i Hi Hri. destruct (decide (i = 0)) as [->|]; [lia|]. destruct (fragment_step (i - 1) ltac:(lia)) as (_ & _ & Hn).
      replace (i - 1 + 1) with i in Hn by lia. specialize (Hn ltac:(lia)). specialize (Hlo (i - 1) ltac:(lia)). lia. }
    destruct (Z.eqb_spec r m) as [Erm|Hrm].
    + specialize (Hlo (m - 1) ltac:(lia)). split_and!; [lia|lia|apply Hstart; lia|lia|lia].
    + specialize (Hhi r ltac:(lia)). split_and!; [lia|lia|apply Hstart; lia|lia|lia].
Qed.
End Fragments.

(** ** Reading a window *)

(** What a window holds: the chosen pages with their text, and what they use. *)
Record window_exact (doc : list byte) (p : Pager) (st : pagerState) (b : Budget) (anchor desiredFirst desiredLast : Z) (first last : Z) (w : Window) : Prop := {
  we_chosen : chosen st b anchor desiredFirst desiredLast first last;
  we_pages : w_Pages w = map (fun i => pageOf p st i (page_bytes doc (page_at (st_pages st) i))) (zrange first last);
  we_revision : w_Revision w = p_revision p;
  we_generation : w_Generation w = st_generation st;
  we_bytes : w_Bytes w = pm_end (page_at (st_pages st) last) - pm_start (page_at (st_pages st) first);
  we_fragments : w_Fragments w = usedFragments (pages_usage st (zrange first last));
  we_measure : w_Measure w = u_measure (pages_usage st (zrange first last));
  we_indexed : w_IndexedThrough w = st_indexedThrough st /\ w_Complete w = st_complete st;
  we_truncated : w_TruncatedBefore w = (desiredFirst <? first) /\ w_TruncatedAfter w = (last <? desiredLast);
  we_text : concat (map g_Content (w_Pages w)) = slice (pm_start (page_at (st_pages st) first)) (w_Bytes w) doc }.

Lemma range_bytes doc options st a b : state_ok doc options st -> 0 <= a -> a <= b < zlen (st_pages st) ->
  zsum (map (fun i => page_length (page_at (st_pages st) i)) (zrange a b)) = pm_end (page_at (st_pages st) b) - pm_start (page_at (st_pages st) a).
Proof.
  intros Hst Ha Hb. destruct (page_shape doc options st Hst) as (_ & _ & Hnext & _). remember (Z.to_nat (b - a)) as d eqn:Ed.
  revert a Ha Hb Ed. induction d as [|d IH]; intros a Ha Hb Ed; rewrite zrange_cons by lia; cbn [map]; rewrite zsum_cons.
  - replace b with a by lia. rewrite zrange_nil by lia. unfold page_length. cbn. lia.
  - rewrite (IH (a + 1)) by lia. specialize (Hnext a ltac:(lia) ltac:(lia)). unfold page_length. lia.
Qed.

Section Windows.
Context (doc : list byte) (env : nat -> Pager -> Pager) (Henv : env_ok doc env) (lifecycle : nat -> bool).

Lemma read_pages_runs p0 ctx (E : error -> Prop) : pager_ok doc p0 -> (forall e, cancels ctx e -> E e) -> forall count index,
  0 <= index -> index + Z.of_nat count <= zlen (st_pages (p_state p0)) ->
  runs doc p0 (read_pages env count ctx (p_state p0) index) (fun pages => pages =
    map (fun i => pageOf p0 (p_state p0) i (page_bytes doc (page_at (st_pages (p_state p0)) i))) (zrange index (index + Z.of_nat count - 1))) E.
Proof.
  intros Hp0 HE. induction count as [|count IH]; intros index Hi Hc; cbn [read_pages].
  { apply runs_ret. by rewrite zrange_nil by lia. }
  apply runs_poll; [done|].
  pose proof (page_lookup (p_state p0) index ltac:(lia)) as Hl.
  pose proof (readMeta_runs doc env Henv p0 ctx (Z.to_nat index) _ E Hp0 Hl HE) as Hr. rewrite Z2Nat.id in Hr by lia.
  eapply runs_bind; [exact Hr|]. intros page ->. eapply runs_bind; [apply (IH (index + 1)); lia|]. intros pages ->. apply runs_ret.
  rewrite (zrange_cons index) by lia. cbn [map]. by replace (index + 1 + Z.of_nat count - 1) with (index + Z.of_nat (S count) - 1) by lia.
Qed.

Lemma readWindow_runs p0 ctx b anchor desiredFirst desiredLast (E : error -> Prop) :
  pager_ok doc p0 -> budget_ok (ro_window (p_options p0)) b ->
  0 <= desiredFirst <= anchor -> anchor <= desiredLast < zlen (st_pages (p_state p0)) ->
  (forall e, cancels ctx e -> E e) -> E virtual_ErrClosed -> E virtual_ErrStaleGeneration ->
  (~ within b (pages_usage (p_state p0) [anchor]) -> E virtual_ErrBudgetExceeded) ->
  runs doc p0 (readWindow env ctx (p_state p0) anchor anchor desiredFirst desiredLast b)
    (fun w => exists first last, window_exact doc p0 (p_state p0) b anchor desiredFirst desiredLast first last w) E.
Proof.
  intros Hp0 [[B1 _] [B2 _] [B3 _] [B4 _]] H1 H2 HE1 HE2 HE3 HE4. unfold readWindow. set (st := p_state p0) in *.
  pose proof (choosePages_spec st b anchor desiredFirst desiredLast H1 H2 B1 B2 B3 B4) as Hc.
  apply runs_of_result; [|intros e He; rewrite He in Hc; destruct Hc as [-> ?]; by apply HE4].
  intros [[[[u first] last] before] after] Ec. rewrite Ec in Hc. destruct Hc as (Hch & -> & -> & ->). destruct (ch_order _ _ _ _ _ _ _ Hch) as [O1 O2].
  eapply runs_bind; [apply (read_pages_runs p0 ctx E Hp0 HE1); fold st; lia|]. fold st. rewrite Z2Nat.id by lia.
  replace (first + (last - first + 1) - 1) with last by lia. intros pages Hpages. apply stateStillCurrent_runs; [done|done|done|].
  apply runs_asks. intros p Hp He. destruct (evolves_fields _ _ He) as (_ & _ & -> & _). apply runs_ret. exists first, last.
  pose proof (range_bytes doc _ st first last (po_state _ _ Hp0) ltac:(lia) ltac:(lia)) as Hb.
  split; try done; cbn [w_Pages w_Revision w_Generation w_Bytes w_Fragments w_Measure w_IndexedThrough w_Complete w_TruncatedBefore w_TruncatedAfter].
  rewrite Hpages, map_map. cbn [pages_usage u_bytes]. rewrite Hb. etransitivity; [|apply (pages_text doc _ st (po_state _ _ Hp0)); lia].
  f_equal. apply map_ext. intros i. unfold pageOf. by destruct (0 <=? _).
Qed.

(** ** Errors *)

(** How a request for a window fails: [bad] says it is none for the state. *)
Inductive window_error (p0 : Pager) (parent : option Context) (revision : Z) (budget : Budget) (bad : pagerState -> Prop) (e : error) : Prop :=
| wr_task : task_error parent e -> window_error p0 parent revision budget bad e
| wr_revision : revision <> p_revision p0 -> e = virtual_ErrRevisionMismatch -> window_error p0 parent revision budget bad e
| wr_stale : e = virtual_ErrStaleGeneration -> window_error p0 parent revision budget bad e
| wr_budget : resolveBudget p0 budget = Err virtual_ErrInvalidRequest -> e = virtual_ErrInvalidRequest -> window_error p0 parent revision budget bad e
| wr_bad p : pager_ok doc p -> evolves p0 p -> bad (p_state p) ->
    e = virtual_ErrInvalidRequest \/ e = virtual_ErrNotFound \/ e = virtual_ErrMeasureUnavailable -> window_error p0 parent revision budget bad e
| wr_exceeded p b i : pager_ok doc p -> evolves p0 p -> resolveBudget p0 budget = Ok b -> 0 <= i < zlen (st_pages (p_state p)) ->
    ~ within b (pages_usage (p_state p) [i]) -> e = virtual_ErrBudgetExceeded -> window_error p0 parent revision budget bad e.

Lemma resolveBudget_evolves p0 p budget : evolves p0 p -> resolveBudget p budget = resolveBudget p0 budget.
Proof. intros He. destruct (evolves_fields _ _ He) as (_ & _ & _ & _ & Ho & _). unfold resolveBudget. by rewrite Ho. Qed.

(** The common end of the three windows: reserve, then read around the anchor. *)
Lemma window_runs p0 p1 parent revision budget b bad anchor desiredFirst desiredLast :
  pager_ok doc p1 -> evolves p0 p1 -> resolveBudget p0 budget = Ok b ->
  0 <= desiredFirst <= anchor -> anchor <= desiredLast < zlen (st_pages (p_state p1)) ->
  runs doc p1 (reserved env (bu_Bytes b) (readWindow env (taskContext lifecycle parent) (p_state p1) anchor anchor desiredFirst desiredLast b))
    (fun w => exists first last, window_exact doc p1 (p_state p1) b anchor desiredFirst desiredLast first last w)
    (window_error p0 (Some parent) revision budget bad).
Proof.
  intros Hp1 He Hb H1 H2. pose proof Hb as Hb1. rewrite <-(resolveBudget_evolves p0 p1) in Hb1 by done. apply resolveBudget_ok in Hb1 as Hok.
  apply reserved_runs; [done|by apply wr_task, te_closed|by apply wr_task, te_busy|destruct (bo_bytes _ _ Hok); lia|].
  apply readWindow_runs; try done.
  - intros e Hc. eapply wr_task, task_cancels, Hc.
  - by apply wr_task, te_closed.
  - by apply wr_stale.
  - intros Hn. eapply wr_exceeded with (i := anchor); try done. lia.
Qed.

(** ** A window around a byte *)

Definition byte_bad (request : ByteWindowRequest) (st : pagerState) : Prop :=
  br_Offset request < 0 \/ br_Before request < 0 \/ br_After request < 0 \/ zlen doc < br_Offset request.

(** The end of the bytes asked for after the offset. *)
Definition byte_end (request : ByteWindowRequest) : Z := Z.min (zlen doc) (br_Offset request + br_After request).

(** The pages of a request: the anchor holds the offset, the first the byte
    [Before] it, the last the last of the [After] bytes behind it. *)
Definition byte_window (p0 : Pager) (request : ByteWindowRequest) (w : Window) : Prop :=
  exists p st b anchor desiredFirst desiredLast first last,
    pager_ok doc p /\ evolves p0 p /\ st = p_state p /\ st_generation st = br_Generation request /\ br_Revision request = p_revision p0 /\
    resolveBudget p0 (br_Budget request) = Ok b /\ page_holds doc st anchor (br_Offset request) /\
    page_holds doc st desiredFirst (br_Offset request - Z.min (br_Offset request) (br_Before request)) /\
    (if br_Offset request <? byte_end request then page_holds doc st desiredLast (byte_end request - 1) else desiredLast = anchor) /\
    window_exact doc p st b anchor desiredFirst desiredLast first last w.

Lemma WindowByByte_runs p0 ctx request : pager_ok doc p0 -> br_After request <= maxInt64 ->
  runs doc p0 (WindowByByte env lifecycle ctx request) (byte_window p0 request)
    (window_error p0 ctx (br_Revision request) (br_Budget request) (byte_bad request)).
Proof.
  intros Hp0 Hmax. unfold WindowByByte. apply withTask_runs; [done|intros; by apply wr_task|]. intros parent ->. cbv zeta.
  destruct ((br_Offset request <? 0) || (br_Before request <? 0) || (br_After request <? 0)) eqn:Eneg.
  { apply runs_fail. apply (wr_bad _ _ _ _ _ _ p0); [done|done| |by left]. unfold byte_bad. lia. }
  apply capture_runs; [done|by apply wr_task, te_closed|intros; by apply wr_revision|by apply wr_stale|].
  intros p Hp He Hrev Hgen. apply runs_asks. intros q _ Hq. destruct (evolves_fields _ _ Hq) as (_ & _ & _ & -> & _). rewrite (po_length _ _ Hp).
  destruct (Z.ltb_spec (zlen doc) (br_Offset request)) as [|Hle].
  { apply runs_fail. apply (wr_bad _ _ _ _ _ _ p0); [done|done| |by left]. unfold byte_bad. lia. }
  apply runs_asks. intros r _ Hr. unfold id. rewrite (resolveBudget_evolves p0 r) by (by etransitivity).
  apply runs_of_result; [|intros e Eb; pose proof (resolveBudget_error _ _ _ Eb) as ->; by apply wr_budget]. intros b Hb.
  set (st := p_state p) in *. pose proof (po_state _ _ Hp) as Hst. fold st in Hst.
  pose proof (pageAtByte_spec doc _ st Hst (br_Offset request) ltac:(lia)) as Ha. set (anchor := pageAtByte _ (br_Offset request) _) in *.
  set (first := if 0 <? br_Before request then _ else anchor).
  assert (page_holds doc st first (br_Offset request - Z.min (br_Offset request) (br_Before request))) as Hf.
  { unfold first. destruct (Z.ltb_spec 0 (br_Before request)); [apply (pageAtByte_spec doc _ st Hst); lia|].
    by replace (br_Offset request - Z.min (br_Offset request) (br_Before request)) with (br_Offset request) by lia. }
  set (last := if 0 <? br_After request then _ else anchor).
  assert (if br_Offset request <? byte_end request then page_holds doc st last (byte_end request - 1) else last = anchor) as Hl.
  { unfold last, byte_end. destruct (Z.ltb_spec 0 (br_After request)); [|rewrite (proj2 (Z.ltb_ge _ _)) by lia; done]. unfold maxInt64 in *.
    set (e := if (_ : bool) then _ else zlen doc). assert (e = Z.min (zlen doc) (br_Offset request + br_After request)) as Ee.
    { unfold e. pose proof (po_range _ _ Hp). unfold maxInt64 in *. destruct (_ && _) eqn:Eg; lia. }
    rewrite <-Ee. destruct (Z.ltb_spec (br_Offset request) e); [|done]. apply (pageBeforeByte_spec doc _ st Hst). lia. }
  clearbody first last. pose proof (holds_mono doc _ st Hst _ _ _ _ Hf Ha ltac:(lia)) as O1.
  assert (anchor <= last < zlen (st_pages st)) as O2.
  { destruct (Z.ltb_spec (br_Offset request) (byte_end request)).
    - split; [apply (holds_mono doc _ st Hst _ _ _ _ Ha Hl); lia|apply Hl].
    - subst last. split; [lia|apply Ha]. }
  eapply runs_imp; [|intros e He'; exact He'|apply (window_runs p0 p parent _ _ b _ anchor first last Hp He Hb); [split; [apply Hf|done]|done]].
  intros w (wf & wl & Hw). exists p, st, b, anchor, first, last, wf, wl. split_and!; try done. by destruct (evolves_fields _ _ He) as (_ & _ & <- & _).
Qed.

(** ** A window around a fragment *)

Definition fragment_bad (request : FragmentWindowRequest) (st : pagerState) : Prop :=
  fq_ID request = ""%string \/ fq_Continuation request < 0 \/ fq_Before request < 0 \/ fq_After request < 0 \/
  ~ In (fq_ID request) (map f_ID (map fm_Fragment (st_fragments st))) \/
  exists k, f_ID (fm_Fragment (fragment_at (st_fragments st) k)) = fq_ID request /\
    fm_pageLast (fragment_at (st_fragments st) k) - fm_pageFirst (fragment_at (st_fragments st) k) < fq_Continuation request.

(** The anchor is a page of the fragment of that name, and the window reaches over
    the pages of the fragments [Before] and [After] it. *)
Definition fragment_window (p0 : Pager) (request : FragmentWindowRequest) (w : Window) : Prop :=
  exists p st b k first last, let fr := fragment_at (st_fragments st) in
    pager_ok doc p /\ evolves p0 p /\ st = p_state p /\ st_generation st = fq_Generation request /\ fq_Revision request = p_revision p0 /\
    resolveBudget p0 (fq_Budget request) = Ok b /\ 0 <= k < zlen (st_fragments st) /\ f_ID (fm_Fragment (fr k)) = fq_ID request /\
    fm_pageFirst (fr k) + fq_Continuation request <= fm_pageLast (fr k) /\
    window_exact doc p st b (fm_pageFirst (fr k) + fq_Continuation request) (fm_pageFirst (fr (Z.max 0 (k - fq_Before request))))
      (fm_pageLast (fr (Z.min (zlen (st_fragments st) - 1) (k + fq_After request)))) first last w.

Lemma WindowByFragment_runs p0 ctx request : pager_ok doc p0 ->
  runs doc p0 (WindowByFragment env lifecycle ctx request) (fragment_window p0 request)
    (window_error p0 ctx (fq_Revision request) (fq_Budget request) (fragment_bad request)).
Proof.
  intros Hp0. unfold WindowByFragment. apply withTask_runs; [done|intros; by apply wr_task|]. intros parent ->.
  destruct (bool_decide (fq_ID request = ""%string) || (fq_Continuation request <? 0) || (fq_Before request <? 0) || (fq_After request <? 0)) eqn:Eneg.
  { apply runs_fail. apply (wr_bad _ _ _ _ _ _ p0); [done|done| |by left]. unfold fragment_bad.
    repeat (apply orb_true_iff in Eneg as [Eneg|Eneg]); [apply bool_decide_eq_true in Eneg; auto|lia..]. }
  repeat (apply orb_false_iff in Eneg as [Eneg ?]).
  apply capture_runs; [done|by apply wr_task, te_closed|intros; by apply wr_revision|by apply wr_stale|].
  intros p Hp He Hrev Hgen. set (st := p_state p) in *. pose proof (po_state _ _ Hp) as Hst. fold st in Hst.
  destruct (st_fragmentByID st !! fq_ID request) as [k|] eqn:Ek.
  2:{ apply runs_fail. apply (wr_bad _ _ _ _ _ _ p); [done|done| |by right; left]. fold st. unfold fragment_bad. do 4 right. left.
      rewrite map_map. intros (f & Ef & Hin)%in_map_iff. apply list_elem_of_In, list_elem_of_lookup in Hin as [j Hj].
      assert (st_fragmentByID st !! fq_ID request = Some (Z.of_nat j)) as Hs by (apply (so_byID _ _ _ Hst); by exists j, f). congruence. }
  apply (so_byID _ _ _ Hst) in Ek as (j & f & -> & Hj & Eid).
  assert (fragment_at (st_fragments st) (Z.of_nat j) = f) as Ef by (unfold fragment_at; rewrite Nat2Z.id; by apply nth_lookup_Some).
  pose proof (lookup_lt_Some _ _ _ Hj) as Hlt.
  apply runs_asks. intros r _ Hr. unfold id. rewrite (resolveBudget_evolves p0 r) by (by etransitivity).
  apply runs_of_result; [|intros e Eb; pose proof (resolveBudget_error _ _ _ Eb) as ->; by apply wr_budget]. intros b Hb. cbv zeta.
  rewrite Ef. destruct (Z.leb_spec (fm_pageLast f - fm_pageFirst f + 1) (fq_Continuation request)).
  { apply runs_fail. apply (wr_bad _ _ _ _ _ _ p); [done|done| |by left]. fold st. unfold fragment_bad. do 5 right. exists (Z.of_nat j). rewrite Ef.
    split; [done|lia]. }
  replace (Z.of_nat j - Z.min (Z.of_nat j) (fq_Before request)) with (Z.max 0 (Z.of_nat j - fq_Before request)) by lia.
  replace (if fq_After request <? zlen (st_fragments st) - 1 - Z.of_nat j then Z.of_nat j + fq_After request else zlen (st_fragments st) - 1)
    with (Z.min (zlen (st_fragments st) - 1) (Z.of_nat j + fq_After request)) by (destruct (Z.ltb_spec (fq_After request) (zlen (st_fragments st) - 1 - Z.of_nat j)); lia).
  set (before := Z.max 0 _). set (after := Z.min _ _). assert (zlen (st_fragments st) = Z.of_nat (length (st_fragments st))) as Hlen by done.
  destruct (fragment_monotone doc _ st Hst before (Z.of_nat j) ltac:(lia) ltac:(lia)) as [M1 _].
  destruct (fragment_monotone doc _ st Hst (Z.of_nat j) after ltac:(lia) ltac:(lia)) as [_ M2].
  destruct (fragment_span doc _ st Hst before ltac:(lia)) as (S1 & _). destruct (fragment_span doc _ st Hst after ltac:(lia)) as (_ & S2 & _).
  rewrite Ef in M1, M2.
  eapply runs_imp; [|intros e He'; exact He'|apply (window_runs p0 p parent _ _ b _ (fm_pageFirst f + fq_Continuation request)
    (fm_pageFirst (fragment_at (st_fragments st) before)) (fm_pageLast (fragment_at (st_fragments st) after)) Hp He Hb); [lia|fold st; lia]].
  intros w (wf & wl & Hw). exists p, st, b, (Z.of_nat j), wf, wl. cbv zeta. rewrite Ef. split_and!; try done; try lia.
  by destruct (evolves_fields _ _ He) as (_ & _ & <- & _).
Qed.

(** ** A window around a measure *)

Definition measure_bad (request : MeasureWindowRequest) (st : pagerState) : Prop :=
  mr_Offset request < 0 \/ mr_Before request < 0 \/ mr_After request < 0 \/ mr_Affinity request = AffinityOther \/
  st_fragments st = [] \/ st_totalMeasure st < mr_Offset request.

(** The end of the measures asked for after the offset. *)
Definition measure_end (request : MeasureWindowRequest) (st : pagerState) : Z := Z.min (st_totalMeasure st) (mr_Offset request + mr_After request).

(** The anchor in the fragment that holds the offset: its first page, or its last
    at the end of all measures and towards what lies before. *)
Definition measure_anchor (st : pagerState) (request : MeasureWindowRequest) (k : Z) : Z :=
  let fragment := fragment_at (st_fragments st) k in
  if (0 <? st_totalMeasure st) && (mr_Offset request =? 0) then fm_pageFirst fragment
  else if (0 <? st_totalMeasure st) && (mr_Offset request =? st_totalMeasure st) then fm_pageLast fragment
  else if bool_decide (mr_Affinity request = AffinityBefore) then fm_pageLast fragment else fm_pageFirst fragment.

(** The window reaches over the pages of the fragments that hold the measures
    asked for. *)
Definition measure_window (p0 : Pager) (request : MeasureWindowRequest) (w : Window) : Prop :=
  exists p st b k anchor kFirst kLast first last, let fr := fragment_at (st_fragments st) in
    pager_ok doc p /\ evolves p0 p /\ st = p_state p /\ st_generation st = mr_Generation request /\ mr_Revision request = p_revision p0 /\
    resolveBudget p0 (mr_Budget request) = Ok b /\ measure_holds st k (mr_Offset request) (mr_Affinity request) /\
    anchor = measure_anchor st request k /\
    (if mr_Offset request - Z.min (mr_Offset request) (mr_Before request) <? mr_Offset request
     then measure_holds st kFirst (mr_Offset request - Z.min (mr_Offset request) (mr_Before request)) AffinityAfter else kFirst = k) /\
    (if mr_Offset request <? measure_end request st then measure_holds st kLast (measure_end request st) AffinityBefore else kLast = k) /\
    window_exact doc p st b anchor (fm_pageFirst (fr kFirst)) (fm_pageLast (fr kLast)) first last w.

Lemma measure_before st options i j x y a a' : state_ok doc options st -> measure_holds st i x a -> measure_holds st j y a' -> x < y -> i <= j.
Proof.
  intros Hst (Hi & H1 & _) (Hj & H2 & _) Hxy. destruct (decide (i <= j)); [done|]. exfalso.
  destruct (fragment_order doc _ st Hst j i ltac:(lia) ltac:(lia)) as (_ & H & _). lia.
Qed.

Lemma WindowByMeasure_runs p0 ctx request : pager_ok doc p0 -> mr_After request <= maxInt64 ->
  runs doc p0 (WindowByMeasure env lifecycle ctx request) (measure_window p0 request)
    (window_error p0 ctx (mr_Revision request) (mr_Budget request) (measure_bad request)).
Proof.
  intros Hp0 Hmax. unfold WindowByMeasure. apply withTask_runs; [done|intros; by apply wr_task|]. intros parent ->. cbv zeta.
  destruct ((mr_Offset request <? 0) || (mr_Before request <? 0) || (mr_After request <? 0) || bool_decide (mr_Affinity request = AffinityOther)) eqn:Eneg.
  { apply runs_fail. apply (wr_bad _ _ _ _ _ _ p0); [done|done| |by left]. unfold measure_bad.
    apply orb_true_iff in Eneg as [Eneg|Eneg%bool_decide_eq_true]; [lia|auto]. }
  apply orb_false_iff in Eneg as [Eneg _].
  apply capture_runs; [done|by apply wr_task, te_closed|intros; by apply wr_revision|by apply wr_stale|].
  intros p Hp He Hrev Hgen. set (st := p_state p) in *. pose proof (po_state _ _ Hp) as Hst. fold st in Hst.
  destruct (Z.eqb_spec (zlen (st_fragments st)) 0) as [E0|Hm].
  { apply runs_fail. apply (wr_bad _ _ _ _ _ _ p); [done|done| |by right; right]. fold st. unfold measure_bad. do 4 right. left. by apply zlen_zero. }
  pose proof (zlen_nonneg (st_fragments st)). destruct (Z.ltb_spec (st_totalMeasure st) (mr_Offset request)).
  { apply runs_fail. apply (wr_bad _ _ _ _ _ _ p); [done|done| |by left]. fold st. unfold measure_bad. by do 5 right. }
  apply runs_asks. intros r _ Hr. unfold id. rewrite (resolveBudget_evolves p0 r) by (by etransitivity).
  apply runs_of_result; [|intros e Eb; pose proof (resolveBudget_error _ _ _ Eb) as ->; by apply wr_budget]. intros b Hb.
  assert (forall x a, 0 <= x <= st_totalMeasure st -> measure_holds st (fragmentAtMeasure (st_fragments st) x a) x a) as Hat
    by (intros; apply (fragmentAtMeasure_spec doc _ st Hst); lia).
  pose proof (Hat (mr_Offset request) (mr_Affinity request) ltac:(lia)) as Hk. set (k := fragmentAtMeasure _ (mr_Offset request) _) in *.
  fold (measure_anchor st request k).
  assert (measure_anchor st request k = fm_pageFirst (fragment_at (st_fragments st) k) \/ measure_anchor st request k = fm_pageLast (fragment_at (st_fragments st) k)) as Hanchor.
  { unfold measure_anchor. destruct (_ && _); [auto|]. destruct (_ && _); [auto|]. destruct (bool_decide _); auto. }
  set (start := mr_Offset request - Z.min (mr_Offset request) (mr_Before request)) in *.
  set (kFirst := if 0 <? mr_Before request then _ else k).
  assert (if start <? mr_Offset request then measure_holds st kFirst start AffinityAfter else kFirst = k) as Hf.
  { unfold kFirst. destruct (Z.ltb_spec 0 (mr_Before request)); [destruct (Z.ltb_spec start (mr_Offset request)); [apply Hat; unfold start; lia|done]|].
    by rewrite (proj2 (Z.ltb_ge start _)) by (unfold start; lia). }
  set (kLast := if 0 <? mr_After request then _ else k).
  assert (if mr_Offset request <? measure_end request st then measure_holds st kLast (measure_end request st) AffinityBefore else kLast = k) as Hl.
  { unfold kLast, measure_end. destruct (Z.ltb_spec 0 (mr_After request)); [|by rewrite (proj2 (Z.ltb_ge _ _)) by lia].
    set (e := if (_ : bool) then mr_Offset request + mr_After request else st_totalMeasure st). assert (e = Z.min (st_totalMeasure st) (mr_Offset request + mr_After request)) as Ee.
    { unfold e. pose proof (so_total _ _ _ Hst) as Et. pose proof (fv_total _ _ _ (so_valid _ _ _ Hst)) as Hmx. unfold maxInt64 in *. destruct (_ && _) eqn:Eg; lia. }
    rewrite <-Ee. destruct (Z.ltb_spec (mr_Offset request) e); [apply Hat; lia|done]. }
  remember (measure_anchor st request k) as anchor eqn:Ea. clearbody kFirst kLast. destruct Hk as (Hk & Hk1 & Hk2).
  assert (0 <= kFirst <= k) as O1.
  { destruct (Z.ltb_spec start (mr_Offset request)); [|lia]. split; [apply Hf|]. eapply (measure_before st _ _ _ start (mr_Offset request)); try done. }
  assert (k <= kLast < zlen (st_fragments st)) as O2.
  { destruct (Z.ltb_spec (mr_Offset request) (measure_end request st)); [|lia]. split; [|apply Hl].
    eapply (measure_before st _ _ _ (mr_Offset request) (measure_end request st)); try done. }
  destruct (fragment_monotone doc _ st Hst kFirst k O1 ltac:(lia)) as [M1 _]. destruct (fragment_monotone doc _ st Hst k kLast ltac:(lia) ltac:(lia)) as [_ M2].
  destruct (fragment_span doc _ st Hst kFirst ltac:(lia)) as (S1 & _). destruct (fragment_span doc _ st Hst kLast ltac:(lia)) as (_ & S2 & _).
  destruct (fragment_span doc _ st Hst k ltac:(lia)) as (S3 & _).
  eapply runs_imp; [|intros e He'; exact He'|apply (window_runs p0 p parent _ _ b _ anchor (fm_pageFirst (fragment_at (st_fragments st) kFirst))
    (fm_pageLast (fragment_at (st_fragments st) kLast)) Hp He Hb); [lia|fold st; lia]].
  intros w (wf & wl & Hw). exists p, st, b, k, anchor, kFirst, kLast, wf, wl. cbv zeta. split_and!; try done; try lia.
  by destruct (evolves_fields _ _ He) as (_ & _ & <- & _).
Qed.

(** ** Reading one page again *)

(** The key of a page of this pager's state; no other key is answered. *)
Definition key_bad (p0 : Pager) (key : PageKey) (st : pagerState) : Prop :=
  k_identity key <> p_identity p0 \/ ~ (0 <= k_Index key < zlen (st_pages st)) \/
  k_Start key <> pm_start (page_at (st_pages st) (k_Index key)) \/ k_End key <> pm_end (page_at (st_pages st) (k_Index key)).

Definition page_answer (p0 : Pager) (key : PageKey) (page : Page) : Prop := exists p st,
  pager_ok doc p /\ evolves p0 p /\ st = p_state p /\ g_Key page = key /\ 0 <= k_Index key < zlen (st_pages st) /\
  page = pageOf p st (k_Index key) (page_bytes doc (page_at (st_pages st) (k_Index key))).

Lemma ReadPage_runs p0 ctx key : pager_ok doc p0 ->
  runs doc p0 (ReadPage env lifecycle ctx key) (page_answer p0 key)
    (window_error p0 ctx (k_Revision key) (ro_window (p_options p0)) (key_bad p0 key)).
Proof.
  intros Hp0. unfold ReadPage. apply withTask_runs; [done|intros; by apply wr_task|]. intros parent ->.
  apply capture_runs; [done|by apply wr_task, te_closed|intros; by apply wr_revision|by apply wr_stale|].
  intros p Hp He Hrev Hgen. apply runs_poll; [intros e Hc; eapply wr_task, task_cancels, Hc|].
  apply runs_asks. intros q _ Hq. destruct (evolves_fields _ _ Hq) as (_ & -> & _).
  destruct (evolves_fields _ _ He) as (_ & Hid & Hr & _). rewrite Hid.
  assert (forall A (Q : A -> Prop), key_bad p0 key (p_state p) ->
    runs doc p (vfail virtual_ErrInvalidRequest) Q (window_error p0 (Some parent) (k_Revision key) (ro_window (p_options p0)) (key_bad p0 key))) as Hbad
    by (intros A Q Hb; apply runs_fail; apply (wr_bad _ _ _ _ _ _ p); auto).
  destruct (Z.eqb_spec (k_identity key) (p_identity p0)) as [Ei|]; cbn [negb]; [|apply Hbad; by left].
  destruct ((k_Index key <? 0) || (zlen (st_pages (p_state p)) <=? k_Index key)) eqn:Er; [apply Hbad; right; left; lia|]. cbv zeta.
  destruct (Z.eqb_spec (k_Start key) (pm_start (page_at (st_pages (p_state p)) (k_Index key)))) as [Es|]; cbn [negb orb]; [|apply Hbad; by right; right; left].
  destruct (Z.eqb_spec (k_End key) (pm_end (page_at (st_pages (p_state p)) (k_Index key)))) as [Ee|]; cbn [negb]; [|apply Hbad; by right; right; right].
  pose proof (page_lookup (p_state p) (k_Index key) ltac:(lia)) as Hl. pose proof (page_range _ _ _ _ _ (po_state _ _ Hp) Hl).
  apply reserved_runs; [done|by apply wr_task, te_closed|by apply wr_task, te_busy|lia|].
  pose proof (readMeta_runs doc env Henv p (taskContext lifecycle parent) (Z.to_nat (k_Index key)) _
    (window_error p0 (Some parent) (k_Revision key) (ro_window (p_options p0)) (key_bad p0 key)) Hp Hl
    (fun e Hc => wr_task _ _ _ _ _ _ (task_cancels lifecycle parent e Hc))) as Hread. rewrite Z2Nat.id in Hread by lia.
  eapply runs_bind; [exact Hread|]. intros page ->. apply stateStillCurrent_runs; [done|by apply wr_task, te_closed|by apply wr_stale|].
  apply runs_ret. exists p, (p_state p). split_and!; try done; try lia.
  unfold pageOf. destruct (0 <=? pm_fragment _); cbn; rewrite <-Hrev, <-Hgen, <-Es, <-Ee, Hid, <-Ei; by destruct key.
Qed.
End Windows.

(** ** The windows *)

(** C33. A window around a byte, whatever the other goroutines do meanwhile within
    the rules: the invariant is kept, and the answer is one of the errors told -
    a budget too small for the anchor page alone among them - or a window of one
    generation that the pager had: consecutive pages with exactly their text
    around the page of the offset, from the page of the byte [Before] it to the
    page of the last of the [After] bytes behind it, within the budget in bytes,
    pages, fragments and measure, all of which are told exactly, and cut short -
    as told - only where one more page would exceed the budget. *)
Theorem WindowByByte_correct doc env lifecycle p ctx request k : pager_ok doc p -> env_ok doc env -> br_After request <= maxInt64 ->
  let '(_, p', r) := WindowByByte env lifecycle ctx request k p in
  pager_ok doc p' /\ evolves p p' /\
  match r with
  | Ok w => byte_window doc p request w
  | Err e => window_error doc p ctx (br_Revision request) (br_Budget request) (byte_bad doc request) e
  end.
Proof. intros Hp Henv Hm. by apply (WindowByByte_runs doc env Henv lifecycle p ctx request Hp Hm). Qed.

Lemma WindowByByte_correct_witness :
  match WindowByByte quiet (fun _ => false) (Some never) (mkByteRequest 3 1 6 3 1 (mkBudget 8 0 0 0)) 0%nat ex_published with
  | (_, p', Ok w) => byte_window ex_doc ex_published (mkByteRequest 3 1 6 3 1 (mkBudget 8 0 0 0)) w /\
      (w_Bytes w, w_Measure w, w_TruncatedBefore w, w_TruncatedAfter w, map g_Content (w_Pages w)) =
        (8, 30, false, false, [[Byte.x61; Byte.x62; Byte.x63; newline]; [Byte.x64]; [Byte.xc3; Byte.xa9; Byte.x66]])
  | _ => False
  end.
Proof.
  pose proof (WindowByByte_correct ex_doc quiet (fun _ => false) ex_published (Some never) (mkByteRequest 3 1 6 3 1 (mkBudget 8 0 0 0)) 0%nat
    ex_published_ok (quiet_ok ex_doc) ltac:(vm_compute; discriminate)) as H.
  destruct (WindowByByte quiet (fun _ => false) (Some never) (mkByteRequest 3 1 6 3 1 (mkBudget 8 0 0 0)) 0%nat ex_published) as [[k p'] [w|e]] eqn:E;
    [|exfalso; vm_compute in E; discriminate E].
  split; [apply H|]. vm_compute in E. injection E as _ _ <-. reflexivity.
Defined.

(** C37. A window around a fragment, under the same interference: one of the errors
    told, or a window as above whose anchor is the asked continuation page of the
    fragment of that name, from the first page of the fragment [Before] it to the
    last page of the fragment [After] it, as far as there are any. *)
Theorem WindowByFragment_correct doc env lifecycle p ctx request k : pager_ok doc p -> env_ok doc env ->
  let '(_, p', r) := WindowByFragment env lifecycle ctx request k p in
  pager_ok doc p' /\ evolves p p' /\
  match r with
  | Ok w => fragment_window doc p request w
  | Err e => window_error doc p ctx (fq_Revision request) (fq_Budget request) (fragment_bad request) e
  end.
Proof. intros Hp Henv. by apply (WindowByFragment_runs doc env Henv lifecycle p ctx request Hp). Qed.

Lemma WindowByFragment_correct_witness :
  match WindowByFragment quiet (fun _ => false) (Some never) (mkFragmentRequest 3 1 "y" 1 1 5 (mkBudget 5 0 0 0)) 0%nat ex_published with
  | (_, p', Ok w) => fragment_window ex_doc ex_published (mkFragmentRequest 3 1 "y" 1 1 5 (mkBudget 5 0 0 0)) w /\
      (w_Bytes w, w_Measure w, w_TruncatedBefore w, w_TruncatedAfter w, map g_Content (w_Pages w)) =
        (5, 30, true, false, [[Byte.x64]; [Byte.xc3; Byte.xa9; Byte.x66]; [newline]])
  | _ => False
  end.
Proof.
  pose proof (WindowByFragment_correct ex_doc quiet (fun _ => false) ex_published (Some never) (mkFragmentRequest 3 1 "y" 1 1 5 (mkBudget 5 0 0 0)) 0%nat
    ex_published_ok (quiet_ok ex_doc)) as H.
  destruct (WindowByFragment quiet (fun _ => false) (Some never) (mkFragmentRequest 3 1 "y" 1 1 5 (mkBudget 5 0 0 0)) 0%nat ex_published) as [[k p'] [w|e]] eqn:E;
    [|exfalso; vm_compute in E; discriminate E].
  split; [apply H|]. vm_compute in E. injection E as _ _ <-. reflexivity.
Defined.

(** A window around a measure, under the same interference: one of the errors
    told, or a window as above whose anchor is the first or the last page of the
    fragment that holds the offset on the side of the affinity, over the pages of
    the fragments that hold the measures [Before] and [After] it. *)
Theorem WindowByMeasure_correct doc env lifecycle p ctx request k : pager_ok doc p -> env_ok doc env -> mr_After request <= maxInt64 ->
  let '(_, p', r) := WindowByMeasure env lifecycle ctx request k p in
  pager_ok doc p' /\ evolves p p' /\
  match r with
  | Ok w => measure_window doc p request w
  | Err e => window_error doc p ctx (mr_Revision request) (mr_Budget request) (measure_bad request) e
  end.
Proof. intros Hp Henv Hm. by apply (WindowByMeasure_runs doc env Henv lifecycle p ctx request Hp Hm). Qed.

Lemma WindowByMeasure_correct_witness :
  match WindowByMeasure quiet (fun _ => false) (Some never) (mkMeasureRequest 3 1 10 AffinityAfter 0 1 (mkBudget 0 0 0 0)) 0%nat ex_published with
  | (_, p', Ok w) => measure_window ex_doc ex_published (mkMeasureRequest 3 1 10 AffinityAfter 0 1 (mkBudget 0 0 0 0)) w /\
      (w_Bytes w, w_Measure w, w_Fragments w, map g_FragmentID (w_Pages w)) = (4, 20, 1, ["y"; "y"]%string)
  | _ => False
  end.
Proof.
  pose proof (WindowByMeasure_correct ex_doc quiet (fun _ => false) ex_published (Some never) (mkMeasureRequest 3 1 10 AffinityAfter 0 1 (mkBudget 0 0 0 0)) 0%nat
    ex_published_ok (quiet_ok ex_doc) ltac:(vm_compute; discriminate)) as H.
  destruct (WindowByMeasure quiet (fun _ => false) (Some never) (mkMeasureRequest 3 1 10 AffinityAfter 0 1 (mkBudget 0 0 0 0)) 0%nat ex_published) as [[k p'] [w|e]] eqn:E;
    [|exfalso; vm_compute in E; discriminate E].
  split; [apply H|]. vm_compute in E. injection E as _ _ <-. reflexivity.
Defined.
