(* ===== verification/VirtualProgress.v ===== *)
(** * Progress of a publication

    What the observer of a pager is handed: one start, strict advances within the
    bounds of the request, and one end that tells the outcome; for [Publish] and
    for [Refresh] against any interference. *)

From Stdlib Require Import ZArith Lia List.
From stdpp Require Import base list numbers gmap strings.
From S2P Require Import Prelude GoLib Utf8 Polling Events Virtual VirtualPages VirtualPublish VirtualPager.
#[local] Open Scope Z_scope.

(** ** What one operation emits *)

Definition same_operation (v w : Progress) : Prop :=
  vp_OperationID w = vp_OperationID v /\ vp_Kind w = vp_Kind v /\ vp_Revision w = vp_Revision v /\
  vp_BaseGeneration w = vp_BaseGeneration v /\ vp_ByteLength w = vp_ByteLength v.

(** [w] may follow [v]: it is not behind, not the same, and within the bounds. *)
Definition advances (maximum : Z) (v w : Progress) : Prop :=
  same_operation v w /\ vp_Stage w = ProgressAdvanced /\ vp_Published w = false /\ vp_Cause w = None /\
  vp_IndexedThrough v <= vp_IndexedThrough w <= vp_ByteLength v /\ vp_Fragments v <= vp_Fragments w <= maximum /\
  (vp_IndexedThrough v < vp_IndexedThrough w \/ vp_Fragments v < vp_Fragments w).

Fixpoint progression (maximum : Z) (v : Progress) (l : list Progress) : Prop :=
  match l with
  | [] => True
  | w :: l => advances maximum v w /\ progression maximum w l
  end.

(** The last of them. *)
Fixpoint latest (v : Progress) (l : list Progress) : Progress :=
  match l with [] => v | w :: l => latest w l end.

Lemma progression_snoc maximum l w : forall v, progression maximum v l -> advances maximum (latest v l) w -> progression maximum v (l ++ [w]).
Proof.
  induction l as [|u l IH]; intros v; cbn [progression app]; [done|]. intros [H1 H2] H3. split; [done|]. by apply IH.
Qed.

(** The end of an operation: what it published, or why it failed. *)
Definition ends (v : Progress) (r : result Stats) (w : Progress) : Prop :=
  same_operation v w /\
  match r with
  | Ok stats => vp_Stage w = ProgressCompleted /\ vp_PublishedGeneration w = s_Generation stats /\ vp_IndexedThrough w = s_IndexedThrough stats /\
      vp_Fragments w = s_Fragments stats /\ vp_Complete w = s_Complete stats /\ vp_Published w = true /\ vp_Cause w = None
  | Err e => vp_Stage w = ProgressFailed /\ vp_Published w = false /\ vp_Cause w = Some e /\
      vp_IndexedThrough v <= vp_IndexedThrough w /\ vp_Fragments v <= vp_Fragments w
  end.

(** An operation in progress: what was emitted led to its value. *)
Record in_progress (maximum : Z) (started : Progress) (o : progressOperation) : Prop := {
  ip_open : po_finished o = false;
  ip_maximum : po_maxFragments o = maximum;
  ip_clean : vp_Published (po_value o) = false /\ vp_Cause (po_value o) = None;
  ip_emitted : exists l, progression maximum started l /\ po_value o = latest started l /\
    po_emitted o = if po_observer o then started :: l else [] }.

(** The whole of what was emitted. *)
Definition trace (maximum : Z) (started : Progress) (r : result Stats) (o : progressOperation) : Prop :=
  po_finished o = true /\ po_reporting o = false /\
  exists l w, progression maximum started l /\ ends (latest started l) r w /\
    po_emitted o = if po_observer o then started :: l ++ [w] else [].

Lemma last_snoc l w : forall v, latest v (l ++ [w]) = w.
Proof. induction l as [|u l IH]; intros v; cbn; [done|apply IH]. Qed.

Lemma report_in_progress maximum started polled p o : in_progress maximum started o -> in_progress maximum started (report polled p o).1.
Proof.
  intros H. pose proof H as [H1 H2 [H3 H4] (l & H5 & H6 & H7)]. unfold report. destruct (_ || _); [done|].
  destruct (po_reportError o); [done|]. destruct polled; [by split; [..|exists l]|].
  destruct (_ || _) eqn:Eb; [by split; [..|exists l]|]. destruct (_ && _) eqn:Es; [done|]. cbn [fst].
  set (w := advanced _ _ _). assert (advances maximum (po_value o) w) as Hw.
  { repeat (apply orb_false_iff in Eb as [Eb ?]). unfold advances. subst w. cbn. split_and!; try done; lia. }
  split; [done|done|done|]. exists (l ++ [w]). cbn. rewrite last_snoc. split_and!; [apply progression_snoc; [done|by rewrite <-H6]|done|].
  unfold emitLocked, set_value. cbn. rewrite H7. by destruct (po_observer o).
Qed.

Lemma report_observer polled p o : po_observer (report polled p o).1 = po_observer o.
Proof.
  unfold report. destruct (_ || _); [done|]. destruct (po_reportError o); [done|]. destruct polled; [done|]. destruct (_ || _); [done|].
  by destruct (_ && _).
Qed.

(** After the end, or after the provider has returned, a report changes nothing. *)
Lemma report_late polled p o : po_reporting o = false \/ po_finished o = true -> report polled p o = (o, Some virtual_ErrStaleGeneration).
Proof. unfold report. intros [-> | ->]; [done|]. by rewrite orb_true_r. Qed.

(** Reports in order: each within the text and the limit, none behind the one before
    it (the first not behind [indexed] and [fragments]), and the result not behind
    the last. *)
Fixpoint orderly (length maximum indexed fragments : Z) (reports : list FragmentProgress) (result : FragmentResult) : Prop :=
  match reports with
  | [] => indexed <= fr_IndexedThrough result /\ fragments <= zlen (fr_Fragments result)
  | p :: reports =>
    indexed <= fp_IndexedThrough p <= length /\ fragments <= fp_Fragments p <= maximum /\
    orderly length maximum (fp_IndexedThrough p) (fp_Fragments p) reports result
  end.

(** The reports that tell something new. *)
Fixpoint news (indexed fragments : Z) (reports : list FragmentProgress) : list (Z * Z) :=
  match reports with
  | [] => []
  | p :: reports =>
    if (fp_IndexedThrough p =? indexed) && (fp_Fragments p =? fragments) then news indexed fragments reports
    else (fp_IndexedThrough p, fp_Fragments p) :: news (fp_IndexedThrough p) (fp_Fragments p) reports
  end.

Definition position (v : Progress) : Z * Z := (vp_IndexedThrough v, vp_Fragments v).

(** A refused report refuses all that follow. *)
Lemma run_reports_sticky ctx reports : forall o k k' o' e, run_reports ctx reports o k = (k', Ok o') ->
  po_reportError o = Some e -> po_reportError o' = Some e.
Proof.
  induction reports as [|p reports IH]; intros o k k' o' e; cbn [run_reports]; [by intros [= _ <-]|]. intros H Ho.
  apply (IH _ _ _ _ _ H). unfold report. destruct (_ || _); [done|]. by rewrite Ho.
Qed.

(** If none was refused, they came in order and what was new was told. *)
Lemma run_reports_told ctx reports result : forall o k k' o', run_reports ctx reports o k = (k', Ok o') ->
  po_reporting o = true -> po_finished o = false -> po_reportError o' = None ->
  vp_IndexedThrough (po_value o') <= fr_IndexedThrough result -> vp_Fragments (po_value o') <= zlen (fr_Fragments result) ->
  orderly (vp_ByteLength (po_value o)) (po_maxFragments o) (vp_IndexedThrough (po_value o)) (vp_Fragments (po_value o)) reports result /\
  map position (po_emitted o') = map position (po_emitted o) ++
    (if po_observer o then news (vp_IndexedThrough (po_value o)) (vp_Fragments (po_value o)) reports else []).
Proof.
  induction reports as [|p reports IH]; intros o k k' o'; cbn [run_reports orderly news].
  { intros [= _ <-] _ _ _ Hi Hn. split; [done|]. destruct (po_observer o); by rewrite app_nil_r. }
  intros H Hrep Hfin Herr Hi Hn. pose proof (run_reports_sticky _ _ _ _ _ _ virtual_ErrInvalidPublication H) as Hst.
  assert (forall e, po_reportError (report (ctx k) p o).1 = Some e -> False) as Hnone.
  { intros e He. pose proof (run_reports_sticky _ _ _ _ _ _ e H He). congruence. }
  specialize (IH _ _ _ _ H). revert IH Hnone. clear H Hst. unfold report. rewrite Hrep, Hfin. cbn [negb orb].
  destruct (po_reportError o) as [e|] eqn:Ee; [intros _ Hnone; by destruct (Hnone e)|].
  destruct (ctx k) as [e|]; [intros _ Hnone; by destruct (Hnone e)|].
  destruct (_ || _) eqn:Eb; [intros _ Hnone; by destruct (Hnone virtual_ErrInvalidPublication)|]. intros IH _.
  repeat (apply orb_false_iff in Eb as [Eb ?]). destruct (_ && _) eqn:Es; cbn [fst] in IH.
  - apply andb_true_iff in Es as [Es1 Es2]. destruct IH as [I1 I2]; try done. rewrite I2.
    replace (fp_IndexedThrough p) with (vp_IndexedThrough (po_value o)) in * by lia. replace (fp_Fragments p) with (vp_Fragments (po_value o)) in * by lia.
    split; [split_and!; try lia; exact I1|done].
  - destruct IH as [I1 I2]; try done. unfold emitLocked, set_value, advanced in *. cbn in I1, I2. split; [split_and!; try lia; exact I1|].
    rewrite I2. destruct (po_observer o); [|done]. by rewrite map_app, <-app_assoc.
Qed.

Lemma run_reports_in_progress ctx maximum started reports : forall o k, in_progress maximum started o ->
  exists k' o', run_reports ctx reports o k = (k', Ok o') /\ in_progress maximum started o' /\ po_observer o' = po_observer o.
Proof.
  induction reports as [|p reports IH]; intros o k H; cbn [run_reports]; [by exists k, o|].
  destruct (IH (report (ctx k) p o).1 (S k)) as (k' & o' & E & H1 & H2); [by apply report_in_progress|]. exists k', o'.
  split_and!; [done|done|]. by rewrite H2, report_observer.
Qed.

(** Why a provider's reports were refused. *)
Definition report_failure (ctx : Context) (e : error) : Prop := e = virtual_ErrInvalidPublication \/ cancels ctx e.

Lemma run_reports_failure ctx reports : forall o k, (forall e, po_reportError o = Some e -> report_failure ctx e) ->
  forall o' k', run_reports ctx reports o k = (k', Ok o') -> forall e, po_reportError o' = Some e -> report_failure ctx e.
Proof.
  induction reports as [|p reports IH]; intros o k Ho o' k'; cbn [run_reports]; [by intros [= _ <-]|].
  apply IH. unfold report. destruct (_ || _); [done|]. destruct (po_reportError o) eqn:Er; [cbn; by rewrite Er|].
  destruct (ctx k) as [e'|] eqn:Ek; [cbn; intros e [= <-]; right; by exists k|].
  destruct (_ || _); [cbn; intros e [= <-]; by left|]. destruct (_ && _); cbn; by rewrite Er.
Qed.

(** How a delivery fails before it is published. *)
Definition delivery_error (ctx : Context) (providerErr : option error) (e : error) : Prop :=
  providerErr = Some e \/ e = virtual_ErrInvalidPublication \/
  exists e1, report_failure ctx e1 /\ errors_Join (Some e1) providerErr = Some e.

Lemma finishProvider_error ctx result providerErr o : (forall e, po_reportError o = Some e -> report_failure ctx e) ->
  forall e, (finishProvider result providerErr o).2 = Some e -> delivery_error ctx providerErr e.
Proof.
  intros Ho e. unfold finishProvider. destruct (po_reportError o) as [e1|] eqn:Er; [cbn; intros He; right; right; exists e1; auto|].
  destruct providerErr as [e1|]; [by left|]. destruct (_ || _); [|done]. cbn. intros [= <-]. by right; left.
Qed.

Lemma finishProvider_observer result err o : po_observer (finishProvider result err o).1 = po_observer o.
Proof. unfold finishProvider. destruct (po_reportError o); [done|]. destruct err; [done|]. by destruct (_ || _). Qed.
Lemma finish_observer r o : po_observer (finish r o) = po_observer o.
Proof. unfold finish. destruct (po_finished o); [done|]. by destruct r. Qed.

(** The provider has returned: nothing is emitted, nothing goes back. *)
Definition returned (maximum : Z) (started : Progress) (o : progressOperation) : Prop :=
  po_finished o = false /\ vp_Published (po_value o) = false /\ vp_Cause (po_value o) = None /\
  exists l, progression maximum started l /\ same_operation (latest started l) (po_value o) /\
    vp_IndexedThrough (latest started l) <= vp_IndexedThrough (po_value o) /\ vp_Fragments (latest started l) <= vp_Fragments (po_value o) /\
    po_emitted o = if po_observer o then started :: l else [].

Lemma in_progress_returned maximum started o : in_progress maximum started o -> returned maximum started o.
Proof. intros [H1 _ [H2 H3] (l & H4 & H5 & H6)]. split_and!; try done. exists l. rewrite <-H5. split_and!; try done. Qed.

Lemma finishProvider_returned maximum started result providerErr o : in_progress maximum started o ->
  let '(o', err) := finishProvider result providerErr o in
  returned maximum started o' /\
  (err = None -> providerErr = None /\ vp_IndexedThrough (po_value o') = fr_IndexedThrough result /\ vp_Fragments (po_value o') = zlen (fr_Fragments result)).
Proof.
  intros [H1 _ [H2 H3] (l & H4 & H5 & H6)]. unfold finishProvider.
  assert (returned maximum started (stop_reporting (po_value o) o)) as Hstop.
  { split_and!; try done. exists l. cbn. rewrite <-H5. split_and!; try done. }
  destruct (po_reportError o); [split; [done|by destruct providerErr]|]. destruct providerErr; [done|].
  destruct (_ || _) eqn:E; [done|]. split; [|done]. split_and!; try done. exists l. cbn. rewrite <-H5. split_and!; try done; lia.
Qed.

(** What a provider's return leaves to be checked: no report was refused, and the
    result is not behind. *)
Lemma finishProvider_ok result providerErr o o' : finishProvider result providerErr o = (o', None) ->
  po_reportError o = None /\ vp_IndexedThrough (po_value o) <= fr_IndexedThrough result /\ vp_Fragments (po_value o) <= zlen (fr_Fragments result) /\
  po_emitted o' = po_emitted o /\ po_observer o' = po_observer o /\ po_finished o' = po_finished o.
Proof.
  unfold finishProvider. destruct (po_reportError o); [by destruct providerErr|]. destruct providerErr; [done|].
  destruct (_ || _) eqn:E; [done|]. intros [= <-]. split_and!; try done; lia.
Qed.

Lemma finish_emitted stats o : po_finished o = false ->
  map position (po_emitted (finish (Ok stats) o)) =
  map position (po_emitted o) ++ (if po_observer o then [(s_IndexedThrough stats, s_Fragments stats)] else []).
Proof. unfold finish. intros ->. cbn. destruct (po_observer o); [by rewrite map_app|by rewrite app_nil_r]. Qed.

Lemma finish_trace maximum started r o : returned maximum started o -> trace maximum started r (finish r o).
Proof.
  intros (H1 & H2 & H3 & l & H4 & (E1 & E2 & E3 & E4 & E5) & H6 & H7 & H8). unfold trace, finish. rewrite H1. split_and!; [done|done|].
  exists l, (po_value (finish r o)). unfold finish. rewrite H1. split; [done|]. split; [|cbn; rewrite H8; by destruct (po_observer o)].
  split; [by destruct r; split_and!|]. destruct r; cbn; by split_and!.
Qed.

(** ** Publish *)

Section Progress.
Context (doc : list byte) (env : nat -> Pager -> Pager) (Henv : env_ok doc env) (lifecycle : nat -> bool).

(** The first value of an operation of [p0]. *)
Definition starts (p0 : Pager) (kind : ProgressKind) (v : Progress) : Prop :=
  vp_Stage v = ProgressStarted /\ vp_Kind v = kind /\ vp_Revision v = p_revision p0 /\ vp_ByteLength v = zlen doc /\
  vp_IndexedThrough v = 0 /\ vp_Fragments v = 0 /\ vp_Published v = false /\ vp_Cause v = None.

(** An operation of [p0] about which only the start was told. *)
Definition just_started (p0 : Pager) (kind : ProgressKind) (o : progressOperation) : Prop :=
  starts p0 kind (po_value o) /\ po_reporting o = match kind with ProgressRefresh => true | _ => false end /\ po_finished o = false /\
  po_maxFragments o = ro_maximumFragments (p_options p0) /\ po_emitted o = if po_observer o then [po_value o] else [].

Lemma startProgress_runs p0 kind : pager_ok doc p0 ->
  runs doc p0 (startProgress env kind)
    (fun o => match o with
     | None => p_observer p0 = false /\ kind = ProgressPublish
     | Some o => (exists v, starts p0 kind v /\ in_progress (ro_maximumFragments (p_options p0)) v o /\ po_observer o = p_observer p0) /\
         po_reportError o = None /\ just_started p0 kind o
     end)
    (fun e => e = virtual_ErrClosed \/ e = virtual_ErrOperationOverflow).
Proof.
  intros Hp0. unfold startProgress. eapply runs_bind with (Q := fun o => match o with
    | None => p_observer p0 = false /\ kind = ProgressPublish
    | Some o => starts p0 kind (po_value o) /\ po_finished o = false /\ po_maxFragments o = ro_maximumFragments (p_options p0) /\
        po_emitted o = [] /\ po_observer o = p_observer p0 /\ po_reportError o = None /\ po_reporting o = match kind with ProgressRefresh => true | _ => false end
    end).
  - apply runs_lock; [done|]. intros k p Hp He. destruct (evolves_fields _ _ He) as (_ & _ & Hr & Hl & Ho & _).
    assert (p_observer p = p_observer p0) as Hob by (destruct He as [Hi _ _ _]; by injection Hi).
    destruct (p_closed p); [by split_and!; [..|left]|].
    destruct (negb (p_observer p) && ProgressKind_isPublish kind) eqn:Es.
    { split_and!; try done; apply andb_true_iff in Es as [Eo Ek]; [by rewrite <-Hob; destruct (p_observer p)|by destruct kind]. }
    destruct (_ =? _); [by split_and!; [..|right]|]. split; [destruct Hp; by split|]. split; [by apply evolves_same|].
    split; [unfold starts; cbn; rewrite Hr, (po_length _ _ Hp); by split_and!|]. cbn. by rewrite Ho.
  - intros [o|]; [|by intros; apply runs_ret]. intros (H1 & H2 & H3 & H4 & H5 & H6 & H7). apply runs_ret. split.
    2:{ split; [done|]. split; [exact H1|]. split; [exact H7|]. split; [done|]. split; [done|]. cbn. rewrite H4. by destruct (po_observer o). }
    exists (po_value o). split_and!; [done| |done].
    split; [done|done|by split; apply H1|]. exists []. unfold emitLocked. cbn. rewrite H4. by destruct (po_observer o).
Qed.

(** What an observed operation answers: the outcome with what was told, and the whole
    of its progress. *)
Definition observed_answer (p0 : Pager) (kind : ProgressKind) (ok : list Progress -> Stats -> Prop) (bad : error -> Prop)
  (a : option progressOperation * result Stats) : Prop :=
  let '(o, r) := a in
  match o with
  | None => match r with Ok stats => p_observer p0 = false /\ kind = ProgressPublish /\ ok [] stats | Err e => bad e end
  | Some o => (exists v, starts p0 kind v /\ trace (ro_maximumFragments (p_options p0)) v r o /\ po_observer o = p_observer p0) /\
      match r with Ok stats => ok (po_emitted o) stats | Err e => bad e end
  end.

Lemma observed_runs p0 parent kind ok (bad : error -> Prop) body :
  (forall e, task_error parent e -> bad e) ->
  (forall parent', parent = Some parent' -> runs doc p0 (body (taskContext lifecycle parent')) (observed_answer p0 kind ok bad) (fun _ => False)) ->
  runs doc p0 (observed env lifecycle parent body) (observed_answer p0 kind ok bad) (fun _ => False).
Proof.
  intros Hbad Hbody. unfold observed. eapply runs_bind; [apply runs_attempt, acquireTask_runs; done|].
  intros [ctx|e]; [|intros He; apply runs_ret; cbn; auto]. intros (parent' & -> & ->). apply runs_finally; [by apply Hbody|by apply releaseTask_runs].
Qed.

(** Whatever [Publish] may answer on an error. *)
Definition publish_bad (p0 : Pager) (ctx : option Context) (publication : Publication) (e : error) : Prop :=
  task_error ctx e \/ e = virtual_ErrOperationOverflow \/
  exists parent, ctx = Some parent /\ publish_error doc p0 (taskContext lifecycle parent) publication e.

Lemma Publish_runs p0 ctx publication : pager_ok doc p0 -> strings_fit (pu_Fragments publication) ->
  runs doc p0 (Publish env lifecycle ctx publication)
    (observed_answer p0 ProgressPublish (fun _ => published_as doc p0 publication) (publish_bad p0 ctx publication)) (fun _ => False).
Proof.
  intros Hp0 Hfit. unfold Publish. apply observed_runs; [by left|]. intros parent ->.
  eapply runs_bind; [by apply runs_attempt, startProgress_runs|].
  intros [operation|e]; cbn; [|intros [-> | ->]; apply runs_ret; cbn; [left; by apply te_closed|by right; left]].
  intros Hop. eapply runs_bind; [apply runs_attempt, publish_runs; done|]. intros r Hr. apply runs_ret.
  assert (match r with Ok stats => published_as doc p0 publication stats | Err e => publish_bad p0 (Some parent) publication e end) as Ha
    by (destruct r; [done|right; right; by exists parent]).
  destruct operation as [o|]; cbn; [|by destruct r; [destruct Hop|]].
  destruct Hop as [(v & Hv & Hip & Hob) _]. split; [|done]. exists v. split_and!; [done|by apply finish_trace, in_progress_returned|].
  unfold finish. by destruct (po_finished o).
Qed.

(** ** Refresh *)

(** The publication of what a provider delivered. *)
Definition delivery (request : FragmentRequest) (result : FragmentResult) : Publication :=
  mkPublication (rq_Revision request) (rq_BaseGeneration request) (fr_IndexedThrough result) (fr_Complete result) (fr_Fragments result).

(** A request tells the provider of the state that the pager had. *)
Definition asked (p0 : Pager) (request : FragmentRequest) : Prop :=
  rq_Revision request = p_revision p0 /\ rq_ByteLength request = zlen doc /\
  rq_MaxFragments request = ro_maximumFragments (p_options p0) /\ rq_MaxKeyBytes request = ro_maximumKeyBytes (p_options p0) /\
  rq_MaxFragmentMeasure request = bu_Measure (ro_window (p_options p0)) /\ st_generation (p_state p0) <= rq_BaseGeneration request.

(** What was delivered is published, and every report had been in order; an observer
    was told the start, what was new in each report, and what is published. *)
Definition refreshed (p0 : Pager) (provider : option FragmentProvider) (emitted : list Progress) (stats : Stats) : Prop :=
  exists f request result reports,
  provider = Some f /\ asked p0 request /\ f request = (reports, (result, None)) /\
  orderly (zlen doc) (ro_maximumFragments (p_options p0)) 0 0 reports result /\
  published_as doc p0 (delivery request result) stats /\
  map position emitted = if p_observer p0 then (0, 0) :: news 0 0 reports ++ [(s_IndexedThrough stats, s_Fragments stats)] else [].

Definition refresh_bad (p0 : Pager) (ctx : option Context) (provider : option FragmentProvider) (e : error) : Prop :=
  task_error ctx e \/ e = virtual_ErrOperationOverflow \/ (provider = None /\ e = virtual_ErrInvalidPublication) \/
  exists f request reports result err, provider = Some f /\ asked p0 request /\ f request = (reports, (result, err)) /\
    exists parent, ctx = Some parent /\ (delivery_error (taskContext lifecycle parent) err e \/
      publish_error doc p0 (taskContext lifecycle parent) (delivery request result) e).

Lemma Refresh_runs p0 ctx provider : pager_ok doc p0 ->
  (forall f request, provider = Some f -> strings_fit (fr_Fragments (f request).2.1)) ->
  runs doc p0 (Refresh env lifecycle ctx provider)
    (observed_answer p0 ProgressRefresh (refreshed p0 provider) (refresh_bad p0 ctx provider)) (fun _ => False).
Proof.
  intros Hp0 Hfit. unfold Refresh. apply observed_runs; [by left|]. intros parent ->.
  destruct provider as [f|]; [|apply runs_ret; cbn; right; right; by left].
  eapply runs_bind; [by apply runs_attempt, startProgress_runs|].
  intros [[o|]|e]; cbn; [|by intros [_ ?]|intros [-> | ->]; apply runs_ret; cbn; [left; by apply te_closed|by right; left]].
  intros ((v & Hv & Hip & Hob) & Hnoerr & (_ & _ & _ & Hv1 & Hi0 & Hn0 & _) & Hst2 & Hst3 & Hst4 & Hst5).
  eapply runs_bind with (Q := asked p0).
  { apply runs_lock; [done|]. intros k p Hp He. destruct (evolves_fields _ _ He) as (_ & _ & Hr & Hl & Ho & _). split_and!; try done.
    unfold asked. cbn. rewrite Hr, Ho, (po_length _ _ Hp). split_and!; try done. apply He. }
  intros request Hreq. pose proof (Hfit f request eq_refl) as Hstr. destruct (f request) as [reports [result err]] eqn:Ef. cbn in Hstr.
  eapply runs_bind with (Q := fun o' => in_progress (ro_maximumFragments (p_options p0)) v o' /\ po_observer o' = p_observer p0 /\
    (forall e, po_reportError o' = Some e -> report_failure (taskContext lifecycle parent) e) /\ exists k k', run_reports (taskContext lifecycle parent) reports o k = (k', Ok o')).
  { intros k p Hp He. unfold lift. destruct (run_reports_in_progress (taskContext lifecycle parent) _ v reports o k Hip) as (k' & o' & E & H1 & H2).
    rewrite E. split_and!; try done; [congruence| |by exists k, k']. eapply run_reports_failure; [|exact E]. by rewrite Hnoerr. }
  intros o' (Hip' & Hob' & Hfail & k1 & k2 & Hrun). pose proof (finishProvider_returned _ _ result err o' Hip') as Hret.
  assert (po_observer (finishProvider result err o').1 = p_observer p0) as Hob2 by (by rewrite finishProvider_observer).
  assert (forall e, (finishProvider result err o').2 = Some e -> refresh_bad p0 (Some parent) (Some f) e) as Hbad.
  { intros e He. do 3 right. exists f, request, reports, result, err. split_and!; try done. exists parent. split; [done|]. left.
    by eapply finishProvider_error. }
  assert (forall r o2, returned (ro_maximumFragments (p_options p0)) v o2 -> po_observer o2 = p_observer p0 ->
    exists w, starts p0 ProgressRefresh w /\ trace (ro_maximumFragments (p_options p0)) w r (finish r o2) /\ po_observer (finish r o2) = p_observer p0) as Htrace.
  { intros r o2 H1 H2. exists v. split_and!; [done|by apply finish_trace|by rewrite finish_observer]. }
  destruct (finishProvider result err o') as [o2 [e|]] eqn:Hfp; cbn [fst snd] in *; destruct Hret as [Hret Hnone].
  { apply runs_ret. cbn. auto. }
  destruct (Hnone eq_refl) as [-> _].
  eapply runs_bind; [apply runs_attempt, (publish_runs doc env Henv p0 _ (delivery request result)); done|].
  intros r Hr. apply runs_ret. cbn. split; [by apply Htrace|]. destruct r as [stats|e].
  - apply finishProvider_ok in Hfp as (Hf1 & Hf2 & Hf3 & Hf4 & Hf5 & Hf6). cbn in Hst2.
    destruct (run_reports_told _ _ result _ _ _ _ Hrun Hst2 Hst3 Hf1 Hf2 Hf3) as [Hord Htold]. rewrite Hv1, Hi0, Hn0, Hst4 in Hord.
    exists f, request, result, reports. split_and!; try done. rewrite finish_emitted by apply Hret.
    rewrite Hf4, Htold, Hst5, Hob, Hob2, Hi0, Hn0. destruct (p_observer p0); [|done]. cbn. unfold position. by rewrite Hi0, Hn0.
  - do 3 right. exists f, request, reports, result, None. split_and!; try done. exists parent. split; [done|]. by right.
Qed.
End Progress.

(** C35. Refreshing a pager, whatever the other goroutines do meanwhile within the
    rules: the invariant and the generations are kept; the provider is asked with
    the limits and the generation of the pager; the outcome is a publication of
    what it delivered without an error - then every report was within the text and
    the limit and not behind the one before it, since a refused report sticks - or
    one of the errors told; and the observer was handed one start, strict advances
    within the text and the limit, and last one end that is completed with the
    published generation, or failed with the cause.  Before a publication the
    advances are exactly the reports that told something new. *)
Theorem Refresh_correct doc env lifecycle p ctx provider k : pager_ok doc p -> env_ok doc env ->
  (forall f request, provider = Some f -> strings_fit (fr_Fragments (f request).2.1)) ->
  let '(_, p', r) := Refresh env lifecycle ctx provider k p in
  pager_ok doc p' /\ evolves p p' /\
  match r with
  | Ok a => observed_answer doc p ProgressRefresh (refreshed doc p provider) (refresh_bad doc lifecycle p ctx provider) a
  | Err _ => False
  end.
Proof. intros Hp Henv Hfit. by apply (Refresh_runs doc env Henv lifecycle p ctx provider Hp Hfit). Qed.

(** The provider reports twice, once without news. *)
Definition ex_provider : FragmentProvider := fun _ =>
  ([mkFragmentProgress 4 0; mkFragmentProgress 4 0; mkFragmentProgress 9 2], (mkFragmentResult 9 true (pu_Fragments ex_publication), None)).

Lemma Refresh_correct_witness :
  match Refresh quiet (fun _ => false) (Some never) (Some ex_provider) 0%nat ex_pager with
  | (_, p', Ok (Some o, Ok stats)) =>
    pager_ok ex_doc p' /\ refreshed ex_doc ex_pager (Some ex_provider) (po_emitted o) stats /\
    map (fun v => (vp_Stage v, vp_IndexedThrough v, vp_Fragments v, vp_PublishedGeneration v)) (po_emitted o) =
      [(ProgressStarted, 0, 0, 0); (ProgressAdvanced, 4, 0, 0); (ProgressAdvanced, 9, 2, 0); (ProgressCompleted, 9, 2, 1)]
  | _ => False
  end.
Proof.
  pose proof (Refresh_correct ex_doc quiet (fun _ => false) ex_pager (Some never) (Some ex_provider) 0%nat ex_pager_ok (quiet_ok ex_doc)) as H.
  assert (forall f request, Some ex_provider = Some f -> strings_fit (fr_Fragments (f request).2.1)) as Hfit
    by (intros f request Hf; injection Hf as <-; exact ex_fit).
  specialize (H Hfit).
  destruct (Refresh quiet (fun _ => false) (Some never) (Some ex_provider) 0%nat ex_pager) as [[k p'] [[[o|] [stats|e]]|e]] eqn:E;
    try (exfalso; vm_compute in E; discriminate E).
  destruct H as (H1 & _ & _ & H2). split; [exact H1|]. split; [exact H2|].
  pose (emitted := match Refresh quiet (fun _ => false) (Some never) (Some ex_provider) 0%nat ex_pager with
    | (_, _, Ok (Some o, _)) => po_emitted o | _ => [] end).
  assert (po_emitted o = emitted) as -> by (unfold emitted; rewrite E; reflexivity). vm_compute. reflexivity.
Defined.
