(* ===== verification/VirtualTasks.v ===== *)
(** * Tasks and reservations of the virtual pager

    Whatever an operation of a pager answers - a value, an error, a cancellation -
    it gives back the task token and the bytes in flight that it took. *)

From Stdlib Require Import ZArith Lia List.
From stdpp Require Import base list numbers gmap strings.
From S2P Require Import Prelude GoLib Utf8 Polling Events Virtual VirtualPages VirtualPublish VirtualPager.
#[local] Open Scope Z_scope.

(** What a pager owes. *)
Definition owed (p : Pager) : Z * Z := (p_tasks p, p_activeInflightBytes p).

#[local] Arguments owed : simpl never.

Section Balance.
Context (env : nat -> Pager -> Pager) (lifecycle : nat -> bool).

(** Between the operation's steps the others leave no token behind. *)
Hypothesis Henv : forall k p, owed (env k p) = owed p.

Definition balanced {A} (c : V A) : Prop := forall k p, owed (c k p).1.2 = owed p.

Lemma balanced_ret {A} (a : A) : balanced (vret a).
Proof. done. Qed.
Lemma balanced_fail {A} e : balanced (vfail (A := A) e).
Proof. done. Qed.
Lemma balanced_asks {A} (f : Pager -> A) : balanced (asks f).
Proof. done. Qed.
Lemma balanced_of_result {A} (r : result A) : balanced (of_result r).
Proof. done. Qed.
Lemma balanced_lift {A} (c : C A) : balanced (lift c).
Proof. intros k p. unfold lift. by destruct (c k). Qed.
Lemma balanced_bind {A B} (c : V A) (f : A -> V B) : balanced c -> (forall a, balanced (f a)) -> balanced (vbind c f).
Proof.
  intros Hc Hf k p. unfold vbind. pose proof (Hc k p) as H. destruct (c k p) as [[k1 p1] [a|e]]; cbn in *; [|done]. by rewrite Hf.
Qed.
Lemma balanced_attempt {A} (c : V A) : balanced c -> balanced (attempt c).
Proof. intros Hc k p. specialize (Hc k p). unfold attempt. by destruct (c k p) as [[k1 p1] r]. Qed.
Lemma balanced_lock {A} (f : nat -> Pager -> Pager * result A) : (forall k p, owed (f k p).1 = owed p) -> balanced (lock env f).
Proof.
  intros Hf k p. unfold lock. specialize (Hf k (env k p)). destruct (f k (env k p)) as [p' r]. cbn in *. by rewrite Hf.
Qed.

Hint Resolve balanced_ret balanced_fail balanced_asks balanced_of_result balanced_lift balanced_bind balanced_attempt balanced_lock : balance.

(** Taking and giving back. *)
Lemma taken_back {A B} (take : V A) (body : A -> V B) (back : V unit) (d : Z * Z) :
  (forall k p, match (take k p).2 with Ok _ => owed (take k p).1.2 = ((owed p).1 + d.1, (owed p).2 + d.2) | Err _ => owed (take k p).1.2 = owed p end) ->
  (forall k p, owed (back k p).1.2 = ((owed p).1 - d.1, (owed p).2 - d.2)) -> (forall a, balanced (body a)) ->
  balanced (vbind take (fun a => finally (body a) back)).
Proof.
  intros Ht Hb Hbody k p. unfold vbind, finally. specialize (Ht k p). destruct (take k p) as [[k1 p1] [a|e]]; cbn in Ht |- *; [|done].
  pose proof (Hbody a k1 p1) as H1. destruct (body a k1 p1) as [[k2 p2] r]. cbn in H1. pose proof (Hb k2 p2) as H2.
  destruct (back k2 p2) as [[k3 p3] r3]. cbn in H2 |- *. rewrite H2, H1, Ht. destruct (owed p). cbn. f_equal; lia.
Qed.

Lemma acquire_takes parent k p : match (acquireTask env lifecycle parent k p).2 with
  | Ok _ => owed (acquireTask env lifecycle parent k p).1.2 = ((owed p).1 + 1, (owed p).2 + 0)
  | Err _ => owed (acquireTask env lifecycle parent k p).1.2 = owed p end.
Proof.
  unfold acquireTask. destruct parent as [parent|]; [|done]. unfold vbind, lift, lock, cpoll. destruct (parent k) as [e|]; [done|].
  pose proof (Henv (S k) p) as He. destruct (p_closed (env (S k) p)); [done|]. destruct (parent (S k)); [done|].
  destruct (_ <=? _); [done|]. cbn. rewrite <-He. unfold owed. cbn. f_equal. lia.
Qed.
Lemma release_gives k p : owed (releaseTask env k p).1.2 = ((owed p).1 - 1, (owed p).2 - 0).
Proof. unfold releaseTask, lock. cbn. rewrite <-(Henv k p). unfold owed. cbn. f_equal. lia. Qed.

Lemma balanced_withTask {A} parent (body : Context -> V A) : (forall ctx, balanced (body ctx)) -> balanced (withTask env lifecycle parent body).
Proof. intros H. unfold withTask. apply taken_back with (d := (1, 0)); [intros; apply acquire_takes|intros; apply release_gives|done]. Qed.

Lemma balanced_observed parent body : (forall ctx, balanced (body ctx)) -> balanced (observed env lifecycle parent body).
Proof.
  intros H k p. unfold observed, vbind, attempt, finally, vret. pose proof (acquire_takes parent k p) as Ht.
  destruct (acquireTask env lifecycle parent k p) as [[k1 p1] [ctx|e]]; cbn in Ht |- *; [|done].
  pose proof (H ctx k1 p1) as H1. destruct (body ctx k1 p1) as [[k2 p2] r]. cbn in H1. pose proof (release_gives k2 p2) as H2.
  etransitivity; [exact H2|]. rewrite H1, Ht. destruct (owed p). cbn. f_equal; lia.
Qed.

Lemma reserve_takes bytes k p : match (reserveInflight env bytes k p).2 with
  | Ok _ => owed (reserveInflight env bytes k p).1.2 = ((owed p).1 + 0, (owed p).2 + bytes)
  | Err _ => owed (reserveInflight env bytes k p).1.2 = owed p end.
Proof.
  unfold reserveInflight, lock. pose proof (Henv k p) as He. destruct (p_closed (env k p)); [done|]. destruct (_ || _); [done|]. cbn.
  rewrite <-He. unfold owed. cbn. f_equal. lia.
Qed.
Lemma reserve_gives bytes k p : owed (releaseInflight env bytes k p).1.2 = ((owed p).1 - 0, (owed p).2 - bytes).
Proof. unfold releaseInflight, lock. cbn. rewrite <-(Henv k p). unfold owed. cbn. f_equal. lia. Qed.

Lemma balanced_reserved {A} bytes (c : V A) : balanced c -> balanced (reserved env bytes c).
Proof. intros H. unfold reserved. apply taken_back with (d := (0, bytes)); [intros; apply reserve_takes|intros; apply reserve_gives|done]. Qed.
Hint Resolve balanced_reserved : balance.

(** ** The operations *)

Lemma owed_cache cache bytes p : owed (set_cache cache bytes p) = owed p.
Proof. done. Qed.

Lemma balanced_capture revision generation : balanced (capture env revision generation).
Proof. by apply balanced_lock. Qed.
Lemma balanced_current st : balanced (stateStillCurrent env st).
Proof. by apply balanced_lock. Qed.
Hint Resolve balanced_capture balanced_current : balance.

Lemma balanced_cached key : balanced (cached env key).
Proof.
  apply balanced_lock. intros k p. unfold cached_locked. destruct (p_closed p); [done|]. destruct (p_cache p) as [l|]; [|done].
  by destruct (find_entry _ l).
Qed.
Lemma balanced_storeCache generation key data : balanced (storeCache env generation key data).
Proof.
  unfold storeCache. apply balanced_bind; [solve [auto with balance]|]. intros o. destruct (_ || _); [auto with balance|]. apply balanced_lock. intros k p.
  unfold storeCache_locked. destruct (_ || _); [done|]. destruct (p_cache p) as [l|]; [|done]. destruct (find_entry _ l); [done|].
  by destruct (evict _ _ _ _).
Qed.
Hint Resolve balanced_cached balanced_storeCache : balance.

Lemma balanced_readMeta ctx st index : balanced (readMeta env ctx st index).
Proof.
  unfold readMeta. apply balanced_bind; [solve [auto with balance]|]. intros found. apply balanced_bind; [|auto with balance].
  destruct found; [auto with balance|]. repeat (apply balanced_bind; [solve [auto with balance]|intros ?]). auto with balance.
Qed.

Lemma balanced_readWindow ctx st a b c d budget : balanced (readWindow env ctx st a b c d budget).
Proof.
  unfold readWindow. apply balanced_bind; [solve [auto with balance]|]. intros [[[[current first] last] before] after].
  apply balanced_bind; [|intros ?; repeat (apply balanced_bind; [solve [auto with balance]|intros ?]); auto with balance].
  generalize (Z.to_nat (last - first + 1)). intros count. revert first. induction count as [|count IH]; intros first; cbn [read_pages]; [auto with balance|].
  apply balanced_bind; [solve [auto with balance]|]. intros _. apply balanced_bind; [apply balanced_readMeta|]. intros page.
  apply balanced_bind; [apply IH|auto with balance].
Qed.
Hint Resolve balanced_readMeta balanced_readWindow : balance.

Lemma balanced_startProgress kind : balanced (startProgress env kind).
Proof.
  unfold startProgress. apply balanced_bind; [|auto with balance]. apply balanced_lock. intros k p. destruct (p_closed p); [done|].
  destruct (_ && _); [done|]. by destruct (_ =? _).
Qed.

Lemma balanced_publish ctx publication : balanced (publish env ctx publication).
Proof.
  unfold publish. apply balanced_bind; [solve [auto with balance]|]. intros _. apply balanced_bind; [by apply balanced_lock|].
  intros [[revision length] base]. destruct (negb _); [auto with balance|]. destruct (negb _); [auto with balance|]. destruct (_ =? _); [auto with balance|].
  apply balanced_bind; [solve [auto with balance]|]. intros q. apply balanced_bind; [solve [auto with balance]|]. intros [[fragments total] keyBytes].
  apply balanced_bind; [solve [auto with balance]|]. intros [pages metas]. apply balanced_lock. intros k p. destruct (p_closed p); [done|]. by destruct (negb _).
Qed.
Hint Resolve balanced_startProgress balanced_publish : balance.

Lemma balanced_Publish ctx publication : balanced (Publish env lifecycle ctx publication).
Proof.
  apply balanced_observed. intros ctx'. apply balanced_bind; [solve [auto with balance]|]. intros [operation|e]; [|auto with balance].
  apply balanced_bind; auto with balance.
Qed.

Lemma balanced_Refresh ctx provider : balanced (Refresh env lifecycle ctx provider).
Proof.
  apply balanced_observed. intros ctx'. destruct provider as [f|]; [|auto with balance]. apply balanced_bind; [solve [auto with balance]|].
  intros [[o|]|e]; [|auto with balance..]. apply balanced_bind; [by apply balanced_lock|]. intros request. destruct (f request) as [reports [result err]].
  apply balanced_bind; [solve [auto with balance]|]. intros o'. destruct (finishProvider result err o') as [o2 [e|]]; [auto with balance|].
  apply balanced_bind; auto with balance.
Qed.

Lemma balanced_WindowByByte ctx request : balanced (WindowByByte env lifecycle ctx request).
Proof.
  apply balanced_withTask. intros ctx'. cbv zeta. destruct (_ || _); [auto with balance|]. apply balanced_bind; [solve [auto with balance]|]. intros st.
  apply balanced_bind; [solve [auto with balance]|]. intros length. destruct (_ <? _); [auto with balance|].
  repeat (apply balanced_bind; [solve [auto with balance]|intros ?]). auto with balance.
Qed.
Lemma balanced_WindowByFragment ctx request : balanced (WindowByFragment env lifecycle ctx request).
Proof.
  apply balanced_withTask. intros ctx'. destruct (_ || _); [auto with balance|]. apply balanced_bind; [solve [auto with balance]|]. intros st.
  destruct (_ !! _); [|auto with balance]. repeat (apply balanced_bind; [solve [auto with balance]|intros ?]). cbv zeta. destruct (_ <=? _); auto with balance.
Qed.
Lemma balanced_WindowByMeasure ctx request : balanced (WindowByMeasure env lifecycle ctx request).
Proof.
  apply balanced_withTask. intros ctx'. cbv zeta. destruct (_ || _); [auto with balance|]. apply balanced_bind; [solve [auto with balance]|]. intros st.
  destruct (_ =? _); [auto with balance|]. destruct (_ <? _); [auto with balance|].
  repeat (apply balanced_bind; [solve [auto with balance]|intros ?]). auto with balance.
Qed.
Lemma balanced_ReadPage ctx key : balanced (ReadPage env lifecycle ctx key).
Proof.
  apply balanced_withTask. intros ctx'. repeat (apply balanced_bind; [solve [auto with balance]|intros ?]). destruct (negb _); [auto with balance|].
  destruct (_ || _); [auto with balance|]. cbv zeta. destruct (_ || _); [auto with balance|]. apply (balanced_reserved _ _).
  repeat (apply balanced_bind; [solve [auto with balance]|intros ?]). auto with balance.
Qed.
End Balance.

(** Whatever it answers - a value, an error or a cancellation, and whatever
    the other goroutines do to the rest of the pager meanwhile - an operation of a
    pager leaves as many tasks and as many reserved bytes as it found. *)
Theorem operations_balance env lifecycle :
  (forall k p, owed (env k p) = owed p) -> forall ctx k p,
  (forall request, owed (WindowByByte env lifecycle ctx request k p).1.2 = owed p) /\
  (forall request, owed (WindowByFragment env lifecycle ctx request k p).1.2 = owed p) /\
  (forall request, owed (WindowByMeasure env lifecycle ctx request k p).1.2 = owed p) /\
  (forall key, owed (ReadPage env lifecycle ctx key k p).1.2 = owed p) /\
  (forall publication, owed (Publish env lifecycle ctx publication k p).1.2 = owed p) /\
  (forall provider, owed (Refresh env lifecycle ctx provider k p).1.2 = owed p).
Proof.
  intros Henv ctx k p. split_and!; intros; [by apply balanced_WindowByByte|by apply balanced_WindowByFragment|by apply balanced_WindowByMeasure|
    by apply balanced_ReadPage|by apply balanced_Publish|by apply balanced_Refresh].
Qed.

Lemma operations_balance_witness :
  (forall request, owed (WindowByByte quiet (fun _ => false) (Some never) request 0%nat ex_published).1.2 = (0, 0)) /\
  (forall publication, owed (Publish quiet (fun _ => false) (Some never) publication 0%nat ex_published).1.2 = (0, 0)).
Proof.
  destruct (operations_balance quiet (fun _ => false) (fun _ _ => eq_refl) (Some never) 0%nat ex_published) as (H1 & _ & _ & _ & H2 & _).
  assert (owed ex_published = (0, 0)) as E by (vm_compute; reflexivity).
  split; [intros request; rewrite H1; exact E|intros publication; rewrite H2; exact E].
Defined.
